(* ===== verification/_CoqProject ===== *)
-Q . S2P
Prelude.v
GoStrings.v
GoQuote.v
Regex.v
Prog.v
Civm.v
JitTypes.v
JitConfig.v
JitState.v
JitRunner.v
JitDispatcher.v
JitInvariants.v
JitSafety.v
JitContract.v
JitLimits.v
Procstat.v
JitGate.v
JitGateSafety.v
JitHost.v
JitQueue.v
JitHostSafety.v
JitContainment.v
Memwatchdog.v
Admit.v
AdmitSafety.v
AdmitSystem.v
AdmitCommand.v
Portblock.v
Runreaper.v
Dockerlock.v
DockerlockSafety.v
LockCommand.v
Safedelete.v
Redactor.v
Idle.v
RunnerUnits.v
WatchdogBase.v
WatchdogGitHub.v
Watchdog.v
WatchdogSafety.v
WatchdogLimits.v
WatchdogContract.v
WatchdogDemo.v
Cachetrim.v
CachetrimSafety.v
Cleanup.v
CleanupSafety.v
Hostdisk.v
Hook.v
HookSafety.v
HookVerdict.v
HookInstall.v
HookInstallSafety.v
Maintenance.v
MaintenanceSafety.v
Capacity.v
JitGitHub.v
JitGitHubSafety.v
JitSystem.v
JitWire.v
JitSystemSafety.v
WorkerPool.v
Activeruns.v
ActiverunsSafety.v
RunnerLifecycle.v
RunnerLifecycleSafety.v
Bootstrap.v
BootstrapSafety.v
SelfUpgrade.v
Health.v
Doctor.v
DoctorSafety.v
PeerStatus.v
Drift.v
VersionSafety.v
CiGuard.v
Metrics.v
DiskReports.v
ActionsMetrics.v
Commands.v
