(* ===== verification/Prelude.v ===== *)
(** * civm: a verification library

    civm runs GitHub Actions jobs on one shared self-hosted machine.  Its Go packages
    (under [src/internal]) decide who may run, keep the machine's locks, ports and
    disk in order, and dispatch trusted jobs to disposable runners.  This library
    models the packages that carry those decisions and proves what they promise.

    ** Parts and files

    - The JIT dispatcher ([src/internal/jitdispatcher]) dispatches one workflow per
      request, binds the run and its job, registers a just-in-time runner, starts an
      isolation driver and cleans everything up, across crashes, from a ledger on
      disk.  [JitTypes] holds the structs of types.go; [JitConfig] the validation of
      config.go; [JitState] the identities (identity.go) and the store (state.go:
      [Save], [Load], [List]) with its temporary-file protocol; [JitRunner] the driver
      protocol of runner.go; [JitDispatcher] the state machine of dispatcher.go, whole:
      [Dispatch], [reconcileStartup], [bindAndRun], [run], [cleanupLedger].  The GitHub
      client, the Guard lease and the queue lock are the interface [Deps].  [JitGitHub]
      models the client of github.go, every method of it, over one HTTP exchange as the
      effect, with pagination, base64 and the classification of errors.  [JitGate]
      models what is behind the lease: the gate of gate_linux.go, the marker file and
      the lease-holding child of gate.go, and the process identities of process_linux.go.
      [JitHost] models the host below: trusted files and directories, the queue lock
      (queue_linux.go), the cgroup containment (containment_linux.go), [LoadConfig] and
      [OpenStore].  [JitSystem] is the command ([src/cmd/civmctl/jitdispatch.go]): the
      dispatcher with these parts for its interface, from the configuration to the exit
      status, on a machine with one store per state directory.  [Redactor] models the log redactor of runner.go.
    - The admission gate ([src/internal/admit], file [Admit]) bounds the heavy jobs with
      flocks, after the memory watchdog ([src/internal/memwatchdog], [Memwatchdog]) and
      with process identities from [src/internal/procstat] ([Procstat]).  [AdmitCommand] is
      the command around it ([src/cmd/civmctl/admit.go]) with its two goroutines.
    - [Portblock] ([src/internal/portblock]) gives every runner its own block of ports.
    - [Runreaper] ([src/internal/runreaper]) cancels workflow runs that no longer matter.
    - [Dockerlock] ([src/internal/dockerlock]) is the box-wide docker lock with its
      heartbeat; [LockCommand] the command around it ([src/cmd/civmctl/lock.go]).
    - [Safedelete] ([src/internal/safedelete]) deletes root-owned leftovers with sudo.
    - [Idle] ([src/internal/idle]) tells from the process list whether a job is running;
      [RunnerUnits] ([src/internal/runner], list.go and serialize.go) lists the runner
      units and finds collisions between them.
    - The runner watchdog ([src/internal/runner/watchdog.go]) restarts stuck runners and
      reruns network failures: [WatchdogBase] has its data, options and marker file,
      [WatchdogGitHub] its calls through gh, [Watchdog] the whole tick with the fenced
      restart.
    - [Cachetrim] ([src/internal/cachetrim]) keeps caches within a budget, [Cleanup]
      ([src/internal/cleanup]) sweeps work directories, docker and apt, [Hostdisk]
      reads the metrics of the host's volume ([src/internal/hostdisk]) and starts a cleanup
      under pressure ([src/internal/diskwatchdog]).
    - [Hook] ([src/internal/hook/hook.go]) runs before and after every job: hygiene of
      the work roots, containers, images, caches, and the verdict on the disk.
      [HookInstall] (install.go and scoped_sudoers.go) installs the hooks, the privileged
      wrappers with their sudoers drop-in, and the environment of every runner.
    - [Maintenance] ([src/internal/maintenance]) drains the host and restores it.
    - [Capacity] ([src/internal/capacity]) reports whether the host accepts jobs, with
      the probes of lock, ports, admission slots and queue behind it.
    - [Activeruns] ([src/internal/activeruns]) reports the runs in progress over the
      fleet; its pool of goroutines is the step relation of [WorkerPool].
    - [RunnerLifecycle] ([src/internal/runner], runner.go, restart.go, upgrade.go and
      idle.go) installs, removes, restarts and upgrades runners.
    - [Bootstrap] ([src/internal/bootstrap], [src/internal/specs]) provisions the host;
      [SelfUpgrade] ([src/internal/selfupgrade]) replaces the binary.
    - [Health] ([src/internal/health], [src/internal/reversewatchdog]) and [Doctor]
      ([src/internal/doctor]) check the host; [CiGuard] ([src/internal/ciguard]) lints the
      compose files and workflows of a consumer repository.
    - [PeerStatus] ([src/internal/billing], [src/internal/peerstatus]), [Drift]
      ([src/internal/drift], [src/internal/parity]), [ActionsMetrics]
      ([src/internal/actionsmetrics]), [Metrics] ([src/internal/metrics],
      [src/internal/cireport]) and [DiskReports] ([src/internal/diskdoctor],
      [src/internal/diskaudit]) are the reports.
    - [Commands] ([src/cmd/civmctl]) has the dispatch of main and, with the package flag, the
      front ends of the packages that change a host; bootstrap-everything is there too.
    - [Civm] ([src/internal/civm]) has the shared constants and input validators.

    ** How code becomes definitions

    Every Go function is a definition with the function's name (a prefix is added
    where two packages use one name), every struct a record, every enumeration an
    inductive type.  [error] is a value with the sentinels that [errors.Is] can see;
    the text of a message is kept without the values printed into it.  [int64],
    [uint64] and [time.Duration] are [Z], wrapped where the code can overflow; an
    instant ([time.Time]) is an unbounded [Z] of nanoseconds.  Strings and byte slices
    are Rocq strings or lists of bytes; [GoStrings] defines the functions of [strings],
    [strconv] and [path/filepath] that the code uses, [GoQuote] the quoted strings of
    [strconv] and the UTF-8 that [encoding/json] enforces, and [Regex] the regular expressions: matching of anchored patterns,
    leftmost-first search, and search with word boundaries, each proved right for the
    language of the pattern.  [sort.Slice] is the class
    [SortSlice]: any sorting that is a sorted permutation, stable or not; and
    [sort.SliceStable] the class [SortStable].  The seconds of a duration are the
    [float64] arithmetic of the code, in the exact semantics of [SpecFloat].

    Effects come in two forms.  The packages that inject their effects as function
    fields are programs over those effects ([Prog]): trees of calls that can be run
    against a concrete machine, judged under any answers of the environment ([wpp]) or
    interleaved with other processes ([pstep]).  The dispatcher is a state monad over a
    [World] with the disk, the ledger in memory and a log of the external effects; an
    operation of the outside world may also answer that the process is killed there,
    which ends the call and keeps the disk.

    ** What is proved

    - [JitInvariants], [JitSafety], [JitContract]: over any sequence of [Dispatch]
      calls, killed anywhere, with any answers of GitHub and of the system calls: one
      dispatch per request, at most one unfinished ledger, intents durable before their
      effects, runs and runners touched only with a matching identity, the secret sent
      only after the ready proof, the lease released only after the cleanup, immutable
      identities, and a success that is durable, with a concrete world that reaches
      every situation the theorems speak of.  [JitLimits]: the polling loops
      and with them [Dispatch] end; and two executions that go wrong (a leftover temporary file blocks every
      later dispatch; the stale exit releases without a durable cleanup).
    - [JitGateSafety]: the gate removes only markers of its own admission and kills only
      the holder that such a marker, read last, names and that it has just identified, a failure that is not called ambiguous leaves
      nothing behind, and the child keeps its marker unless it is told to release it.
    - [JitGitHubSafety]: a change is at most one request and an error
      that is not ambiguous means that nothing was changed; listings are complete or an
      error; the workflow is read back byte for byte; reads change nothing and are
      checked; and a branch name for which another branch is resolved.
    - [JitQueue]: under any interleaving of any number of processes, with deaths, one
      dispatcher at most is inside the queue.  [JitHostSafety]: only trusted files are
      used, and no descriptor is leaked.  [JitContainment]: only the driver of the lease
      is signalled, and success means that it is gone.
    - [JitWire], [JitSystemSafety]: the class [Wired] says what the dispatcher needs of
      its dependencies for its log to explain the wire; the production wiring is an
      instance.  So, over any runs of the command on one state directory, every request that
      changes something is the one a durable ledger there announced, and exit 0 means a
      completed request.
      The command is also evaluated from end to end.
    - [AdmitSafety], [AdmitSystem]: locks are held exactly as granted,
      the capacity is never exceeded by any interleaving of any number of processes,
      [Acquire] ends, only orphaned units are stopped.  [AdmitCommand]: on every schedule
      of the goroutines of the command the slot is held while its payload can run, with
      two named exceptions, and everything is freed at the end.
    - [Portblock]: the search finds the lowest free block, blocks are disjoint and
      allocations are kept for ever, also against other writers before the lock is held,
      for slots whose names are UTF-8; and what happens to another one.
    - [Runreaper]: only stale pull-request runs are cancelled, oldest first, never
      in a dry run, and the report accounts for every attempt; and the case in which a
      current head is cancelled.
    - [DockerlockSafety]: no descriptor or flock is leaked, a heartbeat lasts exactly
      three intervals, reclaim and [IsActive] agree on a machine at rest; and the
      interleaving in which a live heartbeat is removed.  [LockCommand]: what the command
      promises on every schedule, also with other processes that remove its heartbeat, and
      the races of its release.
    - [Safedelete]: no privileged command and no delete without evidence for that
      path, and the dangling link that needs no owner.  [Redactor]: which values never
      reach the log and which do, and that chunks do not matter.
    - [Procstat], [Memwatchdog]: the parsers recover what was written, and the watchdog
      is happy only with healthy memory.
    - [WatchdogSafety], [WatchdogContract], [WatchdogLimits]: under
      any answers a tick acts only on evidence taken right before and on the marker file as
      it was loaded, restarts are fenced, recorded first, kept in the file for their hour
      and capped over any sequence of ticks, and the report is honest;
      [WatchdogDemo] has the witnesses and the executions that go wrong.
    - [CachetrimSafety], [CleanupSafety]: budgets are enforced oldest
      first, a dry run predicts the real one, every deletion follows its evidence: the
      known caches with their budgets and the configured directories are tables of their
      own, independent of the code.
      [Hostdisk], [Capacity] state and prove their verdicts in place.
    - [HookSafety], [HookVerdict]: a hook touches only what belongs to its own runner,
      with privilege only below a work root, and what its exit code says.
      [HookInstallSafety]: the drop-in is activated only after visudo and the environments
      only after the probes; the environment files are reconciled and the scripts run the
      binary they name.
    - [MaintenanceSafety]: a drain is ordered, guarded and recorded, and an exit restores
      what any sequence of entries has drained, up to the attempts that fail; with the
      units and records for which this does not hold.
    - [WorkerPool]: the pool stays within its concurrency, always ends, is never stuck,
      and without cancellation its result does not depend on the schedule.
      [ActiverunsSafety]: the report holds exactly the listed runs, under every
      schedule; and what a cancelled listing reports.
    - [RunnerLifecycleSafety]: commands follow their plan, only verified archives are
      unpacked, a stopped unit is started again whatever fails; and what reaches a shell.
    - [BootstrapSafety]: provisioning changes anything only as root on the right system,
      and runs, unpacks and trusts only what it has verified.  [SelfUpgrade]: the target
      is what it was or a verified binary, and what two upgrades at once can do.
    - [DoctorSafety]: the exit code is the worst finding, no check is left out, and what
      the installation of hooks writes is accepted.  [CiGuard]: the report is exactly
      what the lines break and the waivers leave, whatever the order of the map of waivers,
      what wrapping proves and what escapes.  [VersionSafety]: drift and parity compare by the numeric order, and
      their reports are right by it.  [PeerStatus], [ActionsMetrics], [DiskReports]: the
      counts and totals are those of their entries, and where they mislead.  [Metrics]: the
      file is replaced whole and can be read back.
    - [Commands]: without the flag --execute no command that can change a host does more
      than read, whatever the other arguments; and a fresh host that bootstrap-everything
      leaves without its timers.

    ** Bounds

    Loops without a structural measure take fuel.  [JitLimits] shows that fuel above
    the number of sleeps the contexts allow is never used up, [AdmitSystem] the same
    for fuel above the backoffs that fit into the wait budget; the loop of
    [Redactor.Write] gets one unit per buffered byte and [Portblock.nextFreeBase] one
    per block of the window, both shown to be enough where the results are stated.
    Safety theorems hold for every fuel.

    ** What is not modelled

    The JSON codecs are parameters (in [Portblock] and [Maintenance] classes), with the
    round-trip laws a theorem needs as named hypotheses that a concrete codec satisfies;
    the laws are those of [encoding/json], which replaces bytes that are not UTF-8 and
    writes only times of the years 0 to 9999.
    So are [url.Parse] and [URL.String], [time.ParseDuration], the RFC 3339 format,
    the formatting of durations, [unicode.IsPrint] above ASCII and the conversion of
    decimal fractions.  The order in which a Go map is traversed is the
    class [MapRange]: any permutation of its entries.  The calls of one [Dispatch] are
    not interleaved with another: the machine-wide queue lock, taken before anything is
    read, serialises them ([JitQueue]).  A completed rename survives a
    crash of the process; loss of power is not modelled.  Logging, the
    texts of reports and their rendering are outside.

    Left out on purpose: the default wirings of the injected functions, which are single
    system calls; the messages of the command line, and the flags of the commands that only
    report, of the hook events, and of those that have a file of their own ([JitSystem],
    [AdmitCommand], [LockCommand]), which starts from the parsed flags; the named periods of
    [actionsmetrics], which
    are calendar arithmetic of the standard library; and the scripts, units and C sharp and
    PowerShell programs around the Go program. *)

From stdpp Require Export base tactics list sorting gmap strings.
From Stdlib Require Export ZArith Lia Ascii String.
From Stdlib Require SpecFloat.

#[global] Open Scope Z_scope.

(** ** Go errors

    A Go [error] is observed by civm in three ways: by [errors.Is] against a
    sentinel variable, by [errors.As] into [*HTTPError], and by its text.  The
    model keeps exactly these: the sentinels found in the wrap tree, the status
    of the first [*HTTPError] in it, and the message. *)

Inductive sentinel :=
  | ErrNotExist            (* io/fs: os.ErrNotExist, os.IsNotExist *)
  | ErrExist               (* io/fs: os.ErrExist, os.IsExist *)
  | ErrPermission          (* io/fs: fs.ErrPermission *)
  | EWOULDBLOCK            (* syscall: EWOULDBLOCK == EAGAIN on Linux *)
  | DeadlineExceeded       (* context *)
  | Canceled               (* context *)
  | ExitError              (* os/exec: some *exec.ExitError is in the tree *)
  | ErrSlotBusy            (* admit: errSlotBusy *)
  | ErrWaitBudgetExceeded  (* admit, dockerlock *)
  | ErrUnsafePath          (* safedelete *)
  | ErrPortWindowExhausted (* portblock *)
  | ErrRunAlreadyCompleted (* runreaper *)
  | ErrAmbiguous           (* jitdispatcher *)
  | ErrBusy                (* jitdispatcher *)
  | ErrInvalid             (* jitdispatcher *)
  | ErrReplay              (* jitdispatcher *)
  | ErrStale               (* jitdispatcher *)
  | ErrRunnerBecameBusy    (* runner watchdog *)
  | EOF                    (* io *)
  | ErrUnexpectedEOF.      (* io *)

#[global] Instance sentinel_eq_dec : EqDecision sentinel.
Proof. solve_decision. Defined.

Record error := Error {
  err_tags : list sentinel;
  err_http : option Z;
  err_text : string;
}.

#[global] Instance error_eq_dec : EqDecision error.
Proof. solve_decision. Defined.

(** [errors.Is(err, sentinel)] for a non-nil [err]. *)
Definition errors_Is (e : error) (s : sentinel) : bool := bool_decide (s ∈ err_tags e).

(** [errors.Is] on a possibly nil error. *)
Definition errors_Is_opt (e : option error) (s : sentinel) : bool :=
  match e with Some e => errors_Is e s | None => false end.

(** [errors.New(text)], and [fmt.Errorf] without a [%w] verb. *)
Definition Errorf (text : string) : error := Error [] None text.

(** The sentinel itself, or [fmt.Errorf("%w: text", sentinel)]. *)
Definition Errorf_s (s : sentinel) (text : string) : error := Error [s] None text.

(** [fmt.Errorf("text: %w", e)]. *)
Definition Errorf_w (text : string) (e : error) : error :=
  Error (err_tags e) (err_http e) (text +:+ ": " +:+ err_text e).

(** [fmt.Errorf("%w: text: %w", sentinel, e)]. *)
Definition Errorf_sw (s : sentinel) (text : string) (e : error) : error :=
  Error (s :: err_tags e) (err_http e) (text +:+ ": " +:+ err_text e).

(** [errors.Join(e1, e2)] of two non-nil errors. *)
Definition errors_Join2 (e1 e2 : error) : error :=
  Error (err_tags e1 ++ err_tags e2)
        (match err_http e1 with Some s => Some s | None => err_http e2 end)
        (err_text e1 +:+ String "010" (err_text e2)).

(** [errors.Join] drops nil errors and is nil when all are. *)
Definition errors_Join (e1 e2 : option error) : option error :=
  match e1, e2 with
  | Some e1, Some e2 => Some (errors_Join2 e1 e2)
  | Some e1, None => Some e1
  | None, e2 => e2
  end.

(** A Go [(T, error)] pair whose value is ignored when the error is non-nil. *)
Inductive result (A : Type) := Ok (a : A) | Err (e : error).
Arguments Ok {A} a.
Arguments Err {A} e.

#[global] Instance result_eq_dec {A} `{EqDecision A} : EqDecision (result A).
Proof. solve_decision. Defined.

(** An [error] return: [None] is Go's [nil]. *)
Abbreviation err_ret := (option error).

(** ** Total stateful code

    [St W A] is code that reads and changes a world [W] and always returns. *)

Definition St (W A : Type) : Type := W -> A * W.

#[global] Instance St_ret W : MRet (St W) := fun A a w => (a, w).
#[global] Instance St_bind W : MBind (St W) :=
  fun A B k m w => let '(a, w') := m w in k a w'.

(** The caller's view of a run: result and final world. *)
Definition st_val {W A} (m : St W A) (w : W) : A := fst (m w).
Definition st_world {W A} (m : St W A) (w : W) : W := snd (m w).

(** ** Stateful code that may loop or be killed

    [M W A] is code over a world [W] whose run ends in one of three ways: it
    returns, the process is killed in the middle ([Crashed]; the world stays as
    the killed process left it and no deferred call runs), or the fuel that
    bounds the unbounded [for] loops of the source runs out ([NoFuel]). *)

Inductive outcome (A : Type) := Ret (a : A) | Crashed | NoFuel.
Arguments Ret {A} a.
Arguments Crashed {A}.
Arguments NoFuel {A}.

Definition M (W A : Type) : Type := W -> outcome A * W.

#[global] Instance M_ret W : MRet (M W) := fun A a w => (Ret a, w).
#[global] Instance M_bind W : MBind (M W) :=
  fun A B k m w =>
    match m w with
    | (Ret a, w') => k a w'
    | (Crashed, w') => (Crashed, w')
    | (NoFuel, w') => (NoFuel, w')
    end.

Definition get {W} : M W W := fun w => (Ret w, w).
Definition modify {W} (f : W -> W) : M W unit := fun w => (Ret tt, f w).
Definition out_of_fuel {W A} : M W A := fun w => (NoFuel, w).

(** Weakest precondition with a crash condition: [wp m Q C w] says that a run of
    [m] from [w] that returns ends in [Q], and that a run that is killed (or
    stops for lack of fuel) leaves a world that satisfies [C]. *)
Definition wp {W A} (m : M W A) (Q : A -> W -> Prop) (C : W -> Prop) (w : W) : Prop :=
  match m w with
  | (Ret a, w') => Q a w'
  | (Crashed, w') => C w'
  | (NoFuel, w') => C w'
  end.

Section wp.
Context {W : Type}.
Implicit Types C : W -> Prop.

Lemma wp_ret {A} (a : A) Q C w : Q a w -> wp (mret a) Q C w.
Proof. done. Qed.

Lemma wp_bind {A B} (m : M W A) (k : A -> M W B) Q C w :
  wp m (fun a w' => wp (k a) Q C w') C w -> wp (m ≫= k) Q C w.
Proof.
  unfold wp, mbind, M_bind. destruct (m w) as [[a| |] w']; done.
Qed.

Lemma wp_mono {A} (m : M W A) (Q Q' : A -> W -> Prop) C C' w :
  wp m Q C w ->
  (forall a w', Q a w' -> Q' a w') -> (forall w', C w' -> C' w') ->
  wp m Q' C' w.
Proof. unfold wp. destruct (m w) as [[a| |] w']; eauto. Qed.

Lemma wp_get Q C w : Q w w -> wp get Q C w.
Proof. done. Qed.

Lemma wp_modify (f : W -> W) Q C w : Q tt (f w) -> wp (modify f) Q C w.
Proof. done. Qed.

Lemma wp_out_of_fuel {A} (Q : A -> W -> Prop) C w : C w -> wp out_of_fuel Q C w.
Proof. done. Qed.

(** What [wp] says of a run that returned. *)
Lemma wp_run {A} (m : M W A) Q C w a w' :
  wp m Q C w -> m w = (Ret a, w') -> Q a w'.
Proof. unfold wp. intros H E. by rewrite E in H. Qed.

(** A postcondition that is also the crash condition holds however the run ends. *)
Lemma wp_any {A} (m : M W A) C w :
  wp m (fun _ => C) C w -> C (snd (m w)).
Proof. unfold wp. by destruct (m w) as [[a| |] w']. Qed.

Lemma wp_conj {A} (m : M W A) (Q1 Q2 : A -> W -> Prop) C1 C2 w :
  wp m Q1 C1 w -> wp m Q2 C2 w ->
  wp m (fun a w' => Q1 a w' /\ Q2 a w') (fun w' => C1 w' /\ C2 w') w.
Proof. unfold wp. by destruct (m w) as [[a| |] w']. Qed.
End wp.

(** The code [m] keeps [I] true whatever happens, crash included. *)
Definition keeps {W A} (I : W -> Prop) (m : M W A) : Prop :=
  forall w, I w -> wp m (fun _ => I) I w.

Create HintDb civm discriminated.

Section keeps.
Context {W : Type} (I : W -> Prop).

Lemma keeps_ret {A} (a : A) : keeps I (mret a).
Proof. by intros w Hw. Qed.

Lemma keeps_bind {A B} (m : M W A) (k : A -> M W B) :
  keeps I m -> (forall a, keeps I (k a)) -> keeps I (m ≫= k).
Proof.
  intros Hm Hk w Hw. apply wp_bind. eapply wp_mono; [by apply Hm| |done].
  intros a w' Hw'. by apply Hk.
Qed.

(** An invariant rides along with any other reasoning about the same run. *)
Lemma wp_keeps {A} (m : M W A) (Q Q' : A -> W -> Prop) w :
  keeps I m -> I w -> wp m Q (fun _ => True) w ->
  (forall a w', I w' -> Q a w' -> Q' a w') -> wp m Q' I w.
Proof.
  intros Hm Hw HQ Himp. pose proof (wp_conj _ _ _ _ _ _ (Hm w Hw) HQ) as H.
  eapply wp_mono; [exact H| |]; cbn; naive_solver.
Qed.

Lemma wp_and_keeps {A} (m : M W A) (Q Q' : A -> W -> Prop) (C' : W -> Prop) w :
  keeps I m -> I w -> wp m Q (fun _ => True) w ->
  (forall a w', I w' -> Q a w' -> Q' a w') -> (forall w', I w' -> C' w') -> wp m Q' C' w.
Proof. intros Hm Hw HQ Himp HC. eapply wp_mono; [by eapply wp_keeps|done|done]. Qed.

Lemma keeps_get : keeps I get.
Proof. by intros w Hw. Qed.

Lemma keeps_modify f : (forall w, I w -> I (f w)) -> keeps I (modify f).
Proof. intros Hf w Hw. apply wp_modify. by apply Hf. Qed.

Lemma keeps_out_of_fuel {A} : keeps I (@out_of_fuel W A).
Proof. by intros w Hw. Qed.
End keeps.

#[export] Hint Resolve keeps_ret keeps_get keeps_out_of_fuel : civm.

(** Deferred calls run when the function returns, never when the process is killed. *)
Definition deferred {W A} (m : M W A) (d : M W unit) : M W A :=
  a ← m; d ;; mret a.

(** ** Automation *)

(** Split a boolean conjunction, negation or comparison in the hypotheses. *)
Ltac bsplit :=
  repeat match goal with
  | H : _ && _ = true |- _ => apply andb_prop in H as [? ?]
  | H : _ || _ = false |- _ => apply orb_false_elim in H as [? ?]
  | H : negb _ = true |- _ => apply negb_true_iff in H
  | H : negb _ = false |- _ => apply negb_false_iff in H
  | H : bool_decide _ = true |- _ => apply bool_decide_eq_true in H
  | H : bool_decide _ = false |- _ => apply bool_decide_eq_false in H
  | H : (_ =? _) = true |- _ => apply Z.eqb_eq in H
  | H : (_ =? _) = false |- _ => apply Z.eqb_neq in H
  | H : (_ <? _) = true |- _ => apply Z.ltb_lt in H
  | H : (_ <? _) = false |- _ => apply Z.ltb_ge in H
  | H : (_ <=? _) = true |- _ => apply Z.leb_le in H
  | H : (_ <=? _) = false |- _ => apply Z.leb_gt in H
  end.

(** Case analysis on every [match] scrutinee of the goal, keeping equations. *)
Ltac split_match :=
  repeat (case_match; simplify_eq/=; try done).

(** ** Machine integers *)

Definition max_int64 : Z := 2 ^ 63 - 1.
Definition min_int64 : Z := - 2 ^ 63.

(** Two's complement wrap-around of Go's [int], [int64] and [time.Duration]. *)
Definition int64 (z : Z) : Z := (z + 2 ^ 63) `mod` 2 ^ 64 - 2 ^ 63.
Definition uint64 (z : Z) : Z := z `mod` 2 ^ 64.

Lemma int64_id z : min_int64 <= z <= max_int64 -> int64 z = z.
Proof.
  unfold int64, min_int64, max_int64. intros. rewrite Z.mod_small; lia.
Qed.

Lemma uint64_id z : 0 <= z < 2 ^ 64 -> uint64 z = z.
Proof. unfold uint64. intros. by rewrite Z.mod_small. Qed.

Lemma int64_add_l a b : int64 (int64 a + b) = int64 (a + b).
Proof.
  unfold int64. f_equal. replace ((a + 2 ^ 63) `mod` 2 ^ 64 - 2 ^ 63 + b + 2 ^ 63) with ((a + 2 ^ 63) `mod` 2 ^ 64 + b) by lia.
  rewrite Z.add_mod_idemp_l by done. f_equal. lia.
Qed.

(** Durations are nanosecond counts. *)
Definition Millisecond : Z := 1000000.
Definition Second : Z := 1000 * Millisecond.
Definition Minute : Z := 60 * Second.
Definition Hour : Z := 60 * Minute.

(** ** [sort.Slice]

    [sort.Slice] is not stable: all a caller may rely on is that the result is a
    permutation of the input in which no element is less than its predecessor.
    The components are proved against this contract. *)
Class SortSlice := {
  sort_slice : forall {A : Type}, (A -> A -> bool) -> list A -> list A;
  sort_slice_perm : forall A (lt : A -> A -> bool) l, sort_slice lt l ≡ₚ l;
  sort_slice_sorted : forall A (lt : A -> A -> bool) l,
    (forall x y, lt x y = true -> lt y x = false) ->
    (forall x y z, lt y x = false -> lt z y = false -> lt z x = false) ->
    StronglySorted (fun x y => lt y x = false) (sort_slice lt l);
}.

Lemma sort_slice_elem_of `{SortSlice} {A} (lt : A -> A -> bool) l x :
  x ∈ sort_slice lt l <-> x ∈ l.
Proof. by rewrite (sort_slice_perm A lt l). Qed.

Lemma StronglySorted_weaken {A} (R R' : A -> A -> Prop) l :
  StronglySorted R l -> (forall x y, R x y -> R' x y) -> StronglySorted R' l.
Proof.
  intros Hs HR. induction Hs as [|x l _ IH Hall]; constructor; [done|].
  eapply Forall_impl; [exact Hall|]. auto.
Qed.

(** Insertion sort meets the contract. *)
Section insertion_sort.
Context {A : Type} (lt : A -> A -> bool).

Fixpoint insert_by (x : A) (l : list A) : list A :=
  match l with
  | [] => [x]
  | y :: l => if lt y x then y :: insert_by x l else x :: y :: l
  end.

Definition insertion_sort (l : list A) : list A := foldr insert_by [] l.

Lemma insert_by_perm x l : insert_by x l ≡ₚ x :: l.
Proof.
  induction l as [|y l IH]; cbn; [done|]. case_match; [|done].
  rewrite IH. by rewrite Permutation_swap.
Qed.

Lemma insertion_sort_perm l : insertion_sort l ≡ₚ l.
Proof. induction l as [|x l IH]; cbn; [done|]. by rewrite insert_by_perm, IH. Qed.

Lemma insertion_sort_sorted l :
  (forall x y, lt x y = true -> lt y x = false) ->
  (forall x y z, lt y x = false -> lt z y = false -> lt z x = false) ->
  StronglySorted (fun x y => lt y x = false) (insertion_sort l).
Proof.
  intros Hasym Htrans. induction l as [|x l IH]; cbn; [constructor|].
  change (foldr insert_by [] l) with (insertion_sort l).
  revert IH. generalize (insertion_sort l) as s. intros s IH.
  induction IH as [|y l' Hs IHs Hall]; cbn; [by repeat constructor|].
  destruct (lt y x) eqn:E.
  - constructor; [done|]. rewrite insert_by_perm. constructor; [by apply Hasym|done].
  - constructor; [by constructor|]. constructor; [done|].
    eapply Forall_impl; [exact Hall|]. cbn. intros z Hz. by apply (Htrans x y z).
Qed.
End insertion_sort.

(** Used by the witnesses; the theorems hold for every instance. *)
Definition SortSlice_insertion : SortSlice := {|
  sort_slice A lt l := insertion_sort lt l;
  sort_slice_perm A lt l := insertion_sort_perm lt l;
  sort_slice_sorted A lt l := insertion_sort_sorted lt l;
|}.

(** ** [sort.SliceStable]

    For a strict weak order there is exactly one stable sort; otherwise the result is some
    permutation. *)
Class SortStable := {
  sort_stable : forall {A : Type}, (A -> A -> bool) -> list A -> list A;
  sort_stable_perm : forall A (lt : A -> A -> bool) l, sort_stable lt l ≡ₚ l;
  sort_stable_eq : forall A (lt : A -> A -> bool) l,
    (forall x y, x ∈ l -> y ∈ l -> lt x y = true -> lt y x = false) ->
    (forall x y z, x ∈ l -> y ∈ l -> z ∈ l -> lt y x = false -> lt z y = false -> lt z x = false) ->
    sort_stable lt l = insertion_sort lt l;
}.

(** Only the order of the elements matters. *)
Lemma insertion_sort_ext {A} (lt lt' : A -> A -> bool) l :
  (forall x y, x ∈ l -> y ∈ l -> lt x y = lt' x y) -> insertion_sort lt l = insertion_sort lt' l.
Proof.
  induction l as [|x l IH]; intros Heq; cbn; [done|]. fold (insertion_sort lt l) (insertion_sort lt' l).
  rewrite IH by (intros; apply Heq; by apply list_elem_of_further).
  assert (forall y, y ∈ insertion_sort lt' l -> lt y x = lt' y x) as Hs.
  { intros y Hy. rewrite insertion_sort_perm in Hy. apply Heq; [by apply list_elem_of_further|apply list_elem_of_here]. }
  revert Hs. generalize (insertion_sort lt' l) as s. intros s. induction s as [|y s IHs]; intros Hs; cbn; [done|].
  rewrite Hs by apply list_elem_of_here. case_match; [|done]. f_equal. apply IHs. intros z Hz. apply Hs. by apply list_elem_of_further.
Qed.

Definition SortStable_insertion : SortStable := {|
  sort_stable A lt l := insertion_sort lt l;
  sort_stable_perm A lt l := insertion_sort_perm lt l;
  sort_stable_eq A lt l _ _ := eq_refl;
|}.

(** ** Time

    An instant is a number of nanoseconds since the zero [time.Time], which is 0. *)

Definition IsZero (t : Z) : bool := t =? 0.

(** [t.Sub(u)] saturates at the ends of [time.Duration]. *)
Definition time_Sub (t u : Z) : Z := Z.max min_int64 (Z.min max_int64 (t - u)).

(** [float64(z)], rounded to the nearest binary64. *)
Definition float64 (z : Z) : SpecFloat.spec_float := SpecFloat.binary_normalize 53 1024 z 0 false.

(** [d.Seconds()]: the whole seconds plus the rest over 1e9, in binary64. *)
Definition Seconds (d : Z) : SpecFloat.spec_float :=
  SpecFloat.SFadd 53 1024 (float64 (Z.quot d Second))
    (SpecFloat.SFdiv 53 1024 (float64 (Z.rem d Second)) (float64 1000000000)).

(** [int64(x)] of a finite float: towards zero. *)
Definition truncate_float (x : SpecFloat.spec_float) : Z :=
  match x with
  | SpecFloat.S754_finite s m e => (if s then -1 else 1) * Z.quot (Z.pos m * 2 ^ Z.max 0 e) (2 ^ Z.max 0 (- e))
  | _ => 0
  end.

(** [int64] of a float64, as the machine converts it. *)
Definition int64_of_float (x : SpecFloat.spec_float) : Z :=
  match x with
  | SpecFloat.S754_zero _ => 0
  | SpecFloat.S754_finite _ _ _ =>
      let z := truncate_float x in if (min_int64 <=? z) && (z <=? max_int64) then z else min_int64
  | _ => min_int64
  end.

(** [int64(d.Seconds())]: the whole seconds, towards zero, up to the rounding of long
    durations. *)
Definition whole_seconds (d : Z) : Z := truncate_float (Seconds d).

Example whole_seconds_ex :
  whole_seconds <$> [5999999999; - 5999999999; 999999999; 2 ^ 24 * Second + 999999999] = [5; -5; 0; 2 ^ 24 + 1].
Proof. vm_compute. reflexivity. Qed.

Lemma time_Sub_le t u d : time_Sub t u <= d -> d < max_int64 -> t - u <= d.
Proof. unfold time_Sub. lia. Qed.

Lemma time_Sub_ge t u d : d <= time_Sub t u -> min_int64 < d -> d <= t - u.
Proof. unfold time_Sub. lia. Qed.

Lemma time_Sub_lt t u d : time_Sub t u < d -> d <= max_int64 -> t - u < d.
Proof. unfold time_Sub. lia. Qed.

Lemma time_Sub_exact t u : min_int64 <= t - u <= max_int64 -> time_Sub t u = t - u.
Proof. unfold time_Sub. lia. Qed.

(** ** Ranging over a Go map

    The order of [for k, v := range m] is unspecified: any permutation. *)
Class MapRange := {
  map_range : forall {A : Type}, gmap string A -> list (string * A);
  map_range_perm : forall A (m : gmap string A), map_range m ≡ₚ map_to_list m;
}.

Lemma elem_of_map_range `{MapRange} {A} (m : gmap string A) k v :
  (k, v) ∈ map_range m <-> m !! k = Some v.
Proof. by rewrite map_range_perm, elem_of_map_to_list. Qed.

Definition MapRange_to_list : MapRange := {|
  map_range A m := map_to_list m;
  map_range_perm A m := reflexivity (map_to_list m);
|}.

(** The sorted keys of a map. *)
Definition sorted_keys `{SortSlice} {A} (m : gmap string A) : list string :=
  sort_slice String.ltb (fst <$> map_to_list m).

Lemma elem_of_sorted_keys `{SortSlice} {A} (m : gmap string A) k :
  k ∈ sorted_keys m <-> is_Some (m !! k).
Proof.
  unfold sorted_keys. rewrite sort_slice_elem_of, list_elem_of_fmap. split.
  - intros ([k' v] & -> & Hk%elem_of_map_to_list). by exists v.
  - intros [v Hv]. exists (k, v). by rewrite elem_of_map_to_list.
Qed.

Lemma NoDup_sorted_keys `{SortSlice} {A} (m : gmap string A) : NoDup (sorted_keys m).
Proof. unfold sorted_keys. rewrite sort_slice_perm. apply NoDup_fst_map_to_list. Qed.
