(* ===== verification/GoStrings.v ===== *)
(** * Go strings and paths

    The parts of Go's [strings], [strconv] and [path/filepath] (Unix) that civm
    uses.  A Go string is a byte sequence; [string] is a sequence of 8-bit
    [ascii] characters, so the two coincide. *)

From Stdlib Require OrderedTypeEx.
From stdpp Require Export pretty.
From S2P Require Import Prelude.

Local Open Scope string_scope.
Local Open Scope list_scope.
Local Open Scope Z_scope.

#[global] Arguments String.append : simpl nomatch.
#[global] Arguments ascii_dec : simpl never.

(** ** Characters *)

Definition code (c : ascii) : Z := Z.of_N (N_of_ascii c).

Definition in_range (lo hi : ascii) (c : ascii) : bool :=
  (code lo <=? code c) && (code c <=? code hi).

Definition is_lower := in_range "a" "z".
Definition is_upper := in_range "A" "Z".
Definition is_digit := in_range "0" "9".

Definition lower_char (c : ascii) : ascii :=
  if is_upper c then ascii_of_N (N_of_ascii c + 32) else c.
Definition upper_char (c : ascii) : ascii :=
  if is_lower c then ascii_of_N (N_of_ascii c - 32) else c.

(** ** Whole-string predicates and maps *)

Fixpoint str_forallb (p : ascii -> bool) (s : string) : bool :=
  match s with
  | EmptyString => true
  | String c s => p c && str_forallb p s
  end.

Fixpoint str_map (f : ascii -> ascii) (s : string) : string :=
  match s with
  | EmptyString => EmptyString
  | String c s => String (f c) (str_map f s)
  end.

Fixpoint str_filter (p : ascii -> bool) (s : string) : string :=
  match s with
  | EmptyString => EmptyString
  | String c s => if p c then String c (str_filter p s) else str_filter p s
  end.

(** [len(s)]. *)
Definition len (s : string) : Z := Z.of_nat (String.length s).

(** [strings.ToLower] and [strings.ToUpper] on ASCII letters; other bytes are kept. *)
Definition ToLower (s : string) : string := str_map lower_char s.
Definition ToUpper (s : string) : string := str_map upper_char s.

(** [strings.EqualFold] on ASCII text. *)
Definition EqualFold (a b : string) : bool := String.eqb (ToLower a) (ToLower b).

(** ** Prefixes, suffixes, substrings *)

Fixpoint drop_str (n : nat) (s : string) : string :=
  match n, s with
  | O, _ => s
  | S n, String _ s => drop_str n s
  | S _, EmptyString => EmptyString
  end.

Fixpoint take_str (n : nat) (s : string) : string :=
  match n, s with
  | S n, String c s => String c (take_str n s)
  | _, _ => EmptyString
  end.

Definition HasPrefix (s p : string) : bool := String.prefix p s.

Definition HasSuffix (s p : string) : bool :=
  (String.length p <=? String.length s)%nat &&
  String.eqb (drop_str (String.length s - String.length p) s) p.

Definition TrimPrefix (s p : string) : string :=
  if HasPrefix s p then drop_str (String.length p) s else s.

Definition TrimSuffix (s p : string) : string :=
  if HasSuffix s p then take_str (String.length s - String.length p) s else s.

Fixpoint Contains (s sub : string) : bool :=
  String.prefix sub s ||
  match s with EmptyString => false | String _ s => Contains s sub end.

(** [strings.ContainsRune(s, c)] and [strings.Count] for a one-byte [c]. *)
Fixpoint contains_char (c : ascii) (s : string) : bool :=
  match s with
  | EmptyString => false
  | String d s => bool_decide (c = d) || contains_char c s
  end.

Fixpoint count_char (c : ascii) (s : string) : Z :=
  match s with
  | EmptyString => 0
  | String d s => (if decide (c = d) then 1 else 0) + count_char c s
  end.

(** [strings.Index(s, sub)]; [None] for -1. *)
Fixpoint Index (s sub : string) : option Z :=
  if String.prefix sub s then Some 0
  else match s with
       | EmptyString => None
       | String _ s => option_map (Z.add 1) (Index s sub)
       end.

(** [strings.Trim(s, c)] for a one-byte cutset, and [strings.TrimLeft]. *)
Fixpoint trim_left_char (c : ascii) (s : string) : string :=
  match s with
  | EmptyString => EmptyString
  | String d s' => if decide (c = d) then trim_left_char c s' else s
  end.

Fixpoint trim_right_char (c : ascii) (s : string) : string :=
  match s with
  | EmptyString => EmptyString
  | String d s' => if str_forallb (fun e => bool_decide (c = e)) s then EmptyString
                   else String d (trim_right_char c s')
  end.

Definition TrimChar (c : ascii) (s : string) : string := trim_right_char c (trim_left_char c s).

(** The text before and after the last [c]. *)
Fixpoint cut_last (c : ascii) (s : string) : option (string * string) :=
  match s with
  | EmptyString => None
  | String d s' =>
      match cut_last c s' with
      | Some (a, b) => Some (String d a, b)
      | None => if decide (c = d) then Some (EmptyString, s') else None
      end
  end.

(** ** Split and join *)

(** [strings.Split(s, c)] for a one-byte separator: never empty. *)
Fixpoint Split (c : ascii) (s : string) : list string :=
  match s with
  | EmptyString => [EmptyString]
  | String d s =>
      if decide (c = d) then EmptyString :: Split c s
      else match Split c s with
           | h :: t => String d h :: t
           | [] => [String d EmptyString]
           end
  end.

Fixpoint Join (l : list string) (sep : string) : string :=
  match l with
  | [] => EmptyString
  | [x] => x
  | x :: l => x +:+ sep +:+ Join l sep
  end.

(** [strings.Cut(s, c)] for a one-byte separator. *)
Fixpoint Cut (c : ascii) (s : string) : option (string * string) :=
  match s with
  | EmptyString => None
  | String d s =>
      if decide (c = d) then Some (EmptyString, s)
      else match Cut c s with
           | Some (a, b) => Some (String d a, b)
           | None => None
           end
  end.

(** ** White space

    [unicode.IsSpace]: the six ASCII blanks, and the UTF-8 encodings of U+0085,
    U+00A0, U+1680, U+2000..U+200A, U+2028, U+2029, U+202F, U+205F and U+3000.
    [space_len l] is the length of the white-space rune [l] starts with, 0 when
    it starts with none. *)
Definition space_len (l : list Z) : nat :=
  match l with
  | 9 :: _ | 10 :: _ | 11 :: _ | 12 :: _ | 13 :: _ | 32 :: _ => 1%nat
  | 194 :: 133 :: _ | 194 :: 160 :: _ => 2%nat
  | 225 :: 154 :: 128 :: _ => 3%nat
  | 226 :: 128 :: b :: _ =>
      if ((128 <=? b) && (b <=? 138)) || (b =? 168) || (b =? 169) || (b =? 175)
      then 3%nat else 0%nat
  | 226 :: 129 :: 159 :: _ => 3%nat
  | 227 :: 128 :: 128 :: _ => 3%nat
  | _ => 0%nat
  end.

Fixpoint codes (s : string) : list Z :=
  match s with EmptyString => [] | String c s => code c :: codes s end.

Definition starts_space (s : string) : nat := space_len (codes (take_str 3 s)).

(** Drop leading white space; [skip] counts the bytes left of the current rune. *)
Fixpoint trim_left_aux (skip : nat) (s : string) : string :=
  match s with
  | EmptyString => EmptyString
  | String c s' =>
      match skip with
      | S skip => trim_left_aux skip s'
      | O => match starts_space s with
             | O => s
             | S n => trim_left_aux n s'
             end
      end
  end.
Definition TrimLeftSpace (s : string) : string := trim_left_aux 0 s.

(** [s] is white space only. *)
Definition blank (s : string) : bool := String.eqb (TrimLeftSpace s) EmptyString.

(** Drop trailing white space: cut at the first position from which only white
    space follows.  A position inside a multi-byte blank is not blank itself. *)
Fixpoint TrimRightSpace (s : string) : string :=
  match s with
  | EmptyString => EmptyString
  | String c s' => if blank s then EmptyString else String c (TrimRightSpace s')
  end.

Definition TrimSpace (s : string) : string := TrimRightSpace (TrimLeftSpace s).

(** [strings.Fields]: the maximal runs of non-blank runes. *)
Fixpoint fields_aux (skip : nat) (cur : string) (s : string) : list string :=
  match s with
  | EmptyString => if String.eqb cur EmptyString then [] else [cur]
  | String c s' =>
      match skip with
      | S skip => fields_aux skip cur s'
      | O =>
          match starts_space s with
          | O => fields_aux 0 (cur +:+ String c EmptyString) s'
          | S n =>
              if String.eqb cur EmptyString then fields_aux n EmptyString s'
              else cur :: fields_aux n EmptyString s'
          end
      end
  end.
Definition Fields (s : string) : list string := fields_aux 0 EmptyString s.

(** ** Decimal numbers *)

(** [%d]. *)
Definition Itoa (z : Z) : string := pretty z.

Fixpoint digits_val (acc : Z) (s : string) : option Z :=
  match s with
  | EmptyString => Some acc
  | String c s => if is_digit c then digits_val (10 * acc + (code c - 48)) s else None
  end.

Definition parse_digits (s : string) : option Z :=
  match s with EmptyString => None | _ => digits_val 0 s end.

(** [strconv.ParseUint(s, 10, 64)]. *)
Definition ParseUint (s : string) : option Z :=
  match parse_digits s with
  | Some v => if v <? 2 ^ 64 then Some v else None
  | None => None
  end.

(** [strconv.ParseInt(s, 10, 64)] and [strconv.Atoi]. *)
Definition ParseInt (s : string) : option Z :=
  let signed neg r :=
    match parse_digits r with
    | Some v => let v := if neg : bool then - v else v in
                if (min_int64 <=? v) && (v <=? max_int64) then Some v else None
    | None => None
    end in
  match s with
  | String "-" r => signed true r
  | String "+" r => signed false r
  | _ => signed false s
  end.

(** [encoding/hex.EncodeToString]. *)
Definition hex_digit (n : Z) : ascii :=
  ascii_of_N (Z.to_N (if n <? 10 then 48 + n else 87 + n)).

Fixpoint EncodeToString (bytes : list Z) : string :=
  match bytes with
  | [] => EmptyString
  | b :: l => String (hex_digit (b / 16)) (String (hex_digit (b `mod` 16)) (EncodeToString l))
  end.

(** ** Paths *)

Definition IsAbs (p : string) : bool := HasPrefix p "/".

(** The component stack of [filepath.Clean], innermost first. *)
Fixpoint clean_comps (rooted : bool) (acc : list string) (parts : list string) : list string :=
  match parts with
  | [] => reverse acc
  | p :: parts =>
      if decide (p = "" \/ p = ".") then clean_comps rooted acc parts
      else if decide (p = "..") then
        match acc with
        | [] => clean_comps rooted (if rooted then [] else [".."]) parts
        | top :: rest =>
            if decide (top = "..") then clean_comps rooted (".." :: acc) parts
            else clean_comps rooted rest parts
        end
      else clean_comps rooted (p :: acc) parts
  end.

(** [filepath.Clean]. *)
Definition Clean (p : string) : string :=
  let comps := clean_comps (IsAbs p) [] (Split "/" p) in
  if IsAbs p then "/" +:+ Join comps "/"
  else match comps with [] => "." | _ => Join comps "/" end.

Fixpoint trim_left_slashes (s : string) : string :=
  match s with String "/" s => trim_left_slashes s | _ => s end.

Fixpoint all_slashes (s : string) : bool :=
  match s with
  | EmptyString => true
  | String c s => bool_decide (c = "/"%char) && all_slashes s
  end.

Fixpoint trim_right_slashes (s : string) : string :=
  match s with
  | EmptyString => EmptyString
  | String c s' => if all_slashes s then EmptyString else String c (trim_right_slashes s')
  end.

(** [strings.Trim(s, "/")]. *)
Definition TrimSlashes (s : string) : string := trim_right_slashes (trim_left_slashes s).

(** [filepath.Base]. *)
Definition Base (p : string) : string :=
  if String.eqb p "" then "."
  else match last (Split "/" (trim_right_slashes p)) with
       | Some b => if String.eqb b "" then "/" else b
       | None => "/"
       end.

(** [filepath.Dir]: clean everything up to and including the last slash. *)
Definition Dir (p : string) : string :=
  match rev (Split "/" p) with
  | [] | [_] => "."
  | _ :: rest => Clean (Join (rev rest) "/" +:+ "/")
  end.

(** [filepath.Join(a, b)]. *)
Definition PathJoin (a b : string) : string :=
  match a, b with
  | EmptyString, EmptyString => ""
  | EmptyString, _ => Clean b
  | _, EmptyString => Clean a
  | _, _ => Clean (a +:+ "/" +:+ b)
  end.

(** [filepath.Join] of any number of elements. *)
Definition PathJoinAll (l : list string) : string :=
  match List.filter (fun p => negb (String.eqb p "")) l with
  | [] => ""
  | l => Clean (Join l "/")
  end.

(** The elements that [filepath.Rel] compares one by one. *)
Definition rel_comps (p : string) : list string :=
  if String.eqb p "." then [] else if String.eqb p "/" then [""] else Split "/" p.

Fixpoint rel_from (base targ : list string) : option string :=
  match base, targ with
  | b :: base', t :: targ' =>
      if String.eqb b t then rel_from base' targ'
      else if String.eqb b ".." then None else Some (Join (((fun _ => "..") <$> base) ++ targ) "/")
  | b :: _, [] => if String.eqb b ".." then None else Some (Join ((fun _ => "..") <$> base) "/")
  | [], _ => Some (Join targ "/")
  end.

(** [filepath.Rel], [None] for its error. *)
Definition Rel (basepath targpath : string) : option string :=
  let base := Clean basepath in
  let targ := Clean targpath in
  if String.eqb targ base then Some "."
  else if negb (Bool.eqb (IsAbs base) (IsAbs targ)) then None
  else rel_from (rel_comps base) (rel_comps targ).

(** [strings.SplitN(s, c, n)] for [n > 0]. *)
Fixpoint SplitN (c : ascii) (n : nat) (s : string) : list string :=
  match n with
  | O => []
  | S O => [s]
  | S n => match Cut c s with
           | None => [s]
           | Some (before, after) => before :: SplitN c n after
           end
  end.

(** [filepath.Match] for a pattern of literal characters and stars; a star matches any
    characters but the separator. *)
Fixpoint Match (pattern name : string) : bool :=
  match pattern with
  | EmptyString => String.eqb name ""
  | String p pattern' =>
      if Ascii.eqb p "*" then
        (fix star (name : string) : bool :=
           Match pattern' name ||
           match name with
           | EmptyString => false
           | String c name' => negb (Ascii.eqb c "/") && star name'
           end) name
      else match name with
           | EmptyString => false
           | String c name' => Ascii.eqb p c && Match pattern' name'
           end
  end.

(** ** Facts *)

Definition no_char (c : ascii) (s : string) : Prop := contains_char c s = false.

Lemma no_char_cons c d s : no_char c (String d s) <-> c <> d /\ no_char c s.
Proof.
  unfold no_char. cbn. rewrite orb_false_iff, bool_decide_eq_false. done.
Qed.

Lemma no_char_app c s t : no_char c (s +:+ t) <-> no_char c s /\ no_char c t.
Proof.
  induction s as [|d s IH]; cbn; [split; [done|by intros []]|].
  change (no_char c (String d (s +:+ t)) <-> no_char c (String d s) /\ no_char c t).
  rewrite !no_char_cons, IH. tauto.
Qed.

Lemma no_char_forallb (p : ascii -> bool) c s : str_forallb p s = true -> p c = false -> no_char c s.
Proof.
  induction s as [|d s IH]; intros Hs Hc; [done|]. cbn in Hs. bsplit. apply no_char_cons. split; [congruence|auto].
Qed.

Lemma app_empty_r (s : string) : s +:+ "" = s.
Proof. induction s as [|c s IH]; cbn; congruence. Qed.

Lemma app_assoc_str (a b c : string) : a +:+ (b +:+ c) = (a +:+ b) +:+ c.
Proof. induction a as [|x a IH]; cbn; congruence. Qed.

Lemma length_app_str (a b : string) :
  String.length (a +:+ b) = (String.length a + String.length b)%nat.
Proof. induction a as [|x a IH]; cbn; congruence. Qed.

Lemma app_inj_l (a b c : string) : a +:+ b = a +:+ c -> b = c.
Proof. induction a as [|x a IH]; cbn; intros; simplify_eq; auto. Qed.

Lemma prefix_app (p s : string) : String.prefix p (p +:+ s) = true.
Proof. induction p as [|c p IH]; [by destruct s|]. cbn. destruct (ascii_dec c c); [apply IH|done]. Qed.

Lemma prefix_inv (p s : string) : String.prefix p s = true -> exists t, s = p +:+ t.
Proof.
  revert s. induction p as [|c p IH]; intros s; [by exists s|].
  destruct s as [|d s]; cbn; [done|]. destruct (ascii_dec c d); [|done].
  intros [t ->]%IH. exists t. by subst.
Qed.

Lemma drop_str_app (p s : string) : drop_str (String.length p) (p +:+ s) = s.
Proof. by induction p as [|c p IH]. Qed.

Lemma take_drop_str n (s : string) : take_str n s +:+ drop_str n s = s.
Proof.
  revert s. induction n as [|n IH]; [done|]. intros [|c s]; [done|].
  cbn. by rewrite IH.
Qed.

Lemma HasSuffix_inv (s p : string) : HasSuffix s p = true -> exists t, s = t +:+ p.
Proof.
  unfold HasSuffix. intros H. bsplit. apply String.eqb_eq in H0.
  exists (take_str (String.length s - String.length p) s).
  rewrite <- H0 at 2. symmetry. apply take_drop_str.
Qed.

Lemma Contains_false_cons c s sub :
  Contains (String c s) sub = false -> Contains s sub = false.
Proof. cbn. intros [_ H]%orb_false_elim. done. Qed.

Lemma Contains_app_r a b sub : Contains b sub = true -> Contains (a +:+ b) sub = true.
Proof.
  intros H. induction a as [|c a IH]; [done|]. cbn. by rewrite IH, orb_true_r.
Qed.

Lemma Contains_intro a sub b : Contains (a +:+ sub +:+ b) sub = true.
Proof.
  apply Contains_app_r. destruct sub as [|c sub]; [by destruct b|].
  change (Contains (String c (sub +:+ b)) (String c sub) = true). cbn [Contains].
  by rewrite (prefix_app (String c sub) b : String.prefix (String c sub) (String c (sub +:+ b)) = true).
Qed.

(** *** Split and join *)

Lemma Index_None s sub : Index s sub = None <-> Contains s sub = false.
Proof.
  induction s as [|c s IH]; cbn -[String.prefix]; destruct (String.prefix _ _); cbn [orb]; try done.
  destruct (Index s sub); cbn; naive_solver.
Qed.

Lemma Index_nonneg s sub i : Index s sub = Some i -> 0 <= i.
Proof.
  revert i. induction s as [|c s IH]; intros i; cbn -[String.prefix]; destruct (String.prefix _ _); intros; simplify_eq; try lia.
  destruct (Index s sub) as [j|]; simplify_eq/=. specialize (IH j eq_refl). lia.
Qed.

Lemma Split_nonnil c s : Split c s <> [].
Proof. destruct s; cbn; repeat case_match; done. Qed.

Lemma Split_no_char c s : no_char c s -> Split c s = [s].
Proof.
  induction s as [|d s IH]; [done|]. rewrite no_char_cons. intros [Hne Hs].
  cbn. rewrite decide_False by done. by rewrite IH.
Qed.

Lemma Split_app c s t :
  no_char c s -> Split c (s +:+ String c t) = s :: Split c t.
Proof.
  induction s as [|d s IH]; intros Hs; cbn.
  - by rewrite decide_True.
  - apply no_char_cons in Hs as [Hne Hs]. rewrite decide_False by done.
    by rewrite IH.
Qed.

Lemma Split_Forall c s : Forall (no_char c) (Split c s).
Proof.
  induction s as [|d s IH]; cbn.
  - repeat constructor.
  - case_decide; [by constructor|].
    destruct (Split c s) as [|h t]; inversion IH; subst; constructor; auto;
      by rewrite no_char_cons.
Qed.

Lemma Join_cons x y l sep : Join (x :: y :: l) sep = x +:+ sep +:+ Join (y :: l) sep.
Proof. done. Qed.

Lemma Split_Join c l :
  l <> [] -> Forall (no_char c) l -> Split c (Join l (String c "")) = l.
Proof.
  induction l as [|x [|y l] IH]; intros Hne HF; [done| |].
  - inversion HF; subst. by apply Split_no_char.
  - inversion HF; subst. rewrite Join_cons. cbn.
    change (Split c (x +:+ String c (Join (y :: l) (String c ""))) = x :: y :: l).
    rewrite Split_app by done. by rewrite IH.
Qed.

Lemma Join_Split c s : Join (Split c s) (String c "") = s.
Proof.
  induction s as [|d s IH]; [done|]. cbn. case_decide as Hd.
  - subst d. pose proof (Split_nonnil c s) as Hn.
    destruct (Split c s) as [|h t] eqn:E; [done|]. rewrite Join_cons. by rewrite IH.
  - pose proof (Split_nonnil c s) as Hn. destruct (Split c s) as [|h [|h' t]] eqn:E; [done| |].
    + cbn in IH |- *. by rewrite IH.
    + rewrite Join_cons in IH |- *. cbn in IH |- *. by rewrite IH.
Qed.

Lemma no_char_Join c l sep : no_char c sep -> Forall (no_char c) l -> no_char c (Join l sep).
Proof.
  intros Hs. induction 1 as [|x l Hx Hl IH]; [done|]. destruct l; [done|].
  rewrite Join_cons, !no_char_app. done.
Qed.

(** *** Cleaned paths

    A component list is normal when it has no empty, "." or slash-carrying
    component and ".." occurs only as a leading run of a relative path. *)

Definition plain_comp (p : string) : Prop :=
  p <> "" /\ p <> "." /\ p <> ".." /\ no_char "/" p.

Definition normal_comps (rooted : bool) (l : list string) : Prop :=
  exists n rest, l = replicate n ".." ++ rest /\ Forall plain_comp rest /\
                 (rooted = true -> n = 0%nat).

Lemma normal_comps_nil r : normal_comps r [].
Proof. exists 0%nat, []. by split_and!. Qed.

Lemma normal_comps_snoc r l p :
  normal_comps r l -> plain_comp p -> normal_comps r (l ++ [p]).
Proof.
  intros (n & rest & -> & HF & Hn) Hp. exists n, (rest ++ [p]).
  rewrite <- app_assoc. split_and!; auto. apply Forall_app. auto.
Qed.

Lemma normal_comps_pop r l p :
  normal_comps r (l ++ [p]) -> p <> ".." -> normal_comps r l.
Proof.
  intros (n & rest & E & HF & Hn) Hp.
  destruct rest as [|q rest _] using rev_ind.
  - rewrite app_nil_r in E. destruct n as [|n].
    + by apply (f_equal (@Datatypes.length _)) in E; rewrite length_app in E; cbn in E; lia.
    + rewrite replicate_S_end in E. apply app_inj_2 in E as [_ E]; [|done]. by simplify_eq.
  - rewrite app_assoc in E. apply app_inj_2 in E as [-> E]; [|done].
    apply Forall_app in HF as [HF _]. by exists n, rest.
Qed.

Lemma normal_comps_dotdot l :
  normal_comps false l -> (l = [] \/ last l = Some "..") -> normal_comps false (l ++ [".."]).
Proof.
  intros (n & rest & -> & HF & Hn) Hl.
  assert (rest = []) as ->.
  { destruct rest as [|q rest _] using rev_ind; [done|]. exfalso.
    apply Forall_app in HF as [_ HF]. inversion HF as [|? ? (?&?&?&?)]; subst.
    rewrite app_assoc, last_snoc in Hl. destruct Hl as [Hl|[= ->]]; [|done].
    by destruct ((replicate n ".." ++ rest)). }
  exists (S n), []. rewrite !app_nil_r, replicate_S_end. split_and!; done.
Qed.

Lemma clean_comps_normal rooted acc parts :
  normal_comps rooted (reverse acc) -> Forall (no_char "/") parts ->
  normal_comps rooted (clean_comps rooted acc parts).
Proof.
  revert acc. induction parts as [|p parts IH]; intros acc Hacc HF; [done|].
  inversion HF; subst. cbn. case_decide as H0; [by apply IH|].
  apply Decidable.not_or in H0 as [Hne Hdot].
  case_decide as Hdd; [|].
  - subst p. destruct acc as [|top rest].
    + destruct rooted; apply IH; try done. apply (normal_comps_dotdot []); auto.
    + rewrite reverse_cons in Hacc. case_decide as Ht.
      * subst top. apply IH; [|done]. rewrite !reverse_cons.
        destruct rooted.
        -- destruct Hacc as (n & r & E & HF' & Hn). rewrite (Hn eq_refl) in E. cbn in E.
           rewrite <- E in HF'. apply Forall_app in HF' as [_ HF'].
           inversion HF' as [|? ? (?&?&?&?)]. done.
        -- apply normal_comps_dotdot; [done|]. right. by rewrite last_snoc.
      * apply IH; [|done]. by eapply normal_comps_pop.
  - apply IH; [|done]. rewrite reverse_cons. by apply normal_comps_snoc.
Qed.

Lemma clean_comps_plain rooted acc rest :
  Forall plain_comp rest ->
  clean_comps rooted acc rest = reverse acc ++ rest.
Proof.
  revert acc. induction rest as [|p rest IH]; intros acc HF; cbn.
  - by rewrite app_nil_r.
  - inversion HF as [|? ? (?&?&?&?)]; subst.
    rewrite decide_False by tauto. rewrite decide_False by done.
    rewrite IH by done. by rewrite reverse_cons, <- app_assoc.
Qed.

Lemma clean_comps_id rooted l :
  normal_comps rooted l -> clean_comps rooted [] l = l.
Proof.
  intros (n & rest & -> & HF & Hn). destruct rooted.
  { rewrite (Hn eq_refl). cbn. by rewrite clean_comps_plain. }
  clear Hn. enough (forall m, clean_comps false (replicate m "..") (replicate n ".." ++ rest)
    = replicate m ".." ++ replicate n ".." ++ rest) as H by apply (H 0%nat).
  induction n as [|n IH]; intros m.
  - cbn [replicate app]. by rewrite clean_comps_plain, reverse_replicate.
  - destruct m as [|m]; [apply (IH 1%nat)|].
    rewrite app_assoc, <- replicate_add. replace (S m + S n)%nat with (S (S m) + n)%nat by lia.
    rewrite replicate_add, <- app_assoc, <- IH. done.
Qed.

Lemma normal_no_slash r l : normal_comps r l -> Forall (no_char "/") l.
Proof.
  intros (n & rest & -> & HF & _). apply Forall_app. split.
  - by apply Forall_replicate.
  - eapply Forall_impl; [done|]. by intros x (_&_&_&?).
Qed.

Lemma IsAbs_Join_normal l : normal_comps false l -> IsAbs (Join l "/") = false.
Proof.
  intros Hl. pose proof (normal_no_slash _ _ Hl) as Hs. destruct Hl as (n & rest & -> & HF & _).
  assert (forall c p q, "/"%char <> c -> IsAbs (String c p +:+ q) = false) as Habs.
  { intros c p q Hc. unfold IsAbs, HasPrefix. cbn. by destruct (ascii_dec "/" c). }
  destruct n as [|n].
  - destruct rest as [|p rest]; [done|]. inversion HF as [|? ? (?&?&?&Hp)]; subst.
    destruct p as [|c p]; [done|]. apply no_char_cons in Hp as [Hc _].
    destruct rest as [|q rest]; cbn [Join replicate app]; [|by apply Habs].
    rewrite <- (app_empty_r (String c p)). by apply Habs.
  - cbn [replicate app]. destruct (replicate n ".." ++ rest) as [|q r]; [done|].
    cbn [Join]. by apply Habs.
Qed.

(** [filepath.Clean] is idempotent. *)
Lemma Clean_idem p : Clean (Clean p) = Clean p.
Proof.
  pose proof (clean_comps_normal (IsAbs p) [] (Split "/" p)
                (normal_comps_nil _) (Split_Forall _ _)) as Hn.
  unfold Clean at 2 3. destruct (IsAbs p) eqn:Ha.
  - set (l := clean_comps _ _ _) in *. unfold Clean.
    change (IsAbs ("/" +:+ Join l "/")) with (String.prefix "" (Join l "/")).
    replace (String.prefix "" (Join l "/")) with true by (by destruct (Join l "/")).
    f_equal. f_equal. destruct (decide (l = [])) as [->|Hne]; [done|].
    change (Split "/" ("/" +:+ Join l "/")) with ("" :: Split "/" (Join l "/")).
    rewrite Split_Join; [|done|by eapply normal_no_slash]. cbn.
    by apply clean_comps_id.
  - set (l := clean_comps _ _ _) in *. destruct l as [|x l'] eqn:El; [done|].
    rewrite <- El in Hn |- *. unfold Clean. rewrite IsAbs_Join_normal by done.
    rewrite Split_Join; [|by rewrite El|by eapply normal_no_slash].
    rewrite clean_comps_id by done. by rewrite El.
Qed.

(** An absolute clean path is a slash followed by plain components. *)
Lemma Clean_abs_shape p :
  IsAbs p = true -> Clean p = p -> exists l, p = "/" +:+ Join l "/" /\ Forall plain_comp l.
Proof.
  intros Ha Hc.
  pose proof (clean_comps_normal (IsAbs p) [] (Split "/" p)
                (normal_comps_nil _) (Split_Forall _ _)) as (n & rest & E & HF & Hn).
  rewrite Ha in *. rewrite (Hn eq_refl) in E. cbn in E. exists rest. split; [|done].
  rewrite <- Hc at 1. unfold Clean. by rewrite Ha, E.
Qed.

Lemma Base_nonempty p : Base p <> "".
Proof.
  unfold Base. destruct (String.eqb p ""); [done|]. destruct (last _) as [b|]; [|done].
  by destruct (String.eqb_spec b "").
Qed.

Lemma Join_snoc l x sep : l <> [] -> Join (l ++ [x]) sep = Join l sep +:+ sep +:+ x.
Proof.
  induction l as [|y [|z l] IH]; [done|done|]. intros _. cbn [app]. rewrite !Join_cons.
  change (z :: l ++ [x]) with ((z :: l) ++ [x]). rewrite IH by done. by rewrite !app_assoc_str.
Qed.

Lemma Split_abs l : l <> [] -> Forall (no_char "/") l -> Split "/" ("/" +:+ Join l "/") = "" :: l.
Proof. intros Hne Hl. change (Split "/" ("/" +:+ Join l "/")) with ("" :: Split "/" (Join l "/")). by rewrite Split_Join. Qed.

Lemma clean_comps_blanks rooted acc l : Forall plain_comp l ->
  clean_comps rooted acc ("" :: l ++ [""]) = reverse acc ++ l.
Proof.
  intros Hl. cbn. assert (forall acc, clean_comps rooted acc (l ++ [""]) = reverse acc ++ l) as H; [|apply H].
  clear acc. induction Hl as [|p l (?&?&?&?) _ IH]; intros acc; cbn; [by rewrite app_nil_r|].
  rewrite decide_False by tauto. rewrite decide_False by done. rewrite IH. by rewrite reverse_cons, <- app_assoc.
Qed.

(** The parent of an absolute clean path. *)
Lemma Dir_abs l n : Forall plain_comp l -> plain_comp n ->
  Dir ("/" +:+ Join (l ++ [n]) "/") = "/" +:+ Join l "/".
Proof.
  intros Hl (Hn & Hd & Hdd & Hs).
  assert (Forall (no_char "/") l) as Hns by (eapply Forall_impl; [exact Hl|]; by intros x (_&_&_&?)).
  unfold Dir. rewrite Split_abs; [|by destruct l|by apply Forall_app; auto].
  cbn [rev]. rewrite rev_app_distr. cbn [rev app]. destruct (rev l ++ [""]) as [|y r] eqn:E; [by destruct (rev l)|].
  rewrite <- E. rewrite rev_app_distr, rev_involutive. cbn [rev app].
  replace (Join ("" :: l) "/" +:+ "/") with (Join (("" :: l) ++ [""]) "/")
    by (rewrite Join_snoc by done; by rewrite app_empty_r).
  unfold Clean. assert (IsAbs (Join (("" :: l) ++ [""]) "/") = true) as ->.
  { unfold IsAbs, HasPrefix. destruct l as [|a l']; [done|]. cbn [app]. rewrite Join_cons. apply (prefix_app "/"). }
  rewrite Split_Join; [|done|constructor; [done|apply Forall_app; split; [done|by repeat constructor]]].
  change (("" :: l) ++ [""]) with ("" :: l ++ [""]). by rewrite clean_comps_blanks.
Qed.

Lemma IsAbs_Clean p : IsAbs (Clean p) = IsAbs p.
Proof.
  unfold Clean. destruct (IsAbs p) eqn:Ha; [unfold IsAbs, HasPrefix; apply prefix_app|].
  pose proof (clean_comps_normal false [] (Split "/" p) (normal_comps_nil _) (Split_Forall _ _)) as Hn.
  destruct (clean_comps false [] (Split "/" p)) as [|x l]; [done|]. by apply IsAbs_Join_normal.
Qed.

Lemma IsAbs_Dir p : IsAbs (Dir p) = true -> IsAbs p = true.
Proof.
  unfold Dir. pose proof (Join_Split "/" p) as HJ. pose proof (Split_Forall "/" p) as HF.
  destruct (rev (Split "/" p)) as [|x [|y r]] eqn:E; [done..|].
  assert (Split "/" p = rev r ++ [y; x]) as Es.
  { apply (f_equal (@rev _)) in E. rewrite rev_involutive in E. rewrite E. cbn. by rewrite <- app_assoc. }
  rewrite IsAbs_Clean. rewrite <- HJ, Es. clear HJ E. rewrite Es in HF. cbn [rev].
  destruct (rev r) as [|z q].
  - cbn [app]. rewrite Join_cons. unfold IsAbs, HasPrefix. cbn [Join app]. destruct y as [|c y]; [intros _; apply (prefix_app "/")|].
    cbn. destruct (ascii_dec "/" c); [|done]. intros _. by destruct y.
  - cbn [app] in *. assert (exists w l1 l2, q ++ [y] = w :: l1 /\ q ++ [y; x] = w :: l2) as (w & l1 & l2 & -> & ->).
    { destruct q; cbn; by eexists _, _, _. }
    rewrite !Join_cons. unfold IsAbs, HasPrefix. destruct z as [|c z]; [intros _; apply (prefix_app "/")|].
    cbn. destruct (ascii_dec "/" c); [|done]. intros _. by destruct z.
Qed.

(** *** Patterns *)

Lemma Match_lit p q s : no_char "*" p ->
  Match (p +:+ q) s = true <-> exists t, s = p +:+ t /\ Match q t = true.
Proof.
  revert s. induction p as [|c p IH]; intros s.
  - intros _. cbn. split; [by eexists|]. by intros (t & -> & ?).
  - intros [Hc Hp]%no_char_cons. change (String c p +:+ q) with (String c (p +:+ q)). cbn [Match].
    destruct (Ascii.eqb_spec c "*") as [->|_]; [done|]. destruct s as [|d s].
    + split; [done|]. by intros (t & ? & _).
    + rewrite andb_true_iff, IH by done. split.
      * intros [->%Ascii.eqb_eq (t & -> & Ht)]. by exists t.
      * intros (t & [= -> ->] & Ht). split; [apply Ascii.eqb_refl|]. by exists t.
Qed.

Lemma Match_star q s :
  Match ("*" +:+ q) s = true <-> exists u t, s = u +:+ t /\ no_char "/" u /\ Match q t = true.
Proof.
  cbn -[Ascii.eqb]. rewrite Ascii.eqb_refl.
  induction s as [|c s IH].
  - rewrite orb_false_r. split; [intros H; by exists "", ""|].
    intros (u & t & E & _ & Ht). by destruct u; [destruct t|].
  - rewrite orb_true_iff, andb_true_iff, IH. split.
    + intros [H|[Hc (u & t & -> & Hu & Ht)]]; [by exists "", (String c s)|].
      exists (String c u), t. split_and!; [done| |done]. apply no_char_cons. split; [|done].
      intros <-. by rewrite Ascii.eqb_refl in Hc.
    + intros (u & t & E & Hu & Ht). destruct u as [|d u]; cbn in E.
      { left. by rewrite E. }
      injection E as <- E. apply no_char_cons in Hu as [Hd Hu]. right. split; [|by exists u, t].
      destruct (Ascii.eqb_spec c "/") as [->|]; done.
Qed.

(** ** Hexadecimal *)

Definition is_byte (b : Z) : Prop := 0 <= b < 256.

Lemma EncodeToString_length l : String.length (EncodeToString l) = (2 * Datatypes.length l)%nat.
Proof. induction l as [|b l IH]; cbn [EncodeToString String.length Datatypes.length]; lia. Qed.

(** Every hexadecimal digit satisfies a predicate that holds of the sixteen. *)
Lemma EncodeToString_digits p l :
  forallb (fun n => p (hex_digit (Z.of_nat n))) (seq 0 16) = true ->
  Forall is_byte l -> str_forallb p (EncodeToString l) = true.
Proof.
  intros Hp. assert (forall n, 0 <= n < 16 -> p (hex_digit n) = true) as Hd.
  { intros n Hn. rewrite forallb_forall in Hp. specialize (Hp (Z.to_nat n)).
    rewrite Z2Nat.id in Hp by lia. apply Hp, in_seq. lia. }
  induction 1 as [|b l Hb _ IH]; cbn; [done|]. unfold is_byte in Hb.
  rewrite !Hd, IH; [done| |]; [apply Z.mod_pos_bound; lia|].
  split; [apply Z.div_pos; lia|apply Z.div_lt_upper_bound; lia].
Qed.

(** ** Decimal round trip *)

Lemma pretty_digit n : (n < 10)%N ->
  is_digit (pretty_N_char n) = true /\ code (pretty_N_char n) = 48 + Z.of_N n.
Proof.
  intros Hn. assert (forallb (fun k => is_digit (pretty_N_char (N.of_nat k)) &&
      (code (pretty_N_char (N.of_nat k)) =? 48 + Z.of_nat k)) (seq 0 10) = true) as Hall by reflexivity.
  rewrite forallb_forall in Hall. specialize (Hall (N.to_nat n)).
  rewrite N2Nat.id, N_nat_Z in Hall.
  assert (In (N.to_nat n) (seq 0 10)) as Hin by (apply in_seq; lia).
  apply Hall in Hin. by bsplit.
Qed.

Lemma digits_val_pretty (x : N) s :
  digits_val 0 (pretty_N_go x s) = digits_val (Z.of_N x) s.
Proof.
  revert s. induction (N.lt_wf_0 x) as [x _ IH]; intros s.
  destruct (decide (x = 0%N)) as [-> |Hx]; [by rewrite pretty_N_go_0|].
  rewrite pretty_N_go_step by lia.
  rewrite IH by (apply N.div_lt; lia). cbn.
  assert (x `mod` 10 < 10)%N as Hm by (apply N.mod_lt; lia).
  destruct (pretty_digit _ Hm) as [-> ->]. f_equal.
  rewrite N2Z.inj_div, N2Z.inj_mod. pose proof (Z.div_mod (Z.of_N x) 10). lia.
Qed.

Lemma digits_val_Itoa n : 0 <= n -> digits_val 0 (Itoa n) = Some n.
Proof.
  intros Hn. unfold Itoa. destruct n as [|p|p]; [done| |lia].
  change (pretty (Z.pos p)) with (pretty (N.pos p)). unfold pretty, pretty_N.
  rewrite decide_False by done. by rewrite digits_val_pretty.
Qed.

Lemma Itoa_nonempty n : Itoa n <> "".
Proof.
  destruct (decide (0 <= n)) as [Hn|Hn].
  - intros E. pose proof (digits_val_Itoa n Hn) as H. rewrite E in H. cbn in H.
    injection H as <-. done.
  - destruct n; [done|lia|done].
Qed.

Lemma parse_digits_Itoa n : 0 <= n -> parse_digits (Itoa n) = Some n.
Proof.
  intros Hn. unfold parse_digits. pose proof (Itoa_nonempty n).
  destruct (Itoa n) eqn:E; [done|]. rewrite <- E. by apply digits_val_Itoa.
Qed.

Lemma ParseUint_Itoa n : 0 <= n < 2 ^ 64 -> ParseUint (Itoa n) = Some n.
Proof.
  intros Hn. unfold ParseUint. rewrite parse_digits_Itoa by lia.
  assert ((n <? 2 ^ 64) = true) as -> by (apply Z.ltb_lt; lia). done.
Qed.

Lemma digits_val_all acc s v : digits_val acc s = Some v -> str_forallb is_digit s = true.
Proof. revert acc. induction s as [|c s IH]; intros acc; cbn; [done|]. destruct (is_digit c); [apply IH|done]. Qed.

Lemma Itoa_digits n : 0 <= n -> str_forallb is_digit (Itoa n) = true.
Proof. intros Hn. eapply digits_val_all, digits_val_Itoa, Hn. Qed.

(** ** Fields of a line of plain tokens *)

Definition graphic (c : ascii) : bool := (33 <=? code c) && (code c <=? 126).
Definition token (s : string) : Prop := s <> "" /\ str_forallb graphic s = true.

Lemma space_len_graphic z l : 33 <= z <= 126 -> space_len (z :: l) = 0%nat.
Proof.
  intros Hz. assert (forallb (fun k => match space_len (Z.of_nat k :: l) with O => true | _ => false end)
    (seq 33 94) = true) as Hall by reflexivity.
  rewrite forallb_forall in Hall. specialize (Hall (Z.to_nat z)). rewrite Z2Nat.id in Hall by lia.
  destruct (space_len (z :: l)); [done|]. assert (false = true) by (apply Hall, in_seq; lia). done.
Qed.

Lemma starts_space_graphic c s : graphic c = true -> starts_space (String c s) = 0%nat.
Proof. unfold graphic. intros. bsplit. unfold starts_space. cbn. by apply space_len_graphic. Qed.

Lemma fields_aux_token t cur s :
  str_forallb graphic t = true -> fields_aux 0 cur (t +:+ s) = fields_aux 0 (cur +:+ t) s.
Proof.
  revert cur. induction t as [|c t IH]; intros cur; cbn [str_forallb String.append].
  { by rewrite app_empty_r. }
  intros. bsplit. cbn [fields_aux]. rewrite starts_space_graphic by done.
  rewrite IH by done. by rewrite <- app_assoc_str.
Qed.

Lemma Fields_Join l : Forall token l -> Fields (Join l " ") = l.
Proof.
  unfold Fields. induction 1 as [|t l [Hne Ht] Hl IH]; [done|].
  destruct l as [|t' l].
  - cbn. rewrite <- (app_empty_r t) at 1. rewrite fields_aux_token by done. cbn.
    apply String.eqb_neq in Hne. by rewrite Hne.
  - rewrite Join_cons, fields_aux_token by done. revert IH. generalize (Join (t' :: l) " ") as rest.
    intros rest IH. apply String.eqb_neq in Hne. cbn -[starts_space].
    change (starts_space (String " " rest)) with 1%nat. cbn match. by rewrite Hne, IH.
Qed.

Lemma str_forallb_impl (p q : ascii -> bool) s :
  (forall c, p c = true -> q c = true) -> str_forallb p s = true -> str_forallb q s = true.
Proof. intros Hpq. induction s as [|c s IH]; cbn; [done|]. intros. bsplit. rewrite (Hpq c), IH; done. Qed.

Lemma TrimSpace_graphic c s : graphic c = true -> TrimSpace (String c s) <> "".
Proof.
  intros Hc. assert (TrimLeftSpace (String c s) = String c s) as Hl.
  { unfold TrimLeftSpace. cbn [trim_left_aux]. by rewrite starts_space_graphic. }
  unfold TrimSpace. rewrite Hl. cbn [TrimRightSpace]. unfold blank. by rewrite Hl.
Qed.

Lemma graphic_digit c : is_digit c = true -> graphic c = true.
Proof. unfold is_digit, in_range, graphic, code. cbn. intros. bsplit. apply andb_true_intro. split; apply Z.leb_le; unfold code in *; lia. Qed.

(** A number is not blank. *)
Lemma TrimSpace_Itoa n : 0 <= n -> TrimSpace (Itoa n) <> "".
Proof.
  intros Hn. pose proof (Itoa_digits n Hn) as Hd. pose proof (Itoa_nonempty n) as Hne.
  destruct (Itoa n) as [|c s]; [done|]. cbn in Hd. bsplit. by apply TrimSpace_graphic, graphic_digit.
Qed.

(** ** Composed paths *)

Lemma clean_comps_app rooted acc l1 l2 :
  clean_comps rooted acc (l1 ++ l2) = clean_comps rooted (reverse (clean_comps rooted acc l1)) l2.
Proof.
  revert acc. induction l1 as [|p l1 IH]; intros acc; cbn [clean_comps app]; [by rewrite reverse_involutive|]. by repeat case_match.
Qed.

Lemma Split_concat c s t : Split c (s +:+ String c t) = Split c s ++ Split c t.
Proof.
  induction s as [|d s IH]; cbn; [by rewrite decide_True|]. case_decide; [by rewrite IH|].
  rewrite IH. pose proof (Split_nonnil c s). by destruct (Split c s).
Qed.

Lemma Join_app l1 l2 sep : l1 <> [] -> l2 <> [] -> Join (l1 ++ l2) sep = Join l1 sep +:+ sep +:+ Join l2 sep.
Proof.
  induction l1 as [|x [|y l1] IH]; intros H1 H2; [done|by destruct l2|].
  change ((x :: y :: l1) ++ l2) with (x :: y :: (l1 ++ l2)). rewrite !Join_cons. change (y :: (l1 ++ l2)) with ((y :: l1) ++ l2).
  rewrite IH by done. by rewrite <- !app_assoc_str.
Qed.

Lemma all_slashes_file d file : no_char "/" file -> file <> "" -> all_slashes (d +:+ file) = false.
Proof.
  intros Hf Hne. induction d as [|c d IH]; cbn; [|by rewrite IH, andb_false_r].
  destruct file as [|c file]; [done|]. apply no_char_cons in Hf as [? _]. cbn. by rewrite bool_decide_eq_false_2.
Qed.

Lemma trim_right_slashes_file d file : no_char "/" file -> file <> "" -> trim_right_slashes (d +:+ file) = d +:+ file.
Proof.
  intros Hf Hne. induction d as [|c d IH].
  - cbn. induction file as [|c file IH]; [done|]. pose proof (all_slashes_file "" (String c file) Hf Hne) as Ha. cbn in Ha.
    cbn [trim_right_slashes all_slashes]. rewrite Ha. f_equal. destruct file; [done|]. apply IH; [|done]. by apply no_char_cons in Hf as [_ ?].
  - pose proof (all_slashes_file (String c d) file Hf Hne) as Ha. cbn in Ha. cbn [String.append trim_right_slashes all_slashes].
    rewrite Ha. by rewrite IH.
Qed.

Lemma Base_file d file : no_char "/" file -> file <> "" -> Base (d +:+ "/" +:+ file) = file.
Proof.
  intros Hf Hne. unfold Base. destruct (String.eqb_spec (d +:+ "/" +:+ file) "") as [E|_]; [by destruct d|].
  rewrite app_assoc_str, trim_right_slashes_file, <- app_assoc_str by done. change (d +:+ "/" +:+ file) with (d +:+ String "/" file).
  rewrite Split_concat, (Split_no_char _ file) by done. rewrite last_snoc. by apply String.eqb_neq in Hne as ->.
Qed.

(** Joining a plain name to an absolute path. *)
Lemma PathJoin_abs root n : IsAbs root = true -> plain_comp n ->
  exists d, PathJoin root n = d +:+ "/" +:+ n /\ IsAbs (PathJoin root n) = true /\ Clean (PathJoin root n) = PathJoin root n.
Proof.
  intros Ha Hn. assert (root <> "") as Hr by (by intros ->). assert (n <> "") as Hne by (by destruct Hn).
  assert (PathJoin root n = Clean (root +:+ "/" +:+ n)) as -> by (by destruct root, n).
  assert (IsAbs (root +:+ "/" +:+ n) = true) as Ha'.
  { unfold IsAbs, HasPrefix in *. apply prefix_inv in Ha as [t ->]. rewrite <- app_assoc_str. apply prefix_app. }
  rewrite IsAbs_Clean, Clean_idem, Ha'. unfold Clean. rewrite Ha'. change (root +:+ "/" +:+ n) with (root +:+ String "/" n).
  rewrite Split_concat, clean_comps_app, (Split_no_char "/" n) by (by destruct Hn as (_ & _ & _ & ?)).
  rewrite clean_comps_plain by (by constructor). rewrite reverse_involutive.
  destruct (clean_comps true [] (Split "/" root)) as [|c l]; [by exists ""|].
  exists ("/" +:+ Join (c :: l) "/"). rewrite Join_snoc by done. by rewrite <- app_assoc_str.
Qed.

(** ** The order of [sort.Strings] *)

Lemma ltb_lt a b : String.ltb a b = true <-> OrderedTypeEx.String_as_OT.lt a b.
Proof. rewrite <- OrderedTypeEx.String_as_OT.cmp_lt. unfold String.ltb, OrderedTypeEx.String_as_OT.cmp. by destruct (String.compare a b). Qed.

Lemma ltb_asym a b : String.ltb a b = true -> String.ltb b a = false.
Proof. unfold String.ltb. rewrite (String.compare_antisym a b). by destruct (String.compare b a). Qed.

Lemma ltb_trans_false a b c : String.ltb b a = false -> String.ltb c b = false -> String.ltb c a = false.
Proof.
  intros Hab Hbc. destruct (String.ltb c a) eqn:Hca; [|done]. exfalso.
  destruct (String.ltb a b) eqn:Eab.
  - assert (String.ltb c b = true) as E by (apply ltb_lt; by eapply OrderedTypeEx.String_as_OT.lt_trans; apply ltb_lt). congruence.
  - assert (a = b) as ->; [|congruence]. apply String.compare_eq_iff. unfold String.ltb in *. rewrite (String.compare_antisym b a) in Hab.
    by destruct (String.compare a b).
Qed.

Lemma ltb_trans a b c : String.ltb a b = true -> String.ltb b c = true -> String.ltb a c = true.
Proof. intros Hab Hbc. apply ltb_lt. eapply OrderedTypeEx.String_as_OT.lt_trans; by apply ltb_lt. Qed.

Lemma ltb_total a b : String.ltb a b = false -> String.ltb b a = false -> a = b.
Proof.
  intros Hab Hba. apply String.compare_eq_iff. unfold String.ltb in *. rewrite (String.compare_antisym b a) in Hba.
  by destruct (String.compare a b).
Qed.
