(* ===== verification/GoQuote.v ===== *)
(** * Quoted strings of the Go language

    [strconv.Unquote] of a double-quoted string, and [strconv.Quote], which is what [%q]
    prints.  Strings are bytes; the table of printable characters beyond ASCII is an
    argument. *)

From S2P Require Import Prelude GoStrings.

Local Open Scope string_scope.
Local Open Scope list_scope.
Local Open Scope Z_scope.

Definition in_codes (lo hi : Z) (c : ascii) : bool := (lo <=? code c) && (code c <=? hi).
Definition cont_byte : ascii -> bool := in_codes 128 191.

(** The length of the UTF-8 sequence at the start; 0 when there is none.  Past the end
    there is the zero byte, which continues no sequence. *)
Definition utf8_len (s : list ascii) : nat :=
  let at_ (i : nat) := nth i s "000"%char in
  let a := at_ 0%nat in
  let b := at_ 1%nat in
  if in_codes 194 223 a && cont_byte b then 2%nat
  else if in_codes 224 239 a && in_codes (if code a =? 224 then 160 else 128) (if code a =? 237 then 159 else 191) b &&
          cont_byte (at_ 2%nat) then 3%nat
  else if in_codes 240 244 a && in_codes (if code a =? 240 then 144 else 128) (if code a =? 244 then 143 else 191) b &&
          cont_byte (at_ 2%nat) && cont_byte (at_ 3%nat) then 4%nat
  else 0%nat.

Definition byte_of (z : Z) : ascii := ascii_of_N (Z.to_N z).

(** [utf8.AppendRune] of a valid code point. *)
Definition encode_rune (v : Z) : list ascii :=
  byte_of <$>
  (if v <? 128 then [v]
   else if v <? 2048 then [192 + v / 64; 128 + v `mod` 64]
   else if v <? 65536 then [224 + v / 4096; 128 + v / 64 `mod` 64; 128 + v `mod` 64]
   else [240 + v / 262144; 128 + v / 4096 `mod` 64; 128 + v / 64 `mod` 64; 128 + v `mod` 64]).

Definition rune_error : list ascii := byte_of <$> [239; 191; 189].

Definition valid_rune (v : Z) : bool := (v <? 55296) || ((57344 <=? v) && (v <=? 1114111)).

Definition hex_val (c : ascii) : option Z :=
  if is_digit c then Some (code c - 48)
  else if in_codes 97 102 c then Some (code c - 87)
  else if in_codes 65 70 c then Some (code c - 55)
  else None.

Definition octal_val (c : ascii) : option Z := if in_codes 48 55 c then Some (code c - 48) else None.

(** [n] digits of the base, and what follows. *)
Fixpoint digits_of (val : ascii -> option Z) (base : Z) (n : nat) (acc : Z) (s : list ascii) : option (Z * list ascii) :=
  match n, s with
  | O, _ => Some (acc, s)
  | S n, c :: s => match val c with Some d => digits_of val base n (acc * base + d) s | None => None end
  | S _, [] => None
  end.

(** The character after a backslash: its bytes, and what follows. *)
Definition escape (s : list ascii) : option (list ascii * list ascii) :=
  match s with
  | [] => None
  | c :: s =>
      let simple (z : Z) := Some ([byte_of z], s) in
      let rune (n : nat) :=
        match digits_of hex_val 16 n 0 s with
        | Some (v, s) => if valid_rune v then Some (encode_rune v, s) else None
        | None => None
        end in
      match c with
      | "a"%char => simple 7 | "b"%char => simple 8 | "f"%char => simple 12 | "n"%char => simple 10
      | "r"%char => simple 13 | "t"%char => simple 9 | "v"%char => simple 11
      | "x"%char => match digits_of hex_val 16 2 0 s with Some (v, s) => Some ([byte_of v], s) | None => None end
      | "u"%char => rune 4%nat
      | "U"%char => rune 8%nat
      | "\"%char => simple 92
      | "034"%char => simple 34
      | _ =>
          match octal_val c with
          | Some d => match digits_of octal_val 8 2 d s with
                      | Some (v, s) => if 255 <? v then None else Some ([byte_of v], s)
                      | None => None
                      end
          | None => None
          end
      end
  end.

(** The body up to the closing quote, which must end the input. *)
Fixpoint unquote_body (fuel : nat) (s : list ascii) : option (list ascii) :=
  match fuel with
  | O => None
  | S fuel =>
      match s with
      | [] => None
      | "034"%char :: rest => match rest with [] => Some [] | _ => None end
      | "010"%char :: _ => None
      | "\"%char :: rest =>
          match escape rest with
          | Some (bytes, rest) => app bytes <$> unquote_body fuel rest
          | None => None
          end
      | c :: rest =>
          if code c <? 128 then cons c <$> unquote_body fuel rest
          else match utf8_len s with
               | O => app rune_error <$> unquote_body fuel rest
               | n => app (take n s) <$> unquote_body fuel (drop n s)
               end
      end
  end.

Definition Unquote (s : string) : option string :=
  match list_ascii_of_string s with
  | "034"%char :: rest => string_of_list_ascii <$> unquote_body (S (length rest)) rest
  | _ => None
  end.

(** ** [strconv.Quote] *)

(** The code point of a UTF-8 sequence. *)
Definition decode_rune (s : list ascii) : Z :=
  match code <$> s with
  | [a; b] => (a - 192) * 64 + (b - 128)
  | [a; b; c] => (a - 224) * 4096 + (b - 128) * 64 + (c - 128)
  | [a; b; c; d] => (a - 240) * 262144 + (b - 128) * 4096 + (c - 128) * 64 + (d - 128)
  | _ => 0
  end.

(** [n] lower-case hex digits. *)
Fixpoint hex_digits (n : nat) (v : Z) : list ascii :=
  match n with O => [] | S n => hex_digits n (v / 16) ++ [hex_digit (v `mod` 16)] end.

Definition quote_byte (c : ascii) : list ascii := "\"%char :: "x"%char :: hex_digits 2 (code c).

Definition quote_ascii (c : ascii) : list ascii :=
  if Ascii.eqb c "034" || Ascii.eqb c "\" then ["\"%char; c]
  else if in_codes 32 126 c then [c]
  else match code c with
       | 7 => ["\"%char; "a"%char] | 8 => ["\"%char; "b"%char] | 12 => ["\"%char; "f"%char] | 10 => ["\"%char; "n"%char]
       | 13 => ["\"%char; "r"%char] | 9 => ["\"%char; "t"%char] | 11 => ["\"%char; "v"%char]
       | _ => quote_byte c
       end.

Section quote.
(** [unicode.IsPrint] beyond ASCII. *)
Context (IsPrint : Z -> bool).

Definition quote_rune (bytes : list ascii) : list ascii :=
  let v := decode_rune bytes in
  if IsPrint v then bytes
  else if v <? 65536 then "\"%char :: "u"%char :: hex_digits 4 v
  else "\"%char :: "U"%char :: hex_digits 8 v.

Fixpoint quote_body (fuel : nat) (s : list ascii) : list ascii :=
  match fuel, s with
  | O, _ | _, [] => []
  | S fuel, c :: rest =>
      if code c <? 128 then quote_ascii c ++ quote_body fuel rest
      else match utf8_len s with
           | O => quote_byte c ++ quote_body fuel rest
           | n => quote_rune (take n s) ++ quote_body fuel (drop n s)
           end
  end.

Definition Quote (s : string) : string :=
  let l := list_ascii_of_string s in
  String "034" (string_of_list_ascii (quote_body (length l) l) +:+ String "034" "").
End quote.

Example unquote_ex : Unquote (String "034" ("a\tb\x41\u00e9" +:+ String "034" "")) =
  Some ("a" +:+ String "009" ("bA" +:+ String "195" (String "169" ""))).
Proof. reflexivity. Qed.

(** ** Text coerced to UTF-8

    [encoding/json] writes a string as UTF-8: each byte that starts no UTF-8 sequence
    becomes the replacement character U+FFFD. *)

Fixpoint coerce_body (fuel : nat) (s : list ascii) : list ascii :=
  match fuel, s with
  | O, _ | _, [] => []
  | S fuel, c :: rest =>
      if code c <? 128 then c :: coerce_body fuel rest
      else match utf8_len s with
           | O => rune_error ++ coerce_body fuel rest
           | n => take n s ++ coerce_body fuel (drop n s)
           end
  end.

Definition coerce_utf8 (s : string) : string :=
  let l := list_ascii_of_string s in string_of_list_ascii (coerce_body (length l) l).

(** The text is UTF-8 already. *)
Definition valid_utf8 (s : string) : Prop := coerce_utf8 s = s.

#[global] Instance valid_utf8_dec s : Decision (valid_utf8 s).
Proof. unfold valid_utf8. apply _. Defined.

(** A sequence is read from its own bytes alone. *)
Lemma utf8_len_take s n :
  utf8_len s = S n ->
  length (take (S n) s) = S n /\ forall t, utf8_len (take (S n) s ++ t) = S n.
Proof.
  assert (cont_byte "000" = false) as Hz by reflexivity.
  assert (forall a, in_codes (if code a =? 224 then 160 else 128) (if code a =? 237 then 159 else 191) "000" = false)
    as H3 by (intros a; by destruct (code a =? 224), (code a =? 237)).
  assert (forall a, in_codes (if code a =? 240 then 144 else 128) (if code a =? 244 then 143 else 191) "000" = false)
    as H4 by (intros a; by destruct (code a =? 240), (code a =? 244)).
  unfold utf8_len. intros H. generalize dependent n.
  destruct s as [|a [|b [|c [|d s]]]]; cbn [nth]; rewrite ?Hz, ?H3, ?H4, ?andb_false_r; intros n H.
  1-2: discriminate H.
  all: destruct (in_codes 194 223 a && cont_byte b) eqn:E2;
    [injection H as <-; split; [reflexivity|intros t]; cbn [take app nth]; by rewrite E2|].
  1: discriminate H.
  all: destruct (in_codes 224 239 a && in_codes (if code a =? 224 then 160 else 128) (if code a =? 237 then 159 else 191) b &&
      cont_byte c) eqn:E3;
    [injection H as <-; split; [reflexivity|intros t]; cbn [take app nth]; by rewrite E2, E3|].
  1: discriminate H.
  destruct (_ && _ && _ && _) eqn:E4; [|discriminate H].
  injection H as <-; split; [reflexivity|intros t]; cbn [take app nth]. by rewrite E2, E3, E4.
Qed.

Lemma coerce_body_idem fuel fuel' s :
  (length s <= fuel)%nat -> (length (coerce_body fuel s) <= fuel')%nat ->
  coerce_body fuel' (coerce_body fuel s) = coerce_body fuel s.
Proof.
  revert fuel' s. induction fuel as [|fuel IH]; intros fuel' [|c s] Hl; try (cbn in *; lia);
    try (by destruct fuel').
  cbn [coerce_body]. destruct (code c <? 128) eqn:Hc.
  { cbn [length]. destruct fuel' as [|fuel']; [lia|]. intros Hf. cbn [coerce_body]. rewrite Hc.
    f_equal. apply IH; cbn in *; lia. }
  destruct (utf8_len (c :: s)) as [|n] eqn:Hn.
  - intros Hf. rewrite length_app in Hf. cbn [length rune_error fmap list_fmap] in Hf.
    destruct fuel' as [|fuel']; [lia|]. cbn [rune_error fmap list_fmap app coerce_body].
    change (code (byte_of 239) <? 128) with false. cbv iota.
    change (utf8_len (byte_of 239 :: byte_of 191 :: byte_of 189 :: coerce_body fuel s)) with 3%nat.
    cbn [take drop app]. do 3 f_equal. apply IH; cbn in *; lia.
  - destruct (utf8_len_take _ _ Hn) as [Hlen Htake]. intros Hf. rewrite length_app, Hlen in Hf.
    destruct fuel' as [|fuel']; [lia|]. cbn [take app]. cbn [coerce_body]. rewrite Hc.
    change (c :: take n s ++ ?t) with (take (S n) (c :: s) ++ t). rewrite Htake.
    rewrite take_app_length', drop_app_length' by done. f_equal. cbn [drop] in *.
    apply IH; [rewrite length_drop; cbn in *; lia|lia].
Qed.

Lemma coerce_utf8_valid s : valid_utf8 (coerce_utf8 s).
Proof.
  unfold valid_utf8, coerce_utf8. rewrite list_ascii_of_string_of_list_ascii.
  f_equal. by apply coerce_body_idem.
Qed.

Lemma coerce_utf8_empty s : coerce_utf8 s = "" <-> s = "".
Proof.
  split; [|by intros ->]. unfold coerce_utf8. destruct s as [|c s]; [done|]. cbn [list_ascii_of_string length coerce_body].
  destruct (code c <? 128); [done|]. by destruct (utf8_len _).
Qed.
