(* ===== verification/Regex.v ===== *)
(** * Regular expressions

    civm compiles its input grammars with Go's [regexp].  All of them are fully
    anchored ([^...$] with no flags) and use ASCII character classes only, so a
    match is membership of the whole byte string in a regular language.  The
    patterns are written here with the same operators; [MatchString] decides
    them with Brzozowski derivatives and is proved equivalent to the language. *)

From S2P Require Import Prelude GoStrings.

Local Open Scope string_scope.
Local Open Scope list_scope.
Local Open Scope Z_scope.

(** A class is a list of inclusive byte ranges. *)
Definition class : Type := list (ascii * ascii).

Definition in_class (k : class) (c : ascii) : bool :=
  existsb (fun '(lo, hi) => in_range lo hi c) k.

Inductive regex :=
  | RNone
  | REps
  | RCls (k : class)
  | RCat (r1 r2 : regex)
  | RAlt (r1 r2 : regex)
  | RStar (r : regex).

(** ** Pattern syntax *)

Definition upper : class := [("A", "Z")%char].
Definition lower : class := [("a", "z")%char].
Definition digit : class := [("0", "9")%char].

(** The single characters of [s], as in the tail of [[A-Z._-]]. *)
Fixpoint chars (s : string) : class :=
  match s with EmptyString => [] | String c s => (c, c) :: chars s end.

Definition alnum : class := upper ++ lower ++ digit.

Fixpoint lit (s : string) : regex :=
  match s with
  | EmptyString => REps
  | String c EmptyString => RCls [(c, c)]
  | String c s => RCat (RCls [(c, c)]) (lit s)
  end.

Definition opt (r : regex) : regex := RAlt REps r.
Definition plus (r : regex) : regex := RCat r (RStar r).

(** [r{0,n}]. *)
Fixpoint upto (n : nat) (r : regex) : regex :=
  match n with O => REps | S n => opt (RCat r (upto n r)) end.

(** [r{n}k]. *)
Fixpoint times (n : nat) (r k : regex) : regex :=
  match n with O => k | S n => RCat r (times n r k) end.

(** [r{lo,hi}]. *)
Definition rep (lo hi : nat) (r : regex) : regex := times lo r (upto (hi - lo) r).

Declare Scope regex_scope.
Delimit Scope regex_scope with re.
Infix "⋅" := RCat (at level 40, left associativity) : regex_scope.

(** ** The language of a pattern *)

Inductive rmatch : regex -> string -> Prop :=
  | m_eps : rmatch REps ""
  | m_cls k c : in_class k c = true -> rmatch (RCls k) (String c "")
  | m_cat r1 r2 s1 s2 : rmatch r1 s1 -> rmatch r2 s2 -> rmatch (RCat r1 r2) (s1 +:+ s2)
  | m_alt_l r1 r2 s : rmatch r1 s -> rmatch (RAlt r1 r2) s
  | m_alt_r r1 r2 s : rmatch r2 s -> rmatch (RAlt r1 r2) s
  | m_star_nil r : rmatch (RStar r) ""
  | m_star_cons r s1 s2 : rmatch r s1 -> rmatch (RStar r) s2 -> rmatch (RStar r) (s1 +:+ s2).

(** ** Matching *)

Fixpoint nullable (r : regex) : bool :=
  match r with
  | RNone | RCls _ => false
  | REps | RStar _ => true
  | RCat r1 r2 => nullable r1 && nullable r2
  | RAlt r1 r2 => nullable r1 || nullable r2
  end.

(** Smart constructors keep derivatives small. *)
Definition cat (r1 r2 : regex) : regex :=
  match r1 with RNone => RNone | REps => r2 | _ => RCat r1 r2 end.
Definition alt (r1 r2 : regex) : regex :=
  match r1, r2 with RNone, r => r | r, RNone => r | _, _ => RAlt r1 r2 end.

Fixpoint deriv (c : ascii) (r : regex) : regex :=
  match r with
  | RNone | REps => RNone
  | RCls k => if in_class k c then REps else RNone
  | RCat r1 r2 =>
      if nullable r1 then alt (cat (deriv c r1) r2) (deriv c r2) else cat (deriv c r1) r2
  | RAlt r1 r2 => alt (deriv c r1) (deriv c r2)
  | RStar r => cat (deriv c r) (RStar r)
  end.

Fixpoint MatchString (r : regex) (s : string) : bool :=
  match s with
  | EmptyString => nullable r
  | String c s => MatchString (deriv c r) s
  end.

(** ** Correctness *)

Ltac rinv H := inversion H; subst; clear H.

Lemma rmatch_cat r1 r2 s : rmatch (cat r1 r2) s <-> rmatch (RCat r1 r2) s.
Proof.
  destruct r1; cbn; split; intros H; try done.
  - rinv H.
  - rinv H. by match goal with H : rmatch RNone _ |- _ => inversion H end.
  - apply (m_cat REps r2 "" s); [constructor|done].
  - rinv H. match goal with H : rmatch REps _ |- _ => by inversion H; subst end.
Qed.

Lemma rmatch_alt r1 r2 s : rmatch (alt r1 r2) s <-> rmatch r1 s \/ rmatch r2 s.
Proof.
  assert (rmatch (RAlt r1 r2) s <-> rmatch r1 s \/ rmatch r2 s) as H.
  { split; [intros H; rinv H; auto|intros [H|H]; by constructor]. }
  assert (~ rmatch RNone s) as Hn by (by intros Hx; inversion Hx).
  destruct r1, r2; cbn; tauto.
Qed.

Lemma nullable_correct r : nullable r = true <-> rmatch r "".
Proof.
  split.
  - induction r; cbn; try done; intros H; bsplit.
    + constructor.
    + apply (m_cat r1 r2 "" ""); auto.
    + apply orb_prop in H as [H|H]; [apply m_alt_l|apply m_alt_r]; auto.
    + constructor.
  - intros H. remember "" as s eqn:E. revert E.
    induction H; cbn; intros E; try done.
    + destruct s1, s2; try done. by rewrite IHrmatch1, IHrmatch2.
    + by rewrite IHrmatch.
    + by rewrite IHrmatch, orb_true_r.
Qed.

Lemma app_cons_inv (s1 s2 s : string) c :
  s1 +:+ s2 = String c s ->
  (s1 = "" /\ s2 = String c s) \/ (exists s1', s1 = String c s1' /\ s = s1' +:+ s2).
Proof. destruct s1; cbn; intros; simplify_eq; eauto. Qed.

Lemma rmatch_star_cons_inv r t : rmatch (RStar r) t -> forall c s,
  t = String c s -> exists s1 s2, s = s1 +:+ s2 /\ rmatch r (String c s1) /\ rmatch (RStar r) s2.
Proof.
  intros H. remember (RStar r) as q eqn:Eq. revert Eq.
  induction H; intros Eq c' s' E; try done; simplify_eq.
  apply app_cons_inv in E as [[-> ->]|(s1' & -> & ->)]; [by apply IHrmatch2|].
  by exists s1', s2.
Qed.

Lemma deriv_correct c r s : rmatch (deriv c r) s <-> rmatch r (String c s).
Proof.
  revert s. induction r; intros s; cbn.
  - split; intros H; rinv H.
  - split; intros H; rinv H.
  - destruct (in_class k c) eqn:E.
    + split; intros H; rinv H; [by constructor|constructor].
    + split; intros H; rinv H. congruence.
  - assert (rmatch (cat (deriv c r1) r2) s <->
            exists s1 s2, s = s1 +:+ s2 /\ rmatch r1 (String c s1) /\ rmatch r2 s2) as Hc.
    { rewrite rmatch_cat. split.
      - intros H. rinv H. eexists _, _. split_and!; [done|by apply IHr1|done].
      - intros (s1 & s2 & -> & H1 & H2). constructor; [by apply IHr1|done]. }
    assert (rmatch (RCat r1 r2) (String c s) <->
            (exists s1 s2, s = s1 +:+ s2 /\ rmatch r1 (String c s1) /\ rmatch r2 s2) \/
            (rmatch r1 "" /\ rmatch r2 (String c s))) as Hs.
    { split.
      - intros H. inversion H as [| |? ? ? ? Ha Hb E1 E2| | | |]; subst.
        apply app_cons_inv in E2 as [[-> ->]|(s1' & -> & ->)]; [by right|].
        left. eexists _, _. done.
      - intros [(s1 & s2 & -> & H1 & H2)|[H1 H2]].
        + by apply (m_cat r1 r2 (String c s1) s2).
        + by apply (m_cat r1 r2 "" (String c s)). }
    rewrite Hs. destruct (nullable r1) eqn:En.
    + rewrite rmatch_alt, Hc, IHr2. apply nullable_correct in En. tauto.
    + rewrite Hc. assert (~ rmatch r1 "") by (rewrite <- nullable_correct; congruence). tauto.
  - rewrite rmatch_alt, IHr1, IHr2. split; [intros [H|H]; by constructor|].
    intros H. rinv H; auto.
  - rewrite rmatch_cat. split.
    + intros H. inversion H as [| |? ? ? ? Ha Hb E1 E2| | | |]; subst.
      apply (m_star_cons r (String c s1) s2); [by apply IHr|done].
    + intros H. destruct (rmatch_star_cons_inv _ _ H c s eq_refl) as (s1 & s2 & -> & H1 & H2).
      constructor; [by apply IHr|done].
Qed.

(** The matcher decides the language. *)
Lemma MatchString_correct r s : MatchString r s = true <-> rmatch r s.
Proof.
  revert r. induction s as [|c s IH]; intros r; cbn.
  - apply nullable_correct.
  - by rewrite IH, deriv_correct.
Qed.

(** ** Consequences of a match *)

Definition all_ascii : list ascii := ascii_of_nat <$> seq 0 256.

(** Every class of [r] only has characters that satisfy [p]. *)
Fixpoint only_chars (p : ascii -> bool) (r : regex) : bool :=
  match r with
  | RNone | REps => true
  | RCls k => forallb (fun c => implb (in_class k c) (p c)) all_ascii
  | RCat r1 r2 | RAlt r1 r2 => only_chars p r1 && only_chars p r2
  | RStar r => only_chars p r
  end.

Lemma all_ascii_complete c : c ∈ all_ascii.
Proof.
  unfold all_ascii. apply list_elem_of_fmap. exists (nat_of_ascii c).
  rewrite ascii_nat_embedding. split; [done|]. apply elem_of_seq.
  pose proof (nat_ascii_bounded c). lia.
Qed.

Lemma str_forallb_app p s t : str_forallb p (s +:+ t) = str_forallb p s && str_forallb p t.
Proof. induction s as [|c s IH]; cbn; [done|]. by rewrite IH, andb_assoc. Qed.

Lemma only_chars_sound p r s :
  only_chars p r = true -> rmatch r s -> str_forallb p s = true.
Proof.
  intros Hp H. induction H; cbn [only_chars str_forallb] in *; bsplit; auto.
  - rewrite forallb_forall in Hp.
    specialize (Hp c ltac:(apply list_elem_of_In, all_ascii_complete)).
    rewrite H in Hp. cbn in Hp. by rewrite Hp.
  - rewrite str_forallb_app, IHrmatch1, IHrmatch2; done.
  - rewrite str_forallb_app, IHrmatch1, IHrmatch2; done.
Qed.

Fixpoint min_len (r : regex) : Z :=
  match r with
  | RNone | REps | RStar _ => 0
  | RCls _ => 1
  | RCat r1 r2 => min_len r1 + min_len r2
  | RAlt r1 r2 => Z.min (min_len r1) (min_len r2)
  end.

Fixpoint max_len (r : regex) : option Z :=
  match r with
  | RNone | REps => Some 0
  | RStar _ => None
  | RCls _ => Some 1
  | RCat r1 r2 =>
      match max_len r1, max_len r2 with Some a, Some b => Some (a + b) | _, _ => None end
  | RAlt r1 r2 =>
      match max_len r1, max_len r2 with Some a, Some b => Some (Z.max a b) | _, _ => None end
  end.

Lemma min_len_sound r s : rmatch r s -> min_len r <= len s.
Proof.
  unfold len. induction 1; cbn [min_len String.length]; rewrite ?length_app_str; lia.
Qed.

Lemma max_len_sound r s n : rmatch r s -> max_len r = Some n -> len s <= n.
Proof.
  unfold len. intros H. revert n.
  induction H; intros n Hn; cbn in Hn; repeat case_match; simplify_eq;
    rewrite ?length_app_str; cbn [String.length];
    repeat match goal with H : forall n, Some _ = Some n -> _ |- _ => specialize (H _ eq_refl) end;
    lia.
Qed.

(** The facts a caller gets from a successful match, by evaluating the pattern. *)
Lemma MatchString_chars p r s :
  MatchString r s = true -> only_chars p r = true -> str_forallb p s = true.
Proof. intros H%MatchString_correct Hp. by eapply only_chars_sound. Qed.

Lemma MatchString_len r s lo hi :
  MatchString r s = true -> min_len r = lo -> max_len r = Some hi -> lo <= len s <= hi.
Proof.
  intros H%MatchString_correct <- Hhi.
  eauto using min_len_sound, max_len_sound.
Qed.

Lemma in_class_single c d : in_class [(c, c)] d = true <-> d = c.
Proof.
  unfold in_class, in_range, code. cbn. rewrite orb_false_r. split; [|intros ->; lia].
  intros H. bsplit. assert (N_of_ascii c = N_of_ascii d) as E by lia.
  rewrite <- (ascii_N_embedding c), <- (ascii_N_embedding d). congruence.
Qed.

Lemma rmatch_cat_inv r1 r2 s :
  rmatch (RCat r1 r2) s -> exists s1 s2, s = s1 +:+ s2 /\ rmatch r1 s1 /\ rmatch r2 s2.
Proof. intros H. rinv H. eauto. Qed.

Lemma rmatch_lit s t : rmatch (lit s) t <-> t = s.
Proof.
  revert t. induction s as [|c s IH]; intros t.
  - split; [intros H; by rinv H|intros ->; constructor].
  - assert (forall u, rmatch (RCls [(c, c)]) u <-> u = String c "") as Hc.
    { intros u. split.
      - intros H. rinv H. f_equal. by apply in_class_single.
      - intros ->. constructor. by apply in_class_single. }
    destruct s as [|d s]; [apply Hc|].
    change (lit (String c (String d s))) with (RCat (RCls [(c, c)]) (lit (String d s))).
    split.
    + intros (s1 & s2 & -> & ->%Hc & ->%IH)%rmatch_cat_inv. done.
    + intros ->. apply (m_cat _ _ (String c "") (String d s)); [by apply Hc|by apply IH].
Qed.

Lemma rmatch_plus r s : rmatch r s -> rmatch (plus r) s.
Proof. intros H. rewrite <- (app_empty_r s). constructor; [done|constructor]. Qed.

(** A string of class characters matches [[k]+] when it is not empty. *)
Lemma rmatch_star_chars k s :
  str_forallb (in_class k) s = true -> rmatch (RStar (RCls k)) s.
Proof.
  induction s as [|c s IH]; cbn; intros H; [constructor|]. bsplit.
  apply (m_star_cons _ (String c "") s); [by constructor|auto].
Qed.

Lemma rmatch_plus_chars k s :
  s <> "" -> str_forallb (in_class k) s = true -> rmatch (plus (RCls k)) s.
Proof.
  destruct s as [|c s]; cbn; intros Hne H; [done|]. bsplit.
  apply (m_cat _ _ (String c "") s); [by constructor|by apply rmatch_star_chars].
Qed.

Lemma rmatch_upto n k s :
  str_forallb (in_class k) s = true -> (String.length s <= n)%nat -> rmatch (upto n (RCls k)) s.
Proof.
  revert s. induction n as [|n IH]; intros s H Hl; cbn in *.
  - destruct s; cbn in *; [constructor|lia].
  - destruct s as [|c s]; [apply m_alt_l; constructor|]. cbn in *. bsplit.
    apply m_alt_r, (m_cat _ _ (String c "") s); [by constructor|apply IH; [done|lia]].
Qed.

(** [[k]{n}] at the end of a pattern: exactly [n] characters of the class. *)
Lemma rmatch_times n k s :
  str_forallb (in_class k) s = true -> String.length s = n -> rmatch (times n (RCls k) REps) s.
Proof.
  revert n. induction s as [|c s IH]; intros [|n]; cbn; try done; [constructor|].
  intros Hc [= Hn]. bsplit. apply (m_cat _ _ (String c "") s); [by constructor|by apply IH].
Qed.

(** A fact about every character, checked on all 256 of them. *)
Lemma ascii_forall (p : ascii -> bool) : forallb p all_ascii = true -> forall c, p c = true.
Proof.
  intros Hp c. rewrite forallb_forall in Hp. apply Hp, list_elem_of_In, all_ascii_complete.
Qed.

Lemma ascii_impl (p q : ascii -> bool) :
  forallb (fun c => negb (p c) || q c) all_ascii = true -> forall c, p c = true -> q c = true.
Proof. intros Hp c Hc. pose proof (ascii_forall _ Hp c) as H. cbv beta in H. by rewrite Hc in H. Qed.

(** * Searching with regular expressions

    [FindString] and [FindAllString] of Go's [regexp] for patterns whose anchors, if any,
    are a leading [^] and a final [$] under the flag [m].  Of the matches at the leftmost
    position Go takes the one a backtracking matcher finds first: [ends] lists what is left
    of the text after each match, in that order.  It is proved sound and complete for the
    language of the pattern. *)

Local Open Scope string_scope.
Local Open Scope list_scope.
Local Open Scope Z_scope.

(** What is left after up to [n] repetitions, the most first.  A repetition consumes. *)
Fixpoint star_ends (step : string -> list string) (n : nat) (s : string) : list string :=
  match n with
  | O => [s]
  | S n => (s' ← filter (fun s' => (String.length s' < String.length s)%nat) (step s); star_ends step n s') ++ [s]
  end.

Fixpoint ends (r : regex) (s : string) : list string :=
  match r with
  | RNone => []
  | REps => [s]
  | RCls k => match s with String c s => if in_class k c then [s] else [] | EmptyString => [] end
  | RCat r1 r2 => s' ← ends r1 s; ends r2 s'
  | RAlt r1 r2 => ends r1 s ++ ends r2 s
  | RStar r => star_ends (ends r) (String.length s) s
  end.

(** [r?], greedy. *)
Definition maybe (r : regex) : regex := RAlt r REps.

(** A pattern with its anchors. *)
Record search := mkSearch { sr_bol : bool; sr_re : regex; sr_eol : bool }.

Definition at_eol (s : string) : bool := match s with EmptyString => true | String c _ => Ascii.eqb c "010" end.

Definition find_here (p : search) (s : string) : option string :=
  head (filter (fun rest => sr_eol p = true -> at_eol rest = true) (ends (sr_re p) s)).

(** [FindStringIndex]: what is before the match, the match and what is after it.
    [bol]: the text starts a line. *)
Fixpoint find (p : search) (bol : bool) (s : string) : option (string * string * string) :=
  match (if sr_bol p && negb bol then None else find_here p s) with
  | Some rest => Some ("", take_str (String.length s - String.length rest) s, rest)
  | None =>
      match s with
      | EmptyString => None
      | String c s => match find p (Ascii.eqb c "010") s with Some (pre, m, rest) => Some (String c pre, m, rest) | None => None end
      end
  end.

Definition FindString (p : search) (s : string) : string := match find p true s with Some (_, m, _) => m | None => "" end.

(** [FindAllString(s, -1)] of a pattern without anchors that does not match the empty
    text. *)
Fixpoint find_all (fuel : nat) (r : regex) (s : string) : list string :=
  match fuel with
  | O => []
  | S fuel => match find (mkSearch false r false) true s with Some (_, m, rest) => m :: find_all fuel r rest | None => [] end
  end.
Definition FindAllString (r : regex) (s : string) : list string := find_all (S (String.length s)) r s.

(** ** Correctness *)

Lemma star_ends_sound (step : string -> list string) (r : regex) n :
  (forall s s', s' ∈ step s -> exists m, s = m +:+ s' /\ rmatch r m) ->
  forall s s', s' ∈ star_ends step n s -> exists m, s = m +:+ s' /\ rmatch (RStar r) m.
Proof.
  intros Hstep. induction n as [|n IH]; intros s s'; cbn [star_ends].
  - intros H%list_elem_of_singleton; subst s'. exists "". split; [done|constructor].
  - rewrite elem_of_app. intros [H|H]; [|apply list_elem_of_singleton in H as ->; exists ""; split; [done|constructor]].
    apply list_elem_of_bind in H as (s1 & Hs' & Hs1). apply list_elem_of_filter in Hs1 as [_ Hs1].
    destruct (Hstep _ _ Hs1) as (m1 & -> & Hm1). destruct (IH _ _ Hs') as (m2 & -> & Hm2).
    exists (m1 +:+ m2). split; [apply app_assoc_str|by constructor].
Qed.

Lemma ends_sound r s s' : s' ∈ ends r s -> exists m, s = m +:+ s' /\ rmatch r m.
Proof.
  revert s s'. induction r as [| |k|r1 IH1 r2 IH2|r1 IH1 r2 IH2|r IH]; intros s s'; cbn [ends].
  - by intros ?%not_elem_of_nil.
  - intros H%list_elem_of_singleton; subst s'. exists "". split; [done|constructor].
  - destruct s as [|c s]; [by intros ?%not_elem_of_nil|]. destruct (in_class k c) eqn:E; [|by intros ?%not_elem_of_nil].
    intros H%list_elem_of_singleton; subst s'. exists (String c ""). split; [done|by constructor].
  - intros (s1 & Hs' & Hs1)%list_elem_of_bind. destruct (IH1 _ _ Hs1) as (m1 & -> & Hm1). destruct (IH2 _ _ Hs') as (m2 & -> & Hm2).
    exists (m1 +:+ m2). split; [apply app_assoc_str|by constructor].
  - rewrite elem_of_app. intros [(m & -> & Hm)%IH1|(m & -> & Hm)%IH2]; exists m; (split; [done|]); [by apply m_alt_l|by apply m_alt_r].
  - by apply star_ends_sound.
Qed.

(** A repetition of nothing can be left out. *)
Lemma star_split r m : rmatch (RStar r) m -> m = "" \/ exists m1 m2, m = m1 +:+ m2 /\ m1 <> "" /\ rmatch r m1 /\ rmatch (RStar r) m2.
Proof.
  remember (RStar r) as q eqn:Eq. induction 1 as [| | | | | |r' s1 s2 H1 _ H2 IH2]; try done; [by left|].
  injection Eq as ->. destruct (decide (s1 = "")) as [->|Hne]; [by apply IH2|]. right. eauto 6.
Qed.

Lemma star_ends_complete (step : string -> list string) (r : regex) n :
  (forall m s', rmatch r m -> s' ∈ step (m +:+ s')) ->
  forall m s', (String.length m <= n)%nat -> rmatch (RStar r) m -> s' ∈ star_ends step n (m +:+ s').
Proof.
  intros Hstep. induction n as [|n IH]; intros m s' Hn Hm; cbn [star_ends].
  - destruct m; [|cbn in Hn; lia]. by apply list_elem_of_singleton.
  - destruct (star_split _ _ Hm) as [->|(m1 & m2 & -> & Hne & Hm1 & Hm2)]; apply elem_of_app; [right; by apply list_elem_of_singleton|left].
    rewrite length_app_str in Hn. destruct m1 as [|c m1]; [done|]. cbn in Hn.
    rewrite <- app_assoc_str. apply list_elem_of_bind. exists (m2 +:+ s'). split; [apply IH; [lia|done]|].
    apply list_elem_of_filter. split; [|by apply Hstep]. cbn. rewrite !length_app_str. lia.
Qed.

Lemma ends_complete r m s' : rmatch r m -> s' ∈ ends r (m +:+ s').
Proof.
  revert m s'. induction r as [| |k|r1 IH1 r2 IH2|r1 IH1 r2 IH2|r IH]; intros m s' Hm; cbn [ends].
  - inversion Hm.
  - inversion Hm; subst. by apply list_elem_of_singleton.
  - inversion Hm as [|? c Hc| | | | |]; subst. cbn. rewrite Hc. by apply list_elem_of_singleton.
  - inversion Hm as [| |? ? m1 m2 Hm1 Hm2| | | |]; subst. rewrite <- app_assoc_str. apply list_elem_of_bind. exists (m2 +:+ s'). auto.
  - apply elem_of_app. inversion Hm; subst; auto.
  - apply star_ends_complete with r; [done| |done]. rewrite length_app_str. lia.
Qed.

Lemma take_str_app (m s : string) : take_str (String.length (m +:+ s) - String.length s) (m +:+ s) = m.
Proof.
  rewrite length_app_str. replace (String.length m + String.length s - String.length s)%nat with (String.length m) by lia.
  induction m as [|c m IH]; cbn; [by destruct s|]. by rewrite IH.
Qed.

(** The match is a part of the text, in the language of the pattern, and the end anchor
    holds. *)
Lemma find_sound p bol s pre m rest : find p bol s = Some (pre, m, rest) ->
  s = pre +:+ m +:+ rest /\ rmatch (sr_re p) m /\ (sr_eol p = true -> at_eol rest = true).
Proof.
  assert (forall s rest, find_here p s = Some rest ->
            let m := take_str (String.length s - String.length rest) s in
            s = m +:+ rest /\ rmatch (sr_re p) m /\ (sr_eol p = true -> at_eol rest = true)) as Hhere.
  { intros t u H. apply head_Some_elem_of in H. apply list_elem_of_filter in H as [He H].
    apply ends_sound in H as (m' & -> & Hm). cbv zeta. by rewrite take_str_app. }
  revert bol pre. induction s as [|c s IH]; intros bol pre; cbn [find].
  - destruct (if _ && _ then None else find_here p "") as [u|] eqn:E; [|done]. intros [= <- <- <-].
    destruct (sr_bol p && negb bol); [done|]. by apply Hhere in E.
  - destruct (if _ && _ then None else find_here p (String c s)) as [u|] eqn:E.
    + intros [= <- <- <-]. destruct (sr_bol p && negb bol); [done|]. by apply Hhere in E.
    + destruct (find p (Ascii.eqb c "010") s) as [[[pre' m'] rest']|] eqn:Ef; [|done]. intros [= <- <- <-].
      apply IH in Ef as (-> & Hm & He). done.
Qed.

(** Without anchors nothing is missed. *)
Lemma find_complete r bol pre m rest : rmatch r m -> find (mkSearch false r false) bol (pre +:+ m +:+ rest) <> None.
Proof.
  intros Hm. assert (forall s, s = m +:+ rest -> find_here (mkSearch false r false) s <> None) as Hhere.
  { intros s ->. unfold find_here. cbn [sr_re sr_eol]. pose proof (ends_complete r m rest Hm) as He.
    intros Hn. apply head_None in Hn. apply (not_elem_of_nil rest). rewrite <- Hn. by apply list_elem_of_filter. }
  revert bol. induction pre as [|c pre IH]; intros bol.
  - cbn [String.app]. destruct (find_here (mkSearch false r false) (m +:+ rest)) eqn:E; [|by destruct (Hhere _ eq_refl)].
    cbn. destruct (m +:+ rest); cbn [find sr_bol andb]; by rewrite E.
  - cbn [String.app find sr_bol andb]. destruct (find_here _ _); [done|]. specialize (IH (Ascii.eqb c "010")).
    by destruct (find (mkSearch false r false) (Ascii.eqb c "010") (pre +:+ m +:+ rest)) as [[[? ?] ?]|].
Qed.

(** Every match of a search for all of them is in the language. *)
Lemma FindAllString_sound r s : Forall (rmatch r) (FindAllString r s).
Proof.
  unfold FindAllString. generalize (S (String.length s)). intros n. revert s. induction n as [|n IH]; intros s; cbn [find_all]; [done|].
  destruct (find _ true s) as [[[pre m] rest]|] eqn:E; [|done]. constructor; [by apply find_sound in E as (_ & Hm & _)|apply IH].
Qed.

Lemma FindAllString_nil r s pre m rest : s = pre +:+ m +:+ rest -> rmatch r m -> FindAllString r s <> [].
Proof.
  intros -> Hm. unfold FindAllString. cbn [find_all]. pose proof (find_complete r true pre m rest Hm) as Hf.
  by destruct (find _ true _) as [[[? ?] ?]|].
Qed.

(** * Regular expressions with boundaries

    The patterns of internal/ciguard use [^], [$] and [\b] anywhere in the pattern, so a
    match depends on the character before it and on the text after it.  [pmatch] says when
    a pattern matches a part of a text in its context.  [pends] lists the ends of the matches
    at one position in the order in which Go's leftmost-first search prefers them, and is
    proved sound and complete for [pmatch].  All classes are of ASCII characters; [.] is
    every byte but the newline, which is the same language here, since what follows it in
    the patterns is ASCII. *)

Inductive pat :=
  | PEps
  | PCls (k : class)
  | PCat (p q : pat)
  | PAlt (p q : pat)     (* the first is preferred *)
  | PStar (p : pat)      (* greedy *)
  | PWord                (* \b *)
  | PBegin               (* ^ *)
  | PEnd.                (* $ *)

(** A position: the character before it, if any, and the text after it. *)
Definition position : Type := option ascii * string.

Definition word_class : class := alnum ++ chars "_".
Definition word_at (o : option ascii) : bool := match o with Some c => in_class word_class c | None => false end.
Definition first_of (s : string) : option ascii := match s with EmptyString => None | String c _ => Some c end.
Fixpoint last_of (prev : option ascii) (m : string) : option ascii :=
  match m with EmptyString => prev | String c m => last_of (Some c) m end.

(** A word character on exactly one side. *)
Definition boundary (prev : option ascii) (s : string) : bool := xorb (word_at prev) (word_at (first_of s)).

(** [pmatch p prev m rest]: after [prev] and before [rest] the pattern matches [m]. *)
Inductive pmatch : pat -> option ascii -> string -> string -> Prop :=
  | pm_eps prev rest : pmatch PEps prev "" rest
  | pm_cls k prev c rest : in_class k c = true -> pmatch (PCls k) prev (String c "") rest
  | pm_cat p q prev m1 m2 rest :
      pmatch p prev m1 (m2 +:+ rest) -> pmatch q (last_of prev m1) m2 rest -> pmatch (PCat p q) prev (m1 +:+ m2) rest
  | pm_alt_l p q prev m rest : pmatch p prev m rest -> pmatch (PAlt p q) prev m rest
  | pm_alt_r p q prev m rest : pmatch q prev m rest -> pmatch (PAlt p q) prev m rest
  | pm_star_nil p prev rest : pmatch (PStar p) prev "" rest
  | pm_star_cons p prev m1 m2 rest :
      pmatch p prev m1 (m2 +:+ rest) -> pmatch (PStar p) (last_of prev m1) m2 rest -> pmatch (PStar p) prev (m1 +:+ m2) rest
  | pm_word prev rest : boundary prev rest = true -> pmatch PWord prev "" rest
  | pm_begin rest : pmatch PBegin None "" rest
  | pm_end prev : pmatch PEnd prev "" "".

(** ** Matching *)

(** Up to [n] repetitions, the most first.  A repetition consumes. *)
Fixpoint pstar_ends (step : position -> list position) (n : nat) (x : position) : list position :=
  match n with
  | O => [x]
  | S n => (y ← filter (fun y => (String.length (snd y) < String.length (snd x))%nat) (step x); pstar_ends step n y) ++ [x]
  end.

Fixpoint pends (p : pat) (x : position) : list position :=
  match p with
  | PEps => [x]
  | PCls k => match snd x with String c s => if in_class k c then [(Some c, s)] else [] | EmptyString => [] end
  | PCat p q => y ← pends p x; pends q y
  | PAlt p q => pends p x ++ pends q x
  | PStar p => pstar_ends (pends p) (String.length (snd x)) x
  | PWord => if boundary (fst x) (snd x) then [x] else []
  | PBegin => match fst x with None => [x] | Some _ => [] end
  | PEnd => match snd x with EmptyString => [x] | _ => [] end
  end.

(** What is before the leftmost match and what is after it. *)
Fixpoint pfind (p : pat) (prev : option ascii) (s : string) : option (string * string) :=
  match pends p (prev, s) with
  | (_, rest) :: _ => Some ("", rest)
  | [] =>
      match s with
      | EmptyString => None
      | String c s => match pfind p (Some c) s with Some (pre, rest) => Some (String c pre, rest) | None => None end
      end
  end.

(** [FindStringIndex], as what is before and what is after the match. *)
Definition FindStringIndex (p : pat) (s : string) : option (string * string) := pfind p None s.
Definition Matches (p : pat) (s : string) : bool := match FindStringIndex p s with Some _ => true | None => false end.

(** ** Correctness *)

Lemma last_of_app prev m1 m2 : last_of prev (m1 +:+ m2) = last_of (last_of prev m1) m2.
Proof. revert prev. induction m1 as [|c m1 IH]; intros prev; cbn; [done|apply IH]. Qed.

(** One end of a match, with the match. *)
Definition ends_in (p : pat) (x y : position) : Prop :=
  exists m, snd x = m +:+ snd y /\ fst y = last_of (fst x) m /\ pmatch p (fst x) m (snd y).

Lemma ends_in_intro p prev m rest : pmatch p prev m rest -> ends_in p (prev, m +:+ rest) (last_of prev m, rest).
Proof. intros H. by exists m. Qed.

Lemma pstar_ends_sound step p n x y : (forall x y, y ∈ step x -> ends_in p x y) ->
  y ∈ pstar_ends step n x -> ends_in (PStar p) x y.
Proof.
  intros Hstep. revert x. induction n as [|n IH]; intros x; cbn [pstar_ends].
  - intros H%list_elem_of_singleton; subst y. exists "". split_and!; [done..|constructor].
  - rewrite elem_of_app. intros [(z & Hy & Hz)%list_elem_of_bind|H%list_elem_of_singleton].
    + apply list_elem_of_filter in Hz as [_ Hz]. destruct (Hstep _ _ Hz) as (m1 & E1 & L1 & M1), (IH _ Hy) as (m2 & E2 & L2 & M2).
      exists (m1 +:+ m2). rewrite last_of_app, <- L1, <- app_assoc_str, <- E2. split_and!; [done..|].
      constructor; [by rewrite <- E2|by rewrite <- L1].
    + subst y. exists "". split_and!; [done..|constructor].
Qed.

Lemma pends_sound p x y : y ∈ pends p x -> ends_in p x y.
Proof.
  revert x y. induction p as [|k|p IHp q IHq|p IHp q IHq|p IH| | |]; intros [prev s] y; cbn [pends fst snd].
  - intros H%list_elem_of_singleton; subst y. exists "". split_and!; [done..|constructor].
  - destruct s as [|c s]; [by intros ?%not_elem_of_nil|]. destruct (in_class k c) eqn:E; [|by intros ?%not_elem_of_nil].
    intros H%list_elem_of_singleton; subst y. exists (String c ""). split_and!; [done..|by constructor].
  - intros (z & Hy & Hz)%list_elem_of_bind. destruct (IHp _ _ Hz) as (m1 & E1 & L1 & M1), (IHq _ _ Hy) as (m2 & E2 & L2 & M2).
    cbn in *. exists (m1 +:+ m2). cbn. rewrite last_of_app, <- L1, <- app_assoc_str, <- E2. split_and!; [done..|].
    constructor; [by rewrite <- E2|by rewrite <- L1].
  - rewrite elem_of_app. intros [(m & E & L & M)%IHp|(m & E & L & M)%IHq]; exists m; split_and!; [done|done|by apply pm_alt_l|done|done|by apply pm_alt_r].
  - by apply pstar_ends_sound.
  - destruct (boundary prev s) eqn:E; [|by intros ?%not_elem_of_nil].
    intros H%list_elem_of_singleton; subst y. exists "". split_and!; [done..|by constructor].
  - destruct prev; [by intros ?%not_elem_of_nil|]. intros H%list_elem_of_singleton; subst y. exists "". split_and!; [done..|constructor].
  - destruct s; [|by intros ?%not_elem_of_nil]. intros H%list_elem_of_singleton; subst y. exists "". split_and!; [done..|constructor].
Qed.

(** A repetition of nothing can be left out. *)
Lemma pstar_split p prev m rest : pmatch (PStar p) prev m rest ->
  m = "" \/ exists m1 m2, m = m1 +:+ m2 /\ m1 <> "" /\ pmatch p prev m1 (m2 +:+ rest) /\ pmatch (PStar p) (last_of prev m1) m2 rest.
Proof.
  remember (PStar p) as q eqn:Eq. induction 1 as [| | | | | |p' prev m1 m2 rest H1 _ H2 IH2| | |]; try done; [by left|].
  injection Eq as ->. destruct (decide (m1 = "")) as [->|Hne]; [by apply IH2|]. right. eauto 8.
Qed.

Lemma pstar_ends_complete step p n prev m rest : (forall prev m rest, pmatch p prev m rest -> (last_of prev m, rest) ∈ step (prev, m +:+ rest)) ->
  (String.length m <= n)%nat -> pmatch (PStar p) prev m rest -> (last_of prev m, rest) ∈ pstar_ends step n (prev, m +:+ rest).
Proof.
  intros Hstep. revert prev m. induction n as [|n IH]; intros prev m Hn Hm; cbn [pstar_ends].
  - destruct m; [|cbn in Hn; lia]. by apply list_elem_of_singleton.
  - destruct (pstar_split _ _ _ _ Hm) as [->|(m1 & m2 & -> & Hne & Hm1 & Hm2)]; apply elem_of_app; [right; by apply list_elem_of_singleton|left].
    rewrite length_app_str in Hn. destruct m1 as [|c m1]; [done|]. cbn in Hn.
    rewrite last_of_app, <- app_assoc_str. apply list_elem_of_bind. eexists. split; [apply IH; [|exact Hm2]; lia|].
    apply list_elem_of_filter. split; [|by apply Hstep]. cbn. rewrite !length_app_str. lia.
Qed.

Lemma pends_complete p prev m rest : pmatch p prev m rest -> (last_of prev m, rest) ∈ pends p (prev, m +:+ rest).
Proof.
  revert prev m rest. induction p as [|k|p IHp q IHq|p IHp q IHq|p IH| | |]; intros prev m rest Hm; cbn [pends fst snd].
  - inversion Hm; subst. by apply list_elem_of_singleton.
  - inversion Hm as [|? ? c ? Hc| | | | | | | |]; subst. cbn. rewrite Hc. by apply list_elem_of_singleton.
  - inversion Hm as [| |? ? ? m1 m2 ? Hm1 Hm2| | | | | | |]; subst. rewrite <- app_assoc_str, last_of_app. apply list_elem_of_bind.
    eexists. split; [by apply IHq|by apply IHp].
  - apply elem_of_app. inversion Hm; subst; auto.
  - apply pstar_ends_complete with p; [done| |done]. cbn. rewrite length_app_str. lia.
  - inversion Hm as [| | | | | | |? ? Hb| |]; subst. cbn. rewrite Hb. by apply list_elem_of_singleton.
  - inversion Hm; subst. by apply list_elem_of_singleton.
  - inversion Hm; subst. by apply list_elem_of_singleton.
Qed.

Lemma pfind_sound p prev s pre rest : pfind p prev s = Some (pre, rest) ->
  exists m, s = pre +:+ m +:+ rest /\ pmatch p (last_of prev pre) m rest.
Proof.
  revert prev pre. induction s as [|c s IH]; intros prev pre; cbn [pfind];
    destruct (pends p _) as [|[pr' rest'] l] eqn:E.
  - done.
  - intros [= <- <-]. destruct (pends_sound p (prev, "") (pr', rest')) as (m & Em & _ & M); [rewrite E; by left|]. by exists m.
  - destruct (pfind p (Some c) s) as [[pre' rest']|] eqn:Ef; [|done]. intros [= <- <-].
    destruct (IH _ _ Ef) as (m & -> & M). by exists m.
  - intros [= <- <-]. destruct (pends_sound p (prev, String c s) (pr', rest')) as (m & Em & _ & M); [rewrite E; by left|]. by exists m.
Qed.

Lemma pfind_complete p prev pre m rest : pmatch p (last_of prev pre) m rest -> exists pre' rest', pfind p prev (pre +:+ m +:+ rest) = Some (pre', rest').
Proof.
  revert prev. induction pre as [|c pre IH]; intros prev Hm.
  - apply pends_complete in Hm. cbn [String.app last_of] in *. destruct (pends p (prev, m +:+ rest)) as [|[pr' r'] l] eqn:E; [by apply not_elem_of_nil in Hm|].
    exists "", r'. destruct (m +:+ rest); cbn [pfind]; by rewrite E.
  - cbn [String.app pfind last_of] in *. destruct (pends p _) as [|[? ?] ?]; [|eauto]. destruct (IH _ Hm) as (pre' & rest' & ->). eauto.
Qed.

(** A search succeeds exactly when the pattern matches some part of the text there. *)
Lemma Matches_spec p s : Matches p s = true <-> exists pre m rest, s = pre +:+ m +:+ rest /\ pmatch p (last_of None pre) m rest.
Proof.
  unfold Matches, FindStringIndex. split.
  - destruct (pfind p None s) as [[pre rest]|] eqn:E; [|done]. intros _. apply pfind_sound in E as (m & -> & M). eauto.
  - intros (pre & m & rest & -> & M). by destruct (pfind_complete _ _ _ _ _ M) as (? & ? & ->).
Qed.

(** The match found is the leftmost. *)
Lemma pfind_leftmost p prev s pre rest pre' m' rest' : pfind p prev s = Some (pre, rest) ->
  s = pre' +:+ m' +:+ rest' -> pmatch p (last_of prev pre') m' rest' -> (String.length pre <= String.length pre')%nat.
Proof.
  revert prev pre pre'. induction s as [|c s IH]; intros prev pre pre'; cbn [pfind];
    destruct (pends p _) as [|[q r] l] eqn:E; try (intros [= <- <-] _ _; cbn; lia).
  destruct (pfind p (Some c) s) as [[pre1 rest1]|] eqn:Ef; [|done]. intros [= <- <-] Es Hm.
  destruct pre' as [|c' pre'].
  - cbn in Es, Hm. apply pends_complete in Hm. rewrite <- Es, E in Hm. by apply not_elem_of_nil in Hm.
  - cbn in Es. injection Es as <- Es. cbn. apply le_n_S. by eapply IH.
Qed.

Lemma pfind_None p prev s pre m rest : pfind p prev s = None -> s = pre +:+ m +:+ rest -> ~ pmatch p (last_of prev pre) m rest.
Proof. intros Hn -> Hm. destruct (pfind_complete _ _ _ _ _ Hm) as (? & ? & E). by rewrite Hn in E. Qed.
