(* ===== verification/Prog.v ===== *)
(** * Programs over injected effects

    Most packages of civm receive every effect as a function field of an
    [Options] struct.  [prog E A] is such code: a tree of calls to the effects
    [E], each continued by whatever the effect answers.  The same tree is run
    against a concrete world ([interp]), reasoned about under any behaviour of
    the environment ([wpp]) and interleaved with other processes ([pstep]). *)

From S2P Require Import Prelude.

Inductive prog (E : Type -> Type) (A : Type) : Type :=
  | Done (a : A)
  | Call {B : Type} (e : E B) (k : B -> prog E A).
Arguments Done {E A} a.
Arguments Call {E A B} e k.

Fixpoint prog_bind {E A B} (m : prog E A) (f : A -> prog E B) : prog E B :=
  match m with
  | Done a => f a
  | Call e k => Call e (fun b => prog_bind (k b) f)
  end.

#[global] Instance prog_mret E : MRet (prog E) := fun A a => Done a.
#[global] Instance prog_mbind E : MBind (prog E) := fun A B f m => prog_bind m f.

(** The effect itself, as a program. *)
Definition call {E B} (e : E B) : prog E B := Call e (fun b => Done b).

Lemma prog_bind_call {E A B} (e : E B) (f : B -> prog E A) : call e ≫= f = Call e f.
Proof. done. Qed.

(** Replace every effect by a program. *)
Fixpoint link {E F : Type -> Type} {A} (h : forall B, E B -> prog F B) (m : prog E A) : prog F A :=
  match m with
  | Done a => Done a
  | Call e k => prog_bind (h _ e) (fun b => link h (k b))
  end.

(** ** Running against a world *)

Section interp.
Context {E : Type -> Type} {W : Type} (h : forall B, E B -> St W B).

Fixpoint interp {A} (m : prog E A) (w : W) : A * W :=
  match m with
  | Done a => (a, w)
  | Call e k => let '(b, w') := h _ e w in interp (k b) w'
  end.

Lemma interp_bind {A B} (m : prog E A) (f : A -> prog E B) w :
  interp (m ≫= f) w = let '(a, w') := interp m w in interp (f a) w'.
Proof.
  unfold mbind, prog_mbind. revert w. induction m as [a|C e k IH]; intros w; cbn; [done|].
  destruct (h _ e w) as [b w']. apply IH.
Qed.
End interp.

(** Running a linked program is running the program with the linked effects. *)
Lemma interp_link {E F : Type -> Type} {W A} (h : forall B, F B -> St W B) (g : forall B, E B -> prog F B)
    (m : prog E A) w :
  interp h (link g m) w = interp (fun B e => interp h (g B e)) m w.
Proof.
  revert w. induction m as [a|B e k IH]; intros w; cbn; [done|].
  pose proof (interp_bind h (g B e) (fun b => link g (k b)) w) as Eq. unfold mbind, prog_mbind in Eq.
  rewrite Eq. destruct (interp h (g B e) w) as [b w']. apply IH.
Qed.

Lemma interp_ext {E : Type -> Type} {W A} (h h' : forall B, E B -> St W B) (m : prog E A) w :
  (forall B (e : E B) w, h B e w = h' B e w) -> interp h m w = interp h' m w.
Proof.
  intros Hh. revert w. induction m as [a|B e k IH]; intros w; cbn; [done|].
  rewrite Hh. destruct (h' B e w) as [b w']. apply IH.
Qed.

(** ** Reasoning under any environment

    A specification gives, over an abstract state [S], the condition under which
    an effect may be called and the answers and new states the caller must be
    ready for.  [wpp m Q s]: from [s] every call of [m] is allowed and, whatever
    the answers, [m] ends in [Q]. *)

Record spec (E : Type -> Type) (S : Type) := mkSpec {
  allowed : forall B, E B -> S -> Prop;
  answers : forall B, E B -> S -> B -> S -> Prop;
}.
Arguments mkSpec {E S}.
Arguments allowed {E S} _ {B}.
Arguments answers {E S} _ {B}.

Section wpp.
Context {E : Type -> Type} {S : Type} (sp : spec E S).

Fixpoint wpp {A} (m : prog E A) (Q : A -> S -> Prop) (s : S) : Prop :=
  match m with
  | Done a => Q a s
  | Call e k => allowed sp e s /\ forall b s', answers sp e s b s' -> wpp (k b) Q s'
  end.

Lemma wpp_mono {A} (m : prog E A) (Q Q' : A -> S -> Prop) s :
  wpp m Q s -> (forall a s', Q a s' -> Q' a s') -> wpp m Q' s.
Proof.
  intros Hm HQ. revert s Hm. induction m as [a|C e k IH]; intros s; cbn; [auto|].
  intros [Ha Hk]. split; [done|]. eauto.
Qed.

Lemma wpp_bind {A B} (m : prog E A) (f : A -> prog E B) Q s :
  wpp m (fun a s' => wpp (f a) Q s') s -> wpp (m ≫= f) Q s.
Proof.
  unfold mbind, prog_mbind. revert s. induction m as [a|C e k IH]; intros s; cbn; [done|].
  intros [Ha Hk]. split; [done|]. eauto.
Qed.

Lemma wpp_ret {A} (a : A) (Q : A -> S -> Prop) s : Q a s -> wpp (mret a) Q s.
Proof. done. Qed.

(** What no answer can take back is there at the end. *)
Lemma wpp_keeps {A} (R : S -> Prop) (m : prog E A) (Q : A -> S -> Prop) s :
  (forall B (e : E B) s1 b s2, R s1 -> answers sp e s1 b s2 -> R s2) ->
  wpp m Q s -> R s -> wpp m (fun a s' => Q a s' /\ R s') s.
Proof.
  intros HR. revert s. induction m as [a|B e k IH]; intros s; cbn [wpp]; [done|].
  intros [Ha Hk] Hs. split; [done|]. intros b s' Hb. apply IH; eauto.
Qed.

Lemma wpp_call {B} (e : E B) (Q : B -> S -> Prop) s :
  allowed sp e s -> (forall b s', answers sp e s b s' -> Q b s') -> wpp (call e) Q s.
Proof. cbn. auto. Qed.

(** Running a program whose calls are handled within the specification. *)
Lemma wpp_interp {W A} (h : forall B, E B -> St W B) (R : S -> W -> Prop) (m : prog E A) Q s w :
  (forall B (e : E B) s w, R s w -> allowed sp e s ->
     exists s', answers sp e s (fst (h B e w)) s' /\ R s' (snd (h B e w))) ->
  wpp m Q s -> R s w -> exists s', Q (fst (interp h m w)) s' /\ R s' (snd (interp h m w)).
Proof.
  intros Hh. revert s w. induction m as [a|C e k IH]; intros s w; cbn; [eauto|].
  intros [Ha Hk] HR. destruct (Hh _ e s w HR Ha) as (s' & Hans & HR').
  destruct (h _ e w) as [b w']. cbn in *. eauto.
Qed.
End wpp.

(** A program within a specification is within any that allows more and answers less. *)
Lemma wpp_weaken {E : Type -> Type} {S A} (sp sp' : spec E S) (m : prog E A) Q s :
  (forall B (e : E B) s, allowed sp e s -> allowed sp' e s) ->
  (forall B (e : E B) s b s', answers sp' e s b s' -> answers sp e s b s') ->
  wpp sp m Q s -> wpp sp' m Q s.
Proof.
  intros Ha Hb. revert s. induction m as [a|C e k IH]; intros s; cbn; [done|].
  intros [Hal Hk]. split; [by apply Ha|]. intros b s' Hs'. by apply IH, Hk, Hb.
Qed.

(** Linking: when the programs that replace the effects behave within the
    specification of the effects, whatever was proved of the program holds of the linked
    one, up to the relation of the two states. *)
Lemma wpp_link {E F : Type -> Type} {S T A} (sp : spec E S) (tp : spec F T)
    (h : forall B, E B -> prog F B) (R : S -> T -> Prop) (m : prog E A) Q s t :
  (forall B (e : E B) s t, R s t -> allowed sp e s ->
     wpp tp (h B e) (fun b t' => exists s', answers sp e s b s' /\ R s' t') t) ->
  wpp sp m Q s -> R s t -> wpp tp (link h m) (fun a t' => exists s', Q a s' /\ R s' t') t.
Proof.
  intros Hh. revert s t. induction m as [a|B e k IH]; intros s t; cbn; [eauto|].
  intros [Ha Hk] HR. apply wpp_bind. eapply wpp_mono; [by eapply Hh|].
  intros b t' (s' & Hans & HR'). eapply IH; eauto.
Qed.

(** ** Programs that only call some of the effects *)

Section only.
Context {E : Type -> Type} (P : forall B, E B -> Prop).

Fixpoint only {A} (m : prog E A) : Prop :=
  match m with
  | Done _ => True
  | Call e k => P _ e /\ forall b, only (k b)
  end.

Lemma only_ret {A} (a : A) : only (mret a).
Proof. done. Qed.

Lemma only_call {B} (e : E B) : P _ e -> only (call e).
Proof. done. Qed.

Lemma only_bind {A B} (m : prog E A) (f : A -> prog E B) :
  only m -> (forall a, only (f a)) -> only (m ≫= f).
Proof.
  unfold mbind, prog_mbind. intros Hm Hf. induction m as [a|C e k IH]; cbn in *; [done|].
  destruct Hm. auto.
Qed.

(** A condition that the called effects keep is kept by the program. *)
Lemma only_wpp {S A} (sp : spec E S) (J : S -> Prop) (m : prog E A) s :
  only m ->
  (forall B (e : E B) s, P B e -> J s -> allowed sp e s /\ forall b s', answers sp e s b s' -> J s') ->
  J s -> wpp sp m (fun _ s' => J s') s.
Proof.
  intros Hm HP. revert s. induction m as [a|C e k IH]; intros s Hs; cbn in *; [done|].
  destruct Hm as [He Hk], (HP _ e s He Hs) as [Ha Hans]. split; [done|]. eauto.
Qed.
End only.

Lemma only_mono {E} (P Q : forall B, E B -> Prop) {A} (m : prog E A) :
  only P m -> (forall B (e : E B), P B e -> Q B e) -> only Q m.
Proof. intros Hm HPQ. induction m as [a|C e k IH]; cbn in *; [done|]. destruct Hm. auto. Qed.

Lemma only_link {E F : Type -> Type} (P : forall B, F B -> Prop) {A} (h : forall B, E B -> prog F B) (m : prog E A) :
  (forall B (e : E B), only P (h B e)) -> only P (link h m).
Proof. intros Hh. induction m as [a|B e k IH]; cbn; [done|]. by apply only_bind. Qed.

(** Structural proofs of [only]. *)
Ltac only_step :=
  match goal with
  | |- only _ (mret _) => apply only_ret
  | |- only _ (Done _) => exact I
  | |- only _ (call _) => apply only_call; exact I
  | |- only _ (mbind _ _) => apply only_bind; [|intros ?]
  | |- only _ (match ?x with _ => _ end) => destruct x
  | |- only _ (if ?b then _ else _) => destruct b
  | |- only _ (let '(_, _) := ?x in _) => destruct x
  end.

(** ** Interleaving

    A system of processes, each running its own program over effects that also
    act on shared state [G]; an effect is one atomic step. *)

Section pool.
Context {E : Type -> Type} {P G A : Type} `{EqDecision P} `{Countable P}.
(** What an effect of process [p] may answer and do to the shared state. *)
Context (sem : P -> forall B, E B -> G -> B -> G -> Prop).

Inductive pstep : gmap P (prog E A) * G -> gmap P (prog E A) * G -> Prop :=
  | pstep_call p B (e : E B) k b pool g g' :
      pool !! p = Some (Call e k) -> sem p B e g b g' ->
      pstep (pool, g) (<[p := k b]> pool, g').

(** If every process meets the specification of its own view of the shared
    state, and no process disturbs the view of another, every process still
    meets it after a step of any of them. *)
Definition conforming {S} (sp : spec E S) (Q : A -> S -> Prop) (view : P -> G -> S -> Prop)
    (c : gmap P (prog E A) * G) : Prop :=
  forall p m, fst c !! p = Some m -> exists s, view p (snd c) s /\ wpp sp m Q s.

Lemma pstep_conforming {S} (sp : spec E S) (Q : A -> S -> Prop) (view : P -> G -> S -> Prop) c1 c2 :
  (forall p B (e : E B) g b g' s, view p g s -> allowed sp e s -> sem p B e g b g' ->
     exists s', answers sp e s b s' /\ view p g' s') ->
  (forall p q B (e : E B) g b g' s s0, p <> q -> view q g s -> view p g s0 -> allowed sp e s0 ->
     sem p B e g b g' -> view q g' s) ->
  pstep c1 c2 -> conforming sp Q view c1 -> conforming sp Q view c2.
Proof.
  intros Hown Hother Hs IH. inversion Hs as [p B e k b pool g g' Hp Hsem]; subst.
  unfold conforming in *. cbn in *. intros q m [[<- <-]|[Hne Hq]]%lookup_insert_Some;
    destruct (IH p _ Hp) as (s & Hv & Hal & Hk).
  - destruct (Hown _ _ _ _ _ _ _ Hv Hal Hsem) as (s' & Hans & Hv'). cbn. eauto.
  - destruct (IH q m Hq) as (sq & Hvq & Hw). exists sq. split; [|done]. by eapply Hother.
Qed.
End pool.
