(* ===== verification/Civm.v ===== *)
(** * internal/civm: shared constants and input validation

    The defaults the other components read, and the grammars that user input and
    names that reach a privileged command must satisfy.  The validators return
    [None] for Go's [nil] error. *)

From S2P Require Import Prelude GoStrings Regex.

Local Open Scope string_scope.
Local Open Scope list_scope.
Local Open Scope Z_scope.
Local Open Scope regex_scope.

(** ** Defaults *)

Definition DefaultRunnerVersion : string := "2.336.0".
Definition DefaultRunnerLinuxX64SHA256 : string := "04cf0be1aff4c3ec3554466c39124ca250e3effd8873bb7e8d68535aa9505d5d".
Definition DefaultReverseMaxAgeHours : Z := 2.
Definition DefaultRestartVerifySeconds : Z := 3.
Definition DefaultUpgradeVerifySeconds : Z := 5.
Definition DefaultRunnerPortBlockStart : Z := 20000.
Definition DefaultRunnerPortBlockSize : Z := 64.
Definition DefaultRunnerPortWindowEnd : Z := 32000.
Definition DefaultPortBlockStatePath : string := "/var/lib/civm/port-blocks.json".

Definition DefaultDockerHeavyLockPath : string := "/run/civm/docker-heavy.lock".
Definition DefaultDockerHeavyLockBudgetMinutes : Z := 50.
Definition DefaultDockerHeavyLockWaitMinutes : Z := 75.
Definition DefaultDockerHeavyHeartbeatSeconds : Z := 30.

Definition DefaultAdmitMaxHeavy : Z := 2.
Definition DefaultAdmitWaitMinutes : Z := 30.
Definition DefaultAdmitSlotPathPrefix : string := "/run/civm/admit-heavy-".
Definition DefaultAdmitDockerSlotPath : string := "/run/civm/admit-docker.lock".

Definition DefaultSafeDeleteWrapperPath : string := "/usr/local/bin/civm-safedelete".

Definition DefaultRunnerAutoRestartPerHour : Z := 3.
Definition DefaultRunnerWatchdogMarkerPath : string := "/var/lib/civm/runner-watchdog-reruns.json".
Definition DefaultWorkDir : string := "/home/runner/_work".
Definition DefaultTmpDir : string := "/tmp".
Definition DefaultCodespaceDir : string := "/home/runner/codespace".
Definition DefaultPreCleanupPct : Z := 60.
Definition DefaultWatchdogThresholdPct : Z := DefaultPreCleanupPct.
Definition DefaultEmergencyBypassPct : Z := 75.
Definition DefaultHostVolumeWarnFreeGB : Z := 30.
Definition DefaultHostVolumeCritFreeGB : Z := 10.
Definition DefaultHostVolumeHeadroomGB : Z := 8.
Definition DefaultHostMetricsPath : string := "/var/lib/civm/host-metrics.json".
Definition DefaultHostMetricsMaxAgeMinutes : Z := 30.
Definition DefaultCacheTrimMinProtectHours : Z := 24.
Definition DefaultCacheInFlightFloorMinutes : Z := 15.
Definition DefaultCacheGoBuildMaxGB : Z := 12.
Definition DefaultCacheNPMMaxGB : Z := 3.
Definition DefaultCacheYarnMaxGB : Z := 12.
Definition DefaultCachePNPMMaxGB : Z := 5.
Definition DefaultCacheGolangciLintMaxGB : Z := 2.
Definition DefaultCachePlaywrightMaxGB : Z := 2.
Definition DefaultHooksLogPath : string := "/var/log/civm/hooks.jsonl".
Definition DefaultMaintenanceStatePath : string := "/var/lib/civm/maintenance.json".
Definition DefaultMaintenanceLockPath : string := "/var/lib/civm/maintenance.lock".
Definition DefaultCapacityMaxDiskPct : Z := 90.
Definition DefaultHardFailPct : Z := 90.
Definition DefaultMinFreeGB : Z := 58.
Definition DefaultDockerBuildxPruneFilter : string := "until=24h".
Definition DefaultDockerComposeProjectLabel : string := "com.docker.compose.project".
Definition DefaultRoutineCleanupCmdTimeoutSecs : Z := 120.
Definition DefaultCIOrphanProjectPrefix : string := "civm-run".
Definition DefaultCIFixedHostPorts : list Z :=
  [81; 3010; 3011; 5433; 5443; 6389; 8088; 8101; 8102; 8103; 8104; 8105; 8106; 8107; 8108; 8109; 8110; 8111;
   9020; 9021; 9100].

(** ** Grammars *)

(** [^[A-Za-z0-9][A-Za-z0-9-]{0,38}/[A-Za-z0-9._-]{1,100}$] *)
Definition repoRe : regex :=
  RCls alnum ⋅ upto 38 (RCls (alnum ++ chars "-")) ⋅ lit "/" ⋅
  rep 1 100 (RCls (alnum ++ chars "._-")).

(** [^[A-Za-z0-9][A-Za-z0-9_-]{0,63}$] *)
Definition shortRe : regex := RCls alnum ⋅ upto 63 (RCls (alnum ++ chars "_-")).
Definition labelRe : regex := RCls alnum ⋅ upto 63 (RCls (alnum ++ chars "_-")).

(** [^[0-9]+[.][0-9]+[.][0-9]+$] *)
Definition semverRe : regex :=
  plus (RCls digit) ⋅ lit "." ⋅ plus (RCls digit) ⋅ lit "." ⋅ plus (RCls digit).

(** [^[A-Za-z0-9_.@-]+[.]service$] *)
Definition unitRe : regex := plus (RCls (alnum ++ chars "_.@-")) ⋅ lit ".service".

(** [^[A-Za-z_][A-Za-z0-9_-]{0,63}$] *)
Definition userRe : regex :=
  RCls (upper ++ lower ++ chars "_") ⋅ upto 63 (RCls (alnum ++ chars "_-")).

(** [^[A-Za-z0-9.][A-Za-z0-9._/-]{0,127}[.]ya?ml$] *)
Definition workflowRe : regex :=
  RCls (alnum ++ chars ".") ⋅ upto 127 (RCls (alnum ++ chars "._/-")) ⋅
  lit ".y" ⋅ opt (lit "a") ⋅ lit "ml".

(** ** Validators *)

Definition ValidateRepo (repo : string) : err_ret :=
  if MatchString repoRe repo then None else Some (Errorf "repo deve ter formato owner/repo seguro").

Definition ValidateShort (short : string) : err_ret :=
  if MatchString shortRe short then None
  else Some (Errorf "short deve conter apenas letras, numeros, _ ou -").

Definition ValidateLabels (labels : string) : err_ret :=
  if String.eqb labels "" then Some (Errorf "label obrigatorio")
  else
    (fix go (l : list string) : err_ret :=
       match l with
       | [] => None
       | label :: l =>
           if MatchString labelRe (TrimSpace label) then go l
           else Some (Errorf "label invalido")
       end) (Split "," labels).

Definition ValidateSemver (value : string) : err_ret :=
  if MatchString semverRe value then None else Some (Errorf "deve usar semver x.y.z").

Definition ValidateServiceUnit (unit : string) : err_ret :=
  if negb (MatchString unitRe unit) || Contains unit ".." then Some (Errorf "unit invalida")
  else None.

Definition ValidateUserName (name : string) : err_ret :=
  if MatchString userRe name then None else Some (Errorf "run-as invalido").

Definition ValidateWorkflowFile (workflow : string) : err_ret :=
  if negb (MatchString workflowRe workflow) || HasPrefix workflow "/" || Contains workflow ".."
  then Some (Errorf "workflow deve ser arquivo .yml/.yaml seguro") else None.

(** The part after the last backslash, as [strings.LastIndexAny(name, `\`)] selects it. *)
Definition after_backslash (name : string) : string :=
  match last (Split "\" name) with Some s => s | None => name end.

(** The environment gives [SUDO_USER], [USER] and the login name of the process. *)
Definition ResolveRunnerUser
    (sudo_user user : string) (current : result string) (fallback : string) : string :=
  let u := TrimSpace sudo_user in
  if negb (String.eqb u "") && bool_decide (ValidateUserName u = None) then u
  else
    let last_resort :=
      let u := TrimSpace user in
      if negb (String.eqb u "") && bool_decide (ValidateUserName u = None) then u else fallback in
    match current with
    | Ok login =>
        let name := after_backslash (TrimSpace login) in
        if negb (String.eqb name "") && bool_decide (ValidateUserName name = None)
        then name else last_resort
    | Err _ => last_resort
    end.

Definition has_nul (s : string) : bool := contains_char "000" s.

Definition CleanDir (path : string) : result string :=
  if String.eqb (TrimSpace path) "" then Err (Errorf "obrigatorio")
  else if has_nul path then Err (Errorf "contem byte NUL")
  else
    let clean := Clean path in
    if String.eqb clean "." then Err (Errorf "nao pode ser diretorio atual") else Ok clean.

(** The one pinned version of the runner. *)
Definition runnerLinuxX64SHA256 : gmap string string := {[DefaultRunnerVersion := DefaultRunnerLinuxX64SHA256]}.
Definition RunnerLinuxX64SHA256 (version : string) : option string := runnerLinuxX64SHA256 !! version.

Definition VerifySHA256 (actual expected : string) : err_ret :=
  let actual := ToLower (TrimSpace actual) in
  let expected := ToLower (TrimSpace expected) in
  if String.eqb expected "" then Some (Errorf "sha256 esperado ausente")
  else if String.eqb actual expected then None
  else Some (Errorf "sha256 mismatch").

Definition normalizeFingerprint (value : string) : string :=
  str_filter (fun r => is_upper r || is_digit r) (ToUpper value).

Definition VerifyGPGFingerprint (output expected : string) : err_ret :=
  let actual := normalizeFingerprint output in
  let expected := normalizeFingerprint expected in
  if String.eqb expected "" then Some (Errorf "fingerprint esperado ausente")
  else if Contains actual expected then None
  else Some (Errorf "fingerprint mismatch").

(** Admission gate of the below-headroom emergency reclaim (GB, Go [int64]). *)
Definition EmergencyAdmits (liveFreeGB hardFloorGB scratchBudgetGB : Z) : bool :=
  if scratchBudgetGB <=? 0 then false
  else scratchBudgetGB <=? int64 (liveFreeGB - hardFloorGB).

(** ** Properties *)

Definition unit_char (c : ascii) : bool := in_class (alnum ++ chars "_.@-") c.

(** What an accepted unit name looks like. *)
Lemma ValidateServiceUnit_sound unit :
  ValidateServiceUnit unit = None ->
  str_forallb unit_char unit = true /\
  (exists stem, stem <> "" /\ unit = stem +:+ ".service") /\
  Contains unit ".." = false.
Proof.
  unfold ValidateServiceUnit. case_match eqn:E; [done|]. intros _.
  apply orb_false_elim in E as [E Hd]. apply negb_false_iff in E. split_and!; [| |done].
  - eapply MatchString_chars; [done|]. vm_compute. done.
  - apply MatchString_correct, rmatch_cat_inv in E as (s1 & s2 & -> & H1 & H2).
    apply rmatch_lit in H2 as ->. exists s1. split; [|done].
    apply min_len_sound in H1. by destruct s1.
Qed.

(** Accepted unit names never contain a slash, a blank or any other character
    that has a meaning to the shell or the file system. *)
Lemma ValidateServiceUnit_no_slash unit :
  ValidateServiceUnit unit = None -> contains_char "/" unit = false.
Proof.
  intros [H _]%ValidateServiceUnit_sound. induction unit as [|c unit IH]; [done|].
  cbn in H |- *. bsplit. rewrite IH by done. rewrite orb_false_r.
  apply bool_decide_eq_false. intros <-. done.
Qed.
