(* ===== verification/JitTypes.v ===== *)
(** * internal/jitdispatcher: data model

    The types of types.go, runner.go and github.go with the source's field names
    (behind a short prefix per record), and one setter per ledger field the
    dispatcher assigns. *)

From S2P Require Import Prelude GoStrings.

Local Open Scope string_scope.
Local Open Scope list_scope.
Local Open Scope Z_scope.

Definition SupportedAPIVersion : string := "2026-03-10".
Definition MachineLockPath : string := "/run/civm/jit-dispatch.lock".

(** [time.Time] is a nanosecond count from the Unix epoch; Go's zero time is
    January 1 of year 1. *)
Definition zero_time : Z := -62135596800 * Second.

Inductive Status :=
  | StatusPrepared | StatusDispatching | StatusWorkflowDispatched | StatusRunBound
  | StatusJITCreated | StatusRunnerStarted | StatusIsolationReady | StatusReconciling
  | StatusCompleted | StatusFailed | StatusStale | StatusAmbiguous
  | StatusOther (raw : string).

#[global] Instance Status_eq_dec : EqDecision Status.
Proof. solve_decision. Defined.

(** ** Configuration, request and identity *)

Record RepositoryPolicy := mkPolicy {
  pol_Repository : string;
  pol_TrustedRef : string;
  pol_Workflow : string;
  pol_WorkflowSHA256 : string;
  pol_CandidateRefs : list string;
  pol_RunnerGroupID : Z;
  pol_JobName : string;
}.

#[global] Instance RepositoryPolicy_eq_dec : EqDecision RepositoryPolicy.
Proof. solve_decision. Defined.

Record Config := mkConfig {
  cfg_APIBaseURL : string;
  cfg_APIVersion : string;
  cfg_StateDir : string;
  cfg_RunnerDirectory : string;
  cfg_GuardExecutable : string;
  cfg_IsolationDriver : string;
  cfg_DriverSHA256 : string;
  cfg_BaseImageSHA256 : string;
  cfg_QueueWait : Z;
  cfg_QueuePoll : Z;
  cfg_HTTPTimeout : Z;
  cfg_JobPollInterval : Z;
  cfg_JobBindTimeout : Z;
  cfg_RunTimeout : Z;
  cfg_ShutdownGrace : Z;
  cfg_RecoveryTimeout : Z;
  cfg_Repositories : list RepositoryPolicy;
}.

#[global] Instance Config_eq_dec : EqDecision Config.
Proof. solve_decision. Defined.

(** [Config.Policy]: the first policy of the repository. *)
Definition Policy (c : Config) (repository : string) : option RepositoryPolicy :=
  head (filter (fun p => pol_Repository p = repository) (cfg_Repositories c)).

Record Request := mkRequest {
  rq_Repository : string;
  rq_CandidateRef : string;
  rq_CandidateSHA : string;
  rq_Idempotency : string;
}.

#[global] Instance Request_eq_dec : EqDecision Request.
Proof. solve_decision. Defined.

Record Identity := mkIdentity {
  id_Nonce : string;
  id_Label : string;
  id_RunnerName : string;
  id_WorkFolder : string;
}.

#[global] Instance Identity_eq_dec : EqDecision Identity.
Proof. solve_decision. Defined.

(** ** The durable ledger *)

Record Ledger := mkLedger {
  lg_Version : Z;
  lg_RequestID : string;
  lg_Repository : string;
  lg_CandidateRef : string;
  lg_CandidateSHA : string;
  lg_TrustedSHA : string;
  lg_Workflow : string;
  lg_WorkflowSHA256 : string;
  lg_Nonce : string;
  lg_RunnerLabel : string;
  lg_RunnerName : string;
  lg_WorkFolder : string;
  lg_RunID : Z;
  lg_JobID : Z;
  lg_RunnerID : Z;
  lg_LeaseID : string;
  lg_ProcessPID : Z;
  lg_ProcessStart : Z;
  lg_ProcessGroup : Z;
  lg_CgroupPath : string;
  lg_IsolationID : string;
  lg_IsolationBase : string;
  lg_RunTerminal : bool;
  lg_RunnerGone : bool;
  lg_IsolationGone : bool;
  lg_CleanupComplete : bool;
  lg_Status : Status;
  lg_CreatedAt : Z;
  lg_UpdatedAt : Z;
  lg_FailureCode : string;
}.

#[global] Instance Ledger_eq_dec : EqDecision Ledger.
Proof. solve_decision. Defined.

(** Field assignment: [set_X v l] is [l.X = v] on a copy of the struct. *)
Definition eta_Ledger (l : Ledger) : Ledger :=
  mkLedger (lg_Version l) (lg_RequestID l) (lg_Repository l) (lg_CandidateRef l)
    (lg_CandidateSHA l) (lg_TrustedSHA l) (lg_Workflow l) (lg_WorkflowSHA256 l)
    (lg_Nonce l) (lg_RunnerLabel l) (lg_RunnerName l) (lg_WorkFolder l) (lg_RunID l)
    (lg_JobID l) (lg_RunnerID l) (lg_LeaseID l) (lg_ProcessPID l)
    (lg_ProcessStart l) (lg_ProcessGroup l) (lg_CgroupPath l) (lg_IsolationID l)
    (lg_IsolationBase l) (lg_RunTerminal l) (lg_RunnerGone l) (lg_IsolationGone l)
    (lg_CleanupComplete l) (lg_Status l) (lg_CreatedAt l) (lg_UpdatedAt l)
    (lg_FailureCode l).

Ltac field_setter proj :=
  let e := eval cbv delta [eta_Ledger] in eta_Ledger in
  match eval pattern proj in e with ?f _ => exact (fun v l => f (fun _ => v) l) end.

Definition set_RunID : Z -> Ledger -> Ledger := ltac:(field_setter lg_RunID).
Definition set_JobID : Z -> Ledger -> Ledger := ltac:(field_setter lg_JobID).
Definition set_RunnerID : Z -> Ledger -> Ledger := ltac:(field_setter lg_RunnerID).
Definition set_ProcessPID : Z -> Ledger -> Ledger := ltac:(field_setter lg_ProcessPID).
Definition set_ProcessStart : Z -> Ledger -> Ledger := ltac:(field_setter lg_ProcessStart).
Definition set_ProcessGroup : Z -> Ledger -> Ledger := ltac:(field_setter lg_ProcessGroup).
Definition set_CgroupPath : string -> Ledger -> Ledger := ltac:(field_setter lg_CgroupPath).
Definition set_IsolationID : string -> Ledger -> Ledger := ltac:(field_setter lg_IsolationID).
Definition set_IsolationBase : string -> Ledger -> Ledger := ltac:(field_setter lg_IsolationBase).
Definition set_RunTerminal : bool -> Ledger -> Ledger := ltac:(field_setter lg_RunTerminal).
Definition set_RunnerGone : bool -> Ledger -> Ledger := ltac:(field_setter lg_RunnerGone).
Definition set_IsolationGone : bool -> Ledger -> Ledger := ltac:(field_setter lg_IsolationGone).
Definition set_CleanupComplete : bool -> Ledger -> Ledger := ltac:(field_setter lg_CleanupComplete).
Definition set_Status : Status -> Ledger -> Ledger := ltac:(field_setter lg_Status).
Definition set_UpdatedAt : Z -> Ledger -> Ledger := ltac:(field_setter lg_UpdatedAt).
Definition set_FailureCode : string -> Ledger -> Ledger := ltac:(field_setter lg_FailureCode).

(** ** Results and remote objects *)

Record Result := mkResult {
  res_RequestID : string;
  res_RunID : Z;
  res_Status : Status;
  res_Replay : bool;
}.

#[global] Instance Result_eq_dec : EqDecision Result.
Proof. solve_decision. Defined.

Record DispatchReceipt := mkReceipt {
  rcpt_RunID : Z;
  rcpt_RunURL : string;
  rcpt_HTMLURL : string;
}.

#[global] Instance DispatchReceipt_eq_dec : EqDecision DispatchReceipt.
Proof. solve_decision. Defined.

Record WorkflowRun := mkRun {
  run_ID : Z;
  run_Event : string;
  run_HeadSHA : string;
  run_DisplayTitle : string;
  run_Path : string;
  run_Status : string;
  run_Conclusion : string;
}.

#[global] Instance WorkflowRun_eq_dec : EqDecision WorkflowRun.
Proof. solve_decision. Defined.

Record WorkflowJob := mkJob {
  job_ID : Z;
  job_RunID : Z;
  job_Name : string;
  job_Status : string;
  job_Conclusion : string;
  job_Labels : list string;
  job_RunnerID : Z;
  job_RunnerName : string;
  job_RunnerGroupID : Z;
}.

#[global] Instance WorkflowJob_eq_dec : EqDecision WorkflowJob.
Proof. solve_decision. Defined.

Record RunnerLabel := mkLabel {
  lab_Name : string;
  lab_Type : string;
}.

#[global] Instance RunnerLabel_eq_dec : EqDecision RunnerLabel.
Proof. solve_decision. Defined.

Record RemoteRunner := mkRunner {
  rr_ID : Z;
  rr_Name : string;
  rr_Status : string;
  rr_Busy : bool;
  rr_Labels : list RunnerLabel;
}.

#[global] Instance RemoteRunner_eq_dec : EqDecision RemoteRunner.
Proof. solve_decision. Defined.

(** A nil [*JITSecret] is [None]; [Bytes] of it is empty. *)
Record JITRegistration := mkRegistration {
  reg_Secret : option (list Z);
  reg_Runner : RemoteRunner;
}.

#[global] Instance JITRegistration_eq_dec : EqDecision JITRegistration.
Proof. solve_decision. Defined.

Record ProcessIdentity := mkProcess {
  pi_PID : Z;
  pi_StartTicks : Z;
  pi_ProcessGroup : Z;
  pi_CgroupPath : string;
}.

#[global] Instance ProcessIdentity_eq_dec : EqDecision ProcessIdentity.
Proof. solve_decision. Defined.

Record IsolationReceipt := mkIsoReceipt {
  ir_Protocol : Z;
  ir_Event : string;
  ir_LeaseID : string;
  ir_IsolationID : string;
  ir_BaseSHA256 : string;
  ir_Disposable : bool;
  ir_HostMounts : bool;
  ir_HostDocker : bool;
  ir_ProductSecrets : bool;
  ir_Destroyed : bool;
  ir_ResetVerified : bool;
}.

#[global] Instance IsolationReceipt_eq_dec : EqDecision IsolationReceipt.
Proof. solve_decision. Defined.

Record RunnerOutcome := mkOutcome {
  ro_Process : ProcessIdentity;
  ro_Ready : IsolationReceipt;
  ro_Destroyed : IsolationReceipt;
}.

#[global] Instance RunnerOutcome_eq_dec : EqDecision RunnerOutcome.
Proof. solve_decision. Defined.

Record LeaseMarker := mkMarker {
  lm_Version : Z;
  lm_LeaseID : string;
  lm_AdmissionID : string;
  lm_HolderPID : Z;
  lm_StartTicks : Z;
}.

#[global] Instance LeaseMarker_eq_dec : EqDecision LeaseMarker.
Proof. solve_decision. Defined.

Definition zero_process : ProcessIdentity := mkProcess 0 0 0 "".
Definition zero_receipt : IsolationReceipt :=
  mkIsoReceipt 0 "" "" "" "" false false false false false false.
