(* ===== verification/JitConfig.v ===== *)
(** * internal/jitdispatcher: configuration and request validation (config.go)

    [net/url.Parse] and [time.ParseDuration] are arguments of [validateConfig];
    every other check is spelled out. *)

From S2P Require Import Prelude GoStrings Regex JitTypes.

Local Open Scope string_scope.
Local Open Scope list_scope.
Local Open Scope Z_scope.
Local Open Scope regex_scope.

(** ** Grammars *)

Definition hex_class : class := digit ++ [("a", "f")%char].

(** [^[0-9a-f]{40}([0-9a-f]{24})?$] *)
Definition shaRE : regex := times 40 (RCls hex_class) (opt (times 24 (RCls hex_class) REps)).

(** [^[0-9a-f]{64}$] *)
Definition digestRE : regex := times 64 (RCls hex_class) REps.
Definition requestIDRE : regex := times 64 (RCls hex_class) REps.

(** [^\.github/workflows/[A-Za-z0-9][A-Za-z0-9._-]{0,99}\.ya?ml$] *)
Definition workflowRE : regex :=
  lit ".github/workflows/" ⋅ RCls alnum ⋅ upto 99 (RCls (alnum ++ chars "._-")) ⋅
  lit ".y" ⋅ opt (lit "a") ⋅ lit "ml".

(** [^[A-Za-z0-9][A-Za-z0-9._:-]{15,127}$] *)
Definition idempotencyRE : regex := RCls alnum ⋅ rep 15 127 (RCls (alnum ++ chars "._:-")).

(** [^[A-Za-z0-9][A-Za-z0-9 ._:/()-]{0,99}$] *)
Definition jobNameRE : regex := RCls alnum ⋅ upto 99 (RCls (alnum ++ chars " ._:/()-")).

(** ** Names and refs *)

Definition safe_name_char (c : ascii) : bool :=
  is_lower c || is_digit c || contains_char c "._-".

(** [safeName] reads [value[0]], so callers never pass the empty string. *)
Definition safeName (value : string) : bool :=
  str_forallb safe_name_char value &&
  negb (HasPrefix value ".") && negb (HasSuffix value ".").

Definition validateRepository (repository : string) : err_ret :=
  let parts := Split "/" repository in
  if negb (bool_decide (length parts = 2%nat)) || negb (String.eqb repository (ToLower repository))
  then Some (Errorf_s ErrInvalid "repository must be lowercase owner/repo")
  else if forallb (fun part => negb (String.eqb part "" || (100 <? len part) || negb (safeName part))) parts
  then None
  else Some (Errorf_s ErrInvalid "repository contains an unsafe segment").

Definition ref_char (c : ascii) : bool :=
  is_upper c || is_lower c || is_digit c || contains_char c "._/-".

Definition validateRef (ref : string) : err_ret :=
  if (len ref <? 12) || (240 <? len ref) || negb (HasPrefix ref "refs/heads/")
  then Some (Errorf_s ErrInvalid "ref must be an exact branch ref")
  else
    let name := TrimPrefix ref "refs/heads/" in
    if Contains name ".." || Contains name "//" || Contains name "@{" ||
       HasPrefix name "." || HasSuffix name "." || HasSuffix name "/" || HasSuffix name ".lock"
    then Some (Errorf_s ErrInvalid "ref contains an unsafe sequence")
    else if str_forallb ref_char name then None
    else Some (Errorf_s ErrInvalid "ref contains an unsafe character").

(** ** Paths *)

Definition validateAbsolutePath (value : string) : bool :=
  IsAbs value && String.eqb (Clean value) value && negb (String.eqb value "/").

Definition validateAbsoluteDir (value : string) : err_ret :=
  if validateAbsolutePath value then None
  else Some (Errorf_s ErrInvalid "must be an absolute clean non-root path").

Definition validateAbsoluteExecutable (value : string) : err_ret :=
  if validateAbsolutePath value then None
  else Some (Errorf_s ErrInvalid "must be an absolute clean path").

Definition path_comps (p : string) : list string :=
  if String.eqb p "" then [] else if String.eqb p "/" then [""] else Split "/" p.

Fixpoint strip_common (b t : list string) : list string * list string :=
  match b, t with
  | x :: b', y :: t' => if String.eqb x y then strip_common b' t' else (b, t)
  | _, _ => (b, t)
  end.

(** [filepath.Rel]; [None] is its error. *)
Definition Rel (basepath targpath : string) : option string :=
  let base := Clean basepath in
  let targ := Clean targpath in
  if String.eqb targ base then Some "."
  else
    let base := if String.eqb base "." then "" else base in
    if negb (Bool.eqb (IsAbs base) (IsAbs targ)) then None
    else match strip_common (path_comps base) (path_comps targ) with
         | ([], t) => Some (Join t "/")
         | (x :: b, t) =>
             if String.eqb x ".." then None
             else Some (Join (replicate (length (x :: b)) ".." ++ t) "/")
         end.

Definition inside (left right : string) : bool :=
  match Rel (Clean left) (Clean right) with
  | Some relative => negb (String.eqb relative "..") && negb (HasPrefix relative "../")
  | None => false
  end.

Definition pathsOverlap (left right : string) : bool := inside left right || inside right left.

(** ** Policies *)

Fixpoint refs_ok (seen refs : list string) : err_ret :=
  match refs with
  | [] => None
  | ref :: refs =>
      match validateRef ref with
      | Some e => Some e
      | None =>
          if bool_decide (ref ∈ seen) then Some (Errorf_s ErrInvalid "duplicate candidate ref")
          else refs_ok (ref :: seen) refs
      end
  end.

Definition validatePolicy (policy : RepositoryPolicy) : err_ret :=
  match validateRepository (pol_Repository policy) with
  | Some e => Some e
  | None =>
      if bool_decide (validateRef (pol_TrustedRef policy) <> None) ||
         negb (HasPrefix (pol_TrustedRef policy) "refs/heads/")
      then Some (Errorf_s ErrInvalid "trusted_ref must be a safe branch ref")
      else if negb (MatchString workflowRE (pol_Workflow policy)) ||
              negb (MatchString digestRE (pol_WorkflowSHA256 policy))
      then Some (Errorf_s ErrInvalid "workflow path or SHA-256 is invalid")
      else if (pol_RunnerGroupID policy <=? 0) || negb (MatchString jobNameRE (pol_JobName policy))
      then Some (Errorf_s ErrInvalid "runner_group_id or job_name is invalid")
      else if bool_decide (pol_CandidateRefs policy = []) ||
              (128 <? Z.of_nat (length (pol_CandidateRefs policy)))
      then Some (Errorf_s ErrInvalid "candidate_refs must contain 1..128 entries")
      else refs_ok [] (pol_CandidateRefs policy)
  end.

(** [rawRepository] has the fields of [RepositoryPolicy], copied one by one. *)
Fixpoint validate_policies (seen : list string) (raw : list RepositoryPolicy)
    : result (list RepositoryPolicy) :=
  match raw with
  | [] => Ok []
  | item :: raw =>
      if bool_decide (pol_Repository item ∈ seen)
      then Err (Errorf_s ErrInvalid "duplicate repository policy")
      else match validatePolicy item with
           | Some e => Err e
           | None =>
               match validate_policies (pol_Repository item :: seen) raw with
               | Ok policies => Ok (item :: policies)
               | Err e => Err e
               end
           end
  end.

Definition validatePolicies (raw : list RepositoryPolicy) : result (list RepositoryPolicy) :=
  validate_policies [] raw.

(** ** The configuration file *)

Record rawConfig := mkRaw {
  raw_APIBaseURL : string;
  raw_APIVersion : string;
  raw_StateDir : string;
  raw_RunnerDirectory : string;
  raw_GuardExecutable : string;
  raw_IsolationDriver : string;
  raw_DriverSHA256 : string;
  raw_BaseImageSHA256 : string;
  raw_QueueWait : string;
  raw_QueuePoll : string;
  raw_HTTPTimeout : string;
  raw_JobPollInterval : string;
  raw_JobBindTimeout : string;
  raw_RunTimeout : string;
  raw_ShutdownGrace : string;
  raw_RecoveryTimeout : string;
  raw_Repositories : list RepositoryPolicy;
}.

(** The fields of [url.URL] the check reads; [url_User] says whether it is set. *)
Record URL := mkURL {
  url_Scheme : string;
  url_Host : string;
  url_User : bool;
  url_RawQuery : string;
  url_Fragment : string;
  url_Path : string;
}.

Section config.
Context (url_Parse : string -> option URL) (ParseDuration : string -> option Z).

Definition validateAPIBase (value : string) : err_ret :=
  match url_Parse value with
  | None => Some (Errorf_s ErrInvalid "api_base_url must be an HTTPS origin")
  | Some u =>
      if negb (String.eqb (url_Scheme u) "https") || String.eqb (url_Host u) "" ||
         url_User u || negb (String.eqb (url_RawQuery u) "") || negb (String.eqb (url_Fragment u) "")
      then Some (Errorf_s ErrInvalid "api_base_url must be an HTTPS origin")
      else if negb (String.eqb (TrimSuffix (url_Path u) "/") "")
      then Some (Errorf_s ErrInvalid "api_base_url must not contain a path")
      else None
  end.

(** The eight durations with their upper bounds, in order. *)
Definition duration_fields (raw : rawConfig) : list (string * Z) :=
  [(raw_QueueWait raw, Hour); (raw_QueuePoll raw, Second);
   (raw_HTTPTimeout raw, Minute); (raw_JobPollInterval raw, Minute);
   (raw_JobBindTimeout raw, 30 * Minute); (raw_RunTimeout raw, 24 * Hour);
   (raw_ShutdownGrace raw, Minute); (raw_RecoveryTimeout raw, Hour)].

Fixpoint parse_all (items : list (string * Z)) : result (list Z) :=
  match items with
  | [] => Ok []
  | (text, max) :: items =>
      match ParseDuration text with
      | Some value =>
          if (value <=? 0) || (max <? value) then Err (Errorf_s ErrInvalid "duration is invalid")
          else match parse_all items with
               | Ok values => Ok (value :: values)
               | Err e => Err e
               end
      | None => Err (Errorf_s ErrInvalid "duration is invalid")
      end
  end.

Definition parseDurations (raw : rawConfig) : result (list Z) := parse_all (duration_fields raw).

Definition validateConfig (raw : rawConfig) : result Config :=
  if negb (String.eqb (raw_APIVersion raw) SupportedAPIVersion)
  then Err (Errorf_s ErrInvalid "api_version") else
  match validateAPIBase (raw_APIBaseURL raw) with Some e => Err e | None =>
  match validateAbsoluteDir (raw_StateDir raw) with Some e => Err e | None =>
  match validateAbsoluteDir (raw_RunnerDirectory raw) with Some e => Err e | None =>
  if pathsOverlap (raw_StateDir raw) (raw_RunnerDirectory raw)
  then Err (Errorf_s ErrInvalid "state_dir and runner_directory must not overlap") else
  match validateAbsoluteExecutable (raw_GuardExecutable raw) with Some e => Err e | None =>
  match validateAbsoluteExecutable (raw_IsolationDriver raw) with Some e => Err e | None =>
  if String.eqb (raw_GuardExecutable raw) (raw_IsolationDriver raw)
  then Err (Errorf_s ErrInvalid "guard and isolation driver must be distinct") else
  if negb (MatchString digestRE (raw_DriverSHA256 raw)) ||
     negb (MatchString digestRE (raw_BaseImageSHA256 raw))
  then Err (Errorf_s ErrInvalid "isolation driver and base image SHA-256 are required") else
  if bool_decide (raw_Repositories raw = []) || (64 <? Z.of_nat (length (raw_Repositories raw)))
  then Err (Errorf_s ErrInvalid "repositories must contain 1..64 entries") else
  match parseDurations raw with
  | Err e => Err e
  | Ok durations =>
      match validatePolicies (raw_Repositories raw) with
      | Err e => Err e
      | Ok policies =>
          let d i := nth i durations 0 in
          Ok (mkConfig (raw_APIBaseURL raw) (raw_APIVersion raw) (raw_StateDir raw)
                (raw_RunnerDirectory raw) (raw_GuardExecutable raw) (raw_IsolationDriver raw)
                (raw_DriverSHA256 raw) (raw_BaseImageSHA256 raw)
                (d 0%nat) (d 1%nat) (d 2%nat) (d 3%nat) (d 4%nat) (d 5%nat) (d 6%nat) (d 7%nat)
                policies)
      end
  end end end end end end.
End config.

(** ** Requests *)

Definition ValidateRequest (request : Request) (policy : RepositoryPolicy) : err_ret :=
  if negb (String.eqb (rq_Repository request) (pol_Repository policy))
  then Some (Errorf_s ErrInvalid "repository is not allowlisted")
  else match validateRepository (rq_Repository request) with
  | Some e => Some e
  | None =>
      match validateRef (rq_CandidateRef request) with
      | Some e => Some e
      | None =>
          let allowed := existsb (String.eqb (rq_CandidateRef request)) (pol_CandidateRefs policy) in
          if negb allowed || negb (MatchString shaRE (rq_CandidateSHA request)) ||
             negb (MatchString idempotencyRE (rq_Idempotency request))
          then Some (Errorf_s ErrInvalid "candidate ref, SHA or idempotency key is invalid")
          else None
      end
  end.

(** ** Properties *)

Lemma strip_common_spec b t b' t' :
  strip_common b t = (b', t') ->
  exists c, b = c ++ b' /\ t = c ++ t' /\
    match b', t' with x :: _, y :: _ => x <> y | _, _ => True end.
Proof.
  revert t. induction b as [|x b IH]; intros t; cbn.
  - intros [= <- <-]. by exists [].
  - destruct t as [|y t]; [intros [= <- <-]; by exists []|].
    destruct (String.eqb_spec x y) as [->|Hne].
    + intros (c & -> & -> & H)%IH. by exists (y :: c).
    + intros [= <- <-]. by exists [].
Qed.

Lemma path_comps_abs p :
  IsAbs p = true -> Clean p = p ->
  exists l, path_comps p = "" :: l /\ Forall plain_comp l.
Proof.
  intros Ha Hc. destruct (Clean_abs_shape p Ha Hc) as (l & -> & Hl). exists l. split; [|done].
  unfold path_comps. destruct l as [|x l]; [done|].
  assert (Forall (no_char "/") (x :: l)) as Hs.
  { eapply Forall_impl; [done|]. by intros ? (_&_&_&?). }
  assert (Join (x :: l) "/" <> "") as Hne.
  { inversion Hl as [|? ? (Hx & _)]; subst. destruct x; [done|]. by destruct l. }
  destruct (Join (x :: l) "/") as [|c j] eqn:Ej; [done|].
  replace (String.eqb ("/" +:+ String c j) "") with false by done.
  replace (String.eqb ("/" +:+ String c j) "/") with false
    by (by symmetry; apply String.eqb_neq).
  change (Split "/" ("/" +:+ String c j)) with ("" :: Split "/" (String c j)).
  rewrite <- Ej. by rewrite Split_Join.
Qed.

Lemma plain_not_dotdot_slash t :
  Forall plain_comp t -> HasPrefix (Join t "/") "../" = false /\ Join t "/" <> "..".
Proof.
  intros Ht. destruct t as [|x t]; [done|].
  assert (Split "/" (Join (x :: t) "/") = x :: t) as Hs.
  { apply Split_Join; [done|]. eapply Forall_impl; [done|]. by intros ? (_&_&_&?). }
  inversion Ht as [|? ? (_&_&Hx&_)]; subst. split.
  - apply not_true_is_false. intros [u Hu]%prefix_inv. rewrite Hu in Hs.
    change ("../" +:+ u) with (".." +:+ String "/" u) in Hs.
    rewrite Split_app in Hs by done. by injection Hs as <- _.
  - intros Hu. rewrite Hu in Hs. by injection Hs as <- _.
Qed.

(** [inside left right] decides whether [right] lies at or below [left]. *)
Lemma inside_spec left right :
  validateAbsolutePath left = true -> validateAbsolutePath right = true ->
  inside left right = true <-> path_comps left `prefix_of` path_comps right.
Proof.
  unfold validateAbsolutePath. intros Hl Hr. bsplit.
  repeat match goal with H : String.eqb _ _ = true |- _ => apply String.eqb_eq in H end.
  destruct (path_comps_abs left) as (ll & Ell & Hll); [done..|].
  destruct (path_comps_abs right) as (lr & Elr & Hlr); [done..|].
  unfold inside, Rel. rewrite !Clean_idem.
  repeat match goal with H : Clean _ = _ |- _ => rewrite H end.
  destruct (String.eqb_spec right left) as [->|Hne]; [done|].
  destruct (String.eqb_spec left ".") as [->|_]; [done|].
  repeat match goal with H : IsAbs _ = true |- _ => rewrite H end. cbn [Bool.eqb negb].
  destruct (strip_common _ _) as [b t] eqn:E.
  apply strip_common_spec in E as (c & Eb & Et & Hd). rewrite Ell in Eb. rewrite Elr in Et.
  destruct b as [|x b].
  - rewrite app_nil_r in Eb. subst c. rewrite Ell, Elr, Et. cbn in Et.
    injection Et as Et. rewrite Et in Hlr. apply Forall_app in Hlr as [_ Ht].
    destruct (plain_not_dotdot_slash _ Ht) as [Hp Hn]. rewrite Hp.
    destruct (String.eqb_spec (Join t "/") ".."); [done|].
    split; [intros _|done]. by exists t.
  - assert (x <> "..") as Hx.
    { destruct c as [|y c]; cbn in Eb; simplify_eq; [done|].
      apply Forall_app in Hll as [_ Hll]. by inversion Hll as [|? ? (_&_&?&_)]. }
    destruct (String.eqb_spec x ".."); [done|]. split.
    + cbn [length replicate app]. set (m := replicate (length b) ".." ++ t).
      destruct m as [|z m]; [done|]. rewrite Join_cons.
      assert (forall u, HasPrefix (".." +:+ "/" +:+ u) "../" = true) as ->
        by (intros u; apply (prefix_app "../" u)).
      by rewrite andb_false_r.
    + rewrite Ell, Elr, Eb, Et. intros Hp%prefix_app_inv. destruct t as [|y t].
      * by apply prefix_nil_inv in Hp.
      * apply prefix_cons_inv_1 in Hp. done.
Qed.

Lemma validate_policies_spec seen raw policies :
  validate_policies seen raw = Ok policies ->
  policies = raw /\ NoDup (pol_Repository <$> raw) /\
  Forall (fun p => pol_Repository p ∉ seen) raw /\ Forall (fun p => validatePolicy p = None) raw.
Proof.
  revert seen policies. induction raw as [|item raw IH]; intros seen policies; cbn.
  - intros [= <-]. split_and!; constructor.
  - case_bool_decide as Hseen; [done|]. destruct (validatePolicy item) eqn:Hv; [done|].
    destruct (validate_policies _ raw) as [ps|] eqn:E; [|done]. intros [= <-].
    apply IH in E as (-> & Hnd & Hfresh & Hval). split_and!.
    + done.
    + apply NoDup_cons. split; [|done]. intros (p & Hp & Hin)%list_elem_of_fmap.
      rewrite Forall_forall in Hfresh. apply (Hfresh p Hin). rewrite <- Hp. by left.
    + constructor; [done|]. eapply Forall_impl; [exact Hfresh|]. cbn.
      intros x Hx Hs. apply Hx. by right.
    + by constructor.
Qed.

(** A policy of a duplicate-free list is the one [Policy] finds. *)
Lemma Policy_unique c p :
  NoDup (pol_Repository <$> cfg_Repositories c) -> p ∈ cfg_Repositories c ->
  Policy c (pol_Repository p) = Some p.
Proof.
  unfold Policy. induction (cfg_Repositories c) as [|q l IH]; [intros _ H; inversion H|].
  intros [Hq Hnd]%NoDup_cons Hp. rewrite filter_cons. case_decide as Hd.
  - apply elem_of_cons in Hp as [->|Hp]; [done|]. exfalso. apply Hq. rewrite Hd.
    by apply list_elem_of_fmap_2.
  - apply IH; [done|]. by apply elem_of_cons in Hp as [->|Hp].
Qed.

Lemma parse_all_spec PD items values :
  parse_all PD items = Ok values ->
  Forall2 (fun '(text, max) v => PD text = Some v /\ 0 < v <= max) items values.
Proof.
  revert values. induction items as [|[text max] items IH]; intros values; cbn.
  - intros [= <-]. constructor.
  - destruct (PD text) as [v|] eqn:Ev; [|done]. destruct (_ || _) eqn:Eb; [done|].
    destruct (parse_all PD items) as [vs|] eqn:E; [|done]. intros [= <-].
    bsplit. constructor; [|auto]. split; [done|lia].
Qed.

Lemma parseDurations_spec PD raw ds :
  parseDurations PD raw = Ok ds ->
  exists a b c d e f g h, ds = [a; b; c; d; e; f; g; h] /\
    0 < a <= Hour /\ 0 < b <= Second /\ 0 < c <= Minute /\ 0 < d <= Minute /\
    0 < e <= 30 * Minute /\ 0 < f <= 24 * Hour /\ 0 < g <= Minute /\ 0 < h <= Hour.
Proof.
  intros Hds%parse_all_spec. unfold duration_fields in Hds.
  do 8 apply Forall2_cons_inv_l in Hds as (? & ? & [_ ?] & Hds & ->).
  apply Forall2_nil_inv_l in Hds as ->. do 8 eexists. split; [done|]. split_and!; lia.
Qed.

(** What an accepted configuration guarantees. *)
Lemma validateConfig_sound UP PD raw cfg :
  validateConfig UP PD raw = Ok cfg ->
  (* the state and runner trees are disjoint *)
  ~ (path_comps (cfg_StateDir cfg) `prefix_of` path_comps (cfg_RunnerDirectory cfg)) /\
  ~ (path_comps (cfg_RunnerDirectory cfg) `prefix_of` path_comps (cfg_StateDir cfg)) /\
  cfg_GuardExecutable cfg <> cfg_IsolationDriver cfg /\
  (* every timeout is positive and bounded *)
  0 < cfg_QueueWait cfg <= Hour /\ 0 < cfg_QueuePoll cfg <= Second /\
  0 < cfg_JobPollInterval cfg <= Minute /\ 0 < cfg_JobBindTimeout cfg <= 30 * Minute /\
  0 < cfg_RunTimeout cfg <= 24 * Hour /\ 0 < cfg_ShutdownGrace cfg <= Minute /\
  0 < cfg_RecoveryTimeout cfg <= Hour /\
  (* every policy is valid and is the one found for its repository *)
  (forall p, p ∈ cfg_Repositories cfg ->
     validatePolicy p = None /\ Policy cfg (pol_Repository p) = Some p).
Proof.
  unfold validateConfig. repeat (case_match; try done). intros [= <-]. cbn.
  repeat match goal with
  | H : validateAbsoluteDir ?p = None |- _ =>
      unfold validateAbsoluteDir in H; destruct (validateAbsolutePath p) eqn:?; [clear H|done]
  | H : validatePolicies _ = Ok _ |- _ => apply validate_policies_spec in H as (-> & ? & _ & Hval)
  | H : parseDurations _ _ = Ok _ |- _ =>
      apply parseDurations_spec in H as (? & ? & ? & ? & ? & ? & ? & ? & -> & Hd)
  end.
  match goal with H : pathsOverlap _ _ = false |- _ => apply orb_false_elim in H as [Ho1 Ho2] end.
  destruct_and? Hd. cbn [nth].
  split_and!; try done; try lia.
  - rewrite <- inside_spec by done. by rewrite Ho1.
  - rewrite <- inside_spec by done. by rewrite Ho2.
  - by apply String.eqb_neq.
  - intros p Hp. rewrite Forall_forall in Hval. split; [by apply Hval|].
    by apply Policy_unique.
Qed.

(** What an accepted policy guarantees. *)
Lemma validatePolicy_sound policy :
  validatePolicy policy = None ->
  MatchString workflowRE (pol_Workflow policy) = true /\
  MatchString digestRE (pol_WorkflowSHA256 policy) = true.
Proof.
  unfold validatePolicy. destruct (validateRepository _); [done|]. destruct (_ || _) eqn:?; [done|].
  destruct (negb _ || negb _) eqn:?; [done|]. by intros _; bsplit.
Qed.

(** What an accepted request guarantees. *)
Lemma ValidateRequest_sound request policy :
  ValidateRequest request policy = None ->
  rq_Repository request = pol_Repository policy /\
  rq_CandidateRef request ∈ pol_CandidateRefs policy /\
  validateRepository (rq_Repository request) = None /\
  validateRef (rq_CandidateRef request) = None /\
  MatchString shaRE (rq_CandidateSHA request) = true.
Proof.
  unfold ValidateRequest. repeat (case_match; try done). intros _. bsplit.
  split_and!; try done.
  - by apply String.eqb_eq.
  - match goal with H : existsb _ _ = true |- _ => apply existsb_exists in H as (x & Hx & E) end.
    apply String.eqb_eq in E as ->. by apply list_elem_of_In.
Qed.
