(* ===== verification/JitState.v ===== *)
(** * internal/jitdispatcher: receipts, ledger validation and the durable store

    Models state.go and the receipt predicates of runner.go and github.go.  The
    store keeps one ledger file per request; a file is represented by the ledger
    it decodes to.  [Save] is modelled down to its file-system calls, so that a
    process killed between [CreateTemp] and [Rename] leaves its temporary file in
    the directory, and a directory fsync that fails is reported as an error even
    though the rename has happened. *)

From S2P Require Import Prelude GoStrings Regex JitTypes JitConfig.

Local Open Scope string_scope.
Local Open Scope list_scope.
Local Open Scope Z_scope.

(** ** Receipts and identities *)

Definition opaque_char (c : ascii) : bool :=
  is_upper c || is_lower c || is_digit c || contains_char c "._:-".

Definition safeOpaqueID (value : string) : bool :=
  negb ((len value <? 16) || (128 <? len value)) && str_forallb opaque_char value.

Definition validReadyReceipt (receipt : IsolationReceipt) (leaseID baseSHA256 : string) : bool :=
  (ir_Protocol receipt =? 1) && String.eqb (ir_Event receipt) "ready" &&
  String.eqb (ir_LeaseID receipt) leaseID && safeOpaqueID (ir_IsolationID receipt) &&
  String.eqb (ir_BaseSHA256 receipt) baseSHA256 && ir_Disposable receipt &&
  negb (ir_HostMounts receipt) && negb (ir_HostDocker receipt) &&
  negb (ir_ProductSecrets receipt) && negb (ir_Destroyed receipt) &&
  negb (ir_ResetVerified receipt).

Definition validDestroyedReceipt
    (receipt : IsolationReceipt) (leaseID isolationID baseSHA256 : string) : bool :=
  (ir_Protocol receipt =? 1) && String.eqb (ir_Event receipt) "destroyed" &&
  String.eqb (ir_LeaseID receipt) leaseID && negb (String.eqb (ir_IsolationID receipt) "") &&
  (String.eqb isolationID "" || String.eqb (ir_IsolationID receipt) isolationID) &&
  String.eqb (ir_BaseSHA256 receipt) baseSHA256 && ir_Disposable receipt &&
  negb (ir_HostMounts receipt) && negb (ir_HostDocker receipt) &&
  negb (ir_ProductSecrets receipt) && ir_Destroyed receipt && ir_ResetVerified receipt.

Definition validIdentity (identity : Identity) : bool :=
  (len (id_Nonce identity) =? 64) && MatchString digestRE (id_Nonce identity) &&
  String.eqb (id_Label identity) ("civm-jit-" +:+ id_Nonce identity) &&
  String.eqb (id_RunnerName identity) ("civm-jit-" +:+ take_str 16 (id_Nonce identity)) &&
  String.eqb (id_WorkFolder identity) ("_work/jit-" +:+ id_Nonce identity).

Definition knownDefaultRunnerLabel (label : string) : bool :=
  bool_decide (ToLower label ∈ ["self-hosted"; "linux"; "x64"; "arm"; "arm64"]).

(** ** Identity generation (identity.go) *)

(** [NewIdentity] on the 32 bytes [io.ReadFull] produced. *)
Definition NewIdentity (value : list Z) : Identity :=
  let nonce := EncodeToString value in
  mkIdentity nonce ("civm-jit-" +:+ nonce) ("civm-jit-" +:+ take_str 16 nonce)
             ("_work/jit-" +:+ nonce).

Definition maxTokenBytes : Z := 8192.

(** Drop one trailing "\n" or "\r\n". *)
Definition strip_newline (data : list Z) : list Z :=
  match reverse data with
  | 10 :: 13 :: rest => reverse rest
  | 10 :: rest => reverse rest
  | _ => data
  end.

(** [ReadToken] on the bytes the limited reader delivered. *)
Definition ReadToken (data : list Z) : result (list Z) :=
  if maxTokenBytes <? Z.of_nat (length data) then Err (Errorf_s ErrInvalid "token is too large")
  else
    let data := strip_newline data in
    if Z.of_nat (length data) <? 20 then Err (Errorf_s ErrInvalid "token is too short")
    else if forallb (fun char => negb ((char <=? 32) || (127 <=? char))) data then Ok data
    else Err (Errorf_s ErrInvalid "token contains whitespace or non-ASCII data").

(** ** Ledger validation *)

Definition ledgerVersion : Z := 2.

Definition validStatus (status : Status) : bool :=
  match status with StatusOther _ => false | _ => true end.

Definition ledger_identity (ledger : Ledger) : Identity :=
  mkIdentity (lg_Nonce ledger) (lg_RunnerLabel ledger) (lg_RunnerName ledger) (lg_WorkFolder ledger).

Definition ok (e : err_ret) : bool := bool_decide (e = None).

(** The checks of [validateLedger], one definition per [if] of the source. *)
Definition lv_identity (l : Ledger) (expectedID : string) : bool :=
  (lg_Version l =? ledgerVersion) && String.eqb (lg_RequestID l) expectedID &&
  MatchString requestIDRE (lg_RequestID l).

Definition lv_request (l : Ledger) : bool :=
  ok (validateRepository (lg_Repository l)) && ok (validateRef (lg_CandidateRef l)) &&
  MatchString shaRE (lg_CandidateSHA l) && MatchString shaRE (lg_TrustedSHA l) &&
  MatchString workflowRE (lg_Workflow l) && MatchString digestRE (lg_WorkflowSHA256 l).

Definition lv_lease (l : Ledger) : bool :=
  validIdentity (ledger_identity l) && String.eqb (lg_LeaseID l) (lg_Nonce l).

Definition lv_times (l : Ledger) : bool :=
  negb (lg_CreatedAt l =? zero_time) && negb (lg_UpdatedAt l <? lg_CreatedAt l) &&
  validStatus (lg_Status l).

Definition lv_numeric (l : Ledger) : bool :=
  (0 <=? lg_RunID l) && (0 <=? lg_JobID l) && (0 <=? lg_RunnerID l) &&
  (0 <=? lg_ProcessPID l) && (0 <=? lg_ProcessGroup l).

Definition lv_remote (l : Ledger) : bool :=
  negb (((lg_RunID l =? 0) && (negb (lg_JobID l =? 0) || negb (lg_RunnerID l =? 0))) ||
        ((lg_JobID l =? 0) && negb (lg_RunnerID l =? 0))).

Definition lv_process (l : Ledger) : bool :=
  negb ((lg_ProcessPID l =? 0) &&
        (negb (lg_ProcessStart l =? 0) || negb (lg_ProcessGroup l =? 0) ||
         negb (String.eqb (lg_CgroupPath l) ""))) &&
  negb ((0 <? lg_ProcessPID l) &&
        ((lg_RunnerID l =? 0) || (lg_ProcessStart l =? 0) ||
         negb (lg_ProcessGroup l =? lg_ProcessPID l) ||
         negb (IsAbs (lg_CgroupPath l)) ||
         negb (String.eqb (Clean (lg_CgroupPath l)) (lg_CgroupPath l)) ||
         negb (String.eqb (Base (lg_CgroupPath l)) ("civm-jit-" +:+ lg_LeaseID l)))).

Definition lv_isolation (l : Ledger) : bool :=
  Bool.eqb (String.eqb (lg_IsolationID l) "") (String.eqb (lg_IsolationBase l) "") &&
  negb (negb (String.eqb (lg_IsolationID l) "") &&
        (negb (safeOpaqueID (lg_IsolationID l)) || negb (MatchString digestRE (lg_IsolationBase l)) ||
         (lg_RunnerID l =? 0))).

Definition lv_gone (l : Ledger) : bool :=
  negb (lg_IsolationGone l && negb (lg_ProcessPID l =? 0)).

Definition lv_cleanup (l : Ledger) : bool :=
  negb (lg_CleanupComplete l &&
        negb (lg_RunTerminal l && lg_RunnerGone l && lg_IsolationGone l)).

Definition validateLedger (ledger : Ledger) (expectedID : string) : err_ret :=
  if negb (lv_identity ledger expectedID) then Some (Errorf "ledger identity or version is invalid")
  else if negb (lv_request ledger) then Some (Errorf "ledger request fields are invalid")
  else if negb (lv_lease ledger) then Some (Errorf "ledger runner or lease identity is invalid")
  else if negb (lv_times ledger) then Some (Errorf "ledger timestamps or status are invalid")
  else if negb (lv_numeric ledger) then Some (Errorf "ledger numeric identity is invalid")
  else if negb (lv_remote ledger) then Some (Errorf "ledger remote identity ordering is invalid")
  else if negb (lv_process ledger) then Some (Errorf "ledger process identity is incomplete")
  else if negb (lv_isolation ledger) then Some (Errorf "ledger isolation base identity is invalid")
  else if negb (lv_gone ledger) then Some (Errorf "ledger marks isolation gone while its process remains")
  else if negb (lv_cleanup ledger) then Some (Errorf "ledger cleanup proof is incomplete")
  else None.

Lemma validateLedger_iff l id :
  validateLedger l id = None <->
  lv_identity l id && lv_request l && lv_lease l && lv_times l && lv_numeric l &&
  lv_remote l && lv_process l && lv_isolation l && lv_gone l && lv_cleanup l = true.
Proof.
  unfold validateLedger.
  repeat match goal with |- context [negb ?b] => destruct b; cbn; [|done] end. done.
Qed.

(** A fresh identity is valid, whatever the random bytes. *)
Lemma hex64_digest bytes :
  length bytes = 32%nat -> Forall is_byte bytes -> MatchString digestRE (EncodeToString bytes) = true.
Proof.
  intros Hl Hb. apply MatchString_correct, rmatch_times; [|by rewrite EncodeToString_length, Hl].
  apply EncodeToString_digits; [vm_compute; reflexivity|done].
Qed.

Lemma NewIdentity_valid bytes :
  length bytes = 32%nat -> Forall is_byte bytes -> validIdentity (NewIdentity bytes) = true.
Proof.
  intros Hl Hb. unfold validIdentity, NewIdentity. cbn [id_Nonce id_Label id_RunnerName id_WorkFolder].
  rewrite hex64_digest by done. unfold len. rewrite EncodeToString_length, Hl, !String.eqb_refl. done.
Qed.

(** ** The world of the dispatcher

    [X] is the state of everything outside the process: GitHub, the Guard broker,
    the isolation driver, the clock and the file-system error behaviour.  An
    operation on it returns [None] when the process is killed during it. *)

Definition op (X A : Type) : Type := X -> option A * X.

(** The externally visible effects, in order.  An event also records what the
    process knew when it caused the effect: the remote object it had just read, or
    the ledger in memory and the one on disk. *)
Inductive event :=
  | EvSaved (l : Ledger)
  | EvDispatch (requestID nonce : string) (durable : option Ledger)
  | EvGenerateJIT (requestID : string) (durable : option Ledger)
  | EvStartDriver (leaseID : string) (arguments : list string)
  | EvSecretSent (leaseID : string) (ready : IsolationReceipt)
  | EvCancelRun (l : Ledger) (observed : WorkflowRun)
  | EvDeleteRunner (l : Ledger) (observed : RemoteRunner)
  | EvAcquire (leaseID : string)
  | EvRelease (in_memory : Ledger) (durable : option Ledger)
  | EvAbandon (leaseID : string)
  | EvReleaseOrphan (leaseID : string) (durable : list Ledger).

Record World (X : Type) := mkWorld {
  w_disk : gmap string Ledger;   (* requests/<id>.json *)
  w_temps : nat;                 (* leftover requests/.ledger-* files *)
  w_cur : Ledger;                (* the struct behind the *Ledger of the running call *)
  w_log : list event;
  w_ext : X;
}.
Arguments mkWorld {X}.
Arguments w_disk {X}.
Arguments w_temps {X}.
Arguments w_cur {X}.
Arguments w_log {X}.
Arguments w_ext {X}.

Section world.
Context {X : Type}.

Definition with_disk (f : gmap string Ledger -> gmap string Ledger) (w : World X) : World X :=
  mkWorld (f (w_disk w)) (w_temps w) (w_cur w) (w_log w) (w_ext w).
Definition with_temps (f : nat -> nat) (w : World X) : World X :=
  mkWorld (w_disk w) (f (w_temps w)) (w_cur w) (w_log w) (w_ext w).
Definition with_cur (f : Ledger -> Ledger) (w : World X) : World X :=
  mkWorld (w_disk w) (w_temps w) (f (w_cur w)) (w_log w) (w_ext w).
Definition with_event (e : event) (w : World X) : World X :=
  mkWorld (w_disk w) (w_temps w) (w_cur w) (w_log w ++ [e]) (w_ext w).

Definition lift {A} (o : op X A) : M (World X) A := fun w =>
  let '(a, x) := o (w_ext w) in
  (match a with Some a => Ret a | None => Crashed end,
   mkWorld (w_disk w) (w_temps w) (w_cur w) (w_log w) x).

Definition cur : M (World X) Ledger := w ← get; mret (w_cur w).
Definition assign (f : Ledger -> Ledger) : M (World X) unit := modify (with_cur f).
Definition emit (e : event) : M (World X) unit := modify (with_event e).
End world.

(** ** The store *)

(** The fallible system calls of [Save], [Load] and [List]. *)
Record StoreIO (X : Type) := mkStoreIO {
  io_Marshal : Ledger -> err_ret;              (* json.MarshalIndent *)
  io_CreateTemp : op X err_ret;
  io_Chmod : op X err_ret;
  io_Write : op X err_ret;
  io_Sync : op X err_ret;
  io_Close : op X err_ret;
  io_Rename : op X err_ret;
  io_SyncDir : op X err_ret;
  io_RemoveTemp : op X err_ret;
  io_ReadDir : op X err_ret;
  io_ReadFile : string -> op X err_ret;        (* readOwnerOnlyRegular, decodeStrictJSON *)
  io_LogDir : string -> op X (result string);  (* ensureDirectory of logs/<id> *)
}.
Arguments io_Marshal {X}.
Arguments io_CreateTemp {X}.
Arguments io_Chmod {X}.
Arguments io_Write {X}.
Arguments io_Sync {X}.
Arguments io_Close {X}.
Arguments io_Rename {X}.
Arguments io_SyncDir {X}.
Arguments io_RemoveTemp {X}.
Arguments io_ReadDir {X}.
Arguments io_ReadFile {X}.
Arguments io_LogDir {X}.

Section store.
Context {X : Type} (io : StoreIO X) `{SortSlice}.

(** The deferred [os.Remove(temporaryPath)]; its error is ignored. *)
Definition remove_temp : M (World X) unit :=
  e ← lift (io_RemoveTemp io);
  match e with None => modify (with_temps Nat.pred) | Some _ => mret tt end.

(** Run the steps on the open temporary file in order, stopping at the first error. *)
Fixpoint temp_steps (steps : list (op X err_ret)) : M (World X) err_ret :=
  match steps with
  | [] => mret None
  | s :: steps =>
      e ← lift s;
      match e with Some e => mret (Some e) | None => temp_steps steps end
  end.

Definition Save (ledger : Ledger) : M (World X) err_ret :=
  match validateLedger ledger (lg_RequestID ledger) with
  | Some e => mret (Some e)
  | None =>
  if negb (MatchString requestIDRE (lg_RequestID ledger))
  then mret (Some (Errorf_s ErrInvalid "request ID is invalid")) else
  match io_Marshal io ledger with
  | Some e => mret (Some (Errorf_w "ledger encode" e))
  | None =>
      e ← lift (io_CreateTemp io);
      match e with
      | Some e => mret (Some (Errorf_w "ledger temp create" e))
      | None =>
          modify (with_temps S);;
          e ← temp_steps [io_Chmod io; io_Write io; io_Sync io; io_Close io; io_Rename io];
          match e with
          | Some e => remove_temp;; mret (Some (Errorf_w "ledger write" e))
          | None =>
              modify (fun w => with_event (EvSaved ledger)
                 (with_disk <[lg_RequestID ledger := ledger]> (with_temps Nat.pred w)));;
              (* on error the deferred remove finds no temporary file any more *)
              e ← lift (io_SyncDir io);
              match e with
              | Some e => mret (Some (Errorf_w "directory fsync" e))
              | None => mret None
              end
          end
      end
  end end.

(** [Ok None] is [found == false]. *)
Definition Load (requestID : string) : M (World X) (result (option Ledger)) :=
  if negb (MatchString requestIDRE requestID)
  then mret (Err (Errorf_s ErrInvalid "request ID is invalid"))
  else
    e ← lift (io_ReadFile io requestID);
    match e with
    | Some e => mret (Err e)
    | None =>
        w ← get;
        match w_disk w !! requestID with
        | None => mret (Ok None)
        | Some ledger =>
            match validateLedger ledger requestID with
            | Some e => mret (Err e)
            | None => mret (Ok (Some ledger))
            end
        end
    end.

Fixpoint load_all (ids : list string) : M (World X) (result (list Ledger)) :=
  match ids with
  | [] => mret (Ok [])
  | id :: ids =>
      r ← Load id;
      match r with
      | Ok (Some ledger) =>
          rest ← load_all ids;
          match rest with
          | Ok ledgers => mret (Ok (ledger :: ledgers))
          | Err e => mret (Err e)
          end
      | Ok None => mret (Err (Errorf "load ledger"))
      | Err e => mret (Err (errors_Join2 (Errorf "load ledger") e))
      end
  end.

(** [os.ReadDir] lists by name, so a leftover ".ledger-*" comes before every
    "<hex>.json" and ends the listing. *)
Definition List : M (World X) (result (list Ledger)) :=
  e ← lift (io_ReadDir io);
  match e with
  | Some e => mret (Err (Errorf_w "ledger directory read" e))
  | None =>
      w ← get;
      if (0 <? w_temps w)%nat
      then mret (Err (Errorf "ledger directory contains an unexpected entry"))
      else
        r ← load_all (sort_slice String.ltb (fst <$> map_to_list (w_disk w)));
        match r with
        | Ok ledgers =>
            mret (Ok (sort_slice (fun l r => lg_CreatedAt l <? lg_CreatedAt r) ledgers))
        | Err e => mret (Err e)
        end
  end.

Definition RequestLogDir (requestID : string) : M (World X) (result string) :=
  if negb (MatchString requestIDRE requestID)
  then mret (Err (Errorf_s ErrInvalid "request ID is invalid"))
  else lift (io_LogDir io requestID).
End store.
