(* ===== verification/JitRunner.v ===== *)
(** * internal/jitdispatcher: the isolated runner (runner.go)

    [ExecRunner.Run] and [ExecRunner.Recover] start the pinned isolation driver,
    read its receipts and hand over the JIT secret.  The process, pipe and cgroup
    calls are operations on the outside world; the callbacks [OnStarted] and
    [OnReady] run in the dispatcher's world and may themselves be killed. *)

From S2P Require Import Prelude GoStrings Regex JitTypes JitConfig JitState.

Local Open Scope string_scope.
Local Open Scope list_scope.
Local Open Scope Z_scope.

Definition maxJITResponse : Z := 256 * 1024.

Record RunnerRequest (X : Type) := mkRunnerRequest {
  rreq_DriverExecutable : string;
  rreq_DriverSHA256 : string;
  rreq_BaseImageSHA256 : string;
  rreq_RunnerDirectory : string;
  rreq_Identity : Identity;
  rreq_LeaseID : string;
  rreq_JITConfig : list Z;
  rreq_LogDirectory : string;
  rreq_ShutdownGrace : Z;
  rreq_OnStarted : ProcessIdentity -> M (World X) err_ret;
  rreq_OnReady : IsolationReceipt -> M (World X) err_ret;
}.
Arguments mkRunnerRequest {X}.
Arguments rreq_DriverExecutable {X}.
Arguments rreq_DriverSHA256 {X}.
Arguments rreq_BaseImageSHA256 {X}.
Arguments rreq_RunnerDirectory {X}.
Arguments rreq_Identity {X}.
Arguments rreq_LeaseID {X}.
Arguments rreq_JITConfig {X}.
Arguments rreq_LogDirectory {X}.
Arguments rreq_ShutdownGrace {X}.
Arguments rreq_OnStarted {X}.
Arguments rreq_OnReady {X}.

Record RecoveryRequest := mkRecoveryRequest {
  rec_DriverExecutable : string;
  rec_DriverSHA256 : string;
  rec_BaseImageSHA256 : string;
  rec_RunnerDirectory : string;
  rec_LeaseID : string;
  rec_IsolationID : string;
  rec_Process : ProcessIdentity;
  rec_LogDirectory : string;
  rec_ShutdownGrace : Z;
}.

(** The system calls of [execDriver] and of [ProcessContainment]. *)
Record DriverOps (Ctx X : Type) := mkDriverOps {
  drv_TrustedExecutable : string -> string -> op X err_ret; (* openTrustedExecutable *)
  drv_TrustedDirectory : string -> op X err_ret;            (* validateTrustedDirectory *)
  drv_LogDirectorySafe : string -> op X err_ret;            (* the Lstat check of the log directory *)
  drv_OpenLog : string -> bool -> op X err_ret;
  drv_Pipe : op X err_ret;
  drv_Prepare : string -> op X err_ret;
  drv_StdinPipe : op X err_ret;
  drv_Start : op X err_ret;
  drv_PrepareClose : op X err_ret;
  drv_Attach : string -> op X (result ProcessIdentity);
  drv_ContainmentRecover : string -> ProcessIdentity -> op X err_ret;
  drv_Terminate : ProcessIdentity -> op X err_ret;
  drv_WaitTimeout : op X (option err_ret);                  (* <-wait, or None after the grace *)
  drv_SignalGroup : bool -> op X err_ret;                   (* signalProcessGroup, true: kill *)
  drv_ReadReceipt : Ctx -> op X (result IsolationReceipt);
  drv_WriteInput : list Z -> op X err_ret;
  drv_CloseInput : op X err_ret;                            (* nil also for os.ErrClosed *)
  drv_WaitOrDone : Ctx -> op X (err_ret + error);           (* inr: the context ended first *)
  drv_Flush : op X err_ret;
}.
Arguments drv_TrustedExecutable {Ctx X}.
Arguments drv_TrustedDirectory {Ctx X}.
Arguments drv_LogDirectorySafe {Ctx X}.
Arguments drv_OpenLog {Ctx X}.
Arguments drv_Pipe {Ctx X}.
Arguments drv_Prepare {Ctx X}.
Arguments drv_StdinPipe {Ctx X}.
Arguments drv_Start {Ctx X}.
Arguments drv_PrepareClose {Ctx X}.
Arguments drv_Attach {Ctx X}.
Arguments drv_ContainmentRecover {Ctx X}.
Arguments drv_Terminate {Ctx X}.
Arguments drv_WaitTimeout {Ctx X}.
Arguments drv_SignalGroup {Ctx X}.
Arguments drv_ReadReceipt {Ctx X}.
Arguments drv_WriteInput {Ctx X}.
Arguments drv_CloseInput {Ctx X}.
Arguments drv_WaitOrDone {Ctx X}.
Arguments drv_Flush {Ctx X}.

Section runner.
Context {Ctx X : Type} (drv : DriverOps Ctx X).
(** [json.Marshal] of the protocol, lease and secret, with the newline. *)
Context (driverInput : string -> list Z -> list Z).

(** A process that ended on a signal or with a status is not an error here. *)
Definition ignoreSignalExit (err : err_ret) : err_ret :=
  if errors_Is_opt err ExitError then None else err.

Definition waitForExit : M (World X) err_ret :=
  waited ← lift (drv_WaitTimeout drv);
  match waited with
  | Some waitErr => mret (ignoreSignalExit waitErr)
  | None => mret (Some (Errorf "isolation driver was not reaped before timeout"))
  end.

Definition waitForExitOrKill : M (World X) err_ret :=
  waited ← lift (drv_WaitTimeout drv);
  match waited with
  | Some waitErr => mret (ignoreSignalExit waitErr)
  | None =>
      killErr ← lift (drv_SignalGroup drv true);
      waitErr ← waitForExit;
      mret (errors_Join killErr waitErr)
  end.

(** The command has been started by every caller. *)
Definition stopAndWait (process : ProcessIdentity) : M (World X) err_ret :=
  if 0 <? pi_PID process then
    terminateErr ← lift (drv_Terminate drv process);
    waitErr ← waitForExit;
    mret (errors_Join terminateErr waitErr)
  else
    termErr ← lift (drv_SignalGroup drv false);
    waitErr ← waitForExitOrKill;
    mret (errors_Join termErr waitErr).

Definition stopUnidentifiedAndWait (leaseID : string) : M (World X) err_ret :=
  recoveryErr ← lift (drv_ContainmentRecover drv leaseID zero_process);
  waitErr ← waitForExit;
  mret (errors_Join recoveryErr waitErr).

Record driverExecRequest := mkExec {
  ex_Executable : string;
  ex_ExecutableSHA256 : string;
  ex_Arguments : list string;
  ex_LeaseID : string;
  ex_BaseImageSHA256 : string;
  ex_LogPath : string;
  ex_Input : option (list Z);
  ex_OnStarted : option (ProcessIdentity -> M (World X) err_ret);
  ex_OnReady : option (IsolationReceipt -> M (World X) err_ret);
}.

(** The receipts read, the identity of the process, the error. *)
Definition exec_result : Type := list IsolationReceipt * ProcessIdentity * err_ret.

Definition call_opt {A} (cb : option (A -> M (World X) err_ret)) (a : A) : M (World X) err_ret :=
  match cb with Some f => f a | None => mret None end.

(** [execDriver] from the point where the input pipe has been closed. *)
Definition exec_finish (ctx : Ctx) (request : driverExecRequest)
    (process : ProcessIdentity) (receipts : list IsolationReceipt) : M (World X) exec_result :=
  second ← (match ex_Input request with
            | None => mret (Ok None)
            | Some _ =>
                r ← lift (drv_ReadReceipt drv ctx);
                mret (match r with Ok s => Ok (Some s) | Err e => Err e end)
            end);
  let receipts := match second with Ok (Some s) => receipts ++ [s] | _ => receipts end in
  let receiptErr := match second with Err e => Some e | Ok _ => None end in
  waited ← lift (drv_WaitOrDone drv ctx);
  waitErr ← (match waited with
             | inl e => mret e
             | inr ctxErr =>
                 stopErr ← stopAndWait process;
                 mret (errors_Join (Some ctxErr) stopErr)
             end);
  containmentErr ← lift (drv_Terminate drv process);
  flushErr ← lift (drv_Flush drv);
  let waitErr := match waitErr with Some e => Some (Errorf_w "isolation driver exited" e) | None => None end in
  mret (receipts, process,
        errors_Join receiptErr (errors_Join waitErr (errors_Join containmentErr flushErr))).

(** Abort with [err] after stopping the identified process. *)
Definition abort_started (receipts : list IsolationReceipt) (process : ProcessIdentity) (err : error)
    : M (World X) exec_result :=
  stopErr ← stopAndWait process;
  mret (receipts, process, errors_Join (Some err) stopErr).

(** [execDriver] from the first receipt on. *)
Definition exec_protocol (ctx : Ctx) (request : driverExecRequest) (process : ProcessIdentity)
    : M (World X) exec_result :=
  first ← lift (drv_ReadReceipt drv ctx);
  match first with
  | Err err => lift (drv_CloseInput drv);; abort_started [] process err
  | Ok first =>
      match ex_Input request with
      | None =>
          closed ← lift (drv_CloseInput drv);
          match closed with
          | Some err => abort_started [first] process err
          | None => exec_finish ctx request process [first]
          end
      | Some input =>
          if negb (validReadyReceipt first (ex_LeaseID request) (ex_BaseImageSHA256 request))
          then lift (drv_CloseInput drv);;
               abort_started [first] process (Errorf "isolation ready proof is invalid")
          else
            ready ← call_opt (ex_OnReady request) first;
            match ready with
            | Some err => lift (drv_CloseInput drv);; abort_started [first] process err
            | None =>
                emit (EvSecretSent (ex_LeaseID request) first);;
                written ← lift (drv_WriteInput drv input);
                match written with
                | Some err => lift (drv_CloseInput drv);; abort_started [first] process err
                | None =>
                    closed ← lift (drv_CloseInput drv);
                    match closed with
                    | Some err => abort_started [first] process err
                    | None => exec_finish ctx request process [first]
                    end
                end
            end
      end
  end.

(** [execDriver]. *)
Definition execDriver (ctx : Ctx) (request : driverExecRequest) : M (World X) exec_result :=
  let failed e := mret ([], zero_process, Some e) in
  opened ← lift (drv_TrustedExecutable drv (ex_Executable request) (ex_ExecutableSHA256 request));
  match opened with Some e => failed e | None =>
  logged ← lift (drv_OpenLog drv (ex_LogPath request) (bool_decide (ex_Input request = None)));
  match logged with Some e => failed e | None =>
  piped ← lift (drv_Pipe drv);
  match piped with Some e => failed e | None =>
  prepared ← lift (drv_Prepare drv (ex_LeaseID request));
  match prepared with Some e => failed (Errorf_w "prepare isolation containment" e) | None =>
  stdin ← lift (drv_StdinPipe drv);
  match stdin with
  | Some e =>
      closeErr ← lift (drv_PrepareClose drv);
      recoveryErr ← lift (drv_ContainmentRecover drv (ex_LeaseID request) zero_process);
      mret ([], zero_process, errors_Join (Some e) (errors_Join closeErr recoveryErr))
  | None =>
  emit (EvStartDriver (ex_LeaseID request) (ex_Arguments request));;
  started ← lift (drv_Start drv);
  match started with
  | Some e =>
      closeErr ← lift (drv_PrepareClose drv);
      recoveryErr ← lift (drv_ContainmentRecover drv (ex_LeaseID request) zero_process);
      mret ([], zero_process,
            errors_Join (Some (Errorf_w "start isolation driver" e)) (errors_Join closeErr recoveryErr))
  | None =>
  closed ← lift (drv_PrepareClose drv);
  match closed with
  | Some e =>
      lift (drv_CloseInput drv);;
      stopErr ← stopUnidentifiedAndWait (ex_LeaseID request);
      mret ([], zero_process, errors_Join (Some e) stopErr)
  | None =>
  attached ← lift (drv_Attach drv (ex_LeaseID request));
  match attached with
  | Err e =>
      lift (drv_CloseInput drv);;
      stopErr ← stopUnidentifiedAndWait (ex_LeaseID request);
      mret ([], zero_process, errors_Join (Some e) stopErr)
  | Ok process =>
      cbErr ← call_opt (ex_OnStarted request) process;
      match cbErr with
      | Some err => lift (drv_CloseInput drv);; abort_started [] process err
      | None => exec_protocol ctx request process
      end
  end end end end end end end end.

Definition validateRunnerRequest (request : RunnerRequest X) : M (World X) err_ret :=
  if negb (validIdentity (rreq_Identity request)) || negb (MatchString digestRE (rreq_LeaseID request)) ||
     negb (MatchString digestRE (rreq_DriverSHA256 request)) ||
     negb (MatchString digestRE (rreq_BaseImageSHA256 request)) ||
     (Z.of_nat (length (rreq_JITConfig request)) <? 16) ||
     (maxJITResponse <? Z.of_nat (length (rreq_JITConfig request)))
  then mret (Some (Errorf_s ErrInvalid "isolated runner identity is invalid")) else
  match validateAbsoluteDir (rreq_RunnerDirectory request) with Some e => mret (Some e) | None =>
  match validateAbsoluteDir (rreq_LogDirectory request) with Some e => mret (Some e) | None =>
  if (rreq_ShutdownGrace request <=? 0) || (Minute <? rreq_ShutdownGrace request)
  then mret (Some (Errorf_s ErrInvalid "shutdown grace is invalid")) else
  trusted ← lift (drv_TrustedExecutable drv (rreq_DriverExecutable request) (rreq_DriverSHA256 request));
  match trusted with Some e => mret (Some e) | None =>
  if negb (forallb (fun char => negb ((char <=? 32) || (127 <=? char))) (rreq_JITConfig request))
  then mret (Some (Errorf_s ErrInvalid "JIT config contains unsafe bytes")) else
  lift (drv_LogDirectorySafe drv (rreq_LogDirectory request))
  end end end.

Definition validateRecoveryRequest (request : RecoveryRequest) : err_ret :=
  if negb (MatchString digestRE (rec_LeaseID request)) ||
     negb (MatchString digestRE (rec_DriverSHA256 request)) ||
     negb (MatchString digestRE (rec_BaseImageSHA256 request)) ||
     (rec_ShutdownGrace request <=? 0) || (Minute <? rec_ShutdownGrace request)
  then Some (Errorf_s ErrInvalid "isolation recovery identity is invalid")
  else if negb (String.eqb (rec_IsolationID request) "") && negb (safeOpaqueID (rec_IsolationID request))
  then Some (Errorf_s ErrInvalid "isolation ID is invalid")
  else match validateAbsoluteDir (rec_RunnerDirectory request) with
       | Some e => Some e
       | None => validateAbsoluteDir (rec_LogDirectory request)
       end.

Definition runDriver (ctx : Ctx) (request : RunnerRequest X) (arguments : list string)
    : M (World X) (RunnerOutcome * err_ret) :=
  r ← execDriver ctx (mkExec (rreq_DriverExecutable request) (rreq_DriverSHA256 request)
        arguments (rreq_LeaseID request) (rreq_BaseImageSHA256 request)
        (PathJoin (rreq_LogDirectory request) "isolation-driver.log")
        (Some (driverInput (rreq_LeaseID request) (rreq_JITConfig request)))
        (Some (rreq_OnStarted request)) (Some (rreq_OnReady request)));
  let '(receipts, process, err) := r in
  let outcome := mkOutcome process (nth 0 receipts zero_receipt) (nth 1 receipts zero_receipt) in
  match err with
  | Some e => mret (outcome, Some e)
  | None =>
      if negb (bool_decide (length receipts = 2%nat)) ||
         negb (validReadyReceipt (ro_Ready outcome) (rreq_LeaseID request) (rreq_BaseImageSHA256 request)) ||
         negb (validDestroyedReceipt (ro_Destroyed outcome) (rreq_LeaseID request)
                 (ir_IsolationID (ro_Ready outcome)) (rreq_BaseImageSHA256 request))
      then mret (outcome, Some (Errorf "isolation driver lifecycle proof is incomplete"))
      else mret (outcome, None)
  end.

Definition Run (ctx : Ctx) (request : RunnerRequest X) : M (World X) (RunnerOutcome * err_ret) :=
  invalid ← validateRunnerRequest request;
  match invalid with
  | Some e => mret (mkOutcome zero_process zero_receipt zero_receipt, Some e)
  | None =>
      runDriver ctx request
        ["run"; "--protocol=1"; "--lease-id=" +:+ rreq_LeaseID request;
         "--runner-directory=" +:+ rreq_RunnerDirectory request;
         "--expected-base-sha256=" +:+ rreq_BaseImageSHA256 request; "--control-fd=3"]
  end.

Definition Recover (ctx : Ctx) (request : RecoveryRequest) : M (World X) (result IsolationReceipt) :=
  match validateRecoveryRequest request with
  | Some e => mret (Err e)
  | None =>
      recovered ← lift (drv_ContainmentRecover drv (rec_LeaseID request) (rec_Process request));
      match recovered with
      | Some e => mret (Err (Errorf_w "terminate orphaned driver containment" e))
      | None =>
          trusted ← lift (drv_TrustedExecutable drv (rec_DriverExecutable request) (rec_DriverSHA256 request));
          match trusted with
          | Some e => mret (Err e)
          | None =>
              let arguments :=
                ["recover"; "--protocol=1"; "--lease-id=" +:+ rec_LeaseID request;
                 "--runner-directory=" +:+ rec_RunnerDirectory request;
                 "--expected-base-sha256=" +:+ rec_BaseImageSHA256 request; "--control-fd=3"] ++
                (if String.eqb (rec_IsolationID request) "" then []
                 else ["--isolation-id=" +:+ rec_IsolationID request]) in
              r ← execDriver ctx (mkExec (rec_DriverExecutable request) (rec_DriverSHA256 request)
                    arguments (rec_LeaseID request) (rec_BaseImageSHA256 request)
                    (PathJoin (rec_LogDirectory request) "recovery.log") None None None);
              let '(receipts, _, err) := r in
              match err with
              | Some e => mret (Err e)
              | None =>
                  match receipts with
                  | [receipt] =>
                      if validDestroyedReceipt receipt (rec_LeaseID request)
                           (rec_IsolationID request) (rec_BaseImageSHA256 request)
                      then mret (Ok receipt)
                      else mret (Err (Errorf "recovery driver did not prove disposable isolation destruction"))
                  | _ => mret (Err (Errorf "recovery driver did not prove disposable isolation destruction"))
                  end
              end
          end
      end
  end.

Definition Preflight (config : Config) : M (World X) err_ret :=
  trusted ← lift (drv_TrustedExecutable drv (cfg_IsolationDriver config) (cfg_DriverSHA256 config));
  match trusted with
  | Some e => mret (Some (Errorf_w "isolation driver refused" e))
  | None => lift (drv_TrustedDirectory drv (cfg_RunnerDirectory config))
  end.
End runner.
