(* ===== verification/JitDispatcher.v ===== *)
(** * internal/jitdispatcher: the dispatcher (dispatcher.go)

    [Dispatch] and everything it calls, in the order of the source.  The ledger
    behind the [*Ledger] pointer is the [w_cur] cell of the world; contexts, the
    clock, GitHub, the Guard broker and the queue lock are operations on the
    outside world.  The [for] loops of the source are bounded by [fuel]. *)

From S2P Require Import Prelude GoStrings Regex JitTypes JitConfig JitState JitRunner.

Local Open Scope string_scope.
Local Open Scope list_scope.
Local Open Scope Z_scope.

Record Deps (Ctx X : Type) := mkDeps {
  (* contexts and the clock *)
  ctx_Background : Ctx;
  ctx_WithTimeout : Ctx -> Z -> op X Ctx;
  ctx_Err : Ctx -> op X err_ret;
  d_Now : op X Z;
  d_Sleep : Ctx -> Z -> op X err_ret;
  (* GitHub *)
  gh_DefaultBranch : Ctx -> string -> op X (result string);
  gh_ResolveRef : Ctx -> string -> string -> op X (result string);
  gh_WorkflowContent : Ctx -> string -> string -> string -> op X (result string);
  gh_RunnerLabelExists : Ctx -> string -> string -> op X (result bool);
  gh_DispatchWorkflow : Ctx -> string -> string -> string -> list (string * string) ->
                        op X (result DispatchReceipt);
  gh_GetRun : Ctx -> string -> Z -> op X (result WorkflowRun);
  gh_ListJobs : Ctx -> string -> Z -> op X (result (list WorkflowJob));
  gh_GetJob : Ctx -> string -> Z -> op X (result WorkflowJob);
  gh_GenerateJIT : Ctx -> string -> Identity -> Z -> op X (result JITRegistration);
  gh_FindRunnerByLabel : Ctx -> string -> string -> op X (result (option RemoteRunner));
  gh_GetRunner : Ctx -> string -> Z -> op X (result (option RemoteRunner));
  gh_DeleteRunner : Ctx -> string -> Z -> op X err_ret;
  gh_CancelRun : Ctx -> string -> Z -> op X err_ret;
  (* the Guard resource gate and its lease *)
  gate_Preflight : string -> op X err_ret;
  gate_Acquire : Ctx -> string -> string -> op X err_ret;
  gate_Release : Ctx -> string -> op X err_ret;
  gate_Abandon : string -> op X err_ret;
  gate_Orphan : op X (result (option LeaseMarker));
  gate_ReleaseOrphan : Ctx -> LeaseMarker -> op X err_ret;
  (* the rest *)
  d_Random : op X (result (list Z));            (* io.ReadFull of 32 bytes *)
  d_AcquireQueue : Ctx -> string -> Z -> op X err_ret;
  d_CloseQueue : op X err_ret;
  d_io : StoreIO X;
  d_drv : DriverOps Ctx X;
}.
Arguments ctx_Background {Ctx X}.
Arguments ctx_WithTimeout {Ctx X}.
Arguments ctx_Err {Ctx X}.
Arguments d_Now {Ctx X}.
Arguments d_Sleep {Ctx X}.
Arguments gh_DefaultBranch {Ctx X}.
Arguments gh_ResolveRef {Ctx X}.
Arguments gh_WorkflowContent {Ctx X}.
Arguments gh_RunnerLabelExists {Ctx X}.
Arguments gh_DispatchWorkflow {Ctx X}.
Arguments gh_GetRun {Ctx X}.
Arguments gh_ListJobs {Ctx X}.
Arguments gh_GetJob {Ctx X}.
Arguments gh_GenerateJIT {Ctx X}.
Arguments gh_FindRunnerByLabel {Ctx X}.
Arguments gh_GetRunner {Ctx X}.
Arguments gh_DeleteRunner {Ctx X}.
Arguments gh_CancelRun {Ctx X}.
Arguments gate_Preflight {Ctx X}.
Arguments gate_Acquire {Ctx X}.
Arguments gate_Release {Ctx X}.
Arguments gate_Abandon {Ctx X}.
Arguments gate_Orphan {Ctx X}.
Arguments gate_ReleaseOrphan {Ctx X}.
Arguments d_Random {Ctx X}.
Arguments d_AcquireQueue {Ctx X}.
Arguments d_CloseQueue {Ctx X}.
Arguments d_io {Ctx X}.
Arguments d_drv {Ctx X}.

(** ** Checks on remote objects *)

Definition IsHTTPStatus (err : error) (status : Z) : bool := bool_decide (err_http err = Some status).

Definition authoritativeJITRejection (err : error) : bool :=
  negb (errors_Is err ErrAmbiguous) &&
  match err_http err with Some s => (400 <=? s) && (s <? 500) | None => false end.

Definition validateRunIdentity (run : WorkflowRun) (policy : RepositoryPolicy)
    (trustedSHA nonce : string) : bool :=
  String.eqb (run_Event run) "workflow_dispatch" && String.eqb (run_HeadSHA run) trustedSHA &&
  String.eqb (run_DisplayTitle run) ("CIVM JIT " +:+ nonce) &&
  String.eqb (run_Path run) (pol_Workflow policy +:+ "@" +:+ TrimPrefix (pol_TrustedRef policy) "refs/heads/").

Definition validateBoundRun (run : WorkflowRun) (policy : RepositoryPolicy)
    (trustedSHA nonce : string) : err_ret :=
  if negb (validateRunIdentity run policy trustedSHA nonce)
  then Some (Errorf "run identity does not match trusted dispatch")
  else if negb (String.eqb (run_Status run) "queued" || String.eqb (run_Status run) "in_progress") ||
          negb (String.eqb (run_Conclusion run) "")
  then Some (Errorf "run initial state is invalid")
  else None.

Definition nonterminalStatus (status : string) : bool :=
  bool_decide (status ∈ ["queued"; "in_progress"; "pending"; "waiting"; "requested"]).

Definition knownExecutionStatus (status : string) : bool :=
  String.eqb status "completed" || nonterminalStatus status.

Definition queued_job_ok (job : WorkflowJob) (policy : RepositoryPolicy) (runID : Z) (label : string) : bool :=
  (0 <? job_ID job) && ((job_RunID job =? 0) || (job_RunID job =? runID)) &&
  String.eqb (job_Name job) (pol_JobName policy) && String.eqb (job_Status job) "queued" &&
  String.eqb (job_Conclusion job) "" && bool_decide (job_Labels job = [label]).

Definition validateExecutedJob (job : WorkflowJob) (ledger : Ledger) (policy : RepositoryPolicy)
    (identity : Identity) : err_ret :=
  if negb ((job_ID job =? lg_JobID ledger) && (job_RunID job =? lg_RunID ledger) &&
           String.eqb (job_Name job) (pol_JobName policy) &&
           bool_decide (job_Labels job = [id_Label identity]))
  then Some (Errorf_s ErrAmbiguous "executed job identity changed")
  else if (String.eqb (job_Status job) "in_progress" || String.eqb (job_Status job) "completed") &&
          negb ((job_RunnerID job =? lg_RunnerID ledger) &&
                String.eqb (job_RunnerName job) (id_RunnerName identity) &&
                (job_RunnerGroupID job =? pol_RunnerGroupID policy))
  then Some (Errorf_s ErrAmbiguous "expected job did not execute on the generated JIT runner")
  else None.

Definition custom_label (expected : string) (label : RunnerLabel) : bool :=
  String.eqb (lab_Name label) expected && String.eqb (lab_Type label) "custom".

Definition runnerHasLabel (runner : RemoteRunner) (expected : string) : bool :=
  bool_decide (length (List.filter (custom_label expected) (rr_Labels runner)) = 1%nat).

Definition validateJITRegistration (registration : JITRegistration) (identity : Identity) : err_ret :=
  let secret := default [] (reg_Secret registration) in
  let runner := reg_Runner registration in
  if bool_decide (reg_Secret registration = None) || (Z.of_nat (length secret) <? 16) ||
     (maxJITResponse <? Z.of_nat (length secret))
  then Some (Errorf_s ErrAmbiguous "JIT secret is missing or invalid")
  else if (rr_ID runner <=? 0) || negb (String.eqb (rr_Name runner) (id_RunnerName identity)) ||
          negb (String.eqb (rr_Status runner) "offline") || rr_Busy runner
  then Some (Errorf_s ErrAmbiguous "JIT runner identity is invalid")
  else if negb (forallb (fun label => custom_label (id_Label identity) label ||
                           (String.eqb (lab_Type label) "read-only" && knownDefaultRunnerLabel (lab_Name label)))
                        (rr_Labels runner))
  then Some (Errorf_s ErrAmbiguous "JIT runner labels are invalid")
  else if negb (runnerHasLabel runner (id_Label identity))
  then Some (Errorf_s ErrAmbiguous "exact JIT runner label is missing or duplicated")
  else None.

(** The runner the dispatcher is about to delete is the one of this ledger. *)
Definition runner_matches (runner : RemoteRunner) (ledger : Ledger) : bool :=
  String.eqb (rr_Name runner) (lg_RunnerName ledger) && runnerHasLabel runner (lg_RunnerLabel ledger).

Section dispatcher.
Context {Ctx X : Type} `{SortSlice}.
Context (config : Config) (deps : Deps Ctx X) (fuel : nat).
(** [sha256.Sum256], and the input document of the driver. *)
Context (sha256 : string -> list Z) (driverInput : string -> list Z -> list Z).

Abbreviation m := (M (World X)).

Definition RequestID (request : Request) : string :=
  EncodeToString (sha256 (Join [rq_Repository request; rq_CandidateRef request;
                                rq_CandidateSHA request; rq_Idempotency request] (String "000" ""))).

Definition save_cur : m err_ret := l ← cur; Save (d_io deps) l.

Definition touch : m unit := now ← lift (d_Now deps); assign (set_UpdatedAt now).

Definition transition (status : Status) (failureCode : string) : m err_ret :=
  assign (fun l => set_FailureCode failureCode (set_Status status l));;
  touch;;
  e ← save_cur;
  match e with
  | Some e => mret (Some (Errorf_w "persist" e))
  | None => lift (d_Now deps);; mret None   (* dispatcher.log reads the clock *)
  end.

Definition current_result : m Result :=
  l ← cur; mret (mkResult (lg_RequestID l) (lg_RunID l) (lg_Status l) false).

(** [return dispatcher.result(ledger), err] *)
Definition return_with (err : err_ret) : m (Result * err_ret) :=
  r ← current_result; mret (r, err).

(** ** Polling loops *)

Definition poll_again (ctx : Ctx) : m err_ret := lift (d_Sleep deps ctx (cfg_JobPollInterval config)).

Fixpoint wait_run_loop (n : nat) (bindCtx : Ctx) (repository : string) (policy : RepositoryPolicy)
    (identity : Identity) : m (result WorkflowRun) :=
  match n with
  | O => out_of_fuel
  | S n =>
      l ← cur;
      r ← lift (gh_GetRun deps bindCtx repository (lg_RunID l));
      match r with
      | Ok run =>
          match validateBoundRun run policy (lg_TrustedSHA l) (id_Nonce identity) with
          | Some e => mret (Err e)
          | None => mret (Ok run)
          end
      | Err err =>
          if negb (IsHTTPStatus err 404) then mret (Err err)
          else
            slept ← poll_again bindCtx;
            match slept with
            | Some _ => mret (Err (Errorf_s ErrAmbiguous "run ID was not observable before timeout"))
            | None => wait_run_loop n bindCtx repository policy identity
            end
      end
  end.

Definition waitForRun (ctx : Ctx) (repository : string) (policy : RepositoryPolicy)
    (identity : Identity) : m (result WorkflowRun) :=
  bindCtx ← lift (ctx_WithTimeout deps ctx (cfg_JobBindTimeout config));
  wait_run_loop fuel bindCtx repository policy identity.

Fixpoint wait_job_loop (n : nat) (bindCtx : Ctx) (repository : string) (policy : RepositoryPolicy)
    (runID : Z) (label : string) : m (result WorkflowJob) :=
  match n with
  | O => out_of_fuel
  | S n =>
      r ← lift (gh_ListJobs deps bindCtx repository runID);
      match r with
      | Err err => mret (Err err)
      | Ok [job] =>
          if queued_job_ok job policy runID label then mret (Ok job)
          else mret (Err (Errorf "queued job identity is invalid"))
      | Ok (_ :: _ :: _) => mret (Err (Errorf_s ErrAmbiguous "dispatch created duplicate jobs"))
      | Ok [] =>
          slept ← poll_again bindCtx;
          match slept with
          | Some _ => mret (Err (Errorf_s ErrAmbiguous "job was not observable before timeout"))
          | None => wait_job_loop n bindCtx repository policy runID label
          end
      end
  end.

Definition waitForJob (ctx : Ctx) (repository : string) (policy : RepositoryPolicy)
    (runID : Z) (label : string) : m (result WorkflowJob) :=
  bindCtx ← lift (ctx_WithTimeout deps ctx (cfg_JobBindTimeout config));
  wait_job_loop fuel bindCtx repository policy runID label.

Fixpoint completion_loop (n : nat) (ctx : Ctx) (repository : string) (policy : RepositoryPolicy)
    (identity : Identity) : m err_ret :=
  match n with
  | O => out_of_fuel
  | S n =>
      l ← cur;
      r ← lift (gh_GetRun deps ctx repository (lg_RunID l));
      match r with Err err => mret (Some err) | Ok run =>
      if negb (validateRunIdentity run policy (lg_TrustedSHA l) (id_Nonce identity))
      then mret (Some (Errorf_s ErrAmbiguous "bound run identity changed")) else
      j ← lift (gh_GetJob deps ctx repository (lg_JobID l));
      match j with Err err => mret (Some err) | Ok job =>
      match validateExecutedJob job l policy identity with Some e => mret (Some e) | None =>
      if String.eqb (run_Status run) "completed" && negb (String.eqb (run_Conclusion run) "success")
      then mret (Some (Errorf "workflow completed without success")) else
      if String.eqb (job_Status job) "completed" && negb (String.eqb (job_Conclusion job) "success")
      then mret (Some (Errorf "job completed without success")) else
      if String.eqb (run_Status run) "completed" && String.eqb (job_Status job) "completed"
      then mret None else
      if negb (knownExecutionStatus (run_Status run)) || negb (knownExecutionStatus (job_Status job))
      then mret (Some (Errorf "workflow or job returned an unknown state")) else
      slept ← poll_again ctx;
      match slept with
      | Some e => mret (Some e)
      | None => completion_loop n ctx repository policy identity
      end
      end end end
  end.

Definition waitForCompletion (ctx : Ctx) (repository : string) (policy : RepositoryPolicy)
    (identity : Identity) : m err_ret :=
  completion_loop fuel ctx repository policy identity.

(** ** Cleanup *)

Fixpoint terminal_loop (n : nat) (ctx : Ctx) (policy : RepositoryPolicy) (identity : Identity) : m err_ret :=
  match n with
  | O => out_of_fuel
  | S n =>
      l ← cur;
      r ← lift (gh_GetRun deps ctx (lg_Repository l) (lg_RunID l));
      match r with Err err => mret (Some err) | Ok run =>
      if negb (validateRunIdentity run policy (lg_TrustedSHA l) (id_Nonce identity))
      then mret (Some (Errorf_s ErrAmbiguous "cleanup run identity changed")) else
      if String.eqb (run_Status run) "completed" then
        if String.eqb (run_Conclusion run) "" then mret (Some (Errorf "terminal run has no conclusion"))
        else mret None
      else if negb (nonterminalStatus (run_Status run))
      then mret (Some (Errorf "run cancellation returned unknown state"))
      else
        slept ← poll_again ctx;
        match slept with
        | Some e => mret (Some e)
        | None => terminal_loop n ctx policy identity
        end
      end
  end.

Definition cancelAndWaitTerminal (ctx : Ctx) (policy : RepositoryPolicy) (identity : Identity) : m err_ret :=
  l ← cur;
  r ← lift (gh_GetRun deps ctx (lg_Repository l) (lg_RunID l));
  match r with Err err => mret (Some err) | Ok run =>
  if negb (validateRunIdentity run policy (lg_TrustedSHA l) (id_Nonce identity))
  then mret (Some (Errorf_s ErrAmbiguous "cleanup run identity changed")) else
  if negb (knownExecutionStatus (run_Status run))
  then mret (Some (Errorf "cleanup run returned unknown state")) else
  cancelErr ← (if String.eqb (run_Status run) "completed" then mret None
               else emit (EvCancelRun l run);;
                    lift (gh_CancelRun deps ctx (lg_Repository l) (lg_RunID l)));
  match cancelErr with
  | Some e =>
      if negb (IsHTTPStatus e 409) && negb (errors_Is e ErrAmbiguous) then mret (Some e)
      else terminal_loop fuel ctx policy identity
  | None => terminal_loop fuel ctx policy identity
  end
  end.

(** The error of an observation that failed: a timeout of the observation
    window itself means that the JIT creation stays unproven. *)
Definition observe_error (ctx observeCtx : Ctx) (err : error) : m err_ret :=
  observeErr ← lift (ctx_Err deps observeCtx);
  ctxErr ← lift (ctx_Err deps ctx);
  if errors_Is_opt observeErr DeadlineExceeded && bool_decide (ctxErr = None)
  then mret (Some (Errorf_s ErrAmbiguous "JIT creation remains unproven after observation timeout"))
  else mret (Some err).

Fixpoint observe_loop (n : nat) (ctx observeCtx : Ctx) : m err_ret :=
  match n with
  | O => out_of_fuel
  | S n =>
      l ← cur;
      r ← lift (gh_FindRunnerByLabel deps observeCtx (lg_Repository l) (lg_RunnerLabel l));
      match r with
      | Err err => observe_error ctx observeCtx err
      | Ok (Some runner) =>
          if (rr_ID runner <=? 0) || negb (runner_matches runner l)
          then mret (Some (Errorf_s ErrAmbiguous "exact runner label belongs to another identity"))
          else assign (set_RunnerID (rr_ID runner));; save_cur
      | Ok None =>
          slept ← poll_again observeCtx;
          match slept with
          | Some err => observe_error ctx observeCtx err
          | None => observe_loop n ctx observeCtx
          end
      end
  end.

Fixpoint gone_loop (n : nat) (ctx : Ctx) (deleted : bool) : m err_ret :=
  match n with
  | O => out_of_fuel
  | S n =>
      l ← cur;
      r ← lift (gh_GetRunner deps ctx (lg_Repository l) (lg_RunnerID l));
      match r with
      | Err err => mret (Some err)
      | Ok None => mret None
      | Ok (Some runner) =>
          if negb (rr_ID runner =? lg_RunnerID l) || negb (runner_matches runner l)
          then mret (Some (Errorf_s ErrAmbiguous "runner identity changed before removal"))
          else
            delErr ← (if deleted then mret None
                      else emit (EvDeleteRunner l runner);;
                           lift (gh_DeleteRunner deps ctx (lg_Repository l) (lg_RunnerID l)));
            match delErr with
            | Some e => mret (Some e)
            | None =>
                slept ← poll_again ctx;
                match slept with
                | Some e => mret (Some e)
                | None => gone_loop n ctx true
                end
            end
      end
  end.

Definition ensureRunnerGone (ctx : Ctx) : m err_ret :=
  l ← cur;
  observed ← (if lg_RunnerID l =? 0 then
                observeCtx ← lift (ctx_WithTimeout deps ctx (cfg_JobBindTimeout config));
                observe_loop fuel ctx observeCtx
              else mret None);
  match observed with
  | Some e => mret (Some e)
  | None => gone_loop fuel ctx false
  end.

Definition clear_process (l : Ledger) : Ledger :=
  set_CgroupPath "" (set_ProcessGroup 0 (set_ProcessStart 0 (set_ProcessPID 0 l))).

Definition ledger_process (l : Ledger) : ProcessIdentity :=
  mkProcess (lg_ProcessPID l) (lg_ProcessStart l) (lg_ProcessGroup l) (lg_CgroupPath l).

(** The isolation part of [cleanupLedger]. *)
Definition cleanup_isolation (ctx : Ctx) (logDirectory : string) : m err_ret :=
  l ← cur;
  if lg_IsolationGone l then mret None else
  r ← Recover (d_drv deps) ctx
        (mkRecoveryRequest (cfg_IsolationDriver config) (cfg_DriverSHA256 config)
           (cfg_BaseImageSHA256 config) (cfg_RunnerDirectory config) (lg_LeaseID l)
           (lg_IsolationID l) (ledger_process l) logDirectory (cfg_ShutdownGrace config));
  match r with
  | Err err => mret (Some err)
  | Ok receipt =>
      if negb (validDestroyedReceipt receipt (lg_LeaseID l) (lg_IsolationID l) (cfg_BaseImageSHA256 config))
      then mret (Some (Errorf_s ErrAmbiguous "recovery proof does not match durable state"))
      else
        assign (fun l => clear_process (set_IsolationGone true
          (if String.eqb (lg_IsolationID l) ""
           then set_IsolationBase (ir_BaseSHA256 receipt) (set_IsolationID (ir_IsolationID receipt) l)
           else l)));;
        save_cur
  end.

(** The run part of [cleanupLedger]. *)
Definition cleanup_run (ctx : Ctx) : m err_ret :=
  l ← cur;
  if lg_RunTerminal l then mret None else
  if lg_RunID l =? 0 then mret (Some (Errorf_s ErrAmbiguous "dispatched run identity is unknown")) else
  match Policy config (lg_Repository l) with
  | None => mret (Some (Errorf "cleanup repository policy is unavailable"))
  | Some policy =>
      if negb (validIdentity (ledger_identity l))
      then mret (Some (Errorf "cleanup runner identity is invalid"))
      else
        e ← cancelAndWaitTerminal ctx policy (ledger_identity l);
        match e with
        | Some e => mret (Some e)
        | None => assign (set_RunTerminal true);; save_cur
        end
  end.

(** The runner part of [cleanupLedger]. *)
Definition cleanup_runner (ctx : Ctx) : m err_ret :=
  l ← cur;
  if lg_RunnerGone l then mret None else
  e ← ensureRunnerGone ctx;
  match e with
  | Some e => mret (Some e)
  | None => assign (set_RunnerGone true);; mret None
  end.

Definition proofs_complete (l : Ledger) : bool :=
  lg_RunTerminal l && lg_RunnerGone l && lg_IsolationGone l.

Definition mark_complete : m bool :=
  assign (fun l => set_CleanupComplete (proofs_complete l) l);;
  l ← cur; mret (lg_CleanupComplete l).

Definition cleanupLedger (ctx : Ctx) : m err_ret :=
  l ← cur;
  log ← RequestLogDir (d_io deps) (lg_RequestID l);
  match log with
  | Err err => mret (Some err)
  | Ok logDirectory =>
      e ← cleanup_isolation ctx logDirectory;
      match e with Some e => mret (Some e) | None =>
      e ← cleanup_run ctx;
      match e with Some e => mret (Some e) | None =>
      e ← cleanup_runner ctx;
      match e with Some e => mret (Some e) | None =>
      complete ← mark_complete;
      if negb complete then mret (Some (Errorf "cleanup postconditions are incomplete"))
      else touch;; save_cur
      end end end
  end.

Definition failure_status (cause : error) : Status :=
  if errors_Is cause ErrAmbiguous then StatusAmbiguous else StatusFailed.

Definition finishWithoutLease (code : string) (cause : error) : m (Result * err_ret) :=
  transitionErr ← transition (failure_status cause) code;
  return_with (errors_Join (Some cause) transitionErr).

Definition finishError (code : string) (cause : error) : m (Result * err_ret) :=
  transitionErr ← transition (failure_status cause) code;
  let cause := errors_Join (Some cause) transitionErr in
  recoveryCtx ← lift (ctx_WithTimeout deps (ctx_Background deps) (cfg_RecoveryTimeout config));
  cleanupErr ← cleanupLedger recoveryCtx;
  match cleanupErr with
  | None => return_with cause
  | Some cleanupErr =>
      assign (set_CleanupComplete false);;
      let cause := errors_Join cause
                     (Some (Errorf_sw ErrAmbiguous "cleanup remains unresolved" cleanupErr)) in
      l ← cur;
      if negb (bool_decide (lg_Status l = StatusAmbiguous)) then
        e ← transition StatusAmbiguous "cleanup_unresolved";
        return_with (errors_Join cause e)
      else return_with cause
  end.

(** ** Running the isolated job *)

Definition OnStarted (process : ProcessIdentity) : m err_ret :=
  assign (fun l => set_CgroupPath (pi_CgroupPath process) (set_ProcessGroup (pi_ProcessGroup process)
            (set_ProcessStart (pi_StartTicks process) (set_ProcessPID (pi_PID process) l))));;
  transition StatusRunnerStarted "".

Definition OnReady (receipt : IsolationReceipt) : m err_ret :=
  assign (fun l => set_IsolationBase (ir_BaseSHA256 receipt) (set_IsolationID (ir_IsolationID receipt) l));;
  transition StatusIsolationReady "".

(** The lifecycle proof of the outcome against the durable state. *)
Definition lifecycle_proved (outcome : RunnerOutcome) (l : Ledger) : bool :=
  bool_decide (ro_Process outcome = ledger_process l) &&
  validReadyReceipt (ro_Ready outcome) (lg_LeaseID l) (cfg_BaseImageSHA256 config) &&
  String.eqb (lg_IsolationID l) (ir_IsolationID (ro_Ready outcome)) &&
  String.eqb (lg_IsolationBase l) (ir_BaseSHA256 (ro_Ready outcome)) &&
  validDestroyedReceipt (ro_Destroyed outcome) (lg_LeaseID l) (lg_IsolationID l) (cfg_BaseImageSHA256 config).

(** [run] from the revalidation of the candidate ref on. *)
Definition run_settle (ctx : Ctx) (request : Request) : m (Result * err_ret) :=
  candidate ← lift (gh_ResolveRef deps ctx (rq_Repository request) (rq_CandidateRef request));
  match candidate with
  | Err _ => finishError "candidate_revalidate"
               (Errorf_s ErrAmbiguous "candidate ref could not be revalidated")
  | Ok candidateSHA =>
      if negb (String.eqb candidateSHA (rq_CandidateSHA request)) then
        mark_complete;;
        transitionErr ← transition StatusStale "candidate_ref_moved";
        return_with (errors_Join (Some (Errorf_s ErrStale "")) transitionErr)
      else
        complete ← mark_complete;
        if negb complete
        then finishError "cleanup_proof" (Errorf_s ErrAmbiguous "cleanup proof is incomplete")
        else
          e ← transition StatusCompleted "";
          match e with
          | Some e =>
              assign (set_CleanupComplete false);;
              return_with (Some (Errorf_sw ErrAmbiguous "persist completed run" e))
          | None => lift (d_Now deps);; return_with None
          end
  end.

(** [run] from the moment the driver has returned successfully. *)
Definition run_observe (ctx runCtx : Ctx) (request : Request) (policy : RepositoryPolicy)
    (identity : Identity) : m (Result * err_ret) :=
  e ← waitForCompletion runCtx (rq_Repository request) policy identity;
  match e with
  | Some e => finishError "run_completion" e
  | None =>
      assign (set_RunTerminal true);;
      e ← ensureRunnerGone runCtx;
      match e with
      | Some e => finishError "runner_disappearance" e
      | None => assign (set_RunnerGone true);; run_settle ctx request
      end
  end.

Definition run (ctx : Ctx) (request : Request) (policy : RepositoryPolicy)
    (identity : Identity) (secret : list Z) : m (Result * err_ret) :=
  l ← cur;
  log ← RequestLogDir (d_io deps) (lg_RequestID l);
  match log with Err err => finishError "log_directory" err | Ok logDirectory =>
  assign (set_IsolationGone false);;
  saved ← save_cur;
  match saved with
  | Some _ => finishError "state_before_isolation" (Errorf_s ErrAmbiguous "persist isolation intent")
  | None =>
      runCtx ← lift (ctx_WithTimeout deps ctx (cfg_RunTimeout config));
      r ← Run (d_drv deps) driverInput runCtx
            (mkRunnerRequest (cfg_IsolationDriver config) (cfg_DriverSHA256 config)
               (cfg_BaseImageSHA256 config) (cfg_RunnerDirectory config) identity (lg_LeaseID l)
               secret logDirectory (cfg_ShutdownGrace config) OnStarted OnReady);
      let '(outcome, err) := r in
      l ← cur;
      let err := match err with
                 | Some e => Some e
                 | None => if lifecycle_proved outcome l then None
                           else Some (Errorf_s ErrAmbiguous "runner lifecycle proof does not match durable state")
                 end in
      err ← (match err with
             | Some e => mret (Some e)
             | None => assign (fun l => clear_process (set_IsolationGone true l));; save_cur
             end);
      match err with
      | Some e => finishError "runner" e
      | None => run_observe ctx runCtx request policy identity
      end
  end end.

(** [bindAndRun] from the persisted JIT intent on. *)
Definition register_and_run (ctx : Ctx) (request : Request) (policy : RepositoryPolicy)
    (identity : Identity) : m (Result * err_ret) :=
  w ← get;
  emit (EvGenerateJIT (lg_RequestID (w_cur w)) (w_disk w !! lg_RequestID (w_cur w)));;
  r ← lift (gh_GenerateJIT deps ctx (rq_Repository request) identity (pol_RunnerGroupID policy));
  match r with
  | Err err =>
      err ← (if authoritativeJITRejection err then
               assign (set_RunnerGone true);;
               saved ← save_cur;
               mret (match saved with
                     | Some saveErr =>
                         errors_Join2 err (Errorf_sw ErrAmbiguous "persist authoritative JIT rejection" saveErr)
                     | None => err
                     end)
             else mret err);
      finishError "jit" err
  | Ok registration =>
      match validateJITRegistration registration identity with
      | Some err => finishError "jit_identity" err
      | None =>
          assign (set_RunnerID (rr_ID (reg_Runner registration)));;
          e ← transition StatusJITCreated "";
          match e with
          | Some _ => finishError "state_jit" (Errorf_s ErrAmbiguous "persist JIT runner identity")
          | None => run ctx request policy identity (default [] (reg_Secret registration))
          end
      end
  end.

Definition bindAndRun (ctx : Ctx) (request : Request) (policy : RepositoryPolicy)
    (identity : Identity) : m (Result * err_ret) :=
  bound ← waitForRun ctx (rq_Repository request) policy identity;
  match bound with Err err => finishError "run_bind" err | Ok run =>
  found ← waitForJob ctx (rq_Repository request) policy (run_ID run) (id_Label identity);
  match found with Err err => finishError "job_bind" err | Ok job =>
  assign (set_JobID (job_ID job));;
  e ← transition StatusRunBound "";
  match e with
  | Some _ => finishError "state_run_bound" (Errorf_s ErrAmbiguous "persist bound job")
  | None =>
  collision ← lift (gh_RunnerLabelExists deps ctx (rq_Repository request) (id_Label identity));
  match collision with
  | Err err => finishError "label_recheck" err
  | Ok true => finishError "label_race" (Errorf_s ErrAmbiguous "runner label appeared after dispatch")
  | Ok false =>
      assign (set_RunnerGone false);;
      saved ← save_cur;
      match saved with
      | Some _ => finishError "state_before_jit" (Errorf_s ErrAmbiguous "persist JIT intent")
      | None => register_and_run ctx request policy identity
      end
  end end end end.

Definition dispatchPrepared (ctx : Ctx) (request : Request) (policy : RepositoryPolicy)
    (identity : Identity) : m (Result * err_ret) :=
  assign (set_RunTerminal false);;
  e ← transition StatusDispatching "";
  match e with
  | Some e => return_with (Some e)
  | None =>
      w ← get;
      emit (EvDispatch (lg_RequestID (w_cur w)) (id_Nonce identity) (w_disk w !! lg_RequestID (w_cur w)));;
      r ← lift (gh_DispatchWorkflow deps ctx (rq_Repository request) (pol_Workflow policy)
             (pol_TrustedRef policy)
             [("candidate_sha", rq_CandidateSHA request); ("candidate_ref", rq_CandidateRef request);
              ("dispatch_nonce", id_Nonce identity); ("runner_label", id_Label identity)]);
      match r with
      | Err err =>
          (if errors_Is err ErrAmbiguous then mret tt else assign (set_RunTerminal true));;
          finishError "dispatch" err
      | Ok receipt =>
          if rcpt_RunID receipt <=? 0
          then finishError "dispatch_identity" (Errorf_s ErrAmbiguous "dispatch returned no run ID")
          else
            assign (set_RunID (rcpt_RunID receipt));;
            e ← transition StatusWorkflowDispatched "";
            match e with
            | Some _ => finishError "state_dispatch" (Errorf_s ErrAmbiguous "persist dispatch identity")
            | None => bindAndRun ctx request policy identity
            end
      end
  end.

(** ** Admission *)

Definition verifyAuthority (ctx : Ctx) (request : Request) (policy : RepositoryPolicy) : m (result string) :=
  branch ← lift (gh_DefaultBranch deps ctx (rq_Repository request));
  match branch with Err err => mret (Err (Errorf_w "get default branch" err)) | Ok defaultBranch =>
  if negb (String.eqb (pol_TrustedRef policy) ("refs/heads/" +:+ defaultBranch))
  then mret (Err (Errorf "trusted ref is not the default branch")) else
  trusted ← lift (gh_ResolveRef deps ctx (rq_Repository request) (pol_TrustedRef policy));
  match trusted with Err err => mret (Err (Errorf_w "resolve trusted ref" err)) | Ok trustedSHA =>
  content ← lift (gh_WorkflowContent deps ctx (rq_Repository request) (pol_Workflow policy) trustedSHA);
  match content with Err err => mret (Err (Errorf_w "read trusted workflow" err)) | Ok workflow =>
  if negb (String.eqb (EncodeToString (sha256 workflow)) (pol_WorkflowSHA256 policy))
  then mret (Err (Errorf "trusted workflow digest drift")) else
  candidate ← lift (gh_ResolveRef deps ctx (rq_Repository request) (rq_CandidateRef request));
  match candidate with Err err => mret (Err (Errorf_w "resolve candidate ref" err)) | Ok candidateSHA =>
  if negb (String.eqb candidateSHA (rq_CandidateSHA request))
  then mret (Err (Errorf "candidate SHA does not match its allowlisted ref"))
  else mret (Ok trustedSHA)
  end end end end.

Definition newLedger (now : Z) (requestID : string) (request : Request) (policy : RepositoryPolicy)
    (trustedSHA : string) (identity : Identity) : Ledger :=
  mkLedger ledgerVersion requestID (rq_Repository request) (rq_CandidateRef request)
    (rq_CandidateSHA request) trustedSHA (pol_Workflow policy) (pol_WorkflowSHA256 policy)
    (id_Nonce identity) (id_Label identity) (id_RunnerName identity) (id_WorkFolder identity)
    0 0 0 (id_Nonce identity) 0 0 0 "" "" "" true true true false StatusPrepared now now "".

Definition zero_result : Result := mkResult "" 0 (StatusOther "") false.

(** [Some _] is [found || err != nil]. *)
Definition replay (requestID : string) (request : Request) : m (option (Result * err_ret)) :=
  loaded ← Load (d_io deps) requestID;
  match loaded with
  | Err e => mret (Some (zero_result, Some e))
  | Ok None => mret None
  | Ok (Some ledger) =>
      if negb (String.eqb (lg_Repository ledger) (rq_Repository request) &&
               String.eqb (lg_CandidateRef ledger) (rq_CandidateRef request) &&
               String.eqb (lg_CandidateSHA ledger) (rq_CandidateSHA request))
      then mret (Some (zero_result, Some (Errorf_s ErrReplay "ledger request mismatch")))
      else
        let r := mkResult requestID (lg_RunID ledger) (lg_Status ledger) true in
        if bool_decide (lg_Status ledger = StatusCompleted) && lg_CleanupComplete ledger
        then mret (Some (r, None))
        else mret (Some (r, Some (Errorf_s ErrReplay "existing request")))
  end.

(** ** Startup reconciliation *)

Definition releaseOrphan (ctx : Ctx) (orphan : LeaseMarker) : m err_ret :=
  releaseCtx ← lift (ctx_WithTimeout deps ctx (cfg_ShutdownGrace config));
  w ← get;
  emit (EvReleaseOrphan (lm_LeaseID orphan)
          (List.filter (fun l => String.eqb (lg_LeaseID l) (lm_LeaseID orphan))
                       (snd <$> map_to_list (w_disk w))));;
  lift (gate_ReleaseOrphan deps releaseCtx orphan).

Definition owns (orphan : option LeaseMarker) (l : Ledger) : bool :=
  match orphan with Some o => String.eqb (lg_LeaseID l) (lm_LeaseID o) | None => false end.

(** The loop over the ledgers: whether the orphan has one, and the incomplete one. *)
Fixpoint scan_ledgers (orphan : option LeaseMarker) (matched : bool) (incomplete : option Ledger)
    (ledgers : list Ledger) : result (bool * option Ledger) :=
  match ledgers with
  | [] => Ok (matched, incomplete)
  | l :: ledgers =>
      let matched := matched || owns orphan l in
      if lg_CleanupComplete l then scan_ledgers orphan matched incomplete ledgers
      else match incomplete with
           | Some _ => Err (Errorf "multiple incomplete ledgers violate global admission")
           | None => scan_ledgers orphan matched (Some l) ledgers
           end
  end.

(** The recovery of the incomplete ledger, up to the release of the lease. *)
Definition recover_ledger (ctx : Ctx) : m err_ret :=
  e ← transition StatusReconciling "startup_reconciliation";
  match e with Some e => mret (Some e) | None =>
  recoveryCtx ← lift (ctx_WithTimeout deps ctx (cfg_RecoveryTimeout config));
  e ← cleanupLedger recoveryCtx;
  match e with Some e => mret (Some e) | None =>
  assign (fun l => set_FailureCode "reconciled_after_restart" (set_Status StatusAmbiguous l));;
  touch;;
  save_cur
  end end.

Definition release_lease (ctx : Ctx) : m err_ret :=
  releaseCtx ← lift (ctx_WithTimeout deps ctx (cfg_ShutdownGrace config));
  w ← get;
  emit (EvRelease (w_cur w) (w_disk w !! lg_RequestID (w_cur w)));;
  lift (gate_Release deps releaseCtx (lg_LeaseID (w_cur w))).

Definition abandon_lease : m unit :=
  l ← cur; emit (EvAbandon (lg_LeaseID l));; lift (gate_Abandon deps (lg_LeaseID l));; mret tt.

Definition acquire_lease (ctx : Ctx) : m err_ret :=
  l ← cur;
  emit (EvAcquire (lg_LeaseID l));;
  lift (gate_Acquire deps ctx (cfg_GuardExecutable config) (lg_LeaseID l)).

Definition reconcile_incomplete (ctx : Ctx) (orphan : option LeaseMarker) (ledger : Ledger) : m err_ret :=
  assign (fun _ => ledger);;
  match orphan with
  | Some o =>
      if negb (String.eqb (lg_LeaseID ledger) (lm_LeaseID o))
      then mret (Some (Errorf "incomplete ledger does not own the active Guard lease"))
      else
        e ← recover_ledger ctx;
        match e with Some e => mret (Some e) | None => releaseOrphan ctx o end
  | None =>
      e ← acquire_lease ctx;
      match e with
      | Some e => mret (Some (Errorf_w "reacquire Guard for recovery" e))
      | None =>
          e ← recover_ledger ctx;
          match e with
          | Some e => abandon_lease;; mret (Some e)
          | None => release_lease ctx
          end
      end
  end.

Definition reconcileStartup (ctx : Ctx) : m err_ret :=
  listed ← List (d_io deps);
  match listed with Err err => mret (Some err) | Ok ledgers =>
  found ← lift (gate_Orphan deps);
  match found with Err err => mret (Some err) | Ok orphan =>
  match scan_ledgers orphan false None ledgers with
  | Err err => mret (Some err)
  | Ok (matched, incomplete) =>
      if bool_decide (orphan <> None) && negb matched
      then mret (Some (Errorf "guard lease has no matching durable ledger"))
      else match incomplete with
           | Some ledger => reconcile_incomplete ctx orphan ledger
           | None => match orphan with Some o => releaseOrphan ctx o | None => mret None end
           end
  end end end.

(** ** Dispatch *)

(** [Dispatch] from the acquired lease on, with its deferred [Abandon]. *)
Definition dispatch_with_lease (ctx : Ctx) (request : Request) (policy : RepositoryPolicy)
    (identity : Identity) : m (Result * err_ret) :=
  r ← dispatchPrepared ctx request policy identity;
  let '(res, dispatchErr) := r in
  l ← cur;
  if lg_CleanupComplete l then
    releaseErr ← release_lease (ctx_Background deps);
    match releaseErr with
    | Some releaseErr =>
        assign (set_CleanupComplete false);;
        transition StatusAmbiguous "guard_release";;
        return_with (errors_Join dispatchErr
          (Some (Errorf_sw ErrAmbiguous "guard lease release failed" releaseErr)))
    | None => mret (res, dispatchErr)
    end
  else abandon_lease;; mret (res, dispatchErr).

(** [Dispatch] from a fresh, authorised request on. *)
Definition admit_request (ctx : Ctx) (request : Request) (policy : RepositoryPolicy)
    (requestID trustedSHA : string) (identity : Identity) : m (Result * err_ret) :=
  now ← lift (d_Now deps);
  assign (fun _ => newLedger now requestID request policy trustedSHA identity);;
  saved ← save_cur;
  match saved with
  | Some e => mret (zero_result, Some e)
  | None =>
      acquired ← acquire_lease ctx;
      match acquired with
      | Some err =>
          assign (fun l => set_CleanupComplete (negb (errors_Is err ErrAmbiguous))
            (set_IsolationGone true (set_RunnerGone true (set_RunTerminal true l))));;
          finishWithoutLease "guard_admission" err
      | None => dispatch_with_lease ctx request policy identity
      end
  end.

(** The part of [Dispatch] that runs under the machine lock. *)
Definition dispatch_locked (ctx : Ctx) (request : Request) (policy : RepositoryPolicy)
    : m (Result * err_ret) :=
  let fail e := mret (zero_result, Some e) in
  e ← reconcileStartup ctx;
  match e with
  | Some e => fail (Errorf_w "startup reconciliation failed closed" e)
  | None =>
  replayed ← replay (RequestID request) request;
  match replayed with
  | Some r => mret r
  | None =>
  authority ← verifyAuthority ctx request policy;
  match authority with Err err => fail err | Ok trustedSHA =>
  random ← lift (d_Random deps);
  match random with
  | Err err => fail (Errorf_w "identity randomness" err)
  | Ok bytes =>
  let identity := NewIdentity bytes in
  collision ← lift (gh_RunnerLabelExists deps ctx (rq_Repository request) (id_Label identity));
  match collision with
  | Err err => fail (Errorf_w "check runner label" err)
  | Ok true => fail (Errorf "runner label collision")
  | Ok false => admit_request ctx request policy (RequestID request) trustedSHA identity
  end end end end end.

Definition Dispatch (ctx : Ctx) (request : Request) : m (Result * err_ret) :=
  let fail e := mret (zero_result, Some e) in
  match Policy config (rq_Repository request) with
  | None => fail (Errorf_s ErrInvalid "repository is not allowlisted")
  | Some policy =>
  match ValidateRequest request policy with
  | Some e => fail e
  | None =>
  e ← Preflight (d_drv deps) config;
  match e with
  | Some e => fail (Errorf_w "local isolation preflight failed" e)
  | None =>
  e ← lift (gate_Preflight deps (cfg_GuardExecutable config));
  match e with
  | Some e => fail (Errorf_w "local Guard preflight failed" e)
  | None =>
  queueCtx ← lift (ctx_WithTimeout deps ctx (cfg_QueueWait config));
  locked ← lift (d_AcquireQueue deps queueCtx MachineLockPath (cfg_QueuePoll config));
  match locked with
  | Some e => fail e
  | None =>
      r ← dispatch_locked ctx request policy;
      lift (d_CloseQueue deps);; mret r
  end end end end end.
End dispatcher.
