(* ===== verification/JitInvariants.v ===== *)
(** * internal/jitdispatcher: safety of the dispatcher

    A dispatcher invocation may be killed at any operation, after which another
    one starts from the files it left.  The invariants below hold in every world
    that such a sequence of invocations can reach. *)

From S2P Require Import Prelude GoStrings Regex JitTypes JitConfig JitState JitRunner JitDispatcher.

Local Open Scope string_scope.
Local Open Scope list_scope.
Local Open Scope Z_scope.

(** ** Invariants that the dispatcher's steps respect *)

(** The fields that identify the request: set when the ledger is created and
    never assigned again. *)
Definition ident (l : Ledger) :=
  (lg_RequestID l, (lg_Repository l, lg_CandidateRef l, lg_CandidateSHA l, lg_TrustedSHA l),
   (lg_Workflow l, lg_WorkflowSHA256 l), lg_Nonce l, lg_LeaseID l, lg_CreatedAt l).

(** The effects that the code may cause given what it read just before.  The ones
    that depend on the durable state are justified where they happen. *)
Definition justified (config : Config) (e : event) : Prop :=
  match e with
  | EvCancelRun l run =>
      exists policy, Policy config (lg_Repository l) = Some policy /\
        validateRunIdentity run policy (lg_TrustedSHA l) (lg_Nonce l) = true /\
        nonterminalStatus (run_Status run) = true
  | EvDeleteRunner l runner => rr_ID runner = lg_RunnerID l /\ runner_matches runner l = true
  | EvSecretSent leaseID ready => validReadyReceipt ready leaseID (cfg_BaseImageSHA256 config) = true
  | EvGenerateJIT _ durable => exists l, durable = Some l /\ lg_RunnerGone l = false
  | EvSaved _ | EvDispatch _ _ _ | EvRelease _ _ | EvReleaseOrphan _ _ => False
  | _ => True
  end.

(** [I] does not depend on the outside world or on temporary files, and survives
    field assignments, saves of the current ledger and justified effects. *)
Record step_inv {X} (config : Config) (I : World X -> Prop) : Prop := {
  si_ext : forall w x, I w -> I (mkWorld (w_disk w) (w_temps w) (w_cur w) (w_log w) x);
  si_temps : forall f w, I w -> I (with_temps f w);
  si_cur : forall f w, (forall l, ident (f l) = ident l) -> I w -> I (with_cur f w);
  si_save : forall w l, I w -> l = w_cur w -> validateLedger l (lg_RequestID l) = None ->
    I (with_event (EvSaved l) (with_disk <[lg_RequestID l := l]> w));
  si_event : forall e w, justified config e -> I w -> I (with_event e w);
}.

Lemma step_inv_and {X} config (I J : World X -> Prop) :
  step_inv config I -> step_inv config J -> step_inv config (fun w => I w /\ J w).
Proof. intros [] []. split; intros; destruct_and!; split; auto. Qed.

Lemma wp_cur {X} (Q : Ledger -> World X -> Prop) C w : Q (w_cur w) w -> wp cur Q C w.
Proof. done. Qed.

(** One step of the structural proof that code keeps an invariant. *)
Ltac keep_step :=
  match goal with
  | |- keeps _ (mbind _ _) => apply keeps_bind; [|intros ?]
  | |- keeps _ (mret _) => apply keeps_ret
  | |- keeps _ get => apply keeps_get
  | |- keeps _ out_of_fuel => apply keeps_out_of_fuel
  | |- keeps _ (let '(_, _) := ?r in _) => destruct r
  | |- keeps _ (match ?x with _ => _ end) => destruct x eqn:?
  | |- keeps _ (if ?b then _ else _) => destruct b eqn:?
  end.

(** Forget everything but the invariant. *)
Ltac to_keeps :=
  match goal with
  | H : ?I ?w |- wp ?m _ _ ?w => let K := fresh in cut (keeps I m); [intros K; exact (K w H)|]
  end.

(** ** Code that only observes

    Its steps reach the outside world but neither the files, nor the current
    ledger, nor the log. *)

Section observing.
Context {Ctx X : Type} `{SortSlice} (config : Config) (deps : Deps Ctx X).
Context (I : World X -> Prop).
Context (Hext : forall w x, I w -> I (mkWorld (w_disk w) (w_temps w) (w_cur w) (w_log w) x)).

Lemma observes_lift {A} (o : op X A) : keeps I (lift o).
Proof.
  intros w Hw. unfold wp, lift. destruct (o (w_ext w)) as [a x].
  pose proof (Hext w x Hw). by destruct a.
Qed.
#[local] Hint Resolve observes_lift : civm.

Ltac keep := repeat first [ solve [auto with civm] | keep_step ].

Lemma observes_temp_steps steps : keeps I (temp_steps steps).
Proof. induction steps as [|s steps IH]; cbn [temp_steps]; keep. Qed.

Lemma observes_Load id : keeps I (Load (d_io deps) id).
Proof. unfold Load. keep. Qed.
#[local] Hint Resolve observes_Load : civm.

Lemma observes_load_all ids : keeps I (load_all (d_io deps) ids).
Proof. induction ids as [|id ids IH]; cbn [load_all]; keep. Qed.
#[local] Hint Resolve observes_load_all : civm.

Lemma observes_List : keeps I (List (d_io deps)).
Proof. unfold List. keep. Qed.

Lemma observes_RequestLogDir id : keeps I (RequestLogDir (d_io deps) id).
Proof. unfold RequestLogDir. keep. Qed.

Lemma observes_verifyAuthority sha256 ctx request policy :
  keeps I (verifyAuthority deps sha256 ctx request policy).
Proof. unfold verifyAuthority. keep. Qed.

Lemma observes_replay id request : keeps I (replay deps id request).
Proof. unfold replay. keep. Qed.

Lemma observes_Preflight : keeps I (Preflight (d_drv deps) config).
Proof. unfold Preflight. keep. Qed.
End observing.

(** The worlds an observation can lead to. *)
Definition quiet {X} (w w' : World X) : Prop :=
  w_disk w' = w_disk w /\ w_cur w' = w_cur w /\ w_log w' = w_log w /\ w_temps w' = w_temps w.

Lemma quiet_ext {X} (w0 w : World X) x :
  quiet w0 w -> quiet w0 (mkWorld (w_disk w) (w_temps w) (w_cur w) (w_log w) x).
Proof. done. Qed.

(** An observation returns in a world that differs only outside. *)
Lemma wp_quiet {X A} (m : M (World X) A) (Q : A -> World X -> Prop) (C : World X -> Prop) w :
  (forall I : World X -> Prop,
     (forall w x, I w -> I (mkWorld (w_disk w) (w_temps w) (w_cur w) (w_log w) x)) -> keeps I m) ->
  (forall a w', quiet w w' -> Q a w') -> (forall w', quiet w w' -> C w') -> wp m Q C w.
Proof. intros Hm HQ HC. eapply wp_mono; [by apply (Hm _ (quiet_ext w) w)|exact HQ|exact HC]. Qed.

Ltac quietly := first [ apply wp_quiet; [intros; apply observes_lift; assumption| |] ].

(** ** Saving the current ledger *)

(** The current ledger is valid and on disk as it is in memory. *)
Definition durable {X} (w : World X) : Prop :=
  w_disk w !! lg_RequestID (w_cur w) = Some (w_cur w) /\
  validateLedger (w_cur w) (lg_RequestID (w_cur w)) = None.

Definition post {X A} (Q : A -> World X -> Prop) (m : M (World X) A) : Prop :=
  forall w, wp m Q (fun _ => True) w.

Lemma post_bind {X A B} (Q : B -> World X -> Prop) (m : M (World X) A) k :
  (forall a, post Q (k a)) -> post Q (m ≫= k).
Proof.
  intros Hk w. apply wp_bind. unfold wp at 1. destruct (m w) as [[a| |] w']; [|done..].
  apply Hk.
Qed.

Lemma post_seq {X A B} (Q' : A -> World X -> Prop) (Q : B -> World X -> Prop) (m : M (World X) A) k w :
  wp m Q' (fun _ => True) w -> (forall a w', Q' a w' -> wp (k a) Q (fun _ => True) w') ->
  wp (m ≫= k) Q (fun _ => True) w.
Proof. intros Hm Hk. apply wp_bind. by eapply wp_mono. Qed.

Section saving.
Context {Ctx X : Type} (deps : Deps Ctx X).

Lemma wp_save_cur w :
  wp (save_cur deps)
     (fun e w' => w_cur w' = w_cur w /\ (e = None -> durable w')) (fun _ => True) w.
Proof.
  unfold save_cur. apply wp_bind, wp_cur. unfold Save.
  destruct (validateLedger _ _) eqn:Hv; [done|]. destruct (negb _); [done|].
  destruct (io_Marshal _ _); [done|]. apply wp_bind; quietly; [|done].
  intros [e|] w1 (_ & Hc1 & _); [done|]. apply wp_bind, wp_modify.
  apply wp_bind, wp_quiet; [intros; by apply observes_temp_steps| |done].
  intros [e|] w2 (_ & Hc2 & _); cbn in Hc2.
  - unfold remove_temp. eapply post_seq with (Q' := fun _ w' => w_cur w' = w_cur w).
    { apply wp_bind; quietly; [|done]. intros [|] w3 (_ & Hc3 & _).
      - apply wp_ret. congruence.
      - apply wp_modify. cbn. congruence. }
    by intros _ w3 Hc3.
  - apply wp_bind, wp_modify, wp_bind; quietly; [|done].
    intros [e|] w3 (Hd3 & Hc3 & _); cbn in *; (split; [congruence|done||intros _]).
    unfold durable. rewrite Hd3, Hc3, Hc2, Hc1. by rewrite lookup_insert_eq.
Qed.
End saving.

Section invariant.
Context {Ctx X : Type} `{SortSlice} (config : Config) (deps : Deps Ctx X) (fuel : nat).
Context (sha256 : string -> list Z) (driverInput : string -> list Z -> list Z).
Context (I : World X -> Prop) (HI : step_inv config I).

Lemma keeps_lift {A} (o : op X A) : keeps I (lift o).
Proof. apply observes_lift, (si_ext _ _ HI). Qed.

Lemma keeps_cur : keeps I cur.
Proof. by intros w Hw. Qed.

Lemma keeps_assign f : (forall l, ident (f l) = ident l) -> keeps I (assign f).
Proof. intros Hf w Hw. by apply wp_modify, (si_cur _ _ HI). Qed.

Lemma keeps_emit e : justified config e -> keeps I (emit e).
Proof. intros Hj w Hw. by apply wp_modify, (si_event _ _ HI). Qed.

Lemma keeps_temps f : keeps I (modify (with_temps f)).
Proof. intros w Hw. by apply wp_modify, (si_temps _ _ HI). Qed.

#[local] Hint Resolve keeps_lift keeps_cur keeps_temps : civm.
#[local] Hint Extern 1 (keeps _ (assign _)) => (apply keeps_assign; done) : civm.
#[local] Hint Extern 1 (keeps _ (emit _)) => (apply keeps_emit; done) : civm.

Ltac keep := repeat first [ solve [auto with civm] | keep_step ].

(** *** Runner *)

Lemma keeps_stopAndWait p : keeps I (stopAndWait (d_drv deps) p).
Proof. unfold stopAndWait, waitForExitOrKill, waitForExit. keep. Qed.
Lemma keeps_stopUnidentified l : keeps I (stopUnidentifiedAndWait (d_drv deps) l).
Proof. unfold stopUnidentifiedAndWait, waitForExit. keep. Qed.
#[local] Hint Resolve keeps_stopAndWait keeps_stopUnidentified : civm.

Lemma keeps_abort_started rs p e : keeps I (abort_started (d_drv deps) rs p e).
Proof. unfold abort_started. keep. Qed.
#[local] Hint Resolve keeps_abort_started : civm.

Lemma keeps_exec_finish ctx rq p rs : keeps I (exec_finish (d_drv deps) ctx rq p rs).
Proof. unfold exec_finish. keep. Qed.
#[local] Hint Resolve keeps_exec_finish : civm.

Definition keeps_cb {A} (cb : option (A -> M (World X) err_ret)) : Prop :=
  forall f a, cb = Some f -> keeps I (f a).

Lemma keeps_call_opt {A} (cb : option (A -> M (World X) err_ret)) a :
  keeps_cb cb -> keeps I (call_opt cb a).
Proof. unfold call_opt. destruct cb; intros Hcb; [by apply Hcb|keep]. Qed.

Lemma keeps_exec_protocol ctx rq p :
  ex_BaseImageSHA256 rq = cfg_BaseImageSHA256 config -> keeps_cb (ex_OnReady rq) ->
  keeps I (exec_protocol (d_drv deps) ctx rq p).
Proof.
  intros Hb Hr. unfold exec_protocol. keep; try (by apply keeps_call_opt).
  apply keeps_emit. cbn. rewrite <- Hb. by bsplit.
Qed.

Lemma keeps_execDriver ctx rq :
  ex_BaseImageSHA256 rq = cfg_BaseImageSHA256 config ->
  keeps_cb (ex_OnStarted rq) -> keeps_cb (ex_OnReady rq) ->
  keeps I (execDriver (d_drv deps) ctx rq).
Proof.
  intros Hb Hs Hr. unfold execDriver. keep; try (by apply keeps_call_opt).
  by apply keeps_exec_protocol.
Qed.

Lemma keeps_Recover ctx rq :
  rec_BaseImageSHA256 rq = cfg_BaseImageSHA256 config -> keeps I (Recover (d_drv deps) ctx rq).
Proof. intros Hb. unfold Recover. keep. by apply keeps_execDriver. Qed.

Lemma keeps_Run ctx rq :
  rreq_BaseImageSHA256 rq = cfg_BaseImageSHA256 config ->
  (forall p, keeps I (rreq_OnStarted rq p)) -> (forall r, keeps I (rreq_OnReady rq r)) ->
  keeps I (Run (d_drv deps) driverInput ctx rq).
Proof.
  intros Hb Hs Hr. unfold Run, validateRunnerRequest, runDriver. keep.
  apply keeps_execDriver; [done| |]; intros ? ? [= <-]; auto.
Qed.

(** *** Store *)

Lemma keeps_temp_steps steps : keeps I (temp_steps steps).
Proof. apply observes_temp_steps, (si_ext _ _ HI). Qed.
#[local] Hint Resolve keeps_temp_steps : civm.

Lemma keeps_save_cur : keeps I (save_cur deps).
Proof.
  intros w Hw. unfold save_cur. apply wp_bind, wp_cur. unfold Save.
  destruct (validateLedger _ _) eqn:Hv; [done|]. destruct (negb _); [done|].
  destruct (io_Marshal _ _); [done|]. apply wp_bind.
  apply (wp_keeps I _ (fun _ w' => quiet w w')); [keep|done|by quietly|].
  intros [e|] w1 H1 Hq1; [done|]. apply wp_bind, wp_modify, wp_bind.
  pose proof (si_temps _ _ HI S w1 H1) as H2.
  apply (wp_keeps I _ (fun _ w' => quiet (with_temps S w1) w')); [keep|done| |].
  { apply wp_quiet; [intros; by apply observes_temp_steps|done|done]. }
  intros [e|] w3 H3 Hq3.
  - apply keeps_bind; [|intros; keep|done]. unfold remove_temp. keep.
  - apply wp_bind, wp_modify.
    apply (keeps_bind I); [keep|intros [|]; keep|].
    apply (si_save _ _ HI); [by apply (si_temps _ _ HI)| |done].
    unfold quiet in *. destruct_and!. cbn in *. congruence.
Qed.
#[local] Hint Resolve keeps_save_cur : civm.

Lemma keeps_RequestLogDir id : keeps I (RequestLogDir (d_io deps) id).
Proof. apply observes_RequestLogDir, (si_ext _ _ HI). Qed.
#[local] Hint Resolve keeps_RequestLogDir : civm.

(** *** Dispatcher *)

Lemma keeps_touch : keeps I (touch deps).
Proof. unfold touch. keep. Qed.
#[local] Hint Resolve keeps_touch : civm.

Lemma keeps_transition s c : keeps I (transition deps s c).
Proof. unfold transition. keep. Qed.
#[local] Hint Resolve keeps_transition : civm.

Lemma keeps_return_with e : keeps I (return_with e).
Proof. unfold return_with, current_result. keep. Qed.

Lemma keeps_poll_again ctx : keeps I (poll_again config deps ctx).
Proof. unfold poll_again. keep. Qed.

Lemma keeps_mark_complete : keeps I mark_complete.
Proof. unfold mark_complete. keep. Qed.
#[local] Hint Resolve keeps_return_with keeps_poll_again keeps_mark_complete : civm.

Lemma keeps_waitForRun ctx repo policy identity :
  keeps I (waitForRun config deps fuel ctx repo policy identity).
Proof.
  unfold waitForRun. apply keeps_bind; [keep|]. intros c.
  induction fuel as [|n IH]; cbn [wait_run_loop]; keep.
Qed.

Lemma keeps_waitForJob ctx repo policy runID label :
  keeps I (waitForJob config deps fuel ctx repo policy runID label).
Proof.
  unfold waitForJob. apply keeps_bind; [keep|]. intros c.
  induction fuel as [|n IH]; cbn [wait_job_loop]; keep.
Qed.

Lemma keeps_waitForCompletion ctx repo policy identity :
  keeps I (waitForCompletion config deps fuel ctx repo policy identity).
Proof.
  unfold waitForCompletion. induction fuel as [|n IH]; cbn [completion_loop]; keep.
Qed.

Lemma keeps_terminal_loop ctx policy identity n :
  keeps I (terminal_loop config deps n ctx policy identity).
Proof. induction n as [|n IH]; cbn [terminal_loop]; keep. Qed.
#[local] Hint Resolve keeps_waitForRun keeps_waitForJob keeps_waitForCompletion
  keeps_terminal_loop : civm.

Lemma knownExecutionStatus_nonterminal s :
  knownExecutionStatus s = true -> String.eqb s "completed" = false -> nonterminalStatus s = true.
Proof. unfold knownExecutionStatus. by intros [-> | ?]%orb_prop. Qed.

Lemma wp_cancelAndWaitTerminal ctx policy identity w :
  I w -> Policy config (lg_Repository (w_cur w)) = Some policy ->
  id_Nonce identity = lg_Nonce (w_cur w) ->
  wp (cancelAndWaitTerminal config deps fuel ctx policy identity) (fun _ => I) I w.
Proof.
  intros Hw Hpol Hn. unfold cancelAndWaitTerminal. apply wp_bind, wp_cur.
  generalize dependent (w_cur w). intros l Hpol Hn.
  apply keeps_bind; [keep| |done]. intros [run|e]; [|keep].
  destruct (negb _) eqn:Hid; [keep|].
  destruct (negb (knownExecutionStatus _)) eqn:Hk; [keep|]. bsplit.
  apply keeps_bind; [|intros; keep].
  destruct (String.eqb (run_Status run) "completed") eqn:Hc; [keep|].
  apply keeps_bind; [|intros; keep]. apply keeps_emit. cbn. exists policy.
  rewrite <- Hn. auto using knownExecutionStatus_nonterminal.
Qed.

Lemma keeps_cleanup_run ctx : keeps I (cleanup_run config deps fuel ctx).
Proof.
  intros w Hw. unfold cleanup_run. apply wp_bind, wp_cur.
  destruct (lg_RunTerminal _); [done|]. destruct (_ =? 0); [done|].
  destruct (Policy _ _) eqn:Hp; [|done]. destruct (negb _); [done|].
  apply wp_bind. eapply wp_mono; [by apply wp_cancelAndWaitTerminal| |done].
  intros e w' Hw'. to_keeps. keep.
Qed.

Lemma keeps_gone_loop ctx n d : keeps I (gone_loop config deps n ctx d).
Proof.
  revert d. induction n as [|n IH]; intros d; cbn [gone_loop]; keep.
  apply keeps_emit. cbn. by bsplit.
Qed.

Lemma keeps_observe_loop ctx c n : keeps I (observe_loop config deps n ctx c).
Proof. induction n as [|n IH]; cbn [observe_loop]; unfold observe_error; keep. Qed.
#[local] Hint Resolve keeps_cleanup_run keeps_gone_loop keeps_observe_loop : civm.

Lemma keeps_ensureRunnerGone ctx : keeps I (ensureRunnerGone config deps fuel ctx).
Proof. unfold ensureRunnerGone. keep. Qed.
#[local] Hint Resolve keeps_ensureRunnerGone : civm.

Lemma keeps_cleanup_isolation ctx d : keeps I (cleanup_isolation config deps ctx d).
Proof.
  unfold cleanup_isolation. keep; [by apply keeps_Recover|].
  apply keeps_assign. intros l'. by destruct (String.eqb (lg_IsolationID l') "").
Qed.

Lemma keeps_cleanup_runner ctx : keeps I (cleanup_runner config deps fuel ctx).
Proof. unfold cleanup_runner. keep. Qed.
#[local] Hint Resolve keeps_cleanup_isolation keeps_cleanup_runner : civm.

Lemma keeps_cleanupLedger ctx : keeps I (cleanupLedger config deps fuel ctx).
Proof. unfold cleanupLedger. keep. Qed.
#[local] Hint Resolve keeps_cleanupLedger : civm.

Lemma keeps_finishError code cause : keeps I (finishError config deps fuel code cause).
Proof. unfold finishError. keep. Qed.

Lemma keeps_finishWithoutLease code cause : keeps I (finishWithoutLease deps code cause).
Proof. unfold finishWithoutLease. keep. Qed.
#[local] Hint Resolve keeps_finishError keeps_finishWithoutLease : civm.

Lemma keeps_run_settle ctx request : keeps I (run_settle config deps fuel ctx request).
Proof. unfold run_settle. keep. Qed.
#[local] Hint Resolve keeps_run_settle : civm.

Lemma keeps_run_observe ctx c request policy identity :
  keeps I (run_observe config deps fuel ctx c request policy identity).
Proof. unfold run_observe. keep. Qed.
#[local] Hint Resolve keeps_run_observe : civm.

Lemma keeps_run ctx request policy identity secret :
  keeps I (run config deps fuel driverInput ctx request policy identity secret).
Proof.
  unfold run. keep. apply keeps_Run; [done| |]; intros; cbn; unfold OnStarted, OnReady; keep.
Qed.
#[local] Hint Resolve keeps_run : civm.

Lemma wp_register_and_run ctx request policy identity w :
  I w -> durable w -> lg_RunnerGone (w_cur w) = false ->
  wp (register_and_run config deps fuel driverInput ctx request policy identity) (fun _ => I) I w.
Proof.
  intros Hw [Hd _] Hgone. unfold register_and_run. apply wp_bind, wp_get.
  apply keeps_bind; [|intros; keep|done]. apply keeps_emit. cbn. rewrite Hd. eauto.
Qed.

(** The JIT runner is only requested once the intent to create it is durable. *)
Lemma keeps_jit_intent ctx request policy identity :
  keeps I (assign (set_RunnerGone false);;
           saved ← save_cur deps;
           match saved with
           | Some _ => finishError config deps fuel "state_before_jit"
                         (Errorf_s ErrAmbiguous "persist JIT intent")
           | None => register_and_run config deps fuel driverInput ctx request policy identity
           end).
Proof.
  intros w Hw. apply wp_bind, wp_modify, wp_bind.
  apply (wp_keeps I _ (fun e w' => w_cur w' = set_RunnerGone false (w_cur w) /\ (e = None -> durable w')));
    [keep|by apply (si_cur _ _ HI)|apply wp_save_cur|].
  intros [e|] w' Hw' [Hc Hd]; [to_keeps; keep|].
  apply wp_register_and_run; [done|by apply Hd|by rewrite Hc].
Qed.
#[local] Hint Resolve keeps_jit_intent : civm.

Lemma keeps_bindAndRun ctx request policy identity :
  keeps I (bindAndRun config deps fuel driverInput ctx request policy identity).
Proof. unfold bindAndRun. keep. Qed.

#[local] Hint Resolve keeps_bindAndRun : civm.

(** What [dispatchPrepared] does once it has asked for the dispatch. *)
Lemma keeps_after_dispatch ctx request policy identity :
  keeps I (r ← lift (gh_DispatchWorkflow deps ctx (rq_Repository request) (pol_Workflow policy)
               (pol_TrustedRef policy)
               [("candidate_sha", rq_CandidateSHA request); ("candidate_ref", rq_CandidateRef request);
                ("dispatch_nonce", id_Nonce identity); ("runner_label", id_Label identity)]);
    match r with
    | Err err =>
        (if errors_Is err ErrAmbiguous then mret tt else assign (set_RunTerminal true));;
        finishError config deps fuel "dispatch" err
    | Ok receipt =>
        if rcpt_RunID receipt <=? 0
        then finishError config deps fuel "dispatch_identity"
               (Errorf_s ErrAmbiguous "dispatch returned no run ID")
        else
          assign (set_RunID (rcpt_RunID receipt));;
          e ← transition deps StatusWorkflowDispatched "";
          match e with
          | Some _ => finishError config deps fuel "state_dispatch"
                        (Errorf_s ErrAmbiguous "persist dispatch identity")
          | None => bindAndRun config deps fuel driverInput ctx request policy identity
          end
    end).
Proof. keep. Qed.

Lemma keeps_recover_ledger ctx : keeps I (recover_ledger config deps fuel ctx).
Proof. unfold recover_ledger. keep. Qed.

Lemma keeps_abandon_lease : keeps I (abandon_lease deps).
Proof. unfold abandon_lease. keep. Qed.

Lemma keeps_acquire_lease ctx : keeps I (acquire_lease config deps ctx).
Proof. unfold acquire_lease. keep. Qed.
End invariant.
