(* ===== verification/JitSafety.v ===== *)
(** * internal/jitdispatcher: what every sequence of invocations guarantees

    [reachable] worlds are those that any sequence of [Dispatch] invocations can
    leave behind, each of them killed at any operation or run to its end, with any
    request, any behaviour of GitHub, of the Guard broker, of the isolation driver
    and of the file system.  The machine lock that [Dispatch] takes makes the
    invocations of one host such a sequence.  The theorems are the safety
    contract of the dispatcher: at most one remote dispatch per request, at most
    one unfinished request, remote effects only on objects whose identity was
    checked, and no release of the Guard lease before the cleanup is proved. *)

From S2P Require Import Prelude GoStrings Regex JitTypes JitConfig JitState JitRunner JitDispatcher JitInvariants.

Local Open Scope string_scope.
Local Open Scope list_scope.
Local Open Scope Z_scope.

(** ** What the log may contain *)

Definition dispatched (log : list event) : list string :=
  omap (fun e => match e with EvDispatch id _ _ => Some id | _ => None end) log.

Definition saves (log : list event) : list Ledger :=
  omap (fun e => match e with EvSaved l => Some l | _ => None end) log.

(** Each effect with the condition under which the dispatcher may cause it;
    [cfgs] are the configurations the invocations were started with. *)
Definition event_ok (cfgs : Config -> Prop) (e : event) : Prop :=
  match e with
  | EvSaved l => validateLedger l (lg_RequestID l) = None
  | EvDispatch id nonce durable =>
      exists l, durable = Some l /\ lg_RequestID l = id /\ lg_Nonce l = nonce /\
        lg_Status l = StatusDispatching /\ lg_RunTerminal l = false
  | EvRelease l durable =>
      lg_CleanupComplete l = true /\ proofs_complete l = true /\
      (lg_Status l = StatusStale \/ durable = Some l)
  | EvReleaseOrphan lease ledgers =>
      ledgers <> [] /\ Forall (fun l => lg_LeaseID l = lease /\ lg_CleanupComplete l = true) ledgers
  | e => exists config, cfgs config /\ justified config e
  end.

(** ** The invariant between invocations *)

Record inv {X} (cfgs : Config -> Prop) (w : World X) : Prop := {
  inv_valid : forall id l, w_disk w !! id = Some l -> validateLedger l id = None;
  inv_single : forall i j li lj,
    w_disk w !! i = Some li -> w_disk w !! j = Some lj ->
    lg_CleanupComplete li = false -> lg_CleanupComplete lj = false -> i = j;
  inv_dispatched : forall id, id ∈ dispatched (w_log w) -> is_Some (w_disk w !! id);
  inv_once : NoDup (dispatched (w_log w));
  inv_saved : forall l, l ∈ saves (w_log w) ->
    exists d, w_disk w !! lg_RequestID l = Some d /\ ident d = ident l;
  inv_log : Forall (event_ok cfgs) (w_log w);
}.

(** The current ledger is the only one that may be unfinished on disk. *)
Record owner {X} (w : World X) : Prop := {
  ow_rest : forall i l, w_disk w !! i = Some l -> lg_CleanupComplete l = false ->
    i = lg_RequestID (w_cur w);
  ow_ident : forall d, w_disk w !! lg_RequestID (w_cur w) = Some d -> ident d = ident (w_cur w);
}.

Definition fresh {X} (w : World X) : Prop := lg_RequestID (w_cur w) ∉ dispatched (w_log w).
Definition on_disk {X} (w : World X) : Prop := is_Some (w_disk w !! lg_RequestID (w_cur w)).

Lemma dispatched_snoc log e :
  dispatched (log ++ [e]) = dispatched log ++ match e with EvDispatch id _ _ => [id] | _ => [] end.
Proof. unfold dispatched. rewrite omap_app. by destruct e. Qed.

Lemma saves_snoc log e :
  saves (log ++ [e]) = saves log ++ match e with EvSaved l => [l] | _ => [] end.
Proof. unfold saves. rewrite omap_app. by destruct e. Qed.

Lemma ident_RequestID l l' : ident l = ident l' -> lg_RequestID l = lg_RequestID l'.
Proof. unfold ident. congruence. Qed.

Lemma ident_LeaseID l l' : ident l = ident l' -> lg_LeaseID l = lg_LeaseID l'.
Proof. unfold ident. congruence. Qed.

Lemma validateLedger_RequestID l id : validateLedger l id = None -> lg_RequestID l = id.
Proof.
  rewrite validateLedger_iff. intros. bsplit. unfold lv_identity in *. bsplit.
  by apply String.eqb_eq.
Qed.

Lemma validateLedger_proofs l id :
  validateLedger l id = None -> lg_CleanupComplete l = true -> proofs_complete l = true.
Proof.
  rewrite validateLedger_iff. intros. bsplit. unfold lv_cleanup, proofs_complete in *.
  by destruct (lg_CleanupComplete l), (lg_RunTerminal l), (lg_RunnerGone l), (lg_IsolationGone l).
Qed.

Section steps.
Context {X : Type} (cfgs : Config -> Prop) (config : Config) (Hcfg : cfgs config).

(** Adding an acceptable event that is neither a save nor a dispatch. *)
Lemma inv_event (w : World X) e :
  inv cfgs w -> event_ok cfgs e ->
  match e with EvSaved _ | EvDispatch _ _ _ => False | _ => True end ->
  inv cfgs (with_event e w).
Proof.
  intros [] He Hne. split; cbn; try done.
  - intros id. rewrite dispatched_snoc. destruct e; rewrite ?app_nil_r; by auto.
  - rewrite dispatched_snoc. by destruct e; rewrite ?app_nil_r.
  - intros l. rewrite saves_snoc. destruct e; rewrite ?app_nil_r; by auto.
  - apply Forall_app. auto.
Qed.

Lemma justified_ok e : justified config e -> event_ok cfgs e.
Proof. destruct e; cbn; try done; eauto. Qed.

Lemma inv_save (w : World X) l :
  inv cfgs w -> owner w -> l = w_cur w -> validateLedger l (lg_RequestID l) = None ->
  inv cfgs (with_event (EvSaved l) (with_disk <[lg_RequestID l := l]> w)).
Proof.
  intros [] [Hrest Hid] -> Hv. split; cbn.
  - intros id l [[<- <-]|[? ?]]%lookup_insert_Some; eauto.
  - intros i j li lj Hi Hj Hci Hcj.
    assert (forall k lk, <[lg_RequestID (w_cur w):=w_cur w]> (w_disk w) !! k = Some lk ->
      lg_CleanupComplete lk = false -> k = lg_RequestID (w_cur w)) as Hk.
    { intros k lk [[<- <-]|[? ?]]%lookup_insert_Some ?; eauto. }
    rewrite (Hk i li), (Hk j lj); eauto.
  - intros id. rewrite dispatched_snoc, app_nil_r, lookup_insert_is_Some'. eauto.
  - by rewrite dispatched_snoc, app_nil_r.
  - intros l. rewrite saves_snoc, elem_of_app, list_elem_of_singleton.
    intros [Hl| ->]; [|by eexists; rewrite lookup_insert_eq].
    destruct (inv_saved0 l Hl) as (d & Hd & Hdl).
    destruct (decide (lg_RequestID l = lg_RequestID (w_cur w))) as [E|E].
    + exists (w_cur w). rewrite E, lookup_insert_eq. split; [done|].
      rewrite <- Hdl. symmetry. apply Hid. by rewrite <- E.
    + exists d. by rewrite lookup_insert_ne.
  - apply Forall_app. auto.
Qed.

Lemma owner_save (w : World X) l e :
  owner w -> l = w_cur w -> owner (with_event e (with_disk <[lg_RequestID l := l]> w)).
Proof.
  intros [Hrest Hid] ->. split; cbn.
  - intros i l [[<- <-]|[? ?]]%lookup_insert_Some; eauto.
  - intros d [[_ <-]|[? ?]]%lookup_insert_Some; done.
Qed.

Lemma step_inv_owner : step_inv config (fun w : World X => inv cfgs w /\ owner w).
Proof.
  split; intros.
  - destruct H as [[] []]. by repeat split.
  - destruct H as [[] []]. by repeat split.
  - destruct H0 as [[] []]. split; [done|]. split; cbn.
    + intros. rewrite (ident_RequestID _ _ (H _)). eauto.
    + rewrite (ident_RequestID _ _ (H _)), H. done.
  - destruct H. split; [by apply inv_save|by apply owner_save].
  - destruct H0 as [? []]. split; [|done]. apply inv_event; [done|by apply justified_ok|].
    by destruct e.
Qed.

Lemma step_inv_fresh : step_inv config (@fresh X).
Proof.
  unfold fresh. split; intros; cbn; try done.
  - by rewrite (ident_RequestID _ _ (H _)).
  - by rewrite dispatched_snoc, app_nil_r.
  - rewrite dispatched_snoc. destruct e; rewrite ?app_nil_r; done.
Qed.

Lemma step_inv_on_disk : step_inv config (@on_disk X).
Proof.
  unfold on_disk. split; intros; cbn; try done.
  - by rewrite (ident_RequestID _ _ (H _)).
  - subst. by rewrite lookup_insert_eq.
Qed.

(** The ledger of the running call is the one of the request [i]. *)
Lemma step_inv_ident i : step_inv config (fun w : World X => ident (w_cur w) = i).
Proof. split; intros; cbn; congruence. Qed.
End steps.

(** ** Where a run ends *)

(** A ledger that claims a complete cleanup is durable; the one exception is the
    [StatusStale] exit of [run], which does not look at the error of its save. *)
Definition settled {X} (w : World X) : Prop :=
  lg_CleanupComplete (w_cur w) = true ->
  durable w \/ lg_Status (w_cur w) = StatusStale /\ proofs_complete (w_cur w) = true.

Definition completed {X} (w : World X) : Prop :=
  durable w /\ lg_Status (w_cur w) = StatusCompleted /\ lg_CleanupComplete (w_cur w) = true.

(** What the exits of [dispatchPrepared] promise: [settled], and a nil error only
    for a request that is durably completed. *)
Definition exits {X} (r : Result * err_ret) (w : World X) : Prop :=
  settled w /\
  (snd r = None -> completed w /\
     fst r = mkResult (lg_RequestID (w_cur w)) (lg_RunID (w_cur w)) StatusCompleted false).

Lemma errors_Join_Some e o : errors_Join (Some e) o <> None.
Proof. by destruct o. Qed.

Section exits.
Context {Ctx X : Type} (config : Config) (deps : Deps Ctx X) (fuel : nat).
Context (driverInput : string -> list Z -> list Z).
Implicit Types w : World X.

Lemma wp_transition s c w :
  wp (transition deps s c)
     (fun e w' => (exists now, w_cur w' = set_UpdatedAt now (set_FailureCode c (set_Status s (w_cur w)))) /\
                  (e = None -> durable w')) (fun _ => True) w.
Proof.
  unfold transition, touch. apply wp_bind, wp_modify, wp_bind, wp_bind; quietly; [|done].
  intros now w1 (_ & Hc1 & _). apply wp_modify.
  eapply post_seq; [apply wp_save_cur|]. intros [e|] w2 [Hc2 Hd2].
  - apply wp_ret. split; [|done]. exists now. by rewrite Hc2; cbn; rewrite Hc1.
  - apply wp_bind; quietly; [|done]. intros _ w3 (Hd3 & Hc3 & _). apply wp_ret.
    split; [exists now; rewrite Hc3, Hc2; cbn; by rewrite Hc1|].
    intros _. specialize (Hd2 eq_refl). unfold durable in *. by rewrite Hd3, Hc3.
Qed.

Lemma wp_return_with e w (Q : Result * err_ret -> World X -> Prop) C :
  Q (mkResult (lg_RequestID (w_cur w)) (lg_RunID (w_cur w)) (lg_Status (w_cur w)) false, e) w ->
  wp (return_with e) Q C w.
Proof. done. Qed.

Lemma post_cleanupLedger ctx :
  post (fun e w => e = None -> durable w /\ lg_CleanupComplete (w_cur w) = true)
       (cleanupLedger config deps fuel ctx).
Proof.
  unfold cleanupLedger. apply post_bind; intros l. apply post_bind; intros [log|e]; [|done].
  apply post_bind; intros [e|]; [done|]. apply post_bind; intros [e|]; [done|].
  apply post_bind; intros [e|]; [done|]. intros w.
  eapply post_seq with (Q' := fun b w' => b = lg_CleanupComplete (w_cur w')); [done|].
  intros [] w1 Hw1; cbn; [|done]. unfold touch.
  eapply post_seq with (Q' := fun _ w' => true = lg_CleanupComplete (w_cur w')).
  { apply wp_bind; quietly; [|done]. intros now w2 (_ & Hc & _).
    apply wp_modify. cbn. by rewrite Hc. }
  intros _ w2 Hw2. eapply wp_mono; [apply wp_save_cur| |done].
  intros e w3 [Hc3 Hd3] He. rewrite Hc3. auto.
Qed.

Lemma post_finishError code cause : post exits (finishError config deps fuel code cause).
Proof.
  unfold finishError. apply post_bind; intros e1. apply post_bind; intros c. intros w.
  eapply post_seq; [apply post_cleanupLedger|]. intros [e|] w1 Hw1.
  - apply wp_bind, wp_modify, wp_bind, wp_cur. destruct (negb _).
    + eapply post_seq; [apply wp_transition|]. intros e2 w2 [[now Hc2] _].
      apply wp_return_with. unfold exits, settled. rewrite Hc2. by destruct e1, e2.
    + apply wp_return_with. by destruct e1.
  - apply wp_return_with. split; [intros _; left; by apply Hw1|]. by destruct e1.
Qed.
#[local] Hint Resolve post_finishError : civm.

(** Every path of the code that does not end here ends in [finishError]. *)
Ltac exits_step :=
  match goal with
  | |- post _ (mbind _ _) => apply post_bind; intros ?
  | |- post _ (match ?x with _ => _ end) => destruct x
  | |- post _ (if ?b then _ else _) => destruct b
  end.
Ltac exits_auto := repeat first [ solve [auto with civm] | exits_step ].

Lemma post_run_settle ctx request : post exits (run_settle config deps fuel ctx request).
Proof.
  unfold run_settle. apply post_bind; intros [sha|e]; [|exits_auto].
  destruct (negb _).
  - intros w. eapply post_seq with
      (Q' := fun _ w' => lg_CleanupComplete (w_cur w') = proofs_complete (w_cur w')); [done|].
    intros _ w1 Hw1. eapply post_seq; [apply wp_transition|]. intros e w2 [[now Hc2] Hd2].
    apply wp_return_with. split; [|by destruct e]. intros Hcc. right.
    rewrite Hc2 in *. cbn in *. by rewrite <- Hcc, Hw1.
  - intros w. eapply post_seq with (Q' := fun b w' => b = lg_CleanupComplete (w_cur w')); [done|].
    intros [] w1 Hw1; cbn; [|apply post_finishError].
    eapply post_seq; [apply wp_transition|]. intros [e|] w2 [[now Hc2] Hd2].
    + by apply wp_bind, wp_modify, wp_return_with.
    + apply wp_bind; quietly; [|done]. intros _ w3 (Hd3 & Hc3 & _).
      specialize (Hd2 eq_refl). apply wp_return_with.
      assert (durable w3) as Hd by (unfold durable in *; by rewrite Hd3, Hc3).
      split; [by left|]. intros _. unfold completed. rewrite Hc3, Hc2. cbn. auto.
Qed.
#[local] Hint Resolve post_run_settle : civm.

Lemma post_run ctx request policy identity secret :
  post exits (run config deps fuel driverInput ctx request policy identity secret).
Proof. unfold run, run_observe. exits_auto. Qed.
#[local] Hint Resolve post_run : civm.

Lemma post_bindAndRun ctx request policy identity :
  post exits (bindAndRun config deps fuel driverInput ctx request policy identity).
Proof. unfold bindAndRun, register_and_run. exits_auto. Qed.

Lemma wp_dispatchPrepared ctx request policy identity w :
  lg_CleanupComplete (w_cur w) = false ->
  wp (dispatchPrepared config deps fuel driverInput ctx request policy identity)
     exits (fun _ => True) w.
Proof.
  intros Hcc. unfold dispatchPrepared. apply wp_bind, wp_modify.
  eapply post_seq; [apply wp_transition|]. intros [e|] w1 [[now Hc1] _].
  - apply wp_return_with. split; [|done]. unfold settled. rewrite Hc1. cbn. congruence.
  - apply post_bind; intros l. apply post_bind; intros _. apply post_bind; intros [r|e].
    + destruct (_ <=? 0); [exits_auto|]. apply post_bind; intros _.
      apply post_bind; intros [e|]; [exits_auto|apply post_bindAndRun].
    + exits_auto.
Qed.

Lemma post_recover_ledger ctx :
  post (fun e w => e = None -> durable w /\ lg_CleanupComplete (w_cur w) = true)
       (recover_ledger config deps fuel ctx).
Proof.
  unfold recover_ledger. apply post_bind; intros [e|]; [done|]. apply post_bind; intros c.
  intros w. eapply post_seq; [apply post_cleanupLedger|]. intros [e|] w1 Hw1; [done|].
  destruct (Hw1 eq_refl) as [_ Hcc]. apply wp_bind, wp_modify. unfold touch.
  apply wp_bind, wp_bind; quietly; [|done]. intros now w2 (_ & Hc2 & _).
  apply wp_modify. eapply wp_mono; [apply wp_save_cur| |done]. intros e w3 [Hc3 Hd3] He.
  rewrite Hc3. cbn. rewrite Hc2. auto.
Qed.
End exits.

(** ** Admission *)

Lemma scan_ledgers_spec orphan ls matched inc m' inc' :
  scan_ledgers orphan matched inc ls = Ok (m', inc') ->
  m' = matched || existsb (owns orphan) ls /\
  (inc <> None -> inc' = inc) /\
  (forall l, inc' = Some l -> inc = None -> l ∈ ls /\ lg_CleanupComplete l = false) /\
  (forall l, l ∈ ls -> lg_CleanupComplete l = false -> inc' = Some l /\ inc = None).
Proof.
  revert matched inc. induction ls as [|l ls IH]; intros matched inc; cbn.
  { intros [= <- <-]. rewrite orb_false_r. split_and!; [done|done|congruence|]. by intros l ?%not_elem_of_nil. }
  destruct (lg_CleanupComplete l) eqn:Hc.
  - intros (-> & Hk & Hs & Hr)%IH. rewrite orb_assoc. split_and!; [done|done| |].
    + intros l0 H1 H2. destruct (Hs l0 H1 H2). split; [by right|done].
    + intros l0 [-> |?]%elem_of_cons ?; [congruence|by apply Hr].
  - destruct inc as [i|]; [done|]. intros (-> & Hk & Hs & Hr)%IH. rewrite orb_assoc.
    assert (inc' = Some l) as -> by by apply Hk.
    split_and!; [done|done|intros l0 [= <-] _; split; [by left|done]|].
    intros l0 [-> |Hl0]%elem_of_cons ?; [done|]. by destruct (Hr l0).
Qed.

(** The scan fails only on two entries that are both unfinished. *)
Lemma scan_ledgers_total orphan ls matched :
  (forall n m ln lm, ls !! n = Some ln -> ls !! m = Some lm ->
     lg_CleanupComplete ln = false -> lg_CleanupComplete lm = false -> n = m) ->
  exists matched' inc, scan_ledgers orphan matched None ls = Ok (matched', inc).
Proof.
  revert matched. induction ls as [|l ls IH]; intros matched Hone; cbn; [eauto|].
  assert (forall n m ln lm, ls !! n = Some ln -> ls !! m = Some lm ->
     lg_CleanupComplete ln = false -> lg_CleanupComplete lm = false -> n = m) as Hone'.
  { intros n m ln lm Hn Hm Hcn Hcm. pose proof (Hone (S n) (S m) ln lm Hn Hm Hcn Hcm). lia. }
  destruct (lg_CleanupComplete l) eqn:Hc; [by apply IH|].
  assert (Forall (fun l => lg_CleanupComplete l = true) ls) as Hall.
  { apply Forall_forall. intros l' [n Hn]%list_elem_of_lookup.
    destruct (lg_CleanupComplete l') eqn:Hc'; [done|].
    pose proof (Hone 0%nat (S n) l l' eq_refl Hn Hc Hc'). lia. }
  generalize (matched || owns orphan l). clear -Hall.
  induction Hall as [|l' ls Hl' _ IH]; intros matched; cbn; [eauto|]. rewrite Hl'. apply IH.
Qed.

Section admission.
Context {Ctx X : Type} `{SortSlice} (cfgs : Config -> Prop) (config : Config) (Hcfg : cfgs config).
Context (deps : Deps Ctx X) (fuel : nat).
Context (sha256 : string -> list Z) (driverInput : string -> list Z -> list Z).
Implicit Types w : World X.

Abbreviation Inv := (@inv X cfgs).
Abbreviation Own := (fun w : World X => inv cfgs w /\ owner w).

Definition all_complete w : Prop :=
  forall id l, w_disk w !! id = Some l -> lg_CleanupComplete l = true.

Lemma inv_ext w x : Inv w -> Inv (mkWorld (w_disk w) (w_temps w) (w_cur w) (w_log w) x).
Proof. intros []. by split. Qed.

Lemma inv_quiet w w' : Inv w -> quiet w w' -> Inv w'.
Proof. intros [] (Hd & _ & Hl & _). split; rewrite ?Hd, ?Hl; done. Qed.

Lemma inv_cur f w : Inv w -> Inv (with_cur f w).
Proof. intros []. by split. Qed.

Lemma keeps_own {A} (m : M (World X) A) : keeps Own m -> forall w, Own w -> wp m (fun _ => Inv) Inv w.
Proof. intros Hm w Hw. eapply wp_mono; [by apply Hm|by intros ? ? []|by intros ? []]. Qed.

(** *** Listing the ledgers *)

Lemma wp_load_all ids w :
  wp (load_all (d_io deps) ids)
     (fun r w' => quiet w w' /\
        forall ls, r = Ok ls -> Forall2 (fun id l => w_disk w !! id = Some l) ids ls)
     (fun _ => True) w.
Proof.
  revert w. induction ids as [|id ids IH]; intros w; cbn [load_all].
  { apply wp_ret. split; [done|]. intros ls [= <-]. constructor. }
  eapply post_seq with (Q' := fun r w' => quiet w w' /\
    forall l, r = Ok (Some l) -> w_disk w !! id = Some l).
  { unfold Load. destruct (negb _); [done|]. apply wp_bind; quietly; [|done].
    intros [e|] w1 Hq; [done|]. apply wp_bind, wp_get. destruct Hq as (Hd & Hrest).
    destruct (w_disk w1 !! id) eqn:Hl; [|done].
    destruct (validateLedger _ _); apply wp_ret; (split; [done|]); intros ? [= <-]. congruence. }
  intros [[l|]|e] w1 [Hq Hl]; [|done..]. apply wp_bind.
  eapply wp_mono; [apply IH| |done]. intros [ls|e] w2 [Hq2 Hls];
    assert (quiet w w2) by (unfold quiet in *; destruct_and!; split_and!; congruence); [|done].
  apply wp_ret. split; [done|]. intros ? [= <-]. destruct Hq as [Hd _].
  constructor; [by apply Hl|]. rewrite <- Hd. by apply Hls.
Qed.

Lemma wp_List w :
  wp (List (d_io deps))
     (fun r w' => quiet w w' /\
        forall ls, r = Ok ls -> forall l, l ∈ ls <-> exists id, w_disk w !! id = Some l)
     (fun _ => True) w.
Proof.
  unfold List. apply wp_bind; quietly; [|done]. intros [e|] w1 Hq; [done|].
  apply wp_bind, wp_get. destruct (_ <? _)%nat; [done|].
  eapply post_seq; [apply wp_load_all|]. destruct Hq as (Hd & Hq).
  intros [ls|e] w2 [Hq2 Hls]; apply wp_ret;
    (split; [unfold quiet in *; destruct_and!; split_and!; congruence|]); [|done].
  intros ? [= <-] l. rewrite sort_slice_elem_of. specialize (Hls ls eq_refl). rewrite Hd in Hls.
  split.
  - intros Hl%list_elem_of_lookup. destruct Hl as [i Hi].
    destruct (Forall2_lookup_r _ _ _ _ _ Hls Hi) as (id & _ & ?). eauto.
  - intros [id Hid]. assert (id ∈ sort_slice String.ltb (map_to_list (w_disk w)).*1) as Hin.
    { apply sort_slice_elem_of, list_elem_of_fmap. exists (id, l). by rewrite elem_of_map_to_list. }
    apply list_elem_of_lookup in Hin as [i Hi].
    destruct (Forall2_lookup_l _ _ _ _ _ Hls Hi) as (l' & Hl' & ?). simplify_eq.
    by eapply list_elem_of_lookup_2.
Qed.

(** *** Releasing the lease *)

Lemma durable_complete w :
  owner w -> durable w -> lg_CleanupComplete (w_cur w) = true -> all_complete w.
Proof.
  intros [Hrest _] [Hd _] Hcc id l Hl. destruct (lg_CleanupComplete l) eqn:Hc; [done|].
  pose proof (Hrest id l Hl Hc). subst id. rewrite Hl in Hd. congruence.
Qed.

Lemma wp_release_lease ctx w :
  Inv w -> settled w -> lg_CleanupComplete (w_cur w) = true ->
  wp (release_lease config deps ctx)
     (fun _ w' => Inv w' /\ w_disk w' = w_disk w /\ w_cur w' = w_cur w) Inv w.
Proof.
  intros Hw Hs Hcc. unfold release_lease.
  apply wp_bind; quietly; [|by eauto using inv_quiet].
  intros c w1 Hq1. pose proof (inv_quiet _ _ Hw Hq1) as Hw1. destruct Hq1 as (Hd1 & Hc1 & _).
  apply wp_bind, wp_get, wp_bind, wp_modify.
  assert (Inv (with_event (EvRelease (w_cur w1) (w_disk w1 !! lg_RequestID (w_cur w1))) w1)) as Hw2.
  { apply inv_event; [done| |done]. cbn. rewrite Hd1, Hc1. split; [done|].
    destruct (Hs Hcc) as [[Hd Hv]|[? ?]]; [|by auto].
    rewrite Hd. eauto using validateLedger_proofs. }
  quietly; [|by eauto using inv_quiet].
  intros e w3 Hq3. split; [by eapply inv_quiet|]. destruct Hq3 as (-> & -> & _). by cbn.
Qed.

Lemma wp_releaseOrphan ctx orphan w :
  Inv w -> all_complete w ->
  (exists id l, w_disk w !! id = Some l /\ lg_LeaseID l = lm_LeaseID orphan) ->
  wp (releaseOrphan config deps ctx orphan)
     (fun _ w' => Inv w' /\ w_disk w' = w_disk w) Inv w.
Proof.
  intros Hw Hall (id & l & Hl & Hlease). unfold releaseOrphan.
  apply wp_bind; quietly; [|by eauto using inv_quiet].
  intros c w1 Hq1. pose proof (inv_quiet _ _ Hw Hq1) as Hw1. destruct Hq1 as (Hd1 & _).
  apply wp_bind, wp_get, wp_bind, wp_modify.
  set (ev := EvReleaseOrphan _ _). assert (Inv (with_event ev w1)) as Hw2.
  { apply inv_event; [done| |done]. cbn. rewrite Hd1. split.
    - intros Hnil. apply (not_elem_of_nil l). rewrite <- Hnil, list_elem_of_In, filter_In.
      split; [|by apply String.eqb_eq]. apply list_elem_of_In, list_elem_of_fmap.
      exists (id, l). by rewrite elem_of_map_to_list.
    - apply Forall_forall. intros d. rewrite list_elem_of_In, filter_In, <- list_elem_of_In.
      intros [Hd ?%String.eqb_eq]. split; [done|].
      apply list_elem_of_fmap in Hd as ([k d'] & -> & Hk%elem_of_map_to_list). by eapply Hall. }
  quietly; [|by eauto using inv_quiet].
  intros e w3 Hq3. split; [by eapply inv_quiet|]. destruct Hq3 as (-> & _). by cbn.
Qed.

(** *** Startup reconciliation *)

Lemma owner_ledger w id ledger :
  Inv w -> w_disk w !! id = Some ledger ->
  (forall i l, w_disk w !! i = Some l -> lg_CleanupComplete l = false -> l = ledger) ->
  owner (with_cur (fun _ => ledger) w).
Proof.
  intros Hw Hl Hrest. pose proof (fun i l H => validateLedger_RequestID _ _ (inv_valid _ _ Hw i l H)) as Hid.
  split; cbn.
  - intros i l Hi Hc. rewrite <- (Hid i l Hi). by rewrite (Hrest i l Hi Hc).
  - intros d. rewrite (Hid id ledger Hl), Hl. congruence.
Qed.

Lemma wp_recover_ledger ctx w :
  Own w ->
  wp (recover_ledger config deps fuel ctx)
     (fun e w' => Own w' /\ ident (w_cur w') = ident (w_cur w) /\
                  (e = None -> durable w' /\ lg_CleanupComplete (w_cur w') = true)) Inv w.
Proof.
  intros Hw. set (J := fun w' => Own w' /\ ident (w_cur w') = ident (w_cur w)).
  assert (step_inv config J) as HI
    by (apply step_inv_and; [by apply step_inv_owner|apply step_inv_ident]).
  eapply (wp_and_keeps J); [by apply (keeps_recover_ledger config)|done|apply post_recover_ledger| |].
  - intros e w' [? ?] ?. auto.
  - by intros w' [[? _] _].
Qed.

Lemma wp_reconcile_incomplete ctx orphan ledger w :
  Inv w -> owner (with_cur (fun _ => ledger) w) ->
  wp (reconcile_incomplete config deps fuel ctx orphan ledger)
     (fun e w' => Inv w' /\ (e = None -> all_complete w')) Inv w.
Proof.
  intros Hw Hown. unfold reconcile_incomplete. apply wp_bind, wp_modify.
  set (w1 := with_cur _ w). assert (Own w1) as Hw1 by (split; [by apply inv_cur|done]).
  pose proof (proj1 Hw1) as Hi1. destruct orphan as [o|].
  - destruct (negb _) eqn:Hlease; [done|]. bsplit. apply String.eqb_eq in Hlease.
    apply wp_bind. eapply wp_mono; [by apply wp_recover_ledger| |done].
    intros [e|] w2 ((Hw2 & Ho2) & Hid2 & Hd2); [done|]. destruct (Hd2 eq_refl) as [Hdur Hcc].
    pose proof (durable_complete _ Ho2 Hdur Hcc) as Hall.
    eapply wp_mono; [apply wp_releaseOrphan; [done..|]| |done].
    { destruct Hdur as [Hdur _]. exists (lg_RequestID (w_cur w2)), (w_cur w2). split; [done|].
      by rewrite (ident_LeaseID _ _ Hid2). }
    intros e w3 [? Hd3]. split; [done|]. unfold all_complete. by rewrite Hd3.
  - apply wp_bind.
    eapply wp_mono; [apply (keeps_acquire_lease config); [by apply step_inv_owner|done]| |by intros ? []].
    intros [e|] w2 Hw2; [by destruct Hw2|]. apply wp_bind.
    eapply wp_mono; [by apply wp_recover_ledger| |done].
    intros [e|] w3 (Hw3 & _ & Hd3).
    + apply wp_bind. eapply wp_mono;
        [apply (keeps_abandon_lease config); [by apply step_inv_owner|done]| |by intros ? []].
      by intros _ w4 [? _].
    + destruct (Hd3 eq_refl) as [Hdur Hcc], Hw3 as [Hw3 Ho3].
      eapply wp_mono; [apply wp_release_lease; [done|by left|done]| |done].
      intros e w4 (? & Hd4 & _). split; [done|]. intros _. unfold all_complete. rewrite Hd4.
      by apply durable_complete.
Qed.

Lemma wp_reconcileStartup ctx w :
  Inv w ->
  wp (reconcileStartup config deps fuel ctx)
     (fun e w' => Inv w' /\ (e = None -> all_complete w')) Inv w.
Proof.
  intros Hw. unfold reconcileStartup. apply wp_bind.
  apply (wp_keeps Inv _ _ _ _ (observes_List deps Inv inv_ext) Hw (wp_List w)).
  intros [ls|e] w1 Hw1 [Hq1 Hls]; [|done]. specialize (Hls ls eq_refl). destruct Hq1 as (Hd1 & _).
  apply wp_bind; quietly; [|by eauto using inv_quiet]. intros r w2 Hq2.
  pose proof (inv_quiet _ _ Hw1 Hq2) as Hw2. destruct Hq2 as (Hd2 & _). rewrite Hd1 in Hd2.
  destruct r as [orphan|e]; [|done].
  destruct (scan_ledgers _ _ _ _) as [[matched inc]|e] eqn:Hscan; [|done].
  apply scan_ledgers_spec in Hscan as (-> & _ & Hinc & Hrest).
  destruct (_ && negb _) eqn:Hm; [done|]. destruct inc as [ledger|].
  - destruct (Hinc ledger eq_refl eq_refl) as [[id Hid]%Hls Hc].
    apply wp_reconcile_incomplete; [done|]. rewrite <- Hd2 in Hid. apply (owner_ledger w2 id); [done..|].
    intros i l Hi Hci. destruct (Hrest l); [apply Hls; rewrite <- Hd2; eauto|done|congruence].
  - assert (all_complete w2) as Hall.
    { intros i l Hi. destruct (lg_CleanupComplete l) eqn:E; [done|].
      destruct (Hrest l); [apply Hls; rewrite <- Hd2; eauto|done|done]. }
    destruct orphan as [o|]; [|done].
    eapply wp_mono; [apply wp_releaseOrphan; [done..|]| |done].
    + cbn in Hm. bsplit. apply existsb_exists in Hm as (l & Hin%list_elem_of_In & Ho%String.eqb_eq).
      apply Hls in Hin as [i Hi]. rewrite <- Hd2 in Hi. eauto.
    + intros e w3 [? Hd3]. split; [done|]. unfold all_complete. by rewrite Hd3.
Qed.

(** *** The dispatch itself *)

(** The result is the one of [requestID]'s ledger, which is on disk as completed
    with its cleanup proved. *)
Definition completed_as (requestID : string) (replayed : bool) (r : Result) w : Prop :=
  exists l, w_disk w !! requestID = Some l /\ lg_Status l = StatusCompleted /\
    lg_CleanupComplete l = true /\ r = mkResult requestID (lg_RunID l) StatusCompleted replayed.

Lemma inv_dispatch w nonce d :
  Inv w -> fresh w -> on_disk w -> event_ok cfgs (EvDispatch (lg_RequestID (w_cur w)) nonce d) ->
  Inv (with_event (EvDispatch (lg_RequestID (w_cur w)) nonce d) w).
Proof.
  intros [] Hf Hd He. split; cbn; try done.
  - intros id. rewrite dispatched_snoc, elem_of_app, list_elem_of_singleton. intros [?| ->]; auto.
  - rewrite dispatched_snoc. apply NoDup_app. split_and!; [done| |apply NoDup_singleton].
    intros x Hx ->%list_elem_of_singleton. by apply Hf.
  - intros l. rewrite saves_snoc, app_nil_r. auto.
  - apply Forall_app. auto.
Qed.

Lemma wp_dispatchPrepared_own ctx request policy identity w :
  Own w -> fresh w -> lg_Nonce (w_cur w) = id_Nonce identity ->
  wp (dispatchPrepared config deps fuel driverInput ctx request policy identity) (fun _ => Own) Own w.
Proof.
  intros Hw Hf Hn. unfold dispatchPrepared. set (J := fun w' => Own w' /\ fresh w').
  assert (step_inv config J) as HJ
    by (apply step_inv_and; [by apply step_inv_owner|apply step_inv_fresh]).
  apply wp_bind, wp_modify, wp_bind.
  eapply (wp_and_keeps J); [by apply (keeps_transition config)|by apply (si_cur _ _ HJ)|
    apply wp_transition| |by intros ? []].
  - intros [e|] w1 [Hw1 Hf1] [[now Hc1] Hd1]; [done|].
    destruct (Hd1 eq_refl) as [Hdisk _]. apply wp_bind, wp_get, wp_bind, wp_modify.
    apply (keeps_after_dispatch config); [by apply step_inv_owner|]. destruct Hw1 as [Hi1 [Ho1 Ho2]]. split; [|by split].
    apply inv_dispatch; [done|done|by unfold on_disk; rewrite Hdisk|]. cbn.
    exists (w_cur w1). rewrite Hdisk, Hc1. by cbn.
Qed.

Lemma wp_dispatchPrepared_ident ctx request policy identity w :
  wp (dispatchPrepared config deps fuel driverInput ctx request policy identity)
     (fun _ w' => ident (w_cur w') = ident (w_cur w)) (fun _ => True) w.
Proof.
  pose proof (step_inv_ident (X:=X) config (ident (w_cur w))) as HI.
  unfold dispatchPrepared. apply wp_bind, wp_modify, wp_bind.
  eapply wp_mono; [by apply (keeps_transition config deps _ HI)| |done].
  intros [e|] w1 Hw1; [done|]. apply wp_bind, wp_get, wp_bind, wp_modify.
  eapply wp_mono; [by apply (keeps_after_dispatch config deps fuel driverInput _ HI)|done|done].
Qed.

Lemma wp_dispatch_with_lease ctx request policy identity w :
  Own w -> fresh w -> lg_Nonce (w_cur w) = id_Nonce identity -> lg_CleanupComplete (w_cur w) = false ->
  wp (dispatch_with_lease config deps fuel driverInput ctx request policy identity)
     (fun r w' => Inv w' /\ (snd r = None ->
        completed_as (lg_RequestID (w_cur w)) false (fst r) w')) Inv w.
Proof.
  intros Hw Hf Hn Hcc. pose proof (step_inv_owner (X:=X) cfgs config Hcfg) as HI.
  unfold dispatch_with_lease. apply wp_bind.
  pose proof (wp_conj _ _ _ _ _ _ (wp_dispatchPrepared_own ctx request policy identity w Hw Hf Hn)
    (wp_conj _ _ _ _ _ _
      (wp_dispatchPrepared config deps fuel driverInput ctx request policy identity w Hcc)
      (wp_dispatchPrepared_ident ctx request policy identity w))) as Hconj.
  eapply wp_mono; [exact Hconj| |by intros w' [[? ?] _]].
  intros [res e] w1 [[Hi1 Ho1] [[Hs1 Hok1] Hid1%ident_RequestID]]. cbn. apply wp_bind, wp_cur.
  destruct (lg_CleanupComplete (w_cur w1)) eqn:Hc1.
  - apply wp_bind. eapply wp_mono; [by apply wp_release_lease| |done].
    intros [re|] w2 (Hi2 & Hd2 & Hcur2).
    + assert (Own w2) as Hw2.
      { split; [done|]. destruct Ho1. by split; rewrite Hd2, Hcur2. }
      apply wp_bind, wp_modify, wp_bind.
      eapply wp_mono; [apply (keeps_transition config); [done|by apply (si_cur _ _ HI)]| |by intros ? []].
      intros e2 w3 [Hi3 _]. apply wp_return_with. split; [done|]. by destruct e.
    + apply wp_ret. split; [done|]. cbn. intros He. destruct (Hok1 He) as [([Hdur _] & Hst & _) Hres].
      exists (w_cur w1). rewrite Hd2, <- Hid1. by rewrite <- Hres.
  - apply wp_bind.
    eapply wp_mono; [by apply (keeps_abandon_lease config deps _ HI)| |by intros ? []].
    intros _ w2 [Hi2 _]. apply wp_ret. split; [done|]. cbn. intros ->.
    destruct (Hok1 eq_refl) as [(_ & _ & ?) _]. congruence.
Qed.

(** *** A fresh request *)

Lemma wp_acquire_lease ctx w :
  wp (acquire_lease config deps ctx) (fun _ w' => w_cur w' = w_cur w) (fun _ => True) w.
Proof.
  unfold acquire_lease. apply wp_bind, wp_cur, wp_bind, wp_modify. quietly; [|done].
  by intros e w' (_ & ? & _).
Qed.

Lemma wp_admit_request ctx request policy requestID trustedSHA identity w :
  Inv w -> all_complete w -> w_disk w !! requestID = None ->
  wp (admit_request config deps fuel driverInput ctx request policy requestID trustedSHA identity)
     (fun r w' => Inv w' /\ (snd r = None -> completed_as requestID false (fst r) w')) Inv w.
Proof.
  intros Hw Hall Hnone. unfold admit_request.
  apply wp_bind; quietly; [|by eauto using inv_quiet]. intros now w0 Hq0.
  pose proof (inv_quiet _ _ Hw Hq0) as Hw0. destruct Hq0 as (Hd0 & _).
  apply wp_bind, wp_modify. set (l := newLedger _ _ _ _ _ _). set (w1 := with_cur _ _).
  set (J := fun w' => Own w' /\ fresh w').
  assert (step_inv config J) as HJ
    by (apply step_inv_and; [by apply step_inv_owner|apply step_inv_fresh]).
  assert (J w1) as Hw1.
  { split; [split; [by apply inv_cur|split]|]; cbn.
    - rewrite Hd0. intros i li Hi Hc. by rewrite (Hall i li Hi) in Hc.
    - rewrite Hd0, Hnone. done.
    - intros [d Hd]%(inv_dispatched _ _ Hw0). cbn in Hd. by rewrite Hd0, Hnone in Hd. }
  assert (forall w', J w' -> Inv w') as Hproj by (by intros w' [[? _] _]).
  apply wp_bind.
  eapply (wp_and_keeps J); [by apply (keeps_save_cur config)|done|apply wp_save_cur| |exact Hproj].
  intros [e|] w2 Hw2 [Hc2 _]; [split; [by apply Hproj|done]|]. apply wp_bind.
  eapply (wp_and_keeps J); [by apply (keeps_acquire_lease config)|done|apply wp_acquire_lease| |exact Hproj].
  intros [e|] w3 Hw3 Hc3; rewrite Hc2 in Hc3.
  - apply wp_bind, wp_modify. unfold finishWithoutLease. apply wp_bind.
    eapply wp_mono; [apply (keeps_transition config); [exact HJ|by apply (si_cur _ _ HJ)]| |exact Hproj].
    intros e' w4 Hw4. apply wp_return_with. split; [by apply Hproj|]. by destruct e'.
  - destruct Hw3. eapply wp_mono; [apply wp_dispatch_with_lease; [done|done|by rewrite Hc3..]| |done].
    rewrite Hc3. done.
Qed.

Lemma wp_replay id request w :
  wp (replay deps id request)
     (fun r w' => quiet w w' /\ (r = None -> w_disk w !! id = None) /\
        forall res, r = Some (res, None) -> completed_as id true res w) (fun _ => True) w.
Proof.
  unfold replay. eapply post_seq with (Q' := fun r w' => quiet w w' /\
    (r = Ok None -> w_disk w !! id = None) /\ forall l, r = Ok (Some l) -> w_disk w !! id = Some l).
  { unfold Load. destruct (negb _); [done|]. apply wp_bind; quietly; [|done].
    intros [e|] w1 Hq; [done|]. apply wp_bind, wp_get. pose proof Hq as (Hd & _).
    destruct (w_disk w1 !! id) eqn:Hl; [|apply wp_ret; split_and!; [done|congruence|done]].
    destruct (validateLedger _ _); apply wp_ret; split_and!; [done..|].
    intros ? [= <-]. congruence. }
  intros [[l|]|e] w1 (Hq & Hnone & Hl).
  - specialize (Hl l eq_refl). destruct (negb _); [done|].
    destruct (bool_decide _ && _) eqn:Hc; [|done]. bsplit.
    apply wp_ret. split_and!; [done..|]. intros res [= <-]. exists l. split_and!; [done..|]. congruence.
  - apply wp_ret. split_and!; [done|intros _; by apply Hnone|done].
  - done.
Qed.

Lemma wp_dispatch_locked ctx request policy w :
  Inv w ->
  wp (dispatch_locked config deps fuel sha256 driverInput ctx request policy)
     (fun r w' => Inv w' /\ (snd r = None ->
        exists replayed, completed_as (RequestID sha256 request) replayed (fst r) w')) Inv w.
Proof.
  intros Hw. unfold dispatch_locked. apply wp_bind.
  eapply wp_mono; [by apply wp_reconcileStartup| |done]. intros [e|] w1 [Hw1 Hall1]; [done|].
  specialize (Hall1 eq_refl). apply wp_bind.
  eapply (wp_and_keeps Inv); [by apply observes_replay, inv_ext|done|apply wp_replay| |done].
  intros [[res e]|] w2 Hw2 (Hq2 & Hnone & Hres); pose proof Hq2 as (Hd2 & _).
  { apply wp_ret. split; [done|]. cbn. intros ->. destruct (Hres res eq_refl) as (l & Hl).
    exists true, l. by rewrite Hd2. }
  specialize (Hnone eq_refl). apply wp_bind, wp_quiet; [intros; by apply observes_verifyAuthority| |by eauto using inv_quiet].
  intros [sha|e] w3 Hq3; pose proof (inv_quiet _ _ Hw2 Hq3) as Hw3; [|done].
  apply wp_bind; quietly; [|by eauto using inv_quiet].
  intros [bytes|e] w4 Hq4; pose proof (inv_quiet _ _ Hw3 Hq4) as Hw4; [|done].
  apply wp_bind; quietly; [|by eauto using inv_quiet].
  intros [[]|e] w5 Hq5; pose proof (inv_quiet _ _ Hw4 Hq5) as Hw5; [done| |done].
  destruct Hq3 as (Hd3 & _), Hq4 as (Hd4 & _), Hq5 as (Hd5 & _).
  eapply wp_mono; [apply wp_admit_request; [done| |]| |done].
  - intros i l. rewrite Hd5, Hd4, Hd3, Hd2. by apply Hall1.
  - by rewrite Hd5, Hd4, Hd3, Hd2.
  - intros r w6 [Hw6 Hok]. split; [done|]. eauto.
Qed.

Lemma wp_Dispatch ctx request w :
  Inv w ->
  wp (Dispatch config deps fuel sha256 driverInput ctx request)
     (fun r w' => Inv w' /\ (snd r = None ->
        exists replayed, completed_as (RequestID sha256 request) replayed (fst r) w')) Inv w.
Proof.
  intros Hw. unfold Dispatch. destruct (Policy _ _) as [policy|]; [|done].
  destruct (ValidateRequest _ _); [done|].
  apply wp_bind, wp_quiet; [intros; by apply observes_Preflight| |by eauto using inv_quiet].
  intros [e|] w1 Hq1; pose proof (inv_quiet _ _ Hw Hq1) as Hw1; [done|].
  apply wp_bind; quietly; [|by eauto using inv_quiet].
  intros [e|] w2 Hq2; pose proof (inv_quiet _ _ Hw1 Hq2) as Hw2; [done|].
  apply wp_bind; quietly; [|by eauto using inv_quiet].
  intros c w3 Hq3; pose proof (inv_quiet _ _ Hw2 Hq3) as Hw3.
  apply wp_bind; quietly; [|by eauto using inv_quiet].
  intros [e|] w4 Hq4; pose proof (inv_quiet _ _ Hw3 Hq4) as Hw4; [done|].
  apply wp_bind. eapply wp_mono; [by apply wp_dispatch_locked| |done].
  intros r w5 [Hw5 Hok]. apply wp_bind; quietly; [|by eauto using inv_quiet].
  intros _ w6 Hq6. apply wp_ret. split; [by eapply inv_quiet|]. intros Hr.
  destruct (Hok Hr) as (replayed & l & Hl). exists replayed, l. destruct Hq6 as (-> & _). done.
Qed.
End admission.

(** ** Reachable worlds *)

(** Between invocations the outside world moves on and the memory of the process
    is lost; an operator may remove leftover temporary files. *)
Inductive reachable {Ctx X} `{SortSlice} (sha256 : string -> list Z)
    (driverInput : string -> list Z -> list Z) (cfgs : Config -> Prop) : World X -> Prop :=
  | reach_init cur x : reachable sha256 driverInput cfgs (mkWorld ∅ 0%nat cur [] x)
  | reach_between w n cur x :
      reachable sha256 driverInput cfgs w -> (n <= w_temps w)%nat ->
      reachable sha256 driverInput cfgs (mkWorld (w_disk w) n cur (w_log w) x)
  | reach_dispatch w config (deps : Deps Ctx X) fuel ctx request :
      reachable sha256 driverInput cfgs w -> cfgs config ->
      reachable sha256 driverInput cfgs
        (snd (Dispatch config deps fuel sha256 driverInput ctx request w)).

Lemma reachable_inv {Ctx X} `{SortSlice} sha256 driverInput cfgs (w : World X) :
  reachable (Ctx:=Ctx) sha256 driverInput cfgs w -> inv cfgs w.
Proof.
  induction 1 as [cur x|w n cur x _ IH _|w config deps fuel ctx request _ IH Hcfg].
  - split; cbn; try done; try (by intros ? ?%not_elem_of_nil); constructor.
  - destruct IH. by split.
  - apply wp_any. eapply wp_mono; [by apply wp_Dispatch|by intros ? ? [? _]|done].
Qed.
