(* ===== verification/JitContract.v ===== *)
(** * internal/jitdispatcher: a concrete environment

    A small GitHub, Guard broker, isolation driver and file system on which
    [Dispatch] can be evaluated.  The witnesses of the theorems run in it. *)

From S2P Require Import Prelude GoStrings Regex JitTypes JitConfig JitState JitRunner JitDispatcher JitInvariants JitSafety.

Local Open Scope string_scope.
Local Open Scope list_scope.
Local Open Scope Z_scope.

Module Demo.

(** What the outside remembers: the receipts the driver has written, the refs and
    renames it has answered, whether the run was cancelled and the runner deleted,
    and how often the dispatcher has slept. *)
Record Ext := mkExt {
  receipts : nat; resolved : nat; renames : nat; cancelled : bool; deleted : bool;
  polls : nat }.

(** The faults to inject. *)
Record Faults := mkFaults {
  candidate_moves : bool;        (* the candidate ref moves while the job runs *)
  fail_rename_after : option nat; (* renames fail once this many refs were resolved *)
  crash_rename : option nat;     (* the process is killed at this rename *)
  job_fails : bool;              (* the driver does not prove readiness *)
  jit_ambiguous : bool;          (* the runner is created but the answer is lost *)
  guard_lease : option LeaseMarker; (* the lease the Guard broker still holds *)
}.

Definition no_faults : Faults := mkFaults false None None false false None.

Definition hex64 (c : string) : string := Join (repeat c 64) "".
Definition sha_a : string := Join (repeat "a" 40) "".
Definition sha_b : string := Join (repeat "b" 40) "".
Definition sha_c : string := Join (repeat "c" 40) "".

(** A stand-in digest: 32 copies of a checksum byte. *)
Definition digest (s : string) : list Z := repeat (Z.of_nat (String.length s) `mod` 256) 32.
Definition driver_input (lease : string) (secret : list Z) : list Z := secret.

Definition workflow_text : string := "jobs:".
Definition policy : RepositoryPolicy :=
  mkPolicy "acme/app" "refs/heads/main" ".github/workflows/civm.yml"
           (EncodeToString (digest workflow_text)) ["refs/heads/feature"] 3 "isolated".

Definition config : Config :=
  mkConfig "https://api.github.com" SupportedAPIVersion "/var/lib/civm/jit" "/srv/runner"
    "/usr/local/bin/guard" "/usr/local/bin/driver" (hex64 "d") (hex64 "e")
    Minute Second Second Second Minute Hour Second Minute [policy].

Definition request : Request := mkRequest "acme/app" "refs/heads/feature" sha_b "retry-key-00000001".

Definition random_bytes : list Z := repeat 171 32.
Definition identity : Identity := NewIdentity random_bytes.
Definition nonce : string := id_Nonce identity.

Definition returns {A} (a : A) : op Ext A := fun x => (Some a, x).

Definition isolation_id : string := "isolation-000000000001".
Definition ready : IsolationReceipt :=
  mkIsoReceipt 1 "ready" nonce isolation_id (cfg_BaseImageSHA256 config) true false false false false false.
Definition destroyed : IsolationReceipt :=
  mkIsoReceipt 1 "destroyed" nonce isolation_id (cfg_BaseImageSHA256 config) true false false false true true.

Definition process : ProcessIdentity := mkProcess 41 977 41 ("/sys/fs/cgroup/civm.slice/civm-jit-" +:+ nonce).

(** The run is finished once the driver has written its second receipt. *)
Definition finished (x : Ext) : bool := (2 <=? receipts x)%nat || cancelled x.

Definition the_run (x : Ext) : WorkflowRun :=
  mkRun 7 "workflow_dispatch" sha_a ("CIVM JIT " +:+ nonce) ".github/workflows/civm.yml@main"
    (if finished x then "completed" else "queued") (if finished x then "success" else "").
Definition the_job (x : Ext) : WorkflowJob :=
  if finished x
  then mkJob 11 7 "isolated" "completed" "success" [id_Label identity] 13 (id_RunnerName identity) 3
  else mkJob 11 7 "isolated" "queued" "" [id_Label identity] 0 "" 0.
Definition the_runner : RemoteRunner :=
  mkRunner 13 (id_RunnerName identity) "offline" false
    [mkLabel "Self-Hosted" "read-only"; mkLabel (id_Label identity) "custom"].

Definition driver (f : Faults) : DriverOps unit Ext :=
  mkDriverOps unit Ext
    (fun _ _ => returns None) (fun _ => returns None) (fun _ => returns None)
    (fun _ _ => returns None) (returns None) (fun _ => returns None) (returns None) (returns None)
    (returns None) (fun _ => returns (Ok process)) (fun _ _ => returns None) (fun _ => returns None)
    (returns (Some None)) (fun _ => returns None)
    (fun _ x => (Some (Ok (if job_fails f then destroyed
                          else if (receipts x =? 0)%nat then ready else destroyed)),
                 mkExt (S (receipts x)) (resolved x) (renames x) (cancelled x) (deleted x) (polls x)))
    (fun _ => returns None) (returns None) (fun _ => returns (inl None)) (returns None).

Definition rename (f : Faults) : op Ext err_ret := fun x =>
  let x' := mkExt (receipts x) (resolved x) (S (renames x)) (cancelled x) (deleted x) (polls x) in
  if bool_decide (crash_rename f = Some (renames x)) then (None, x')
  else if match fail_rename_after f with Some n => (n <=? resolved x)%nat | None => false end
  then (Some (Some (Errorf "rename: no space left on device")), x')
  else (Some None, x').

Definition store (f : Faults) : StoreIO Ext :=
  mkStoreIO Ext (fun _ => None) (returns None) (returns None) (returns None) (returns None)
    (returns None) (rename f) (returns None) (returns None) (returns None)
    (fun _ => returns None) (fun id => returns (Ok ("/var/lib/civm/jit/logs/" +:+ id))).

Definition resolve_ref (f : Faults) (ref : string) : op Ext (result string) := fun x =>
  let x' := mkExt (receipts x) (S (resolved x)) (renames x) (cancelled x) (deleted x) (polls x) in
  if String.eqb ref "refs/heads/main" then (Some (Ok sha_a), x')
  else (Some (Ok (if candidate_moves f && finished x then sha_c else sha_b)), x').

(** Every context allows five polls. *)
Definition sleep : op Ext err_ret := fun x =>
  if (polls x <? 5)%nat
  then (Some None, mkExt (receipts x) (resolved x) (renames x) (cancelled x) (deleted x) (S (polls x)))
  else (Some (Some (Errorf_s DeadlineExceeded "context deadline exceeded")), x).
Definition polls_left (_ : unit) (x : Ext) : nat := 5 - polls x.

Definition deps (f : Faults) : Deps unit Ext :=
  mkDeps unit Ext tt (fun _ _ => returns tt) (fun _ => returns None) (returns 1000) (fun _ _ => sleep)
    (fun _ _ => returns (Ok "main")) (fun _ _ ref => resolve_ref f ref)
    (fun _ _ _ _ => returns (Ok workflow_text))
    (fun _ _ _ => returns (Ok false)) (fun _ _ _ _ _ => returns (Ok (mkReceipt 7 "" "")))
    (fun _ _ _ x => (Some (Ok (the_run x)), x)) (fun _ _ _ x => (Some (Ok [the_job x]), x))
    (fun _ _ _ x => (Some (Ok (the_job x)), x))
    (fun _ _ _ _ => returns (if jit_ambiguous f then Err (Errorf_s ErrAmbiguous "connection reset")
                             else Ok (mkRegistration (Some (repeat 65 32)) the_runner)))
    (fun _ _ _ => returns (Ok (Some the_runner)))
    (fun _ _ _ x => (Some (Ok (if (2 <=? receipts x)%nat || deleted x then None else Some the_runner)), x))
    (fun _ _ _ x => (Some None, mkExt (receipts x) (resolved x) (renames x) (cancelled x) true (polls x)))
    (fun _ _ _ x => (Some None, mkExt (receipts x) (resolved x) (renames x) true (deleted x) (polls x)))
    (fun _ => returns None) (fun _ _ _ => returns None) (fun _ _ => returns None)
    (fun _ => returns None) (returns (Ok (guard_lease f))) (fun _ _ => returns None)
    (returns (Ok random_bytes)) (fun _ _ _ => returns None) (returns None) (store f) (driver f).

#[export] Instance sort_instance : SortSlice := SortSlice_insertion.

Definition no_ledger : Ledger := newLedger 0 "" request policy "" (mkIdentity "" "" "" "").
Definition init : World Ext := mkWorld ∅ 0%nat no_ledger [] (mkExt 0 0 0 false false 0).

Definition dispatch (f : Faults) (w : World Ext) : outcome (Result * err_ret) * World Ext :=
  Dispatch config (deps f) 10%nat digest driver_input tt request w.

Definition tags (log : list event) : list string :=
  (fun e => match e with
            | EvSaved _ => "saved" | EvDispatch _ _ _ => "dispatch" | EvGenerateJIT _ _ => "jit"
            | EvStartDriver _ _ => "driver" | EvSecretSent _ _ => "secret"
            | EvCancelRun _ _ => "cancel" | EvDeleteRunner _ _ => "delete"
            | EvAcquire _ => "acquire" | EvRelease _ _ => "release" | EvAbandon _ => "abandon"
            | EvReleaseOrphan _ _ => "release-orphan"
            end) <$> log.

(** A request that runs to completion; one whose candidate moves while the disk
    fills up; one killed at the rename of its first save; one whose JIT runner has
    to be cancelled and removed; and a second invocation after each of them. *)
Definition moved_and_full : Faults := mkFaults true (Some 3%nat) None false false None.
Definition killed_at_rename (n : nat) : Faults := mkFaults false None (Some n) false false None.
Definition lost_answer : Faults := mkFaults false None None false true None.

Definition holding_lease : Faults :=
  mkFaults false None None false false (Some (mkMarker 1 nonce "admission" 0 0)).

(** The next invocation finds no temporary files and no memory of the last one. *)
Definition restart (w : World Ext) : World Ext := mkWorld (w_disk w) 0%nat no_ledger (w_log w) (w_ext w).

Definition completed_world : World Ext := snd (dispatch no_faults init).
Definition cancelled_world : World Ext := snd (dispatch lost_answer init).
Definition killed_world : World Ext := snd (dispatch (killed_at_rename 3) init).
Definition recovered_world : World Ext := snd (dispatch holding_lease (restart killed_world)).
Definition all_configs (c : Config) : Prop := True.

End Demo.

(** The worlds above are reachable. *)
Module DemoFacts.
Import Demo.

Abbreviation reached := (reachable (Ctx:=unit) digest driver_input all_configs).

Lemma reached_dispatch f w : reached w -> reached (snd (dispatch f w)).
Proof. intros. by apply reach_dispatch. Qed.

Lemma reached_init : reached init.
Proof. apply reach_init. Qed.

Lemma reached_completed : reached completed_world.
Proof. apply reached_dispatch, reached_init. Qed.

Lemma reached_cancelled : reached cancelled_world.
Proof. apply reached_dispatch, reached_init. Qed.

Lemma reached_killed : reached killed_world.
Proof. apply reached_dispatch, reached_init. Qed.

Lemma reached_restart w : reached w -> reached (restart w).
Proof. intros. apply reach_between; [done|lia]. Qed.

Lemma reached_recovered : reached recovered_world.
Proof. apply reached_dispatch, reached_restart, reached_killed. Qed.

(** Elements of a concrete log, by position. *)
Lemma nth_error_elem {A} (l : list A) n x : nth_error l n = Some x -> x ∈ l.
Proof. intros Hn%nth_error_In. by apply list_elem_of_In. Qed.
End DemoFacts.

(** * internal/jitdispatcher: the contract of the dispatcher

    The theorems about every reachable world of the dispatcher, each with an
    evaluated run of the concrete environment that exercises it. *)

Import Demo DemoFacts.

Local Open Scope string_scope.
Local Open Scope list_scope.
Local Open Scope Z_scope.

Section contract.
Context {Ctx X : Type} `{SortSlice}.
Context (sha256 : string -> list Z) (driverInput : string -> list Z -> list Z) (cfgs : Config -> Prop).
Context (w : World X).

Lemma logged (Hreach : reachable (Ctx:=Ctx) sha256 driverInput cfgs w) e : e ∈ w_log w -> event_ok cfgs e.
Proof.
  pose proof (inv_log _ _ (reachable_inv _ _ _ _ Hreach)) as Hlog.
  rewrite Forall_forall in Hlog. auto.
Qed.

(** C1. Whatever the requests, the crashes, the restarts and the answers of the
    outside world, the workflow of a request is dispatched at most once: no
    request identifier occurs twice among the dispatch effects. *)
Theorem dispatch_at_most_once
    (Hreach : reachable (Ctx:=Ctx) sha256 driverInput cfgs w) : NoDup (dispatched (w_log w)).
Proof. exact (inv_once _ _ (reachable_inv _ _ _ _ Hreach)). Qed.

(** C2. At most one request is unfinished on disk, so the scan of the ledgers at
    startup never raises its "multiple incomplete ledgers" alarm. *)
Theorem single_unfinished_request
    (Hreach : reachable (Ctx:=Ctx) sha256 driverInput cfgs w) :
  (forall i j li lj, w_disk w !! i = Some li -> w_disk w !! j = Some lj ->
     lg_CleanupComplete li = false -> lg_CleanupComplete lj = false -> i = j) /\
  (forall orphan, exists matched incomplete,
     scan_ledgers orphan false None (snd <$> map_to_list (w_disk w)) = Ok (matched, incomplete)).
Proof.
  pose proof (inv_single _ _ (reachable_inv _ _ _ _ Hreach)) as Hs. split; [exact Hs|].
  intros orphan. apply scan_ledgers_total.
  intros n m ln lm Hn Hm Hcn Hcm. rewrite list_lookup_fmap in Hn, Hm.
  destruct (map_to_list (w_disk w) !! n) as [[i li]|] eqn:Ei; [|done].
  destruct (map_to_list (w_disk w) !! m) as [[j lj]|] eqn:Ej; [|done]. cbn in *. simplify_eq.
  pose proof (list_elem_of_lookup_2 _ _ _ Ei) as Hi%elem_of_map_to_list.
  pose proof (list_elem_of_lookup_2 _ _ _ Ej) as Hj%elem_of_map_to_list.
  pose proof (Hs i j ln lm Hi Hj Hcn Hcm). subst j.
  eapply (NoDup_lookup (map_to_list (w_disk w)).*1 n m i);
    [apply NoDup_fst_map_to_list|by rewrite list_lookup_fmap, Ei|by rewrite list_lookup_fmap, Ej].
Qed.

(** C3. Write-ahead intents.  When the workflow of a request is dispatched, the ledger
    on disk already says so: it carries the nonce sent to GitHub, its status is
    [StatusDispatching] and its run is not terminal, so that a crash at any later point
    is seen by the next startup.  Likewise a JIT runner is only requested from GitHub
    when the ledger on disk already records that a runner may exist. *)
Theorem intents_are_durable
    (Hreach : reachable (Ctx:=Ctx) sha256 driverInput cfgs w) :
  (forall id nonce durable, EvDispatch id nonce durable ∈ w_log w ->
     exists l, durable = Some l /\ lg_RequestID l = id /\ lg_Nonce l = nonce /\
       lg_Status l = StatusDispatching /\ lg_RunTerminal l = false) /\
  (forall id durable, EvGenerateJIT id durable ∈ w_log w ->
     exists l, durable = Some l /\ lg_RunnerGone l = false).
Proof.
  split; [intros id nonce durable; apply (logged Hreach (EvDispatch id nonce durable))|].
  by intros id durable (config & _ & Hj)%(logged Hreach).
Qed.

(** C4. The Guard lease of a request is only released when the run is terminal, the
    runner is gone and the isolation is destroyed, and the ledger on disk says so too;
    the one exception is the [StatusStale] exit.  A lease found at startup is only
    released when at least one ledger on disk owns it and every ledger that owns it has
    its cleanup proved. *)
Theorem leases_released_only_after_cleanup
    (Hreach : reachable (Ctx:=Ctx) sha256 driverInput cfgs w) :
  (forall l durable, EvRelease l durable ∈ w_log w ->
     lg_RunTerminal l = true /\ lg_RunnerGone l = true /\ lg_IsolationGone l = true /\
     (lg_Status l = StatusStale \/ durable = Some l)) /\
  (forall lease ledgers, EvReleaseOrphan lease ledgers ∈ w_log w ->
     ledgers <> [] /\ Forall (fun l => lg_LeaseID l = lease /\ lg_CleanupComplete l = true) ledgers).
Proof.
  split; [|intros lease ledgers; apply (logged Hreach (EvReleaseOrphan lease ledgers))].
  intros l durable (_ & Hp & Hd)%(logged Hreach). unfold proofs_complete in Hp. by bsplit.
Qed.

(** C5. The dispatcher only touches what is its own.  A run is only cancelled after it
    was read back, in a state that can be cancelled, with the event, commit, title (with
    the nonce of the ledger) and workflow path of the request it was dispatched for.  A
    runner is only deleted after it was read back with the identifier and name of the
    ledger and with its label as the only matching custom label. *)
Theorem touches_only_its_own_run_and_runner
    (Hreach : reachable (Ctx:=Ctx) sha256 driverInput cfgs w) :
  (forall l run, EvCancelRun l run ∈ w_log w ->
     exists config policy, cfgs config /\ Policy config (lg_Repository l) = Some policy /\
       run_Event run = "workflow_dispatch" /\ run_HeadSHA run = lg_TrustedSHA l /\
       run_DisplayTitle run = "CIVM JIT " +:+ lg_Nonce l /\
       run_Path run = pol_Workflow policy +:+ "@" +:+ TrimPrefix (pol_TrustedRef policy) "refs/heads/" /\
       run_Status run ∈ ["queued"; "in_progress"; "pending"; "waiting"; "requested"]) /\
  (forall l runner, EvDeleteRunner l runner ∈ w_log w ->
     rr_ID runner = lg_RunnerID l /\ rr_Name runner = lg_RunnerName l /\
     length (List.filter (custom_label (lg_RunnerLabel l)) (rr_Labels runner)) = 1%nat).
Proof.
  split.
  - intros l run (config & Hcfg & policy & Hp & Hid & Hst)%(logged Hreach). exists config, policy.
    unfold validateRunIdentity, nonterminalStatus in *. bsplit.
    repeat match goal with H : String.eqb _ _ = true |- _ => apply String.eqb_eq in H end.
    by split_and!.
  - intros l runner (config & _ & Hid & Hm)%(logged Hreach).
    unfold runner_matches, runnerHasLabel in Hm. bsplit.
    split_and!; [done|by apply String.eqb_eq|done].
Qed.

(** C12. The JIT secret is only handed to an isolation driver that has proved, for
    this lease, a disposable environment on the pinned base image, without host
    mounts, host Docker or product secrets. *)
Theorem secret_only_after_ready_proof
    (Hreach : reachable (Ctx:=Ctx) sha256 driverInput cfgs w) lease ready :
  EvSecretSent lease ready ∈ w_log w ->
  (exists config, cfgs config /\ ir_BaseSHA256 ready = cfg_BaseImageSHA256 config) /\
  ir_Event ready = "ready" /\ ir_LeaseID ready = lease /\ safeOpaqueID (ir_IsolationID ready) = true /\
  ir_Disposable ready = true /\ ir_HostMounts ready = false /\ ir_HostDocker ready = false /\
  ir_ProductSecrets ready = false /\ ir_Destroyed ready = false.
Proof.
  intros (config & Hcfg & Hr)%(logged Hreach). cbn in Hr. unfold validReadyReceipt in Hr. bsplit.
  repeat match goal with H : String.eqb _ _ = true |- _ => apply String.eqb_eq in H end.
  split_and!; eauto.
Qed.

(** Whatever is saved under a request identifier carries the same
    repository, refs, commits, workflow, nonce, lease and creation time for ever. *)
Theorem saved_identity_is_immutable
    (Hreach : reachable (Ctx:=Ctx) sha256 driverInput cfgs w) l1 l2 :
  l1 ∈ saves (w_log w) -> l2 ∈ saves (w_log w) -> lg_RequestID l1 = lg_RequestID l2 ->
  ident l1 = ident l2.
Proof.
  intros (d1 & Hd1 & <-)%(inv_saved _ _ (reachable_inv _ _ _ _ Hreach))
    (d2 & Hd2 & <-)%(inv_saved _ _ (reachable_inv _ _ _ _ Hreach)) E. congruence.
Qed.

(** Every ledger on disk can be loaded again: [Load] returns exactly the
    ledger stored under the identifier, whenever the file can be read. *)
Theorem stored_ledger_loads
    (Hreach : reachable (Ctx:=Ctx) sha256 driverInput cfgs w) io id l :
  w_disk w !! id = Some l -> (forall x, exists x', io_ReadFile io id x = (Some None, x')) ->
  fst (Load io id w) = Ret (Ok (Some l)).
Proof.
  intros Hl Hio. pose proof (inv_valid _ _ (reachable_inv _ _ _ _ Hreach) id l Hl) as Hv.
  unfold Load. assert (MatchString requestIDRE id = true) as ->.
  { rewrite <- (validateLedger_RequestID _ _ Hv). apply validateLedger_iff in Hv. bsplit.
    unfold lv_identity in *. by bsplit. }
  cbn. unfold mbind, M_bind, lift. destruct (Hio (w_ext w)) as [x' ->].
  cbn. rewrite Hl, Hv. done.
Qed.

(** [Dispatch] returns a nil error only when the ledger of the request is on
    disk with status [StatusCompleted] and its cleanup proved; the result it
    returns is the one of that ledger. *)
Theorem dispatch_success_is_durable
    (Hreach : reachable (Ctx:=Ctx) sha256 driverInput cfgs w) config (deps : Deps Ctx X) fuel ctx request res w' :
  cfgs config ->
  Dispatch config deps fuel sha256 driverInput ctx request w = (Ret (res, None), w') ->
  exists l, w_disk w' !! RequestID sha256 request = Some l /\ lg_Status l = StatusCompleted /\
    lg_RunTerminal l = true /\ lg_RunnerGone l = true /\ lg_IsolationGone l = true /\
    res_RequestID res = RequestID sha256 request /\ res_RunID res = lg_RunID l /\
    res_Status res = StatusCompleted.
Proof.
  intros Hcfg Hrun. pose proof (reachable_inv _ _ _ _ Hreach) as Hinv.
  pose proof (wp_Dispatch cfgs config Hcfg deps fuel sha256 driverInput ctx request w Hinv) as Hwp.
  destruct (wp_run _ _ _ _ _ _ Hwp Hrun) as [Hinv' Hok].
  destruct (Hok eq_refl) as (replayed & l & Hl & Hst & Hcc & Hres). cbn in Hres. subst res. exists l. cbn.
  pose proof (validateLedger_proofs _ _ (inv_valid _ _ Hinv' _ _ Hl) Hcc) as Hp.
  unfold proofs_complete in Hp. bsplit. by split_and!.
Qed.
End contract.

(** The ledger [Dispatch] builds for an accepted request passes the
    validation of [Save]: with a policy and a request that were accepted, a commit
    of GitHub's format and 32 random bytes, nothing in it can be refused. *)
Theorem fresh_ledger_is_valid sha256 now request policy trustedSHA bytes :
  ValidateRequest request policy = None -> validatePolicy policy = None ->
  MatchString shaRE trustedSHA = true -> zero_time < now ->
  (forall s, length (sha256 s) = 32%nat /\ Forall is_byte (sha256 s)) ->
  length bytes = 32%nat -> Forall is_byte bytes ->
  let l := newLedger now (RequestID sha256 request) request policy trustedSHA (NewIdentity bytes) in
  validateLedger l (RequestID sha256 request) = None.
Proof.
  intros Hreq Hpol Hsha Hnow H256 Hlen Hbytes l.
  destruct (ValidateRequest_sound _ _ Hreq) as (Hrepo & _ & Hrepo' & Href & Hcand).
  destruct (validatePolicy_sound _ Hpol) as [Hwf Hdig].
  pose proof (NewIdentity_valid bytes Hlen Hbytes) as Hid.
  assert (MatchString requestIDRE (RequestID sha256 request) = true) as Hrid
    by (apply (hex64_digest (sha256 _)); apply H256).
  assert (lv_identity l (RequestID sha256 request) = true)
    by (unfold lv_identity, l; cbn [newLedger lg_Version lg_RequestID]; by rewrite String.eqb_refl, Hrid).
  assert (lv_request l = true).
  { unfold lv_request, l.
    cbn [newLedger lg_Repository lg_CandidateRef lg_CandidateSHA lg_TrustedSHA lg_Workflow lg_WorkflowSHA256].
    by rewrite Hrepo', Href, Hcand, Hsha, Hwf, Hdig. }
  assert (lv_lease l = true).
  { unfold lv_lease. change (validIdentity (NewIdentity bytes) &&
      String.eqb (EncodeToString bytes) (EncodeToString bytes) = true). by rewrite Hid, String.eqb_refl. }
  assert (lv_times l = true).
  { unfold lv_times, l. cbn [newLedger lg_CreatedAt lg_UpdatedAt lg_Status].
    rewrite Z.ltb_irrefl. assert ((now =? zero_time) = false) as -> by (apply Z.eqb_neq; lia). done. }
  apply validateLedger_iff. rewrite !andb_true_iff. split_and!; first [assumption | reflexivity].
Qed.

(** ** Witnesses *)

(** The completed run dispatches its request, and only once. *)
Lemma dispatch_at_most_once_witness :
  NoDup (dispatched (w_log completed_world)) /\
  dispatched (w_log completed_world) = [RequestID digest request].
Proof.
  split; [exact (dispatch_at_most_once _ _ _ _ reached_completed)|vm_compute; reflexivity].
Defined.

(** After a kill in the middle the request is the one unfinished ledger. *)
Lemma single_unfinished_request_witness :
  (exists l, w_disk killed_world !! RequestID digest request = Some l /\ lg_CleanupComplete l = false) /\
  forall orphan, exists matched incomplete,
    scan_ledgers orphan false None (snd <$> map_to_list (w_disk killed_world)) = Ok (matched, incomplete).
Proof.
  split; [eexists; split; vm_compute; reflexivity|].
  exact (proj2 (single_unfinished_request _ _ _ _ reached_killed)).
Defined.

Definition log_at (w : World Ext) (n : nat) : event := nth n (w_log w) (EvAcquire "").
Definition durable_of (e : event) : option Ledger :=
  match e with EvDispatch _ _ d => d | EvGenerateJIT _ d => d | EvRelease _ d => d | _ => None end.
Definition ledger_of (e : event) : Ledger :=
  match e with EvCancelRun l _ | EvDeleteRunner l _ | EvRelease l _ | EvSaved l => l | _ => no_ledger end.

(** The completed run dispatches and registers a runner. *)
Lemma intents_are_durable_witness :
  (exists l, durable_of (log_at completed_world 3) = Some l /\
    lg_RequestID l = RequestID digest request /\ lg_Nonce l = nonce /\
    lg_Status l = StatusDispatching /\ lg_RunTerminal l = false) /\
  (exists l, durable_of (log_at completed_world 7) = Some l /\ lg_RunnerGone l = false).
Proof.
  destruct (intents_are_durable _ _ _ _ reached_completed) as [Hdispatch Hjit]. split.
  - apply Hdispatch, (nth_error_elem _ 3). vm_compute. reflexivity.
  - apply (Hjit (RequestID digest request)), (nth_error_elem _ 7). vm_compute. reflexivity.
Defined.

(** The completed run releases its lease; the restart after a kill an orphaned one. *)
Lemma leases_released_only_after_cleanup_witness :
  (lg_RunTerminal (ledger_of (log_at completed_world 16)) = true /\
   lg_RunnerGone (ledger_of (log_at completed_world 16)) = true /\
   lg_IsolationGone (ledger_of (log_at completed_world 16)) = true /\
   (lg_Status (ledger_of (log_at completed_world 16)) = StatusStale \/
    durable_of (log_at completed_world 16) = Some (ledger_of (log_at completed_world 16)))) /\
  (let ledgers := match log_at recovered_world 10 with EvReleaseOrphan _ ls => ls | _ => [] end in
   ledgers <> [] /\ Forall (fun l => lg_LeaseID l = nonce /\ lg_CleanupComplete l = true) ledgers).
Proof.
  split.
  - apply (proj1 (leases_released_only_after_cleanup _ _ _ _ reached_completed)), (nth_error_elem _ 16).
    vm_compute. reflexivity.
  - apply (proj2 (leases_released_only_after_cleanup _ _ _ _ reached_recovered)), (nth_error_elem _ 10).
    vm_compute. reflexivity.
Defined.

(** The cancelled run cancels its workflow run and deletes its runner. *)
Lemma touches_only_its_own_run_and_runner_witness :
  (exists config policy, all_configs config /\
    Policy config (lg_Repository (ledger_of (log_at cancelled_world 9))) = Some policy /\
    run_Event (the_run (mkExt 0 0 0 false false 0)) = "workflow_dispatch" /\
    run_HeadSHA (the_run (mkExt 0 0 0 false false 0)) = lg_TrustedSHA (ledger_of (log_at cancelled_world 9)) /\
    run_DisplayTitle (the_run (mkExt 0 0 0 false false 0)) =
      "CIVM JIT " +:+ lg_Nonce (ledger_of (log_at cancelled_world 9)) /\
    run_Path (the_run (mkExt 0 0 0 false false 0)) =
      pol_Workflow policy +:+ "@" +:+ TrimPrefix (pol_TrustedRef policy) "refs/heads/" /\
    run_Status (the_run (mkExt 0 0 0 false false 0)) ∈
      ["queued"; "in_progress"; "pending"; "waiting"; "requested"]) /\
  (rr_ID the_runner = lg_RunnerID (ledger_of (log_at cancelled_world 12)) /\
   rr_Name the_runner = lg_RunnerName (ledger_of (log_at cancelled_world 12)) /\
   length (List.filter (custom_label (lg_RunnerLabel (ledger_of (log_at cancelled_world 12))))
             (rr_Labels the_runner)) = 1%nat).
Proof.
  destruct (touches_only_its_own_run_and_runner _ _ _ _ reached_cancelled) as [Hcancel Hdelete]. split.
  - apply Hcancel, (nth_error_elem _ 9). vm_compute. reflexivity.
  - apply Hdelete, (nth_error_elem _ 12). vm_compute. reflexivity.
Defined.

Lemma secret_only_after_ready_proof_witness :
  (exists config, all_configs config /\ ir_BaseSHA256 ready = cfg_BaseImageSHA256 config) /\
  ir_Event ready = "ready" /\ ir_LeaseID ready = nonce /\ safeOpaqueID (ir_IsolationID ready) = true /\
  ir_Disposable ready = true /\ ir_HostMounts ready = false /\ ir_HostDocker ready = false /\
  ir_ProductSecrets ready = false /\ ir_Destroyed ready = false.
Proof.
  apply (secret_only_after_ready_proof _ _ _ _ reached_completed).
  apply (nth_error_elem _ 13). vm_compute. reflexivity.
Defined.

Lemma saved_identity_is_immutable_witness :
  ident (ledger_of (log_at completed_world 0)) = ident (ledger_of (log_at completed_world 15)) /\
  lg_Status (ledger_of (log_at completed_world 0)) <> lg_Status (ledger_of (log_at completed_world 15)).
Proof.
  split; [|vm_compute; discriminate].
  apply (saved_identity_is_immutable _ _ _ _ reached_completed).
  - apply (nth_error_elem _ 0). vm_compute. reflexivity.
  - apply (nth_error_elem _ 10). vm_compute. reflexivity.
  - vm_compute. reflexivity.
Defined.

Lemma stored_ledger_loads_witness :
  fst (Load (store no_faults) (RequestID digest request) completed_world) =
  Ret (Ok (Some (ledger_of (log_at completed_world 15)))).
Proof.
  apply (stored_ledger_loads _ _ _ _ reached_completed).
  - vm_compute. reflexivity.
  - intros x. exists x. reflexivity.
Defined.

Lemma dispatch_success_is_durable_witness :
  exists l, w_disk completed_world !! RequestID digest request = Some l /\ lg_Status l = StatusCompleted /\
    lg_RunTerminal l = true /\ lg_RunnerGone l = true /\ lg_IsolationGone l = true /\
    RequestID digest request = RequestID digest request /\ 7 = lg_RunID l /\
    StatusCompleted = StatusCompleted.
Proof.
  apply (dispatch_success_is_durable _ _ _ _ reached_init config (deps no_faults) 10%nat tt request
           (mkResult (RequestID digest request) 7 StatusCompleted false) completed_world I).
  vm_compute. reflexivity.
Defined.

Lemma fresh_ledger_is_valid_witness :
  validateLedger (newLedger 1000 (RequestID digest request) request policy sha_a (NewIdentity random_bytes))
    (RequestID digest request) = None.
Proof.
  apply fresh_ledger_is_valid; try (vm_compute; reflexivity).
  - intros s. unfold digest. split; [by rewrite repeat_length|]. apply Forall_forall.
    intros b Hb%list_elem_of_In%repeat_spec. subst b. apply Z.mod_pos_bound. lia.
  - unfold random_bytes. apply Forall_forall. intros b Hb%list_elem_of_In%repeat_spec.
    subst b. unfold is_byte. lia.
Defined.
