(* ===== verification/JitLimits.v ===== *)
(** * internal/jitdispatcher: termination and limits

    The polling loops end before their context does, and so [Dispatch] ends; a leftover
    temporary file stops every later dispatch; and the [StatusStale] exit releases the lease of a
    ledger that is not complete on disk. *)

From S2P Require Import Prelude GoStrings Regex JitTypes JitConfig JitState JitRunner JitDispatcher JitInvariants JitSafety JitContract.
Import Demo DemoFacts.

Local Open Scope string_scope.
Local Open Scope list_scope.
Local Open Scope Z_scope.

(** ** Polling loops *)

(** What the loops rely on: [remaining ctx x] bounds how many more polls can
    succeed before the deadline of [ctx].  [Sleep] returns nil only when a whole
    interval has passed before the deadline, and no call turns time back. *)
Record Deadlines {Ctx X} (config : Config) (deps : Deps Ctx X) (remaining : Ctx -> X -> nat) : Prop := {
  dl_sleep : forall c x x', d_Sleep deps c (cfg_JobPollInterval config) x = (Some None, x') ->
    (remaining c x' < remaining c x)%nat;
  dl_get_run : forall c repo id x, (remaining c (snd (gh_GetRun deps c repo id x)) <= remaining c x)%nat;
  dl_list_jobs : forall c repo id x, (remaining c (snd (gh_ListJobs deps c repo id x)) <= remaining c x)%nat;
  dl_get_job : forall c repo id x, (remaining c (snd (gh_GetJob deps c repo id x)) <= remaining c x)%nat;
  dl_get_runner : forall c repo id x, (remaining c (snd (gh_GetRunner deps c repo id x)) <= remaining c x)%nat;
  dl_delete : forall c repo id x, (remaining c (snd (gh_DeleteRunner deps c repo id x)) <= remaining c x)%nat;
  dl_find : forall c repo label x,
    (remaining c (snd (gh_FindRunnerByLabel deps c repo label x)) <= remaining c x)%nat;
}.

(** [m] run from [w] does not stop for lack of fuel. *)
Definition ends {X A} (m : M (World X) A) (w : World X) : Prop := fst (m w) <> NoFuel.

Lemma ends_bind {X A B} (m : M (World X) A) (k : A -> M (World X) B) w :
  ends m w -> (forall a w', m w = (Ret a, w') -> ends (k a) w') -> ends (m ≫= k) w.
Proof.
  unfold ends, mbind, M_bind. intros Hm Hk. destruct (m w) as [[a| |] w'] eqn:E; try done. by apply Hk.
Qed.

Lemma ends_lift {X A B} (o : op X A) (k : A -> M (World X) B) w :
  (forall a w', fst (o (w_ext w)) = Some a -> w_ext w' = snd (o (w_ext w)) -> ends (k a) w') ->
  ends (lift o ≫= k) w.
Proof.
  intros Hk. unfold ends, mbind, M_bind, lift. destruct (o (w_ext w)) as [[a|] x]; [|done].
  by apply Hk.
Qed.

Lemma ends_cur {X B} (k : Ledger -> M (World X) B) w : ends (k (w_cur w)) w -> ends (cur ≫= k) w.
Proof. done. Qed.

Lemma ends_modify {X B} f (k : unit -> M (World X) B) w : ends (k tt) (f w) -> ends (modify f ≫= k) w.
Proof. done. Qed.

Lemma ends_ret {X A} (a : A) (w : World X) : ends (mret a) w.
Proof. done. Qed.

Create HintDb ends discriminated.
#[export] Hint Resolve ends_ret : ends.

(** Straight-line code ends. *)
Ltac ends_step :=
  match goal with
  | |- ends (mret _) _ => apply ends_ret
  | |- ends (lift _ ≫= _) _ => apply ends_lift; intros
  | |- ends (cur ≫= _) _ => apply ends_cur
  | |- ends (modify _ ≫= _) _ => apply ends_modify
  | |- ends (emit _ ≫= _) _ => apply ends_modify
  | |- ends (assign _ ≫= _) _ => apply ends_modify
  | |- ends ((_ ≫= _) ≫= _) _ => apply ends_bind; [|intros]
  | |- ends (match ?x with _ => _ end) _ => destruct x eqn:?
  | |- ends (if ?b then _ else _) _ => destruct b eqn:?
  end.

Section loops.
Context {Ctx X : Type} (config : Config) (deps : Deps Ctx X) (remaining : Ctx -> X -> nat).
Context (Hdl : Deadlines config deps remaining).
Implicit Types w : World X.

Lemma ends_last_lift {A} (o : op X A) w : ends (lift o) w.
Proof. unfold ends, lift. by destruct (o (w_ext w)) as [[]]. Qed.

Lemma ends_temp_steps (steps : list (op X err_ret)) w : ends (temp_steps steps) w.
Proof.
  revert w. induction steps as [|s steps IH]; intros w; cbn [temp_steps]; [done|].
  apply ends_lift. intros [e|] w' _ _; [done|apply IH].
Qed.

Lemma ends_save_cur w : ends (save_cur deps) w.
Proof.
  unfold save_cur, Save. apply ends_cur. destruct (validateLedger _ _); [done|].
  destruct (negb _); [done|]. destruct (io_Marshal _ _); [done|].
  apply ends_lift. intros [e|] w1 _ _; [done|]. apply ends_modify, ends_bind; [apply ends_temp_steps|].
  intros [e|] w2 _; [|apply ends_modify, ends_lift; intros [|]; done].
  apply ends_bind; [|done]. apply ends_lift. by intros [|].
Qed.
#[local] Hint Resolve ends_save_cur ends_last_lift : ends.

(** After one more poll there is less time left. *)
Lemma poll_less ctx (B : Type) (k : err_ret -> M (World X) B) n w :
  (remaining ctx (w_ext w) < S n)%nat -> (forall e w', ends (k (Some e)) w') ->
  (forall w', (remaining ctx (w_ext w') < n)%nat -> ends (k None) w') ->
  ends (poll_again config deps ctx ≫= k) w.
Proof.
  intros Hlt Herr Hok. unfold poll_again. apply ends_lift. intros [e|] w' Ho Hx; [done|].
  apply Hok. rewrite Hx. destruct (d_Sleep _ _ _ _) as [o x'] eqn:E. cbn in *. subst o.
  apply (dl_sleep _ _ _ Hdl) in E. lia.
Qed.

Lemma ends_wait_run_loop n ctx repo policy identity w :
  (remaining ctx (w_ext w) < n)%nat -> ends (wait_run_loop config deps n ctx repo policy identity) w.
Proof.
  revert w. induction n as [|n IH]; intros w Hlt; [lia|]. cbn [wait_run_loop].
  apply ends_cur, ends_lift. intros [run|e] w1 _ Hx; [by destruct (validateBoundRun _ _ _ _)|].
  destruct (negb _); [done|]. pose proof (dl_get_run _ _ _ Hdl ctx repo (lg_RunID (w_cur w)) (w_ext w)).
  apply (poll_less ctx _ _ n); [rewrite Hx; lia|done|apply IH].
Qed.

Lemma ends_wait_job_loop n ctx repo policy runID label w :
  (remaining ctx (w_ext w) < n)%nat -> ends (wait_job_loop config deps n ctx repo policy runID label) w.
Proof.
  revert w. induction n as [|n IH]; intros w Hlt; [lia|]. cbn [wait_job_loop].
  apply ends_lift. intros [[|j [|? ?]]|e] w1 _ Hx; [|by destruct (queued_job_ok _ _ _ _)|done|done].
  pose proof (dl_list_jobs _ _ _ Hdl ctx repo runID (w_ext w)).
  apply (poll_less ctx _ _ n); [rewrite Hx; lia|done|apply IH].
Qed.

Lemma ends_completion_loop n ctx repo policy identity w :
  (remaining ctx (w_ext w) < n)%nat -> ends (completion_loop config deps n ctx repo policy identity) w.
Proof.
  revert w. induction n as [|n IH]; intros w Hlt; [lia|]. cbn [completion_loop].
  apply ends_cur, ends_lift. intros [run|e] w1 _ Hx1; [|done]. destruct (negb _); [done|].
  apply ends_lift. intros [job|e] w2 _ Hx2; [|done].
  repeat first [done | ends_step].
  pose proof (dl_get_run _ _ _ Hdl ctx repo (lg_RunID (w_cur w)) (w_ext w)).
  pose proof (dl_get_job _ _ _ Hdl ctx repo (lg_JobID (w_cur w)) (w_ext w1)).
  apply (poll_less ctx _ _ n); [rewrite Hx2; rewrite Hx1 in *; lia|done|apply IH].
Qed.

Lemma ends_terminal_loop n ctx policy identity w :
  (remaining ctx (w_ext w) < n)%nat -> ends (terminal_loop config deps n ctx policy identity) w.
Proof.
  revert w. induction n as [|n IH]; intros w Hlt; [lia|]. cbn [terminal_loop].
  apply ends_cur, ends_lift. intros [run|e] w1 _ Hx1; [|done].
  repeat first [done | ends_step].
  pose proof (dl_get_run _ _ _ Hdl ctx (lg_Repository (w_cur w)) (lg_RunID (w_cur w)) (w_ext w)).
  apply (poll_less ctx _ _ n); [rewrite Hx1; lia|done|apply IH].
Qed.

Lemma ends_observe_loop n ctx observeCtx w :
  (remaining observeCtx (w_ext w) < n)%nat -> ends (observe_loop config deps n ctx observeCtx) w.
Proof.
  assert (forall e w', ends (observe_error deps ctx observeCtx e) w') as Herr.
  { intros e w'. unfold observe_error. repeat first [done | ends_step]. }
  revert w. induction n as [|n IH]; intros w Hlt; [lia|]. cbn [observe_loop].
  apply ends_cur, ends_lift. intros [[runner|]|e] w1 _ Hx; [| |apply Herr].
  { destruct (_ || _); [done|]. apply ends_modify. auto with ends. }
  pose proof (dl_find _ _ _ Hdl observeCtx (lg_Repository (w_cur w)) (lg_RunnerLabel (w_cur w)) (w_ext w)).
  apply (poll_less observeCtx _ _ n); [rewrite Hx; lia|intros; apply Herr|apply IH].
Qed.

Lemma ends_gone_loop n ctx d w :
  (remaining ctx (w_ext w) < n)%nat -> ends (gone_loop config deps n ctx d) w.
Proof.
  revert d w. induction n as [|n IH]; intros d w Hlt; [lia|]. cbn [gone_loop].
  apply ends_cur, ends_lift. intros [[runner|]|e] w1 _ Hx; [|done|done].
  pose proof (dl_get_runner _ _ _ Hdl ctx (lg_Repository (w_cur w)) (lg_RunnerID (w_cur w)) (w_ext w)).
  rewrite <- Hx in *. destruct (_ || _); [done|].
  apply ends_bind; [destruct d; [done|apply ends_modify; auto with ends]|].
  intros [e|] w2 Hdel; [done|].
  assert (remaining ctx (w_ext w2) <= remaining ctx (w_ext w1))%nat.
  { destruct d; [by injection Hdel as <-|]. revert Hdel. unfold mbind, M_bind, emit, modify, lift.
    cbn. pose proof (dl_delete _ _ _ Hdl ctx (lg_Repository (w_cur w)) (lg_RunnerID (w_cur w)) (w_ext w1)) as L.
    destruct (gh_DeleteRunner _ _ _ _ _) as [[]]; [|done]. by intros [= _ <-]. }
  apply (poll_less ctx _ _ n); [lia|done|intros; by apply IH].
Qed.
End loops.

(** ** The whole of Dispatch *)

(** [m] never stops for lack of fuel. *)
Definition total {X A} (m : M (World X) A) : Prop := forall w, ends m w.

Section total.
Context {Ctx X : Type} `{SortSlice} (config : Config) (deps : Deps Ctx X) (fuel : nat) (remaining : Ctx -> X -> nat).
Context (sha256 : string -> list Z) (driverInput : string -> list Z -> list Z).
Context (Hdl : Deadlines config deps remaining).

(** A context whose deadline is fewer polls away than the fuel. *)
Definition timed (c : Ctx) : Prop := forall x, (remaining c x < fuel)%nat.
Context (Htimeout : forall ctx d x c x', ctx_WithTimeout deps ctx d x = (Some c, x') -> timed c).

Lemma total_bind {A B} (m : M (World X) A) (k : A -> M (World X) B) : total m -> (forall a, total (k a)) -> total (m ≫= k).
Proof. intros Hm Hk w. apply ends_bind; [apply Hm|intros; apply Hk]. Qed.

Lemma total_ret {A} (a : A) : total (X:=X) (mret a).
Proof. done. Qed.

Lemma total_lift {A} (o : op X A) : total (lift o).
Proof. intros w. apply ends_last_lift. Qed.

Lemma total_modify (f : World X -> World X) : total (modify f).
Proof. done. Qed.

Lemma total_get : total (get : M (World X) (World X)).
Proof. done. Qed.

(** What follows a timeout may count on it. *)
Lemma total_timeout {B} ctx d (k : Ctx -> M (World X) B) :
  (forall c, timed c -> total (k c)) -> total (lift (ctx_WithTimeout deps ctx d) ≫= k).
Proof.
  intros Hk w. apply ends_lift. intros c w' Hc _. destruct (ctx_WithTimeout deps ctx d (w_ext w)) as [o x] eqn:E. cbn in Hc. subst o.
  apply Hk. by eapply Htimeout.
Qed.

Create HintDb total discriminated.
#[local] Hint Resolve total_ret total_lift total_modify total_get : total.

Ltac total_tac :=
  repeat match goal with
  | |- total (lift (ctx_WithTimeout _ _ _) ≫= _) => apply total_timeout; intros
  | |- total (_ ≫= _) => apply total_bind; [|intros]
  | |- total (match ?x with _ => _ end) => destruct x
  | |- total (let '(_, _) := ?x in _) => destruct x
  | |- total _ => solve [auto with total]
  end.

Lemma total_save_cur : total (save_cur deps).
Proof. intros w. apply ends_save_cur. Qed.
Lemma total_cur : total (cur : M (World X) Ledger).
Proof. done. Qed.
#[local] Hint Resolve total_save_cur total_cur : total.

Lemma total_Load id : total (Load (d_io deps) id).
Proof. unfold Load. total_tac. Qed.
#[local] Hint Resolve total_Load : total.

Lemma total_load_all ids : total (load_all (d_io deps) ids).
Proof. induction ids; cbn [load_all]; total_tac. Qed.
#[local] Hint Resolve total_load_all : total.

Lemma total_List : total (List (d_io deps)).
Proof. unfold List. total_tac. Qed.
Lemma total_RequestLogDir id : total (RequestLogDir (d_io deps) id).
Proof. unfold RequestLogDir. total_tac. Qed.
Lemma total_touch : total (touch deps).
Proof. unfold touch, assign. total_tac. Qed.
#[local] Hint Resolve total_List total_RequestLogDir total_touch : total.

Lemma total_transition status code : total (transition deps status code).
Proof. unfold transition, assign. total_tac. Qed.
Lemma total_return_with e : total (X:=X) (return_with e).
Proof. unfold return_with, current_result. total_tac. Qed.
Lemma total_mark_complete : total (mark_complete (X:=X)).
Proof. unfold mark_complete, assign. total_tac. Qed.
#[local] Hint Resolve total_transition total_return_with total_mark_complete : total.

(** *** The driver *)

Lemma total_waitForExit : total (waitForExit (d_drv deps)).
Proof. unfold waitForExit. total_tac. Qed.
#[local] Hint Resolve total_waitForExit : total.
Lemma total_stopAndWait p : total (stopAndWait (d_drv deps) p).
Proof. unfold stopAndWait, waitForExitOrKill. total_tac. Qed.
Lemma total_stopUnidentified id : total (stopUnidentifiedAndWait (d_drv deps) id).
Proof. unfold stopUnidentifiedAndWait. total_tac. Qed.
#[local] Hint Resolve total_stopAndWait total_stopUnidentified : total.

Lemma total_abort receipts p e : total (abort_started (d_drv deps) receipts p e).
Proof. unfold abort_started. total_tac. Qed.
Lemma total_exec_finish ctx request p receipts : total (exec_finish (d_drv deps) ctx request p receipts).
Proof. unfold exec_finish. total_tac. Qed.
#[local] Hint Resolve total_abort total_exec_finish : total.

Definition total_call {A} (cb : option (A -> M (World X) err_ret)) : Prop := forall f a, cb = Some f -> total (f a).

Lemma total_call_opt {A} (cb : option (A -> M (World X) err_ret)) a : total_call cb -> total (call_opt cb a).
Proof. intros Hcb. destruct cb as [f|]; [by apply Hcb|done]. Qed.

Lemma total_execDriver ctx request :
  total_call (ex_OnStarted request) -> total_call (ex_OnReady request) -> total (execDriver (d_drv deps) ctx request).
Proof.
  intros Hs Hr. unfold execDriver, exec_protocol, emit. cbv zeta. total_tac; by apply total_call_opt.
Qed.

Lemma total_Run ctx request :
  (forall a, total (rreq_OnStarted request a)) -> (forall a, total (rreq_OnReady request a)) ->
  total (Run (d_drv deps) driverInput ctx request).
Proof.
  intros Hs Hr. unfold Run, validateRunnerRequest, runDriver. total_tac.
  apply total_execDriver; intros f a [= <-]; auto.
Qed.

Lemma total_Recover ctx request : total (Recover (d_drv deps) ctx request).
Proof. unfold Recover. total_tac. by apply total_execDriver. Qed.
#[local] Hint Resolve total_Recover : total.

(** *** Cleanup *)

Lemma total_cancel ctx policy identity : timed ctx -> total (cancelAndWaitTerminal config deps fuel ctx policy identity).
Proof.
  intros Hc. assert (total (terminal_loop config deps fuel ctx policy identity)) as Hl by (intros w; by eapply ends_terminal_loop).
  unfold cancelAndWaitTerminal, emit. total_tac.
Qed.

Lemma total_gone ctx : timed ctx -> total (ensureRunnerGone config deps fuel ctx).
Proof.
  intros Hc. assert (forall d, total (gone_loop config deps fuel ctx d)) as Hl by (intros d w; by eapply ends_gone_loop).
  assert (forall c, timed c -> total (observe_loop config deps fuel ctx c)) as Ho by (intros c Ht w; by eapply ends_observe_loop).
  unfold ensureRunnerGone. total_tac.
Qed.

Lemma total_cleanupLedger ctx : timed ctx -> total (cleanupLedger config deps fuel ctx).
Proof.
  intros Hc. pose proof (total_gone ctx Hc). pose proof (fun p i => total_cancel ctx p i Hc).
  unfold cleanupLedger, cleanup_isolation, cleanup_run, cleanup_runner, assign. total_tac.
Qed.
#[local] Hint Resolve total_cleanupLedger : total.

Lemma total_finishError code cause : total (finishError config deps fuel code cause).
Proof. unfold finishError, assign. cbv zeta. total_tac. Qed.
#[local] Hint Resolve total_finishError : total.

(** *** From the dispatch to the end of the run *)

Lemma total_run ctx request policy identity secret : total (run config deps fuel driverInput ctx request policy identity secret).
Proof.
  unfold run, run_observe, run_settle, waitForCompletion, assign. cbv zeta. total_tac.
  all: first [by apply total_gone|by intros w; eapply ends_completion_loop|apply total_Run; intros; cbn; unfold OnStarted, OnReady, assign; total_tac].
Qed.
#[local] Hint Resolve total_run : total.

Lemma total_bindAndRun ctx request policy identity : total (bindAndRun config deps fuel driverInput ctx request policy identity).
Proof.
  unfold bindAndRun, register_and_run, waitForRun, waitForJob, assign, emit. total_tac.
  all: intros w; by first [eapply ends_wait_run_loop|eapply ends_wait_job_loop].
Qed.
#[local] Hint Resolve total_bindAndRun : total.

Lemma total_dispatchPrepared ctx request policy identity : total (dispatchPrepared config deps fuel driverInput ctx request policy identity).
Proof. unfold dispatchPrepared, assign, emit. total_tac. Qed.
#[local] Hint Resolve total_dispatchPrepared : total.

Lemma total_release ctx : total (release_lease config deps ctx).
Proof. unfold release_lease, emit. total_tac. Qed.
Lemma total_reconcile ctx : total (reconcileStartup config deps fuel ctx).
Proof.
  pose proof (total_release ctx). unfold reconcileStartup, reconcile_incomplete, recover_ledger, acquire_lease, abandon_lease, releaseOrphan, assign, emit.
  total_tac.
Qed.
#[local] Hint Resolve total_release total_reconcile : total.

Lemma total_Dispatch ctx request : total (Dispatch config deps fuel sha256 driverInput ctx request).
Proof.
  unfold Dispatch, Preflight, dispatch_locked, replay, verifyAuthority, admit_request, dispatch_with_lease, finishWithoutLease,
    acquire_lease, abandon_lease, assign, emit. cbv zeta. total_tac.
Qed.
End total.

(** C25. Dispatch ends, whatever GitHub, the gate, the driver and the store answer.  Each
    of the six polling loops returns: with more fuel than polls are left before the
    deadline of its context it never stops for lack of fuel.  And with more fuel than polls
    fit into any context made with a timeout, [Dispatch], with its recovery, cleanup
    and every loop in them, never stops for lack of fuel: every loop of the source runs in
    a context that has a deadline. *)
Theorem polling_loops_end {Ctx X} `{SortSlice} config (deps : Deps Ctx X) remaining fuel sha256 driverInput :
  Deadlines config deps remaining ->
  (forall ctx d x c x', ctx_WithTimeout deps ctx d x = (Some c, x') -> forall y, (remaining c y < fuel)%nat) ->
  (forall ctx n (w : World X), (remaining ctx (w_ext w) < n)%nat ->
    (forall repo policy identity, ends (wait_run_loop config deps n ctx repo policy identity) w) /\
    (forall repo policy runID label, ends (wait_job_loop config deps n ctx repo policy runID label) w) /\
    (forall repo policy identity, ends (completion_loop config deps n ctx repo policy identity) w) /\
    (forall policy identity, ends (terminal_loop config deps n ctx policy identity) w) /\
    (forall outer, ends (observe_loop config deps n outer ctx) w) /\
    (forall deleted, ends (gone_loop config deps n ctx deleted) w)) /\
  (forall ctx request (w : World X), ends (Dispatch config deps fuel sha256 driverInput ctx request) w).
Proof.
  intros Hdl Ht. split; [intros ctx n w Hlt; split_and!; intros|intros ctx request; by eapply total_Dispatch].
  - by eapply ends_wait_run_loop.
  - by eapply ends_wait_job_loop.
  - by eapply ends_completion_loop.
  - by eapply ends_terminal_loop.
  - by eapply ends_observe_loop.
  - by eapply ends_gone_loop.
Qed.

Lemma demo_deadlines : Deadlines config (deps no_faults) polls_left.
Proof.
  split; intros; cbn; try (unfold polls_left; cbn; lia).
  revert H. cbn. unfold sleep. destruct (polls x <? 5)%nat eqn:E; [|done].
  apply Nat.ltb_lt in E. intros [= <-]. unfold polls_left. cbn. lia.
Qed.

(** The runner never goes away in the loop, which gives up after five polls. *)
Lemma polling_loops_end_witness :
  Deadlines config (deps no_faults) polls_left /\
  ends (gone_loop config (deps no_faults) 6 tt true) init /\
  ends (Dispatch config (deps no_faults) 6 digest driver_input tt request) init.
Proof.
  split; [exact demo_deadlines|].
  destruct (polling_loops_end config (deps no_faults) polls_left 6 digest driver_input demo_deadlines) as [Hloops Hdispatch].
  - intros ctx d x c x' _ y. unfold polls_left. lia.
  - split; [|apply Hdispatch]. apply Hloops. vm_compute. lia.
Defined.

(** ** A leftover temporary file *)

Section leftover.
Context {Ctx X : Type} `{SortSlice} (config : Config) (deps : Deps Ctx X) (fuel : nat).
Context (sha256 : string -> list Z) (driverInput : string -> list Z -> list Z).
Implicit Types w : World X.

Definition refuses (m : M (World X) (Result * err_ret)) w : Prop :=
  wp m (fun r w' => snd r <> None /\ quiet w w') (quiet w) w.

Lemma quiet_trans w1 w2 w3 : quiet w1 w2 -> quiet w2 w3 -> quiet w1 w3.
Proof. unfold quiet. intros. destruct_and!. split_and!; congruence. Qed.

(** An observation before a refusal. *)
Lemma refuses_bind {A} (m : M (World X) A) k w :
  (forall I : World X -> Prop,
     (forall w x, I w -> I (mkWorld (w_disk w) (w_temps w) (w_cur w) (w_log w) x)) -> keeps I m) ->
  (forall a w', quiet w w' -> refuses (k a) w') -> refuses (m ≫= k) w.
Proof.
  intros Hm Hk. apply wp_bind, wp_quiet; [done| |done]. intros a w' Hq.
  eapply wp_mono; [by apply Hk|intros r w'' [? ?]; split; [done|]|intros w'' ?]; by eapply quiet_trans.
Qed.

Lemma refuses_err res e w : refuses (mret (res, Some e)) w.
Proof. done. Qed.

Lemma List_refuses w : (0 < w_temps w)%nat ->
  wp (List (d_io deps)) (fun r w' => (exists e, r = Err e) /\ quiet w w') (quiet w) w.
Proof.
  intros Ht. unfold List. apply wp_bind; quietly; [|done]. intros [e|] w1 Hq; [apply wp_ret; by eauto|].
  apply wp_bind, wp_get. pose proof Hq as (_ & _ & _ & Ht1). rewrite Ht1.
  assert ((0 <? w_temps w)%nat = true) as -> by by apply Nat.ltb_lt. apply wp_ret. eauto.
Qed.

Lemma locked_refuses ctx request policy w : (0 < w_temps w)%nat ->
  refuses (dispatch_locked config deps fuel sha256 driverInput ctx request policy) w.
Proof.
  intros Ht. unfold refuses, dispatch_locked, reconcileStartup. apply wp_bind, wp_bind.
  eapply wp_mono; [by apply List_refuses| |done]. by intros ? w1 [[e ->] Hq].
Qed.

Lemma Dispatch_refuses ctx request w : (0 < w_temps w)%nat ->
  refuses (Dispatch config deps fuel sha256 driverInput ctx request) w.
Proof.
  intros Ht. unfold Dispatch. destruct (Policy _ _); [|done]. destruct (ValidateRequest _ _); [done|].
  apply refuses_bind; [intros; by apply observes_Preflight|]. intros [e|] w1 Hq1; [done|].
  apply refuses_bind; [intros; by apply observes_lift|]. intros [e|] w2 Hq2; [done|].
  apply refuses_bind; [intros; by apply observes_lift|]. intros c w3 Hq3.
  apply refuses_bind; [intros; by apply observes_lift|]. intros [e|] w4 Hq4; [done|].
  apply wp_bind. eapply wp_mono; [apply locked_refuses| |done].
  - unfold quiet in *. destruct_and!. congruence.
  - intros res w5 [Hr Hq5]. apply wp_bind; quietly.
    + intros _ w6 Hq6. apply wp_ret. split; [done|]. by eapply quiet_trans.
    + intros w6 Hq6. by eapply quiet_trans.
Qed.
End leftover.

(** A process killed between the creation and the rename of a ledger's
    temporary file stops the dispatcher for good: as long as the file is in the
    directory every [Dispatch], for any request, returns an error, has no effect
    and leaves the file where it is. *)
Theorem leftover_temporary_blocks_dispatch {Ctx X} `{SortSlice} config (deps : Deps Ctx X) fuel sha256
    driverInput ctx request (w : World X) :
  (0 < w_temps w)%nat ->
  let '(o, w') := Dispatch config deps fuel sha256 driverInput ctx request w in
  (forall res err, o = Ret (res, err) -> err <> None) /\
  w_log w' = w_log w /\ w_disk w' = w_disk w /\ w_temps w' = w_temps w.
Proof.
  intros Ht. pose proof (Dispatch_refuses config deps fuel sha256 driverInput ctx request w Ht) as Hr.
  unfold refuses, wp in Hr. destruct (Dispatch _ _ _ _ _ _ _ _) as [[[res e]| |] w'].
  - destruct Hr as [? (? & ? & ? & ?)]. split_and!; [|done..]. by intros ? ? [= <- <-].
  - by destruct Hr as (? & ? & ? & ?).
  - by destruct Hr as (? & ? & ? & ?).
Qed.

(** The kill that leaves the file behind is one of the first save. *)
Lemma leftover_temporary_blocks_dispatch_witness :
  reached (snd (dispatch (killed_at_rename 0) init)) /\
  let '(o, w') := Dispatch config (deps no_faults) 10 digest driver_input tt request
                    (snd (dispatch (killed_at_rename 0) init)) in
  (forall res err, o = Ret (res, err) -> err <> None) /\
  w_log w' = w_log (snd (dispatch (killed_at_rename 0) init)) /\
  w_disk w' = w_disk (snd (dispatch (killed_at_rename 0) init)) /\
  w_temps w' = w_temps (snd (dispatch (killed_at_rename 0) init)).
Proof.
  split; [apply reached_dispatch, reached_init|].
  apply leftover_temporary_blocks_dispatch. vm_compute. lia.
Defined.

(** ** The stale exit *)

(** The [StatusStale] exit of [run] ignores the error of its last save: when
    the candidate ref has moved and the ledger cannot be written, the Guard lease is
    released although the ledger on disk is not complete. *)
Theorem stale_exit_releases_without_durable_cleanup :
  reached (snd (dispatch moved_and_full init)) /\
  exists l d, EvRelease l (Some d) ∈ w_log (snd (dispatch moved_and_full init)) /\
    lg_Status l = StatusStale /\ lg_CleanupComplete l = true /\
    lg_CleanupComplete d = false /\ lg_RunTerminal d = false /\ lg_RunnerGone d = false.
Proof.
  split; [apply reached_dispatch, reached_init|]. eexists _, _. split.
  - apply (nth_error_elem _ 15). vm_compute. reflexivity.
  - vm_compute. split_and!; reflexivity.
Qed.
