(* ===== verification/Procstat.v ===== *)
(** * internal/procstat: the start ticks of a process

    The parser of /proc/<pid>/stat that tells a recycled PID from the original
    process.  Field 2 (comm) is chosen by the process and may contain anything,
    blanks and parentheses included. *)

From S2P Require Import Prelude GoStrings.

Local Open Scope string_scope.
Local Open Scope list_scope.
Local Open Scope Z_scope.

(** [strings.LastIndexByte], with the text after the byte. *)
Fixpoint after_last (c : ascii) (s : string) : option string :=
  match s with
  | EmptyString => None
  | String d s' =>
      match after_last c s' with
      | Some r => Some r
      | None => if decide (c = d) then Some s' else None
      end
  end.

Definition procStatStartTimeFieldIndex : nat := 19.

Definition truncateStat (s : string) : string := if 64 <? len s then take_str 64 s else s.

(** [commEnd+2 > len(stat)] says that nothing follows the last parenthesis. *)
Definition parseStartTicks (stat : string) : result Z :=
  match after_last ")" stat with
  | None | Some EmptyString => Err (Errorf ("stat sem campo comm: " +:+ truncateStat stat))
  | Some tail =>
      let rest := Fields tail in
      match rest !! procStatStartTimeFieldIndex with
      | None => Err (Errorf ("stat com poucos campos (" +:+ Itoa (Z.of_nat (length rest)) +:+ ")"))
      | Some field =>
          match ParseUint field with
          | Some ticks => Ok ticks
          | None => Err (Errorf ("parse starttime " +:+ field))
          end
      end
  end.

(** [PidStartTicks] on the answer of [os.ReadFile]. *)
Definition PidStartTicks (pid : Z) (data : result string) : result Z :=
  match data with
  | Err e => Err (Errorf_w ("ler /proc/" +:+ Itoa pid +:+ "/stat") e)
  | Ok stat => parseStartTicks stat
  end.

Lemma after_last_none c s : no_char c s -> after_last c s = None.
Proof.
  induction s as [|d s IH]; cbn; [done|]. rewrite no_char_cons. intros [Hne Hs].
  by rewrite IH, decide_False.
Qed.

Lemma after_last_app c a b : no_char c b -> after_last c (a +:+ String c b) = Some b.
Proof.
  intros Hb. induction a as [|d a IH]; cbn.
  - by rewrite after_last_none, decide_True.
  - by rewrite IH.
Qed.

(** The line the kernel prints: pid, comm in parentheses, then the fields from
    [state] on, of which [starttime] is the twentieth. *)
Definition stat_line (pid : Z) (comm : string) (before : list string) (ticks : Z) (after : list string) : string :=
  Itoa pid +:+ " (" +:+ comm +:+ ") " +:+ Join (before ++ Itoa ticks :: after) " ".

Definition stat_field (f : string) : Prop := token f /\ no_char ")" f.

Lemma digit_not_paren c : is_digit c = true -> c <> ")"%char.
Proof. by intros H ->. Qed.

Lemma Itoa_stat_field n : 0 <= n -> stat_field (Itoa n).
Proof.
  intros Hn. pose proof (Itoa_digits n Hn) as Hd. split; [split; [apply Itoa_nonempty|]|].
  - revert Hd. generalize (Itoa n). intros s. induction s as [|c s IH]; cbn; [done|].
    intros. bsplit. rewrite graphic_digit by done. auto.
  - revert Hd. generalize (Itoa n). intros s. induction s as [|c s IH]; cbn; [done|].
    intros. bsplit. apply no_char_cons. split; [|auto]. intros <-.
    by apply (digit_not_paren ")"%char).
Qed.

(** The start ticks are read back whatever the command name is: for any
    comm, also one with blanks and parentheses that looks like more fields, the
    parser returns the twentieth field after it. *)
Theorem parseStartTicks_any_comm pid comm before ticks after :
  Forall stat_field before -> length before = 19%nat -> Forall stat_field after ->
  0 <= ticks < 2 ^ 64 ->
  parseStartTicks (stat_line pid comm before ticks after) = Ok ticks.
Proof.
  intros Hb Hlen Ha Ht. unfold parseStartTicks, stat_line.
  set (fields := before ++ Itoa ticks :: after).
  assert (Forall stat_field fields) as Hf.
  { apply Forall_app. split; [done|]. constructor; [apply Itoa_stat_field; lia|done]. }
  assert (Forall token fields) as Htok by (eapply Forall_impl; [exact Hf|by intros ? []]).
  assert (no_char ")" (String " " (Join fields " "))) as Hnc.
  { apply no_char_cons. split; [done|]. apply no_char_Join; [done|]. eapply Forall_impl; [exact Hf|by intros ? []]. }
  replace (Itoa pid +:+ " (" +:+ comm +:+ ") " +:+ Join fields " ")
    with ((Itoa pid +:+ " (" +:+ comm) +:+ String ")" (String " " (Join fields " ")))
    by (by rewrite <- !app_assoc_str).
  rewrite after_last_app by done.
  assert (Fields (String " " (Join fields " ")) = fields) as Hfields.
  { transitivity (Fields (Join fields " ")); [|by apply Fields_Join].
    unfold Fields. cbn -[starts_space].
    by change (starts_space (String " " (Join fields " "))) with 1%nat. }
  rewrite Hfields. unfold fields, procStatStartTimeFieldIndex.
  rewrite list_lookup_middle by done. by rewrite ParseUint_Itoa.
Qed.

(** A process that names itself "x) 0 0 0" to look like a finished comm. *)
Lemma parseStartTicks_any_comm_witness :
  parseStartTicks (stat_line 41 "x) S 0 0 0" (repeat "0" 19) 8675309 ["0"; "1"]) = Ok 8675309.
Proof.
  assert (stat_field "0") as H0 by (split; [split|]; done).
  apply parseStartTicks_any_comm; [by repeat constructor|done|by repeat constructor|lia].
Defined.
