(* ===== verification/JitGate.v ===== *)
(** * internal/jitdispatcher: the Guard lease (gate.go, gate_linux.go, process_linux.go)

    The lease is a child process started under [guard exec] that writes a marker file
    and keeps the machine-wide resources until it reads "release" or is terminated.
    The dispatcher side is [ExecGate_Acquire], [lease_Release] and the recovery of an
    orphan; the child side is [RunLeaseHolder].  System calls are the effects [gateE];
    the JSON codec is a parameter.  Receivers are values, so the nil checks on them have
    no counterpart. *)

From S2P Require Import Prelude GoStrings Regex Prog JitTypes JitConfig JitState Procstat.

Local Open Scope string_scope.
Local Open Scope list_scope.
Local Open Scope Z_scope.

Definition LeaseMarkerPath : string := "/run/civm/jit-dispatch-lease.json".

(** What [os.Lstat] tells about a directory. *)
Record DirInfo := mkDirInfo {
  fi_IsDir : bool;
  fi_Symlink : bool;
  fi_Perm : Z;
  fi_Owned : bool;       (* ownedByCurrentUser *)
}.

Inductive gate_event := GExited (err : err_ret) | GCtxDone | GTimer.
Inductive kill_event := KCtxDone | KDeadline | KTick.

Inductive gateE : Type -> Type :=
  | ReadMarker (path : string) : gateE (result (option string)) (* readOwnerOnlyRegular *)
  | RejectSymlinks (path : string) : gateE err_ret              (* rejectSymlinkComponents *)
  | Lstat (path : string) : gateE (result DirInfo)
  | CreateExcl (path : string) : gateE err_ret                  (* O_WRONLY|O_CREATE|O_EXCL *)
  | WriteMarker (data : string) : gateE err_ret
  | SyncMarker : gateE err_ret
  | CloseMarker : gateE err_ret
  | Remove (path : string) : gateE err_ret
  | SyncDirectory (path : string) : gateE err_ret
  | ReadStat (pid : Z) : gateE (result string)                  (* /proc/<pid>/stat *)
  | Kill (pid : Z) (force : bool) : gateE err_ret               (* nil also for ESRCH *)
  | KillSelect : gateE kill_event
  | Nap : gateE unit
  | ReadFull : gateE (result string)                            (* eight bytes of the input *)
  | TrustedExecutable (path : string) : gateE err_ret
  | RandRead : gateE (result (list Z))
  | StdinPipe : gateE err_ret
  | StartCmd (args : list string) : gateE err_ret
  | WriteInput (data : string) : gateE err_ret
  | CloseInput : gateE err_ret
  | PollSelect (poll : Z) : gateE gate_event
  | WaitTimeout : gateE (option err_ret)                        (* None after the grace *)
  | SignalGroup (force : bool) : gateE err_ret
  | ReleaseSelect : gateE (err_ret + error).                    (* inr: the context ended first *)

(** ** Processes *)

(** The parsing half of [processStartTicks]. *)
Definition parse_stat (data : string) : result Z :=
  match after_last ")" data with
  | None => Err (Errorf "process stat is malformed")
  | Some rest =>
      if len rest <=? 1 then Err (Errorf "process stat is malformed")
      else
        match Fields (drop_str 1 rest) !! 19%nat with
        | None => Err (Errorf "process stat is incomplete")
        | Some field =>
            match ParseUint field with
            | Some value => if value =? 0 then Err (Errorf "process start identity is invalid") else Ok value
            | None => Err (Errorf "process start identity is invalid")
            end
        end
  end.

Definition processStartTicks (pid : Z) : prog gateE (result Z) :=
  if pid <=? 1 then mret (Err (Errorf "process PID is invalid"))
  else
    data ← call (ReadStat pid);
    match data with
    | Err e => mret (Err e)
    | Ok data => mret (parse_stat data)
    end.

Definition processIdentityAlive (pid start : Z) : prog gateE (result bool) :=
  current ← processStartTicks pid;
  match current with
  | Err e => if errors_Is e ErrNotExist then mret (Ok false) else mret (Err e)
  | Ok current => mret (Ok (current =? start))
  end.

(** The loop after [SIGKILL]. *)
Fixpoint killed_loop (attempts : nat) (pid start : Z) : prog gateE err_ret :=
  match attempts with
  | O => mret (Some (Errorf "process survived SIGKILL"))
  | S attempts =>
      alive ← processIdentityAlive pid start;
      match alive with
      | Err e => mret (Some e)
      | Ok false => mret None
      | Ok true => call Nap;; killed_loop attempts pid start
      end
  end.

(** The loop of [terminateExactProcess]; the fuel bounds the ticks before the
    deadline, and running out of it is one more error. *)
Fixpoint terminate_loop (fuel : nat) (pid start : Z) : prog gateE err_ret :=
  match fuel with
  | O => mret (Some (Errorf "fuel"))
  | S fuel =>
      alive ← processIdentityAlive pid start;
      match alive with
      | Err e => mret (Some e)
      | Ok false => mret None
      | Ok true =>
          event ← call KillSelect;
          match event with
          | KCtxDone => mret (Some (Errorf "process termination canceled"))
          | KDeadline =>
              e ← call (Kill pid true);
              match e with
              | Some e => mret (Some (Errorf_w "kill exact process" e))
              | None => killed_loop 40 pid start
              end
          | KTick => terminate_loop fuel pid start
          end
      end
  end.

Definition terminateExactProcess (fuel : nat) (pid start : Z) : prog gateE err_ret :=
  alive ← processIdentityAlive pid start;
  match alive with
  | Err e => mret (Some e)
  | Ok false => mret None
  | Ok true =>
      e ← call (Kill pid false);
      match e with
      | Some e => mret (Some (Errorf_w "terminate exact process" e))
      | None => terminate_loop fuel pid start
      end
  end.

(** [waitForExit] and [waitForExitOrKill] on the child of the gate. *)
Definition ignoreSignal (err : err_ret) : err_ret := if errors_Is_opt err ExitError then None else err.

Definition child_waitForExit : prog gateE err_ret :=
  waited ← call WaitTimeout;
  mret (match waited with
        | Some waitErr => ignoreSignal waitErr
        | None => Some (Errorf "isolation driver was not reaped before timeout")
        end).

Definition child_waitForExitOrKill : prog gateE err_ret :=
  waited ← call WaitTimeout;
  match waited with
  | Some waitErr => mret (ignoreSignal waitErr)
  | None =>
      killErr ← call (SignalGroup true);
      waitErr ← child_waitForExit;
      mret (errors_Join killErr waitErr)
  end.

(** ** The marker file *)

Definition validateLeaseMarker (marker : LeaseMarker) : err_ret :=
  if negb (lm_Version marker =? 2) || negb (MatchString digestRE (lm_LeaseID marker)) ||
     negb (MatchString digestRE (lm_AdmissionID marker)) || (lm_HolderPID marker <=? 1) ||
     (lm_StartTicks marker =? 0)
  then Some (Errorf_s ErrInvalid "Guard lease marker is invalid") else None.

(** The trust check of a directory, on what [os.Lstat] tells. *)
Definition trusted_dir (info : DirInfo) : bool :=
  fi_IsDir info && negb (fi_Symlink info) && (Z.land (fi_Perm info) 18 =? 0) && fi_Owned info.

Section gate.
Context (Marshal : LeaseMarker -> result string) (Unmarshal : string -> result LeaseMarker).
Context (fuel : nat).

Definition loadLeaseMarker (path : string) : prog gateE (result (option LeaseMarker)) :=
  data ← call (ReadMarker path);
  match data with
  | Err e => mret (Err e)
  | Ok None => mret (Ok None)
  | Ok (Some data) =>
      match Unmarshal data with
      | Err e => mret (Err (Errorf_w "lease marker JSON" e))
      | Ok marker =>
          match validateLeaseMarker marker with
          | Some e => mret (Err e)
          | None => mret (Ok (Some marker))
          end
      end
  end.

(** The steps on the created file; the deferred function closes it and, unless
    everything succeeded, removes it. *)
Definition write_steps (directory data : string) : prog gateE err_ret :=
  e ← call (WriteMarker data);
  match e with Some e => mret (Some (Errorf_w "lease marker write" e)) | None =>
  e ← call SyncMarker;
  match e with Some e => mret (Some (Errorf_w "lease marker fsync" e)) | None =>
  e ← call CloseMarker;
  match e with Some e => mret (Some (Errorf_w "lease marker close" e)) | None =>
  call (SyncDirectory directory)
  end end end.

Definition writeLeaseMarker (path : string) (marker : LeaseMarker) : prog gateE err_ret :=
  match validateLeaseMarker marker with Some e => mret (Some e) | None =>
  let directory := Dir path in
  e ← call (RejectSymlinks directory);
  match e with Some e => mret (Some e) | None =>
  info ← call (Lstat directory);
  match info with
  | Err _ => mret (Some (Errorf "lease marker directory is not trusted"))
  | Ok info =>
  if negb (trusted_dir info) then mret (Some (Errorf "lease marker directory is not trusted")) else
  match Marshal marker with
  | Err e => mret (Some e)
  | Ok data =>
      e ← call (CreateExcl path);
      match e with
      | Some e => mret (Some (Errorf_w "lease marker create" e))
      | None =>
          e ← write_steps directory (data +:+ String "010" "");
          call CloseMarker;;
          match e with
          | Some e => call (Remove path);; mret (Some e)
          | None => mret None
          end
      end
  end end end end.

Definition removeLeaseMarker (path : string) (expected : LeaseMarker) : prog gateE err_ret :=
  current ← loadLeaseMarker path;
  match current with
  | Err e => mret (Some e)
  | Ok None => mret None
  | Ok (Some current) =>
      if negb (bool_decide (current = expected)) then mret (Some (Errorf "lease marker identity changed"))
      else
        e ← call (Remove path);
        match e with
        | Some e => mret (Some (Errorf_w "lease marker remove" e))
        | None => call (SyncDirectory (Dir path))
        end
  end.

(** ** The child *)

(** [HolderBlocks] is the final [select {}]. *)
Inductive holder_end := HolderReturned (err : err_ret) | HolderBlocks.

Definition release_line : string := "release" +:+ String "010" "".

Definition RunLeaseHolder (pid : Z) (leaseID admissionID markerPath : string) : prog gateE holder_end :=
  if negb (MatchString digestRE leaseID) || negb (MatchString digestRE admissionID)
  then mret (HolderReturned (Some (Errorf_s ErrInvalid "lease or admission ID is invalid"))) else
  start ← processStartTicks pid;
  match start with
  | Err e => mret (HolderReturned (Some e))
  | Ok start =>
      let marker := mkMarker 2 leaseID admissionID pid start in
      e ← writeLeaseMarker markerPath marker;
      match e with
      | Some e => mret (HolderReturned (Some e))
      | None =>
          line ← call ReadFull;
          match line with
          | Ok buffer =>
              if String.eqb buffer release_line
              then e ← removeLeaseMarker markerPath marker; mret (HolderReturned e)
              else mret HolderBlocks
          | Err e => if negb (errors_Is e EOF) && negb (errors_Is e ErrUnexpectedEOF)
                     then mret (HolderReturned (Some e)) else mret HolderBlocks
          end
      end
  end.

(** ** The dispatcher side *)

Record ExecResourceGate := mkGate {
  eg_SelfExecutable : string;
  eg_MarkerPath : string;
  eg_allowTestMarker : bool;
}.

(** [el_command]: the process is still ours to wait for; [el_input]: its input is open. *)
Record execResourceLease := mkLease {
  el_command : bool;
  el_input : bool;
  el_marker : LeaseMarker;
  el_leaseID : string;
  el_admissionID : string;
  el_path : string;
}.

Definition ensureGateRuntimeDirectory (path : string) : prog gateE err_ret :=
  info ← call (Lstat path);
  match info with
  | Err e => mret (Some e)
  | Ok info => if trusted_dir info then mret None
               else mret (Some (Errorf "guard gate runtime directory is unsafe"))
  end.

Definition ExecGate_Preflight (gate : ExecResourceGate) (guardExecutable : string) : prog gateE err_ret :=
  if String.eqb (eg_SelfExecutable gate) "" ||
     (negb (String.eqb (eg_MarkerPath gate) LeaseMarkerPath) && negb (eg_allowTestMarker gate))
  then mret (Some (Errorf_s ErrInvalid "guard gate configuration is invalid")) else
  e ← call (TrustedExecutable guardExecutable);
  match e with Some e => mret (Some (Errorf_w "guard executable refused" e)) | None =>
  e ← call (TrustedExecutable (eg_SelfExecutable gate));
  match e with Some e => mret (Some (Errorf_w "civmctl executable refused" e)) | None =>
  ensureGateRuntimeDirectory (Dir (eg_MarkerPath gate))
  end end.

Definition cleanupOwnMarker (path leaseID admissionID : string) : prog gateE err_ret :=
  marker ← loadLeaseMarker path;
  match marker with
  | Err e => mret (Some e)
  | Ok None => mret None
  | Ok (Some marker) =>
      if negb (String.eqb (lm_LeaseID marker) leaseID) || negb (String.eqb (lm_AdmissionID marker) admissionID)
      then mret (Some (Errorf "refusing to remove a Guard marker owned by another lease"))
      else
        e ← terminateExactProcess fuel (lm_HolderPID marker) (lm_StartTicks marker);
        match e with
        | Some e => mret (Some e)
        | None => removeLeaseMarker path marker
        end
  end.

Definition cancelPending (lease : execResourceLease) : prog gateE err_ret :=
  closed ← (if el_input lease then call CloseInput else mret None);
  ended ← (if el_command lease
           then termErr ← call (SignalGroup false);
                waitErr ← child_waitForExitOrKill;
                mret (errors_Join termErr waitErr)
           else mret None);
  cleaned ← cleanupOwnMarker (el_path lease) (el_leaseID lease) (el_admissionID lease);
  mret (errors_Join closed (errors_Join ended cleaned)).

(** What [Acquire] returns; [LeaseFuel] only bounds the [for] loop. *)
Inductive gate_acquired := Leased (lease : execResourceLease) | LeaseErr (err : error) | LeaseFuel.

(** Give up an admission that cannot be trusted. *)
Definition give_up_lease (lease : execResourceLease) (what : error) (cause : err_ret)
    : prog gateE gate_acquired :=
  cancelErr ← cancelPending lease;
  mret (LeaseErr (default what (errors_Join (Some what) (errors_Join cause cancelErr)))).

Fixpoint admission_loop (polls : nat) (poll : Z) (lease : execResourceLease) : prog gateE gate_acquired :=
  match polls with
  | O => mret LeaseFuel
  | S polls =>
      loaded ← loadLeaseMarker (el_path lease);
      match loaded with
      | Err markerErr =>
          give_up_lease lease (Errorf_s ErrAmbiguous "Guard admission marker is unreadable") (Some markerErr)
      | Ok (Some marker) =>
          if negb (String.eqb (lm_LeaseID marker) (el_leaseID lease)) ||
             negb (String.eqb (lm_AdmissionID marker) (el_admissionID lease))
          then give_up_lease lease (Errorf_s ErrAmbiguous "Guard lease marker belongs to another request") None
          else
            alive ← processIdentityAlive (lm_HolderPID marker) (lm_StartTicks marker);
            match alive with
            | Ok true => mret (Leased (mkLease (el_command lease) (el_input lease) marker
                                     (el_leaseID lease) (el_admissionID lease) (el_path lease)))
            | Ok false => give_up_lease lease (Errorf_s ErrAmbiguous "Guard lease holder is not alive") None
            | Err aliveErr =>
                give_up_lease lease (Errorf_s ErrAmbiguous "Guard lease holder is not alive") (Some aliveErr)
            end
      | Ok None =>
          event ← call (PollSelect poll);
          match event with
          | GExited waitErr =>
              call CloseInput;;
              markerErr ← cleanupOwnMarker (el_path lease) (el_leaseID lease) (el_admissionID lease);
              match markerErr with
              | Some e =>
                  let what := Errorf_s ErrAmbiguous "guard resource gate exited before admission" in
                  mret (LeaseErr (default what (errors_Join (Some what) (errors_Join waitErr (Some e)))))
              | None =>
                  let what := Errorf "guard resource gate exited before admission" in
                  mret (LeaseErr (default what (errors_Join (Some what) waitErr)))
              end
          | GCtxDone =>
              cancelErr ← cancelPending lease;
              match cancelErr with
              | Some e =>
                  let what := Errorf_s ErrAmbiguous "guard admission cancellation is unresolved" in
                  mret (LeaseErr (default what (errors_Join (Some what) (Some e))))
              | None => mret (LeaseErr (Errorf_s ErrBusy "guard admission canceled"))
              end
          | GTimer => admission_loop polls poll lease
          end
      end
  end.

Definition ExecGate_Acquire (gate : ExecResourceGate) (guardExecutable leaseID : string) (poll grace : Z)
    : prog gateE gate_acquired :=
  let invalid := Errorf_s ErrInvalid "guard gate configuration is invalid" in
  if String.eqb (eg_SelfExecutable gate) "" || String.eqb (eg_MarkerPath gate) "" ||
     negb (MatchString digestRE leaseID) || (poll <=? 0) || (grace <=? 0) || (Minute <? grace)
  then mret (LeaseErr invalid) else
  e ← ExecGate_Preflight gate guardExecutable;
  match e with Some e => mret (LeaseErr e) | None =>
  existing ← loadLeaseMarker (eg_MarkerPath gate);
  match existing with
  | Err e => mret (LeaseErr e)
  | Ok (Some _) => mret (LeaseErr (Errorf "an unreconciled guard lease already exists"))
  | Ok None =>
  bytes ← call RandRead;
  match bytes with Err e => mret (LeaseErr (Errorf_w "create guard admission identity" e)) | Ok bytes =>
  let admission := id_Nonce (NewIdentity bytes) in
  e ← call StdinPipe;
  match e with Some e => mret (LeaseErr (Errorf_w "guard lease stdin" e)) | None =>
  e ← call (StartCmd [guardExecutable; "exec"; "--"; eg_SelfExecutable gate; "__jit-lease-hold";
                      "--lease-id"; leaseID; "--admission-id"; admission]);
  match e with
  | Some e => call CloseInput;; mret (LeaseErr (Errorf_w "start guard resource gate" e))
  | None =>
      admission_loop fuel poll
        (mkLease true true (mkMarker 0 "" "" 0 0) leaseID admission (eg_MarkerPath gate))
  end end end end end.

Definition ExecGate_Orphan (gate : ExecResourceGate) : prog gateE (result (option LeaseMarker)) :=
  if String.eqb (eg_MarkerPath gate) "" then mret (Err (Errorf_s ErrInvalid "Guard gate is invalid"))
  else loadLeaseMarker (eg_MarkerPath gate).

Definition ExecGate_ReleaseOrphan (gate : ExecResourceGate) (marker : LeaseMarker) (grace : Z) : prog gateE err_ret :=
  if String.eqb (eg_MarkerPath gate) "" || (grace <=? 0)
  then mret (Some (Errorf_s ErrInvalid "orphan release parameters are invalid")) else
  match validateLeaseMarker marker with Some e => mret (Some e) | None =>
  e ← terminateExactProcess fuel (lm_HolderPID marker) (lm_StartTicks marker);
  match e with
  | Some e => mret (Some e)
  | None => removeLeaseMarker (eg_MarkerPath gate) marker
  end end.

(** The lease behind the pointer is returned with its new value. *)
Definition lease_Release (lease : execResourceLease) : prog gateE (execResourceLease * err_ret) :=
  if negb (el_command lease) || negb (el_input lease)
  then mret (lease, Some (Errorf "guard resource lease is not active")) else
  writeErr ← call (WriteInput release_line);
  closeErr ← call CloseInput;
  waited ← call ReleaseSelect;
  let waitErr := match waited with
                 | inl e => e
                 | inr ctxErr => Some (Errorf_w "guard lease release timed out" ctxErr)
                 end in
  loaded ← loadLeaseMarker (el_path lease);
  let markerErr := match loaded with
                   | Err e => Some e
                   | Ok (Some marker) =>
                       if bool_decide (marker = el_marker lease)
                       then Some (Errorf "guard lease marker remained after release") else None
                   | Ok None => None
                   end in
  mret (mkLease false false (el_marker lease) (el_leaseID lease) (el_admissionID lease) (el_path lease),
        errors_Join writeErr (errors_Join closeErr (errors_Join waitErr markerErr))).

Definition lease_Abandon (lease : execResourceLease) : prog gateE (execResourceLease * err_ret) :=
  e ← (if el_input lease then call CloseInput else mret None);
  mret (mkLease false false (el_marker lease) (el_leaseID lease) (el_admissionID lease) (el_path lease), e).

Definition removeStaleLeaseMarker (path : string) (marker : LeaseMarker) : prog gateE err_ret :=
  alive ← processIdentityAlive (lm_HolderPID marker) (lm_StartTicks marker);
  match alive with
  | Err e => mret (Some e)
  | Ok true => mret (Some (Errorf "refusing to remove a live Guard lease marker"))
  | Ok false => removeLeaseMarker path marker
  end.
End gate.
