(* ===== verification/JitGateSafety.v ===== *)
(** * The Guard lease: properties

    Whatever the system calls answer: the gate removes only its own marker, kills only
    the process whose identity it has just read, and a failure it does not call
    ambiguous leaves neither the child nor its marker behind, which is what the
    dispatcher relies on when it records the cleanup of a refused admission.  The
    child keeps its marker unless it is told to release it. *)

From S2P Require Import Prelude GoStrings Regex Prog JitTypes JitConfig JitState Procstat JitGate.

Local Open Scope string_scope.
Local Open Scope list_scope.
Local Open Scope Z_scope.

(** ** Joined errors *)

Lemma errors_Join_None e1 e2 : errors_Join e1 e2 = None -> e1 = None /\ e2 = None.
Proof. by destruct e1, e2. Qed.

Lemma errors_Join_None2 e1 e2 e3 :
  errors_Join e1 (errors_Join e2 e3) = None -> e1 = None /\ e2 = None /\ e3 = None.
Proof. by intros [-> ?%errors_Join_None]%errors_Join_None. Qed.

Lemma errors_Join_None3 e1 e2 e3 e4 :
  errors_Join e1 (errors_Join e2 (errors_Join e3 e4)) = None ->
  e1 = None /\ e2 = None /\ e3 = None /\ e4 = None.
Proof. by intros [-> ?%errors_Join_None2]%errors_Join_None. Qed.

(** A join that starts with a sentinel is that sentinel. *)
Lemma errors_Is_Join_default tag text e :
  errors_Is (default (Errorf_s tag text) (errors_Join (Some (Errorf_s tag text)) e)) tag = true.
Proof. unfold errors_Is. apply bool_decide_eq_true. destruct e; cbn; set_solver. Qed.

(** ** What has been observed *)

Record gate_state := mkGateState {
  g_last : option LeaseMarker;   (* the valid marker the last read found *)
  g_adm : option string;         (* the admission identity drawn *)
  g_obs : option (Z * Z);        (* the last process identity read *)
  g_input : bool;                (* the input of the child is open *)
  g_started : bool;              (* the child was started *)
  g_done : bool;                 (* its exit was observed *)
  g_clean : bool;                (* after that, no marker was found, or it was removed *)
}.

Section lease.
Context (Unmarshal : string -> result LeaseMarker).
(** The marker file, and the markers the caller may remove, given the admission
    identity it drew. *)
Context (path : string) (own : option string -> LeaseMarker -> Prop).
(** The marker the caller was told to end, if any. *)
Context (given : option LeaseMarker).

(** The marker whose holder may be killed: the one given, or the valid one the last read
    of the file found; either is the caller's own. *)
Definition target (s : gate_state) (m : LeaseMarker) : Prop :=
  (given = Some m \/ g_last s = Some m) /\ own (g_adm s) m.

Definition decode (data : string) : option LeaseMarker :=
  match Unmarshal data with
  | Ok m => if bool_decide (validateLeaseMarker m = None) then Some m else None
  | Err _ => None
  end.

Definition see_marker (m : option LeaseMarker) (clean : bool) (s : gate_state) : gate_state :=
  mkGateState m (g_adm s) (g_obs s) (g_input s) (g_started s) (g_done s) clean.
Definition see_process (o : option (Z * Z)) (s : gate_state) : gate_state :=
  mkGateState (g_last s) (g_adm s) o (g_input s) (g_started s) (g_done s) (g_clean s).
Definition see_exit (s : gate_state) : gate_state :=
  mkGateState (g_last s) (g_adm s) (g_obs s) (g_input s) (g_started s) true (g_clean s).
Definition set_input (b : bool) (s : gate_state) : gate_state :=
  mkGateState (g_last s) (g_adm s) (g_obs s) b (g_started s) (g_done s) (g_clean s).

Definition gate_spec : spec gateE gate_state := {|
  allowed B e s :=
    match e with
    | ReadMarker p => p = path
    | Remove p => p = path /\ exists m, g_last s = Some m /\ own (g_adm s) m
    | CreateExcl _ | WriteMarker _ => False
    | Kill pid _ => exists m, target s m /\ pid = lm_HolderPID m /\
                              g_obs s = Some (pid, lm_StartTicks m)
    | SignalGroup _ => g_started s = true
    | WriteInput _ | CloseInput => g_input s = true
    | StartCmd _ => g_started s = false /\ g_input s = true
    | StdinPipe => g_input s = false
    | _ => True
    end;
  answers B e s :=
    match e in gateE B return B -> gate_state -> Prop with
    | ReadMarker _ => fun b s' =>
        s' = match b with
             | Ok (Some data) => see_marker (decode data) (g_clean s) s
             | Ok None => see_marker None (g_done s) s
             | Err _ => see_marker None (g_clean s) s
             end
    | Remove _ => fun b s' => s' = match b with None => see_marker None (g_done s) s | Some _ => s end
    | RandRead => fun b s' =>
        s' = match b with
             | Ok bytes => mkGateState (g_last s) (Some (EncodeToString bytes)) (g_obs s)
                             (g_input s) (g_started s) (g_done s) (g_clean s)
             | Err _ => s
             end
    | ReadStat pid => fun b s' =>
        s' = see_process (match b with
                          | Ok data => match parse_stat data with Ok t => Some (pid, t) | Err _ => None end
                          | Err _ => None
                          end) s
    | StdinPipe => fun b s' => s' = match b with None => set_input true s | Some _ => s end
    | StartCmd _ => fun b s' =>
        s' = match b with
             | None => mkGateState (g_last s) (g_adm s) (g_obs s) (g_input s) true false false
             | Some _ => s
             end
    | CloseInput => fun _ s' => s' = set_input false s
    | PollSelect _ => fun b s' => s' = match b with GExited _ => see_exit s | _ => s end
    | WaitTimeout => fun b s' => s' = match b with Some _ => see_exit s | None => s end
    | ReleaseSelect => fun b s' => s' = match b with inl _ => see_exit s | inr _ => s end
    | _ => fun _ s' => s' = s
    end;
|}.

(** Nothing but the observations has changed. *)
Definition same (s s' : gate_state) : Prop :=
  g_adm s' = g_adm s /\ g_input s' = g_input s /\
  g_started s' = g_started s /\ g_done s' = g_done s.

Definition undisturbed (s s' : gate_state) : Prop :=
  same s s' /\ g_last s' = g_last s /\ g_clean s' = g_clean s.

Lemma undisturbed_refl s : undisturbed s s.
Proof. by split_and!. Qed.

Lemma undisturbed_trans s1 s2 s3 : undisturbed s1 s2 -> undisturbed s2 s3 -> undisturbed s1 s3.
Proof. unfold undisturbed, same. naive_solver congruence. Qed.

Lemma undisturbed_see o s : undisturbed s (see_process o s).
Proof. by split_and!. Qed.

Lemma wpp_processIdentityAlive pid start s :
  wpp gate_spec (processIdentityAlive pid start)
    (fun r s' => undisturbed s s' /\ (r = Ok true -> g_obs s' = Some (pid, start))) s.
Proof.
  unfold processIdentityAlive, processStartTicks. apply wpp_bind.
  destruct (pid <=? 1); [apply wpp_ret; by split; [apply undisturbed_refl|]|].
  apply wpp_bind, wpp_call; [done|]. intros [data|e] s1 ->; cbv beta iota; apply wpp_ret.
  - destruct (parse_stat data) as [t|e]; [|destruct (errors_Is e _); apply wpp_ret; by split].
    apply wpp_ret. split; [done|]. intros [= E%Z.eqb_eq]. by subst.
  - destruct (errors_Is e _); apply wpp_ret; by split.
Qed.

Lemma wpp_killed_loop n pid start s :
  wpp gate_spec (killed_loop n pid start) (fun _ s' => undisturbed s s') s.
Proof.
  revert s. induction n as [|n IH]; intros s; cbn [killed_loop]; [apply undisturbed_refl|].
  apply wpp_bind. eapply wpp_mono; [apply wpp_processIdentityAlive|].
  intros [[]|e] s1 [Hs _]; [|by apply wpp_ret..]. apply wpp_bind, wpp_call; [done|]. intros [] s2 ->.
  eapply wpp_mono; [apply IH|]. intros ? s2 Hs2. by eapply undisturbed_trans.
Qed.

Lemma own_undisturbed m s s' : undisturbed s s' -> own (g_adm s) m -> own (g_adm s') m.
Proof. by intros [(-> & _) _]. Qed.

Lemma target_undisturbed m s s' : undisturbed s s' -> target s m -> target s' m.
Proof. unfold target. by intros [(-> & _) [-> _]]. Qed.

Lemma wpp_terminate_loop n m s :
  target s m ->
  wpp gate_spec (terminate_loop n (lm_HolderPID m) (lm_StartTicks m)) (fun _ s' => undisturbed s s') s.
Proof.
  revert s. induction n as [|n IH]; intros s Hm; cbn [terminate_loop]; [apply undisturbed_refl|].
  apply wpp_bind. eapply wpp_mono; [apply wpp_processIdentityAlive|].
  intros [[]|e] s1 [Hs Ho]; [|by apply wpp_ret..]. specialize (Ho eq_refl).
  pose proof (target_undisturbed m _ _ Hs Hm) as Hm1.
  apply wpp_bind, wpp_call; [done|]. intros [] s2 ->; [done| |].
  - apply wpp_bind, wpp_call; [by exists m|]. intros [e|] s2 ->; [done|].
    eapply wpp_mono; [apply wpp_killed_loop|]. intros ? s2 Hs2. by eapply undisturbed_trans.
  - eapply wpp_mono; [by apply IH|]. intros ? s2 Hs2. by eapply undisturbed_trans.
Qed.

Lemma wpp_terminateExactProcess n m s :
  target s m ->
  wpp gate_spec (terminateExactProcess n (lm_HolderPID m) (lm_StartTicks m)) (fun _ s' => undisturbed s s') s.
Proof.
  intros Hm. unfold terminateExactProcess. apply wpp_bind.
  eapply wpp_mono; [apply wpp_processIdentityAlive|].
  intros [[]|e] s1 [Hs Ho]; [|by apply wpp_ret..]. specialize (Ho eq_refl).
  pose proof (target_undisturbed m _ _ Hs Hm) as Hm1.
  apply wpp_bind, wpp_call; [by exists m|]. intros [e|] s2 ->; [done|].
  eapply wpp_mono; [by apply wpp_terminate_loop|]. intros ? s2 Hs2. by eapply undisturbed_trans.
Qed.

(** A load tells exactly what the file held; finding none after the exit is clean. *)
Lemma wpp_loadLeaseMarker s :
  wpp gate_spec (loadLeaseMarker Unmarshal path)
    (fun r s' => same s s' /\
       match r with
       | Ok (Some m) => g_last s' = Some m /\ validateLeaseMarker m = None
       | Ok None => g_last s' = None /\ g_clean s' = g_done s
       | Err _ => g_last s' = None
       end) s.
Proof.
  unfold loadLeaseMarker. apply wpp_bind, wpp_call; [done|].
  intros [[data|]|e] s1 ->; cbv beta iota; [|by split_and!..]. unfold decode.
  destruct (Unmarshal data) as [m|e]; [|by split_and!].
  destruct (validateLeaseMarker m) eqn:Hv.
  - rewrite bool_decide_false by done. by split_and!.
  - rewrite bool_decide_true by done. by split_and!.
Qed.

Lemma same_trans s1 s2 s3 : same s1 s2 -> same s2 s3 -> same s1 s3.
Proof. unfold same. naive_solver congruence. Qed.

Lemma wpp_removeLeaseMarker m s :
  own (g_adm s) m ->
  wpp gate_spec (removeLeaseMarker Unmarshal path m)
    (fun r s' => same s s' /\ (r = None -> g_last s' = None /\ g_clean s' = g_done s)) s.
Proof.
  intros Hm. unfold removeLeaseMarker. apply wpp_bind. eapply wpp_mono; [apply wpp_loadLeaseMarker|].
  intros [[current|]|e] s1 [Hs Hr]; [|by apply wpp_ret..]. destruct Hr as [Hl Hv].
  destruct (bool_decide (current = m)) eqn:E; cbn [negb]; [|by apply wpp_ret].
  apply bool_decide_eq_true in E as ->. apply wpp_bind, wpp_call.
  { split; [done|]. exists m. split; [done|]. by destruct Hs as (-> & _). }
  intros [e|] s2 ->; [by apply wpp_ret|]. apply wpp_call; [done|]. intros e s3 ->.
  split; [exact Hs|]. intros ->. split; [done|]. cbn. apply Hs.
Qed.
Lemma own_same m s s' : same s s' -> own (g_adm s) m -> own (g_adm s') m.
Proof. by intros (-> & _). Qed.

(** A cleanup that succeeds has found no marker, or has removed its own. *)
Lemma wpp_cleanupOwnMarker n leaseID admissionID s :
  (forall m, lm_LeaseID m = leaseID -> lm_AdmissionID m = admissionID -> own (g_adm s) m) ->
  wpp gate_spec (cleanupOwnMarker Unmarshal n path leaseID admissionID)
    (fun r s' => same s s' /\ (r = None -> g_clean s' = g_done s)) s.
Proof.
  intros Hown. unfold cleanupOwnMarker. apply wpp_bind. eapply wpp_mono; [apply wpp_loadLeaseMarker|].
  intros [[m|]|e] s1 [Hs Hr]; [|by apply wpp_ret; naive_solver..].
  destruct (String.eqb_spec (lm_LeaseID m) leaseID) as [El|]; [|by apply wpp_ret].
  destruct (String.eqb_spec (lm_AdmissionID m) admissionID) as [Ea|]; [|by apply wpp_ret].
  cbn [negb orb]. pose proof (own_same m s s1 Hs (Hown m El Ea)) as Hm. apply wpp_bind.
  eapply wpp_mono; [apply wpp_terminateExactProcess; split; [right; apply Hr|done]|]. intros [e|] s2 Hu.
  { apply wpp_ret. split; [|done]. eapply same_trans; [exact Hs|apply Hu]. }
  eapply wpp_mono; [apply wpp_removeLeaseMarker; by eapply own_undisturbed|]. intros r s3 [Hs3 Hr3].
  pose proof (same_trans _ _ _ Hs (proj1 Hu)) as Hs2. split; [by eapply same_trans|].
  intros [_ ->]%Hr3. apply Hs2.
Qed.

(** The child has been told to end, and perhaps has. *)
Definition ending (s s' : gate_state) : Prop :=
  g_adm s' = g_adm s /\ g_input s' = g_input s /\ g_started s' = g_started s.

Lemma wpp_child_waitForExit s :
  wpp gate_spec child_waitForExit (fun r s' => ending s s' /\ (r = None -> g_done s' = true)) s.
Proof. apply wpp_bind, wpp_call; [done|]. by intros [w|] s1 ->. Qed.

Lemma wpp_child_waitForExitOrKill s :
  g_started s = true ->
  wpp gate_spec child_waitForExitOrKill (fun r s' => ending s s' /\ (r = None -> g_done s' = true)) s.
Proof.
  intros Hst. apply wpp_bind, wpp_call; [done|]. intros [w|] s1 ->; [done|].
  apply wpp_bind, wpp_call; [done|]. intros killErr s2 ->. apply wpp_bind.
  eapply wpp_mono; [apply wpp_child_waitForExit|]. intros r s3 [He Hr]. apply wpp_ret. split; [done|].
  intros [_ ?]%errors_Join_None. auto.
Qed.

(** The cancellation closes the input; when it succeeds the child has exited and has
    left no marker. *)
Lemma wpp_cancelPending n m0 leaseID admissionID s :
  (forall m, lm_LeaseID m = leaseID -> lm_AdmissionID m = admissionID -> own (g_adm s) m) ->
  g_input s = true -> g_started s = true ->
  wpp gate_spec (cancelPending Unmarshal n (mkLease true true m0 leaseID admissionID path))
    (fun r s' => g_input s' = false /\ (r = None -> g_done s' = true /\ g_clean s' = true)) s.
Proof.
  intros Hown Hin Hst. unfold cancelPending. cbn [el_input el_command el_path el_leaseID el_admissionID].
  apply wpp_bind, wpp_call; [done|]. intros closed s1 ->. apply wpp_bind, wpp_bind, wpp_call; [done|].
  intros termErr s2 ->. apply wpp_bind. eapply wpp_mono; [by apply wpp_child_waitForExitOrKill|].
  intros waitErr s3 [(Ha & Hi & _) Hd]. apply wpp_ret, wpp_bind.
  eapply wpp_mono; [apply wpp_cleanupOwnMarker; by rewrite Ha|]. intros cleaned s4 [Hs Hc].
  destruct Hs as (_ & Hi4 & _ & Hd4). apply wpp_ret. split; [by rewrite Hi4, Hi|].
  intros (_ & [_ ?]%errors_Join_None & ?)%errors_Join_None2. rewrite Hc, Hd4 by done. auto.
Qed.

(** ** Admission *)

(** What [Acquire] promises with each of its results. *)
Definition acquired_ok (r : gate_acquired) (s : gate_state) : Prop :=
  match r with
  | Leased lease =>
      let m := el_marker lease in
      own (g_adm s) m /\ validateLeaseMarker m = None /\ g_last s = Some m /\
      g_obs s = Some (lm_HolderPID m, lm_StartTicks m) /\ g_input s = true /\ g_started s = true
  | LeaseErr e =>
      g_input s = false /\
      (errors_Is e ErrAmbiguous = false ->
       g_started s = false \/ (g_done s = true /\ g_clean s = true))
  | LeaseFuel => g_started s = true
  end.

Lemma wpp_give_up_lease n lease text cause s :
  wpp gate_spec (cancelPending Unmarshal n lease) (fun _ s' => g_input s' = false) s ->
  wpp gate_spec (give_up_lease Unmarshal n lease (Errorf_s ErrAmbiguous text) cause) acquired_ok s.
Proof.
  intros Hc. apply wpp_bind. eapply wpp_mono; [exact Hc|]. intros r s1 Hi. apply wpp_ret. split; [done|].
  intros E. by rewrite errors_Is_Join_default in E.
Qed.

(** What the loop knows of its child between two polls. *)
Definition pending (leaseID admissionID : string) (s : gate_state) : Prop :=
  (forall m, lm_LeaseID m = leaseID -> lm_AdmissionID m = admissionID -> own (g_adm s) m) /\
  g_input s = true /\ g_started s = true.

Lemma pending_same leaseID admissionID s s' :
  same s s' -> pending leaseID admissionID s -> pending leaseID admissionID s'.
Proof. unfold pending. by intros (-> & -> & -> & _). Qed.

(** The child exited before its marker appeared. *)
Lemma wpp_exited n leaseID admissionID (waitErr : err_ret) s :
  pending leaseID admissionID s ->
  wpp gate_spec
    (call CloseInput;;
     markerErr ← cleanupOwnMarker Unmarshal n path leaseID admissionID;
     match markerErr with
     | Some e =>
         let what := Errorf_s ErrAmbiguous "guard resource gate exited before admission" in
         mret (LeaseErr (default what (errors_Join (Some what) (errors_Join waitErr (Some e)))))
     | None =>
         let what := Errorf "guard resource gate exited before admission" in
         mret (LeaseErr (default what (errors_Join (Some what) waitErr)))
     end) acquired_ok (see_exit s).
Proof.
  intros (Hown & Hin & Hst). apply wpp_bind, wpp_call; [done|]. intros _ s1 ->. apply wpp_bind.
  eapply wpp_mono; [by apply wpp_cleanupOwnMarker|]. intros [e|] s2 [(_ & Hi & _ & Hd) Hc]; cbv zeta; apply wpp_ret.
  - split; [done|]. intros E. by rewrite errors_Is_Join_default in E.
  - split; [done|]. intros _. right. split; [done|]. by apply Hc.
Qed.

(** The caller gave up waiting. *)
Lemma wpp_canceled n m0 leaseID admissionID s :
  pending leaseID admissionID s ->
  wpp gate_spec
    (cancelErr ← cancelPending Unmarshal n (mkLease true true m0 leaseID admissionID path);
     match cancelErr with
     | Some e =>
         let what := Errorf_s ErrAmbiguous "guard admission cancellation is unresolved" in
         mret (LeaseErr (default what (errors_Join (Some what) (Some e))))
     | None => mret (LeaseErr (Errorf_s ErrBusy "guard admission canceled"))
     end) acquired_ok s.
Proof.
  intros (Hown & Hin & Hst). apply wpp_bind. eapply wpp_mono; [by apply wpp_cancelPending|].
  intros [e|] s1 [Hi Hr]; cbv zeta; apply wpp_ret.
  - split; [done|]. intros E. by rewrite errors_Is_Join_default in E.
  - split; [done|]. auto.
Qed.

Lemma wpp_gave_up n m0 leaseID admissionID text cause s :
  pending leaseID admissionID s ->
  wpp gate_spec
    (give_up_lease Unmarshal n (mkLease true true m0 leaseID admissionID path) (Errorf_s ErrAmbiguous text) cause)
    acquired_ok s.
Proof.
  intros (Hown & Hin & Hst). apply wpp_give_up_lease.
  eapply wpp_mono; [by apply wpp_cancelPending|]. by intros r s1 [Hi _].
Qed.

Lemma wpp_admission_loop n polls poll m0 leaseID admissionID s :
  pending leaseID admissionID s ->
  wpp gate_spec (admission_loop Unmarshal n polls poll (mkLease true true m0 leaseID admissionID path))
    acquired_ok s.
Proof.
  revert s. induction polls as [|polls IH]; intros s Hp; cbn [admission_loop]; [apply Hp|].
  cbn [el_path el_leaseID el_admissionID el_command el_input]. apply wpp_bind.
  eapply wpp_mono; [apply wpp_loadLeaseMarker|]. intros loaded s1 [Hs Hl].
  pose proof (pending_same _ _ _ _ Hs Hp) as Hp1. destruct loaded as [[m|]|markerErr].
  - destruct (String.eqb_spec (lm_LeaseID m) leaseID) as [El|]; [|by apply wpp_gave_up].
    destruct (String.eqb_spec (lm_AdmissionID m) admissionID) as [Ea|]; [|by apply wpp_gave_up].
    cbn [negb orb]. apply wpp_bind. eapply wpp_mono; [apply wpp_processIdentityAlive|].
    intros alive s2 [(Hs2 & Hl2 & _) Ho]. pose proof (pending_same _ _ _ _ Hs2 Hp1) as Hp2.
    destruct alive as [[]|aliveErr]; [|by apply wpp_gave_up..]. apply wpp_ret. cbn.
    destruct Hp2 as (Hown & Hin & Hst), Hl as [Hl Hv]. rewrite Hl2. auto 10.
  - apply wpp_bind, wpp_call; [done|]. intros [waitErr| |] s2 ->; cbv iota.
    + by apply wpp_exited.
    + by apply wpp_canceled.
    + by apply IH.
  - by apply wpp_gave_up.
Qed.
Lemma wpp_Preflight gate guard s : wpp gate_spec (ExecGate_Preflight gate guard) (fun _ s' => s' = s) s.
Proof.
  unfold ExecGate_Preflight, ensureGateRuntimeDirectory. destruct (_ || _); [done|].
  apply wpp_bind, wpp_call; [done|]. intros [e|] s1 ->; [done|].
  apply wpp_bind, wpp_call; [done|]. intros [e|] s1 ->; [done|].
  apply wpp_bind, wpp_call; [done|]. intros [info|e] s1 ->; [|done]. by destruct (trusted_dir info).
Qed.

(** Releasing an orphan ends its exact process and removes its exact marker. *)
Lemma wpp_ReleaseOrphan n gate m grace s :
  eg_MarkerPath gate = path -> given = Some m -> own (g_adm s) m ->
  wpp gate_spec (ExecGate_ReleaseOrphan Unmarshal n gate m grace)
    (fun r s' => r = None -> validateLeaseMarker m = None /\ g_last s' = None) s.
Proof.
  intros Hpath Hgiven Hm. unfold ExecGate_ReleaseOrphan. destruct (_ || _); [by apply wpp_ret|].
  destruct (validateLeaseMarker m) eqn:Hv; [by apply wpp_ret|]. apply wpp_bind.
  eapply wpp_mono; [apply wpp_terminateExactProcess; by split; [left|]|]. intros [e|] s1 Hu; [by apply wpp_ret|].
  rewrite Hpath. eapply wpp_mono; [apply wpp_removeLeaseMarker; by eapply own_undisturbed|].
  intros r s2 [_ Hr] Er. split; [done|]. by apply Hr.
Qed.

(** A release that reports no error told the child, saw it exit without an error and
    did not find its marker again. *)
Lemma wpp_lease_Release lease s :
  el_path lease = path -> g_input s = true ->
  wpp gate_spec (lease_Release Unmarshal lease)
    (fun '(lease', r) s' =>
       (r = None -> el_command lease' = false /\ el_input lease' = false /\ g_input s' = false /\
                    g_done s' = true /\ g_last s' <> Some (el_marker lease)) /\
       (el_command lease && el_input lease = false -> r <> None)) s.
Proof.
  intros Hpath Hin. unfold lease_Release. destruct (el_command lease), (el_input lease); cbn [negb orb andb];
    try (apply wpp_ret; split; done).
  apply wpp_bind, wpp_call; [done|]. intros writeErr s1 ->.
  apply wpp_bind, wpp_call; [done|]. intros closeErr s1 ->.
  apply wpp_bind, wpp_call; [done|]. intros waited s2 Hw. apply wpp_bind. rewrite Hpath.
  eapply wpp_mono; [apply wpp_loadLeaseMarker|]. intros loaded s3 [(_ & Hi & _ & Hd) Hl]. apply wpp_ret.
  split; [|done]. intros (_ & _ & Hwe & Hme)%errors_Join_None3. destruct waited as [waitErr|ctxErr]; [|done].
  cbn in Hw. subst s2. split_and!; [done..|]. destruct loaded as [[m|]|e]; [|by destruct Hl as [-> _]|by rewrite Hl].
  destruct Hl as [-> _], (bool_decide (m = el_marker lease)) eqn:E; [done|].
  apply bool_decide_eq_false in E. congruence.
Qed.
End lease.

(** The markers of a lease: its own lease identity and the admission drawn for it. *)
Definition own_lease (leaseID : string) (adm : option string) (m : LeaseMarker) : Prop :=
  lm_LeaseID m = leaseID /\ adm = Some (lm_AdmissionID m).

(** Before anything was observed. *)
Definition nothing_seen : gate_state := mkGateState None None None false false false false.

Lemma wpp_ExecGate_Acquire Unmarshal n gate guard leaseID poll grace :
  wpp (gate_spec Unmarshal (eg_MarkerPath gate) (own_lease leaseID) None)
    (ExecGate_Acquire Unmarshal n gate guard leaseID poll grace)
    (fun r s => acquired_ok (own_lease leaseID) r s /\
                (forall lease, r = Leased lease -> MatchString digestRE leaseID = true)) nothing_seen.
Proof.
  unfold ExecGate_Acquire. destruct (String.eqb (eg_SelfExecutable gate) ""); [by apply wpp_ret; naive_solver|].
  destruct (String.eqb (eg_MarkerPath gate) ""); [by apply wpp_ret; naive_solver|].
  destruct (MatchString digestRE leaseID); cbn [negb orb]; [|by apply wpp_ret; naive_solver].
  destruct (_ || _); [by apply wpp_ret; naive_solver|].
  apply (wpp_mono _ _ (acquired_ok (own_lease leaseID))); [|done].
  apply wpp_bind. eapply wpp_mono; [apply wpp_Preflight|]. intros [e|] s1 ->; [by apply wpp_ret; split; [|left]|].
  apply wpp_bind. eapply wpp_mono; [apply wpp_loadLeaseMarker|].
  intros existing s1 [(Ha & Hi & Hst & _) _].
  destruct existing as [[m|]|e]; [by apply wpp_ret; split; [|left]| |by apply wpp_ret; split; [|left]].
  apply wpp_bind, wpp_call; [done|]. intros [bytes|e] s2 ->; [|by apply wpp_ret; split; [|left]].
  apply wpp_bind, wpp_call; [done|]. intros [e|] s2 ->; [by apply wpp_ret; split; [|left]|].
  apply wpp_bind, wpp_call; [done|]. intros [e|] s2 ->.
  - apply wpp_bind, wpp_call; [done|]. intros _ s2 ->. apply wpp_ret. split; [done|]. by left.
  - apply wpp_admission_loop. split_and!; [|done..]. intros m El Ea. split; [exact El|]. cbn. by rewrite Ea.
Qed.

(** C35. [ExecGate_Acquire], whatever the file system, the process table and the child
    do: it only ever reads and removes the marker file, removes it only on having read
    a marker of its own lease and its own admission, kills only the process that the marker
    read last names as its holder, on having just observed that process with the start
    ticks of the marker and only when that marker is of its own lease and admission, and
    starts and signals only its own child.
    A granted lease carries a valid marker of this very admission, read last and whose
    holder was observed alive, with the child's input open.  A failure leaves the input
    closed and, unless it is reported as ambiguous, either no child was started or its
    exit was observed and no marker of it remained.  Releasing an orphan acts on that
    exact marker and process only, and a release of a lease reports success only when
    the child exited and the marker is gone. *)
Theorem gate_acts_only_on_its_own_lease Unmarshal n gate guard leaseID poll grace :
  wpp (gate_spec Unmarshal (eg_MarkerPath gate) (own_lease leaseID) None)
    (ExecGate_Acquire Unmarshal n gate guard leaseID poll grace)
    (fun r s => acquired_ok (own_lease leaseID) r s /\
                (forall lease, r = Leased lease -> MatchString digestRE leaseID = true)) nothing_seen /\
  (forall m s,
     wpp (gate_spec Unmarshal (eg_MarkerPath gate) (fun _ => eq m) (Some m))
       (ExecGate_ReleaseOrphan Unmarshal n gate m grace)
       (fun r s' => r = None -> validateLeaseMarker m = None /\ g_last s' = None) s) /\
  (forall lease s, g_input s = true ->
     wpp (gate_spec Unmarshal (el_path lease) (fun _ _ => False) None) (lease_Release Unmarshal lease)
       (fun '(lease', r) s' =>
          (r = None -> el_command lease' = false /\ el_input lease' = false /\ g_input s' = false /\
                       g_done s' = true /\ g_last s' <> Some (el_marker lease)) /\
          (el_command lease && el_input lease = false -> r <> None)) s).
Proof.
  split_and!; [apply wpp_ExecGate_Acquire| |].
  - intros m s. by apply wpp_ReleaseOrphan.
  - intros lease s Hin. by apply wpp_lease_Release.
Qed.

(** ** The child *)

(** How far the marker file of the child has got. *)
Inductive marker_file :=
  | Missing | Created | Written (data : string) | Synced (data : string)
  | Closed (data : string) | Durable (data : string).

Record holder_state := mkHolder {
  h_file : marker_file;
  h_line : option (result string);   (* what the child read from its input *)
  h_last : option LeaseMarker;       (* the valid marker the last read found *)
  h_gone : bool;                     (* the file was removed, or not found *)
}.

Definition set_file (f : marker_file) (s : holder_state) : holder_state :=
  mkHolder f (h_line s) (h_last s) (h_gone s).

Definition incomplete (f : marker_file) : Prop :=
  match f with Created | Written _ | Synced _ | Closed _ => True | Missing | Durable _ => False end.

Section holder.
Context (Marshal : LeaseMarker -> result string) (Unmarshal : string -> result LeaseMarker).
Context (path leaseID admissionID : string) (pid : Z).

Definition own_marker (m : LeaseMarker) : Prop :=
  lm_Version m = 2 /\ lm_LeaseID m = leaseID /\ lm_AdmissionID m = admissionID /\ lm_HolderPID m = pid.

(** The child signals and starts nothing; it removes the file it could not complete, or
    its own marker once it was told to. *)
Definition holder_spec : spec gateE holder_state := {|
  allowed B e s :=
    match e with
    | Remove p => p = path /\
        (incomplete (h_file s) \/
         (h_line s = Some (Ok release_line) /\ exists m, h_last s = Some m /\ own_marker m))
    | CreateExcl p => p = path /\ h_file s = Missing
    | WriteMarker _ => h_file s = Created
    | ReadMarker p => p = path
    | Kill _ _ | SignalGroup _ | StartCmd _ | WriteInput _ | CloseInput => False
    | _ => True
    end;
  answers B e s :=
    match e in gateE B return B -> holder_state -> Prop with
    | CreateExcl _ => fun b s' => s' = match b with None => set_file Created s | Some _ => s end
    | WriteMarker data => fun b s' => s' = match b with None => set_file (Written data) s | Some _ => s end
    | SyncMarker => fun b s' =>
        s' = match b, h_file s with None, Written d => set_file (Synced d) s | _, _ => s end
    | CloseMarker => fun b s' =>
        s' = match b, h_file s with None, Synced d => set_file (Closed d) s | _, _ => s end
    | SyncDirectory _ => fun b s' =>
        s' = match b, h_file s with None, Closed d => set_file (Durable d) s | _, _ => s end
    | Remove _ => fun b s' =>
        s' = match b with None => mkHolder Missing (h_line s) None true | Some _ => s end
    | ReadMarker _ => fun b s' =>
        s' = match b with
             | Ok (Some data) => mkHolder (h_file s) (h_line s) (decode Unmarshal data) (h_gone s)
             | Ok None => mkHolder (h_file s) (h_line s) None true
             | Err _ => mkHolder (h_file s) (h_line s) None (h_gone s)
             end
    | ReadFull => fun b s' => s' = mkHolder (h_file s) (Some b) (h_last s) (h_gone s)
    | _ => fun _ s' => s' = s
    end;
|}.

Lemma wpp_write_steps directory data s :
  h_file s = Created ->
  wpp holder_spec (write_steps directory data)
    (fun r s' => h_line s' = h_line s /\
       match r with None => h_file s' = Durable data | Some _ => incomplete (h_file s') end) s.
Proof.
  intros Hf. unfold write_steps. apply wpp_bind, wpp_call; [done|].
  intros [e|] s1 ->; [apply wpp_ret; by rewrite Hf|].
  apply wpp_bind, wpp_call; [done|]. intros [e|] s1 ->; [done|].
  apply wpp_bind, wpp_call; [done|]. intros [e|] s1 ->; [done|].
  apply wpp_call; [done|]. by intros [e|] s1 ->.
Qed.

(** A marker is written completely, or the file is not left as if it were. *)
Lemma wpp_writeLeaseMarker m s :
  h_file s = Missing ->
  wpp holder_spec (writeLeaseMarker Marshal path m)
    (fun r s' => h_line s' = h_line s /\
       match r with
       | None => validateLeaseMarker m = None /\
                 exists data, Marshal m = Ok data /\ h_file s' = Durable (data +:+ String "010" "")
       | Some _ => incomplete (h_file s') \/ h_file s' = Missing
       end) s.
Proof.
  intros Hf. unfold writeLeaseMarker. destruct (validateLeaseMarker m) eqn:Hv; [apply wpp_ret; auto|].
  apply wpp_bind, wpp_call; [done|]. intros [e|] s1 ->; [apply wpp_ret; auto|].
  apply wpp_bind, wpp_call; [done|]. intros [info|e] s1 ->; [|apply wpp_ret; auto].
  destruct (trusted_dir info); cbn [negb]; [|apply wpp_ret; auto].
  destruct (Marshal m) as [data|e]; [|apply wpp_ret; auto].
  apply wpp_bind, wpp_call; [done|]. intros [e|] s1 ->; [apply wpp_ret; auto|].
  apply wpp_bind. eapply wpp_mono; [by apply wpp_write_steps|]. intros r s1 [Hl Hr].
  apply wpp_bind, wpp_call; [done|]. intros closed s2 ->. destruct r as [e|].
  - apply wpp_bind, wpp_call.
    + split; [done|]. left. destruct closed, (h_file s1) eqn:E1; cbn; by rewrite ?E1.
    + intros removed s3 ->. apply wpp_ret. destruct removed, closed, (h_file s1) eqn:E1; cbn in *; rewrite ?E1; auto.
  - apply wpp_ret. rewrite Hr. destruct closed; (split; [exact Hl|]); (split; [done|]); by exists data.
Qed.

Lemma wpp_holder_load s :
  wpp (holder_spec) (loadLeaseMarker Unmarshal path)
    (fun r s' => h_line s' = h_line s /\ h_file s' = h_file s /\
       match r with Ok (Some m) => h_last s' = Some m | Ok None => h_gone s' = true | Err _ => True end) s.
Proof.
  unfold loadLeaseMarker. apply wpp_bind, wpp_call; [done|].
  intros [[data|]|e] s1 ->; cbv beta iota; [|done..]. unfold decode.
  destruct (Unmarshal data) as [m|e]; [|done].
  destruct (validateLeaseMarker m) eqn:Hv; [done|]. apply wpp_ret. by rewrite bool_decide_true.
Qed.

Lemma wpp_holder_remove m s :
  own_marker m -> h_line s = Some (Ok release_line) ->
  wpp holder_spec (removeLeaseMarker Unmarshal path m)
    (fun r s' => h_line s' = Some (Ok release_line) /\ (r = None -> h_gone s' = true)) s.
Proof.
  intros Hm Hl. unfold removeLeaseMarker. apply wpp_bind. eapply wpp_mono; [apply wpp_holder_load|].
  intros [[current|]|e] s1 (Hl1 & _ & Hr); rewrite Hl in Hl1; [|by apply wpp_ret..].
  destruct (bool_decide (current = m)) eqn:E; cbn [negb]; [|by apply wpp_ret].
  apply bool_decide_eq_true in E as ->. apply wpp_bind, wpp_call; [split; [done|]; right; eauto|].
  intros [e|] s2 ->; [by apply wpp_ret|]. apply wpp_call; [done|]. by intros [e|] s3 ->.
Qed.

(** What the child promises with each of its ends. *)
Definition holder_ok (r : holder_end) (s : holder_state) : Prop :=
  match r with
  | HolderBlocks =>
      (exists line, h_line s = Some line /\ line <> Ok release_line) /\
      exists m data, own_marker m /\ validateLeaseMarker m = None /\ Marshal m = Ok data /\
                     h_file s = Durable (data +:+ String "010" "")
  | HolderReturned None => h_line s = Some (Ok release_line) /\ h_gone s = true
  | HolderReturned (Some e) =>
      h_line s = Some (Ok release_line) \/ h_line s = Some (Err e) \/
      (h_line s = None /\ forall data, h_file s <> Durable data)
  end.

Lemma wpp_RunLeaseHolder s :
  h_file s = Missing -> h_line s = None ->
  wpp holder_spec (RunLeaseHolder Marshal Unmarshal pid leaseID admissionID path) holder_ok s.
Proof.
  intros Hf Hl. assert (forall e s', h_line s' = h_line s -> incomplete (h_file s') \/ h_file s' = Missing ->
    holder_ok (HolderReturned (Some e)) s') as Hfail.
  { intros e s' Hl' Hi. right; right. split; [by rewrite Hl'|]. intros d E. rewrite E in Hi. by destruct Hi. }
  unfold RunLeaseHolder. destruct (_ || _); [apply wpp_ret; auto|].
  unfold processStartTicks. apply wpp_bind. destruct (pid <=? 1); [apply wpp_ret, wpp_ret; auto|].
  apply wpp_bind, wpp_call; [done|]. intros [data|e] s1 ->; apply wpp_ret; [|apply wpp_ret; auto].
  destruct (parse_stat data) as [start|e]; [|apply wpp_ret; auto]. cbv zeta.
  set (m := mkMarker 2 leaseID admissionID pid start). apply wpp_bind.
  eapply wpp_mono; [by apply wpp_writeLeaseMarker|]. intros [e|] s1 [Hl1 Hw]; [apply wpp_ret; auto|].
  destruct Hw as (Hv & bytes & Hb & Hd). apply wpp_bind, wpp_call; [done|].
  assert (own_marker m) as Hm by done. intros line s2 ->.
  assert (forall l, l <> Ok release_line ->
    holder_ok HolderBlocks (mkHolder (h_file s1) (Some l) (h_last s1) (h_gone s1))) as Hblock.
  { intros l Hne. split; [by exists l|]. by exists m, bytes. }
  destruct line as [buffer|e].
  - destruct (String.eqb_spec buffer release_line) as [->|Hne]; [|apply wpp_ret, Hblock; congruence].
    apply wpp_bind. eapply wpp_mono; [by apply wpp_holder_remove|]. intros [e|] s3 [Hl3 Hg]; apply wpp_ret; [by left|].
    split; [done|auto].
  - destruct (_ && _); apply wpp_ret; [right; by left|by apply Hblock].
Qed.
End holder.

(** The child that holds the lease, whatever the system answers: it creates the
    marker file only once, removes it only when it could not be completed or when it
    was told "release" and has read its own marker back, and never signals or starts
    anything.  If its input ends or says anything else it blocks with a complete,
    synced and valid marker of its lease and admission in place, so a crash of the
    dispatcher never frees the resources; it returns success only once it was told to
    release and the marker is gone; and it fails with the marker in place only after
    the release line or a read error. *)
Theorem holder_keeps_its_marker_until_released Marshal Unmarshal path leaseID admissionID pid last :
  wpp (holder_spec Unmarshal path leaseID admissionID pid)
    (RunLeaseHolder Marshal Unmarshal pid leaseID admissionID path)
    (holder_ok Marshal leaseID admissionID pid) (mkHolder Missing None last false).
Proof. by apply wpp_RunLeaseHolder. Qed.

(** ** Concrete runs *)

Section demo.
Definition demo_id : string := EncodeToString (repeat 171 32).
Definition demo_marker : LeaseMarker := mkMarker 2 demo_id demo_id 4242 77.
Definition demo_marshal (m : LeaseMarker) : result string := Ok "m".
Definition demo_unmarshal (data : string) : result LeaseMarker := Ok demo_marker.
Definition demo_stat : string := "4242 (a) b) S 1 2 3 4 5 6 7 8 9 10 11 12 13 14 15 16 17 18 77 20".

(** A machine: the marker file, and the reads until the child writes it. *)
Definition demo_handle B (e : gateE B) : St (option string * nat) B :=
  match e with
  | ReadMarker _ => fun '(file, n) =>
      match n with
      | O => (Ok (Some "m"), (Some "m", O))
      | S n => (Ok None, (file, n))
      end
  | RejectSymlinks _ => fun w => (None, w)
  | Lstat _ => fun w => (Ok (mkDirInfo true false 493 true), w)
  | CreateExcl _ => fun w => (None, (Some "", snd w))
  | WriteMarker d => fun w => (None, (Some d, snd w))
  | SyncMarker | CloseMarker => fun w => (None, w)
  | Remove _ => fun w => (None, (None, snd w))
  | SyncDirectory _ => fun w => (None, w)
  | ReadStat _ => fun w => (Ok demo_stat, w)
  | Kill _ _ => fun w => (None, w)
  | KillSelect => fun w => (KTick, w)
  | Nap => fun w => (tt, w)
  | ReadFull => fun w => (Err (Errorf_s EOF "EOF"), w)
  | TrustedExecutable _ => fun w => (None, w)
  | RandRead => fun w => (Ok (repeat 171 32), w)
  | StdinPipe | StartCmd _ | WriteInput _ | CloseInput => fun w => (None, w)
  | PollSelect _ => fun w => (GTimer, w)
  | WaitTimeout => fun w => (Some None, w)
  | SignalGroup _ => fun w => (None, w)
  | ReleaseSelect => fun w => (inl None, w)
  end.

(** The gate is granted once the child has written its marker. *)
Example gate_demo_leased :
  fst (interp demo_handle
         (ExecGate_Acquire demo_unmarshal 8 (mkGate "/usr/bin/civmctl" LeaseMarkerPath false)
            "/usr/bin/guard" demo_id 10 1000) (None, 3%nat))
  = Leased (mkLease true true demo_marker demo_id demo_id LeaseMarkerPath).
Proof. vm_compute. reflexivity. Qed.

(** A marker found before the start refuses the admission. *)
Example gate_demo_unreconciled :
  fst (interp demo_handle
         (ExecGate_Acquire demo_unmarshal 8 (mkGate "/usr/bin/civmctl" LeaseMarkerPath false)
            "/usr/bin/guard" demo_id 10 1000) (None, 0%nat))
  = LeaseErr (Errorf "an unreconciled guard lease already exists").
Proof. vm_compute. reflexivity. Qed.

(** The input ends without "release": the child blocks on a complete marker. *)
Example holder_demo_blocks :
  interp demo_handle (RunLeaseHolder demo_marshal demo_unmarshal 4242 demo_id demo_id LeaseMarkerPath) (None, 3%nat)
  = (HolderBlocks, (Some ("m" +:+ String "010" ""), 3%nat)).
Proof. vm_compute. reflexivity. Qed.
End demo.

(** The theorem at the machine of the runs: a lease read, owned and observed. *)
Lemma gate_acts_only_on_its_own_lease_witness :
  let lease := mkLease true true demo_marker demo_id demo_id LeaseMarkerPath in
  let s := mkGateState (Some demo_marker) (Some demo_id) (Some (4242, 77)) true true false false in
  wpp (gate_spec demo_unmarshal LeaseMarkerPath (fun _ _ => False) None) (lease_Release demo_unmarshal lease)
    (fun '(lease', r) s' =>
       (r = None -> el_command lease' = false /\ el_input lease' = false /\ g_input s' = false /\
                    g_done s' = true /\ g_last s' <> Some demo_marker) /\
       (true = false -> r <> None)) s.
Proof.
  intros lease s.
  exact (proj2 (proj2 (gate_acts_only_on_its_own_lease demo_unmarshal 8
    (mkGate "/usr/bin/civmctl" LeaseMarkerPath false) "/usr/bin/guard" demo_id 10 1000)) lease s eq_refl).
Defined.
