(* ===== verification/JitHost.v ===== *)
(** * internal/jitdispatcher: the host below the dispatcher

    Trusted files and directories (trusted_file.go, state.go, process_linux.go), the
    machine-wide queue (queue_linux.go), the cgroup containment of the isolation driver
    (containment_linux.go) and the start of the configuration and the store (config.go,
    state.go).  System calls are the effects [hostE]; those of the Guard gate are
    embedded by [Gate], and [gate_host] replaces the ones that have code here.

    [os.NewFile] is nil only for a negative descriptor, which [syscall.Open] does not
    return; the nil checks on commands have no counterpart. *)

From S2P Require Import Prelude GoStrings Regex Prog JitTypes JitConfig JitState JitGate.

Local Open Scope string_scope.
Local Open Scope list_scope.
Local Open Scope Z_scope.

(** What [Stat] and [Lstat] tell. *)
Record FileInfo := mkFileInfo {
  st_IsRegular : bool;
  st_IsDir : bool;
  st_Symlink : bool;
  st_Perm : Z;
  st_Size : Z;
  st_Uid : Z;
}.

(** One round of a polling [select]. *)
Inductive poll_event := PDone (err : error) | PDeadline | PTick.

Inductive hostE : Type -> Type :=
  | Gate {B} (e : gateE B) : hostE B
  | LstatFile (path : string) : hostE (result FileInfo)
  | MkdirAll (path : string) (mode : Z) : hostE err_ret
  | Mkdir (path : string) : hostE err_ret                        (* 0700 *)
  | OpenFile (path : string) : hostE (result Z)                  (* os.Open *)
  | OpenNoFollow (path : string) (create : bool) : hostE (result Z)
  | FileStat (fd : Z) : hostE (result FileInfo)
  | ReadLimit (fd limit : Z) : hostE (result string)
  | SeekStart (fd : Z) : hostE err_ret
  | SyncFile (fd : Z) : hostE err_ret
  | CloseFile (fd : Z) : hostE err_ret
  | FlockEx (fd : Z) : hostE err_ret                             (* LOCK_EX|LOCK_NB *)
  | FlockUn (fd : Z) : hostE err_ret
  | QueueTimer (poll : Z) : hostE (option error)                 (* Some: ctx.Err() *)
  | ReadProc (path : string) : hostE (result string)             (* os.ReadFile *)
  | ScanLines (fd : Z) : hostE (list string * err_ret)           (* the lines, and scanner.Err *)
  | WriteControl (path data : string) : hostE err_ret            (* os.WriteFile, 0600 *)
  | RemoveDirectory (path : string) : hostE err_ret
  | Getpgid (pid : Z) : hostE (result Z)
  | KillGroup (pgid : Z) (force : bool) : hostE err_ret          (* nil also for ESRCH *)
  | GraceSelect : hostE poll_event                               (* context, deadline or ticker *)
  | ForceSelect : hostE (option error).                          (* 25 ms, or ctx.Err() *)

(** A program of the gate, on the host. *)
Definition on_host {A} (m : prog gateE A) : prog hostE A := link (fun B e => call (Gate e)) m.

Section host.
(** [os.Geteuid], and [sha256.Sum256]. *)
Context (euid : Z) (sha256 : string -> list Z).

Definition ownedByCurrentUser (info : FileInfo) : bool := st_Uid info =? euid.
Definition ownedByTrustedAdmin (info : FileInfo) : bool := (st_Uid info =? 0) || (st_Uid info =? euid).

(** ** Files *)

Fixpoint reject_parts (current : string) (parts : list string) : prog hostE err_ret :=
  match parts with
  | [] => mret None
  | part :: parts =>
      if String.eqb part "" then reject_parts current parts
      else
        let current := PathJoin current part in
        info ← call (LstatFile current);
        match info with
        | Err e => if errors_Is e ErrNotExist then mret None else mret (Some e)
        | Ok info => if st_Symlink info then mret (Some (Errorf ("symlink component is forbidden: " +:+ current)))
                     else reject_parts current parts
        end
  end.

Definition rejectSymlinkComponents (path : string) : prog hostE err_ret :=
  reject_parts "/" (Split "/" (TrimPrefix (Clean path) "/")).

(** Permissions for others than the owner: 0o077; write permissions for them: 0o022. *)
Definition owner_only (info : FileInfo) : bool := Z.land (st_Perm info) 63 =? 0.
Definition unwritable (info : FileInfo) : bool := Z.land (st_Perm info) 18 =? 0.

Definition ensureDirectory (path : string) (mode : Z) : prog hostE err_ret :=
  e ← rejectSymlinkComponents path;
  match e with Some e => mret (Some e) | None =>
  e ← call (MkdirAll path mode);
  match e with Some e => mret (Some e) | None =>
  e ← rejectSymlinkComponents path;
  match e with Some e => mret (Some e) | None =>
  info ← call (LstatFile path);
  mret (match info with
        | Err e => Some e
        | Ok info => if negb (st_IsDir info) || negb (owner_only info) || negb (ownedByCurrentUser info)
                     then Some (Errorf (path +:+ " is not an owner-only directory")) else None
        end)
  end end end.

Definition openFileNoFollow (path : string) (create : bool) : prog hostE (result Z) :=
  opened ← call (OpenNoFollow path create);
  match opened with
  | Err e => mret (Err e)
  | Ok fd =>
      info ← call (FileStat fd);
      match info with
      | Err e => call (CloseFile fd);; mret (Err e)
      | Ok info => if negb (st_IsRegular info) then call (CloseFile fd);; mret (Err (Errorf "source is not a regular file"))
                   else mret (Ok fd)
      end
  end.

Definition openNoFollow (path : string) : prog hostE (result Z) := openFileNoFollow path false.

(** The deferred close of a descriptor that is not handed out. *)
Definition unless_ok (fd : Z) (m : prog hostE err_ret) : prog hostE (result Z) :=
  e ← m;
  match e with
  | Some e => call (CloseFile fd);; mret (Err e)
  | None => mret (Ok fd)
  end.

(** 256 MiB *)
Definition maxExecutable : Z := 268435456.

Definition check_executable (fd : Z) (expectedSHA256 : string) : prog hostE err_ret :=
  info ← call (FileStat fd);
  match info with
  | Err e => mret (Some (Errorf_w "trusted executable stat" e))
  | Ok info =>
      if negb (st_IsRegular info) || st_Symlink info || (Z.land (st_Perm info) 73 =? 0) || negb (unwritable info) ||
         negb (ownedByTrustedAdmin info)
      then mret (Some (Errorf "trusted executable metadata is unsafe"))
      else if String.eqb expectedSHA256 "" then mret None
      else if negb (MatchString digestRE expectedSHA256)
      then mret (Some (Errorf_s ErrInvalid "trusted executable digest is invalid"))
      else
        data ← call (ReadLimit fd (maxExecutable + 1));
        match data with
        | Err e => mret (Some (Errorf_w "trusted executable hash" e))
        | Ok data =>
            if (maxExecutable <? st_Size info) || negb (String.eqb (EncodeToString (sha256 data)) expectedSHA256)
            then mret (Some (Errorf "trusted executable digest mismatch"))
            else
              e ← call (SeekStart fd);
              mret (match e with Some e => Some (Errorf_w "trusted executable rewind" e) | None => None end)
        end
  end.

Definition openTrustedExecutable (path expectedSHA256 : string) : prog hostE (result Z) :=
  match validateAbsoluteExecutable path with
  | Some e => mret (Err e)
  | None =>
      e ← rejectSymlinkComponents path;
      match e with
      | Some e => mret (Err e)
      | None =>
          opened ← openNoFollow path;
          match opened with
          | Err e => mret (Err (Errorf_w "trusted executable open" e))
          | Ok fd => unless_ok fd (check_executable fd expectedSHA256)
          end
      end
  end.

Definition validateTrustedExecutable (path expectedSHA256 : string) : prog hostE err_ret :=
  opened ← openTrustedExecutable path expectedSHA256;
  match opened with
  | Err e => mret (Some e)
  | Ok fd => call (CloseFile fd)
  end.

Definition validateTrustedDirectory (name path : string) : prog hostE err_ret :=
  match validateAbsoluteDir path with
  | Some e => mret (Some e)
  | None =>
      e ← rejectSymlinkComponents path;
      match e with
      | Some e => mret (Some e)
      | None =>
          info ← call (LstatFile path);
          mret (match info with
                | Err e => Some (Errorf_w (name +:+ " lstat") e)
                | Ok info => if negb (st_IsDir info) || st_Symlink info || negb (unwritable info) || negb (ownedByTrustedAdmin info)
                             then Some (Errorf (name +:+ " metadata is unsafe")) else None
                end)
      end
  end.

(** [Ok None] is [found == false] without an error. *)
Definition readOwnerOnlyRegular (path : string) (maxBytes : Z) : prog hostE (result (option string)) :=
  if maxBytes <=? 0 then mret (Err (Errorf_s ErrInvalid "file size limit is invalid"))
  else
    e ← rejectSymlinkComponents path;
    match e with
    | Some e => mret (Err e)
    | None =>
        opened ← openNoFollow path;
        match opened with
        | Err e => if errors_Is e ErrNotExist then mret (Ok None) else mret (Err e)
        | Ok fd =>
            info ← call (FileStat fd);
            match info with
            | Err e => call (CloseFile fd);; mret (Err e)
            | Ok info =>
                if negb (st_IsRegular info) || negb (owner_only info) || negb (ownedByCurrentUser info)
                then call (CloseFile fd);; mret (Err (Errorf "file is not an owner-only regular file"))
                else
                  data ← call (ReadLimit fd (maxBytes + 1));
                  call (CloseFile fd);;
                  mret (match data with
                        | Err e => Err e
                        | Ok data => if (len data =? 0) || (maxBytes <? len data) then Err (Errorf "file size is invalid")
                                     else Ok (Some data)
                        end)
            end
        end
    end.

Definition syncDirectory (path : string) : prog hostE err_ret :=
  opened ← call (OpenFile path);
  match opened with
  | Err e => mret (Some (Errorf_w "directory open" e))
  | Ok fd =>
      e ← call (SyncFile fd);
      call (CloseFile fd);;
      mret (match e with Some e => Some (Errorf_w "directory fsync" e) | None => None end)
  end.

(** ** Configuration and store *)

Definition maxConfigBytes : Z := 262144.

(** [decode] is the strict JSON decoder; the parsers are those of [validateConfig]. *)
Definition LoadConfig (decode : string -> result rawConfig) (url_Parse : string -> option URL)
    (ParseDuration : string -> option Z) (path : string) : prog hostE (result Config) :=
  if negb (IsAbs path) || negb (String.eqb (Clean path) path)
  then mret (Err (Errorf_s ErrInvalid "config path must be absolute and clean"))
  else
    data ← readOwnerOnlyRegular path maxConfigBytes;
    mret (match data with
          | Err e => Err (Errorf_sw ErrInvalid "config must be an owner-only regular file" e)
          | Ok None => Err (Errorf_s ErrInvalid "config file does not exist")
          | Ok (Some data) =>
              match decode data with
              | Err e => Err (Errorf_sw ErrInvalid "config JSON" e)
              | Ok raw => validateConfig url_Parse ParseDuration raw
              end
          end).

Record Store := mkStore { sto_dir : string; sto_ledgerDir : string; sto_logDir : string }.

Fixpoint ensure_children (paths : list string) : prog hostE err_ret :=
  match paths with
  | [] => mret None
  | path :: paths =>
      e ← ensureDirectory path 448;
      match e with
      | Some e => mret (Some (Errorf_w "state child directory" e))
      | None => ensure_children paths
      end
  end.

(** 0o700 is 448. *)
Definition OpenStore (dir : string) : prog hostE (result Store) :=
  match validateAbsoluteDir dir with
  | Some e => mret (Err e)
  | None =>
      e ← ensureDirectory dir 448;
      match e with
      | Some e => mret (Err (Errorf_w "state directory" e))
      | None =>
          let store := mkStore dir (PathJoin dir "requests") (PathJoin dir "logs") in
          e ← ensure_children [sto_ledgerDir store; sto_logDir store];
          mret (match e with Some e => Err e | None => Ok store end)
      end
  end.

(** ** The queue *)

(** [None]: the [for] loop used up its fuel. *)
Fixpoint queue_loop (polls : nat) (fd poll : Z) : prog hostE (option (result Z)) :=
  match polls with
  | O => mret None
  | S polls =>
      e ← call (FlockEx fd);
      match e with
      | None => mret (Some (Ok fd))
      | Some e =>
          if negb (errors_Is e EWOULDBLOCK)
          then call (CloseFile fd);; mret (Some (Err (Errorf_w "queue flock" e)))
          else
            done ← call (QueueTimer poll);
            match done with
            | Some e => call (CloseFile fd);; mret (Some (Err (Errorf_sw ErrBusy "" e)))
            | None => queue_loop polls fd poll
            end
      end
  end.

Definition AcquireQueue (polls : nat) (path : string) (poll : Z) : prog hostE (option (result Z)) :=
  if poll <=? 0 then mret (Some (Err (Errorf_s ErrInvalid "queue poll must be positive")))
  else
    opened ← call (OpenNoFollow path true);
    match opened with
    | Err e => mret (Some (Err (Errorf_w "queue open" e)))
    | Ok fd =>
        let unsafe := Errorf "queue file metadata is unsafe" in
        info ← call (FileStat fd);
        match info with
        | Err e => call (CloseFile fd);; mret (Some (Err (errors_Join2 unsafe e)))
        | Ok info =>
            if negb (st_IsRegular info) || negb (owner_only info) || negb (ownedByTrustedAdmin info)
            then call (CloseFile fd);; mret (Some (Err unsafe))
            else queue_loop polls fd poll
        end
    end.

(** The descriptor behind the pointer; [None] once closed. *)
Definition queue_Close (lock : option Z) : prog hostE (option Z * err_ret) :=
  match lock with
  | None => mret (None, None)
  | Some fd =>
      unlockErr ← call (FlockUn fd);
      closeErr ← call (CloseFile fd);
      mret (None, errors_Join unlockErr closeErr)
  end.

(** ** Containment *)

(** The fields exist for tests: production has an empty root and no [verifyMembership]. *)
Record CgroupContainment := mkContainment {
  cc_root : string;
  cc_verifyMembership : option (Z -> string -> prog hostE (result bool));
}.

Fixpoint unified_line (lines : list string) : string :=
  match lines with
  | [] => ""
  | line :: lines => if HasPrefix line "0::/" || String.eqb line "0::/" then TrimPrefix line "0::" else unified_line lines
  end.

Definition delegatedCgroupRoot : prog hostE (result string) :=
  opened ← call (OpenFile "/proc/self/cgroup");
  match opened with
  | Err e => mret (Err (Errorf_w "read self cgroup" e))
  | Ok fd =>
      scanned ← call (ScanLines fd);
      let '(lines, scanErr) := scanned in
      let relative := unified_line lines in
      r ← (match (if String.eqb relative "" then scanErr else None) with
           | Some e => mret (Err e)
           | None =>
               if String.eqb relative "" || negb (IsAbs relative) || Contains relative ".."
               then mret (Err (Errorf "cgroup v2 delegation is unavailable"))
               else
                 let root := PathJoin "/sys/fs/cgroup" relative in
                 info ← call (LstatFile root);
                 mret (match info with
                       | Err _ => Err (Errorf "delegated cgroup root is unavailable")
                       | Ok info => if negb (st_IsDir info) || st_Symlink info
                                    then Err (Errorf "delegated cgroup root is unavailable") else Ok (Clean root)
                       end)
           end);
      call (CloseFile fd);; mret r
  end.

Definition pathForLease (c : CgroupContainment) (leaseID : string) : prog hostE (result string) :=
  if negb (MatchString digestRE leaseID) then mret (Err (Errorf_s ErrInvalid "cgroup lease identity is invalid"))
  else
    root ← (if String.eqb (cc_root c) "" then delegatedCgroupRoot
            else if negb (IsAbs (cc_root c)) || negb (String.eqb (Clean (cc_root c)) (cc_root c))
            then mret (Err (Errorf_s ErrInvalid "injected cgroup root is invalid"))
            else mret (Ok (cc_root c)));
    mret (match root with Err e => Err e | Ok root => Ok (PathJoin root ("civm-jit-" +:+ leaseID)) end).

Definition cgroupPathForLease (leaseID : string) : prog hostE (result string) := pathForLease (mkContainment "" None) leaseID.

Definition validateProcessIdentity (identity : ProcessIdentity) : err_ret :=
  if (pi_PID identity <=? 1) || (pi_StartTicks identity =? 0) || negb (pi_ProcessGroup identity =? pi_PID identity) ||
     negb (IsAbs (pi_CgroupPath identity)) || negb (String.eqb (Clean (pi_CgroupPath identity)) (pi_CgroupPath identity)) ||
     negb (HasPrefix (Base (pi_CgroupPath identity)) "civm-jit-")
  then Some (Errorf_s ErrInvalid "process containment identity is invalid") else None.

Fixpoint populated (lines : list string) : result bool :=
  match lines with
  | [] => Err (Errorf "cgroup.events lacks populated state")
  | line :: lines =>
      match Fields line with
      | [key; value] => if String.eqb key "populated" then Ok (String.eqb value "0") else populated lines
      | _ => populated lines
      end
  end.

Definition cgroupEmpty (path : string) : prog hostE (result bool) :=
  data ← call (ReadProc (PathJoin path "cgroup.events"));
  mret (match data with
        | Err e => if errors_Is e ErrNotExist then Ok true else Err e
        | Ok data => populated (Split "010" data)
        end).

Definition host_processStartTicks (pid : Z) : prog hostE (result Z) := on_host (processStartTicks pid).
Definition host_processIdentityAlive (pid start : Z) : prog hostE (result bool) := on_host (processIdentityAlive pid start).

(** The errors of the checks in [Prepare]. *)
Definition open_cgroup (child : string) : prog hostE (result Z) :=
  opened ← call (OpenFile child);
  match opened with
  | Err e => call (RemoveDirectory child);; mret (Err (Errorf_w "open delegated cgroup" e))
  | Ok fd => mret (Ok fd)
  end.

Definition Prepare (c : CgroupContainment) (leaseID : string) : prog hostE (result Z) :=
  if negb (MatchString digestRE leaseID) then mret (Err (Errorf_s ErrInvalid "containment identity is invalid"))
  else
    child ← pathForLease c leaseID;
    match child with
    | Err e => mret (Err e)
    | Ok child =>
        made ← call (Mkdir child);
        match made with
        | None => open_cgroup child
        | Some e =>
            if negb (errors_Is e ErrExist) then mret (Err (Errorf_w "create delegated cgroup" e))
            else
              let stale := Errorf "stale delegated cgroup requires recovery" in
              empty ← cgroupEmpty child;
              match empty with
              | Err e => mret (Err (errors_Join2 stale e))
              | Ok false => mret (Err stale)
              | Ok true =>
                  removed ← call (RemoveDirectory child);
                  match removed with
                  | Some e => mret (Err (Errorf_w "remove stale empty cgroup" e))
                  | None =>
                      made ← call (Mkdir child);
                      match made with
                      | Some e => mret (Err (Errorf_w "recreate delegated cgroup" e))
                      | None => open_cgroup child
                      end
                  end
              end
        end
    end.

Fixpoint member_line (expected : string) (lines : list string) : result bool :=
  match lines with
  | [] => Err (Errorf "unified cgroup identity is unavailable")
  | line :: lines =>
      if HasPrefix line "0::/" then
        let actual := Clean (PathJoin "/sys/fs/cgroup" (TrimPrefix line "0::/")) in
        Ok (String.eqb actual expected || HasPrefix actual (expected +:+ "/"))
      else member_line expected lines
  end.

Definition processInCgroup (pid : Z) (expected : string) : prog hostE (result bool) :=
  data ← call (ReadProc ("/proc/" +:+ Itoa pid +:+ "/cgroup"));
  mret (match data with
        | Err e => Err e
        | Ok data => member_line expected (Split "010" data)
        end).

Definition Attach (c : CgroupContainment) (pid : Z) (leaseID : string) : prog hostE (result ProcessIdentity) :=
  if (pid <=? 1) || negb (MatchString digestRE leaseID)
  then mret (Err (Errorf_s ErrInvalid "containment identity is invalid"))
  else
    start ← host_processStartTicks pid;
    match start with Err e => mret (Err (Errorf_w "read process identity" e)) | Ok start =>
    child ← pathForLease c leaseID;
    match child with Err e => mret (Err e) | Ok child =>
    inCgroup ← default processInCgroup (cc_verifyMembership c) pid child;
    match inCgroup with
    | Err e => mret (Err (Errorf_w "verify process cgroup" e))
    | Ok false => mret (Err (Errorf "process was not born in its delegated cgroup"))
    | Ok true =>
    processGroup ← call (Getpgid pid);
    match processGroup with
    | Err e => mret (Err (errors_Join2 (Errorf "process group identity is invalid") e))
    | Ok processGroup =>
    if negb (processGroup =? pid) then mret (Err (Errorf "process group identity is invalid")) else
    after ← host_processStartTicks pid;
    mret (match after with
          | Err _ => Err (Errorf "process identity changed during cgroup verification")
          | Ok after => if negb (after =? start) then Err (Errorf "process identity changed during cgroup verification")
                        else Ok (mkProcess pid start processGroup child)
          end)
    end end end end.

Definition containment_Alive (identity : ProcessIdentity) : prog hostE (result bool) :=
  match validateProcessIdentity identity with
  | Some e => mret (Err e)
  | None => host_processIdentityAlive (pi_PID identity) (pi_StartTicks identity)
  end.

Definition signalExactProcessGroup (identity : ProcessIdentity) (force : bool) : prog hostE err_ret :=
  alive ← host_processIdentityAlive (pi_PID identity) (pi_StartTicks identity);
  match alive with
  | Err e => mret (Some e)
  | Ok false => mret None
  | Ok true => call (KillGroup (pi_ProcessGroup identity) force)
  end.

Definition containmentGone (identity : ProcessIdentity) (cgroupPath : string) : prog hostE (result bool) :=
  empty ← cgroupEmpty cgroupPath;
  match empty with
  | Err e => mret (Err e)
  | Ok empty =>
      alive ← (if 0 <? pi_PID identity then host_processIdentityAlive (pi_PID identity) (pi_StartTicks identity)
               else mret (Ok false));
      match alive with
      | Err e => mret (Err e)
      | Ok alive =>
          if negb empty || alive then mret (Ok false)
          else
            removed ← call (RemoveDirectory cgroupPath);
            mret (match removed with
                  | Some e => if errors_Is e ErrNotExist then Ok true else Err e
                  | None => Ok true
                  end)
      end
  end.

Fixpoint forced_loop (attempts : nat) (identity : ProcessIdentity) (cgroupPath : string) (acc : err_ret) : prog hostE err_ret :=
  match attempts with
  | O => mret (errors_Join acc (Some (Errorf "driver process or cgroup survived forced termination")))
  | S attempts =>
      gone ← containmentGone identity cgroupPath;
      match gone with
      | Err e => mret (errors_Join acc (Some e))
      | Ok true => mret acc
      | Ok false =>
          done ← call ForceSelect;
          match done with
          | Some e => mret (errors_Join acc (Some e))
          | None => forced_loop attempts identity cgroupPath acc
          end
      end
  end.

(** The deadline: kill the group of the process and the whole cgroup. *)
Definition force (identity : ProcessIdentity) (cgroupPath : string) (acc : err_ret) : prog hostE err_ret :=
  signalled ← (if 0 <? pi_PID identity then signalExactProcessGroup identity true else mret None);
  let acc := errors_Join acc signalled in
  killErr ← call (WriteControl (PathJoin cgroupPath "cgroup.kill") "1");
  let acc := match killErr with
             | Some e => if errors_Is e ErrNotExist then acc else errors_Join acc (Some (Errorf_w "kill cgroup" e))
             | None => acc
             end in
  forced_loop 80 identity cgroupPath acc.

(** [None]: the ticks before the deadline used up the fuel. *)
Fixpoint grace_loop (ticks : nat) (identity : ProcessIdentity) (cgroupPath : string) (acc : err_ret)
    : prog hostE (option err_ret) :=
  match ticks with
  | O => mret None
  | S ticks =>
      gone ← containmentGone identity cgroupPath;
      match gone with
      | Err e => mret (Some (errors_Join acc (Some e)))
      | Ok true => mret (Some acc)
      | Ok false =>
          event ← call GraceSelect;
          match event with
          | PDone e => mret (Some (errors_Join acc (Some e)))
          | PDeadline => r ← force identity cgroupPath acc; mret (Some r)
          | PTick => grace_loop ticks identity cgroupPath acc
          end
      end
  end.

Definition terminateContainment (ticks : nat) (identity : ProcessIdentity) (cgroupPath : string) (grace : Z)
    : prog hostE (option err_ret) :=
  if (grace <=? 0) || (Minute <? grace) then mret (Some (Some (Errorf_s ErrInvalid "containment grace is invalid")))
  else if 0 <? pi_PID identity then
    alive ← host_processIdentityAlive (pi_PID identity) (pi_StartTicks identity);
    match alive with
    | Err e => mret (Some (Some e))
    | Ok true => signalled ← signalExactProcessGroup identity false; grace_loop ticks identity cgroupPath signalled
    | Ok false => grace_loop ticks identity cgroupPath None
    end
  else grace_loop ticks identity cgroupPath None.

Definition containment_Terminate (ticks : nat) (identity : ProcessIdentity) (grace : Z) : prog hostE (option err_ret) :=
  match validateProcessIdentity identity with
  | Some e => mret (Some (Some e))
  | None => terminateContainment ticks identity (pi_CgroupPath identity) grace
  end.

Definition containment_Recover (ticks : nat) (c : CgroupContainment) (leaseID : string) (identity : ProcessIdentity) (grace : Z)
    : prog hostE (option err_ret) :=
  expected ← pathForLease c leaseID;
  match expected with
  | Err e => mret (Some (Some e))
  | Ok expectedPath =>
      let invalid :=
        if pi_PID identity =? 0 then
          if negb (pi_StartTicks identity =? 0) || negb (pi_ProcessGroup identity =? 0) || negb (String.eqb (pi_CgroupPath identity) "")
          then Some (Errorf_s ErrInvalid "partial recovery process identity") else None
        else
          match validateProcessIdentity identity with
          | Some e => Some e
          | None => if negb (String.eqb (pi_CgroupPath identity) expectedPath)
                    then Some (Errorf_s ErrInvalid "recovery cgroup does not match lease") else None
          end in
      match invalid with
      | Some e => mret (Some (Some e))
      | None => terminateContainment ticks identity expectedPath grace
      end
  end.

(** ** The gate on this host *)

Definition dir_info (info : FileInfo) : DirInfo :=
  mkDirInfo (st_IsDir info) (st_Symlink info) (st_Perm info) (ownedByCurrentUser info).

(** The calls of the gate that have code above. *)
Definition gate_host (B : Type) (e : gateE B) : prog hostE B :=
  match e in gateE B return prog hostE B with
  | ReadMarker path => readOwnerOnlyRegular path 4096
  | RejectSymlinks path => rejectSymlinkComponents path
  | Lstat path => info ← call (LstatFile path); mret (match info with Ok info => Ok (dir_info info) | Err e => Err e end)
  | SyncDirectory path => syncDirectory path
  | TrustedExecutable path => validateTrustedExecutable path ""
  | e => call (Gate e)
  end.
End host.
