(* ===== verification/JitQueue.v ===== *)
(** * The machine-wide queue: one dispatcher at a time

    Any number of processes take the queue with [AcquireQueue] and leave it with
    [queue_Close], interleaved call by call, and may die anywhere: the kernel closes
    their descriptors.  They all open the same file, which no code removes. *)

From S2P Require Import Prelude GoStrings Regex Prog JitTypes JitConfig JitState JitGate JitHost.

Local Open Scope string_scope.
Local Open Scope list_scope.
Local Open Scope Z_scope.

(** ** One process *)

Record queue_view := mkView { q_open : gset Z; q_held : option Z }.

Definition drop_lock (fd : Z) (held : option Z) : option Z := if decide (held = Some fd) then None else held.

Definition queue_spec : spec hostE queue_view := {|
  allowed B e s :=
    match e with
    | OpenNoFollow _ create => create = true
    | FileStat fd | FlockEx fd | FlockUn fd | CloseFile fd => fd ∈ q_open s
    | QueueTimer _ => q_held s = None
    | _ => False
    end;
  answers B e s :=
    match e in hostE B return B -> queue_view -> Prop with
    | OpenNoFollow _ _ => fun b s' =>
        match b with
        | Ok fd => (fd ∉ q_open s) /\ s' = mkView ({[fd]} ∪ q_open s) (q_held s)
        | Err _ => s' = s
        end
    | FlockEx fd => fun b s' => s' = match b with None => mkView (q_open s) (Some fd) | Some _ => s end
    | FlockUn fd => fun b s' => s' = match b with None => mkView (q_open s) (drop_lock fd (q_held s)) | Some _ => s end
    | CloseFile fd => fun _ s' => s' = mkView (q_open s ∖ {[fd]}) (drop_lock fd (q_held s))
    | _ => fun _ s' => s' = s
    end;
|}.

(** The lock is found busy, and waited for, at most so many times. *)
Definition busy_times : spec hostE nat := {|
  allowed B e s := True;
  answers B e s :=
    match e in hostE B return B -> nat -> Prop with
    | QueueTimer _ => fun b s' => b = None -> s = S s'
    | _ => fun _ s' => s' = s
    end;
|}.

(** What the two calls return, and what the process then has. *)
Definition queue_end : Type := option (result Z) + option Z * err_ret.

Definition has_queue (r : queue_end) (s : queue_view) : Prop :=
  match r with
  | inl (Some (Ok fd)) => q_open s = {[fd]} /\ q_held s = Some fd
  | inl None => q_held s = None
  | _ => q_open s = ∅ /\ q_held s = None
  end.

Lemma wpp_queue_loop polls fd poll :
  wpp queue_spec (queue_loop polls fd poll) (fun r => has_queue (inl r)) (mkView {[fd]} None).
Proof.
  induction polls as [|polls IH]; cbn [queue_loop]; [done|].
  apply wpp_bind, wpp_call; [set_solver|]. intros [e|] s ->; [|by apply wpp_ret].
  destruct (negb _).
  - apply wpp_bind, wpp_call; [set_solver|]. intros _ s ->. apply wpp_ret. cbn. split; [set_solver|done].
  - apply wpp_bind, wpp_call; [done|]. intros [e'|] s ->; [|exact IH].
    apply wpp_bind, wpp_call; [set_solver|]. intros _ s ->. apply wpp_ret. cbn. split; [set_solver|done].
Qed.

Section queue.
Context (euid : Z) (polls : nat) (path : string) (poll : Z).

Lemma wpp_AcquireQueue :
  wpp queue_spec (AcquireQueue euid polls path poll) (fun r => has_queue (inl r)) (mkView ∅ None).
Proof.
  unfold AcquireQueue. destruct (poll <=? 0); [by apply wpp_ret|].
  apply wpp_bind, wpp_call; [done|]. intros [fd|e] s; [|intros ->; by apply wpp_ret].
  intros [_ ->]. cbn [q_open q_held]. rewrite union_empty_r_L. apply wpp_bind, wpp_call; [set_solver|]. intros info s ->.
  assert (forall e, wpp queue_spec (call (CloseFile fd);; mret (Some (Err e))) (fun r => has_queue (inl r)) (mkView {[fd]} None)) as Hc.
  { intros e. apply wpp_bind, wpp_call; [set_solver|]. intros _ s ->. apply wpp_ret. cbn. split; [set_solver|done]. }
  destruct info as [info|e]; [|apply Hc]. destruct (_ || _); [apply Hc|]. apply wpp_queue_loop.
Qed.
End queue.

Lemma wpp_queue_Close fd :
  wpp queue_spec (queue_Close (Some fd)) (fun r => has_queue (inr r)) (mkView {[fd]} (Some fd)).
Proof.
  cbn [queue_Close]. apply wpp_bind, wpp_call; [set_solver|]. intros e s Hs.
  assert (q_open s = {[fd]} /\ (q_held s = Some fd \/ q_held s = None)) as [Eo Eh].
  { cbn in Hs. unfold drop_lock in Hs. rewrite decide_True in Hs by done. destruct e; subst s; auto. }
  apply wpp_bind, wpp_call; [cbn; set_solver|]. intros e' s' ->. apply wpp_ret. cbn.
  split; [set_solver|]. unfold drop_lock. destruct Eh as [-> | ->]; [by rewrite decide_True|by rewrite decide_False].
Qed.

(** ** The kernel *)

Record kernel_queue := mkKernel { k_open : gset (Z * Z); k_lock : option (Z * Z) }.

Definition drop_kernel (p fd : Z) (l : option (Z * Z)) : option (Z * Z) := if decide (l = Some (p, fd)) then None else l.

(** Call of process [p]; what is not about the queue file leaves it alone. *)
Definition kernel_does (p : Z) (B : Type) (e : hostE B) (g : kernel_queue) : B -> kernel_queue -> Prop :=
  match e in hostE B return B -> kernel_queue -> Prop with
  | OpenNoFollow _ _ => fun b g' =>
      match b with
      | Ok fd => ((p, fd) ∉ k_open g) /\ g' = mkKernel ({[(p, fd)]} ∪ k_open g) (k_lock g)
      | Err _ => g' = g
      end
  | FlockEx fd => fun b g' =>
      match b with
      | None => (k_lock g = None \/ k_lock g = Some (p, fd)) /\ g' = mkKernel (k_open g) (Some (p, fd))
      | Some _ => g' = g
      end
  | FlockUn fd => fun b g' => g' = match b with None => mkKernel (k_open g) (drop_kernel p fd (k_lock g)) | Some _ => g end
  | CloseFile fd => fun _ g' => g' = mkKernel (k_open g ∖ {[(p, fd)]}) (drop_kernel p fd (k_lock g))
  | _ => fun _ g' => g' = g
  end.

Definition qview (p : Z) (g : kernel_queue) (s : queue_view) : Prop :=
  (forall fd, fd ∈ q_open s <-> (p, fd) ∈ k_open g) /\ (forall fd, q_held s = Some fd <-> k_lock g = Some (p, fd)).

Lemma qview_own p B (e : hostE B) g b g' s :
  qview p g s -> allowed queue_spec e s -> kernel_does p B e g b g' -> exists s', answers queue_spec e s b s' /\ qview p g' s'.
Proof.
  intros [Ho Hl] Hal Hk. destruct e; cbn in *; try (subst g'; eexists; by split); try done.
  - destruct b as [fd|e]; [|subst; by eexists]. destruct Hk as [Hn ->]. eexists. split; [split; [by rewrite Ho|done]|].
    split; cbn; [|done]. intros fd'. rewrite !elem_of_union, Ho, !elem_of_singleton. naive_solver.
  - subst g'. eexists. split; [done|]. split; cbn.
    + intros fd'. rewrite !elem_of_difference, Ho, !elem_of_singleton. naive_solver.
    + intros fd'. unfold drop_lock, drop_kernel. pose proof (Hl fd). pose proof (Hl fd'). repeat case_decide; naive_solver.
  - destruct b as [e|]; [subst; by eexists|]. destruct Hk as [_ ->]. eexists. split; [done|]. split; cbn; [done|]. naive_solver.
  - subst g'. destruct b as [e|]; [by eexists|]. eexists. split; [done|]. split; cbn; [done|].
    intros fd'. unfold drop_lock, drop_kernel. pose proof (Hl fd). pose proof (Hl fd'). repeat case_decide; naive_solver.
Qed.

Lemma qview_other p q B (e : hostE B) g b g' s s0 :
  p <> q -> qview q g s -> qview p g s0 -> allowed queue_spec e s0 -> kernel_does p B e g b g' -> qview q g' s.
Proof.
  intros Hne [Ho Hl] _ Hal Hk. destruct e; cbn in *; try (subst g'; by split); try done.
  - destruct b as [fd|e]; [|by subst]. destruct Hk as [_ ->]. split; cbn; [|done]. intros fd'. rewrite Ho. set_solver.
  - subst g'. split; cbn; [intros fd'; rewrite Ho; set_solver|]. intros fd'. rewrite Hl. unfold drop_kernel. case_decide; naive_solver.
  - destruct b as [e|]; [by subst|]. destruct Hk as [Hf ->]. split; cbn; [done|]. intros fd'. rewrite Hl. naive_solver.
  - subst g'. destruct b as [e|]; [done|]. split; cbn; [done|]. intros fd'. rewrite Hl. unfold drop_kernel. case_decide; naive_solver.
Qed.

(** ** Many processes *)

Section system.
Context (euid : Z) (path : string).

Abbreviation pool := (gmap Z (prog hostE queue_end)).

Definition enter (polls : nat) (poll : Z) : prog hostE queue_end := r ← AcquireQueue euid polls path poll; mret (inl r).
Definition leave (fd : Z) : prog hostE queue_end := r ← queue_Close (Some fd); mret (inr r).

Lemma wpp_enter polls poll : wpp queue_spec (enter polls poll) has_queue (mkView ∅ None).
Proof. apply wpp_bind. eapply wpp_mono; [apply wpp_AcquireQueue|]. intros r s Hr. by apply wpp_ret. Qed.

Lemma wpp_leave fd : wpp queue_spec (leave fd) has_queue (mkView {[fd]} (Some fd)).
Proof. unfold leave. apply wpp_bind. eapply wpp_mono; [apply wpp_queue_Close|]. intros r s Hr. by apply wpp_ret. Qed.

Inductive queue_step : pool * kernel_queue -> pool * kernel_queue -> Prop :=
  | queue_call c c' : pstep kernel_does c c' -> queue_step c c'
  | queue_enter p polls poll (ps : pool) g :
      ps !! p = None -> queue_step (ps, g) (<[p := enter polls poll]> ps, g)
  | queue_leave p fd (ps : pool) g :
      ps !! p = Some (Done (inl (Some (Ok fd)))) -> queue_step (ps, g) (<[p := leave fd]> ps, g)
  | queue_die p (ps : pool) g :
      queue_step (ps, g) (delete p ps, mkKernel (filter (fun x => x.1 <> p) (k_open g))
                                         (match k_lock g with Some (q, _) => if decide (q = p) then None else k_lock g | None => None end)).

Inductive queue_system : pool * kernel_queue -> Prop :=
  | queue_init : queue_system (∅, mkKernel ∅ None)
  | queue_next c c' : queue_system c -> queue_step c c' -> queue_system c'.

(** Process [p] has the queue: [AcquireQueue] has returned and [Close] was not called. *)
Definition inside (c : pool * kernel_queue) (p fd : Z) : Prop := fst c !! p = Some (Done (inl (Some (Ok fd)))).

Record queue_inv (c : pool * kernel_queue) : Prop := {
  qi_conf : conforming queue_spec has_queue qview c;
  qi_alive : forall p fd, (p, fd) ∈ k_open (snd c) -> is_Some (fst c !! p);
  qi_lock : forall p fd, k_lock (snd c) = Some (p, fd) -> is_Some (fst c !! p);
}.

Lemma queue_inv_call c c' : pstep kernel_does c c' -> queue_inv c -> queue_inv c'.
Proof.
  intros Hs [Hc Ho Hl]. split.
  - eapply pstep_conforming; [| |done|done]; intros; [by eapply qview_own|by eapply qview_other].
  - inversion Hs as [p B e k b ps g g' Hp Hk]; subst. cbn in *. intros q fd Hq. rewrite lookup_insert_is_Some'.
    destruct (decide (p = q)) as [|Hne]; [by left|right]. apply (Ho q fd). destruct e; cbn in Hk; try (by subst g'); try done.
    + destruct b; [destruct Hk as [_ ->]; set_solver|by subst].
    + subst g'. set_solver.
    + destruct b; [by subst|by destruct Hk as [_ ->]].
    + subst g'. by destruct b.
  - inversion Hs as [p B e k b ps g g' Hp Hk]; subst. cbn in *. intros q fd Hq. rewrite lookup_insert_is_Some'.
    destruct (decide (p = q)) as [|Hne]; [by left|right]. apply (Hl q fd). destruct e; cbn in Hk; try (by subst g'); try done.
    + destruct b; [destruct Hk as [_ ->]; done|by subst].
    + subst g'. unfold drop_kernel in Hq. by cbn in Hq; case_decide.
    + destruct b; [by subst|destruct Hk as [_ ->]; naive_solver].
    + subst g'. destruct b; [done|]. unfold drop_kernel in Hq. by cbn in Hq; case_decide.
Qed.

Lemma qview_fresh p g : (forall fd, (p, fd) ∉ k_open g) -> (forall fd, k_lock g <> Some (p, fd)) -> qview p g (mkView ∅ None).
Proof. intros Ho Hl. split; cbn; intros fd; [set_solver|]. split; [done|]. intros E. by destruct (Hl fd). Qed.

Lemma qview_unique p g s fd : qview p g s -> q_open s = {[fd]} -> q_held s = Some fd -> s = mkView {[fd]} (Some fd).
Proof. destruct s. cbn. by intros _ -> ->. Qed.

Lemma queue_system_inv c : queue_system c -> queue_inv c.
Proof.
  induction 1 as [|c c' _ IH Hs]; [by split; cbn; try set_solver|].
  inversion Hs as [? ? Hp|p polls poll ps g Hn|p fd ps g Hp|p ps g]; subst; [by eapply queue_inv_call|..]; destruct IH as [Hc Ho Hl]; cbn in *.
  - split; unfold conforming; cbn.
    + intros q m [[<- <-]|[Hne Hq]]%lookup_insert_Some; [|by apply Hc]. exists (mkView ∅ None). split.
      * apply qview_fresh; [intros fd Hin; destruct (Ho _ _ Hin); congruence|intros fd E; destruct (Hl _ _ E); congruence].
      * apply wpp_enter.
    + intros q fd Hq%Ho. by rewrite lookup_insert_is_Some'; right.
    + intros q fd Hq%Hl. by rewrite lookup_insert_is_Some'; right.
  - split; unfold conforming; cbn.
    + intros q m [[<- <-]|[Hne Hq]]%lookup_insert_Some; [|by apply Hc].
      destruct (Hc p _ Hp) as (s & Hv & E1 & E2). exists s. split; [done|]. rewrite (qview_unique _ _ _ _ Hv E1 E2).
      apply wpp_leave.
    + intros q fd' Hq%Ho. by rewrite lookup_insert_is_Some'; right.
    + intros q fd' Hq%Hl. by rewrite lookup_insert_is_Some'; right.
  - split; unfold conforming; cbn.
    + intros q m [Hne Hq]%lookup_delete_Some. destruct (Hc q m Hq) as (s & [Hvo Hvl] & Hw). exists s. split; [|done]. split; cbn.
      * intros fd. rewrite Hvo, elem_of_filter. cbn. naive_solver.
      * intros fd. rewrite Hvl. cbn [snd]. destruct (k_lock g) as [[r fd']|]; [|done]. case_decide; naive_solver.
    + intros q fd [Hne Hq]%elem_of_filter. cbn in Hne. rewrite lookup_delete_ne by done. by eapply Ho.
    + intros q fd. destruct (k_lock g) as [[r fd']|] eqn:E; [|done]. case_decide as D; [done|]. intros [= -> ->].
      rewrite lookup_delete_ne by done. by eapply Hl.
Qed.

(** C8. The queue admits one dispatcher at a time.  Whatever number of processes enter and
    leave it, interleaved call by call and killed anywhere, two that have it are the same;
    the one that has it holds the lock with its only descriptor, and a process that was
    refused, or has left, has neither lock nor descriptor.  A waiting process gives up only
    on an error or with its context: with more polls than the lock is found busy it never
    runs out of them. *)
Theorem queue_admits_one :
  (forall c, queue_system c ->
     (forall p q fd fd', inside c p fd -> inside c q fd' -> p = q) /\
     (forall p fd, inside c p fd -> k_lock (snd c) = Some (p, fd) /\ forall fd', (p, fd') ∈ k_open (snd c) <-> fd' = fd) /\
     (forall p r, fst c !! p = Some (Done r) -> (exists e, r = inl (Some (Err e))) \/ (exists l, r = inr l) ->
        (forall fd, k_lock (snd c) <> Some (p, fd)) /\ forall fd, (p, fd) ∉ k_open (snd c))) /\
  (forall n polls poll, (n < polls)%nat ->
     wpp busy_times (AcquireQueue euid polls path poll) (fun r _ => r <> None) n).
Proof.
  split.
  - intros c Hc%queue_system_inv.
    assert (forall p fd, inside c p fd -> k_lock (snd c) = Some (p, fd) /\ forall fd', (p, fd') ∈ k_open (snd c) <-> fd' = fd) as Hin.
    { intros p fd Hp. destruct (qi_conf _ Hc p _ Hp) as (s & [Ho Hl] & E1 & E2). split; [by apply Hl|].
      intros fd'. rewrite <- Ho, E1. set_solver. }
    split_and!; [|done|].
    + intros p q fd fd' [H1 _]%Hin [H2 _]%Hin. congruence.
    + intros p r Hp Hr. destruct (qi_conf _ Hc p _ Hp) as (s & [Ho Hl] & Hq).
      assert (q_open s = ∅ /\ q_held s = None) as [E1 E2] by (destruct Hr as [[e ->]|[l ->]]; exact Hq).
      split; intros fd; [rewrite <- Hl, E2; done|rewrite <- Ho, E1; set_solver].
  - intros n polls poll Hn. unfold AcquireQueue. destruct (poll <=? 0); [done|].
    apply wpp_bind, wpp_call; [done|]. intros [fd|e] s ->; [|done]. apply wpp_bind, wpp_call; [done|]. intros info s ->.
    assert (forall e, wpp busy_times (call (CloseFile fd);; mret (Some (Err e))) (fun (r : option (result Z)) _ => r <> None) n) as Hclose.
    { intros e. apply wpp_bind, wpp_call; [done|]. intros _ s _. by apply wpp_ret. }
    destruct info as [info|e]; [|apply Hclose]. destruct (_ || _); [apply Hclose|]. clear Hclose.
    revert n Hn. induction polls as [|polls IH]; intros n Hn; [lia|]. cbn [queue_loop].
    apply wpp_bind, wpp_call; [done|]. intros [e|] s ->; [|done]. destruct (negb _).
    + apply wpp_bind, wpp_call; [done|]. intros _ s _. by apply wpp_ret.
    + apply wpp_bind, wpp_call; [done|]. intros [e'|] s Hs.
      * apply wpp_bind, wpp_call; [done|]. intros _ s' _. by apply wpp_ret.
      * specialize (Hs eq_refl). subst n. apply IH. lia.
Qed.
End system.

(** A step of the only process. *)
Lemma queue_run euid path p B (e : hostE B) k b g g' :
  queue_system euid path ({[p := Call e k]}, g) -> kernel_does p B e g b g' -> queue_system euid path ({[p := k b]}, g').
Proof.
  intros Hs Hk. eapply queue_next; [exact Hs|]. apply queue_call.
  replace ({[p := k b]} : gmap Z (prog hostE queue_end)) with (<[p := k b]> ({[p := Call e k]} : gmap Z (prog hostE queue_end)))
    by apply insert_singleton_eq.
  econstructor; [apply lookup_singleton_eq|done].
Qed.

(** Process 1 enters the empty queue and has it. *)
Lemma queue_admits_one_witness :
  exists c, queue_system 0 MachineLockPath c /\ inside c 1 3 /\ k_lock (snd c) = Some (1, 3) /\
    forall q fd, inside c q fd -> q = 1.
Proof.
  assert (queue_system 0 MachineLockPath ({[1 := enter 0 MachineLockPath 5 Second]}, mkKernel ∅ None)) as H0
    by (eapply queue_next; [apply queue_init|]; by apply queue_enter).
  pose proof (queue_run _ _ 1 _ (OpenNoFollow MachineLockPath true) _ (Ok 3) _ _ H0 (conj (not_elem_of_empty _) eq_refl)) as H1.
  pose proof (queue_run _ _ 1 _ (FileStat 3) _ (Ok (mkFileInfo true false false 384 0 0)) _ _ H1 eq_refl) as H2.
  pose proof (queue_run _ _ 1 _ (FlockEx 3) _ None _ _ H2 (conj (or_introl eq_refl) eq_refl)) as H3.
  destruct (queue_admits_one 0 MachineLockPath) as [Hq _]. destruct (Hq _ H3) as (Hsame & Hlock & _).
  eexists. split; [exact H3|]. split; [reflexivity|]. split; [by apply (Hlock 1 3)|]. intros q fd Hf. by apply (Hsame q 1 fd 3).
Defined.
