(* ===== verification/JitHostSafety.v ===== *)
(** * The host below the dispatcher: properties

    Whatever the system calls answer: an executable, a directory or a file is trusted only
    with the right owner and permissions, read through a descriptor opened without
    following links, and no descriptor is left behind; the containment signals only the
    group of the process it has just identified, and reports success only when the cgroup
    is empty, the process is gone and the directory is removed. *)

From S2P Require Import Prelude GoStrings Regex Prog JitTypes JitConfig JitState JitGate JitHost.

Local Open Scope string_scope.
Local Open Scope list_scope.
Local Open Scope Z_scope.

(** ** Files *)

(** A look at a path. *)
Inductive look := Missing | Link | Plain (info : FileInfo) | Unknown.

Record files := mkFiles {
  f_open : gset Z;
  f_info : gmap Z FileInfo;        (* the last [Stat] of a descriptor *)
  f_data : gmap Z string;          (* what was read from it *)
  f_start : gset Z;                (* rewound after that *)
  f_looks : list (string * look);  (* the looks at paths, in order *)
}.

Definition open_fd (fd : Z) (s : files) : files :=
  mkFiles ({[fd]} ∪ f_open s) (delete fd (f_info s)) (delete fd (f_data s)) ({[fd]} ∪ f_start s) (f_looks s).
Definition close_fd (fd : Z) (s : files) : files := mkFiles (f_open s ∖ {[fd]}) (f_info s) (f_data s) (f_start s) (f_looks s).
Definition see (path : string) (l : look) (s : files) : files :=
  mkFiles (f_open s) (f_info s) (f_data s) (f_start s) (f_looks s ++ [(path, l)]).

Definition look_of (r : result FileInfo) : look :=
  match r with
  | Ok info => if st_Symlink info then Link else Plain info
  | Err e => if errors_Is e ErrNotExist then Missing else Unknown
  end.

(** The directories of a path, from the root down. *)
Fixpoint prefixes (current : string) (parts : list string) : list string :=
  match parts with
  | [] => []
  | part :: parts => if String.eqb part "" then prefixes current parts
                     else PathJoin current part :: prefixes (PathJoin current part) parts
  end.

Definition components (path : string) : list string := prefixes "/" (Split "/" (TrimPrefix (Clean path) "/")).

(** A walk down a path met no symbolic link, up to its end or to what does not exist. *)
Fixpoint walked (looks : list (string * look)) (l : list string) : Prop :=
  match looks, l with
  | [], [] => True
  | [(p, Missing)], q :: _ => p = q
  | (p, Plain _) :: looks, q :: l => p = q /\ walked looks l
  | _, _ => False
  end.

(** The last looks were such a walk. *)
Definition just_walked (s : files) (path : string) : Prop :=
  exists before w, f_looks s = before ++ w /\ walked w (components path).

Definition file_spec : spec hostE files := {|
  allowed B e s :=
    match e with
    | OpenNoFollow path create => create = false /\ just_walked s path
    | FileStat fd | ReadLimit fd _ | SeekStart fd | CloseFile fd => fd ∈ f_open s
    | LstatFile _ => True
    | MkdirAll path mode => just_walked s path /\ mode = 448
    | _ => False
    end;
  answers B e s :=
    match e in hostE B return B -> files -> Prop with
    | OpenNoFollow _ _ => fun b s' => match b with Ok fd => (fd ∉ f_open s) /\ s' = open_fd fd s | Err _ => s' = s end
    | FileStat fd => fun b s' =>
        s' = match b with Ok info => mkFiles (f_open s) (<[fd := info]> (f_info s)) (f_data s) (f_start s) (f_looks s) | Err _ => s end
    | ReadLimit fd limit => fun b s' =>
        match b with
        | Ok data => len data <= limit /\ s' = mkFiles (f_open s) (f_info s) (<[fd := data]> (f_data s)) (f_start s ∖ {[fd]}) (f_looks s)
        | Err _ => s' = mkFiles (f_open s) (f_info s) (delete fd (f_data s)) (f_start s ∖ {[fd]}) (f_looks s)
        end
    | SeekStart fd => fun b s' =>
        s' = match b with None => mkFiles (f_open s) (f_info s) (f_data s) ({[fd]} ∪ f_start s) (f_looks s) | Some _ => s end
    | CloseFile fd => fun _ s' => s' = close_fd fd s
    | LstatFile path => fun b s' => s' = see path (look_of b) s
    | _ => fun _ s' => s' = s
    end;
|}.

(** Only looks were added. *)
Definition looked (s s' : files) (w : list (string * look)) : Prop :=
  s' = mkFiles (f_open s) (f_info s) (f_data s) (f_start s) (f_looks s ++ w).

Lemma wpp_reject_parts current parts s :
  wpp file_spec (reject_parts current parts)
    (fun r s' => exists w, looked s s' w /\ (r = None -> walked w (prefixes current parts))) s.
Proof.
  revert current s. induction parts as [|part parts IH]; intros current s; cbn [reject_parts prefixes].
  { apply wpp_ret. exists []. split; [|done]. destruct s. unfold looked. by rewrite app_nil_r. }
  destruct (String.eqb part ""); [apply IH|]. cbv zeta. set (p := PathJoin current part).
  apply wpp_bind, wpp_call; [done|]. intros r s1 ->. destruct r as [info|e]; cbn [look_of].
  - destruct (st_Symlink info); [apply wpp_ret; by exists [(p, Link)]|].
    eapply wpp_mono; [apply IH|]. intros r s2 (w & -> & Hw). exists ((p, Plain info) :: w).
    split; [unfold looked; cbn; by rewrite <- app_assoc|]. intros Hr. by split; [|apply Hw].
  - destruct (errors_Is e ErrNotExist); apply wpp_ret; [by exists [(p, Missing)]|by exists [(p, Unknown)]].
Qed.

Lemma wpp_reject path s (Q : err_ret -> files -> Prop) :
  (forall e w s', looked s s' w -> Q (Some e) s') ->
  (forall w s', looked s s' w -> just_walked s' path -> Q None s') -> wpp file_spec (rejectSymlinkComponents path) Q s.
Proof.
  intros He Hn. eapply wpp_mono; [apply wpp_reject_parts|]. intros [e|] s' (w & Hs & Hw); [by eapply He|].
  eapply Hn; [exact Hs|]. exists (f_looks s), w. rewrite Hs. cbn. split; [done|]. by apply Hw.
Qed.

Lemma wpp_close {A} fd (a : A) s (Q : A -> files -> Prop) :
  fd ∈ f_open s -> Q a (close_fd fd s) -> wpp file_spec (call (CloseFile fd);; mret a) Q s.
Proof. intros Hf HQ. apply wpp_bind, wpp_call; [done|]. intros _ s' ->. by apply wpp_ret. Qed.

(** The descriptor [fd] is the only new one. *)
Definition added (fd : Z) (O : gset Z) (s : files) : Prop := (fd ∉ O) /\ f_open s = {[fd]} ∪ O.

Lemma close_added fd O s : added fd O s -> f_open (close_fd fd s) = O.
Proof. intros [Hn E]. cbn. rewrite E. set_solver. Qed.

Lemma added_open fd O s : added fd O s -> fd ∈ f_open s.
Proof. intros [_ ->]. set_solver. Qed.
#[local] Hint Resolve added_open close_added : core.

Lemma wpp_openNoFollow path s (Q : result Z -> files -> Prop) :
  just_walked s path -> (forall e s', f_open s' = f_open s -> Q (Err e) s') ->
  (forall fd s', added fd (f_open s) s' -> fd ∈ f_start s' -> Q (Ok fd) s') -> wpp file_spec (openNoFollow path) Q s.
Proof.
  intros Hw He Hok. unfold openNoFollow, openFileNoFollow. apply wpp_bind, wpp_call; [done|].
  intros [fd|e] s1; [intros [Hn ->]|intros ->; by apply wpp_ret, He].
  assert (added fd (f_open s) (open_fd fd s)) as Ha by done.
  apply wpp_bind, wpp_call; [by eapply added_open|]. intros [info|e] s2 ->.
  - destruct (negb (st_IsRegular info)); [|apply wpp_ret, Hok; [done|cbn; set_solver]].
    apply wpp_close; [by eapply added_open|]. apply He. by apply close_added.
  - apply wpp_close; [by eapply added_open|]. apply He. by apply close_added.
Qed.

Section trust.
Context (euid : Z) (sha256 : string -> list Z).

(** Regular, executable, not writable for group or others, owned by root or this user. *)
Definition trusted_program (info : FileInfo) : Prop :=
  st_IsRegular info = true /\ st_Symlink info = false /\ Z.land (st_Perm info) 73 <> 0 /\ Z.land (st_Perm info) 18 = 0 /\
  (st_Uid info = 0 \/ st_Uid info = euid).

(** What is known of an accepted descriptor: it is at its start, and read there its digest
    is the expected one. *)
Definition trusted_fd (expected : string) (fd : Z) (s : files) : Prop :=
  fd ∈ f_start s /\ exists info, f_info s !! fd = Some info /\ trusted_program info /\
    (expected <> "" -> MatchString digestRE expected = true /\ st_Size info <= maxExecutable /\
       exists data, f_data s !! fd = Some data /\ EncodeToString (sha256 data) = expected).

Lemma wpp_check_executable expected fd O s :
  added fd O s -> fd ∈ f_start s ->
  wpp file_spec (check_executable euid sha256 fd expected)
    (fun r s' => added fd O s' /\ (r = None -> trusted_fd expected fd s')) s.
Proof.
  intros Ha Hs. unfold check_executable. apply wpp_bind, wpp_call; [by eapply added_open|]. intros [info|e] s1 ->; [|by apply wpp_ret].
  destruct (_ || negb (ownedByTrustedAdmin euid info)) eqn:Em; [by apply wpp_ret|].
  assert (trusted_program info) as Ht.
  { unfold unwritable, ownedByTrustedAdmin in Em. bsplit. unfold trusted_program. split_and!; [done|done|lia|lia|].
    match goal with H : _ || _ = true |- _ => apply orb_prop in H as [?|?]; lia end. }
  destruct (String.eqb_spec expected "") as [->|Hne].
  { apply wpp_ret. split; [done|]. intros _. split; [done|]. exists info. cbn. by rewrite lookup_insert_eq. }
  destruct (MatchString digestRE expected) eqn:Ed; cbn [negb]; [|by apply wpp_ret].
  apply wpp_bind, wpp_call; [by eapply added_open|]. intros [data|e] s2; [intros [_ ->]|intros ->; by apply wpp_ret].
  destruct (Z.ltb_spec maxExecutable (st_Size info)); [by apply wpp_ret|].
  destruct (String.eqb_spec (EncodeToString (sha256 data)) expected) as [E|]; cbn [orb negb]; [|by apply wpp_ret].
  apply wpp_bind, wpp_call; [by eapply added_open|]. intros [e|] s3 ->; [by apply wpp_ret|].
  apply wpp_ret. split; [done|]. intros _. split; [cbn; set_solver|]. exists info. cbn. rewrite !lookup_insert_eq.
  split_and!; [done|done|]. intros _. split_and!; [done|done|]. by exists data.
Qed.

Lemma looked_open s s' w : looked s s' w -> f_open s' = f_open s.
Proof. by intros ->. Qed.

Lemma wpp_openTrustedExecutable path expected s :
  wpp file_spec (openTrustedExecutable euid sha256 path expected)
    (fun r s' => match r with
                 | Ok fd => added fd (f_open s) s' /\ trusted_fd expected fd s'
                 | Err _ => f_open s' = f_open s
                 end) s.
Proof.
  unfold openTrustedExecutable. destruct (validateAbsoluteExecutable path); [by apply wpp_ret|].
  apply wpp_bind, wpp_reject; [intros e w s' Hw; apply wpp_ret; by eapply looked_open|].
  intros w s1 Hw%looked_open Hj. rewrite <- Hw. apply wpp_bind, wpp_openNoFollow; [done|intros e s2 E; by apply wpp_ret|].
  intros fd s2 Ha Hs. unfold unless_ok. apply wpp_bind. eapply wpp_mono; [by apply wpp_check_executable|].
  intros [e|] s3 [Ha3 Ht]; [|apply wpp_ret; by split; [|apply Ht]]. apply wpp_close; [by eapply added_open|]. by apply close_added.
Qed.

(** An owner-only file of this user. *)
Definition private_file (info : FileInfo) : Prop :=
  st_IsRegular info = true /\ Z.land (st_Perm info) 63 = 0 /\ st_Uid info = euid.

Lemma wpp_readOwnerOnlyRegular path maxBytes s :
  wpp file_spec (readOwnerOnlyRegular euid path maxBytes)
    (fun r s' => f_open s' = f_open s /\
       forall data, r = Ok (Some data) -> 0 < len data <= maxBytes /\
         exists fd info, f_info s' !! fd = Some info /\ private_file info /\ f_data s' !! fd = Some data) s.
Proof.
  unfold readOwnerOnlyRegular. destruct (maxBytes <=? 0); [by apply wpp_ret|].
  apply wpp_bind, wpp_reject; [intros e w s' Hw; apply wpp_ret; by split; [eapply looked_open|]|].
  intros w s1 Hw%looked_open Hj. rewrite <- Hw. apply wpp_bind, wpp_openNoFollow; [done| |].
  { intros e s2 E. destruct (errors_Is e ErrNotExist); by apply wpp_ret. }
  intros fd s2 Ha _. pose proof (added_open _ _ _ Ha) as Hin. apply wpp_bind, wpp_call; [done|]. intros [info|e] s3 ->.
  2: { apply wpp_close; [done|]. by split; [apply close_added|]. }
  destruct (_ || negb (ownedByCurrentUser euid info)) eqn:Em.
  { apply wpp_close; [done|]. by split; [apply close_added|]. }
  assert (private_file info) as Hp.
  { unfold owner_only, ownedByCurrentUser in Em. bsplit. unfold private_file. split_and!; [done|lia|lia]. }
  apply wpp_bind, wpp_call; [done|]. intros [data|e] s4; [intros [_ ->]|intros ->]; (apply wpp_close; [done|]).
  2: { by split; [apply close_added|]. }
  split; [by apply close_added|]. destruct ((len data =? 0) || (maxBytes <? len data)) eqn:El; [done|]. intros data' E. assert (data' = data) as -> by congruence.
  apply orb_false_iff in El as [E1%Z.eqb_neq E2%Z.ltb_ge].
  split; [unfold len in *; lia|]. exists fd, info. cbn. by rewrite !lookup_insert_eq.
Qed.

(** The directory was looked at, and is one of this user that nobody else can enter. *)
Definition private_dir (path : string) (s : files) : Prop :=
  exists info, (path, look_of (Ok info)) ∈ f_looks s /\ st_IsDir info = true /\ Z.land (st_Perm info) 63 = 0 /\ st_Uid info = euid.

Lemma private_dir_looked path s s' w : looked s s' w -> private_dir path s -> private_dir path s'.
Proof. intros -> (info & Hin & Hi). exists info. split; [cbn; apply elem_of_app; by left|done]. Qed.

(** Files are neither opened nor closed, and looks are kept. *)
Definition only_looks (s s' : files) : Prop := exists w, looked s s' w.

Lemma only_looks_refl s : only_looks s s.
Proof. exists []. unfold looked. destruct s. by rewrite app_nil_r. Qed.

Lemma only_looks_trans s1 s2 s3 : only_looks s1 s2 -> only_looks s2 s3 -> only_looks s1 s3.
Proof. intros [w1 ->] [w2 ->]. exists (w1 ++ w2). unfold looked. cbn. by rewrite app_assoc. Qed.

Lemma only_looks_see path l s : only_looks s (see path l s).
Proof. by exists [(path, l)]. Qed.

Lemma wpp_ensureDirectory path s :
  wpp file_spec (ensureDirectory euid path 448) (fun r s' => only_looks s s' /\ (r = None -> private_dir path s')) s.
Proof.
  unfold ensureDirectory. apply wpp_bind, wpp_reject; [intros e w s' Hw; apply wpp_ret; by split; [exists w|]|].
  intros w s1 Hw Hj. apply wpp_bind, wpp_call; [done|]. intros [e|] s2 ->; [apply wpp_ret; by split; [exists w|]|].
  assert (only_looks s s1) as H1 by (by exists w).
  apply wpp_bind, wpp_reject; [intros e w' s' Hw'; apply wpp_ret; split; [|done]; eapply only_looks_trans; [done|by exists w']|].
  intros w' s2 Hw' _. assert (only_looks s s2) as H2 by (eapply only_looks_trans; [done|by exists w']).
  apply wpp_bind, wpp_call; [done|]. intros r s3 ->. apply wpp_ret. split; [eapply only_looks_trans; [done|apply only_looks_see]|].
  destruct r as [info|e]; [|done]. destruct (_ || _) eqn:E; [done|]. intros _. unfold owner_only, ownedByCurrentUser in E. bsplit.
  exists info. split_and!; [|done|lia|lia]. cbn. apply elem_of_app. right. by left.
Qed.

Lemma wpp_OpenStore dir s :
  wpp file_spec (OpenStore euid dir)
    (fun r s' => only_looks s s' /\
       forall store, r = Ok store -> Forall (fun d => private_dir d s') [dir; sto_ledgerDir store; sto_logDir store]) s.
Proof.
  unfold OpenStore. destruct (validateAbsoluteDir dir); [apply wpp_ret; by split; [apply only_looks_refl|]|].
  apply wpp_bind. eapply wpp_mono; [apply wpp_ensureDirectory|]. intros [e|] s1 [H1 Hp1]; [by apply wpp_ret|].
  specialize (Hp1 eq_refl). cbv zeta. cbn [sto_ledgerDir sto_logDir ensure_children]. apply wpp_bind, wpp_bind.
  eapply wpp_mono; [apply wpp_ensureDirectory|]. intros [e|] s2 [H2 Hp2].
  { apply wpp_ret, wpp_ret. split; [by eapply only_looks_trans|done]. }
  specialize (Hp2 eq_refl). apply wpp_bind. eapply wpp_mono; [apply wpp_ensureDirectory|]. intros e s3 [H3 Hp3].
  assert (only_looks s s3) as H by (do 2 (eapply only_looks_trans; [done|]); done).
  destruct e as [e|]; [by apply wpp_ret, wpp_ret|]. apply wpp_ret, wpp_ret. split; [done|]. intros store [= <-]. cbn.
  destruct H2 as [w2 H2], H3 as [w3 H3]. repeat constructor; [|by eapply private_dir_looked|by apply Hp3].
  eapply private_dir_looked; [exact H3|]. by eapply private_dir_looked.
Qed.

(** The dispatcher works only with files it can trust.  Under any answers of the file
    system: a file is opened only when a walk down its path met no symbolic link, and never
    through one; an accepted executable is regular, executable, owned by root or this user
    and writable for no one else, and the descriptor handed out is at the start of the
    bytes whose digest was compared; configuration and lease marker are read only from an
    owner-only file of this user, within the size limit, and the configuration returned is
    a valid one; the directories of the store are owner-only directories of this user; and
    whatever fails, every descriptor that is not handed out is closed again. *)
Theorem only_trusted_files s :
  (forall path expected,
     wpp file_spec (openTrustedExecutable euid sha256 path expected)
       (fun r s' => match r with
                    | Ok fd => added fd (f_open s) s' /\ trusted_fd expected fd s'
                    | Err _ => f_open s' = f_open s
                    end) s) /\
  (forall path maxBytes,
     wpp file_spec (readOwnerOnlyRegular euid path maxBytes)
       (fun r s' => f_open s' = f_open s /\
          forall data, r = Ok (Some data) -> 0 < len data <= maxBytes /\
            exists fd info, f_info s' !! fd = Some info /\ private_file info /\ f_data s' !! fd = Some data) s) /\
  (forall dir,
     wpp file_spec (OpenStore euid dir)
       (fun r s' => only_looks s s' /\
          forall store, r = Ok store -> Forall (fun d => private_dir d s') [dir; sto_ledgerDir store; sto_logDir store]) s) /\
  (forall decode url_Parse ParseDuration path,
     wpp file_spec (LoadConfig euid decode url_Parse ParseDuration path)
       (fun r s' => f_open s' = f_open s /\
          match r with
          | Ok config => exists fd info data raw, f_info s' !! fd = Some info /\ private_file info /\ f_data s' !! fd = Some data /\
                           len data <= maxConfigBytes /\ decode data = Ok raw /\ validateConfig url_Parse ParseDuration raw = Ok config
          | Err e => errors_Is e ErrInvalid = true \/
                     exists raw, validateConfig url_Parse ParseDuration raw = Err e
          end) s).
Proof.
  split_and!; [intros; apply wpp_openTrustedExecutable|intros; apply wpp_readOwnerOnlyRegular|intros; apply wpp_OpenStore|].
  intros decode parse duration path. unfold LoadConfig. destruct (_ || _); [apply wpp_ret; split; [done|by left]|].
  apply wpp_bind. eapply wpp_mono; [apply wpp_readOwnerOnlyRegular|]. intros r s' [Ho Hr]. apply wpp_ret. split; [done|].
  destruct r as [[data|]|e]; [|by left|left; unfold errors_Is; cbn; apply bool_decide_eq_true_2; by left].
  destruct (Hr data eq_refl) as [Hl (fd & info & Hi & Hp & Hd)].
  destruct (decode data) as [raw|e] eqn:Ed; [|left; unfold errors_Is; cbn; apply bool_decide_eq_true_2; by left].
  destruct (validateConfig parse duration raw) as [config|e] eqn:Ec; [|right; by exists raw].
  exists fd, info, data, raw. split_and!; [done|done|done|lia|done|done].
Qed.
End trust.
