(* ===== verification/JitContainment.v ===== *)
(** * The containment of the isolation driver: properties *)

From S2P Require Import Prelude GoStrings Regex Prog JitTypes JitConfig JitState JitGate JitHost.

Local Open Scope string_scope.
Local Open Scope list_scope.
Local Open Scope Z_scope.

(** ** The cgroup of a lease *)

(** [own]: what /proc/self/cgroup says of this process. *)
Definition lease_path (root own leaseID : string) : string :=
  PathJoin (if String.eqb root "" then Clean (PathJoin "/sys/fs/cgroup" own) else root) ("civm-jit-" +:+ leaseID).

(** The calls that find the own cgroup change nothing, and its place is fixed. *)
Class ReadsOwnCgroup {S} (sp : spec hostE S) (own : string) : Prop := {
  own_open s : allowed sp (OpenFile "/proc/self/cgroup") s;
  own_opened s b s' : answers sp (OpenFile "/proc/self/cgroup") s b s' -> s' = s;
  own_scan s fd : allowed sp (ScanLines fd) s;
  own_scanned s fd b s' : answers sp (ScanLines fd) s b s' -> s' = s /\ (unified_line (fst b) = own \/ unified_line (fst b) = "");
  own_lstat s path : allowed sp (LstatFile path) s;
  own_lstated s path b s' : answers sp (LstatFile path) s b s' -> s' = s;
  own_close s fd : allowed sp (CloseFile fd) s;
  own_closed s fd b s' : answers sp (CloseFile fd) s b s' -> s' = s;
}.

Lemma wpp_delegatedCgroupRoot {S} (sp : spec hostE S) own `{!ReadsOwnCgroup sp own} s (Q : result string -> S -> Prop) :
  (forall e, Q (Err e) s) -> (IsAbs (PathJoin "/sys/fs/cgroup" own) = true -> Q (Ok (Clean (PathJoin "/sys/fs/cgroup" own))) s) ->
  wpp sp delegatedCgroupRoot Q s.
Proof.
  intros He Hok. unfold delegatedCgroupRoot. apply wpp_bind, wpp_call; [apply own_open|]. intros [fd|e] s1 ->%own_opened; [|by apply wpp_ret].
  apply wpp_bind, wpp_call; [apply own_scan|]. intros [lines err] s1 [-> Hu]%own_scanned. cbn [fst] in Hu.
  assert (forall r, Q r s -> wpp sp (call (CloseFile fd);; mret r) Q s) as Hclose.
  { intros r Hr. apply wpp_bind, wpp_call; [apply own_close|]. intros b s1 ->%own_closed. by apply wpp_ret. }
  apply wpp_bind. cbv zeta. destruct (if String.eqb (unified_line lines) "" then err else None); [by apply wpp_ret, Hclose|].
  destruct (_ || Contains _ _) eqn:Eu; [by apply wpp_ret, Hclose|]. apply orb_false_iff in Eu as [[E1%String.eqb_neq _]%orb_false_iff _]. destruct Hu as [Hu|?]; [|done]. rewrite Hu.
  apply wpp_bind, wpp_call; [apply own_lstat|]. intros [info|e] s1 ->%own_lstated; [|by apply wpp_ret, Hclose].
  apply wpp_ret. destruct (_ || _); [by apply Hclose|]. apply Hclose, Hok.
  unfold PathJoin. rewrite <- Hu. destruct (unified_line lines) as [|a l]; [done|]. by rewrite IsAbs_Clean.
Qed.

Lemma wpp_pathForLease {S} (sp : spec hostE S) own `{!ReadsOwnCgroup sp own} root verify lease s (Q : result string -> S -> Prop) :
  (forall e, Q (Err e) s) ->
  (MatchString digestRE lease = true -> IsAbs (if String.eqb root "" then Clean (PathJoin "/sys/fs/cgroup" own) else root) = true ->
     Q (Ok (lease_path root own lease)) s) ->
  wpp sp (pathForLease (mkContainment root verify) lease) Q s.
Proof.
  intros He Hok. unfold pathForLease, lease_path in *. destruct (MatchString digestRE lease) eqn:Ed; cbn [negb cc_root]; [|by apply wpp_ret].
  apply wpp_bind. destruct (String.eqb root "").
  - apply (wpp_delegatedCgroupRoot _ own); [intros e; by apply wpp_ret|]. intros Ha. apply wpp_ret, Hok; [done|]. by rewrite IsAbs_Clean.
  - destruct (_ || _) eqn:Er; [by apply wpp_ret, wpp_ret|]. bsplit. by apply wpp_ret, wpp_ret, Hok.
Qed.

(** ** What has been observed since the last wait *)

Record contained := mkContained {
  c_seen : option (Z * Z);   (* the last process identity read *)
  c_gone : bool;             (* the process of the identity was seen gone, or there is none *)
  c_empty : bool;            (* the cgroup was seen empty *)
  c_late : bool;             (* the grace has passed *)
  c_removed : bool;          (* the directory of the cgroup is removed *)
  c_ticks : nat;             (* ticks before the grace passes *)
}.

Section containment.
Context (identity : ProcessIdentity) (own cgroup : string).

(** A wait: what was seen may no longer hold. *)
Definition waited (late : bool) (ticks : nat) (s : contained) : contained :=
  mkContained None (negb (0 <? pi_PID identity)) false late (c_removed s) ticks.

(** What the content of /proc/<pid>/stat says about the process. *)
Definition saw_stat (b : result string) (s : contained) : contained :=
  let seen := match b with
              | Ok data => match parse_stat data with Ok t => Some (pi_PID identity, t) | Err _ => None end
              | Err _ => None
              end in
  let gone := match b with
              | Ok data => match parse_stat data with Ok t => negb (t =? pi_StartTicks identity) | Err e => errors_Is e ErrNotExist end
              | Err e => errors_Is e ErrNotExist
              end in
  mkContained seen gone (c_empty s) (c_late s) (c_removed s) (c_ticks s).

(** What cgroup.events says; a cgroup that does not exist is empty. *)
Definition saw_events (b : result string) (s : contained) : contained :=
  let empty := match b with
               | Ok data => match populated (Split "010" data) with Ok v => v | Err _ => false end
               | Err e => errors_Is e ErrNotExist
               end in
  mkContained (c_seen s) (c_gone s) empty (c_late s) (c_removed s) (c_ticks s).

Definition removed (s : contained) : contained :=
  mkContained (c_seen s) (c_gone s) (c_empty s) (c_late s) true (c_ticks s).

Definition containment_spec : spec hostE contained := {|
  allowed B e s :=
    match e with
    | Gate (ReadStat pid) => pid = pi_PID identity
    | ReadProc path => path = PathJoin cgroup "cgroup.events"
    | KillGroup pgid force =>
        pgid = pi_ProcessGroup identity /\ c_seen s = Some (pi_PID identity, pi_StartTicks identity) /\ (force = true -> c_late s = true)
    | WriteControl path data => path = PathJoin cgroup "cgroup.kill" /\ data = "1" /\ c_late s = true
    | RemoveDirectory path => path = cgroup /\ c_empty s = true /\ c_gone s = true
    | GraceSelect | ForceSelect | ScanLines _ | LstatFile _ | CloseFile _ => True
    | OpenFile path => path = "/proc/self/cgroup"
    | _ => False
    end;
  answers B e s :=
    match e in hostE B return B -> contained -> Prop with
    | Gate e => match e in gateE B return B -> contained -> Prop with
                | ReadStat _ => fun b s' => s' = saw_stat b s
                | _ => fun _ s' => s' = s
                end
    | ReadProc _ => fun b s' => s' = saw_events b s
    | RemoveDirectory _ => fun b s' =>
        s' = match b with None => removed s | Some e => if errors_Is e ErrNotExist then removed s else s end
    | GraceSelect => fun b s' =>
        match b with
        | PTick => exists n, c_ticks s = S n /\ s' = waited (c_late s) n s
        | PDeadline => s' = waited true (c_ticks s) s
        | PDone _ => s' = waited (c_late s) (c_ticks s) s
        end
    | ForceSelect => fun _ s' => s' = waited (c_late s) (c_ticks s) s
    | ScanLines _ => fun b s' => s' = s /\ (unified_line (fst b) = own \/ unified_line (fst b) = "")
    | _ => fun _ s' => s' = s
    end;
|}.

#[global] Instance containment_reads : ReadsOwnCgroup containment_spec own.
Proof. by split. Qed.

(** Observations change neither the phase nor what was done. *)
Definition keeps_phase (s s' : contained) : Prop :=
  c_late s' = c_late s /\ c_ticks s' = c_ticks s /\ (c_removed s = true -> c_removed s' = true).

Lemma keeps_phase_refl s : keeps_phase s s.
Proof. done. Qed.

Lemma keeps_phase_trans s1 s2 s3 : keeps_phase s1 s2 -> keeps_phase s2 s3 -> keeps_phase s1 s3.
Proof. unfold keeps_phase. naive_solver congruence. Qed.

Lemma wpp_alive s (Q : result bool -> contained -> Prop) :
  1 < pi_PID identity ->
  (forall e s', keeps_phase s s' -> Q (Err e) s') ->
  (forall s', keeps_phase s s' -> c_empty s' = c_empty s -> c_gone s' = true -> Q (Ok false) s') ->
  (forall s', keeps_phase s s' -> c_seen s' = Some (pi_PID identity, pi_StartTicks identity) -> Q (Ok true) s') ->
  wpp containment_spec (host_processIdentityAlive (pi_PID identity) (pi_StartTicks identity)) Q s.
Proof.
  intros Hp He Hf Ht. unfold host_processIdentityAlive, on_host, processIdentityAlive, processStartTicks.
  destruct (Z.leb_spec (pi_PID identity) 1); [lia|]. cbn [link mbind prog_mbind prog_bind call]. split; [done|].
  intros b s' Hs. cbn in Hs. subst s'. destruct b as [data|e].
  - cbn. destruct (parse_stat data) as [t|e] eqn:E; cbn.
    + destruct (Z.eqb_spec t (pi_StartTicks identity)) as [->|Hne].
      * apply Ht; [done|]. cbn. by rewrite E.
      * apply Hf; [done|done|]. cbn. rewrite E. by apply negb_true_iff, Z.eqb_neq.
    + destruct (errors_Is e ErrNotExist) eqn:En; cbn; [apply Hf; [done|done|]; cbn; by rewrite E|by apply He].
  - cbn. destruct (errors_Is e ErrNotExist) eqn:En; cbn; [by apply Hf|by apply He].
Qed.

Lemma wpp_signal force s (Q : err_ret -> contained -> Prop) :
  1 < pi_PID identity -> (force = true -> c_late s = true) -> (forall r s', keeps_phase s s' -> Q r s') ->
  wpp containment_spec (signalExactProcessGroup identity force) Q s.
Proof.
  intros Hp Hl HQ. unfold signalExactProcessGroup. apply wpp_bind, wpp_alive; [done|intros; by apply wpp_ret, HQ|intros; by apply wpp_ret, HQ|].
  intros s1 H1 Hs. apply wpp_call; [|intros b s' ->; by apply HQ]. cbn. split_and!; [done|done|]. destruct H1 as [-> _]. done.
Qed.

(** The end of a containment that is reported as a success. *)
Definition ended (s : contained) : Prop := c_empty s = true /\ c_gone s = true /\ c_removed s = true.

(** An identity to look for, or none. *)
Definition some_or_none : Prop := 1 < pi_PID identity \/ pi_PID identity <= 0.

Definition fresh (s : contained) : Prop := c_gone s = negb (0 <? pi_PID identity).

Lemma wpp_gone s (Q : result bool -> contained -> Prop) :
  some_or_none -> (pi_PID identity <= 0 -> c_gone s = true) ->
  (forall e s', keeps_phase s s' -> Q (Err e) s') -> (forall s', keeps_phase s s' -> Q (Ok false) s') ->
  (forall s', keeps_phase s s' -> ended s' -> Q (Ok true) s') -> wpp containment_spec (containmentGone identity cgroup) Q s.
Proof.
  intros Hid Hg He Hf Ht. unfold containmentGone, cgroupEmpty. apply wpp_bind, wpp_bind, wpp_call; [done|]. intros b s1 ->. apply wpp_ret.
  set (s1 := saw_events b s). assert (keeps_phase s s1) as H1 by done. assert (c_gone s1 = c_gone s) as Hg1 by done.
  assert (match (match b with Ok data => populated (Split "010" data) | Err e => if errors_Is e ErrNotExist then Ok true else Err e end) with
          | Ok v => v = c_empty s1 | Err _ => True end) as Hempty.
  { unfold s1, saw_events. cbn. destruct b as [data|e]; [by destruct (populated _)|]. by destruct (errors_Is e ErrNotExist). }
  destruct (match b with Ok data => _ | Err e => _ end) as [empty|e]; [|by apply wpp_ret, He]. subst empty.
  assert (forall s2, keeps_phase s s2 -> c_empty s2 = c_empty s1 -> c_gone s2 = true ->
    wpp containment_spec (if negb (c_empty s1) || false then mret (Ok false)
          else removed ← call (RemoveDirectory cgroup);
               mret (match removed with Some e => if errors_Is e ErrNotExist then Ok true else Err e | None => Ok true end)) Q s2) as Hend.
  { intros s2 H2 E2 G2. rewrite orb_false_r, <- E2. destruct (c_empty s2) eqn:Ee; cbn [negb]; [|by apply wpp_ret, Hf].
    apply wpp_bind, wpp_call; [done|]. intros r s3 ->. apply wpp_ret.
    assert (keeps_phase s (removed s2)) as H3 by (eapply keeps_phase_trans; [exact H2|done]).
    destruct r as [e|]; [|by apply Ht]. destruct (errors_Is e ErrNotExist); [by apply Ht|by apply He]. }
  destruct (Z.ltb_spec 0 (pi_PID identity)) as [Hp|Hp]; apply wpp_bind.
  - apply wpp_alive; [unfold some_or_none in Hid; lia| | |].
    + intros e s2 H2. apply wpp_ret, He. by eapply keeps_phase_trans.
    + intros s2 H2 E2 G2. apply Hend; [by eapply keeps_phase_trans|done|done].
    + intros s2 H2 _. rewrite orb_true_r. apply wpp_ret, Hf. by eapply keeps_phase_trans.
  - apply wpp_ret, Hend; [done|done|]. rewrite Hg1. by apply Hg.
Qed.

Lemma wpp_forced_loop n acc s :
  some_or_none -> (pi_PID identity <= 0 -> c_gone s = true) ->
  wpp containment_spec (forced_loop n identity cgroup acc) (fun r s' => r = None -> ended s') s.
Proof.
  intros Hid. revert s. induction n as [|n IH]; intros s Hg; cbn [forced_loop]; [apply wpp_ret; by destruct acc|].
  apply wpp_bind, wpp_gone; [done|done| | |].
  - intros e s1 _. apply wpp_ret. by destruct acc.
  - intros s1 _. apply wpp_bind, wpp_call; [done|]. intros [e|] s2 ->; [apply wpp_ret; by destruct acc|].
    apply IH. cbn. intros Hp. destruct (Z.ltb_spec 0 (pi_PID identity)); [lia|done].
  - intros s1 _ Hend. by apply wpp_ret.
Qed.

Lemma wpp_force acc s :
  some_or_none -> (pi_PID identity <= 0 -> c_gone s = true) -> c_late s = true ->
  wpp containment_spec (force identity cgroup acc) (fun r s' => r = None -> ended s') s.
Proof.
  intros Hid Hg Hl. unfold force. apply wpp_bind.
  assert (forall r s1, (pi_PID identity <= 0 -> c_gone s1 = true) -> c_late s1 = true ->
    wpp containment_spec (killErr ← call (WriteControl (PathJoin cgroup "cgroup.kill") "1");
      forced_loop 80 identity cgroup
        (match killErr with
         | Some e => if errors_Is e ErrNotExist then errors_Join acc r else errors_Join (errors_Join acc r) (Some (Errorf_w "kill cgroup" e))
         | None => errors_Join acc r
         end)) (fun r s' => r = None -> ended s') s1) as Hrest.
  { intros r s1 Hg1 Hl1. apply wpp_bind, wpp_call; [done|]. intros b s2 ->. by apply wpp_forced_loop. }
  destruct (Z.ltb_spec 0 (pi_PID identity)) as [Hp|Hp]; [|apply wpp_ret; by apply Hrest].
  apply wpp_signal; [unfold some_or_none in Hid; lia|done|]. intros r s1 [Hl1 _]. apply Hrest; [lia|by rewrite Hl1].
Qed.

Lemma wpp_grace_loop n acc s :
  some_or_none -> (pi_PID identity <= 0 -> c_gone s = true) ->
  wpp containment_spec (grace_loop n identity cgroup acc)
    (fun r s' => (r = Some None -> ended s') /\ ((c_ticks s < n)%nat -> r <> None)) s.
Proof.
  intros Hid. revert s. induction n as [|n IH]; intros s Hg; cbn [grace_loop]; [apply wpp_ret; split; [done|lia]|].
  apply wpp_bind, wpp_gone; [done|done| | |].
  - intros e s1 _. apply wpp_ret. split; [by destruct acc|done].
  - intros s1 (_ & Ht & _). apply wpp_bind, wpp_call; [done|].
    assert (forall late k, pi_PID identity <= 0 -> c_gone (waited late k s1) = true) as Hw.
    { intros late k Hp. cbn. destruct (Z.ltb_spec 0 (pi_PID identity)); [lia|done]. }
    intros [e| |] s2 Hs2; cbn in Hs2.
    + subst s2. apply wpp_ret. split; [by destruct acc|done].
    + subst s2. apply wpp_bind. eapply wpp_mono; [apply wpp_force; [done|by apply Hw|done]|]. intros r s3 Hr.
      apply wpp_ret. split; [intros [= ->]; by apply Hr|done].
    + destruct Hs2 as (k & Hk & ->). eapply wpp_mono; [apply IH, Hw|]. cbn. intros r s3 [H1 H2]. split; [done|].
      intros Hlt. apply H2. rewrite Ht in Hk. lia.
  - intros s1 _ Hend. apply wpp_ret. split; [by intros _|done].
Qed.

Lemma wpp_terminateContainment n grace s :
  some_or_none -> (pi_PID identity <= 0 -> c_gone s = true) ->
  wpp containment_spec (terminateContainment n identity cgroup grace)
    (fun r s' => (r = Some None -> ended s') /\ ((c_ticks s < n)%nat -> r <> None)) s.
Proof.
  intros Hid Hg. unfold terminateContainment. destruct (_ || _); [by apply wpp_ret|].
  destruct (Z.ltb_spec 0 (pi_PID identity)) as [Hp|Hp]; [|by apply wpp_grace_loop].
  assert (1 < pi_PID identity) as Hp1 by (unfold some_or_none in Hid; lia).
  apply wpp_bind, wpp_alive; [done|by intros; apply wpp_ret| |].
  - intros s1 (_ & Ht & _) _ _. rewrite <- Ht. apply wpp_grace_loop; [done|lia].
  - intros s1 H1 _. apply wpp_bind, wpp_signal; [done|done|]. intros r s2 H2.
    destruct (keeps_phase_trans _ _ _ H1 H2) as (_ & Ht & _). rewrite <- Ht. apply wpp_grace_loop; [done|lia].
Qed.
End containment.

(** ** The identity of a driver *)

Record attached := mkAttached {
  a_ticks : list Z;           (* the start times read *)
  a_member : option string;   (* the content of /proc/<pid>/cgroup *)
  a_group : option Z;
}.

Definition attach_spec (pid : Z) (own : string) : spec hostE attached := {|
  allowed B e s :=
    match e with
    | Gate (ReadStat p) => p = pid
    | ReadProc path => path = "/proc/" +:+ Itoa pid +:+ "/cgroup"
    | Getpgid p => p = pid
    | ScanLines _ | LstatFile _ | CloseFile _ => True
    | OpenFile path => path = "/proc/self/cgroup"
    | _ => False
    end;
  answers B e s :=
    match e in hostE B return B -> attached -> Prop with
    | Gate e => match e in gateE B return B -> attached -> Prop with
                | ReadStat _ => fun b s' =>
                    s' = match b with
                         | Ok data => match parse_stat data with Ok t => mkAttached (a_ticks s ++ [t]) (a_member s) (a_group s) | Err _ => s end
                         | Err _ => s
                         end
                | _ => fun _ s' => s' = s
                end
    | ReadProc _ => fun b s' => s' = mkAttached (a_ticks s) (match b with Ok data => Some data | Err _ => None end) (a_group s)
    | Getpgid _ => fun b s' => s' = mkAttached (a_ticks s) (a_member s) (match b with Ok g => Some g | Err _ => None end)
    | ScanLines _ => fun b s' => s' = s /\ (unified_line (fst b) = own \/ unified_line (fst b) = "")
    | _ => fun _ s' => s' = s
    end;
|}.

#[global] Instance attach_reads pid own : ReadsOwnCgroup (attach_spec pid own) own.
Proof. by split. Qed.

Lemma parse_stat_nonzero data t : parse_stat data = Ok t -> t <> 0.
Proof.
  unfold parse_stat. repeat case_match; try done. intros [= <-]. by apply Z.eqb_neq.
Qed.

Lemma wpp_startTicks pid own s (Q : result Z -> attached -> Prop) :
  1 < pid -> (forall e, Q (Err e) s) ->
  (forall t, t <> 0 -> Q (Ok t) (mkAttached (a_ticks s ++ [t]) (a_member s) (a_group s))) ->
  wpp (attach_spec pid own) (host_processStartTicks pid) Q s.
Proof.
  intros Hp He Hok. unfold host_processStartTicks, on_host, processStartTicks. destruct (Z.leb_spec pid 1); [lia|].
  cbn [link mbind prog_mbind prog_bind call]. split; [done|]. intros [data|e] s' Hs; cbn in Hs; subst s'; cbn; [|apply He].
  destruct (parse_stat data) as [t|e] eqn:E; [|apply He]. apply Hok. by eapply parse_stat_nonzero.
Qed.

Lemma digest_plain lease : MatchString digestRE lease = true -> plain_comp ("civm-jit-" +:+ lease).
Proof.
  intros Hm%MatchString_correct. split_and!; [done|done|done|].
  apply no_char_app. split; [by vm_compute|].
  eapply (no_char_forallb (in_class hex_class)); [|by vm_compute]. eapply only_chars_sound; [|exact Hm]. by vm_compute.
Qed.

Section identity.
Context (root own leaseID : string).
Let path := lease_path root own leaseID.

(** The identity of a driver that [Attach] returns, and [Recover] accepts for its lease. *)
Definition of_lease (i : ProcessIdentity) : Prop := validateProcessIdentity i = None /\ pi_CgroupPath i = path.

Lemma lease_path_valid pid t :
  MatchString digestRE leaseID = true ->
  IsAbs (if String.eqb root "" then Clean (PathJoin "/sys/fs/cgroup" own) else root) = true -> 1 < pid -> t <> 0 ->
  validateProcessIdentity (mkProcess pid t pid path) = None.
Proof.
  intros Hd%digest_plain Ha Hp Ht. unfold validateProcessIdentity, path, lease_path. cbn [pi_PID pi_StartTicks pi_ProcessGroup pi_CgroupPath].
  destruct (PathJoin_abs _ _ Ha Hd) as (d & E & Hi & Hc). rewrite Hi, Hc, String.eqb_refl, E.
  destruct Hd as (H1 & _ & _ & H4). rewrite Base_file by done. unfold HasPrefix. rewrite prefix_app.
  apply Z.eqb_neq in Ht as ->. rewrite Z.eqb_refl. destruct (Z.leb_spec pid 1); [lia|done].
Qed.

Lemma wpp_Attach pid s :
  wpp (attach_spec pid own) (Attach (mkContainment root None) pid leaseID)
    (fun r s' => forall i, r = Ok i -> exists t data,
       i = mkProcess pid t pid path /\ of_lease i /\ a_ticks s' = a_ticks s ++ [t; t] /\ a_group s' = Some pid /\ a_member s' = Some data /\ member_line path (Split "010" data) = Ok true) s.
Proof.
  unfold Attach. destruct (_ || _) eqn:E; [by apply wpp_ret|]. bsplit. assert (1 < pid) as Hp by lia.
  apply wpp_bind, wpp_startTicks; [done|intros e; by apply wpp_ret|]. intros t Ht.
  apply wpp_bind, (wpp_pathForLease _ own); [intros e; by apply wpp_ret|]. intros Hd Ha. fold path.
  cbn [cc_verifyMembership default]. unfold processInCgroup. apply wpp_bind, wpp_bind, wpp_call; [done|]. intros b s1 ->. apply wpp_ret.
  destruct b as [data|e]; [|by apply wpp_ret]. destruct (member_line path (Split "010" data)) as [[|]|e] eqn:Em; [|by apply wpp_ret..].
  apply wpp_bind, wpp_call; [done|]. intros [g|e] s1 ->; [|by apply wpp_ret].
  destruct (Z.eqb_spec g pid) as [->|]; cbn [negb]; [|by apply wpp_ret].
  apply wpp_bind, wpp_startTicks; [done|intros e; by apply wpp_ret|]. intros t' _. apply wpp_ret.
  destruct (Z.eqb_spec t' t) as [->|]; cbn [negb]; [|done]. intros i [= <-]. exists t, data. cbn.
  split_and!; [done|split; [by apply lease_path_valid|done]|by rewrite <- app_assoc|done|done|done].
Qed.

Lemma wpp_containment_Recover n identity grace ticks :
  wpp (containment_spec identity own path) (containment_Recover n (mkContainment root None) leaseID identity grace)
    (fun r s => (r = Some None -> ended s /\ (pi_PID identity = 0 \/ of_lease identity)) /\ ((ticks < n)%nat -> r <> None))
    (mkContained None (negb (0 <? pi_PID identity)) false false false ticks).
Proof.
  unfold containment_Recover. apply wpp_bind, (wpp_pathForLease _ own); [intros e; by apply wpp_ret|]. intros _ _. fold path. cbv zeta.
  set (s := mkContained _ _ _ _ _ _).
  assert (some_or_none identity -> (pi_PID identity = 0 \/ of_lease identity) ->
    wpp (containment_spec identity own path) (terminateContainment n identity path grace)
      (fun r s => (r = Some None -> ended s /\ (pi_PID identity = 0 \/ of_lease identity)) /\ ((ticks < n)%nat -> r <> None)) s) as Hend.
  { intros Hid Hor. eapply wpp_mono; [apply wpp_terminateContainment; [done|]|].
    - intros Hp. cbn. destruct (Z.ltb_spec 0 (pi_PID identity)); [lia|done].
    - intros r s' [H1 H2]. split; [intros Hr; by split; [apply H1|]|done]. }
  destruct (Z.eqb_spec (pi_PID identity) 0) as [E0|E0].
  - destruct (_ || _); [by apply wpp_ret|]. apply Hend; [right; lia|by left].
  - destruct (validateProcessIdentity identity) eqn:Ev; [by apply wpp_ret|].
    destruct (String.eqb_spec (pi_CgroupPath identity) path) as [Ep|]; cbn [negb]; [|by apply wpp_ret].
    apply Hend; [|by right]. left. unfold validateProcessIdentity in Ev. destruct (Z.leb_spec (pi_PID identity) 1); [done|lia].
Qed.
End identity.

(** C9. The containment ends exactly the driver of its lease.  Under any answers of the
    system: [Recover] and [Terminate] signal only the process group of the given identity,
    each time right after its start time was read back, and kill by force only when the
    grace has passed; they kill and remove only the cgroup of the lease; a success means
    that after the last wait the cgroup was empty, the process gone and the directory
    removed; with more rounds than ticks fit into the grace the loop never runs out of
    them.  [Attach] accepts a process only as a member of the cgroup of the lease, as the
    leader of its group, with the same start time before and after, and the identity it
    returns is one that [Terminate] and [Recover] accept for that lease. *)
Theorem containment_ends_its_own_driver root own leaseID identity grace n ticks :
  wpp (containment_spec identity own (lease_path root own leaseID)) (containment_Recover n (mkContainment root None) leaseID identity grace)
    (fun r s => (r = Some None -> ended s /\ (pi_PID identity = 0 \/ of_lease root own leaseID identity)) /\ ((ticks < n)%nat -> r <> None))
    (mkContained None (negb (0 <? pi_PID identity)) false false false ticks) /\
  wpp (containment_spec identity own (pi_CgroupPath identity)) (containment_Terminate n identity grace)
    (fun r s => (r = Some None -> ended s /\ validateProcessIdentity identity = None) /\ ((ticks < n)%nat -> r <> None))
    (mkContained None (negb (0 <? pi_PID identity)) false false false ticks) /\
  (forall pid s,
     wpp (attach_spec pid own) (Attach (mkContainment root None) pid leaseID)
       (fun r s' => forall i, r = Ok i -> exists t data,
          i = mkProcess pid t pid (lease_path root own leaseID) /\ of_lease root own leaseID i /\
          a_ticks s' = a_ticks s ++ [t; t] /\ a_group s' = Some pid /\
          a_member s' = Some data /\ member_line (lease_path root own leaseID) (Split "010" data) = Ok true) s).
Proof.
  split_and!; [apply wpp_containment_Recover| |intros pid s; apply wpp_Attach].
  unfold containment_Terminate. destruct (validateProcessIdentity identity) eqn:Ev; [by apply wpp_ret|].
  eapply wpp_mono; [apply wpp_terminateContainment|].
  - left. unfold validateProcessIdentity in Ev. destruct (Z.leb_spec (pi_PID identity) 1); [done|lia].
  - intros Hp. cbn. destruct (Z.ltb_spec 0 (pi_PID identity)); [lia|done].
  - intros r s [H1 H2]. split; [intros Hr; by split; [apply H1|]|done].
Qed.
