(* ===== verification/Memwatchdog.v ===== *)
(** * internal/memwatchdog: the memory-pressure gate

    Parses /proc/meminfo and classifies the pressure.  [admit] lets a heavy job in
    only on [DecisionOK]. *)

From S2P Require Import Prelude GoStrings.

Local Open Scope string_scope.
Local Open Scope list_scope.
Local Open Scope Z_scope.

Inductive Decision := DecisionOK | DecisionWarn | DecisionCritical.

#[global] Instance Decision_eq_dec : EqDecision Decision.
Proof. solve_decision. Defined.

Definition ExitCode (d : Decision) : Z :=
  match d with DecisionOK => 0 | DecisionWarn => 1 | DecisionCritical => 2 end.

Definition Decision_String (d : Decision) : string :=
  match d with DecisionOK => "ok" | DecisionWarn => "warn" | DecisionCritical => "critical" end.

Record Meminfo := mkMeminfo {
  MemTotalMB : Z;
  MemAvailableMB : Z;
  AvailPct : Z;
  SwapTotalMB : Z;
  SwapUsedMB : Z;
}.

Record MemOptions := mkMemOptions {
  WarnAvailPct : Z;
  CritAvailPct : Z;
  WarnSwapMB : Z;
  CritSwapMB : Z;
}.

Definition mem_DefaultOptions : MemOptions := mkMemOptions 15 8 512 1536.

Definition mem_applyDefaults (opts : MemOptions) : MemOptions :=
  let d := mem_DefaultOptions in
  let pick v dflt := if v =? 0 then dflt else v in
  mkMemOptions (pick (WarnAvailPct opts) (WarnAvailPct d)) (pick (CritAvailPct opts) (CritAvailPct d))
    (pick (WarnSwapMB opts) (WarnSwapMB d)) (pick (CritSwapMB opts) (CritSwapMB d)).

Record MemResult := mkMemResult {
  mr_Time : Z;
  mr_Decision : Decision;
  mr_Status : string;
  mr_Mem : Meminfo;
  mr_Reason : string;
  mr_Err : string;
}.

Definition classify (m : Meminfo) (opts : MemOptions) : Decision * string :=
  if AvailPct m <? CritAvailPct opts then
    (DecisionCritical, "mem-available " +:+ Itoa (AvailPct m) +:+ "% < " +:+ Itoa (CritAvailPct opts) +:+ "%")
  else if CritSwapMB opts <? SwapUsedMB m then
    (DecisionCritical, "swap-used " +:+ Itoa (SwapUsedMB m) +:+ "MB > " +:+ Itoa (CritSwapMB opts) +:+ "MB (thrash)")
  else if AvailPct m <? WarnAvailPct opts then
    (DecisionWarn, "mem-available " +:+ Itoa (AvailPct m) +:+ "% < " +:+ Itoa (WarnAvailPct opts) +:+ "%")
  else if WarnSwapMB opts <? SwapUsedMB m then
    (DecisionWarn, "swap-used " +:+ Itoa (SwapUsedMB m) +:+ "MB > " +:+ Itoa (WarnSwapMB opts) +:+ "MB")
  else (DecisionOK, "").

Definition parseMeminfoLine (line : string) : option (string * Z) :=
  match Cut ":" line with
  | None => None
  | Some (name, rest) =>
      match Fields rest with
      | [] => None
      | f :: _ => match ParseInt f with Some v => Some (TrimSpace name, v) | None => None end
      end
  end.

(** The map built by the loop over the lines: a later line replaces an earlier one. *)
Definition meminfo_vals (s : string) : gmap string Z :=
  foldl (fun vals line => match parseMeminfoLine line with
                          | Some (key, kb) => <[key := kb]> vals
                          | None => vals
                          end) ∅ (Split "010" s).

(** Go's [/] truncates; [avail * 100] and [swapTotal - swapFree] wrap at 64 bits. *)
Definition parseMeminfo (s : string) : result Meminfo :=
  let vals := meminfo_vals s in
  match vals !! "MemTotal", vals !! "MemAvailable" with
  | Some total, Some avail =>
      if total <=? 0 then Err (Errorf "meminfo missing MemTotal/MemAvailable")
      else
        let swapTotal := default 0 (vals !! "SwapTotal") in
        let swapUsed := Z.max (int64 (swapTotal - default 0 (vals !! "SwapFree"))) 0 in
        Ok (mkMeminfo (Z.quot total 1024) (Z.quot avail 1024) (Z.quot (int64 (avail * 100)) total)
              (Z.quot swapTotal 1024) (Z.quot swapUsed 1024))
  | _, _ => Err (Errorf "meminfo missing MemTotal/MemAvailable")
  end.

Definition zero_meminfo : Meminfo := mkMeminfo 0 0 0 0 0.

(** [Check] on the answers of [NowFn] and [MeminfoFn]. *)
Definition mem_Check (opts : MemOptions) (now : Z) (raw : result string) : MemResult :=
  let opts := mem_applyDefaults opts in
  let failed e reason := mkMemResult now DecisionCritical (Decision_String DecisionCritical)
                           zero_meminfo reason (err_text e) in
  match raw with
  | Err e => failed e "meminfo-read-failed"
  | Ok text =>
      match parseMeminfo text with
      | Err e => failed e "meminfo-parse-failed"
      | Ok mem =>
          let '(decision, reason) := classify mem opts in
          mkMemResult now decision (Decision_String decision) mem reason ""
      end
  end.

Definition Sample (raw : result string) : result Meminfo :=
  match raw with
  | Err e => Err (Errorf_w "memwatchdog: ler meminfo" e)
  | Ok text => match parseMeminfo text with
               | Err e => Err (Errorf_w "memwatchdog: parse meminfo" e)
               | Ok mem => Ok mem
               end
  end.

(** ** The gate fails closed *)

Lemma classify_ok m opts :
  fst (classify m opts) = DecisionOK <->
  CritAvailPct opts <= AvailPct m /\ SwapUsedMB m <= CritSwapMB opts /\
  WarnAvailPct opts <= AvailPct m /\ SwapUsedMB m <= WarnSwapMB opts.
Proof.
  unfold classify.
  repeat match goal with |- context [if ?b then _ else _] => destruct b eqn:? end; cbn; bsplit;
    (split; [intros; try done; lia|intros; try done; lia]).
Qed.

(** With the default thresholds [DecisionOK] is only returned on a meminfo
    that was read and parsed, that reports at least 15% of a positive MemTotal as
    MemAvailable and at most 512 MB of swap in use; every read or parse failure is
    [DecisionCritical].  The bounds on the numbers are those of a machine with less
    than 2^56 kB. *)
Theorem check_ok_only_on_healthy_memory now raw :
  mr_Decision (mem_Check mem_DefaultOptions now raw) = DecisionOK ->
  exists text total avail, raw = Ok text /\
    meminfo_vals text !! "MemTotal" = Some total /\ meminfo_vals text !! "MemAvailable" = Some avail /\
    0 < total /\
    (0 <= avail < 2 ^ 56 -> 15 * total <= 100 * avail) /\
    (forall st sf, meminfo_vals text !! "SwapTotal" = Some st -> meminfo_vals text !! "SwapFree" = Some sf ->
       0 <= sf -> 0 <= st < 2 ^ 56 -> sf < 2 ^ 56 -> st - sf < 513 * 1024).
Proof.
  unfold mem_Check. destruct raw as [text|e]; [|done]. destruct (parseMeminfo text) as [mem|e] eqn:Hp; [|done].
  destruct (classify mem _) as [d reason] eqn:Hc. cbn. intros ->.
  assert (fst (classify mem (mem_applyDefaults mem_DefaultOptions)) = DecisionOK) as Hok by (by rewrite Hc).
  apply classify_ok in Hok. cbn in Hok. revert Hp. unfold parseMeminfo.
  destruct (_ !! "MemTotal") as [total|] eqn:Ht; [|done].
  destruct (_ !! "MemAvailable") as [avail|] eqn:Ha; [|done].
  destruct (total <=? 0) eqn:Hpos; [done|]. bsplit. intros [= <-]. cbn in Hok.
  exists text, total, avail. split_and!; [done|done|done|lia| |].
  - intros Hb. destruct Hok as (_ & _ & Hq & _).
    rewrite int64_id in Hq by (unfold min_int64, max_int64; lia).
    rewrite Z.quot_div_nonneg in Hq by lia.
    pose proof (Z.mul_div_le (avail * 100) total Hpos). nia.
  - intros st sf Hst Hsf ? ? ?. rewrite Hst, Hsf in Hok. destruct Hok as (_ & _ & _ & Hq). cbn in Hq.
    rewrite int64_id in Hq by (unfold min_int64, max_int64; lia).
    rewrite Z.quot_div_nonneg in Hq by lia.
    pose proof (Z.mul_succ_div_gt (Z.max (st - sf) 0) 1024). lia.
Qed.

Definition healthy_meminfo : string :=
  Join ["MemTotal:       16000000 kB"; "MemFree:          100000 kB"; "MemAvailable:    8000000 kB";
        "SwapTotal:       2000000 kB"; "SwapFree:        1900000 kB"] (String "010" "").

Lemma check_ok_only_on_healthy_memory_witness :
  mr_Decision (mem_Check mem_DefaultOptions 0 (Ok healthy_meminfo)) = DecisionOK /\
  exists text total avail, Ok healthy_meminfo = Ok text /\
    meminfo_vals text !! "MemTotal" = Some total /\ meminfo_vals text !! "MemAvailable" = Some avail /\
    0 < total /\
    (0 <= avail < 2 ^ 56 -> 15 * total <= 100 * avail) /\
    (forall st sf, meminfo_vals text !! "SwapTotal" = Some st -> meminfo_vals text !! "SwapFree" = Some sf ->
       0 <= sf -> 0 <= st < 2 ^ 56 -> sf < 2 ^ 56 -> st - sf < 513 * 1024).
Proof.
  split; [vm_compute; reflexivity|].
  apply (check_ok_only_on_healthy_memory 0). vm_compute. reflexivity.
Defined.
