(* ===== verification/Admit.v ===== *)
(** * internal/admit: admission of memory-heavy jobs

    [Acquire] gives a heavy job one of [MaxHeavy] flock slots, [Release] gives it
    back.  Every function field of [Options] is an effect of [admitE]; after
    [applyDefaults] none of them is nil, so the nil checks of the source are
    always passed.  A [release func()] is identified by the path it unlocks.
    Slot records are JSON; [Marshal] and [Unmarshal] are [encoding/json]. *)

From S2P Require Import Prelude GoStrings Regex Prog Civm Memwatchdog.

Local Open Scope string_scope.
Local Open Scope list_scope.
Local Open Scope Z_scope.

Inductive Weight := WeightHeavy | WeightLight | WeightOther (raw : string).

#[global] Instance Weight_eq_dec : EqDecision Weight.
Proof. solve_decision. Defined.

Record slotRecord := mkSlotRecord {
  sr_Unit : string;
  sr_PID : Z;
  sr_PIDStartTicks : Z;
  sr_AcquiredAt : Z;
}.

#[global] Instance slotRecord_eq_dec : EqDecision slotRecord.
Proof. solve_decision. Defined.

Definition slotRecordMode : Z := 416.  (* 0o640 *)

Record AdmitOptions := mkAdmitOptions {
  ao_MaxHeavy : Z;
  ao_SlotPrefix : string;
  ao_DockerSlotPath : string;
  ao_Weight : Weight;
  ao_Exclusive : string;
  ao_WaitBudget : Z;
  ao_Backoff : Z;
}.

(** The injected functions. *)
Inductive admitE : Type -> Type :=
  | FlockFn (path : string) : admitE (result unit)
  | ReleaseFn (path : string) : admitE unit
  | CheckFn : admitE (result Decision)
  | RunFn (name : string) (args : list string) : admitE err_ret
  | PidAliveFn (pid : Z) : admitE bool
  | PidStartTicksFn (pid : Z) : admitE (result Z)
  | ReadFileFn (path : string) : admitE (result string)
  | WriteFileFn (path data : string) (perm : Z) : admitE err_ret
  | NowFn : admitE Z
  | SleepFn (d : Z) : admitE unit
  | CtxErr : admitE err_ret.

(** [aa_release] and [aa_docker] are the paths of the release functions held. *)
Record Admission := mkAdmission {
  aa_slotPath : string;
  aa_release : option string;
  aa_unit : string;
  aa_docker : option string;
  aa_done : bool;
}.

Definition HoldsSlot (a : Admission) : bool := negb (String.eqb (aa_slotPath a) "").

Definition backoffStep : Z := 250 * Millisecond.

Definition applyDefaults (opts : AdmitOptions) : AdmitOptions :=
  mkAdmitOptions
    (if ao_MaxHeavy opts =? 0 then DefaultAdmitMaxHeavy else ao_MaxHeavy opts)
    (if String.eqb (ao_SlotPrefix opts) "" then DefaultAdmitSlotPathPrefix else ao_SlotPrefix opts)
    (if String.eqb (ao_DockerSlotPath opts) "" then DefaultAdmitDockerSlotPath else ao_DockerSlotPath opts)
    (match ao_Weight opts with WeightOther "" => WeightHeavy | w => w end)
    (ao_Exclusive opts)
    (if ao_WaitBudget opts <=? 0 then DefaultAdmitWaitMinutes * Minute else ao_WaitBudget opts)
    (if ao_Backoff opts <=? 0 then backoffStep else ao_Backoff opts).

Definition validateAbsPrefix (path field : string) : err_ret :=
  if contains_char "000" path then Some (Errorf ("admit: " +:+ field +:+ " contem byte NUL"))
  else if negb (IsAbs path) then Some (Errorf ("admit: " +:+ field +:+ " deve ser caminho absoluto"))
  else None.

Definition validate (opts : AdmitOptions) : err_ret :=
  if ao_MaxHeavy opts <? 1 then Some (Errorf "admit: MaxHeavy deve ser >=1")
  else match ao_Weight opts with
  | WeightOther _ => Some (Errorf "admit: weight invalido")
  | WeightLight => None
  | WeightHeavy =>
      match validateAbsPrefix (ao_SlotPrefix opts) "slot-prefix" with
      | Some e => Some e
      | None => if String.eqb (ao_Exclusive opts) "docker"
                then validateAbsPrefix (ao_DockerSlotPath opts) "docker-slot-path" else None
      end
  end.

Definition slotPathFor (opts : AdmitOptions) (i : Z) : string :=
  ao_SlotPrefix opts +:+ Itoa i +:+ ".lock".

Definition unitNameFor (slotPath : string) (pid : Z) : string :=
  let base := TrimSuffix (Base slotPath) ".lock" in
  let name := "civm-" +:+ base +:+ "-" +:+ Itoa pid +:+ ".service" in
  if bool_decide (ValidateServiceUnit name <> None)
  then "civm-admit-" +:+ Itoa pid +:+ ".service" else name.

(** Best effort: the error of the command is only logged. *)
Definition stopUnit (unit : string) : prog admitE () :=
  if String.eqb unit "" then mret tt
  else if bool_decide (ValidateServiceUnit unit <> None) then mret tt
  else call (RunFn "sudo" ["systemctl"; "stop"; "--"; unit]);; mret tt.

(** [Release] on the admission behind the pointer; returns its new value. *)
Definition Release (a : Admission) : prog admitE Admission :=
  if aa_done a then mret a
  else
    stopUnit (aa_unit a);;
    match aa_docker a with Some p => call (ReleaseFn p) | None => mret tt end;;
    match aa_release a with Some p => call (ReleaseFn p) | None => mret tt end;;
    mret (mkAdmission (aa_slotPath a) (aa_release a) (aa_unit a) (aa_docker a) true).

Section admission.
Context (Marshal : slotRecord -> result string) (Unmarshal : string -> result slotRecord).
(** [os.Getpid()]. *)
Context (pid : Z).

Definition readSlotRecord (slotPath : string) : prog admitE (result (option slotRecord)) :=
  data ← call (ReadFileFn slotPath);
  match data with
  | Err e => if errors_Is e ErrNotExist then mret (Ok None) else mret (Err e)
  | Ok data =>
      if String.eqb (TrimSpace data) "" then mret (Ok None)
      else match Unmarshal data with
           | Err e => mret (Err (Errorf_w "admit: slot record corrompido" e))
           | Ok rec => mret (Ok (Some rec))
           end
  end.

Definition isHolderAlive (rec : slotRecord) : prog admitE bool :=
  alive ← call (PidAliveFn (sr_PID rec));
  if negb alive then mret false
  else if sr_PIDStartTicks rec =? 0 then mret true
  else
    ticks ← call (PidStartTicksFn (sr_PID rec));
    match ticks with
    | Err _ => mret false
    | Ok ticks => mret (ticks =? sr_PIDStartTicks rec)
    end.

Definition reapOrphan (slotPath : string) : prog admitE () :=
  rec ← readSlotRecord slotPath;
  match rec with
  | Err _ => mret tt
  | Ok None => mret tt
  | Ok (Some rec) =>
      if String.eqb (sr_Unit rec) "" then mret tt
      else
        alive ← isHolderAlive rec;
        if (alive : bool) then mret tt else stopUnit (sr_Unit rec)
  end.

Definition writeSlotRecord (slotPath unit : string) : prog admitE err_ret :=
  t ← call (PidStartTicksFn pid);
  let startTicks := match t with Ok t => t | Err _ => 0 end in
  now ← call NowFn;
  match Marshal (mkSlotRecord unit pid startTicks now) with
  | Err e => mret (Some (Errorf_w "admit: serializar slot record" e))
  | Ok data =>
      e ← call (WriteFileFn slotPath data slotRecordMode);
      match e with
      | Some e => mret (Some (Errorf_w "admit: gravar slot record" e))
      | None => mret None
      end
  end.

(** The loop [for i := 1; i <= MaxHeavy; i++], with [todo] iterations to go. *)
Fixpoint grab_loop (opts : AdmitOptions) (todo : nat) (i : Z) : prog admitE (result (option string)) :=
  match todo with
  | O => mret (Ok None)
  | S todo =>
      let path := slotPathFor opts i in
      locked ← call (FlockFn path);
      match locked with
      | Err err =>
          if errors_Is err ErrSlotBusy then grab_loop opts todo (i + 1)
          else mret (Err (Errorf_w ("admit: slot " +:+ path) err))
      | Ok tt => reapOrphan path;; mret (Ok (Some path))
      end
  end.

Definition grabFreeSlot (opts : AdmitOptions) : prog admitE (result (option string)) :=
  grab_loop opts (Z.to_nat (ao_MaxHeavy opts)) 1.

(** The release function of the sub-slot (a no-op when none was asked for), and
    whether the attempt goes on. *)
Definition grabDockerSubSlot (opts : AdmitOptions) : prog admitE (option string * bool) :=
  if negb (String.eqb (ao_Exclusive opts) "docker") then mret (None, true)
  else
    locked ← call (FlockFn (ao_DockerSlotPath opts));
    match locked with
    | Err _ => mret (None, false)
    | Ok tt => mret (Some (ao_DockerSlotPath opts), true)
    end.

(** One attempt: the admission, or whether to retry, or the error. *)
Definition tryAcquireHeavy (opts : AdmitOptions) : prog admitE (option Admission * bool * err_ret) :=
  dec ← call CheckFn;
  match dec with
  | Err err => mret (None, true, Some (Errorf_w "admit: watchdog check failed (fail-closed)" err))
  | Ok DecisionCritical | Ok DecisionWarn => mret (None, true, None)
  | Ok DecisionOK =>
      slot ← grabFreeSlot opts;
      match slot with
      | Err err => mret (None, false, Some err)
      | Ok None => mret (None, true, None)
      | Ok (Some slotPath) =>
          sub ← grabDockerSubSlot opts;
          let '(docker, dockerOK) := sub in
          if negb dockerOK then call (ReleaseFn slotPath);; mret (None, true, None)
          else
            let unit := unitNameFor slotPath pid in
            let adm := mkAdmission slotPath (Some slotPath) unit docker false in
            err ← writeSlotRecord slotPath unit;
            match err with
            | Some err => Release adm;; mret (None, false, Some err)
            | None => mret (Some adm, false, None)
            end
      end
  end.

(** What [Acquire] returns; [OutOfFuel] only bounds the [for] loop. *)
Inductive acquired := Granted (a : Admission) | Refused (e : error) | OutOfFuel.

Fixpoint acquire_loop (fuel : nat) (opts : AdmitOptions) (deadline : Z) : prog admitE acquired :=
  match fuel with
  | O => mret OutOfFuel
  | S fuel =>
      ctxErr ← call CtxErr;
      match ctxErr with
      | Some err => mret (Refused (Errorf_w "admit" err))
      | None =>
          r ← tryAcquireHeavy opts;
          match r with
          | (_, _, Some err) => mret (Refused err)
          | (Some adm, _, None) => mret (Granted adm)
          | (None, false, None) => mret (Refused (Errorf_s ErrWaitBudgetExceeded "admit: heavy slot wait budget exceeded"))
          | (None, true, None) =>
              now ← call NowFn;
              if negb (now <? deadline)
              then mret (Refused (Errorf_s ErrWaitBudgetExceeded "admit: heavy slot wait budget exceeded"))
              else call (SleepFn (ao_Backoff opts));; acquire_loop fuel opts deadline
          end
      end
  end.

Definition Acquire (fuel : nat) (opts : AdmitOptions) : prog admitE acquired :=
  let opts := applyDefaults opts in
  match validate opts with
  | Some e => mret (Refused e)
  | None =>
      match ao_Weight opts with
      | WeightLight => mret (Granted (mkAdmission "" None "" None false))
      | _ =>
          now ← call NowFn;
          acquire_loop fuel opts (now + ao_WaitBudget opts)
      end
  end.
End admission.
