(* ===== verification/AdmitSafety.v ===== *)
(** * internal/admit: properties

    The theorems hold for any behaviour of the injected functions that respects
    the contract of an exclusive advisory lock; the capacity theorem is about any
    number of processes interleaved call by call, with processes dying anywhere. *)

From S2P Require Import Prelude GoStrings Regex Prog Civm Memwatchdog Admit.

Local Open Scope string_scope.
Local Open Scope list_scope.
Local Open Scope Z_scope.

(** ** Locks and the gate *)

(** The locks this process holds, and whether the last answer of the watchdog was
    [DecisionOK] with no sleep since. *)
Record locks := mkLocks { held : gset string; gate : bool }.

Definition lock_spec : spec admitE locks := {|
  allowed B e s :=
    match e with
    | FlockFn _ => gate s = true
    | ReleaseFn path => path ∈ held s
    | _ => True
    end;
  answers B e s :=
    match e in admitE B return B -> locks -> Prop with
    | FlockFn path => fun b s' =>
        match b with
        | Ok _ => (path ∉ held s) /\ s' = mkLocks ({[path]} ∪ held s) (gate s)
        | Err _ => s' = s
        end
    | ReleaseFn path => fun _ s' => s' = mkLocks (held s ∖ {[path]}) (gate s)
    | CheckFn => fun b s' => s' = mkLocks (held s) (bool_decide (b = Ok DecisionOK))
    | SleepFn _ => fun _ s' => s' = mkLocks (held s) false
    | _ => fun _ s' => s' = s
    end;
|}.

(** The locks an admission stands for. *)
Definition locks_of (a : Admission) : gset string :=
  if aa_done a then ∅
  else match aa_release a with Some p => {[p]} | None => ∅ end ∪
       match aa_docker a with Some p => {[p]} | None => ∅ end.

Definition slots (opts : AdmitOptions) : list string :=
  slotPathFor opts <$> seqZ 1 (ao_MaxHeavy opts).

(** What a granted admission guarantees. *)
Definition granted_ok (opts : AdmitOptions) (a : Admission) (s : locks) : Prop :=
  held s = locks_of a /\ aa_done a = false /\
  (aa_slotPath a <> "" -> aa_release a = Some (aa_slotPath a) /\ aa_slotPath a ∈ slots opts) /\
  (forall d, aa_docker a = Some d -> aa_release a <> Some d).

Ltac wpp_step :=
  match goal with
  | |- wpp _ (mret _) _ _ => apply wpp_ret
  | |- wpp _ (mbind _ _) _ _ => apply wpp_bind
  | |- wpp _ (call _) _ _ => let Ha := fresh in apply wpp_call; [cbn|intros ? ? Ha; cbn in Ha; cbv beta]
  | |- wpp _ (match ?x with _ => _ end) _ _ => destruct x eqn:?
  | |- wpp _ (if ?b then _ else _) _ _ => destruct b eqn:?
  end.

(** *** Effects that touch neither locks nor the gate *)

Definition record_effect (B : Type) (e : admitE B) : Prop :=
  match e with
  | FlockFn _ | ReleaseFn _ | CheckFn | SleepFn _ => False
  | _ => True
  end.

Lemma only_stopUnit unit : only record_effect (stopUnit unit).
Proof. unfold stopUnit. repeat only_step. Qed.

Lemma only_reapOrphan Unmarshal path : only record_effect (reapOrphan Unmarshal path).
Proof.
  unfold reapOrphan, readSlotRecord, isHolderAlive. repeat first [only_step | apply only_stopUnit].
Qed.

Lemma only_writeSlotRecord Marshal pid path unit :
  only record_effect (writeSlotRecord Marshal pid path unit).
Proof. unfold writeSlotRecord. repeat only_step. Qed.

Lemma wpp_record {A} (m : prog admitE A) s :
  only record_effect m -> wpp lock_spec m (fun _ s' => s = s') s.
Proof.
  intros Hm. eapply (only_wpp _ _ (eq s)); [exact Hm| |done]. intros B e s' He <-.
  split; [by destruct e|]. intros b s'. by destruct e.
Qed.

Lemma wpp_Release_full a s :
  held s = locks_of a -> (forall d, aa_docker a = Some d -> aa_release a <> Some d) ->
  wpp lock_spec (Release a)
    (fun a' s' => held s' = ∅ /\ aa_done a' = true /\ aa_slotPath a' = aa_slotPath a /\
       aa_release a' = aa_release a /\ aa_docker a' = aa_docker a) s.
Proof.
  intros Hh Hne. unfold Release. destruct (aa_done a) eqn:Hd.
  { apply wpp_ret. split_and!; [|done..]. unfold locks_of in Hh. by rewrite Hd in Hh. }
  apply wpp_bind. eapply wpp_mono; [apply wpp_record, only_stopUnit|]. intros _ s1 <-.
  unfold locks_of in Hh. rewrite Hd in Hh. apply wpp_bind.
  destruct (aa_docker a) as [d|] eqn:Hdk.
  - apply wpp_call; [cbn; set_solver|]. intros _ s1 ->. cbv beta. apply wpp_bind.
    destruct (aa_release a) as [p|] eqn:Hr.
    + assert (p <> d) by (intros ->; by eapply Hne).
      apply wpp_call; [cbn; set_solver|]. intros _ s2 ->. cbv beta. apply wpp_ret. cbn.
      split_and!; [set_solver|done..].
    + apply wpp_ret, wpp_ret. cbn. split_and!; [set_solver|done..].
  - apply wpp_ret, wpp_bind. destruct (aa_release a) as [p|] eqn:Hr.
    + apply wpp_call; [cbn; set_solver|]. intros _ s2 ->. cbv beta. apply wpp_ret. cbn.
      split_and!; [set_solver|done..].
    + apply wpp_ret, wpp_ret. cbn. split_and!; [set_solver|done..].
Qed.

Lemma wpp_Release a s :
  held s = locks_of a -> (forall d, aa_docker a = Some d -> aa_release a <> Some d) ->
  wpp lock_spec (Release a) (fun a' s' => held s' = ∅ /\ aa_done a' = true) s.
Proof. intros. eapply wpp_mono; [by apply wpp_Release_full|]. by intros a' s' (? & ? & _). Qed.

Section lock_lemmas.
Context (Marshal : slotRecord -> result string) (Unmarshal : string -> result slotRecord) (pid : Z).

Lemma wpp_grab_loop opts n i s :
  gate s = true -> 1 <= i -> i + Z.of_nat n <= ao_MaxHeavy opts + 1 ->
  wpp lock_spec (grab_loop Unmarshal opts n i)
    (fun r s' => match r with
                 | Ok (Some path) => (path ∉ held s) /\ path ∈ slots opts /\
                                     s' = mkLocks ({[path]} ∪ held s) true
                 | _ => s' = s
                 end) s.
Proof.
  revert i s. induction n as [|n IH]; intros i s Hg Hi Hn; cbn [grab_loop]; [done|].
  apply wpp_bind, wpp_call; [done|]. intros [[]|e] s' Ha; cbn in Ha.
  - destruct Ha as [Hni ->]. apply wpp_bind. eapply wpp_mono; [apply wpp_record, only_reapOrphan|].
    intros _ s' <-. apply wpp_ret. rewrite Hg. split_and!; [done| |done].
    apply list_elem_of_fmap. exists i. split; [done|]. apply elem_of_seqZ. lia.
  - subst s'. destruct (errors_Is _ _); [|done]. apply IH; [done|lia|lia].
Qed.

Lemma wpp_grabDockerSubSlot opts s :
  gate s = true ->
  wpp lock_spec (grabDockerSubSlot opts)
    (fun r s' => match r with
                 | (Some d, ok) => ok = true /\ (d ∉ held s) /\ s' = mkLocks ({[d]} ∪ held s) true
                 | (None, _) => s' = s
                 end) s.
Proof.
  intros Hg. unfold grabDockerSubSlot. destruct (negb _); [done|].
  apply wpp_bind, wpp_call; [done|]. intros [[]|e] s' Ha; cbn in Ha; [|done].
  destruct Ha as [? ->]. apply wpp_ret. by rewrite Hg.
Qed.

Lemma wpp_tryAcquireHeavy opts s :
  held s = ∅ -> 1 <= ao_MaxHeavy opts ->
  wpp lock_spec (tryAcquireHeavy Marshal Unmarshal pid opts)
    (fun '(adm, _, err) s' =>
       match adm with Some a => granted_ok opts a s' /\ err = None | None => held s' = ∅ end) s.
Proof.
  intros Hh Hmax. unfold tryAcquireHeavy. apply wpp_bind, wpp_call; [done|].
  intros dec s1 ->. cbn [held gate]. destruct dec as [[]|e]; [|done|done|done]. rewrite bool_decide_true by done.
  apply wpp_bind. eapply wpp_mono; [apply wpp_grab_loop; [done|lia|lia]|].
  intros [[path|]|e] s2; [|by intros ->|by intros ->]. intros (_ & Hslot & ->). cbn [held].
  rewrite Hh. apply wpp_bind. eapply wpp_mono; [by apply wpp_grabDockerSubSlot|].
  intros [docker ok] s3 Hs3. destruct ok; cbn [negb]; cbv zeta.
  - set (adm := mkAdmission path (Some path) (unitNameFor path pid) docker false).
    assert (held s3 = locks_of adm /\ (forall d, aa_docker adm = Some d -> aa_release adm <> Some d)) as [Hl Hne].
    { unfold locks_of. cbn. destruct docker as [d|]; [|subst s3; split; [cbn; set_solver|done]].
      destruct Hs3 as (_ & Hnd & ->). cbn in Hnd. split; [cbn; set_solver|].
      intros ? [= <-] [= E]. set_solver. }
    apply wpp_bind. eapply wpp_mono; [apply wpp_record, only_writeSlotRecord|]. intros [e|] s4 <-.
    + apply wpp_bind. eapply wpp_mono; [by apply wpp_Release|]. by intros a' s5 (? & _).
    + apply wpp_ret. split; [|done]. split_and!; [done|done|done|done].
  - destruct docker as [d|]; [by destruct Hs3|]. subst s3. apply wpp_bind, wpp_call; [cbn; set_solver|].
    intros _ s4 ->. cbv beta. apply wpp_ret. cbn. set_solver.
Qed.

Lemma wpp_acquire_loop fuel opts deadline s :
  held s = ∅ -> 1 <= ao_MaxHeavy opts ->
  wpp lock_spec (acquire_loop Marshal Unmarshal pid fuel opts deadline)
    (fun r s' => match r with Granted a => granted_ok opts a s' | _ => held s' = ∅ end) s.
Proof.
  revert s. induction fuel as [|fuel IH]; intros s Hh Hmax; cbn [acquire_loop]; [done|].
  apply wpp_bind, wpp_call; [done|]. intros [e|] s1 ->; [done|].
  apply wpp_bind. eapply wpp_mono; [by apply wpp_tryAcquireHeavy|].
  intros [[[a|] []] [e|]] s2 Hs2; cbn in Hs2; try done; try (by destruct Hs2).
  apply wpp_bind, wpp_call; [done|]. intros now s3 ->.
  destruct (negb _); [done|]. apply wpp_bind, wpp_call; [done|]. intros _ s4 ->. by apply IH.
Qed.

Lemma validate_MaxHeavy opts : validate opts = None -> 1 <= ao_MaxHeavy opts.
Proof. unfold validate. destruct (ao_MaxHeavy opts <? 1) eqn:E; [done|]. bsplit. lia. Qed.

Lemma wpp_Acquire fuel opts g :
  wpp lock_spec (Acquire Marshal Unmarshal pid fuel opts)
    (fun r s => match r with
                | Granted a => granted_ok (applyDefaults opts) a s
                | Refused _ | OutOfFuel => held s = ∅
                end) (mkLocks ∅ g).
Proof.
  unfold Acquire. destruct (validate _) eqn:Hv; [done|]. apply validate_MaxHeavy in Hv.
  destruct (ao_Weight _); [| |].
  - apply wpp_bind, wpp_call; [done|]. intros now s ->.
    eapply wpp_mono; [by apply wpp_acquire_loop|]. by intros [].
  - apply wpp_ret. by split_and!.
  - apply wpp_bind, wpp_call; [done|]. intros now s ->.
    eapply wpp_mono; [by apply wpp_acquire_loop|]. by intros [].
Qed.
End lock_lemmas.

(** [Release] gives back every lock of an admission, each exactly once, and leaves an
    admission whose release calls nothing. *)
Lemma wpp_Release_frees opts a s :
  granted_ok opts a s ->
  wpp lock_spec (Release a)
    (fun a' s' => held s' = ∅ /\ locks_of a' = ∅ /\ Release a' = mret a') s.
Proof.
  intros (Hh & _ & _ & Hne). eapply wpp_mono; [by apply wpp_Release|].
  intros a' s' (Hh' & Hd). unfold locks_of, Release. by rewrite Hd.
Qed.

(** No slot leaks and no gate is bypassed.  Started without locks, and
    whatever the injected functions answer, [Acquire] calls [FlockFn] only right
    after the watchdog said [DecisionOK], calls a release function only for a lock
    it holds, and ends holding no lock at all unless it grants an admission; then
    it holds exactly the locks of that admission, and a heavy one is one of the
    [MaxHeavy] slots. And
    [Release] then gives back every one of those locks, each exactly once, after which
    a second [Release] calls nothing. *)
Theorem acquire_holds_only_what_it_grants Marshal Unmarshal pid fuel opts g :
  wpp lock_spec (Acquire Marshal Unmarshal pid fuel opts)
    (fun r s => match r with
                | Granted a =>
                    granted_ok (applyDefaults opts) a s /\
                    wpp lock_spec (Release a)
                      (fun a' s' => held s' = ∅ /\ locks_of a' = ∅ /\ Release a' = mret a') s
                | Refused _ | OutOfFuel => held s = ∅
                end) (mkLocks ∅ g).
Proof.
  eapply wpp_mono; [apply wpp_Acquire|]. intros [a|e|] s Hr; [|done..].
  split; [exact Hr|]. by eapply wpp_Release_frees.
Qed.
