(* ===== verification/AdmitSystem.v ===== *)
(** * internal/admit: many processes on one machine

    Any number of [civmctl admit] processes share the kernel's lock table.  They
    interleave call by call, release their admissions when they like, and may die
    anywhere; the kernel then drops their locks.  The capacity of the machine is
    never exceeded. *)

From S2P Require Import Prelude GoStrings Regex Prog Civm Memwatchdog Admit AdmitSafety.

Local Open Scope string_scope.
Local Open Scope list_scope.
Local Open Scope Z_scope.

(** The lock table: which process holds the flock of a path. *)
Abbreviation table := (gmap string Z).

(** An effect of process [p]: only the lock calls touch the table, every other
    function may answer anything. *)
Definition kernel (p : Z) (B : Type) (e : admitE B) (g : table) : B -> table -> Prop :=
  match e in admitE B return B -> table -> Prop with
  | FlockFn path => fun b g' =>
      match b with
      | Ok _ => g !! path = None /\ g' = <[path := p]> g
      | Err _ => g' = g
      end
  | ReleaseFn path => fun _ g' =>
      g' = (if decide (g !! path = Some p) then delete path g else g)
  | _ => fun _ g' => g' = g
  end.

Section system.
Context (Marshal : slotRecord -> result string) (Unmarshal : string -> result slotRecord).
(** The slots all the processes agree on. *)
Context (MaxHeavy : Z) (SlotPrefix : string).

Abbreviation pool := (gmap Z (prog admitE acquired)).

Definition agrees (opts : AdmitOptions) : Prop :=
  ao_MaxHeavy (applyDefaults opts) = MaxHeavy /\ ao_SlotPrefix (applyDefaults opts) = SlotPrefix.

Definition release_prog (a : Admission) : prog admitE acquired :=
  a' ← Release a; mret (Granted a').

Inductive step : pool * table -> pool * table -> Prop :=
  | step_call c c' : pstep kernel c c' -> step c c'
  | step_start p fuel opts (ps : pool) g :
      ps !! p = None -> agrees opts ->
      step (ps, g) (<[p := Acquire Marshal Unmarshal p fuel opts]> ps, g)
  | step_release p a (ps : pool) g :
      ps !! p = Some (Done (Granted a)) -> step (ps, g) (<[p := release_prog a]> ps, g)
  | step_die p (ps : pool) (g : table) :
      step (ps, g) (delete p ps, filter (fun kv => kv.2 <> p) g).

Inductive system : pool * table -> Prop :=
  | system_init : system (∅, ∅)
  | system_step c c' : system c -> step c c' -> system c'.

(** Process [p] is inside: it holds an admission it has not released. *)
Definition admitted (c : pool * table) (p : Z) (a : Admission) : Prop :=
  fst c !! p = Some (Done (Granted a)) /\ aa_done a = false.

(** ** The invariant *)

Definition all_slots : list string := (fun i => SlotPrefix +:+ Itoa i +:+ ".lock") <$> seqZ 1 MaxHeavy.

Definition owns_locks (r : acquired) (s : locks) : Prop :=
  match r with
  | Granted a =>
      held s = locks_of a /\
      (aa_slotPath a <> "" -> aa_release a = Some (aa_slotPath a) /\ aa_slotPath a ∈ all_slots) /\
      (forall d, aa_docker a = Some d -> aa_release a <> Some d)
  | Refused _ | OutOfFuel => held s = ∅
  end.

Definition view (p : Z) (g : table) (s : locks) : Prop :=
  forall path, path ∈ held s <-> g !! path = Some p.

Lemma view_own p B (e : admitE B) g b g' s :
  view p g s -> allowed lock_spec e s -> kernel p B e g b g' ->
  exists s', answers lock_spec e s b s' /\ view p g' s'.
Proof.
  intros Hv Hal Hk. destruct e; cbn in *; try (subst g'; by eexists).
  - destruct b as [[]|]; [|subst; by eexists]. destruct Hk as [Hn ->].
    eexists. split; [split; [|done]|].
    + rewrite (Hv path), Hn. done.
    + intros q. cbn. rewrite elem_of_union, elem_of_singleton, (Hv q), lookup_insert_Some.
      destruct (decide (path = q)); naive_solver.
  - subst g'. eexists. split; [done|]. intros q. cbn.
    rewrite elem_of_difference, elem_of_singleton, (Hv q). apply Hv in Hal.
    rewrite decide_True by done. rewrite lookup_delete_Some. naive_solver.
Qed.

Lemma view_other p q B (e : admitE B) g b g' s :
  p <> q -> view q g s -> kernel p B e g b g' -> view q g' s.
Proof.
  intros Hne Hv Hk path. rewrite (Hv path). destruct e; cbn in *; try (by subst).
  - destruct b as [[]|]; [|by subst]. destruct Hk as [Hn ->]. rewrite lookup_insert_Some.
    destruct (decide (path0 = path)); naive_solver.
  - subst g'. destruct (decide _) as [Hp|]; [|done]. rewrite lookup_delete_Some.
    destruct (decide (path0 = path)); naive_solver.
Qed.

Record sys_inv (c : pool * table) : Prop := {
  si_conf : conforming lock_spec owns_locks view c;
  si_alive : forall path p, snd c !! path = Some p -> is_Some (fst c !! p);
}.

Lemma owns_Acquire p fuel opts g :
  agrees opts -> wpp lock_spec (Acquire Marshal Unmarshal p fuel opts) owns_locks (mkLocks ∅ g).
Proof.
  intros [Hm Hp]. eapply wpp_mono; [apply wpp_Acquire|]. intros [a|e|] s; [|done|done].
  intros (Hh & _ & Hslot & Hne). split_and!; [done| |done]. intros Hs.
  destruct (Hslot Hs) as [? Hin]. split; [done|]. unfold slots, slotPathFor in Hin.
  by rewrite Hm, Hp in Hin.
Qed.

Lemma owns_release a s : owns_locks (Granted a) s -> wpp lock_spec (release_prog a) owns_locks s.
Proof.
  intros (Hh & Hslot & Hne). unfold release_prog. apply wpp_bind.
  eapply wpp_mono; [by apply wpp_Release_full|]. intros a' s' (Hh' & Hd & E1 & E2 & E3).
  apply wpp_ret. unfold owns_locks, locks_of. rewrite Hd, E1, E2, E3. split_and!; done.
Qed.

Lemma sys_inv_call c c' : pstep kernel c c' -> sys_inv c -> sys_inv c'.
Proof.
  intros Hs [Hc Ha]. split.
  - eapply pstep_conforming; [| |done|done].
    + intros. by eapply view_own.
    + intros. by eapply view_other.
  - inversion Hs as [p B e k b ps g g' Hp Hk]; subst. cbn in *. intros path q Hq.
    rewrite lookup_insert_is_Some'. destruct (decide (p = q)) as [|Hne]; [by left|right].
    apply (Ha path). destruct e; cbn in Hk; try (by subst g').
    + destruct b as [[]|]; [|by subst g']. destruct Hk as [_ ->].
      apply lookup_insert_Some in Hq as [[_ ?]|[_ ?]]; done.
    + subst g'. destruct (decide _); [|done]. by apply lookup_delete_Some in Hq as [_ ?].
Qed.

Lemma system_inv c : system c -> sys_inv c.
Proof.
  induction 1 as [|c c' _ IH Hs]; [by split|].
  inversion Hs as [? ? Hp|p fuel opts ps g Hn Hag|p a ps g Hp|p ps g]; subst; [by eapply sys_inv_call|..];
    destruct IH as [Hc Ha]; cbn in *.
  - split; unfold conforming; cbn.
    + intros q m [[<- <-]|[Hne Hq]]%lookup_insert_Some; [|by apply Hc].
      exists (mkLocks ∅ false). split; [|by apply owns_Acquire]. intros path. cbn.
      rewrite elem_of_empty. split; [done|]. intros Hl. destruct (Ha _ _ Hl). congruence.
    + intros path q Hq%Ha. by rewrite lookup_insert_is_Some'; right.
  - split; unfold conforming; cbn.
    + intros q m [[<- <-]|[Hne Hq]]%lookup_insert_Some; [|by apply Hc].
      destruct (Hc p _ Hp) as (s & Hv & Hw). exists s. split; [done|]. by apply owns_release.
    + intros path q Hq%Ha. by rewrite lookup_insert_is_Some'; right.
  - split; unfold conforming; cbn.
    + intros q m [Hne Hq]%lookup_delete_Some. destruct (Hc q m Hq) as (s & Hv & Hw).
      exists s. split; [|done]. intros path. rewrite (Hv path). cbn.
      rewrite map_lookup_filter_Some. cbn. naive_solver.
    + intros path q [Hq Hne]%map_lookup_filter_Some. cbn in *.
      rewrite lookup_delete_ne by done. by eapply Ha.
Qed.

(** An admitted process really holds the locks of its admission. *)
Lemma admitted_locks c p a path :
  system c -> admitted c p a -> path ∈ locks_of a -> snd c !! path = Some p.
Proof.
  intros Hsys [Hp _] Hin. destruct (si_conf _ (system_inv c Hsys) p _ Hp) as (s & Hv & Hh & _).
  apply Hv. by rewrite Hh.
Qed.

Lemma admitted_slot c p a :
  system c -> admitted c p a -> HoldsSlot a = true ->
  aa_slotPath a ∈ all_slots /\ snd c !! aa_slotPath a = Some p.
Proof.
  intros Hsys Had Hs. pose proof Had as [Hp Hd].
  destruct (si_conf _ (system_inv c Hsys) p _ Hp) as (s & _ & _ & Hslot & _).
  unfold HoldsSlot in Hs. bsplit. apply String.eqb_neq in Hs. destruct (Hslot Hs) as [Hr Hin].
  split; [done|]. eapply admitted_locks; [done..|]. unfold locks_of. rewrite Hd, Hr. set_solver.
Qed.

(** Distinct processes inside hold distinct slots. *)
Lemma admitted_distinct c p q a b path :
  system c -> admitted c p a -> admitted c q b ->
  path ∈ locks_of a -> path ∈ locks_of b -> p = q.
Proof.
  intros Hsys Ha Hb Hpa Hpb. pose proof (admitted_locks c p a path Hsys Ha Hpa).
  pose proof (admitted_locks c q b path Hsys Hb Hpb). congruence.
Qed.

Lemma length_all_slots : 0 <= MaxHeavy -> Z.of_nat (length all_slots) = MaxHeavy.
Proof. intros. unfold all_slots. rewrite length_fmap, length_seqZ. lia. Qed.

(** Pigeonhole: injective choices from a list are no more than its length. *)
Lemma choices_bounded {A B} `{EqDecision B} (R : A -> B -> Prop) (xs : list A) (ys : list B) :
  NoDup xs -> (forall x, x ∈ xs -> exists y, y ∈ ys /\ R x y) ->
  (forall x x' y, R x y -> R x' y -> x = x') -> (length xs <= length ys)%nat.
Proof.
  intros Hnd Hch Hinj. revert ys Hch. induction Hnd as [|x xs Hx Hnd IH]; intros ys Hch; cbn; [lia|].
  destruct (Hch x) as (y & Hy & Hxy); [by left|].
  apply list_elem_of_split in Hy as (ys1 & ys2 & ->).
  specialize (IH (ys1 ++ ys2)). rewrite !length_app in *. cbn.
  assert (length xs <= length ys1 + length ys2)%nat; [|lia]. apply IH. intros x' Hx'.
  destruct (Hch x') as (y' & Hy' & Hxy'); [by right|]. exists y'. split; [|done].
  apply elem_of_app in Hy' as [|[-> |]%elem_of_cons]; [set_solver| |set_solver].
  by rewrite (Hinj _ _ _ Hxy Hxy') in Hx.
Qed.

Lemma capacity c (ps : list Z) :
  system c -> 0 <= MaxHeavy -> NoDup ps ->
  (forall p, p ∈ ps -> exists a, admitted c p a /\ HoldsSlot a = true) ->
  Z.of_nat (length ps) <= MaxHeavy.
Proof.
  intros Hsys Hmax Hnd Hall. rewrite <- length_all_slots by done. apply inj_le.
  apply (choices_bounded (fun p path => snd c !! path = Some p)); [done| |congruence].
  intros p Hp. destruct (Hall p Hp) as (a & Had & Hs). exists (aa_slotPath a).
  by apply admitted_slot.
Qed.
End system.

(** C34. Capacity: however many processes run, in whatever order their calls are
    interleaved, and wherever they die, at most [MaxHeavy] of them are inside with a
    heavy slot at any time, and two of them never hold the same docker sub-slot. *)
Theorem slots_are_never_shared Marshal Unmarshal MaxHeavy SlotPrefix c :
  system Marshal Unmarshal MaxHeavy SlotPrefix c -> 0 <= MaxHeavy ->
  (forall ps, NoDup ps -> (forall p, p ∈ ps -> exists a, admitted c p a /\ HoldsSlot a = true) ->
     Z.of_nat (length ps) <= MaxHeavy) /\
  (forall p q a b d, admitted c p a -> admitted c q b ->
     aa_docker a = Some d -> aa_docker b = Some d -> p = q).
Proof.
  intros Hsys Hmax. split; [intros ps; by apply (capacity Marshal Unmarshal MaxHeavy SlotPrefix)|].
  intros p q a b d Ha Hb Hda Hdb. eapply (admitted_distinct _ _ _ _ c p q a b d); try done.
  - unfold locks_of. destruct Ha as [_ ->]. rewrite Hda. set_solver.
  - unfold locks_of. destruct Hb as [_ ->]. rewrite Hdb. set_solver.
Qed.

(** ** A concrete machine *)

(** Every function answers as on a healthy machine with empty slot files. *)
Definition healthy (p : Z) (B : Type) (e : admitE B) : St table B := fun g =>
  match e in admitE B return B * table with
  | FlockFn path =>
      match g !! path with
      | None => (Ok tt, <[path := p]> g)
      | Some _ => (Err (Errorf_s ErrSlotBusy "admit: slot busy"), g)
      end
  | ReleaseFn path => (tt, if decide (g !! path = Some p) then delete path g else g)
  | CheckFn => (Ok DecisionOK, g)
  | RunFn _ _ => (None, g)
  | PidAliveFn _ => (true, g)
  | PidStartTicksFn _ => (Ok 77, g)
  | ReadFileFn _ => (Err (Errorf_s ErrNotExist "no such file"), g)
  | WriteFileFn _ _ _ => (None, g)
  | NowFn => (0, g)
  | SleepFn _ => (tt, g)
  | CtxErr => (None, g)
  end.

Lemma healthy_kernel p B (e : admitE B) g :
  kernel p B e g (fst (healthy p B e g)) (snd (healthy p B e g)).
Proof. destruct e; cbn; try done. by destruct (g !! path) eqn:E. Qed.

(** A process may run to its end without interruption. *)
Lemma system_run Ma Un N pre p m (ps : gmap Z (prog admitE acquired)) g :
  system Ma Un N pre (<[p := m]> ps, g) ->
  system Ma Un N pre (<[p := Done (fst (interp (healthy p) m g))]> ps, snd (interp (healthy p) m g)).
Proof.
  revert g. induction m as [a|B e k IH]; intros g Hsys; cbn; [done|].
  pose proof (healthy_kernel p B e g) as Hk. destruct (healthy p B e g) as [b g'].
  apply IH. eapply system_step; [exact Hsys|]. apply step_call.
  replace (<[p:=k b]> ps) with (<[p:=k b]> (<[p:=Call e k]> ps)) by apply insert_insert_eq.
  eapply pstep_call; [by rewrite lookup_insert_eq|exact Hk].
Qed.

Definition no_json (r : slotRecord) : result string := Ok (sr_Unit r).
Definition no_parse (s : string) : result slotRecord := Err (Errorf "unexpected end of JSON input").

Definition demo_opts : AdmitOptions := mkAdmitOptions 0 "" "" (WeightOther "") "docker" 0 0.
Definition plain_opts : AdmitOptions := mkAdmitOptions 0 "" "" WeightHeavy "" 0 0.

(** Two processes inside, the first with the docker sub-slot. *)
Definition run1 := interp (healthy 1) (Acquire no_json no_parse 1 1 demo_opts) ∅.
Definition run2 := interp (healthy 2) (Acquire no_json no_parse 2 1 plain_opts) (snd run1).
Definition full_house : gmap Z (prog admitE acquired) * table :=
  (<[2 := Done (fst run2)]> (<[1 := Done (fst run1)]> ∅), snd run2).

Lemma full_house_system : system no_json no_parse 2 "/run/civm/admit-heavy-" full_house.
Proof.
  apply (system_run _ _ _ _ 2 (Acquire no_json no_parse 2 1 plain_opts) (<[1 := Done (fst run1)]> ∅) (snd run1)).
  eapply system_step.
  - apply (system_run _ _ _ _ 1 (Acquire no_json no_parse 1 1 demo_opts) ∅ ∅).
    eapply system_step; [apply system_init|]. apply step_start; [done|split; vm_compute; reflexivity].
  - apply step_start; [by rewrite lookup_insert_ne|split; vm_compute; reflexivity].
Qed.

Definition admission_of (r : acquired) : Admission :=
  match r with Granted a => a | _ => mkAdmission "" None "" None false end.

Lemma admitted1 : admitted full_house 1 (admission_of (fst run1)).
Proof. split; vm_compute; reflexivity. Qed.
Lemma admitted2 : admitted full_house 2 (admission_of (fst run2)).
Proof. split; vm_compute; reflexivity. Qed.

Lemma slots_are_never_shared_witness :
  Z.of_nat (length [1; 2]) <= 2 /\
  (forall q b, admitted full_house q b -> aa_docker b = Some DefaultAdmitDockerSlotPath -> 1 = q).
Proof.
  destruct (slots_are_never_shared _ _ 2 _ full_house full_house_system ltac:(lia)) as [Hcap Hdocker]. split.
  - apply Hcap.
    + apply NoDup_cons. split; [set_solver|apply NoDup_singleton].
    + intros p [-> |[-> |Hp]%elem_of_cons]%elem_of_cons; [| |by apply not_elem_of_nil in Hp].
      * eexists. split; [exact admitted1|vm_compute; reflexivity].
      * eexists. split; [exact admitted2|vm_compute; reflexivity].
  - intros q b Hq Hb. apply (Hdocker 1 q _ b DefaultAdmitDockerSlotPath admitted1 Hq); [vm_compute; reflexivity|exact Hb].
Defined.

(** * internal/admit: termination, orphans and unit names *)

Local Open Scope string_scope.
Local Open Scope list_scope.
Local Open Scope Z_scope.

(** ** Termination *)

(** The clock: [NowFn] reads it, [SleepFn d] lets at least [d] pass, and no call
    turns it back. *)
Definition clock_spec : spec admitE Z := {|
  allowed B e s := True;
  answers B e s :=
    match e in admitE B return B -> Z -> Prop with
    | NowFn => fun b s' => b = s' /\ s <= s'
    | SleepFn d => fun _ s' => s + d <= s'
    | _ => fun _ s' => s <= s'
    end;
|}.

(** An attempt neither sleeps nor asks twice. *)
Definition attempt_effect (B : Type) (e : admitE B) : Prop :=
  match e with CheckFn | SleepFn _ => False | _ => True end.

Lemma record_attempt {A} (m : prog admitE A) : only record_effect m -> only attempt_effect m.
Proof. intros Hm. eapply only_mono; [exact Hm|]. by intros B []. Qed.

Section attempt.
Context (Marshal : slotRecord -> result string) (Unmarshal : string -> result slotRecord) (pid : Z).

Lemma attempt_grab_loop opts n i : only attempt_effect (grab_loop Unmarshal opts n i).
Proof.
  revert i. induction n as [|n IH]; intros i; cbn [grab_loop]; cbv zeta;
    repeat first [only_step | apply IH | apply record_attempt, only_reapOrphan].
Qed.

Lemma attempt_Release a : only attempt_effect (Release a).
Proof. unfold Release. repeat first [only_step | apply record_attempt, only_stopUnit]. Qed.

(** [tryAcquireHeavy] after the answer of the watchdog. *)
Lemma tryAcquireHeavy_shape opts :
  exists k, tryAcquireHeavy Marshal Unmarshal pid opts = call CheckFn ≫= k /\
    (forall dec, only attempt_effect (k dec)) /\
    (forall e, k (Err e) = mret (None, true, Some (Errorf_w "admit: watchdog check failed (fail-closed)" e))).
Proof.
  eexists. split; [reflexivity|]. split; [|done]. intros [[]|e]; cbv beta iota; [|exact I..].
  apply only_bind; [apply attempt_grab_loop|]. intros [[path|]|e]; [|exact I..].
  apply only_bind; [unfold grabDockerSubSlot; repeat only_step|]. intros [docker []]; cbn [negb]; cbv zeta.
  - apply only_bind; [apply record_attempt, only_writeSlotRecord|].
    intros [e|]; [|exact I]. apply only_bind; [apply attempt_Release|]. by intros.
  - repeat only_step.
Qed.
End attempt.

Section clock.
Context (Marshal : slotRecord -> result string) (Unmarshal : string -> result slotRecord) (pid : Z).

Lemma passes_tryAcquireHeavy opts t :
  wpp clock_spec (tryAcquireHeavy Marshal Unmarshal pid opts) (fun _ t' => t <= t') t.
Proof.
  destruct (tryAcquireHeavy_shape Marshal Unmarshal pid opts) as (k & -> & Hk & _).
  apply wpp_bind, wpp_call; [done|]. intros dec t1 Ht1. cbn in Ht1.
  eapply only_wpp; [apply Hk| |exact Ht1]. cbv beta. intros B e t2 He Ht2. split; [done|].
  intros b t3. destruct e; cbn in *; try done; lia.
Qed.

(** Each iteration that goes on has slept a whole backoff before the deadline. *)
Lemma acquire_loop_ends fuel opts deadline t :
  0 < ao_Backoff opts -> deadline - t < (Z.of_nat fuel - 1) * ao_Backoff opts -> (0 < fuel)%nat ->
  wpp clock_spec (acquire_loop Marshal Unmarshal pid fuel opts deadline) (fun r _ => r <> OutOfFuel) t.
Proof.
  intros Hb. revert t. induction fuel as [|fuel IH]; intros t Hd Hf; [lia|]. cbn [acquire_loop].
  apply wpp_bind, wpp_call; [done|]. intros [e|] t1 Ht1; cbn in Ht1; [done|].
  apply wpp_bind. eapply wpp_mono; [apply passes_tryAcquireHeavy|].
  intros [[[a|] []] [e|]] t2 Ht2; try done. cbv beta in Ht2. apply wpp_bind, wpp_call; [done|].
  intros now t3 [-> Ht3]. destruct (negb _) eqn:Hnow; [done|]. bsplit.
  apply wpp_bind, wpp_call; [done|]. intros u4 t4 Ht4. cbn in Ht4.
  destruct fuel as [|fuel].
  { exfalso. cbn in Hd. lia. }
  apply IH; [|lia]. rewrite !Nat2Z.inj_succ in *. nia.
Qed.
End clock.

Lemma applyDefaults_bounds opts :
  0 < ao_Backoff (applyDefaults opts) /\ 0 < ao_WaitBudget (applyDefaults opts).
Proof.
  unfold applyDefaults. cbn. split.
  - destruct (ao_Backoff opts <=? 0) eqn:E; bsplit; [unfold backoffStep, Millisecond|]; lia.
  - destruct (ao_WaitBudget opts <=? 0) eqn:E; bsplit;
      [unfold DefaultAdmitWaitMinutes, Minute, Second, Millisecond|]; lia.
Qed.


(** [Acquire] never hangs: when the fuel allows more iterations than backoffs
    fit into the wait budget, the loop returns, whatever the slots, the watchdog
    and the files do, as long as [SleepFn] sleeps and the clock is not turned back. *)
Theorem acquire_terminates Marshal Unmarshal pid fuel opts t :
  let o := applyDefaults opts in
  ao_WaitBudget o < (Z.of_nat fuel - 1) * ao_Backoff o ->
  wpp clock_spec (Acquire Marshal Unmarshal pid fuel opts) (fun r _ => r <> OutOfFuel) t.
Proof.
  intros o Hfuel. destruct (applyDefaults_bounds opts) as [Hb Hw]. fold o in Hb, Hw.
  unfold Acquire. fold o. destruct (validate o); [done|].
  assert (wpp clock_spec (now ← call NowFn;
    acquire_loop Marshal Unmarshal pid fuel o (now + ao_WaitBudget o))
    (fun r _ => r <> OutOfFuel) t) as Hloop.
  { apply wpp_bind, wpp_call; [done|]. intros now t1 [-> Ht1].
    apply acquire_loop_ends; [done|lia|nia]. }
  by destruct (ao_Weight o).
Qed.

Definition slow_opts : AdmitOptions := mkAdmitOptions 0 "" "" WeightHeavy "" 0 (10 * Second).

Lemma acquire_terminates_witness :
  wpp clock_spec (Acquire no_json no_parse 7 182 slow_opts) (fun r _ => r <> OutOfFuel) 0.
Proof. apply acquire_terminates; vm_compute; done. Defined.

(** ** A watchdog error is not retried *)

(** Whether [CheckFn] has failed; sleeping or asking again after that is not
    allowed. *)
Definition once_spec : spec admitE bool := {|
  allowed B e s := match e with SleepFn _ | CheckFn | FlockFn _ => s = false | _ => True end;
  answers B e s :=
    match e in admitE B return B -> bool -> Prop with
    | CheckFn => fun b s' => s' = match b with Err _ => true | Ok _ => false end
    | _ => fun _ s' => s' = s
    end;
|}.

(** A failing watchdog ends [Acquire] at once: after the first error of
    [CheckFn] no slot is tried, the watchdog is not asked again and nothing sleeps,
    and the answer is a refusal.  In particular the error is never retried. *)
Theorem watchdog_error_refuses_without_retry Marshal Unmarshal pid fuel opts :
  wpp once_spec (Acquire Marshal Unmarshal pid fuel opts)
    (fun r failed => failed = true -> exists e, r = Refused e) false.
Proof.
  unfold Acquire. destruct (validate _); [done|].
  assert (forall deadline s, s = false ->
    wpp once_spec (acquire_loop Marshal Unmarshal pid fuel (applyDefaults opts) deadline)
      (fun r failed => failed = true -> exists e, r = Refused e) s) as Hloop.
  { intros deadline. induction fuel as [|n IH]; intros s ->; cbn [acquire_loop]; [done|].
    apply wpp_bind, wpp_call; [done|]. intros [e|] s1 ->; [done|].
    destruct (tryAcquireHeavy_shape Marshal Unmarshal pid (applyDefaults opts)) as (k & -> & Hk & Herr).
    apply wpp_bind, wpp_bind, wpp_call; [done|]. intros [dec|e] s2 ->.
    - eapply wpp_mono; [eapply (only_wpp _ _ (eq false)); [apply Hk| |done]|].
      { intros B e s He <-. by split; destruct e. }
      intros [[[a|] []] [e|]] s3 <-; try done.
      apply wpp_bind, wpp_call; [done|]. intros now s4 ->. destruct (negb _); [done|].
      apply wpp_bind, wpp_call; [done|]. intros u5 s5 ->. by apply IH.
    - rewrite Herr. apply wpp_ret. apply wpp_ret. eauto. }
  destruct (ao_Weight _); [|done|]; (apply wpp_bind, wpp_call; [done|]; intros now s ->; by apply Hloop).
Qed.

(** ** Orphans *)

(** What [reapOrphan] has learned so far about the holder recorded in the slot. *)
Record evidence := mkEvidence {
  ev_record : option slotRecord;
  ev_alive : option bool;
  ev_ticks : option (result Z);
}.

(** The recorded holder is gone: its PID is dead, or now belongs to a process with
    other start ticks, or the ticks that were recorded cannot be read any more. *)
Definition holder_gone (rec : slotRecord) (s : evidence) : Prop :=
  ev_alive s = Some false \/
  (ev_alive s = Some true /\ sr_PIDStartTicks rec <> 0 /\
   ((exists e, ev_ticks s = Some (Err e)) \/
    exists t, ev_ticks s = Some (Ok t) /\ t <> sr_PIDStartTicks rec)).

Definition reap_spec (Unmarshal : string -> result slotRecord) : spec admitE evidence := {|
  allowed B e s :=
    match e with
    | ReadFileFn _ => True
    | PidAliveFn pid | PidStartTicksFn pid => exists rec, ev_record s = Some rec /\ pid = sr_PID rec
    | RunFn name args => exists rec, ev_record s = Some rec /\ holder_gone rec s /\
        ValidateServiceUnit (sr_Unit rec) = None /\
        name = "sudo" /\ args = ["systemctl"; "stop"; "--"; sr_Unit rec]
    | _ => False
    end;
  answers B e s :=
    match e in admitE B return B -> evidence -> Prop with
    | ReadFileFn _ => fun b s' =>
        s' = mkEvidence (match b with
                         | Ok data => match Unmarshal data with Ok rec => Some rec | Err _ => None end
                         | Err _ => None
                         end) None None
    | PidAliveFn _ => fun b s' => s' = mkEvidence (ev_record s) (Some b) (ev_ticks s)
    | PidStartTicksFn _ => fun b s' => s' = mkEvidence (ev_record s) (ev_alive s) (Some b)
    | _ => fun _ s' => s' = s
    end;
|}.

Section reap.
Context (Unmarshal : string -> result slotRecord).

Lemma wpp_isHolderAlive rec s :
  ev_record s = Some rec ->
  wpp (reap_spec Unmarshal) (isHolderAlive rec)
    (fun alive s' => ev_record s' = Some rec /\ (alive = false -> holder_gone rec s')) s.
Proof.
  intros Hr. unfold isHolderAlive. apply wpp_bind, wpp_call; [by exists rec|].
  intros [] s1 ->; cbn [negb].
  - destruct (sr_PIDStartTicks rec =? 0) eqn:Hz; [by apply wpp_ret|]. bsplit.
    apply wpp_bind, wpp_call; [by exists rec|]. intros [t|e] s2 ->.
    + apply wpp_ret. split; [done|]. intros Ht. bsplit. right. cbn. naive_solver.
    + apply wpp_ret. split; [done|]. right. cbn. naive_solver.
  - apply wpp_ret. split; [done|]. by left.
Qed.
End reap.

(** [reapOrphan] stops a unit only on evidence that its holder is gone: the one
    command it may run is the stop of the valid unit named in the slot record, after
    the recorded PID was found dead or recycled.  The unit of a live holder is never
    stopped. *)
Theorem only_orphans_are_reaped Unmarshal path :
  wpp (reap_spec Unmarshal) (reapOrphan Unmarshal path) (fun _ _ => True) (mkEvidence None None None).
Proof.
  unfold reapOrphan, readSlotRecord. apply wpp_bind, wpp_bind, wpp_call; [done|]. intros data s1 Hs1.
  destruct data as [data|e]; [|by destruct (errors_Is _ _)]. destruct (String.eqb (TrimSpace data) ""); [done|].
  cbn in Hs1. destruct (Unmarshal data) as [rec|e] eqn:Hu; [|done]. apply wpp_ret.
  destruct (String.eqb (sr_Unit rec) "") eqn:Hne; [done|]. apply wpp_bind.
  eapply wpp_mono; [apply wpp_isHolderAlive; by rewrite Hs1|]. intros [] s2 [Hr Hg]; [done|].
  unfold stopUnit. rewrite Hne. destruct (bool_decide _) eqn:Hv; [done|].
  apply bool_decide_eq_false, dec_stable in Hv. apply wpp_bind, wpp_call; [|done]. cbn.
  exists rec. split_and!; auto.
Qed.

(** ** Unit names *)

Lemma unit_name_valid stem :
  stem <> "" -> str_forallb (fun c => in_class (alnum ++ chars "_@-") c) stem = true ->
  ValidateServiceUnit (stem +:+ ".service") = None.
Proof.
  intros Hne Hc. unfold ValidateServiceUnit.
  assert (MatchString unitRe (stem +:+ ".service") = true) as ->.
  { apply MatchString_correct. apply m_cat; [|by apply rmatch_lit]. apply rmatch_plus_chars; [done|].
    revert Hc. apply str_forallb_impl, ascii_impl. vm_compute. reflexivity. }
  cbn [negb orb]. assert (Contains (stem +:+ ".service") ".." = false) as ->; [|done].
  clear Hne. induction stem as [|c stem IH]; [reflexivity|]. cbn in Hc. bsplit.
  change (String c stem +:+ ".service") with (String c (stem +:+ ".service")).
  cbn [Contains]. rewrite IH by done. rewrite orb_false_r. unfold HasPrefix. cbn [String.prefix].
  destruct (ascii_dec "." c) as [<-|]; [done|reflexivity].
Qed.

(** The unit name reserved for an admission is always accepted by
    [ValidateServiceUnit], whatever the slot path, so that the slot record of a
    killed process can always be reaped. *)
Theorem reserved_unit_is_valid slotPath pid :
  0 <= pid -> ValidateServiceUnit (unitNameFor slotPath pid) = None.
Proof.
  intros Hp. unfold unitNameFor. destruct (bool_decide _) eqn:Hv.
  - rewrite (app_assoc_str "civm-admit-" (Itoa pid) ".service"). apply unit_name_valid; [done|].
    rewrite str_forallb_app. apply andb_true_intro. split; [vm_compute; reflexivity|].
    pose proof (Itoa_digits pid Hp) as Hd. revert Hd. apply str_forallb_impl, ascii_impl.
    vm_compute. reflexivity.
  - by apply bool_decide_eq_false, dec_stable in Hv.
Qed.

Lemma reserved_unit_is_valid_witness :
  ValidateServiceUnit (unitNameFor "/run/civm/ad mit..1.lock" 4242) = None.
Proof. apply reserved_unit_is_valid. lia. Defined.
