(* ===== verification/AdmitCommand.v ===== *)
(** * civmctl admit (cmd/civmctl/admit.go)

    The command that runs a payload under an admission.  Up to the start of the payload it
    is one program, [admit_prepare]; from then on two goroutines and the payload share the
    admission: the main one waits for the payload, the other one for a signal, and both end
    in the release that a [sync.Once] guards.  [admit_move] is one step of one of them.
    Events on stderr are left out. *)

From S2P Require Import Prelude GoStrings Regex Prog Civm Memwatchdog Admit AdmitSafety.

Local Open Scope string_scope.
Local Open Scope list_scope.
Local Open Scope Z_scope.

Definition exitAdmitUsage : Z := 64.
Definition exitAdmitWaitTimeout : Z := 78.
Definition exitAdmitInternal : Z := 79.
Definition admitDefaultUser : string := "emdev".
Definition admitMinMemMB : Z := 512.
Definition DefaultAdmitHostReserveMB : Z := 2048.
Definition DefaultAdmitHeavyMaxMB : Z := 0.

Record admitFlags := mkAdmitFlags { af_weight : string; af_exclusive : string; af_waitMin : Z }.

Record systemdRunSpec := mkRunSpec { rs_User : string; rs_Group : string; rs_MemMB : Z; rs_Unit : string; rs_Cmd : list string }.

Definition weight_of (s : string) : Weight :=
  if String.eqb s "heavy" then WeightHeavy else if String.eqb s "light" then WeightLight else WeightOther s.

Definition resolveWeight (flagVal envVal : string) : result Weight :=
  match weight_of (TrimSpace flagVal) with
  | WeightHeavy => Ok WeightHeavy
  | WeightLight => Ok WeightLight
  | WeightOther s =>
      if String.eqb s "auto" then
        match weight_of (TrimSpace envVal) with WeightLight => Ok WeightLight | _ => Ok WeightHeavy end
      else Err (Errorf "weight invalido")
  end.

(** Go's division truncates towards zero. *)
Definition effectiveMemMB (heavyMaxMB memTotalMB hostReserveMB maxHeavy : Z) : result Z :=
  if 0 <? heavyMaxMB then Ok heavyMaxMB
  else
    let maxHeavy := if maxHeavy <? 1 then 1 else maxHeavy in
    if memTotalMB <=? 0 then Err (Errorf "MemTotal do host indisponivel; recusando heavy (fail-closed)")
    else
      let budget := Z.quot (int64 (memTotalMB - hostReserveMB)) maxHeavy in
      if budget <? admitMinMemMB then Err (Errorf "host pequeno demais") else Ok budget.

Definition buildSystemdRunArgs (spec : systemdRunSpec) : list string :=
  ["sudo"; "systemd-run"; "--collect"] ++
  (if String.eqb (rs_Unit spec) "" then [] else ["--unit=" +:+ rs_Unit spec]) ++
  ["--pipe"; "--wait"; "-p"; "User=" +:+ rs_User spec; "-p"; "Group=" +:+ rs_Group spec;
   "-p"; "MemoryMax=" +:+ Itoa (rs_MemMB spec) +:+ "M"; "-p"; "MemorySwapMax=0"; "--"] ++ rs_Cmd spec.

(** ** Up to the start of the payload *)

Inductive admitcmdE : Type -> Type :=
  | Adm {B} (e : admitE B) : admitcmdE B                          (* the functions of internal/admit *)
  | SudoInstall (args : list string) : admitcmdE (string * err_ret)
  | StatIsDir (path : string) : admitcmdE bool
  | AccessWrite (path : string) : admitcmdE bool
  | ReadControllers : admitcmdE (result string)                   (* /sys/fs/cgroup/cgroup.controllers *)
  | ReadMeminfo : admitcmdE (result string).

Definition on_adm {A} (m : prog admitE A) : prog admitcmdE A := link (fun B e => call (Adm e)) m.

(** What is left to run, with the admission it runs under. *)
Inductive prepared := Exits (code : Z) | Runs (adm : Admission) (argv : list string).

Section prepare.
Context (Marshal : slotRecord -> result string) (Unmarshal : string -> result slotRecord) (pid : Z) (fuel : nat).
(** [runnerUser()]. *)
Context (user : string).

Definition ensureAdmitRunDir (dir : string) : prog admitcmdE err_ret :=
  r ← call (SudoInstall ["install"; "-d"; "-o"; user; "-g"; user; "-m"; "0755"; dir]);
  match snd r with
  | None => mret None
  | Some e =>
      isDir ← call (StatIsDir dir);
      writable ← (if isDir : bool then call (AccessWrite dir) else mret false);
      mret (if (writable : bool) then None else Some (Errorf_w dir e))
  end.

Definition cgroupMemoryEnforceable : prog admitcmdE bool :=
  data ← call ReadControllers;
  mret (match data with Err _ => false | Ok data => existsb (fun c => String.eqb c "memory") (Fields data) end).

Definition hostMemTotalMB : prog admitcmdE Z :=
  raw ← call ReadMeminfo;
  mret (match Sample raw with Err _ => 0 | Ok mem => MemTotalMB mem end).

Definition admit_options (af : admitFlags) (weight : Weight) : AdmitOptions :=
  mkAdmitOptions DefaultAdmitMaxHeavy DefaultAdmitSlotPathPrefix DefaultAdmitDockerSlotPath weight (af_exclusive af)
    (int64 (af_waitMin af * Minute)) 0.

(** [admitAndRun] and [runUnderAdmission] before the payload. *)
Definition admit_prepare (af : admitFlags) (weight : Weight) (payload : list string) : prog admitcmdE (option prepared) :=
  ready ← (match weight with
           | WeightHeavy =>
               e ← ensureAdmitRunDir (Dir DefaultAdmitSlotPathPrefix);
               match e with Some _ => mret false | None => cgroupMemoryEnforceable end
           | _ => mret true
           end);
  if negb ready then mret (Some (Exits exitAdmitInternal))
  else
    r ← on_adm (Acquire Marshal Unmarshal pid fuel (admit_options af weight));
    match r with
    | OutOfFuel => mret None
    | Refused e => mret (Some (Exits (if errors_Is e ErrWaitBudgetExceeded then exitAdmitWaitTimeout else exitAdmitInternal)))
    | Granted adm =>
        memTotal ← hostMemTotalMB;
        match effectiveMemMB DefaultAdmitHeavyMaxMB memTotal DefaultAdmitHostReserveMB DefaultAdmitMaxHeavy with
        | Err _ => on_adm (Release adm);; mret (Some (Exits exitAdmitInternal))
        | Ok memMB => mret (Some (Runs adm (buildSystemdRunArgs (mkRunSpec user user memMB (aa_unit adm) payload))))
        end
    end.

(** The flags when they parse, and the words after them. *)
Definition runAdmit (flags : option (admitFlags * list string)) (CIVM_JOB_WEIGHT : string) : prog admitcmdE (option prepared) :=
  match flags with
  | None => mret (Some (Exits exitAdmitUsage))
  | Some (_, []) => mret (Some (Exits exitAdmitUsage))
  | Some (af, payload) =>
      match resolveWeight (af_weight af) CIVM_JOB_WEIGHT with
      | Err _ => mret (Some (Exits exitAdmitUsage))
      | Ok weight => admit_prepare af weight payload
      end
  end.
End prepare.

(** ** From the start of the payload *)

Inductive child := NotStarted | Running | Exited (code : Z).

(** Where the goroutine is that runs the body of the [sync.Once]: [Release], then the
    channel is closed. *)
Inductive release_pc := RStop | RDocker | RSlot | RClose.
Inductive once := OnceIdle | OnceBusy (by_main : bool) (pc : release_pc) | OnceDone.

(** [MRelease]: the call after the wait; [MDefer]: the deferred one. *)
Inductive main_pc := MStart | MWait | MRelease (code : Z) | MDefer (code : Z) | MExit (code : Z).
(** [forwardSignal] *)
Inductive hand_pc := HSelect | HOnce | HSignal | HDone.

Record admit_run := mkRun {
  ar_adm : Admission;
  ar_held : gset string;       (* the flocks of the process *)
  ar_child : child;
  ar_once : once;
  ar_closed : bool;            (* the channel released *)
  ar_panic : bool;
  ar_main : main_pc;
  ar_hand : hand_pc;
  ar_stop_failed : bool;       (* systemctl stop has failed *)
  ar_forwarded : nat;          (* signals passed on to the payload *)
  ar_early : bool;             (* the unit was stopped before it was started *)
}.

Definition run_start (adm : Admission) (held : gset string) : admit_run :=
  mkRun adm held NotStarted OnceIdle false false MStart HSelect false 0 false.

(** The answers of the outside are part of a move. *)
Inductive move :=
  | MainStart (err : err_ret)
  | MainWait (ok : bool)            (* false: [Wait] fails otherwise than with the exit status *)
  | MainOnce
  | ReleaseStep (err : err_ret)     (* the answer of systemctl, for [RStop] *)
  | Signal
  | SeeReleased
  | HandOnce
  | HandSignal
  | PayloadExit (code : Z).

Section moves.
Implicit Types s : admit_run.

Definition set_main pc s := mkRun (ar_adm s) (ar_held s) (ar_child s) (ar_once s) (ar_closed s) (ar_panic s) pc (ar_hand s) (ar_stop_failed s) (ar_forwarded s) (ar_early s).
Definition set_hand pc s := mkRun (ar_adm s) (ar_held s) (ar_child s) (ar_once s) (ar_closed s) (ar_panic s) (ar_main s) pc (ar_stop_failed s) (ar_forwarded s) (ar_early s).
Definition set_child c s := mkRun (ar_adm s) (ar_held s) c (ar_once s) (ar_closed s) (ar_panic s) (ar_main s) (ar_hand s) (ar_stop_failed s) (ar_forwarded s) (ar_early s).
Definition set_once o s := mkRun (ar_adm s) (ar_held s) (ar_child s) o (ar_closed s) (ar_panic s) (ar_main s) (ar_hand s) (ar_stop_failed s) (ar_forwarded s) (ar_early s).
Definition set_held h s := mkRun (ar_adm s) h (ar_child s) (ar_once s) (ar_closed s) (ar_panic s) (ar_main s) (ar_hand s) (ar_stop_failed s) (ar_forwarded s) (ar_early s).

(** The next statement of a goroutine that calls [releaseOnce]. *)
Definition after_once (by_main : bool) s : admit_run :=
  if by_main then set_main (match ar_main s with MRelease c => MDefer c | MDefer c => MExit c | pc => pc end) s
  else set_hand HSignal s.

(** [once.Do]: the first caller runs the body, another one waits for it. *)
Definition enter_once (by_main : bool) s : option admit_run :=
  match ar_once s with
  | OnceIdle => Some (set_once (OnceBusy by_main RStop) s)
  | OnceBusy _ _ => None
  | OnceDone => Some (after_once by_main s)
  end.

Definition unlock (p : option string) s : admit_run :=
  match p with Some p => set_held (ar_held s ∖ {[p]}) s | None => s end.

(** [stopUnit]: when it succeeds the unit of the payload is down. *)
Definition stop_step (err : err_ret) s : admit_run :=
  let unit := aa_unit (ar_adm s) in
  if String.eqb unit "" || bool_decide (ValidateServiceUnit unit <> None) then s
  else match err with
       | Some _ => mkRun (ar_adm s) (ar_held s) (ar_child s) (ar_once s) (ar_closed s) (ar_panic s) (ar_main s) (ar_hand s) true (ar_forwarded s) (ar_early s)
       | None => match ar_child s with
                 | Running => set_child (Exited 143) s
                 | NotStarted => mkRun (ar_adm s) (ar_held s) (ar_child s) (ar_once s) (ar_closed s) (ar_panic s) (ar_main s) (ar_hand s)
                                   (ar_stop_failed s) (ar_forwarded s) true
                 | Exited _ => s
                 end
       end.

(** One statement of the body of the once. *)
Definition release_step (by_main : bool) (pc : release_pc) (err : err_ret) s : admit_run :=
  match pc with
  | RStop => if aa_done (ar_adm s) then set_once (OnceBusy by_main RClose) s
             else set_once (OnceBusy by_main RDocker) (stop_step err s)
  | RDocker => set_once (OnceBusy by_main RSlot) (unlock (aa_docker (ar_adm s)) s)
  | RSlot =>
      let a := ar_adm s in
      let s := unlock (aa_release a) s in
      mkRun (mkAdmission (aa_slotPath a) (aa_release a) (aa_unit a) (aa_docker a) true) (ar_held s) (ar_child s) (OnceBusy by_main RClose)
        (ar_closed s) (ar_panic s) (ar_main s) (ar_hand s) (ar_stop_failed s) (ar_forwarded s) (ar_early s)
  | RClose =>
      after_once by_main (mkRun (ar_adm s) (ar_held s) (ar_child s) OnceDone true (ar_panic s || ar_closed s) (ar_main s) (ar_hand s)
        (ar_stop_failed s) (ar_forwarded s) (ar_early s))
  end.

(** One move; [None] when it is not possible.  Nothing moves after the exit of the process
    but the payload. *)
Definition admit_move (m : move) s : option admit_run :=
  match m, ar_main s with
  | PayloadExit code, _ => match ar_child s with Running => Some (set_child (Exited code) s) | _ => None end
  | _, MExit _ => None
  | MainStart None, MStart => Some (set_main MWait (set_child Running s))
  | MainStart (Some _), MStart => Some (set_main (MDefer exitAdmitInternal) s)
  | MainWait ok, MWait => match ar_child s with Exited c => Some (set_main (MRelease (if ok then c else exitAdmitInternal)) s) | _ => None end
  | MainOnce, MRelease _ | MainOnce, MDefer _ =>
      match ar_once s with OnceBusy true _ => None | _ => enter_once true s end
  | ReleaseStep err, _ => match ar_once s with OnceBusy by_main pc => Some (release_step by_main pc err s) | _ => None end
  | Signal, _ => match ar_hand s with HSelect => Some (set_hand HOnce s) | _ => None end
  | SeeReleased, _ => match ar_hand s with HSelect => if ar_closed s then Some (set_hand HDone s) else None | _ => None end
  | HandOnce, _ => match ar_hand s with HOnce => enter_once false s | _ => None end
  | HandSignal, _ =>
      match ar_hand s with
      | HSignal => Some (mkRun (ar_adm s) (ar_held s) (ar_child s) (ar_once s) (ar_closed s) (ar_panic s) (ar_main s) HDone (ar_stop_failed s)
                     (match ar_child s with NotStarted => ar_forwarded s | _ => S (ar_forwarded s) end) (ar_early s))
      | _ => None
      end
  | _, _ => None
  end.

Definition moves (ms : list move) s : option admit_run := foldl (fun (o : option admit_run) m => o ≫= admit_move m) (Some s) ms.
End moves.

Inductive admit_reaches (adm : Admission) (held : gset string) : admit_run -> Prop :=
  | reaches_start : admit_reaches adm held (run_start adm held)
  | reaches_move s m s' : admit_reaches adm held s -> admit_move m s = Some s' -> admit_reaches adm held s'.

(** * civmctl admit: properties

    Before the payload: nothing is held unless a payload is about to run, under a memory cap
    the host can pay for.  With the payload: whatever the schedule of the two goroutines,
    the signals and the answers of systemctl, the admission is released exactly once and
    before the process exits, and no schedule is infinite or stuck. *)

Local Open Scope string_scope.
Local Open Scope list_scope.
Local Open Scope Z_scope.

(** ** The memory cap *)

Lemma ParseInt_range f v : ParseInt f = Some v -> min_int64 <= v <= max_int64.
Proof.
  unfold ParseInt. intros H. repeat case_match; simplify_eq; bsplit; lia.
Qed.

Lemma meminfo_vals_range s key v : meminfo_vals s !! key = Some v -> min_int64 <= v <= max_int64.
Proof.
  unfold meminfo_vals. assert (map_Forall (fun _ v => min_int64 <= v <= max_int64) (∅ : gmap string Z)) as H0 by done.
  revert H0. generalize (∅ : gmap string Z). induction (Split "010" s) as [|l ls IH]; intros m Hm; cbn; [by apply Hm|].
  apply IH. destruct (parseMeminfoLine l) as [[k kb]|] eqn:E; [|done]. apply map_Forall_insert_2; [|done].
  unfold parseMeminfoLine in E. repeat case_match; simplify_eq. by eapply ParseInt_range.
Qed.

Lemma MemTotalMB_range raw mem : Sample raw = Ok mem -> 0 <= MemTotalMB mem <= max_int64.
Proof.
  unfold Sample. destruct raw as [text|]; [|done]. destruct (parseMeminfo text) eqn:E; [|done]. intros [= ->]. unfold parseMeminfo in E.
  destruct (meminfo_vals text !! "MemTotal") as [total|] eqn:Et; [|done]. destruct (meminfo_vals text !! "MemAvailable"); [|done].
  destruct (total <=? 0) eqn:Ez; [done|]. bsplit. injection E as <-. cbn. apply meminfo_vals_range in Et.
  unfold max_int64 in *. Z.to_euclidean_division_equations. lia.
Qed.

(** Every admitted payload at its cap at once still leaves the reserve to the host. *)
Lemma effectiveMemMB_pays total mb : 0 <= total <= max_int64 ->
  effectiveMemMB DefaultAdmitHeavyMaxMB total DefaultAdmitHostReserveMB DefaultAdmitMaxHeavy = Ok mb ->
  admitMinMemMB <= mb /\ mb * DefaultAdmitMaxHeavy <= total - DefaultAdmitHostReserveMB.
Proof.
  intros Hr. unfold effectiveMemMB, DefaultAdmitHeavyMaxMB, DefaultAdmitHostReserveMB. cbn [Z.ltb Z.compare].
  destruct (total <=? 0); [done|]. rewrite int64_id by (unfold min_int64, max_int64 in *; lia).
  destruct (Z.ltb_spec ((total - 2048) `quot` (if DefaultAdmitMaxHeavy <? 1 then 1 else DefaultAdmitMaxHeavy)) admitMinMemMB); [done|].
  intros [= <-]. split; [done|]. unfold DefaultAdmitMaxHeavy, admitMinMemMB in *. cbn [Z.ltb Z.compare Pos.compare Pos.compare_cont] in *.
  Z.to_euclidean_division_equations. lia.
Qed.

(** ** Up to the payload *)

(** The locks of the process, what the kernel said of the memory controller and of the
    memory. *)
Record prep := mkPrep { pr_locks : locks; pr_memory : bool; pr_meminfo : result string }.

Definition prep_spec : spec admitcmdE prep := {|
  allowed B e s := match e with Adm e => allowed lock_spec e (pr_locks s) | _ => True end;
  answers B e s :=
    match e in admitcmdE B return B -> prep -> Prop with
    | Adm e => fun b s' => exists l, answers lock_spec e (pr_locks s) b l /\ s' = mkPrep l (pr_memory s) (pr_meminfo s)
    | ReadControllers => fun b s' =>
        s' = mkPrep (pr_locks s) (match b with Ok data => existsb (fun c => String.eqb c "memory") (Fields data) | Err _ => false end) (pr_meminfo s)
    | ReadMeminfo => fun b s' => s' = mkPrep (pr_locks s) (pr_memory s) b
    | _ => fun _ s' => s' = s
    end;
|}.

Lemma wpp_on_adm {A} (m : prog admitE A) (Q : A -> locks -> Prop) s :
  wpp lock_spec m Q (pr_locks s) ->
  wpp prep_spec (on_adm m) (fun a s' => exists l, Q a l /\ s' = mkPrep l (pr_memory s) (pr_meminfo s)) s.
Proof.
  intros Hm. eapply wpp_mono;
    [apply (wpp_link lock_spec prep_spec (fun B e => call (Adm e)) (fun l t => t = mkPrep l (pr_memory s) (pr_meminfo s)) m Q (pr_locks s) s); [|done|by destruct s]|].
  - intros B e l t -> Ha. apply wpp_call; [done|]. intros b s' (l' & Hl & ->). eauto.
  - done.
Qed.

(** What the command has made sure of when it ends or starts its payload. *)
Definition prepared_ok (user : string) (af : admitFlags) (weight : Weight) (payload : list string) (o : option prepared) (s : prep) : Prop :=
  match o with
  | None | Some (Exits _) => held (pr_locks s) = ∅
  | Some (Runs adm argv) =>
      granted_ok (applyDefaults (admit_options af weight)) adm (pr_locks s) /\ (weight = WeightHeavy -> pr_memory s = true) /\
      exists mem memMB, Sample (pr_meminfo s) = Ok mem /\ argv = buildSystemdRunArgs (mkRunSpec user user memMB (aa_unit adm) payload) /\
        admitMinMemMB <= memMB /\ memMB * DefaultAdmitMaxHeavy <= MemTotalMB mem - DefaultAdmitHostReserveMB
  end.

(** The heavy gate of [admitAndRun]. *)
Lemma wpp_ready (user dir : string) s :
  wpp prep_spec (e ← ensureAdmitRunDir user dir; match e with Some _ => mret false | None => cgroupMemoryEnforceable end)
    (fun b s' => pr_locks s' = pr_locks s /\ (b = true -> pr_memory s' = true)) s.
Proof.
  apply wpp_bind. apply (wpp_mono _ _ (fun _ s' => s' = s)).
  - unfold ensureAdmitRunDir. apply wpp_bind, wpp_call; [done|]. intros [out [e|]] s1 ->; [|by apply wpp_ret]. cbn [snd].
    apply wpp_bind, wpp_call; [done|]. intros [] s1 ->; apply wpp_bind; [|by apply wpp_ret]. apply wpp_call; [done|]. by intros b s1 ->.
  - intros [e|] s1 ->; [by apply wpp_ret|]. unfold cgroupMemoryEnforceable. apply wpp_bind, wpp_call; [done|]. intros data s1 ->. by apply wpp_ret.
Qed.

(** ** The two goroutines *)

Section run.
Context (adm : Admission) (Hnew : aa_done adm = false) (Hdocker : forall d, aa_docker adm = Some d -> aa_release adm <> Some d).

Definition released (a : Admission) : Admission := mkAdmission (aa_slotPath a) (aa_release a) (aa_unit a) (aa_docker a) true.

Definition of_opt (p : option string) : gset string := match p with Some p => {[p]} | None => ∅ end.

(** The unit can be named to systemctl. *)
Definition stoppable (a : Admission) : bool := negb (String.eqb (aa_unit a) "") && bool_decide (ValidateServiceUnit (aa_unit a) = None).

(** What the once has done so far. *)
Definition once_ok (s : admit_run) : Prop :=
  let excused := (forall c, ar_child s <> Exited c) -> stoppable adm = true -> ar_stop_failed s = true \/ ar_early s = true in
  match ar_once s with
  | OnceIdle => ar_adm s = adm /\ ar_held s = locks_of adm
  | OnceBusy _ RStop => ar_adm s = adm /\ ar_held s = locks_of adm
  | OnceBusy _ RDocker => ar_adm s = adm /\ ar_held s = locks_of adm /\ excused
  | OnceBusy _ RSlot => ar_adm s = adm /\ ar_held s = of_opt (aa_release adm) /\ excused
  | OnceBusy _ RClose | OnceDone => ar_adm s = released adm /\ ar_held s = ∅ /\ excused
  end.

Definition main_ok (s : admit_run) : Prop :=
  match ar_main s with
  | MStart => ar_child s = NotStarted
  | MWait => ar_child s <> NotStarted
  | MRelease c => exists c', ar_child s = Exited c' /\ (c = c' \/ c = exitAdmitInternal)
  | MDefer c | MExit c => (ar_child s = NotStarted /\ c = exitAdmitInternal) \/ exists c', ar_child s = Exited c' /\ (c = c' \/ c = exitAdmitInternal)
  end.

(** The goroutine that runs the body is at its call. *)
Definition caller_ok (s : admit_run) : Prop :=
  match ar_once s with
  | OnceBusy true _ => exists c, ar_main s = MRelease c \/ ar_main s = MDefer c
  | OnceBusy false _ => ar_hand s = HOnce
  | _ => True
  end.

Record run_ok (s : admit_run) : Prop := {
  ro_once : once_ok s;
  ro_main : main_ok s;
  ro_caller : caller_ok s;
  ro_panic : ar_panic s = false;
  ro_closed : ar_closed s = true <-> ar_once s = OnceDone;
  ro_exit : forall c, ar_main s = MExit c -> ar_once s = OnceDone;
  ro_signal : ar_hand s = HSignal -> ar_once s = OnceDone;
}.

Lemma locks_split : locks_of adm = of_opt (aa_release adm) ∪ of_opt (aa_docker adm).
Proof. unfold locks_of. by rewrite Hnew. Qed.

Lemma unlock_docker h : h = locks_of adm -> match aa_docker adm with Some p => h ∖ {[p]} | None => h end = of_opt (aa_release adm).
Proof.
  intros ->. rewrite locks_split. destruct (aa_docker adm) as [d|] eqn:Ed; [|set_solver].
  specialize (Hdocker d eq_refl). destruct (aa_release adm) as [p|]; cbn [of_opt]; set_solver.
Qed.

Lemma unlock_release h : h = of_opt (aa_release adm) -> match aa_release adm with Some p => h ∖ {[p]} | None => h end = ∅.
Proof. intros ->. destruct (aa_release adm); cbn [of_opt]; set_solver. Qed.

Lemma unlock_held (p : option string) (s : admit_run) : ar_held (unlock p s) = match p with Some p => ar_held s ∖ {[p]} | None => ar_held s end.
Proof. by destruct p. Qed.

(** [unlock] changes the locks only. *)
Lemma unlock_rest (p : option string) (s : admit_run) : unlock p s = set_held (ar_held (unlock p s)) s.
Proof. destruct p; by destruct s. Qed.

Lemma run_ok_start : run_ok (run_start adm (locks_of adm)).
Proof. by split. Qed.

(** A move of the main goroutine alone. *)
Lemma run_ok_main (pc : main_pc) (s : admit_run) : run_ok s -> main_ok (set_main pc s) ->
  (forall b r, ar_once s = OnceBusy b r -> b = false) -> (forall c, pc = MExit c -> ar_once s = OnceDone) -> run_ok (set_main pc s).
Proof.
  intros [] Hm Hb He. split; try done. destruct s as [? ? ? o ? ? ? ? ? ? ?]. cbn in *. destruct o as [|[] r|]; try done. by specialize (Hb true r eq_refl).
Qed.

(** A move of the other goroutine alone. *)
Lemma run_ok_hand (pc : hand_pc) (s : admit_run) : run_ok s -> ar_hand s <> HOnce -> pc <> HSignal -> run_ok (set_hand pc s).
Proof.
  intros [Ho Hm Hc Hp Hcl He Hs] Hh Hpc. split; try done. destruct s as [? ? ? o ? ? ? ? ? ? ?]. cbn in *. by destruct o as [|[] r|].
Qed.

(** The signal is passed on. *)
Lemma run_ok_forward (n : nat) (s : admit_run) : run_ok s -> ar_hand s = HSignal ->
  run_ok (mkRun (ar_adm s) (ar_held s) (ar_child s) (ar_once s) (ar_closed s) (ar_panic s) (ar_main s) HDone (ar_stop_failed s) n (ar_early s)).
Proof.
  intros [Ho Hm Hc Hp Hcl He Hs] Hh. split; try done. unfold caller_ok in *. cbn. by rewrite (Hs Hh).
Qed.

Lemma run_ok_payload (code : Z) (s : admit_run) : run_ok s -> ar_child s = Running -> run_ok (set_child (Exited code) s).
Proof.
  intros [Ho Hm Hc Hp Hcl He Hs] Hr. split; try done.
  - unfold once_ok in *. cbn. destruct (ar_once s) as [|b []|]; split_and!; try apply Ho; intros Hx; by destruct (Hx code).
  - unfold main_ok in *. cbn. rewrite Hr in Hm.
    destruct (ar_main s); try done; [by destruct Hm as (c' & ? & _)|by destruct Hm as [[? _]|(c' & ? & _)]..].
Qed.

(** The payload is started. *)
Lemma run_ok_started (s : admit_run) : run_ok s -> ar_main s = MStart -> (forall b pc, ar_once s = OnceBusy b pc -> b = false) ->
  run_ok (set_main MWait (set_child Running s)).
Proof.
  intros [Ho Hm Hc Hp Hcl He Hs] Em Hb. split; try done.
  - unfold once_ok, main_ok in *. rewrite Em in Hm. cbn. rewrite Hm in Ho.
    destruct (ar_once s) as [|b []|]; split_and!; try apply Ho; intros _; by apply Ho.
  - unfold caller_ok in *. cbn. destruct (ar_once s) as [|[] pc|]; try done. by specialize (Hb true pc eq_refl).
Qed.

Lemma run_ok_enter (b : bool) (s s' : admit_run) :
  run_ok s -> (if b then exists c, ar_main s = MRelease c \/ ar_main s = MDefer c else ar_hand s = HOnce) ->
  enter_once b s = Some s' -> run_ok s'.
Proof.
  intros [Ho Hm Hc Hp Hcl He Hs] Hb. unfold enter_once. destruct s as [a h ch o cl pn m hd sf fw ea]. cbn in *. destruct o; intros [= <-].
  - split; cbn; try done; [by rewrite Hcl|intros c Hx; by specialize (He c Hx)|intros Hx; by specialize (Hs Hx)].
  - unfold after_once. destruct b; [destruct Hb as (c & [->| ->])|subst hd]; split; cbn; try done. by right.
Qed.

(** [stopUnit] leaves the once, the goroutines and the locks as they are. *)
Lemma stop_step_frame (err : err_ret) (s : admit_run) :
  let s' := stop_step err s in
  ar_adm s' = ar_adm s /\ ar_held s' = ar_held s /\ ar_once s' = ar_once s /\ ar_closed s' = ar_closed s /\ ar_panic s' = ar_panic s /\
  ar_main s' = ar_main s /\ ar_hand s' = ar_hand s /\ (ar_child s' = ar_child s \/ ar_child s = Running /\ ar_child s' = Exited 143).
Proof.
  unfold stop_step. destruct (_ || _); [by split_and!; auto|]. destruct err; [by split_and!; auto|].
  destruct (ar_child s) eqn:E; cbn; split_and!; auto.
Qed.

(** A unit that can be named is down after it, unless systemctl failed or it is not yet up. *)
Lemma stop_step_stops (err : err_ret) (s : admit_run) :
  stoppable (ar_adm s) = true -> (forall c, ar_child (stop_step err s) <> Exited c) ->
  ar_stop_failed (stop_step err s) = true \/ ar_early (stop_step err s) = true.
Proof.
  unfold stoppable, stop_step. intros Hs. apply andb_true_iff in Hs as [Hu Hv]. apply negb_true_iff in Hu. rewrite Hu.
  apply bool_decide_eq_true in Hv. rewrite bool_decide_eq_false_2 by (by intros []). cbn [orb].
  destruct err; [by left|]. destruct (ar_child s) eqn:Ec; cbn; [by right|..]; intros Hx; [by destruct (Hx 143)|by destruct (Hx code)].
Qed.

(** What follows from no goroutine being past a call of the once. *)
Local Ltac busy Hx := first [done | by intros c ?; destruct (Hx c) | by intros ?; contradiction].

Lemma run_ok_release (b : bool) (pc : release_pc) (err : err_ret) (s : admit_run) :
  run_ok s -> ar_once s = OnceBusy b pc -> run_ok (release_step b pc err s).
Proof.
  intros [Ho Hm Hc Hp Hcl He Hs] Eo. unfold once_ok, caller_ok in *. rewrite Eo in *.
  assert (ar_closed s = false) as Hcl' by (destruct (ar_closed s); [by pose proof (proj1 Hcl eq_refl)|done]).
  assert (ar_hand s <> HSignal) as Hh by (intros Hh; by specialize (Hs Hh)).
  assert (forall c, ar_main s <> MExit c) as Hx by (intros c Hx; by specialize (He c Hx)).
  destruct pc; cbn [release_step].
  - destruct Ho as [Ha Hl]. rewrite Ha, Hnew. pose proof (stop_step_stops err s) as Hst. rewrite Ha in Hst.
    destruct (stop_step_frame err s) as (Ea & Eh & _ & Ecl & Ep & Em & Ehd & Ech).
    split; unfold once_ok, main_ok, caller_ok; cbn; rewrite ?Ea, ?Eh, ?Ecl, ?Ep, ?Em, ?Ehd, ?Hcl'; try busy Hx.
    { by split_and!; auto. }
    unfold main_ok in Hm. destruct Ech as [-> | [Er ->]]; [done|]. rewrite Er in Hm. destruct (ar_main s); try done; [by destruct Hm as (c' & ? & _)|by destruct Hm as [[? _]|(c' & ? & _)]..].
  - destruct Ho as (Ha & Hl & Hex). rewrite unlock_rest, unlock_held, Ha. 
    split; unfold once_ok, main_ok, caller_ok; cbn; rewrite ?Hcl'; try busy Hx.
    split_and!; [done|by apply unlock_docker|done].
  - destruct Ho as (Ha & Hl & Hex). rewrite unlock_rest, unlock_held, Ha.
    split; unfold once_ok, main_ok, caller_ok; cbn; rewrite ?Hcl'; try busy Hx.
    split_and!; [done|by apply unlock_release|done].
  - destruct Ho as (Ha & Hl & Hex). unfold after_once. destruct b; [destruct Hc as (c & [Em|Em])|];
      split; unfold once_ok, main_ok, caller_ok in *; cbn; rewrite ?Em in *; rewrite ?Hcl', ?Hp; try done. by right.
Qed.

Lemma run_ok_move (m : move) (s s' : admit_run) : run_ok s -> admit_move m s = Some s' -> run_ok s'.
Proof.
  intros Hok. pose proof Hok as [Ho Hmn Hc Hp Hcl He Hs]. unfold main_ok in Hmn.
  assert (forall b pc, ar_main s = MStart \/ ar_main s = MWait -> ar_once s = OnceBusy b pc -> b = false) as Hb.
  { intros [] pc [Em|Em] Eo; try done; unfold caller_ok in Hc; rewrite Eo in Hc; destruct Hc as (c & [?|?]); congruence. }
  destruct m as [[e|]|ok| |err| | | | |code]; cbn [admit_move].
  - destruct (ar_main s) eqn:Em; try done. intros [= <-]. apply run_ok_main; [done|by left|eauto|done].
  - destruct (ar_main s) eqn:Em; try done. intros [= <-]. apply run_ok_started; [done..|eauto].
  - destruct (ar_main s) eqn:Em, (ar_child s) eqn:Ec; try done. intros [= <-]. apply run_ok_main; [done| |eauto|done]. exists code. cbn. destruct ok; auto.
  - destruct (ar_main s) eqn:Em; try done; (destruct (ar_once s) as [|[] pc|] eqn:Eo; try done; intros Hen; eapply (run_ok_enter true); eauto).
  - destruct (ar_main s), (ar_once s) as [|b pc|] eqn:Eo; try done; intros [= <-]; by apply run_ok_release.
  - destruct (ar_main s), (ar_hand s) eqn:Eh; try done; intros [= <-]; (apply run_ok_hand; [done|by rewrite Eh|done]).
  - destruct (ar_main s), (ar_hand s) eqn:Eh, (ar_closed s); try done; intros [= <-]; (apply run_ok_hand; [done|by rewrite Eh|done]).
  - destruct (ar_main s), (ar_hand s) eqn:Eh; try done; intros Hen; eapply (run_ok_enter false); eauto.
  - destruct (ar_main s) eqn:Em, (ar_hand s) eqn:Eh; try done; intros [= <-]; rewrite <- Em; by apply run_ok_forward.
  - destruct (ar_child s) eqn:Ec; [done| |by destruct (ar_main s)]. destruct (ar_main s); intros [= <-]; by apply run_ok_payload.
Qed.

Lemma run_ok_reaches (s : admit_run) : admit_reaches adm (locks_of adm) s -> run_ok s.
Proof. induction 1; [apply run_ok_start|by eapply run_ok_move]. Qed.
End run.

(** ** Every schedule ends *)

(** What is left for each of the three to do. *)
Definition work_left (s : admit_run) : nat :=
  (match ar_main s with MStart => 4 | MWait => 3 | MRelease _ => 2 | MDefer _ => 1 | MExit _ => 0 end) +
  (match ar_hand s with HSelect => 3 | HOnce => 2 | HSignal => 1 | HDone => 0 end) +
  (match ar_child s with NotStarted => 2 | Running => 1 | Exited _ => 0 end) +
  (match ar_once s with OnceIdle => 5 | OnceBusy _ RStop => 4 | OnceBusy _ RDocker => 3 | OnceBusy _ RSlot => 2 | OnceBusy _ RClose => 1 | OnceDone => 0 end).

Lemma enter_work (b : bool) (s s' : admit_run) : (if b then exists c, ar_main s = MRelease c \/ ar_main s = MDefer c else ar_hand s = HOnce) ->
  enter_once b s = Some s' -> (work_left s' < work_left s)%nat.
Proof.
  intros Hb. unfold enter_once, after_once, work_left. destruct (ar_once s) eqn:Eo; intros [= <-]; cbn; [lia|].
  destruct b; cbn; rewrite Eo; [destruct Hb as (c & [->| ->])|rewrite Hb]; lia.
Qed.

Lemma release_work (b : bool) (pc : release_pc) (err : err_ret) (s : admit_run) :
  caller_ok s -> ar_once s = OnceBusy b pc -> (work_left (release_step b pc err s) < work_left s)%nat.
Proof.
  intros Hc Eo. unfold caller_ok in Hc. rewrite Eo in Hc. destruct pc; cbn [release_step].
  - destruct (stop_step_frame err s) as (_ & _ & _ & _ & _ & Em & Ehd & Ech).
    destruct (aa_done (ar_adm s)); unfold work_left; cbn; rewrite Eo, ?Em, ?Ehd; [lia|]. destruct Ech as [->|[-> ->]]; lia.
  - rewrite unlock_rest. unfold work_left. cbn. rewrite Eo. lia.
  - rewrite unlock_rest. unfold work_left. cbn. rewrite Eo. lia.
  - unfold after_once, work_left. rewrite Eo. destruct b; cbn; [destruct Hc as (c & [->| ->])|rewrite Hc]; lia.
Qed.

Lemma move_work adm (m : move) (s s' : admit_run) : run_ok adm s -> admit_move m s = Some s' -> (work_left s' < work_left s)%nat.
Proof.
  intros [_ Hm Hc _ _ _ _]. unfold main_ok in Hm. destruct m as [[e|]|ok| |err| | | | |code]; cbn [admit_move].
  - destruct (ar_main s) eqn:Em; intros [= <-]. unfold work_left. cbn. rewrite Em. lia.
  - destruct (ar_main s) eqn:Em; intros [= <-]. unfold work_left. cbn. rewrite Em, Hm. lia.
  - destruct (ar_main s) eqn:Em, (ar_child s) eqn:Ec; intros [= <-]. unfold work_left. cbn. rewrite Em, Ec. lia.
  - destruct (ar_main s) eqn:Em; try done; (destruct (ar_once s) as [|[] pc|] eqn:Eo; try done; intros Hen; eapply (enter_work true); eauto).
  - destruct (ar_main s), (ar_once s) as [|b pc|] eqn:Eo; try done; intros [= <-]; by apply release_work.
  - destruct (ar_main s) eqn:Em, (ar_hand s) eqn:Eh; intros [= <-]; unfold work_left; cbn; rewrite Em, Eh; lia.
  - destruct (ar_main s) eqn:Em, (ar_hand s) eqn:Eh, (ar_closed s); intros [= <-]; unfold work_left; cbn; rewrite Em, Eh; lia.
  - destruct (ar_main s), (ar_hand s) eqn:Eh; try done; intros Hen; by eapply (enter_work false).
  - destruct (ar_main s) eqn:Em, (ar_hand s) eqn:Eh; intros [= <-]; unfold work_left; cbn; rewrite ?Em, Eh; lia.
  - destruct (ar_child s) eqn:Ec; [done| |by destruct (ar_main s)]. destruct (ar_main s) eqn:Em; intros [= <-]; unfold work_left; cbn; rewrite Em, Ec; lia.
Qed.

(** Moves that need neither the payload nor a signal. *)
Definition own_move (m : move) : bool := match m with Signal | PayloadExit _ => false | _ => true end.

(** The process waits for nothing but its payload. *)
Lemma run_progress adm (s : admit_run) : run_ok adm s -> (forall c, ar_main s <> MExit c) ->
  (ar_main s = MWait /\ ar_child s = Running) \/ exists m s', own_move m = true /\ admit_move m s = Some s'.
Proof.
  intros [_ Hm _ _ _ _ _] Hx. unfold main_ok in Hm. destruct (ar_main s) eqn:Em; [| | | |by destruct (Hx code)].
  - right. exists (MainStart None). cbn. rewrite Em. eauto.
  - destruct (ar_child s) eqn:Ec; [done|by left|]. right. exists (MainWait true). cbn. rewrite Em, Ec. eauto.
  - right. destruct (ar_once s) as [|b pc|] eqn:Eo; [exists MainOnce|exists (ReleaseStep None)|exists MainOnce]; cbn; rewrite Em, Eo; unfold enter_once; rewrite ?Eo; eauto.
  - right. destruct (ar_once s) as [|b pc|] eqn:Eo; [exists MainOnce|exists (ReleaseStep None)|exists MainOnce]; cbn; rewrite Em, Eo; unfold enter_once; rewrite ?Eo; eauto.
Qed.

Lemma moves_none (ms : list move) : foldl (fun (o : option admit_run) m => o ≫= admit_move m) None ms = None.
Proof. by induction ms. Qed.

Lemma moves_reach adm held (ms : list move) (s s' : admit_run) :
  admit_reaches adm held s -> moves ms s = Some s' -> admit_reaches adm held s'.
Proof.
  revert s. induction ms as [|m ms IH]; intros s Hr; cbn; [by intros [= <-]|].
  destruct (admit_move m s) as [s1|] eqn:E; cbn; [|by rewrite moves_none]. apply IH. by eapply reaches_move.
Qed.

Lemma moves_length adm (ms : list move) (s s' : admit_run) : aa_done adm = false -> (forall d, aa_docker adm = Some d -> aa_release adm <> Some d) ->
  run_ok adm s -> moves ms s = Some s' -> (length ms <= work_left s)%nat.
Proof.
  intros Hn Hd. revert s. induction ms as [|m ms IH]; intros s Hr; cbn; [lia|].
  destruct (admit_move m s) as [s1|] eqn:E; cbn; [|by rewrite moves_none]. intros Hms.
  assert (length ms <= work_left s1)%nat by (apply IH; [by eapply run_ok_move|done]).
  assert (work_left s1 < work_left s)%nat by (by eapply move_work). lia.
Qed.

(** ** What the command promises *)

Definition run_promises (adm : Admission) (s : admit_run) : Prop :=
  (* the channel is closed once *)
  ar_panic s = false /\
  (* a payload whose unit can be stopped runs under its slot *)
  (ar_child s = Running -> stoppable adm = true ->
   of_opt (aa_release adm) ⊆ ar_held s \/ ar_stop_failed s = true \/ ar_early s = true) /\
  (* the exit: nothing held, the code of the payload *)
  (forall c, ar_main s = MExit c ->
     ar_held s = ∅ /\ ar_closed s = true /\
     (ar_child s = NotStarted /\ c = exitAdmitInternal \/ exists c', ar_child s = Exited c' /\ (c = c' \/ c = exitAdmitInternal))) /\
  (* no deadlock *)
  ((forall c, ar_main s <> MExit c) ->
     (ar_main s = MWait /\ ar_child s = Running) \/ exists m s', own_move m = true /\ admit_move m s = Some s').

Lemma run_keeps_promises adm s :
  aa_done adm = false -> (forall d, aa_docker adm = Some d -> aa_release adm <> Some d) ->
  admit_reaches adm (locks_of adm) s -> run_promises adm s.
Proof.
  intros Hn Hd Hr. apply run_ok_reaches in Hr as Hok; [|done..]. pose proof Hok as [Ho Hm _ Hp Hcl He _].
  split_and!; [done| | |by eapply run_progress].
  - intros Hrun Hst. assert (of_opt (aa_release adm) ⊆ locks_of adm) as Hin by (rewrite locks_split by done; set_solver).
    unfold once_ok in Ho. rewrite Hrun in Ho.
    destruct (ar_once s) as [|b []|]; destruct Ho as [_ Ho]; [by left; rewrite Ho..| | | |];
      destruct Ho as [Hh Hex]; [by left; rewrite Hh|by right; apply Hex..].
  - intros c Hc. specialize (He c Hc). unfold once_ok, main_ok in *. rewrite He in Ho. rewrite Hc in Hm.
    split_and!; [by apply Ho|by apply Hcl|done].
Qed.

Lemma run_is_short adm ms s' :
  aa_done adm = false -> (forall d, aa_docker adm = Some d -> aa_release adm <> Some d) ->
  moves ms (run_start adm (locks_of adm)) = Some s' -> (length ms <= 14)%nat.
Proof. intros Hn Hd. apply (moves_length adm); [done..|]. by apply run_ok_start. Qed.

Lemma wpp_admit_prepare Marshal Unmarshal pid fuel user af weight payload g c m :
  wpp prep_spec (admit_prepare Marshal Unmarshal pid fuel user af weight payload) (prepared_ok user af weight payload)
    (mkPrep (mkLocks ∅ g) c m).
Proof.
  unfold admit_prepare. apply wpp_bind.
  apply (wpp_mono _ _ (fun b s' => pr_locks s' = mkLocks ∅ g /\ (b = true -> weight = WeightHeavy -> pr_memory s' = true))).
  { destruct weight; [|by apply wpp_ret..]. eapply wpp_mono; [apply wpp_ready|]. intros b s' [-> Hb]. split; [done|auto]. }
  intros [] s1 [Hl Hmem]; [|apply wpp_ret; cbn; by rewrite Hl]. cbn [negb]. specialize (Hmem eq_refl). apply wpp_bind.
  eapply wpp_mono; [apply wpp_on_adm; rewrite Hl; apply wpp_Acquire|].
  intros [adm|e|] s2 (l & Hg & ->); [|by apply wpp_ret..].
  apply wpp_bind. unfold hostMemTotalMB. apply wpp_bind, wpp_call; [done|]. intros raw s3 ->. apply wpp_ret.
  destruct (effectiveMemMB _ _ _ _) as [memMB|e] eqn:Eb.
  - apply wpp_ret. cbn. split_and!; [done|done|]. destruct (Sample raw) as [mem|] eqn:Es; [|by cbn in Eb].
    exists mem, memMB. split_and!; try done; eapply effectiveMemMB_pays; eauto using MemTotalMB_range.
  - apply wpp_bind. eapply wpp_mono; [apply wpp_on_adm; by eapply wpp_Release_frees|].
    intros a' s4 (l' & (Hh & _) & ->). by apply wpp_ret.
Qed.

(** C26. [civmctl admit], whole.  Whatever the injected functions answer, the command ends
    holding no lock at all, or it starts its payload with exactly the locks of the admission
    it was granted, a heavy one only with the memory controller there, under a cap of at
    least 512 MB that all the admitted payloads can reach at once with the reserve of the
    host left.  From then on, whatever the order of the steps of the two goroutines, the
    signals, the answers of systemctl and the end of the payload: the release never panics;
    a payload whose unit can be stopped runs only while its slot is held, unless systemctl
    failed or the stop came before the start; the process exits with every lock freed and
    with the code of its payload or 79; until then it waits for a running payload or has a
    step of its own to take; and no schedule has more than fourteen steps. *)
Theorem admit_command_is_safe Marshal Unmarshal pid fuel user af weight payload g c m :
  wpp prep_spec (admit_prepare Marshal Unmarshal pid fuel user af weight payload)
    (fun o s => prepared_ok user af weight payload o s /\
       match o with
       | Some (Runs adm _) =>
           (forall r, admit_reaches adm (held (pr_locks s)) r -> run_promises adm r) /\
           (forall ms r, moves ms (run_start adm (held (pr_locks s))) = Some r -> (length ms <= 14)%nat)
       | _ => True
       end) (mkPrep (mkLocks ∅ g) c m).
Proof.
  eapply wpp_mono; [apply wpp_admit_prepare|]. intros [[|adm argv]|] s Hs; (split; [done|]); try done.
  destruct Hs as ((Hh & Hn & _ & Hd) & _). rewrite Hh. split; intros *; [by apply run_keeps_promises|by apply run_is_short].
Qed.

(** *** Examples *)

Definition a_heavy_admission : Admission :=
  mkAdmission "/run/civm/admit-slot-0.lock" (Some "/run/civm/admit-slot-0.lock") "civm-admit-0-77.service" None false.

(** The usual run: the payload ends with 3 and so does the process. *)
Definition a_schedule : list move :=
  [MainStart None; PayloadExit 3; MainWait true; MainOnce; ReleaseStep None; ReleaseStep None; ReleaseStep None; ReleaseStep None; MainOnce].
Definition an_admitted_run : admit_run :=
  default (run_start a_heavy_admission ∅) (moves a_schedule (run_start a_heavy_admission (locks_of a_heavy_admission))).

Example an_admitted_run_exits :
  admit_reaches a_heavy_admission (locks_of a_heavy_admission) an_admitted_run /\ ar_main an_admitted_run = MExit 3 /\ ar_held an_admitted_run = ∅.
Proof.
  split; [apply (moves_reach _ _ a_schedule _ _ (reaches_start _ _)); vm_compute; reflexivity|]. by vm_compute.
Qed.

(** A signal that arrives before the payload is started releases the admission and is
    forwarded to nobody, and the start follows all the same: a heavy payload runs with no
    slot held, with no reader left for the signals to come, and nothing failed. *)
Lemma signal_before_start_runs_unadmitted : exists s,
  admit_reaches a_heavy_admission (locks_of a_heavy_admission) s /\ stoppable a_heavy_admission = true /\
  ar_child s = Running /\ ar_held s = ∅ /\ ar_stop_failed s = false /\ ar_forwarded s = 0%nat /\ ar_hand s = HDone /\ ar_main s = MWait.
Proof.
  pose (ms := [Signal; HandOnce; ReleaseStep None; ReleaseStep None; ReleaseStep None; ReleaseStep None; HandSignal; MainStart None]).
  destruct (moves ms (run_start a_heavy_admission (locks_of a_heavy_admission))) as [s|] eqn:E; [|by vm_compute in E].
  exists s. split; [by apply (moves_reach _ _ ms _ _ (reaches_start _ _))|]. vm_compute in E. injection E as <-. by vm_compute.
Qed.
