(* ===== verification/Portblock.v ===== *)
(** * internal/portblock: one block of host ports per runner slot

    [Allocate] keeps a slot -> base map in a JSON file, under an exclusive flock on
    a sidecar file, and replaces the file by writing a temporary one and renaming
    it.  The file-system calls are effects; JSON is [encoding/json], of which the
    code relies on the round trip of an array of allocations, up to the coercion of
    strings to UTF-8. *)

From S2P Require Import Prelude GoStrings GoQuote Prog Civm.

Local Open Scope string_scope.
Local Open Scope list_scope.
Local Open Scope Z_scope.

Record Allocation := mkAllocation { al_Slot : string; al_Base : Z }.

(** A base is a Go [int]. *)
Definition int_base (a : Allocation) : Prop := min_int64 <= al_Base a <= max_int64.

(** What is left of an allocation written as JSON. *)
Definition coerced (a : Allocation) : Allocation := mkAllocation (coerce_utf8 (al_Slot a)) (al_Base a).

(** [json.MarshalIndent] and [json.Unmarshal] on [[]Allocation]: strings are coerced to
    UTF-8 on the way out, and what is read is UTF-8 and fits the fields. *)
Class AllocationJSON := {
  MarshalIndent : list Allocation -> result string;
  Unmarshal : string -> result (list Allocation);
  json_round_trip : forall l data,
    Forall int_base l -> MarshalIndent l = Ok data -> Unmarshal data = Ok (coerced <$> l);
  json_text : forall data l,
    Unmarshal data = Ok l -> Forall (fun a => valid_utf8 (al_Slot a) /\ int_base a) l;
  json_not_blank : forall l data, MarshalIndent l = Ok data -> TrimSpace data <> "";
}.

Record PortOptions := mkPortOptions {
  po_StatePath : string;
  po_BlockStart : Z;
  po_BlockSize : Z;
  po_WindowEnd : Z;
}.

Inductive portE : Type -> Type :=
  | MkdirAllFn (path : string) : portE err_ret
  | OpenLock (path : string) : portE err_ret
  | FlockEx (path : string) : portE err_ret
  | FlockUn (path : string) : portE unit
  | CloseLock : portE unit
  | ReadFileFn (path : string) : portE (result string)
  | WriteFileFn (path data : string) : portE err_ret
  | Rename (old new : string) : portE err_ret.

Definition tempSuffix : string := ".tmp".

Definition port_applyDefaults (opts : PortOptions) : PortOptions :=
  mkPortOptions
    (if String.eqb (po_StatePath opts) "" then DefaultPortBlockStatePath else po_StatePath opts)
    (if po_BlockStart opts =? 0 then DefaultRunnerPortBlockStart else po_BlockStart opts)
    (if po_BlockSize opts =? 0 then DefaultRunnerPortBlockSize else po_BlockSize opts)
    (if po_WindowEnd opts =? 0 then DefaultRunnerPortWindowEnd else po_WindowEnd opts).

Definition validateOptions (opts : PortOptions) : err_ret :=
  if po_BlockSize opts <=? 0 then Some (Errorf "portblock: block-size deve ser >0")
  else if po_WindowEnd opts <=? po_BlockStart opts
  then Some (Errorf "portblock: window-end deve ser > block-start")
  else None.

(** Some slot of the map has this base. *)
Definition used (state : gmap string Z) (base : Z) : bool :=
  existsb (fun kv => snd kv =? base) (map_to_list state).

(** The [for] loop: [base + BlockSize] is computed in Go's [int]. *)
Fixpoint free_loop (n : nat) (opts : PortOptions) (state : gmap string Z) (base : Z) : result Z :=
  let exhausted := Err (Errorf_s ErrPortWindowExhausted "civm port window exhausted") in
  match n with
  | O => exhausted
  | S n =>
      if negb (int64 (base + po_BlockSize opts) <=? po_WindowEnd opts) then exhausted
      else if negb (used state base) then Ok base
      else free_loop n opts state (int64 (base + po_BlockSize opts))
  end.

(** One iteration per block of the window, and one to leave it. *)
Definition nextFreeBase (opts : PortOptions) (state : gmap string Z) : result Z :=
  free_loop (S (Z.to_nat ((po_WindowEnd opts - po_BlockStart opts) / po_BlockSize opts)))
            opts state (po_BlockStart opts).

Section portblock.
Context `{AllocationJSON} `{SortSlice}.

Definition fold_state (l : list Allocation) : gmap string Z :=
  foldl (fun state a => <[al_Slot a := al_Base a]> state) ∅ l.

(** [readState] on the bytes of the file. *)
Definition parse_state (data : string) : result (gmap string Z) :=
  if String.eqb (TrimSpace data) "" then Ok ∅
  else match Unmarshal data with
       | Err e => Err (Errorf_w "portblock: parse state" e)
       | Ok allocations => Ok (fold_state allocations)
       end.

Definition readState (opts : PortOptions) : prog portE (result (gmap string Z)) :=
  data ← call (ReadFileFn (po_StatePath opts));
  match data with
  | Err e => if errors_Is e ErrNotExist then mret (Ok ∅)
             else mret (Err (Errorf_w "portblock: ler state" e))
  | Ok data => mret (parse_state data)
  end.

Definition marshalState (state : gmap string Z) : result string :=
  let slots := sort_slice String.ltb (fst <$> map_to_list state) in
  match MarshalIndent ((fun slot => mkAllocation slot (default 0 (state !! slot))) <$> slots) with
  | Err e => Err (Errorf_w "portblock: serializar state" e)
  | Ok data => Ok data
  end.

Definition writeState (opts : PortOptions) (state : gmap string Z) : prog portE err_ret :=
  match marshalState state with
  | Err e => mret (Some e)
  | Ok data =>
      let tmp := po_StatePath opts +:+ tempSuffix in
      e ← call (WriteFileFn tmp data);
      match e with
      | Some e => mret (Some (Errorf_w "portblock: gravar temp" e))
      | None =>
          e ← call (Rename tmp (po_StatePath opts));
          match e with
          | Some e => mret (Some (Errorf_w "portblock: rename" e))
          | None => mret None
          end
      end
  end.

(** [Allocate] from the state it has read on. *)
Definition allocate_from (opts : PortOptions) (slot : string) (state : gmap string Z)
    : prog portE (result Z) :=
  match state !! slot with
  | Some base => mret (Ok base)
  | None =>
      match nextFreeBase opts state with
      | Err e => mret (Err e)
      | Ok base =>
          e ← writeState opts (<[slot := base]> state);
          match e with
          | Some e => mret (Err e)
          | None => mret (Ok base)
          end
      end
  end.

(** The part of [Allocate] between the lock and the unlock. *)
Definition allocate_locked (opts : PortOptions) (slot : string) : prog portE (result Z) :=
  read ← readState opts;
  match read with
  | Err e => mret (Err e)
  | Ok state => allocate_from opts slot state
  end.

Definition Allocate (opts : PortOptions) (slot : string) : prog portE (result Z) :=
  let opts := port_applyDefaults opts in
  match validateOptions opts with
  | Some e => mret (Err e)
  | None =>
  if String.eqb (TrimSpace slot) "" then mret (Err (Errorf "portblock: slot obrigatorio")) else
  e ← call (MkdirAllFn (Dir (po_StatePath opts)));
  match e with
  | Some e => mret (Err (Errorf_w "portblock: criar dir de state" e))
  | None =>
  let lockPath := po_StatePath opts +:+ ".lock" in
  e ← call (OpenLock lockPath);
  match e with
  | Some e => mret (Err (Errorf_w "portblock: abrir lock" e))
  | None =>
  e ← call (FlockEx lockPath);
  match e with
  | Some e => call CloseLock;; mret (Err (Errorf_w "portblock: flock" e))
  | None =>
      r ← allocate_locked opts slot;
      call (FlockUn lockPath);;
      call CloseLock;;
      mret r
  end end end end.

(** ** Reading back what was written *)

Lemma fold_state_lookup (l : list Allocation) (s0 : gmap string Z) slot :
  NoDup (al_Slot <$> l) ->
  foldl (fun state a => <[al_Slot a := al_Base a]> state) s0 l !! slot =
  match list_find (fun a => al_Slot a = slot) l with
  | Some (_, a) => Some (al_Base a)
  | None => s0 !! slot
  end.
Proof.
  revert s0. induction l as [|a l IH]; intros s0 Hnd; cbn; [done|].
  rewrite fmap_cons, NoDup_cons in Hnd. destruct Hnd as [Ha Hnd]. rewrite IH by done.
  destruct (decide (al_Slot a = slot)) as [<-|Hne].
  - rewrite lookup_insert_eq. destruct (list_find _ l) as [[i b]|] eqn:E; [|done].
    apply list_find_Some in E as (Hi & Hb & _). exfalso. apply Ha, list_elem_of_fmap.
    exists b. split; [done|]. by eapply list_elem_of_lookup_2.
  - rewrite lookup_insert_ne by done. by destruct (list_find _ l) as [[i b]|].
Qed.

Lemma slots_NoDup (state : gmap string Z) :
  NoDup (sort_slice String.ltb (fst <$> map_to_list state)).
Proof. rewrite sort_slice_perm. apply NoDup_fst_map_to_list. Qed.

Lemma fold_marshal (state : gmap string Z) :
  fold_state ((fun slot => mkAllocation slot (default 0 (state !! slot))) <$>
              sort_slice String.ltb (fst <$> map_to_list state)) = state.
Proof.
  apply map_eq. intros slot. unfold fold_state.
  set (slots := sort_slice _ _). set (l := _ <$> slots).
  assert (al_Slot <$> l = slots) as Hl.
  { unfold l. rewrite <- list_fmap_compose. apply list_fmap_id. }
  rewrite fold_state_lookup by (rewrite Hl; apply slots_NoDup).
  destruct (list_find _ l) as [[i a]|] eqn:E.
  - apply list_find_Some in E as (Hi & <- & _).
    unfold l in Hi. rewrite list_lookup_fmap in Hi. destruct (slots !! i) as [s|] eqn:Es; [|done].
    cbn in Hi. injection Hi as <-. cbn. apply list_elem_of_lookup_2 in Es.
    apply sort_slice_elem_of, list_elem_of_fmap in Es as ([k v] & -> & Hk%elem_of_map_to_list).
    cbn. by rewrite Hk.
  - apply list_find_None in E. destruct (state !! slot) as [b|] eqn:Hs; [|by rewrite lookup_empty].
    exfalso. rewrite Forall_forall in E. apply (E (mkAllocation slot b)); [|done].
    unfold l. apply list_elem_of_fmap. exists slot. rewrite Hs. split; [done|].
    apply sort_slice_elem_of, list_elem_of_fmap. exists (slot, b). by rewrite elem_of_map_to_list.
Qed.

(** The slots are UTF-8 and the bases are [int]s: what JSON keeps as it is. *)
Definition text_state (state : gmap string Z) : Prop :=
  map_Forall (fun slot b => valid_utf8 slot /\ min_int64 <= b <= max_int64) state.

Lemma fold_text (l : list Allocation) (s0 : gmap string Z) :
  Forall (fun a => valid_utf8 (al_Slot a) /\ int_base a) l -> text_state s0 ->
  text_state (foldl (fun state a => <[al_Slot a := al_Base a]> state) s0 l).
Proof.
  intros Hl. revert s0. induction Hl as [|a l [Ha Hb] _ IH]; intros s0 Hs0; [done|].
  apply IH. by apply map_Forall_insert_2.
Qed.

Lemma parse_text data state : parse_state data = Ok state -> text_state state.
Proof.
  unfold parse_state. destruct (String.eqb _ _); [intros [= <-]; apply map_Forall_empty|].
  destruct (Unmarshal data) as [l|] eqn:Hu; [|done]. intros [= <-].
  apply fold_text; [by eapply json_text|apply map_Forall_empty].
Qed.

Lemma marshal_parse state data :
  text_state state -> marshalState state = Ok data -> parse_state data = Ok state.
Proof.
  intros Ht. unfold marshalState. set (l := _ <$> _).
  assert (Forall (fun a => coerced a = a /\ int_base a) l) as Hl.
  { unfold l. apply Forall_fmap, Forall_forall. intros slot Hs. cbn.
    apply sort_slice_elem_of, list_elem_of_fmap in Hs as ([k b] & -> & Hk%elem_of_map_to_list).
    destruct (Ht _ _ Hk) as [Hv Hb]. cbn. rewrite Hk. unfold coerced, int_base. cbn. split; [by f_equal|done]. }
  destruct (MarshalIndent l) as [d|] eqn:Hm; [|done]. intros [= <-].
  unfold parse_state. pose proof (json_not_blank _ _ Hm) as Hb. apply String.eqb_neq in Hb.
  rewrite Hb, (json_round_trip l d) by (done || (eapply Forall_impl; [exact Hl|naive_solver])).
  replace (coerced <$> l) with l; [unfold l; by rewrite fold_marshal|].
  symmetry. rewrite <- (list_fmap_id l) at 2. apply list_fmap_ext. intros i a Hi.
  by eapply Forall_lookup_1 in Hl as [-> _].
Qed.
End portblock.

(** * internal/portblock: properties

    Blocks of one configuration never overlap, allocations are sticky, the lowest
    free block is chosen, and the window is reported exhausted only when it is
    full, for any interleaving of processes under the lock and any file-system
    failure. *)

Local Open Scope string_scope.
Local Open Scope list_scope.
Local Open Scope Z_scope.

(** ** The window *)

(** The bases the loop visits: multiples of the block size from [BlockStart] on
    whose block ends within the window. *)
Definition grid (opts : PortOptions) (b : Z) : Prop :=
  exists k, 0 <= k /\ b = po_BlockStart opts + k * po_BlockSize opts /\
            b + po_BlockSize opts <= po_WindowEnd opts.

(** The arithmetic of the loop stays within Go's [int]. *)
Definition in_range (opts : PortOptions) : Prop :=
  0 < po_BlockSize opts /\ min_int64 <= po_BlockStart opts /\
  po_BlockStart opts < po_WindowEnd opts /\ po_WindowEnd opts + po_BlockSize opts <= max_int64 /\
  po_BlockStart opts + po_BlockSize opts <= max_int64.

Lemma used_spec state b : used state b = true <-> exists slot, state !! slot = Some b.
Proof.
  unfold used. rewrite existsb_exists. split.
  - intros ([slot b'] & Hin%list_elem_of_In%elem_of_map_to_list & E%Z.eqb_eq). cbn in E. subst. eauto.
  - intros [slot Hs]. exists (slot, b). split; [|by apply Z.eqb_eq].
    by apply list_elem_of_In, elem_of_map_to_list.
Qed.

Lemma free_loop_spec n opts state k :
  in_range opts -> 0 <= k -> po_BlockStart opts + k * po_BlockSize opts <= po_WindowEnd opts ->
  (po_WindowEnd opts - po_BlockStart opts) / po_BlockSize opts - k < Z.of_nat n ->
  match free_loop n opts state (po_BlockStart opts + k * po_BlockSize opts) with
  | Ok b => grid opts b /\ used state b = false /\
            (forall b', grid opts b' -> po_BlockStart opts + k * po_BlockSize opts <= b' < b ->
               used state b' = true)
  | Err e => errors_Is e ErrPortWindowExhausted = true /\
             (forall b', grid opts b' -> po_BlockStart opts + k * po_BlockSize opts <= b' ->
               used state b' = true)
  end.
Proof.
  intros Hr. revert k. induction n as [|n IH]; intros k Hk Hw Hn; cbn [free_loop].
  { split; [done|]. intros b' (k' & Hk' & -> & Hb') Hle. exfalso.
    destruct Hr as (Hs & _). assert (k <= k') by nia.
    assert (k' <= (po_WindowEnd opts - po_BlockStart opts) / po_BlockSize opts)
      by (apply Z.div_le_lower_bound; nia). lia. }
  set (base := po_BlockStart opts + k * po_BlockSize opts) in *.
  pose proof Hr as (Hs & Hmin & Hlt & Hmax & Hmax2).
  rewrite (int64_id (base + _)) by (subst base; nia).
  destruct (base + po_BlockSize opts <=? po_WindowEnd opts) eqn:Hin; cbn [negb]; bsplit.
  - assert (grid opts base) as Hg by (exists k; auto). destruct (used state base) eqn:Hu; cbn [negb].
    + replace (base + po_BlockSize opts) with (po_BlockStart opts + (k + 1) * po_BlockSize opts)
        by (subst base; lia).
      assert (forall b', grid opts b' -> base <= b' -> b' = base \/
        po_BlockStart opts + (k + 1) * po_BlockSize opts <= b') as Hstep.
      { intros b' (k' & Hk' & -> & _) Hle. subst base.
        destruct (decide (k' = k)) as [-> |Hne]; [by left|right]. assert (k < k') by nia. nia. }
      specialize (IH (k + 1) ltac:(lia) ltac:(subst base; nia) ltac:(lia)).
      destruct (free_loop n _ _ _) as [b|e].
      * destruct IH as (? & ? & Hall). split_and!; [done|done|]. intros b' Hg' Hb'.
        destruct (Hstep b' Hg') as [-> |?]; [lia|done|]. apply Hall; [done|lia].
      * destruct IH as [? Hall]. split; [done|]. intros b' Hg' Hb'.
        destruct (Hstep b' Hg') as [-> |?]; [lia|done|]. by apply Hall.
    + split_and!; [done|done|]. intros b' _ ?. lia.
  - split; [done|]. intros b' (k' & Hk' & -> & Hb') Hle. subst base. exfalso. nia.
Qed.

Lemma nextFreeBase_spec opts state :
  in_range opts ->
  match nextFreeBase opts state with
  | Ok b => grid opts b /\ (forall slot, state !! slot <> Some b) /\
            (forall b', grid opts b' -> b' < b -> exists slot, state !! slot = Some b')
  | Err e => errors_Is e ErrPortWindowExhausted = true /\
             (forall b', grid opts b' -> exists slot, state !! slot = Some b')
  end.
Proof.
  intros Hr. unfold nextFreeBase.
  pose proof (free_loop_spec (S (Z.to_nat ((po_WindowEnd opts - po_BlockStart opts) / po_BlockSize opts)))
    opts state 0 Hr) as Hl. pose proof Hr as (Hs & _ & Hlt & _).
  assert (0 <= (po_WindowEnd opts - po_BlockStart opts) / po_BlockSize opts) by (apply Z.div_pos; lia).
  replace (po_BlockStart opts + 0 * po_BlockSize opts) with (po_BlockStart opts) in Hl by lia.
  specialize (Hl ltac:(lia) ltac:(lia) ltac:(lia)).
  destruct (free_loop _ _ _ _) as [b|e].
  - destruct Hl as (Hg & Hu & Hall). split_and!; [done| |].
    + intros slot Hslot. assert (used state b = true) by (apply used_spec; eauto). congruence.
    + intros b' Hg' Hb'. apply used_spec, Hall; [done|]. destruct Hg' as (k & ? & -> & _). nia.
  - destruct Hl as [He Hall]. split; [done|]. intros b' Hg'. apply used_spec, Hall; [done|].
    destruct Hg' as (k & ? & -> & _). nia.
Qed.

(** [nextFreeBase] returns the lowest free block of the window, and reports
    [ErrPortWindowExhausted] exactly when every block of the window belongs to some
    slot. *)
Theorem nextFreeBase_lowest_free opts state :
  in_range opts ->
  match nextFreeBase opts state with
  | Ok b => grid opts b /\ (forall slot, state !! slot <> Some b) /\
            (forall b', grid opts b' -> b' < b -> exists slot, state !! slot = Some b')
  | Err e => errors_Is e ErrPortWindowExhausted = true /\
             (forall b', grid opts b' -> exists slot, state !! slot = Some b')
  end.
Proof. apply nextFreeBase_spec. Qed.

Definition demo_window : PortOptions := mkPortOptions "/var/lib/civm/port-blocks.json" 20000 64 32000.

Lemma nextFreeBase_lowest_free_witness :
  in_range demo_window /\
  grid demo_window 20064 /\ (forall slot, ({["a" := 20000]} : gmap string Z) !! slot <> Some 20064) /\
  (forall b', grid demo_window b' -> b' < 20064 -> exists slot, ({["a" := 20000]} : gmap string Z) !! slot = Some b').
Proof.
  assert (in_range demo_window) as Hr by (vm_compute; split_and!; congruence).
  split; [exact Hr|].
  pose proof (nextFreeBase_lowest_free demo_window {["a" := 20000]} Hr) as H.
  assert (nextFreeBase demo_window {["a" := 20000]} = Ok 20064) as E by (vm_compute; reflexivity).
  rewrite E in H. exact H.
Defined.

(** ** The map of allocations *)

(** The state of a file in which every slot has its own block of the window. *)
Record state_ok (opts : PortOptions) (state : gmap string Z) : Prop := {
  so_grid : forall slot b, state !! slot = Some b -> grid opts b;
  so_inj : forall s1 s2 b, state !! s1 = Some b -> state !! s2 = Some b -> s1 = s2;
}.

Lemma state_ok_empty opts : state_ok opts ∅.
Proof. by split. Qed.

Lemma state_ok_insert opts state slot b :
  state_ok opts state -> grid opts b -> (forall s, state !! s <> Some b) -> state_ok opts (<[slot := b]> state).
Proof.
  intros [Hg Hi] Hb Hfree. split.
  - intros s b' [[<- <-]|[_ ?]]%lookup_insert_Some; eauto.
  - intros s1 s2 b' [[<- <-]|[_ H1]]%lookup_insert_Some [[<- ?]|[_ H2]]%lookup_insert_Some;
      [done|by apply Hfree in H2|subst; by apply Hfree in H1|by eapply Hi].
Qed.

(** Two slots of a state never share a port: their blocks of [BlockSize] ports
    are disjoint and lie within the window. *)
Theorem blocks_are_disjoint opts state s1 s2 b1 b2 port :
  state_ok opts state -> 0 < po_BlockSize opts ->
  state !! s1 = Some b1 -> state !! s2 = Some b2 ->
  b1 <= port < b1 + po_BlockSize opts ->
  po_BlockStart opts <= port < po_WindowEnd opts /\
  (b2 <= port < b2 + po_BlockSize opts -> s1 = s2).
Proof.
  intros [Hg Hi] Hs H1 H2 Hp. destruct (Hg _ _ H1) as (k1 & ? & -> & ?).
  destruct (Hg _ _ H2) as (k2 & ? & -> & ?). split; [nia|]. intros Hp2.
  assert (k1 = k2) as -> by nia. by eapply Hi.
Qed.

(** ** Allocation under the lock *)

(** The state file, the temporary file, and whether this process holds the lock. *)
Record files := mkFiles { f_state : option string; f_tmp : option string; f_locked : bool }.

Section allocate.
Context `{AllocationJSON} `{SortSlice} (opts : PortOptions).

(** What [readState] makes of the state file. *)
Definition decoded (f : option string) : result (gmap string Z) :=
  match f with None => Ok ∅ | Some data => parse_state data end.

Definition file_ok (f : option string) : Prop :=
  exists state, decoded f = Ok state /\ state_ok opts state.

(** Another process may only have added slots. *)
Definition grows (f f' : option string) : Prop :=
  forall state, decoded f = Ok state -> exists state', decoded f' = Ok state' /\ state ⊆ state'.

(** The file system: any call may fail; the state file is only touched with the
    lock held, and while it is not, other processes may replace it by a grown one. *)
Definition port_spec : spec portE files := {|
  allowed B e s :=
    match e with
    | ReadFileFn p => p = po_StatePath opts /\ f_locked s = true
    | WriteFileFn p _ => p = po_StatePath opts +:+ tempSuffix /\ f_locked s = true
    | Rename old new => old = po_StatePath opts +:+ tempSuffix /\ new = po_StatePath opts /\
                        f_locked s = true
    | FlockUn _ => f_locked s = true
    | FlockEx _ => f_locked s = false
    | _ => True
    end;
  answers B e s :=
    match e in portE B return B -> files -> Prop with
    | ReadFileFn _ => fun b s' => s' = s /\
        match b with
        | Ok data => f_state s = Some data
        | Err e => errors_Is e ErrNotExist = true -> f_state s = None
        end
    | WriteFileFn _ data => fun b s' =>
        match b with
        | None => s' = mkFiles (f_state s) (Some data) (f_locked s)
        | Some _ => exists t, s' = mkFiles (f_state s) t (f_locked s)
        end
    | Rename _ _ => fun b s' =>
        match b with
        | None => s' = mkFiles (f_tmp s) None (f_locked s)
        | Some _ => s' = s
        end
    | FlockEx _ => fun b s' =>
        match b with
        | None => exists f t, file_ok f /\ grows (f_state s) f /\ s' = mkFiles f t true
        | Some _ => s' = s
        end
    | FlockUn _ => fun _ s' => s' = mkFiles (f_state s) (f_tmp s) false
    | _ => fun _ s' => s' = s
    end;
|}.

Lemma grows_refl f : grows f f.
Proof. intros state ?. eauto. Qed.

Lemma wpp_writeState state s :
  f_locked s = true -> text_state state ->
  wpp port_spec (writeState opts state)
    (fun e s' => f_locked s' = true /\
       match e with None => decoded (f_state s') = Ok state | Some _ => f_state s' = f_state s end) s.
Proof.
  intros Hl Ht. unfold writeState. destruct (marshalState state) as [data|e] eqn:Hm; [|done].
  apply wpp_bind, wpp_call; [done|]. intros [e|] s1; cbn.
  { intros [t ->]. done. }
  intros ->. split; [done|]. intros [e|] s2; cbn; [by intros ->|].
  intros ->. cbn. split; [done|]. by apply marshal_parse.
Qed.

(** What an allocation guarantees while the lock is held. *)
Definition allocated (slot : string) (s : files) (r : result Z) (s' : files) : Prop :=
  f_locked s' = true /\ file_ok (f_state s') /\ grows (f_state s) (f_state s') /\
  match r with
  | Ok base => exists state', decoded (f_state s') = Ok state' /\ state' !! slot = Some base
  | Err _ => f_state s' = f_state s
  end.

Lemma allocated_err slot s e :
  f_locked s = true -> file_ok (f_state s) -> allocated slot s (Err e) s.
Proof. unfold allocated. auto using grows_refl. Qed.

Lemma decoded_text f state : decoded f = Ok state -> text_state state.
Proof. destruct f; cbn; [apply parse_text|intros [= <-]; apply map_Forall_empty]. Qed.

Lemma wpp_allocate_from slot state s :
  in_range opts -> valid_utf8 slot -> f_locked s = true -> decoded (f_state s) = Ok state -> state_ok opts state ->
  wpp port_spec (allocate_from opts slot state) (allocated slot s) s.
Proof.
  intros Hr Hv Hl Hdec Hstate. assert (file_ok (f_state s)) as Hok by (exists state; auto).
  unfold allocate_from. destruct (state !! slot) as [base|] eqn:Hslot.
  { apply wpp_ret. unfold allocated. eauto 6 using grows_refl. }
  pose proof (nextFreeBase_spec opts state Hr) as Hfree.
  destruct (nextFreeBase opts state) as [base|e]; [|apply wpp_ret; auto using allocated_err].
  destruct Hfree as (Hg & Hnew & _). apply wpp_bind.
  eapply wpp_mono; [apply wpp_writeState; [done|]|].
  { apply map_Forall_insert_2; [|by eapply decoded_text]. split; [done|].
    destruct Hr as (? & ? & ? & ? & ?), Hg as (k & ? & -> & ?). nia. }
  intros [e|] s2 [Hl2 Hs2]; apply wpp_ret; unfold allocated.
  - rewrite Hs2. auto using grows_refl.
  - split_and!; [done| | |].
    + exists (<[slot:=base]> state). split; [done|]. by apply state_ok_insert.
    + intros st Hst. rewrite Hdec in Hst. injection Hst as <-. exists (<[slot:=base]> state).
      split; [done|]. by apply insert_subseteq.
    + exists (<[slot:=base]> state). by rewrite lookup_insert_eq.
Qed.

Lemma wpp_allocate_locked slot s :
  in_range opts -> valid_utf8 slot -> f_locked s = true -> file_ok (f_state s) ->
  wpp port_spec (allocate_locked opts slot) (allocated slot s) s.
Proof.
  intros Hr Hv Hl Hok. pose proof Hok as (state & Hdec & Hstate).
  unfold allocate_locked, readState. apply wpp_bind, wpp_bind, wpp_call; [done|].
  intros [d|e] s1 [-> Hdata]; cbv beta iota.
  - rewrite Hdata in Hdec. cbn in Hdec. rewrite Hdec. apply wpp_ret.
    apply wpp_allocate_from; [done|done|done|by rewrite Hdata|done].
  - destruct (errors_Is e ErrNotExist) eqn:He; apply wpp_ret.
    + rewrite (Hdata eq_refl) in Hdec. cbn in Hdec. injection Hdec as <-.
      apply wpp_allocate_from; [done|done|done|by rewrite (Hdata eq_refl)|done].
    + apply wpp_ret. auto using allocated_err.
Qed.
End allocate.

Lemma in_range_defaults opts :
  validateOptions (port_applyDefaults opts) = None ->
  min_int64 <= po_BlockStart (port_applyDefaults opts) ->
  po_WindowEnd (port_applyDefaults opts) + po_BlockSize (port_applyDefaults opts) <= max_int64 ->
  in_range (port_applyDefaults opts).
Proof.
  generalize (port_applyDefaults opts). clear opts. intros o. unfold validateOptions, in_range.
  destruct (po_BlockSize o <=? 0) eqn:?; [done|].
  destruct (po_WindowEnd o <=? po_BlockStart o) eqn:?; [done|]. intros. bsplit. split_and!; lia.
Qed.

(** C39. Allocation is sticky and disjoint under concurrency and failures.  Let the
    state file hold a valid map.  Whatever other processes add to it before the lock
    is taken, and whatever call fails, [Allocate] touches the state file only with
    the lock held, gives the lock back, and leaves a valid map that contains every
    earlier allocation; a base it returns is the one recorded for the slot, and on an
    error the file is the one it found under the lock.  So a slot whose name is
    UTF-8 gets the same base for ever, and no two such slots ever get the same one. *)
Theorem allocate_sticky_and_disjoint `{AllocationJSON} `{SortSlice} opts slot s :
  let o := port_applyDefaults opts in
  min_int64 <= po_BlockStart o -> po_WindowEnd o + po_BlockSize o <= max_int64 ->
  valid_utf8 slot -> f_locked s = false -> file_ok o (f_state s) ->
  wpp (port_spec o) (Allocate opts slot)
    (fun r s' => f_locked s' = false /\ file_ok o (f_state s') /\ grows (f_state s) (f_state s') /\
       (forall base, r = Ok base ->
          exists state, decoded (f_state s') = Ok state /\ state_ok o state /\ state !! slot = Some base)) s.
Proof.
  intros o Hmin Hmax Hutf Hl Hok. unfold Allocate. fold o.
  assert (forall e, wpp (port_spec o) (mret (Err e))
    (fun r s' => f_locked s' = false /\ file_ok o (f_state s') /\ grows (f_state s) (f_state s') /\
       (forall base, r = Ok base ->
          exists state, decoded (f_state s') = Ok state /\ state_ok o state /\ state !! slot = Some base)) s) as Herr.
  { intros e. apply wpp_ret. split_and!; auto using grows_refl. done. }
  destruct (validateOptions o) eqn:Hv; [apply Herr|].
  pose proof (in_range_defaults opts Hv Hmin Hmax) as Hr. fold o in Hr.
  destruct (String.eqb _ _); [apply Herr|].
  apply wpp_bind, wpp_call; [done|]. intros [e|] s1 ->; [apply Herr|]. cbv zeta.
  apply wpp_bind, wpp_call; [done|]. intros [e|] s1 ->; [apply Herr|].
  apply wpp_bind, wpp_call; [done|]. intros [e|] s1 Hs1; cbn in Hs1.
  { subst s1. apply wpp_bind, wpp_call; [done|]. intros u s1 ->. apply Herr. }
  destruct Hs1 as (f & t & Hf & Hgrow & ->). apply wpp_bind.
  eapply wpp_mono; [by apply wpp_allocate_locked|]. intros r s2 (Hl2 & Hok2 & Hg2 & Hr2).
  apply wpp_bind, wpp_call; [done|]. intros u s3 ->. apply wpp_bind, wpp_call; [done|].
  intros u' s4 ->. apply wpp_ret. cbn in *. split_and!; [done|done| |].
  - intros st Hst. destruct (Hgrow st Hst) as (st' & Hst' & Hsub).
    destruct (Hg2 st' Hst') as (st'' & ? & ?). exists st''. split; [done|]. by etrans.
  - intros base ->. destruct Hr2 as (st & Hd & Hslot). destruct Hok2 as (st' & Hd' & Hst').
    rewrite Hd in Hd'. injection Hd' as <-. eauto.
Qed.

(** ** A concrete encoding *)

Definition pairs (l : list Allocation) : list (string * Z) := (fun a => (al_Slot a, al_Base a)) <$> l.
Definition unpairs (l : list (string * Z)) : list Allocation := (fun p => mkAllocation (fst p) (snd p)) <$> l.

(** A decimal number that encodes the list, its strings coerced to UTF-8, and the number
    read back; a base that is no [int] is an error, as it is for [encoding/json]. *)
Definition number_of (l : list Allocation) : string := Itoa (Z.pos (encode (pairs (coerced <$> l)))).
Definition list_of (s : string) : result (list Allocation) :=
  match parse_digits s with
  | Some (Z.pos p) => match decode (A:=list (string * Z)) p with
                      | Some l => if forallb (fun p => (min_int64 <=? snd p) && (snd p <=? max_int64)) l
                                  then Ok (coerced <$> unpairs l)
                                  else Err (Errorf "cannot unmarshal number into Go value of type int")
                      | None => Err (Errorf "invalid character")
                      end
  | _ => Err (Errorf "invalid character")
  end.

Lemma coerced_idem (l : list Allocation) : coerced <$> (coerced <$> l) = coerced <$> l.
Proof.
  rewrite <- list_fmap_compose. apply list_fmap_ext. intros i [slot b] _. unfold coerced. cbn.
  f_equal. apply coerce_utf8_valid.
Qed.

Lemma unpairs_pairs (l : list Allocation) : unpairs (pairs l) = l.
Proof.
  unfold unpairs, pairs. rewrite <- list_fmap_compose. rewrite <- (list_fmap_id l) at 2.
  apply list_fmap_ext. by intros i [].
Qed.

Program Definition number_codec : AllocationJSON := {|
  MarshalIndent l := Ok (number_of l);
  Unmarshal := list_of;
|}.
Next Obligation.
  intros l data Hl [= <-]. unfold list_of, number_of. rewrite parse_digits_Itoa by lia.
  rewrite decode_encode. rewrite (proj2 (forallb_forall _ _)); [by rewrite unpairs_pairs, coerced_idem|].
  intros p Hp%list_elem_of_In. unfold pairs in Hp. rewrite <- list_fmap_compose in Hp.
  apply list_elem_of_fmap in Hp as (a & -> & Ha). rewrite Forall_forall in Hl.
  destruct (Hl a Ha). cbn. apply andb_true_intro. split; by apply Z.leb_le.
Qed.
Next Obligation.
  intros data l. unfold list_of. destruct (parse_digits data) as [[]|]; try discriminate.
  destruct (decode _) as [l0|]; [|discriminate]. destruct (forallb _ l0) eqn:Hf; [|discriminate].
  intros [= <-]. apply Forall_fmap, Forall_fmap, Forall_forall. intros [slot b] Hin. cbn.
  split; [apply coerce_utf8_valid|]. rewrite forallb_forall in Hf.
  apply list_elem_of_In, Hf in Hin. cbn in Hin. unfold int_base. cbn. bsplit. lia.
Qed.
Next Obligation.
  intros l data [= <-]. apply TrimSpace_Itoa. lia.
Qed.

Definition all_defaults : PortOptions := mkPortOptions "" 0 0 0.

Lemma blocks_are_disjoint_witness :
  po_BlockStart demo_window <= 20010 < po_WindowEnd demo_window /\
  (20064 <= 20010 < 20064 + po_BlockSize demo_window -> "runner-1" = "runner-2").
Proof.
  apply (blocks_are_disjoint demo_window {["runner-1" := 20000; "runner-2" := 20064]}
           "runner-1" "runner-2" 20000 20064 20010).
  - apply state_ok_insert; [apply state_ok_insert; [apply state_ok_empty| |]| |].
    + exists 1. vm_compute. split_and!; congruence.
    + by intros s.
    + exists 0. vm_compute. split_and!; congruence.
    + by intros s [_ E]%lookup_singleton_Some.
  - vm_compute. reflexivity.
  - reflexivity.
  - reflexivity.
  - vm_compute. split; congruence.
Defined.

Lemma allocate_sticky_and_disjoint_witness :
  wpp (@port_spec number_codec (port_applyDefaults all_defaults))
    (@Allocate number_codec SortSlice_insertion all_defaults "runner-1")
    (fun r s' => f_locked s' = false /\
       @file_ok number_codec (port_applyDefaults all_defaults) (f_state s') /\
       @grows number_codec None (f_state s') /\
       (forall base, r = Ok base ->
          exists state, @decoded number_codec (f_state s') = Ok state /\
            state_ok (port_applyDefaults all_defaults) state /\ state !! "runner-1" = Some base))
    (mkFiles None None false).
Proof.
  apply (@allocate_sticky_and_disjoint number_codec SortSlice_insertion all_defaults "runner-1"
           (mkFiles None None false)).
  - vm_compute. congruence.
  - vm_compute. congruence.
  - vm_compute. reflexivity.
  - reflexivity.
  - exists ∅. split; [reflexivity|apply state_ok_empty].
Defined.

(** ** Slots that are not UTF-8 *)

(** The calls of one process on a quiet machine. *)
Definition on_files (B : Type) (e : portE B) : St files B := fun f =>
  match e in portE B return B * files with
  | ReadFileFn _ => (match f_state f with
                     | Some data => Ok data
                     | None => Err (Errorf_s ErrNotExist "no such file or directory")
                     end, f)
  | WriteFileFn _ data => (None, mkFiles (f_state f) (Some data) (f_locked f))
  | Rename _ _ => (None, mkFiles (f_tmp f) None (f_locked f))
  | MkdirAllFn _ | OpenLock _ | FlockEx _ => (None, f)
  | FlockUn _ | CloseLock => (tt, f)
  end.

(** The answers of the three calls, one after the other. *)
Definition allocate_thrice (s1 s2 s3 : string) : list (result Z) :=
  let run slot f := interp on_files (@Allocate number_codec SortSlice_insertion all_defaults slot) f in
  let '(r1, f) := run s1 (mkFiles None None false) in
  let '(r2, f) := run s2 f in
  let '(r3, f) := run s3 f in
  [r1; r2; r3].

(** Bytes of a slot name that are not UTF-8 do not survive the JSON file: the slot is new
    at every call, and its block, recorded under the coerced name, moves at every call;
    the block of the slot whose name is the coerced one is given up with it. *)
Theorem slot_that_is_not_utf8_is_not_sticky :
  let slot := String "255" "runner" in
  allocate_thrice slot slot slot = [Ok 20000; Ok 20064; Ok 20000] /\
  allocate_thrice (coerce_utf8 slot) slot (coerce_utf8 slot) = [Ok 20000; Ok 20064; Ok 20064].
Proof. vm_compute. split; reflexivity. Qed.
