(* ===== verification/Runreaper.v ===== *)
(** * internal/runreaper: cancelling runs that no longer matter

    [Reap] asks for the open pull requests and the active runs of each repository
    and cancels the runs of closed branches and of superseded commits.  The GitHub
    accesses are effects; their production defaults, which call the gh command, are
    modelled on top of [RunFn] with the JSON decoders as parameters. *)

From S2P Require Import Prelude GoStrings Prog Civm.

Local Open Scope string_scope.
Local Open Scope list_scope.
Local Open Scope Z_scope.

Definition DefaultMaxCancelPerRepo : Z := 400.

Record Run := mkRun {
  rn_ID : Z;
  rn_Repo : string;
  rn_Branch : string;
  rn_HeadSHA : string;
  rn_Event : string;
  rn_Status : string;
  rn_Workflow : string;
  rn_CreatedAt : Z;
}.

#[global] Instance Run_eq_dec : EqDecision Run.
Proof. solve_decision. Defined.

Record ReapOptions := mkReapOptions {
  rp_Repos : list string;
  rp_Execute : bool;
  rp_MaxCancelPerRepo : Z;
}.

Record Event := mkEvent {
  ev_Event : string;
  ev_Severity : string;
  ev_Repo : string;
  ev_RunID : Z;
  ev_Branch : string;
  ev_Workflow : string;
  ev_Reason : string;
  ev_Detail : string;
  ev_Executed : bool;
}.

Record Report := mkReport {
  rep_Executed : bool;
  rep_Repos : list string;
  rep_Scanned : Z;
  rep_Candidates : Z;
  rep_Cancelled : Z;
  rep_Events : list Event;
  rep_Exit : Z;
}.

Inductive reapE : Type -> Type :=
  | OpenHeadsFn (repo : string) : reapE (result (gmap string string))
  | ActiveRunsFn (repo : string) : reapE (result (list Run))
  | CancelFn (repo : string) (runID : Z) : reapE err_ret.

(** ** Small helpers *)

Definition isPullRequestEvent (event : string) : bool :=
  String.eqb event "pull_request" || String.eqb event "pull_request_target".

Definition shaEqual (a b : string) : bool := EqualFold (TrimSpace a) (TrimSpace b).

Definition shortSHA (s : string) : string :=
  let s := TrimSpace s in if 12 <? len s then take_str 12 s else s.

Definition maxInt (a b : Z) : Z := if a <? b then b else a.

Definition reap_applyDefaults (opts : ReapOptions) : ReapOptions :=
  mkReapOptions (rp_Repos opts) (rp_Execute opts)
    (if rp_MaxCancelPerRepo opts <=? 0 then DefaultMaxCancelPerRepo else rp_MaxCancelPerRepo opts).

(** [Report.add]: an event without severity is "info". *)
Definition add (ev : Event) (r : Report) : Report :=
  let ev := if String.eqb (ev_Severity ev) ""
            then mkEvent (ev_Event ev) "info" (ev_Repo ev) (ev_RunID ev) (ev_Branch ev)
                   (ev_Workflow ev) (ev_Reason ev) (ev_Detail ev) (ev_Executed ev)
            else ev in
  mkReport (rep_Executed r) (rep_Repos r) (rep_Scanned r) (rep_Candidates r) (rep_Cancelled r)
    (rep_Events r ++ [ev]) (rep_Exit r).

Definition raise_exit (r : Report) : Report :=
  mkReport (rep_Executed r) (rep_Repos r) (rep_Scanned r) (rep_Candidates r) (rep_Cancelled r)
    (rep_Events r) (maxInt (rep_Exit r) 1).
Definition add_scanned (n : Z) (r : Report) : Report :=
  mkReport (rep_Executed r) (rep_Repos r) (rep_Scanned r + n) (rep_Candidates r) (rep_Cancelled r)
    (rep_Events r) (rep_Exit r).
Definition add_candidate (r : Report) : Report :=
  mkReport (rep_Executed r) (rep_Repos r) (rep_Scanned r) (rep_Candidates r + 1) (rep_Cancelled r)
    (rep_Events r) (rep_Exit r).
Definition add_cancelled (r : Report) : Report :=
  mkReport (rep_Executed r) (rep_Repos r) (rep_Scanned r) (rep_Candidates r) (rep_Cancelled r + 1)
    (rep_Events r) (rep_Exit r).
Definition add_repo (repo : string) (r : Report) : Report :=
  mkReport (rep_Executed r) (rep_Repos r ++ [repo]) (rep_Scanned r) (rep_Candidates r) (rep_Cancelled r)
    (rep_Events r) (rep_Exit r).

Definition skipped (repo reason detail : string) : Event :=
  mkEvent "reap-skipped" "warning" repo 0 "" "" reason detail false.

(** ** Candidates *)

Record candidate := mkCandidate { cd_run : Run; cd_reason : string }.

(** The body of the selection loop, [None] for [continue]. *)
Definition consider (openHeads : gmap string string) (run : Run) : option candidate :=
  if negb (isPullRequestEvent (rn_Event run)) then None
  else if String.eqb (rn_Branch run) "" then None
  else match openHeads !! rn_Branch run with
  | None => Some (mkCandidate run "pr-not-open")
  | Some currentHead =>
      if negb (String.eqb (rn_HeadSHA run) "") && negb (String.eqb currentHead "") &&
         negb (shaEqual (rn_HeadSHA run) currentHead)
      then Some (mkCandidate run "superseded-sha") else None
  end.

Definition older (a b : candidate) : bool := rn_CreatedAt (cd_run a) <? rn_CreatedAt (cd_run b).

Definition reaped_event (repo : string) (openHeads : gmap string string) (execute : bool)
    (c : candidate) : Event :=
  mkEvent "run-reaped" "info" repo (rn_ID (cd_run c)) (rn_Branch (cd_run c)) (rn_Workflow (cd_run c))
    (cd_reason c)
    (if String.eqb (cd_reason c) "superseded-sha"
     then "run=" +:+ shortSHA (rn_HeadSHA (cd_run c)) +:+ " open=" +:+
          shortSHA (default "" (openHeads !! rn_Branch (cd_run c)))
     else "")
    execute.

Definition with_outcome (severity reason detail : string) (ev : Event) : Event :=
  mkEvent (ev_Event ev) severity (ev_Repo ev) (ev_RunID ev) (ev_Branch ev) (ev_Workflow ev) reason
    detail (ev_Executed ev).

Section reap.
Context `{SortSlice}.

Definition candidates (openHeads : gmap string string) (runs : list Run) : list candidate :=
  sort_slice older (omap (consider openHeads) runs).

(** The loop over the sorted candidates; [i] is the index of the first one left. *)
Fixpoint reap_loop (opts : ReapOptions) (repo : string) (openHeads : gmap string string) (total : Z)
    (i : Z) (cs : list candidate) (report : Report) : prog reapE Report :=
  match cs with
  | [] => mret report
  | c :: cs =>
      let report := add_candidate report in
      let ev := reaped_event repo openHeads (rp_Execute opts) c in
      if rp_MaxCancelPerRepo opts <=? i then
        mret (add (mkEvent "reap-capped" "warning" repo 0 "" "" "max-cancel-reached"
                    (Itoa total +:+ " candidates, cap " +:+ Itoa (rp_MaxCancelPerRepo opts)) false) report)
      else if negb (rp_Execute opts) then
        reap_loop opts repo openHeads total (i + 1) cs (add ev report)
      else
        err ← call (CancelFn repo (rn_ID (cd_run c)));
        match err with
        | Some err =>
            if errors_Is err ErrRunAlreadyCompleted then
              reap_loop opts repo openHeads total (i + 1) cs
                (add (with_outcome "info" "already-completed-ghost" (err_text err) ev) report)
            else
              reap_loop opts repo openHeads total (i + 1) cs
                (raise_exit (add (with_outcome "warning" "cancel-failed" (err_text err) ev) report))
        | None =>
            reap_loop opts repo openHeads total (i + 1) cs (add ev (add_cancelled report))
        end
  end.

Definition reapRepo (opts : ReapOptions) (repo : string) (report : Report) : prog reapE Report :=
  heads ← call (OpenHeadsFn repo);
  match heads with
  | Err err => mret (raise_exit (add (skipped repo "open-prs-failed" (err_text err)) report))
  | Ok openHeads =>
      active ← call (ActiveRunsFn repo);
      match active with
      | Err err => mret (raise_exit (add (skipped repo "active-runs-failed" (err_text err)) report))
      | Ok runs =>
          let cs := candidates openHeads runs in
          reap_loop opts repo openHeads (Z.of_nat (length cs)) 0 cs
            (add_scanned (Z.of_nat (length runs)) report)
      end
  end.

Fixpoint reap_repos (opts : ReapOptions) (repos : list string) (report : Report) : prog reapE Report :=
  match repos with
  | [] => mret report
  | repo :: repos =>
      match ValidateRepo repo with
      | Some err =>
          reap_repos opts repos (raise_exit (add (skipped repo "repo-invalid" (err_text err)) report))
      | None =>
          report ← reapRepo opts repo (add_repo repo report);
          reap_repos opts repos report
      end
  end.

Definition Reap (opts : ReapOptions) : prog reapE Report :=
  let opts := reap_applyDefaults opts in
  let report := mkReport (rp_Execute opts) [] 0 0 0 [] 0 in
  match rp_Repos opts with
  | [] => let r := add (skipped "" "no-repos" "") report in
          mret (mkReport (rep_Executed r) (rep_Repos r) (rep_Scanned r) (rep_Candidates r)
                  (rep_Cancelled r) (rep_Events r) 1)
  | repos => reap_repos opts repos report
  end.
End reap.

(** ** The production defaults over the gh command *)

Inductive ghE : Type -> Type :=
  | RunFn (name : string) (args : list string) : ghE (result string).

Record pr := mkPR { pr_HeadRefName : string; pr_HeadRefOid : string }.

(** The map of [listOpenHeads]: the first pull request of a branch wins. *)
Definition open_map (prs : list pr) : gmap string string :=
  foldl (fun open p =>
           if String.eqb (pr_HeadRefName p) "" then open
           else match open !! pr_HeadRefName p with
                | Some _ => open
                | None => <[pr_HeadRefName p := pr_HeadRefOid p]> open
                end) ∅ prs.

Section gh.
(** [json.Unmarshal] of the pull requests, and the [json.Decoder] over the
    concatenated pages of runs. *)
Context (decodePRs : string -> result (list pr)) (decodeRuns : string -> result (list Run)).

Definition listOpenHeads (repo : string) : prog ghE (result (gmap string string)) :=
  out ← call (RunFn "gh" ["pr"; "list"; "--repo"; repo; "--state"; "open"; "--limit"; "1000";
                          "--json"; "headRefName,headRefOid"]);
  match out with
  | Err e => mret (Err (Errorf_w "gh pr list" e))
  | Ok out => match decodePRs out with
              | Err e => mret (Err (Errorf_w "parse gh pr list" e))
              | Ok prs => mret (Ok (open_map prs))
              end
  end.

Definition with_repo (repo : string) (r : Run) : Run :=
  mkRun (rn_ID r) repo (rn_Branch r) (rn_HeadSHA r) (rn_Event r) (rn_Status r) (rn_Workflow r)
    (rn_CreatedAt r).

Definition parseActiveRuns (out repo : string) : result (list Run) :=
  match decodeRuns out with
  | Err e => Err (Errorf_w "parse gh runs" e)
  | Ok runs => Ok (with_repo repo <$> runs)
  end.

Definition list_status (repo status : string) : prog ghE (result (list Run)) :=
  out ← call (RunFn "gh" ["api"; "--paginate";
                          "/repos/" +:+ repo +:+ "/actions/runs?status=" +:+ status +:+ "&per_page=100"]);
  match out with
  | Err e => mret (Err (Errorf_w ("gh api actions/runs?status=" +:+ status) e))
  | Ok out => mret (parseActiveRuns out repo)
  end.

Definition listActiveRuns (repo : string) : prog ghE (result (list Run)) :=
  queued ← list_status repo "queued";
  match queued with
  | Err e => mret (Err e)
  | Ok queued =>
      running ← list_status repo "in_progress";
      match running with
      | Err e => mret (Err e)
      | Ok running => mret (Ok (queued ++ running))
      end
  end.
End gh.

Definition isAlreadyCompletedError (err : error) : bool :=
  let msg := ToLower (err_text err) in
  Contains msg "cannot cancel a run that is completed" ||
  Contains msg "cannot cancel a workflow run that is completed" ||
  Contains msg "cannot cancel a workflow re-run that has not yet queued".

Definition cancelRun (repo : string) (runID : Z) : prog ghE err_ret :=
  let base := "/repos/" +:+ repo +:+ "/actions/runs/" +:+ Itoa runID in
  forced ← call (RunFn "gh" ["api"; "-X"; "POST"; base +:+ "/force-cancel"; "--silent"]);
  match forced with
  | Ok _ => mret None
  | Err forceErr =>
      normal ← call (RunFn "gh" ["api"; "-X"; "POST"; base +:+ "/cancel"; "--silent"]);
      match normal with
      | Ok _ => mret None
      | Err normalErr =>
          if isAlreadyCompletedError forceErr || isAlreadyCompletedError normalErr
          then mret (Some (Errorf_s ErrRunAlreadyCompleted
                 ("force-cancel: " +:+ err_text forceErr +:+ "; cancel: " +:+ err_text normalErr)))
          else mret (Some (Errorf_w "gh api cancel/force-cancel run" normalErr))
      end
  end.

(** * internal/runreaper: properties *)

Local Open Scope string_scope.
Local Open Scope list_scope.
Local Open Scope Z_scope.

(** ** What may be cancelled *)

(** A run that no open pull request needs: a pull-request run on a branch without
    an open pull request, or whose commit is known and is not its current head. *)
Definition stale (heads : gmap string string) (run : Run) : Prop :=
  rn_Event run ∈ ["pull_request"; "pull_request_target"] /\ rn_Branch run <> "" /\
  (heads !! rn_Branch run = None \/
   exists head, heads !! rn_Branch run = Some head /\ head <> "" /\ rn_HeadSHA run <> "" /\
     shaEqual (rn_HeadSHA run) head = false).

(** What GitHub has answered for the repository at hand, and the runs cancelled in
    it so far. *)
Record seen := mkSeen {
  sn_repo : string; sn_heads : gmap string string; sn_runs : list Run; sn_cancels : list Z }.

Definition reap_spec (opts : ReapOptions) : spec reapE seen := {|
  allowed B e s :=
    match e with
    | CancelFn repo id =>
        rp_Execute opts = true /\ repo = sn_repo s /\
        Z.of_nat (length (sn_cancels s)) < rp_MaxCancelPerRepo opts /\
        exists run, run ∈ sn_runs s /\ rn_ID run = id /\ stale (sn_heads s) run
    | ActiveRunsFn repo => repo = sn_repo s
    | OpenHeadsFn _ => True
    end;
  answers B e s :=
    match e in reapE B return B -> seen -> Prop with
    | OpenHeadsFn repo => fun b s' =>
        s' = mkSeen repo (match b with Ok heads => heads | Err _ => ∅ end) [] []
    | ActiveRunsFn repo => fun b s' =>
        s' = mkSeen (sn_repo s) (sn_heads s) (match b with Ok runs => runs | Err _ => [] end) []
    | CancelFn _ id => fun _ s' => s' = mkSeen (sn_repo s) (sn_heads s) (sn_runs s) (sn_cancels s ++ [id])
    end;
|}.

Lemma consider_stale heads run c :
  consider heads run = Some c -> cd_run c = run /\ stale heads run.
Proof.
  unfold consider, stale, isPullRequestEvent.
  destruct (negb _) eqn:He; [done|]. bsplit.
  assert (rn_Event run ∈ ["pull_request"; "pull_request_target"]) as Hev.
  { apply orb_prop in He as [E%String.eqb_eq|E%String.eqb_eq]; rewrite E; set_solver. }
  destruct (String.eqb (rn_Branch run) "") eqn:Hb; [done|]. apply String.eqb_neq in Hb.
  destruct (heads !! rn_Branch run) as [head|].
  - destruct (_ && _ && _) eqn:Hc; [|done]. bsplit. intros [= <-].
    repeat match goal with H : String.eqb _ _ = false |- _ => apply String.eqb_neq in H end.
    split; [done|]. split_and!; [done|done|]. right. exists head. by split_and!.
  - intros [= <-]. split; [done|]. split_and!; auto.
Qed.

Section safety.
Context `{SortSlice} (opts : ReapOptions).

Lemma candidates_stale heads runs c :
  c ∈ candidates heads runs -> cd_run c ∈ runs /\ stale heads (cd_run c).
Proof.
  unfold candidates. rewrite sort_slice_elem_of, list_elem_of_omap.
  intros (run & Hrun & Hc). destruct (consider_stale _ _ _ Hc) as [-> ?]. done.
Qed.

(** What the loop guarantees from candidate [i] on: the runs cancelled are those of
    the first [MaxCancelPerRepo] candidates, in order, or none in a dry run; no more
    are counted; and the exit code stays 0 or 1. *)
Definition batch (i : Z) (cs : list candidate) : list Z :=
  if rp_Execute opts
  then (fun c => rn_ID (cd_run c)) <$> take (Z.to_nat (rp_MaxCancelPerRepo opts - i)) cs
  else [].

Definition exit_ok (report r : Report) : Prop :=
  rep_Exit report = 0 \/ rep_Exit report = 1 -> rep_Exit r = 0 \/ rep_Exit r = 1.

Definition loop_post (s : seen) (i : Z) (cs : list candidate) (report r : Report) (s' : seen) : Prop :=
  sn_repo s' = sn_repo s /\ sn_cancels s' = sn_cancels s ++ batch i cs /\
  0 <= rep_Cancelled r - rep_Cancelled report <= Z.of_nat (length (batch i cs)) /\ exit_ok report r.

Lemma loop_post_stop s i cs report r :
  batch i cs = [] -> rep_Cancelled r = rep_Cancelled report -> rep_Exit r = rep_Exit report ->
  loop_post s i cs report r s.
Proof. intros Hb Hc He. unfold loop_post, exit_ok. rewrite Hb, app_nil_r, He. cbn. split_and!; auto; lia. Qed.

Lemma batch_cons i c cs :
  rp_Execute opts = true -> i < rp_MaxCancelPerRepo opts ->
  batch i (c :: cs) = rn_ID (cd_run c) :: batch (i + 1) cs.
Proof.
  intros Hex Hi. unfold batch. rewrite Hex.
  by replace (Z.to_nat (rp_MaxCancelPerRepo opts - i))
    with (S (Z.to_nat (rp_MaxCancelPerRepo opts - (i + 1)))) by lia.
Qed.

Definition cancelled_one (s : seen) (id : Z) : seen :=
  mkSeen (sn_repo s) (sn_heads s) (sn_runs s) (sn_cancels s ++ [id]).

Lemma loop_post_cancel s i c cs report report' r s' :
  rp_Execute opts = true -> i < rp_MaxCancelPerRepo opts ->
  0 <= rep_Cancelled report' - rep_Cancelled report <= 1 -> exit_ok report report' ->
  loop_post (cancelled_one s (rn_ID (cd_run c))) (i + 1) cs report' r s' ->
  loop_post s i (c :: cs) report r s'.
Proof.
  unfold loop_post, exit_ok. intros Hex Hi Hr He (? & Hc & ? & ?).
  rewrite batch_cons by done. rewrite Hc. cbn in *. rewrite <- app_assoc. split_and!; auto; lia.
Qed.

Lemma wpp_reap_loop repo total i cs report s :
  sn_repo s = repo -> (forall c, c ∈ cs -> cd_run c ∈ sn_runs s /\ stale (sn_heads s) (cd_run c)) ->
  0 <= i -> (rp_Execute opts = true -> Z.of_nat (length (sn_cancels s)) = i) ->
  wpp (reap_spec opts) (reap_loop opts repo (sn_heads s) total i cs report)
    (loop_post s i cs report) s.
Proof.
  intros Hrepo. revert i report s Hrepo.
  induction cs as [|c cs IH]; intros i report s Hrepo Hcs Hi Hn; cbn [reap_loop].
  { apply wpp_ret, loop_post_stop; [|done|done]. unfold batch. rewrite take_nil. by destruct (rp_Execute opts). }
  destruct (rp_MaxCancelPerRepo opts <=? i) eqn:Hcap; bsplit.
  { apply wpp_ret, loop_post_stop; [|done|done]. unfold batch.
    replace (Z.to_nat (rp_MaxCancelPerRepo opts - i)) with 0%nat by lia. by destruct (rp_Execute opts). }
  assert (forall c', c' ∈ cs -> cd_run c' ∈ sn_runs s /\ stale (sn_heads s) (cd_run c')) as Hcs'
    by (intros c' Hc'; apply Hcs; by right).
  destruct (rp_Execute opts) eqn:Hex; cbn [negb].
  - specialize (Hn eq_refl). apply wpp_bind, wpp_call.
    + cbn. split_and!; [done|done|lia|]. destruct (Hcs c) as [? ?]; [by left|]. eauto.
    + intros err s1 ->. cbn. set (s1 := mkSeen _ _ _ _).
      assert (forall r0, 0 <= rep_Cancelled r0 - rep_Cancelled report <= 1 -> exit_ok report r0 ->
        wpp (reap_spec opts) (reap_loop opts repo (sn_heads s) total (i + 1) cs r0)
          (loop_post s i (c :: cs) report) s1) as Hgo.
      { intros r0 HR HE. eapply wpp_mono; [apply (IH (i + 1) r0 s1)|].
        - done. - done. - lia. - intros _. cbn. rewrite length_app. cbn. lia.
        - intros r s' Hp. by eapply loop_post_cancel. }
      destruct err as [e|]; [destruct (errors_Is e _)|]; apply Hgo; cbn; try lia; try (by intros ?).
      unfold exit_ok. cbn. intros [-> | ->]; by right.
  - eapply wpp_mono; [apply (IH (i + 1)); [done|done|lia|done]|].
    unfold loop_post, batch, exit_ok. rewrite Hex. intros r s' (? & ? & ? & ?). cbn in *. split_and!; first [done | lia | tauto].
Qed.

Lemma wpp_reapRepo repo report s :
  0 < rp_MaxCancelPerRepo opts ->
  wpp (reap_spec opts) (reapRepo opts repo report)
    (fun r s' => 0 <= rep_Cancelled r - rep_Cancelled report <= rp_MaxCancelPerRepo opts /\
       (rp_Execute opts = false -> rep_Cancelled r = rep_Cancelled report) /\
       exit_ok report r) s.
Proof.
  intros Hmax. unfold reapRepo. apply wpp_bind, wpp_call; [done|]. intros [heads|e] s1 ->; cbn.
  2:{ split_and!; auto; try lia. unfold exit_ok. cbn. intros [-> | ->]; by right. }
  split; [done|]. intros [runs|e] s2 ->; cbn.
  2:{ split_and!; auto; try lia. unfold exit_ok. cbn. intros [-> | ->]; by right. }
  eapply wpp_mono; [apply (wpp_reap_loop repo _ 0 _ _ (mkSeen repo heads runs [])); cbn|].
  - done.
  - apply candidates_stale.
  - lia.
  - done.
  - intros r s' (_ & _ & Hcan & Hex). unfold batch in Hcan. cbn in *.
    destruct (rp_Execute opts); cbn in *.
    + rewrite length_fmap, length_take in Hcan. split_and!; auto; [lia..|done].
    + split_and!; auto; lia.
Qed.

Lemma wpp_reap_repos repos report s :
  0 < rp_MaxCancelPerRepo opts ->
  wpp (reap_spec opts) (reap_repos opts repos report)
    (fun r s' => 0 <= rep_Cancelled r - rep_Cancelled report <=
                   Z.of_nat (length repos) * rp_MaxCancelPerRepo opts /\
       (rp_Execute opts = false -> rep_Cancelled r = rep_Cancelled report) /\ exit_ok report r) s.
Proof.
  intros Hmax. revert report s. induction repos as [|repo repos IH]; intros report s; cbn [reap_repos].
  { apply wpp_ret. split_and!; auto; [cbn; lia..|by intros ?]. }
  destruct (ValidateRepo repo) as [e|].
  - eapply wpp_mono; [apply IH|]. intros r s' (? & Hd & He). cbn in *. split_and!; auto; [lia..|].
    intros Hx. apply He. cbn. destruct Hx as [-> | ->]; by right.
  - apply wpp_bind. eapply wpp_mono; [by apply wpp_reapRepo|]. intros r1 s1 (? & Hd1 & He1). cbn in *.
    eapply wpp_mono; [apply IH|]. intros r s' (? & Hd & He). cbn in *. split_and!; [lia|lia| |].
    + intros Hx. rewrite Hd, Hd1; done.
    + intros Hx. apply He, He1, Hx.
Qed.
End safety.

(** Which runs are cancelled, and how many. *)
Lemma wpp_Reap `{SortSlice} opts s :
  let o := reap_applyDefaults opts in
  wpp (reap_spec o) (Reap opts)
    (fun r _ => 0 <= rep_Cancelled r <= Z.of_nat (length (rp_Repos o)) * rp_MaxCancelPerRepo o /\
                (rp_Execute o = false -> rep_Cancelled r = 0) /\
                (rep_Exit r = 0 \/ rep_Exit r = 1)) s.
Proof.
  intros o. unfold Reap. fold o.
  assert (0 < rp_MaxCancelPerRepo o) as Hmax.
  { unfold o. cbn. destruct (_ <=? 0) eqn:E; bsplit; [done|lia]. }
  destruct (rp_Repos o) as [|repo repos]; [cbn; split_and!; auto; lia|].
  eapply wpp_mono; [by apply wpp_reap_repos|]. intros r s' (? & ? & He). cbn in *.
  split_and!; [lia|lia|done|]. apply He. by left.
Qed.

(** Within a repository the runs that are cancelled are exactly the oldest
    candidates, oldest first, up to the cap: the candidates are sorted by creation
    time and the calls follow that order. *)
Theorem reap_cancels_oldest_first `{SortSlice} opts repo heads runs report s :
  rp_Execute opts = true -> 0 <= rp_MaxCancelPerRepo opts ->
  sn_repo s = repo -> sn_heads s = heads -> sn_runs s = runs -> sn_cancels s = [] ->
  let cs := candidates heads runs in
  StronglySorted (fun a b => rn_CreatedAt (cd_run a) <= rn_CreatedAt (cd_run b)) cs /\
  cs ≡ₚ omap (consider heads) runs /\
  wpp (reap_spec opts) (reap_loop opts repo heads (Z.of_nat (length cs)) 0 cs report)
    (fun _ s' => sn_cancels s' =
       (fun c => rn_ID (cd_run c)) <$> take (Z.to_nat (rp_MaxCancelPerRepo opts)) cs) s.
Proof.
  intros Hex Hmax <- <- <- Hnil cs. split_and!.
  - eapply StronglySorted_weaken; [apply sort_slice_sorted|].
    + unfold older. intros x y Hxy. bsplit. apply Z.ltb_ge. lia.
    + unfold older. intros x y z Hyx Hzy. bsplit. apply Z.ltb_ge. lia.
    + intros a b Hab. unfold older in Hab. by bsplit.
  - apply sort_slice_perm.
  - eapply wpp_mono; [apply (wpp_reap_loop opts); [done|apply candidates_stale|lia|by rewrite Hnil]|].
    intros r s' (_ & Hc & _). rewrite Hc, Hnil. unfold batch. rewrite Hex. cbn.
    by rewrite Z.sub_0_r.
Qed.

#[local] Existing Instance SortSlice_insertion.

Definition old_run : Run := mkRun 1 "acme/app" "gone" "aa" "pull_request" "queued" "ci" 10.
Definition new_run : Run := mkRun 2 "acme/app" "feature" "bb" "pull_request" "queued" "ci" 5.
Definition main_run : Run := mkRun 3 "acme/app" "main" "cc" "push" "queued" "ci" 1.
Definition demo_heads : gmap string string := {["feature" := "dd"]}.
Definition execute_one : ReapOptions := mkReapOptions ["acme/app"] true 1.

Lemma reap_cancels_oldest_first_witness :
  let cs := candidates demo_heads [old_run; new_run; main_run] in
  StronglySorted (fun a b => rn_CreatedAt (cd_run a) <= rn_CreatedAt (cd_run b)) cs /\
  cs ≡ₚ omap (consider demo_heads) [old_run; new_run; main_run] /\
  wpp (reap_spec execute_one)
    (reap_loop execute_one "acme/app" demo_heads (Z.of_nat (length cs)) 0 cs
       (mkReport true ["acme/app"] 3 0 0 [] 0))
    (fun _ s' => sn_cancels s' = (fun c => rn_ID (cd_run c)) <$> take (Z.to_nat 1) cs)
    (mkSeen "acme/app" demo_heads [old_run; new_run; main_run] []).
Proof.
  apply (reap_cancels_oldest_first execute_one "acme/app" demo_heads [old_run; new_run; main_run]
           (mkReport true ["acme/app"] 3 0 0 [] 0)
           (mkSeen "acme/app" demo_heads [old_run; new_run; main_run] [])); cbn; try reflexivity; lia.
Defined.

(** ** Two open pull requests from the same branch name *)

(** "Current-head runs of open PRs are always kept" does not hold when two open
    pull requests have the same head branch name, as those of two forks can: only the
    first one is remembered, and the run of the current head of the second is a
    candidate. *)
Theorem current_head_of_second_pr_is_reaped :
  let prs := [mkPR "patch-1" "1111"; mkPR "patch-1" "2222"] in
  let run := mkRun 9 "acme/app" "patch-1" "2222" "pull_request" "queued" "ci" 1 in
  mkPR (rn_Branch run) (rn_HeadSHA run) ∈ prs /\
  consider (open_map prs) run = Some (mkCandidate run "superseded-sha").
Proof. split; [set_solver|vm_compute; reflexivity]. Qed.

(** ** The report tells what happened *)

(** The cancellations GitHub accepted, refused because the run was over, and failed. *)
Record tally := mkTally { t_accepted : list Z; t_over : list Z; t_failed : list Z }.

Definition tally_spec : spec reapE tally := {|
  allowed B e s := True;
  answers B e s :=
    match e in reapE B return B -> tally -> Prop with
    | CancelFn _ id => fun b s' =>
        s' = match b with
             | None => mkTally (t_accepted s ++ [id]) (t_over s) (t_failed s)
             | Some e => if errors_Is e ErrRunAlreadyCompleted
                         then mkTally (t_accepted s) (t_over s ++ [id]) (t_failed s)
                         else mkTally (t_accepted s) (t_over s) (t_failed s ++ [id])
             end
    | _ => fun _ s' => s' = s
    end;
|}.

Definition failure (ev : Event) : Prop := ev_Severity ev = "warning" /\ ev_Event ev <> "reap-capped".

(** Some event reports run [id] with this severity, and with [reason] where given. *)
Definition reported (r : Report) (severity : string) (reason : option string) (id : Z) : Prop :=
  exists ev, ev ∈ rep_Events r /\ ev_Event ev = "run-reaped" /\ ev_RunID ev = id /\
    ev_Severity ev = severity /\ ev_Executed ev = true /\ (forall x, reason = Some x -> ev_Reason ev = x).

Definition accounts (r : Report) (t : tally) : Prop :=
  rep_Cancelled r = Z.of_nat (length (t_accepted t)) /\
  (rep_Exit r = 0 \/ rep_Exit r = 1) /\
  (rep_Exit r = 1 <-> exists ev, ev ∈ rep_Events r /\ failure ev) /\
  Forall (reported r "info" None) (t_accepted t) /\
  Forall (reported r "info" (Some "already-completed-ghost")) (t_over t) /\
  Forall (reported r "warning" (Some "cancel-failed")) (t_failed t).

Lemma reported_more r r' sev reason ids :
  (forall ev, ev ∈ rep_Events r -> ev ∈ rep_Events r') ->
  Forall (reported r sev reason) ids -> Forall (reported r' sev reason) ids.
Proof.
  intros Hsub HF. eapply Forall_impl; [exact HF|]. intros id (ev & Hin & Hev). exists ev. auto.
Qed.

Lemma Event_add ev r : ev_Severity ev <> "" -> rep_Events (add ev r) = rep_Events r ++ [ev].
Proof. intros Hs. unfold add. apply String.eqb_neq in Hs. by rewrite Hs. Qed.

(** Recording one more event: a failure raises the exit code, anything else keeps it. *)
Lemma accounts_add ev r t fails :
  ev_Severity ev <> "" -> (fails = true <-> failure ev) -> accounts r t ->
  accounts (if fails then raise_exit (add ev r) else add ev r) t.
Proof.
  intros Hs Hf (Hc & H01 & Hx & H1 & H2 & H3). unfold accounts.
  assert (forall r0, rep_Events r0 = rep_Events r ++ [ev] -> forall e, e ∈ rep_Events r -> e ∈ rep_Events r0) as Hsub
    by (intros r0 ->; set_solver).
  destruct fails; cbn [raise_exit rep_Exit rep_Events rep_Cancelled];
    (split_and!; [done| | |eapply reported_more; [|done]; apply Hsub..]);
    try (by apply (Event_add ev r)); cbn [add rep_Exit].
  - unfold maxInt. destruct H01 as [-> | ->]; by right.
  - rewrite Event_add by done. split; [|intros _; unfold maxInt; by destruct H01 as [-> | ->]].
    intros _. exists ev. split; [set_solver|]. by apply Hf.
  - done.
  - rewrite Event_add by done. rewrite Hx. split; [intros (e & ? & ?); exists e; set_solver|].
    intros (e & [Hin|Hin]%elem_of_app & Hfe); [by exists e|]. apply list_elem_of_singleton in Hin as ->.
    by apply Hf in Hfe.
Qed.

Lemma reported_new r ev severity reason :
  ev_Severity ev = severity -> severity <> "" -> ev_Event ev = "run-reaped" -> ev_Executed ev = true ->
  (forall x, reason = Some x -> ev_Reason ev = x) -> reported (add ev r) severity reason (ev_RunID ev).
Proof.
  intros Hs Hne He Hx Hr. exists ev. rewrite Event_add by congruence. split_and!; [set_solver|done..].
Qed.

Section accounting.
Context (opts : ReapOptions).

Lemma accounts_loop repo heads total i cs report t :
  accounts report t ->
  wpp tally_spec (reap_loop opts repo heads total i cs report) accounts t.
Proof.
  revert i report t. induction cs as [|c cs IH]; intros i report t Hacc; cbn [reap_loop]; [done|].
  assert (accounts (add_candidate report) t) as Hc by exact Hacc.
  set (ev := reaped_event repo heads (rp_Execute opts) c).
  destruct (_ <=? i).
  { apply wpp_ret. apply (accounts_add _ _ _ false); [done| |done]. split; [done|]. by intros [_ ?]. }
  assert (accounts (add ev (add_candidate report)) t) as Hev.
  { apply (accounts_add _ _ _ false); [done| |done]. split; [done|]. by intros [? _]. }
  destruct (rp_Execute opts) eqn:Hex; cbn [negb]; [|by apply IH].
  apply wpp_bind, wpp_call; [done|]. intros [e|] t' ->; cbv beta iota.
  - set (over := with_outcome "info" "already-completed-ghost" (err_text e) ev).
    set (failed := with_outcome "warning" "cancel-failed" (err_text e) ev).
    destruct (errors_Is e ErrRunAlreadyCompleted); apply IH.
    + destruct (accounts_add over _ t false ltac:(done) ltac:(by split; [|intros [? _]]) Hc) as (? & ? & ? & ? & ? & ?).
      unfold accounts. cbn [t_accepted t_over t_failed]. split_and!; try done.
      apply Forall_app. split; [done|]. apply Forall_singleton.
      apply (reported_new _ over); try done. by intros x [= <-].
    + destruct (accounts_add failed _ t true ltac:(done) ltac:(by split) Hc) as (? & ? & ? & ? & ? & ?).
      unfold accounts. cbn [t_accepted t_over t_failed]. split_and!; try done.
      apply Forall_app. split; [done|]. apply Forall_singleton.
      apply (reported_new _ failed); try done. by intros x [= <-].
  - apply IH. destruct Hev as (Hn & ? & ? & ? & ? & ?). unfold accounts. cbn [t_accepted t_over t_failed].
    split_and!; try done.
    + cbn in *. rewrite Hn, length_app. cbn. lia.
    + apply Forall_app. split; [done|]. apply Forall_singleton. by apply (reported_new _ ev).
Qed.

Lemma accounts_skipped repo reason detail r t :
  accounts r t -> accounts (raise_exit (add (skipped repo reason detail) r)) t.
Proof. intros Hr. by apply (accounts_add _ _ _ true). Qed.

Context `{SortSlice}.

Lemma accounts_reapRepo repo report t :
  accounts report t -> wpp tally_spec (reapRepo opts repo report) accounts t.
Proof.
  intros Hr. unfold reapRepo. apply wpp_bind, wpp_call; [done|].
  intros [heads|e] t1 ->; [|by apply wpp_ret, accounts_skipped]. apply wpp_bind, wpp_call; [done|].
  intros [runs|e] t2 ->; [|by apply wpp_ret, accounts_skipped]. cbv zeta. by apply accounts_loop.
Qed.

Lemma accounts_repos repos report t :
  accounts report t -> wpp tally_spec (reap_repos opts repos report) accounts t.
Proof.
  revert report t. induction repos as [|repo repos IH]; intros report t Hr; cbn [reap_repos]; [done|].
  destruct (ValidateRepo repo); [by apply IH, accounts_skipped|]. apply wpp_bind.
  eapply wpp_mono; [by apply accounts_reapRepo|]. intros r t' Ht. by apply IH.
Qed.
End accounting.

Lemma accounts_Reap `{SortSlice} opts :
  wpp tally_spec (Reap opts) accounts (mkTally [] [] []).
Proof.
  unfold Reap. cbv zeta. destruct (rp_Repos (reap_applyDefaults opts)) as [|repo repos].
  - apply wpp_ret. apply (accounts_skipped "" "no-repos" "" (mkReport _ [] 0 0 0 [] 0)).
    split_and!; try done; [by left|]. split; [done|]. by intros (ev & []%not_elem_of_nil & _).
  - apply accounts_repos. split_and!; try done; [by left|]. split; [done|].
    by intros (ev & []%not_elem_of_nil & _).
Qed.

(** The reaper on any options, whatever GitHub answers.  It only ever cancels a
    pull-request run, of the repository at hand and among those GitHub listed for it,
    whose branch has no open pull request or whose commit is not the current head of it;
    it does so only with [Execute], and at most [MaxCancelPerRepo] times per repository.
    Its report is an honest account of what GitHub answered: [Cancelled] is the number
    of accepted cancellations; every attempt, accepted, too late or failed, has its own
    event under the ID of its run with the severity of its outcome; and the exit code is
    1 exactly when some failure is among the events, a reached cap not being one. *)
Theorem reap_cancels_only_stale_runs `{SortSlice} opts s :
  let o := reap_applyDefaults opts in
  wpp (reap_spec o) (Reap opts)
    (fun r _ => 0 <= rep_Cancelled r <= Z.of_nat (length (rp_Repos o)) * rp_MaxCancelPerRepo o /\
                (rp_Execute o = false -> rep_Cancelled r = 0) /\
                (rep_Exit r = 0 \/ rep_Exit r = 1)) s /\
  wpp tally_spec (Reap opts) accounts (mkTally [] [] []).
Proof. split; [apply wpp_Reap|apply accounts_Reap]. Qed.
