(* ===== verification/Dockerlock.v ===== *)
(** * internal/dockerlock: the box-wide docker-heavy lock

    A holder takes a non-blocking flock and keeps a heartbeat file fresh; others
    wait, and remove a heartbeat that is provably stale.  Every injected function is
    an effect; the heartbeat goroutine is the program [heartbeat_tick], run once per
    tick.  [Marshal] and [Unmarshal] are [encoding/json] on [Heartbeat]. *)

From S2P Require Import Prelude GoStrings Prog Civm.

Local Open Scope string_scope.
Local Open Scope list_scope.
Local Open Scope Z_scope.

Definition defaultScope : string := "docker-heavy".
Definition heartbeatFileMode : Z := 416.  (* 0o640 *)
Definition lock_backoffStep : Z := 100 * Millisecond.
Definition backoffJitter : Z := 10 * Millisecond.
Definition staleHeartbeatMultiplier : Z := 3.

Record Heartbeat := mkHeartbeat {
  hb_PID : Z;
  hb_PIDStartTicks : Z;
  hb_Scope : string;
  hb_AcquiredAt : Z;
  hb_ExpiresAt : Z;
  hb_Repo : string;
  hb_RunID : string;
}.

#[global] Instance Heartbeat_eq_dec : EqDecision Heartbeat.
Proof. solve_decision. Defined.

Record LockOptions := mkLockOptions {
  lo_LockPath : string;
  lo_HeartbeatPath : string;
  lo_Scope : string;
  lo_WaitBudget : Z;
  lo_HoldBudget : Z;
  lo_HeartbeatEvery : Z;
  lo_Repo : string;
  lo_RunID : string;
}.

(** [Lock]: the file is the one open descriptor of the process on [LockPath]. *)
Record Lock := mkLock {
  lk_scope : string;
  lk_acquireAt : Z;
  lk_waited : Z;
  lk_released : bool;
  lk_over : bool;
}.

Inductive lockE : Type -> Type :=
  | NowFn : lockE Z
  | OpenFileFn (name : string) : lockE err_ret
  | FlockFn : lockE err_ret                 (* LOCK_EX|LOCK_NB on the open descriptor *)
  | UnlockFn : lockE err_ret                (* LOCK_UN *)
  | CloseFn : lockE err_ret
  | ReadFileFn (name : string) : lockE (result string)
  | WriteFileFn (name data : string) : lockE err_ret
  | RemoveFn (name : string) : lockE err_ret
  | MkdirAllFn (path : string) : lockE err_ret
  | PidAliveFn (pid : Z) : lockE bool
  | PidStartTicksFn (pid : Z) : lockE (result Z)
  | CtxErr : lockE err_ret
  | SleepCtx (d : Z) : lockE err_ret
  | RandInt64N (n : Z) : lockE Z.

Definition lock_applyDefaults (opts : LockOptions) : LockOptions :=
  let lockPath := if String.eqb (lo_LockPath opts) "" then DefaultDockerHeavyLockPath else lo_LockPath opts in
  mkLockOptions lockPath
    (if String.eqb (lo_HeartbeatPath opts) "" then lockPath +:+ ".hb" else lo_HeartbeatPath opts)
    (if String.eqb (lo_Scope opts) "" then defaultScope else lo_Scope opts)
    (if lo_WaitBudget opts <=? 0 then DefaultDockerHeavyLockWaitMinutes * Minute else lo_WaitBudget opts)
    (if lo_HoldBudget opts <=? 0 then DefaultDockerHeavyLockBudgetMinutes * Minute else lo_HoldBudget opts)
    (if lo_HeartbeatEvery opts <=? 0 then DefaultDockerHeavyHeartbeatSeconds * Second else lo_HeartbeatEvery opts)
    (lo_Repo opts) (lo_RunID opts).

Definition validateAbsPath (path field : string) : err_ret :=
  if contains_char "000" path then Some (Errorf ("dockerlock: " +:+ field +:+ " contem byte NUL"))
  else if negb (IsAbs (Clean path)) then Some (Errorf ("dockerlock: " +:+ field +:+ " deve ser caminho absoluto"))
  else None.

Definition isContention (err : error) : bool := errors_Is err EWOULDBLOCK.

Definition nextBackoff : prog lockE Z :=
  r ← call (RandInt64N (2 * backoffJitter + 1));
  let d := lock_backoffStep + (r - backoffJitter) in
  mret (if d <? 0 then lock_backoffStep else d).

Section dockerlock.
Context (Marshal : Heartbeat -> result string) (Unmarshal : string -> result Heartbeat).
(** [os.Getpid()]. *)
Context (pid : Z).

Definition writeHeartbeat (opts : LockOptions) (l : Lock) (now : Z) : prog lockE err_ret :=
  t ← call (PidStartTicksFn pid);
  match t with
  | Err e => mret (Some (Errorf_w "dockerlock: ler pid start-ticks" e))
  | Ok startTicks =>
      match Marshal (mkHeartbeat pid startTicks (lk_scope l) (lk_acquireAt l)
                       (now + int64 (staleHeartbeatMultiplier * lo_HeartbeatEvery opts))
                       (lo_Repo opts) (lo_RunID opts)) with
      | Err e => mret (Some (Errorf_w "dockerlock: serializar heartbeat" e))
      | Ok data =>
          e ← call (WriteFileFn (lo_HeartbeatPath opts) data);
          match e with
          | Some e => mret (Some (Errorf_w "dockerlock: gravar heartbeat" e))
          | None => mret None
          end
      end
  end.

(** A missing, empty or corrupt heartbeat is [Ok None]. *)
Definition readHeartbeat (opts : LockOptions) : prog lockE (result (option Heartbeat)) :=
  data ← call (ReadFileFn (lo_HeartbeatPath opts));
  match data with
  | Err e => if errors_Is e ErrNotExist then mret (Ok None)
             else mret (Err (Errorf_w "dockerlock: ler heartbeat" e))
  | Ok data =>
      if String.eqb (TrimSpace data) "" then mret (Ok None)
      else match Unmarshal data with
           | Err _ => mret (Ok None)
           | Ok hb => mret (Ok (Some hb))
           end
  end.

Definition isFresh (hb : Heartbeat) : prog lockE bool :=
  alive ← call (PidAliveFn (hb_PID hb));
  if negb alive then mret false
  else
    t ← call (PidStartTicksFn (hb_PID hb));
    match t with
    | Err _ => mret false
    | Ok startTicks =>
        if negb (startTicks =? hb_PIDStartTicks hb) then mret false
        else now ← call NowFn; mret (now <? hb_ExpiresAt hb)
    end.

Definition reclaimStale (opts : LockOptions) : prog lockE (result bool) :=
  read ← readHeartbeat opts;
  match read with
  | Err e => mret (Err e)
  | Ok hb =>
      fresh ← (match hb with Some hb => isFresh hb | None => mret false end);
      if (fresh : bool) then mret (Ok false)
      else
        e ← call (RemoveFn (lo_HeartbeatPath opts));
        match e with
        | Some e => if errors_Is e ErrNotExist then mret (Ok true)
                    else mret (Err (Errorf_w "dockerlock: reclaim heartbeat" e))
        | None => mret (Ok true)
        end
  end.

Definition ReclaimStale (opts : LockOptions) : prog lockE (result bool) :=
  reclaimStale (lock_applyDefaults opts).

Definition IsActive (opts : LockOptions) : prog lockE (result bool) :=
  let opts := lock_applyDefaults opts in
  read ← readHeartbeat opts;
  match read with
  | Err e => mret (Err e)
  | Ok None => mret (Ok false)
  | Ok (Some hb) => fresh ← isFresh hb; mret (Ok fresh)
  end.

Definition Holder (opts : LockOptions) : prog lockE string :=
  let opts := lock_applyDefaults opts in
  read ← readHeartbeat opts;
  match read with
  | Err _ | Ok None => mret ""
  | Ok (Some hb) =>
      fresh ← isFresh hb;
      mret (if negb fresh then ""
            else if negb (String.eqb (hb_Repo hb) "") && negb (String.eqb (hb_RunID hb) "")
            then hb_Repo hb +:+ "#" +:+ hb_RunID hb
            else if negb (String.eqb (hb_Repo hb) "") then hb_Repo hb
            else Itoa (hb_PID hb))
  end.

Definition unlockAndClose : prog lockE err_ret :=
  ferr ← call UnlockFn;
  cerr ← call CloseFn;
  match ferr, cerr with
  | Some e, _ => mret (Some (Errorf_w "dockerlock: unlock" e))
  | None, Some e => mret (Some (Errorf_w "dockerlock: fechar" e))
  | None, None => mret None
  end.

(** One attempt: [Ok None] on contention. *)
Definition tryAcquireOnce (opts : LockOptions) : prog lockE (result (option Lock)) :=
  ctxErr ← call CtxErr;
  match ctxErr with Some e => mret (Err e) | None =>
  opened ← call (OpenFileFn (lo_LockPath opts));
  match opened with Some e => mret (Err (Errorf_w "dockerlock: abrir" e)) | None =>
  locked ← call FlockFn;
  match locked with
  | Some err =>
      call CloseFn;;
      if isContention err then reclaimStale opts;; mret (Ok None)
      else mret (Err (Errorf_w "dockerlock: flock" err))
  | None =>
      now ← call NowFn;
      let l := mkLock (lo_Scope opts) now 0 false false in
      e ← writeHeartbeat opts l now;
      match e with
      | Some e => unlockAndClose;; mret (Err e)
      | None => mret (Ok (Some l))
      end
  end end end.

(** What [Acquire] returns; [LockOutOfFuel] only bounds the [for] loop. *)
Inductive lock_result := Locked (l : Lock) | LockFailed (e : error) | LockOutOfFuel.

Fixpoint lock_loop (fuel : nat) (opts : LockOptions) (start deadline : Z) : prog lockE lock_result :=
  match fuel with
  | O => mret LockOutOfFuel
  | S fuel =>
      r ← tryAcquireOnce opts;
      match r with
      | Err e => mret (LockFailed e)
      | Ok (Some l) =>
          now ← call NowFn;
          mret (Locked (mkLock (lk_scope l) (lk_acquireAt l) (now - start) (lk_released l) (lk_over l)))
      | Ok None =>
          now ← call NowFn;
          if negb (now <? deadline)
          then mret (LockFailed (Errorf_s ErrWaitBudgetExceeded "docker-heavy lock wait budget exceeded"))
          else
            d ← nextBackoff;
            slept ← call (SleepCtx d);
            match slept with
            | Some e => mret (LockFailed e)
            | None => lock_loop fuel opts start deadline
            end
      end
  end.

Definition Acquire (fuel : nat) (opts : LockOptions) : prog lockE lock_result :=
  let opts := lock_applyDefaults opts in
  match validateAbsPath (lo_LockPath opts) "lock-path" with
  | Some e => mret (LockFailed e)
  | None =>
      e ← call (MkdirAllFn (Dir (lo_LockPath opts)));
      match e with
      | Some e => mret (LockFailed (Errorf_w "dockerlock: criar dir" e))
      | None =>
          start ← call NowFn;
          lock_loop fuel opts start (start + lo_WaitBudget opts)
      end
  end.

(** One tick of the heartbeat goroutine. *)
Definition heartbeat_tick (opts : LockOptions) (l : Lock) : prog lockE Lock :=
  now ← call NowFn;
  let l := if lo_HoldBudget opts <=? now - lk_acquireAt l
           then mkLock (lk_scope l) (lk_acquireAt l) (lk_waited l) (lk_released l) true else l in
  writeHeartbeat opts l now;;
  mret l.

(** [Release]: the goroutine has been stopped when the file is removed. *)
Definition Release (opts : LockOptions) (l : Lock) : prog lockE (Lock * err_ret) :=
  if lk_released l then mret (l, None)
  else
    let l := mkLock (lk_scope l) (lk_acquireAt l) (lk_waited l) true (lk_over l) in
    removed ← call (RemoveFn (lo_HeartbeatPath opts));
    let firstErr := match removed with
                    | Some e => if errors_Is e ErrNotExist then None
                                else Some (Errorf_w "dockerlock: remover heartbeat" e)
                    | None => None
                    end in
    unlocked ← unlockAndClose;
    mret (l, match firstErr with Some e => Some e | None => unlocked end).
End dockerlock.
