(* ===== verification/DockerlockSafety.v ===== *)
(** * internal/dockerlock: properties

    Descriptor and lock discipline of [Acquire] and [Release] under any answers of
    the injected functions; the meaning of a heartbeat; and the interleaving in
    which a waiter removes the heartbeat of a live holder. *)

From stdpp Require Import relations.
From S2P Require Import Prelude GoStrings GoQuote Prog Civm Dockerlock.

Local Open Scope string_scope.
Local Open Scope list_scope.
Local Open Scope Z_scope.

(** ** Descriptor and lock *)

(** Whether the lock file is open in this process, and whether it is flocked. *)
Record fd_state := mkFd { fd_open : bool; fd_locked : bool }.

(** Closing the descriptor drops the flock, as the kernel does, even when [Close]
    reports an error.  The heartbeat may be written only under the flock. *)
Definition fd_spec : spec lockE fd_state := {|
  allowed B e s :=
    match e with
    | OpenFileFn _ => fd_open s = false
    | FlockFn => fd_open s = true /\ fd_locked s = false
    | UnlockFn | WriteFileFn _ _ => fd_open s = true /\ fd_locked s = true
    | CloseFn => fd_open s = true
    | _ => True
    end;
  answers B e s :=
    match e in lockE B return B -> fd_state -> Prop with
    | OpenFileFn _ => fun b s' => s' = match b with None => mkFd true false | Some _ => s end
    | FlockFn => fun b s' => s' = match b with None => mkFd true true | Some _ => s end
    | UnlockFn => fun b s' => s' = match b with None => mkFd (fd_open s) false | Some _ => s end
    | CloseFn => fun _ s' => s' = mkFd false false
    | _ => fun _ s' => s' = s
    end;
|}.

(** Effects that touch neither. *)
Definition neutral (B : Type) (e : lockE B) : Prop :=
  match e with
  | OpenFileFn _ | FlockFn | UnlockFn | CloseFn | WriteFileFn _ _ => False
  | _ => True
  end.

Lemma wpp_neutral {A} (m : prog lockE A) s :
  only neutral m -> wpp fd_spec m (fun _ s' => s = s') s.
Proof.
  intros Hm. eapply (only_wpp _ _ (eq s)); [exact Hm| |done]. intros B e s' He <-.
  split; [by destruct e|]. intros b s'. by destruct e.
Qed.

(** One call under [fd_spec], its answer and the new state substituted. *)
Ltac fd_call := apply wpp_bind, wpp_call; [done|]; intros ? ? ->; cbv beta iota.

Section discipline.
Context (Marshal : Heartbeat -> result string) (Unmarshal : string -> result Heartbeat) (pid : Z).

Lemma only_readHeartbeat opts : only neutral (readHeartbeat Unmarshal opts).
Proof. unfold readHeartbeat. repeat only_step. Qed.

Lemma only_isFresh hb : only neutral (isFresh hb).
Proof. unfold isFresh. repeat only_step. Qed.

Lemma only_reclaimStale opts : only neutral (reclaimStale Unmarshal opts).
Proof.
  unfold reclaimStale. repeat first [only_step | apply only_readHeartbeat | apply only_isFresh].
Qed.

Lemma wpp_unlockAndClose s :
  fd_open s = true -> fd_locked s = true -> wpp fd_spec unlockAndClose (fun _ s' => s' = mkFd false false) s.
Proof.
  intros Ho Hl. unfold unlockAndClose. fd_call.
  apply wpp_bind, wpp_call; [by destruct b|]. intros c s' ->. by destruct b, c.
Qed.

Lemma wpp_writeHeartbeat opts l now :
  wpp fd_spec (writeHeartbeat Marshal pid opts l now) (fun _ s' => s' = mkFd true true) (mkFd true true).
Proof.
  unfold writeHeartbeat. fd_call. destruct b as [ticks|]; [|done].
  destruct (Marshal _) as [data|]; [|done]. fd_call. by destruct b.
Qed.

Lemma wpp_tryAcquireOnce opts :
  wpp fd_spec (tryAcquireOnce Marshal Unmarshal pid opts)
    (fun r s' => match r with
                 | Ok (Some l) => lk_released l = false /\ s' = mkFd true true
                 | _ => s' = mkFd false false
                 end) (mkFd false false).
Proof.
  unfold tryAcquireOnce. fd_call. destruct b; [done|]. fd_call. destruct b; [done|]. fd_call.
  destruct b as [e|].
  - fd_call. destruct (isContention e); [|done]. apply wpp_bind.
    eapply wpp_mono; [apply wpp_neutral, only_reclaimStale|]. by intros _ s' <-.
  - fd_call. apply wpp_bind. eapply wpp_mono; [apply wpp_writeHeartbeat|].
    intros [e|] s' ->; [|done]. apply wpp_bind.
    eapply wpp_mono; [by apply wpp_unlockAndClose|]. by intros _ s' ->.
Qed.

Definition lock_outcome (r : lock_result) (s : fd_state) : Prop :=
  match r with
  | Locked l => lk_released l = false /\ s = mkFd true true
  | LockFailed _ | LockOutOfFuel => s = mkFd false false
  end.

Lemma wpp_lock_loop fuel opts start deadline :
  wpp fd_spec (lock_loop Marshal Unmarshal pid fuel opts start deadline) lock_outcome (mkFd false false).
Proof.
  induction fuel as [|fuel IH]; cbn [lock_loop]; [done|]. apply wpp_bind.
  eapply wpp_mono; [apply wpp_tryAcquireOnce|]. intros [[l|]|e] s'; [intros [Hl ->]|intros ->|intros ->; done].
  - by fd_call.
  - fd_call. destruct (negb _); [done|]. unfold nextBackoff. apply wpp_bind. fd_call.
    apply wpp_ret. fd_call. destruct b1; [done|exact IH].
Qed.

Lemma wpp_lock_Acquire fuel opts :
  wpp fd_spec (Acquire Marshal Unmarshal pid fuel opts) lock_outcome (mkFd false false).
Proof.
  unfold Acquire. cbv zeta. destruct (validateAbsPath _ _); [done|]. fd_call. destruct b; [done|].
  fd_call. apply wpp_lock_loop.
Qed.

Lemma wpp_lock_Release opts l :
  lk_released l = false ->
  wpp fd_spec (Release opts l)
    (fun r s' => s' = mkFd false false /\ Release opts (fst r) = mret (fst r, None)) (mkFd true true).
Proof.
  intros Hl. unfold Release at 1. rewrite Hl. fd_call. apply wpp_bind.
  eapply wpp_mono; [by apply wpp_unlockAndClose|]. by intros e s' ->.
Qed.
End discipline.

(** A holder's life: [Acquire], [n] ticks of the heartbeat goroutine, [Release],
    and a second [Release]. *)
Fixpoint ticks (Marshal : Heartbeat -> result string) (pid : Z) (opts : LockOptions) (n : nat) (l : Lock)
    : prog lockE Lock :=
  match n with
  | O => mret l
  | S n => l ← heartbeat_tick Marshal pid opts l; ticks Marshal pid opts n l
  end.

Definition hold Marshal Unmarshal (pid : Z) (fuel n : nat) (opts : LockOptions) : prog lockE (option err_ret) :=
  r ← Acquire Marshal Unmarshal pid fuel opts;
  match r with
  | Locked l =>
      l ← ticks Marshal pid (lock_applyDefaults opts) n l;
      released ← Release (lock_applyDefaults opts) l;
      again ← Release (lock_applyDefaults opts) (fst released);
      mret (Some (snd again))
  | LockFailed _ | LockOutOfFuel => mret None
  end.

Lemma wpp_ticks Marshal pid opts n l :
  lk_released l = false ->
  wpp fd_spec (ticks Marshal pid opts n l)
    (fun l' s' => lk_released l' = false /\ s' = mkFd true true) (mkFd true true).
Proof.
  revert l. induction n as [|n IH]; intros l Hl; cbn [ticks]; [done|].
  unfold heartbeat_tick. apply wpp_bind. fd_call. apply wpp_bind.
  eapply wpp_mono; [apply wpp_writeHeartbeat|]. intros _ s' ->. apply wpp_ret, IH. by destruct (_ <=? _).
Qed.

(** Lock discipline, whatever the injected functions answer: the lock file is
    never opened twice, a flock is only asked for on an open unlocked descriptor,
    the heartbeat is written only under the flock, [Acquire] returns a lock exactly
    when this process holds the flock, every error path and every release leaves
    the descriptor closed and the flock dropped, and a second [Release] is a no-op
    that reports success. *)
Theorem lock_is_never_leaked Marshal Unmarshal pid fuel n opts :
  wpp fd_spec (Acquire Marshal Unmarshal pid fuel opts)
    (fun r s => match r with
                | Locked _ => s = mkFd true true
                | LockFailed _ | LockOutOfFuel => s = mkFd false false
                end) (mkFd false false) /\
  wpp fd_spec (hold Marshal Unmarshal pid fuel n opts)
    (fun r s => s = mkFd false false /\ (forall e, r = Some e -> e = None)) (mkFd false false).
Proof.
  split.
  - eapply wpp_mono; [apply wpp_lock_Acquire|]. by intros [l|e|] s; [intros [_ ->]|..].
  - unfold hold. apply wpp_bind. eapply wpp_mono; [apply wpp_lock_Acquire|].
    intros [l|e|] s; [intros [Hl ->]|by intros ->..]. apply wpp_bind.
    eapply wpp_mono; [by apply wpp_ticks|]. intros l' s' [Hl' ->]. apply wpp_bind.
    eapply wpp_mono; [by apply wpp_lock_Release|]. intros r s' [-> Hr]. rewrite Hr.
    apply wpp_ret. split; [done|]. naive_solver.
Qed.

(** ** What a heartbeat means *)

(** A machine at rest: its files, its clock and its processes. *)
Record machine := mkMachine {
  m_files : gmap string string;
  m_now : Z;
  m_ticks : gmap Z Z;       (* the live processes with their start ticks *)
}.

Definition set_files (m : machine) (fs : gmap string string) : machine :=
  mkMachine fs (m_now m) (m_ticks m).

Definition not_exist : error := Errorf_s ErrNotExist "no such file or directory".

Definition on_machine (B : Type) (e : lockE B) : St machine B := fun m =>
  match e in lockE B return B * machine with
  | NowFn => (m_now m, m)
  | ReadFileFn f => (match m_files m !! f with Some d => Ok d | None => Err not_exist end, m)
  | WriteFileFn f d => (None, set_files m (<[f := d]> (m_files m)))
  | RemoveFn f => match m_files m !! f with
                  | Some _ => (None, set_files m (delete f (m_files m)))
                  | None => (Some not_exist, m)
                  end
  | PidAliveFn p => (bool_decide (is_Some (m_ticks m !! p)), m)
  | PidStartTicksFn p => (match m_ticks m !! p with Some t => Ok t | None => Err not_exist end, m)
  | RandInt64N _ => (0, m)
  | OpenFileFn _ | FlockFn | UnlockFn | CloseFn | MkdirAllFn _ | CtxErr | SleepCtx _ => (None, m)
  end.

Section meaning.
Context (Marshal : Heartbeat -> result string) (Unmarshal : string -> result Heartbeat) (pid : Z).

(** The heartbeat on the machine, when it parses. *)
Definition current (opts : LockOptions) (m : machine) : option Heartbeat :=
  d ← m_files m !! lo_HeartbeatPath opts;
  if String.eqb (TrimSpace d) "" then None
  else match Unmarshal d with Ok hb => Some hb | Err _ => None end.

(** Its process is the one that wrote it, and it has not expired. *)
Definition hb_live (hb : Heartbeat) (m : machine) : bool :=
  bool_decide (m_ticks m !! hb_PID hb = Some (hb_PIDStartTicks hb)) && (m_now m <? hb_ExpiresAt hb).

Definition holder_live (opts : LockOptions) (m : machine) : bool :=
  match current opts m with Some hb => hb_live hb m | None => false end.

Lemma interp_readHeartbeat opts m :
  interp on_machine (readHeartbeat Unmarshal opts) m = (Ok (current opts m), m).
Proof.
  unfold readHeartbeat, current. rewrite prog_bind_call. cbn [interp on_machine].
  destruct (m_files m !! _) as [d|]; cbn; [|done]. destruct (String.eqb _ _); [done|].
  by destruct (Unmarshal d).
Qed.

Lemma interp_isFresh hb m : interp on_machine (isFresh hb) m = (hb_live hb m, m).
Proof.
  unfold isFresh, hb_live. rewrite prog_bind_call. cbn [interp on_machine].
  destruct (m_ticks m !! hb_PID hb) as [t|] eqn:Ht; cbn; [|by rewrite bool_decide_false].
  rewrite Ht. cbn. destruct (t =? hb_PIDStartTicks hb) eqn:E; cbn; bsplit.
  - subst. by rewrite bool_decide_true.
  - rewrite bool_decide_false; [done|]. by intros [= ->].
Qed.

Lemma interp_reclaimStale opts m :
  interp on_machine (reclaimStale Unmarshal opts) m =
    (Ok (negb (holder_live opts m)),
     if holder_live opts m then m else set_files m (delete (lo_HeartbeatPath opts) (m_files m))).
Proof.
  unfold reclaimStale. rewrite interp_bind, interp_readHeartbeat, interp_bind.
  assert (interp on_machine
            (match current opts m with Some hb => isFresh hb | None => mret false end) m =
          (holder_live opts m, m)) as ->.
  { unfold holder_live. destruct (current opts m); [apply interp_isFresh|done]. }
  destruct (holder_live opts m); [done|]. rewrite prog_bind_call. cbn [interp on_machine].
  destruct (m_files m !! _) eqn:E; cbn; [done|]. rewrite delete_id by done. by destruct m.
Qed.

Lemma interp_IsActive opts m :
  interp on_machine (IsActive Unmarshal opts) m = (Ok (holder_live (lock_applyDefaults opts) m), m).
Proof.
  unfold IsActive. cbv zeta. rewrite interp_bind, interp_readHeartbeat. unfold holder_live.
  destruct (current _ m); [|done]. by rewrite interp_bind, interp_isFresh.
Qed.

Lemma interp_writeHeartbeat opts l now t data m :
  m_ticks m !! pid = Some t ->
  Marshal (mkHeartbeat pid t (lk_scope l) (lk_acquireAt l)
             (now + int64 (staleHeartbeatMultiplier * lo_HeartbeatEvery opts))
             (lo_Repo opts) (lo_RunID opts)) = Ok data ->
  interp on_machine (writeHeartbeat Marshal pid opts l now) m =
    (None, set_files m (<[lo_HeartbeatPath opts := data]> (m_files m))).
Proof.
  intros Ht Hd. unfold writeHeartbeat. rewrite prog_bind_call. cbn [interp on_machine].
  rewrite Ht, Hd. done.
Qed.
End meaning.

(** On a machine at rest [ReclaimStale] and [IsActive] are two views of one fact. *)
Lemma reclaim_at_rest Unmarshal opts m :
  let o := lock_applyDefaults opts in
  let live := holder_live Unmarshal o m in
  let '(reclaimed, m') := interp on_machine (ReclaimStale Unmarshal opts) m in
  interp on_machine (IsActive Unmarshal opts) m = (Ok live, m) /\
  reclaimed = Ok (negb live) /\
  m_files m' = (if live then m_files m else delete (lo_HeartbeatPath o) (m_files m)) /\
  interp on_machine (IsActive Unmarshal opts) m' = (Ok live, m') /\
  interp on_machine (ReclaimStale Unmarshal opts) m' = (Ok (negb live), m').
Proof.
  intros o live. unfold ReclaimStale. fold o. rewrite interp_reclaimStale. fold live. cbv iota beta.
  rewrite !interp_IsActive, interp_reclaimStale. fold o live.
  destruct live eqn:Hl; cbn [negb]; [subst live; rewrite Hl; by split_and!|].
  assert (holder_live Unmarshal o (set_files m (delete (lo_HeartbeatPath o) (m_files m))) = false) as ->.
  { unfold holder_live, current. cbn. by rewrite lookup_delete_eq. }
  split_and!; [done..|]. unfold set_files. cbn. by rewrite delete_delete_eq.
Qed.

(** What [Holder] reports of a live heartbeat of [opts]: the names as JSON keeps them,
    which are the names themselves when they are UTF-8. *)
Definition holder_name (opts : LockOptions) (pid : Z) : string :=
  let repo := coerce_utf8 (lo_Repo opts) in
  if String.eqb (lo_Repo opts) "" then Itoa pid
  else if String.eqb (lo_RunID opts) "" then repo
  else repo +:+ "#" +:+ coerce_utf8 (lo_RunID opts).

(** The times [time.Time.MarshalJSON] accepts, years 0 to 9999, in nanoseconds since
    1970 (a zone may move them by less than a day). *)
Definition json_time (ns : Z) : Prop :=
  (-719527) * 86400 * Second <= ns <= 2932895 * 86400 * Second.

(** What [encoding/json] writes of a heartbeat without an error: its numbers fit the
    fields [int] and [uint64], its times are within range. *)
Definition json_heartbeat (hb : Heartbeat) : Prop :=
  min_int64 <= hb_PID hb <= max_int64 /\ 0 <= hb_PIDStartTicks hb < 2 ^ 64 /\
  json_time (hb_AcquiredAt hb) /\ json_time (hb_ExpiresAt hb).

(** What is left of it: strings are coerced to UTF-8. *)
Definition coerced_heartbeat (hb : Heartbeat) : Heartbeat :=
  mkHeartbeat (hb_PID hb) (hb_PIDStartTicks hb) (coerce_utf8 (hb_Scope hb)) (hb_AcquiredAt hb)
    (hb_ExpiresAt hb) (coerce_utf8 (hb_Repo hb)) (coerce_utf8 (hb_RunID hb)).

(** [json.Marshal] and [json.Unmarshal] of a heartbeat. *)
Definition json_roundtrip (Marshal : Heartbeat -> result string) (Unmarshal : string -> result Heartbeat) : Prop :=
  forall hb, json_heartbeat hb ->
    exists d, Marshal hb = Ok d /\ TrimSpace d <> "" /\ Unmarshal d = Ok (coerced_heartbeat hb).

(** A tick at [now] whose heartbeat can be written. *)
Definition tick_range (opts : LockOptions) (pid t : Z) (l : Lock) (now : Z) : Prop :=
  min_int64 <= pid <= max_int64 /\ 0 <= t < 2 ^ 64 /\ json_time (lk_acquireAt l) /\
  json_time now /\ json_time (now + 3 * lo_HeartbeatEvery opts).

Lemma interp_heartbeat_tick Marshal pid opts l t data m :
  m_ticks m !! pid = Some t ->
  Marshal (mkHeartbeat pid t (lk_scope l) (lk_acquireAt l)
             (m_now m + int64 (staleHeartbeatMultiplier * lo_HeartbeatEvery opts))
             (lo_Repo opts) (lo_RunID opts)) = Ok data ->
  snd (interp on_machine (heartbeat_tick Marshal pid opts l) m) =
    set_files m (<[lo_HeartbeatPath opts := data]> (m_files m)).
Proof.
  intros Ht Hd. unfold heartbeat_tick. rewrite prog_bind_call. cbn [interp on_machine].
  rewrite interp_bind. erewrite interp_writeHeartbeat; [reflexivity|done|]. by destruct (_ <=? _).
Qed.

Section after_tick.
Context (Marshal : Heartbeat -> result string) (Unmarshal : string -> result Heartbeat) (pid t : Z).
Context (Hjson : json_roundtrip Marshal Unmarshal).

(** The heartbeat a machine holds after a tick. *)
Lemma tick_current opts l m m' :
  0 < lo_HeartbeatEvery opts -> 3 * lo_HeartbeatEvery opts <= max_int64 ->
  tick_range opts pid t l (m_now m) -> m_ticks m !! pid = Some t ->
  m_files m' !! lo_HeartbeatPath opts =
    m_files (snd (interp on_machine (heartbeat_tick Marshal pid opts l) m)) !! lo_HeartbeatPath opts ->
  current Unmarshal opts m' =
    Some (mkHeartbeat pid t (coerce_utf8 (lk_scope l)) (lk_acquireAt l)
            (m_now m + 3 * lo_HeartbeatEvery opts)
            (coerce_utf8 (lo_Repo opts)) (coerce_utf8 (lo_RunID opts))).
Proof.
  intros Hpos Hmax (Hp & Hti & Ha & Hn & He) Ht.
  assert (int64 (staleHeartbeatMultiplier * lo_HeartbeatEvery opts) = 3 * lo_HeartbeatEvery opts) as Hi
    by (apply int64_id; unfold min_int64, staleHeartbeatMultiplier in *; lia).
  destruct (Hjson (mkHeartbeat pid t (lk_scope l) (lk_acquireAt l)
    (m_now m + int64 (staleHeartbeatMultiplier * lo_HeartbeatEvery opts))
    (lo_Repo opts) (lo_RunID opts))) as (d & Hd & Hne & Hu); [by rewrite Hi|].
  erewrite interp_heartbeat_tick by done. cbn. rewrite lookup_insert_eq. intros Hf.
  unfold current. rewrite Hf. cbn. rewrite Hu. apply String.eqb_neq in Hne. rewrite Hne.
  unfold coerced_heartbeat. cbn [hb_ExpiresAt]. by rewrite Hi.
Qed.
End after_tick.

Lemma coerce_eqb_empty s : String.eqb (coerce_utf8 s) "" = String.eqb s "".
Proof.
  destruct (String.eqb_spec s "") as [->|Hs]; [done|]. apply String.eqb_neq. by rewrite coerce_utf8_empty.
Qed.

(** A tick keeps its holder active for three intervals. *)
Lemma tick_at_rest Marshal Unmarshal pid t opts l m m' :
  let o := lock_applyDefaults opts in
  let before := m_now m' <? m_now m + 3 * lo_HeartbeatEvery o in
  json_roundtrip Marshal Unmarshal -> 3 * lo_HeartbeatEvery o <= max_int64 ->
  tick_range o pid t l (m_now m) -> m_ticks m !! pid = Some t -> m_ticks m' !! pid = Some t ->
  m_files m' !! lo_HeartbeatPath o =
    m_files (snd (interp on_machine (heartbeat_tick Marshal pid o l) m)) !! lo_HeartbeatPath o ->
  interp on_machine (IsActive Unmarshal opts) m' = (Ok before, m') /\
  (before = true -> interp on_machine (ReclaimStale Unmarshal opts) m' = (Ok false, m')) /\
  interp on_machine (Holder Unmarshal opts) m' = (if before then holder_name o pid else "", m').
Proof.
  intros o before Hjson Hmax Hrange Ht Ht' Hf. assert (0 < lo_HeartbeatEvery o) as Hpos.
  { subst o. unfold lock_applyDefaults. cbn. destruct (lo_HeartbeatEvery opts <=? 0) eqn:E; bsplit; [done|lia]. }
  pose proof (tick_current _ _ _ _ Hjson _ _ _ _ Hpos Hmax Hrange Ht Hf) as Hc.
  assert (holder_live Unmarshal o m' = before) as Hl.
  { unfold holder_live. rewrite Hc. unfold hb_live. cbn. by rewrite bool_decide_true. }
  rewrite interp_IsActive. unfold ReclaimStale. fold o. rewrite interp_reclaimStale, Hl.
  split_and!; [done|by intros ->|]. unfold Holder. cbv zeta. fold o.
  rewrite interp_bind, interp_readHeartbeat, Hc, interp_bind, interp_isFresh.
  unfold holder_live in Hl. rewrite Hc in Hl. rewrite Hl. destruct before; [|done]. cbn [negb].
  unfold holder_name. cbn [hb_Repo hb_RunID hb_PID]. rewrite !coerce_eqb_empty.
  by destruct (String.eqb (lo_Repo o) ""), (String.eqb (lo_RunID o) "").
Qed.

(** C40. What a heartbeat means.  On a machine at rest [IsActive] changes nothing and says
    whether the heartbeat parses, names a process alive with the recorded start ticks and
    has not expired; [ReclaimStale] leaves every file alone when it does, and otherwise
    removes exactly the heartbeat file, so that a second call and [IsActive] find nothing.
    A tick of the heartbeat goroutine keeps its holder active for three heartbeat
    intervals and no longer, whatever else happens to the other files and processes:
    while the process is alive and the heartbeat file is as the tick left it, [IsActive]
    is true exactly before that deadline, [ReclaimStale] then touches nothing, and
    [Holder] names the holder, each byte that is no UTF-8 replaced by U+FFFD.  The times
    of the tick and its deadline lie in the years 0 to 9999, which JSON can write. *)
Theorem heartbeat_decides_the_holder Marshal Unmarshal opts :
  let o := lock_applyDefaults opts in
  json_roundtrip Marshal Unmarshal -> 3 * lo_HeartbeatEvery o <= max_int64 ->
  (forall m, let live := holder_live Unmarshal o m in
     let '(reclaimed, m') := interp on_machine (ReclaimStale Unmarshal opts) m in
     interp on_machine (IsActive Unmarshal opts) m = (Ok live, m) /\
     reclaimed = Ok (negb live) /\
     m_files m' = (if live then m_files m else delete (lo_HeartbeatPath o) (m_files m)) /\
     interp on_machine (IsActive Unmarshal opts) m' = (Ok live, m') /\
     interp on_machine (ReclaimStale Unmarshal opts) m' = (Ok (negb live), m')) /\
  (forall pid t l m m', let before := m_now m' <? m_now m + 3 * lo_HeartbeatEvery o in
     tick_range o pid t l (m_now m) -> m_ticks m !! pid = Some t -> m_ticks m' !! pid = Some t ->
     m_files m' !! lo_HeartbeatPath o =
       m_files (snd (interp on_machine (heartbeat_tick Marshal pid o l) m)) !! lo_HeartbeatPath o ->
     interp on_machine (IsActive Unmarshal opts) m' = (Ok before, m') /\
     (before = true -> interp on_machine (ReclaimStale Unmarshal opts) m' = (Ok false, m')) /\
     interp on_machine (Holder Unmarshal opts) m' = (if before then holder_name o pid else "", m')).
Proof.
  intros o Hjson Hmax. split; [intros m; apply reclaim_at_rest|].
  intros pid t l m m' before. by apply tick_at_rest.
Qed.

(** ** A concrete encoding of heartbeats *)

Definition hb_tuple (hb : Heartbeat) : Z * Z * string * Z * Z * string * string :=
  (hb_PID hb, hb_PIDStartTicks hb, hb_Scope hb, hb_AcquiredAt hb, hb_ExpiresAt hb, hb_Repo hb, hb_RunID hb).
Definition tuple_hb (t : Z * Z * string * Z * Z * string * string) : Heartbeat :=
  let '(a, b, c, d, e, f, g) := t in mkHeartbeat a b c d e f g.

(** A decimal number that encodes the record, its strings coerced to UTF-8; a time out of
    range is an error. *)
Definition json_time_b (ns : Z) : bool :=
  ((-719527) * 86400 * Second <=? ns) && (ns <=? 2932895 * 86400 * Second).
Definition hb_number (hb : Heartbeat) : result string :=
  if json_time_b (hb_AcquiredAt hb) && json_time_b (hb_ExpiresAt hb)
  then Ok (Itoa (Z.pos (encode (hb_tuple (coerced_heartbeat hb)))))
  else Err (Errorf "Time.MarshalJSON: year outside of range [0,9999]").
Definition number_hb (s : string) : result Heartbeat :=
  match parse_digits s with
  | Some (Z.pos p) => match decode (A := Z * Z * string * Z * Z * string * string) p with
                      | Some t => Ok (tuple_hb t)
                      | None => Err (Errorf "invalid character")
                      end
  | _ => Err (Errorf "invalid character")
  end.

Lemma json_time_b_spec ns : json_time ns -> json_time_b ns = true.
Proof. intros [? ?]. apply andb_true_intro. split; by apply Z.leb_le. Qed.

Lemma hb_number_roundtrip : json_roundtrip hb_number number_hb.
Proof.
  intros hb (_ & _ & Ha & He). unfold hb_number. rewrite !json_time_b_spec by done.
  eexists. split; [reflexivity|]. split; [apply TrimSpace_Itoa; lia|].
  unfold number_hb. rewrite parse_digits_Itoa by lia. rewrite decode_encode. by destruct hb.
Qed.

Definition lock_demo : LockOptions := mkLockOptions "" "" "" 0 0 0 "o/r" "17".
Definition demo_lock : Lock := mkLock "docker-heavy" 1000 0 false false.
Definition demo_machine : machine := mkMachine ∅ 2000 {[ 5 := 77 ]}.
Definition ticked : machine :=
  snd (interp on_machine (heartbeat_tick hb_number 5 (lock_applyDefaults lock_demo) demo_lock) demo_machine).

(** Twenty seconds after a tick, next to a new process. *)
Definition later_machine : machine :=
  mkMachine (m_files ticked) (2000 + 20 * Second) {[ 5 := 77; 6 := 78 ]}.

Lemma heartbeat_decides_the_holder_witness :
  interp on_machine (IsActive number_hb lock_demo) later_machine = (Ok true, later_machine) /\
  (true = true -> interp on_machine (ReclaimStale number_hb lock_demo) later_machine = (Ok false, later_machine)) /\
  interp on_machine (Holder number_hb lock_demo) later_machine = ("o/r#17", later_machine).
Proof.
  apply (proj2 (heartbeat_decides_the_holder hb_number number_hb lock_demo hb_number_roundtrip
                  ltac:(vm_compute; discriminate)) 5 77 demo_lock demo_machine later_machine);
    [repeat split; vm_compute; congruence|reflexivity..].
Defined.

(** ** The race between [reclaimStale] and a new holder *)

(** The machine shared by the processes: who holds the flock, and the files. *)
Record shared := mkShared { sh_holder : option Z; sh_machine : machine }.

Definition on_shared (p : Z) (B : Type) (e : lockE B) : St shared B := fun g =>
  match e in lockE B return B * shared with
  | FlockFn =>
      match sh_holder g with
      | None => (None, mkShared (Some p) (sh_machine g))
      | Some _ => (Some (Errorf_s EWOULDBLOCK "resource temporarily unavailable"), g)
      end
  | UnlockFn | CloseFn =>
      (None, mkShared (if decide (sh_holder g = Some p) then None else sh_holder g) (sh_machine g))
  | e' => let '(b, m) := on_machine _ e' (sh_machine g) in (b, mkShared (sh_holder g) m)
  end.

Definition shared_sem (p : Z) (B : Type) (e : lockE B) (g : shared) (b : B) (g' : shared) : Prop :=
  on_shared p B e g = (b, g').

Abbreviation lock_pool := (gmap Z (prog lockE lock_result)).

(** Let [p] make its next call. *)
Definition turn (c : lock_pool * shared) (p : Z) : lock_pool * shared :=
  match fst c !! p with
  | Some (Call e k) => let '(b, g) := on_shared p _ e (snd c) in (<[p := k b]> (fst c), g)
  | _ => c
  end.

Lemma turns_reachable sched c : rtc (pstep shared_sem) c (foldl turn c sched).
Proof.
  revert c. induction sched as [|p sched IH]; intros c; cbn; [done|].
  transitivity (turn c p); [|apply IH]. destruct c as [pool g]. unfold turn. cbn.
  destruct (pool !! p) as [[a|B e k]|] eqn:Hp; [done| |done].
  destruct (on_shared p B e g) as [b g'] eqn:Hs. by apply rtc_once, (pstep_call _ p B e).
Qed.

Definition plain_json (hb : Heartbeat) : result string := Ok (hb_Scope hb).

(** Processes 1 and 2 ask for the lock on an idle machine. *)
Definition two_callers (Unmarshal : string -> result Heartbeat) : lock_pool * shared :=
  ({[ 1 := Acquire plain_json Unmarshal 1 2 lock_demo; 2 := Acquire plain_json Unmarshal 2 2 lock_demo ]},
   mkShared None (mkMachine ∅ 5000 {[ 1 := 71; 2 := 72 ]})).

(** Process 2 takes the flock; 1 meets contention and reads the missing heartbeat;
    2 writes its heartbeat and returns; 1 removes it. *)
Definition race : list Z :=
  [2; 2; 2; 2; 2] ++ [1; 1; 1; 1; 1; 1; 1] ++ [2; 2; 2; 2] ++ [1].

(** The check and the removal in [reclaimStale] are not atomic: two processes
    that only call [Acquire] on an idle machine can reach a state in which process 2
    has acquired the lock, is alive and holds the flock, its heartbeat just written,
    and yet its heartbeat file is gone, removed by process 1, and [IsActive] reports
    that nobody holds the lock. *)
Theorem live_heartbeat_can_be_reclaimed Unmarshal :
  exists (c : lock_pool * shared) l,
    rtc (pstep shared_sem) (two_callers Unmarshal) c /\
    fst c !! 2 = Some (Done (Locked l)) /\ lk_released l = false /\
    sh_holder (snd c) = Some 2 /\ m_ticks (sh_machine (snd c)) !! 2 = Some 72 /\
    m_files (sh_machine (snd (foldl turn (two_callers Unmarshal) (take 16 race))))
      !! lo_HeartbeatPath (lock_applyDefaults lock_demo) <> None /\
    m_files (sh_machine (snd c)) !! lo_HeartbeatPath (lock_applyDefaults lock_demo) = None /\
    fst (interp on_machine (IsActive Unmarshal lock_demo) (sh_machine (snd c))) = Ok false.
Proof.
  exists (foldl turn (two_callers Unmarshal) race).
  eexists. split; [apply turns_reachable|]. split_and!; try (vm_compute; reflexivity).
  vm_compute. discriminate.
Qed.
