(* ===== verification/LockCommand.v ===== *)
(** * civmctl lock (cmd/civmctl/lock.go)

    [runLockAcquire] and [runLockRelease] are programs over the effects of the docker-heavy
    lock.  [runLockExec] is one too up to its inner command; from then on the main goroutine
    and the one that waits for a signal share the lock and the variable [done] of the
    closure of [releaseFunc], which nothing guards: [lock_move] is one step of one of them.
    Events on stderr are left out. *)

From S2P Require Import Prelude GoStrings Prog Civm Dockerlock DockerlockSafety.

Local Open Scope string_scope.
Local Open Scope list_scope.
Local Open Scope Z_scope.

Definition lockScopeDockerHeavy : string := "docker-heavy".
Definition exitUsage : Z := 64.
Definition exitLockWaitTimeout : Z := 75.
Definition exitLockInternal : Z := 77.

Record lockFlags := mkLockFlags { lf_scope : string; lf_budget : Z; lf_wait : Z; lf_repo : string; lf_runID : string }.

(** [parseLockFlags] on the flags and the words after them, when they parse. *)
Definition parseLockFlags (parsed : result (lockFlags * list string)) : result (lockFlags * list string) :=
  match parsed with
  | Err e => Err e
  | Ok (lf, rest) =>
      if negb (String.eqb (lf_scope lf) lockScopeDockerHeavy) then Err (Errorf "--scope desconhecido") else Ok (lf, rest)
  end.

Definition lock_DefaultOptions : LockOptions :=
  mkLockOptions DefaultDockerHeavyLockPath (DefaultDockerHeavyLockPath +:+ ".hb") defaultScope
    (DefaultDockerHeavyLockWaitMinutes * Minute) (DefaultDockerHeavyLockBudgetMinutes * Minute)
    (DefaultDockerHeavyHeartbeatSeconds * Second) "" "".

Definition buildLockOptions (lf : lockFlags) : LockOptions :=
  let opts := lock_DefaultOptions in
  mkLockOptions (lo_LockPath opts) (lo_HeartbeatPath opts) (lf_scope lf)
    (if 0 <? lf_wait lf then lf_wait lf else lo_WaitBudget opts)
    (if 0 <? lf_budget lf then lf_budget lf else lo_HoldBudget opts)
    (lo_HeartbeatEvery opts) (lf_repo lf) (lf_runID lf).

Section lock.
Context (Marshal : Heartbeat -> result string) (Unmarshal : string -> result Heartbeat) (pid : Z) (fuel : nat).

(** The code of a failed [Acquire]. *)
Definition lock_failed (e : error) : Z := if errors_Is e ErrWaitBudgetExceeded then exitLockWaitTimeout else exitLockInternal.

(** What is left of [runLockExec] after [Acquire]. *)
Inductive lock_ready := LockExits (code : Z) | LockRuns (l : Lock) (cmd : list string).

Definition runLockExec (parsed : result (lockFlags * list string)) : prog lockE (option lock_ready) :=
  match parseLockFlags parsed with
  | Err _ | Ok (_, []) => mret (Some (LockExits exitUsage))
  | Ok (lf, cmdArgs) =>
      r ← Acquire Marshal Unmarshal pid fuel (buildLockOptions lf);
      mret (match r with
            | LockOutOfFuel => None
            | LockFailed e => Some (LockExits (lock_failed e))
            | Locked l => Some (LockRuns l cmdArgs)
            end)
  end.

Definition runLockAcquire (parsed : result (lockFlags * list string)) : prog lockE (option Z) :=
  match parseLockFlags parsed with
  | Err _ => mret (Some exitUsage)
  | Ok (lf, _) =>
      let opts := buildLockOptions lf in
      r ← Acquire Marshal Unmarshal pid fuel opts;
      match r with
      | LockOutOfFuel => mret None
      | LockFailed e => mret (Some (lock_failed e))
      | Locked l =>
          released ← Release (lock_applyDefaults opts) l;
          mret (Some (match snd released with Some _ => exitLockInternal | None => 0 end))
      end
  end.

Definition runLockRelease (parsed : result (lockFlags * list string)) : prog lockE Z :=
  match parseLockFlags parsed with
  | Err _ => mret exitUsage
  | Ok (lf, _) =>
      r ← ReclaimStale Unmarshal (buildLockOptions lf);
      mret (match r with Err _ => exitLockInternal | Ok _ => 0 end)
  end.
End lock.

(** ** From the start of the inner command *)

Inductive inner := InnerNot | InnerRunning | InnerExited (code : Z).

(** Where a goroutine is in the closure of [releaseFunc]: it reads [done], sets it, marks
    the lock released under its mutex, stops the heartbeat and removes the file, drops the
    flock, closes the channel. *)
Inductive free_pc := FRead | FSet | FMark | FRemove | FUnlock | FClose.

Inductive lmain_pc := LStart | LWait | LFree (code : Z) (pc : free_pc) | LDefer (code : Z) (pc : free_pc) | LExit (code : Z).
Inductive lhand_pc := LSelect | LHFree (pc : free_pc) | LCancel | LDone.

Record lock_run := mkLockRun {
  lr_done : bool;          (* the variable of the closure *)
  lr_released : bool;      (* the field of the lock *)
  lr_heartbeat : bool;     (* the heartbeat file of this process is there *)
  lr_held : bool;          (* the flock *)
  lr_closed : bool;        (* the channel released *)
  lr_panic : bool;
  lr_inner : inner;
  lr_cancelled : bool;
  lr_main : lmain_pc;
  lr_hand : lhand_pc;
  lr_frees : nat;          (* times the flock was dropped *)
  lr_signalled : bool;
  lr_unremoved : bool;     (* removing the heartbeat failed *)
  lr_beating : bool;       (* the heartbeat goroutine runs *)
  lr_reclaimed : bool;     (* another process removed the heartbeat file after it was last written *)
}.

Definition lock_start : lock_run := mkLockRun false false true true false false InnerNot false LStart LSelect 0 false false true false.

Inductive lmove :=
  | LMainStart (err : err_ret)
  | LMainWait (ok : bool)
  | LFreeStep (by_main : bool) (err : err_ret)   (* the answer of the removal, for [FRemove] *)
  | LSignal
  | LSeeReleased
  | LDoCancel
  | LInnerExit (code : Z)
  | LKilled                    (* what the cancelled context does to the inner command *)
  | LTick (wrote : bool)       (* the heartbeat goroutine; a write that fails removes nothing *)
  | LReclaim.                  (* [reclaimStale] of another process removes the file *)

Section moves.
Implicit Types s : lock_run.

Definition lset_main pc s := mkLockRun (lr_done s) (lr_released s) (lr_heartbeat s) (lr_held s) (lr_closed s) (lr_panic s) (lr_inner s) (lr_cancelled s) pc (lr_hand s) (lr_frees s) (lr_signalled s) (lr_unremoved s) (lr_beating s) (lr_reclaimed s).
Definition lset_hand pc s := mkLockRun (lr_done s) (lr_released s) (lr_heartbeat s) (lr_held s) (lr_closed s) (lr_panic s) (lr_inner s) (lr_cancelled s) (lr_main s) pc (lr_frees s) (lr_signalled s) (lr_unremoved s) (lr_beating s) (lr_reclaimed s).
Definition lset_inner c s := mkLockRun (lr_done s) (lr_released s) (lr_heartbeat s) (lr_held s) (lr_closed s) (lr_panic s) c (lr_cancelled s) (lr_main s) (lr_hand s) (lr_frees s) (lr_signalled s) (lr_unremoved s) (lr_beating s) (lr_reclaimed s).
Definition lset_file hb rc s := mkLockRun (lr_done s) (lr_released s) hb (lr_held s) (lr_closed s) (lr_panic s) (lr_inner s) (lr_cancelled s) (lr_main s) (lr_hand s) (lr_frees s) (lr_signalled s) (lr_unremoved s) (lr_beating s) rc.

(** Where the goroutine is in the closure, if it is in it. *)
Definition free_at (by_main : bool) s : option free_pc :=
  if by_main then match lr_main s with LFree _ pc | LDefer _ pc => Some pc | _ => None end
  else match lr_hand s with LHFree pc => Some pc | _ => None end.

Definition free_goto (by_main : bool) (pc : free_pc) s : lock_run :=
  if by_main then lset_main (match lr_main s with LFree c _ => LFree c pc | LDefer c _ => LDefer c pc | m => m end) s
  else lset_hand (LHFree pc) s.

(** The statement after the call. *)
Definition free_return (by_main : bool) s : lock_run :=
  if by_main then lset_main (match lr_main s with LFree c _ => LDefer c FRead | LDefer c _ => LExit c | m => m end) s
  else lset_hand LCancel s.

(** One statement of the closure. *)
Definition free_step (by_main : bool) (pc : free_pc) (err : err_ret) s : lock_run :=
  match pc with
  | FRead => if lr_done s then free_return by_main s else free_goto by_main FSet s
  | FSet => free_goto by_main FMark
      (mkLockRun true (lr_released s) (lr_heartbeat s) (lr_held s) (lr_closed s) (lr_panic s) (lr_inner s) (lr_cancelled s) (lr_main s) (lr_hand s) (lr_frees s) (lr_signalled s) (lr_unremoved s) (lr_beating s) (lr_reclaimed s))
  | FMark =>
      if lr_released s then free_goto by_main FClose s
      else free_goto by_main FRemove
        (mkLockRun (lr_done s) true (lr_heartbeat s) (lr_held s) (lr_closed s) (lr_panic s) (lr_inner s) (lr_cancelled s) (lr_main s) (lr_hand s) (lr_frees s) (lr_signalled s) (lr_unremoved s) (lr_beating s) (lr_reclaimed s))
  | FRemove => free_goto by_main FUnlock
      (mkLockRun (lr_done s) (lr_released s) (if err is Some _ then lr_heartbeat s else false) (lr_held s) (lr_closed s) (lr_panic s) (lr_inner s) (lr_cancelled s) (lr_main s) (lr_hand s) (lr_frees s) (lr_signalled s)
         (lr_unremoved s || if err is Some _ then true else false) false (lr_reclaimed s))
  | FUnlock => free_goto by_main FClose
      (mkLockRun (lr_done s) (lr_released s) (lr_heartbeat s) false (lr_closed s) (lr_panic s) (lr_inner s) (lr_cancelled s) (lr_main s) (lr_hand s) (S (lr_frees s)) (lr_signalled s) (lr_unremoved s) (lr_beating s) (lr_reclaimed s))
  | FClose => free_return by_main
      (mkLockRun (lr_done s) (lr_released s) (lr_heartbeat s) (lr_held s) true (lr_panic s || lr_closed s) (lr_inner s) (lr_cancelled s) (lr_main s) (lr_hand s) (lr_frees s) (lr_signalled s) (lr_unremoved s) (lr_beating s) (lr_reclaimed s))
  end.

(** One move; [None] when it is not possible.  Nothing moves after a panic or the exit but
    the inner command and the other processes, which may reclaim the heartbeat file at any
    time: [reclaimStale] removes what it does not check again. *)
Definition lock_move (m : lmove) s : option lock_run :=
  match m with
  | LInnerExit code => match lr_inner s with InnerRunning => Some (lset_inner (InnerExited code) s) | _ => None end
  | LReclaim => Some (lset_file false true s)
  | _ =>
  if lr_panic s then None else
  match m, lr_main s with
  | _, LExit _ => None
  | LMainStart err, LStart =>
      if lr_cancelled s then Some (lset_main (LFree exitLockInternal FRead) s)
      else match err with
           | Some _ => Some (lset_main (LFree exitLockInternal FRead) s)
           | None => Some (lset_main LWait (lset_inner InnerRunning s))
           end
  | LMainWait ok, LWait =>
      match lr_inner s with InnerExited c => Some (lset_main (LFree (if ok then c else exitLockInternal) FRead) s) | _ => None end
  | LFreeStep by_main err, _ => match free_at by_main s with Some pc => Some (free_step by_main pc err s) | None => None end
  | LSignal, _ =>
      match lr_hand s with
      | LSelect => Some (lset_hand (LHFree FRead)
          (mkLockRun (lr_done s) (lr_released s) (lr_heartbeat s) (lr_held s) (lr_closed s) (lr_panic s) (lr_inner s) (lr_cancelled s) (lr_main s) (lr_hand s) (lr_frees s) true (lr_unremoved s) (lr_beating s) (lr_reclaimed s)))
      | _ => None
      end
  | LSeeReleased, _ => match lr_hand s with LSelect => if lr_closed s then Some (lset_hand LDone s) else None | _ => None end
  | LDoCancel, _ =>
      match lr_hand s with
      | LCancel => Some (lset_hand LDone
          (mkLockRun (lr_done s) (lr_released s) (lr_heartbeat s) (lr_held s) (lr_closed s) (lr_panic s) (lr_inner s) true (lr_main s) (lr_hand s) (lr_frees s) (lr_signalled s) (lr_unremoved s) (lr_beating s) (lr_reclaimed s)))
      | _ => None
      end
  | LTick wrote, _ =>
      if lr_beating s then Some (if wrote : bool then lset_file true false s else s) else None
  | LKilled, _ => match lr_inner s with InnerRunning => if lr_cancelled s then Some (lset_inner (InnerExited (-1)) s) else None | _ => None end
  | _, _ => None
  end
  end.

Definition lmoves (ms : list lmove) s : option lock_run := foldl (fun (o : option lock_run) m => o ≫= lock_move m) (Some s) ms.
End moves.

Inductive lock_reaches : lock_run -> Prop :=
  | lreaches_start : lock_reaches lock_start
  | lreaches_move s m s' : lock_reaches s -> lock_move m s = Some s' -> lock_reaches s'.

(** * civmctl lock: properties

    Every path but the race ends with the lock given back: [acquire] and [release] on any
    answers, [exec] on every schedule without a signal.  With a signal the flock is still
    dropped at most once and no schedule is infinite or stuck, but the unguarded variable
    of the closure and the order release-then-cancel show. *)

Local Open Scope string_scope.
Local Open Scope list_scope.
Local Open Scope Z_scope.

(** ** Whatever the schedule *)

(** The goroutine is inside the part of [Release] that the mutex lets through once. *)
Definition inside (pc : option free_pc) : nat := match pc with Some (FRemove | FUnlock) => 1 | _ => 0 end.

Definition lmain_ok (s : lock_run) : Prop :=
  match lr_main s with
  | LStart => lr_inner s = InnerNot
  | LWait => lr_inner s <> InnerNot
  | LFree c _ | LDefer c _ | LExit c =>
      (lr_inner s = InnerNot /\ c = exitLockInternal) \/ exists c', lr_inner s = InnerExited c' /\ (c = c' \/ c = exitLockInternal)
  end.

Definition lock_ok (s : lock_run) : Prop :=
  (lr_frees s + inside (free_at true s) + inside (free_at false s) = Nat.b2n (lr_released s))%nat /\ lmain_ok s.

Lemma lock_ok_free (b : bool) (pc : free_pc) (err : err_ret) (s : lock_run) :
  lock_ok s -> free_at b s = Some pc -> lock_ok (free_step b pc err s).
Proof.
  intros [Hn Hm] Hpc. destruct s as [d r hb h cl pn inn ca m hd fr sg un bt rc]. unfold lock_ok, lmain_ok, free_at in *. cbn in *.
  destruct b; [destruct m; simplify_eq|destruct hd; simplify_eq]; destruct pc; cbn in *;
    repeat match goal with |- context [if ?x then _ else _] => destruct x eqn:?; cbn in * end; split; try done; cbn in *; lia.
Qed.

Lemma lock_move_inv (m : lmove) (s s' : lock_run) : lock_move m s = Some s' ->
  match m with
  | LMainStart _ =>
      lr_main s = LStart /\ (s' = lset_main (LFree exitLockInternal FRead) s \/ s' = lset_main LWait (lset_inner InnerRunning s))
  | LMainWait ok => lr_main s = LWait /\ exists c, lr_inner s = InnerExited c /\ s' = lset_main (LFree (if ok then c else exitLockInternal) FRead) s
  | LFreeStep b err => exists pc, free_at b s = Some pc /\ s' = free_step b pc err s
  | LSignal => lr_hand s = LSelect /\ lr_signalled s' = true /\ exists s1, s' = lset_hand (LHFree FRead) s1 /\ lset_hand LSelect s1 = s1 /\
                 lr_frees s1 = lr_frees s /\ lr_released s1 = lr_released s /\ lr_main s1 = lr_main s /\ lr_inner s1 = lr_inner s
  | LSeeReleased => lr_hand s = LSelect /\ s' = lset_hand LDone s
  | LDoCancel => lr_hand s = LCancel /\ exists s1, s' = lset_hand LDone s1 /\
                 lr_frees s1 = lr_frees s /\ lr_released s1 = lr_released s /\ lr_main s1 = lr_main s /\ lr_inner s1 = lr_inner s /\ lr_signalled s1 = lr_signalled s
  | LInnerExit code => lr_inner s = InnerRunning /\ s' = lset_inner (InnerExited code) s
  | LKilled => lr_inner s = InnerRunning /\ lr_cancelled s = true /\ s' = lset_inner (InnerExited (-1)) s
  | LTick wrote => lr_beating s = true /\ s' = (if wrote : bool then lset_file true false s else s)
  | LReclaim => s' = lset_file false true s
  end.
Proof.
  unfold lock_move. destruct m as [err|ok|b err| | | |code| |wrote|].
  7: { destruct (lr_inner s); intros [= <-]. done. }
  9: by intros [= <-].
  all: destruct (lr_panic s); [done|].
  - destruct (lr_main s); try done. destruct (lr_cancelled s), err; intros [= <-]; auto.
  - destruct (lr_main s); try done. destruct (lr_inner s); intros [= <-]. eauto.
  - destruct (free_at b s); destruct (lr_main s); intros [= <-]; eauto.
  - destruct (lr_hand s) eqn:E; destruct (lr_main s) eqn:Em; intros [= <-]; cbn; (split_and!; [done..|]; eexists; split; [reflexivity|]; cbn; rewrite ?Em, ?E; done).
  - destruct (lr_hand s), (lr_main s), (lr_closed s); intros [= <-]; done.
  - destruct (lr_hand s) eqn:E; destruct (lr_main s) eqn:Em; intros [= <-]; cbn; (split; [done|]; eexists; split; [reflexivity|]; cbn; rewrite ?Em; done).
  - destruct (lr_inner s), (lr_main s), (lr_cancelled s); intros [= <-]; done.
  - destruct (lr_beating s), (lr_main s); intros [= <-]; done.
Qed.

Lemma lock_ok_move (m : lmove) (s s' : lock_run) : lock_ok s -> lock_move m s = Some s' -> lock_ok s'.
Proof.
  intros Hok H. apply lock_move_inv in H. pose proof Hok as [Hn Hm]. unfold lmain_ok in Hm. destruct m as [err|ok|b err| | | |code| |wrote|].
  - destruct H as (Em & [->| ->]); rewrite Em in Hm; unfold lock_ok, lmain_ok, free_at in *; rewrite Em in Hn; cbn; auto.
  - destruct H as (Em & c & Ec & ->). unfold lock_ok, lmain_ok, free_at in *; rewrite Em in Hn; cbn. split; [done|]. right. exists c. destruct ok; auto.
  - destruct H as (pc & E & ->). by apply lock_ok_free.
  - destruct H as (Eh & _ & s1 & -> & _ & Ef & Er & Em & Ei). unfold lock_ok, lmain_ok, free_at in *. cbn. rewrite Ef, Er, Em, Ei. rewrite Eh in Hn. done.
  - destruct H as (Eh & ->). unfold lock_ok, lmain_ok, free_at in *. cbn. rewrite Eh in Hn. done.
  - destruct H as (Eh & s1 & -> & Ef & Er & Em & Ei & _). unfold lock_ok, lmain_ok, free_at in *. cbn. rewrite Ef, Er, Em, Ei. rewrite Eh in Hn. done.
  - destruct H as (Ei & ->). unfold lock_ok, lmain_ok. cbn. split; [done|]. rewrite Ei in Hm.
    destruct (lr_main s); [done|done|by destruct Hm as [[? _]|(c' & ? & _)]..].
  - destruct H as (Ei & _ & ->). unfold lock_ok, lmain_ok. cbn. split; [done|]. rewrite Ei in Hm.
    destruct (lr_main s); [done|done|by destruct Hm as [[? _]|(c' & ? & _)]..].
  - destruct H as (_ & ->). by destruct wrote.
  - by subst s'.
Qed.

Lemma lock_ok_reaches (s : lock_run) : lock_reaches s -> lock_ok s.
Proof. induction 1; [done|by eapply lock_ok_move]. Qed.

(** ** Without a signal *)

(** How far the release of the main goroutine has come. *)
Definition before_release (s : lock_run) (done : bool) : Prop :=
  lr_done s = done /\ lr_released s = false /\ lr_held s = true /\ lr_closed s = false /\
  lr_beating s = true /\ (lr_heartbeat s = true \/ lr_reclaimed s = true).
Definition in_release (s : lock_run) (held closed : bool) : Prop :=
  lr_done s = true /\ lr_released s = true /\ lr_held s = held /\ lr_closed s = closed.
Definition hb_gone (s : lock_run) : Prop := lr_beating s = false /\ (lr_heartbeat s = true -> lr_unremoved s = true).

Definition quiet_main (s : lock_run) : Prop :=
  match lr_main s with
  | LStart | LWait | LFree _ (FRead | FSet) => before_release s false
  | LFree _ FMark => before_release s true
  | LFree _ FRemove => in_release s true false
  | LFree _ FUnlock => in_release s true false /\ hb_gone s
  | LFree _ FClose => in_release s false false /\ hb_gone s
  | LDefer _ FRead | LExit _ => in_release s false true /\ hb_gone s
  | LDefer _ _ => False
  end.

Definition quiet (s : lock_run) : Prop :=
  lr_panic s = false /\ (lr_hand s = LSelect \/ lr_hand s = LDone) /\ lr_cancelled s = false /\ quiet_main s.

Lemma quiet_free (b : bool) (pc : free_pc) (err : err_ret) (s : lock_run) :
  quiet s -> free_at b s = Some pc -> quiet (free_step b pc err s).
Proof.
  intros (Hp & Hh & Hc & Hm) E. destruct b; [|by destruct Hh as [Hh|Hh]; cbn in E; rewrite Hh in E].
  destruct s as [d r hb h cl pn inn ca mn hd fr sg un bt rc]. unfold quiet, quiet_main, before_release, in_release, hb_gone in *. cbn in *.
  destruct mn as [| |c pc'|c pc'|]; simplify_eq; destruct pc; try done; destruct_and?; simplify_eq; cbn; split_and!; try done.
  destruct err, un, hb; done.
Qed.

Lemma quiet_file (s : lock_run) (hb rc : bool) :
  quiet s -> (hb = true \/ rc = true) -> (lr_beating s = false -> hb = false) -> quiet (lset_file hb rc s).
Proof.
  intros (Hp & Hh & Hc & Hm) Hor Hb. split_and!; [done..|].
  unfold quiet_main, before_release, in_release, hb_gone in *. cbn.
  destruct (lr_main s) as [| |c []|c []|]; destruct_and?; split_and?; try done;
    intros ->; by specialize (Hb ltac:(done)).
Qed.

Lemma quiet_move (m : lmove) (s s' : lock_run) : quiet s -> lr_signalled s' = false -> lock_move m s = Some s' -> quiet s'.
Proof.
  intros Hq Hs H. apply lock_move_inv in H. pose proof Hq as (Hp & Hh & Hc & Hm). unfold quiet_main in Hm. destruct m as [err|ok|b err| | | |code| |wrote|].
  - destruct H as (Em & [->| ->]); rewrite Em in Hm; by split_and!.
  - destruct H as (Em & c & Ec & ->). rewrite Em in Hm; by split_and!.
  - destruct H as (pc & E & ->). by apply quiet_free.
  - destruct H as (_ & Hs' & _). congruence.
  - destruct H as (Eh & ->). by split_and!; auto.
  - destruct H as (Eh & _). destruct Hh; congruence.
  - destruct H as (Ei & ->). by split_and!.
  - destruct H as (_ & Hc' & _). congruence.
  - destruct H as (Hb & ->). destruct wrote; [|done]. apply quiet_file; [done|by left|congruence].
  - subst s'. apply quiet_file; [done|by right|done].
Qed.

Lemma signalled_move (m : lmove) (s s' : lock_run) : lr_signalled s' = false -> lock_move m s = Some s' -> lr_signalled s = false.
Proof.
  intros Hs H. apply lock_move_inv in H. destruct m as [err|ok|b err| | | |code| |wrote|].
  3: { destruct H as (pc & _ & ->). destruct b, pc; cbn in Hs; repeat case_match; done. }
  - by destruct H as (_ & [->| ->]).
  - by destruct H as (_ & c & _ & ->).
  - destruct H as (_ & Hs' & _). congruence.
  - by destruct H as (_ & ->).
  - destruct H as (_ & s1 & -> & _ & _ & _ & _ & <-). done.
  - by destruct H as (_ & ->).
  - by destruct H as (_ & _ & ->).
  - destruct H as (_ & ->). by destruct wrote.
  - by subst s'.
Qed.

Lemma quiet_reaches (s : lock_run) : lock_reaches s -> lr_signalled s = false -> quiet s.
Proof.
  induction 1 as [|s m s' Hr IH Hm]; intros Hs; [split_and!; cbn; auto; split_and!; auto|]. eapply quiet_move; [|done..]. by apply IH; eapply signalled_move.
Qed.

(** ** Every schedule ends *)

Definition free_left (pc : free_pc) : nat :=
  match pc with FRead => 6 | FSet => 5 | FMark => 4 | FRemove => 3 | FUnlock => 2 | FClose => 1 end.

Definition lwork_left (s : lock_run) : nat :=
  (match lr_main s with LStart => 14 | LWait => 13 | LFree _ pc => 6 + free_left pc | LDefer _ pc => free_left pc | LExit _ => 0 end) +
  (match lr_hand s with LSelect => 8 | LHFree pc => 1 + free_left pc | LCancel => 1 | LDone => 0 end) +
  (match lr_inner s with InnerNot => 2 | InnerRunning => 1 | InnerExited _ => 0 end).

Lemma free_work (b : bool) (pc : free_pc) (err : err_ret) (s : lock_run) :
  free_at b s = Some pc -> (lwork_left (free_step b pc err s) < lwork_left s)%nat.
Proof.
  intros E. destruct s as [d r hb h cl pn inn ca m hd fr sg un bt rc]. unfold lwork_left, free_at in *. cbn in *.
  destruct b; [destruct m; simplify_eq|destruct hd; simplify_eq]; destruct pc; cbn; repeat match goal with |- context [if ?x then _ else _] => destruct x; cbn end; lia.
Qed.

(** The moves of the two goroutines, the signal and the inner command; the heartbeat
    goroutine and the other processes may move for ever. *)
Definition counted (m : lmove) : bool := match m with LTick _ | LReclaim => false | _ => true end.

Lemma lmove_work (m : lmove) (s s' : lock_run) : lock_ok s -> lock_move m s = Some s' ->
  (Nat.b2n (counted m) + lwork_left s' <= lwork_left s)%nat.
Proof.
  intros [_ Hm] H. apply lock_move_inv in H. unfold lmain_ok in Hm. destruct m as [err|ok|b err| | | |code| |wrote|].
  - destruct H as (Em & [->| ->]); rewrite Em in Hm; unfold lwork_left; cbn; rewrite Em, ?Hm; lia.
  - destruct H as (Em & c & Ec & ->). unfold lwork_left. cbn. rewrite Em. lia.
  - destruct H as (pc & E & ->). cbn [counted Nat.b2n]. pose proof (free_work b pc err s E). lia.
  - destruct H as (Eh & _ & s1 & -> & _ & _ & _ & Em & Ei). unfold lwork_left. cbn. rewrite Em, Ei, Eh. lia.
  - destruct H as (Eh & ->). unfold lwork_left. cbn. rewrite Eh. lia.
  - destruct H as (Eh & s1 & -> & _ & _ & Em & Ei & _). unfold lwork_left. cbn. rewrite Em, Ei, Eh. lia.
  - destruct H as (Ei & ->). unfold lwork_left. cbn. rewrite Ei. lia.
  - destruct H as (Ei & _ & ->). unfold lwork_left. cbn. rewrite Ei. lia.
  - destruct H as (_ & ->). by destruct wrote.
  - by subst s'.
Qed.

Lemma lmoves_none (ms : list lmove) : foldl (fun (o : option lock_run) m => o ≫= lock_move m) None ms = None.
Proof. by induction ms. Qed.

Lemma lmoves_reach (ms : list lmove) (s s' : lock_run) : lock_reaches s -> lmoves ms s = Some s' -> lock_reaches s'.
Proof.
  revert s. induction ms as [|m ms IH]; intros s Hr; cbn; [by intros [= <-]|].
  destruct (lock_move m s) as [s1|] eqn:E; cbn; [|by rewrite lmoves_none]. apply IH. by eapply lreaches_move.
Qed.

Lemma lmoves_length (ms : list lmove) (s s' : lock_run) : lock_ok s -> lmoves ms s = Some s' -> (length (List.filter counted ms) <= lwork_left s)%nat.
Proof.
  revert s. induction ms as [|m ms IH]; intros s Hr; [cbn; lia|].
  unfold lmoves. cbn [foldl mbind option_bind].
  destruct (lock_move m s) as [s1|] eqn:E; [|by rewrite lmoves_none]. intros Hms.
  pose proof (IH s1 ltac:(by eapply lock_ok_move) Hms) as Hlen. pose proof (lmove_work _ _ _ Hr E) as Hw.
  cbn [List.filter]. destruct (counted m); cbn [length Nat.b2n] in *; lia.
Qed.

(** Moves of the process itself. *)
Definition own_lmove (m : lmove) : bool := match m with LSignal | LInnerExit _ | LKilled | LTick _ | LReclaim => false | _ => true end.

Lemma lock_progress (s : lock_run) : lock_ok s -> lr_panic s = false -> (forall c, lr_main s <> LExit c) ->
  (lr_main s = LWait /\ lr_inner s = InnerRunning) \/ exists m s', own_lmove m = true /\ lock_move m s = Some s'.
Proof.
  intros [_ Hm] Hp Hx. unfold lmain_ok in Hm. destruct (lr_main s) eqn:Em; [| | | |by destruct (Hx code)].
  - right. exists (LMainStart (Some (Errorf ""))). cbn. rewrite Hp, Em. destruct (lr_cancelled s); eauto.
  - destruct (lr_inner s) eqn:Ec; [done|by left|]. right. exists (LMainWait true). cbn. rewrite Hp, Em, Ec. eauto.
  - right. exists (LFreeStep true None). cbn. rewrite Hp, Em. eauto.
  - right. exists (LFreeStep true None). cbn. rewrite Hp, Em. eauto.
Qed.

(** ** What the command promises *)

(** C27. [civmctl lock --exec], on every schedule of its two goroutines, its heartbeat
    goroutine, the signals, the inner command and other processes that remove the
    heartbeat file at any time: the flock is dropped at most once; the process exits with
    the code of the inner command or 77, and as long as it has neither exited nor panicked
    it waits for a running inner command or has a step of its own to take; but for ticks of
    the heartbeat and removals by others no schedule has more than 24 steps.  Without a
    signal it never panics; as long as the inner command runs it holds the flock, its
    heartbeat goroutine beats, and the heartbeat file is there unless another process
    removed it after the last tick; and it exits with the flock dropped and its heartbeat
    removed, unless the removal failed.  Before the inner command nothing is
    open unless the flock is held, and [acquire] leaves nothing open, whatever the injected
    functions answer. *)
Theorem lock_command_is_sound Marshal Unmarshal pid fuel parsed :
  (forall s, lock_reaches s ->
     (lr_frees s <= 1)%nat /\
     (forall c, lr_main s = LExit c ->
        (lr_inner s = InnerNot /\ c = exitLockInternal) \/ exists c', lr_inner s = InnerExited c' /\ (c = c' \/ c = exitLockInternal)) /\
     (lr_panic s = false -> (forall c, lr_main s <> LExit c) ->
        (lr_main s = LWait /\ lr_inner s = InnerRunning) \/ exists m s', own_lmove m = true /\ lock_move m s = Some s') /\
     (lr_signalled s = false ->
        lr_panic s = false /\
        (lr_inner s = InnerRunning ->
           lr_held s = true /\ lr_beating s = true /\ (lr_heartbeat s = true \/ lr_reclaimed s = true)) /\
        (forall c, lr_main s = LExit c -> lr_held s = false /\ (lr_heartbeat s = true -> lr_unremoved s = true)))) /\
  (forall ms s, lmoves ms lock_start = Some s -> (length (List.filter counted ms) <= 24)%nat) /\
  wpp fd_spec (runLockExec Marshal Unmarshal pid fuel parsed)
    (fun o s => match o with Some (LockRuns l cmd) => s = mkFd true true /\ cmd <> [] | _ => s = mkFd false false end) (mkFd false false) /\
  wpp fd_spec (runLockAcquire Marshal Unmarshal pid fuel parsed) (fun _ s => s = mkFd false false) (mkFd false false).
Proof.
  split_and!.
  - intros s Hr. pose proof (lock_ok_reaches s Hr) as [Hn Hm]. split_and!.
    + destruct (lr_released s); cbn in Hn; lia.
    + intros c Hc. unfold lmain_ok in Hm. by rewrite Hc in Hm.
    + by apply lock_progress.
    + intros Hs. destruct (quiet_reaches s Hr Hs) as (Hp & _ & _ & Hq). unfold quiet_main, lmain_ok in *. split_and!; [done|..].
      * intros Hi. rewrite Hi in Hm. destruct (lr_main s); [done| |by destruct Hm as [[? _]|(c' & ? & _)]..]. split_and!; apply Hq.
      * intros c Hc. rewrite Hc in Hq. destruct Hq as [Hq [_ Hb]]. split; [by apply Hq|done].
  - intros ms s H. by apply lmoves_length in H.
  - unfold runLockExec. destruct (parseLockFlags parsed) as [[lf [|a l]]|]; [by apply wpp_ret| |by apply wpp_ret].
    apply wpp_bind. eapply wpp_mono; [apply wpp_lock_Acquire|]. intros [lk|e|] s; [intros [_ ->]|intros ->..]; by apply wpp_ret.
  - unfold runLockAcquire. destruct (parseLockFlags parsed) as [[lf rest]|]; [|by apply wpp_ret].
    apply wpp_bind. eapply wpp_mono; [apply wpp_lock_Acquire|]. intros [lk|e|] s; [intros [Hl ->]|intros ->..]; [|by apply wpp_ret..].
    apply wpp_bind. eapply wpp_mono; [by apply wpp_lock_Release|]. intros r s' [-> _]. by apply wpp_ret.
Qed.

(** ** What a signal can do *)

Local Abbreviation main_ n := (replicate n (LFreeStep true None)).
Local Abbreviation hand_ n := (replicate n (LFreeStep false None)).

(** The inner command ends as the signal arrives, as on an interrupt from the terminal,
    which both get: both goroutines find [done] unset. *)
Definition double_close : list lmove :=
  [LMainStart None; LSignal; LInnerExit 130; LMainWait true] ++ main_ 1 ++ hand_ 1 ++ main_ 5 ++ hand_ 3.

(** The release comes before the cancel. *)
Definition early_release : list lmove := [LMainStart None; LSignal] ++ hand_ 5.

(** The main goroutine trusts [done], which is set before anything is released. *)
Definition early_exit : list lmove :=
  [LMainStart None; LSignal] ++ hand_ 2 ++ [LInnerExit 130; LMainWait true] ++ main_ 2.

(** The guard of the release is not one.  With a signal: the channel can be closed twice,
    which panics; the flock is dropped and the heartbeat removed while the inner command
    still runs and has not even been told to stop; and the process can exit before
    anything was released, its heartbeat left behind. *)
Theorem lock_command_races :
  (exists s, lock_reaches s /\ lr_panic s = true) /\
  (exists s, lock_reaches s /\ lr_inner s = InnerRunning /\ lr_cancelled s = false /\ lr_held s = false /\ lr_heartbeat s = false /\ lr_panic s = false) /\
  (exists s c, lock_reaches s /\ lr_main s = LExit c /\ lr_heartbeat s = true /\ lr_held s = true /\ lr_unremoved s = false).
Proof.
  split_and!.
  - destruct (lmoves double_close lock_start) as [s|] eqn:E; [|by vm_compute in E].
    exists s. split; [by eapply lmoves_reach; [apply lreaches_start|]|]. vm_compute in E. by injection E as <-.
  - destruct (lmoves early_release lock_start) as [s|] eqn:E; [|by vm_compute in E].
    exists s. split; [by eapply lmoves_reach; [apply lreaches_start|]|]. vm_compute in E. by injection E as <-.
  - destruct (lmoves early_exit lock_start) as [s|] eqn:E; [|by vm_compute in E].
    exists s, 130. split; [by eapply lmoves_reach; [apply lreaches_start|]|]. vm_compute in E. by injection E as <-.
Qed.
