(* ===== verification/Safedelete.v ===== *)
(** * internal/safedelete: guarded privileged removal

    [Remove] and [Chown] with every injected function as an effect; [HOME] is the
    environment variable, and [FileInfo] is the opaque [fs.FileInfo]. *)

From S2P Require Import Prelude GoStrings Prog Civm.

Local Open Scope string_scope.
Local Open Scope list_scope.
Local Open Scope Z_scope.

Definition rootUID : Z := 0.

Record DeleteOptions := mkDeleteOptions {
  do_WrapperPath : string;
  do_HasGuard : bool;         (* [GuardFn != nil] *)
}.

Record DeleteResult := mkDeleteResult {
  dr_Escalated : bool;
  dr_Err : err_ret;
}.

Inductive deleteE (FileInfo : Type) : Type -> Type :=
  | GuardFn (path : string) : deleteE FileInfo err_ret
  | RunFn (name : string) (args : list string) : deleteE FileInfo err_ret
  | RemoveAllFn (path : string) : deleteE FileInfo err_ret
  | EvalSymlinksFn (path : string) : deleteE FileInfo (result string)
  | LstatFn (path : string) : deleteE FileInfo (result FileInfo)
  | OwnerUIDFn : deleteE FileInfo Z
  | FileOwnerUIDFn (info : FileInfo) : deleteE FileInfo (option Z).
Arguments GuardFn {FileInfo}.
Arguments RunFn {FileInfo}.
Arguments RemoveAllFn {FileInfo}.
Arguments EvalSymlinksFn {FileInfo}.
Arguments LstatFn {FileInfo}.
Arguments OwnerUIDFn {FileInfo}.
Arguments FileOwnerUIDFn {FileInfo}.

Definition delete_applyDefaults (opts : DeleteOptions) : DeleteOptions :=
  mkDeleteOptions
    (if String.eqb (do_WrapperPath opts) "" then DefaultSafeDeleteWrapperPath else do_WrapperPath opts)
    (do_HasGuard opts).

(** [strings.Count(strings.Trim(clean, "/"), "/") == 1]. *)
Definition isBareHome (clean : string) : bool :=
  if negb (HasPrefix clean "/home/") then false
  else count_char "/" (TrimSlashes clean) =? 1.

Definition unsafe (text : string) : error := Errorf_s ErrUnsafePath ("safedelete: unsafe path: " +:+ text).

Definition validateFixed (HOME path : string) : result string :=
  if String.eqb (TrimSpace path) "" then Err (unsafe "empty path")
  else if contains_char "000" path then Err (unsafe "path contains NUL")
  else
    let clean := Clean path in
    if negb (IsAbs clean) then Err (unsafe "path not absolute")
    else if String.eqb clean "/" then Err (unsafe "refusing to delete root")
    else if negb (String.eqb HOME "") && String.eqb clean (Clean HOME)
    then Err (unsafe "refusing to delete $HOME")
    else if isBareHome clean then Err (unsafe "refusing to delete a bare home dir")
    else Ok clean.

Section safedelete.
Context {FileInfo : Type} (HOME : string).
Abbreviation dprog := (prog (deleteE FileInfo)).

Definition resolveAndAffirmOwner (clean : string) : dprog (result string) :=
  evaluated ← call (EvalSymlinksFn clean);
  match evaluated with
  | Err e => if errors_Is e ErrNotExist then mret (Ok clean)
             else mret (Err (unsafe "cannot resolve"))
  | Ok real =>
      escape ← (if negb (String.eqb real clean)
                then match validateFixed HOME real with
                     | Err e => mret (Some e)
                     | Ok _ =>
                         e ← call (GuardFn real);
                         mret (match e with
                               | Some e => Some (unsafe "resolved target escapes the validated tree")
                               | None => None
                               end)
                     end
                else mret None);
      match escape with Some e => mret (Err e) | None =>
      stat ← call (LstatFn real);
      match stat with
      | Err e => if errors_Is e ErrNotExist then mret (Ok real)
                 else mret (Err (unsafe "cannot lstat"))
      | Ok info =>
          owner ← call (FileOwnerUIDFn info);
          match owner with
          | None => mret (Err (unsafe "cannot determine owner"))
          | Some uid =>
              want ← call OwnerUIDFn;
              if negb (uid =? want) && negb (uid =? rootUID)
              then mret (Err (unsafe "owned by another uid"))
              else mret (Ok real)
          end
      end end
  end.

Definition resolveSafeTarget (opts : DeleteOptions) (path : string) : dprog (result string) :=
  match validateFixed HOME path with
  | Err e => mret (Err e)
  | Ok clean =>
      if negb (do_HasGuard opts) then mret (Err (unsafe "nil GuardFn (escalation must be scoped)"))
      else
        e ← call (GuardFn clean);
        match e with
        | Some e => mret (Err (unsafe "guard rejected"))
        | None => resolveAndAffirmOwner clean
        end
  end.

Definition runWrapper (opts : DeleteOptions) (op : string) (args : list string) : dprog err_ret :=
  call (RunFn "sudo" ("-n" :: do_WrapperPath opts :: op :: args)).

(** [fmt.Sprintf("%d:%d", opts.OwnerUIDFn(), opts.OwnerUIDFn())]. *)
Definition uidgid : dprog string :=
  u ← call OwnerUIDFn;
  g ← call OwnerUIDFn;
  mret (Itoa u +:+ ":" +:+ Itoa g).

(** The last resort of [escalate]. *)
Definition escalate_rm (opts : DeleteOptions) (target : string) (chownErr : err_ret) : dprog DeleteResult :=
  rmErr ← runWrapper opts "rm" [target];
  match rmErr with
  | Some rmErr =>
      match chownErr with
      | Some _ => mret (mkDeleteResult true (Some (Errorf_w "chown failed and rm failed" rmErr)))
      | None => mret (mkDeleteResult true (Some (Errorf_w "wrapper rm failed" rmErr)))
      end
  | None => mret (mkDeleteResult true None)
  end.

Definition escalate (opts : DeleteOptions) (target : string) : dprog DeleteResult :=
  ids ← uidgid;
  chownErr ← runWrapper opts "chown" [ids; target];
  match chownErr with
  | None =>
      e ← call (RemoveAllFn target);
      match e with
      | None => mret (mkDeleteResult true None)
      | Some _ => escalate_rm opts target None
      end
  | Some _ => escalate_rm opts target chownErr
  end.

Definition Remove (opts : DeleteOptions) (path : string) : dprog DeleteResult :=
  let opts := delete_applyDefaults opts in
  target ← resolveSafeTarget opts path;
  match target with
  | Err e => mret (mkDeleteResult false (Some e))
  | Ok target =>
      e ← call (RemoveAllFn target);
      match e with
      | None => mret (mkDeleteResult false None)
      | Some err => if negb (errors_Is err ErrPermission) then mret (mkDeleteResult false (Some err))
                    else escalate opts target
      end
  end.

Definition Chown (opts : DeleteOptions) (path : string) : dprog DeleteResult :=
  let opts := delete_applyDefaults opts in
  target ← resolveSafeTarget opts path;
  match target with
  | Err e => mret (mkDeleteResult false (Some e))
  | Ok target =>
      ids ← uidgid;
      e ← runWrapper opts "chown" [ids; target];
      match e with
      | Some e => mret (mkDeleteResult true (Some (Errorf_w "wrapper chown failed" e)))
      | None => mret (mkDeleteResult true None)
      end
  end.
End safedelete.

(** * internal/safedelete: no privilege without proof

    Whatever the injected functions answer, a path reaches [sudo] or [RemoveAllFn]
    only after the fixed validation, the caller's guard and the ownership check. *)

Local Open Scope string_scope.
Local Open Scope list_scope.
Local Open Scope Z_scope.

(** ** The fixed validation *)

(** What a deletable path is: an absolute path of plain components, which is not
    the root, not a home directory under [/home], not [$HOME], and has no NUL. *)
Definition deletable (HOME path : string) : Prop :=
  no_char "000" path /\
  (HOME <> "" -> Clean path <> Clean HOME) /\
  exists comps, Clean path = "/" +:+ Join comps "/" /\ Forall plain_comp comps /\
    comps <> [] /\ forall user, comps <> ["home"; user].

Lemma all_slashes_app a u : u <> "" -> no_char "/" u -> all_slashes (a +:+ u) = false.
Proof.
  intros Hne Hu. induction a as [|c a IH]; cbn; [|by rewrite IH, andb_false_r].
  destruct u as [|c u]; [done|]. apply no_char_cons in Hu as [Hc _]. cbn.
  by rewrite bool_decide_false.
Qed.

Lemma trim_right_slashes_app a u : u <> "" -> no_char "/" u -> trim_right_slashes (a +:+ u) = a +:+ u.
Proof.
  intros Hne Hu. induction a as [|c a IH].
  - cbn. revert Hne Hu. induction u as [|c u IH]; [done|]. intros _ Hu.
    cbn [trim_right_slashes]. change (all_slashes (String c u)) with (all_slashes ("" +:+ String c u)).
    rewrite all_slashes_app by done.
    apply no_char_cons in Hu as [_ Hu]. destruct u; [done|]. by rewrite IH.
  - change (String c a +:+ u) with (String c (a +:+ u)). cbn [trim_right_slashes].
    change (all_slashes (String c (a +:+ u))) with (all_slashes (String c a +:+ u)).
    rewrite all_slashes_app by done. by rewrite IH.
Qed.

Lemma count_char_none c s : no_char c s -> count_char c s = 0.
Proof.
  induction s as [|d s IH]; [done|]. intros [Hc Hs]%no_char_cons. cbn. rewrite IH by done.
  by rewrite decide_False.
Qed.

Lemma isBareHome_home user : plain_comp user -> isBareHome ("/home/" +:+ user) = true.
Proof.
  intros (Hne & _ & _ & Hu). unfold isBareHome, HasPrefix. rewrite prefix_app. cbn [negb].
  unfold TrimSlashes. change (trim_left_slashes ("/home/" +:+ user)) with ("home/" +:+ user).
  rewrite trim_right_slashes_app by done. cbn. by rewrite count_char_none.
Qed.

Lemma validateFixed_deletable HOME path clean :
  validateFixed HOME path = Ok clean -> clean = Clean path /\ deletable HOME path.
Proof.
  unfold validateFixed. destruct (String.eqb (TrimSpace path) ""); [done|].
  destruct (contains_char _ path) eqn:Hnul; [done|]. cbv zeta.
  destruct (IsAbs (Clean path)) eqn:Habs; cbn [negb]; [|done].
  destruct (String.eqb (Clean path) "/") eqn:Hroot; [done|].
  destruct (negb (String.eqb HOME "") && _) eqn:Hhome; [done|].
  destruct (isBareHome (Clean path)) eqn:Hbare; [done|]. intros [= <-].
  apply String.eqb_neq in Hroot. split; [done|]. unfold deletable. split_and!; [done| |].
  - intros Hne E. apply String.eqb_neq in Hne. rewrite Hne, E, String.eqb_refl in Hhome. done.
  - destruct (Clean_abs_shape (Clean path) Habs (Clean_idem path)) as (l & El & Hl).
    exists l. split_and!; [done..| |].
    + by intros ->.
    + intros user ->. rewrite El in Hbare. inversion Hl as [|? ? _ Hl']; subst.
      inversion Hl' as [|? ? Hu _]; subst. pose proof (isBareHome_home user Hu) as Ht. cbn in Hbare, Ht. congruence.
Qed.

Lemma validateFixed_unsafe HOME path e :
  validateFixed HOME path = Err e -> errors_Is e ErrUnsafePath = true.
Proof. unfold validateFixed. cbv zeta. repeat case_match; congruence || by intros [= <-]. Qed.

(** Cleaning a path only drops and reorders its characters, slashes and dots. *)
Lemma clean_comps_no_char c rooted acc parts :
  c <> "."%char -> Forall (no_char c) acc -> Forall (no_char c) parts ->
  Forall (no_char c) (clean_comps rooted acc parts).
Proof.
  intros Hc. revert acc. induction parts as [|p parts IH]; intros acc Ha Hp; cbn.
  { by apply Forall_reverse. }
  inversion Hp; subst. assert (no_char c "..") by (unfold no_char; cbn; by rewrite !bool_decide_false).
  destruct (decide _); [by apply IH|]. destruct (decide _).
  - destruct acc as [|top rest]; [by apply IH; [destruct rooted; repeat constructor|]|].
    inversion Ha; subst. destruct (decide _); apply IH; repeat constructor; done.
  - apply IH; [by constructor|done].
Qed.

Lemma Split_no_other c d s : no_char c s -> Forall (no_char c) (Split d s).
Proof.
  intros Hs. rewrite <- (Join_Split d s) in Hs. revert Hs.
  generalize (Split d s) as l. intros l. induction l as [|x l IH]; [by constructor|].
  destruct l as [|y l]; [by repeat constructor|]. rewrite Join_cons, !no_char_app.
  intros (Hx & _ & Hr). constructor; [done|by apply IH].
Qed.

Lemma no_char_Clean c p : c <> "."%char -> c <> "/"%char -> no_char c p -> no_char c (Clean p).
Proof.
  intros Hd Hs Hp. unfold Clean. cbv zeta.
  pose proof (clean_comps_no_char c (IsAbs p) [] (Split "/" p) Hd (Forall_nil_2 _) (Split_no_other c "/" p Hp)) as Hc.
  assert (no_char c "/") by (unfold no_char; cbn; by rewrite bool_decide_false).
  destruct (IsAbs p); [rewrite no_char_app; split; [done|by apply no_char_Join]|].
  destruct (clean_comps false [] (Split "/" p)); [|by apply no_char_Join].
  unfold no_char. cbn. by rewrite bool_decide_false.
Qed.

Lemma deletable_Clean HOME path : deletable HOME path -> deletable HOME (Clean path).
Proof.
  intros (Hn & Hh & comps & E & Hc). unfold deletable. rewrite Clean_idem.
  split_and!; [by apply no_char_Clean|done|by exists comps].
Qed.

(** ** Evidence *)

(** What the answers so far have established. *)
Record evidence (FileInfo : Type) := mkEvidence {
  ev_guarded : gset string;                  (* paths the guard accepted *)
  ev_lstat : option (string * FileInfo);     (* the last stat *)
  ev_owned : gset string;                    (* paths owned by the runner or root *)
  ev_missing : gset string;                  (* paths reported not to exist *)
  ev_denied : gset string;                   (* paths whose removal was not permitted *)
}.
Arguments mkEvidence {FileInfo}.
Arguments ev_guarded {FileInfo}.
Arguments ev_lstat {FileInfo}.
Arguments ev_owned {FileInfo}.
Arguments ev_missing {FileInfo}.
Arguments ev_denied {FileInfo}.

Definition no_evidence {FileInfo} : evidence FileInfo := mkEvidence ∅ None ∅ ∅ ∅.

Section privilege.
Context {FileInfo : Type} (HOME wrapper : string) (me : Z).
Abbreviation ev := (evidence FileInfo).

Definition proven (t : string) (s : ev) : Prop :=
  deletable HOME t /\ t ∈ ev_guarded s /\ (t ∈ ev_owned s \/ t ∈ ev_missing s).

Definition add_missing (e : error) (p : string) (s : ev) : ev :=
  if errors_Is e ErrNotExist
  then mkEvidence (ev_guarded s) (ev_lstat s) (ev_owned s) ({[p]} ∪ ev_missing s) (ev_denied s) else s.

(** The privileged command lines of one target. *)
Definition chown_command (t : string) : list string :=
  ["-n"; wrapper; "chown"; Itoa me +:+ ":" +:+ Itoa me; t].
Definition rm_command (t : string) : list string := ["-n"; wrapper; "rm"; t].

(** [removing]: removal is allowed, and privilege only after a permission error;
    otherwise only the ownership may be changed. *)
Definition privilege_spec (removing : bool) : spec (deleteE FileInfo) ev := {|
  allowed B e s :=
    match e with
    | RemoveAllFn p => removing = true /\ proven p s
    | RunFn name args => name = "sudo" /\ exists t, proven t s /\
        (if removing then t ∈ ev_denied s /\ (args = chown_command t \/ args = rm_command t)
         else args = chown_command t)
    | FileOwnerUIDFn info => exists p, ev_lstat s = Some (p, info)
    | _ => True
    end;
  answers B e s :=
    match e in deleteE _ B return B -> ev -> Prop with
    | GuardFn p => fun b s' =>
        s' = match b with
             | None => mkEvidence ({[p]} ∪ ev_guarded s) (ev_lstat s) (ev_owned s) (ev_missing s) (ev_denied s)
             | Some _ => s
             end
    | EvalSymlinksFn p => fun b s' => s' = match b with Ok _ => s | Err e => add_missing e p s end
    | LstatFn p => fun b s' =>
        s' = match b with
             | Ok info => mkEvidence (ev_guarded s) (Some (p, info)) (ev_owned s) (ev_missing s) (ev_denied s)
             | Err e => add_missing e p s
             end
    | FileOwnerUIDFn info => fun b s' =>
        s' = match b, ev_lstat s with
             | Some uid, Some (p, _) =>
                 if (uid =? me) || (uid =? rootUID)
                 then mkEvidence (ev_guarded s) (ev_lstat s) ({[p]} ∪ ev_owned s) (ev_missing s) (ev_denied s)
                 else s
             | _, _ => s
             end
    | OwnerUIDFn => fun b s' => b = me /\ s' = s
    | RemoveAllFn p => fun b s' =>
        s' = match b with
             | Some e => if errors_Is e ErrPermission
                         then mkEvidence (ev_guarded s) (ev_lstat s) (ev_owned s) (ev_missing s) ({[p]} ∪ ev_denied s)
                         else s
             | None => s
             end
    | RunFn _ _ => fun _ s' => s' = s
    end;
|}.

Definition resolved_ok (r : result string) (s : ev) : Prop :=
  match r with Ok t => proven t s | Err e => errors_Is e ErrUnsafePath = true end.

Lemma proven_missing e t s :
  errors_Is e ErrNotExist = true -> deletable HOME t -> t ∈ ev_guarded s -> proven t (add_missing e t s).
Proof. intros He Hd Hg. unfold add_missing. rewrite He. split_and!; [done|done|]. right. cbn. set_solver. Qed.

Lemma wpp_owner_check removing real s :
  deletable HOME real -> real ∈ ev_guarded s ->
  wpp (privilege_spec removing)
    (stat ← call (LstatFn real);
     match stat with
     | Err e => if errors_Is e ErrNotExist then mret (Ok real) else mret (Err (unsafe "cannot lstat"))
     | Ok info =>
         owner ← call (FileOwnerUIDFn info);
         match owner with
         | None => mret (Err (unsafe "cannot determine owner"))
         | Some uid =>
             want ← call OwnerUIDFn;
             if negb (uid =? want) && negb (uid =? rootUID)
             then mret (Err (unsafe "owned by another uid"))
             else mret (Ok real)
         end
     end) resolved_ok s.
Proof.
  intros Hd Hg. apply wpp_bind, wpp_call; [done|]. intros [info|e] s1 ->; cbv beta iota.
  - apply wpp_bind, wpp_call; [cbn; eauto|]. intros [uid|] s2 ->; [|done]. cbn [ev_lstat].
    apply wpp_bind, wpp_call; [done|]. intros want s3 [-> ->]. cbv beta.
    destruct (uid =? me), (uid =? rootUID); cbn [negb andb orb]; apply wpp_ret; try done;
      (split_and!; [done|done|left; cbn; set_solver]).
  - destruct (errors_Is e ErrNotExist) eqn:He; [|done]. by apply wpp_ret, proven_missing.
Qed.

Lemma wpp_resolveSafeTarget removing opts path s :
  wpp (privilege_spec removing) (resolveSafeTarget HOME opts path) resolved_ok s.
Proof.
  unfold resolveSafeTarget. destruct (validateFixed HOME path) as [clean|e] eqn:Hv.
  2:{ by apply wpp_ret, (validateFixed_unsafe HOME path). }
  apply validateFixed_deletable in Hv as [-> Hd%deletable_Clean]. revert Hd. generalize (Clean path) as clean.
  intros clean Hd. destruct (negb _); [done|]. apply wpp_bind, wpp_call; [done|].
  intros [e|] s1 ->; [done|]. cbv beta iota. unfold resolveAndAffirmOwner.
  apply wpp_bind, wpp_call; [done|]. intros [real|e] s2 ->; cbv beta iota.
  2:{ destruct (errors_Is e ErrNotExist) eqn:He; [|done]. apply wpp_ret, proven_missing; [done..|]. cbn. set_solver. }
  apply wpp_bind. destruct (String.eqb real clean) eqn:Er; cbn [negb].
  - apply String.eqb_eq in Er as ->. apply wpp_ret. apply wpp_owner_check; [done|]. cbn. set_solver.
  - destruct (validateFixed HOME real) as [c|e] eqn:Hr.
    2:{ by apply wpp_ret, wpp_ret, (validateFixed_unsafe HOME real). }
    apply validateFixed_deletable in Hr as [_ Hr]. apply wpp_bind, wpp_call; [done|].
    intros [e|] s2 ->; [done|]. apply wpp_ret. apply wpp_owner_check; [done|]. cbn. set_solver.
Qed.

(** The evidence for a target outlives a failed removal. *)
Lemma proven_after_removal t e s :
  proven t s -> proven t (if errors_Is e ErrPermission
                          then mkEvidence (ev_guarded s) (ev_lstat s) (ev_owned s) (ev_missing s) ({[t]} ∪ ev_denied s)
                          else s).
Proof. by destruct (errors_Is e ErrPermission). Qed.

Lemma wpp_escalate opts t s :
  do_WrapperPath opts = wrapper -> proven t s -> t ∈ ev_denied s ->
  wpp (privilege_spec true) (escalate opts t) (fun r s' => dr_Escalated r = true /\ t ∈ ev_denied s') s.
Proof.
  intros Hw Hp Hden. unfold escalate, uidgid.
  assert (forall ce s', proven t s' -> t ∈ ev_denied s' ->
    wpp (privilege_spec true) (escalate_rm opts t ce) (fun r s'' => dr_Escalated r = true /\ t ∈ ev_denied s'') s') as Hrm.
  { intros ce s' Hp' Hd'. unfold escalate_rm, runWrapper. rewrite Hw. apply wpp_bind, wpp_call.
    - split; [done|]. exists t. auto.
    - intros [e|] s2 ->; [destruct ce|]; done. }
  apply wpp_bind, wpp_bind, wpp_call; [done|]. intros u s1 [-> ->]. cbv beta.
  apply wpp_bind, wpp_call; [done|]. intros g s1 [-> ->]. apply wpp_ret, wpp_bind. unfold runWrapper. rewrite Hw.
  apply wpp_call; [split; [done|]; exists t; auto|]. intros [e|] s1 ->; [by apply Hrm|].
  apply wpp_bind, wpp_call; [done|]. intros [e|] s1 ->; [|done].
  apply Hrm; [by apply proven_after_removal|]. destruct (errors_Is e ErrPermission); cbn; set_solver.
Qed.

Lemma wpp_Remove opts path s :
  do_WrapperPath (delete_applyDefaults opts) = wrapper ->
  wpp (privilege_spec true) (Remove HOME opts path)
    (fun r s' => dr_Escalated r = true -> ev_denied s' <> ∅) s.
Proof.
  intros Hw. unfold Remove. cbv zeta. apply wpp_bind. eapply wpp_mono; [apply wpp_resolveSafeTarget|].
  intros [t|e] s1; [|done]. intros Hp. apply wpp_bind, wpp_call; [done|]. intros [e|] s2 ->; [|done].
  cbv beta iota. destruct (errors_Is e ErrPermission) eqn:He; cbn [negb]; [|done].
  eapply wpp_mono; [apply wpp_escalate; [done|done|cbn; set_solver]|]. cbv beta. intros r s2 [_ Hd]. set_solver.
Qed.

Lemma wpp_Chown opts path s :
  do_WrapperPath (delete_applyDefaults opts) = wrapper ->
  wpp (privilege_spec false) (Chown HOME opts path)
    (fun r s' => dr_Escalated r = false -> exists e, dr_Err r = Some e /\ errors_Is e ErrUnsafePath = true) s.
Proof.
  intros Hw. unfold Chown, uidgid, runWrapper. cbv zeta. apply wpp_bind.
  eapply wpp_mono; [apply wpp_resolveSafeTarget|]. intros [t|e] s1; cbn [resolved_ok]; [|cbn; eauto].
  intros Hp. apply wpp_bind, wpp_bind, wpp_call; [done|]. intros u s2 [-> ->]. cbv beta.
  apply wpp_bind, wpp_call; [done|]. intros g s2 [-> ->]. apply wpp_ret, wpp_bind. rewrite Hw.
  apply wpp_call; [split; [done|]; by exists t|]. intros [e|] s2 ->; by apply wpp_ret.
Qed.
End privilege.

(** C36. Privilege needs a checked path, whatever the injected functions answer: [Remove]
    runs nothing but [sudo -n <wrapper> chown|rm] on a target, and deletes a target
    at all, only after the target passed the fixed validation (absolute, cleaned, no
    NUL, not the root, not [$HOME], not a bare home directory), the caller's guard
    accepted that very path, and either it was stat'ed as owned by the runner or root, or
    resolving it or the stat of it reported that it does not exist.  The second case needs
    no owner, and a dangling link of anybody is in it ([dangling_link_needs_no_owner]).
    [sudo] runs only after the unprivileged delete of that target was refused for lack of
    permission.  [Chown] never deletes, changes the owner
    only of such a target, and answers without [sudo] only with [ErrUnsafePath]. *)
Theorem no_privilege_without_proof {FileInfo : Type} HOME me opts path :
  let wrapper := do_WrapperPath (delete_applyDefaults opts) in
  wpp (privilege_spec HOME wrapper me true) (Remove HOME opts path)
    (fun r s' => dr_Escalated r = true -> ev_denied s' <> ∅) (no_evidence (FileInfo := FileInfo)) /\
  wpp (privilege_spec HOME wrapper me false) (Chown HOME opts path)
    (fun r s' => dr_Escalated r = false -> exists e, dr_Err r = Some e /\ errors_Is e ErrUnsafePath = true) (no_evidence (FileInfo := FileInfo)).
Proof. intros wrapper. split; [by apply wpp_Remove|by apply wpp_Chown]. Qed.

(** ** A dangling link *)

(** Resolving the link reports its missing target; the link itself is there, belongs to
    another user and cannot be deleted without privilege.  The state lists the privileged
    commands and counts the looks at the owner. *)
Definition dangling B (e : deleteE unit B) : St (list (list string) * nat) B := fun w =>
  match e in deleteE _ B return B * (list (list string) * nat) with
  | GuardFn _ => (None, w)
  | RunFn _ args => (None, (fst w ++ [args], snd w))
  | RemoveAllFn _ => (if bool_decide (fst w = []) then Some (Errorf_s ErrPermission "permission denied") else None, w)
  | EvalSymlinksFn _ => (Err (Errorf_s ErrNotExist "no such file or directory"), w)
  | LstatFn _ => (Ok tt, (fst w, S (snd w)))
  | OwnerUIDFn => (1000, w)
  | FileOwnerUIDFn _ => (Some 4242, (fst w, S (snd w)))
  end.

(** A dangling link in the guarded tree is handed to the privileged wrapper and deleted
    although nobody looked at its owner. *)
Theorem dangling_link_needs_no_owner :
  let link := "/home/ci/actions-runner/_work/app" in
  interp dangling (Remove "/home/ci" (mkDeleteOptions "/usr/local/sbin/civm-safe-delete" true) link) ([], 0%nat) =
    (mkDeleteResult true None, ([chown_command "/usr/local/sbin/civm-safe-delete" 1000 link], 0%nat)).
Proof. vm_compute. reflexivity. Qed.
