(* ===== verification/Redactor.v ===== *)
(** * internal/jitdispatcher/runner.go: the log redactor

    [lineRedactor] buffers the output of the isolation driver, cuts it into lines and
    replaces the secrets of the request before a line reaches the log.  The
    destination is the effect [DestWrite].  Byte slices are strings; zeroing the
    buffers after use is not visible in a value. *)

From S2P Require Import Prelude GoStrings Prog.

Local Open Scope string_scope.
Local Open Scope list_scope.
Local Open Scope Z_scope.

Definition maxLogLine : Z := 2 ^ 20.

Inductive logE : Type -> Type :=
  | DestWrite (data : string) : logE err_ret.

Record lineRedactor := mkRedactor {
  lr_prefix : string;
  lr_redactions : list string;
  lr_pending : string;
}.

Definition newLineRedactor (prefix : string) (redactions : list string) : lineRedactor :=
  mkRedactor prefix redactions "".

Definition with_pending (w : lineRedactor) (pending : string) : lineRedactor :=
  mkRedactor (lr_prefix w) (lr_redactions w) pending.

(** [bytes.ReplaceAll] for a non-empty [old]: leftmost, non-overlapping; [skip]
    counts the bytes left of the occurrence being replaced. *)
Fixpoint replace_aux (old new : string) (skip : nat) (s : string) : string :=
  match s with
  | EmptyString => EmptyString
  | String c s' =>
      match skip with
      | S skip => replace_aux old new skip s'
      | O => if String.prefix old s then new +:+ replace_aux old new (String.length old - 1) s'
             else String c (replace_aux old new 0 s')
      end
  end.
Definition ReplaceAll (s old new : string) : string := replace_aux old new 0 s.

Definition marker : string := "[REDACTED]".

(** The loop of [writeLine] over the redactions. *)
Definition redact (redactions : list string) (line : string) : string :=
  fold_left (fun line secret => if Contains line secret then ReplaceAll line secret marker else line)
    redactions line.

Definition newline : ascii := "010".

Definition writeLine (w : lineRedactor) (line : string) : prog logE err_ret :=
  let line := redact (lr_redactions w) line in
  e ← call (DestWrite (lr_prefix w));
  match e with Some e => mret (Some e) | None =>
  e ← call (DestWrite line);
  match e with Some e => mret (Some e) | None => call (DestWrite (String newline "")) end end.

(** The [for] loop of [Write]: one line per round, at most one round per byte. *)
Fixpoint write_lines (fuel : nat) (w : lineRedactor) : prog logE (lineRedactor * err_ret) :=
  match fuel with
  | O => mret (w, None)
  | S fuel =>
      match Cut newline (lr_pending w) with
      | None => mret (w, None)
      | Some (line, rest) =>
          e ← writeLine w line;
          match e with
          | Some e => mret (with_pending w rest, Some e)
          | None => write_lines fuel (with_pending w rest)
          end
      end
  end.

Definition Write (w : lineRedactor) (data : string) : prog logE (lineRedactor * err_ret) :=
  let w := with_pending w (lr_pending w +:+ data) in
  if (maxLogLine <? len (lr_pending w)) && negb (contains_char newline (lr_pending w))
  then mret (w, Some (Errorf "runner log line exceeds safety limit"))
  else write_lines (String.length (lr_pending w)) w.

Definition Flush (w : lineRedactor) : prog logE (lineRedactor * err_ret) :=
  if len (lr_pending w) =? 0 then mret (w, None)
  else
    e ← writeLine (with_pending w "") (lr_pending w);
    mret (with_pending w "", e).

(** [normalizedRedactions]: short values are dropped, duplicates too, and the
    longest come first. *)
Definition keep_new (result : list string) (value : string) : list string :=
  if len value <? 4 then result
  else if bool_decide (value ∈ result) then result
  else result ++ [value].

Definition longer (a b : string) : bool := len b <? len a.

Section normalized.
Context `{SortSlice}.
Definition normalizedRedactions (values : list string) : list string :=
  sort_slice longer (fold_left keep_new values []).
End normalized.

(** * The log redactor: properties *)

Local Open Scope string_scope.
Local Open Scope list_scope.
Local Open Scope Z_scope.

(** ** Substrings *)

Lemma prefix_app_l t x y : String.prefix t x = true -> String.prefix t (x +:+ y) = true.
Proof. intros [u ->]%prefix_inv. rewrite <- app_assoc_str. apply prefix_app. Qed.

Lemma Contains_app_l a b t : Contains a t = true -> Contains (a +:+ b) t = true.
Proof.
  induction a as [|c a IH]; cbn [Contains].
  - rewrite orb_false_r. intros Hp%(prefix_app_l t "" b). by destruct b; cbn in *; rewrite Hp.
  - intros [Hp|Hc]%orb_true_iff.
    + change (String c a +:+ b) with (String c (a +:+ b)). cbn [Contains].
      apply orb_true_iff. left. apply (prefix_app_l t (String c a) b Hp).
    + change (String c a +:+ b) with (String c (a +:+ b)). cbn [Contains]. by rewrite IH, orb_true_r.
Qed.

(** A prefix without [d] ends before the first [d]. *)
Lemma prefix_before d t x y :
  no_char d t -> String.prefix t (x +:+ String d y) = true -> String.prefix t x = true.
Proof.
  intros Ht. revert x. induction t as [|c t IH]; intros x; [by destruct x|].
  apply no_char_cons in Ht as [Hc Ht]. destruct x as [|c' x]; cbn.
  - destruct (ascii_dec c d); [by subst|done].
  - destruct (ascii_dec c c'); [by apply IH|done].
Qed.

(** A substring without [d] lies on one side of every [d]. *)
Lemma Contains_around d t x y :
  no_char d t -> Contains (x +:+ String d y) t = true -> Contains x t = true \/ Contains y t = true.
Proof.
  intros Ht. induction x as [|c x IH].
  - cbn [String.append Contains]. intros [Hp|Hc]%orb_true_iff; [|by right]. left.
    apply (prefix_before d t "" y Ht) in Hp. cbn [Contains]. by rewrite Hp.
  - change (String c x +:+ String d y) with (String c (x +:+ String d y)). cbn [Contains].
    intros [Hp|Hc]%orb_true_iff.
    + left. apply (prefix_before d t (String c x) y Ht) in Hp. by rewrite Hp.
    + destruct (IH Hc) as [H|H]; [left; by rewrite H, orb_true_r|by right].
Qed.

(** ** Replacement *)

Lemma replace_skip old new n s : replace_aux old new n s = ReplaceAll (drop_str n s) old new.
Proof.
  unfold ReplaceAll. revert n. induction s as [|c s IH]; intros [|n]; by cbn.
Qed.

(** Either nothing is replaced, or the first occurrence is cut out. *)
Lemma ReplaceAll_cases s old new :
  old <> "" ->
  (ReplaceAll s old new = s /\ Contains s old = false) \/
  exists a s', s = a +:+ old +:+ s' /\ Contains a old = false /\
    ReplaceAll s old new = a +:+ new +:+ ReplaceAll s' old new.
Proof.
  intros Hne. induction s as [|c s IH].
  { left. split; [done|]. cbn. by destruct old. }
  unfold ReplaceAll. cbn [replace_aux Contains]. destruct (String.prefix old (String c s)) eqn:Hp.
  - right. apply prefix_inv in Hp as [s' E]. exists "", s'. split_and!; [done|by destruct old|].
    rewrite replace_skip. cbn [String.append]. f_equal. f_equal. destruct old as [|o old]; [done|].
    injection E as -> ->. cbn [String.length]. rewrite Nat.sub_succ, Nat.sub_0_r. by rewrite drop_str_app.
  - fold (ReplaceAll s old new). destruct IH as [[-> ->]|(a & s' & -> & Ha & ->)]; [by left|].
    right. exists (String c a), s'. split_and!; [done| |done]. cbn [Contains]. rewrite Ha, orb_false_r.
    destruct (String.prefix old (String c a)) eqn:Hpa; [|done].
    by rewrite (prefix_app_l old (String c a) (old +:+ s') Hpa : String.prefix old (String c (a +:+ old +:+ s')) = true) in Hp.
Qed.

(** A value whose occurrences the marker can neither hide nor make. *)
Definition plain_secret (t : string) : Prop :=
  no_char "[" t /\ no_char "]" t /\ Contains "REDACTED" t = false.

Lemma Contains_empty s : Contains s "" = true.
Proof. by destruct s. Qed.

Lemma plain_nonempty t : plain_secret t -> t <> "".
Proof. by intros (_ & _ & H) ->. Qed.

Lemma ReplaceAll_plain s old t :
  old <> "" -> plain_secret t -> Contains (ReplaceAll s old marker) t = true ->
  Contains s t = true /\ t <> old.
Proof.
  intros Hne Ht. remember (String.length s) as n eqn:Hn. revert s Hn.
  induction n as [n IH] using lt_wf_ind. intros s ->.
  destruct (ReplaceAll_cases s old marker Hne) as [[-> Hf]|(a & s' & -> & Ha & ->)].
  { intros Hc. split; [done|]. intros ->. congruence. }
  unfold marker at 1. cbn [String.append]. destruct Ht as (Ho & Hcl & Hr).
  intros [Hc|Hc]%(Contains_around "[" t); [| |done].
  { split; [by apply Contains_app_l|]. intros ->. congruence. }
  apply (Contains_around "]" t "REDACTED") in Hc as [Hc|Hc]; [congruence| |done].
  apply (IH (String.length s')) in Hc as [Hc ?]; [| |done].
  - split; [|done]. rewrite app_assoc_str. by apply Contains_app_r.
  - rewrite !length_app_str. destruct old; [done|]. cbn. lia.
Qed.

Lemma redact_plain rs line t :
  Forall (fun r => r <> "") rs -> plain_secret t -> Contains (redact rs line) t = true ->
  Contains line t = true /\ t ∉ rs.
Proof.
  intros Hrs Ht. revert line. induction Hrs as [|r rs Hr Hrs IH]; intros line; cbn.
  { intros. split; [done|]. apply not_elem_of_nil. }
  intros [Hc Hn]%IH. destruct (Contains line r) eqn:E.
  - apply ReplaceAll_plain in Hc as [? ?]; [set_solver|done..].
  - split; [done|]. apply not_elem_of_cons. split; [|done]. intros ->. congruence.
Qed.

(** ** What reaches the log *)

(** The whole life of a redactor: any chunks, errors or not, then [Flush]. *)
Fixpoint session (w : lineRedactor) (chunks : list string) : prog logE (lineRedactor * err_ret) :=
  match chunks with
  | [] => Flush w
  | data :: chunks => r ← Write w data; session (fst r) chunks
  end.

(** The log as it grows.  A write that fails may have written a part; what was written up
    to there and what follows are kept as two pieces. *)
Record pieces := mkPieces { lp_torn : list string; lp_current : string }.

Definition hidden (secret : string) (l : pieces) : Prop :=
  Forall (fun piece => Contains piece secret = false) (lp_current l :: lp_torn l).

(** At every write, and so at any moment, no piece of the log contains the secret. *)
Definition hiding (secret : string) : spec logE pieces := {|
  allowed B e l := hidden secret l;
  answers B e l :=
    match e in logE B return B -> pieces -> Prop with
    | DestWrite d => fun b l' =>
        match b with
        | None => l' = mkPieces (lp_torn l) (lp_current l +:+ d)
        | Some _ => exists done lost, d = done +:+ lost /\ l' = mkPieces ((lp_current l +:+ done) :: lp_torn l) ""
        end
    end;
|}.

(** Nothing of a line is there yet. *)
Definition at_line_start (l : pieces) : Prop :=
  lp_current l = "" \/ exists text, lp_current l = text +:+ String newline "".

Section hiding.
Context (stem secret : string) (sep : ascii) (redactions : list string).
Abbreviation prefix := (stem +:+ String sep "").
Context (Hplain : plain_secret secret) (Hin : secret ∈ redactions).
Context (Hne : Forall (fun r => r <> "") redactions).
Context (Hnl : no_char newline secret) (Hsep : no_char sep secret) (Hstem : Contains stem secret = false).

Definition fits (w : lineRedactor) : Prop := lr_prefix w = prefix /\ lr_redactions w = redactions.

(** Around a byte that the secret does not have. *)
Lemma absent_around d x y :
  no_char d secret -> Contains x secret = false -> Contains y secret = false -> Contains (x +:+ String d y) secret = false.
Proof. intros Hd Hx Hy. apply not_true_iff_false. intros [|]%(Contains_around d); congruence. Qed.

Lemma absent_empty : Contains "" secret = false.
Proof. pose proof (plain_nonempty _ Hplain) as H. clear -H. by destruct secret. Qed.

Lemma absent_part x y : Contains (x +:+ y) secret = false -> Contains x secret = false.
Proof. intros H. apply not_true_iff_false. intros Hx. by rewrite (Contains_app_l x y) in H. Qed.

Lemma absent_app x y z : Contains (x +:+ y +:+ z) secret = false -> Contains (x +:+ y) secret = false.
Proof. rewrite app_assoc_str. apply absent_part. Qed.

Lemma absent_redacted line : Contains (redact redactions line) secret = false.
Proof. destruct (Contains (redact redactions line) secret) eqn:E; [|done]. by apply redact_plain in E as [_ ?]. Qed.

(** After a failed write. *)
Lemma hidden_torn l done lost :
  hidden secret l -> Contains (lp_current l +:+ done +:+ lost) secret = false ->
  hidden secret (mkPieces ((lp_current l +:+ done) :: lp_torn l) "").
Proof.
  intros [_ Ht]%Forall_cons Hd. repeat (apply Forall_cons; split); [apply absent_empty| |done]. by eapply absent_app.
Qed.

Lemma wpp_log_write d l (Q : err_ret -> pieces -> Prop) :
  hidden secret l -> Contains (lp_current l +:+ d) secret = false ->
  (forall e l', hidden secret l' -> at_line_start l' -> Q (Some e) l') ->
  (forall l', hidden secret l' -> lp_current l' = lp_current l +:+ d -> Q None l') ->
  wpp (hiding secret) (call (DestWrite d)) Q l.
Proof.
  intros Hl Hd Hfail Hok. apply wpp_call; [done|]. intros [e|] l' Hans; cbn in Hans.
  - destruct Hans as (done & lost & -> & ->). apply Hfail; [by eapply hidden_torn|by left].
  - subst l'. apply Hok; [|done]. apply Forall_cons in Hl as [_ Hl]. by apply Forall_cons.
Qed.

Lemma wpp_writeLine w line l :
  fits w -> hidden secret l -> at_line_start l ->
  wpp (hiding secret) (writeLine w line) (fun _ l' => hidden secret l' /\ at_line_start l') l.
Proof.
  intros [Hp Hr] Hl Hstart. unfold writeLine. cbv zeta. rewrite Hr, Hp.
  assert (Contains (lp_current l +:+ prefix) secret = false) as Hpre.
  { assert (Contains prefix secret = false) as Hx by (apply absent_around; [done..|apply absent_empty]).
    destruct Hstart as [->|(text & Ht)]; [done|]. pose proof Hl as [Hc _]%Forall_cons. rewrite Ht in Hc |- *.
    rewrite <- app_assoc_str. apply (absent_around newline); [done| |done]. by eapply absent_part. }
  apply wpp_bind, wpp_log_write; [done|done|done|]. intros l1 Hl1 E1. apply wpp_bind, wpp_log_write; [done| |done|].
  { rewrite E1, (app_assoc_str (lp_current l)), <- (app_assoc_str (lp_current l +:+ stem)). apply (absent_around sep); [done| |apply absent_redacted].
    by eapply absent_app. }
  intros l2 Hl2 E2. apply wpp_log_write; [done| |done|].
  - apply (absent_around newline); [done| |apply absent_empty]. by apply Forall_cons in Hl2 as [? _].
  - intros l3 Hl3 E3. split; [done|]. right. eauto.
Qed.

Lemma wpp_write_lines fuel w l :
  fits w -> hidden secret l -> at_line_start l ->
  wpp (hiding secret) (write_lines fuel w) (fun r l' => fits (fst r) /\ hidden secret l' /\ at_line_start l') l.
Proof.
  revert w l. induction fuel as [|fuel IH]; intros w l Hw Hl Hs; cbn [write_lines]; [done|].
  destruct (Cut newline (lr_pending w)) as [[line rest]|]; [|done].
  apply wpp_bind. eapply wpp_mono; [by apply wpp_writeLine|]. intros [e|] l' [Hl' Hs']; [done|]. by apply IH.
Qed.

Lemma wpp_session w chunks l :
  fits w -> hidden secret l -> at_line_start l -> wpp (hiding secret) (session w chunks) (fun _ l' => hidden secret l') l.
Proof.
  revert w l. induction chunks as [|data chunks IH]; intros w l Hw Hl Hs; cbn [session].
  - unfold Flush. destruct (_ =? 0); [done|]. apply wpp_bind.
    eapply wpp_mono; [by apply wpp_writeLine|]. by intros e l' [? _].
  - apply wpp_bind. unfold Write. cbv zeta. destruct (_ && _); [by apply wpp_ret, IH|].
    eapply wpp_mono; [by apply wpp_write_lines|]. intros r l' (Hr & ? & ?). by apply IH.
Qed.
End hiding.

(** *** The redactions of a request *)

Lemma keep_new_fold values acc v :
  v ∈ fold_left keep_new values acc <-> v ∈ acc \/ (v ∈ values /\ 4 <= len v).
Proof.
  revert acc. induction values as [|x values IH]; intros acc; cbn; [set_solver|].
  rewrite IH. unfold keep_new. destruct (len x <? 4) eqn:El; bsplit.
  - rewrite elem_of_cons. split; [naive_solver|]. intros [?|[[-> |?] ?]]; [by left|lia|by right].
  - case_bool_decide as Hx.
    + rewrite elem_of_cons. split; [naive_solver|]. intros [?|[[-> |?] ?]]; [by left|by left|by right].
    + rewrite elem_of_app, !elem_of_cons, elem_of_nil. split; [|naive_solver].
      intros [[?|[-> |[]]]|[? ?]]; [by left|right; split; [by left|lia]|right; split; [by right|done]].
Qed.

Lemma elem_of_normalizedRedactions `{SortSlice} values v :
  v ∈ normalizedRedactions values <-> v ∈ values /\ 4 <= len v.
Proof.
  unfold normalizedRedactions. rewrite sort_slice_elem_of, keep_new_fold.
  split; [intros [[]%not_elem_of_nil|?]|]; auto.
Qed.

(** C37. What the redactor of one stream hides.  Take a sensitive value of at least four
    bytes without line end and blank, without a bracket and not part of the word REDACTED
    nor of the stem of the prefix ("stdout:" or "stderr:").  However the output of the
    driver is cut into chunks, also inside the value, and whatever the log file answers: at
    every moment no piece of what this stream has put into the log contains the value, the
    pieces being the whole text when no write fails, and else the texts before and after
    each failed write, which may have written a part. *)
Theorem secrets_never_reach_the_log `{SortSlice} stem values secret chunks :
  stem ∈ ["stdout:"; "stderr:"] -> secret ∈ values -> 4 <= len secret -> plain_secret secret ->
  no_char newline secret -> no_char " " secret -> Contains stem secret = false ->
  wpp (hiding secret) (session (newLineRedactor (stem +:+ " ") (normalizedRedactions values)) chunks)
    (fun _ l => hidden secret l) (mkPieces [] "").
Proof.
  intros _ Hin Hlen Hp Hnl Hsp Hst. apply (wpp_session stem secret " " (normalizedRedactions values)); try done.
  - by apply elem_of_normalizedRedactions.
  - apply Forall_forall. intros r [_ Hr]%elem_of_normalizedRedactions ->. by cbn in Hr.
  - repeat constructor. by eapply absent_empty.
  - by left.
Qed.

(** A token cut in two by the pipe. *)
Lemma secrets_never_reach_the_log_witness :
  let w := newLineRedactor "stdout: " (@normalizedRedactions SortSlice_insertion ["s3cr3t-token"; "abc"]) in
  wpp (hiding "s3cr3t-token")
    (session w ["runner with s3cr3t-"; "token and" +:+ String newline "more"]) (fun _ l => hidden "s3cr3t-token" l) (mkPieces [] "").
Proof.
  apply (@secrets_never_reach_the_log SortSlice_insertion "stdout:" ["s3cr3t-token"; "abc"] "s3cr3t-token"); try by vm_compute.
  - by left.
  - by left.
Defined.

(** What it does not hide: a value shorter than four bytes, and one that spans lines. *)
Lemma some_values_are_logged :
  let log values chunks := snd (interp (fun B (e : logE B) => match e in logE B return St string B with DestWrite d => fun log => (None, log +:+ d) end)
    (session (newLineRedactor "stdout: " (@normalizedRedactions SortSlice_insertion values)) chunks) "") in
  Contains (log ["abc"] ["key abc"]) "abc" = true /\
  (let key := "first" +:+ String newline "second" in
   log [key] [key] = "stdout: first" +:+ String newline ("stdout: second" +:+ String newline "")).
Proof. by vm_compute. Qed.

(** *** Chunks do not matter *)

(** A log that accepts every write. *)
Definition on_log (B : Type) (e : logE B) : St string B := fun log =>
  match e in logE B return B * string with DestWrite d => (None, log +:+ d) end.

Definition render (prefix : string) (redactions : list string) (line : string) : string :=
  prefix +:+ redact redactions line +:+ String newline "".

(** The log of the lines of a text; a final line end does not start a line. *)
Fixpoint logged (prefix : string) (redactions : list string) (lines : list string) : string :=
  match lines with
  | [] => ""
  | [rest] => if String.eqb rest "" then "" else render prefix redactions rest
  | line :: lines => render prefix redactions line +:+ logged prefix redactions lines
  end.

Lemma logged_cons prefix rs l ls :
  ls <> [] -> logged prefix rs (l :: ls) = render prefix rs l +:+ logged prefix rs ls.
Proof. by destruct ls. Qed.

Lemma Split_app_last c s t ls r :
  Split c s = ls ++ [r] -> Split c (s +:+ t) = ls ++ Split c (r +:+ t).
Proof.
  revert ls r. induction s as [|d s IH]; intros ls r; cbn.
  - destruct ls as [|l [|]]; [by intros [= <-]|done..].
  - destruct (decide (c = d)) as [-> |Hd].
    + destruct ls as [|l ls]; cbn; [intros [= _ E]; by apply Split_nonnil in E|].
      intros [= <- E]. by rewrite (IH ls r E).
    + destruct (Split c s) as [|h q] eqn:E; [by apply Split_nonnil in E|].
      destruct ls as [|l ls]; cbn; intros [= <- ->].
      * rewrite (IH [] h eq_refl). cbn. rewrite decide_False by done.
        by destruct (Split c (h +:+ t)) eqn:E'; [apply Split_nonnil in E'|].
      * rewrite (IH (h :: ls) r eq_refl). done.
Qed.

Lemma Cut_Split c s :
  match Cut c s with
  | None => Split c s = [s] /\ no_char c s
  | Some (l, rest) => Split c s = l :: Split c rest /\ (String.length rest < String.length s)%nat
  end.
Proof.
  induction s as [|d s IH]; cbn; [done|]. case_decide as Hd; [split; [done|lia]|].
  destruct (Cut c s) as [[l rest]|]; destruct IH as [-> IH]; [split; [done|lia]|].
  split; [done|]. by apply no_char_cons.
Qed.

Lemma interp_writeLine w line log :
  interp on_log (writeLine w line) log = (None, log +:+ render (lr_prefix w) (lr_redactions w) line).
Proof. unfold writeLine, render. cbn. by rewrite <- !app_assoc_str. Qed.

(** The loop writes the complete lines and keeps the rest. *)
Lemma interp_write_lines fuel w log :
  (String.length (lr_pending w) <= fuel)%nat ->
  exists ls r, Split newline (lr_pending w) = ls ++ [r] /\ no_char newline r /\
    interp on_log (write_lines fuel w) log =
      ((with_pending w r, None), foldl (fun log l => log +:+ render (lr_prefix w) (lr_redactions w) l) log ls).
Proof.
  revert w log. induction fuel as [|fuel IH]; intros [px rs p] log; cbn [lr_pending]; intros Hf.
  { destruct p; [|cbn in Hf; lia]. by exists [], "". }
  cbn [write_lines lr_pending]. pose proof (Cut_Split newline p) as Hc.
  destruct (Cut newline p) as [[l rest]|]; destruct Hc as [Hs Hc]; [|by exists [], p].
  destruct (IH (with_pending (mkRedactor px rs p) rest) (log +:+ render px rs l)) as (ls & r & Er & Hr & Hi);
    [cbn; lia|]. exists (l :: ls), r. cbn in Er. rewrite Hs, Er. split_and!; [done|done|].
  rewrite interp_bind, interp_writeLine. cbn [lr_prefix lr_redactions]. rewrite Hi. done.
Qed.

Lemma logged_foldl prefix rs ls lines log :
  lines <> [] ->
  foldl (fun log l => log +:+ render prefix rs l) log ls +:+ logged prefix rs lines =
    log +:+ logged prefix rs (ls ++ lines).
Proof.
  intros Hne. revert log. induction ls as [|l ls IH]; intros log; [done|]. cbn [foldl app].
  rewrite IH, logged_cons; [by rewrite app_assoc_str|]. by destruct ls.
Qed.

(** A text without line end is the start of the first line of what it continues to. *)
Lemma Split_head c x y : no_char c x -> exists h t, Split c (x +:+ y) = (x +:+ h) :: t.
Proof.
  intros Hx. rewrite (Split_app_last c x y [] x) by (by rewrite Split_no_char). cbn.
  induction x as [|d x IH].
  - destruct (Split c y) eqn:E; [by apply Split_nonnil in E|]. cbn. eauto.
  - apply no_char_cons in Hx as [Hd Hx]. destruct (IH Hx) as (h & t & E).
    cbn. rewrite decide_False by done. rewrite E. eauto.
Qed.

Lemma interp_session prefix rs r chunks log :
  no_char newline r ->
  Forall (fun l => len l <= maxLogLine) (Split newline (r +:+ foldr String.append "" chunks)) ->
  interp on_log (session (mkRedactor prefix rs r) chunks) log =
    ((newLineRedactor prefix rs, None),
     log +:+ logged prefix rs (Split newline (r +:+ foldr String.append "" chunks))).
Proof.
  revert r log. induction chunks as [|d chunks IH]; intros r log Hr Hb; cbn [session foldr].
  - rewrite app_empty_r, Split_no_char by done. unfold Flush, logged. cbn [lr_pending].
    destruct r as [|c r]; [cbn; by rewrite app_empty_r|].
    assert ((len (String c r) =? 0) = false) as -> by (apply Z.eqb_neq; unfold len; cbn [String.length]; lia).
    rewrite interp_bind, interp_writeLine. done.
  - rewrite interp_bind. unfold Write, with_pending. cbv zeta. cbn [lr_pending lr_prefix lr_redactions].
    cbn [foldr] in Hb. rewrite app_assoc_str in Hb.
    assert ((maxLogLine <? len (r +:+ d)) && negb (contains_char newline (r +:+ d)) = false) as ->.
    { apply andb_false_iff. destruct (contains_char newline (r +:+ d)) eqn:Hn; [by right|left].
      destruct (Split_head newline (r +:+ d) (foldr String.append "" chunks) Hn) as (h & t & E).
      rewrite E in Hb. inversion Hb as [|? ? Hl _]; subst. apply Z.ltb_ge. revert Hl.
      unfold len. rewrite (length_app_str (r +:+ d)). lia. }
    destruct (interp_write_lines (String.length (r +:+ d)) (mkRedactor prefix rs (r +:+ d)) log)
      as (ls & r' & E & Hr' & ->); [done|]. cbn [lr_pending lr_prefix lr_redactions] in *.
    rewrite (Split_app_last _ _ _ ls r' E) in Hb. apply Forall_app in Hb as [_ Hb].
    cbn [fst]. unfold with_pending. cbn [lr_prefix lr_redactions]. rewrite IH by done. f_equal.
    rewrite logged_foldl by apply Split_nonnil. by rewrite app_assoc_str, (Split_app_last _ _ _ ls r' E).
Qed.

(** C38. The redactor is a pure function of the text, not of its chunks: as long as no
    line is longer than the safety limit and the log accepts every write, the log is exactly the prefixed, redacted
    lines of the concatenated output, each ended by a line end, nothing is lost, no
    error is reported and nothing stays buffered. *)
Theorem log_is_independent_of_chunks prefix redactions chunks :
  let text := foldr String.append "" chunks in
  Forall (fun l => len l <= maxLogLine) (Split newline text) ->
  interp on_log (session (newLineRedactor prefix redactions) chunks) "" =
    ((newLineRedactor prefix redactions, None), logged prefix redactions (Split newline text)).
Proof. intros text Hb. by apply (interp_session prefix redactions "" chunks ""). Qed.

Lemma log_is_independent_of_chunks_witness :
  interp on_log (session (newLineRedactor "out: " ["token"]) ["a to"; "ken" +:+ String newline "b"]) "" =
    ((newLineRedactor "out: " ["token"], None),
     "out: a [REDACTED]" +:+ String newline ("out: b" +:+ String newline "")).
Proof.
  apply (log_is_independent_of_chunks "out: " ["token"] ["a to"; "ken" +:+ String newline "b"]).
  repeat constructor; vm_compute; congruence.
Defined.
