(* ===== verification/Idle.v ===== *)
(** * internal/idle: is the host safe for maintenance?

    The read-only probe of the process table.  [Check] takes the injected
    [ActivityFn] and the timer of its [select] as programs, so that every caller
    passes its own. *)

From S2P Require Import Prelude GoStrings Prog.

Local Open Scope string_scope.
Local Open Scope list_scope.
Local Open Scope Z_scope.

Inductive IdleStatus := StatusIdle | StatusBusy | StatusUnknown.

#[global] Instance IdleStatus_eq_dec : EqDecision IdleStatus.
Proof. solve_decision. Defined.

Definition ExitCode (s : IdleStatus) : Z :=
  match s with StatusIdle => 0 | StatusBusy => 1 | StatusUnknown => 2 end.

Record Activity := mkActivity { act_PID : Z; act_Command : string }.

Record IdleResult := mkIdleResult {
  ir_Status : IdleStatus;
  ir_ExitCode : Z;
  ir_Activities : list Activity;
  ir_Error : string;
}.

Definition idleResult : IdleResult := mkIdleResult StatusIdle (ExitCode StatusIdle) [] "".
Definition busyResult (l : list Activity) : IdleResult :=
  mkIdleResult StatusBusy (ExitCode StatusBusy) l "".
Definition unknownResult (e : error) : IdleResult :=
  mkIdleResult StatusUnknown (ExitCode StatusUnknown) [] (err_text e).

(** ** Classification of processes *)

(** The commands of civm itself that never count. *)
Definition own_command (args : string) : bool :=
  Contains args "civmctl cleanup" || Contains args "civmctl disk-watchdog" ||
  Contains args "civmctl idle-check".

Definition IsActiveBuildProcess (comm args : string) : bool :=
  if own_command args then false
  else Contains comm "Runner.Worker" || Contains args "Runner.Worker" ||
       Contains args "Runner.PluginHost" || Contains args "/_work/" ||
       Contains args "docker build" || Contains args "docker compose" ||
       Contains args "docker-compose" || Contains args "buildx build" ||
       Contains args "buildctl ".

(** The body of the loop over the lines of [ps], [None] for [continue]. *)
Definition parse_process (currentPID : Z) (line : string) : option Activity :=
  match Fields line with
  | p :: _ :: comm :: (_ :: _) as rest =>
      let args := Join (drop 3 rest) " " in
      match ParseInt p with
      | None => None
      | Some pid =>
          if pid =? currentPID then None
          else if IsActiveBuildProcess comm args then Some (mkActivity pid args) else None
      end
  | _ => None
  end.

Definition ParseActiveProcesses (psOutput : string) (currentPID : Z) : list Activity :=
  omap (parse_process currentPID) (Split "010" psOutput).

Definition format_activity (a : Activity) : string :=
  let cmd := act_Command a in
  "pid=" +:+ Itoa (act_PID a) +:+ " " +:+
  (if 90 <? len cmd then take_str 89 cmd +:+ "..." else cmd).

Definition FormatActivities (l : list Activity) : string :=
  let limit := Nat.min (length l) 3 in
  Join ((format_activity <$> take limit l) ++
        (if (limit <? length l)%nat
         then ["+" +:+ Itoa (Z.of_nat (length l - limit)) +:+ " outro(s)"] else [])) "; ".

(** ** The probe *)

Section check.
Context {E : Type -> Type}.
(** [ActivityFn], and the wait for the timer or the end of the context. *)
Context (activity : prog E (result (list Activity))) (wait : Z -> prog E err_ret).

Definition Check (ProbeDelay : Z) : prog E IdleResult :=
  first ← activity;
  match first with
  | Err e => mret (unknownResult e)
  | Ok (a :: l) => mret (busyResult (a :: l))
  | Ok [] =>
      if ProbeDelay <=? 0 then mret idleResult
      else
        ended ← wait ProbeDelay;
        match ended with
        | Some e => mret (unknownResult e)
        | None =>
            second ← activity;
            match second with
            | Err e => mret (unknownResult e)
            | Ok (a :: l) => mret (busyResult (a :: l))
            | Ok [] => mret idleResult
            end
        end
  end.

Definition Ensure (ProbeDelay : Z) (action : string) : prog E err_ret :=
  let action := if String.eqb (TrimSpace action) "" then "operacao" else action in
  r ← Check ProbeDelay;
  match ir_Status r with
  | StatusIdle => mret None
  | StatusBusy => mret (Some (Errorf (action +:+ " abortado: host nao esta ocioso (" +:+
                                      FormatActivities (ir_Activities r) +:+ ")")))
  | StatusUnknown => mret (Some (Errorf (action +:+
                       " abortado: nao foi possivel provar host ocioso: " +:+ ir_Error r)))
  end.
End check.

(** ** Properties *)

(** What is reported is a line of the table that is active and not our own; every such
    line is reported. *)
Lemma ParseActiveProcesses_spec out self a :
  a ∈ ParseActiveProcesses out self <->
  exists line, line ∈ Split "010" out /\ parse_process self line = Some a.
Proof. unfold ParseActiveProcesses. by rewrite list_elem_of_omap. Qed.

Lemma parse_process_active self line a :
  parse_process self line = Some a ->
  act_PID a <> self /\
  exists comm, IsActiveBuildProcess comm (act_Command a) = true.
Proof.
  unfold parse_process. intros H. repeat case_match; simplify_eq.
  all: bsplit; split; [done|]; eauto.
Qed.

(** The rule for [Check] under any specification: a program that keeps [J] whatever it
    answers, and whose empty answers [clear] the state, makes an idle verdict clear. *)
Lemma wpp_Check {E S} (sp : spec E S) (activity : prog E (result (list Activity)))
    (wait : Z -> prog E err_ret) (delay : Z) (J clear : S -> Prop) s :
  (forall s, J s -> wpp sp activity (fun r s' => J s' /\ (r = Ok [] -> clear s')) s) ->
  (forall s, J s -> wpp sp (wait delay) (fun _ s' => J s') s) ->
  J s ->
  wpp sp (Check activity wait delay)
    (fun r s' => J s' /\ (ir_Status r = StatusIdle -> clear s')) s.
Proof.
  intros Ha Hw Hs. unfold Check. apply wpp_bind. eapply wpp_mono; [by apply Ha|].
  intros [[|a l]|e] s1 [H1 Hc]; [|by apply wpp_ret..].
  destruct (delay <=? 0); [apply wpp_ret; auto|]. apply wpp_bind. eapply wpp_mono; [by apply Hw|].
  intros [e|] s2 H2; [by apply wpp_ret|]. apply wpp_bind. eapply wpp_mono; [by apply Ha|].
  intros [[|a l]|e] s3 [H3 Hc3]; apply wpp_ret; auto; done.
Qed.
