(* ===== verification/RunnerUnits.v ===== *)
(** * internal/runner: the runner services of the host (list.go, serialize.go)

    The parser of [systemctl list-units], and the detection of runners of a repository
    that collide with the runner of their organization. *)

From S2P Require Import Prelude GoStrings Prog.

Local Open Scope string_scope.
Local Open Scope list_scope.
Local Open Scope Z_scope.

Record Status := mkStatus {
  st_UnitName : string;
  st_Repo : string;
  st_Org : string;
  st_Name : string;
  st_LoadState : string;
  st_ActiveState : string;
  st_SubState : string;
  st_Description : string;
  st_WorkingDirectory : string;
}.

#[global] Instance Status_eq_dec : EqDecision Status.
Proof. solve_decision. Defined.

Definition running (s : Status) : bool :=
  String.eqb (st_ActiveState s) "active" && String.eqb (st_SubState s) "running".

(** ** list.go *)

Definition parseRunnerUnit (unit : string) : string * string :=
  let prefix := "actions.runner." in
  if negb (HasPrefix unit prefix) then ("", "")
  else
    let rest := TrimSuffix (TrimPrefix unit prefix) ".service" in
    match cut_last "." rest with
    | None => (rest, "")
    | Some (repoSegment, name) =>
        match Cut "-" repoSegment with
        | None => (repoSegment, name)
        | Some (owner, repo) => (owner +:+ "/" +:+ repo, name)
        end
    end.

(** The two marks systemctl puts before a unit, in UTF-8. *)
Definition bullet : string := String "226" (String "151" (String "143" "")).
Definition circle : string := String "226" (String "151" (String "139" "")).

(** [strings.TrimLeft] of the two marks and blanks; every round drops a byte. *)
Fixpoint trim_marks (fuel : nat) (s : string) : string :=
  match fuel with
  | O => s
  | S fuel =>
      if HasPrefix s bullet || HasPrefix s circle then trim_marks fuel (drop_str 3 s)
      else if HasPrefix s " " then trim_marks fuel (drop_str 1 s)
      else s
  end.

(** The body of the loop over the lines, [None] for [continue]. *)
Definition parse_unit (line : string) : option Status :=
  let line := TrimSpace line in
  match Fields (trim_marks (String.length line) line) with
  | unit :: load :: active :: sub :: rest =>
      let '(repo, name) := parseRunnerUnit unit in
      Some (mkStatus unit repo "" name load active sub (Join rest " ") "")
  | _ => None
  end.

Definition parseSystemctlList (stdout : string) : list Status := omap parse_unit (Split "010" stdout).

(** [List] over the injected [RunFn]: a failing systemctl means no runners. *)
Definition List {E} (runFn : string -> list string -> prog E (result string))
    : prog E (list Status * err_ret) :=
  out ← runFn "systemctl" ["list-units"; "--type=service"; "--no-pager"; "--no-legend"; "--all"; "actions.runner.*"];
  match out with
  | Err _ => mret ([], None)
  | Ok out => mret (parseSystemctlList out, None)
  end.

(** ** serialize.go *)

Record Collision := mkCollision {
  cl_RepoUnit : string;
  cl_RepoName : string;
  cl_Repo : string;
  cl_Owner : string;
  cl_OrgUnit : string;
  cl_OrgName : string;
  cl_RepoActive : bool;
}.

Definition isOrgRunner (s : Status) : bool :=
  if negb (HasSuffix (st_Name s) "-org") then false
  else negb (String.eqb (st_Repo s) "") && negb (Contains (st_Repo s) "/").

Definition isGateRunner (s : Status) : bool := HasSuffix (st_Name s) "-gate".

Definition orgOwner (s : Status) : string := st_Repo s.

Definition repoOwner (s : Status) : string :=
  match Cut "/" (st_Repo s) with Some (owner, _) => owner | None => "" end.

(** The index of the organization runners: the first one of an owner stays. *)
Definition index_org (orgByOwner : gmap string Status) (u : Status) : gmap string Status :=
  if isGateRunner u then orgByOwner
  else if negb (isOrgRunner u) then orgByOwner
  else
    let owner := orgOwner u in
    if String.eqb owner "" then orgByOwner
    else match orgByOwner !! owner with
         | Some _ => orgByOwner
         | None => <[owner := u]> orgByOwner
         end.

(** The body of the second loop, [None] for [continue]. *)
Definition collides (orgByOwner : gmap string Status) (u : Status) : option Collision :=
  if isGateRunner u then None
  else if isOrgRunner u then None
  else
    let owner := repoOwner u in
    if String.eqb owner "" then None
    else match orgByOwner !! owner with
         | None => None
         | Some org => Some (mkCollision (st_UnitName u) (st_Name u) (st_Repo u) owner
                               (st_UnitName org) (st_Name org) (running u))
         end.

Definition DetectCollisions `{SortSlice} (units : list Status) : list Collision :=
  let orgByOwner := foldl index_org ∅ units in
  if decide (orgByOwner = ∅) then []
  else sort_slice (fun a b => String.ltb (cl_RepoUnit a) (cl_RepoUnit b)) (omap (collides orgByOwner) units).

(** ** Properties *)

(** A runner that serves a whole organization. *)
Definition org_runner (o : Status) : Prop :=
  isGateRunner o = false /\ isOrgRunner o = true.

Lemma isOrgRunner_owner o : isOrgRunner o = true -> st_Repo o <> "".
Proof.
  unfold isOrgRunner. destruct (negb _); [done|]. intros H. bsplit. by apply String.eqb_neq.
Qed.

(** The index holds exactly an organization runner for every owner that has one. *)
Lemma index_org_spec units m owner o :
  (forall w p, m !! w = Some p -> orgOwner p = w) ->
  foldl index_org m units !! owner = Some o ->
  m !! owner = Some o \/ (o ∈ units /\ org_runner o /\ orgOwner o = owner).
Proof.
  revert m. induction units as [|u units IH]; intros m Hm; cbn; [auto|]. intros H.
  apply IH in H as [H|(?&?&?)].
  - unfold index_org in H. destruct (isGateRunner u) eqn:Hg; [auto|].
    destruct (isOrgRunner u) eqn:Ho; cbn in H; [|auto].
    destruct (String.eqb_spec (orgOwner u) ""); [auto|].
    destruct (m !! orgOwner u) eqn:E; [auto|].
    apply lookup_insert_Some in H as [[<- <-]|[_ H]]; [|auto].
    right. split; [left|]. by repeat split.
  - right. split; [by right|done].
  - intros w p. unfold index_org. destruct (isGateRunner u); [apply Hm|].
    destruct (isOrgRunner u); cbn; [|apply Hm]. destruct (String.eqb (orgOwner u) ""); [apply Hm|].
    destruct (m !! orgOwner u); [apply Hm|]. intros [[<- <-]|[_ H']]%lookup_insert_Some; [done|by apply Hm].
Qed.

Lemma index_org_mono units m owner o :
  m !! owner = Some o -> foldl index_org m units !! owner = Some o.
Proof.
  revert m. induction units as [|u units IH]; intros m Hm; cbn; [done|]. apply IH.
  unfold index_org. repeat case_match; try done. rewrite lookup_insert_ne; [done|]. congruence.
Qed.

Lemma index_org_complete units m o :
  o ∈ units -> org_runner o -> is_Some (foldl index_org m units !! orgOwner o).
Proof.
  revert m. induction units as [|u units IH]; intros m; [by intros ?%not_elem_of_nil|].
  intros [->|Hin]%elem_of_cons Ho; cbn; [|by apply IH].
  destruct Ho as [Hg Ho]. destruct (m !! orgOwner u) as [p|] eqn:E.
  - exists p. apply index_org_mono. unfold index_org. rewrite Hg, Ho. cbn.
    destruct (String.eqb _ ""); [done|]. by rewrite E.
  - exists u. apply index_org_mono. unfold index_org. rewrite Hg, Ho. cbn.
    destruct (String.eqb_spec (orgOwner u) ""); [by apply isOrgRunner_owner in Ho|].
    rewrite E. by rewrite lookup_insert_eq.
Qed.

Lemma elem_of_DetectCollisions `{SortSlice} units c :
  c ∈ DetectCollisions units <->
  exists u, u ∈ units /\ collides (foldl index_org ∅ units) u = Some c.
Proof.
  unfold DetectCollisions. destruct (decide _) as [E|_].
  - split; [by intros ?%not_elem_of_nil|]. intros (u & _ & Hc). rewrite E in Hc. unfold collides in Hc.
    by repeat case_match.
  - by rewrite sort_slice_elem_of, list_elem_of_omap.
Qed.

(** A collision is a runner of a repository beside a runner of its organization, and
    every such runner is found. *)
Lemma DetectCollisions_iff `{SortSlice} units u :
  u ∈ units ->
  (exists c, c ∈ DetectCollisions units /\ cl_RepoUnit c = st_UnitName u) <->
  exists v, v ∈ units /\ st_UnitName v = st_UnitName u /\ isGateRunner v = false /\ isOrgRunner v = false /\
    repoOwner v <> "" /\ exists o, o ∈ units /\ org_runner o /\ orgOwner o = repoOwner v.
Proof.
  intros Hu. setoid_rewrite elem_of_DetectCollisions. split.
  - intros (c & (v & Hv & Hc) & Hn). unfold collides in Hc.
    destruct (isGateRunner v) eqn:Hg; [done|]. destruct (isOrgRunner v) eqn:Ho; [done|].
    destruct (String.eqb_spec (repoOwner v) ""); [done|].
    destruct (_ !! repoOwner v) as [o|] eqn:El; [|done]. simplify_eq/=.
    exists v. split_and!; try done. apply index_org_spec in El as [?|(?&?&?)]; [|by exists o|].
    + by rewrite lookup_empty in *.
    + intros w p. by rewrite lookup_empty.
  - intros (v & Hv & Hn & Hg & Ho & Hne & o & Hoin & Horg & How).
    destruct (index_org_complete units ∅ o Hoin Horg) as [p Hp].
    eexists. split; [exists v; split; [done|]|].
    + unfold collides. rewrite Hg, Ho. destruct (String.eqb_spec (repoOwner v) ""); [done|].
      rewrite <-How, Hp. done.
    + done.
Qed.

(** ** An organization whose login has a dash

    The unit name of its runner is split at the first dash, so that the login looks like
    a repository: the runner is not taken for an organization runner and the runner of a
    repository beside it is not a collision. *)
Definition dashed_org : string :=
  "actions.runner.my-org.civm-my-org.service loaded active running x".
Definition dashed_repo : string :=
  "actions.runner.my-org-app.civm-app.service loaded active running x".

Lemma dashed_units_parse :
  (fun s => (st_Repo s, st_Name s)) <$> parseSystemctlList (dashed_org +:+ String "010" dashed_repo) =
  [("my/org", "civm-my-org"); ("my/org-app", "civm-app")].
Proof. vm_compute. reflexivity. Qed.
