(* ===== verification/WatchdogBase.v ===== *)
(** * internal/runner: data, files and commands of the watchdog (watchdog.go)

    The structs of the watchdog, its report, the marker file that keeps what it did
    between ticks (rerun markers, restart windows and queue incidents), the resolution
    of the runner services and the gh commands behind its default functions.  The
    function fields of [WatchdogOptions] are the effects [wdE]; the JSON codecs and
    [url.Parse] are parameters. *)

From S2P Require Import Prelude GoStrings Prog Civm Idle RunnerUnits.

Local Open Scope string_scope.
Local Open Scope list_scope.
Local Open Scope Z_scope.

(** ** Data *)

Definition DefaultWatchdogMarkerPath : string := DefaultRunnerWatchdogMarkerPath.
Definition DefaultWatchdogMaxRunAge : Z := 6 * Hour.
Definition DefaultQueueStallDwell : Z := 5 * Minute.
Definition defaultWatchdogRunLimit : Z := 20.

(** The scalar fields; the function fields are the effects. *)
Record WatchdogOptions := mkWOpts {
  wo_Execute : bool;
  wo_Repos : list string;
  wo_InferRepos : bool;
  wo_RerunNetworkFailures : bool;
  wo_NetworkTimeout : Z;
  wo_RestartDelay : Z;
  wo_IdleProbeDelay : Z;
  wo_MaxRunAge : Z;
  wo_RunLimit : Z;
  wo_MarkerPath : string;
  wo_MaintenanceStatePath : string;
  wo_HooksDir : string;
  wo_RunnerGlob : string;
  wo_CivmctlPath : string;
  wo_HooksLogPath : string;
  wo_AutoRestartPerHour : Z;
  wo_QueueStallDwell : Z;
}.

Record WatchdogMetrics := mkWMetrics {
  wm_RunsConsidered : Z;
  wm_RerunsTriggered : Z;
  wm_RerunsSkipped : Z;
  wm_QueueStalls : Z;
  wm_RunnerRestarts : Z;
  wm_StallsUnresolved : Z;
}.

Record WatchdogEvent := mkWEvent {
  we_Event : string;
  we_Severity : string;
  we_Repo : string;
  we_Unit : string;
  we_Runner : string;
  we_RunID : Z;
  we_HeadSHA : string;
  we_Reason : string;
  we_Detail : string;
  we_Executed : bool;
  we_Online : bool;
  we_QueuedJobs : Z;
  we_AgeSeconds : Z;
}.

Record WatchdogReport := mkWReport {
  wr_Executed : bool;
  wr_Repos : list string;
  wr_RunnerOnline : bool;
  wr_Metrics : WatchdogMetrics;
  wr_Events : list WatchdogEvent;
  wr_Exit : Z;
}.

Record WatchdogQueueEvidence := mkEvidence { qe_EligibleJobs : Z; qe_Signature : string }.

Record WatchdogGitHubRunner := mkGHRunner {
  gr_ID : Z;
  gr_Repo : string;
  gr_Name : string;
  gr_Status : string;
  gr_Busy : bool;
  gr_Labels : list string;
}.

Record WatchdogRun := mkWRun {
  wn_ID : Z;
  wn_HeadSHA : string;
  wn_Status : string;
  wn_Conclusion : string;
  wn_CreatedAt : Z;
  wn_URL : string;
  wn_PullRequests : list Z;    (* WatchdogPullRequestRef has only a number *)
}.

Record WatchdogPullRequest := mkWPR {
  pl_Number : Z;
  pl_State : string;
  pl_MergeableState : string;
}.

Record RerunMarker := mkRerunMarker {
  rm_Repo : string;
  rm_RunID : Z;
  rm_HeadSHA : string;
  rm_RerunAt : Z;
}.

Record autoRestartWindow := mkWindow { aw_Count : Z; aw_WindowStart : Z; aw_LastActed : Z }.
Record queueStallIncident := mkIncident { qi_Signature : string; qi_FirstSeen : Z; qi_RestartedAt : Z }.

(** A nil map and an empty one are not told apart: the load replaces nil maps. *)
Record rerunState := mkRerunState {
  rs_Reruns : gmap string RerunMarker;
  rs_AutoRestarts : gmap string autoRestartWindow;
  rs_QueueStalls : gmap string queueStallIncident;
}.

#[global] Instance autoRestartWindow_eq_dec : EqDecision autoRestartWindow.
Proof. solve_decision. Defined.
#[global] Instance queueStallIncident_eq_dec : EqDecision queueStallIncident.
Proof. solve_decision. Defined.

(** The zero values a map lookup gives for an absent key. *)
Definition zero_window : autoRestartWindow := mkWindow 0 0 0.
Definition zero_incident : queueStallIncident := mkIncident "" 0 0.

(** The subset of a line of hooks.jsonl that the watchdog reads. *)
Record hookLogRecord := mkHookRecord {
  hr_Time : Z;
  hr_Decision : string;
  hr_WorkRoot : string;
  hr_Actions : list (string * string);   (* name, error *)
}.

(** [hook.InstallOptions] and [hook.InstallResult], as far as the watchdog sets and reads. *)
Record InstallRequest := mkInstallRequest {
  in_Execute : bool;
  in_RestartRunners : bool;
  in_SkipScopedSudoers : bool;
  in_HooksDir : option string;       (* [None]: the default of the hook package *)
  in_RunnerGlob : option string;
  in_CivmctlPath : option string;
}.
Record InstallOutcome := mkInstallOutcome { io_RunnerEnvFiles : Z; io_Error : string }.

Inductive wdE : Type -> Type :=
  | MaintenanceActiveFn (path : string) : wdE (result bool)
  | NetworkFn (timeout : Z) : wdE err_ret
  | SystemRunnersFn : wdE (list Status * err_ret)
  | GitHubRunnersFn (repo : string) : wdE (result (list WatchdogGitHubRunner))
  | ActivityFn : wdE (result (list Activity))
  | ProbeTimer (delay : Z) : wdE err_ret             (* the select of idle.Check *)
  | HookInstallFn (req : InstallRequest) : wdE InstallOutcome
  | ListRunsFn (repo : string) (limit : Z) : wdE (result (list WatchdogRun))
  | PullRequestFn (repo : string) (number : Z) : wdE (result WatchdogPullRequest)
  | RunLogFn (repo : string) (runID : Z) : wdE (result string)
  | RerunFn (repo : string) (runID : Z) : wdE err_ret
  | QueueReposFn : wdE (result (list string))
  | QueuedCivmJobsFn (repos : list string) (now maxAge : Z) : wdE (result WatchdogQueueEvidence)
  | ReadFileFn (path : string) : wdE (result string)
  | WriteFileFn (path data : string) : wdE err_ret
  | MkdirAllFn (path : string) : wdE err_ret
  | RenameFn (oldPath newPath : string) : wdE err_ret
  | RemoveFn (path : string) : wdE err_ret
  | NowFn : wdE Z
  | SleepFn (d : Z) : wdE unit
  | RestartFn (unit : string) : wdE err_ret
  | RunFn (name : string) (args : list string) : wdE (string * err_ret).  (* the output, also with an error *)

(** [RunFn] where the output is only used without an error. *)
Definition run (name : string) (args : list string) : prog wdE (result string) :=
  r ← call (RunFn name args);
  mret (match r with (_, Some e) => Err e | (out, None) => Ok out end).

(** ** The report *)

Definition maxExit (current candidate : Z) : Z := if current <? candidate then candidate else current.

(** An event with only a name and a severity, and the other fields of the literals. *)
Definition event (name severity : string) : WatchdogEvent :=
  mkWEvent name severity "" "" "" 0 "" "" "" false false 0 0.
Definition on_repo repo e : WatchdogEvent :=
  mkWEvent (we_Event e) (we_Severity e) repo (we_Unit e) (we_Runner e) (we_RunID e) (we_HeadSHA e)
    (we_Reason e) (we_Detail e) (we_Executed e) (we_Online e) (we_QueuedJobs e) (we_AgeSeconds e).
Definition on_unit unit e : WatchdogEvent :=
  mkWEvent (we_Event e) (we_Severity e) (we_Repo e) unit (we_Runner e) (we_RunID e) (we_HeadSHA e)
    (we_Reason e) (we_Detail e) (we_Executed e) (we_Online e) (we_QueuedJobs e) (we_AgeSeconds e).
Definition on_runner runner e : WatchdogEvent :=
  mkWEvent (we_Event e) (we_Severity e) (we_Repo e) (we_Unit e) runner (we_RunID e) (we_HeadSHA e)
    (we_Reason e) (we_Detail e) (we_Executed e) (we_Online e) (we_QueuedJobs e) (we_AgeSeconds e).
Definition on_run id sha e : WatchdogEvent :=
  mkWEvent (we_Event e) (we_Severity e) (we_Repo e) (we_Unit e) (we_Runner e) id sha
    (we_Reason e) (we_Detail e) (we_Executed e) (we_Online e) (we_QueuedJobs e) (we_AgeSeconds e).
Definition because reason e : WatchdogEvent :=
  mkWEvent (we_Event e) (we_Severity e) (we_Repo e) (we_Unit e) (we_Runner e) (we_RunID e) (we_HeadSHA e)
    reason (we_Detail e) (we_Executed e) (we_Online e) (we_QueuedJobs e) (we_AgeSeconds e).
Definition saying detail e : WatchdogEvent :=
  mkWEvent (we_Event e) (we_Severity e) (we_Repo e) (we_Unit e) (we_Runner e) (we_RunID e) (we_HeadSHA e)
    (we_Reason e) detail (we_Executed e) (we_Online e) (we_QueuedJobs e) (we_AgeSeconds e).
Definition severe severity e : WatchdogEvent :=
  mkWEvent (we_Event e) severity (we_Repo e) (we_Unit e) (we_Runner e) (we_RunID e) (we_HeadSHA e)
    (we_Reason e) (we_Detail e) (we_Executed e) (we_Online e) (we_QueuedJobs e) (we_AgeSeconds e).
Definition executed b e : WatchdogEvent :=
  mkWEvent (we_Event e) (we_Severity e) (we_Repo e) (we_Unit e) (we_Runner e) (we_RunID e) (we_HeadSHA e)
    (we_Reason e) (we_Detail e) b (we_Online e) (we_QueuedJobs e) (we_AgeSeconds e).
Definition online b e : WatchdogEvent :=
  mkWEvent (we_Event e) (we_Severity e) (we_Repo e) (we_Unit e) (we_Runner e) (we_RunID e) (we_HeadSHA e)
    (we_Reason e) (we_Detail e) (we_Executed e) b (we_QueuedJobs e) (we_AgeSeconds e).
Definition queued jobs e : WatchdogEvent :=
  mkWEvent (we_Event e) (we_Severity e) (we_Repo e) (we_Unit e) (we_Runner e) (we_RunID e) (we_HeadSHA e)
    (we_Reason e) (we_Detail e) (we_Executed e) (we_Online e) jobs (we_AgeSeconds e).
Definition aged seconds e : WatchdogEvent :=
  mkWEvent (we_Event e) (we_Severity e) (we_Repo e) (we_Unit e) (we_Runner e) (we_RunID e) (we_HeadSHA e)
    (we_Reason e) (we_Detail e) (we_Executed e) (we_Online e) (we_QueuedJobs e) seconds.

Declare Scope event_scope.
Notation "e |> f" := (f e) (at level 61, left associativity, only parsing) : event_scope.
#[global] Open Scope event_scope.

(** [WatchdogReport.add]: an event without severity is "info". *)
Definition count_event (name : string) (m : WatchdogMetrics) : WatchdogMetrics :=
  if String.eqb name "rerun-skipped" then
    mkWMetrics (wm_RunsConsidered m) (wm_RerunsTriggered m) (wm_RerunsSkipped m + 1) (wm_QueueStalls m)
      (wm_RunnerRestarts m) (wm_StallsUnresolved m)
  else if String.eqb name "rerun-triggered" then
    mkWMetrics (wm_RunsConsidered m) (wm_RerunsTriggered m + 1) (wm_RerunsSkipped m) (wm_QueueStalls m)
      (wm_RunnerRestarts m) (wm_StallsUnresolved m)
  else m.

Definition wadd (e : WatchdogEvent) (r : WatchdogReport) : WatchdogReport :=
  let e := if String.eqb (we_Severity e) "" then e |> severe "info" else e in
  mkWReport (wr_Executed r) (wr_Repos r) (wr_RunnerOnline r) (count_event (we_Event e) (wr_Metrics r))
    (wr_Events r ++ [e]) (wr_Exit r).

Definition set_Exit (n : Z) (r : WatchdogReport) : WatchdogReport :=
  mkWReport (wr_Executed r) (wr_Repos r) (wr_RunnerOnline r) (wr_Metrics r) (wr_Events r) n.
(** [report.Exit = maxExit(report.Exit, n)] *)
Definition raise (n : Z) (r : WatchdogReport) : WatchdogReport := set_Exit (maxExit (wr_Exit r) n) r.
Definition set_Repos (l : list string) (r : WatchdogReport) : WatchdogReport :=
  mkWReport (wr_Executed r) l (wr_RunnerOnline r) (wr_Metrics r) (wr_Events r) (wr_Exit r).
Definition set_Online (b : bool) (r : WatchdogReport) : WatchdogReport :=
  mkWReport (wr_Executed r) (wr_Repos r) b (wr_Metrics r) (wr_Events r) (wr_Exit r).
Definition set_Metrics (f : WatchdogMetrics -> WatchdogMetrics) (r : WatchdogReport) : WatchdogReport :=
  mkWReport (wr_Executed r) (wr_Repos r) (wr_RunnerOnline r) (f (wr_Metrics r)) (wr_Events r) (wr_Exit r).

Definition run_considered (m : WatchdogMetrics) : WatchdogMetrics :=
  mkWMetrics (wm_RunsConsidered m + 1) (wm_RerunsTriggered m) (wm_RerunsSkipped m) (wm_QueueStalls m)
    (wm_RunnerRestarts m) (wm_StallsUnresolved m).
Definition queue_stall (m : WatchdogMetrics) : WatchdogMetrics :=
  mkWMetrics (wm_RunsConsidered m) (wm_RerunsTriggered m) (wm_RerunsSkipped m) (wm_QueueStalls m + 1)
    (wm_RunnerRestarts m) (wm_StallsUnresolved m).
Definition runner_restart (m : WatchdogMetrics) : WatchdogMetrics :=
  mkWMetrics (wm_RunsConsidered m) (wm_RerunsTriggered m) (wm_RerunsSkipped m) (wm_QueueStalls m)
    (wm_RunnerRestarts m + 1) (wm_StallsUnresolved m).
Definition stall_unresolved (m : WatchdogMetrics) : WatchdogMetrics :=
  mkWMetrics (wm_RunsConsidered m) (wm_RerunsTriggered m) (wm_RerunsSkipped m) (wm_QueueStalls m)
    (wm_RunnerRestarts m) (wm_StallsUnresolved m + 1).

Definition watchdogReportHasEvent (r : WatchdogReport) (name : string) : bool :=
  existsb (fun e => String.eqb (we_Event e) name) (wr_Events r).

Definition hasWatchdogLabel (labels : list string) (want : string) : bool :=
  existsb (fun l => String.eqb l want) labels.

(** ** Options *)

Definition applyWatchdogScalarDefaults (o : WatchdogOptions) : WatchdogOptions :=
  let num x d := if x =? 0 then d else x in
  let str x d := if String.eqb x "" then d else x in
  mkWOpts (wo_Execute o) (wo_Repos o) (wo_InferRepos o) (wo_RerunNetworkFailures o)
    (num (wo_NetworkTimeout o) (10 * Second)) (num (wo_RestartDelay o) (10 * Second)) (wo_IdleProbeDelay o)
    (num (wo_MaxRunAge o) DefaultWatchdogMaxRunAge) (num (wo_RunLimit o) defaultWatchdogRunLimit)
    (str (wo_MarkerPath o) DefaultWatchdogMarkerPath)
    (str (wo_MaintenanceStatePath o) DefaultMaintenanceStatePath)
    (wo_HooksDir o) (wo_RunnerGlob o) (wo_CivmctlPath o)
    (str (wo_HooksLogPath o) DefaultHooksLogPath)
    (num (wo_AutoRestartPerHour o) DefaultRunnerAutoRestartPerHour)
    (num (wo_QueueStallDwell o) DefaultQueueStallDwell).

Fixpoint first_invalid_repo (repos : list string) : err_ret :=
  match repos with
  | [] => None
  | repo :: repos => match ValidateRepo repo with Some e => Some e | None => first_invalid_repo repos end
  end.

Definition validateWatchdogOptions (o : WatchdogOptions) : err_ret :=
  match first_invalid_repo (wo_Repos o) with
  | Some e => Some e
  | None =>
      if wo_NetworkTimeout o <=? 0 then Some (Errorf "--network-timeout deve ser >0")
      else if wo_RestartDelay o <? 0 then Some (Errorf "--restart-delay deve ser >=0")
      else if wo_MaxRunAge o <=? 0 then Some (Errorf "--max-run-age deve ser >0")
      else if (wo_RunLimit o <? 1) || (100 <? wo_RunLimit o) then Some (Errorf "run limit deve ficar entre 1 e 100")
      else if wo_QueueStallDwell o <=? 0 then Some (Errorf "queue stall dwell deve ser >0")
      else if has_nul (wo_MarkerPath o) || negb (IsAbs (Clean (wo_MarkerPath o)))
      then Some (Errorf "marker path deve ser absoluto e seguro")
      else None
  end.

(** ** The marker file *)

Definition empty_state : rerunState := mkRerunState ∅ ∅ ∅.

Definition set_AutoRestart (key : string) (w : autoRestartWindow) (st : rerunState) : rerunState :=
  mkRerunState (rs_Reruns st) (<[key := w]> (rs_AutoRestarts st)) (rs_QueueStalls st).
Definition delete_AutoRestart (key : string) (st : rerunState) : rerunState :=
  mkRerunState (rs_Reruns st) (delete key (rs_AutoRestarts st)) (rs_QueueStalls st).
Definition set_QueueStall (key : string) (i : queueStallIncident) (st : rerunState) : rerunState :=
  mkRerunState (rs_Reruns st) (rs_AutoRestarts st) (<[key := i]> (rs_QueueStalls st)).
Definition delete_QueueStall (key : string) (st : rerunState) : rerunState :=
  mkRerunState (rs_Reruns st) (rs_AutoRestarts st) (delete key (rs_QueueStalls st)).
Definition set_Rerun (key : string) (m : RerunMarker) (st : rerunState) : rerunState :=
  mkRerunState (<[key := m]> (rs_Reruns st)) (rs_AutoRestarts st) (rs_QueueStalls st).

Definition rerunMarkerKey (runID : Z) (headSHA : string) : string := Itoa runID +:+ "/" +:+ headSHA.

Section marker.
Context (decodeState : string -> result rerunState) (encodeState : rerunState -> result string).

Definition loadRerunState (opts : WatchdogOptions) : prog wdE (result rerunState) :=
  data ← call (ReadFileFn (wo_MarkerPath opts));
  match data with
  | Err e => if errors_Is e ErrNotExist then mret (Ok empty_state) else mret (Err e)
  | Ok data => if len (TrimSpace data) =? 0 then mret (Ok empty_state) else mret (decodeState data)
  end.

(** After the defaults, [RenameFn] and [RemoveFn] are never nil. *)
Definition writeRerunState (opts : WatchdogOptions) (state : rerunState) : prog wdE err_ret :=
  e ← call (MkdirAllFn (Dir (wo_MarkerPath opts)));
  match e with Some e => mret (Some e) | None =>
  match encodeState state with
  | Err e => mret (Some e)
  | Ok data =>
      let tmpPath := wo_MarkerPath opts +:+ ".tmp" in
      e ← call (WriteFileFn tmpPath (data +:+ String "010" ""));
      match e with Some e => mret (Some e) | None =>
      e ← call (RenameFn tmpPath (wo_MarkerPath opts));
      match e with
      | Some e => call (RemoveFn tmpPath);; mret (Some e)
      | None => mret None
      end end
  end end.
End marker.

(** ** Repositories and organizations of the services *)

Section resolve.
(** [json.Unmarshal] into a map of raw messages and of a raw string, and [url.Parse]
    (scheme, host and path). *)
Context (decodeConfig : string -> option (gmap string string)) (decodeString : string -> option string).
Context (url_Parse : string -> option (string * string * string)).

Definition trimJSONBOM (data : string) : string := TrimPrefix data (String "239" (String "187" (String "191" ""))).

(** The path segments of an https URL of github.com. *)
Definition github_parts (raw : string) : option (list string) :=
  match url_Parse (TrimSpace raw) with
  | None => None
  | Some (scheme, host, path) =>
      if negb (String.eqb scheme "https") || negb (EqualFold host "github.com") then None
      else Some (Split "/" (TrimSlashes path))
  end.

Definition orgFromGitHubURL (raw : string) : option string :=
  match github_parts raw with
  | Some [part] => if String.eqb part "" || Contains part ".git" then None else Some part
  | _ => None
  end.

Definition repoFromGitHubURL (raw : string) : option string :=
  match github_parts raw with
  | Some (owner :: name :: _) =>
      let repo := owner +:+ "/" +:+ TrimSuffix name ".git" in
      match ValidateRepo repo with Some _ => None | None => Some repo end
  | _ => None
  end.

(** The first field whose value is accepted. *)
Definition from_config (accept : string -> option string) (data : string) : option string :=
  match decodeConfig (trimJSONBOM data) with
  | None => None
  | Some raw =>
      head (omap (fun field =>
                    match raw !! field with
                    | None => None
                    | Some valueRaw =>
                        match decodeString valueRaw with None => None | Some value => accept value end
                    end) ["gitHubUrl"; "serverUrl"])
  end.

Definition repoFromRunnerConfig : string -> option string := from_config repoFromGitHubURL.
Definition orgFromRunnerConfig : string -> option string := from_config orgFromGitHubURL.

(** [resolveWatchdogRunnerRepo] and [resolveWatchdogRunnerOrg] differ in the last step:
    the directory, and what the configuration says. *)
Definition resolve_runner (from : string -> option string) (status : Status)
    : prog wdE (string * option string) :=
  if String.eqb (st_UnitName status) "" then mret ("", None) else
  match ValidateServiceUnit (st_UnitName status) with Some _ => mret ("", None) | None =>
  out ← run "systemctl" ["show"; st_UnitName status; "--property=WorkingDirectory"; "--value"];
  match out with
  | Err _ => mret ("", None)
  | Ok out =>
      let dir := TrimSpace out in
      if String.eqb dir "" || String.eqb dir "-" then mret ("", None) else
      data ← call (ReadFileFn (PathJoin dir ".runner"));
      match data with
      | Err _ => mret (dir, None)
      | Ok data => mret (dir, from data)
      end
  end end.

Definition resolveWatchdogRunnerRepo := resolve_runner repoFromRunnerConfig.
Definition resolveWatchdogRunnerOrg := resolve_runner orgFromRunnerConfig.

Definition set_WorkingDirectory (dir : string) (s : Status) : Status :=
  mkStatus (st_UnitName s) (st_Repo s) (st_Org s) (st_Name s) (st_LoadState s) (st_ActiveState s)
    (st_SubState s) (st_Description s) dir.
Definition set_Repo (repo : string) (s : Status) : Status :=
  mkStatus (st_UnitName s) repo (st_Org s) (st_Name s) (st_LoadState s) (st_ActiveState s)
    (st_SubState s) (st_Description s) (st_WorkingDirectory s).
Definition set_Org (org : string) (s : Status) : Status :=
  mkStatus (st_UnitName s) (st_Repo s) org (st_Name s) (st_LoadState s) (st_ActiveState s)
    (st_SubState s) (st_Description s) (st_WorkingDirectory s).

Definition enrich_status (s : Status) : prog wdE Status :=
  found ← resolveWatchdogRunnerRepo s;
  let '(dir, repo) := found in
  let s := if String.eqb dir "" then s else set_WorkingDirectory dir s in
  let s := match repo with Some repo => set_Repo repo s | None => s end in
  found ← resolveWatchdogRunnerOrg s;
  let '(_, org) := found in
  mret (match org with Some org => set_Org org s | None => s end).

Fixpoint enrichWatchdogSystemdRepos (systemd : list Status) : prog wdE (list Status) :=
  match systemd with
  | [] => mret []
  | s :: rest =>
      s ← enrich_status s;
      rest ← enrichWatchdogSystemdRepos rest;
      mret (s :: rest)
  end.
End resolve.

(** ** Lists of repositories *)

(** Keep what [keep] accepts and is new, then sort. *)
Fixpoint fresh_repos (seen : gset string) (repos : list string) : list string :=
  match repos with
  | [] => []
  | repo :: repos =>
      if decide (repo ∈ seen) then fresh_repos seen repos
      else repo :: fresh_repos ({[repo]} ∪ seen) repos
  end.

Section repos.
Context `{SortSlice}.

Definition inferWatchdogRepos (systemd : list Status) : list string :=
  sort_slice String.ltb
    (fresh_repos ∅ (filter (fun repo => repo <> "" /\ ValidateRepo repo = None) (st_Repo <$> systemd))).

(** Trimmed, without blanks; the first invalid one is an error. *)
Fixpoint valid_repos (wrap : string) (seen : gset string) (repos : list string) : result (list string) :=
  match repos with
  | [] => Ok []
  | repo :: repos =>
      let repo := TrimSpace repo in
      if String.eqb repo "" then valid_repos wrap seen repos else
      match ValidateRepo repo with
      | Some e => Err (Errorf_w wrap e)
      | None =>
          if decide (repo ∈ seen) then valid_repos wrap seen repos
          else match valid_repos wrap ({[repo]} ∪ seen) repos with
               | Err e => Err e
               | Ok l => Ok (repo :: l)
               end
      end
  end.

Definition sorted_repos (r : result (list string)) : result (list string) :=
  match r with Ok l => Ok (sort_slice String.ltb l) | Err e => Err e end.

Definition normalizeWatchdogRepos (repos : list string) : result (list string) :=
  sorted_repos (valid_repos "fleet do watchdog" ∅ repos).

(** [CIVM_REAPER_REPOS] is the argument. *)
Definition defaultWatchdogQueueRepos (env : string) : result (list string) :=
  let raw := TrimSpace env in
  if String.eqb raw "" then Ok []
  else sorted_repos (valid_repos "CIVM_REAPER_REPOS" ∅ (Split "," raw)).
End repos.
