(* ===== verification/WatchdogGitHub.v ===== *)
(** * internal/runner: the gh commands of the watchdog (watchdog.go)

    The functions behind the default [GitHubRunnersFn], [ListRunsFn], [PullRequestFn],
    [RunLogFn], [RerunFn], [NetworkFn] and [QueuedCivmJobsFn], over an injected [RunFn].
    The JSON decoders and SHA-256 are parameters. *)

From S2P Require Import Prelude GoStrings Prog Civm RunnerUnits WatchdogBase.

Local Open Scope string_scope.
Local Open Scope list_scope.
Local Open Scope Z_scope.

(** The rows of the decoded pages. *)
Record queuedRunRow := mkQueuedRunRow { qr_ID : Z; qr_Status : string; qr_CreatedAt : Z }.
Record jobRow := mkJobRow { jr_ID : Z; jr_Status : string; jr_Labels : list string }.

Record watchdogQueuedRun := mkQueuedRun { wq_ID : Z; wq_CreatedAt : Z }.
Record watchdogQueuedCandidate := mkQueuedCandidate { wc_CreatedAt : Z; wc_Identity : string }.

(** [%020d] of a positive number. *)
Definition pad20 (z : Z) : string :=
  let s := Itoa z in String.concat "" (replicate (20 - String.length s) "0") +:+ s.

(** The body of the loop over the queued runs. *)
Definition fresh_queued (now maxAge : Z) (run : queuedRunRow) : bool :=
  let age := time_Sub now (qr_CreatedAt run) in
  negb (negb (String.eqb (qr_Status run) "queued") || (qr_ID run <=? 0) || IsZero (qr_CreatedAt run) ||
        (age <? 0) || (maxAge <? age)).

Definition eligible_job (job : jobRow) : bool :=
  negb (negb (String.eqb (jr_Status job) "queued") || (jr_ID job <=? 0) ||
        negb (hasWatchdogLabel (jr_Labels job) "self-hosted") ||
        negb (hasWatchdogLabel (jr_Labels job) "civm")).

(** Only the first row of every key. *)
Fixpoint first_of {A K} `{Countable K} (key : A -> K) (seen : gset K) (l : list A) : list A :=
  match l with
  | [] => []
  | x :: l => if decide (key x ∈ seen) then first_of key seen l
              else x :: first_of key ({[key x]} ∪ seen) l
  end.

Definition older_run (a b : watchdogQueuedRun) : bool :=
  if wq_CreatedAt a =? wq_CreatedAt b then wq_ID a <? wq_ID b else wq_CreatedAt a <? wq_CreatedAt b.

Definition older_candidate (a b : watchdogQueuedCandidate) : bool :=
  if wc_CreatedAt a =? wc_CreatedAt b then String.ltb (wc_Identity a) (wc_Identity b)
  else wc_CreatedAt a <? wc_CreatedAt b.

Section gh.
Context `{SortSlice} {E : Type -> Type} (runFn : string -> list string -> prog E (result string)).
Context (decodeRunners : string -> result (list WatchdogGitHubRunner)).
Context (decodeQueuedRuns : string -> result (list (list queuedRunRow))).
Context (decodeJobs : string -> result (list (list jobRow))).
Context (decodeRuns : string -> result (list WatchdogRun)) (decodePull : string -> result WatchdogPullRequest).
Context (sha256hex : string -> string).

Definition parseWatchdogGitHubRunners (scope data : string) : result (list WatchdogGitHubRunner) :=
  match decodeRunners data with
  | Err e => Err (Errorf_w "parse gh runners" e)
  | Ok rows => Ok ((fun r => mkGHRunner (gr_ID r) scope (gr_Name r) (gr_Status r) (gr_Busy r) (gr_Labels r)) <$> rows)
  end.

Definition listWatchdogGitHubRunners (repo : string) : prog E (result (list WatchdogGitHubRunner)) :=
  out ← runFn "gh" ["api"; "/repos/" +:+ repo +:+ "/actions/runners"];
  match out with
  | Err e => mret (Err (Errorf_w "gh api actions/runners" e))
  | Ok out => mret (parseWatchdogGitHubRunners repo out)
  end.

Definition listWatchdogGitHubOrgRunners (org : string) : prog E (result (list WatchdogGitHubRunner)) :=
  out ← runFn "gh" ["api"; "/orgs/" +:+ org +:+ "/actions/runners"];
  match out with
  | Err e => mret (Err (Errorf_w "gh api org actions/runners" e))
  | Ok out => mret (parseWatchdogGitHubRunners org out)
  end.

Definition listFreshQueuedRuns (repo : string) (now maxAge : Z) : prog E (result (list watchdogQueuedRun)) :=
  out ← runFn "gh" ["api"; "--paginate"; "--slurp"; "/repos/" +:+ repo +:+ "/actions/runs?per_page=100&status=queued"];
  match out with
  | Err e => mret (Err (Errorf_w ("list queued runs for " +:+ repo) e))
  | Ok out =>
      match decodeQueuedRuns out with
      | Err e => mret (Err (Errorf_w ("parse queued runs for " +:+ repo) e))
      | Ok pages =>
          let rows := first_of qr_ID ∅ (filter (fun r => fresh_queued now maxAge r = true) (concat pages)) in
          mret (Ok (sort_slice older_run ((fun r => mkQueuedRun (qr_ID r) (qr_CreatedAt r)) <$> rows)))
      end
  end.

Definition listEligibleCivmJobIDs (repo : string) (runID : Z) : prog E (result (list Z)) :=
  out ← runFn "gh" ["api"; "--paginate"; "--slurp";
                    "/repos/" +:+ repo +:+ "/actions/runs/" +:+ Itoa runID +:+ "/jobs?filter=latest&per_page=100"];
  match out with
  | Err e => mret (Err (Errorf_w ("list queued jobs for " +:+ repo) e))
  | Ok out =>
      match decodeJobs out with
      | Err e => mret (Err (Errorf_w ("parse queued jobs for " +:+ repo) e))
      | Ok pages =>
          mret (Ok (sort_slice Z.ltb (jr_ID <$> first_of jr_ID ∅ (filter (fun j => eligible_job j = true) (concat pages)))))
      end
  end.

Definition candidate_of (repo : string) (run : watchdogQueuedRun) (jobID : Z) : watchdogQueuedCandidate :=
  mkQueuedCandidate (wq_CreatedAt run) (repo +:+ "/" +:+ pad20 (wq_ID run) +:+ "/" +:+ pad20 jobID).

(** The first run, oldest first, that has eligible jobs ends the loop of a repository. *)
Fixpoint queued_of_runs (repo : string) (runs : list watchdogQueuedRun) : prog E (result (list watchdogQueuedCandidate)) :=
  match runs with
  | [] => mret (Ok [])
  | run :: runs =>
      jobIDs ← listEligibleCivmJobIDs repo (wq_ID run);
      match jobIDs with
      | Err e => mret (Err e)
      | Ok [] => queued_of_runs repo runs
      | Ok jobIDs => mret (Ok (candidate_of repo run <$> jobIDs))
      end
  end.

Fixpoint queued_of_repos (repos : list string) (now maxAge : Z) : prog E (result (list watchdogQueuedCandidate)) :=
  match repos with
  | [] => mret (Ok [])
  | repo :: repos =>
      match ValidateRepo repo with
      | Some e => mret (Err e)
      | None =>
          runs ← listFreshQueuedRuns repo now maxAge;
          match runs with
          | Err e => mret (Err e)
          | Ok runs =>
              found ← queued_of_runs repo runs;
              match found with
              | Err e => mret (Err e)
              | Ok found =>
                  rest ← queued_of_repos repos now maxAge;
                  match rest with
                  | Err e => mret (Err e)
                  | Ok rest => mret (Ok (found ++ rest))
                  end
              end
          end
      end
  end.

(** The evidence of the candidates: how many, and the digest of the oldest. *)
Definition evidence_of (candidates : list watchdogQueuedCandidate) : WatchdogQueueEvidence :=
  let unique := first_of wc_Identity ∅ candidates in
  match sort_slice older_candidate unique with
  | [] => mkEvidence 0 ""
  | oldest :: _ => mkEvidence (Z.of_nat (length unique)) (sha256hex (wc_Identity oldest))
  end.

Definition listQueuedCivmJobs (repos : list string) (now maxAge : Z) : prog E (result WatchdogQueueEvidence) :=
  candidates ← queued_of_repos repos now maxAge;
  match candidates with
  | Err e => mret (Err e)
  | Ok candidates => mret (Ok (evidence_of candidates))
  end.

Definition listWatchdogRuns (repo : string) (limit : Z) : prog E (result (list WatchdogRun)) :=
  out ← runFn "gh" ["api"; "/repos/" +:+ repo +:+ "/actions/runs?per_page=" +:+ Itoa limit +:+ "&status=completed"];
  match out with
  | Err e => mret (Err (Errorf_w "gh api actions/runs" e))
  | Ok out => match decodeRuns out with
              | Err e => mret (Err (Errorf_w "parse gh runs" e))
              | Ok runs => mret (Ok runs)
              end
  end.

Definition getWatchdogPullRequest (repo : string) (number : Z) : prog E (result WatchdogPullRequest) :=
  out ← runFn "gh" ["api"; "/repos/" +:+ repo +:+ "/pulls/" +:+ Itoa number];
  match out with
  | Err e => mret (Err (Errorf_w ("gh api pulls/" +:+ Itoa number) e))
  | Ok out => match decodePull out with
              | Err e => mret (Err (Errorf_w "parse gh pull" e))
              | Ok pr => mret (Ok pr)
              end
  end.

Definition getWatchdogRunLog (repo : string) (runID : Z) : prog E (result string) :=
  out ← runFn "gh" ["run"; "view"; Itoa runID; "--repo"; repo; "--log-failed"];
  match out with
  | Err e => mret (Err (Errorf_w "gh run view --log-failed" e))
  | Ok out => mret (Ok out)
  end.

(** The closures of [applyWatchdogCommandFnDefaults]. *)
Definition default_RerunFn (repo : string) (runID : Z) : prog E err_ret :=
  out ← runFn "gh" ["run"; "rerun"; Itoa runID; "--repo"; repo; "--failed"];
  mret (match out with Err e => Some e | Ok _ => None end).

Definition default_NetworkFn : prog E err_ret :=
  out ← runFn "git" ["ls-remote"; "https://github.com/actions/checkout.git"; "HEAD"];
  mret (match out with Err e => Some (Errorf_w "git ls-remote github.com" e) | Ok _ => None end).
End gh.
