(* ===== verification/Watchdog.v ===== *)
(** * internal/runner: one tick of the watchdog (watchdog.go)

    [Watchdog] looks at the runner services, the GitHub side and the process table and
    repairs what it can prove broken.  The report that the source passes by pointer is
    threaded through the functions; a function that can also fail returns its error
    beside it. *)

From S2P Require Import Prelude GoStrings Prog Civm Idle RunnerUnits WatchdogBase WatchdogGitHub.

Local Open Scope string_scope.
Local Open Scope list_scope.
Local Open Scope Z_scope.

(** ** Classification of a failed log *)

Inductive FailureKind := FailureUnknown | FailureNetworkCheckout | FailureCode | FailureSecret.

#[global] Instance FailureKind_eq_dec : EqDecision FailureKind.
Proof. solve_decision. Defined.

Definition kind_string (k : FailureKind) : string :=
  match k with
  | FailureUnknown => "unknown"
  | FailureNetworkCheckout => "network_checkout"
  | FailureCode => "code"
  | FailureSecret => "secret"
  end.

Record FailureClassification := mkClassification {
  fc_Kind : FailureKind;
  fc_Signature : string;
  fc_Detail : string;
}.

Definition actionDownloadTransientSignatures : list string :=
  ["failed to resolve action download info. error: internal server error";
   "failed to resolve action download info. error: service unavailable"].

Definition networkCheckoutSignatures : list string :=
  ["rpc failed"; "early eof"; "invalid index-pack"; "curl 56"; "curl 92"; "gnutls recv error";
   "connection timed out"; "http/2 cancel"; "http/2 stream"; "the remote end hung up unexpectedly"].

Definition codeFailureSignatures : list string :=
  ["run go test"; "run npm test"; "run pnpm test"; "run yarn test"; "run make test"; "run go build";
   "run npm run build"; "run pnpm build"; "run yarn build"; "run golangci-lint"; "run eslint";
   "run npm run lint"; "run pnpm lint"; "run yarn lint"; "run tsc"; "fail" +:+ String "009" "";
   "npm err!"; "eslint"; "test failed"; "tests failed"; "build failed"; "lint failed"].

Definition secretSignatures : list string :=
  ["bad credentials"; "authentication failed"; "could not read username";
   "resource not accessible by integration"; "permission denied (publickey)";
   "a secret with the name"; "secret not found"; "secrets are not passed"].

(** The earliest signature, the first of the list among equals; [None] for index -1. *)
Definition firstSignature (haystack : string) (signatures : list string) : option (string * Z) :=
  foldl (fun best sig =>
           match Index haystack sig with
           | None => best
           | Some idx =>
               match best with
               | None => Some (sig, idx)
               | Some (_, bestIdx) => if idx <? bestIdx then Some (sig, idx) else best
               end
           end) None signatures.

(** The earlier of a network signature and a signature of a failed action download. *)
Definition network_signature (lower : string) : option (string * Z) :=
  let network := firstSignature lower networkCheckoutSignatures in
  match firstSignature lower actionDownloadTransientSignatures with
  | None => network
  | Some (actionSig, actionIdx) =>
      match network with
      | None => Some (actionSig, actionIdx)
      | Some (_, networkIdx) => if actionIdx <? networkIdx then Some (actionSig, actionIdx) else network
      end
  end.

Definition ClassifyFailureLog (log : string) : FailureClassification :=
  let lower := ToLower log in
  match firstSignature lower secretSignatures with
  | Some (sig, _) => mkClassification FailureSecret sig "secret/auth signature present"
  | None =>
      let code := firstSignature lower codeFailureSignatures in
      match network_signature lower with
      | None =>
          match code with
          | Some (codeSig, _) => mkClassification FailureCode codeSig "code/test/lint/build signature present"
          | None => mkClassification FailureUnknown "" "no network checkout signature"
          end
      | Some (sig, networkIdx) =>
          match code with
          | Some (codeSig, codeIdx) =>
              if codeIdx <? networkIdx
              then mkClassification FailureCode codeSig "code/test/lint/build step started before network failure"
              else mkClassification FailureNetworkCheckout sig "transient checkout/network signature"
          | None => mkClassification FailureNetworkCheckout sig "transient checkout/network signature"
          end
      end
  end.

Definition rerunnableConclusion (conclusion : string) : bool :=
  String.eqb conclusion "failure" || String.eqb conclusion "cancelled" || String.eqb conclusion "timed_out".

(** ** Broken-runner sentinels *)

Definition hookRecordIsBrokenSentinel (rec : hookLogRecord) : bool :=
  existsb (fun a => String.eqb (fst a) "work_root" && negb (String.eqb (TrimSpace (snd a)) ""))
    (hr_Actions rec).

Definition owns_work_root (clean : string) (s : Status) : bool :=
  let wd := Clean (st_WorkingDirectory s) in
  negb (String.eqb (st_UnitName s) "") && negb (String.eqb (st_WorkingDirectory s) "") &&
  (String.eqb clean wd || HasPrefix clean (wd +:+ "/")).

Definition unitForWorkRoot (workRoot : string) (systemd : list Status) : string :=
  let clean := Clean workRoot in
  fst (foldl (fun '(best, bestLen) s =>
                if owns_work_root clean s
                then let n := len (Clean (st_WorkingDirectory s)) in
                     if bestLen <? n then (st_UnitName s, n) else (best, bestLen)
                else (best, bestLen)) ("", -1) systemd).

(** The last 500 lines. *)
Definition tail_lines (lines : list string) : list string :=
  if (500 <? length lines)%nat then drop (length lines - 500) lines else lines.

Section watchdog.
Context `{SortSlice} `{MapRange}.
Context (decodeState : string -> result rerunState) (encodeState : rerunState -> result string).
Context (decodeHook : string -> option hookLogRecord).
Context (decodeConfig : string -> option (gmap string string)) (decodeString : string -> option string).
Context (url_Parse : string -> option (string * string * string)).
Context (decodeRunners : string -> result (list WatchdogGitHubRunner)).

Abbreviation load := (loadRerunState decodeState).
Abbreviation write := (writeRerunState encodeState).
Abbreviation orgRunners org :=
  (listWatchdogGitHubOrgRunners run decodeRunners org).

(** One line of hooks.jsonl, as the loop of [parseBrokenSentinels] folds it. *)
Definition sentinel_line (now : Z) (sentinelAt : gmap string Z) (line : string) : gmap string Z :=
  let line := TrimSpace line in
  if String.eqb line "" then sentinelAt else
  match decodeHook line with
  | None => sentinelAt
  | Some rec =>
      if String.eqb (hr_WorkRoot rec) "" || negb (hookRecordIsBrokenSentinel rec) then sentinelAt
      else
        let ts := if IsZero (hr_Time rec) then now else hr_Time rec in
        if ts <? now - Hour then sentinelAt
        else if default 0 (sentinelAt !! hr_WorkRoot rec) <? ts
             then <[hr_WorkRoot rec := ts]> sentinelAt else sentinelAt
  end.

Definition parseBrokenSentinels (opts : WatchdogOptions) (now : Z) : prog wdE (gmap string Z) :=
  data ← call (ReadFileFn (wo_HooksLogPath opts));
  match data with
  | Err _ => mret ∅
  | Ok data =>
      if len (TrimSpace data) =? 0 then mret ∅
      else mret (foldl (sentinel_line now) ∅ (tail_lines (Split "010" data)))
  end.

Definition map_sentinel (systemd : list Status) (acc : gmap string Z * WatchdogReport) (x : string * Z)
    : gmap string Z * WatchdogReport :=
  let '(unitSentinel, report) := acc in
  let '(workRoot, ts) := x in
  let unit := unitForWorkRoot workRoot systemd in
  if String.eqb unit ""
  then (unitSentinel, report |> wadd (event "runner-auto-restart-skipped" "warning"
                                        |> because "no-unit-for-work-root" |> saying workRoot))
  else if default 0 (unitSentinel !! unit) <? ts then (<[unit := ts]> unitSentinel, report)
  else (unitSentinel, report).

Definition mapSentinelsToUnits (sentinelAt : gmap string Z) (systemd : list Status) (report : WatchdogReport)
    : gmap string Z * WatchdogReport :=
  foldl (map_sentinel systemd) (∅, report) (map_range sentinelAt).

(** The window of a unit at [now]: a new hour resets the count but keeps the cursor. *)
Definition current_window (now : Z) (w : autoRestartWindow) : autoRestartWindow :=
  if IsZero (aw_WindowStart w) || (Hour <=? time_Sub now (aw_WindowStart w))
  then mkWindow 0 now (aw_LastActed w) else w.

Definition select_unit (opts : WatchdogOptions) (now : Z) (unitSentinel : gmap string Z)
    (acc : rerunState * WatchdogReport * list string) (unit : string)
    : rerunState * WatchdogReport * list string :=
  let '(state, report, toRestart) := acc in
  let ts := default 0 (unitSentinel !! unit) in
  let w := current_window now (default zero_window (rs_AutoRestarts state !! unit)) in
  if negb (aw_LastActed w <? ts) then acc
  else if wo_AutoRestartPerHour opts <=? aw_Count w then
    (state, report |> wadd (event "runner-auto-restart-skipped" "warning" |> on_unit unit
                              |> because "rate-cap-reached"
                              |> saying (Itoa (aw_Count w) +:+ "/" +:+ Itoa (wo_AutoRestartPerHour opts) +:+ " this hour")),
     toRestart)
  else if negb (wo_Execute opts) then
    (state, report |> wadd (event "runner-auto-restarted" "warning" |> on_unit unit
                              |> because "broken-runner-sentinel"), toRestart)
  else
    (set_AutoRestart unit (mkWindow (aw_Count w + 1) (aw_WindowStart w) ts) state, report, toRestart ++ [unit]).

Definition selectUnitsToRestart (opts : WatchdogOptions) (now : Z) (unitSentinel : gmap string Z)
    (state : rerunState) (report : WatchdogReport) : rerunState * WatchdogReport * list string :=
  foldl (select_unit opts now unitSentinel) (state, report, []) (sorted_keys unitSentinel).

Fixpoint executeRestarts (toRestart : list string) (report : WatchdogReport) : prog wdE WatchdogReport :=
  match toRestart with
  | [] => mret report
  | unit :: rest =>
      let ev := event "runner-auto-restarted" "warning" |> on_unit unit
                  |> because "broken-runner-sentinel" |> executed true in
      e ← call (RestartFn unit);
      match e with
      | None => executeRestarts rest (report |> wadd ev)
      | Some e =>
          if errors_Is e ErrRunnerBecameBusy
          then executeRestarts rest
                 (report |> wadd (event "runner-auto-restart-skipped" "warning" |> on_unit unit
                                    |> because "host-busy-after-freeze" |> saying (err_text e)))
          else executeRestarts rest (report |> raise 2 |> wadd (ev |> severe "critical" |> saying (err_text e)))
      end
  end.

Definition detectBrokenRunner (opts : WatchdogOptions) (systemd : list Status) (report : WatchdogReport)
    : prog wdE WatchdogReport :=
  now ← call NowFn;
  sentinelAt ← parseBrokenSentinels opts now;
  if decide (sentinelAt = ∅) then mret report else
  let '(unitSentinel, report) := mapSentinelsToUnits sentinelAt systemd report in
  if decide (unitSentinel = ∅) then mret report else
  loaded ← load opts;
  match loaded with
  | Err e => mret (report |> wadd (event "runner-auto-restart-skipped" "warning"
                                     |> because "marker-read-failed" |> saying (err_text e)))
  | Ok state =>
      let '(state, report, toRestart) := selectUnitsToRestart opts now unitSentinel state report in
      if decide (toRestart = []) then mret report else
      e ← write opts state;
      match e with
      | Some e => mret (report |> wadd (event "runner-auto-restart-skipped" "critical"
                                          |> because "marker-write-failed" |> saying (err_text e)) |> raise 2)
      | None => executeRestarts toRestart report
      end
  end.
(** ** Probes *)

(** A failing probe counts as a worker. *)
Definition hasLocalRunnerWorker : prog wdE bool :=
  activities ← call ActivityFn;
  mret (match activities with
        | Err _ => true
        | Ok l => existsb (fun a => Contains (act_Command a) "Runner.Worker") l
        end).

Definition idle_check (opts : WatchdogOptions) : prog wdE IdleResult :=
  Check (call ActivityFn) (fun d => call (ProbeTimer d)) (wo_IdleProbeDelay opts).

(** The reason and the detail of a host that is not idle. *)
Definition busy_reason (r : IdleResult) : string :=
  if decide (ir_Status r = StatusUnknown) then "host-idle-unknown" else "host-busy".
Definition busy_detail (r : IdleResult) : string :=
  if decide (ir_Status r = StatusUnknown) then ir_Error r else FormatActivities (ir_Activities r).

(** A skipped restart of a unit. *)
Definition skip (severity unit runner reason detail : string) : WatchdogEvent :=
  event "runner-restart-skipped" severity |> on_unit unit |> on_runner runner |> because reason |> saying detail.

(** ** Restart of dead services *)

Definition restart_reason (s : Status) : string :=
  "systemd-" +:+ TrimChar "-" (Join [st_ActiveState s; st_SubState s] "-").

Definition restartCandidates (systemd : list Status) (ghByRepo : gmap string (list WatchdogGitHubRunner))
    : gmap string string :=
  let localByRepoName : gmap string Status :=
    foldl (fun m s => <[st_Repo s +:+ "/" +:+ st_Name s := s]> m) ∅ systemd in
  let dead : gmap string string :=
    foldl (fun out s => if String.eqb (st_UnitName s) "" then out
                        else if negb (running s) then <[st_UnitName s := restart_reason s]> out else out) ∅ systemd in
  foldl (fun out '(repo, runners) =>
           foldl (fun out r =>
                    if negb (String.eqb (gr_Status r) "offline") then out
                    else match localByRepoName !! (repo +:+ "/" +:+ gr_Name r) with
                         | Some local => if String.eqb (st_UnitName local) "" then out
                                         else <[st_UnitName local := "github-offline"]> out
                         | None => out
                         end) out runners) dead (map_range ghByRepo).

(** A runner of a repository beside its organization's runner is never restarted. *)
Definition drop_collision (acc : gmap string string * WatchdogReport) (c : Collision)
    : gmap string string * WatchdogReport :=
  let '(candidates, report) := acc in
  match candidates !! cl_RepoUnit c with
  | None => acc
  | Some _ =>
      (delete (cl_RepoUnit c) candidates,
       report |> wadd (event "runner-restart-skipped" "warning" |> on_unit (cl_RepoUnit c)
                         |> because "redundant-repo-runner"
                         |> saying ("colide com " +:+ cl_OrgName c +:+ " para " +:+ cl_Repo c +:+
                                    "; remover em vez de restartar")))
  end.

Fixpoint restart_units (opts : WatchdogOptions) (candidates : gmap string string) (units : list string)
    (report : WatchdogReport) : prog wdE (err_ret * WatchdogReport) :=
  match units with
  | [] => mret (None, report)
  | unit :: units =>
      let ev := event "runner-restarted" "info" |> on_unit unit
                  |> because (default "" (candidates !! unit)) |> executed (wo_Execute opts) in
      if negb (wo_Execute opts) then restart_units opts candidates units (report |> wadd ev) else
      busy ← hasLocalRunnerWorker;
      if busy : bool then
        restart_units opts candidates units
          (report |> wadd (skip "warning" unit "" "host-busy" "Runner.Worker appeared before restart"))
      else
        e ← call (RestartFn unit);
        match e with
        | None => restart_units opts candidates units (report |> wadd ev)
        | Some e =>
            if errors_Is e ErrRunnerBecameBusy
            then restart_units opts candidates units
                   (report |> wadd (skip "warning" unit "" "host-busy-after-freeze" (err_text e)))
            else mret (Some e, report |> wadd (ev |> severe "critical" |> saying (err_text e)))
        end
  end.

Definition restartWatchdogRunners (opts : WatchdogOptions) (systemd : list Status)
    (ghByRepo : gmap string (list WatchdogGitHubRunner)) (report : WatchdogReport)
    : prog wdE (err_ret * WatchdogReport) :=
  let '(candidates, report) :=
    foldl drop_collision (restartCandidates systemd ghByRepo, report) (DetectCollisions systemd) in
  restart_units opts candidates (sorted_keys candidates) report.

(** ** An organization runner that GitHub calls busy without a local worker *)

Definition org_busy_key (unit : string) : string := "org-busy:" +:+ unit.

Definition pending_dwell (state : rerunState) (local : Status) : bool :=
  negb (String.eqb (st_UnitName local) "") && negb (String.eqb (st_Org local) "") &&
  match rs_AutoRestarts state !! org_busy_key (st_UnitName local) with
  | Some w => aw_Count w =? 0
  | None => false
  end.

(** The state without the pending dwells, and whether one was dropped. *)
Definition drop_dwell (acc : rerunState * bool) (local : Status) : rerunState * bool :=
  let '(state, changed) := acc in
  if pending_dwell state local
  then (delete_AutoRestart (org_busy_key (st_UnitName local)) state, true) else acc.

Definition clearPendingWatchdogOrgBusyDwell (opts : WatchdogOptions) (systemd : list Status)
    (report : WatchdogReport) : prog wdE WatchdogReport :=
  if negb (wo_Execute opts) then mret report else
  loaded ← load opts;
  match loaded with
  | Err e => mret (report |> wadd (skip "critical" "" "" "marker-read-failed" (err_text e)) |> raise 2)
  | Ok state =>
      let '(state, changed) := foldl drop_dwell (state, false) systemd in
      if negb changed then mret report else
      e ← write opts state;
      match e with
      | Some e => mret (report |> wadd (skip "critical" "" "" "marker-write-failed" (err_text e)) |> raise 2)
      | None => mret report
      end
  end.

(** The window of the incident at [now]. *)
Definition org_busy_window (now : Z) (w : autoRestartWindow) : autoRestartWindow :=
  if IsZero (aw_WindowStart w) || ((1 <=? aw_Count w) && (Hour <=? time_Sub now (aw_WindowStart w)))
  then mkWindow 0 now 0 else w.

(** After the dwell: at most one restart in the window. *)
Definition org_busy_restart (opts : WatchdogOptions) (local : Status) (gh : WatchdogGitHubRunner) (now : Z)
    (window : autoRestartWindow) (state : rerunState) (report : WatchdogReport) : prog wdE WatchdogReport :=
  let unit := st_UnitName local in
  let runner := gr_Name gh in
  let ev := event "runner-restarted" "info" |> on_unit unit |> on_runner runner
              |> because "github-busy-without-local-worker" |> executed (wo_Execute opts) in
  if 1 <=? aw_Count window then
    mret (report |> wadd (skip "warning" unit runner "org-busy-cooldown"
                            "already restarted once in the rolling hour"))
  else if negb (wo_Execute opts) then mret (report |> wadd ev) else
  busy ← hasLocalRunnerWorker;
  if busy : bool then
    mret (report |> wadd (skip "warning" unit runner "host-busy" "Runner.Worker appeared before restart"))
  else
    let window := mkWindow (aw_Count window + 1) (aw_WindowStart window) now in
    let state := set_AutoRestart (org_busy_key unit) window state in
    e ← write opts state;
    match e with
    | Some e => mret (report |> wadd (skip "critical" unit runner "marker-write-failed" (err_text e)) |> raise 2)
    | None =>
        e ← call (RestartFn unit);
        match e with
        | None => mret (report |> wadd ev)
        | Some e =>
            if errors_Is e ErrRunnerBecameBusy
            then mret (report |> wadd (skip "warning" unit runner "host-busy-after-freeze" (err_text e)))
            else mret (report |> wadd (ev |> severe "critical" |> saying (err_text e)) |> raise 2)
        end
    end.

(** The body of the inner loop on the runner that matched; it always returns. *)
Definition org_busy_found (opts : WatchdogOptions) (local : Status) (gh : WatchdogGitHubRunner)
    (report : WatchdogReport) : prog wdE WatchdogReport :=
  let unit := st_UnitName local in
  let runner := gr_Name gh in
  loaded ← load opts;
  match loaded with
  | Err e => mret (report |> wadd (skip "critical" unit runner "marker-read-failed" (err_text e)) |> raise 2)
  | Ok state =>
      now ← call NowFn;
      let key := org_busy_key unit in
      let window := org_busy_window now (default zero_window (rs_AutoRestarts state !! key)) in
      if negb ((aw_Count window =? 0) && (0 <? wo_QueueStallDwell opts))
      then org_busy_restart opts local gh now window state report
      else
        let early := time_Sub now (aw_WindowStart window) <? 0 in
        let window := if early then mkWindow (aw_Count window) now (aw_LastActed window) else window in
        let age := if early then 0 else time_Sub now (aw_WindowStart window) in
        let state := set_AutoRestart key window state in
        e ← (if wo_Execute opts then write opts state else mret None);
        match e with
        | Some e => mret (report |> wadd (skip "critical" unit runner "marker-write-failed" (err_text e)) |> raise 2)
        | None =>
            if age <? wo_QueueStallDwell opts then
              mret (report |> wadd (skip "warning" unit runner "org-busy-dwell" ""
                                      |> executed (wo_Execute opts) |> aged (whole_seconds age)))
            else org_busy_restart opts local gh now window state report
        end
  end.

Definition active_org (s : Status) : bool :=
  negb (String.eqb (st_UnitName s) "") && negb (String.eqb (st_Org s) "") && running s.

Definition claims_busy (local : Status) (gh : WatchdogGitHubRunner) : bool :=
  String.eqb (gr_Name gh) (st_Name local) && String.eqb (gr_Status gh) "online" && gr_Busy gh.

Fixpoint org_busy_loop (opts : WatchdogOptions) (systemd : list Status) (report : WatchdogReport)
    : prog wdE WatchdogReport :=
  match systemd with
  | [] => mret report
  | local :: systemd =>
      if negb (active_org local) then org_busy_loop opts systemd report else
      runners ← orgRunners (st_Org local);
      match runners with
      | Err e =>
          org_busy_loop opts systemd
            (report |> wadd (event "runner-online-unknown" "warning" |> on_unit (st_UnitName local)
                               |> because "github-org-runners-failed" |> saying (err_text e)))
      | Ok runners =>
          match List.find (claims_busy local) runners with
          | Some gh => org_busy_found opts local gh report
          | None =>
              report ← clearPendingWatchdogOrgBusyDwell opts [local] report;
              org_busy_loop opts systemd report
          end
      end
  end.

Definition recoverWatchdogOrgBusyWithoutWorker (opts : WatchdogOptions) (systemd : list Status)
    (report : WatchdogReport) : prog wdE WatchdogReport :=
  busy ← hasLocalRunnerWorker;
  if busy : bool then clearPendingWatchdogOrgBusyDwell opts systemd report else
  call (SleepFn (wo_IdleProbeDelay opts));;
  busy ← hasLocalRunnerWorker;
  if busy : bool then clearPendingWatchdogOrgBusyDwell opts systemd report else
  org_busy_loop opts systemd report.
(** ** An idle organization runner beside a waiting queue *)

Definition watchdogOrgRunner (local : Status) : prog wdE (result (option WatchdogGitHubRunner)) :=
  runners ← orgRunners (st_Org local);
  match runners with
  | Err e => mret (Err e)
  | Ok runners =>
      mret (Ok (List.find (fun gh => String.eqb (gr_Name gh) (st_Name local) &&
                                     hasWatchdogLabel (gr_Labels gh) "self-hosted" &&
                                     hasWatchdogLabel (gr_Labels gh) "civm") runners))
  end.

Definition online_idle (gh : WatchdogGitHubRunner) : bool :=
  String.eqb (gr_Status gh) "online" && negb (gr_Busy gh).

Definition watchdogOnlineIdleOrgRunner (local : Status) : prog wdE (result (option WatchdogGitHubRunner)) :=
  found ← watchdogOrgRunner local;
  match found with
  | Err e => mret (Err e)
  | Ok None => mret (Ok None)
  | Ok (Some gh) => mret (Ok (if online_idle gh then Some gh else None))
  end.

Definition clearQueueStallIncident (opts : WatchdogOptions) (state : rerunState) (local : Status)
    (gh : WatchdogGitHubRunner) (exists_ : bool) (reason : string) (report : WatchdogReport)
    : prog wdE WatchdogReport :=
  if negb exists_ then mret report else
  let ev := event "queue-stall-recovered" "info" |> on_unit (st_UnitName local) |> on_runner (gr_Name gh)
              |> because reason |> executed (wo_Execute opts) in
  if negb (wo_Execute opts) then mret (report |> wadd ev) else
  e ← write opts (delete_QueueStall (st_UnitName local) state);
  match e with
  | Some e => mret (report |> wadd (skip "critical" (st_UnitName local) (gr_Name gh) "marker-write-failed"
                                      (err_text e)) |> raise 2)
  | None => mret (report |> wadd ev)
  end.

(** The last part: record the restart, restart, and take the record back when the runner
    turned out to be busy. *)
Definition queue_restart (opts : WatchdogOptions) (state : rerunState) (local : Status)
    (gh : WatchdogGitHubRunner) (incident : queueStallIncident) (evidence : WatchdogQueueEvidence)
    (now age : Z) (report : WatchdogReport) : prog wdE WatchdogReport :=
  let unit := st_UnitName local in
  let runner := gr_Name gh in
  let marked at_ := set_QueueStall unit (mkIncident (qi_Signature incident) (qi_FirstSeen incident) at_) state in
  let failed e := report |> wadd (skip "critical" unit runner "marker-write-failed" (err_text e)) |> raise 2 in
  e ← write opts (marked now);
  match e with
  | Some e => mret (failed e)
  | None =>
      let ev := event "runner-restarted" "info" |> on_unit unit |> on_runner runner
                  |> because "github-online-idle-with-civm-queue" |> queued (qe_EligibleJobs evidence)
                  |> aged (whole_seconds age) |> executed true in
      e ← call (RestartFn unit);
      match e with
      | None => mret (report |> set_Metrics runner_restart |> wadd ev)
      | Some e =>
          if errors_Is e ErrRunnerBecameBusy then
            we ← write opts (marked 0);
            match we with
            | Some we => mret (failed we)
            | None => mret (report |> wadd (skip "warning" unit runner "host-busy-after-freeze" (err_text e)
                                              |> queued (qe_EligibleJobs evidence)))
            end
          else mret (report |> raise 2 |> set_Metrics runner_restart
                       |> wadd (ev |> severe "critical" |> saying (err_text e)))
      end
  end.

Definition err_detail {A} (r : result A) : string := match r with Err e => err_text e | Ok _ => "" end.

(** All three signals are read again right before the restart. *)
Definition queue_revalidate (opts : WatchdogOptions) (state : rerunState) (local : Status) (repos : list string)
    (gh : WatchdogGitHubRunner) (incident : queueStallIncident) (evidence : WatchdogQueueEvidence)
    (now age : Z) (report : WatchdogReport) : prog wdE WatchdogReport :=
  let skipped reason detail :=
    report |> wadd (skip "warning" (st_UnitName local) (gr_Name gh) reason detail) in
  ready ← watchdogOnlineIdleOrgRunner local;
  match ready with
  | Err _ | Ok None => mret (skipped "runner-state-changed" (err_detail ready))
  | Ok (Some _) =>
      revalidated ← call (QueuedCivmJobsFn repos now (wo_MaxRunAge opts));
      match revalidated with
      | Err e => mret (skipped "queue-state-changed" (err_text e))
      | Ok again =>
          if (qe_EligibleJobs again =? 0) || negb (String.eqb (qe_Signature again) (qe_Signature evidence))
          then mret (skipped "queue-state-changed" "")
          else
            idle ← idle_check opts;
            if negb (bool_decide (ir_Status idle = StatusIdle))
            then mret (skipped (busy_reason idle) "")
            else queue_restart opts state local gh incident evidence now age report
      end
  end.

(** The incident of the unit against the evidence of this tick. *)
Definition queue_incident (opts : WatchdogOptions) (state : rerunState) (local : Status) (repos : list string)
    (gh : WatchdogGitHubRunner) (known : option queueStallIncident) (evidence : WatchdogQueueEvidence)
    (now : Z) (report : WatchdogReport) : prog wdE WatchdogReport :=
  let unit := st_UnitName local in
  let runner := gr_Name gh in
  let jobs := qe_EligibleJobs evidence in
  let about ev reason age := ev |> on_unit unit |> on_runner runner |> because reason |> queued jobs
                               |> aged (whole_seconds age) in
  let report := report |> set_Metrics queue_stall in
  let incident := default zero_incident known in
  if negb (bool_decide (is_Some known)) || negb (String.eqb (qi_Signature incident) (qe_Signature evidence)) then
    let incident := mkIncident (qe_Signature evidence) now 0 in
    e ← (if wo_Execute opts then write opts (set_QueueStall unit incident state) else mret None);
    match e with
    | Some e => mret (report |> wadd (skip "critical" unit runner "marker-write-failed" (err_text e)) |> raise 2)
    | None => mret (report |> wadd (about (event "queue-stall-armed" "warning") "github-online-idle-with-civm-queue" 0
                                      |> executed (wo_Execute opts)))
    end
  else
    let age := time_Sub now (qi_FirstSeen incident) in
    if negb (IsZero (qi_RestartedAt incident)) then
      mret (report |> set_Metrics stall_unresolved
              |> wadd (about (event "queue-stall-unresolved" "critical") "restart-did-not-advance-queue" age) |> raise 2)
    else if age <? wo_QueueStallDwell opts then
      mret (report |> wadd (about (event "queue-stall-observed" "warning") "dwell-not-reached" age))
    else if negb (wo_Execute opts) then
      mret (report |> wadd (about (event "runner-restarted" "info") "github-online-idle-with-civm-queue" age))
    else queue_revalidate opts state local repos gh incident evidence now age report.

Definition queue_recover (opts : WatchdogOptions) (local : Status) (repos : list string) (report : WatchdogReport)
    : prog wdE WatchdogReport :=
  let unit := st_UnitName local in
  found ← watchdogOrgRunner local;
  match found with
  | Err e => mret (report |> wadd (skip "warning" unit "" "github-org-runners-failed" (err_text e)) |> raise 1)
  | Ok None => mret report
  | Ok (Some gh) =>
      loaded ← load opts;
      match loaded with
      | Err e => mret (report |> wadd (skip "critical" unit (gr_Name gh) "marker-read-failed" (err_text e)) |> raise 2)
      | Ok state =>
          let known := rs_QueueStalls state !! unit in
          let exists_ := bool_decide (is_Some known) in
          if String.eqb (gr_Status gh) "online" && gr_Busy gh
          then clearQueueStallIncident opts state local gh exists_ "runner-consuming-job" report
          else if negb (String.eqb (gr_Status gh) "online") || gr_Busy gh then mret report
          else
            now ← call NowFn;
            evidence ← call (QueuedCivmJobsFn repos now (wo_MaxRunAge opts));
            match evidence with
            | Err e => mret (report |> wadd (skip "warning" unit (gr_Name gh) "queued-jobs-unknown" (err_text e)) |> raise 1)
            | Ok evidence =>
                if qe_EligibleJobs evidence =? 0
                then clearQueueStallIncident opts state local gh exists_ "eligible-queue-empty" report
                else
                  idle ← idle_check opts;
                  if negb (bool_decide (ir_Status idle = StatusIdle))
                  then mret (report |> wadd (skip "warning" unit (gr_Name gh) (busy_reason idle) (busy_detail idle)
                                               |> queued (qe_EligibleJobs evidence)))
                  else queue_incident opts state local repos gh known evidence now report
            end
      end
  end.

Definition recoverWatchdogOrgIdleWithQueue (opts : WatchdogOptions) (systemd : list Status) (repos : list string)
    (report : WatchdogReport) : prog wdE WatchdogReport :=
  match filter (fun s => active_org s = true) systemd with
  | [] => mret report
  | [local] => if decide (repos = []) then mret report else queue_recover opts local repos report
  | _ => mret (report |> wadd (event "runner-restart-skipped" "warning" |> because "ambiguous-org-runner"
                                 |> saying "mais de 1 runner org ativo; nenhuma unit escolhida"))
  end.

(** ** Reruns of network failures *)

(** The empty string means that the run may be looked at. *)
Definition skipRunBeforeLog (opts : WatchdogOptions) (repo : string) (run : WatchdogRun) (state : rerunState)
    : prog wdE string :=
  match ValidateRepo repo with Some _ => mret "repo-invalid" | None =>
  if negb (rerunnableConclusion (wn_Conclusion run)) then mret "conclusion-not-rerunnable"
  else if IsZero (wn_CreatedAt run) then mret "run-created-at-missing"
  else
    now ← call NowFn;
    if wo_MaxRunAge opts <? time_Sub now (wn_CreatedAt run) then mret "run-too-old"
    else if bool_decide (wn_PullRequests run = []) then mret "no-open-pr-association"
    else match rs_Reruns state !! rerunMarkerKey (wn_ID run) (wn_HeadSHA run) with
         | Some m => if negb (rm_RunID m =? 0) then mret "already-rerun" else mret ""
         | None => mret ""
         end
  end.

(** The pull request to rerun for, or the reason not to. *)
Fixpoint open_pull_request (repo : string) (refs : list Z) (lastReason : string)
    : prog wdE (result (WatchdogPullRequest + string)) :=
  match refs with
  | [] => mret (Ok (inr lastReason))
  | number :: refs =>
      if number <=? 0 then open_pull_request repo refs lastReason else
      pr ← call (PullRequestFn repo number);
      match pr with
      | Err e => mret (Err e)
      | Ok pr =>
          if negb (String.eqb (pl_State pr) "open") then open_pull_request repo refs "pr-not-open"
          else
            let mergeable := ToLower (TrimSpace (pl_MergeableState pr)) in
            if String.eqb mergeable "dirty" || String.eqb mergeable "conflicting"
            then mret (Ok (inr "pr-conflicting")) else mret (Ok (inl pr))
      end
  end.

Definition openPullRequestForRun (repo : string) (run : WatchdogRun) : prog wdE (result (WatchdogPullRequest + string)) :=
  open_pull_request repo (wn_PullRequests run) "no-open-pr-association".

(** The state, whether it was changed, and the report, behind pointers in the source. *)
Definition rerun_acc : Type := rerunState * bool * WatchdogReport.

Definition evaluateNetworkRerun (opts : WatchdogOptions) (repo : string) (run : WatchdogRun) (acc : rerun_acc)
    : prog wdE (err_ret * rerun_acc) :=
  let '(state, mutated, report) := acc in
  let about ev := ev |> on_repo repo |> on_run (wn_ID run) (wn_HeadSHA run) in
  let skipped severity reason detail :=
    report |> wadd (about (event "rerun-skipped" severity) |> because reason |> saying detail) in
  reason ← skipRunBeforeLog opts repo run state;
  if negb (String.eqb reason "") then mret (None, (state, mutated, skipped "info" reason "")) else
  found ← openPullRequestForRun repo run;
  match found with
  | Err e => mret (None, (state, mutated, skipped "warning" "pr-check-failed" (err_text e) |> raise 1))
  | Ok (inr reason) => mret (None, (state, mutated, skipped "info" reason ""))
  | Ok (inl pr) =>
      log ← call (RunLogFn repo (wn_ID run));
      match log with
      | Err e => mret (None, (state, mutated, skipped "warning" "log-fetch-failed" (err_text e) |> raise 1))
      | Ok log =>
          let c := ClassifyFailureLog log in
          if negb (bool_decide (fc_Kind c = FailureNetworkCheckout))
          then mret (None, (state, mutated, skipped "info" (kind_string (fc_Kind c)) (fc_Detail c)))
          else
            let ev := about (event "rerun-triggered" "info") |> because "network-checkout"
                        |> saying ("pr=" +:+ Itoa (pl_Number pr) +:+ " signature=" +:+ fc_Signature c)
                        |> executed (wo_Execute opts) in
            if negb (wo_Execute opts) then mret (None, (state, mutated, report |> wadd ev)) else
            e ← call (RerunFn repo (wn_ID run));
            match e with
            | Some e => mret (Some e, (state, mutated, report |> wadd (ev |> severe "critical"
                                                          |> saying ("gh run rerun: " +:+ err_text e))))
            | None =>
                now ← call NowFn;
                mret (None, (set_Rerun (rerunMarkerKey (wn_ID run) (wn_HeadSHA run))
                               (mkRerunMarker repo (wn_ID run) (wn_HeadSHA run) now) state,
                             true, report |> wadd ev))
            end
      end
  end.

Fixpoint rerun_runs (opts : WatchdogOptions) (repo : string) (runs : list WatchdogRun) (acc : rerun_acc)
    : prog wdE (err_ret * rerun_acc) :=
  match runs with
  | [] => mret (None, acc)
  | run :: runs =>
      let '(state, mutated, report) := acc in
      r ← evaluateNetworkRerun opts repo run (state, mutated, report |> set_Metrics run_considered);
      let '(e, acc) := r in
      match e with Some e => mret (Some e, acc) | None => rerun_runs opts repo runs acc end
  end.

Fixpoint rerun_repos (opts : WatchdogOptions) (repoOnline : gset string) (repos : list string) (acc : rerun_acc)
    : prog wdE (err_ret * rerun_acc) :=
  match repos with
  | [] => mret (None, acc)
  | repo :: repos =>
      let '(state, mutated, report) := acc in
      if negb (bool_decide (repo ∈ repoOnline)) then
        rerun_repos opts repoOnline repos
          (state, mutated, report |> wadd (event "rerun-skipped" "warning" |> on_repo repo |> because "runner-not-online"))
      else
        runs ← call (ListRunsFn repo (wo_RunLimit opts));
        match runs with
        | Err e =>
            rerun_repos opts repoOnline repos
              (state, mutated, report |> wadd (event "rerun-skipped" "warning" |> on_repo repo
                                                 |> because "run-list-failed" |> saying (err_text e)) |> raise 1)
        | Ok runs =>
            r ← rerun_runs opts repo runs acc;
            let '(e, acc) := r in
            match e with Some e => mret (Some e, acc) | None => rerun_repos opts repoOnline repos acc end
        end
  end.

Definition rerunWatchdogNetworkFailures (opts : WatchdogOptions) (repos : list string) (repoOnline : gset string)
    (report : WatchdogReport) : prog wdE (err_ret * WatchdogReport) :=
  let skipped report reason e :=
    report |> wadd (event "rerun-skipped" "critical" |> because reason |> saying (err_text e)) in
  loaded ← load opts;
  match loaded with
  | Err e => mret (Some e, skipped report "marker-read-failed" e)
  | Ok state =>
      r ← rerun_repos opts repoOnline repos (state, false, report);
      let '(e, (state, mutated, report)) := r in
      match e with
      | Some e => mret (Some e, report)
      | None =>
          if negb mutated then mret (None, report) else
          e ← write opts state;
          match e with
          | Some e => mret (Some e, skipped report "marker-write-failed" e)
          | None => mret (None, report)
          end
      end
  end.
(** ** The GitHub side of the repositories *)

(** A runner that is online and carries the label of the fleet. *)
Definition civm_online (r : WatchdogGitHubRunner) : bool :=
  String.eqb (gr_Status r) "online" && hasWatchdogLabel (gr_Labels r) "civm".

Definition note_online (repo : string) (report : WatchdogReport) (r : WatchdogGitHubRunner) : WatchdogReport :=
  if civm_online r
  then report |> wadd (event "runner-online" "info" |> on_repo repo |> on_runner (gr_Name r) |> online true)
  else report.

Fixpoint collect_runners (repos : list string) (byRepo : gmap string (list WatchdogGitHubRunner))
    (repoOnline : gset string) (report : WatchdogReport)
    : prog wdE (gmap string (list WatchdogGitHubRunner) * gset string * WatchdogReport) :=
  match repos with
  | [] => mret (byRepo, repoOnline, report)
  | repo :: repos =>
      runners ← call (GitHubRunnersFn repo);
      match runners with
      | Err e =>
          collect_runners repos byRepo repoOnline
            (report |> wadd (event "runner-online-unknown" "warning" |> on_repo repo
                               |> because "github-runners-failed" |> saying (err_text e)) |> raise 1)
      | Ok runners =>
          collect_runners repos (<[repo := runners]> byRepo)
            (if existsb civm_online runners then {[repo]} ∪ repoOnline else repoOnline)
            (foldl (note_online repo) report runners)
      end
  end.

Definition collectWatchdogGitHubRunners (repos : list string) (report : WatchdogReport)
    : prog wdE (gmap string (list WatchdogGitHubRunner) * gset string * WatchdogReport) :=
  collect_runners repos ∅ ∅ report.

Definition anyRepoOnline (repoOnline : gset string) : bool := bool_decide (repoOnline <> ∅).
Definition anyLocalRunnerOnline (systemd : list Status) : bool := existsb running systemd.
Definition hasWatchdogOrgRunner (systemd : list Status) : bool :=
  existsb (fun s => negb (String.eqb (st_Org s) "")) systemd.

(** ** The hooks *)

Definition install_request (opts : WatchdogOptions) : InstallRequest :=
  let given x := if String.eqb x "" then None else Some x in
  mkInstallRequest (wo_Execute opts) false true (given (wo_HooksDir opts)) (given (wo_RunnerGlob opts))
    (given (wo_CivmctlPath opts)).

Definition repairWatchdogHooks (opts : WatchdogOptions) (report : WatchdogReport)
    : prog wdE (err_ret * WatchdogReport) :=
  res ← call (HookInstallFn (install_request opts));
  let ev := event "hooks-repaired" "info" |> executed (wo_Execute opts)
              |> saying (Itoa (io_RunnerEnvFiles res) +:+ " runner env file(s)") in
  if negb (String.eqb (io_Error res) "")
  then mret (Some (Errorf (io_Error res)),
             report |> wadd (ev |> severe "critical" |> because "hook-install-failed" |> saying (io_Error res)))
  else mret (None, report |> wadd ev).

(** ** The tick *)

(** The repositories after the fallback to the configured fleet, and whether it was used. *)
Definition fleet_repos (opts : WatchdogOptions) (systemd : list Status) (repos : list string)
    : prog wdE (result (list string * bool)) :=
  if wo_InferRepos opts && bool_decide (repos = []) && hasWatchdogOrgRunner systemd then
    configured ← call QueueReposFn;
    match configured with
    | Err e => mret (Err e)
    | Ok configured =>
        match normalizeWatchdogRepos configured with
        | Err e => mret (Err e)
        | Ok repos => mret (Ok (repos, negb (bool_decide (repos = []))))
        end
    end
  else mret (Ok (repos, false)).

(** The tick of a fleet without repositories of its own. *)
Definition org_tick (opts : WatchdogOptions) (systemd : list Status) (repos : list string) (report : WatchdogReport)
    : prog wdE WatchdogReport :=
  let localOnlineBeforeRepair := anyLocalRunnerOnline systemd in
  report ← recoverWatchdogOrgBusyWithoutWorker opts systemd report;
  report ← recoverWatchdogOrgIdleWithQueue opts systemd repos report;
  r ← restartWatchdogRunners opts systemd ∅ report;
  let '(e, report) := r in
  match e with
  | Some _ => mret (report |> set_Exit 2)
  | None =>
      let report := report |> set_Online (localOnlineBeforeRepair || watchdogReportHasEvent report "runner-restarted") in
      let report := if bool_decide (repos = [])
                    then report |> wadd (event "rerun-skipped" "warning" |> because "no-repos") else report in
      mret (if bool_decide (systemd = []) then report |> raise 1 else report)
  end.

(** A repository without an online runner. *)
Definition note_offline (repoOnline : gset string) (report : WatchdogReport) (repo : string) : WatchdogReport :=
  if bool_decide (repo ∈ repoOnline) then report
  else report |> wadd (event "runner-offline" "warning" |> on_repo repo |> because "github-not-online") |> raise 1.

(** From the repair of the hooks to the end. *)
Definition repo_repair (opts : WatchdogOptions) (systemd : list Status) (repos : list string)
    (ghBefore : gmap string (list WatchdogGitHubRunner)) (report : WatchdogReport) : prog wdE WatchdogReport :=
  r ← repairWatchdogHooks opts report;
  let '(e, report) := r in
  match e with Some _ => mret (report |> set_Exit 2) | None =>
  r ← restartWatchdogRunners opts systemd ghBefore report;
  let '(e, report) := r in
  match e with Some _ => mret (report |> set_Exit 2) | None =>
  collected ← collectWatchdogGitHubRunners repos report;
  let '(_, repoOnline, report) := collected in
  let report := report |> set_Online (anyRepoOnline repoOnline) in
  let report := foldl (note_offline repoOnline) report repos in
  if negb (wo_RerunNetworkFailures opts)
  then mret (report |> wadd (event "rerun-skipped" "info" |> because "disabled"))
  else
    r ← rerunWatchdogNetworkFailures opts repos repoOnline report;
    let '(e, report) := r in
    mret (match e with Some _ => report |> set_Exit 2 | None => report end)
  end end.

(** The tick of a fleet with repositories. *)
Definition repo_tick (opts : WatchdogOptions) (systemd : list Status) (repos : list string) (report : WatchdogReport)
    : prog wdE WatchdogReport :=
  collected ← collectWatchdogGitHubRunners repos report;
  let '(ghBefore, repoOnline, report) := collected in
  let report := report |> set_Online (anyRepoOnline repoOnline) in
  report ← detectBrokenRunner opts systemd report;
  idle ← (if wo_Execute opts then idle_check opts else mret idleResult);
  if negb (bool_decide (ir_Status idle = StatusIdle)) then
    let about ev := ev |> because (busy_reason idle) |> saying (busy_detail idle) in
    let report := report |> wadd (about (event "runner-restart-skipped" "warning")) in
    mret (if wo_RerunNetworkFailures opts then report |> wadd (about (event "rerun-skipped" "warning")) else report)
  else repo_repair opts systemd repos ghBefore report.

(** From the list of services to the end. *)
Definition tick (opts : WatchdogOptions) (report : WatchdogReport) : prog wdE WatchdogReport :=
  listed ← call SystemRunnersFn;
  let '(systemd, err) := listed in
  let report := match err with
                | Some e => report |> wadd (event "runner-status-unknown" "warning"
                                              |> because "systemd-list-failed" |> saying (err_text e)) |> raise 1
                | None => report
                end in
  systemd ← enrichWatchdogSystemdRepos decodeConfig decodeString url_Parse systemd;
  let repos := if wo_InferRepos opts && bool_decide (wo_Repos opts = [])
               then inferWatchdogRepos systemd else wo_Repos opts in
  fleet ← fleet_repos opts systemd repos;
  match fleet with
  | Err e => mret (report |> wadd (event "runner-restart-skipped" "critical" |> because "queue-repos-failed"
                                     |> saying (err_text e)) |> set_Exit 2)
  | Ok (repos, usedOrgFleetFallback) =>
      let report := report |> set_Repos repos in
      if bool_decide (repos = []) || usedOrgFleetFallback
      then org_tick opts systemd repos report else repo_tick opts systemd repos report
  end.

Definition Watchdog (opts : WatchdogOptions) : prog wdE WatchdogReport :=
  let opts := applyWatchdogScalarDefaults opts in
  let report := mkWReport (wo_Execute opts) [] false (mkWMetrics 0 0 0 0 0 0) [] 0 in
  match validateWatchdogOptions opts with
  | Some e => mret (report |> wadd (event "watchdog-invalid" "critical" |> because "invalid-options"
                                      |> saying (err_text e)) |> set_Exit 2)
  | None =>
      active ← call (MaintenanceActiveFn (wo_MaintenanceStatePath opts));
      match active with
      | Err e => mret (report |> wadd (event "runner-restart-skipped" "critical"
                                         |> because "maintenance-state-unknown" |> saying (err_text e)) |> set_Exit 1)
      | Ok true => mret (report |> wadd (event "runner-restart-skipped" "info" |> because "maintenance-active"))
      | Ok false =>
          down ← call (NetworkFn (wo_NetworkTimeout opts));
          match down with
          | Some e => mret (report |> wadd (event "network-down" "warning" |> because "github-unreachable"
                                              |> saying (err_text e)) |> set_Exit 1)
          | None => tick opts report
          end
      end
  end.
End watchdog.

(** ** The default [RestartFn] *)

Definition watchdogUnitCgroupEmpty (unit : string) : prog wdE (result bool) :=
  out ← run "systemctl" ["show"; unit; "--property=ControlGroup"; "--value"];
  match out with
  | Err e => mret (Err e)
  | Ok out =>
      let group := TrimSpace out in
      if String.eqb group "" then mret (Ok true)
      else
        let clean := Clean group in
        if negb (HasPrefix clean "/system.slice/") then mret (Err (Errorf "unsafe control group"))
        else
          data ← call (ReadFileFn (PathJoin (PathJoin "/sys/fs/cgroup" (TrimPrefix clean "/")) "cgroup.procs"));
          match data with
          | Err e => if errors_Is e ErrNotExist then mret (Ok true) else mret (Err e)
          | Ok data => mret (Ok (String.eqb (TrimSpace data) ""))
          end
  end.

Definition systemctl (args : list string) : prog wdE (result string) := run "sudo" ("systemctl" :: args).

(** [systemctl is-active], whose error is ignored: the trimmed output. *)
Definition is_active (unit : string) : prog wdE string :=
  out ← call (RunFn "systemctl" ["is-active"; unit]);
  mret (TrimSpace (fst out)).

(** From the kill of the residual processes to the end; the unit is stopped. *)
Definition restart_stopped (opts : WatchdogOptions) (unit : string) : prog wdE err_ret :=
  killed ← systemctl ["kill"; "--kill-who=all"; "--signal=SIGKILL"; unit];
  unsafe ← (match killed with
            | Ok _ => mret None
            | Err e =>
                empty ← watchdogUnitCgroupEmpty unit;
                mret (match empty with
                      | Err proofErr => Some (Errorf_w "systemctl kill cgroup and empty proof" (errors_Join2 e proofErr))
                      | Ok false => Some (Errorf_w "systemctl kill cgroup (residual PIDs remain)" e)
                      | Ok true => None
                      end)
            end);
  match unsafe with Some e => mret (Some e) | None =>
  started ← systemctl ["restart"; unit];
  match started with Err e => mret (Some (Errorf_w "systemctl restart" e)) | Ok _ =>
  call (SleepFn (wo_RestartDelay opts));;
  active ← is_active unit;
  if String.eqb active "active" then mret None else mret (Some (Errorf "is-active after restart"))
  end end.

(** The deferred thaw, which runs while [frozen] is set. *)
Definition thaw (unit : string) (ret : error) : prog wdE err_ret :=
  systemctl ["thaw"; unit];; mret (Some ret).

Definition defaultWatchdogRestart (opts : WatchdogOptions) (unit : string) : prog wdE err_ret :=
  match ValidateServiceUnit unit with Some e => mret (Some e) | None =>
  freezing ← systemctl ["freeze"; unit];
  frozen ← (match freezing with
            | Ok _ => mret (Ok true)
            | Err e =>
                state ← is_active unit;
                if String.eqb state "inactive" || String.eqb state "failed" then mret (Ok false)
                else mret (Err (Errorf_w "systemctl freeze" e))
            end : prog wdE (result bool));
  match frozen with
  | Err e => mret (Some e)
  | Ok frozen =>
      worker ← (if frozen : bool then hasLocalRunnerWorker else mret false);
      if worker : bool then thaw unit (Errorf_s ErrRunnerBecameBusy "runner became busy while restart was fenced") else
      stopped ← systemctl ["stop"; unit];
      match stopped with
      | Err e => let err := Errorf_w "systemctl stop" e in
                 if frozen : bool then thaw unit err else mret (Some err)
      | Ok _ => restart_stopped opts unit
      end
  end end.
