(* ===== verification/WatchdogSafety.v ===== *)
(** * The runner watchdog: what a tick may do

    Under any answers of the host and of GitHub: every change is made only by an
    executing tick and only with the evidence the tick has just collected, every restart
    that is counted is on disk before it happens, and the report is an honest account. *)

From S2P Require Import Prelude GoStrings Prog Civm Idle RunnerUnits WatchdogBase WatchdogGitHub Watchdog.

Local Open Scope string_scope.
Local Open Scope list_scope.
Local Open Scope Z_scope.

(** ** The report *)

Definition critical (e : WatchdogEvent) : Prop := we_Severity e = "critical".
Definition named (name : string) (e : WatchdogEvent) : Prop := we_Event e = name.

#[global] Instance named_dec name e : Decision (named name e).
Proof. unfold named. apply _. Defined.

(** The counters agree with the events, and only an executing tick says "executed". *)
Definition account (execute : bool) (r : WatchdogReport) : Prop :=
  wm_RerunsSkipped (wr_Metrics r) = Z.of_nat (length (filter (named "rerun-skipped") (wr_Events r))) /\
  wm_RerunsTriggered (wr_Metrics r) = Z.of_nat (length (filter (named "rerun-triggered") (wr_Events r))) /\
  Forall (fun e => we_Executed e = true -> execute = true) (wr_Events r) /\
  wr_Executed r = execute /\ 0 <= wr_Exit r <= 2.

(** A critical event shows in the exit code. *)
Definition honest (r : WatchdogReport) : Prop := Forall (fun e => ~ critical e) (wr_Events r) \/ 1 <= wr_Exit r.

Definition report_ok (execute : bool) (r : WatchdogReport) : Prop := account execute r /\ honest r.

(** Beside an error, for which the caller sets the exit code. *)
Definition err_ok (execute : bool) (e : err_ret) (r : WatchdogReport) : Prop :=
  match e with Some _ => account execute r | None => report_ok execute r end.

Section report.
Context (execute : bool).
Implicit Types r : WatchdogReport.

Lemma account_wadd e r :
  account execute r -> (we_Executed e = true -> execute = true) -> account execute (wadd e r).
Proof.
  intros (Hs & Ht & He & Hx & Hexit) Hev. unfold account, wadd. cbv zeta.
  set (e' := if String.eqb _ _ then _ else e).
  assert (we_Event e' = we_Event e /\ we_Executed e' = we_Executed e) as [En Ex].
  { unfold e'. by destruct (String.eqb _ _). }
  clearbody e'. cbn [wr_Metrics wr_Events wr_Executed wr_Exit]. rewrite !filter_app, !length_app, !Nat2Z.inj_add, <-Hs, <-Ht. unfold count_event.
  split_and!; try done.
  - destruct (String.eqb_spec (we_Event e') "rerun-skipped") as [E|E].
    + by rewrite filter_cons_True by exact E.
    + rewrite filter_cons_False by exact E. destruct (String.eqb _ _); cbn; lia.
  - destruct (String.eqb_spec (we_Event e') "rerun-skipped") as [E|E].
    + rewrite filter_cons_False; [cbn; lia|]. unfold named. by rewrite E.
    + destruct (String.eqb_spec (we_Event e') "rerun-triggered") as [E'|E'].
      * by rewrite filter_cons_True by exact E'.
      * rewrite filter_cons_False by exact E'. cbn. lia.
  - apply Forall_app. split; [done|]. constructor; [|done]. by rewrite Ex.
  - lia.
  - lia.
Qed.

Lemma account_raise n r : account execute r -> 0 <= n <= 2 -> account execute (raise n r).
Proof.
  intros (Hs & Ht & He & Hx & Hexit) Hn. split_and!; try done; cbn; unfold maxExit; case_match; lia.
Qed.

Lemma account_set_Exit n r : account execute r -> 0 <= n <= 2 -> account execute (set_Exit n r).
Proof. intros (Hs & Ht & He & Hx & Hexit) Hn. split_and!; try done; cbn; lia. Qed.

(** An event that is not critical. *)
Lemma ok_wadd e r :
  report_ok execute r -> (we_Executed e = true -> execute = true) -> we_Severity e <> "critical" ->
  report_ok execute (wadd e r).
Proof.
  intros [Ha Hh] He Hs. split; [by apply account_wadd|]. destruct Hh as [Hh|]; [left|by right].
  unfold wadd. cbn. apply Forall_app. split; [done|]. constructor; [|done].
  unfold critical. by destruct (String.eqb _ _).
Qed.

(** A critical event with a raised exit code, in either order. *)
Lemma ok_wadd_raise n e r :
  report_ok execute r -> (we_Executed e = true -> execute = true) -> 1 <= n <= 2 ->
  report_ok execute (raise n (wadd e r)).
Proof.
  intros [Ha Hh] He Hn. split; [apply account_raise; [by apply account_wadd|lia]|].
  right. cbn. unfold maxExit. case_match; lia.
Qed.

Lemma ok_raise_wadd n e r :
  report_ok execute r -> (we_Executed e = true -> execute = true) -> 1 <= n <= 2 ->
  report_ok execute (wadd e (raise n r)).
Proof.
  intros [Ha Hh] He Hn. split; [apply account_wadd; [apply account_raise; [done|lia]|done]|].
  right. cbn. unfold maxExit. case_match; lia.
Qed.

Lemma ok_set_Exit n r : account execute r -> 1 <= n <= 2 -> report_ok execute (set_Exit n r).
Proof. intros Ha Hn. split; [apply account_set_Exit; [done|lia]|]. right. cbn. lia. Qed.

Lemma ok_raise n r : report_ok execute r -> 1 <= n <= 2 -> report_ok execute (raise n r).
Proof.
  intros [Ha _] Hn. split; [apply account_raise; [done|lia]|]. right. cbn. unfold maxExit. case_match; lia.
Qed.

Lemma ok_set_Online b r : report_ok execute r -> report_ok execute (set_Online b r).
Proof. done. Qed.
Lemma ok_set_Repos l r : report_ok execute r -> report_ok execute (set_Repos l r).
Proof. done. Qed.

(** The counters that [add] does not touch. *)
Lemma ok_set_Metrics f r :
  (forall m, wm_RerunsSkipped (f m) = wm_RerunsSkipped m /\ wm_RerunsTriggered (f m) = wm_RerunsTriggered m) ->
  report_ok execute r -> report_ok execute (set_Metrics f r).
Proof.
  intros Hf [(Hs & Ht & Hrest) Hh]. destruct (Hf (wr_Metrics r)) as [Es Et].
  split; [|done]. split_and!; cbn; [by rewrite Es|by rewrite Et|apply Hrest..].
Qed.

Lemma ok_account r : report_ok execute r -> account execute r.
Proof. by intros [? _]. Qed.
End report.

(** Reports built from a good one. *)
Ltac report_step :=
  match goal with
  | |- report_ok _ (raise _ (wadd _ _)) => apply ok_wadd_raise; [|cbn; done|lia]
  | |- report_ok _ (wadd _ (raise _ _)) => apply ok_raise_wadd; [|cbn; done|lia]
  | |- report_ok _ (wadd _ (set_Metrics ?f (raise ?n ?r))) =>
      change (set_Metrics f (raise n r)) with (raise n (set_Metrics f r))
  | |- report_ok _ (wadd _ _) => apply ok_wadd; [|cbn; done|cbn; done]
  | |- report_ok _ (raise _ _) => apply ok_raise; [|lia]
  | |- report_ok _ (set_Exit _ _) => apply ok_set_Exit; [|lia]
  | |- report_ok _ (set_Online _ _) => apply ok_set_Online
  | |- report_ok _ (set_Repos _ _) => apply ok_set_Repos
  | |- report_ok _ (set_Metrics _ _) => apply ok_set_Metrics; [done|]
  | |- err_ok _ (Some _) _ => unfold err_ok
  | |- err_ok _ None _ => unfold err_ok
  | |- account _ (wadd _ _) => apply account_wadd; [|cbn; done]
  | |- account _ _ => apply ok_account
  end.
Ltac report_tac := repeat report_step; try done.

(** ** What a tick has observed *)

Record wstate := mkWState {
  ws_clear : bool;                          (* the last look at the processes found no worker *)
  ws_loaded : option rerunState;            (* what the last read of the marker file gave *)
  ws_tmp : option string;                   (* the data of the last temporary file *)
  ws_marker : option string;                (* what this tick has made the marker file *)
  ws_now : Z;                               (* the last time read *)
  ws_queue : option WatchdogQueueEvidence;  (* the last queue evidence *)
  ws_pr : option (string * Z * WatchdogPullRequest);   (* the last pull request, with its repository and number *)
  ws_log : option (string * Z * string);    (* the last log, with its run *)
  ws_runs : list (string * WatchdogRun);    (* the last listing of runs, with their repository *)
}.

Definition no_worker (r : result (list Activity)) : bool :=
  match r with Err _ => false | Ok l => negb (existsb (fun a => Contains (act_Command a) "Runner.Worker") l) end.

Definition set_clear b s := mkWState b (ws_loaded s) (ws_tmp s) (ws_marker s) (ws_now s) (ws_queue s) (ws_pr s) (ws_log s) (ws_runs s).
Definition set_loaded x s := mkWState (ws_clear s) x (ws_tmp s) (ws_marker s) (ws_now s) (ws_queue s) (ws_pr s) (ws_log s) (ws_runs s).
Definition set_tmp x s := mkWState (ws_clear s) (ws_loaded s) x (ws_marker s) (ws_now s) (ws_queue s) (ws_pr s) (ws_log s) (ws_runs s).
Definition set_marker x s := mkWState (ws_clear s) (ws_loaded s) (ws_tmp s) x (ws_now s) (ws_queue s) (ws_pr s) (ws_log s) (ws_runs s).
Definition set_now t s := mkWState (ws_clear s) (ws_loaded s) (ws_tmp s) (ws_marker s) t (ws_queue s) (ws_pr s) (ws_log s) (ws_runs s).
Definition set_queue x s := mkWState (ws_clear s) (ws_loaded s) (ws_tmp s) (ws_marker s) (ws_now s) x (ws_pr s) (ws_log s) (ws_runs s).
Definition set_pr x s := mkWState (ws_clear s) (ws_loaded s) (ws_tmp s) (ws_marker s) (ws_now s) (ws_queue s) x (ws_log s) (ws_runs s).
Definition set_log x s := mkWState (ws_clear s) (ws_loaded s) (ws_tmp s) (ws_marker s) (ws_now s) (ws_queue s) (ws_pr s) x (ws_runs s).
Definition set_runs x s := mkWState (ws_clear s) (ws_loaded s) (ws_tmp s) (ws_marker s) (ws_now s) (ws_queue s) (ws_pr s) (ws_log s) x.

(** The commands a tick itself runs only read. *)
Definition read_command (name : string) (args : list string) : Prop :=
  (name = "systemctl" /\ exists unit property, args = ["show"; unit; property; "--value"]) \/
  (name = "gh" /\ exists path, args = ["api"; path]).

Section discipline.
Context `{SortSlice} `{MapRange}.
Context (decodeState : string -> result rerunState) (encodeState : rerunState -> result string).
Context (decodeHook : string -> option hookLogRecord).
Context (decodeConfig : string -> option (gmap string string)) (decodeString : string -> option string).
Context (url_Parse : string -> option (string * string * string)).
Context (decodeRunners : string -> result (list WatchdogGitHubRunner)).
Context (opts : WatchdogOptions).

Abbreviation tmpPath := (wo_MarkerPath opts +:+ ".tmp").

(** What a read of the marker file means to [loadRerunState]. *)
Definition decode_marker (data : result string) : option rerunState :=
  match data with
  | Err e => if errors_Is e ErrNotExist then Some empty_state else None
  | Ok data => if len (TrimSpace data) =? 0 then Some empty_state
               else match decodeState data with Ok st => Some st | Err _ => None end
  end.

(** The state is the content of the marker file. *)
Definition on_disk (st : rerunState) (s : wstate) : Prop :=
  exists data, encodeState st = Ok data /\ ws_marker s = Some (data +:+ String "010" "").

(** Every restart counted in a window that is still running at [now] stays counted. *)
Definition kept (now : Z) (st0 st : rerunState) : Prop :=
  forall key w, rs_AutoRestarts st0 !! key = Some w -> 1 <= aw_Count w -> aw_WindowStart w <> 0 ->
    time_Sub now (aw_WindowStart w) < Hour ->
    exists w', rs_AutoRestarts st !! key = Some w' /\ aw_Count w <= aw_Count w' /\ aw_WindowStart w' = aw_WindowStart w.

(** The temporary file holds a state that keeps what the marker file, as it was last read,
    says of the restarts. *)
Definition may_replace (s : wstate) : Prop :=
  exists st0 st data, ws_loaded s = Some st0 /\ encodeState st = Ok data /\
    ws_tmp s = Some (data +:+ String "010" "") /\ kept (ws_now s) st0 st.

(** A rerun needs a run of the last listing of that repository, failed in a way that may be
    rerun, of a known and recent creation, with an open pull request of its own that has no
    conflicts, whose log says network, and for whose identifier and commit the marker file
    has no rerun. *)
Definition may_rerun (repo : string) (runID : Z) (s : wstate) : Prop :=
  exists run, (repo, run) ∈ ws_runs s /\ wn_ID run = runID /\
    rerunnableConclusion (wn_Conclusion run) = true /\ wn_CreatedAt run <> 0 /\
    time_Sub (ws_now s) (wn_CreatedAt run) <= wo_MaxRunAge opts /\
    (exists n pr, ws_pr s = Some (repo, n, pr) /\ n ∈ wn_PullRequests run /\ pl_State pr = "open" /\
       ToLower (TrimSpace (pl_MergeableState pr)) <> "dirty" /\
       ToLower (TrimSpace (pl_MergeableState pr)) <> "conflicting") /\
    (exists log, ws_log s = Some (repo, runID, log) /\ fc_Kind (ClassifyFailureLog log) = FailureNetworkCheckout) /\
    (exists st, ws_loaded s = Some st /\
       forall m, rs_Reruns st !! rerunMarkerKey runID (wn_HeadSHA run) = Some m -> rm_RunID m = 0).

(** The conditions of the changes; [may] is that of a restart. *)
Definition wd_allowed (may : string -> wstate -> Prop) {B} (e : wdE B) (s : wstate) : Prop :=
  match e with
  | RestartFn unit => wo_Execute opts = true /\ may unit s
  | RerunFn repo runID => wo_Execute opts = true /\ may_rerun repo runID s
  | WriteFileFn path _ => wo_Execute opts = true /\ path = tmpPath
  | RenameFn a b => wo_Execute opts = true /\ a = tmpPath /\ b = wo_MarkerPath opts /\ may_replace s
  | RemoveFn path => wo_Execute opts = true /\ path = tmpPath
  | MkdirAllFn path => wo_Execute opts = true /\ path = Dir (wo_MarkerPath opts)
  | HookInstallFn req =>
      in_Execute req = wo_Execute opts /\ in_RestartRunners req = false /\ in_SkipScopedSudoers req = true
  | RunFn name args => read_command name args
  | _ => True
  end.

Definition wd_answer {B} (e : wdE B) (s : wstate) : B -> wstate :=
  match e in wdE B return B -> wstate with
  | ActivityFn => fun b => set_clear (no_worker b) s
  | ProbeTimer _ => fun _ => set_clear false s
  | SleepFn _ => fun _ => set_clear false s
  | RestartFn _ => fun _ => set_clear false s
  | ReadFileFn path => fun b => if String.eqb path (wo_MarkerPath opts) then set_loaded (decode_marker b) s else s
  | WriteFileFn _ data => fun b => match b with None => set_tmp (Some data) s | Some _ => set_tmp None s end
  | RenameFn _ _ => fun b => match b with None => set_marker (ws_tmp s) s | Some _ => set_marker None s end
  | NowFn => fun b => set_now b s
  | QueuedCivmJobsFn _ _ _ => fun b => set_queue (match b with Ok e => Some e | Err _ => None end) s
  | PullRequestFn repo n => fun b => set_pr (match b with Ok pr => Some (repo, n, pr) | Err _ => None end) s
  | ListRunsFn repo _ => fun b => set_runs (match b with Ok runs => pair repo <$> runs | Err _ => [] end) s
  | RunLogFn repo runID => fun b => set_log (match b with Ok l => Some (repo, runID, l) | Err _ => None end) s
  | _ => fun _ => s
  end.

Definition wd_spec (may : string -> wstate -> Prop) : spec wdE wstate := {|
  allowed B e s := wd_allowed may e s;
  answers B e s b s' := s' = wd_answer e s b;
|}.

(** A restart condition may be weakened. *)
Lemma wd_spec_weaken (may may' : string -> wstate -> Prop) {A} (m : prog wdE A) Q s :
  (forall u s, may u s -> may' u s) -> wpp (wd_spec may) m Q s -> wpp (wd_spec may') m Q s.
Proof.
  intros Hmay. revert s. induction m as [a|B e k IH]; intros s; cbn; [done|].
  intros [Ha Hk]. split; [|intros b s' Hs; by apply IH, Hk]. destruct e; cbn in *; naive_solver.
Qed.

(** ** Which states keep the restarts *)

Lemma kept_same now st0 st : rs_AutoRestarts st = rs_AutoRestarts st0 -> kept now st0 st.
Proof. intros E key w Hw _ _ _. exists w. by rewrite E. Qed.

(** Nothing counted in a running window of the key. *)
Definition uncounted (now : Z) (st0 : rerunState) (key : string) : Prop :=
  forall w, rs_AutoRestarts st0 !! key = Some w -> 1 <= aw_Count w -> aw_WindowStart w <> 0 ->
    ~ time_Sub now (aw_WindowStart w) < Hour.

Lemma kept_uncounted now st0 st st' key :
  kept now st0 st -> uncounted now st0 key ->
  (forall k, k <> key -> rs_AutoRestarts st' !! k = rs_AutoRestarts st !! k) -> kept now st0 st'.
Proof.
  intros Hk Hu Ho k w Hw Hc Hs Ht. destruct (decide (k = key)) as [->|Hne]; [by destruct (Hu w)|].
  rewrite Ho by done. by apply Hk.
Qed.

Lemma kept_set now st0 st key w' :
  kept now st0 st -> uncounted now st0 key -> kept now st0 (set_AutoRestart key w' st).
Proof. intros Hk Hu. eapply kept_uncounted; [done..|]. intros k Hne. cbn. by rewrite lookup_insert_ne. Qed.

Lemma kept_current now st0 st key ts :
  kept now st0 st -> let w0 := current_window now (default zero_window (rs_AutoRestarts st0 !! key)) in
  kept now st0 (set_AutoRestart key (mkWindow (aw_Count w0 + 1) (aw_WindowStart w0) ts) st).
Proof.
  intros Hk w0 k w Hw Hc Hs Ht. destruct (decide (k = key)) as [->|Hne].
  2: { cbn. rewrite lookup_insert_ne by done. by apply Hk. }
  eexists. split; [apply lookup_insert_eq|]. unfold w0. rewrite Hw. cbn. unfold current_window, IsZero.
  rewrite (proj2 (Z.eqb_neq _ _) Hs), (proj2 (Z.leb_gt _ _) Ht). cbn. lia.
Qed.

Lemma kept_drop_dwells now st0 acc systemd :
  kept now st0 (fst acc) -> rs_AutoRestarts (fst acc) ⊆ rs_AutoRestarts st0 ->
  kept now st0 (fst (foldl drop_dwell acc systemd)).
Proof.
  revert acc. induction systemd as [|local systemd IH]; intros [st changed] Hk Hsub; cbn [foldl fst]; [done|].
  apply IH; unfold drop_dwell, pending_dwell; cbn [fst]; (destruct (_ && _ && _) eqn:E; [|done]); cbn [fst].
  - destruct (rs_AutoRestarts st !! _) as [w|] eqn:Hw; [|by rewrite andb_false_r in E]. bsplit.
    apply (kept_uncounted _ _ st _ (org_busy_key (st_UnitName local))); [done| |intros k Hne; cbn; by rewrite lookup_delete_ne].
    intros w' Hw' Hc. cbn in Hsub. rewrite (lookup_weaken _ _ _ _ Hw Hsub) in Hw'. simplify_eq. lia.
  - cbn. etrans; [apply delete_subseteq|done].
Qed.

Section steps.
Context (may : string -> wstate -> Prop).
Abbreviation W := (wpp (wd_spec may)).

Lemma wpp_load s Q :
  (forall r, Q r (set_loaded (match r with Ok st => Some st | Err _ => None end) s)) ->
  W (loadRerunState decodeState opts) Q s.
Proof.
  intros HQ. apply wpp_bind, wpp_call; [done|]. intros data s1 ->. cbn. rewrite String.eqb_refl.
  destruct data as [data|e]; cbn.
  - destruct (len _ =? 0); cbn; [apply (HQ (Ok empty_state))|]. specialize (HQ (decodeState data)).
    by destruct (decodeState data).
  - destruct (errors_Is e _); [apply (HQ (Ok empty_state))|apply (HQ (Err e))].
Qed.

Lemma set_loaded_same s : set_loaded (ws_loaded s) s = s.
Proof. by destruct s. Qed.

(** Any file; it may be the marker file. *)
Lemma wpp_read path s Q : (forall r x, Q r (set_loaded x s)) -> W (call (ReadFileFn path)) Q s.
Proof.
  intros HQ. apply wpp_call; [done|]. intros b s1 ->. cbn. destruct (String.eqb path _); [apply HQ|].
  rewrite <-(set_loaded_same s) at 1. apply HQ.
Qed.

Lemma wpp_write st0 st s Q :
  wo_Execute opts = true -> ws_loaded s = Some st0 -> kept (ws_now s) st0 st ->
  (forall e tmp marker, Q (Some e) (set_tmp tmp (set_marker marker s))) ->
  (forall s', s' = set_tmp (ws_tmp s') (set_marker (ws_marker s') s) -> on_disk st s' -> Q None s') ->
  W (writeRerunState encodeState opts st) Q s.
Proof.
  intros Hx Hl Hk Hfail Hok. assert (forall e, Q (Some e) s) as Hfail0.
  { intros e. specialize (Hfail e (ws_tmp s) (ws_marker s)). by destruct s. }
  unfold writeRerunState. apply wpp_bind, wpp_call; [done|]. intros [e|] s1 ->; [apply wpp_ret, Hfail0|].
  cbn [wd_answer]. destruct (encodeState st) as [data|e] eqn:Henc; [|apply wpp_ret, Hfail0].
  apply wpp_bind, wpp_call; [done|]. intros [e|] s1 ->.
  { apply wpp_ret. apply (Hfail e None (ws_marker s)). }
  apply wpp_bind, wpp_call.
  { split_and!; [done..|]. by exists st0, st, data. }
  intros [e|] s2 ->.
  - apply wpp_bind, wpp_call; [done|]. intros ? s3 ->. apply wpp_ret. apply (Hfail e _ None).
  - apply wpp_ret. apply Hok; [done|]. by exists data.
Qed.

Lemma wpp_worker s Q : (forall b, Q b (set_clear (negb b) s)) -> W hasLocalRunnerWorker Q s.
Proof.
  intros HQ. apply wpp_bind, wpp_call; [done|]. intros r s1 ->. apply wpp_ret. cbn.
  specialize (HQ (match r with Err _ => true | Ok l => existsb (fun a => Contains (act_Command a) "Runner.Worker") l end)).
  by destruct r.
Qed.

(** An idle verdict has just seen an empty process list. *)
Lemma wpp_idle s Q :
  (forall r clear, (ir_Status r = StatusIdle -> clear = true) -> Q r (set_clear clear s)) ->
  W (idle_check opts) Q s.
Proof.
  intros HQ. unfold idle_check.
  eapply wpp_mono; [apply (wpp_Check _ _ _ _ (fun s' => exists c, s' = set_clear c s) (fun s' => s' = set_clear true s))|].
  - intros s1 [c ->]. apply wpp_call; [done|]. intros r s2 ->. cbn. split; [by exists (no_worker r)|]. by intros ->.
  - intros s1 [c ->]. apply wpp_call; [done|]. intros r s2 ->. cbn. by exists false.
  - exists (ws_clear s). by destruct s.
  - cbn. intros r s' [[c ->] Hc]. apply HQ. intros E. specialize (Hc E). by injection Hc.
Qed.

Lemma wpp_run name args s Q :
  read_command name args -> (forall r, Q r s) -> W (run name args) Q s.
Proof. intros Hr HQ. apply wpp_bind, wpp_call; [done|]. intros [out e] s1 ->. apply wpp_ret, HQ. Qed.

Lemma wpp_orgRunners org s Q :
  (forall r, Q r s) -> W (listWatchdogGitHubOrgRunners run decodeRunners org) Q s.
Proof.
  intros HQ. apply wpp_bind, wpp_run; [right; split; [done|]; by eexists|].
  intros [out|e]; apply wpp_ret, HQ.
Qed.

(** *** Functions that restart nothing *)

Abbreviation ok := (report_ok (wo_Execute opts)).

Lemma wpp_clearPending systemd report s :
  ok report ->
  W (clearPendingWatchdogOrgBusyDwell decodeState encodeState opts systemd report) (fun r _ => ok r) s.
Proof.
  intros Hr. unfold clearPendingWatchdogOrgBusyDwell. destruct (wo_Execute opts) eqn:Hx; cbn [negb]; [|done].
  apply wpp_bind, wpp_load. intros [st|e]; [|apply wpp_ret; report_tac].
  pose proof (kept_drop_dwells (ws_now s) st (st, false) systemd (kept_same _ _ _ eq_refl) (reflexivity _)) as Hk.
  destruct (foldl _ _ _) as [st' changed]. destruct changed; cbn [negb]; [|done].
  apply wpp_bind, (wpp_write st); [done|done|exact Hk|intros; apply wpp_ret; report_tac|done].
Qed.

Lemma wpp_clearQueueStall st local gh ex reason report s :
  ok report -> ws_loaded s = Some st ->
  W (clearQueueStallIncident encodeState opts st local gh ex reason report) (fun r _ => ok r) s.
Proof.
  intros Hr Hl. unfold clearQueueStallIncident. destruct ex; cbn [negb]; [|done].
  destruct (wo_Execute opts) eqn:Hx; cbn [negb]; [|apply wpp_ret; report_tac].
  apply wpp_bind, (wpp_write st); [done|done|by apply kept_same|intros; apply wpp_ret; report_tac..].
Qed.

Lemma wpp_orgRunner local s Q :
  (forall r, Q r s) -> W (watchdogOrgRunner decodeRunners local) Q s.
Proof. intros HQ. apply wpp_bind, wpp_orgRunners. intros [l|e]; apply wpp_ret, HQ. Qed.

Lemma wpp_onlineIdle local s Q :
  (forall r, Q r s) -> W (watchdogOnlineIdleOrgRunner decodeRunners local) Q s.
Proof. intros HQ. apply wpp_bind, wpp_orgRunner. intros [[gh|]|e]; apply wpp_ret, HQ. Qed.

Lemma wpp_collect repos byRepo repoOnline report s :
  ok report -> W (collect_runners repos byRepo repoOnline report) (fun '(_, _, r) s' => ok r /\ s' = s) s.
Proof.
  revert byRepo repoOnline report. induction repos as [|repo repos IH]; intros byRepo repoOnline report Hr; cbn [collect_runners]; [done|].
  apply wpp_bind, wpp_call; [done|]. intros [runners|e] s1 ->; apply IH; [|report_tac].
  clear IH. revert report Hr. induction runners as [|r runners IH]; intros report Hr; cbn; [done|]. apply IH.
  unfold note_online. destruct (civm_online r); [report_tac|done].
Qed.

Lemma wpp_repairHooks report s :
  ok report ->
  W (repairWatchdogHooks opts report) (fun '(e, r) s' => err_ok (wo_Execute opts) e r /\ s' = s) s.
Proof.
  intros Hr. unfold repairWatchdogHooks. apply wpp_bind, wpp_call; [done|]. intros res s1 ->. cbv zeta.
  destruct (negb _); apply wpp_ret; (split; [|done]); report_tac.
Qed.

Lemma wpp_resolve from status s Q :
  (forall r x, Q r (set_loaded x s)) -> W (resolve_runner from status) Q s.
Proof.
  intros HQ. assert (forall r, Q r s) as HQ0 by (intros r; rewrite <-(set_loaded_same s); apply HQ).
  unfold resolve_runner. destruct (String.eqb _ _); [apply wpp_ret, HQ0|].
  destruct (ValidateServiceUnit _); [apply wpp_ret, HQ0|].
  apply wpp_bind, wpp_run; [left; split; [done|]; by do 2 eexists|].
  intros [out|e]; [|apply wpp_ret, HQ0]. destruct (_ || _); [apply wpp_ret, HQ0|].
  apply wpp_bind, wpp_read. intros [data|e] x; apply wpp_ret, HQ.
Qed.

Lemma wpp_enrich systemd s : W (enrichWatchdogSystemdRepos decodeConfig decodeString url_Parse systemd) (fun _ _ => True) s.
Proof.
  revert s. induction systemd as [|st systemd IH]; intros s; cbn [enrichWatchdogSystemdRepos]; [done|].
  apply wpp_bind. eapply (wpp_mono _ _ (fun _ _ => True)).
  - unfold enrich_status. apply wpp_bind, wpp_resolve. intros [dir repo] x.
    apply wpp_bind, wpp_resolve. by intros [dir' org] y.
  - intros st' s1 _. apply wpp_bind. eapply wpp_mono; [apply IH|]. done.
Qed.

Lemma wpp_fleet systemd repos s Q :
  (forall r, Q r s) -> W (fleet_repos opts systemd repos) Q s.
Proof.
  intros HQ. unfold fleet_repos. destruct (_ && _); [|apply wpp_ret, HQ].
  apply wpp_bind, wpp_call; [done|]. intros [l|e] s1 ->; [|apply wpp_ret, HQ].
  destruct (normalizeWatchdogRepos l); apply wpp_ret, HQ.
Qed.
End steps.

(** ** Restarts *)

Abbreviation ok := (report_ok (wo_Execute opts)).

(** Right after a look at the processes that found no worker. *)
Definition may_probe (unit : string) (s : wstate) : Prop := ws_clear s = true.

Lemma wpp_restart_units candidates units report s :
  ok report ->
  wpp (wd_spec may_probe) (restart_units opts candidates units report)
    (fun '(e, r) _ => err_ok (wo_Execute opts) e r) s.
Proof.
  revert report s. induction units as [|unit units IH]; intros report s Hr; cbn [restart_units]; [done|].
  cbv zeta. destruct (wo_Execute opts) eqn:Hx; cbn [negb]; [|apply IH; report_tac].
  apply wpp_bind, wpp_worker. intros [|]; [apply IH; report_tac|].
  apply wpp_bind, wpp_call; [done|]. intros [e|] s1 ->; [|apply IH; report_tac].
  destruct (errors_Is e _); [apply IH; report_tac|]. apply wpp_ret. report_tac.
Qed.

Lemma ok_drop_collisions cs candidates report :
  ok report -> ok (snd (foldl drop_collision (candidates, report) cs)).
Proof.
  revert candidates report. induction cs as [|c cs IH]; intros candidates report Hr; cbn; [done|].
  destruct (candidates !! cl_RepoUnit c); apply IH; [report_tac|done].
Qed.

Lemma wpp_restartRunners systemd ghByRepo report s :
  ok report ->
  wpp (wd_spec may_probe) (restartWatchdogRunners opts systemd ghByRepo report)
    (fun '(e, r) _ => err_ok (wo_Execute opts) e r) s.
Proof.
  intros Hr. unfold restartWatchdogRunners.
  pose proof (ok_drop_collisions (DetectCollisions systemd) (restartCandidates systemd ghByRepo) report Hr) as Hd.
  destruct (foldl _ _ _) as [candidates report']. by apply wpp_restart_units.
Qed.

(** *** An organization runner without a worker *)

(** The window that the marker file has for the unit, as it was last read. *)
Definition busy_window (st0 : rerunState) (unit : string) : autoRestartWindow :=
  default zero_window (rs_AutoRestarts st0 !! org_busy_key unit).

(** The window as it was loaded counts no restart, was armed by an earlier tick and has
    waited for the dwell; and the same window with this restart counted is on disk.  (A
    count is never written negative.) *)
Definition may_org (unit : string) (s : wstate) : Prop :=
  ws_clear s = true /\
  exists st0, ws_loaded s = Some st0 /\ let w0 := busy_window st0 unit in
    on_disk (set_AutoRestart (org_busy_key unit) (mkWindow (aw_Count w0 + 1) (aw_WindowStart w0) (ws_now s)) st0) s /\
    (0 <= aw_Count w0 ->
     aw_Count w0 = 0 /\ aw_WindowStart w0 <> 0 /\ wo_QueueStallDwell opts <= time_Sub (ws_now s) (aw_WindowStart w0)).

(** The window at hand is the loaded one, and may be restarted in. *)
Definition restartable (now : Z) (st0 : rerunState) (unit : string) (window : autoRestartWindow) : Prop :=
  let w0 := busy_window st0 unit in
  aw_Count window = aw_Count w0 /\ aw_WindowStart window = aw_WindowStart w0 /\ uncounted now st0 (org_busy_key unit) /\
  (0 <= aw_Count w0 ->
   aw_Count w0 = 0 /\ aw_WindowStart w0 <> 0 /\ wo_QueueStallDwell opts <= time_Sub now (aw_WindowStart w0)).

Lemma wpp_org_busy_restart local gh now window st0 st report s :
  ok report -> ws_loaded s = Some st0 -> ws_now s = now -> kept now st0 st ->
  (forall w, set_AutoRestart (org_busy_key (st_UnitName local)) w st = set_AutoRestart (org_busy_key (st_UnitName local)) w st0) ->
  (aw_Count window < 1 -> restartable now st0 (st_UnitName local) window) ->
  wpp (wd_spec may_org) (org_busy_restart encodeState opts local gh now window st report) (fun r _ => ok r) s.
Proof.
  intros Hr Hl <- Hk Hst Hw. unfold org_busy_restart. destruct (1 <=? aw_Count window) eqn:Hc; [apply wpp_ret; report_tac|].
  destruct Hw as (Ec & Es & Hu & Hold); [bsplit; lia|].
  destruct (wo_Execute opts) eqn:Hx; cbn [negb]; [|apply wpp_ret; report_tac].
  apply wpp_bind, wpp_worker. intros [|]; [apply wpp_ret; report_tac|].
  apply wpp_bind, (wpp_write _ st0); [done|done|by apply kept_set|intros; apply wpp_ret; report_tac|].
  rewrite Hst, Ec, Es. intros s' Hs' Hd. rewrite Hs' in Hd |- *. clear Hs'. apply wpp_bind, wpp_call.
  - split; [done|]. split; [done|]. exists st0. split; [done|]. split; [exact Hd|exact Hold].
  - intros [e|] s2 ->; [|apply wpp_ret; report_tac].
    destruct (errors_Is e _); apply wpp_ret; report_tac.
Qed.

(** A window counts nothing that still runs once it is renewed, or when it counts nothing. *)
Lemma busy_window_uncounted now st0 unit :
  aw_Count (org_busy_window now (busy_window st0 unit)) < 1 -> uncounted now st0 (org_busy_key unit).
Proof.
  intros Hc w Hw H1 Hs Ht. unfold busy_window in Hc. rewrite Hw in Hc. cbn in Hc. unfold org_busy_window in Hc.
  unfold IsZero in Hc. rewrite (proj2 (Z.eqb_neq _ _) Hs) in Hc. cbn [orb] in Hc.
  destruct (Hour <=? _) eqn:E; [bsplit; lia|]. rewrite andb_false_r in Hc. lia.
Qed.

Lemma time_Sub_self t : time_Sub t t = 0.
Proof. unfold time_Sub, min_int64, max_int64. lia. Qed.

Lemma wpp_org_busy_found local gh report s :
  0 < wo_QueueStallDwell opts -> ok report ->
  wpp (wd_spec may_org) (org_busy_found decodeState encodeState opts local gh report) (fun r _ => ok r) s.
Proof.
  intros Hdw Hr. unfold org_busy_found. apply wpp_bind, wpp_load. intros [st0|e]; [|apply wpp_ret; report_tac].
  apply wpp_bind, wpp_call; [done|]. intros now s1 ->. cbv zeta. fold (busy_window st0 (st_UnitName local)).
  set (w0 := busy_window st0 (st_UnitName local)). set (w := org_busy_window now w0).
  assert (w = mkWindow 0 now 0 \/ (w = w0 /\ aw_WindowStart w0 <> 0)) as Hnew.
  { unfold w, org_busy_window. unfold IsZero. destruct (Z.eqb_spec (aw_WindowStart w0) 0); [by left|].
    cbn [orb]. destruct (_ && _); auto. }
  destruct (aw_Count w =? 0) eqn:Hc; cbn [negb andb]; bsplit.
  2: { apply (wpp_org_busy_restart local gh now w st0 st0 report); [done..|by apply kept_same|done|]. intros Hlt.
       destruct Hnew as [E|[E Hs0]]; [by rewrite E in Hc|]. unfold restartable. fold w0. rewrite E in Hlt, Hc |- *.
       split_and!; [done..| |lia]. apply busy_window_uncounted. fold w0 w. rewrite E. done. }
  assert (uncounted now st0 (org_busy_key (st_UnitName local))) as Hu by (apply busy_window_uncounted; fold w0 w; lia).
  destruct (0 <? wo_QueueStallDwell opts) eqn:Hd; cbn [negb]; bsplit; [|lia].
  set (early := time_Sub now (aw_WindowStart w) <? 0).
  set (w' := if early then _ else w). set (age := if early then 0 else time_Sub now (aw_WindowStart w')).
  set (st := set_AutoRestart _ w' st0). apply wpp_bind.
  assert (kept now st0 st) as Hk by (apply kept_set; [by apply kept_same|done]).
  assert (forall s', ws_loaded s' = Some st0 -> ws_now s' = now ->
    wpp (wd_spec may_org)
      (if age <? wo_QueueStallDwell opts
       then mret (report |> wadd (skip "warning" (st_UnitName local) (gr_Name gh) "org-busy-dwell" ""
                                    |> executed (wo_Execute opts) |> aged (whole_seconds age)))
       else org_busy_restart encodeState opts local gh now w' st report) (fun r _ => ok r) s') as Hgo.
  { intros s' Hl Hn. destruct (age <? _) eqn:Ha; [apply wpp_ret; report_tac|]. bsplit. unfold age, w' in Ha.
    assert (early = false) as He by (destruct early; [lia|done]). rewrite He in Ha.
    destruct Hnew as [E|[E Hs0]]; [rewrite E in Ha; cbn in Ha; rewrite time_Sub_self in Ha; lia|].
    apply (wpp_org_busy_restart local gh now w' st0 st report s' Hr Hl Hn Hk).
    - intros v. unfold st, set_AutoRestart. cbn. by rewrite insert_insert_eq.
    - intros _. unfold restartable, w'. fold w0. rewrite He, E. rewrite E in Ha, Hc. by split_and!. }
  destruct (wo_Execute opts) eqn:Hx.
  - apply (wpp_write _ st0); [done..|intros; apply wpp_ret; report_tac|]. intros s' -> Hdisk. by apply Hgo.
  - apply wpp_ret. by apply Hgo.
Qed.

Lemma wpp_org_busy_loop systemd report s :
  0 < wo_QueueStallDwell opts -> ok report ->
  wpp (wd_spec may_org) (org_busy_loop decodeState encodeState decodeRunners opts systemd report) (fun r _ => ok r) s.
Proof.
  intros Hdw. revert report s. induction systemd as [|local systemd IH]; intros report s Hr; cbn [org_busy_loop]; [done|].
  destruct (active_org local); cbn [negb]; [|by apply IH].
  apply wpp_bind, wpp_orgRunners. intros [runners|e]; [|apply IH; report_tac].
  destruct (List.find _ _) as [gh|]; [by apply wpp_org_busy_found|].
  apply wpp_bind. eapply wpp_mono; [by apply wpp_clearPending|]. intros r s1 Hr1. by apply IH.
Qed.

Lemma wpp_recoverBusy systemd report s :
  0 < wo_QueueStallDwell opts -> ok report ->
  wpp (wd_spec may_org) (recoverWatchdogOrgBusyWithoutWorker decodeState encodeState decodeRunners opts systemd report)
    (fun r _ => ok r) s.
Proof.
  intros Hdw Hr. unfold recoverWatchdogOrgBusyWithoutWorker.
  apply wpp_bind, wpp_worker. intros [|]; [by apply wpp_clearPending|].
  apply wpp_bind, wpp_call; [done|]. intros [] s1 ->.
  apply wpp_bind, wpp_worker. intros [|]; [by apply wpp_clearPending|]. by apply wpp_org_busy_loop.
Qed.

(** *** An idle runner beside a queue *)

(** The incident was armed by an earlier tick, has waited for the dwell and was not
    restarted; its oldest job still waits; the restart is on disk. *)
Definition may_queue (unit : string) (s : wstate) : Prop :=
  ws_clear s = true /\
  exists st0 incident evidence, ws_loaded s = Some st0 /\ rs_QueueStalls st0 !! unit = Some incident /\
    qi_RestartedAt incident = 0 /\
    wo_QueueStallDwell opts <= time_Sub (ws_now s) (qi_FirstSeen incident) /\
    ws_queue s = Some evidence /\ qe_EligibleJobs evidence <> 0 /\
    qe_Signature evidence = qi_Signature incident /\
    on_disk (set_QueueStall unit (mkIncident (qi_Signature incident) (qi_FirstSeen incident) (ws_now s)) st0) s.

Lemma wpp_queue_restart local gh incident evidence again now age st0 report s :
  wo_Execute opts = true -> ok report -> ws_now s = now -> ws_clear s = true -> ws_loaded s = Some st0 ->
  rs_QueueStalls st0 !! st_UnitName local = Some incident -> qi_RestartedAt incident = 0 ->
  wo_QueueStallDwell opts <= time_Sub now (qi_FirstSeen incident) ->
  ws_queue s = Some again -> qe_EligibleJobs again <> 0 -> qe_Signature again = qi_Signature incident ->
  wpp (wd_spec may_queue) (queue_restart encodeState opts st0 local gh incident evidence now age report)
    (fun r _ => ok r) s.
Proof.
  intros Hx Hr <- Hc Hl Hi Hz Hd Hq Hj Hsig. unfold queue_restart. cbv zeta.
  apply wpp_bind, (wpp_write _ st0); [done|done|by apply kept_same|intros; apply wpp_ret; report_tac|].
  intros s' Hs' Hdisk. apply wpp_bind, wpp_call.
  - split; [done|]. rewrite Hs' in Hdisk |- *. split; [done|]. exists st0, incident, again. by split_and!.
  - intros [e|] s2 ->; [|apply wpp_ret; report_tac].
    destruct (errors_Is e _); [|apply wpp_ret; report_tac].
    apply wpp_bind, (wpp_write _ st0); [done|by rewrite Hs'|by apply kept_same|intros; apply wpp_ret; report_tac..].
Qed.

Lemma wpp_queue_revalidate local repos gh incident evidence now age st0 report s :
  wo_Execute opts = true -> ok report -> ws_now s = now -> ws_loaded s = Some st0 ->
  rs_QueueStalls st0 !! st_UnitName local = Some incident -> qi_RestartedAt incident = 0 ->
  wo_QueueStallDwell opts <= time_Sub now (qi_FirstSeen incident) ->
  qe_Signature evidence = qi_Signature incident ->
  wpp (wd_spec may_queue)
    (queue_revalidate encodeState decodeRunners opts st0 local repos gh incident evidence now age report)
    (fun r _ => ok r) s.
Proof.
  intros Hx Hr Hn Hl Hi Hz Hd Hsig. unfold queue_revalidate. cbv zeta.
  apply wpp_bind, wpp_onlineIdle. intros [[gh'|]|e]; [|apply wpp_ret; report_tac..].
  apply wpp_bind, wpp_call; [done|]. intros [again|e] s1 ->; [|apply wpp_ret; report_tac].
  destruct (qe_EligibleJobs again =? 0) eqn:Hj; cbn [orb]; [apply wpp_ret; report_tac|].
  destruct (String.eqb_spec (qe_Signature again) (qe_Signature evidence)) as [Hs|]; cbn [negb]; [|apply wpp_ret; report_tac].
  apply wpp_bind, wpp_idle. intros idle clear Hclear. destruct (bool_decide _) eqn:Hb; cbn [negb]; [|apply wpp_ret; report_tac].
  apply bool_decide_eq_true in Hb. bsplit.
  eapply (wpp_queue_restart _ _ _ _ again); try done; [by apply Hclear|congruence].
Qed.

Lemma wpp_queue_incident local repos gh evidence now st0 report s :
  ok report -> ws_now s = now -> ws_loaded s = Some st0 ->
  wpp (wd_spec may_queue)
    (queue_incident encodeState decodeRunners opts st0 local repos gh (rs_QueueStalls st0 !! st_UnitName local)
       evidence now report) (fun r _ => ok r) s.
Proof.
  intros Hr Hn Hl. unfold queue_incident. cbv zeta. destruct (negb _ || negb _) eqn:Hnew.
  - apply wpp_bind. destruct (wo_Execute opts) eqn:Hx.
    + apply (wpp_write _ st0); [done|done|by apply kept_same|intros; apply wpp_ret; report_tac..].
    + apply wpp_ret, wpp_ret. report_tac.
  - bsplit. destruct (rs_QueueStalls st0 !! _) as [incident|] eqn:Hi; [|by destruct (is_Some_None (A:=queueStallIncident))].
    cbn [default from_option id] in *.
    destruct (String.eqb_spec (qi_Signature incident) (qe_Signature evidence)) as [Hsig|]; [|done].
    destruct (IsZero _) eqn:Hz; cbn [negb]; [|apply wpp_ret; report_tac].
    destruct (_ <? _) eqn:Hage; [apply wpp_ret; report_tac|].
    destruct (wo_Execute opts) eqn:Hx; cbn [negb]; [|apply wpp_ret; report_tac].
    unfold IsZero in Hz. bsplit. rewrite <-Hx in Hr |- *. by apply wpp_queue_revalidate.
Qed.

Lemma wpp_queue_recover local repos report s :
  ok report ->
  wpp (wd_spec may_queue) (queue_recover decodeState encodeState decodeRunners opts local repos report) (fun r _ => ok r) s.
Proof.
  intros Hr. unfold queue_recover. cbv zeta. apply wpp_bind, wpp_orgRunner.
  intros [[gh|]|e]; [|done|apply wpp_ret; report_tac].
  apply wpp_bind, wpp_load. intros [st0|e]; [|apply wpp_ret; report_tac].
  destruct (_ && _); [by apply wpp_clearQueueStall|]. destruct (_ || _); [done|].
  apply wpp_bind, wpp_call; [done|]. intros now s1 ->.
  apply wpp_bind, wpp_call; [done|]. intros [evidence|e] s1 ->; [|apply wpp_ret; report_tac].
  destruct (_ =? 0); [by apply wpp_clearQueueStall|].
  apply wpp_bind, wpp_idle. intros idle clear Hclear. destruct (negb _); [apply wpp_ret; report_tac|].
  by apply wpp_queue_incident.
Qed.

Lemma wpp_recoverIdle systemd repos report s :
  ok report ->
  wpp (wd_spec may_queue) (recoverWatchdogOrgIdleWithQueue decodeState encodeState decodeRunners opts systemd repos report)
    (fun r _ => ok r) s.
Proof.
  intros Hr. unfold recoverWatchdogOrgIdleWithQueue.
  destruct (filter _ systemd) as [|local [|]]; [done| |apply wpp_ret; report_tac].
  destruct (decide _); [done|]. by apply wpp_queue_recover.
Qed.

(** *** A broken-runner sentinel *)

(** A sentinel of the last hour that is newer than the last one acted on, within the
    cap of the hour, and on disk. *)
Definition may_sentinel (unit : string) (s : wstate) : Prop :=
  exists st0 st w, ws_loaded s = Some st0 /\ on_disk st s /\ rs_AutoRestarts st !! unit = Some w /\
    let w0 := current_window (ws_now s) (default zero_window (rs_AutoRestarts st0 !! unit)) in
    aw_Count w = aw_Count w0 + 1 /\ aw_Count w <= wo_AutoRestartPerHour opts /\
    aw_WindowStart w = aw_WindowStart w0 /\ aw_LastActed w0 < aw_LastActed w /\
    ws_now s - Hour <= aw_LastActed w.

(** Every timestamp of the sentinels is in the last hour. *)
Definition recent (now : Z) (m : gmap string Z) : Prop := forall k t, m !! k = Some t -> now - Hour <= t.

Lemma recent_sentinels now m lines : recent now m -> recent now (foldl (sentinel_line decodeHook now) m lines).
Proof.
  revert m. induction lines as [|line lines IH]; intros m Hm; cbn; [done|]. apply IH.
  unfold sentinel_line. cbv zeta. destruct (String.eqb _ _); [done|]. destruct (decodeHook _) as [rec|]; [|done].
  destruct (_ || _); [done|]. set (ts := if IsZero _ then now else _).
  destruct (ts <? now - Hour) eqn:Hc; [done|]. destruct (default 0 _ <? ts); [|done]. bsplit. intros k t [[<- <-]|[_ Ht]]%lookup_insert_Some; [done|by eapply Hm].
Qed.

Lemma mapSentinels_spec now systemd sentinelAt report :
  recent now sentinelAt -> ok report ->
  recent now (fst (mapSentinelsToUnits sentinelAt systemd report)) /\
  ok (snd (mapSentinelsToUnits sentinelAt systemd report)).
Proof.
  intros Hs. unfold mapSentinelsToUnits.
  assert (Forall (fun x => now - Hour <= snd x) (map_range sentinelAt)) as Hall.
  { apply Forall_forall. intros [k t] Hk%elem_of_map_range. by eapply Hs. }
  assert (recent now (∅ : gmap string Z)) as Hu by done. revert Hu report. generalize (∅ : gmap string Z) as u.
  induction Hall as [|[k t] l Ht _ IH]; intros u Hu report Hr; cbn; [done|].
  destruct (String.eqb _ _); [apply IH; [done|report_tac]|].
  destruct (_ <? t); [|by apply IH]. apply IH; [|done].
  intros k' t' [[<- <-]|[_ Hk']]%lookup_insert_Some; [done|by eapply Hu].
Qed.

(** What the selection reserves for a unit. *)
Definition reserved (now : Z) (unitSentinel : gmap string Z) (st0 st : rerunState) (unit : string) : Prop :=
  exists w ts, rs_AutoRestarts st !! unit = Some w /\ unitSentinel !! unit = Some ts /\
    let w0 := current_window now (default zero_window (rs_AutoRestarts st0 !! unit)) in
    w = mkWindow (aw_Count w0 + 1) (aw_WindowStart w0) ts /\
    aw_Count w0 < wo_AutoRestartPerHour opts /\ aw_LastActed w0 < aw_LastActed w.

(** The units still to come have their old window. *)
Definition selecting now unitSentinel st0 (rest : list string) (acc : rerunState * WatchdogReport * list string) : Prop :=
  let '(st, report, toRestart) := acc in
  ok report /\ (toRestart <> [] -> wo_Execute opts = true) /\ kept now st0 st /\
  Forall (reserved now unitSentinel st0 st) toRestart /\
  (forall u, u ∈ rest -> (u ∉ toRestart) /\ rs_AutoRestarts st !! u = rs_AutoRestarts st0 !! u).

Lemma select_step now unitSentinel st0 u rest acc :
  u ∉ rest -> is_Some (unitSentinel !! u) -> selecting now unitSentinel st0 (u :: rest) acc ->
  selecting now unitSentinel st0 rest (select_unit opts now unitSentinel acc u).
Proof.
  destruct acc as [[st report] toRestart]. intros Hu [ts Ets] (Hr & Hx & Hk & Hres & Hst).
  destruct (Hst u (list_elem_of_here _ _)) as [Hnew Heq].
  assert (forall v, v ∈ rest -> (v ∉ toRestart) /\ rs_AutoRestarts st !! v = rs_AutoRestarts st0 !! v) as Hst'.
  { intros v Hv. apply Hst. by right. }
  unfold select_unit. cbv zeta. rewrite Heq.
  rewrite Ets. set (w0 := current_window now _). cbn [default from_option id].
  destruct (aw_LastActed w0 <? ts) eqn:Hts; cbn [negb]; [|by split_and!].
  destruct (_ <=? aw_Count w0) eqn:Hcap; [split; [report_tac|done]|].
  destruct (wo_Execute opts) eqn:He; cbn [negb]; [|unfold selecting; rewrite He; split; [report_tac|done]]. bsplit.
  split; [by rewrite He|]. split; [done|]. split; [by apply kept_current|]. split.
  - apply Forall_app. split.
    + apply Forall_forall. intros v Hv. pose proof (proj1 (Forall_forall _ _) Hres v Hv) as (w & t & Hw & Hrest).
      exists w, t. split; [|done]. cbn. rewrite lookup_insert_ne; [done|]. congruence.
    + constructor; [|done]. eexists _, ts. split; [apply lookup_insert_eq|]. cbn. by split_and!.
  - intros v Hv. destruct (Hst' v Hv) as [Hn Hsame]. split.
    + rewrite elem_of_app, list_elem_of_singleton. intros [?| ->]; [done|]. done.
    + cbn. rewrite lookup_insert_ne; [done|]. congruence.
Qed.

Lemma select_loop now unitSentinel st0 units acc :
  NoDup units -> Forall (fun u => is_Some (unitSentinel !! u)) units -> selecting now unitSentinel st0 units acc ->
  selecting now unitSentinel st0 [] (foldl (select_unit opts now unitSentinel) acc units).
Proof.
  intros Hnd. revert acc. induction Hnd as [|u units Hu Hnd IH]; intros acc Hk Ha; cbn; [done|].
  inversion_clear Hk. apply IH; [done|]. by apply select_step.
Qed.

Lemma wpp_executeRestarts toRestart report s :
  wo_Execute opts = true -> ok report ->
  (forall u, u ∈ toRestart -> forall b, may_sentinel u (set_clear b s)) ->
  wpp (wd_spec may_sentinel) (executeRestarts toRestart report) (fun r _ => ok r) s.
Proof.
  intros Hx. revert report s. induction toRestart as [|u rest IH]; intros report s Hr Hmay; cbn [executeRestarts]; [done|].
  apply wpp_bind, wpp_call.
  - split; [done|]. specialize (Hmay u (list_elem_of_here _ _) (ws_clear s)). by destruct s.
  - assert (forall v, v ∈ rest -> forall b, may_sentinel v (set_clear b (set_clear false s))) as Hmay'.
    { intros v Hv b. apply (Hmay v); [by right]. }
    intros [e|] s1 ->; [|apply IH; [report_tac|done]].
    destruct (errors_Is e _); apply IH; try done; report_tac.
Qed.

Lemma wpp_parseSentinels now s Q :
  (forall m x, recent now m -> Q m (set_loaded x s)) ->
  wpp (wd_spec may_sentinel) (parseBrokenSentinels decodeHook opts now) Q s.
Proof.
  intros HQ. apply wpp_bind, wpp_read. intros [data|e] x; [|by apply wpp_ret, HQ].
  destruct (_ =? 0); [by apply wpp_ret, HQ|]. by apply wpp_ret, HQ, recent_sentinels.
Qed.

Lemma wpp_detectBroken systemd report s :
  ok report ->
  wpp (wd_spec may_sentinel) (detectBrokenRunner decodeState encodeState decodeHook opts systemd report) (fun r _ => ok r) s.
Proof.
  intros Hr. unfold detectBrokenRunner. apply wpp_bind, wpp_call; [done|]. intros now s1 ->.
  apply wpp_bind, wpp_parseSentinels. intros sentinelAt x Hs. destruct (decide _); [done|].
  destruct (mapSentinels_spec now systemd sentinelAt report Hs Hr) as [Hu Hr1].
  destruct (mapSentinelsToUnits _ _ _) as [unitSentinel report1]. cbn [fst snd] in *.
  destruct (decide _); [done|]. apply wpp_bind, wpp_load. intros [st0|e]; [|apply wpp_ret; report_tac].
  pose proof (select_loop now unitSentinel st0 (sorted_keys unitSentinel) (st0, report1, [])
                (NoDup_sorted_keys _)) as Hsel. unfold selectUnitsToRestart.
  destruct (foldl _ _ _) as [[st report2] toRestart]. destruct Hsel as (Hr2 & Hx & Hkept & Hres & _).
  { apply Forall_forall. intros u. apply elem_of_sorted_keys. }
  { split; [done|]. split; [done|]. split; [by apply kept_same|]. split; [constructor|]. intros u _. split; [apply not_elem_of_nil|done]. }
  destruct (decide _) as [|Hne]; [done|]. specialize (Hx Hne).
  apply wpp_bind, (wpp_write _ st0); [done..|intros; apply wpp_ret; report_tac|]. intros s' Hs' Hdisk.
  apply wpp_executeRestarts; [done..|]. intros u Hin b.
  pose proof (proj1 (Forall_forall _ _) Hres u Hin) as (w & ts & Hw & Ets & Ew & Hcap & Hlast).
  rewrite Hs' in Hdisk |- *. exists st0, st, w. split; [done|]. split; [done|]. split; [done|].
  cbn [ws_now set_clear set_tmp set_marker set_loaded wd_answer set_now].
  rewrite Ew in Hlast |- *. cbn in *. split_and!; try done; [lia|]. by eapply Hu.
Qed.

(** ** Reruns *)

Section reruns.
Context (may : string -> wstate -> Prop).
Abbreviation W := (wpp (wd_spec may)).

Definition marked (st : rerunState) (k : string) : Prop :=
  exists m, rs_Reruns st !! k = Some m /\ rm_RunID m <> 0.

(** The markers on disk are still there, the account is right, and the marker file was
    not read again. *)
Definition rerunning (st0 : rerunState) (e : err_ret) (acc : rerun_acc) (s : wstate) : Prop :=
  let '(st, _, report) := acc in
  (forall k, marked st0 k -> marked st k) /\ err_ok (wo_Execute opts) e report /\ ws_loaded s = Some st0 /\
  (snd (fst acc) = true -> wo_Execute opts = true) /\ rs_AutoRestarts st = rs_AutoRestarts st0.

(** A run that is not skipped at [now]. *)
Definition unskipped (run : WatchdogRun) (st : rerunState) (now : Z) : Prop :=
  rerunnableConclusion (wn_Conclusion run) = true /\ wn_CreatedAt run <> 0 /\
  time_Sub now (wn_CreatedAt run) <= wo_MaxRunAge opts /\
  ~ marked st (rerunMarkerKey (wn_ID run) (wn_HeadSHA run)).

Lemma wpp_skipRun repo run st s Q :
  (forall r t, (r = "" -> unskipped run st t) -> Q r (set_now t s)) ->
  W (skipRunBeforeLog opts repo run st) Q s.
Proof.
  intros HQ. assert (forall r, (r = "" -> unskipped run st (ws_now s)) -> Q r s) as HQ0.
  { intros r Hr. specialize (HQ r (ws_now s) Hr). by destruct s. }
  unfold skipRunBeforeLog. destruct (ValidateRepo repo); [by apply wpp_ret, HQ0|].
  destruct (rerunnableConclusion _) eqn:Hcon; cbn [negb]; [|by apply wpp_ret, HQ0].
  destruct (IsZero _) eqn:Hzero; [by apply wpp_ret, HQ0|]. unfold IsZero in Hzero. apply wpp_bind, wpp_call; [done|]. intros now s1 ->.
  destruct (_ <? _) eqn:Hage; [by apply wpp_ret, HQ|]. destruct (bool_decide _); [by apply wpp_ret, HQ|].
  destruct (rs_Reruns st !! _) as [m|] eqn:Hm.
  - destruct (rm_RunID m =? 0) eqn:Hz; cbn [negb]; apply wpp_ret, HQ; [|done].
    bsplit. intros _. split_and!; [done|lia|lia|]. intros (m' & Hm' & Hnz). congruence.
  - apply wpp_ret, HQ. bsplit. intros _. split_and!; [done|lia|lia|]. intros (m' & Hm' & _). congruence.
Qed.

Lemma wpp_openPR repo refs reason s Q :
  (forall r x,
     (forall pr, r = Ok (inl pr) -> exists n, x = Some (repo, n, pr) /\ n ∈ refs /\ pl_State pr = "open" /\
        ToLower (TrimSpace (pl_MergeableState pr)) <> "dirty" /\
        ToLower (TrimSpace (pl_MergeableState pr)) <> "conflicting") -> Q r (set_pr x s)) ->
  W (open_pull_request repo refs reason) Q s.
Proof.
  intros HQ. revert reason s HQ. induction refs as [|n refs IH]; intros reason s HQ; cbn [open_pull_request].
  { apply wpp_ret. specialize (HQ (Ok (inr reason)) (ws_pr s)). destruct s. by apply HQ. }
  destruct (n <=? 0).
  { apply IH. intros r x Hx. apply HQ. intros pr' Hr'. destruct (Hx pr' Hr') as (k & ? & Hk & ?). exists k.
    split_and!; [done|by right|tauto..]. }
  apply wpp_bind, wpp_call; [done|].
  intros [pr|e] s1 ->; [|by apply wpp_ret, HQ]. cbn [wd_answer].
  destruct (String.eqb_spec (pl_State pr) "open") as [Ho|]; cbn [negb].
  - cbv zeta. destruct (String.eqb_spec (ToLower (TrimSpace (pl_MergeableState pr))) "dirty"); cbn [orb]; [by apply wpp_ret, HQ|].
    destruct (String.eqb_spec (ToLower (TrimSpace (pl_MergeableState pr))) "conflicting"); [by apply wpp_ret, HQ|].
    apply wpp_ret, HQ. intros ? [= <-]. exists n. split_and!; [done|by left|done..].
  - apply IH. intros r x Hx. apply HQ. intros pr' Hr'. destruct (Hx pr' Hr') as (k & ? & Hk & ?). exists k.
    split_and!; [done|by right|tauto..].
Qed.

Lemma wpp_evaluate repo run st0 acc s :
  (repo, run) ∈ ws_runs s -> rerunning st0 None acc s ->
  W (evaluateNetworkRerun opts repo run acc) (fun '(e, acc') s' => rerunning st0 e acc' s' /\ ws_runs s' = ws_runs s) s.
Proof.
  intros Hrun. destruct acc as [[st mutated] report]. intros (Hst & Hr & Hl & Hmut & Hauto). cbn in Hmut.
  unfold evaluateNetworkRerun. cbv zeta. apply wpp_bind, wpp_skipRun. intros reason t Hnew.
  destruct (String.eqb_spec reason "") as [->|]; cbn [negb].
  2: { apply wpp_ret. split; [|done]. split_and!; try done. report_tac. }
  destruct (Hnew eq_refl) as (Hcon & Hcr & Hage & Hmark). apply wpp_bind, wpp_openPR. intros found x Hpr.
  destruct found as [[pr|why]|e].
  2,3: apply wpp_ret; (split; [|done]); split_and!; try done; report_tac.
  destruct (Hpr pr eq_refl) as (n & -> & Hn & Hopen & Hd & Hc).
  apply wpp_bind, wpp_call; [done|]. intros [log|e] s1 ->.
  2: apply wpp_ret; (split; [|done]); split_and!; try done; report_tac.
  destruct (bool_decide _) eqn:Hk; cbn [negb].
  2: apply wpp_ret; (split; [|done]); split_and!; try done; report_tac.
  apply bool_decide_eq_true in Hk. destruct (wo_Execute opts) eqn:Hx; cbn [negb].
  2: { apply wpp_ret. split; [|done]. unfold rerunning. rewrite Hx. split_and!; try done. report_tac. }
  apply wpp_bind, wpp_call.
  { split; [done|]. exists run. split_and!; [done..|by exists n, pr|by exists log|]. exists st0. split; [done|].
    intros m Hm. destruct (decide (rm_RunID m = 0)) as [|Hn0]; [done|]. destruct Hmark. apply Hst. by exists m. }
  intros [e|] s1 ->.
  - apply wpp_ret. split; [|done]. unfold rerunning. rewrite Hx. split_and!; try done. report_tac.
  - apply wpp_bind, wpp_call; [done|]. intros now s2 ->. apply wpp_ret. split; [|done]. unfold rerunning. rewrite Hx. split_and!; try done.
    + intros k Hk0. apply Hst in Hk0. destruct (decide (k = rerunMarkerKey (wn_ID run) (wn_HeadSHA run))) as [->|Hne]; [done|].
      destruct Hk0 as (m & Hm & Hn0). exists m. split; [|done]. cbn. by rewrite lookup_insert_ne.
    + report_tac.
Qed.

Lemma rerunning_report st0 st mutated report report' s :
  ok report' -> rerunning st0 None (st, mutated, report) s -> rerunning st0 None (st, mutated, report') s.
Proof. intros Hr' (Hst & _ & Hl & Hm & Ha). by split_and!. Qed.

Lemma rerunning_ok st0 st mutated report s : rerunning st0 None (st, mutated, report) s -> ok report.
Proof. by intros (_ & Hr & _). Qed.

Lemma wpp_rerun_runs repo runs st0 acc s :
  Forall (fun run => (repo, run) ∈ ws_runs s) runs -> rerunning st0 None acc s ->
  W (rerun_runs opts repo runs acc) (fun '(e, acc') s' => rerunning st0 e acc' s') s.
Proof.
  revert acc s. induction runs as [|run runs IH]; intros [[st mutated] report] s Hruns Hi; cbn [rerun_runs]; [done|].
  inversion_clear Hruns. apply wpp_bind. eapply wpp_mono; [apply wpp_evaluate; [done|]|].
  - eapply rerunning_report; [|exact Hi]. apply rerunning_ok in Hi. report_tac.
  - intros [[e|] acc] s1 [Hi1 Hs1]; [done|]. apply IH; [by rewrite Hs1|done].
Qed.

Lemma wpp_rerun_repos online repos st0 acc s :
  rerunning st0 None acc s ->
  W (rerun_repos opts online repos acc) (fun '(e, acc') s' => rerunning st0 e acc' s') s.
Proof.
  revert acc s. induction repos as [|repo repos IH]; intros [[st mutated] report] s Hi; cbn [rerun_repos]; [done|].
  destruct (negb _).
  { apply IH. eapply rerunning_report; [|exact Hi]. apply rerunning_ok in Hi. report_tac. }
  apply wpp_bind, wpp_call; [done|]. intros [runs|e] s1 ->.
  - apply wpp_bind. eapply wpp_mono; [apply wpp_rerun_runs; [|done]|].
    { apply Forall_forall. intros run Hin. cbn. apply list_elem_of_fmap. by exists run. }
    intros [[e|] acc] s1 Hi1; [done|]. by apply IH.
  - apply IH. eapply rerunning_report; [|exact Hi]. apply rerunning_ok in Hi. report_tac.
Qed.

Lemma wpp_reruns repos online report s :
  ok report ->
  W (rerunWatchdogNetworkFailures decodeState encodeState opts repos online report)
    (fun '(e, r) _ => err_ok (wo_Execute opts) e r) s.
Proof.
  intros Hr. unfold rerunWatchdogNetworkFailures. cbv zeta. apply wpp_bind, wpp_load.
  intros [st0|e]; [|apply wpp_ret; report_tac]. apply wpp_bind.
  eapply wpp_mono; [apply (wpp_rerun_repos online repos st0); by split_and!|].
  intros [e [[st mutated] report1]] s1 (_ & Hr1 & Hl1 & Hx & Ha). cbn in Hx.
  destruct e as [e|]; [done|]. destruct mutated; cbn [negb]; [|done].
  apply wpp_bind, (wpp_write _ st0); [auto|done|by apply kept_same|intros; apply wpp_ret; report_tac|done].
Qed.
End reruns.

(** ** The tick *)

(** Every restart: a fresh look that found no worker, or a sentinel on disk. *)
Definition may_restart (unit : string) (s : wstate) : Prop := may_probe unit s \/ may_sentinel unit s.

Lemma may_org_restart u s : may_org u s -> may_restart u s.
Proof. intros [Hc _]. by left. Qed.
Lemma may_queue_restart u s : may_queue u s -> may_restart u s.
Proof. intros [Hc _]. by left. Qed.

Abbreviation W := (wpp (wd_spec may_restart)).

Lemma wpp_org_tick systemd repos report s :
  0 < wo_QueueStallDwell opts -> ok report ->
  W (org_tick decodeState encodeState decodeRunners opts systemd repos report) (fun r _ => ok r) s.
Proof.
  intros Hdw Hr. unfold org_tick. apply wpp_bind.
  eapply wpp_mono; [eapply wd_spec_weaken, wpp_recoverBusy; [apply may_org_restart|done..]|]. clear Hr report. intros report s1 Hr.
  apply wpp_bind. eapply wpp_mono; [eapply wd_spec_weaken, wpp_recoverIdle; [apply may_queue_restart|done]|].
  clear Hr report. intros report s2 Hr.
  apply wpp_bind. eapply wpp_mono; [eapply wd_spec_weaken, wpp_restartRunners; [by left|done]|].
  clear Hr report. intros [e report] s3 Hr. destruct e as [e|]; apply wpp_ret; [by apply ok_set_Exit|]. cbv zeta.
  destruct (bool_decide (repos = [])), (bool_decide (systemd = [])); report_tac.
Qed.

Lemma ok_note_offline repoOnline repos report : ok report -> ok (foldl (note_offline repoOnline) report repos).
Proof.
  revert report. induction repos as [|repo repos IH]; intros report Hr; cbn; [done|]. apply IH.
  unfold note_offline. destruct (bool_decide _); [done|report_tac].
Qed.

Lemma wpp_repo_repair systemd repos ghBefore report s :
  ok report ->
  W (repo_repair decodeState encodeState opts systemd repos ghBefore report) (fun r _ => ok r) s.
Proof.
  intros Hr. unfold repo_repair. apply wpp_bind. eapply wpp_mono; [by apply wpp_repairHooks|].
  clear Hr report. intros [e report] s1 [Hr ->]. destruct e as [e|]; [apply wpp_ret; by apply ok_set_Exit|].
  apply wpp_bind. eapply wpp_mono; [eapply wd_spec_weaken, wpp_restartRunners; [by left|done]|].
  clear Hr report. intros [e report] s2 Hr. destruct e as [e|]; [apply wpp_ret; by apply ok_set_Exit|].
  apply wpp_bind. eapply wpp_mono; [by apply wpp_collect|]. clear Hr report. intros [[byRepo online] report] s3 [Hr ->].
  cbv zeta. pose proof (ok_note_offline online repos (set_Online (anyRepoOnline online) report)) as Hn.
  assert (ok (foldl (note_offline online) (set_Online (anyRepoOnline online) report) repos)) as Hr1 by (apply Hn; report_tac).
  destruct (wo_RerunNetworkFailures opts); cbn [negb]; [|apply wpp_ret; report_tac].
  apply wpp_bind. eapply wpp_mono; [by apply wpp_reruns|]. intros [[e|] r] s4 Hr2; apply wpp_ret; [by apply ok_set_Exit|done].
Qed.

Lemma wpp_repo_tick systemd repos report s :
  ok report ->
  W (repo_tick decodeState encodeState decodeHook opts systemd repos report) (fun r _ => ok r) s.
Proof.
  intros Hr. unfold repo_tick. apply wpp_bind. eapply wpp_mono; [by apply wpp_collect|].
  clear Hr report. intros [[byRepo online] report] s1 [Hr ->]. apply wpp_bind.
  eapply wpp_mono; [eapply wd_spec_weaken, wpp_detectBroken; [by right|report_tac]|]. clear Hr report. intros report s2 Hr.
  apply wpp_bind. assert (forall idle s', wpp (wd_spec may_restart)
    (if negb (bool_decide (ir_Status idle = StatusIdle)) then
       let about ev := ev |> because (busy_reason idle) |> saying (busy_detail idle) in
       let report := report |> wadd (about (event "runner-restart-skipped" "warning")) in
       mret (if wo_RerunNetworkFailures opts then report |> wadd (about (event "rerun-skipped" "warning")) else report)
     else repo_repair decodeState encodeState opts systemd repos byRepo report) (fun r _ => ok r) s') as Hgo.
  { intros idle s'. destruct (negb _); [|by apply wpp_repo_repair]. apply wpp_ret.
    destruct (wo_RerunNetworkFailures opts); report_tac. }
  destruct (wo_Execute opts) eqn:Hx; rewrite <-Hx in *.
  - apply wpp_idle. intros idle clear _. apply Hgo.
  - apply wpp_ret, Hgo.
Qed.

Lemma wpp_tick report s :
  0 < wo_QueueStallDwell opts -> ok report ->
  W (tick decodeState encodeState decodeHook decodeConfig decodeString url_Parse decodeRunners opts report) (fun r _ => ok r) s.
Proof.
  intros Hdw Hr. unfold tick. apply wpp_bind, wpp_call; [done|]. intros [systemd err] s1 ->. cbv zeta.
  apply wpp_bind. eapply wpp_mono; [apply wpp_enrich|]. intros systemd' s2 _.
  apply wpp_bind, wpp_fleet. intros [[repos fallback]|e'].
  - destruct (_ || _); [apply wpp_org_tick|apply wpp_repo_tick]; try done; destruct err; report_tac.
  - apply wpp_ret. destruct err; report_tac.
Qed.
End discipline.
