(* ===== verification/WatchdogLimits.v ===== *)
(** * The runner watchdog: limits over many ticks

    The restarts that broken-runner sentinels cause over any sequence of ticks: how many
    of them fall into an hour, and that no sentinel is acted on twice. *)

From S2P Require Import Prelude GoStrings Prog Civm Idle RunnerUnits WatchdogBase WatchdogGitHub Watchdog.

Local Open Scope string_scope.
Local Open Scope list_scope.
Local Open Scope Z_scope.

Definition blank_report : WatchdogReport := mkWReport true [] false (mkWMetrics 0 0 0 0 0 0) [] 0.

(** The numbers from [t] on, and in the hour from [t]. *)
Definition since (t : Z) (l : list Z) : Z := Z.of_nat (length (filter (fun x => t <= x) l)).
Definition in_hour (t : Z) (l : list Z) : Z := Z.of_nat (length (filter (fun x => t <= x < t + Hour) l)).

Lemma since_cons t x l : since t (x :: l) = (if decide (t <= x) then 1 else 0) + since t l.
Proof.
  unfold since. destruct (decide (t <= x)).
  - rewrite filter_cons_True by done. cbn. lia.
  - by rewrite filter_cons_False.
Qed.

Lemma in_hour_cons t x l : in_hour t (x :: l) = (if decide (t <= x < t + Hour) then 1 else 0) + in_hour t l.
Proof.
  unfold in_hour. destruct (decide (t <= x < t + Hour)).
  - rewrite filter_cons_True by done. cbn. lia.
  - by rewrite filter_cons_False.
Qed.

Lemma since_nil t : since t [] = 0.
Proof. done. Qed.

Lemma in_hour_nil t : in_hour t [] = 0.
Proof. done. Qed.

Lemma since_app t l k : since t (l ++ k) = since t l + since t k.
Proof. unfold since. rewrite filter_app, length_app. lia. Qed.

Lemma in_hour_since t l : in_hour t l <= since t l.
Proof.
  induction l as [|x l IH]; [done|]. rewrite in_hour_cons, since_cons.
  repeat case_decide; lia.
Qed.

Lemma since_bound t l : 0 <= since t l <= Z.of_nat (length l).
Proof. unfold since. pose proof (length_filter (fun x => t <= x) l). lia. Qed.

Lemma since_none t l : Forall (fun x => x < t) l -> since t l = 0.
Proof.
  induction 1 as [|x l Hx _ IH]; [done|]. rewrite since_cons, IH. case_decide; lia.
Qed.

Lemma Hour_bounds : 0 < Hour < 2 ^ 62.
Proof. done. Qed.

(** ** One unit *)

(** What one tick does to the window of a unit whose newest sentinel is [ts]. *)
Definition window_step (cap now ts : Z) (w : autoRestartWindow) : option autoRestartWindow :=
  let w0 := current_window now w in
  if (aw_LastActed w0 <? ts) && (aw_Count w0 <? cap)
  then Some (mkWindow (aw_Count w0 + 1) (aw_WindowStart w0) ts) else None.

(** The restarts so far, newest first: those of the current window, which begins with
    one, and the older ones, of which few are within an hour of its start. *)
Definition window_inv (cap : Z) (log : list Z) (w : autoRestartWindow) : Prop :=
  (aw_WindowStart w = 0 /\ log = []) \/
  (0 < aw_WindowStart w /\ exists cur old, log = cur ++ old /\
     Z.of_nat (length cur) = aw_Count w /\ 1 <= aw_Count w <= cap /\
     Forall (fun x => aw_WindowStart w <= x < aw_WindowStart w + Hour) cur /\ since (aw_WindowStart w + 1) cur <= aw_Count w - 1 /\
     Forall (fun x => x < aw_WindowStart w) old /\
     (forall t, aw_WindowStart w - Hour < t -> since t old <= cap - 1)) /\
  (forall t, in_hour t log <= 2 * cap - 1).

Lemma window_inv_step cap now ts log w w' :
  1 <= cap -> 0 < now -> Forall (fun x => x <= now) log ->
  window_inv cap log w -> window_step cap now ts w = Some w' ->
  window_inv cap (now :: log) w'.
Proof.
  intros Hcap Hnow Hlog Hinv Hstep. pose proof Hour_bounds as Hh. unfold window_step in Hstep.
  destruct (_ && _) eqn:Hc; [|done]. bsplit. injection Hstep as <-. right. cbn.
  unfold current_window in *. destruct Hinv as [[Hz ->]|[(Hpos & cur & old & -> & Hlen & Hcnt & Hcur & Hfirst & Hold & Hfew) Hall]].
  - assert (IsZero (aw_WindowStart w) = true) as E by (unfold IsZero; lia). rewrite E in *. cbn in *.
    split; [split; [done|]|].
    + exists [now], []. split; [done|]. split; [done|]. split; [lia|]. split; [constructor; [lia|constructor]|].
      split; [rewrite since_cons, since_nil; case_decide; lia|]. split; [constructor|]. intros t _. rewrite since_nil. lia.
    + intros t. rewrite in_hour_cons, in_hour_nil. case_decide; lia.
  - apply Forall_app in Hlog as [Hlc Hlo].
    assert (IsZero (aw_WindowStart w) = false) as E by (unfold IsZero; lia). rewrite E in *. cbn [orb] in *.
    destruct (Hour <=? time_Sub now (aw_WindowStart w)) eqn:Hnew; bsplit; cbn in *.
    + apply time_Sub_ge in Hnew; [|unfold min_int64; lia].
      assert (forall t, now - Hour < t -> since t (cur ++ old) <= cap - 1) as Hfew'.
      { intros t Ht. rewrite since_app, (since_none t old).
        - assert (since t cur <= since (aw_WindowStart w + 1) cur); [|lia].
          clear -Ht Hnew. induction cur as [|x cur IH]; [done|]. rewrite !since_cons. repeat case_decide; lia.
        - eapply Forall_impl; [exact Hold|]. cbn. lia. }
      split; [split; [done|]|].
      * exists [now], (cur ++ old). split; [done|]. split; [done|]. split; [lia|]. split; [constructor; [lia|constructor]|].
        split; [rewrite since_cons, since_nil; case_decide; lia|]. split; [|exact Hfew'].
        apply Forall_app. split; (eapply Forall_impl; [first [exact Hcur|exact Hold]|]; cbn; lia).
      * intros t. rewrite in_hour_cons. case_decide as Hin; [|specialize (Hall t); lia].
        pose proof (in_hour_since t (cur ++ old)). specialize (Hfew' t). lia.
    + apply time_Sub_lt in Hnew; [|unfold max_int64; lia].
      assert (aw_WindowStart w <= now) as Hle.
      { destruct cur as [|x cur]; [cbn in *; lia|]. inversion_clear Hcur. inversion_clear Hlc. lia. }
      split; [split; [done|]|].
      * exists (now :: cur), old. split; [done|]. split; [cbn; lia|]. split; [lia|].
        split; [constructor; [lia|done]|]. split; [rewrite since_cons; case_decide; lia|]. done.
      * intros t. change (now :: cur ++ old) with ((now :: cur) ++ old). destruct (decide (t <= now < t + Hour)) as [Hin|Hout].
        -- pose proof (in_hour_since t ((now :: cur) ++ old)). rewrite since_app in *.
           pose proof (since_bound t (now :: cur)). specialize (Hfew t). cbn [length] in *. lia.
        -- rewrite <-app_comm_cons, in_hour_cons, decide_False by done. apply Hall.
Qed.

(** ** All units *)

Section ticks.
Context `{SortSlice} (opts : WatchdogOptions).
Abbreviation cap := (wo_AutoRestartPerHour opts).
Abbreviation windows acc := (rs_AutoRestarts (fst (fst acc))).
Abbreviation chosen u acc := (filter (fun v => v = u) (snd acc)).

Lemma select_unit_other now sentinels acc u v :
  v <> u ->
  windows (select_unit opts now sentinels acc v) !! u = windows acc !! u /\
  chosen u (select_unit opts now sentinels acc v) = chosen u acc.
Proof.
  intros Hne. destruct acc as [[st report] units]. unfold select_unit. cbv zeta.
  destruct (negb (_ <? _)); [done|]. destruct (cap <=? _); [done|]. destruct (negb _); [done|]. cbn. split.
  - by rewrite lookup_insert_ne.
  - rewrite filter_app, (filter_cons_False _ v) by done. by rewrite app_nil_r.
Qed.

Lemma select_units_other now sentinels acc u vs :
  u ∉ vs ->
  windows (foldl (select_unit opts now sentinels) acc vs) !! u = windows acc !! u /\
  chosen u (foldl (select_unit opts now sentinels) acc vs) = chosen u acc.
Proof.
  revert acc. induction vs as [|v vs IH]; intros acc Hu; cbn; [done|]. apply not_elem_of_cons in Hu as [Hne Hu].
  destruct (IH (select_unit opts now sentinels acc v) Hu) as [-> ->]. by apply select_unit_other.
Qed.

Lemma select_unit_same now sentinels acc u ts :
  wo_Execute opts = true -> sentinels !! u = Some ts ->
  let w := default zero_window (windows acc !! u) in
  match window_step cap now ts w with
  | Some w' => windows (select_unit opts now sentinels acc u) !! u = Some w' /\
               chosen u (select_unit opts now sentinels acc u) = chosen u acc ++ [u]
  | None => windows (select_unit opts now sentinels acc u) !! u = windows acc !! u /\
            chosen u (select_unit opts now sentinels acc u) = chosen u acc
  end.
Proof.
  intros Hx Hts. destruct acc as [[st report] units]. cbv zeta. unfold select_unit, window_step. rewrite Hts, Hx. cbn [fst snd default from_option id].
  set (w0 := current_window now _). destruct (aw_LastActed w0 <? ts); cbn [negb andb]; [|done].
  rewrite (Z.leb_antisym (aw_Count w0) cap). destruct (aw_Count w0 <? cap); cbn [negb]; [|done]. cbn. split.
  - by rewrite lookup_insert_eq.
  - by rewrite filter_app, (filter_cons_True _ u) by done.
Qed.

(** What a tick does to a unit: nothing without a sentinel, else [window_step]. *)
Definition unit_step (now : Z) (sentinels : gmap string Z) (u : string) (w : autoRestartWindow) : option autoRestartWindow :=
  match sentinels !! u with Some ts => window_step cap now ts w | None => None end.

Lemma selectUnits_unit now sentinels st report u :
  wo_Execute opts = true ->
  let acc := selectUnitsToRestart opts now sentinels st report in
  match unit_step now sentinels u (default zero_window (rs_AutoRestarts st !! u)) with
  | Some w' => windows acc !! u = Some w' /\ chosen u acc = [u]
  | None => windows acc !! u = rs_AutoRestarts st !! u /\ chosen u acc = []
  end.
Proof.
  intros Hx. cbv zeta. unfold selectUnitsToRestart, unit_step. pose proof (NoDup_sorted_keys sentinels) as Hnd.
  destruct (sentinels !! u) as [ts|] eqn:Hts.
  - assert (u ∈ sorted_keys sentinels) as (k1 & k2 & Hk)%list_elem_of_split by (apply elem_of_sorted_keys; by rewrite Hts).
    rewrite Hk in *. apply NoDup_app in Hnd as (_ & H12 & [Hu2 _]%NoDup_cons).
    assert (u ∉ k1) as Hu1 by (intros Hin; apply (H12 u Hin); left).
    rewrite foldl_app. cbn [foldl].
    destruct (select_units_other now sentinels (st, report, []) u k1 Hu1) as [Hw1 Hc1]. cbn [fst snd] in Hw1, Hc1.
    set (acc1 := foldl _ _ k1) in *.
    destruct (select_units_other now sentinels (select_unit opts now sentinels acc1 u) u k2 Hu2) as [-> ->].
    pose proof (select_unit_same now sentinels acc1 u ts Hx Hts) as Hs. cbv zeta in Hs. rewrite Hw1, Hc1 in Hs.
    by destruct (window_step _ _ _ _).
  - apply (select_units_other now sentinels (st, report, []) u). rewrite elem_of_sorted_keys, Hts. by intros [? [=]].
Qed.

(** The restarts of a sequence of ticks: when, which unit, for which sentinel.  The state
    of a tick is the one the last restart has put on disk. *)
Fixpoint sentinel_ticks (ticks : list (Z * gmap string Z)) (st : rerunState) : list (Z * string * Z) :=
  match ticks with
  | [] => []
  | (now, sentinels) :: ticks =>
      let '(st', _, units) := selectUnitsToRestart opts now sentinels st blank_report in
      ((fun u => (now, u, default 0 (sentinels !! u))) <$> units) ++ sentinel_ticks ticks st'
  end.

(** The times, and the sentinels, of the restarts of a unit. *)
Definition restarts_of (u : string) (log : list (Z * string * Z)) : list (Z * Z) :=
  (fun x => (fst (fst x), snd x)) <$> filter (fun x => snd (fst x) = u) log.

Lemma restarts_of_tick u now (sentinels : gmap string Z) units :
  restarts_of u ((fun v => (now, v, default 0 (sentinels !! v))) <$> units) =
  (fun v => (now, default 0 (sentinels !! v))) <$> filter (fun v => v = u) units.
Proof.
  unfold restarts_of. induction units as [|v units IH]; [done|]. rewrite fmap_cons, !filter_cons. cbn.
  destruct (decide (v = u)); cbn; by rewrite IH.
Qed.

Lemma restarts_of_app u l k : restarts_of u (l ++ k) = restarts_of u l ++ restarts_of u k.
Proof. unfold restarts_of. by rewrite filter_app, fmap_app. Qed.

(** Ticks happen in the order of time. *)
Fixpoint in_order (from : Z) (ticks : list (Z * gmap string Z)) : Prop :=
  match ticks with [] => True | (now, _) :: ticks => from <= now /\ 0 < now /\ in_order now ticks end.

Lemma ticks_bounded u ticks st from log :
  wo_Execute opts = true -> 1 <= cap -> in_order from ticks -> Forall (fun x => x <= from) log ->
  let w := default zero_window (rs_AutoRestarts st !! u) in
  window_inv cap log w ->
  (forall t, in_hour t (reverse (fst <$> restarts_of u (sentinel_ticks ticks st)) ++ log) <= 2 * cap - 1) /\
  StronglySorted (fun x y => snd x < snd y) ((0, aw_LastActed w) :: restarts_of u (sentinel_ticks ticks st)).
Proof.
  intros Hx Hcap. revert st from log. induction ticks as [|[now sentinels] ticks IH]; intros st from log Hord Hlog; cbv zeta.
  { intros Hinv. split; [|by repeat constructor]. intros t. cbn. destruct Hinv as [[_ ->]|[_ Hall]]; [|apply Hall].
    rewrite in_hour_nil. lia. }
  destruct Hord as (Hle & Hpos & Hord). intros Hinv. cbn [sentinel_ticks].
  pose proof (selectUnits_unit now sentinels st blank_report u Hx) as Hs. cbv zeta in Hs.
  destruct (selectUnitsToRestart _ _ _ _ _) as [[st' report'] units]. cbn [fst snd] in Hs.
  rewrite restarts_of_app, restarts_of_tick.
  assert (Forall (fun x => x <= now) log) as Hlog' by (eapply Forall_impl; [exact Hlog|]; cbn; lia).
  set (w := default zero_window _) in *. destruct (unit_step now sentinels u w) as [w'|] eqn:Hstep; destruct Hs as [Hw ->].
  - unfold unit_step in Hstep. destruct (sentinels !! u) as [ts|] eqn:Hts; [|done]. cbn [fmap list_fmap default from_option id app].
    rewrite Hts. cbn [default from_option id].
    specialize (IH st' now (now :: log) Hord). rewrite Hw in IH. cbn [default from_option id] in IH.
    destruct IH as [IH1 IH2]; [by constructor|by eapply window_inv_step|]. split.
    + intros t. rewrite reverse_cons, <-app_assoc. apply IH1.
    + assert (aw_LastActed w < ts /\ aw_LastActed w' = ts) as [Hlt El].
      { unfold window_step in Hstep. destruct (_ && _) eqn:E; [|done]. bsplit. injection Hstep as <-.
        unfold current_window in *. destruct (_ || _); by split. }
      inversion_clear IH2 as [|? ? Hss Hall]. rewrite El in Hall. constructor; [constructor|]; [done|..].
      * eapply Forall_impl; [exact Hall|]. done.
      * constructor; [done|]. eapply Forall_impl; [exact Hall|]. cbn. lia.
  - cbn [fmap list_fmap app]. specialize (IH st' now log Hord Hlog'). rewrite Hw in IH. by apply IH.
Qed.
End ticks.

Lemma in_hour_perm t l k : l ≡ₚ k -> in_hour t l = in_hour t k.
Proof. intros E. unfold in_hour. by rewrite E. Qed.

(** C20. The limits of the restarts that broken-runner sentinels cause, over any sequence
    of ticks in the order of time that starts without a marker file: in no hour is a unit
    restarted more than [2 * cap - 1] times, and the sentinels acted on are newer
    and newer, so that none is acted on twice. *)
Theorem sentinel_restarts_are_capped `{SortSlice} opts ticks u :
  wo_Execute opts = true -> 1 <= wo_AutoRestartPerHour opts -> in_order 0 ticks ->
  let log := restarts_of u (sentinel_ticks opts ticks empty_state) in
  (forall t, in_hour t (fst <$> log) <= 2 * wo_AutoRestartPerHour opts - 1) /\
  StronglySorted (fun x y => snd x < snd y) log /\ Forall (fun x => 0 < snd x) log.
Proof.
  intros Hx Hcap Hord. cbv zeta.
  destruct (ticks_bounded opts u ticks empty_state 0 [] Hx Hcap Hord) as [Hb Hs]; [constructor|by left|].
  inversion_clear Hs as [|? ? Hss Hall]. split_and!; [|done|done].
  intros t. specialize (Hb t). rewrite app_nil_r, (in_hour_perm _ _ _ (reverse_Permutation _)) in Hb. exact Hb.
Qed.

(** ** The cap is not one of a rolling hour *)

Definition demo_opts : WatchdogOptions :=
  applyWatchdogScalarDefaults
    (mkWOpts true [] true false 0 0 0 0 0 "" "" "" "" "" "" 0 0).
Definition demo_unit : string := "actions.runner.acme.civm-acme-org.service".

(** A new sentinel at each of these minutes. *)
Definition demo_ticks : list (Z * gmap string Z) :=
  (fun m => (m * Minute, {[demo_unit := m * Minute]})) <$> [1; 59; 60; 61; 62; 63; 64].

Lemma sentinel_restarts_are_capped_witness :
  let log := restarts_of demo_unit (sentinel_ticks (H:=SortSlice_insertion) demo_opts demo_ticks empty_state) in
  (forall t, in_hour t (fst <$> log) <= 5) /\
  StronglySorted (fun x y => snd x < snd y) log /\ Forall (fun x => 0 < snd x) log.
Proof.
  apply (sentinel_restarts_are_capped (H:=SortSlice_insertion) demo_opts demo_ticks demo_unit); [reflexivity|vm_compute; discriminate|].
  repeat split; vm_compute; discriminate.
Defined.

(** With a cap of three, five restarts of one unit within six minutes: the window is
    fixed at its first restart and does not roll. *)
Lemma cap_is_per_fixed_window :
  wo_AutoRestartPerHour demo_opts = 3 /\
  in_hour (59 * Minute) (fst <$> restarts_of demo_unit
    (sentinel_ticks (H:=SortSlice_insertion) demo_opts demo_ticks empty_state)) = 5.
Proof. split; vm_compute; reflexivity. Qed.
