(* ===== verification/WatchdogContract.v ===== *)
(** * The runner watchdog: its contract

    The theorems on a whole tick, on the recoveries of an organization runner, on the
    fenced restart and on the classification of failed logs; and three executions that do
    not do what they mean to. *)

From S2P Require Import Prelude GoStrings Prog Civm Idle RunnerUnits WatchdogBase WatchdogGitHub Watchdog WatchdogSafety WatchdogLimits.

Local Open Scope string_scope.
Local Open Scope list_scope.
Local Open Scope Z_scope.

Section contract.
Context `{SortSlice} `{MapRange}.
Context (decodeState : string -> result rerunState) (encodeState : rerunState -> result string).
Context (decodeHook : string -> option hookLogRecord).
Context (decodeConfig : string -> option (gmap string string)) (decodeString : string -> option string).
Context (url_Parse : string -> option (string * string * string)).
Context (decodeRunners : string -> result (list WatchdogGitHubRunner)).

Lemma validated_dwell opts : validateWatchdogOptions opts = None -> 0 < wo_QueueStallDwell opts.
Proof.
  unfold validateWatchdogOptions. intros Hv. repeat case_match; try done. bsplit. lia.
Qed.

(** C11. A tick of the watchdog, whatever the host and GitHub answer.  It changes nothing
    unless it was told to execute.  It restarts a unit only right after a look at the
    processes that found no Runner.Worker, or for a broken-runner sentinel of the last
    hour, newer than the last one acted on and within the hourly cap, that is already on
    disk.  It reruns a run only if the last listing of that repository has it, failed in a
    way that may be rerun and not too old, one of its pull requests was just seen open
    without conflicts, its log was just read and classifies as a network failure, and the
    marker file, as it was loaded, has no rerun for its identifier and commit.  It writes
    only its marker file, through a rename, and what it puts there keeps every restart that
    the loaded file counts in an hour still running; the commands it runs itself only read.
    The report is honest: its counters are those of its events, only an executing tick says
    "executed", and a critical event shows in the exit code. *)
Theorem watchdog_acts_only_on_evidence opts s :
  let o := applyWatchdogScalarDefaults opts in
  wpp (wd_spec decodeState encodeState o (may_restart encodeState o))
    (Watchdog decodeState encodeState decodeHook decodeConfig decodeString url_Parse decodeRunners opts)
    (fun r _ => report_ok (wo_Execute opts) r) s.
Proof.
  cbv zeta. set (o := applyWatchdogScalarDefaults opts). unfold Watchdog. fold o. cbv zeta.
  change (wo_Execute opts) with (wo_Execute o).
  set (report := mkWReport _ _ _ _ _ _). assert (report_ok (wo_Execute o) report) as Hr.
  { split; [by split_and!|]. by left. }
  destruct (validateWatchdogOptions o) eqn:Hv; [apply wpp_ret; report_tac|].
  apply wpp_bind, wpp_call; [done|]. intros [[]|e] s1 ->; [apply wpp_ret; report_tac| |apply wpp_ret; report_tac].
  apply wpp_bind, wpp_call; [done|]. intros [e|] s1 ->; [apply wpp_ret; report_tac|].
  apply wpp_tick; [by apply validated_dwell|done].
Qed.

End contract.

(** ** Classification *)

Lemma firstSignature_fold lower sigs best :
  match foldl (fun best sig =>
           match Index lower sig with
           | None => best
           | Some idx => match best with
                         | None => Some (sig, idx)
                         | Some (_, bestIdx) => if idx <? bestIdx then Some (sig, idx) else best
                         end
           end) best sigs with
  | Some (sig, i) => (best = Some (sig, i) \/ (sig ∈ sigs /\ Index lower sig = Some i)) /\
                     (forall b j, best = Some (b, j) -> i <= j) /\
                     (forall c j, c ∈ sigs -> Index lower c = Some j -> i <= j)
  | None => best = None /\ forall c, c ∈ sigs -> Index lower c = None
  end.
Proof.
  revert best. induction sigs as [|c sigs IH]; intros best; cbn.
  { destruct best as [[sig i]|]; [|split; [done|by intros ? ?%not_elem_of_nil]].
    split_and!; [by left|by intros ? ? [= <- <-]|by intros ? ? ?%not_elem_of_nil]. }
  set (best' := match Index lower c with None => best | Some _ => _ end). specialize (IH best').
  destruct (foldl _ best' sigs) as [[sig i]|].
  - destruct IH as (Hor & Hb & Hc). split_and!.
    + destruct Hor as [E|[? ?]]; [|right; split; [by right|done]]. unfold best' in E.
      destruct (Index lower c) as [k|] eqn:Ek; [|by left]. destruct best as [[b j]|]; [|simplify_eq; right; split; [left|done]].
      destruct (k <? j); simplify_eq; [right; split; [left|done]|by left].
    + intros b j ->. unfold best' in Hb. destruct (Index lower c) as [k|]; [|by eapply Hb].
      destruct (k <? j) eqn:E; [|by eapply Hb]. specialize (Hb _ _ eq_refl). bsplit. lia.
    + intros d j [->|Hd]%elem_of_cons Hj; [|by eapply Hc]. unfold best' in Hb. rewrite Hj in Hb.
      destruct best as [[b k]|]; [|by eapply Hb]. destruct (j <? k) eqn:E; [by eapply Hb|].
      specialize (Hb _ _ eq_refl). bsplit. lia.
  - destruct IH as [E Hc]. unfold best' in E. destruct (Index lower c) eqn:Ek.
    + destruct best as [[b k]|]; [|done]. by destruct (_ <? _).
    + split; [done|]. intros d [->|Hd]%elem_of_cons; auto.
Qed.

(** The earliest occurrence of any of the signatures. *)
Lemma firstSignature_spec lower sigs :
  match firstSignature lower sigs with
  | Some (sig, i) => sig ∈ sigs /\ Index lower sig = Some i /\
                     forall c j, c ∈ sigs -> Index lower c = Some j -> i <= j
  | None => forall c, c ∈ sigs -> Index lower c = None
  end.
Proof.
  pose proof (firstSignature_fold lower sigs None) as Hf. unfold firstSignature.
  destruct (foldl _ None sigs) as [[sig i]|]; [|apply Hf]. destruct Hf as ([[=]|[? ?]] & _ & ?). by split_and!.
Qed.

Definition transient_signatures : list string := networkCheckoutSignatures ++ actionDownloadTransientSignatures.

Lemma network_signature_spec lower :
  match network_signature lower with
  | Some (sig, i) => sig ∈ transient_signatures /\ Index lower sig = Some i /\
                     forall c j, c ∈ transient_signatures -> Index lower c = Some j -> i <= j
  | None => forall c, c ∈ transient_signatures -> Index lower c = None
  end.
Proof.
  unfold network_signature, transient_signatures.
  pose proof (firstSignature_spec lower networkCheckoutSignatures) as Hn.
  pose proof (firstSignature_spec lower actionDownloadTransientSignatures) as Ha.
  destruct (firstSignature lower actionDownloadTransientSignatures) as [[asig ai]|];
    destruct (firstSignature lower networkCheckoutSignatures) as [[nsig ni]|].
  - destruct Hn as (? & ? & Hn), Ha as (? & ? & Ha). destruct (ai <? ni) eqn:E; bsplit.
    + split_and!; [apply elem_of_app; by right|done|]. intros c j [Hc|Hc]%elem_of_app Hj; [specialize (Hn c j Hc Hj); lia|by eapply Ha].
    + split_and!; [apply elem_of_app; by left|done|]. intros c j [Hc|Hc]%elem_of_app Hj; [by eapply Hn|specialize (Ha c j Hc Hj); lia].
  - destruct Ha as (? & ? & Ha). split_and!; [apply elem_of_app; by right|done|]. intros c j [Hc|Hc]%elem_of_app Hj; [|by eapply Ha].
    by rewrite (Hn c Hc) in Hj.
  - destruct Hn as (? & ? & Hn). split_and!; [apply elem_of_app; by left|done|]. intros c j [Hc|Hc]%elem_of_app Hj; [by eapply Hn|].
    by rewrite (Ha c Hc) in Hj.
  - intros c [Hc|Hc]%elem_of_app; auto.
Qed.

(** A failed log is called a network failure, which is what a rerun needs, exactly
    when it mentions no secret or authentication problem and a transient network signature
    begins no later than any sign of the code's own test, lint or build. *)
Theorem network_failure_iff log :
  fc_Kind (ClassifyFailureLog log) = FailureNetworkCheckout <->
  (forall s, s ∈ secretSignatures -> Contains (ToLower log) s = false) /\
  exists sig i, sig ∈ transient_signatures /\ Index (ToLower log) sig = Some i /\
    forall c j, c ∈ codeFailureSignatures -> Index (ToLower log) c = Some j -> i <= j.
Proof.
  unfold ClassifyFailureLog. cbv zeta. set (lower := ToLower log). setoid_rewrite <-Index_None.
  pose proof (firstSignature_spec lower secretSignatures) as Hs.
  pose proof (firstSignature_spec lower codeFailureSignatures) as Hc.
  pose proof (network_signature_spec lower) as Hn.
  destruct (firstSignature lower secretSignatures) as [[ssig si]|].
  { cbn [fc_Kind]. split; [discriminate|]. intros [Hno _]. destruct Hs as (Hin & Hi & _). rewrite (Hno _ Hin) in Hi. discriminate Hi. }
  destruct (network_signature lower) as [[nsig ni]|].
  2: { destruct (firstSignature lower codeFailureSignatures) as [[csig ci]|]; cbn [fc_Kind]; (split; [discriminate|]);
       intros (_ & sig & i & Hin & Hi & _); rewrite (Hn _ Hin) in Hi; discriminate Hi. }
  destruct Hn as (Hnin & Hni & Hnmin).
  destruct (firstSignature lower codeFailureSignatures) as [[csig ci]|].
  - destruct Hc as (Hcin & Hci & Hcmin). destruct (ci <? ni) eqn:E; bsplit; cbn [fc_Kind]; split; try discriminate.
    + intros (_ & sig & i & Hin & Hi & Hall). specialize (Hall _ _ Hcin Hci). specialize (Hnmin _ _ Hin Hi). lia.
    + intros _. split; [exact Hs|]. exists nsig, ni. split; [exact Hnin|]. split; [exact Hni|].
      intros c j Hc Hj. specialize (Hcmin _ _ Hc Hj). lia.
    + reflexivity.
  - cbn [fc_Kind]. split; [|reflexivity]. intros _. split; [exact Hs|]. exists nsig, ni.
    split; [exact Hnin|]. split; [exact Hni|]. intros c j Hc0 Hj. rewrite (Hc _ Hc0) in Hj. discriminate Hj.
Qed.

(** * The runner watchdog: the fenced restart

    [defaultWatchdogRestart] under any answers: the unit is stopped only while it is
    frozen without a worker, or when it was seen inactive; a freeze is always undone; and
    success means that the unit was seen active again. *)

Local Open Scope string_scope.
Local Open Scope list_scope.
Local Open Scope Z_scope.

Record fence := mkFence {
  f_frozen : bool;        (* a freeze that was not undone *)
  f_thaw_failed : bool;   (* the command that undoes it failed *)
  f_clear : bool;         (* no worker was found while the unit was frozen *)
  f_state : string;       (* what is-active said last *)
  f_stopped : bool;       (* the unit was stopped *)
  f_restarted : bool;     (* it was started again *)
}.

Definition set_frozen b s := mkFence b (f_thaw_failed s) false (f_state s) (f_stopped s) (f_restarted s).
Definition set_thaw_failed s := mkFence (f_frozen s) true (f_clear s) (f_state s) (f_stopped s) (f_restarted s).
Definition set_fclear b s := mkFence (f_frozen s) (f_thaw_failed s) b (f_state s) (f_stopped s) (f_restarted s).
Definition set_state x s := mkFence (f_frozen s) (f_thaw_failed s) (f_clear s) x (f_stopped s) (f_restarted s).
Definition set_stopped s := mkFence false (f_thaw_failed s) (f_clear s) (f_state s) true (f_restarted s).
Definition set_restarted s := mkFence (f_frozen s) (f_thaw_failed s) (f_clear s) (f_state s) (f_stopped s) true.

Inductive unit_command := CFreeze | CThaw | CStop | CKill | CRestart | CIsActive | CShow.

#[global] Instance unit_command_eq_dec : EqDecision unit_command.
Proof. solve_decision. Defined.

Section fence.
Context (unit : string).

(** The commands on the unit. *)
Definition command_line (c : unit_command) : string * list string :=
  match c with
  | CFreeze => ("sudo", ["systemctl"; "freeze"; unit])
  | CThaw => ("sudo", ["systemctl"; "thaw"; unit])
  | CStop => ("sudo", ["systemctl"; "stop"; unit])
  | CKill => ("sudo", ["systemctl"; "kill"; "--kill-who=all"; "--signal=SIGKILL"; unit])
  | CRestart => ("sudo", ["systemctl"; "restart"; unit])
  | CIsActive => ("systemctl", ["is-active"; unit])
  | CShow => ("systemctl", ["show"; unit; "--property=ControlGroup"; "--value"])
  end.

Definition dead (s : fence) : Prop := f_state s = "inactive" \/ f_state s = "failed".

Definition command_allowed (c : unit_command) (s : fence) : Prop :=
  match c with
  | CFreeze => f_frozen s = false /\ f_stopped s = false
  | CThaw => f_frozen s = true
  | CStop => (f_frozen s = true /\ f_clear s = true) \/ (f_frozen s = false /\ dead s)
  | CKill => f_stopped s = true
  | CRestart => f_stopped s = true /\ f_frozen s = false
  | CIsActive | CShow => True
  end.

Definition command_effect (c : unit_command) (b : string * err_ret) (s : fence) : fence :=
  match c, snd b with
  | CFreeze, None => set_frozen true s
  | CThaw, None => set_frozen false s
  | CThaw, Some _ => set_thaw_failed s
  | CStop, None => set_stopped s
  | CRestart, None => set_restarted s
  | CIsActive, _ => set_state (TrimSpace (fst b)) s
  | _, _ => s
  end.

(** Nothing else is called; a look at the processes counts only while it is frozen. *)
Definition fence_spec : spec wdE fence := {|
  allowed B e s :=
    match e with
    | RunFn name args => exists c, (name, args) = command_line c /\ command_allowed c s
    | ActivityFn | ReadFileFn _ | SleepFn _ => True
    | _ => False
    end;
  answers B e s :=
    match e in wdE B return B -> fence -> Prop with
    | RunFn name args => fun b s' => exists c, (name, args) = command_line c /\ s' = command_effect c b s
    | ActivityFn => fun b s' => s' = set_fclear (f_frozen s && no_worker b) s
    | ReadFileFn _ => fun b s' => s' = s
    | _ => fun _ s' => s' = s
    end;
|}.

Lemma command_line_inj c c' : command_line c = command_line c' -> c = c'.
Proof. destruct c, c'; cbn; congruence. Qed.

Lemma wpp_command c s Q :
  command_allowed c s -> (forall b, Q b (command_effect c b s)) ->
  wpp fence_spec (call (RunFn (fst (command_line c)) (snd (command_line c)))) Q s.
Proof.
  intros Ha HQ. apply wpp_call.
  - exists c. split; [|done]. by destruct (command_line c).
  - intros b s' (c' & E & ->). rewrite <-surjective_pairing in E. apply command_line_inj in E as <-. apply HQ.
Qed.

Lemma wpp_systemctl c args s Q :
  command_line c = ("sudo", "systemctl" :: args) -> command_allowed c s ->
  (forall out, Q (Ok out) (command_effect c (out, None) s)) ->
  (forall out e, Q (Err e) (command_effect c (out, Some e) s)) ->
  wpp fence_spec (systemctl args) Q s.
Proof.
  intros Hc Ha Hok Herr. unfold systemctl, run. apply wpp_bind.
  pose proof (wpp_command c s (fun a s' => wpp fence_spec
    (mret (match a with (_, Some e) => Err e | (out, None) => Ok out end)) Q s')) as Hw. rewrite Hc in Hw. cbn [fst snd] in Hw.
  apply Hw; [done|]. intros [out [e|]]; apply wpp_ret; auto.
Qed.

Lemma wpp_is_active s Q : (forall x, Q x (set_state x s)) -> wpp fence_spec (is_active unit) Q s.
Proof.
  intros HQ. unfold is_active. apply wpp_bind, (wpp_command CIsActive); [done|]. intros [out e]. apply wpp_ret, HQ.
Qed.

Lemma wpp_fence_worker s Q :
  (forall b, Q b (set_fclear (f_frozen s && negb b) s)) -> wpp fence_spec hasLocalRunnerWorker Q s.
Proof.
  intros HQ. apply wpp_bind, wpp_call; [done|]. intros r s1 ->. apply wpp_ret.
  specialize (HQ (match r with Err _ => true | Ok l => existsb (fun a => Contains (act_Command a) "Runner.Worker") l end)).
  by destruct r.
Qed.

Lemma wpp_cgroupEmpty s Q : (forall r, Q r s) -> wpp fence_spec (watchdogUnitCgroupEmpty unit) Q s.
Proof.
  intros HQ. unfold watchdogUnitCgroupEmpty. apply wpp_bind. unfold run. apply wpp_bind.
  apply (wpp_command CShow); [done|]. intros [out [e|]]; apply wpp_ret; [apply wpp_ret, HQ|]. cbn [command_effect].
  destruct (String.eqb _ _); [apply wpp_ret, HQ|]. destruct (negb _); [apply wpp_ret, HQ|].
  apply wpp_bind, wpp_call; [done|]. intros [data|e] s1 ->; [apply wpp_ret, HQ|].
  destruct (errors_Is e _); apply wpp_ret, HQ.
Qed.

(** The end of a restart. *)
Definition fenced (r : err_ret) (s : fence) : Prop :=
  (f_frozen s = true -> f_thaw_failed s = true) /\
  (r = None -> f_stopped s = true /\ f_restarted s = true /\ f_state s = "active").

Lemma wpp_restart_stopped opts s :
  f_stopped s = true -> f_frozen s = false ->
  wpp fence_spec (restart_stopped opts unit) fenced s.
Proof.
  intros Hst Hfr. unfold restart_stopped. apply wpp_bind, (wpp_systemctl CKill); [done..| |].
  - intros out. apply wpp_bind, wpp_ret, wpp_bind, (wpp_systemctl CRestart); [done..| |].
    + intros out'. apply wpp_bind, wpp_call; [done|]. intros [] s1 ->. apply wpp_bind, wpp_is_active. intros x.
      destruct (String.eqb_spec x "active") as [->|]; apply wpp_ret; (split; [cbn; congruence|]); [|done]. by intros _.
    + intros out' e. apply wpp_ret. split; [cbn; congruence|done].
  - intros out e. apply wpp_bind, wpp_bind, wpp_cgroupEmpty. intros empty. apply wpp_ret.
    destruct empty as [[]|e']; [|apply wpp_ret; split; [cbn; congruence|done]..].
    apply wpp_bind, (wpp_systemctl CRestart); [done..| |].
    + intros out'. apply wpp_bind, wpp_call; [done|]. intros [] s1 ->. apply wpp_bind, wpp_is_active. intros x.
      destruct (String.eqb_spec x "active") as [->|]; apply wpp_ret; (split; [cbn; congruence|]); [|done]. by intros _.
    + intros out' e'. apply wpp_ret. split; [cbn; congruence|done].
Qed.

Lemma wpp_thaw e s : f_frozen s = true -> wpp fence_spec (thaw unit e) fenced s.
Proof.
  intros Hf. unfold thaw. apply wpp_bind, (wpp_systemctl CThaw); [done..| |].
  - intros out. by apply wpp_ret.
  - intros out e'. by apply wpp_ret.
Qed.
End fence.

(** C13. The restart that the watchdog uses by default, on the unit that it is given and
    whatever the commands answer: the unit is stopped only while it is frozen with no
    Runner.Worker seen since, or after it was seen inactive or failed; its residual
    processes are killed and it is started again only after that stop; a freeze is undone
    on every way out, except that the thaw itself may fail; and success means that the
    unit was stopped, restarted and seen active. *)
Theorem restart_is_fenced opts unit state :
  wpp (fence_spec unit) (defaultWatchdogRestart opts unit) fenced
    (mkFence false false false state false false).
Proof.
  unfold defaultWatchdogRestart. destruct (ValidateServiceUnit unit); [done|].
  apply wpp_bind, (wpp_systemctl unit CFreeze); [done..| |].
  - intros out. apply wpp_bind, wpp_ret, wpp_bind, wpp_fence_worker. intros [|]; [by apply wpp_thaw|].
    apply wpp_bind, (wpp_systemctl unit CStop); [done|by left| |].
    + intros out'. by apply wpp_restart_stopped.
    + intros out' e. by apply wpp_thaw.
  - intros out e. apply wpp_bind, wpp_bind, wpp_is_active. intros x.
    destruct (String.eqb x "inactive" || String.eqb x "failed") eqn:Hx; [|by apply wpp_ret, wpp_ret].
    apply wpp_ret, wpp_bind, wpp_ret, wpp_bind, (wpp_systemctl unit CStop); [done| | |].
    + right. split; [done|]. apply orb_true_iff in Hx as [?%String.eqb_eq|?%String.eqb_eq]; [by left|by right].
    + intros out'. by apply wpp_restart_stopped.
    + intros out' e'. by apply wpp_ret.
Qed.
