(* ===== verification/WatchdogDemo.v ===== *)
(** * The runner watchdog: concrete runs

    A small machine on which the ticks of the watchdog are run, with the default restart
    linked in; three executions that do not do what the code means to; and the witnesses
    of the theorems on a tick. *)

From S2P Require Import Prelude GoStrings Prog Civm Idle RunnerUnits WatchdogBase WatchdogGitHub Watchdog WatchdogSafety WatchdogLimits WatchdogContract.

Local Open Scope string_scope.
Local Open Scope list_scope.
Local Open Scope Z_scope.

(** The effects with the default [RestartFn]. *)
Definition with_default_restart (opts : WatchdogOptions) B (e : wdE B) : prog wdE B :=
  match e in wdE B return prog wdE B with
  | RestartFn unit => defaultWatchdogRestart opts unit
  | e => call e
  end.

(** ** The machine *)

Record machine := mkMachine {
  mc_files : gmap string string;
  mc_worker : bool;                 (* a job runs somewhere on the host *)
  mc_now : Z;
  mc_commands : list (list string); (* the commands under sudo *)
  mc_reruns : list Z;               (* the reruns that were asked for *)
  mc_failing : Z;                   (* the run whose rerun fails *)
}.

Definition put_files f m := mkMachine f (mc_worker m) (mc_now m) (mc_commands m) (mc_reruns m) (mc_failing m).
Definition at_time worker now m := mkMachine (mc_files m) worker now (mc_commands m) (mc_reruns m) (mc_failing m).
Definition did c m := mkMachine (mc_files m) (mc_worker m) (mc_now m) (mc_commands m ++ [c]) (mc_reruns m) (mc_failing m).
Definition asked r m := mkMachine (mc_files m) (mc_worker m) (mc_now m) (mc_commands m) (mc_reruns m ++ [r]) (mc_failing m).

Definition missing : error := Errorf_s ErrNotExist "missing".
Definition network_log : string := "fatal: the remote end hung up unexpectedly".
Definition failed_run (id : Z) : WatchdogRun := mkWRun id "sha" "completed" "failure" Minute "" [7].

Definition machine_step B (e : wdE B) : St machine B :=
  match e in wdE B return St machine B with
  | MaintenanceActiveFn _ => fun m => (Ok false, m)
  | NetworkFn _ => fun m => (None, m)
  | SystemRunnersFn => fun m => (([], None), m)
  | GitHubRunnersFn _ => fun m => (Ok [], m)
  | ActivityFn => fun m => (Ok (if mc_worker m then [mkActivity 9 "bin/Runner.Worker"] else []), m)
  | ProbeTimer _ => fun m => (None, m)
  | HookInstallFn _ => fun m => (mkInstallOutcome 1 "", m)
  | ListRunsFn _ _ => fun m => (Ok [failed_run 1; failed_run 2], m)
  | PullRequestFn _ n => fun m => (Ok (mkWPR n "open" "clean"), m)
  | RunLogFn _ _ => fun m => (Ok network_log, m)
  | RerunFn _ id => fun m => (if id =? mc_failing m then Some missing else None, asked id m)
  | QueueReposFn => fun m => (Ok [], m)
  | QueuedCivmJobsFn _ _ _ => fun m => (Ok (mkEvidence 0 ""), m)
  | ReadFileFn p => fun m => (match mc_files m !! p with Some d => Ok d | None => Err missing end, m)
  | WriteFileFn p d => fun m => (None, put_files (<[p := d]> (mc_files m)) m)
  | MkdirAllFn _ => fun m => (None, m)
  | RenameFn a b => fun m =>
      match mc_files m !! a with
      | Some d => (None, put_files (<[b := d]> (delete a (mc_files m))) m)
      | None => (Some missing, m)
      end
  | RemoveFn p => fun m => (None, put_files (delete p (mc_files m)) m)
  | NowFn => fun m => (mc_now m, m)
  | SleepFn _ => fun m => (tt, m)
  | RestartFn u => fun m => (None, did ["restart"; u] m)
  | RunFn name args => fun m => if String.eqb name "sudo" then (("", None), did args m) else (("active", None), m)
  end.

(** The codecs of the machine: the window of one unit, and the markers of two runs. *)
Definition demo_encode (st : rerunState) : result string :=
  match rs_AutoRestarts st !! demo_unit with
  | Some w => Ok (Itoa (aw_Count w) +:+ " " +:+ Itoa (aw_WindowStart w) +:+ " " +:+ Itoa (aw_LastActed w))
  | None => Ok (Join (fst <$> map_to_list (rs_Reruns st)) " ")
  end.
Definition demo_decode (data : string) : result rerunState :=
  match Fields data with
  | [c; b; l] => match ParseInt c, ParseInt b, ParseInt l with
                 | Some c, Some b, Some l => Ok (mkRerunState ∅ {[demo_unit := mkWindow c b l]} ∅)
                 | _, _, _ => Err missing
                 end
  | keys => Ok (mkRerunState (list_to_map ((fun k => (k, mkRerunMarker "" 1 "" 1)) <$> keys)) ∅ ∅)
  end.
Definition demo_hook (line : string) : option hookLogRecord :=
  match Fields line with
  | [t; root] => match ParseInt t with
                 | Some t => Some (mkHookRecord t "error" root [("work_root", "permission denied")])
                 | None => None
                 end
  | _ => None
  end.

Definition demo_services : list Status :=
  [mkStatus demo_unit "acme/app" "" "civm-app" "loaded" "active" "running" "" "/srv/r"].

(** A sentinel of the first minute is in the log of the hooks. *)
Definition wedged : machine :=
  mkMachine {[wo_HooksLogPath demo_opts := Itoa Minute +:+ " /srv/r/_work"]} true (2 * Minute) [] [] 0.

Definition sentinel_tick : prog wdE WatchdogReport :=
  link (with_default_restart demo_opts)
    (detectBrokenRunner (H:=SortSlice_insertion) (H0:=MapRange_to_list) demo_decode demo_encode demo_hook
       demo_opts demo_services blank_report).

(** ** Three executions *)

(** A wedged runner is given up while another unit works.  The restart for its
    sentinel is fenced by a look at all the processes of the host, so that the job of
    another unit turns it into a thaw; but the sentinel was recorded as acted on before,
    and when the host is idle a minute later nothing is tried any more, although the
    sentinel is still in the log and the unit was never stopped. *)
Theorem wedged_runner_is_given_up :
  let w1 := snd (interp machine_step sentinel_tick wedged) in
  let '(r2, w2) := interp machine_step sentinel_tick (at_time false (3 * Minute) w1) in
  mc_commands w2 = [["systemctl"; "freeze"; demo_unit]; ["systemctl"; "thaw"; demo_unit]] /\
  wr_Events r2 = [] /\
  fst (interp machine_step (parseBrokenSentinels demo_hook demo_opts (3 * Minute)) w2) = {["/srv/r/_work" := Minute]}.
Proof. vm_compute. split_and!; reflexivity. Qed.

(** On a host without other jobs the same tick restarts the unit. *)
Example wedged_runner_is_restarted :
  mc_commands (snd (interp machine_step sentinel_tick (at_time false (2 * Minute) wedged))) =
  [["systemctl"; "freeze"; demo_unit]; ["systemctl"; "stop"; demo_unit];
   ["systemctl"; "kill"; "--kill-who=all"; "--signal=SIGKILL"; demo_unit]; ["systemctl"; "restart"; demo_unit]].
Proof. vm_compute. reflexivity. Qed.

Definition rerun_tick : prog wdE (err_ret * WatchdogReport) :=
  rerunWatchdogNetworkFailures demo_decode demo_encode demo_opts ["acme/app"] {["acme/app"]} blank_report.

Definition flaky (failing : Z) : machine := mkMachine ∅ false (2 * Minute) [] [] failing.

(** The markers of a tick are lost when one of its reruns fails.  The first run is
    rerun and the second fails: the function returns before it writes the marker file, and
    the next tick reruns the first run again.  Without the failure each run is rerun once. *)
Theorem rerun_markers_are_lost :
  mc_reruns (snd (interp machine_step (rerun_tick ;; rerun_tick) (flaky 2))) = [1; 2; 1; 2] /\
  mc_reruns (snd (interp machine_step (rerun_tick ;; rerun_tick) (flaky 0))) = [1; 2].
Proof. split; vm_compute; reflexivity. Qed.

(** The runner of an organization without a dash makes the runner of its repository a
    collision; with a dash in the login the same pair is not one. *)
Definition org_pair (login : string) : list Status :=
  parseSystemctlList ("actions.runner." +:+ login +:+ ".civm-org.service loaded active running x" +:+ String "010"
    ("actions.runner." +:+ login +:+ "-app.civm-app.service loaded active running x")).

Lemma dashed_org_hides_the_collision :
  length (DetectCollisions (H:=SortSlice_insertion) (org_pair "acme")) = 1%nat /\
  DetectCollisions (H:=SortSlice_insertion) (org_pair "my-org") = [].
Proof. split; vm_compute; reflexivity. Qed.

(** ** Witnesses *)

(** An active organization runner, and a decoder that finds it busy on GitHub. *)
Definition demo_org : list Status :=
  [mkStatus demo_unit "" "acme" "civm-org" "loaded" "active" "running" "" "/srv/r"].
Definition demo_runners (data : string) : result (list WatchdogGitHubRunner) :=
  Ok [mkGHRunner 1 "acme" "civm-org" "online" true ["civm"]].

Definition fresh_start : wstate := mkWState false None None None 0 None None None [].


(** The conditions are met on the machine: armed in the first tick, the busy runner is
    restarted once the dwell is over, and not again in the window. *)
Definition busy_encode (st : rerunState) : result string :=
  match rs_AutoRestarts st !! org_busy_key demo_unit with
  | Some w => Ok (Itoa (aw_Count w) +:+ " " +:+ Itoa (aw_WindowStart w) +:+ " " +:+ Itoa (aw_LastActed w))
  | None => Ok ""
  end.
Definition busy_decode (data : string) : result rerunState :=
  match Fields data with
  | [c; b; l] => match ParseInt c, ParseInt b, ParseInt l with
                 | Some c, Some b, Some l => Ok (mkRerunState ∅ {[org_busy_key demo_unit := mkWindow c b l]} ∅)
                 | _, _, _ => Err missing
                 end
  | _ => Ok empty_state
  end.
Definition busy_tick (now : Z) (m : machine) : machine :=
  snd (interp machine_step
    (recoverWatchdogOrgBusyWithoutWorker busy_decode busy_encode demo_runners demo_opts demo_org blank_report)
    (at_time false now m)).

Example busy_runner_is_restarted_once :
  let m := foldl (fun m now => busy_tick (now * Minute) m) (flaky 0) [1; 3] in
  mc_commands m = [] /\ mc_commands (busy_tick (7 * Minute) m) = [["restart"; demo_unit]] /\
  mc_commands (busy_tick (20 * Minute) (busy_tick (7 * Minute) m)) = [["restart"; demo_unit]].
Proof. vm_compute. split_and!; reflexivity. Qed.
