(* ===== verification/Cachetrim.v ===== *)
(** * internal/cachetrim: size budgets of build caches

    The single source of the cache policy: [Caps] divides the budget of a family among
    its directories, [TrimByAge] brings one directory under its budget, oldest units
    first.  The file system is behind the injected functions; a walk is the sequence of
    its callbacks. *)

From S2P Require Import Prelude GoStrings Prog Civm.

Local Open Scope string_scope.
Local Open Scope list_scope.
Local Open Scope Z_scope.

Record Cap := mkCap {
  cp_Path : string;
  cp_MaxBytes : Z;
  cp_MinProtect : Z;
  cp_PackageDepth : Z;
  cp_WipeWhole : bool;
}.

(** One call of the [fs.WalkDirFunc]: the path, the error of the walk, whether the entry
    is a directory, and what [d.Info()] answers: size and modification time. *)
Record visit := mkVisit {
  vs_path : string;
  vs_err : err_ret;
  vs_IsDir : bool;
  vs_Info : result (Z * Z);
}.

Inductive trimE : Type -> Type :=
  | GlobFn (pattern : string) : trimE (list string)
  | StatFn (path : string) : trimE (result bool)   (* is it a directory? *)
  | WalkDirFn (root : string) : trimE (list visit * err_ret)
  | RemoveAllFn (path : string) : trimE err_ret
  | TimeNow : trimE Z
  | Getenv (name : string) : trimE string.

(** ** Budgets *)

Fixpoint existing_dirs (seen : gset string) (paths : list string) : prog trimE (list string) :=
  match paths with
  | [] => mret []
  | p :: paths =>
      let clean := Clean p in
      if bool_decide (clean ∈ seen) then existing_dirs seen paths
      else fi ← call (StatFn clean);
           match fi with
           | Ok true => out ← existing_dirs ({[clean]} ∪ seen) paths; mret (clean :: out)
           | _ => existing_dirs seen paths
           end
  end.

Definition existingDirs (paths : list string) : prog trimE (list string) := existing_dirs ∅ paths.

Definition giB : Z := 2 ^ 30.
Definition protect : Z := DefaultCacheTrimMinProtectHours * Hour.

(** [strings.ContainsAny(sub, "*?[")]. *)
Definition is_pattern (sub : string) : bool :=
  contains_char "*" sub || contains_char "?" sub || contains_char "[" sub.

Fixpoint extra_dirs (home : string) (subs : list string) : prog trimE (list string) :=
  match subs with
  | [] => mret []
  | sub :: subs =>
      let p := PathJoin home sub in
      here ← (if is_pattern sub then call (GlobFn p) else mret [p]);
      rest ← extra_dirs home subs;
      mret (here ++ rest)
  end.

Fixpoint family_dirs (homes : list string) (glob : string) (extraSubs : list string)
    : prog trimE (list string) :=
  match homes with
  | [] => mret []
  | home :: homes =>
      if String.eqb home "" then family_dirs homes glob extraSubs
      else here ← call (GlobFn (PathJoin home glob));
           extra ← extra_dirs home extraSubs;
           rest ← family_dirs homes glob extraSubs;
           mret (here ++ extra ++ rest)
  end.

(** The share of each of [n] directories. *)
Definition family_share (familyMaxGB : Z) (n : nat) : Z :=
  let per := Z.quot (familyMaxGB * giB) (Z.of_nat n) in
  if per <? 1 then 1 else per.

Definition family (homes : list string) (familyMaxGB pkgDepth : Z) (wipeWhole : bool) (glob : string)
    (extraSubs : list string) : prog trimE (list Cap) :=
  dirs ← family_dirs homes glob extraSubs;
  dirs ← existingDirs dirs;
  let per := family_share familyMaxGB (length dirs) in
  mret ((fun d => mkCap d per protect pkgDepth wipeWhole) <$> dirs).

Definition home_caps (home : string) : list Cap :=
  if String.eqb home "" then []
  else [mkCap (PathJoinAll [home; ".npm"; "_cacache"]) (DefaultCacheNPMMaxGB * giB) protect 0 false;
        mkCap (PathJoin home ".pnpm-store") (DefaultCachePNPMMaxGB * giB) protect 0 false].

Definition Caps (homes : list string) : prog trimE (list Cap) :=
  go ← family homes DefaultCacheGoBuildMaxGB 0 true ".cache/go-build*" [];
  yarn ← family homes DefaultCacheYarnMaxGB 2 false ".cache/yarn*" [".yarn-berry-*"; ".yarn/cache"];
  golangci ← family homes DefaultCacheGolangciLintMaxGB 0 true ".cache/golangci-lint*" [];
  playwright ← family homes DefaultCachePlaywrightMaxGB 0 true ".cache/ms-playwright" [];
  mret (go ++ yarn ++ golangci ++ playwright ++ flat_map home_caps homes).

Definition Paths (caps : list Cap) : list string := cp_Path <$> caps.

(** ** Trimming *)

Record TrimOptions := mkTrimOptions {
  to_Execute : bool;
  to_Now : Z;
  to_InFlightFloor : Z;
}.

Definition withDefaults (o : TrimOptions) : prog trimE TrimOptions :=
  if IsZero (to_Now o) then now ← call TimeNow; mret (mkTrimOptions (to_Execute o) now (to_InFlightFloor o))
  else mret o.

Record TrimResult := mkTrimResult {
  tr_Path : string;
  tr_BytesFound : Z;
  tr_BytesFreed : Z;
  tr_Executed : bool;
  tr_Err : err_ret;
  tr_SkippedInFlight : bool;
}.

Record cacheEntry := mkEntry { ce_path : string; ce_size : Z; ce_mtime : Z }.

Definition packageRoot (c : Cap) (p : string) : string :=
  if cp_PackageDepth c <=? 0 then ""
  else match Rel (cp_Path c) p with
       | None => ""
       | Some rel =>
           let parts := Split "/" rel in
           if Z.of_nat (length parts) <=? cp_PackageDepth c then ""
           else PathJoinAll (cp_Path c :: take (Z.to_nat (cp_PackageDepth c)) parts)
       end.

(** What the callback has gathered: the packages, the loose files, the total. *)
Record units := mkUnits { un_pkgs : gmap string (Z * Z); un_files : list cacheEntry; un_total : Z }.

Definition no_units : units := mkUnits ∅ [] 0.

Definition add_file (c : Cap) (p : string) (size mtime : Z) (u : units) : units :=
  let total := int64 (un_total u + size) in
  let root := packageRoot c p in
  if negb (String.eqb root "") then
    let '(s, m) := default (0, 0) (un_pkgs u !! root) in
    mkUnits (<[root := (int64 (s + size), if m <? mtime then mtime else m)]> (un_pkgs u)) (un_files u) total
  else mkUnits (un_pkgs u) (un_files u ++ [mkEntry p size mtime]) total.

(** The callback, and the walk, which ends with the first error of the callback. *)
Definition visit_unit (c : Cap) (v : visit) (u : units) : result units :=
  match vs_err v with
  | Some e => Err e
  | None =>
      if vs_IsDir v then Ok u
      else match vs_Info v with
           | Err e => if errors_Is e ErrNotExist then Ok u else Err e
           | Ok (size, mtime) => Ok (add_file c (vs_path v) size mtime u)
           end
  end.

Fixpoint walk_units (c : Cap) (vs : list visit) (u : units) : units * err_ret :=
  match vs with
  | [] => (u, None)
  | v :: vs =>
      match visit_unit c v u with
      | Err e => (u, Some e)
      | Ok u' => walk_units c vs u'
      end
  end.

Definition pkg_entry (x : string * (Z * Z)) : cacheEntry := mkEntry (fst x) (fst (snd x)) (snd (snd x)).

Definition collectUnits `{MapRange} (c : Cap) : prog trimE (list cacheEntry * Z * err_ret) :=
  '(vs, own) ← call (WalkDirFn (cp_Path c));
  let '(u, err) := walk_units c vs no_units in
  match (match err with Some e => Some e | None => own end) with
  | Some e => mret ([], un_total u, Some e)
  | None => mret (un_files u ++ (pkg_entry <$> map_range (un_pkgs u)), un_total u, None)
  end.

Definition trim_err e r :=
  mkTrimResult (tr_Path r) (tr_BytesFound r) (tr_BytesFreed r) (tr_Executed r) (Some e) (tr_SkippedInFlight r).
Definition trim_found n r :=
  mkTrimResult (tr_Path r) n (tr_BytesFreed r) (tr_Executed r) (tr_Err r) (tr_SkippedInFlight r).
Definition trim_freed n r :=
  mkTrimResult (tr_Path r) (tr_BytesFound r) n (tr_Executed r) (tr_Err r) (tr_SkippedInFlight r).
Definition trim_skipped r :=
  mkTrimResult (tr_Path r) (tr_BytesFound r) (tr_BytesFreed r) (tr_Executed r) (tr_Err r) true.

(** Was the unit written within the in-flight floor? *)
Definition in_flight (opts : TrimOptions) (e : cacheEntry) : bool :=
  to_Now opts - to_InFlightFloor opts <? ce_mtime e.

Definition wipe (opts : TrimOptions) (c : Cap) (total : Z) (r : TrimResult) : prog trimE TrimResult :=
  if to_Execute opts then
    err ← call (RemoveAllFn (cp_Path c));
    match err with
    | Some e => if errors_Is e ErrNotExist then mret (trim_freed total r) else mret (trim_err e r)
    | None => mret (trim_freed total r)
    end
  else mret (trim_freed total r).

(** The short circuits; [inr] is the work that is left. *)
Definition trimGuards `{MapRange} (opts : TrimOptions) (c : Cap) (r : TrimResult)
    : prog trimE (TrimResult + list cacheEntry * Z * TrimResult) :=
  home ← call (Getenv "HOME");
  if String.eqb (TrimSpace (cp_Path c)) "" || String.eqb (cp_Path c) "/" || String.eqb (cp_Path c) home
  then mret (inl (trim_err (Errorf "unsafe cache path") r))
  else
    '(entries, total, walkErr) ← collectUnits c;
    match walkErr with
    | Some e => mret (inl (if errors_Is e ErrNotExist then r else trim_err e r))
    | None =>
        let r := trim_found total r in
        if total <=? cp_MaxBytes c then mret (inl r)
        else if (0 <? to_InFlightFloor opts) && existsb (in_flight opts) entries then mret (inl (trim_skipped r))
        else if cp_WipeWhole c then r ← wipe opts c total r; mret (inl r)
        else mret (inr (entries, total, r))
    end.

(** Protected from the first pass. *)
Definition protected (opts : TrimOptions) (c : Cap) (e : cacheEntry) : bool :=
  (0 <? cp_MinProtect c) && (to_Now opts - cp_MinProtect c <? ce_mtime e).

(** One pass over the units and their [removed] flags. *)
Fixpoint trimEntries (entries : list cacheEntry) (removed : list bool) (target freed : Z)
    (allowProtected : bool) (opts : TrimOptions) (c : Cap) : prog trimE (list bool * Z * err_ret) :=
  match entries, removed with
  | e :: entries, rm :: removed =>
      let continue rm freed :=
        '(removed, freed, err) ← trimEntries entries removed target freed allowProtected opts c;
        mret (rm :: removed, freed, err) in
      if target <=? freed then mret (rm :: removed, freed, None)
      else if rm then continue rm freed
      else if negb allowProtected && protected opts c e then continue rm freed
      else if to_Execute opts then
        err ← call (RemoveAllFn (ce_path e));
        match err with
        | Some x => if errors_Is x ErrNotExist then continue true freed
                    else mret (rm :: removed, freed, Some x)
        | None => continue true (int64 (freed + ce_size e))
        end
      else continue true (int64 (freed + ce_size e))
  | _, _ => mret (removed, freed, None)
  end.

Definition older_entry (a b : cacheEntry) : bool := ce_mtime a <? ce_mtime b.

Definition trim_passes `{SortSlice} (opts : TrimOptions) (c : Cap) (entries : list cacheEntry) (total : Z)
    (r : TrimResult) : prog trimE TrimResult :=
  let entries := sort_slice older_entry entries in
  let target := int64 (total - cp_MaxBytes c) in
  let removed := (fun _ => false) <$> entries in
  '(removed, freed, err) ← trimEntries entries removed target 0 false opts c;
  match err with
  | Some e => mret (trim_freed freed (trim_err e r))
  | None =>
      if freed <? target then
        '(_, freed, err) ← trimEntries entries removed target freed true opts c;
        mret (trim_freed freed (match err with Some e => trim_err e r | None => r end))
      else mret (trim_freed freed r)
  end.

Definition TrimByAge `{SortSlice} `{MapRange} (opts : TrimOptions) (c : Cap) : prog trimE TrimResult :=
  opts ← withDefaults opts;
  let r := mkTrimResult (cp_Path c) 0 0 (to_Execute opts) None false in
  g ← trimGuards opts c r;
  match g with
  | inl r => mret r
  | inr (entries, total, r) => trim_passes opts c entries total r
  end.
