(* ===== verification/CachetrimSafety.v ===== *)
(** * The cache budgets are enforced

    What a trim may remove, in which order, and what is left of the cache; the units
    account for every byte of the walk; the shares of a family stay within its budget. *)

From S2P Require Import Prelude GoStrings Prog Civm Cachetrim.

Local Open Scope string_scope.
Local Open Scope list_scope.
Local Open Scope Z_scope.

(** ** Bytes *)

Definition bytes (l : list cacheEntry) : Z := foldr (fun e n => ce_size e + n) 0 l.

#[global] Arguments bytes : simpl never.

Lemma bytes_nil : bytes [] = 0.
Proof. done. Qed.
Lemma bytes_cons e l : bytes (e :: l) = ce_size e + bytes l.
Proof. done. Qed.

Lemma bytes_app l k : bytes (l ++ k) = bytes l + bytes k.
Proof. induction l as [|e l IH]; cbn; rewrite ?bytes_nil, ?bytes_cons; [done|]. rewrite IH. lia. Qed.

#[global] Instance bytes_Perm : Proper ((≡ₚ) ==> (=)) bytes.
Proof. induction 1; rewrite ?bytes_cons; lia. Qed.

Definition sized (l : list cacheEntry) : Prop := Forall (fun e => 0 <= ce_size e) l.

Lemma bytes_nonneg l : sized l -> 0 <= bytes l.
Proof. induction 1; rewrite ?bytes_nil, ?bytes_cons; lia. Qed.

(** ** The units of a walk *)

Definition visit_size (v : visit) : Z :=
  match vs_err v, vs_IsDir v, vs_Info v with None, false, Ok (size, _) => size | _, _, _ => 0 end.

Fixpoint walk_bytes (vs : list visit) : Z :=
  match vs with [] => 0 | v :: vs => visit_size v + walk_bytes vs end.

Lemma walk_bytes_nonneg vs : Forall (fun v => 0 <= visit_size v) vs -> 0 <= walk_bytes vs.
Proof. induction 1; cbn; lia. Qed.

(** File sizes are not negative and add up within an int64. *)
Definition sane_walk (vs : list visit) : Prop :=
  Forall (fun v => 0 <= visit_size v) vs /\ walk_bytes vs <= max_int64.

Definition unit_entries (u : units) : list cacheEntry :=
  un_files u ++ (pkg_entry <$> map_to_list (un_pkgs u)).

Lemma pkg_bytes_insert m k v :
  bytes (pkg_entry <$> map_to_list (<[k := v]> m)) = fst v + bytes (pkg_entry <$> map_to_list (delete k m)).
Proof.
  rewrite <- insert_delete_eq. rewrite map_to_list_insert by apply lookup_delete_eq. by destruct v.
Qed.

Lemma pkg_bytes_lookup m k :
  bytes (pkg_entry <$> map_to_list m) =
    fst (default (0, 0) (m !! k)) + bytes (pkg_entry <$> map_to_list (delete k m)).
Proof.
  destruct (m !! k) as [v|] eqn:E; cbn.
  - by rewrite <- (insert_id m k v E) at 1; rewrite pkg_bytes_insert.
  - by rewrite delete_id.
Qed.

Lemma sized_pkgs m : sized (pkg_entry <$> map_to_list m) <-> map_Forall (fun _ v => 0 <= fst v) m.
Proof.
  unfold sized. rewrite Forall_fmap, map_Forall_to_list. apply Forall_iff. by intros [k [s t]].
Qed.

(** The units account for every byte. *)
Definition units_ok (u : units) : Prop := sized (unit_entries u) /\ un_total u = bytes (unit_entries u).

Lemma units_ok_add c p size mtime u :
  units_ok u -> 0 <= size -> un_total u + size <= max_int64 ->
  units_ok (add_file c p size mtime u) /\ un_total (add_file c p size mtime u) = un_total u + size.
Proof.
  unfold units_ok, unit_entries, add_file, sized. intros [Hs Ht] Hsize Hmax. cbv zeta.
  apply Forall_app in Hs as [Hf Hp]. pose proof Hp as Hp'. apply sized_pkgs in Hp'.
  pose proof (bytes_nonneg _ Hf) as Hf0. rewrite bytes_app in Ht.
  pose proof (pkg_bytes_lookup (un_pkgs u) (packageRoot c p)) as Hroot.
  assert (sized (pkg_entry <$> map_to_list (delete (packageRoot c p) (un_pkgs u)))) as Hd.
  { apply sized_pkgs. by apply map_Forall_delete. }
  pose proof (bytes_nonneg _ Hd) as Hd0.
  assert (0 <= fst (default (0, 0) (un_pkgs u !! packageRoot c p))) as Hs0.
  { destruct (un_pkgs u !! packageRoot c p) as [v|] eqn:E; cbn; [|done]. by eapply Hp'. }
  assert (int64 (un_total u + size) = un_total u + size) as Et.
  { apply int64_id. pose proof (bytes_nonneg _ Hp). unfold min_int64. lia. }
  destruct (String.eqb (packageRoot c p) "") eqn:E; cbn [negb].
  - cbn. rewrite Et. split; [|done]. rewrite !bytes_app, bytes_cons, bytes_nil. cbn. split; [|lia].
    repeat apply Forall_app_2; [done| |done]. by constructor.
  - destruct (default (0, 0) (un_pkgs u !! packageRoot c p)) as [s m] eqn:Ed. cbn in *. rewrite Et.
    assert (int64 (s + size) = s + size) as Es by (apply int64_id; unfold min_int64; lia).
    split; [|done]. split; [|rewrite bytes_app, pkg_bytes_insert; cbn; lia].
    apply Forall_app_2; [done|]. apply sized_pkgs. apply map_Forall_insert_2; [cbn; lia|done].
Qed.

Lemma walk_units_ok c vs u u' :
  walk_units c vs u = (u', None) -> units_ok u -> Forall (fun v => 0 <= visit_size v) vs ->
  un_total u + walk_bytes vs <= max_int64 -> units_ok u' /\ un_total u' = un_total u + walk_bytes vs.
Proof.
  revert u. induction vs as [|v vs IH]; intros u Hw Hu Hs Hmax; cbn in *.
  { injection Hw as <-. split; [done|lia]. }
  apply Forall_cons in Hs as [Hv Hs].
  pose proof (walk_bytes_nonneg _ Hs).
  unfold visit_unit, visit_size in *. destruct (vs_err v); [done|].
  destruct (vs_IsDir v); [apply IH; auto; lia|]. destruct (vs_Info v) as [[size mtime]|e].
  - destruct (units_ok_add c (vs_path v) size mtime u Hu Hv ltac:(lia)) as [Hok Ht].
    destruct (IH _ Hw Hok Hs ltac:(lia)). split; [done|]. lia.
  - destruct (errors_Is e _); [|done]. apply IH; auto; lia.
Qed.

Lemma units_ok_none : units_ok no_units.
Proof. unfold units_ok, unit_entries. cbn. rewrite map_to_list_empty. split; [constructor|done]. Qed.

Lemma walk_units_sane c vs u :
  walk_units c vs no_units = (u, None) -> sane_walk vs ->
  units_ok u /\ un_total u = walk_bytes vs /\ 0 <= un_total u <= max_int64.
Proof.
  intros Hw [Hs Hmax]. destruct (walk_units_ok c vs no_units u Hw) as [Hok Ht]; [apply units_ok_none|done|cbn; lia|].
  cbn in Ht. pose proof (walk_bytes_nonneg _ Hs). split_and!; [done|lia..].
Qed.

(** ** What a trim has observed *)

Record tstate := mkTState {
  ts_now : Z;                                (* the time it has read *)
  ts_walk : option (list visit * err_ret);   (* the answer of the walk *)
  ts_tried : list (string * err_ret);        (* the removals, with their outcome *)
}.

(** The bytes freed by the removals of the first units of [l] that succeeded. *)
Fixpoint freed_by (l : list cacheEntry) (tried : list (string * err_ret)) : Z :=
  match l, tried with
  | e :: l, (_, err) :: tried => (match err with None => ce_size e | Some _ => 0 end) + freed_by l tried
  | _, _ => 0
  end.

Lemma freed_by_bounds l tried : sized l -> 0 <= freed_by l tried <= bytes (take (length tried) l).
Proof.
  intros Hs. revert tried. induction Hs as [|e l He Hs IH]; intros [|[p err] tried]; cbn; rewrite ?bytes_nil; try lia.
  rewrite bytes_cons. specialize (IH tried). destruct err; lia.
Qed.

Lemma freed_by_snoc l e k tried p err :
  length tried = length l ->
  freed_by (l ++ e :: k) (tried ++ [(p, err)]) =
    freed_by (l ++ e :: k) tried + (match err with None => ce_size e | Some _ => 0 end).
Proof.
  revert tried. induction l as [|x l IH]; intros [|[q b] tried] Hl; cbn in *; try done.
  - destruct (k : list cacheEntry); destruct err; cbn; lia.
  - rewrite IH by lia. lia.
Qed.

Section trim.
Context `{SortSlice} `{MapRange} (opts0 : TrimOptions) (c : Cap).

(** The options after [withDefaults]. *)
Definition effective (s : tstate) : TrimOptions :=
  if IsZero (to_Now opts0) then mkTrimOptions (to_Execute opts0) (ts_now s) (to_InFlightFloor opts0) else opts0.

(** The units of a walk that did not fail. *)
Definition walked (s : tstate) : option units :=
  match ts_walk s with
  | Some (vs, None) => match walk_units c vs no_units with (u, None) => Some u | _ => None end
  | _ => None
  end.

(** The unprotected units first, each part in its order. *)
Definition schedule (opts : TrimOptions) (es : list cacheEntry) : list cacheEntry :=
  List.filter (fun e => negb (protected opts c e)) es ++ List.filter (protected opts c) es.

(** The units, oldest first. *)
Definition by_age (u : units) (es : list cacheEntry) : Prop :=
  es ≡ₚ unit_entries u /\ StronglySorted (fun a b => ce_mtime a <= ce_mtime b) es.

(** Over its budget, and nothing in it is in flight. *)
Definition over_budget (s : tstate) (u : units) : Prop :=
  walked s = Some u /\ cp_MaxBytes c < un_total u /\
  (0 < to_InFlightFloor opts0 -> Forall (fun e => in_flight (effective s) e = false) (unit_entries u)).

(** The next unit of the schedule, while the removals have not freed enough; a cache with
    cross references only as a whole. *)
Definition may_remove (p : string) (s : tstate) : Prop :=
  to_Execute opts0 = true /\ exists u, over_budget s u /\
  if cp_WipeWhole c then p = cp_Path c /\ ts_tried s = []
  else exists es, by_age u es /\
         (ts_tried s).*1 ++ [p] `prefix_of` ce_path <$> schedule (effective s) es /\
         freed_by (schedule (effective s) es) (ts_tried s) < un_total u - cp_MaxBytes c.

Definition trim_spec : spec trimE tstate := {|
  allowed B e s :=
    match e with
    | RemoveAllFn p => may_remove p s
    | WalkDirFn root => root = cp_Path c
    | _ => True
    end;
  answers B e s :=
    match e in trimE B return B -> tstate -> Prop with
    | WalkDirFn _ => fun b s' => sane_walk (fst b) /\ s' = mkTState (ts_now s) (Some b) (ts_tried s)
    | RemoveAllFn p => fun b s' => s' = mkTState (ts_now s) (ts_walk s) (ts_tried s ++ [(p, b)])
    | TimeNow => fun b s' => s' = mkTState b (ts_walk s) (ts_tried s)
    | _ => fun _ s' => s' = s
    end;
|}.

(** What a finished trim says and leaves. *)
Definition trimmed (r : TrimResult) (s : tstate) : Prop :=
  tr_Path r = cp_Path c /\ tr_Executed r = to_Execute opts0 /\
  (to_Execute opts0 = false -> ts_tried s = []) /\
  (tr_SkippedInFlight r = true -> ts_tried s = [] /\ tr_BytesFreed r = 0) /\
  (forall u, walked s = Some u -> tr_Err r = None -> to_Execute opts0 = true -> tr_SkippedInFlight r = false ->
     un_total u <= cp_MaxBytes c \/
     if cp_WipeWhole c then (exists err, ts_tried s = [(cp_Path c, err)]) /\ tr_BytesFreed r = un_total u
     else exists es, by_age u es /\
            (ts_tried s).*1 = ce_path <$> take (length (ts_tried s)) (schedule (effective s) es) /\
            tr_BytesFreed r = freed_by (schedule (effective s) es) (ts_tried s) /\
            bytes (drop (length (ts_tried s)) (schedule (effective s) es)) <= cp_MaxBytes c).

Section pass.
Context (s0 : tstate) (u : units) (es0 : list cacheEntry).
Abbreviation opts := (effective s0).
Abbreviation S0 := (schedule opts es0).
Abbreviation target := (un_total u - cp_MaxBytes c).
Context (Hexec : to_Execute opts0 = true) (Hover : over_budget s0 u) (Hage : by_age u es0)
  (Hwipe : cp_WipeWhole c = false) (Hsized : sized S0) (Hmax : bytes S0 <= max_int64).

(** The same walk, and the removals are those of the first units of the schedule. *)
Definition at_step (did : list cacheEntry) (freed : Z) (s : tstate) : Prop :=
  ts_now s = ts_now s0 /\ ts_walk s = ts_walk s0 /\
  (ts_tried s).*1 = ce_path <$> did /\ freed = freed_by S0 (ts_tried s).

(** The units that a pass still has to try. *)
Definition todo (allow : bool) (es : list cacheEntry) (rm : list bool) : list cacheEntry :=
  (List.filter (fun x : cacheEntry * bool => negb (snd x) && (allow || negb (protected opts c (fst x)))) (zip es rm)).*1.

Lemma effective_Execute s : to_Execute (effective s) = to_Execute opts0.
Proof. unfold effective. by destruct (IsZero _). Qed.

Lemma todo_cons allow e es b rm :
  todo allow (e :: es) (b :: rm) =
    (if negb b && (allow || negb (protected opts c e)) then [e] else []) ++ todo allow es rm.
Proof. unfold todo. cbn. by destruct (negb b && _). Qed.

Lemma at_step_length did freed s : at_step did freed s -> length (ts_tried s) = length did.
Proof. intros (_ & _ & Htr & _). by rewrite <- (length_fmap fst), Htr, length_fmap. Qed.

Lemma freed_le s : 0 <= freed_by S0 (ts_tried s) <= max_int64.
Proof.
  pose proof (freed_by_bounds S0 (ts_tried s) Hsized).
  pose proof (take_drop (length (ts_tried s)) S0) as E. apply (f_equal bytes) in E. rewrite bytes_app in E.
  pose proof (bytes_nonneg (drop (length (ts_tried s)) S0) ltac:(by apply Forall_drop)). lia.
Qed.

(** The removal of the next unit. *)
Lemma wpp_remove did e rest freed s Q :
  S0 = did ++ e :: rest -> at_step did freed s -> freed < target ->
  (forall x s', at_step (did ++ [e]) (int64 (freed + match x with None => ce_size e | Some _ => 0 end)) s' -> Q x s') ->
  wpp trim_spec (call (RemoveAllFn (ce_path e))) Q s.
Proof.
  intros HS Hst Hlt HQ. pose proof (at_step_length _ _ _ Hst) as Hl. destruct Hst as (Hn & Hw & Htr & Hf).
  assert (effective s = opts) as He by (unfold effective; by rewrite Hn). apply wpp_call.
  - split; [done|]. exists u. split; [unfold over_budget, walked in *; by rewrite Hw, He|].
    rewrite Hwipe. exists es0. split; [done|]. rewrite He, <- Hf. split; [|done].
    exists (ce_path <$> rest). by rewrite HS, Htr, fmap_app, fmap_cons, <- app_assoc.
  - intros x s1 ->. set (s1 := mkTState _ _ _).
    assert (freed_by S0 (ts_tried s1) = freed + match x with None => ce_size e | Some _ => 0 end) as Hsnoc.
    { unfold s1. cbn [ts_tried]. by rewrite HS, freed_by_snoc, <- HS, <- Hf. }
    apply HQ. rewrite <- Hsnoc, int64_id by (pose proof (freed_le s1); unfold min_int64; lia).
    split_and!; try done. unfold s1. cbn. by rewrite !fmap_app, Htr.
Qed.

Definition pass_done (allow : bool) (es : list cacheEntry) (rm : list bool) (did : list cacheEntry)
    (res : list bool * Z * err_ret) (s : tstate) : Prop :=
  let '(rm', freed', err) := res in
  exists n, at_step (did ++ take n (todo allow es rm)) freed' s /\
    (err = None -> target <= freed' \/
       (n = length (todo allow es rm) /\
        rm' = zip_with (fun e r => r || (allow || negb (protected opts c e))) es rm)).

(** The rest of a pass after one unit. *)
Lemma pass_done_cons allow e es b rm did res s :
  pass_done allow es rm (did ++ if negb b && (allow || negb (protected opts c e)) then [e] else []) res s ->
  let '(rm', freed', err) := res in
  pass_done allow (e :: es) (b :: rm) did ((b || (allow || negb (protected opts c e))) :: rm', freed', err) s.
Proof.
  destruct res as [[rm' freed'] err]. unfold pass_done. rewrite todo_cons. set (one := if _ : bool then _ else _).
  intros (n & Hst & Herr). exists (length one + n)%nat. rewrite <- app_assoc in Hst. split.
  - by rewrite take_app_add.
  - intros E. destruct (Herr E) as [?|[-> ->]]; [by left|right]. by rewrite length_app.
Qed.

Lemma wpp_trimEntries allow es rm freed s did rest :
  length rm = length es -> S0 = did ++ todo allow es rm ++ rest -> at_step did freed s ->
  wpp trim_spec (trimEntries es rm target freed allow opts c) (pass_done allow es rm did) s.
Proof.
  revert rm freed s did. induction es as [|e es IH]; intros [|b rm] freed s did Hlen HS Hst; try done.
  { exists 0%nat. rewrite app_nil_r. split; [done|]. by right. }
  injection Hlen as Hlen. rewrite todo_cons in HS. cbn [trimEntries].
  set (one := negb b && (allow || negb (protected opts c e))) in *.
  assert (forall b' s1 freed1,
    at_step (did ++ if one then [e] else []) freed1 s1 -> b' = b || (allow || negb (protected opts c e)) ->
    wpp trim_spec ('(removed, freed, err) ← trimEntries es rm target freed1 allow opts c;
                   mret (b' :: removed, freed, err)) (pass_done allow (e :: es) (b :: rm) did) s1) as Hcont.
  { intros b' s1 freed1 Hst1 ->. apply wpp_bind. eapply wpp_mono.
    - apply (IH rm freed1 s1 (did ++ if one then [e] else [])); [done|by rewrite HS, <- !app_assoc|done].
    - intros res s' Hd%pass_done_cons. destruct res as [[rm' freed'] err]. by apply wpp_ret. }
  destruct (target <=? freed) eqn:Ht; bsplit.
  { apply wpp_ret. exists 0%nat. rewrite app_nil_r. split; [done|]. left. lia. }
  destruct b; cbn [negb andb orb] in *; [apply Hcont; [by rewrite app_nil_r|done]|].
  destruct (negb allow && protected opts c e) eqn:Hp.
  { assert (one = false) as E by (subst one; by destruct allow, (protected opts c e)).
    rewrite E in Hcont. apply Hcont; [by rewrite app_nil_r|done]. }
  assert (one = true) as E by (subst one; by destruct allow, (protected opts c e)).
  rewrite E in *. rewrite effective_Execute, Hexec.
  apply wpp_bind. eapply wpp_remove; [by rewrite HS|done|lia|]. intros [x|] s1 Hst1; [|by apply Hcont].
  rewrite Z.add_0_r in Hst1. pose proof (freed_le s) as Hf. destruct Hst as (_ & _ & _ & Ef). rewrite <- Ef in Hf.
  rewrite int64_id in Hst1 by (unfold min_int64; lia). destruct (errors_Is x ErrNotExist); [by apply Hcont|].
  apply wpp_ret. exists 1%nat. split; [|done]. rewrite todo_cons. fold one. by rewrite E.
Qed.
(** Enough was freed, or nothing is left to try. *)
Lemma pass_finish did rest freed s :
  0 <= cp_MaxBytes c -> un_total u = bytes S0 -> S0 = did ++ rest -> at_step did freed s ->
  target <= freed \/ rest = [] ->
  (ts_tried s).*1 = ce_path <$> take (length (ts_tried s)) S0 /\
  freed = freed_by S0 (ts_tried s) /\
  bytes (drop (length (ts_tried s)) S0) <= cp_MaxBytes c.
Proof.
  intros Hcap Htot HS Hst Hend. pose proof (freed_by_bounds S0 (ts_tried s) Hsized) as Hf.
  rewrite (at_step_length _ _ _ Hst) in Hf |- *. destruct Hst as (_ & _ & Htr & Ef). rewrite <- Ef in Hf.
  assert (take (length did) S0 = did /\ drop (length did) S0 = rest) as [Et Ed].
  { rewrite HS. by rewrite take_app_length, drop_app_length. }
  rewrite Et in *. rewrite Ed. rewrite HS, bytes_app in Htot.
  split_and!; [done|done|]. destruct Hend as [?|Er]; [lia|by rewrite Er].
Qed.

Lemma todo_first es : todo false es ((fun _ => false) <$> es) = List.filter (fun e => negb (protected opts c e)) es.
Proof.
  induction es as [|e es IH]; [done|]. rewrite fmap_cons, todo_cons, IH. cbn. by destruct (protected opts c e).
Qed.

Lemma todo_second es :
  todo true es (zip_with (fun e r => r || (false || negb (protected opts c e))) es ((fun _ => false) <$> es)) =
  List.filter (protected opts c) es.
Proof.
  induction es as [|e es IH]; [done|]. rewrite fmap_cons. cbn [zip_with]. rewrite todo_cons, IH. cbn.
  by destruct (protected opts c e).
Qed.
End pass.

Lemma schedule_perm opts es : schedule opts es ≡ₚ es.
Proof.
  unfold schedule. induction es as [|e es IH]; cbn; [done|]. destruct (protected opts c e); cbn.
  - by rewrite <- Permutation_middle, IH.
  - by rewrite IH.
Qed.

(** What may be removed is a unit, or all, of a walked cache over its budget. *)
Lemma may_remove_unit p s :
  may_remove p s ->
  exists vs u, ts_walk s = Some (vs, None) /\ walk_units c vs no_units = (u, None) /\ cp_MaxBytes c < un_total u /\
    (0 < to_InFlightFloor opts0 -> Forall (fun e => in_flight (effective s) e = false) (unit_entries u)) /\
    if cp_WipeWhole c then p = cp_Path c else p ∈ ce_path <$> unit_entries u.
Proof.
  intros (_ & u & (Hwk & Hover & Hfl) & Hp). unfold walked in Hwk.
  destruct (ts_walk s) as [[vs [e|]]|] eqn:Ew; try done.
  destruct (walk_units c vs no_units) as [u' [e|]] eqn:Eu; try done. injection Hwk as ->.
  exists vs, u. split_and!; try done. destruct (cp_WipeWhole c); [by destruct Hp|].
  destruct Hp as (es & [Hperm _] & [rest Hpre] & _).
  assert (p ∈ ce_path <$> schedule (effective s) es) as Hin.
  { rewrite Hpre, elem_of_app, elem_of_app, list_elem_of_singleton. tauto. }
  by rewrite schedule_perm, Hperm in Hin.
Qed.

Lemma sorted_by_age u es : es ≡ₚ unit_entries u -> by_age u (sort_slice older_entry es).
Proof.
  intros He. split; [by rewrite sort_slice_perm|].
  eapply StronglySorted_weaken; [apply sort_slice_sorted|]; unfold older_entry.
  - intros x y Hxy. bsplit. apply Z.ltb_ge. lia.
  - intros x y z Hyx Hzy. bsplit. apply Z.ltb_ge. lia.
  - intros x y Hxy. by bsplit.
Qed.

(** A dry run calls nothing. *)
Lemma trimEntries_dry es rm target freed allow opts :
  to_Execute opts = false ->
  exists res, trimEntries es rm target freed allow opts c = mret res /\ snd res = None.
Proof.
  intros Hx. revert rm freed. induction es as [|e es IH]; intros [|b rm] freed; cbn; eauto.
  rewrite Hx. assert (forall b' f, exists res,
    ('(removed, freed, err) ← trimEntries es rm target f allow opts c; mret (b' :: removed, freed, err)) =
      (mret res : prog trimE _) /\ snd res = None) as Hc.
  { intros b' f. destruct (IH rm f) as ([[rm' f'] err] & -> & ?). cbn. by eexists. }
  destruct (_ <=? _); eauto. destruct b; eauto. destruct (_ && _); eauto.
Qed.

Definition trim_start (r : TrimResult) : Prop :=
  tr_Path r = cp_Path c /\ tr_Executed r = to_Execute opts0 /\ tr_SkippedInFlight r = false /\
  tr_BytesFreed r = 0 /\ tr_Err r = None.
Lemma trimmed_dry r s : to_Execute opts0 = false -> ts_tried s = [] ->
  tr_Path r = cp_Path c -> tr_Executed r = to_Execute opts0 -> tr_SkippedInFlight r = false -> trimmed r s.
Proof. intros Hx Ht Hp He Hs. split_and!; try done; [by rewrite Hs|]. intros; congruence. Qed.

Definition trim_named (r : TrimResult) : Prop :=
  tr_Path r = cp_Path c /\ tr_Executed r = to_Execute opts0 /\ tr_SkippedInFlight r = false.

(** The passes end with enough freed, with nothing left to try, or with an error. *)
Lemma trimmed_end s u es0 res s' did rest :
  to_Execute opts0 = true -> 0 <= cp_MaxBytes c -> cp_WipeWhole c = false -> over_budget s u -> by_age u es0 ->
  sized (schedule (effective s) es0) -> bytes (schedule (effective s) es0) = un_total u ->
  schedule (effective s) es0 = did ++ rest -> at_step s es0 did (tr_BytesFreed res) s' ->
  un_total u - cp_MaxBytes c <= tr_BytesFreed res \/ rest = [] \/ tr_Err res <> None ->
  trim_named res -> trimmed res s'.
Proof.
  intros Hx Hcap Hw Hover Hage HsS HbS HS Hst Hor (Hp & He & Hs). split_and!; try done; [congruence|by rewrite Hs|].
  intros u' Hu' Herr _ _. right. rewrite Hw. exists es0.
  assert (walked s' = walked s /\ effective s' = effective s) as [Ew Ee].
  { destruct Hst as (En & Ew & _). unfold walked, effective. by rewrite En, Ew. }
  destruct Hover as (Hwk & _). rewrite Ew, Hwk in Hu'. injection Hu' as <-. rewrite Ee. split; [done|].
  eapply pass_finish; try done. naive_solver.
Qed.

(** Both passes of an executing trim. *)
Lemma wpp_passes s u es r :
  to_Execute opts0 = true -> 0 <= cp_MaxBytes c -> cp_WipeWhole c = false ->
  over_budget s u -> units_ok u -> un_total u <= max_int64 -> es ≡ₚ unit_entries u -> ts_tried s = [] ->
  trim_start r ->
  wpp trim_spec (trim_passes (effective s) c es (un_total u) r) trimmed s.
Proof.
  intros Hx Hcap Hw Hover [Hsized Htot] Hmax Hes Htr (Hp & He & Hs & _ & _).
  pose proof (sorted_by_age u es Hes) as Hage. unfold trim_passes. cbv zeta.
  set (es0 := sort_slice older_entry es) in *.
  assert (schedule (effective s) es0 ≡ₚ unit_entries u) as Hperm by (rewrite schedule_perm; apply Hage).
  assert (sized (schedule (effective s) es0)) as HsS by (unfold sized; by rewrite Hperm).
  assert (bytes (schedule (effective s) es0) = un_total u) as HbS by (rewrite Hperm; lia).
  rewrite int64_id by (pose proof (bytes_nonneg _ Hsized); destruct Hover as (_ & ? & _); unfold min_int64; lia).
  assert (forall res s' did rest, schedule (effective s) es0 = did ++ rest ->
    at_step s es0 did (tr_BytesFreed res) s' ->
    un_total u - cp_MaxBytes c <= tr_BytesFreed res \/ rest = [] \/ tr_Err res <> None ->
    trim_named res -> trimmed res s') as Hend by (intros; by eapply trimmed_end).
  apply wpp_bind. eapply wpp_mono.
  { apply (wpp_trimEntries s u es0 Hx Hover Hage Hw HsS ltac:(lia) false es0 _ 0 s [] (List.filter (protected (effective s) c) es0));
      [by rewrite length_fmap|by rewrite todo_first|]. split_and!; [done|done|by rewrite Htr|by rewrite Htr; destruct (schedule _ _)]. }
  intros [[rm freed] err] s1 (n & Hst & Herr). rewrite todo_first in *. cbn [app] in Hst.
  assert (schedule (effective s) es0 = take n (List.filter (fun e => negb (protected (effective s) c e)) es0) ++
    drop n (List.filter (fun e => negb (protected (effective s) c e)) es0) ++ List.filter (protected (effective s) c) es0) as Hsplit.
  { by rewrite app_assoc, take_drop. }
  destruct err as [e|]; [apply wpp_ret; eapply Hend; [exact Hsplit|exact Hst|by right; right|by split_and!]|].
  destruct (freed <? _) eqn:Hlt; bsplit; [|apply wpp_ret; eapply Hend; [exact Hsplit|exact Hst|by left|by split_and!]].
  destruct (Herr eq_refl) as [?|[-> ->]]; [lia|]. rewrite take_ge in Hst by done.
  apply wpp_bind. eapply wpp_mono.
  { apply (wpp_trimEntries s u es0 Hx Hover Hage Hw HsS ltac:(lia) true es0 _ freed s1
      (List.filter (fun e => negb (protected (effective s) c e)) es0) []);
      [by rewrite length_zip_with, length_fmap, Nat.min_id|by rewrite todo_second, app_nil_r|done]. }
  intros [[rm' freed'] err] s2 (n & Hst' & Herr'). rewrite todo_second in *. apply wpp_ret.
  eapply (Hend _ s2 _ (drop n (List.filter (protected (effective s) c) es0))); [|by destruct err; exact Hst'| |by destruct err; split_and!].
  - by rewrite <- app_assoc, take_drop.
  - destruct err; [by right; right|]. destruct (Herr' eq_refl) as [?|[-> _]]; [by left|]. right; left. by apply drop_ge.
Qed.
Lemma passes_dry opts es total r :
  to_Execute opts = false ->
  exists r', trim_passes opts c es total r = mret r' /\ tr_Path r' = tr_Path r /\
    tr_Executed r' = tr_Executed r /\ tr_SkippedInFlight r' = tr_SkippedInFlight r.
Proof.
  intros Hx. unfold trim_passes. cbv zeta.
  destruct (trimEntries_dry (sort_slice older_entry es) ((fun _ => false) <$> sort_slice older_entry es)
    (int64 (total - cp_MaxBytes c)) 0 false opts Hx) as ([[rm freed] err] & -> & Herr). cbn in Herr |- *. subst err.
  destruct (freed <? _); [|by eexists].
  destruct (trimEntries_dry (sort_slice older_entry es) rm (int64 (total - cp_MaxBytes c)) freed true opts Hx)
    as ([[rm' freed'] err] & -> & Herr). cbn in Herr |- *. subst err. by eexists.
Qed.

Lemma wpp_wipe s u r :
  cp_WipeWhole c = true -> over_budget s u -> ts_tried s = [] -> trim_start r ->
  wpp trim_spec (wipe (effective s) c (un_total u) r) trimmed s.
Proof.
  intros Hw Hover Htr (Hp & He & Hs & Hf & Hr). unfold wipe. rewrite effective_Execute.
  destruct (to_Execute opts0) eqn:Hx; [|apply wpp_ret, trimmed_dry; cbn; congruence].
  assert (forall res x, tr_Path res = cp_Path c -> tr_Executed res = to_Execute opts0 -> tr_SkippedInFlight res = false ->
    (tr_Err res = None -> tr_BytesFreed res = un_total u) -> trimmed res (mkTState (ts_now s) (ts_walk s) [(cp_Path c, x)])) as Hend.
  { intros res x Hp' He' Hs' Hf'. split_and!; try done; [congruence|by rewrite Hs'|]. intros u' Hu' Herr _ _. right. rewrite Hw.
    split; [by eexists|]. destruct Hover as (Hwk & _). change (walked s = Some u') in Hu'. rewrite Hwk in Hu'. injection Hu' as <-. auto. }
  apply wpp_bind, wpp_call; [split; [done|]; exists u; by rewrite Hw|]. intros x s1 ->. rewrite Htr. cbn [app].
  destruct x as [x|]; [destruct (errors_Is x _)|]; apply wpp_ret, Hend; cbn; congruence.
Qed.

Lemma trimmed_early r s :
  trim_start r \/ (trim_named r /\ tr_Err r <> None) -> ts_tried s = [] ->
  (forall u, walked s = Some u -> tr_Err r = None -> un_total u <= cp_MaxBytes c) -> trimmed r s.
Proof.
  intros Hr Htr Hu.
  assert (trim_named r) as (Hp & He & Hs).
  { destruct Hr as [(? & ? & ? & _)|[? _]]; [by split_and!|done]. }
  split_and!; try done; [by rewrite Hs|]. intros u' Hu' Herr _ _. left. by apply Hu.
Qed.

Lemma wpp_guarded s :
  0 <= cp_MaxBytes c -> ts_tried s = [] ->
  wpp trim_spec
    (g ← trimGuards (effective s) c (mkTrimResult (cp_Path c) 0 0 (to_Execute (effective s)) None false);
     match g with
     | inl r => mret r
     | inr (entries, total, r) => trim_passes (effective s) c entries total r
     end) trimmed s.
Proof.
  intros Hcap Htr. rewrite effective_Execute. unfold trimGuards. set (r := mkTrimResult _ _ _ _ _ _).
  assert (trim_start r) as Hr by done.
  apply wpp_bind, wpp_bind, wpp_call; [done|]. intros home s1 ->.
  destruct (_ || _); [apply wpp_ret, wpp_ret, trimmed_early; [right; done|done|done]|].
  apply wpp_bind. unfold collectUnits. apply wpp_bind, wpp_call; [done|]. intros [vs own] s1 [Hsane ->]. cbn [fst] in Hsane.
  set (s1 := mkTState _ _ _). assert (effective s = effective s1) as Eeff by done. rewrite Eeff in *. clear Eeff.
  assert (ts_tried s1 = []) as Htr1 by done.
  destruct (walk_units c vs no_units) as [u err] eqn:Hwalk.
  destruct (match err with Some e => Some e | None => own end) as [e|] eqn:Herr.
  { apply wpp_ret, wpp_ret, wpp_ret. apply trimmed_early; [destruct (errors_Is e _); [by left|right; done]|done|].
    intros u' Hu'. unfold walked in Hu'. cbn in Hu'. rewrite Hwalk in Hu'. by destruct err, own. }
  destruct err; [done|]. subst own. destruct (walk_units_sane c vs u Hwalk Hsane) as (Hok & _ & Hmax).
  assert (walked s1 = Some u) as Hwk by (unfold walked; cbn; by rewrite Hwalk).
  set (entries := un_files u ++ _). assert (entries ≡ₚ unit_entries u) as Hent.
  { unfold entries, unit_entries. by rewrite map_range_perm. }
  apply wpp_ret. destruct (un_total u <=? cp_MaxBytes c) eqn:Hle; bsplit.
  { apply wpp_ret, wpp_ret. apply trimmed_early; [by left|done|]. intros u' Hu' _. rewrite Hwk in Hu'. by injection Hu' as <-. }
  destruct ((0 <? to_InFlightFloor (effective s1)) && existsb (in_flight (effective s1)) entries) eqn:Hfl.
  { apply wpp_ret, wpp_ret. by split_and!. }
  assert (over_budget s1 u) as Hover.
  { split_and!; [done|lia|]. intros Hpos.
    assert (to_InFlightFloor (effective s1) = to_InFlightFloor opts0) as E by (unfold effective; by destruct (IsZero _)).
    rewrite E in Hfl. assert ((0 <? to_InFlightFloor opts0) = true) as E' by (by apply Z.ltb_lt). rewrite E' in Hfl. cbn in Hfl.
    rewrite <- Hent. apply Forall_forall. intros e He. destruct (in_flight (effective s1) e) eqn:Ei; [|done].
    rewrite <- Hfl. symmetry. apply existsb_exists. exists e. split; [by apply list_elem_of_In|done]. }
  destruct (cp_WipeWhole c) eqn:Hw.
  { apply wpp_bind. eapply wpp_mono; [by apply wpp_wipe|]. intros r' s2 Hr'. by apply wpp_ret, wpp_ret. }
  apply wpp_ret. destruct (to_Execute opts0) eqn:Hx; [apply wpp_passes; auto; lia|].
  destruct (passes_dry (effective s1) entries (un_total u) (trim_found (un_total u) r)) as (r' & -> & Hp & He & Hs);
    [by rewrite effective_Execute|]. apply wpp_ret, trimmed_dry; cbn in *; congruence.
Qed.
End trim.

(** ** Units are whole *)

Definition file_visit (v : visit) : bool :=
  match vs_err v, vs_IsDir v, vs_Info v with None, false, Ok _ => true | _, _, _ => false end.

(** What is removed with a file: the file, or all of its package. *)
Definition unit_path (c : Cap) (p : string) : string :=
  if String.eqb (packageRoot c p) "" then p else packageRoot c p.

Lemma add_file_paths c p size mtime u x :
  x ∈ ce_path <$> unit_entries (add_file c p size mtime u) <->
  x = unit_path c p \/ x ∈ ce_path <$> unit_entries u.
Proof.
  assert (forall m, ce_path <$> (pkg_entry <$> map_to_list m) = (map_to_list m).*1) as Hp.
  { intros m. rewrite <- list_fmap_compose. by apply list_fmap_ext. }
  unfold unit_entries, add_file, unit_path. cbv zeta. destruct (String.eqb (packageRoot c p) "") eqn:E; cbn [negb].
  - cbn. rewrite !fmap_app, Hp, !elem_of_app. cbn. rewrite list_elem_of_singleton. tauto.
  - destruct (default _ _) as [s m]. cbn. rewrite !fmap_app, !Hp, !elem_of_app.
    assert (forall (M : gmap string (Z * Z)) y, y ∈ (map_to_list M).*1 <-> y ∈ dom M) as Hd.
    { intros M y. rewrite list_elem_of_fmap, elem_of_dom. split.
      - intros ([k v] & -> & Hk%elem_of_map_to_list). by exists v.
      - intros [v Hv]. exists (y, v). by rewrite elem_of_map_to_list. }
    rewrite !Hd, dom_insert, elem_of_union, elem_of_singleton. tauto.
Qed.

Lemma walk_units_paths c vs u u' x :
  walk_units c vs u = (u', None) ->
  x ∈ ce_path <$> unit_entries u' <->
  x ∈ ce_path <$> unit_entries u \/ exists v, v ∈ vs /\ file_visit v = true /\ x = unit_path c (vs_path v).
Proof.
  revert u. induction vs as [|v vs IH]; intros u Hw; cbn in Hw.
  { injection Hw as <-. split; [by left|]. intros [?|(v & ?%not_elem_of_nil & _)]; done. }
  assert (forall u1, walk_units c vs u1 = (u', None) ->
    (x ∈ ce_path <$> unit_entries u1 <->
       x ∈ ce_path <$> unit_entries u \/ (file_visit v = true /\ x = unit_path c (vs_path v))) ->
    x ∈ ce_path <$> unit_entries u' <->
    x ∈ ce_path <$> unit_entries u \/ exists w, w ∈ v :: vs /\ file_visit w = true /\ x = unit_path c (vs_path w)) as Hstep.
  { intros u1 Hw1 Hu1. rewrite (IH u1 Hw1), Hu1. setoid_rewrite elem_of_cons. naive_solver. }
  unfold visit_unit in Hw. unfold file_visit in Hstep. destruct (vs_err v); [done|].
  destruct (vs_IsDir v); [apply (Hstep u Hw); naive_solver|]. destruct (vs_Info v) as [[size mtime]|e].
  - apply (Hstep _ Hw). rewrite add_file_paths. naive_solver.
  - destruct (errors_Is e _); [|done]. apply (Hstep u Hw). naive_solver.
Qed.

(** ** The theorems *)

Lemma wpp_TrimByAge `{SortSlice} `{MapRange} opts c now :
  0 <= cp_MaxBytes c ->
  wpp (trim_spec opts c) (TrimByAge opts c) (trimmed opts c) (mkTState now None []).
Proof.
  intros Hcap. unfold TrimByAge, withDefaults. destruct (IsZero (to_Now opts)) eqn:Hz.
  - apply wpp_bind, wpp_bind, wpp_call; [done|]. intros t s1 ->. apply wpp_ret.
    set (s1 := mkTState _ _ _).
    assert (mkTrimOptions (to_Execute opts) t (to_InFlightFloor opts) = effective opts s1) as ->
      by (unfold effective; by rewrite Hz).
    by apply wpp_guarded.
  - apply wpp_bind, wpp_ret. set (s1 := mkTState now None []).
    assert (effective opts s1 = opts) as E by (unfold effective; by rewrite Hz).
    pose proof (wpp_guarded opts c s1 Hcap eq_refl) as Hw. by rewrite E in Hw.
Qed.


(** C19. A trim brings a cache under its budget, whatever the file system answers.  It
    removes only in an executing run, only when the walk found more than [MaxBytes] and,
    under an in-flight floor, nothing fresher than it; it removes unit by unit, the
    unprotected ones before the protected ones and each oldest first, and only while the
    removals have not freed enough; a cache with cross references only as a whole.  When
    it returns without error, such a cache is gone with its size as [BytesFreed]; of another
    one the units that are left hold at most [MaxBytes], and [BytesFreed] is the size of the
    units it removed.  A unit is a loose file or a whole
    package, and every file of the walk belongs to one. *)
Theorem cache_budget_is_enforced `{SortSlice} `{MapRange} opts c now :
  0 <= cp_MaxBytes c ->
  wpp (trim_spec opts c) (TrimByAge opts c) (trimmed opts c) (mkTState now None []) /\
  forall vs u, walk_units c vs no_units = (u, None) -> forall p,
    p ∈ ce_path <$> unit_entries u <-> exists v, v ∈ vs /\ file_visit v = true /\ p = unit_path c (vs_path v).
Proof.
  intros Hcap. split; [by apply wpp_TrimByAge|].
  intros vs u Hw p. rewrite (walk_units_paths c vs no_units u p Hw). unfold unit_entries at 1. cbn.
  rewrite map_to_list_empty. cbn. split; [|by right]. by intros [?%not_elem_of_nil|?].
Qed.

(** A removal of everything that is asked for, on a file system that does not change in
    between. *)
Definition calm (walk : list visit * err_ret) (home : string) (now : Z) B (e : trimE B) : St (list string) B :=
  match e in trimE B return St (list string) B with
  | GlobFn _ => fun w => ([], w)
  | StatFn _ => fun w => (Ok true, w)
  | WalkDirFn _ => fun w => (walk, w)
  | RemoveAllFn p => fun w => (None, w ++ [p])
  | TimeNow => fun w => (now, w)
  | Getenv _ => fun w => (home, w)
  end.

Definition dry (o : TrimOptions) : TrimOptions := mkTrimOptions false (to_Now o) (to_InFlightFloor o).
Definition forget_executed (r : TrimResult) : TrimResult :=
  mkTrimResult (tr_Path r) (tr_BytesFound r) (tr_BytesFreed r) false (tr_Err r) (tr_SkippedInFlight r).

Section dry_run.
Context `{SortSlice} `{MapRange} (c : Cap) (walk : list visit * err_ret) (home : string) (now : Z).
Abbreviation run m w := (interp (calm walk home now) m w).

(** Both runs of a pass give the same result; the dry one calls nothing. *)
Lemma run_trimEntries opts es rm target freed allow w :
  exists res w', trimEntries es rm target freed allow (dry opts) c = mret res /\
    run (trimEntries es rm target freed allow opts c) w = (res, w').
Proof.
  revert rm freed w. induction es as [|e es IH]; intros [|b rm] freed w; cbn [trimEntries]; try by do 2 eexists.
  assert (forall b' f w, exists res w',
    ('(removed, freed, err) ← trimEntries es rm target f allow (dry opts) c; mret (b' :: removed, freed, err)) =
      (mret res : prog trimE _) /\
    run ('(removed, freed, err) ← trimEntries es rm target f allow opts c; mret (b' :: removed, freed, err)) w =
      (res, w')) as Hc.
  { intros b' f w1. destruct (IH rm f w1) as ([[rm' f'] err] & w' & -> & E). rewrite interp_bind, E. cbn. by do 2 eexists. }
  destruct (target <=? freed); [by do 2 eexists|]. destruct b; [apply Hc|]. destruct (negb allow && _); [apply Hc|].
  destruct (to_Execute opts); [|apply Hc]. rewrite interp_bind. apply Hc.
Qed.

Lemma run_passes opts es total r w :
  exists r', trim_passes (dry opts) c es total (forget_executed r) = mret (forget_executed r') /\
    fst (run (trim_passes opts c es total r) w) = r'.
Proof.
  unfold trim_passes. cbv zeta. rewrite interp_bind.
  edestruct (run_trimEntries opts) as ([[rm freed] err] & w' & -> & ->). cbn [mbind prog_mbind prog_bind mret prog_mret].
  destruct err; [eexists; split; [|reflexivity]; done|].
  destruct (freed <? _); [|eexists; split; [|reflexivity]; done]. rewrite interp_bind.
  edestruct (run_trimEntries opts) as ([[rm2 freed2] err2] & w2 & -> & ->). cbn. eexists. split; [|done]. by destruct err2.
Qed.
End dry_run.

(** A dry run says what the executing run will do: on a file system that does not
    change in between and lets everything be removed, both return the same result but for
    the [Executed] flag, and the dry run removes nothing. *)
Theorem dry_run_predicts_the_trim `{SortSlice} `{MapRange} opts c walk home now :
  interp (calm walk home now) (TrimByAge (dry opts) c) [] =
  (forget_executed (fst (interp (calm walk home now) (TrimByAge opts c) [])), []).
Proof.
  unfold TrimByAge. rewrite !interp_bind.
  assert (exists o, interp (calm walk home now) (withDefaults opts) [] = (o, []) /\
    interp (calm walk home now) (withDefaults (dry opts)) [] = (dry o, [])) as (o & -> & ->).
  { unfold withDefaults. cbn [dry to_Now to_Execute to_InFlightFloor]. destruct (IsZero _); by eexists. }
  cbv zeta. rewrite !interp_bind. unfold trimGuards. rewrite !interp_bind. cbn [interp call calm].
  destruct (_ || _); [done|]. unfold collectUnits. rewrite !interp_bind. cbn [interp call calm].
  destruct walk as [vs own]. destruct (walk_units c vs no_units) as [u err].
  destruct (match err with Some e => Some e | None => own end) as [e|]; cbn [interp mret prog_mret].
  { by destruct (errors_Is e _). }
  destruct (_ <=? _); [done|].
  change (to_InFlightFloor (dry o)) with (to_InFlightFloor o). change (in_flight (dry o)) with (in_flight o).
  destruct (_ && _); [done|]. destruct (cp_WipeWhole c).
  - unfold wipe. rewrite !interp_bind. cbn [dry to_Execute]. by destruct (to_Execute o).
  - cbn [interp mret prog_mret]. edestruct (run_passes c (vs, own) home now o) as (r' & E & Hr).
    change (mkTrimResult (cp_Path c) 0 0 (to_Execute (dry o)) None false) with
      (forget_executed (mkTrimResult (cp_Path c) 0 0 (to_Execute o) None false)).
    change (trim_found ?n (forget_executed ?r)) with (forget_executed (trim_found n r)).
    rewrite E. cbn [interp mret prog_mret]. by rewrite Hr.
Qed.

(** ** Budgets of a family *)

(** What [Stat] has said of the directories so far. *)
Definition stat_spec : spec trimE (gset string) := {|
  allowed B e s := match e with RemoveAllFn _ | WalkDirFn _ => False | _ => True end;
  answers B e s :=
    match e in trimE B return B -> gset string -> Prop with
    | StatFn p => fun b s' => s' = match b with Ok true => {[p]} ∪ s | _ => s end
    | _ => fun _ s' => s' = s
    end;
|}.

Lemma wpp_existing_dirs paths seen s :
  seen ⊆ s ->
  wpp stat_spec (existing_dirs seen paths)
    (fun out s' => NoDup out /\ s ⊆ s' /\ forall d, d ∈ out -> d ∈ s' /\ (d ∉ seen) /\ exists p, p ∈ paths /\ d = Clean p) s.
Proof.
  revert seen s. induction paths as [|p paths IH]; intros seen s Hsub; cbn.
  { split_and!; [constructor|done|]. by intros d ?%not_elem_of_nil. }
  assert (forall s0, s ⊆ s0 -> wpp stat_spec (existing_dirs seen paths)
    (fun out s' => NoDup out /\ s ⊆ s' /\ forall d, d ∈ out -> d ∈ s' /\ (d ∉ seen) /\ exists q, q ∈ p :: paths /\ d = Clean q) s0) as Hskip.
  { intros s0 Hs0. eapply wpp_mono; [apply IH; set_solver|]. intros out s' (? & ? & Hd). split_and!; [done|set_solver|].
    intros d Hin. destruct (Hd d Hin) as (? & ? & q & ? & ?). split_and!; [done|done|]. exists q. set_solver. }
  destruct (bool_decide (Clean p ∈ seen)) eqn:E; [by apply Hskip|]. apply bool_decide_eq_false in E.
  split; [done|]. intros b s1 ->. destruct b as [[]|]; cbn; [|by apply Hskip..].
  apply wpp_bind. eapply wpp_mono; [apply IH; set_solver|]. intros out s' (Hnd & Hss & Hd). apply wpp_ret. split_and!.
  - apply NoDup_cons. split; [|done]. intros (_ & Hn & _)%Hd. set_solver.
  - set_solver.
  - intros d [->|Hin]%elem_of_cons; [split_and!; [set_solver|done|exists p; set_solver]|].
    destruct (Hd d Hin) as (? & ? & q & ? & ?). split_and!; [done|set_solver|]. exists q. set_solver.
Qed.

Definition only_looks B (e : trimE B) : Prop := match e with GlobFn _ | StatFn _ => True | _ => False end.

Lemma only_family_dirs homes glob subs : only only_looks (family_dirs homes glob subs).
Proof.
  induction homes as [|home homes IH]; cbn; [done|]. destruct (String.eqb home ""); [done|]. cbn. split; [done|].
  intros here. apply only_bind; [|intros extra; by apply only_bind]. clear.
  induction subs as [|sub subs IH]; cbn; [done|]. apply only_bind; [by destruct (is_pattern sub)|].
  intros here. by apply only_bind.
Qed.

Definition budget (caps : list Cap) : Z := foldr (fun c n => cp_MaxBytes c + n) 0 caps.

Lemma budget_uniform f per (dirs : list string) :
  (forall d, cp_MaxBytes (f d) = per) -> budget (f <$> dirs) = Z.of_nat (length dirs) * per.
Proof.
  intros Hf. induction dirs as [|d dirs IH]; cbn; [done|]. rewrite Hf. unfold budget in IH. rewrite IH. lia.
Qed.

Lemma family_share_bound gb n :
  0 <= gb -> (0 < n)%nat -> 1 <= family_share gb n /\ Z.of_nat n * family_share gb n <= Z.max (gb * giB) (Z.of_nat n).
Proof.
  intros Hgb Hn. unfold family_share, giB. rewrite Z.quot_div_nonneg by lia.
  pose proof (Z.mul_div_le (gb * 2 ^ 30) (Z.of_nat n) ltac:(lia)). destruct (_ <? 1) eqn:E; bsplit; lia.
Qed.

Lemma wpp_family homes gb depth whole glob subs s0 :
  0 <= gb ->
  wpp stat_spec (family homes gb depth whole glob subs)
    (fun caps s => NoDup (Paths caps) /\
       Forall (fun c => cp_Path c ∈ s /\ 1 <= cp_MaxBytes c /\ cp_MinProtect c = protect /\
                        cp_PackageDepth c = depth /\ cp_WipeWhole c = whole) caps /\
       budget caps <= Z.max (gb * giB) (Z.of_nat (length caps))) s0.
Proof.
  intros Hgb. unfold family. apply wpp_bind.
  eapply (wpp_mono _ _ (fun _ _ => True)).
  { eapply (only_wpp only_looks); [apply only_family_dirs| |done]. by intros B [] s. }
  intros dirs s _. apply wpp_bind. eapply wpp_mono; [apply wpp_existing_dirs; set_solver|]. intros out s' (Hnd & _ & Hd).
  apply wpp_ret. unfold Paths. rewrite <- list_fmap_compose, list_fmap_id. split_and!; [done| |].
  - apply Forall_fmap, Forall_forall. intros d Hin. cbn. destruct (Hd d Hin) as (? & _). split_and!; try done.
    apply family_share_bound; [done|]. destruct out; [by apply not_elem_of_nil in Hin|]. cbn. lia.
  - rewrite (budget_uniform _ (family_share gb (length out))) by done. rewrite length_fmap.
    destruct out as [|d out]; [cbn; unfold giB; lia|]. apply family_share_bound; [done|]. cbn. lia.
Qed.

(** Every budget of [Caps] is positive. *)
Lemma wpp_Caps homes s0 :
  wpp stat_spec (Caps homes) (fun caps _ => Forall (fun c => 0 <= cp_MaxBytes c) caps) s0.
Proof.
  assert (forall gb depth whole glob subs s (Q : list Cap -> gset string -> Prop), 0 <= gb ->
    (forall caps s', Forall (fun c => 0 <= cp_MaxBytes c) caps -> Q caps s') ->
    wpp stat_spec (family homes gb depth whole glob subs) Q s) as Hfam.
  { intros gb depth whole glob subs s Q Hgb HQ. eapply wpp_mono; [by apply wpp_family|].
    intros caps s' (_ & Hall & _). apply HQ. eapply Forall_impl; [exact Hall|]. cbn. intros c. lia. }
  unfold Caps. do 4 (apply wpp_bind, Hfam; [done|]; intros ? ? ?). apply wpp_ret. rewrite !Forall_app.
  split_and!; try done. apply Forall_flat_map, Forall_forall. intros h _. unfold home_caps.
  destruct (String.eqb h ""); repeat constructor; done.
Qed.

(** *** The budget of a cache

    The budgets, as a table, and what the globs and [Stat] have said when they are
    assigned. *)

Record seen := mkSeen { sn_globs : list (string * list string); sn_dirs : list string }.

Definition seen_le (s s' : seen) : Prop := sn_globs s ⊆ sn_globs s' /\ sn_dirs s ⊆ sn_dirs s'.

#[global] Instance seen_le_preorder : PreOrder seen_le.
Proof. split; [by split|]. intros s1 s2 s3 [? ?] [? ?]. split; by etrans. Qed.

(** A family: its budget in GiB, the depth of its packages, whether it goes as a whole, the
    pattern of its directories below a home, and further ones. *)
Definition cache_families : list (Z * Z * bool * string * list string) :=
  [(DefaultCacheGoBuildMaxGB, 0, true, ".cache/go-build*", []);
   (DefaultCacheYarnMaxGB, 2, false, ".cache/yarn*", [".yarn-berry-*"; ".yarn/cache"]);
   (DefaultCacheGolangciLintMaxGB, 0, true, ".cache/golangci-lint*", []);
   (DefaultCachePlaywrightMaxGB, 0, true, ".cache/ms-playwright", [])].

Definition globbed (s : seen) (pattern p : string) : Prop := exists ms, (pattern, ms) ∈ sn_globs s /\ p ∈ ms.

(** A directory of the family that the globs found, or that is named, and that [Stat] saw. *)
Definition family_dir (s : seen) (homes : list string) (glob : string) (subs : list string) (d : string) : Prop :=
  d ∈ sn_dirs s /\ exists home p, home ∈ homes /\ d = Clean p /\
    (globbed s (PathJoin home glob) p \/
     exists sub, sub ∈ subs /\ (globbed s (PathJoin home sub) p \/ (is_pattern sub = false /\ p = PathJoin home sub))).

(** A cache and its budget: npm and pnpm have their own; a directory of a family has the
    share of the family that is left when all the directories of it get as much. *)
Definition budgeted (s : seen) (homes : list string) (c : Cap) : Prop :=
  (exists home, home ∈ homes /\ home <> "" /\ cp_PackageDepth c = 0 /\ cp_WipeWhole c = false /\
     ((cp_Path c = PathJoinAll [home; ".npm"; "_cacache"] /\ cp_MaxBytes c = DefaultCacheNPMMaxGB * 2 ^ 30) \/
      (cp_Path c = PathJoin home ".pnpm-store" /\ cp_MaxBytes c = DefaultCachePNPMMaxGB * 2 ^ 30))) \/
  (exists gb glob subs dirs, (gb, cp_PackageDepth c, cp_WipeWhole c, glob, subs) ∈ cache_families /\
     NoDup dirs /\ Forall (family_dir s homes glob subs) dirs /\ cp_Path c ∈ dirs /\
     cp_MaxBytes c = Z.max 1 (gb * 2 ^ 30 / Z.of_nat (length dirs))).

Lemma globbed_le s s' pattern p : seen_le s s' -> globbed s pattern p -> globbed s' pattern p.
Proof. intros [Hg _] (ms & Hm & Hp). exists ms. split; [by apply Hg|done]. Qed.

Lemma family_dir_le s s' homes glob subs d : seen_le s s' -> family_dir s homes glob subs d -> family_dir s' homes glob subs d.
Proof.
  intros Hle [Hd (home & p & Hh & Ep & Hor)]. split; [by apply Hle|]. exists home, p. split_and!; [done..|].
  destruct Hor as [Hg|(sub & Hs & [Hg|Hg])]; [left; by eapply globbed_le|right; exists sub..]; (split; [done|]); [left|by right].
  by eapply globbed_le.
Qed.

Lemma budgeted_le s s' homes c : seen_le s s' -> budgeted s homes c -> budgeted s' homes c.
Proof.
  intros Hle [Hf|(gb & glob & subs & dirs & Hin & Hnd & Hall & Hrest)]; [by left|right].
  exists gb, glob, subs, dirs. split_and!; [done..| |apply Hrest|apply Hrest].
  eapply Forall_impl; [exact Hall|]. intros d. by apply family_dir_le.
Qed.

Lemma budgeted_nonneg s homes c : budgeted s homes c -> 0 <= cp_MaxBytes c.
Proof. by intros [(home & _ & _ & _ & _ & [[_ ->]|[_ ->]])|(gb & glob & subs & dirs & _ & _ & _ & _ & ->)]; [| |lia]. Qed.

Definition look_spec : spec trimE seen := {|
  allowed B e s := match e with RemoveAllFn _ | WalkDirFn _ => False | _ => True end;
  answers B e s :=
    match e in trimE B return B -> seen -> Prop with
    | StatFn p => fun b s' => s' = match b with Ok true => mkSeen (sn_globs s) (p :: sn_dirs s) | _ => s end
    | GlobFn p => fun b s' => s' = mkSeen ((p, b) :: sn_globs s) (sn_dirs s)
    | _ => fun _ s' => s' = s
    end;
|}.

Lemma seen_glob p b s : seen_le s (mkSeen ((p, b) :: sn_globs s) (sn_dirs s)).
Proof. split; [|done]. intros x Hx. by right. Qed.

Lemma seen_stat p s : seen_le s (mkSeen (sn_globs s) (p :: sn_dirs s)).
Proof. split; [done|]. intros x Hx. by right. Qed.

(** Where the candidates of a family come from. *)
Definition candidate (s : seen) (homes : list string) (glob : string) (subs : list string) (p : string) : Prop :=
  exists home, home ∈ homes /\
    (globbed s (PathJoin home glob) p \/
     exists sub, sub ∈ subs /\ (globbed s (PathJoin home sub) p \/ (is_pattern sub = false /\ p = PathJoin home sub))).

Lemma candidate_le s s' homes glob subs p : seen_le s s' -> candidate s homes glob subs p -> candidate s' homes glob subs p.
Proof.
  intros Hle (home & Hh & Hor). exists home. split; [done|].
  destruct Hor as [Hg|(sub & Hs & [Hg|Hg])]; [left; by eapply globbed_le|right; exists sub..]; (split; [done|]); [left|by right].
  by eapply globbed_le.
Qed.

Lemma wpp_extra_dirs home homes glob subs all s :
  home ∈ homes -> (forall sub, sub ∈ subs -> sub ∈ all) ->
  wpp look_spec (extra_dirs home subs) (fun out s' => seen_le s s' /\ Forall (candidate s' homes glob all) out) s.
Proof.
  intros Hh. revert s. induction subs as [|sub subs IH]; intros s Hall; cbn [extra_dirs]; [by apply wpp_ret|]. apply wpp_bind.
  assert (forall here s1, seen_le s s1 -> Forall (candidate s1 homes glob all) here ->
    wpp look_spec (rest ← extra_dirs home subs; mret (here ++ rest))
      (fun out s' => seen_le s s' /\ Forall (candidate s' homes glob all) out) s1) as Hgo.
  { intros here s1 Hle Hhere. apply wpp_bind. eapply wpp_mono; [apply IH; intros; apply Hall; by right|].
    intros rest s2 [Hle2 Hrest]. apply wpp_ret. split; [by etrans|]. apply Forall_app. split; [|done].
    eapply Forall_impl; [exact Hhere|]. intros p. by apply candidate_le. }
  destruct (is_pattern sub) eqn:Hp.
  - apply wpp_call; [done|]. intros here s1 ->. apply Hgo; [apply seen_glob|]. apply Forall_forall. intros p Hin.
    exists home. split; [done|]. right. exists sub. split; [apply Hall; by left|]. left. exists here. split; [by left|done].
  - apply wpp_ret. apply Hgo; [done|]. constructor; [|done]. exists home. split; [done|]. right. exists sub.
    split; [apply Hall; by left|]. by right.
Qed.

Lemma wpp_look_family_dirs all homes glob subs s :
  (forall h, h ∈ homes -> h ∈ all) ->
  wpp look_spec (family_dirs homes glob subs) (fun out s' => seen_le s s' /\ Forall (candidate s' all glob subs) out) s.
Proof.
  revert s. induction homes as [|home homes IH]; intros s Hall; cbn [family_dirs]; [by apply wpp_ret|].
  assert (forall h, h ∈ homes -> h ∈ all) as Hall' by (intros; apply Hall; by right).
  assert (home ∈ all) as Hh by (apply Hall; by left).
  destruct (String.eqb home ""); [by apply IH|]. apply wpp_bind, wpp_call; [done|]. intros here s1 ->.
  apply wpp_bind. eapply wpp_mono; [by apply (wpp_extra_dirs home all glob subs subs)|]. intros extra s2 [Hle2 Hex].
  apply wpp_bind. eapply wpp_mono; [by apply IH|]. intros rest s3 [Hle3 Hrest]. apply wpp_ret.
  split; [etrans; [apply seen_glob|by etrans]|]. rewrite !Forall_app. split_and!; [| |done].
  - apply Forall_forall. intros p Hin. exists home. split; [done|]. left. exists here. split; [|done].
    apply Hle3, Hle2. by left.
  - eapply Forall_impl; [exact Hex|]. intros p. by apply candidate_le.
Qed.

Lemma wpp_look_existing paths seen s :
  wpp look_spec (existing_dirs seen paths)
    (fun out s' => seen_le s s' /\ NoDup out /\
       forall d, d ∈ out -> d ∈ sn_dirs s' /\ (d ∉ seen) /\ exists p, p ∈ paths /\ d = Clean p) s.
Proof.
  revert seen s. induction paths as [|p paths IH]; intros seen s; cbn [existing_dirs].
  { apply wpp_ret. split_and!; [done|constructor|]. by intros d ?%not_elem_of_nil. }
  assert (wpp look_spec (existing_dirs seen paths)
    (fun out s' => seen_le s s' /\ NoDup out /\
       forall d, d ∈ out -> d ∈ sn_dirs s' /\ (d ∉ seen) /\ exists q, q ∈ p :: paths /\ d = Clean q) s) as Hskip.
  { eapply wpp_mono; [apply IH|]. intros out s' (? & ? & Hd). split_and!; [done..|].
    intros d Hin. destruct (Hd d Hin) as (? & ? & q & ? & ?). split_and!; [done|done|]. exists q. split; [by right|done]. }
  destruct (bool_decide (Clean p ∈ seen)) eqn:E; [done|]. apply bool_decide_eq_false in E.
  apply wpp_bind, wpp_call; [done|]. intros [[]|e] s1 ->; [|done..]. apply wpp_bind.
  eapply wpp_mono; [apply IH|]. intros out s' (Hle & Hnd & Hd). apply wpp_ret. split_and!.
  - etrans; [apply seen_stat|done].
  - apply NoDup_cons. split; [|done]. intros (_ & Hn & _)%Hd. set_solver.
  - intros d [->|Hin]%elem_of_cons; [split_and!; [apply Hle; by left|done|exists p; split; [by left|done]]|].
    destruct (Hd d Hin) as (? & ? & q & ? & ?). split_and!; [done|set_solver|]. exists q. split; [by right|done].
Qed.

Lemma family_share_max gb n : 0 <= gb -> (0 < n)%nat -> family_share gb n = Z.max 1 (gb * 2 ^ 30 / Z.of_nat n).
Proof.
  intros Hgb Hn. unfold family_share, giB. rewrite Z.quot_div_nonneg by lia. destruct (_ <? 1) eqn:E; bsplit; lia.
Qed.

Lemma wpp_look_family homes gb depth whole glob subs s :
  0 <= gb -> (gb, depth, whole, glob, subs) ∈ cache_families ->
  wpp look_spec (family homes gb depth whole glob subs)
    (fun caps s' => seen_le s s' /\ Forall (budgeted s' homes) caps) s.
Proof.
  intros Hgb Hfam. unfold family. apply wpp_bind. eapply wpp_mono; [by apply (wpp_look_family_dirs homes)|].
  intros dirs s1 [Hle1 Hc]. apply wpp_bind. eapply wpp_mono; [apply wpp_look_existing|]. intros out s2 (Hle2 & Hnd & Hd).
  apply wpp_ret. split; [by etrans|]. apply Forall_fmap, Forall_forall. intros d Hin. right. exists gb, glob, subs, out.
  split_and!; [done|done| |done|].
  - apply Forall_forall. intros d' Hd'. destruct (Hd d' Hd') as (Hs & _ & p & Hp & ->). split; [done|].
    rewrite Forall_forall in Hc. destruct (candidate_le _ _ _ _ _ _ Hle2 (Hc p Hp)) as (home & Hh & Hor). by exists home, p.
  - apply family_share_max; [done|]. destruct out; [by apply not_elem_of_nil in Hin|cbn; lia].
Qed.

(** Every cache of [Caps] has the budget of the table. *)
Lemma wpp_look_Caps homes s :
  wpp look_spec (Caps homes) (fun caps s' => seen_le s s' /\ Forall (budgeted s' homes) caps) s.
Proof.
  unfold Caps.
  apply wpp_bind. eapply wpp_mono; [apply wpp_look_family; [done|by left]|]. intros c1 s1 [L1 H1].
  apply wpp_bind. eapply wpp_mono; [apply wpp_look_family; [done|right; by left]|]. intros c2 s2 [L2 H2].
  apply wpp_bind. eapply wpp_mono; [apply wpp_look_family; [done|right; right; by left]|]. intros c3 s3 [L3 H3].
  apply wpp_bind. eapply wpp_mono; [apply wpp_look_family; [done|right; right; right; by left]|]. intros c4 s4 [L4 H4].
  apply wpp_ret. assert (seen_le s2 s4) as L24 by (by etrans). assert (seen_le s1 s4) as L14 by (by etrans).
  split; [by etrans|]. rewrite !Forall_app. split_and!; [..|done|].
  - eapply Forall_impl; [exact H1|]. intros c. by apply budgeted_le.
  - eapply Forall_impl; [exact H2|]. intros c. by apply budgeted_le.
  - eapply Forall_impl; [exact H3|]. intros c. by apply budgeted_le.
  - apply Forall_flat_map, Forall_forall. intros h Hh %list_elem_of_In. unfold home_caps.
    destruct (String.eqb_spec h "") as [|Hne]; [constructor|].
    rewrite !Forall_cons. apply list_elem_of_In in Hh.
    split_and!; [| |constructor]; left; exists h; (split_and!; [done..|]); [by left|by right].
Qed.

(** Whether a walk is of the same cache does not depend on the budget. *)
Lemma walk_units_ext c c' vs u :
  cp_Path c' = cp_Path c -> cp_PackageDepth c' = cp_PackageDepth c -> walk_units c' vs u = walk_units c vs u.
Proof.
  intros Ep Ed. revert u. induction vs as [|v vs IH]; intros u; cbn [walk_units]; [done|].
  assert (visit_unit c' v u = visit_unit c v u) as ->; [|by destruct (visit_unit c v u)].
  unfold visit_unit, add_file, packageRoot. by rewrite Ep, Ed.
Qed.

(** The budget of a family of caches is divided, not multiplied: the capped
    directories are distinct, each was just seen to be a directory, each has at least one
    byte, and together they may hold no more than the budget of the family, for any number
    of directories up to the number of its bytes. *)
Theorem family_budget_is_divided homes gb depth whole glob subs :
  0 <= gb ->
  wpp stat_spec (family homes gb depth whole glob subs)
    (fun caps s => NoDup (Paths caps) /\
       Forall (fun c => cp_Path c ∈ s /\ 1 <= cp_MaxBytes c /\ cp_MinProtect c = protect /\
                        cp_PackageDepth c = depth /\ cp_WipeWhole c = whole) caps /\
       budget caps <= Z.max (gb * giB) (Z.of_nat (length caps))) ∅.
Proof.
  apply wpp_family.
Qed.

(** ** A concrete cache *)

Definition demo_cap : Cap := mkCap "/home/ci/.cache/yarn" 100 0 2 false.
Definition a_file (p : string) (size mtime : Z) : visit := mkVisit ("/home/ci/.cache/yarn/" +:+ p) None false (Ok (size, mtime)).

(** Two packages of yarn v1, the second older, and a loose file. *)
Definition demo_walk : list visit :=
  [mkVisit "/home/ci/.cache/yarn" None true (Ok (0, 9));
   a_file "v6/left-pad/index.js" 60 50; a_file "v6/left-pad/package.json" 20 51;
   a_file "v6/is-odd/index.js" 70 10; a_file "v6/is-odd/package.json" 5 11;
   a_file "v6/.tmp" 30 40].

Lemma cache_budget_is_enforced_witness :
  wpp (trim_spec (mkTrimOptions true 1000 0) demo_cap)
    (TrimByAge (H:=SortSlice_insertion) (H0:=MapRange_to_list) (mkTrimOptions true 1000 0) demo_cap)
    (trimmed (mkTrimOptions true 1000 0) demo_cap) (mkTState 0 None []) /\
  forall u, walk_units demo_cap demo_walk no_units = (u, None) -> forall p,
    p ∈ ce_path <$> unit_entries u <->
    exists v, v ∈ demo_walk /\ file_visit v = true /\ p = unit_path demo_cap (vs_path v).
Proof.
  destruct (cache_budget_is_enforced (H:=SortSlice_insertion) (H0:=MapRange_to_list)
    (mkTrimOptions true 1000 0) demo_cap 0) as [Htrim Hunits]; [vm_compute; discriminate|].
  split; [exact Htrim|]. intros u. apply Hunits.
Defined.

(** The oldest package goes whole, then the loose file; 80 bytes are left. *)
Example demo_trim :
  interp (calm (demo_walk, None) "/home/ci" 0)
    (TrimByAge (H:=SortSlice_insertion) (H0:=MapRange_to_list) (mkTrimOptions true 1000 0) demo_cap) [] =
  (mkTrimResult "/home/ci/.cache/yarn" 185 105 true None false,
   ["/home/ci/.cache/yarn/v6/is-odd"; "/home/ci/.cache/yarn/v6/.tmp"]).
Proof. vm_compute. reflexivity. Qed.

Lemma family_budget_is_divided_witness :
  wpp stat_spec (family ["/home/ci"] DefaultCacheGoBuildMaxGB 0 true ".cache/go-build*" [])
    (fun caps s => NoDup (Paths caps) /\
       Forall (fun c => cp_Path c ∈ s /\ 1 <= cp_MaxBytes c /\ cp_MinProtect c = protect /\
                        cp_PackageDepth c = 0 /\ cp_WipeWhole c = true) caps /\
       budget caps <= Z.max (DefaultCacheGoBuildMaxGB * giB) (Z.of_nat (length caps))) ∅.
Proof. apply family_budget_is_divided. vm_compute. discriminate. Defined.
