(* ===== verification/Cleanup.v ===== *)
(** * internal/cleanup: disk hygiene of the runner host

    [Run] with its deferrals, the age-gated sweeps of /tmp, the work directories and the
    codespaces, the cache trim, the docker prunes and apt.  Every effect is behind the
    injected functions; the trim of the caches is the one of [Cachetrim], linked to them.
    A walk is the sequence of its callbacks, of which [filepath.SkipDir] drops those below
    the directory.  JSON decoding and the conversion of a decimal size are parameters. *)

From S2P Require Import Prelude GoStrings Regex Prog Civm Idle Cachetrim.

Local Open Scope string_scope.
Local Open Scope list_scope.
Local Open Scope Z_scope.

Definition deferredByDockerHeavyLock : string := "deferred-by-docker-heavy-lock".
Definition deferredByHostBusy : string := "deferred-by-host-busy".

Definition IsDeferral (name : string) : bool := HasPrefix name "deferred-by-".

Record deleteCandidate := mkCandidate { dc_path : string; dc_size : Z }.

Definition dangerousAbsoluteRoots : list string := ["/"; "/home"; "/root"].
Definition allowedTopLevelCleanupRoots : list string := [DefaultTmpDir].
Definition protectedWorkCacheDirs : list string := ["_actions"; "_tool"].

Record Action := mkAction {
  ac_Name : string;
  ac_Path : string;
  ac_BytesFound : Z;
  ac_BytesFreed : Z;
  ac_Executed : bool;
  ac_Err : err_ret;
}.

Record CleanOptions := mkCleanOptions {
  co_Execute : bool;
  co_WorkDir : string;
  co_TmpDir : string;
  co_CodespaceDir : string;
  co_TmpThreshold : Z;
  co_WorkThreshold : Z;
  co_CodespaceThreshold : Z;
  co_DockerPrune : bool;
  co_ManagedVolumePrune : bool;
  co_AptClean : bool;
  co_SkipIdleGuard : bool;
  co_EmergencyBypassIdle : bool;
  co_IdleProbeDelay : Z;
  co_Now : Z;
}.

Inductive cleanE : Type -> Type :=
  | WalkFn (root : string) : cleanE (list visit * err_ret)
  | StatFn (path : string) : cleanE (result bool)
  | GlobFn (pattern : string) : cleanE (list string * err_ret)
  | RunFn (name : string) (args : list string) : cleanE (result string)
  | ActivityFn : cleanE (result (list Activity))
  | ProbeTimer (delay : Z) : cleanE err_ret
  | RemoveAllFn (path : string) : cleanE err_ret
  | LockActiveFn : cleanE (result bool)
  | ReclaimStaleFn : cleanE (result bool)
  | LockHolderFn : cleanE string
  | SafeDeleteFn (path : string) : cleanE err_ret
  | UserHomeDir : cleanE (result string)
  | TimeNow : cleanE Z
  | Getenv (name : string) : cleanE string.

Definition act (name path : string) : Action := mkAction name path 0 0 false None.
Definition act_err (e : error) (a : Action) : Action :=
  mkAction (ac_Name a) (ac_Path a) (ac_BytesFound a) (ac_BytesFreed a) (ac_Executed a) (Some e).
Definition act_path (p : string) (a : Action) : Action :=
  mkAction (ac_Name a) p (ac_BytesFound a) (ac_BytesFreed a) (ac_Executed a) (ac_Err a).
Definition act_found (n : Z) (a : Action) : Action :=
  mkAction (ac_Name a) (ac_Path a) n (ac_BytesFreed a) (ac_Executed a) (ac_Err a).
Definition act_freed (n : Z) (a : Action) : Action :=
  mkAction (ac_Name a) (ac_Path a) (ac_BytesFound a) n (ac_Executed a) (ac_Err a).
Definition act_done (a : Action) : Action :=
  mkAction (ac_Name a) (ac_Path a) (ac_BytesFound a) (ac_BytesFreed a) true (ac_Err a).

Definition clean_applyDefaults (o : CleanOptions) : prog cleanE CleanOptions :=
  if IsZero (co_Now o) then
    now ← call TimeNow;
    mret (mkCleanOptions (co_Execute o) (co_WorkDir o) (co_TmpDir o) (co_CodespaceDir o) (co_TmpThreshold o)
            (co_WorkThreshold o) (co_CodespaceThreshold o) (co_DockerPrune o) (co_ManagedVolumePrune o)
            (co_AptClean o) (co_SkipIdleGuard o) (co_EmergencyBypassIdle o) (co_IdleProbeDelay o) now)
  else mret o.

Definition ensureIdle (opts : CleanOptions) : prog cleanE err_ret :=
  if co_SkipIdleGuard opts || negb (co_Execute opts) then mret None
  else Ensure (call ActivityFn) (fun d => call (ProbeTimer d)) (co_IdleProbeDelay opts) "cleanup".

(** ** Roots *)

Definition validateCleanupRoot (root : string) : prog cleanE (result string) :=
  match CleanDir root with
  | Err e => mret (Err e)
  | Ok clean =>
      if negb (IsAbs clean) then mret (Ok clean)
      else if bool_decide (clean ∈ allowedTopLevelCleanupRoots) then mret (Ok clean)
      else if bool_decide (clean ∈ dangerousAbsoluteRoots) then
        mret (Err (Errorf ("cleanup root perigoso: " +:+ clean)))
      else
        home ← call UserHomeDir;
        let whole := Err (Errorf ("cleanup root nao pode ser home inteiro: " +:+ clean)) in
        match home with
        | Ok h => if String.eqb clean (Clean h) then mret whole
                  else if HasPrefix clean "/home/" && (count_char "/" (TrimSlashes clean) =? 1) then mret whole
                  else mret (Ok clean)
        | Err _ => if HasPrefix clean "/home/" && (count_char "/" (TrimSlashes clean) =? 1) then mret whole
                   else mret (Ok clean)
        end
  end.

Definition cleanupChildGuard (path : string) : prog cleanE err_ret :=
  let clean := Clean path in
  let parent := Dir clean in
  v ← validateCleanupRoot parent;
  match v with
  | Err e => mret (Some (Errorf_w ("parent " +:+ parent +:+ " is not a valid cleanup root: ") e))
  | Ok _ =>
      if negb (String.eqb (Dir clean) parent) || String.eqb (Base clean) ""
      then mret (Some (Errorf (clean +:+ " is not a direct child of a cleanup root")))
      else mret None
  end.

Definition isProtectedWorkCacheDir (root path : string) : bool :=
  match Rel root path with
  | None => false
  | Some rel =>
      if String.eqb rel "." || String.eqb rel "" then false
      else match Split "/" rel with
           | first :: _ => bool_decide (first ∈ protectedWorkCacheDirs)
           | [] => false
           end
  end.

Definition discovered `{SortSlice} (dir default : string) (pattern : string) (none : list string)
    : prog cleanE (list string) :=
  if negb (String.eqb (Clean dir) (Clean default)) then mret [dir]
  else
    '(matches, err) ← call (GlobFn pattern);
    match err, matches with
    | None, _ :: _ => mret (sort_slice String.ltb matches)
    | _, _ => mret none
    end.

Definition workCleanupRoots `{SortSlice} (opts : CleanOptions) : prog cleanE (list string) :=
  discovered (co_WorkDir opts) DefaultWorkDir "/home/*/actions-runner-*/_work" [co_WorkDir opts].

Definition codespaceCleanupRoots `{SortSlice} (opts : CleanOptions) : prog cleanE (list string) :=
  discovered (co_CodespaceDir opts) DefaultCodespaceDir "/home/*/codespace" [].

(** ** Sweeps *)

Definition file_bytes (n : Z) (v : visit) : Z :=
  match vs_err v, vs_Info v with
  | None, Ok (size, _) => if vs_IsDir v then n else int64 (n + size)
  | _, _ => n
  end.

Definition dirSize (root : string) (isDir : bool) (size : Z) : prog cleanE Z :=
  if negb isDir then mret size
  else '(vs, _) ← call (WalkFn root); mret (foldl file_bytes 0 vs).

(** Is [path] below a directory that was left with [filepath.SkipDir]? *)
Definition below (skip : option string) (path : string) : bool :=
  match skip with Some d => HasPrefix path (d +:+ "/") | None => false end.

(** The age gate of a sweep. *)
Definition stale_entry (now threshold mtime : Z) : bool :=
  negb (now - threshold <? mtime) && negb (time_Sub now mtime <? 2 * Hour).

(** The callbacks of the walk: the bytes found and the candidates. *)
Fixpoint scan_walk (opts : CleanOptions) (name root : string) (threshold : Z) (skip : option string)
    (vs : list visit) (found : Z) (toDelete : list deleteCandidate) : prog cleanE (Z * list deleteCandidate) :=
  match vs with
  | [] => mret (found, toDelete)
  | v :: vs =>
      let continue skip := scan_walk opts name root threshold skip vs found toDelete in
      if below skip (vs_path v) then continue skip
      else match vs_err v with
      | Some _ => continue skip
      | None =>
          if String.eqb (vs_path v) root then continue skip
          else if String.eqb name "work_old" && isProtectedWorkCacheDir root (vs_path v) then
            continue (if vs_IsDir v then Some (vs_path v) else skip)
          else match vs_Info v with
          | Err _ => continue skip
          | Ok (size, mtime) =>
              if negb (stale_entry (co_Now opts) threshold mtime) then continue skip
              else
                n ← dirSize (vs_path v) (vs_IsDir v) size;
                scan_walk opts name root threshold (if vs_IsDir v then Some (vs_path v) else skip) vs
                  (int64 (found + n)) (toDelete ++ [mkCandidate (vs_path v) n])
          end
      end
  end.

Fixpoint delete_candidates (cs : list deleteCandidate) (a : Action) : prog cleanE Action :=
  match cs with
  | [] => mret (act_done a)
  | cand :: cs =>
      err ← call (SafeDeleteFn (dc_path cand));
      match err with
      | Some e =>
          if errors_Is e ErrUnsafePath then delete_candidates cs a
          else delete_candidates cs (match ac_Err a with None => act_err e a | Some _ => a end)
      | None => delete_candidates cs (act_freed (int64 (ac_BytesFreed a + dc_size cand)) a)
      end
  end.

Definition scanAndMaybeDelete (opts : CleanOptions) (name root : string) (threshold : Z) : prog cleanE Action :=
  let a := act name root in
  valid ← validateCleanupRoot root;
  match valid with
  | Err e => mret (act_err e a)
  | Ok root =>
      let a := act_path root a in
      '(vs, err) ← call (WalkFn root);
      '(found, toDelete) ← scan_walk opts name root threshold None vs 0 [];
      let a := act_found found a in
      match err with
      | Some e => mret (act_err e a)
      | None =>
          if negb (co_Execute opts) then mret a
          else
            busy ← (if co_EmergencyBypassIdle opts then mret None else ensureIdle opts);
            match busy with
            | Some e => mret (act_err e a)
            | None => delete_candidates toDelete a
            end
      end
  end.

(** The sum of the sweeps of several roots. *)
Definition add_part (a part : Action) : Action :=
  mkAction (ac_Name a) (ac_Path a) (int64 (ac_BytesFound a + ac_BytesFound part))
    (int64 (ac_BytesFreed a + ac_BytesFreed part)) (ac_Executed a || ac_Executed part)
    (match ac_Err part, ac_Err a with Some e, None => Some e | _, e => e end).

Fixpoint scan_roots (opts : CleanOptions) (name : string) (roots : list string) (threshold : Z) (a : Action)
    : prog cleanE Action :=
  match roots with
  | [] => mret a
  | root :: roots =>
      part ← scanAndMaybeDelete opts name root threshold;
      scan_roots opts name roots threshold (add_part a part)
  end.

Definition scanWorkAndMaybeDelete `{SortSlice} (opts : CleanOptions) : prog cleanE Action :=
  roots ← workCleanupRoots opts;
  match roots with
  | [root] => scanAndMaybeDelete opts "work_old" root (co_WorkThreshold opts)
  | _ => scan_roots opts "work_old" roots (co_WorkThreshold opts) (act "work_old" (Join roots ", "))
  end.

Definition scanCodespaceAndMaybeDelete `{SortSlice} (opts : CleanOptions) : prog cleanE Action :=
  roots ← codespaceCleanupRoots opts;
  match roots with
  | [] => mret (act "codespace_stale" "(nenhum /home/*/codespace)")
  | [root] => scanAndMaybeDelete opts "codespace_stale" root (co_CodespaceThreshold opts)
  | _ => scan_roots opts "codespace_stale" roots (co_CodespaceThreshold opts)
           (act "codespace_stale" (Join roots ", "))
  end.

(** ** Caches *)

Fixpoint home_roots (seen : gset string) (roots : list string) : list string :=
  match roots with
  | [] => []
  | r :: roots =>
      let home := Dir (Dir r) in
      if String.eqb home "" || String.eqb home "/" || String.eqb home "." then home_roots seen roots
      else if bool_decide (home ∈ seen) then home_roots seen roots
      else home :: home_roots ({[home]} ∪ seen) roots
  end.

Definition cacheHomeRoots `{SortSlice} (opts : CleanOptions) : prog cleanE (list string) :=
  roots ← workCleanupRoots opts; mret (home_roots ∅ roots).

(** [cachetrim] with the functions of the cleanup. *)
Definition trim_deps B (e : trimE B) : prog cleanE B :=
  match e in trimE B return prog cleanE B with
  | Cachetrim.GlobFn p => '(m, _) ← call (GlobFn p); mret m
  | Cachetrim.StatFn p => call (StatFn p)
  | WalkDirFn r => call (WalkFn r)
  | Cachetrim.RemoveAllFn p => call (RemoveAllFn p)
  | Cachetrim.TimeNow => call TimeNow
  | Cachetrim.Getenv n => call (Getenv n)
  end.

Definition trim_action (r : TrimResult) : Action :=
  mkAction "cache_trim" (if tr_SkippedInFlight r then tr_Path r +:+ " (skipped: in-flight install)" else tr_Path r)
    (tr_BytesFound r) (tr_BytesFreed r) (tr_Executed r) (tr_Err r).

(** The budget of a cache in the emergency path. *)
Definition emergency_cap (opts : CleanOptions) (c : Cap) : Cap :=
  if co_EmergencyBypassIdle opts && cp_WipeWhole c
  then mkCap (cp_Path c) 0 (cp_MinProtect c) (cp_PackageDepth c) (cp_WipeWhole c) else c.

Definition trim_options (opts : CleanOptions) : TrimOptions :=
  mkTrimOptions (co_Execute opts) (co_Now opts)
    (if co_EmergencyBypassIdle opts then DefaultCacheInFlightFloorMinutes * Minute else 0).

Fixpoint trim_caps `{SortSlice} `{MapRange} (opts : CleanOptions) (caps : list Cap) : prog cleanE (list Action) :=
  match caps with
  | [] => mret []
  | c :: caps =>
      r ← link trim_deps (TrimByAge (trim_options opts) (emergency_cap opts c));
      rest ← trim_caps opts caps;
      mret (trim_action r :: rest)
  end.

Definition cacheTrimActions `{SortSlice} `{MapRange} (opts : CleanOptions) : prog cleanE (list Action) :=
  homes ← cacheHomeRoots opts;
  caps ← link trim_deps (Caps homes);
  trim_caps opts caps.

(** ** Docker and apt *)

(** [^[a-z0-9][a-z0-9_-]*-[1-9][0-9]{5,}$] *)
Definition managedComposeProjectPattern : regex :=
  (RCls (lower ++ digit) ⋅ RStar (RCls (lower ++ digit ++ chars "_-")) ⋅ lit "-" ⋅
   RCls [("1", "9")%char] ⋅ rep 5 5 (RCls digit) ⋅ RStar (RCls digit))%re.

(** [^[A-Za-z0-9][A-Za-z0-9_.-]+$] *)
Definition dockerVolumeNamePattern : regex :=
  (RCls alnum ⋅ plus (RCls (alnum ++ chars "_.-")))%re.

Record dockerVolumeMetadata := mkVolume {
  dv_Name : string;
  dv_Driver : string;
  dv_Scope : string;
  dv_Labels : gmap string string;
}.

Record dockerSystemDFRow := mkDFRow { df_Type : string; df_Reclaimable : string }.

Definition label (k : string) (v : dockerVolumeMetadata) : string := default "" (dv_Labels v !! k).

(** A local volume of a run-scoped Compose project; name, labels and suffix agree. *)
Definition managed_volume (v : dockerVolumeMetadata) : bool :=
  let project := label "com.docker.compose.project" v in
  let composeVolume := label "com.docker.compose.volume" v in
  String.eqb (dv_Driver v) "local" && String.eqb (dv_Scope v) "local" &&
  MatchString managedComposeProjectPattern project &&
  negb (String.eqb (label "com.docker.compose.config-hash" v) "") &&
  negb (String.eqb (label "com.docker.compose.version" v) "") &&
  negb (String.eqb composeVolume "") &&
  MatchString dockerVolumeNamePattern (dv_Name v) &&
  String.eqb (dv_Name v) (project +:+ "_" +:+ composeVolume).

Fixpoint fresh_names (seen : gset string) (names : list string) : list string :=
  match names with
  | [] => []
  | n :: names =>
      if bool_decide (n ∈ seen) then fresh_names seen names
      else n :: fresh_names ({[n]} ∪ seen) names
  end.

Section docker.
Context `{SortSlice} `{MapRange}.
(** [json.Unmarshal] of an inspected list and of a row, and what [Sscanf("%f")] followed by
    [int64(f * float64(mult))] makes of a number. *)
Context (decodeVolumes : string -> result (list dockerVolumeMetadata)).
Context (decodeDF : string -> result dockerSystemDFRow).
Context (scale : string -> Z -> option Z).

Definition parseHumanBytes (s : string) : Z :=
  let s := TrimSpace s in
  if String.eqb s "" then 0
  else
    let '(s, mult) :=
      if HasSuffix s "GB" then (TrimSuffix s "GB", 2 ^ 30)
      else if HasSuffix s "MB" then (TrimSuffix s "MB", 2 ^ 20)
      else if HasSuffix s "kB" || HasSuffix s "KB" then (take_str (String.length s - 2) s, 2 ^ 10)
      else if HasSuffix s "B" then (TrimSuffix s "B", 1)
      else (s, 1) in
    default 0 (scale s mult).

Definition parseReclaimable (s : string) : Z :=
  foldl (fun total line =>
    match Fields (TrimSpace line) with
    | [] => total
    | f :: _ => int64 (total + parseHumanBytes f)
    end) 0 (Split "010" s).

Definition reclaimed_line (line : string) : option Z :=
  let trimmed := TrimSpace line in
  if negb (Contains trimmed "reclaimed space:") && negb (HasPrefix trimmed "Total:") then None
  else match cut_last ":" trimmed with
       | None => None
       | Some (_, rest) => Some (parseHumanBytes (TrimSpace rest))
       end.

Definition parseTotalReclaimed (s : string) : Z :=
  match omap reclaimed_line (Split "010" s) with
  | n :: _ => n
  | [] => 0
  end.

Definition dockerPrune (opts : CleanOptions) : prog cleanE Action :=
  let a := act "docker_prune" "(docker daemon)" in
  if negb (co_Execute opts) then
    out ← call (RunFn "docker" ["system"; "df"; "--format"; "{{.Reclaimable}}"]);
    mret (match out with Ok out => act_found (parseReclaimable out) a | Err _ => a end)
  else
    busy ← ensureIdle opts;
    match busy with
    | Some e => mret (act_err e a)
    | None =>
        out ← call (RunFn "docker" ["system"; "prune"; "-f"; "--volumes"]);
        mret (match out with
              | Ok out => act_done (act_freed (parseTotalReclaimed out) a)
              | Err e => act_err e a
              end)
    end.

Definition dockerPruneSafe (opts : CleanOptions) : prog cleanE Action :=
  let a := act "docker_prune_safe" "(docker unused: dangling images + all unused build cache)" in
  images ← call (RunFn "docker" ["image"; "prune"; "-f"]);
  match images with
  | Err e => mret (act_err e a)
  | Ok images =>
      cache ← call (RunFn "docker" ["builder"; "prune"; "-f"; "-a"]);
      mret (match cache with
            | Err e => act_err e a
            | Ok cache => act_done (act_freed (int64 (parseTotalReclaimed images + parseTotalReclaimed cache)) a)
            end)
  end.

Definition dockerVolumePruneSafe (opts : CleanOptions) : prog cleanE Action :=
  let a := act "docker_volume_prune" "(docker unused volumes)" in
  out ← call (RunFn "docker" ["volume"; "prune"; "-f"]);
  mret (match out with
        | Err e => act_err e a
        | Ok out => act_done (act_freed (parseTotalReclaimed out) a)
        end).

Definition managedComposeVolumeNames (payload : string) : result (list string) :=
  match decodeVolumes payload with
  | Err e => Err (Errorf_w "parse docker volume inspect: " e)
  | Ok volumes => Ok (sort_slice String.ltb (fresh_names ∅ (dv_Name <$> List.filter managed_volume volumes)))
  end.

Fixpoint volume_lines (lines : list string) : result (list string) :=
  match lines with
  | [] => Ok []
  | line :: lines =>
      let name := TrimSpace line in
      if String.eqb name "" then volume_lines lines
      else if negb (MatchString dockerVolumeNamePattern name)
      then Err (Errorf ("docker returned unsafe volume name " +:+ name))
      else match volume_lines lines with Ok names => Ok (name :: names) | Err e => Err e end
  end.

Definition listComposeVolumes : prog cleanE (result (list string)) :=
  out ← call (RunFn "docker" ["volume"; "ls"; "--filter"; "dangling=true"; "--filter";
                              "label=com.docker.compose.project"; "--format"; "{{.Name}}"]);
  mret (match out with
        | Err e => Err (Errorf_w "list compose volumes: " e)
        | Ok out => match volume_lines (Split "010" out) with
                    | Ok names => Ok (sort_slice String.ltb names)
                    | Err e => Err e
                    end
        end).

Definition inspectManagedComposeVolumes (names : list string) : prog cleanE (result (list string)) :=
  match names with
  | [] => mret (Ok [])
  | _ =>
      out ← call (RunFn "docker" (["volume"; "inspect"] ++ names));
      mret (match out with
            | Err e => Err (Errorf_w "inspect compose volumes: " e)
            | Ok out => managedComposeVolumeNames out
            end)
  end.

Fixpoint local_volumes (lines : list string) : result Z :=
  match lines with
  | [] => Err (Errorf "docker system df omitted Local Volumes")
  | line :: lines =>
      let line := TrimSpace line in
      if String.eqb line "" then local_volumes lines
      else match decodeDF line with
           | Err e => Err (Errorf_w "parse docker system df: " e)
           | Ok row =>
               if String.eqb (df_Type row) "Local Volumes" then
                 match Fields (df_Reclaimable row) with
                 | [] => Err (Errorf "docker system df returned empty local volume size")
                 | f :: _ => Ok (parseHumanBytes f)
                 end
               else local_volumes lines
           end
  end.

Definition dockerLocalVolumeReclaimable : prog cleanE (result Z) :=
  out ← call (RunFn "docker" ["system"; "df"; "--format"; "{{json .}}"]);
  mret (match out with
        | Err e => Err (Errorf_w "measure local volume reclaimable: " e)
        | Ok out => local_volumes (Split "010" out)
        end).

(** The removal of the targets and its postconditions. *)
Definition remove_volumes (targets : list string) (beforeBytes : Z) (a : Action) : prog cleanE Action :=
  out ← call (RunFn "docker" (["volume"; "rm"] ++ targets));
  match out with
  | Err e => mret (act_err (Errorf_w "remove managed compose volumes: " e) a)
  | Ok _ =>
      remaining ← listComposeVolumes;
      match remaining with
      | Err e => mret (act_err (Errorf_w "managed volume postcondition: " e) a)
      | Ok remaining =>
          match List.filter (fun t => bool_decide (t ∈ remaining)) targets with
          | t :: _ => mret (act_err (Errorf ("managed volume postcondition: " +:+ t +:+ " still exists")) a)
          | [] =>
              after ← dockerLocalVolumeReclaimable;
              match after with
              | Err e => mret (act_err (Errorf_w "managed volume byte postcondition: " e) a)
              | Ok afterBytes =>
                  if beforeBytes <? afterBytes then
                    mret (act_err (Errorf ("managed volume byte postcondition: reclaimable grew from " +:+
                            Itoa beforeBytes +:+ " to " +:+ Itoa afterBytes)) a)
                  else mret (act_done (act_freed (int64 (beforeBytes - afterBytes)) a))
              end
          end
      end
  end.

Definition dockerManagedVolumePrune (opts : CleanOptions) : prog cleanE Action :=
  let a := act "docker_managed_volumes" "(docker managed compose volumes)" in
  before ← dockerLocalVolumeReclaimable;
  match before with
  | Err e => mret (act_err e a)
  | Ok beforeBytes =>
      let a := act_found beforeBytes a in
      listed ← listComposeVolumes;
      match listed with
      | Err e => mret (act_err e a)
      | Ok listed =>
          targets ← inspectManagedComposeVolumes listed;
          match targets with
          | Err e => mret (act_err e a)
          | Ok targets =>
              let a := act_path ("(docker managed compose volumes: " +:+ Itoa (Z.of_nat (length targets)) +:+ ")") a in
              if negb (co_Execute opts) then mret a
              else match targets with
              | [] => mret (act_done a)
              | _ =>
                  busy ← ensureIdle opts;
                  match busy with
                  | Some e => mret (act_err (Errorf_w "managed volume prune idle recheck: " e) a)
                  | None =>
                      active ← call LockActiveFn;
                      match active with
                      | Err e => mret (act_err (Errorf_w "managed volume prune lock recheck: " e) a)
                      | Ok true => mret (act_err (Errorf "managed volume prune blocked by docker-heavy lock") a)
                      | Ok false => remove_volumes targets beforeBytes a
                      end
                  end
              end
          end
      end
  end.

Definition aptClean (opts : CleanOptions) : prog cleanE Action :=
  let a := act "apt_cache" "/var/cache/apt" in
  if negb (co_Execute opts) then mret a
  else
    busy ← ensureIdle opts;
    match busy with
    | Some e => mret (act_err e a)
    | None =>
        out ← call (RunFn "apt-get" ["clean"]);
        match out with
        | Err e => mret (act_err e a)
        | Ok _ =>
            out ← call (RunFn "apt-get" ["autoremove"; "-y"]);
            mret (match out with Err e => act_err e a | Ok _ => act_done a end)
        end
    end.

(** ** Run *)

Definition when {A} (b : bool) (m : prog cleanE A) : prog cleanE (list A) :=
  if b then a ← m; mret [a] else mret [].

(** The host is busy: only the reclaim that cannot hurt a live job. *)
Definition run_busy (opts : CleanOptions) : prog cleanE (list Action) :=
  safe ← when (co_DockerPrune opts) (dockerPruneSafe opts);
  volumes ← when (co_DockerPrune opts) (dockerVolumePruneSafe opts);
  if co_EmergencyBypassIdle opts then
    tmp ← scanAndMaybeDelete opts "tmp_old" (co_TmpDir opts) (co_TmpThreshold opts);
    caches ← cacheTrimActions opts;
    mret (safe ++ volumes ++ [tmp] ++ caches ++
          [act "emergency-bypass-idle" "(disk emergency: safe reclaim while busy)"])
  else mret (safe ++ volumes ++ [act deferredByHostBusy "(runner/build activity)"]).

Definition run_idle (opts : CleanOptions) : prog cleanE (list Action) :=
  tmp ← scanAndMaybeDelete opts "tmp_old" (co_TmpDir opts) (co_TmpThreshold opts);
  work ← scanWorkAndMaybeDelete opts;
  codespace ← scanCodespaceAndMaybeDelete opts;
  caches ← cacheTrimActions opts;
  docker ← when (co_DockerPrune opts) (dockerPrune opts);
  volumes ← when (co_ManagedVolumePrune opts) (dockerManagedVolumePrune opts);
  apt ← when (co_AptClean opts) (aptClean opts);
  mret ([tmp; work; codespace] ++ caches ++ docker ++ volumes ++ apt).

(** Past the lock. *)
Definition run_unlocked (opts : CleanOptions) : prog cleanE (list Action) :=
  if co_Execute opts && negb (co_SkipIdleGuard opts) then
    busy ← ensureIdle opts;
    match busy with
    | Some _ => run_busy opts
    | None => run_idle opts
    end
  else run_idle opts.

Definition Run (opts : CleanOptions) : prog cleanE (list Action) :=
  opts ← clean_applyDefaults opts;
  if co_Execute opts then
    active ← call LockActiveFn;
    match active with
    | Ok true => holder ← call LockHolderFn; mret [act deferredByDockerHeavyLock holder]
    | _ => _ ← call ReclaimStaleFn; run_unlocked opts
    end
  else run_unlocked opts.
End docker.
