(* ===== verification/CleanupSafety.v ===== *)
(** * What a cleanup may do

    Under any answers of the host: what is removed, with which evidence, and what a dry
    run, a held lock or a busy host rule out. *)

From S2P Require Import Prelude GoStrings Regex Prog Civm Idle Cachetrim CachetrimSafety Cleanup.

Local Open Scope string_scope.
Local Open Scope list_scope.
Local Open Scope Z_scope.

(** A root that is neither a top directory nor a whole home. *)
Definition safe_root (r : string) : Prop :=
  r <> "." /\ (r ∉ dangerousAbsoluteRoots) /\ ~ (HasPrefix r "/home/" = true /\ count_char "/" (TrimSlashes r) = 1).

(** ** What a run has observed *)

Record cstate := mkCState {
  cs_clear : bool;                              (* the last look found no activity, and nothing but deletes followed *)
  cs_busy : bool;                               (* some look found activity, or failed *)
  cs_lock : option bool;                        (* the last answer on the docker-heavy lock *)
  cs_walks : list (string * (list visit * err_ret));
  cs_inspect : option string;                   (* the last output of docker volume inspect *)
  cs_seen : seen;                               (* what the globs found, and the directories that Stat saw *)
}.

Definition quiet (r : result (list Activity)) : bool := match r with Ok [] => true | _ => false end.

Definition look b t := mkCState b (cs_busy t || negb b) (cs_lock t) (cs_walks t) (cs_inspect t) (cs_seen t).
Definition unclear t := mkCState false (cs_busy t) (cs_lock t) (cs_walks t) (cs_inspect t) (cs_seen t).
Definition tried_timer (e : err_ret) t :=
  mkCState false (match e with Some _ => true | None => cs_busy t end) (cs_lock t) (cs_walks t) (cs_inspect t) (cs_seen t).
Definition locked x t := mkCState (cs_clear t) (cs_busy t) x (cs_walks t) (cs_inspect t) (cs_seen t).
Definition saw root w t := mkCState false (cs_busy t) (cs_lock t) ((root, w) :: cs_walks t) (cs_inspect t) (cs_seen t).
Definition inspected x t := mkCState false (cs_busy t) (cs_lock t) (cs_walks t) x (cs_seen t).
Definition learnt x t := mkCState false (cs_busy t) (cs_lock t) (cs_walks t) (cs_inspect t) x.

Section safety.
Context `{SortSlice} `{MapRange}.
Context (decodeVolumes : string -> result (list dockerVolumeMetadata)).
Context (decodeDF : string -> result dockerSystemDFRow).
Context (scale : string -> Z -> option Z).
Context (opts : CleanOptions).

(** Nothing was active right before. *)
Definition idle_now (t : cstate) : Prop := co_SkipIdleGuard opts = true \/ cs_clear t = true.

(** The roots that are swept: the configured directory; when this is the default one, what
    the glob found. *)
Definition work_root (t : cstate) (r : string) : Prop :=
  r = co_WorkDir opts \/
  (Clean (co_WorkDir opts) = Clean DefaultWorkDir /\ globbed (cs_seen t) "/home/*/actions-runner-*/_work" r).
Definition codespace_root (t : cstate) (r : string) : Prop :=
  r = co_CodespaceDir opts \/
  (Clean (co_CodespaceDir opts) = Clean DefaultCodespaceDir /\ globbed (cs_seen t) "/home/*/codespace" r).

(** The sweeps, their roots and their thresholds. *)
Definition sweep (name : string) (threshold : Z) (r : string) (t : cstate) : Prop :=
  (name = "tmp_old" /\ threshold = co_TmpThreshold opts /\ r = co_TmpDir opts) \/
  (name = "work_old" /\ threshold = co_WorkThreshold opts /\ work_root t r) \/
  (name = "codespace_stale" /\ threshold = co_CodespaceThreshold opts /\ codespace_root t r).

(** An entry of a walk of a safe root, below it and old enough by its own time, outside
    the protected directories of the work roots. *)
Definition sweepable (name root : string) (threshold : Z) (vs : list visit) (p : string) : Prop :=
  exists v size mtime, v ∈ vs /\ vs_path v = p /\ vs_err v = None /\ vs_Info v = Ok (size, mtime) /\
    p <> root /\ mtime <= co_Now opts - threshold /\ 2 * Hour <= time_Sub (co_Now opts) mtime /\
    (name = "work_old" -> isProtectedWorkCacheDir root p = false).

Definition may_delete (p : string) (t : cstate) : Prop :=
  co_Execute opts = true /\ cs_lock t <> Some true /\
  exists name r threshold w, sweep name threshold r t /\ safe_root (Clean r) /\ (Clean r, w) ∈ cs_walks t /\
    sweepable name (Clean r) threshold (fst w) p /\
    (idle_now t \/ (co_EmergencyBypassIdle opts = true /\ (cs_busy t = true -> name = "tmp_old"))).

(** The homes whose caches are trimmed are those of the work roots. *)
Definition cache_homes (t : cstate) (homes : list string) : Prop :=
  Forall (fun h => exists r, work_root t r /\ h = Dir (Dir r)) homes.

(** How much a cache may hold: its budget, and nothing when it goes as a whole and there is
    a disk emergency. *)
Definition limit (c : Cap) : Z := if co_EmergencyBypassIdle opts && cp_WipeWhole c then 0 else cp_MaxBytes c.

(** A unit, or all, of a cache with a budget that was walked and is over its limit; in an
    emergency nothing in it was written within the in-flight floor. *)
Definition may_trim (p : string) (t : cstate) : Prop :=
  co_Execute opts = true /\ cs_lock t <> Some true /\
  exists homes c vs u, cache_homes t homes /\ budgeted (cs_seen t) homes c /\
    (cp_Path c, (vs, None)) ∈ cs_walks t /\ walk_units c vs no_units = (u, None) /\
    limit c < un_total u /\
    (co_EmergencyBypassIdle opts = true ->
       Forall (fun e => ce_mtime e <= co_Now opts - DefaultCacheInFlightFloorMinutes * Minute) (unit_entries u)) /\
    if cp_WipeWhole c then p = cp_Path c else p ∈ ce_path <$> unit_entries u.

Definition managed_target (out : string) (n : string) : Prop :=
  exists vols v, decodeVolumes out = Ok vols /\ v ∈ vols /\ managed_volume v = true /\ dv_Name v = n.

(** The commands: those that only read; the prunes of unused data; and, on an idle host,
    the system prune, apt, and the removal of managed volumes that were just inspected,
    with the lock free. *)
Definition may_run (name : string) (args : list string) (t : cstate) : Prop :=
  (name = "docker" /\
     ((exists rest, args = "system" :: "df" :: rest) \/ (exists rest, args = "volume" :: "ls" :: rest) \/
      (exists rest, args = "volume" :: "inspect" :: rest))) \/
  (co_Execute opts = true /\ cs_lock t <> Some true /\ co_DockerPrune opts = true /\ name = "docker" /\
     args ∈ [["image"; "prune"; "-f"]; ["builder"; "prune"; "-f"; "-a"]; ["volume"; "prune"; "-f"]]) \/
  (co_Execute opts = true /\ cs_lock t <> Some true /\ co_DockerPrune opts = true /\ idle_now t /\
     name = "docker" /\ args = ["system"; "prune"; "-f"; "--volumes"]) \/
  (co_Execute opts = true /\ co_AptClean opts = true /\ idle_now t /\ name = "apt-get" /\
     args ∈ [["clean"]; ["autoremove"; "-y"]]) \/
  (co_Execute opts = true /\ cs_lock t = Some false /\ co_ManagedVolumePrune opts = true /\ idle_now t /\
     name = "docker" /\ exists targets out, args = ["volume"; "rm"] ++ targets /\
       cs_inspect t = Some out /\ Forall (managed_target out) targets).

Definition ran (name : string) (args : list string) (b : result string) (t : cstate) : cstate :=
  if String.eqb name "apt-get" then t
  else match args, b with
       | "volume" :: "inspect" :: _, Ok out => inspected (Some out) t
       | _, _ => unclear t
       end.

Definition clean_spec : spec cleanE cstate := {|
  allowed B e t :=
    match e with
    | SafeDeleteFn p => may_delete p t
    | RemoveAllFn p => may_trim p t
    | RunFn name args => may_run name args t
    | ReclaimStaleFn => co_Execute opts = true /\ cs_lock t <> Some true
    | _ => True
    end;
  answers B e t :=
    match e in cleanE B return B -> cstate -> Prop with
    | WalkFn root => fun b t' => sane_walk (fst b) /\ t' = saw root b t
    | ActivityFn => fun b t' => t' = look (quiet b) t
    | ProbeTimer _ => fun b t' => t' = tried_timer b t
    | LockActiveFn => fun b t' => t' = locked (match b with Ok x => Some x | Err _ => None end) t
    | RunFn name args => fun b t' => t' = ran name args b t
    | SafeDeleteFn _ => fun _ t' => t' = t
    | GlobFn p => fun b t' => t' = learnt (mkSeen ((p, fst b) :: sn_globs (cs_seen t)) (sn_dirs (cs_seen t))) t
    | StatFn p => fun b t' =>
        t' = learnt (match b with
                     | Ok true => mkSeen (sn_globs (cs_seen t)) (p :: sn_dirs (cs_seen t))
                     | _ => cs_seen t
                     end) t
    | _ => fun _ t' => t' = unclear t
    end;
|}.
Context (Hnow : IsZero (co_Now opts) = false).
Abbreviation C := (wpp clean_spec).

(** What the steps before the docker prunes keep: the lock, and in an emergency, where
    they do not look again, what was seen of the activity; what the globs found stays. *)
Definition kept (t t' : cstate) : Prop :=
  cs_lock t' = cs_lock t /\ (co_EmergencyBypassIdle opts = true -> cs_busy t' = cs_busy t) /\ seen_le (cs_seen t) (cs_seen t').

#[local] Instance kept_preorder : PreOrder kept.
Proof.
  split; [intros t; by split_and!|]. intros t1 t2 t3 (? & E1 & ?) (? & E2 & ?). split_and!; [congruence|intros E; by rewrite E2, E1|by etrans].
Qed.

Lemma kept_sweep name threshold r t t' : kept t t' -> sweep name threshold r t -> sweep name threshold r t'.
Proof.
  intros (_ & _ & Hle) [?|[(? & ? & Hr)|(? & ? & Hr)]]; [by left|right; left|right; right]; (split_and!; [done..|]);
    (destruct Hr as [?|[? Hg]]; [by left|right; split; [done|by eapply globbed_le]]).
Qed.

Lemma kept_homes homes t t' : kept t t' -> cache_homes t homes -> cache_homes t' homes.
Proof.
  intros (_ & _ & Hle) Hh. eapply Forall_impl; [exact Hh|]. intros h (r & Hr & Eh). exists r. split; [|done].
  destruct Hr as [?|[? Hg]]; [by left|right; split; [done|by eapply globbed_le]].
Qed.

Lemma kept_free t t' : kept t t' -> cs_lock t <> Some true -> cs_lock t' <> Some true.
Proof. by intros [-> _]. Qed.

(** Only an executing run says "executed". *)
Definition act_ok (a : Action) : Prop := ac_Executed a = true -> co_Execute opts = true.

(** *** Looking *)

Lemma wpp_ensureIdle t Q :
  (forall r t', cs_lock t' = cs_lock t -> cs_walks t' = cs_walks t -> cs_inspect t' = cs_inspect t -> cs_seen t' = cs_seen t ->
     (r = None -> cs_busy t' = cs_busy t /\ (co_Execute opts = true -> idle_now t')) ->
     (r <> None -> cs_busy t' = true) -> Q r t') ->
  C (ensureIdle opts) Q t.
Proof.
  intros HQ. unfold ensureIdle. destruct (co_SkipIdleGuard opts || negb (co_Execute opts)) eqn:E.
  { apply wpp_ret, HQ; try done. intros _. split; [done|]. intros Hx. left. rewrite Hx in E. by destruct (co_SkipIdleGuard opts). }
  unfold Ensure. cbv zeta. apply wpp_bind.
  assert (forall r t', cs_lock t' = cs_lock t -> cs_walks t' = cs_walks t -> cs_inspect t' = cs_inspect t -> cs_seen t' = cs_seen t ->
    (ir_Status r = StatusIdle -> cs_busy t' = cs_busy t /\ cs_clear t' = true) ->
    (ir_Status r <> StatusIdle -> cs_busy t' = true) ->
    wpp clean_spec (match ir_Status r with
      | StatusIdle => mret None
      | StatusBusy => mret (Some (Errorf ("cleanup" +:+ " abortado: host nao esta ocioso (" +:+
                                      FormatActivities (ir_Activities r) +:+ ")")))
      | StatusUnknown => mret (Some (Errorf ("cleanup" +:+
                       " abortado: nao foi possivel provar host ocioso: " +:+ ir_Error r)))
      end) Q t') as Hend.
  { intros r t' Hl Hw Hi Hse Hidle Hbusy. destruct (ir_Status r).
    - apply wpp_ret, HQ; try done. intros _. destruct (Hidle eq_refl). split; [done|]. by right.
    - by apply wpp_ret, HQ; auto.
    - by apply wpp_ret, HQ; auto. }
  change (String.eqb (TrimSpace "cleanup") "") with false. cbv iota.
  unfold Idle.Check. apply wpp_bind, wpp_call; [done|]. intros [[|x l]|e] t1 ->.
  - destruct (_ <=? 0).
    { apply wpp_ret, Hend; try done. intros _. cbn. by rewrite orb_false_r. }
    apply wpp_bind, wpp_call; [done|]. intros [e|] t1 ->; [by apply wpp_ret, Hend|].
    apply wpp_bind, wpp_call; [done|]. intros [[|x l]|e] t1 ->; apply wpp_ret, Hend; try done; cbn; intros _;
      by rewrite ?orb_false_r, ?orb_true_r.
  - apply wpp_ret, Hend; try done. intros _. cbn. by rewrite orb_true_r.
  - apply wpp_ret, Hend; try done. intros _. cbn. by rewrite orb_true_r.
Qed.

Lemma wpp_validate root t Q :
  (forall r t', kept t t' -> cs_walks t' = cs_walks t -> match r with Ok c => safe_root c /\ c = Clean root | Err _ => True end -> Q r t') ->
  C (validateCleanupRoot root) Q t.
Proof.
  intros HQ. unfold validateCleanupRoot, CleanDir.
  destruct (String.eqb (TrimSpace root) ""); [by apply wpp_ret, HQ|]. destruct (has_nul root); [by apply wpp_ret, HQ|].
  destruct (String.eqb_spec (Clean root) "."); [by apply wpp_ret, HQ|]. remember (Clean root) as c eqn:Ec.
  destruct (IsAbs c) eqn:Habs; cbn [negb].
  2: { apply wpp_ret, HQ; try done. split; [|done]. split_and!; [done| |].
       - intros Hin. unfold dangerousAbsoluteRoots in Hin. rewrite !elem_of_cons in Hin.
         destruct Hin as [->|[->|[->|?%not_elem_of_nil]]]; done.
       - intros [Hp _]. unfold IsAbs, HasPrefix in *. destruct c as [|x c]; [done|]. cbn in *.
         destruct (ascii_dec "/" x); [by destruct c|done]. }
  destruct (bool_decide (c ∈ allowedTopLevelCleanupRoots)) eqn:Ea.
  { apply bool_decide_eq_true in Ea. apply list_elem_of_singleton in Ea. rewrite Ea in *.
    apply wpp_ret, HQ; try done. split; [|done]. split_and!; [done| |by intros [? _]].
    intros Hin. unfold dangerousAbsoluteRoots in Hin. rewrite !elem_of_cons in Hin.
    by destruct Hin as [?|[?|[?|?%not_elem_of_nil]]]. }
  destruct (bool_decide (c ∈ dangerousAbsoluteRoots)) eqn:Ed; [by apply wpp_ret, HQ|]. apply bool_decide_eq_false in Ed.
  apply wpp_bind, wpp_call; [done|]. intros home t1 ->.
  assert (forall r, match r with Ok c' => safe_root c' /\ c' = c | Err _ => True end -> Q r (unclear t)) as HQ' by (intros; by apply HQ).
  assert (HasPrefix c "/home/" && (count_char "/" (TrimSlashes c) =? 1) = false -> safe_root c) as Hsafe.
  { intros E. split_and!; [done|done|]. intros [E1 E2]. by rewrite E1, E2 in E. }
  destruct home as [h|?]; [destruct (String.eqb c (Clean h)); [by apply wpp_ret, HQ'|]|];
    destruct (_ && _); apply wpp_ret, HQ'; auto.
Qed.
(** *** Sweeps *)

Lemma wpp_dirSize p d size t Q :
  (forall n t', kept t t' -> (forall x, x ∈ cs_walks t -> x ∈ cs_walks t') -> Q n t') -> C (dirSize p d size) Q t.
Proof.
  intros HQ. unfold dirSize. destruct d; cbn [negb]; [|by apply wpp_ret, HQ].
  apply wpp_bind, wpp_call; [done|]. intros [vs err] t1 [_ ->]. apply wpp_ret, HQ; [done|]. intros x Hx. by right.
Qed.

(** The candidates of a walk may be swept. *)
Lemma wpp_scan_walk name root threshold vs0 skip vs found cs t :
  (forall v, v ∈ vs -> v ∈ vs0) -> Forall (fun c => sweepable name root threshold vs0 (dc_path c)) cs ->
  C (scan_walk opts name root threshold skip vs found cs)
    (fun x t' => kept t t' /\ (forall y, y ∈ cs_walks t -> y ∈ cs_walks t') /\
                 Forall (fun c => sweepable name root threshold vs0 (dc_path c)) (snd x)) t.
Proof.
  revert skip found cs t. induction vs as [|v vs IH]; intros skip found cs t Hvs Hcs; cbn [scan_walk].
  { apply wpp_ret. by split_and!. }
  assert (forall skip, C (scan_walk opts name root threshold skip vs found cs)
    (fun x t' => kept t t' /\ (forall y, y ∈ cs_walks t -> y ∈ cs_walks t') /\
                 Forall (fun c => sweepable name root threshold vs0 (dc_path c)) (snd x)) t) as Hc.
  { intros sk. apply IH; [|done]. intros x Hx. apply Hvs. by right. }
  destruct (below skip (vs_path v)); [apply Hc|]. destruct (vs_err v) eqn:Herr; [apply Hc|].
  destruct (String.eqb_spec (vs_path v) root) as [?|Hroot]; [apply Hc|].
  destruct (String.eqb name "work_old" && isProtectedWorkCacheDir root (vs_path v)) eqn:Hprot; [apply Hc|].
  destruct (vs_Info v) as [[size mtime]|e] eqn:Hinfo; [|apply Hc].
  destruct (stale_entry (co_Now opts) threshold mtime) eqn:Hst; cbn [negb]; [|apply Hc].
  apply wpp_bind, wpp_dirSize. intros n t1 Hk1 Hw1.
  eapply wpp_mono; [apply IH; [intros x Hx; apply Hvs; by right|]|].
  - apply Forall_app_2; [done|]. constructor; [|done]. exists v, size, mtime. unfold stale_entry in Hst. bsplit.
    split_and!; try done; [apply Hvs; by left|]. intros ->. by rewrite String.eqb_refl in Hprot.
  - intros x t' (Hk & Hw & Hx). split_and!; [by etrans|auto|done].
Qed.

Lemma wpp_delete cs a t :
  (forall c, c ∈ cs -> may_delete (dc_path c) t) -> co_Execute opts = true ->
  C (delete_candidates cs a) (fun a' t' => act_ok a' /\ t' = t) t.
Proof.
  intros Hcs Hx. revert a. induction cs as [|c cs IH]; intros a; cbn [delete_candidates].
  { apply wpp_ret. split; [by intros _|done]. }
  assert (forall a, C (delete_candidates cs a) (fun a' t' => act_ok a' /\ t' = t) t) as Hc.
  { intros a'. apply IH. intros d Hd. apply Hcs. by right. }
  apply wpp_bind, wpp_call; [apply Hcs; by left|]. intros [e|] t1 ->; [destruct (errors_Is e _)|]; apply Hc.
Qed.

Lemma wpp_scan name root threshold t :
  sweep name threshold root t -> cs_lock t <> Some true ->
  (co_EmergencyBypassIdle opts = true -> cs_busy t = true -> name = "tmp_old") ->
  C (scanAndMaybeDelete opts name root threshold) (fun a t' => act_ok a /\ kept t t') t.
Proof.
  intros Hsw Hfree Hem. unfold scanAndMaybeDelete. cbv zeta. apply wpp_bind, wpp_validate.
  intros [r|e] t1 Hk1 Hw1 Hr; [|by apply wpp_ret]. destruct Hr as [Hr ->].
  apply wpp_bind, wpp_call; [done|]. intros [vs err] t2 [_ ->].
  apply wpp_bind. eapply wpp_mono; [by apply (wpp_scan_walk name (Clean root) threshold vs)|].
  intros [found cs] t3 (Hk3 & Hw3 & Hcs). cbn [snd] in Hcs.
  assert (kept t t3) as Hk by (etrans; [exact Hk1|done]).
  destruct err as [e|]; [by apply wpp_ret|]. destruct (co_Execute opts) eqn:Hx; cbn [negb]; [|by apply wpp_ret].
  assert (forall t4, kept t t4 -> cs_walks t4 = cs_walks t3 ->
    (idle_now t4 \/ co_EmergencyBypassIdle opts = true) ->
    C (delete_candidates cs (act_found found (act_path (Clean root) (act name root))))
      (fun a t' => act_ok a /\ kept t t') t4) as Hdel.
  { intros t4 Hk4 Hw4 Hi. eapply wpp_mono; [apply wpp_delete; [|done]|by intros a t' [? ->]].
    intros c Hc. rewrite Forall_forall in Hcs. split_and!; [done|by eapply kept_free|].
    exists name, root, threshold, (vs, None). split_and!; [by eapply kept_sweep|done| |by apply Hcs|].
    - rewrite Hw4. apply Hw3. by left.
    - destruct Hi as [Hi|Hi]; [by left|]. right. split; [done|]. intros Hb. apply Hem; [done|].
      destruct Hk4 as (_ & E & _). by rewrite <- (E Hi). }
  destruct (co_EmergencyBypassIdle opts) eqn:He.
  - apply wpp_bind, wpp_ret. apply Hdel; auto.
  - apply wpp_bind, wpp_ensureIdle. intros b t4 Hl Hw _ Hse Hi _.
    assert (kept t t4) as Hk4 by (destruct Hk as (? & _ & ?); split_and!; [congruence|by rewrite He|by rewrite Hse]).
    destruct b as [e|]; [by apply wpp_ret|]. apply Hdel; [done|done|]. left. by apply (proj2 (Hi eq_refl)).
Qed.

Lemma wpp_scan_roots name roots threshold a t :
  Forall (fun r => sweep name threshold r t) roots -> cs_lock t <> Some true ->
  (co_EmergencyBypassIdle opts = true -> cs_busy t = true -> name = "tmp_old") -> act_ok a ->
  C (scan_roots opts name roots threshold a) (fun a t' => act_ok a /\ kept t t') t.
Proof.
  revert a t. induction roots as [|root roots IH]; intros a t Hsw Hfree Hem Ha; cbn [scan_roots].
  { by apply wpp_ret. }
  inversion_clear Hsw as [|? ? Hroot Hroots].
  apply wpp_bind. eapply wpp_mono; [by apply wpp_scan|]. intros part t1 [Hp Hk].
  eapply wpp_mono; [apply IH|].
  - eapply Forall_impl; [exact Hroots|]. intros r. by apply kept_sweep.
  - by eapply kept_free.
  - destruct Hk as (_ & E & _). intros Hx. rewrite (E Hx). auto.
  - unfold act_ok, add_part in *. cbn. intros [?|?]%orb_true_iff; auto.
  - intros a' t' [? ?]. split; [done|]. by etrans.
Qed.

(** The directory itself, or what the glob found in the place of the default one. *)
Definition found_root (t : cstate) (dir d pattern r : string) : Prop :=
  r = dir \/ (Clean dir = Clean d /\ globbed (cs_seen t) pattern r).

Lemma wpp_discovered dir d pattern none t :
  (forall r, r ∈ none -> r = dir) ->
  C (discovered dir d pattern none) (fun roots t' => kept t t' /\ Forall (found_root t' dir d pattern) roots) t.
Proof.
  intros Hnone. unfold discovered. destruct (String.eqb_spec (Clean dir) (Clean d)) as [Ed|]; cbn [negb].
  2: { apply wpp_ret. split; [done|]. constructor; [by left|constructor]. }
  assert (forall t', Forall (found_root t' dir d pattern) none) as Hn.
  { intros t'. apply Forall_forall. intros r Hr. left. by apply Hnone. }
  apply wpp_bind, wpp_call; [done|]. intros [m e] t1 ->.
  set (t1 := learnt _ t). assert (kept t t1) as Hk by (split_and!; [done..|apply seen_glob]).
  destruct e as [e|]; [apply wpp_ret; by split|]. destruct m as [|x m]; apply wpp_ret; (split; [done|]); [done|].
  apply Forall_forall. intros r Hr%sort_slice_elem_of. right. split; [done|]. exists (x :: m). split; [by left|done].
Qed.

Lemma wpp_scanWork t :
  cs_lock t <> Some true -> (co_EmergencyBypassIdle opts = true -> cs_busy t = false) ->
  C (scanWorkAndMaybeDelete opts) (fun a t' => act_ok a /\ kept t t') t.
Proof.
  intros Hfree Hb. unfold scanWorkAndMaybeDelete. apply wpp_bind.
  eapply wpp_mono; [apply wpp_discovered; by intros r ->%list_elem_of_singleton|]. intros roots t1 [Hk1 Hroots].
  assert (Forall (fun r => sweep "work_old" (co_WorkThreshold opts) r t1) roots) as Hsw.
  { eapply Forall_impl; [exact Hroots|]. intros r Hr. right; left. by split_and!. }
  assert (co_EmergencyBypassIdle opts = true -> cs_busy t1 = true -> "work_old" = "tmp_old") as Hem.
  { destruct Hk1 as (_ & E & _). intros Hx. rewrite (E Hx), (Hb Hx). done. }
  pose proof (kept_free _ _ Hk1 Hfree).
  destruct roots as [|r [|r' roots]]; (eapply wpp_mono; [first [by apply wpp_scan_roots|apply wpp_scan; [by inversion_clear Hsw|done..]]|]);
    intros a t' [? ?]; (split; [done|]; by etrans).
Qed.

Lemma wpp_scanCodespace t :
  cs_lock t <> Some true -> (co_EmergencyBypassIdle opts = true -> cs_busy t = false) ->
  C (scanCodespaceAndMaybeDelete opts) (fun a t' => act_ok a /\ kept t t') t.
Proof.
  intros Hfree Hb. unfold scanCodespaceAndMaybeDelete. apply wpp_bind.
  eapply wpp_mono; [apply wpp_discovered; by intros r ?%not_elem_of_nil|]. intros roots t1 [Hk1 Hroots].
  assert (Forall (fun r => sweep "codespace_stale" (co_CodespaceThreshold opts) r t1) roots) as Hsw.
  { eapply Forall_impl; [exact Hroots|]. intros r Hr. right; right. by split_and!. }
  assert (co_EmergencyBypassIdle opts = true -> cs_busy t1 = true -> "codespace_stale" = "tmp_old") as Hem.
  { destruct Hk1 as (_ & E & _). intros Hx. rewrite (E Hx), (Hb Hx). done. }
  pose proof (kept_free _ _ Hk1 Hfree).
  destruct roots as [|r [|r' roots]]; [by apply wpp_ret|..];
    (eapply wpp_mono; [first [by apply wpp_scan_roots|apply wpp_scan; [by inversion_clear Hsw|done..]]|]);
    intros a t' [? ?]; (split; [done|]; by etrans).
Qed.
(** *** Caches *)

(** What the trim has walked was walked by the cleanup. *)
Definition trim_view (c : Cap) (t0 : cstate) (s : tstate) (t : cstate) : Prop :=
  (forall w, ts_walk s = Some w -> (cp_Path c, w) ∈ cs_walks t) /\ kept t0 t.

Lemma trim_effective s : effective (trim_options opts) s = trim_options opts.
Proof. unfold effective. cbn. by rewrite Hnow. Qed.

Lemma may_trim_of homes c0 p s t0 t : let c := emergency_cap opts c0 in
  cache_homes t0 homes -> budgeted (cs_seen t0) homes c0 ->
  trim_view c t0 s t -> cs_lock t0 <> Some true -> may_remove (trim_options opts) c p s -> may_trim p t.
Proof.
  intros c Hh Hb [Hw Hk] Hfree Hm.
  assert (cp_Path c = cp_Path c0 /\ cp_PackageDepth c = cp_PackageDepth c0 /\ cp_WipeWhole c = cp_WipeWhole c0 /\ cp_MaxBytes c = limit c0)
    as (Ep & Ed & Ewhole & El) by (unfold c, emergency_cap, limit; by destruct (_ && _)). pose proof Hm as [Hx _]. apply may_remove_unit in Hm as (vs & u & Ew & Eu & Hover & Hfl & Hp).
  rewrite trim_effective in Hfl. rewrite (walk_units_ext c0 c) in Eu by done. rewrite El in Hover. rewrite Ewhole, Ep in Hp.
  split_and!; [done|by eapply kept_free|]. exists homes, c0, vs, u.
  split_and!; [by eapply kept_homes|eapply budgeted_le; [apply Hk|done]|rewrite <- Ep; by apply Hw|done|done| |done]. intros Hem. cbn in Hfl. rewrite Hem in Hfl. specialize (Hfl ltac:(done)).
  eapply Forall_impl; [exact Hfl|]. unfold in_flight. cbn. rewrite Hem. intros e He. by bsplit.
Qed.

Lemma wpp_trim homes c0 t : let c := emergency_cap opts c0 in
  cache_homes t homes -> budgeted (cs_seen t) homes c0 -> cs_lock t <> Some true ->
  C (link trim_deps (TrimByAge (trim_options opts) c))
    (fun r t' => tr_Executed r = co_Execute opts /\ kept t t') t.
Proof.
  intros c Hh Hb Hfree. assert (0 <= cp_MaxBytes c) as Hcap.
  { apply budgeted_nonneg in Hb. unfold c, emergency_cap. by destruct (_ && _). }
  eapply wpp_mono.
  - apply (wpp_link (trim_spec (trim_options opts) c) clean_spec trim_deps (trim_view c t) _
      (trimmed (trim_options opts) c) (mkTState 0 None []) t).
    + intros B e s t1 HR Ha. pose proof HR as [Hw Hk].
      destruct e; cbn [trim_deps].
      * apply wpp_bind, wpp_call; [done|]. intros [m err] t2 ->. apply wpp_ret. exists s. split; [done|]. split; [done|].
        etrans; [exact Hk|]. split_and!; [done..|apply seen_glob].
      * apply wpp_call; [done|]. intros b t2 ->. exists s. split; [done|]. split; [done|]. etrans; [exact Hk|].
        split_and!; [done..|]. destruct b as [[]|]; [apply seen_stat|done..].
      * apply wpp_call; [done|]. intros b t2 [Hs ->]. eexists. split; [done|]. cbn in Ha. subst root.
        split; [intros w [= <-]; by left|done].
      * apply wpp_call; [by eapply may_trim_of|]. intros b t2 ->. eexists. split; [done|]. done.
      * apply wpp_call; [done|]. intros b t2 ->. eexists. split; [done|]. done.
      * apply wpp_call; [done|]. intros b t2 ->. by exists s.
    + apply (wpp_TrimByAge _ _ 0 Hcap).
    + by split.
  - intros r t' (s & (_ & He & _) & _ & Hk). done.
Qed.

(** The view of [look_spec] is what the cleanup has seen. *)
Lemma wpp_caps homes t :
  C (link trim_deps (Caps homes)) (fun caps t' => Forall (budgeted (cs_seen t') homes) caps /\ kept t t') t.
Proof.
  eapply wpp_mono.
  - apply (wpp_link look_spec clean_spec trim_deps (fun s t' => s = cs_seen t' /\ kept t t') _
      (fun caps s' => seen_le (cs_seen t) s' /\ Forall (budgeted s' homes) caps) (cs_seen t) t).
    + intros B e s t1 [-> Hk] Ha. destruct e; cbn [trim_deps]; try by destruct Ha.
      * apply wpp_bind, wpp_call; [done|]. intros [m err] t2 ->. apply wpp_ret. eexists. split; [done|]. split; [done|].
        etrans; [exact Hk|]. split_and!; [done..|apply seen_glob].
      * apply wpp_call; [done|]. intros b t2 ->. eexists. split; [done|]. split; [done|]. etrans; [exact Hk|].
        split_and!; [done..|]. destruct b as [[]|]; [apply seen_stat|done..].
      * apply wpp_call; [done|]. intros b t2 ->. eexists. split; [done|]. by split.
      * apply wpp_call; [done|]. intros b t2 ->. eexists. split; [done|]. by split.
    + apply wpp_look_Caps.
    + done.
  - intros caps t' (s & [_ Hc] & -> & Hk). done.
Qed.

Lemma wpp_trim_caps homes caps t :
  cache_homes t homes -> Forall (budgeted (cs_seen t) homes) caps -> cs_lock t <> Some true ->
  C (trim_caps opts caps) (fun l t' => Forall act_ok l /\ kept t t') t.
Proof.
  revert t. induction caps as [|c caps IH]; intros t Hh Hcaps Hfree; cbn [trim_caps]; [by apply wpp_ret|].
  inversion_clear Hcaps as [|? ? Hc Hrest]. apply wpp_bind. eapply wpp_mono; [by apply (wpp_trim homes)|].
  intros r t1 [Hr Hk]. apply wpp_bind. eapply wpp_mono; [apply IH|].
  - by eapply kept_homes.
  - eapply Forall_impl; [exact Hrest|]. intros c'. apply budgeted_le, Hk.
  - by eapply kept_free.
  - intros l t2 [Hl Hk2]. apply wpp_ret. split; [|by etrans]. constructor; [|done]. unfold act_ok. cbn. by rewrite Hr.
Qed.

Lemma home_roots_sub seen roots h : h ∈ home_roots seen roots -> exists r, r ∈ roots /\ h = Dir (Dir r).
Proof.
  revert seen. induction roots as [|r roots IH]; intros seen; cbn [home_roots]; [by intros ?%not_elem_of_nil|].
  assert (forall seen, h ∈ home_roots seen roots -> exists r', r' ∈ r :: roots /\ h = Dir (Dir r')) as Hrest.
  { intros seen' (r' & ? & ?)%IH. exists r'. by split; [right|]. }
  destruct (_ || _); [apply Hrest|]. destruct (bool_decide _); [apply Hrest|].
  intros [->|Hin]%elem_of_cons; [exists r; by split; [left|]|by apply Hrest in Hin].
Qed.

Lemma wpp_cacheTrim t :
  cs_lock t <> Some true -> C (cacheTrimActions opts) (fun l t' => Forall act_ok l /\ kept t t') t.
Proof.
  intros Hfree. unfold cacheTrimActions, cacheHomeRoots. apply wpp_bind, wpp_bind.
  eapply wpp_mono; [apply wpp_discovered; by intros r ->%list_elem_of_singleton|]. intros roots t1 [Hk1 Hroots].
  apply wpp_ret. apply wpp_bind.
  eapply wpp_mono; [apply wpp_caps|]. intros caps t2 [Hc Hk2].
  eapply wpp_mono; [apply (wpp_trim_caps (home_roots ∅ roots)); [|done|]|].
  - apply (kept_homes _ t1); [done|]. apply Forall_forall. intros h (r & Hr & ->)%home_roots_sub.
    rewrite Forall_forall in Hroots. exists r. split; [by apply Hroots|done].
  - eapply kept_free; [|exact Hfree]. by exact (transitivity Hk1 Hk2).
  - intros l t3 [Hl Hk3]. split; [done|]. etrans; [exact Hk1|]. by etrans.
Qed.

(** *** Docker and apt *)

Lemma act_ok_exec a : co_Execute opts = true -> act_ok a.
Proof. by intros ? _. Qed.

Lemma act_ok_idle a : ac_Executed a = false -> act_ok a.
Proof. unfold act_ok. by intros ->. Qed.

Lemma safe_prune args t :
  co_Execute opts = true -> co_DockerPrune opts = true -> cs_lock t <> Some true ->
  args ∈ [["image"; "prune"; "-f"]; ["builder"; "prune"; "-f"; "-a"]; ["volume"; "prune"; "-f"]] ->
  may_run "docker" args t.
Proof. intros. right; left. by split_and!. Qed.

Lemma wpp_dockerPruneSafe t :
  co_Execute opts = true -> co_DockerPrune opts = true -> cs_lock t <> Some true ->
  C (dockerPruneSafe scale opts) (fun a t' => act_ok a /\ kept t t') t.
Proof.
  intros Hx Hd Hfree. unfold dockerPruneSafe. cbv zeta.
  apply wpp_bind, wpp_call; [apply safe_prune; [done..|set_solver]|].
  intros [out|e] t1 ->; [|apply wpp_ret; split; [by apply act_ok_exec|done]].
  apply wpp_bind, wpp_call; [apply safe_prune; [done..|set_solver]|].
  intros r t1 ->; apply wpp_ret; split; [by apply act_ok_exec|done].
Qed.

Lemma wpp_dockerVolumePruneSafe t :
  co_Execute opts = true -> co_DockerPrune opts = true -> cs_lock t <> Some true ->
  C (dockerVolumePruneSafe scale opts) (fun a t' => act_ok a /\ kept t t') t.
Proof.
  intros Hx Hd Hfree. unfold dockerVolumePruneSafe. cbv zeta.
  apply wpp_bind, wpp_call; [apply safe_prune; [done..|set_solver]|].
  intros r t1 ->; apply wpp_ret; split; [by apply act_ok_exec|done].
Qed.

Lemma wpp_dockerPrune t :
  co_DockerPrune opts = true -> cs_lock t <> Some true ->
  C (dockerPrune scale opts) (fun a t' => act_ok a /\ cs_lock t' = cs_lock t) t.
Proof.
  intros Hd Hfree. unfold dockerPrune. cbv zeta. destruct (co_Execute opts) eqn:Hx; cbn [negb].
  - apply wpp_bind, wpp_ensureIdle. intros [e|] t1 Hl _ _ _ Hi _; [apply wpp_ret; split; [by apply act_ok_exec|done]|].
    apply wpp_bind, wpp_call.
    + right; right; left. split_and!; try done; [by rewrite Hl|]. by apply (proj2 (Hi eq_refl)).
    + intros r t2 ->. apply wpp_ret. split; [by apply act_ok_exec|done].
  - apply wpp_bind, wpp_call; [left; split; [done|]; left; by eexists|].
    intros [out|e] t1 ->; apply wpp_ret; by split; [apply act_ok_idle|].
Qed.

Lemma wpp_reclaimable t Q :
  (forall r t', cs_lock t' = cs_lock t -> cs_inspect t' = cs_inspect t -> Q r t') ->
  C (dockerLocalVolumeReclaimable decodeDF scale) Q t.
Proof.
  intros HQ. apply wpp_bind, wpp_call; [left; split; [done|]; left; by eexists|].
  intros r t1 ->. by apply wpp_ret, HQ.
Qed.

Lemma wpp_listVolumes t Q :
  (forall r t', cs_lock t' = cs_lock t -> cs_inspect t' = cs_inspect t -> Q r t') -> C listComposeVolumes Q t.
Proof.
  intros HQ. apply wpp_bind, wpp_call; [left; split; [done|]; right; left; by eexists|].
  intros r t1 ->. by apply wpp_ret, HQ.
Qed.

Lemma fresh_names_sub seen l n : n ∈ fresh_names seen l -> n ∈ l.
Proof.
  revert seen. induction l as [|x l IH]; intros seen; cbn; [done|]. destruct (bool_decide _).
  - intros ?%IH. by right.
  - intros [->|?%IH]%elem_of_cons; [by left|by right].
Qed.

(** The names that are inspected are those of managed volumes. *)
Lemma managed_names out names :
  managedComposeVolumeNames decodeVolumes out = Ok names -> Forall (managed_target out) names.
Proof.
  unfold managedComposeVolumeNames. destruct (decodeVolumes out) as [vols|e] eqn:Hd; [|done]. intros [= <-].
  apply Forall_forall. intros n. rewrite sort_slice_elem_of. intros (v & -> & Hv)%fresh_names_sub%list_elem_of_fmap.
  apply list_elem_of_In, filter_In in Hv as [Hv Hm]. exists vols, v. split_and!; try done. by apply list_elem_of_In.
Qed.

Lemma wpp_inspect names t Q :
  (forall r t', cs_lock t' = cs_lock t ->
     match r with Ok ts => ts = [] \/ exists out, cs_inspect t' = Some out /\ Forall (managed_target out) ts | Err _ => True end ->
     Q r t') ->
  C (inspectManagedComposeVolumes decodeVolumes names) Q t.
Proof.
  intros HQ. destruct names as [|n names]; [apply wpp_ret, HQ; [done|by left]|].
  apply wpp_bind, wpp_call; [left; split; [done|]; right; right; by eexists|].
  intros [out|e] t1 ->; apply wpp_ret, HQ; try done. destruct (managedComposeVolumeNames _ _) eqn:E; [|done].
  right. exists out. split; [done|]. by apply managed_names.
Qed.

Lemma wpp_remove_volumes targets before a t :
  co_Execute opts = true ->
  may_run "docker" (["volume"; "rm"] ++ targets) t ->
  C (remove_volumes decodeDF scale targets before a) (fun a _ => act_ok a) t.
Proof.
  intros Hx Hrun. unfold remove_volumes. apply wpp_bind, wpp_call; [done|].
  intros [out|e] t1 ->; [|by apply wpp_ret, act_ok_exec].
  apply wpp_bind, wpp_listVolumes. intros [rem|e] t2 _ _; [|by apply wpp_ret, act_ok_exec].
  destruct (List.filter _ targets); [|by apply wpp_ret, act_ok_exec].
  apply wpp_bind, wpp_reclaimable. intros [after|e] t3 _ _; [|by apply wpp_ret, act_ok_exec].
  destruct (_ <? _); by apply wpp_ret, act_ok_exec.
Qed.

Lemma wpp_managed t :
  co_ManagedVolumePrune opts = true ->
  C (dockerManagedVolumePrune decodeVolumes decodeDF scale opts) (fun a _ => act_ok a) t.
Proof.
  intros Hm. unfold dockerManagedVolumePrune. cbv zeta.
  apply wpp_bind, wpp_reclaimable. intros [before|e] t1 _ _; [|by apply wpp_ret, act_ok_idle].
  apply wpp_bind, wpp_listVolumes. intros [listed|e] t2 _ _; [|by apply wpp_ret, act_ok_idle].
  apply wpp_bind, wpp_inspect. intros [targets|e] t3 _ Ht; [|by apply wpp_ret, act_ok_idle].
  destruct (co_Execute opts) eqn:Hx; cbn [negb]; [|by apply wpp_ret, act_ok_idle].
  destruct targets as [|x targets]; [by apply wpp_ret, act_ok_exec|]. destruct Ht as [?|(out & Ho & Hall)]; [done|].
  apply wpp_bind, wpp_ensureIdle. intros [e|] t4 _ _ Hins _ Hi _; [by apply wpp_ret, act_ok_exec|].
  apply wpp_bind, wpp_call; [done|]. intros [[]|e] t5 ->; [by apply wpp_ret, act_ok_exec| |by apply wpp_ret, act_ok_exec].
  apply wpp_remove_volumes; [done|]. do 4 right. split_and!; try done; [by apply (proj2 (Hi eq_refl))|].
  exists (x :: targets), out. split_and!; [done| |done]. cbn. congruence.
Qed.

Lemma wpp_apt t : co_AptClean opts = true -> C (aptClean opts) (fun a _ => act_ok a) t.
Proof.
  intros Ha. unfold aptClean. cbv zeta. destruct (co_Execute opts) eqn:Hx; cbn [negb]; [|by apply wpp_ret, act_ok_idle].
  apply wpp_bind, wpp_ensureIdle. intros [e|] t1 _ _ _ _ Hi _; [by apply wpp_ret, act_ok_exec|].
  destruct (Hi eq_refl) as [_ Hidle]. specialize (Hidle Hx).
  assert (forall args, args ∈ [["clean"]; ["autoremove"; "-y"]] -> may_run "apt-get" args t1) as Hrun.
  { intros args Hin. do 3 right. left. by split_and!. }
  apply wpp_bind, wpp_call; [apply Hrun; set_solver|]. intros [out|e] t2 ->; [|by apply wpp_ret, act_ok_exec].
  apply wpp_bind, wpp_call; [apply Hrun; set_solver|]. intros r t3 ->. by apply wpp_ret, act_ok_exec.
Qed.

(** *** The run *)

Lemma wpp_when {A} b (m : prog cleanE A) (P : A -> Prop) (K : cstate -> Prop) t :
  (b = true -> C m (fun a t' => P a /\ K t') t) -> (b = false -> K t) ->
  C (when b m) (fun l t' => Forall P l /\ K t') t.
Proof.
  intros Hm Hk. unfold when. destruct b; [|apply wpp_ret; split; [constructor|auto]].
  apply wpp_bind. eapply wpp_mono; [by apply Hm|]. intros a t' [? ?]. apply wpp_ret. split; [|done]. by constructor.
Qed.

Lemma wpp_run_busy t :
  co_Execute opts = true -> cs_lock t <> Some true -> C (run_busy scale opts) (fun l _ => Forall act_ok l) t.
Proof.
  intros Hx Hfree. unfold run_busy. apply wpp_bind.
  eapply wpp_mono; [apply (wpp_when _ _ act_ok (kept t)); [intros; by apply wpp_dockerPruneSafe|done]|].
  intros l1 t1 [H1 Hk1]. apply wpp_bind.
  eapply wpp_mono; [apply (wpp_when _ _ act_ok (kept t1)); [intros; apply wpp_dockerVolumePruneSafe; try done; by eapply kept_free|done]|].
  intros l2 t2 [H2' Hk2]. assert (kept t t2) as Hk by (by etrans).
  assert (forall n p, act_ok (act n p)) by (intros; by apply act_ok_idle).
  destruct (co_EmergencyBypassIdle opts); [|apply wpp_ret; apply Forall_app_2; [done|]; apply Forall_app_2; [done|]; by constructor].
  apply wpp_bind. eapply wpp_mono; [apply wpp_scan; [by left|by eapply kept_free|done]|]. intros tmp t3 [Ht Hk3].
  apply wpp_bind. eapply wpp_mono; [apply wpp_cacheTrim; eapply kept_free; [|exact Hfree]; by etrans|].
  intros caches t4 [Hc _]. apply wpp_ret. rewrite !Forall_app. split_and!; try done; by constructor.
Qed.

Lemma wpp_run_idle t :
  cs_lock t <> Some true -> (co_EmergencyBypassIdle opts = true -> cs_busy t = false) ->
  C (run_idle decodeVolumes decodeDF scale opts) (fun l _ => Forall act_ok l) t.
Proof.
  intros Hfree Hb. unfold run_idle. apply wpp_bind.
  eapply wpp_mono; [apply wpp_scan; [by left|done|by intros _ _]|]. intros tmp t1 [Ht Hk1].
  assert (forall t', kept t t' -> cs_lock t' <> Some true /\ (co_EmergencyBypassIdle opts = true -> cs_busy t' = false)) as Hinv.
  { intros t' (El & Eb & _). split; [by rewrite El|]. intros E. rewrite (Eb E). auto. }
  apply wpp_bind. eapply wpp_mono; [by apply wpp_scanWork; apply Hinv|]. intros work t2 [Hw Hk2].
  assert (kept t t2) as Hk2' by (by etrans).
  apply wpp_bind. eapply wpp_mono; [by apply wpp_scanCodespace; apply Hinv|]. intros cs t3 [Hcs Hk3].
  assert (kept t t3) as Hk3' by (by etrans).
  apply wpp_bind. eapply wpp_mono; [by apply wpp_cacheTrim, Hinv|]. intros caches t4 [Hc Hk4].
  assert (kept t t4) as Hk4' by (by etrans). destruct (Hinv _ Hk4') as [Hf4 _].
  apply wpp_bind. eapply wpp_mono; [apply (wpp_when _ _ act_ok (fun _ => True)); [|done]|].
  { intros Hd. eapply wpp_mono; [by apply wpp_dockerPrune|]. by intros a t' [? _]. }
  intros docker t5 [Hdk _]. apply wpp_bind.
  eapply wpp_mono; [apply (wpp_when _ _ act_ok (fun _ => True)); [|done]|].
  { intros Hm. eapply wpp_mono; [by apply wpp_managed|]. by intros. }
  intros vols t6 [Hv _]. apply wpp_bind. eapply wpp_mono; [apply (wpp_when _ _ act_ok (fun _ => True)); [|done]|].
  { intros Hm. eapply wpp_mono; [by apply wpp_apt|]. by intros. }
  intros apt t7 [Ha _]. apply wpp_ret. rewrite !Forall_app. split_and!; try done. by repeat constructor.
Qed.
Lemma wpp_run_unlocked t :
  cs_lock t <> Some true -> cs_busy t = false ->
  C (run_unlocked decodeVolumes decodeDF scale opts) (fun l _ => Forall act_ok l) t.
Proof.
  intros Hfree Hb. unfold run_unlocked. destruct (co_Execute opts && negb _) eqn:E; [|by apply wpp_run_idle].
  apply wpp_bind, wpp_ensureIdle. intros [e|] t1 Hl _ _ _ Hi _.
  - apply wpp_run_busy; [by destruct (co_Execute opts)|by rewrite Hl].
  - destruct (Hi eq_refl) as [Eb _]. apply wpp_run_idle; [by rewrite Hl|]. intros _. by rewrite Eb.
Qed.
End safety.

Definition clean_start : cstate := mkCState false false None [] None (mkSeen [] []).


(** * Concrete cleanups

    A small host on which [Run] is evaluated: two cleanups that remove what a live job
    uses, the guard that accepts almost every path, and the witness of the contract. *)

Local Open Scope string_scope.
Local Open Scope list_scope.
Local Open Scope Z_scope.

Record host := mkHost {
  h_walks : gmap string (list visit);
  h_globs : gmap string (list string);
  h_looks : list (list Activity);    (* what the next looks at the processes find *)
  h_deleted : list string;           (* by the sweeps *)
  h_trimmed : list string;           (* by the cache trim *)
  h_commands : list (list string);
}.

Definition set_looks l h := mkHost (h_walks h) (h_globs h) l (h_deleted h) (h_trimmed h) (h_commands h).
Definition delete_path p h := mkHost (h_walks h) (h_globs h) (h_looks h) (h_deleted h ++ [p]) (h_trimmed h) (h_commands h).
Definition trim_path p h := mkHost (h_walks h) (h_globs h) (h_looks h) (h_deleted h) (h_trimmed h ++ [p]) (h_commands h).
Definition run_command c h := mkHost (h_walks h) (h_globs h) (h_looks h) (h_deleted h) (h_trimmed h) (h_commands h ++ [c]).

Definition on_host B (e : cleanE B) : St host B :=
  match e in cleanE B return St host B with
  | WalkFn root => fun h => ((default [] (h_walks h !! root), None), h)
  | StatFn p => fun h => (Ok (bool_decide (is_Some (h_walks h !! p))), h)
  | GlobFn p => fun h => ((default [] (h_globs h !! p), None), h)
  | RunFn name args => fun h => (Ok "", run_command (name :: args) h)
  | ActivityFn => fun h => match h_looks h with
                           | x :: l => (Ok x, set_looks l h)
                           | [] => (Ok [], h)
                           end
  | ProbeTimer _ => fun h => (None, h)
  | RemoveAllFn p => fun h => (None, trim_path p h)
  | LockActiveFn => fun h => (Ok false, h)
  | ReclaimStaleFn => fun h => (Ok false, h)
  | LockHolderFn => fun h => ("", h)
  | SafeDeleteFn p => fun h => (None, delete_path p h)
  | UserHomeDir => fun h => (Ok "/root", h)
  | TimeNow => fun h => (1, h)
  | Getenv _ => fun h => ("/root", h)
  end.

Definition no_volumes (s : string) : result (list dockerVolumeMetadata) := Ok [].
Definition no_rows (s : string) : result dockerSystemDFRow := Ok (mkDFRow "" "").
Definition no_scale (s : string) (mult : Z) : option Z := None.

Definition run_on (opts : CleanOptions) (h : host) : list Action * host :=
  interp on_host (Run (H:=SortSlice_insertion) (H0:=MapRange_to_list) no_volumes no_rows no_scale opts) h.

Definition noon : Z := 100 * Hour.
Definition demo_clean (emergency : bool) : CleanOptions :=
  mkCleanOptions true "/home/ci/actions-runner-1/_work" DefaultTmpDir "/srv/codespace" Hour (24 * Hour) (168 * Hour)
    false false false false emergency (2 * Second) noon.

Definition worker : list Activity := [mkActivity 7 "bin/Runner.Worker"].

(** A job keeps appending to a log in a directory that it created three hours ago; the
    time of a directory only changes with its entries. *)
Definition live_log : list visit :=
  [mkVisit "/tmp" None true (Ok (0, noon));
   mkVisit "/tmp/e2e" None true (Ok (0, noon - 3 * Hour));
   mkVisit "/tmp/e2e/server.log" None false (Ok (500, noon - Second))].

Definition busy_host : host :=
  mkHost {[ "/tmp" := live_log; "/tmp/e2e" := drop 1 live_log ]} ∅ (replicate 20 worker) [] [] [].

(** In a disk emergency a sweep deletes what a live job is writing.  The age gate looks
    at the time of the directory alone: a directory of a running job that got its entries
    more than the threshold and two hours ago is deleted with the file that was written a
    second ago, although every look at the processes finds the worker of the job. *)
Theorem live_file_is_swept :
  let '(out, h) := run_on (demo_clean true) busy_host in
  h_deleted h = ["/tmp/e2e"] /\ existsb (fun v => String.eqb (vs_path v) "/tmp/e2e/server.log" &&
    match vs_Info v with Ok (_, mtime) => noon - 2 * Hour <? mtime | Err _ => false end) live_log = true.
Proof. vm_compute. split; reflexivity. Qed.

(** A yarn cache over its budget whose only package is being written. *)
Definition fresh_package : list visit :=
  [mkVisit "/home/ci/.cache/yarn" None true (Ok (0, noon));
   mkVisit "/home/ci/.cache/yarn/v6/react/index.js" None false (Ok (13 * giB, noon - Second))].

(** Idle at the opening check, busy from then on. *)
Definition turning_host : host :=
  mkHost {[ "/home/ci/.cache/yarn" := fresh_package ]} {[ "/home/ci/.cache/yarn*" := ["/home/ci/.cache/yarn"] ]}
    ([[]; []] ++ replicate 20 worker) [] [] [].

(** The cache trim does not look again.  The host is idle at the opening check and busy
    at the recheck of every sweep, which therefore gives up; the cache trim that follows
    has no recheck and, outside an emergency, no in-flight floor, and its second pass
    removes the package that was written a second ago. *)
Theorem cache_is_trimmed_under_a_live_job :
  let '(out, h) := run_on (demo_clean false) turning_host in
  (fun a => match ac_Err a with Some _ => true | None => false end) <$> take 3 out = [true; true; true] /\
  h_deleted h = [] /\ h_trimmed h = ["/home/ci/.cache/yarn/v6/react"].
Proof. vm_compute. split_and!; reflexivity. Qed.

(** ** The guard of the deletes *)

(** The guard of the privileged deletes is vacuous.  It takes the parent of the path for
    the cleanup root, so that its test for a direct child never fails and all it refuses is
    what lies directly in a top directory or in a home: the files of /etc pass. *)
Theorem guard_accepts_any_parent {W} (h : forall B, cleanE B -> St W B) path w :
  (let '(v, w') := interp h (validateCleanupRoot (Dir (Clean path))) w in
   exists e, interp h (cleanupChildGuard path) w = (e, w') /\ (e = None <-> exists root, v = Ok root)) /\
  fst (interp on_host (cleanupChildGuard "/etc/shadow") busy_host) = None.
Proof.
  split; [|vm_compute; reflexivity]. unfold cleanupChildGuard. cbv zeta. rewrite interp_bind.
  destruct (interp h (validateCleanupRoot _) w) as [v w']. rewrite String.eqb_refl. cbn [negb orb].
  destruct (String.eqb_spec (Base (Clean path)) "") as [E|_]; [by apply Base_nonempty in E|].
  destruct v; cbn; eexists; (split; [done|]); naive_solver.
Qed.

