(* ===== verification/Hostdisk.v ===== *)
(** * internal/hostdisk: the volume of the Hyper-V host, as delivered to the guest

    Evaluation of the snapshot of the host volume, fail-safe on everything that is not
    provably fresh, and the detection of a phantom reclaim task.  JSON decoding and
    [time.Parse] are parameters. *)

From S2P Require Import Prelude GoStrings Prog Civm Idle Cachetrim CachetrimSafety Cleanup CleanupSafety.

Local Open Scope string_scope.
Local Open Scope list_scope.
Local Open Scope Z_scope.

Definition levelOK : string := "ok".
Definition levelWarn : string := "warn".
Definition levelCrit : string := "crit".
Definition deliveryFailed : string := "failed".
Definition reasonFileAbsent : string := "host metrics file absent; delivery not yet observed on guest".
Definition reasonStale : string := "host metrics stale; freshness not guaranteed".
Definition reasonDeliveryFailed : string :=
  "host metrics delivery failed; host-only snapshot, guest values unavailable".
Definition reasonReadFailed : string := "host metrics read failed".
Definition reasonParseFailed : string := "host metrics parse failed".
Definition reasonTimestampParse : string := "host metrics timestamp not RFC3339".
Definition reasonMissingTime : string := "host metrics missing timestamp".

Record HostMetrics := mkHostMetrics {
  hm_VFreeGB : Z;
  hm_VSizeGB : Z;
  hm_VHDXFileSizeGB : Z;
  hm_VHDXMinSizeGB : Z;
  hm_VHDXMaxSizeGB : Z;
  hm_VHDXBlockSizeBytes : Z;
  hm_GuestFreeGB : Z;
  hm_GapGB : Z;
  hm_Timestamp : string;
  hm_DeliveryStatus : string;
}.

Definition no_metrics : HostMetrics := mkHostMetrics 0 0 0 0 0 0 0 0 "" "".

Record HostReport := mkHostReport {
  hr_Metrics : HostMetrics;
  hr_Stale : bool;
  hr_Level : string;
  hr_FreeHeadroomViolation : bool;
  hr_AllocationHeadroomViolation : bool;
  hr_Reason : string;
}.

Record HostOptions := mkHostOptions {
  ho_Path : string;
  ho_MaxAge : Z;
  ho_WarnFreeGB : Z;
  ho_CritFreeGB : Z;
  ho_HeadroomGB : Z;
}.

Inductive hostE : Type -> Type :=
  | ReadFileFn (path : string) : hostE (result string)
  | NowFn : hostE Z.

Definition host_applyDefaults (o : HostOptions) : HostOptions :=
  mkHostOptions (if String.eqb (ho_Path o) "" then DefaultHostMetricsPath else ho_Path o)
    (if ho_MaxAge o <=? 0 then DefaultHostMetricsMaxAgeMinutes * Minute else ho_MaxAge o)
    (if ho_WarnFreeGB o =? 0 then DefaultHostVolumeWarnFreeGB else ho_WarnFreeGB o)
    (if ho_CritFreeGB o =? 0 then DefaultHostVolumeCritFreeGB else ho_CritFreeGB o)
    (if ho_HeadroomGB o =? 0 then DefaultHostVolumeHeadroomGB else ho_HeadroomGB o).

Definition levelByFree (freeGB : Z) (opts : HostOptions) : string :=
  if freeGB <=? ho_CritFreeGB opts then levelCrit
  else if freeGB <=? ho_WarnFreeGB opts then levelWarn
  else levelOK.

Definition staleReport (m : HostMetrics) (reason : string) : HostReport :=
  mkHostReport m true levelCrit false false reason.

Definition free_reason (m : HostMetrics) (opts : HostOptions) (level : string) : string :=
  if String.eqb level levelCrit then
    "v_free_gb=" +:+ Itoa (hm_VFreeGB m) +:+ " below crit floor " +:+ Itoa (ho_CritFreeGB opts) +:+ "GB"
  else if String.eqb level levelWarn then
    "v_free_gb=" +:+ Itoa (hm_VFreeGB m) +:+ " below warn floor " +:+ Itoa (ho_WarnFreeGB opts) +:+ "GB"
  else "".

Section check.
Context (decodeMetrics : string -> result HostMetrics) (parseRFC3339 : string -> option Z).

Definition evaluateFreshness (m : HostMetrics) (opts : HostOptions) : prog hostE (bool * string) :=
  if String.eqb (hm_Timestamp m) "" then mret (true, reasonMissingTime)
  else match parseRFC3339 (hm_Timestamp m) with
       | None => mret (true, reasonTimestampParse)
       | Some ts =>
           now ← call NowFn;
           mret (if ho_MaxAge opts <? time_Sub now ts then (true, reasonStale) else (false, ""))
       end.

(** The level and the reason. *)
Definition host_level (m : HostMetrics) (opts : HostOptions) (stale : bool) (staleReason : string) : string * string :=
  if stale then (levelCrit, staleReason)
  else if String.eqb (hm_DeliveryStatus m) deliveryFailed then (levelCrit, reasonDeliveryFailed)
  else let level := levelByFree (hm_VFreeGB m) opts in (level, free_reason m opts level).

Definition host_Check (opts : HostOptions) : prog hostE (HostReport * err_ret) :=
  let opts := host_applyDefaults opts in
  data ← call (ReadFileFn (ho_Path opts));
  match data with
  | Err e =>
      if errors_Is e ErrNotExist then mret (staleReport no_metrics reasonFileAbsent, None)
      else mret (staleReport no_metrics reasonReadFailed,
                 Some (Errorf_w ("read host metrics " +:+ ho_Path opts +:+ ": ") e))
  | Ok data =>
      match decodeMetrics data with
      | Err e => mret (staleReport no_metrics reasonParseFailed,
                       Some (Errorf_w ("parse host metrics " +:+ ho_Path opts +:+ ": ") e))
      | Ok m =>
          '(stale, staleReason) ← evaluateFreshness m opts;
          let '(level, reason) := host_level m opts stale staleReason in
          mret (mkHostReport m stale level (hm_VFreeGB m <? ho_HeadroomGB opts)
                  (int64 (hm_VSizeGB m - hm_VHDXMaxSizeGB m) <? ho_HeadroomGB opts) reason, None)
      end
  end.
End check.

Definition WantsCleanup (r : HostReport) : bool :=
  String.eqb (hr_Level r) levelWarn || String.eqb (hr_Level r) levelCrit.

Definition Blocks (r : HostReport) : bool := String.eqb (hr_Level r) levelCrit && negb (hr_Stale r).

Definition IsPhantomReclaim (taskRunning scriptProcessAlive reclaimLockHeld : bool) : bool :=
  taskRunning && negb scriptProcessAlive && negb reclaimLockHeld.

(** ** Fail-safe evaluation *)

Record hstate := mkHState { hs_data : option (result string); hs_now : option Z }.

Definition host_spec (path : string) : spec hostE hstate := {|
  allowed B e s := match e with ReadFileFn p => p = path | NowFn => True end;
  answers B e s :=
    match e in hostE B return B -> hstate -> Prop with
    | ReadFileFn _ => fun b s' => s' = mkHState (Some b) (hs_now s)
    | NowFn => fun b s' => s' = mkHState (hs_data s) (Some b)
    end;
|}.

Section facts.
Context (decodeMetrics : string -> result HostMetrics) (parseRFC3339 : string -> option Z) (opts0 : HostOptions).
Abbreviation opts := (host_applyDefaults opts0).

(** The snapshot was read and decoded, and is not older than [MaxAge]. *)
Definition fresh (s : hstate) (m : HostMetrics) : Prop :=
  exists data ts now, hs_data s = Some (Ok data) /\ decodeMetrics data = Ok m /\
    parseRFC3339 (hm_Timestamp m) = Some ts /\ hs_now s = Some now /\ time_Sub now ts <= ho_MaxAge opts.

Lemma wpp_host_Check s :
  wpp (host_spec (ho_Path opts)) (host_Check decodeMetrics parseRFC3339 opts0)
    (fun '(r, err) s' =>
       (hr_Stale r = true -> hr_Level r = levelCrit) /\
       (hr_Stale r = false -> err = None /\ fresh s' (hr_Metrics r) /\
          hr_Level r = (if String.eqb (hm_DeliveryStatus (hr_Metrics r)) deliveryFailed then levelCrit
                        else levelByFree (hm_VFreeGB (hr_Metrics r)) opts) /\
          hr_FreeHeadroomViolation r = (hm_VFreeGB (hr_Metrics r) <? ho_HeadroomGB opts))) s.
Proof.
  unfold host_Check. cbv zeta. apply wpp_bind, wpp_call; [done|]. intros [data|e] s1 ->.
  2: { destruct (errors_Is e _); by apply wpp_ret. }
  destruct (decodeMetrics data) as [m|e] eqn:Hm; [|by apply wpp_ret]. unfold evaluateFreshness.
  destruct (String.eqb (hm_Timestamp m) ""); [by apply wpp_bind, wpp_ret, wpp_ret|].
  destruct (parseRFC3339 (hm_Timestamp m)) as [ts|] eqn:Hts; [|by apply wpp_bind, wpp_ret, wpp_ret].
  apply wpp_bind, wpp_bind, wpp_call; [done|]. intros now s2 ->. apply wpp_ret.
  destruct (ho_MaxAge opts <? time_Sub now ts) eqn:Hage; [by apply wpp_ret|]. bsplit. unfold host_level.
  assert (fresh (mkHState (Some (Ok data)) (Some now)) m) as Hf by (exists data, ts, now; by split_and!).
  destruct (String.eqb (hm_DeliveryStatus m) deliveryFailed) eqn:Hd; apply wpp_ret; cbn; rewrite Hd; by split.
Qed.
End facts.

Lemma levelByFree_crit free opts : levelByFree free opts = levelCrit <-> free <= ho_CritFreeGB opts.
Proof.
  unfold levelByFree. destruct (_ <=? ho_CritFreeGB opts) eqn:E; bsplit; [done|].
  destruct (_ <=? ho_WarnFreeGB opts); (split; [done|lia]).
Qed.

Lemma levelByFree_ok free opts :
  levelByFree free opts = levelOK <-> ho_CritFreeGB opts < free /\ ho_WarnFreeGB opts < free.
Proof.
  unfold levelByFree. destruct (_ <=? ho_CritFreeGB opts) eqn:E; bsplit; [split; [done|lia]|].
  destruct (_ <=? ho_WarnFreeGB opts) eqn:E'; bsplit; (split; [done|lia]) || (split; [lia|done]).
Qed.

Lemma levelByFree_level free opts :
  levelByFree free opts = levelOK \/ levelByFree free opts = levelWarn \/ levelByFree free opts = levelCrit.
Proof. unfold levelByFree. repeat case_match; auto. Qed.

(** The verdict on the host volume fails safe, whatever is delivered.  It is "ok", and
    no cleanup is wanted, only on a snapshot that was read, decoded and not older than
    [MaxAge], whose delivery did not fail and whose free space is above both floors.  A job
    is blocked exactly on such a fresh snapshot that either has a failed delivery or free
    space at the critical floor; never on a missing, unreadable or old one.  An error is
    returned only together with a stale verdict. *)
Theorem host_verdict_fails_safe decodeMetrics parseRFC3339 opts s :
  let o := host_applyDefaults opts in
  wpp (host_spec (ho_Path o)) (host_Check decodeMetrics parseRFC3339 opts)
    (fun '(r, err) s' =>
       (WantsCleanup r = false <->
          hr_Stale r = false /\ hm_DeliveryStatus (hr_Metrics r) <> deliveryFailed /\
          ho_CritFreeGB o < hm_VFreeGB (hr_Metrics r) /\ ho_WarnFreeGB o < hm_VFreeGB (hr_Metrics r)) /\
       (Blocks r = true <->
          hr_Stale r = false /\ (hm_DeliveryStatus (hr_Metrics r) = deliveryFailed \/
                                 hm_VFreeGB (hr_Metrics r) <= ho_CritFreeGB o)) /\
       (hr_Stale r = false -> fresh decodeMetrics parseRFC3339 opts s' (hr_Metrics r)) /\
       (err <> None -> hr_Stale r = true /\ Blocks r = false)) s.
Proof.
  cbv zeta. eapply wpp_mono; [apply wpp_host_Check|]. intros [r err] s' [Hst Hfr].
  unfold WantsCleanup, Blocks. destruct (hr_Stale r) eqn:Es.
  { rewrite (Hst eq_refl). cbn. split_and!; try done; split; try done; by intros [? _]. }
  destruct (Hfr eq_refl) as (He & Hf & Hl & _). rewrite Hl, andb_true_r. subst err.
  destruct (String.eqb_spec (hm_DeliveryStatus (hr_Metrics r)) deliveryFailed) as [Hd|Hd].
  { cbn. split_and!; try done; [|by split; [split; [done|by left]|]]. split; [done|]. by intros (_ & ? & _). }
  pose proof (levelByFree_crit (hm_VFreeGB (hr_Metrics r)) (host_applyDefaults opts)) as Hc.
  pose proof (levelByFree_ok (hm_VFreeGB (hr_Metrics r)) (host_applyDefaults opts)) as Ho.
  destruct (levelByFree_level (hm_VFreeGB (hr_Metrics r)) (host_applyDefaults opts)) as [E|[E|E]]; rewrite E in *; cbn;
    (split_and!; try done; naive_solver lia).
Qed.

(** ** Two snapshots *)

Definition on_guest (data : string) (now : Z) B (e : hostE B) : St unit B :=
  match e in hostE B return St unit B with
  | ReadFileFn _ => fun w => (Ok data, w)
  | NowFn => fun w => (now, w)
  end.

Definition snapshot (free : Z) (delivery : string) (data : string) : result HostMetrics :=
  Ok (mkHostMetrics free 500 200 100 400 0 0 0 data delivery).

Definition verdict (free : Z) (delivery : string) (at_minute : string) (now : Z) : HostReport :=
  fst (fst (interp (on_guest at_minute now)
    (host_Check (snapshot free delivery) (fun s => option_map (Z.mul Minute) (ParseInt s))
       (mkHostOptions "" 0 0 0 0)) tt)).

(** A fresh snapshot with 450 GB free blocks every job when its delivery failed, and it is
    not stale. *)
Lemma failed_delivery_blocks_jobs :
  let r := verdict 450 "failed" "100" (101 * Minute) in
  hm_VFreeGB (hr_Metrics r) = 450 /\ hr_Stale r = false /\ Blocks r = true.
Proof. vm_compute. split_and!; reflexivity. Qed.

(** A snapshot from the future never becomes stale before its time. *)
Lemma future_snapshot_is_fresh :
  hr_Level (verdict 450 "" "100000" (101 * Minute)) = levelOK.
Proof. vm_compute. reflexivity. Qed.

(** * internal/diskwatchdog: cleanup under disk pressure

    [Check] reads the usage of a file system and, above the threshold, runs the cleanup of
    [Cleanup] with short ages; at the emergency level without waiting for an idle host.
    Sizes are uint64 and the percentage wraps as it does in Go. *)

Local Open Scope string_scope.
Local Open Scope list_scope.
Local Open Scope Z_scope.

Inductive DiskDecision := DiskOK | DiskCleanupTriggered | DiskError.

#[global] Instance DiskDecision_eq_dec : EqDecision DiskDecision.
Proof. solve_decision. Defined.

Definition disk_decision_string (d : DiskDecision) : string :=
  match d with DiskOK => "ok" | DiskCleanupTriggered => "cleanup-triggered" | DiskError => "error" end.

Record DiskResult := mkDiskResult {
  dr_Decision : DiskDecision;
  dr_Path : string;
  dr_UsedPct : Z;
  dr_UsedGB : Z;
  dr_TotalGB : Z;
  dr_ThresholdPct : Z;
  dr_CleanupActions : list Action;
  dr_Err : err_ret;
}.

Record DiskOptions := mkDiskOptions {
  do_Path : string;
  do_ThresholdPct : Z;
  do_EmergencyPct : Z;
  do_Execute : bool;
  do_WorkDir : string;
  do_TmpDir : string;
}.

(** The injected functions: [StatfsFn], and those handed on to the cleanup. *)
Inductive diskE : Type -> Type :=
  | StatfsFn (path : string) : diskE (result (Z * Z))
  | InCleanup {B : Type} (e : cleanE B) : diskE B.

Definition in_cleanup B (e : cleanE B) : prog diskE B := call (InCleanup e).

(** [cleanup.DefaultOptions] with the aggressive ages of the watchdog. *)
Definition buildCleanupOptions (opts : DiskOptions) (usedPct : Z) : prog diskE CleanOptions :=
  now ← call (InCleanup TimeNow);
  let emergency := if do_EmergencyPct opts =? 0 then DefaultEmergencyBypassPct else do_EmergencyPct opts in
  mret (mkCleanOptions (do_Execute opts) (do_WorkDir opts) (do_TmpDir opts) DefaultCodespaceDir
          (1 * Hour) (24 * Hour) (7 * 24 * Hour) true false true false
          (emergency <=? usedPct) (2 * Second) now).

Definition disk_error (r : DiskResult) (e : error) : DiskResult :=
  mkDiskResult DiskError (dr_Path r) (dr_UsedPct r) (dr_UsedGB r) (dr_TotalGB r) (dr_ThresholdPct r)
    (dr_CleanupActions r) (Some e).

Definition cleaned (r : DiskResult) (actions : list Action) : DiskResult :=
  let r := mkDiskResult DiskCleanupTriggered (dr_Path r) (dr_UsedPct r) (dr_UsedGB r) (dr_TotalGB r)
             (dr_ThresholdPct r) actions (dr_Err r) in
  match omap ac_Err actions with
  | e :: _ => disk_error r e
  | [] => r
  end.

Section check.
Context `{SortSlice} `{MapRange}.
Context (decodeVolumes : string -> result (list dockerVolumeMetadata)).
Context (decodeDF : string -> result dockerSystemDFRow).
Context (scale : string -> Z -> option Z).

Definition disk_applyDefaults (opts : DiskOptions) : DiskOptions :=
  mkDiskOptions (if String.eqb (do_Path opts) "" then "/" else do_Path opts)
    (if do_ThresholdPct opts =? 0 then DefaultWatchdogThresholdPct else do_ThresholdPct opts)
    (do_EmergencyPct opts) (do_Execute opts) (do_WorkDir opts) (do_TmpDir opts).

Definition disk_Check (opts : DiskOptions) : prog diskE DiskResult :=
  let opts := disk_applyDefaults opts in
  let r := mkDiskResult DiskOK (do_Path opts) 0 0 0 (do_ThresholdPct opts) [] None in
  if (do_ThresholdPct opts <? 1) || (99 <? do_ThresholdPct opts) then
    mret (disk_error r (Errorf ("threshold-pct deve ficar entre 1 e 99, got " +:+ Itoa (do_ThresholdPct opts))))
  else
    stat ← call (StatfsFn (do_Path opts));
    match stat with
    | Err e => mret (disk_error r e)
    | Ok (total, free) =>
        if total =? 0 then mret (disk_error r (Errorf "statfs total = 0"))
        else
          let used := uint64 (total - free) in
          let pct := int64 (uint64 (used * 100) / total) in
          let r := mkDiskResult DiskOK (do_Path opts) pct (int64 (used / 2 ^ 30)) (int64 (total / 2 ^ 30))
                     (do_ThresholdPct opts) [] None in
          if pct <=? do_ThresholdPct opts then mret r
          else
            cleanOpts ← buildCleanupOptions opts pct;
            actions ← link in_cleanup (Run decodeVolumes decodeDF scale cleanOpts);
            mret (cleaned r actions)
    end.
End check.

Definition disk_ExitCode (r : DiskResult) : Z :=
  match dr_Decision r with DiskOK => 0 | DiskCleanupTriggered => 0 | DiskError => 2 end.

(** ** The decision *)

(** The percentage in use, rounded down. *)
Definition percent (total free : Z) : Z := (total - free) * 100 / total.

Definition emergency_level (opts : DiskOptions) : Z :=
  if do_EmergencyPct opts =? 0 then DefaultEmergencyBypassPct else do_EmergencyPct opts.

(** The cleanup that a usage asks for, at a time. *)
Definition pressure_options (opts : DiskOptions) (pct now : Z) : CleanOptions :=
  mkCleanOptions (do_Execute opts) (do_WorkDir opts) (do_TmpDir opts) DefaultCodespaceDir
    (1 * Hour) (24 * Hour) (7 * 24 * Hour) true false true false (emergency_level opts <=? pct) (2 * Second) now.

Lemma percent_range total free : 0 < total -> 0 <= free <= total -> 0 <= percent total free <= 100.
Proof.
  intros Ht Hf. unfold percent. split; [apply Z.div_pos; lia|]. apply Z.div_le_upper_bound; lia.
Qed.

(** A file system below 2^64/100 bytes is measured without wrapping. *)
Lemma used_percent total free :
  0 < total -> 0 <= free <= total -> total * 100 < 2 ^ 64 ->
  int64 (uint64 (uint64 (total - free) * 100) / total) = percent total free.
Proof.
  intros Ht Hf Hmax. rewrite (uint64_id (total - free)) by lia. rewrite uint64_id by lia.
  fold (percent total free). pose proof (percent_range total free Ht Hf). apply int64_id. unfold min_int64, max_int64. lia.
Qed.

Lemma cleaned_error r actions :
  dr_Decision (cleaned r actions) = DiskError <-> exists a e, a ∈ actions /\ ac_Err a = Some e.
Proof.
  unfold cleaned. destruct (omap ac_Err actions) as [|e l] eqn:E; cbn; (split; [|try done]).
  - done.
  - intros (a & e & Ha & He). assert (e ∈ omap ac_Err actions) as Hin by (apply list_elem_of_omap; eauto).
    rewrite E in Hin. by apply not_elem_of_nil in Hin.
  - intros _. assert (e ∈ omap ac_Err actions) as (a & Ha & He)%list_elem_of_omap by (rewrite E; by left). eauto.
Qed.

Lemma cleaned_cases r actions :
  dr_UsedPct (cleaned r actions) = dr_UsedPct r /\ dr_CleanupActions (cleaned r actions) = actions /\
  dr_Decision (cleaned r actions) <> DiskOK /\
  disk_ExitCode (cleaned r actions) = (if decide (dr_Decision (cleaned r actions) = DiskError) then 2 else 0).
Proof. unfold cleaned, disk_ExitCode. by destruct (omap ac_Err actions). Qed.

(** The watchdog decides by the usage it measured.  On a file system that is not empty,
    not over-full and smaller than 2^64/100 bytes the percentage is exact and between 0 and
    100.  Up to the threshold it does nothing after the measurement.  Above it runs exactly
    the cleanup of the pressure options, at the time it then reads, with the emergency
    bypass exactly from the emergency level on; and the decision is an error, with exit
    code 2, exactly when one of its actions failed. *)
Theorem disk_pressure_runs_the_cleanup `{SortSlice} `{MapRange} decodeVolumes decodeDF scale
    {W} (h : forall B, diskE B -> St W B) opts w w1 total free :
  let o := disk_applyDefaults opts in
  1 <= do_ThresholdPct o <= 99 -> h _ (StatfsFn (do_Path o)) w = (Ok (total, free), w1) ->
  0 < total -> 0 <= free <= total -> total * 100 < 2 ^ 64 ->
  let pct := percent total free in
  let '(r, w') := interp h (disk_Check decodeVolumes decodeDF scale opts) w in
  0 <= pct <= 100 /\ dr_UsedPct r = pct /\ disk_ExitCode r = (if decide (dr_Decision r = DiskError) then 2 else 0) /\
  if pct <=? do_ThresholdPct o then dr_Decision r = DiskOK /\ dr_CleanupActions r = [] /\ w' = w1
  else
    let '(now, w2) := h _ (InCleanup TimeNow) w1 in
    interp (fun B e => h B (InCleanup e)) (Run decodeVolumes decodeDF scale (pressure_options opts pct now)) w2 =
      (dr_CleanupActions r, w') /\
    (dr_Decision r = DiskError <-> exists a e, a ∈ dr_CleanupActions r /\ ac_Err a = Some e).
Proof.
  intros o Hth Hstat Htot Hfree Hmax pct. unfold disk_Check. cbv zeta. fold o.
  assert ((do_ThresholdPct o <? 1) || (99 <? do_ThresholdPct o) = false) as ->.
  { apply orb_false_iff. split; apply Z.ltb_ge; lia. }
  rewrite interp_bind. cbn [interp call]. rewrite Hstat. assert ((total =? 0) = false) as -> by (apply Z.eqb_neq; lia).
  rewrite used_percent by done. fold pct. pose proof (percent_range total free Htot Hfree) as Hr. fold pct in Hr.
  destruct (pct <=? do_ThresholdPct o); [by cbn|]. rewrite interp_bind. unfold buildCleanupOptions.
  rewrite interp_bind. cbn [interp call]. destruct (h Z (InCleanup TimeNow) w1) as [now w2] eqn:Hn.
  cbn [interp mret prog_mret]. rewrite interp_bind, interp_link.
  change (mkCleanOptions _ _ _ _ _ _ _ _ _ _ _ _ _ _) with (pressure_options opts pct now).
  rewrite (interp_ext _ (fun B e => h B (InCleanup e))) by (intros B e w0; cbn; by destruct (h B (InCleanup e) w0)).
  destruct (interp _ (Run _ _ _ _) w2) as [actions w3]. cbn [interp mret prog_mret].
  set (r := mkDiskResult _ _ _ _ _ _ _ _). destruct (cleaned_cases r actions) as (Ep & Ea & Ed & Ex).
  rewrite Ep, Ea, Ex. split_and!; [lia|lia|done..|apply cleaned_error].
Qed.

(** ** A concrete file system *)

Definition on_disk_host (total free now : Z) B (e : diskE B) : St (list string) B :=
  match e in diskE B return St (list string) B with
  | StatfsFn _ => fun w => (Ok (total, free), w)
  | InCleanup e => fun w =>
      match e in cleanE B return B * list string with
      | WalkFn _ => (([], None), w)
      | StatFn _ => (Ok false, w)
      | GlobFn _ => (([], None), w)
      | RunFn name args => (Ok "", w ++ [Join (name :: args) " "])
      | ActivityFn => (Ok [mkActivity 7 "bin/Runner.Worker"], w)
      | ProbeTimer _ => (None, w)
      | RemoveAllFn _ => (None, w)
      | LockActiveFn => (Ok false, w)
      | ReclaimStaleFn => (Ok false, w)
      | LockHolderFn => ("", w)
      | SafeDeleteFn _ => (None, w)
      | UserHomeDir => (Ok "/root", w)
      | TimeNow => (now, w)
      | Getenv _ => ("/root", w)
      end
  end.

Definition demo_disk : DiskOptions := mkDiskOptions "" 0 0 true DefaultWorkDir DefaultTmpDir.

Lemma disk_pressure_runs_the_cleanup_witness :
  let r := interp (on_disk_host (100 * 2 ^ 30) (20 * 2 ^ 30) 5)
    (disk_Check (H:=SortSlice_insertion) (H0:=MapRange_to_list) (fun _ => Ok []) (fun _ => Ok (mkDFRow "" "")) (fun _ _ => None)
       demo_disk) [] in
  dr_UsedPct (fst r) = 80 /\
  interp (fun B e => on_disk_host (100 * 2 ^ 30) (20 * 2 ^ 30) 5 B (InCleanup e))
    (Run (H:=SortSlice_insertion) (H0:=MapRange_to_list) (fun _ => Ok []) (fun _ => Ok (mkDFRow "" "")) (fun _ _ => None)
       (pressure_options demo_disk 80 5)) [] = (dr_CleanupActions (fst r), snd r).
Proof.
  pose proof (disk_pressure_runs_the_cleanup (H:=SortSlice_insertion) (H0:=MapRange_to_list)
    (fun _ => Ok []) (fun _ => Ok (mkDFRow "" "")) (fun _ _ => None)
    (on_disk_host (100 * 2 ^ 30) (20 * 2 ^ 30) 5) demo_disk [] [] (100 * 2 ^ 30) (20 * 2 ^ 30)) as Hd.
  cbv zeta in Hd |- *. destruct (interp _ (disk_Check _ _ _ demo_disk) []) as [r w'].
  specialize (Hd ltac:(vm_compute; split; discriminate) eq_refl ltac:(lia) ltac:(lia) ltac:(lia)).
  destruct Hd as (_ & Hp & _ & Hrun & _). split; [exact Hp|exact Hrun].
Defined.

(** On the busy host at 80% the emergency bypass reclaims what is safe. *)
Example busy_disk_emergency :
  snd (interp (on_disk_host (100 * 2 ^ 30) (20 * 2 ^ 30) 5)
    (disk_Check (H:=SortSlice_insertion) (H0:=MapRange_to_list) (fun _ => Ok []) (fun _ => Ok (mkDFRow "" "")) (fun _ _ => None)
       demo_disk) []) =
  ["docker image prune -f"; "docker builder prune -f -a"; "docker volume prune -f"].
Proof. vm_compute. reflexivity. Qed.
