(* ===== verification/Hook.v ===== *)
(** * internal/hook: the job hooks of a runner

    [Run] is called by the runner before a job starts and after it has ended.  It frees
    disk space, takes back the files a container left behind, and refuses a job that the
    disk cannot hold.  Every injected function is an effect; the host snapshot, the cache
    policy and the idle scan are those of [Hostdisk], [Cachetrim] and [Idle]. *)

From S2P Require Import Prelude GoStrings Prog Civm Safedelete Idle Cachetrim Hostdisk.

Local Open Scope string_scope.
Local Open Scope list_scope.
Local Open Scope Z_scope.

(** ** Data *)

Definition EventJobStarted : string := "job-started".
Definition EventJobCompleted : string := "job-completed".

Inductive HookDecision :=
  | DecisionOK
  | DecisionCleanupApplied
  | DecisionRejected
  | DecisionError
  | DecisionCleanupDegraded.

#[global] Instance HookDecision_eq_dec : EqDecision HookDecision.
Proof. solve_decision. Defined.

Record HookAction := mkHookAction {
  ha_Name : string;
  ha_Path : string;
  ha_Executed : bool;
  ha_BytesFound : Z;
  ha_BytesFreed : Z;
  ha_Error : string;
  ha_Warning : string;
}.

Record HookResult := mkHookResult {
  hk_Event : string;
  hk_Decision : HookDecision;
  hk_ExitCode : Z;
  hk_Repository : string;
  hk_RunID : string;
  hk_DiskUsedPct : Z;
  hk_WorkRoot : string;
  hk_Actions : list HookAction;
  hk_Error : string;
  hk_HostLevel : string;
  hk_HostVFreeGB : Z;
}.

(** [hp_HasActivity] is [ActivityFn != nil]: it has no default. *)
Record HookOptions := mkHookOptions {
  hp_Event : string;
  hp_Execute : bool;
  hp_PreCleanupPct : Z;
  hp_HardFailPct : Z;
  hp_MinFreeGB : Z;
  hp_FilesystemPath : string;
  hp_WorkRoot : string;
  hp_RunnerTemp : string;
  hp_GitHubWorkspace : string;
  hp_Repository : string;
  hp_RunID : string;
  hp_ComposeProject : string;
  hp_LogPath : string;
  hp_Now : Z;
  hp_HasActivity : bool;
}.

Inductive LogLevel := LevelInfo | LevelWarn | LevelError.

Inductive hookE : Type -> Type :=
  | StatfsFn (path : string) : hookE (result (Z * Z))
  | HostDiskFn : hookE (HostReport * err_ret)
  | RunFn (name : string) (args : list string) : hookE (result string)
  | RemoveAllFn (path : string) : hookE err_ret
  | SafeWorkDeleteFn (path : string) : hookE err_ret
  | SafeWorkChownFn (path : string) : hookE err_ret
  | MkdirAllFn (path : string) : hookE err_ret
  | ReadDirFn (path : string) : hookE (result (list string))
  | WalkDirFn (root : string) : hookE (list visit * err_ret)
  | ActivityFn : hookE (result (list Activity))
  | Getenv (name : string) : hookE string
  | Glob (pattern : string) : hookE (list string)
  | Stat (path : string) : hookE (result bool)
  | TimeNow : hookE Z
  | OpenLog (path : string) : hookE err_ret
  | LogAttrs (level : LogLevel) (res : HookResult) : hookE unit.

Definition hact (name path : string) (executed : bool) : HookAction := mkHookAction name path executed 0 0 "" "".
Definition ha_fail (e : string) (a : HookAction) : HookAction :=
  mkHookAction (ha_Name a) (ha_Path a) (ha_Executed a) (ha_BytesFound a) (ha_BytesFreed a) e (ha_Warning a).
Definition ha_warn (w : string) (a : HookAction) : HookAction :=
  mkHookAction (ha_Name a) (ha_Path a) (ha_Executed a) (ha_BytesFound a) (ha_BytesFreed a) (ha_Error a) w.
Definition ha_at (p : string) (a : HookAction) : HookAction :=
  mkHookAction (ha_Name a) p (ha_Executed a) (ha_BytesFound a) (ha_BytesFreed a) (ha_Error a) (ha_Warning a).

(** ** Options of a hook *)

Definition composeProjectFromEnv : prog hookE string :=
  slot ← call (Getenv "CIVM_RUNNER_SLOT");
  if negb (String.eqb (TrimSpace slot) "") then mret (TrimSpace slot)
  else project ← call (Getenv "COMPOSE_PROJECT_NAME"); mret (TrimSpace project).

Definition DefaultOptionsFromEnv (event : string) : prog hookE HookOptions :=
  temp ← call (Getenv "RUNNER_TEMP");
  workspace ← call (Getenv "GITHUB_WORKSPACE");
  repository ← call (Getenv "GITHUB_REPOSITORY");
  run ← call (Getenv "GITHUB_RUN_ID");
  project ← composeProjectFromEnv;
  now ← call TimeNow;
  mret (mkHookOptions event false DefaultPreCleanupPct DefaultHardFailPct DefaultMinFreeGB "/" "" temp workspace
          repository run project DefaultHooksLogPath now true).

(** ** Work roots *)

Definition workRootGlob : string := "/home/*/actions-runner*/_work".

Definition safeWorkRoot (root : string) : bool :=
  let clean := Clean root in
  if negb (IsAbs clean) then false else Match workRootGlob clean.

Definition workChildGuard (path : string) : err_ret :=
  let clean := Clean path in
  let parent := Dir clean in
  if negb (safeWorkRoot parent) then Some (Errorf ("parent " +:+ parent +:+ " is not a safe _work root"))
  else if String.eqb (Base clean) "" then Some (Errorf (clean +:+ " is not a direct child of a _work root"))
  else None.

(** [safedelete] with this guard, the default of the two injected functions. *)
Section privileged.
Context {FileInfo : Type} (HOME : string).

Definition with_work_guard B (e : deleteE FileInfo B) : prog (deleteE FileInfo) B :=
  match e in deleteE _ B return prog (deleteE FileInfo) B with
  | Safedelete.GuardFn p => mret (workChildGuard p)
  | e => call e
  end.

Definition newSafeWorkDelete (path : string) : prog (deleteE FileInfo) DeleteResult :=
  link with_work_guard (Remove HOME (mkDeleteOptions "" true) path).

Definition newSafeWorkChown (path : string) : prog (deleteE FileInfo) DeleteResult :=
  link with_work_guard (Chown HOME (mkDeleteOptions "" true) path).
End privileged.

(** The closure [add]. *)
Definition add_root (root : string) (roots : list string) : list string :=
  let root := Clean (TrimSpace root) in
  if safeWorkRoot root then if bool_decide (root ∈ roots) then roots else roots ++ [root] else roots.

Definition workRoots `{SortSlice} (opts : HookOptions) : list string :=
  let roots := [] in
  let roots := if String.eqb (hp_WorkRoot opts) "" then roots else add_root (hp_WorkRoot opts) roots in
  let roots := if String.eqb (hp_RunnerTemp opts) "" then roots else add_root (Dir (hp_RunnerTemp opts)) roots in
  let roots := if String.eqb (hp_GitHubWorkspace opts) "" then roots
               else add_root (Dir (Dir (hp_GitHubWorkspace opts))) roots in
  sort_slice String.ltb roots.

Definition activeWorkspaceEntry (root workspace : string) : string :=
  if String.eqb (TrimSpace workspace) "" then ""
  else match Rel (Clean root) (Clean workspace) with
       | None => ""
       | Some rel =>
           if String.eqb rel "." || String.eqb rel ".." || HasPrefix rel "../" then ""
           else match SplitN "/" 2 rel with
                | part :: _ => part
                | [] => ""
                end
       end.

(** One entry of a root may go? [protected] is the active workspace, if any. *)
Definition kept_entry (preserve : bool) (protected name : string) : bool :=
  (String.eqb name "_tool" || String.eqb name "_actions") ||
  (preserve && String.eqb name "_temp") ||
  (negb (String.eqb protected "") && String.eqb name protected).

Fixpoint clean_entries (opts : HookOptions) (root protected : string) (preserve : bool) (names : list string)
    (a : HookAction) : prog hookE HookAction :=
  match names with
  | [] => mret a
  | name :: names =>
      if kept_entry preserve protected name then clean_entries opts root protected preserve names a
      else if hp_Execute opts then
        err ← call (SafeWorkDeleteFn (PathJoin root name));
        match err with
        | Some e => mret (ha_fail (err_text e) a)
        | None => clean_entries opts root protected preserve names a
        end
      else clean_entries opts root protected preserve names a
  end.

Definition cleanWorkRoot (opts : HookOptions) (root : string) (preserveActiveWorkspace : bool)
    : prog hookE HookAction :=
  let a := hact "work_root" root (hp_Execute opts) in
  if negb (safeWorkRoot root) then mret (ha_fail "unsafe work root" a)
  else
    let protected := if preserveActiveWorkspace then activeWorkspaceEntry root (hp_GitHubWorkspace opts) else "" in
    entries ← call (ReadDirFn root);
    match entries with
    | Err e => if errors_Is e ErrNotExist then mret a else mret (ha_fail (err_text e) a)
    | Ok names => clean_entries opts root protected preserveActiveWorkspace names a
    end.

(** The repository whose empty checkout directory is restored. *)
Definition stub_repo (opts : HookOptions) (root : string) : string :=
  let repo := TrimSpace (hp_Repository opts) in
  if String.eqb repo "" && negb (String.eqb (TrimSpace (hp_GitHubWorkspace opts)) "") then
    match Rel (Clean root) (Clean (hp_GitHubWorkspace opts)) with
    | Some rel => if negb (String.eqb rel ".") && negb (HasPrefix rel "..") then rel else repo
    | None => repo
    end
  else repo.

Definition stub_path (opts : HookOptions) (root : string) : string :=
  match Split "/" (stub_repo opts root) with
  | owner :: repo :: _ =>
      if String.eqb owner "" || String.eqb repo "" then PathJoinAll [root; "workspace"; "job"]
      else PathJoinAll [root; owner; repo]
  | _ => PathJoinAll [root; "workspace"; "job"]
  end.

Definition ensureWorkspaceStub (opts : HookOptions) (root : string) : prog hookE HookAction :=
  let a := hact "workspace_stub" root (hp_Execute opts) in
  if negb (safeWorkRoot root) then mret (ha_fail "unsafe work root" a)
  else
    let path := stub_path opts root in
    let a := ha_at path a in
    if hp_Execute opts then
      err ← call (MkdirAllFn path);
      mret (match err with Some e => ha_fail (err_text e) a | None => a end)
    else mret a.

Fixpoint chown_roots (opts : HookOptions) (roots : list string) : prog hookE (list HookAction) :=
  match roots with
  | [] => mret []
  | root :: roots =>
      let ws := activeWorkspaceEntry root (hp_GitHubWorkspace opts) in
      if String.eqb ws "" then chown_roots opts roots
      else
        let path := PathJoin root ws in
        err ← call (SafeWorkChownFn path);
        let a := hact "workspace_chown" path true in
        let a := match err with Some e => ha_warn (err_text e) a | None => a end in
        rest ← chown_roots opts roots;
        mret (a :: rest)
  end.

Definition reclaimWorkspaceOwnership `{SortSlice} (opts : HookOptions) : prog hookE (list HookAction) :=
  if negb (hp_Execute opts) then mret [] else chown_roots opts (workRoots opts).

(** ** Containers *)

(** [runWithTimeout]; the timeout is one more way for the command to fail. *)
Definition runWithTimeout (opts : HookOptions) (actionName : string) (errorAsWarning : bool) (name : string)
    (args : list string) : prog hookE HookAction :=
  let a := hact actionName "" (hp_Execute opts) in
  if negb (hp_Execute opts) then mret a
  else
    out ← call (RunFn name args);
    mret (match out with
          | Err e => if errorAsWarning then ha_warn (err_text e) a else ha_fail (err_text e) a
          | Ok _ => a
          end).

Definition commandActionWarn (opts : HookOptions) (actionName name : string) (args : list string)
    : prog hookE HookAction := runWithTimeout opts actionName true name args.

(** The mount source is the root itself or lies under it. *)
Definition under_root (root src : string) : bool :=
  let clean := Clean src in
  String.eqb clean (Clean root) || HasPrefix (clean +:+ "/") (Clean root +:+ "/").

(** The body of the loop over the lines of docker inspect. *)
Definition mounted_id (root line : string) : option string :=
  match Fields line with
  | id :: (_ :: _) as srcs => if existsb (under_root root) (drop 1 srcs) then Some id else None
  | _ => None
  end.

Definition workroot_orphans (root out : string) : list string := omap (mounted_id root) (Split "010" out).

Definition killWorkRootContainers (opts : HookOptions) (root : string) : prog hookE HookAction :=
  let a := hact "docker_kill_workroot" root (hp_Execute opts) in
  if negb (hp_Execute opts) then mret a
  else
    out ← call (RunFn "docker" ["ps"; "-q"]);
    match out with
    | Err e => mret (ha_warn ("docker ps: " +:+ err_text e) a)
    | Ok out =>
        match Fields out with
        | [] => mret a
        | ids =>
            out ← call (RunFn "docker" (["inspect"; "--format"; "{{.Id}}{{range .Mounts}} {{.Source}}{{end}}"] ++ ids));
            match out with
            | Err e => mret (ha_warn ("docker inspect: " +:+ err_text e) a)
            | Ok out =>
                match workroot_orphans root out with
                | [] => mret a
                | orphans =>
                    let n := Itoa (Z.of_nat (length orphans)) in
                    out ← call (RunFn "docker" ("kill" :: orphans));
                    mret (match out with
                          | Err e => ha_warn ("docker kill " +:+ n +:+ " orphan(s): " +:+ err_text e) a
                          | Ok _ => ha_at (root +:+ " (killed " +:+ n +:+ " orphan container(s))") a
                          end)
                end
            end
        end
    end.

(** A double quote: the template quotes the names of the labels. *)
Definition quoted (s : string) : string := String "034" (s +:+ String "034" "").

Definition orphanInspectFormat : string :=
  "{{.Id}}|{{index .Config.Labels " +:+ quoted "com.docker.compose.project" +:+ "}}|" +:+
  "{{index .Config.Labels " +:+ quoted "org.testcontainers" +:+ "}}|" +:+
  "{{range $p, $b := .HostConfig.PortBindings}}{{range $b}}{{.HostPort}} {{end}}{{end}}".

Definition fixed_port (hp : string) : bool :=
  match ParseInt (TrimSpace hp) with
  | None => false
  | Some port => bool_decide (port ∈ DefaultCIFixedHostPorts)
  end.

Definition isCIOrphan (project testcontainers : string) (hostPorts : list string) : bool :=
  let p := ToLower (TrimSpace project) in
  (negb (String.eqb p "") && negb (String.eqb p "<no value>") && HasPrefix p DefaultCIOrphanProjectPrefix) ||
  EqualFold (TrimSpace testcontainers) "true" ||
  existsb fixed_port hostPorts.

Definition orphan_line (line : string) : option string :=
  let line := trim_right_char "013" line in
  if String.eqb (TrimSpace line) "" then None
  else match SplitN "|" 4 line with
       | [id; project; testcontainers; ports] =>
           let id := TrimSpace id in
           if String.eqb id "" then None
           else if isCIOrphan (TrimSpace project) (TrimSpace testcontainers) (Fields ports) then Some id else None
       | _ => None
       end.

Definition orphanIDsFromInspect (inspectOut : string) : list string := omap orphan_line (Split "010" inspectOut).

Definition reapOrphanCIContainers (opts : HookOptions) : prog hookE (list HookAction) :=
  let a := hact "docker_reap_orphan_ci" "" (hp_Execute opts) in
  if negb (hp_Execute opts) then mret [a]
  else
    out ← call (RunFn "docker" ["ps"; "-q"]);
    match out with
    | Err e => mret [ha_warn ("docker ps: " +:+ err_text e) a]
    | Ok out =>
        match Fields out with
        | [] => mret [a]
        | ids =>
            out ← call (RunFn "docker" (["inspect"; "--format"; orphanInspectFormat] ++ ids));
            match out with
            | Err e => mret [ha_warn ("docker inspect: " +:+ err_text e) a]
            | Ok out =>
                match orphanIDsFromInspect out with
                | [] => mret [a]
                | orphans =>
                    let n := Itoa (Z.of_nat (length orphans)) in
                    stopped ← call (RunFn "docker" (["stop"; "--time"; "5"] ++ orphans));
                    let a := match stopped with
                             | Err e => ha_warn ("docker stop " +:+ n +:+ " orphan(s): " +:+ err_text e) a
                             | Ok _ => a
                             end in
                    removed ← call (RunFn "docker" (["rm"; "-f"] ++ orphans));
                    mret [match removed with
                          | Err e => ha_warn (TrimSpace (ha_Warning a +:+ " docker rm " +:+ n +:+ " orphan(s): " +:+ err_text e)) a
                          | Ok _ => ha_at ("reaped " +:+ n +:+ " orphan CI container(s)") a
                          end]
                end
            end
        end
    end.

Definition runImageReapScopes (opts : HookOptions) : list string :=
  let project := TrimSpace (hp_ComposeProject opts) in
  if String.eqb project "" then []
  else
    let run := TrimSpace (hp_RunID opts) in
    if String.eqb run "" then [project] else [project; project +:+ "-" +:+ run].

Definition scope_label (scope : string) : string := "label=" +:+ DefaultDockerComposeProjectLabel +:+ "=" +:+ scope.

Fixpoint reap_images (opts : HookOptions) (scopes : list string) : prog hookE (list HookAction) :=
  match scopes with
  | [] => mret []
  | scope :: scopes =>
      a ← commandActionWarn opts "docker_run_image_reap" "docker"
            ["image"; "prune"; "-a"; "-f"; "--filter"; scope_label scope];
      rest ← reap_images opts scopes;
      mret (a :: rest)
  end.

Definition reapRunImages (opts : HookOptions) : prog hookE (list HookAction) :=
  match runImageReapScopes opts with
  | [] => mret [hact "docker_run_image_reap_skipped" "(no compose project in env)" false]
  | scopes => reap_images opts scopes
  end.

(** The identifiers of the scopes, without duplicates, and the warnings of the listings. *)
Fixpoint list_scopes (scopes ids : list string) (warning : string) : prog hookE (list string * string) :=
  match scopes with
  | [] => mret (ids, warning)
  | scope :: scopes =>
      out ← call (RunFn "docker" ["ps"; "-aq"; "--filter"; scope_label scope]);
      match out with
      | Err e => list_scopes scopes ids (TrimSpace (warning +:+ " list " +:+ scope +:+ ": " +:+ err_text e))
      | Ok out =>
          list_scopes scopes
            (foldl (fun ids id => if bool_decide (id ∈ ids) then ids else ids ++ [id]) ids (Fields out)) warning
      end
  end.

Definition reapRunContainers (opts : HookOptions) : prog hookE (list HookAction) :=
  match runImageReapScopes opts with
  | [] => mret [hact "docker_run_container_reap_skipped" "(no compose project in env)" false]
  | scopes =>
      let a := hact "docker_run_container_reap" "" (hp_Execute opts) in
      if negb (hp_Execute opts) then mret [a]
      else
        '(ids, warning) ← list_scopes scopes [] "";
        let a := ha_warn warning a in
        match ids with
        | [] => mret [a]
        | _ =>
            out ← call (RunFn "docker" (["rm"; "-f"] ++ ids));
            mret [match out with
                  | Err e => ha_warn (TrimSpace (warning +:+ " remove: " +:+ err_text e)) a
                  | Ok _ => ha_at ("reaped " +:+ Itoa (Z.of_nat (length ids)) +:+ " compose container(s)") a
                  end]
        end
  end.

(** ** Caches *)

(** [cachetrim] with the functions of the hook; its [Deps] are the real ones. *)
Definition hook_deps B (e : trimE B) : prog hookE B :=
  match e in trimE B return prog hookE B with
  | Cachetrim.GlobFn p => call (Glob p)
  | Cachetrim.StatFn p => call (Stat p)
  | Cachetrim.WalkDirFn r => call (WalkDirFn r)
  | Cachetrim.RemoveAllFn p => call (RemoveAllFn p)
  | Cachetrim.TimeNow => call TimeNow
  | Cachetrim.Getenv n => call (Getenv n)
  end.

Record cacheCap := mkCacheCap { cc_path : string; cc_maxBytes : Z; cc_minProtect : Z }.

Definition cacheCaps : prog hookE (list cacheCap) :=
  home ← call (Getenv "HOME");
  shared ← link hook_deps (Caps [home]);
  mret (List.map (fun c => mkCacheCap (cp_Path c) (cp_MaxBytes c) (cp_MinProtect c)) shared).

Definition cachePaths : prog hookE (list string) :=
  caps ← cacheCaps; mret (List.map cc_path caps).

Definition trimCacheByAge `{SortSlice} `{MapRange} (opts : HookOptions) (root : string) (maxBytes minProtect : Z)
    : prog hookE HookAction :=
  r ← link hook_deps (TrimByAge (mkTrimOptions (hp_Execute opts) (hp_Now opts) 0) (mkCap root maxBytes minProtect 0 false));
  mret (mkHookAction "cache_trim" (tr_Path r) (tr_Executed r) (tr_BytesFound r) (tr_BytesFreed r)
          (match tr_Err r with Some e => err_text e | None => "" end) "").

Definition purgeCacheAtIdle (opts : HookOptions) (path : string) : prog hookE HookAction :=
  let a := hact "cache_purge_idle" path (hp_Execute opts) in
  home ← call (Getenv "HOME");
  let home := Clean home in
  let clean := Clean path in
  match Rel home clean with
  | None => mret (ha_fail "unsafe cache path outside HOME" a)
  | Some rel =>
      if String.eqb home "." || String.eqb rel "." || String.eqb rel ".." || HasPrefix rel "../"
      then mret (ha_fail "unsafe cache path outside HOME" a)
      else if negb (hp_Execute opts) then mret a
      else
        err ← call (RemoveAllFn clean);
        mret (match err with
              | Some e => if errors_Is e ErrNotExist then a else ha_fail (err_text e) a
              | None => a
              end)
  end.

(** [removePath] has no caller. *)
Definition removePath (opts : HookOptions) (path name : string) : prog hookE HookAction :=
  let a := hact name path (hp_Execute opts) in
  home ← call (Getenv "HOME");
  if String.eqb (TrimSpace path) "" || String.eqb path "/" || String.eqb path home
  then mret (ha_fail "unsafe cache path" a)
  else if hp_Execute opts then
    err ← call (RemoveAllFn path);
    mret (match err with Some e => ha_fail (err_text e) a | None => a end)
  else mret a.

Definition own_activity (ownDirs : list string) (a : Activity) : bool :=
  existsb (Contains (act_Command a)) ownDirs.

Definition cacheTrimIsIdle (opts : HookOptions) (ownDirs : list string) : prog hookE bool :=
  if negb (hp_HasActivity opts) || bool_decide (ownDirs = []) then mret false
  else
    acts ← call ActivityFn;
    mret (match acts with
          | Err _ => false
          | Ok acts => forallb (own_activity ownDirs) acts
          end).

Section cleanup.
Context `{SortSlice} `{MapRange}.

Fixpoint root_actions (opts : HookOptions) (purgeCaches : bool) (roots : list string) : prog hookE (list HookAction) :=
  match roots with
  | [] => mret []
  | root :: roots =>
      killed ← killWorkRootContainers opts root;
      cleaned ← cleanWorkRoot opts root purgeCaches;
      stub ← ensureWorkspaceStub opts root;
      rest ← root_actions opts purgeCaches roots;
      mret (killed :: cleaned :: stub :: rest)
  end.

Fixpoint cache_actions (opts : HookOptions) (purgeCaches : bool) (caps : list cacheCap) : prog hookE (list HookAction) :=
  match caps with
  | [] => mret []
  | c :: caps =>
      a ← (if negb purgeCaches then purgeCacheAtIdle opts (cc_path c)
           else trimCacheByAge opts (cc_path c) (cc_maxBytes c) (cc_minProtect c));
      rest ← cache_actions opts purgeCaches caps;
      mret (a :: rest)
  end.

(** What a finished run has built: only at job-completed. *)
Definition reap_run (opts : HookOptions) (cleanupIsIdle : bool) : prog hookE (list HookAction) :=
  containers ← reapRunContainers opts;
  images ← reapRunImages opts;
  all ← (if cleanupIsIdle
         then a ← commandActionWarn opts "docker_image_prune_idle" "docker" ["image"; "prune"; "-a"; "-f"]; mret [a]
         else mret []);
  mret (containers ++ images ++ all).

(** The box-wide prunes, all of them best effort. *)
Definition prunes (opts : HookOptions) (purgeCaches cleanupIsIdle : bool) : prog hookE (list HookAction) :=
  buildx ← commandActionWarn opts "docker_buildx_prune" "docker"
             (["buildx"; "prune"; "--force"] ++
              (if purgeCaches then ["--all"] else ["--filter"; DefaultDockerBuildxPruneFilter]));
  images ← commandActionWarn opts "docker_image_prune" "docker" ["image"; "prune"; "-f"];
  reaped ← (if purgeCaches then mret [] else reap_run opts cleanupIsIdle);
  containers ← commandActionWarn opts "docker_container_prune" "docker" ["container"; "prune"; "-f"];
  volumes ← (if negb purgeCaches && cleanupIsIdle
             then commandActionWarn opts "docker_volume_prune_idle" "docker" ["volume"; "prune"; "-a"; "-f"]
             else commandActionWarn opts "docker_volume_prune" "docker" ["volume"; "prune"; "-f"]);
  apt ← commandActionWarn opts "apt_clean" "sudo" ["apt-get"; "clean"];
  journal ← commandActionWarn opts "journal_vacuum" "sudo" ["journalctl"; "--vacuum-time=1d"];
  trim ← commandActionWarn opts "fstrim" "sudo" ["fstrim"; "-av"];
  mret ([buildx; images] ++ reaped ++ [containers; volumes; apt; journal; trim]).

Definition cleanup (opts : HookOptions) (purgeCaches : bool) : prog hookE (list HookAction) :=
  let roots := workRoots opts in
  caps ← cacheCaps;
  rooted ← root_actions opts purgeCaches roots;
  cleanupIsIdle ← cacheTrimIsIdle opts ((fun r => Dir r +:+ "/") <$> roots);
  caches ← (if cleanupIsIdle : bool then cache_actions opts purgeCaches caps
            else mret [hact "cache_trim_deferred_sibling_build" "(another runner's build is active)" false]);
  pruned ← prunes opts purgeCaches cleanupIsIdle;
  mret (rooted ++ caches ++ pruned).

(** ** Run *)

Definition used_pct (stat : result (Z * Z)) : result Z :=
  match stat with
  | Err e => Err e
  | Ok (total, free) =>
      if total =? 0 then Err (Errorf "statfs total = 0")
      else Ok (int64 (uint64 (uint64 (total - free) * 100) / total))
  end.

Definition diskUsedPct (opts : HookOptions) : prog hookE (result Z) :=
  stat ← call (StatfsFn (hp_FilesystemPath opts));
  mret (used_pct stat).

Definition diskFreeGB (opts : HookOptions) : prog hookE (result Z) :=
  stat ← call (StatfsFn (hp_FilesystemPath opts));
  mret (match stat with
        | Err e => Err e
        | Ok (_, free) => Ok (int64 (free / (1024 * 1024 * 1024)))
        end).

Definition JobVDrainGB (vStartedGB vCompletedGB : Z) : Z * bool :=
  if (vStartedGB <=? 0) || (vCompletedGB <=? 0) then (0, false)
  else
    let drain := int64 (vStartedGB - vCompletedGB) in
    if drain <? 0 then (0, true) else (drain, true).

Definition log_level (d : HookDecision) : LogLevel :=
  match d with
  | DecisionError => LevelError
  | DecisionRejected | DecisionCleanupDegraded => LevelWarn
  | _ => LevelInfo
  end.

Definition appendLog (opts : HookOptions) (res : HookResult) : prog hookE err_ret :=
  if String.eqb (hp_LogPath opts) "" || negb (hp_Execute opts) then mret None
  else
    err ← call (MkdirAllFn (Dir (hp_LogPath opts)));
    match err with
    | Some e => mret (Some e)
    | None =>
        err ← call (OpenLog (hp_LogPath opts));
        match err with
        | Some e => mret (Some e)
        | None => _ ← call (LogAttrs (log_level (hk_Decision res)) res); mret None
        end
    end.

Definition set_exit (d : HookDecision) (code : Z) (err : string) (r : HookResult) : HookResult :=
  mkHookResult (hk_Event r) d code (hk_Repository r) (hk_RunID r) (hk_DiskUsedPct r) (hk_WorkRoot r)
    (hk_Actions r) err (hk_HostLevel r) (hk_HostVFreeGB r).

Definition finish (opts : HookOptions) (res : HookResult) : prog hookE HookResult :=
  let res := if (hk_ExitCode res =? 0) &&
                (bool_decide (hk_Decision res = DecisionError) || bool_decide (hk_Decision res = DecisionRejected))
             then set_exit (hk_Decision res) 1 (hk_Error res) res else res in
  _ ← appendLog opts res;
  mret res.

Definition errorResult (res : HookResult) (err : error) : HookResult := set_exit DecisionError 1 (err_text err) res.

Definition has_error (a : HookAction) : bool := negb (String.eqb (ha_Error a) "").

Definition firstActionError (actions : list HookAction) : err_ret :=
  match List.filter has_error actions with
  | a :: _ => Some (Errorf (ha_Name a +:+ ": " +:+ ha_Error a))
  | [] => None
  end.

Definition isIgnorableCacheDeleteRace (a : HookAction) : bool :=
  if negb (String.eqb (ha_Name a) "cache") && negb (String.eqb (ha_Name a) "cache_trim") then false
  else Contains (ToLower (ha_Error a)) "directory not empty".

Definition onlyIgnorableCacheDeleteRaces (actions : list HookAction) : bool :=
  let failed := List.filter has_error actions in
  negb (bool_decide (failed = [])) && forallb isIgnorableCacheDeleteRace failed.

Definition demote (a : HookAction) : HookAction :=
  if isIgnorableCacheDeleteRace a then ha_fail "" (ha_warn (ha_Error a) a) else a.

Definition demoteIgnorableCacheDeleteRaces (actions : list HookAction) : list HookAction := demote <$> actions.

Definition set_pct (pct : Z) (r : HookResult) : HookResult :=
  mkHookResult (hk_Event r) (hk_Decision r) (hk_ExitCode r) (hk_Repository r) (hk_RunID r) pct (hk_WorkRoot r)
    (hk_Actions r) (hk_Error r) (hk_HostLevel r) (hk_HostVFreeGB r).
Definition set_host (host : HostReport) (r : HookResult) : HookResult :=
  mkHookResult (hk_Event r) (hk_Decision r) (hk_ExitCode r) (hk_Repository r) (hk_RunID r) (hk_DiskUsedPct r)
    (hk_WorkRoot r) (hk_Actions r) (hk_Error r) (hr_Level host) (hm_VFreeGB (hr_Metrics host)).
Definition set_actions (l : list HookAction) (r : HookResult) : HookResult :=
  mkHookResult (hk_Event r) (hk_Decision r) (hk_ExitCode r) (hk_Repository r) (hk_RunID r) (hk_DiskUsedPct r)
    (hk_WorkRoot r) l (hk_Error r) (hk_HostLevel r) (hk_HostVFreeGB r).
Definition add_actions (l : list HookAction) (r : HookResult) : HookResult := set_actions (hk_Actions r ++ l) r.
Definition decided (d : HookDecision) (r : HookResult) : HookResult := set_exit d (hk_ExitCode r) (hk_Error r) r.

(** Usage after the cleanup, when it can be measured. *)
Definition remeasure (opts : HookOptions) (res : HookResult) : prog hookE HookResult :=
  after ← diskUsedPct opts;
  mret (match after with Ok pct => set_pct pct res | Err _ => res end).

(** The two rejections of a starting job. *)
Definition job_verdict (opts : HookOptions) (host : HostReport) (res : HookResult) : HookResult :=
  if hp_HardFailPct opts <=? hk_DiskUsedPct res then
    set_exit DecisionRejected 75 ("disk usage " +:+ Itoa (hk_DiskUsedPct res) +:+ "% >= hard fail threshold " +:+
      Itoa (hp_HardFailPct opts) +:+ "%") res
  else if Blocks host then
    set_exit DecisionRejected 75 ("host V: free " +:+ Itoa (hm_VFreeGB (hr_Metrics host)) +:+
      "GB at crit floor (level=" +:+ hr_Level host +:+ ") — refusing job to avoid PausedCritical") res
  else res.

Definition wants_cleanup (opts : HookOptions) (usedPct : Z) (host : HostReport) (free : result Z) : bool :=
  (hp_PreCleanupPct opts <=? usedPct) || WantsCleanup host ||
  match free with Ok freeGB => freeGB <? hp_MinFreeGB opts | Err _ => false end.

Definition job_started (opts : HookOptions) (usedPct : Z) (res : HookResult) : prog hookE HookResult :=
  '(host, _) ← call HostDiskFn;
  chowned ← reclaimWorkspaceOwnership opts;
  orphans ← reapOrphanCIContainers opts;
  let res := add_actions (chowned ++ orphans) (set_host host res) in
  free ← diskFreeGB opts;
  if wants_cleanup opts usedPct host free then
    actions ← cleanup opts true;
    res ← remeasure opts (add_actions actions (decided DecisionCleanupApplied res));
    match firstActionError (hk_Actions res) with
    | None => finish opts (job_verdict opts host res)
    | Some err =>
        if onlyIgnorableCacheDeleteRaces (hk_Actions res)
        then finish opts (job_verdict opts host (set_actions (demoteIgnorableCacheDeleteRaces (hk_Actions res)) res))
        else finish opts (errorResult res err)
    end
  else finish opts (job_verdict opts host res).

Definition job_completed (opts : HookOptions) (res : HookResult) : prog hookE HookResult :=
  '(host, _) ← call HostDiskFn;
  actions ← cleanup opts false;
  let res := add_actions actions (set_host host (decided DecisionCleanupApplied res)) in
  let res := match firstActionError (hk_Actions res) with
             | Some err => set_exit DecisionCleanupDegraded (hk_ExitCode res) (err_text err) res
             | None => res
             end in
  res ← remeasure opts res;
  finish opts res.

Definition defaulted (opts : HookOptions) (now : Z) : HookOptions :=
  mkHookOptions (hp_Event opts) (hp_Execute opts)
    (if hp_PreCleanupPct opts =? 0 then DefaultPreCleanupPct else hp_PreCleanupPct opts)
    (if hp_HardFailPct opts =? 0 then DefaultHardFailPct else hp_HardFailPct opts)
    (hp_MinFreeGB opts)
    (if String.eqb (hp_FilesystemPath opts) "" then "/" else hp_FilesystemPath opts)
    (hp_WorkRoot opts) (hp_RunnerTemp opts) (hp_GitHubWorkspace opts) (hp_Repository opts) (hp_RunID opts)
    (hp_ComposeProject opts) (hp_LogPath opts) now (hp_HasActivity opts).

Definition hook_applyDefaults (opts : HookOptions) : prog hookE HookOptions :=
  now ← (if IsZero (hp_Now opts) then call TimeNow else mret (hp_Now opts));
  mret (defaulted opts now).

Definition Run (opts : HookOptions) : prog hookE HookResult :=
  opts ← hook_applyDefaults opts;
  let res := mkHookResult (hp_Event opts) DecisionOK 0 (hp_Repository opts) (hp_RunID opts) 0 (hp_WorkRoot opts)
               [] "" "" 0 in
  used ← diskUsedPct opts;
  match used with
  | Err e => finish opts (errorResult res e)
  | Ok usedPct =>
      let res := set_pct usedPct res in
      if String.eqb (hp_Event opts) EventJobStarted then job_started opts usedPct res
      else if String.eqb (hp_Event opts) EventJobCompleted then job_completed opts res
      else finish opts (errorResult res (Errorf ("unsupported hook event " +:+ hp_Event opts)))
  end.
End cleanup.
