(* ===== verification/HookSafety.v ===== *)
(** * What the job hooks may touch, and what they decide

    Under any answers of the machine: a hook works only in the roots of its own runner,
    kills only containers it has just identified, purges caches only when no other runner
    is at work; and what its exit code says. *)

From S2P Require Import Prelude GoStrings Prog Civm Safedelete Idle Cachetrim CachetrimSafety Hostdisk Hook.

Local Open Scope string_scope.
Local Open Scope list_scope.
Local Open Scope Z_scope.

(** ** Work roots *)

(** [/home/<user>/actions-runner<suffix>/_work]. *)
Definition work_root (root : string) : Prop :=
  exists user suffix, plain_comp user /\ no_char "/" suffix /\
    root = "/" +:+ Join ["home"; user; "actions-runner" +:+ suffix; "_work"] "/".

Lemma Match_workRootGlob s :
  Match workRootGlob s = true <->
  exists u x, no_char "/" u /\ no_char "/" x /\
    s = "/" +:+ Join ["home"; u; "actions-runner" +:+ x; "_work"] "/".
Proof.
  change workRootGlob with ("/home/" +:+ ("*" +:+ ("/actions-runner" +:+ ("*" +:+ ("/_work" +:+ ""))))).
  rewrite Match_lit by done. split.
  - intros (t & -> & (u & t2 & -> & Hu & (t3 & -> & (x & t4 & -> & Hx & (t5 & -> & E)%Match_lit)%Match_star)%Match_lit)%Match_star);
      try done. cbn in E. apply String.eqb_eq in E as ->. exists u, x. split_and!; [done..|].
    reflexivity.
  - intros (u & x & Hu & Hx & ->). eexists. split; [reflexivity|]. apply Match_star. eexists u, _. split_and!; [done|done|].
    apply Match_lit; [done|]. eexists. split; [reflexivity|]. apply Match_star. exists x, "/_work". by split_and!.
Qed.

Lemma plain_no_slash l : Forall plain_comp l -> Forall (no_char "/") l.
Proof. intros Hl. eapply Forall_impl; [exact Hl|]. by intros x (_ & _ & _ & ?). Qed.

Lemma runner_dir_plain x : no_char "/" x -> plain_comp ("actions-runner" +:+ x).
Proof. intros Hx. unfold plain_comp. split_and!; try done. Qed.

Lemma work_root_comps u x : plain_comp u -> no_char "/" x ->
  Forall plain_comp ["home"; u; "actions-runner" +:+ x; "_work"].
Proof. intros Hu Hx. repeat apply Forall_cons_2; try done; by apply runner_dir_plain. Qed.

Lemma safeWorkRoot_iff root : safeWorkRoot root = true <-> work_root (Clean root).
Proof.
  unfold safeWorkRoot. cbv zeta. destruct (IsAbs (Clean root)) eqn:Ha; cbn [negb].
  - rewrite Match_workRootGlob. split; [|intros (u & x & (?&?&?&?) & ? & ?); by exists u, x].
    intros (u & x & Hu & Hx & E). exists u, x. split_and!; [|done|done].
    destruct (Clean_abs_shape (Clean root)) as (l & El & Hl); [done|apply Clean_idem|].
    rewrite E in El. apply app_inj_l in El. apply (f_equal (Split "/")) in El.
    rewrite Split_Join in El; [|done|by repeat apply Forall_cons_2; try done; apply runner_dir_plain].
    destruct l as [|? [|v l]]; [done|by rewrite Split_Join in El by (try done; by apply plain_no_slash)|].
    rewrite Split_Join in El by (try done; by apply plain_no_slash). injection El as <- <- El.
    rewrite !Forall_cons in Hl. tauto.
  - split; [done|]. intros (u & x & _ & _ & E). rewrite E in Ha. unfold IsAbs, HasPrefix in Ha. by rewrite prefix_app in Ha.
Qed.

Lemma Clean_work_root root : work_root root -> Clean root = root.
Proof.
  intros (u & x & Hu & Hx & ->). pose proof (work_root_comps u x Hu Hx) as Hl. unfold Clean.
  change (IsAbs ("/" +:+ Join ["home"; u; "actions-runner" +:+ x; "_work"] "/")) with true. cbv iota.
  rewrite Split_abs by (try done; by apply plain_no_slash). 
  set (l := ["home"; u; "actions-runner" +:+ x; "_work"]) in *. change (clean_comps true [] ("" :: l)) with (clean_comps true [] l).
  by rewrite (clean_comps_plain true [] l Hl).
Qed.

(** A direct child of a work root. *)
Definition work_child (path : string) : Prop :=
  exists root name, work_root root /\ plain_comp name /\ Clean path = root +:+ "/" +:+ name.

Lemma workChildGuard_iff path : workChildGuard path = None <-> work_child path.
Proof.
  unfold workChildGuard, work_child. cbv zeta.
  destruct (String.eqb_spec (Base (Clean path)) "") as [E|_]; [by apply Base_nonempty in E|].
  transitivity (safeWorkRoot (Dir (Clean path)) = true); [by destruct (safeWorkRoot _)|]. rewrite safeWorkRoot_iff.
  assert (forall u x n, Join ["home"; u; "actions-runner" +:+ x; "_work"] "/" +:+ "/" +:+ n =
    Join (["home"; u; "actions-runner" +:+ x; "_work"] ++ [n]) "/") as HJ by (intros; by rewrite Join_snoc).
  split.
  - intros Hr. pose proof Hr as (u & x & Hu & Hx & E).
    assert (IsAbs (Clean path) = true) as Ha.
    { apply IsAbs_Dir. rewrite <- IsAbs_Clean, E. unfold IsAbs, HasPrefix. apply prefix_app. }
    destruct (Clean_abs_shape (Clean path) Ha (Clean_idem path)) as (l & El & Hl). rewrite El in *.
    destruct l as [|n l _] using rev_ind; [vm_compute in E; done|]. apply Forall_app in Hl as [Hl Hn]. rewrite Forall_singleton in Hn.
    rewrite Dir_abs in Hr by done. exists ("/" +:+ Join l "/"), n.
    assert (Clean ("/" +:+ Join l "/") = "/" +:+ Join l "/") as Ec.
    { rewrite <- (Dir_abs l n Hl Hn). unfold Dir. repeat case_match; [done..|]. apply Clean_idem. }
    rewrite Ec in Hr. split_and!; [done|done|]. destruct l as [|a l]; [by destruct Hr as (? & ? & ? & ? & ?)|].
    rewrite Join_snoc by done. by rewrite app_assoc_str.
  - intros (root & n & Hr & Hn & E). rewrite E. pose proof Hr as (u & x & Hu & Hx & Er).
    assert (Dir (root +:+ "/" +:+ n) = root) as ->; [|by rewrite Clean_work_root].
    rewrite Er, <- app_assoc_str, HJ. by apply Dir_abs; [apply work_root_comps|].
Qed.

(** The evidence without the guard, which is not asked of anybody else. *)
Definition unguarded {FileInfo} (s : evidence FileInfo) : evidence FileInfo :=
  mkEvidence ∅ (ev_lstat s) (ev_owned s) (ev_missing s) (ev_denied s).

(** A removable child of a work root that is gone or owned by the runner or by root. *)
Definition removable {FileInfo} (HOME p : string) (s : evidence FileInfo) : Prop :=
  work_child p /\ deletable HOME p /\ (p ∈ ev_owned s \/ p ∈ ev_missing s).

Definition work_spec {FileInfo} (HOME : string) (me : Z) (removing : bool) : spec (deleteE FileInfo) (evidence FileInfo) := {|
  allowed B e s :=
    match e with
    | Safedelete.GuardFn _ => False
    | Safedelete.RemoveAllFn p => removing = true /\ removable HOME p s
    | Safedelete.RunFn name args => name = "sudo" /\ exists p, removable HOME p s /\
        (if removing then p ∈ ev_denied s /\ (args = chown_command DefaultSafeDeleteWrapperPath me p \/
                                               args = rm_command DefaultSafeDeleteWrapperPath p)
         else args = chown_command DefaultSafeDeleteWrapperPath me p)
    | _ => True
    end;
  answers B e := answers (privilege_spec HOME DefaultSafeDeleteWrapperPath me removing) e;
|}.

Lemma wpp_with_guard {FileInfo A} HOME me removing (m : prog (deleteE FileInfo) A) Q :
  wpp (privilege_spec HOME DefaultSafeDeleteWrapperPath me removing) m Q no_evidence ->
  wpp (work_spec HOME me removing) (link with_work_guard m) (fun a t => exists s, Q a s /\ t = unguarded s) no_evidence.
Proof.
  intros Hm. eapply wpp_mono.
  - apply (wpp_link (privilege_spec HOME DefaultSafeDeleteWrapperPath me removing) (work_spec HOME me removing) with_work_guard
      (fun s t => t = unguarded s /\ forall p, p ∈ ev_guarded s -> work_child p) m Q no_evidence no_evidence); [|exact Hm|split; [done|]; cbn; set_solver].
    intros B e s t [-> Hg] Ha.
    assert (forall p, proven HOME p s -> removable HOME p (unguarded s)) as Hp by (intros p (? & ? & ?); split_and!; auto).
    destruct e; cbn [with_work_guard].
    + apply wpp_ret. eexists. split; [reflexivity|]. destruct (workChildGuard path) eqn:E; [done|]. split; [done|].
      cbn. intros p [->%elem_of_singleton|?]%elem_of_union; [by apply workChildGuard_iff|auto].
    + apply wpp_call; [|intros b t ->; by exists s]. destruct Ha as (? & p & Hpr & Hcmd). split; [done|]. exists p. auto.
    + apply wpp_call; [destruct Ha; split; auto|]. intros b t ->. eexists. split; [reflexivity|].
      by destruct b as [e|]; [destruct (errors_Is e _)|].
    + apply wpp_call; [done|]. intros b t ->. eexists. split; [reflexivity|]. destruct b; [done|]. unfold add_missing. by case_match.
    + apply wpp_call; [done|]. intros b t ->. eexists. split; [reflexivity|]. destruct b; [done|]. unfold add_missing. by case_match.
    + apply wpp_call; [done|]. intros b t [-> ->]. by exists s.
    + apply wpp_call; [done|]. intros b t ->. eexists. split; [reflexivity|]. cbn. by repeat case_match.
  - cbn. intros a t (s & ? & -> & _). by exists s.
Qed.

(** Privilege in a hook is scoped.  The guard accepts a path exactly when the cleaned
    path is a direct child of [/home/<user>/actions-runner<suffix>/_work]: a slash in one
    of the wildcards, a relative path, one that climbs out with "..", the root itself or
    something deeper are refused.  With this guard the privileged delete removes, and
    hands to sudo after a permission error, nothing but such a child that is gone or owned
    by the runner or by root; the privileged chown likewise. *)
Theorem privilege_is_scoped {FileInfo : Type} HOME me path :
  (workChildGuard path = None <-> work_child path) /\
  wpp (work_spec (FileInfo:=FileInfo) HOME me true) (newSafeWorkDelete HOME path)
    (fun r s => dr_Escalated r = true -> ev_denied s <> ∅) no_evidence /\
  wpp (work_spec (FileInfo:=FileInfo) HOME me false) (newSafeWorkChown HOME path) (fun _ _ => True) no_evidence.
Proof.
  split; [apply workChildGuard_iff|]. split; (eapply wpp_mono; [apply wpp_with_guard; first [by apply wpp_Remove|by apply wpp_Chown]|]).
  - cbn. by intros r t (s & Hs & ->).
  - done.
Qed.

(** ** What a hook has observed *)

Record hkstate := mkHK {
  hs_home : option string;                               (* the last value of $HOME *)
  hs_listed : list (string * list string);               (* directories that were read *)
  hs_walks : list (string * (list visit * err_ret));
  hs_calm : bool;                                        (* the last look found no other runner at work *)
  hs_inspect : option (string * string);                 (* format and output of the last docker inspect *)
  hs_scoped : list string;                               (* containers listed by a label of this run *)
  hs_seen : seen;                                        (* what the globs found, and the directories that Stat saw *)
  hs_homes : list string;                                (* all values of $HOME so far *)
}.

Definition at_home x t := mkHK (Some x) (hs_listed t) (hs_walks t) (hs_calm t) (hs_inspect t) (hs_scoped t) (hs_seen t) (x :: hs_homes t).
Definition listed x t := mkHK (hs_home t) (x :: hs_listed t) (hs_walks t) (hs_calm t) (hs_inspect t) (hs_scoped t) (hs_seen t) (hs_homes t).
Definition walked_at x t := mkHK (hs_home t) (hs_listed t) (x :: hs_walks t) (hs_calm t) (hs_inspect t) (hs_scoped t) (hs_seen t) (hs_homes t).
Definition calm_is x t := mkHK (hs_home t) (hs_listed t) (hs_walks t) x (hs_inspect t) (hs_scoped t) (hs_seen t) (hs_homes t).
Definition inspected_as x t := mkHK (hs_home t) (hs_listed t) (hs_walks t) (hs_calm t) x (hs_scoped t) (hs_seen t) (hs_homes t).
Definition scoped_add x t := mkHK (hs_home t) (hs_listed t) (hs_walks t) (hs_calm t) (hs_inspect t) (x ++ hs_scoped t) (hs_seen t) (hs_homes t).
Definition learnt_of x t := mkHK (hs_home t) (hs_listed t) (hs_walks t) (hs_calm t) (hs_inspect t) (hs_scoped t) x (hs_homes t).

Definition mounts_format : string := "{{.Id}}{{range .Mounts}} {{.Source}}{{end}}".

Section safety.
Context `{SortSlice} `{MapRange} (opts : HookOptions).

Definition started : bool := String.eqb (hp_Event opts) EventJobStarted.
Abbreviation exec := (hp_Execute opts = true).
Abbreviation own root := (root ∈ workRoots opts).

(** The directories of this runner. *)
Definition own_dirs : list string := (fun r => Dir r +:+ "/") <$> workRoots opts.

(** An entry just read from a root of this runner, neither the tool cache nor, while a job
    starts, what the runner has already prepared for it. *)
Definition may_delete_work (p : string) (t : hkstate) : Prop :=
  exec /\ exists root name names, own root /\ (root, names) ∈ hs_listed t /\ name ∈ names /\ p = PathJoin root name /\
    name <> "_tool" /\ name <> "_actions" /\
    (started = true -> name <> "_temp" /\
       (activeWorkspaceEntry root (hp_GitHubWorkspace opts) <> "" ->
        name <> activeWorkspaceEntry root (hp_GitHubWorkspace opts))).

Definition may_chown (p : string) : Prop :=
  exec /\ started = true /\ exists root, own root /\ activeWorkspaceEntry root (hp_GitHubWorkspace opts) <> "" /\
    p = PathJoin root (activeWorkspaceEntry root (hp_GitHubWorkspace opts)).

(** The hook trims a cache file by file. *)
Definition single_files (c : Cap) : Cap := mkCap (cp_Path c) (cp_MaxBytes c) (cp_MinProtect c) 0 false.

(** Only with no other runner at work: while a job starts a file of a walked cache over
    its budget, after a job something strictly below the home. *)
Definition may_remove_cache (p : string) (t : hkstate) : Prop :=
  exec /\ hs_calm t = true /\
  if started then
    exists home c0 vs u, home ∈ hs_homes t /\ budgeted (hs_seen t) [home] c0 /\ let c := single_files c0 in
      (cp_Path c, (vs, None)) ∈ hs_walks t /\ walk_units c vs no_units = (u, None) /\
      cp_MaxBytes c0 < un_total u /\ p ∈ ce_path <$> unit_entries u
  else
    exists home rel, hs_home t = Some home /\ Rel (Clean home) p = Some rel /\
      rel <> "." /\ rel <> ".." /\ HasPrefix rel "../" = false.

Definition may_mkdir (p : string) : Prop :=
  exec /\ ((hp_LogPath opts <> "" /\ p = Dir (hp_LogPath opts)) \/ exists root, own root /\ p = stub_path opts root).

(** The docker commands that identify containers by themselves. *)
Definition may_docker (args : list string) (t : hkstate) : Prop :=
  (exists rest, args = "ps" :: rest \/ args = "inspect" :: rest) \/
  (exists root out, own root /\ hs_inspect t = Some (mounts_format, out) /\ args = "kill" :: workroot_orphans root out) \/
  (started = true /\ exists out, hs_inspect t = Some (orphanInspectFormat, out) /\
     (args = ["stop"; "--time"; "5"] ++ orphanIDsFromInspect out \/ args = ["rm"; "-f"] ++ orphanIDsFromInspect out)) \/
  (started = false /\ exists ids, args = ["rm"; "-f"] ++ ids /\ forall id, id ∈ ids -> id ∈ hs_scoped t) \/
  (started = false /\ exists scope, scope ∈ runImageReapScopes opts /\
     args = ["image"; "prune"; "-a"; "-f"; "--filter"; scope_label scope]).

(** The prunes of unused data; those of everything unused only after a job, with no other
    runner at work. *)
Definition may_prune (args : list string) (t : hkstate) : Prop :=
  args ∈ [["image"; "prune"; "-f"]; ["container"; "prune"; "-f"]; ["volume"; "prune"; "-f"]] \/
  (started = true /\ args = ["buildx"; "prune"; "--force"; "--all"]) \/
  (started = false /\ args = ["buildx"; "prune"; "--force"; "--filter"; DefaultDockerBuildxPruneFilter]) \/
  (started = false /\ hs_calm t = true /\ args ∈ [["image"; "prune"; "-a"; "-f"]; ["volume"; "prune"; "-a"; "-f"]]).

Definition may_command (name : string) (args : list string) (t : hkstate) : Prop :=
  exec /\
  ((name = "docker" /\ (may_docker args t \/ may_prune args t)) \/
   (name = "sudo" /\ args ∈ [["apt-get"; "clean"]; ["journalctl"; "--vacuum-time=1d"]; ["fstrim"; "-av"]])).

Definition listing (scope : string) : list string := ["ps"; "-aq"; "--filter"; scope_label scope].

Definition ran_docker (args : list string) (b : result string) (t : hkstate) : hkstate :=
  match b with
  | Err _ => t
  | Ok out =>
      if bool_decide (take 2 args = ["inspect"; "--format"]) then inspected_as (Some (default "" (args !! 2%nat), out)) t
      else if bool_decide (args ∈ listing <$> runImageReapScopes opts) then scoped_add (Fields out) t else t
  end.

Definition hook_spec : spec hookE hkstate := {|
  allowed B e t :=
    match e with
    | RunFn name args => may_command name args t
    | RemoveAllFn p => may_remove_cache p t
    | SafeWorkDeleteFn p => may_delete_work p t
    | SafeWorkChownFn p => may_chown p
    | MkdirAllFn p => may_mkdir p
    | OpenLog p => exec /\ p = hp_LogPath opts /\ p <> ""
    | LogAttrs _ _ => exec
    | _ => True
    end;
  answers B e t :=
    match e in hookE B return B -> hkstate -> Prop with
    | Getenv name => fun b t' => t' = if String.eqb name "HOME" then at_home b t else t
    | ReadDirFn p => fun b t' => t' = match b with Ok names => listed (p, names) t | Err _ => t end
    | WalkDirFn p => fun b t' => sane_walk (fst b) /\ t' = walked_at (p, b) t
    | ActivityFn => fun b t' =>
        t' = calm_is (match b with Ok acts => forallb (own_activity own_dirs) acts | Err _ => false end) t
    | RunFn _ args => fun b t' => t' = ran_docker args b t
    | Glob p => fun b t' => t' = learnt_of (mkSeen ((p, b) :: sn_globs (hs_seen t)) (sn_dirs (hs_seen t))) t
    | Stat p => fun b t' =>
        t' = learnt_of (match b with
                        | Ok true => mkSeen (sn_globs (hs_seen t)) (p :: sn_dirs (hs_seen t))
                        | _ => hs_seen t
                        end) t
    | _ => fun _ t' => t' = t
    end;
|}.
Abbreviation C := (wpp hook_spec).

(** What a hook knows it does not forget. *)
Definition knows (t t' : hkstate) : Prop := seen_le (hs_seen t) (hs_seen t') /\ hs_homes t ⊆ hs_homes t'.

#[local] Instance knows_preorder : PreOrder knows.
Proof. split; [by split|]. intros a b c [? ?] [? ?]. split; etrans; eauto. Qed.

Lemma knows_step {B} (e : hookE B) t b t' : answers hook_spec e t b t' -> knows t t'.
Proof.
  assert (forall x, knows t x -> t' = x -> knows t t') as Hx by (by intros x Hk ->).
  destruct e; cbn; try (by apply Hx); try (by intros [_ ->]).
  - intros ->. unfold ran_docker. by repeat case_match.
  - intros ->. by case_match.
  - intros ->. case_match; [|done]. split; [done|]. cbn. set_solver.
  - intros ->. split; [apply seen_glob|done].
  - intros ->. destruct b as [[]|]; [split; [apply seen_stat|done]|done..].
Qed.

Lemma wpp_knows {A} (m : prog hookE A) Q t : wpp hook_spec m Q t -> wpp hook_spec m (fun a t' => Q a t' /\ knows t t') t.
Proof. intros Hm. apply wpp_keeps; [|done|done]. intros B e s1 b s2 ? ?%knows_step. by etrans. Qed.

Lemma ran_calm args b t : hs_calm (ran_docker args b t) = hs_calm t.
Proof. unfold ran_docker. by repeat case_match. Qed.

(** What every step but the look keeps. *)
Abbreviation kept t := (fun _ t' => hs_calm t' = hs_calm t).

Lemma wpp_hook_command actionName name args t :
  (exec -> may_command name args t) -> C (commandActionWarn opts actionName name args) (kept t) t.
Proof.
  intros Hc. unfold commandActionWarn, runWithTimeout. cbv zeta. destruct (hp_Execute opts) eqn:Hx; [|by apply wpp_ret].
  apply wpp_bind, wpp_call; [by apply Hc|]. intros b t' ->. apply wpp_ret, ran_calm.
Qed.

(** *** Containers *)

Lemma may_ps args t : exec -> (exists rest, args = "ps" :: rest \/ args = "inspect" :: rest) -> may_command "docker" args t.
Proof. intros Hx Hr. split; [done|]. left. split; [done|]. left. by left. Qed.

Lemma wpp_kill root t : own root -> C (killWorkRootContainers opts root) (kept t) t.
Proof.
  intros Hown. unfold killWorkRootContainers. cbv zeta. destruct (hp_Execute opts) eqn:Hx; [|by apply wpp_ret].
  apply wpp_bind, wpp_call; [apply may_ps; eauto|]. intros [out|e] t1 ->; [|by apply wpp_ret].
  destruct (Fields out) as [|id ids]; [apply wpp_ret, ran_calm|].
  apply wpp_bind, wpp_call; [apply may_ps; eauto|]. intros [out2|e] t2 ->; [|apply wpp_ret; by rewrite !ran_calm].
  destruct (workroot_orphans root out2) as [|o os] eqn:Eo; [apply wpp_ret; by rewrite !ran_calm|].
  apply wpp_bind, wpp_call.
  - split; [done|]. left. split; [done|]. left. right; left. exists root, out2. by rewrite Eo.
  - intros b t3 ->. apply wpp_ret. by rewrite !ran_calm.
Qed.

Lemma wpp_reapOrphans t : started = true -> C (reapOrphanCIContainers opts) (kept t) t.
Proof.
  intros Hst. unfold reapOrphanCIContainers. cbv zeta. destruct (hp_Execute opts) eqn:Hx; [|by apply wpp_ret].
  apply wpp_bind, wpp_call; [apply may_ps; eauto|]. intros [out|e] t1 ->; [|by apply wpp_ret].
  destruct (Fields out) as [|id ids]; [apply wpp_ret, ran_calm|].
  apply wpp_bind, wpp_call; [apply may_ps; eauto|]. intros [out2|e] t2 ->; [|apply wpp_ret; by rewrite !ran_calm].
  destruct (orphanIDsFromInspect out2) as [|o os] eqn:Eo; [apply wpp_ret; by rewrite !ran_calm|].
  set (t2 := ran_docker _ (Ok out2) _).
  assert (forall args t', (args = ["stop"; "--time"; "5"] ++ o :: os \/ args = ["rm"; "-f"] ++ o :: os) ->
    hs_inspect t' = Some (orphanInspectFormat, out2) -> may_command "docker" args t') as Hm.
  { intros args t' Ha Hi. split; [done|]. left. split; [done|]. left. right; right; left. split; [done|].
    exists out2. by rewrite Eo. }
  apply wpp_bind, wpp_call; [by apply Hm; [left|]|]. intros b3 t3 ->.
  assert (ran_docker (["stop"; "--time"; "5"] ++ o :: os) b3 t2 = t2) as ->.
  { unfold ran_docker. destruct b3; [|done]. rewrite !bool_decide_false; [done| |done].
    unfold listing. rewrite list_elem_of_fmap. by intros (? & ? & _). }
  apply wpp_bind, wpp_call; [by apply Hm; [right|]|]. intros b4 t4 ->. apply wpp_ret.
  rewrite ran_calm. unfold t2. by rewrite !ran_calm.
Qed.

Lemma wpp_list_scopes scopes ids warning t :
  exec -> (forall s, s ∈ scopes -> s ∈ runImageReapScopes opts) -> (forall id, id ∈ ids -> id ∈ hs_scoped t) ->
  C (list_scopes scopes ids warning) (fun x t' => hs_calm t' = hs_calm t /\ forall id, id ∈ fst x -> id ∈ hs_scoped t') t.
Proof.
  intros Hx. revert ids warning t. induction scopes as [|s scopes IH]; intros ids warning t Hs Hids; cbn [list_scopes].
  { by apply wpp_ret. }
  apply wpp_bind, wpp_call; [apply may_ps; [done|]; eexists; by left|].
  intros [out|e] t1 ->; [|apply IH; [set_solver|done]].
  assert (ran_docker ["ps"; "-aq"; "--filter"; scope_label s] (Ok out) t = scoped_add (Fields out) t) as ->.
  { unfold ran_docker. rewrite bool_decide_false by done. rewrite bool_decide_true; [done|].
    apply list_elem_of_fmap. exists s. split; [done|]. apply Hs. by left. }
  eapply wpp_mono; [apply IH; [set_solver|]|done]. cbn.
  assert (forall (l acc : list string) (id : string), id ∈ foldl (fun ids id => if bool_decide (id ∈ ids) then ids else ids ++ [id]) acc l ->
    id ∈ acc \/ id ∈ l) as Hf.
  { intros l. induction l as [|x l IHl]; intros acc id; cbn; [by left|]. intros Hin%IHl.
    destruct (bool_decide (x ∈ acc)); set_solver. }
  intros id [?|?]%Hf; apply elem_of_app; auto.
Qed.

Lemma wpp_reapContainers t : started = false -> C (reapRunContainers opts) (kept t) t.
Proof.
  intros Hst. unfold reapRunContainers. destruct (runImageReapScopes opts) as [|s scopes] eqn:Es; [by apply wpp_ret|]. cbv zeta.
  destruct (hp_Execute opts) eqn:Hx; [|by apply wpp_ret]. apply wpp_bind.
  eapply wpp_mono; [apply wpp_list_scopes; [done|by rewrite Es|]|]; [by intros id ?%not_elem_of_nil|].
  intros [ids warning] t1 [Hc Hids]. cbn [fst] in Hids. destruct ids as [|id ids]; [by apply wpp_ret|].
  apply wpp_bind, wpp_call.
  - split; [done|]. left. split; [done|]. left. right; right; right; left. split; [done|]. by exists (id :: ids).
  - intros b t2 ->. apply wpp_ret. by rewrite ran_calm.
Qed.

Lemma wpp_reapImages t : started = false -> C (reapRunImages opts) (kept t) t.
Proof.
  intros Hst. unfold reapRunImages. assert (forall scopes t, (forall s, s ∈ scopes -> s ∈ runImageReapScopes opts) ->
    C (reap_images opts scopes) (kept t) t) as Hr.
  { intros scopes. induction scopes as [|s scopes IH]; intros t1 Hs; cbn [reap_images]; [by apply wpp_ret|].
    apply wpp_bind. eapply wpp_mono; [apply wpp_hook_command|].
    - intros Hx. split; [done|]. left. split; [done|]. left. do 4 right. split; [done|]. exists s. split; [|done]. set_solver.
    - intros a t2 E. apply wpp_bind. eapply wpp_mono; [apply IH; set_solver|]. intros l t3 E'. apply wpp_ret. congruence. }
  destruct (runImageReapScopes opts) eqn:Es; [by apply wpp_ret|]. rewrite <- Es. apply Hr. by rewrite Es.
Qed.

(** *** Roots *)

Lemma wpp_clean_entries root preserve names0 names a t :
  own root -> (preserve = true <-> started = true) -> (root, names0) ∈ hs_listed t -> (forall n, n ∈ names -> n ∈ names0) ->
  C (clean_entries opts root (if preserve then activeWorkspaceEntry root (hp_GitHubWorkspace opts) else "") preserve names a)
    (kept t) t.
Proof.
  intros Hown Hpre Hl. revert a. induction names as [|n names IH]; intros a Hn; cbn [clean_entries]; [by apply wpp_ret|].
  assert (forall a, C (clean_entries opts root (if preserve then activeWorkspaceEntry root (hp_GitHubWorkspace opts) else "")
    preserve names a) (kept t) t) as Hc by (intros a'; apply IH; set_solver).
  destruct (kept_entry _ _ n) eqn:Ek; [apply Hc|]. destruct (hp_Execute opts) eqn:Hx; [|apply Hc].
  apply wpp_bind, wpp_call; [|intros [e|] t1 ->; [by apply wpp_ret|apply Hc]].
  unfold kept_entry in Ek. apply orb_false_iff in Ek as [[[E1 E2]%orb_false_iff E3]%orb_false_iff E4].
  split; [done|]. exists root, n, names0. split_and!; try done; [by apply Hn; left|by apply String.eqb_neq|by apply String.eqb_neq|].
  intros Hst. apply Hpre in Hst as ->. split; [by apply String.eqb_neq|]. intros Hw. apply String.eqb_neq in Hw.
  rewrite Hw in E4. by apply String.eqb_neq.
Qed.

Lemma wpp_cleanRoot root preserve t :
  own root -> (preserve = true <-> started = true) -> C (cleanWorkRoot opts root preserve) (kept t) t.
Proof.
  intros Hown Hpre. unfold cleanWorkRoot. cbv zeta. destruct (safeWorkRoot root); [|by apply wpp_ret].
  apply wpp_bind, wpp_call; [done|]. intros [names|e] t1 ->.
  - eapply wpp_mono; [apply (wpp_clean_entries root preserve names); [done|done|by left|done]|done].
  - destruct (errors_Is e _); by apply wpp_ret.
Qed.

Lemma wpp_stub root t : own root -> C (ensureWorkspaceStub opts root) (kept t) t.
Proof.
  intros Hown. unfold ensureWorkspaceStub. cbv zeta. destruct (safeWorkRoot root); [|by apply wpp_ret].
  destruct (hp_Execute opts) eqn:Hx; [|by apply wpp_ret]. apply wpp_bind, wpp_call; [|intros b t1 ->; by apply wpp_ret].
  split; [done|]. right. eauto.
Qed.

Lemma wpp_root_actions preserve roots t :
  (forall r, r ∈ roots -> own r) -> (preserve = true <-> started = true) ->
  C (root_actions opts preserve roots) (kept t) t.
Proof.
  intros Hr Hpre. revert t. induction roots as [|r roots IH]; intros t; cbn [root_actions]; [by apply wpp_ret|].
  assert (own r) as Hown by (apply Hr; by left).
  apply wpp_bind. eapply wpp_mono; [by apply wpp_kill|]. intros a1 t1 E1.
  apply wpp_bind. eapply wpp_mono; [by apply wpp_cleanRoot|]. intros a2 t2 E2.
  apply wpp_bind. eapply wpp_mono; [by apply wpp_stub|]. intros a3 t3 E3.
  apply wpp_bind. eapply wpp_mono; [apply IH; set_solver|]. intros l t4 E4. apply wpp_ret. congruence.
Qed.

Lemma wpp_chown t : started = true -> C (reclaimWorkspaceOwnership opts) (kept t) t.
Proof.
  intros Hst. unfold reclaimWorkspaceOwnership. destruct (hp_Execute opts) eqn:Hx; [|by apply wpp_ret]. cbn [negb].
  assert (forall roots, (forall r, r ∈ roots -> own r) -> C (chown_roots opts roots) (kept t) t) as Hr; [|by apply Hr].
  intros roots. induction roots as [|r roots IH]; intros Hroots; cbn [chown_roots]; [by apply wpp_ret|]. cbv zeta.
  destruct (String.eqb_spec (activeWorkspaceEntry r (hp_GitHubWorkspace opts)) "") as [|Hne]; [apply IH; set_solver|].
  apply wpp_bind, wpp_call.
  - split_and!; [done|done|]. exists r. split_and!; [|done|done]. apply Hroots. by left.
  - intros b t1 ->. apply wpp_bind. eapply wpp_mono; [apply IH; set_solver|]. intros l t2 E. by apply wpp_ret.
Qed.

(** *** Caches *)

(** A cap of the hook is one of [Caps], without its package depth. *)
Definition hook_cap (t : hkstate) (home : string) (c : cacheCap) : Prop :=
  home ∈ hs_homes t /\ exists c0, budgeted (hs_seen t) [home] c0 /\ c = mkCacheCap (cp_Path c0) (cp_MaxBytes c0) (cp_MinProtect c0).

Lemma hook_cap_le t t' home c : knows t t' -> hook_cap t home c -> hook_cap t' home c.
Proof. intros [Hle Hh] (Hin & c0 & Hb & ->). split; [auto|]. exists c0. split; [by eapply budgeted_le|done]. Qed.

Lemma wpp_cacheCaps t : C cacheCaps (fun caps t' => hs_calm t' = hs_calm t /\ exists home, Forall (hook_cap t' home) caps) t.
Proof.
  unfold cacheCaps. apply wpp_bind, wpp_call; [done|]. intros home t0 ->. apply wpp_bind.
  eapply wpp_mono.
  - apply wpp_knows, (wpp_link look_spec hook_spec hook_deps (fun s t' => s = hs_seen t' /\ hs_calm t' = hs_calm t) _
      (fun caps s' => seen_le (hs_seen t) s' /\ Forall (budgeted s' [home]) caps) (hs_seen t)).
    + intros B e s t1 [-> Hk] Ha. destruct e; cbn [hook_deps]; try by destruct Ha.
      * apply wpp_call; [done|]. intros b t2 ->. eexists. split; [done|]. by split.
      * apply wpp_call; [done|]. intros b t2 ->. eexists. split; [done|]. by split.
      * apply wpp_call; [done|]. intros b t2 ->. eexists. split; [done|]. by split.
      * apply wpp_call; [done|]. intros b t2 ->. eexists. split; [done|]. cbn. by case_match.
    + apply wpp_look_Caps.
    + done.
  - intros caps t' [(s & [_ Hc] & -> & Hk) [_ Hh]]. apply wpp_ret. split; [done|]. exists home. apply Forall_fmap.
    eapply Forall_impl; [exact Hc|]. intros c Hb. split; [apply Hh; by left|]. by exists c.
Qed.

Lemma wpp_trimCache home c1 t :
  IsZero (hp_Now opts) = false -> started = true -> hook_cap t home c1 -> hs_calm t = true ->
  C (trimCacheByAge opts (cc_path c1) (cc_maxBytes c1) (cc_minProtect c1)) (kept t) t.
Proof.
  intros Hnow Hst (Hh & c0 & Hb & ->) Hcalm. unfold trimCacheByAge. cbn [cc_path cc_maxBytes cc_minProtect]. apply wpp_bind.
  set (o := mkTrimOptions (hp_Execute opts) (hp_Now opts) 0). change (mkCap _ _ _ 0 false) with (single_files c0).
  assert (0 <= cp_MaxBytes (single_files c0)) as Hmax by exact (budgeted_nonneg _ _ _ Hb).
  eapply wpp_mono.
  - apply (wpp_link (trim_spec o (single_files c0)) hook_spec hook_deps
      (fun s t' => (hs_calm t' = true /\ knows t t') /\ forall w, ts_walk s = Some w -> (cp_Path c0, w) ∈ hs_walks t') _
      (fun _ _ => True) (mkTState 0 None []) t).
    + intros B e s t1 [[Hc Hle] Hw] Ha.
      assert (forall X (e' : hookE X) b t2, answers hook_spec e' t1 b t2 -> knows t t2) as Hstep
        by (intros X e' b t2 Hk%knows_step; by etrans).
      destruct e; cbn [hook_deps]; (apply wpp_call; [try done|intros b t2 Hb2; pose proof (Hstep _ _ _ _ Hb2) as Hk]).
      * rewrite Hb2 in *. by exists s.
      * rewrite Hb2 in *. by exists s.
      * destruct Hb2 as [Hs ->]. eexists. split; [done|]. cbn in Ha. subst root. split; [done|]. intros w [= <-]. by left.
      * pose proof Ha as [Hx _]. apply may_remove_unit in Ha as (vs & u & Ew & Eu & Hover & _ & Hp). split_and!; [done|done|]. rewrite Hst.
        exists home, c0, vs, u. destruct Hle as [Hle Hhs]. split; [auto|]. split; [by eapply budgeted_le|]. cbv zeta. split_and!; auto.
      * rewrite Hb2. eexists. by split.
      * rewrite Hb2. eexists. by split.
      * rewrite Hb2 in *. exists s. split; [done|]. split; [|cbn; by case_match]. split; [cbn; by case_match|done].
    + eapply wpp_mono; [apply (wpp_TrimByAge o (single_files c0) 0 Hmax)|done].
    + done.
  - intros r t' (s & _ & [Hc Hle] & _). apply wpp_ret. congruence.
Qed.

Lemma wpp_purge path t : started = false -> hs_calm t = true ->
  C (purgeCacheAtIdle opts path) (kept t) t.
Proof.
  intros Hst Hcalm. unfold purgeCacheAtIdle. cbv zeta. apply wpp_bind, wpp_call; [done|]. intros home t1 ->.
  destruct (Rel (Clean home) (Clean path)) as [rel|] eqn:Er; [|by apply wpp_ret].
  destruct (String.eqb (Clean home) "." || _ || _ || _) eqn:E; [by apply wpp_ret|].
  destruct (hp_Execute opts) eqn:Hx; [|by apply wpp_ret].
  apply wpp_bind, wpp_call; [|intros b t2 ->; by apply wpp_ret].
  apply orb_false_iff in E as [[[_ E1]%orb_false_iff E2]%orb_false_iff E3].
  split_and!; [done|done|]. rewrite Hst. exists home, rel. split_and!; try done; by apply String.eqb_neq.
Qed.

Lemma wpp_cache_actions purge home caps t :
  IsZero (hp_Now opts) = false -> (purge = true <-> started = true) -> hs_calm t = true ->
  Forall (hook_cap t home) caps -> C (cache_actions opts purge caps) (kept t) t.
Proof.
  intros Hnow Hp. revert t. induction caps as [|c caps IH]; intros t Hcalm Hcaps; cbn [cache_actions].
  { by apply wpp_ret. }
  inversion_clear Hcaps as [|? ? Hc Hrest].
  assert (C (if negb purge then purgeCacheAtIdle opts (cc_path c)
             else trimCacheByAge opts (cc_path c) (cc_maxBytes c) (cc_minProtect c))
            (kept t) t) as Hw.
  { destruct purge; cbn [negb].
    - apply (wpp_trimCache home); [done| |done|done]. by apply Hp.
    - apply wpp_purge; [|done]. apply not_true_is_false. by intros ?%Hp. }
  apply wpp_bind. eapply wpp_mono; [apply wpp_knows, Hw|]. intros a t1 [E Hle]. apply wpp_bind.
  eapply wpp_mono; [apply IH; [congruence|]|].
  { eapply Forall_impl; [exact Hrest|]. intros c'. by apply hook_cap_le. }
  intros l t2 E2. apply wpp_ret. congruence.
Qed.

(** *** Prunes *)

Lemma may_prune_command args t : exec -> may_prune args t -> may_command "docker" args t.
Proof. intros Hx Hp. split; [done|]. left. split; [done|]. by right. Qed.

Lemma may_sudo args t : exec ->
  args ∈ [["apt-get"; "clean"]; ["journalctl"; "--vacuum-time=1d"]; ["fstrim"; "-av"]] -> may_command "sudo" args t.
Proof. intros Hx Ha. split; [done|]. by right. Qed.

Lemma wpp_prune actionName args t : may_prune args t -> C (commandActionWarn opts actionName "docker" args) (kept t) t.
Proof. intros Hp. apply wpp_hook_command. intros Hx. by apply may_prune_command. Qed.

Lemma wpp_sudo actionName args t :
  args ∈ [["apt-get"; "clean"]; ["journalctl"; "--vacuum-time=1d"]; ["fstrim"; "-av"]] ->
  C (commandActionWarn opts actionName "sudo" args) (kept t) t.
Proof. intros Hp. apply wpp_hook_command. intros Hx. by apply may_sudo. Qed.

Lemma wpp_reap_run idle t : started = false -> (idle = true -> hs_calm t = true) -> C (reap_run opts idle) (kept t) t.
Proof.
  intros Hst Hi. unfold reap_run.
  apply wpp_bind. eapply wpp_mono; [by apply wpp_reapContainers|]. intros a1 t1 E1.
  apply wpp_bind. eapply wpp_mono; [by apply wpp_reapImages|]. intros a2 t2 E2.
  apply wpp_bind. destruct idle; [|by repeat apply wpp_ret; congruence].
  apply wpp_bind. eapply wpp_mono; [apply wpp_prune|].
  - do 3 right. split_and!; [done|rewrite E2, E1; auto|]. by left.
  - intros a3 t3 E3. do 2 apply wpp_ret. congruence.
Qed.

Lemma wpp_prunes purge idle t :
  (purge = true <-> started = true) -> (idle = true -> hs_calm t = true) -> C (prunes opts purge idle) (kept t) t.
Proof.
  intros Hp Hi. assert (purge = false -> started = false) as Hp'.
  { intros ->. apply not_true_is_false. by intros ?%Hp. }
  unfold prunes. apply wpp_bind. eapply wpp_mono; [apply wpp_prune|].
  { destruct purge; [right; left|right; right; left]; (split; [|done]); [by apply Hp|by apply Hp']. }
  intros a1 t1 E1. apply wpp_bind. eapply wpp_mono; [apply wpp_prune; left; by left|]. intros a2 t2 E2.
  apply wpp_bind. apply wpp_mono with (Q := kept t).
  { destruct purge; [apply wpp_ret; congruence|]. eapply wpp_mono; [apply wpp_reap_run; [by apply Hp'|]|].
    - intros ->. rewrite E2, E1. auto.
    - intros l t3 E3. congruence. }
  intros a3 t3 E3. apply wpp_bind. eapply wpp_mono; [apply wpp_prune; left; right; by left|]. intros a4 t4 E4.
  apply wpp_bind. apply wpp_mono with (Q := kept t).
  { destruct (negb purge && idle) eqn:E; (eapply wpp_mono; [apply wpp_prune|]).
    - do 3 right. apply andb_true_iff in E as [E%negb_true_iff ->]. split_and!; [by apply Hp'|rewrite E4, E3; auto|]. right. by left.
    - intros a t5 ?. congruence.
    - left. do 2 right. by left.
    - intros a t5 ?. congruence. }
  intros a5 t5 E5. do 3 (apply wpp_bind; eapply wpp_mono; [apply wpp_sudo; set_solver|]; intros ? ? ?).
  apply wpp_ret. congruence.
Qed.

(** *** The whole hook *)

Lemma wpp_cleanup purge t :
  IsZero (hp_Now opts) = false -> (purge = true <-> started = true) -> C (cleanup opts purge) (fun _ _ => True) t.
Proof.
  intros Hnow Hp. unfold cleanup. cbv zeta. apply wpp_bind. eapply wpp_mono; [apply wpp_cacheCaps|]. intros caps t1 (_ & home & Hcaps).
  apply wpp_bind. eapply wpp_mono; [by apply wpp_knows, wpp_root_actions|]. intros a1 t2 [_ Hk2].
  apply wpp_bind. apply wpp_mono with (Q := fun idle t3 => (idle = true -> hs_calm t3 = true) /\ knows t2 t3).
  { apply wpp_knows. unfold cacheTrimIsIdle. destruct (_ || _); [by apply wpp_ret|]. apply wpp_bind, wpp_call; [done|]. intros acts t3 ->.
    by apply wpp_ret. }
  intros idle t3 [Hi Hk3]. apply wpp_bind. apply wpp_mono with (Q := kept t3).
  { destruct idle; [|by apply wpp_ret]. apply wpp_cache_actions with home; auto.
    eapply Forall_impl; [exact Hcaps|]. intros c. apply hook_cap_le. by etrans. }
  intros a2 t4 E4. apply wpp_bind. eapply wpp_mono; [apply wpp_prunes; [done|]|].
  - intros ->. rewrite E4. auto.
  - intros l t5 _. by apply wpp_ret.
Qed.

Lemma wpp_finish res t : C (finish opts res) (fun _ _ => True) t.
Proof.
  unfold finish, appendLog. cbv zeta. set (r := if _ && _ then _ else _). clearbody r.
  destruct (String.eqb_spec (hp_LogPath opts) "") as [|Hp]; [by repeat apply wpp_ret|].
  destruct (hp_Execute opts) eqn:Hx; [|by repeat apply wpp_ret]. cbn [negb orb].
  apply wpp_bind, wpp_bind, wpp_call; [split; [done|]; by left|]. intros [e|] t1 ->; [by repeat apply wpp_ret|].
  apply wpp_bind, wpp_call; [done|]. intros [e|] t2 ->; [by repeat apply wpp_ret|].
  apply wpp_bind, wpp_call; [done|]. intros [] t3 ->. by repeat apply wpp_ret.
Qed.

Lemma wpp_used t Q : (forall r, Q r t) -> C (diskUsedPct opts) Q t.
Proof. intros HQ. unfold diskUsedPct. apply wpp_bind, wpp_call; [done|]. intros b t1 ->. apply wpp_ret, HQ. Qed.

Lemma wpp_free t Q : (forall r, Q r t) -> C (diskFreeGB opts) Q t.
Proof. intros HQ. unfold diskFreeGB. apply wpp_bind, wpp_call; [done|]. intros b t1 ->. apply wpp_ret, HQ. Qed.

Lemma wpp_job_started pct res t :
  IsZero (hp_Now opts) = false -> started = true -> C (job_started opts pct res) (fun _ _ => True) t.
Proof.
  intros Hnow Hst. unfold job_started. apply wpp_bind, wpp_call; [done|]. intros [host e] t1 ->.
  apply wpp_bind. eapply wpp_mono; [by apply wpp_chown|]. intros a1 t2 _.
  apply wpp_bind. eapply wpp_mono; [by apply wpp_reapOrphans|]. intros a2 t3 _. cbv zeta.
  apply wpp_bind, wpp_free. intros free. destruct (wants_cleanup _ _ _ _); [|apply wpp_finish].
  apply wpp_bind. eapply wpp_mono; [by apply wpp_cleanup|]. intros a3 t4 _. apply wpp_bind. unfold remeasure.
  apply wpp_bind, wpp_used. intros r. apply wpp_ret. destruct (firstActionError _); [destruct (onlyIgnorableCacheDeleteRaces _)|];
    apply wpp_finish.
Qed.

Lemma wpp_job_completed res t :
  IsZero (hp_Now opts) = false -> started = false -> C (job_completed opts res) (fun _ _ => True) t.
Proof.
  intros Hnow Hst. unfold job_completed. apply wpp_bind, wpp_call; [done|]. intros [host e] t1 ->.
  apply wpp_bind. eapply wpp_mono; [apply wpp_cleanup; [done|by rewrite Hst]|]. intros a3 t4 _. cbv zeta. apply wpp_bind. unfold remeasure.
  apply wpp_bind, wpp_used. intros r. apply wpp_ret. apply wpp_finish.
Qed.
End safety.

(** ** The own roots *)

Lemma add_root_spec root roots r :
  r ∈ add_root root roots -> r ∈ roots \/ (r = Clean (TrimSpace root) /\ work_root r).
Proof.
  unfold add_root. cbv zeta. destruct (safeWorkRoot (Clean (TrimSpace root))) eqn:Es; [|by left].
  destruct (bool_decide _); [by left|]. intros [?| ->%list_elem_of_singleton]%elem_of_app; [by left|]. right. split; [done|].
  apply safeWorkRoot_iff in Es. by rewrite Clean_idem in Es.
Qed.

(** Where a root comes from. *)
Definition from_env (opts : HookOptions) (root : string) : Prop :=
  root = Clean (TrimSpace (hp_WorkRoot opts)) \/ root = Clean (TrimSpace (Dir (hp_RunnerTemp opts))) \/
  root = Clean (TrimSpace (Dir (Dir (hp_GitHubWorkspace opts)))).

Lemma workRoots_own `{SortSlice} opts root : root ∈ workRoots opts -> work_root root /\ from_env opts root.
Proof.
  unfold workRoots, from_env. cbv zeta. rewrite sort_slice_elem_of.
  set (r1 := if String.eqb (hp_WorkRoot opts) "" then _ else _).
  set (r2 := if String.eqb (hp_RunnerTemp opts) "" then _ else _).
  assert (forall r, r ∈ r1 -> work_root r /\ r = Clean (TrimSpace (hp_WorkRoot opts))) as H1.
  { intros r. unfold r1. destruct (String.eqb (hp_WorkRoot opts) ""); [by intros ?%not_elem_of_nil|].
    by intros [?%not_elem_of_nil|[? ?]]%add_root_spec. }
  assert (forall r, r ∈ r2 -> work_root r /\ (r = Clean (TrimSpace (hp_WorkRoot opts)) \/
    r = Clean (TrimSpace (Dir (hp_RunnerTemp opts))))) as H2.
  { intros r. unfold r2. destruct (String.eqb (hp_RunnerTemp opts) ""); [intros [? ?]%H1; auto|].
    intros [[? ?]%H1|[? ?]]%add_root_spec; auto. }
  destruct (String.eqb (hp_GitHubWorkspace opts) ""); [intros [? [?|?]]%H2; auto|]. intros [[? [?|?]]%H2|[? ?]]%add_root_spec; auto.
Qed.

Definition hook_start : hkstate := mkHK None [] [] false None [] (mkSeen [] []) [].

(** C16. A hook touches only what belongs to its runner, whatever the machine answers.  Its
    work roots have the shape [/home/<user>/actions-runner<suffix>/_work] and come from
    its own environment.  A dry run changes nothing and runs no command.  An executing one
    deletes from a work root only entries it has just listed, never the tool caches and,
    while a job starts, never what the runner prepared for that job; it kills only
    containers that an inspection showed with a mount in one of its roots, stops and
    removes only containers that an inspection showed to be CI leftovers, and after a job
    those that carry the label of this run; it removes cache data, and prunes every unused
    image and volume, only when the last look found no process of another runner, while a
    job starts only files of a known cache that a walk showed over its budget, and after a
    job only strictly below the home; directories are created only for its log
    and for the empty checkouts of its roots. *)
Theorem hook_touches_only_its_own_runner `{SortSlice} `{MapRange} opts :
  IsZero (hp_Now opts) = false ->
  (forall root, root ∈ workRoots opts -> work_root root /\ from_env opts root) /\
  wpp (hook_spec opts) (Run opts) (fun _ _ => True) hook_start.
Proof.
  intros Hnow. split; [by apply workRoots_own|]. unfold Run, hook_applyDefaults. rewrite Hnow.
  apply wpp_bind, wpp_bind, wpp_ret, wpp_ret. cbv zeta.
  match goal with |- context [diskUsedPct ?o] => set (o' := o) end.
  change (hook_spec opts) with (hook_spec o'). assert (IsZero (hp_Now o') = false) as Hnow' by done.
  apply wpp_bind, wpp_used. intros [pct|e]; [|apply wpp_finish].
  destruct (String.eqb (hp_Event o') EventJobStarted) eqn:Es; [by apply wpp_job_started|].
  destruct (String.eqb (hp_Event o') EventJobCompleted); [by apply wpp_job_completed|apply wpp_finish].
Qed.
