(* ===== verification/HookVerdict.v ===== *)
(** * What a hook decides

    The exit code and the decision of a hook from what it measured; a concrete machine on
    which hooks run, with two runs whose outcome the comments of the code rule out. *)

From S2P Require Import Prelude GoStrings Prog Civm Idle Cachetrim CachetrimSafety Hostdisk Hook HookSafety.

Local Open Scope string_scope.
Local Open Scope list_scope.
Local Open Scope Z_scope.

(** The measurements, in their order, the host snapshot and the log record. *)
Record vstate := mkV {
  v_stats : list (result (Z * Z));
  v_host : option HostReport;
  v_log : option (LogLevel * HookResult);
}.

Definition verdict_spec : spec hookE vstate := {|
  allowed B e s := match e with LogAttrs _ _ => v_log s = None | _ => True end;
  answers B e s :=
    match e in hookE B return B -> vstate -> Prop with
    | StatfsFn _ => fun b s' => s' = mkV (v_stats s ++ [b]) (v_host s) (v_log s)
    | HostDiskFn => fun b s' => s' = mkV (v_stats s) (Some (fst b)) (v_log s)
    | LogAttrs l r => fun _ s' => s' = mkV (v_stats s) (v_host s) (Some (l, r))
    | _ => fun _ s' => s' = s
    end;
|}.
Abbreviation V := (wpp verdict_spec).

(** *** The steps that measure and log nothing *)

Definition mute B (e : hookE B) : Prop :=
  match e with StatfsFn _ | HostDiskFn | LogAttrs _ _ => False | _ => True end.

Lemma wpp_mute {A} (m : prog hookE A) s : only mute m -> V m (fun _ s' => s' = s) s.
Proof.
  intros Hm. apply (only_wpp mute verdict_spec (fun s' => s' = s) m s Hm); [|done].
  intros B e s0 He ->. destruct e; (split; [done|]); cbn in He; try done; cbn; intros; by subst.
Qed.

Ltac muted := repeat (only_step || intros ? || (progress cbv zeta)).

Lemma mute_command opts a n args : only mute (commandActionWarn opts a n args).
Proof. unfold commandActionWarn, runWithTimeout. muted. Qed.

Lemma mute_trim {A} (m : prog trimE A) : only mute (link hook_deps m).
Proof. apply only_link. intros B e. by destruct e. Qed.

Lemma mute_root_actions opts purge roots : only mute (root_actions opts purge roots).
Proof.
  induction roots as [|r roots IH]; cbn [root_actions]; [done|].
  assert (forall protected names a, only mute (clean_entries opts r protected purge names a)) as Hc.
  { intros protected names. induction names as [|n names IHn]; intros a; cbn [clean_entries]; muted; auto. }
  unfold killWorkRootContainers, cleanWorkRoot, ensureWorkspaceStub. muted; auto.
Qed.

Lemma mute_cache_actions `{SortSlice} `{MapRange} opts purge caps : only mute (cache_actions opts purge caps).
Proof.
  induction caps as [|c caps IH]; cbn [cache_actions]; [done|].
  apply only_bind; [|intros a; apply only_bind; [done|muted]].
  unfold purgeCacheAtIdle, trimCacheByAge. destruct (negb purge); [muted|]. apply only_bind; [apply mute_trim|muted].
Qed.

Lemma mute_reap_run opts idle : only mute (reap_run opts idle).
Proof.
  unfold reap_run, reapRunContainers, reapRunImages.
  assert (forall scopes ids w, only mute (list_scopes scopes ids w)) as Hl.
  { intros scopes. induction scopes as [|s scopes IH]; intros ids w; cbn [list_scopes]; muted; auto. }
  assert (forall scopes, only mute (reap_images opts scopes)) as Hi.
  { intros scopes. induction scopes as [|s scopes IH]; cbn [reap_images]; [done|]. apply only_bind; [apply mute_command|].
    intros a. apply only_bind; [done|muted]. }
  repeat (apply only_bind; [|intros ?]); muted; auto using mute_command.
Qed.

Lemma mute_cleanup `{SortSlice} `{MapRange} opts purge : only mute (cleanup opts purge).
Proof.
  unfold cleanup, cacheCaps, cacheTrimIsIdle, prunes. cbv zeta.
  repeat (apply only_bind; [|intros ?]); auto using mute_command, mute_trim, mute_root_actions, mute_cache_actions, mute_reap_run.
  all: muted; auto using mute_command, mute_cache_actions, mute_reap_run.
Qed.

(** *** The decision *)

(** The percentage of the report is one of the measured ones. *)
Definition measured (s : vstate) (pct : Z) : Prop := exists st, st ∈ v_stats s /\ used_pct st = Ok pct.

(** Nothing but the returned report is logged. *)
Definition logged_as (s : vstate) (r : HookResult) : Prop :=
  v_log s = None \/ v_log s = Some (log_level (hk_Decision r), r).

Definition clean_report (r : HookResult) : Prop := forall a, a ∈ hk_Actions r -> has_error a = false.

(** What a started job may conclude. *)
Definition started_verdict (opts : HookOptions) (pct0 : Z) (host : HostReport) (r : HookResult) : Prop :=
  match hk_Decision r with
  | DecisionOK => hk_ExitCode r = 0 /\ hk_DiskUsedPct r = pct0 /\ pct0 < hp_PreCleanupPct opts /\
      pct0 < hp_HardFailPct opts /\ WantsCleanup host = false /\ Blocks host = false
  | DecisionCleanupApplied => hk_ExitCode r = 0 /\ hk_DiskUsedPct r < hp_HardFailPct opts /\ Blocks host = false /\ clean_report r
  | DecisionRejected => hk_ExitCode r = 75 /\ (hp_HardFailPct opts <= hk_DiskUsedPct r \/ Blocks host = true)
  | DecisionError => hk_ExitCode r = 1 /\ exists a, a ∈ hk_Actions r /\ has_error a = true /\ isIgnorableCacheDeleteRace a = false
  | DecisionCleanupDegraded => False
  end.

Lemma finish_keeps opts res s :
  v_log s = None -> (hk_Decision res = DecisionError \/ hk_Decision res = DecisionRejected -> hk_ExitCode res <> 0) ->
  V (finish opts res) (fun r s' => r = res /\ v_stats s' = v_stats s /\ v_host s' = v_host s /\ logged_as s' r) s.
Proof.
  intros Hl Hx. unfold finish. cbv zeta.
  assert ((hk_ExitCode res =? 0) && (bool_decide (hk_Decision res = DecisionError) ||
    bool_decide (hk_Decision res = DecisionRejected)) = false) as ->.
  { destruct (Z.eqb_spec (hk_ExitCode res) 0); [|done]. cbn [andb]. apply orb_false_iff.
    split; apply bool_decide_eq_false; intros E; apply Hx; auto. }
  unfold appendLog. apply wpp_bind. destruct (_ || _); [do 2 apply wpp_ret; split_and!; try done; by left|].
  apply wpp_bind, wpp_call; [done|]. intros [e|] s1 ->; [do 2 apply wpp_ret; split_and!; try done; by left|].
  apply wpp_bind, wpp_call; [done|]. intros [e|] s2 ->; [do 2 apply wpp_ret; split_and!; try done; by left|].
  apply wpp_bind, wpp_call; [done|]. intros [] s3 ->. do 2 apply wpp_ret. split_and!; try done. by right.
Qed.

Lemma verdict_remeasure opts res s :
  measured s (hk_DiskUsedPct res) ->
  V (remeasure opts res) (fun r s' => measured s' (hk_DiskUsedPct r) /\ v_host s' = v_host s /\ v_log s' = v_log s /\
    (exists l, v_stats s' = v_stats s ++ l) /\ r = set_pct (hk_DiskUsedPct r) res) s.
Proof.
  intros Hm. unfold remeasure, diskUsedPct. apply wpp_bind, wpp_bind, wpp_call; [done|]. intros b s1 ->. do 2 apply wpp_ret.
  assert (forall pct, measured s pct -> measured (mkV (v_stats s ++ [b]) (v_host s) (v_log s)) pct) as Hmore.
  { intros pct (st & Hst & E). exists st. split; [|done]. apply elem_of_app. by left. }
  destruct (used_pct b) as [pct|e] eqn:E; cbn; split_and!; try done; eauto; try (by destruct res).
  exists b. split; [|done]. apply elem_of_app. right. by left.
Qed.

Lemma first_error_none l : firstActionError l = None <-> forall a, a ∈ l -> has_error a = false.
Proof.
  unfold firstActionError. induction l as [|a l IH]; cbn; [split; [by intros _ a ?%not_elem_of_nil|done]|].
  destruct (has_error a) eqn:E.
  - split; [done|]. intros Ha. specialize (Ha a ltac:(by left)). congruence.
  - rewrite IH. setoid_rewrite elem_of_cons. naive_solver.
Qed.

Lemma ignorable_demoted l :
  onlyIgnorableCacheDeleteRaces l = true -> forall a, a ∈ demoteIgnorableCacheDeleteRaces l -> has_error a = false.
Proof.
  unfold onlyIgnorableCacheDeleteRaces, demoteIgnorableCacheDeleteRaces. cbv zeta. intros [_ Hall]%andb_true_iff a.
  rewrite forallb_forall in Hall. intros (b & -> & Hb)%list_elem_of_fmap. unfold demote.
  destruct (isIgnorableCacheDeleteRace b) eqn:Ei; [done|]. apply not_true_is_false. intros He.
  rewrite Hall in Ei; [done|]. apply filter_In. split; [by apply list_elem_of_In|done].
Qed.

Lemma not_ignorable l e :
  firstActionError l = Some e -> onlyIgnorableCacheDeleteRaces l = false ->
  exists a, a ∈ l /\ has_error a = true /\ isIgnorableCacheDeleteRace a = false.
Proof.
  unfold firstActionError, onlyIgnorableCacheDeleteRaces. cbv zeta.
  destruct (List.filter has_error l) as [|x f] eqn:Ef; [done|]. intros _ Hall.
  rewrite bool_decide_false in Hall by done. cbn [negb andb] in Hall. rewrite <- Ef in Hall.
  assert (exists a, a ∈ List.filter has_error l /\ isIgnorableCacheDeleteRace a = false) as (a & Ha & Hi).
  { clear Ef x f. induction (List.filter has_error l) as [|b k IH]; [done|]. cbn in Hall.
    apply andb_false_iff in Hall as [?|(a & ? & ?)%IH]; eexists; (split; [|eassumption]); [by left|by right]. }
  apply list_elem_of_In, filter_In in Ha as [Ha%list_elem_of_In He]. eauto.
Qed.

(** The last step of a started job. *)
Lemma verdict_end opts pct0 host res s :
  v_log s = None -> hk_ExitCode res = 0 -> hk_Decision res = DecisionOK \/ hk_Decision res = DecisionCleanupApplied ->
  (hk_Decision res = DecisionOK -> hk_DiskUsedPct res = pct0 /\ pct0 < hp_PreCleanupPct opts /\ WantsCleanup host = false) ->
  (hk_Decision res = DecisionCleanupApplied -> clean_report res) ->
  V (finish opts (job_verdict opts host res))
    (fun r s' => started_verdict opts pct0 host r /\ hk_DiskUsedPct r = hk_DiskUsedPct res /\
       v_stats s' = v_stats s /\ v_host s' = v_host s /\ logged_as s' r) s.
Proof.
  intros Hl Hx Hd Hok Hap.
  eapply wpp_mono; [apply finish_keeps; [done|]|].
  - unfold job_verdict. destruct (_ <=? _); [done|]. destruct (Blocks host); [done|]. by intros [E|E]; rewrite E in Hd; destruct Hd.
  - intros r s' (-> & ? & ? & ?). split; [|split_and!; try done]; unfold job_verdict.
    + destruct (Z.leb_spec (hp_HardFailPct opts) (hk_DiskUsedPct res)); [cbn; auto|].
      destruct (Blocks host) eqn:Eb; [cbn; auto|]. unfold started_verdict. destruct Hd as [E|E]; rewrite E.
      * destruct (Hok E) as (Ep & ? & ?). rewrite Ep in *. by split_and!.
      * split_and!; auto.
    + by destruct (_ <=? _); [|destruct (Blocks host)].
Qed.

Section run.
Context `{SortSlice} `{MapRange}.

Lemma verdict_started opts pct0 res s :
  v_log s = None -> hk_ExitCode res = 0 -> hk_Decision res = DecisionOK -> hk_DiskUsedPct res = pct0 -> measured s pct0 ->
  V (job_started opts pct0 res) (fun r s' => exists host, v_host s' = Some host /\ started_verdict opts pct0 host r /\
      measured s' (hk_DiskUsedPct r) /\ (exists l, v_stats s' = v_stats s ++ l) /\ logged_as s' r) s.
Proof.
  intros Hl Hx Hd Hp Hm. unfold job_started. apply wpp_bind, wpp_call; [done|]. intros [host e] s1 ->.
  apply wpp_bind. eapply wpp_mono; [apply wpp_mute|].
  { unfold reclaimWorkspaceOwnership. destruct (negb _); [done|]. induction (workRoots opts) as [|r roots IH]; cbn [chown_roots]; muted; auto. }
  intros a1 s2 ->. apply wpp_bind. eapply wpp_mono; [apply wpp_mute; unfold reapOrphanCIContainers; muted|]. intros a2 s3 ->.
  cbv zeta. unfold diskFreeGB. apply wpp_bind, wpp_bind, wpp_call; [done|]. intros st s4 ->. apply wpp_ret. cbn [v_stats v_host v_log].
  set (s4 := mkV _ _ _). set (res1 := add_actions _ _).
  assert (measured s4 pct0) as Hm4.
  { destruct Hm as (x & Hin & E). exists x. split; [|done]. apply elem_of_app. by left. }
  assert (exists l, v_stats s4 = v_stats s ++ l) as Hst by (by eexists).
  destruct (wants_cleanup opts pct0 host _) eqn:Ew.
  - apply wpp_bind. eapply wpp_mono; [apply wpp_mute, mute_cleanup|]. intros acts s5 ->.
    apply wpp_bind. eapply wpp_mono; [apply verdict_remeasure; by rewrite <- Hp in Hm4|].
    intros res2 s6 (Hm6 & Hh6 & Hl6 & (l6 & Hs6) & E2).
    assert (exists l, v_stats s6 = v_stats s ++ l) as Hst6 by (rewrite Hs6; cbn; rewrite <- app_assoc; by eexists).
    assert (hk_ExitCode res2 = 0 /\ hk_Decision res2 = DecisionCleanupApplied) as [Hx2 Hd2] by (rewrite E2; done).
    destruct (firstActionError (hk_Actions res2)) as [err|] eqn:Ef; [destruct (onlyIgnorableCacheDeleteRaces (hk_Actions res2)) eqn:Ei|].
    + eapply wpp_mono; [apply (verdict_end opts pct0); cbn; [by rewrite Hl6|done|by right|by rewrite Hd2|]|].
      { intros _. exact (ignorable_demoted _ Ei). }
      intros r s7 (Hv & Ep & Es & Eh & Hlog). exists host. split_and!; [by rewrite Eh, Hh6|done| |by rewrite Es|done].
      rewrite Ep. cbn. unfold measured. by rewrite Es.
    + eapply wpp_mono; [apply finish_keeps; [by rewrite Hl6|by cbn]|].
      intros r s7 (-> & Es & Eh & Hlog). exists host. split_and!; [by rewrite Eh, Hh6| | |by rewrite Es|done].
      * unfold started_verdict. cbn. split; [done|]. by eapply not_ignorable.
      * cbn. unfold measured. by rewrite Es.
    + eapply wpp_mono; [apply (verdict_end opts pct0); [by rewrite Hl6|done|by right|by rewrite Hd2|]|].
      { intros _. exact (proj1 (first_error_none _) Ef). }
      intros r s7 (Hv & Ep & Es & Eh & Hlog). exists host. split_and!; [by rewrite Eh, Hh6|done| |by rewrite Es|done].
      rewrite Ep. unfold measured. by rewrite Es.
  - unfold wants_cleanup in Ew. apply orb_false_iff in Ew as [[E1 E2]%orb_false_iff _].
    eapply wpp_mono; [apply (verdict_end opts pct0); cbn; [done|done|by left| |by rewrite Hd]|].
    { intros _. apply Z.leb_gt in E1. by split_and!. }
    intros r s7 (Hv & Ep & Es & Eh & Hlog). exists host. split_and!; [by rewrite Eh|done| |by rewrite Es|done].
    rewrite Ep. cbn. rewrite Hp. unfold measured. by rewrite Es.
Qed.

Lemma verdict_completed opts pct0 res s :
  v_log s = None -> hk_ExitCode res = 0 -> hk_DiskUsedPct res = pct0 -> measured s pct0 -> hk_Actions res = [] ->
  V (job_completed opts res) (fun r s' => hk_ExitCode r = 0 /\
      (hk_Decision r = DecisionCleanupDegraded <-> exists a, a ∈ hk_Actions r /\ has_error a = true) /\
      (hk_Decision r = DecisionCleanupApplied \/ hk_Decision r = DecisionCleanupDegraded) /\
      measured s' (hk_DiskUsedPct r) /\ (exists l, v_stats s' = v_stats s ++ l) /\ logged_as s' r) s.
Proof.
  intros Hl Hx Hp Hm Ha. unfold job_completed. apply wpp_bind, wpp_call; [done|]. intros [host e] s1 ->.
  apply wpp_bind. eapply wpp_mono; [apply wpp_mute, mute_cleanup|]. intros acts s2 ->. cbv zeta.
  set (res1 := match firstActionError _ with Some _ => _ | None => _ end).
  assert (hk_ExitCode res1 = 0 /\ hk_DiskUsedPct res1 = pct0 /\
    (hk_Decision res1 = DecisionCleanupDegraded <-> exists a, a ∈ hk_Actions res1 /\ has_error a = true) /\
    (hk_Decision res1 = DecisionCleanupApplied \/ hk_Decision res1 = DecisionCleanupDegraded)) as (Hx1 & Hp1 & Hd1 & Hd1').
  { unfold res1. destruct (firstActionError _) as [err|] eqn:Ef; cbn in *; split_and!; auto.
    - split; [|done]. intros _. destruct (decide (Exists (fun a => has_error a = true) (hk_Actions res ++ acts))) as [Hex|Hno].
      + by apply Exists_exists in Hex.
      + exfalso. assert (firstActionError (hk_Actions res ++ acts) = None) as E; [|congruence].
        apply first_error_none. intros a Hin. apply not_true_is_false. intros E. apply Hno, Exists_exists. eauto.
    - split; [done|]. intros (a & Hin & E). rewrite first_error_none in Ef. rewrite Ef in E; done. }
  clearbody res1. apply wpp_bind. eapply wpp_mono; [apply verdict_remeasure; by rewrite Hp1|].
  intros res2 s3 (Hm3 & Hh3 & Hl3 & Hs3 & E2).
  eapply wpp_mono; [apply finish_keeps; [by rewrite Hl3|]|].
  - rewrite E2. cbn. intros [E|E]; rewrite E in Hd1'; by destruct Hd1'.
  - intros r s4 (-> & Es & _ & Hlog). rewrite Es. unfold measured in *. rewrite Es. rewrite E2. cbn. split_and!; try done. by rewrite E2 in Hlog.
Qed.

(** The verdict of a hook.  The report that is logged is the one that is returned, and
    its percentage was measured.  A hook whose first measurement fails, or with an unknown
    event, is an error.  A starting job is refused with exit code 75 only when the usage
    has reached the hard limit or the host blocks, it fails with 1 only when an action
    failed with something else than a lost race on a cache, and it starts only below the
    hard limit with a host that does not block: without cleanup only when neither the
    usage nor the host asks for one, with cleanup only when no action of the report is
    still in error.  After a job the exit code is 0 whatever the cleanup does, and the
    decision is degraded exactly when an action failed. *)
Theorem hook_verdict opts :
  let o := defaulted opts (hp_Now opts) in
  wpp verdict_spec (Run opts)
    (fun r s => logged_as s r /\ exists st stats, v_stats s = st :: stats /\
       match used_pct st with
       | Err _ => hk_Decision r = DecisionError /\ hk_ExitCode r = 1
       | Ok pct0 =>
           measured s (hk_DiskUsedPct r) /\
           if String.eqb (hp_Event opts) EventJobStarted
           then exists host, v_host s = Some host /\ started_verdict o pct0 host r
           else if String.eqb (hp_Event opts) EventJobCompleted
           then hk_ExitCode r = 0 /\
                (hk_Decision r = DecisionCleanupDegraded <-> exists a, a ∈ hk_Actions r /\ has_error a = true) /\
                (hk_Decision r = DecisionCleanupApplied \/ hk_Decision r = DecisionCleanupDegraded)
           else hk_Decision r = DecisionError /\ hk_ExitCode r = 1
       end) (mkV [] None None).
Proof.
  intros o. unfold Run, hook_applyDefaults. apply wpp_bind, wpp_bind.
  eapply wpp_mono; [apply wpp_mute; muted|]. intros now s0 ->. apply wpp_ret. cbv zeta. unfold diskUsedPct.
  apply wpp_bind, wpp_bind, wpp_call; [done|]. intros st s1 ->. apply wpp_ret. cbn [v_stats v_host v_log app].
  assert (forall r l h, hk_Decision r = DecisionError -> hk_ExitCode r = 1 -> V (finish (defaulted opts now) r)
    (fun r' s => r' = r /\ v_stats s = l /\ v_host s = h /\ logged_as s r') (mkV l h None)) as Hfail.
  { intros r l h Hd Hx. eapply wpp_mono; [by apply finish_keeps; [|rewrite Hx]|]. done. }
  destruct (used_pct st) as [pct0|e] eqn:Eu.
  - assert (measured (mkV [st] None None) pct0) as Hm by (exists st; split; [by left|done]).
    change (hp_Event (defaulted opts now)) with (hp_Event opts).
    destruct (String.eqb (hp_Event opts) EventJobStarted); [|destruct (String.eqb (hp_Event opts) EventJobCompleted)].
    + eapply wpp_mono; [by apply verdict_started|]. intros r s (host & Hh & Hv & Hp & (l & Hs) & Hlog). split; [done|].
      exists st, l. rewrite Eu. eauto.
    + eapply wpp_mono; [by apply (verdict_completed _ pct0)|]. intros r s (? & ? & ? & Hp & (l & Hs) & Hlog). split; [done|].
      exists st, l. rewrite Eu. auto.
    + eapply wpp_mono; [by apply Hfail|]. intros r s (-> & Hs & _ & Hlog). split; [done|]. exists st, []. rewrite Eu.
      split; [done|]. split; [|done]. unfold measured. by rewrite Hs.
  - eapply wpp_mono; [by apply Hfail|]. intros r s (-> & Hs & _ & Hlog). split; [done|]. exists st, []. rewrite Eu. done.
Qed.
End run.

(** ** A concrete machine *)

Record machine := mkMachine {
  mc_globs : gmap string (list string);
  mc_walks : gmap string (list visit);
  mc_dirs : gmap string (list string);
  mc_out : gmap string string;              (* what a docker command prints *)
  mc_looks : list Activity;
  mc_stats : list (result (Z * Z));
  mc_host : HostReport;
  mc_done : list string;                    (* removals and commands *)
}.

Definition did (x : string) (m : machine) : machine :=
  mkMachine (mc_globs m) (mc_walks m) (mc_dirs m) (mc_out m) (mc_looks m) (mc_stats m) (mc_host m) (mc_done m ++ [x]).
Definition next_stat (m : machine) : result (Z * Z) * machine :=
  match mc_stats m with
  | st :: l => (st, mkMachine (mc_globs m) (mc_walks m) (mc_dirs m) (mc_out m) (mc_looks m) l (mc_host m) (mc_done m))
  | [] => (Err (Errorf "statfs"), m)
  end.

Definition on_machine B (e : hookE B) : St machine B :=
  match e in hookE B return St machine B with
  | StatfsFn _ => next_stat
  | HostDiskFn => fun m => ((mc_host m, None), m)
  | RunFn name args => fun m => (Ok (default "" (mc_out m !! Join (take 2 args) " ")), did (Join (name :: args) " ") m)
  | RemoveAllFn p => fun m => (None, did ("remove " +:+ p) m)
  | SafeWorkDeleteFn p => fun m => (None, did ("delete " +:+ p) m)
  | SafeWorkChownFn p => fun m => (None, did ("chown " +:+ p) m)
  | MkdirAllFn p => fun m => (None, did ("mkdir " +:+ p) m)
  | ReadDirFn p => fun m => (match mc_dirs m !! p with Some l => Ok l | None => Err (Errorf_s ErrNotExist p) end, m)
  | WalkDirFn p => fun m => ((default [] (mc_walks m !! p), None), m)
  | ActivityFn => fun m => (Ok (mc_looks m), m)
  | Getenv _ => fun m => ("/home/ci", m)
  | Glob p => fun m => (default [] (mc_globs m !! p), m)
  | Stat p => fun m => (Ok (bool_decide (is_Some (mc_walks m !! p))), m)
  | TimeNow => fun m => (1, m)
  | OpenLog _ => fun m => (None, m)
  | LogAttrs _ _ => fun m => (tt, m)
  end.

Definition run_hook (opts : HookOptions) (m : machine) : HookResult * machine :=
  interp on_machine (Run (H:=SortSlice_insertion) (H0:=MapRange_to_list) opts) m.

Definition healthy : HostReport := mkHostReport no_metrics false levelOK false false "".

(** The hook of the runner in /home/ci/actions-runner-1, at a time or other. *)
Definition demo_hook (event : string) : HookOptions :=
  mkHookOptions event true 0 0 0 "" "" "/home/ci/actions-runner-1/_work/_temp" "/home/ci/actions-runner-1/_work/acme/app"
    "acme/app" "42" "slot-1" "" (100 * Hour) true.

(** At 70% usage of a disk of 100 GiB. *)
Definition pressed : result (Z * Z) := Ok (100 * giB, 30 * giB).

(** One package of yarn v1 with two files, one GiB over the budget of the family. *)
Definition yarn : list visit :=
  [mkVisit "/home/ci/.cache/yarn" None true (Ok (0, Hour));
   mkVisit "/home/ci/.cache/yarn/v6/react/index.js" None false (Ok (7 * giB, Hour));
   mkVisit "/home/ci/.cache/yarn/v6/react/package.json" None false (Ok (6 * giB, 2 * Hour))].

Definition demo_machine : machine :=
  mkMachine {[ "/home/ci/.cache/yarn*" := ["/home/ci/.cache/yarn"] ]} {[ "/home/ci/.cache/yarn" := yarn ]}
    {[ "/home/ci/actions-runner-1/_work" := ["_temp"; "_tool"; "acme"; "old"] ]} ∅ []
    [pressed; pressed; pressed] healthy [].

Definition kind (p x : string) : bool := HasPrefix x p.

(** What the pressure cleanup of a starting job does to the work root: the workspace of
    the job, its file commands and the tool cache stay. *)
Example starting_job_keeps_its_workspace :
  List.filter (fun x => kind "delete" x || kind "chown" x || kind "mkdir" x)
    (mc_done (snd (run_hook (demo_hook EventJobStarted) demo_machine))) =
  ["chown /home/ci/actions-runner-1/_work/acme"; "delete /home/ci/actions-runner-1/_work/old";
   "mkdir /home/ci/actions-runner-1/_work/acme/app"].
Proof. vm_compute. reflexivity. Qed.

(** The hook trims by file what the shared policy trims by package.  The policy gives the
    yarn cache the package as its unit, because a package with a missing file breaks the
    next install; the hook copies the path, the budget and the protection of a cap but not
    its unit, and removes one file out of the package. *)
Theorem hook_splits_a_package :
  List.filter (kind "remove") (mc_done (snd (run_hook (demo_hook EventJobStarted) demo_machine))) =
    ["remove /home/ci/.cache/yarn/v6/react/index.js"] /\
  (let '(caps, m) := interp on_machine (link hook_deps (Caps ["/home/ci"])) demo_machine in
   let yarn := List.filter (fun c => String.eqb (cp_Path c) "/home/ci/.cache/yarn") caps in
   cp_PackageDepth <$> yarn = [2] /\
   List.filter (kind "remove") (mc_done (snd (interp on_machine
     (link hook_deps (TrimByAge (H:=SortSlice_insertion) (H0:=MapRange_to_list) (mkTrimOptions true (100 * Hour) 0)
        (default (mkCap "" 0 0 0 false) (head yarn)))) m))) = ["remove /home/ci/.cache/yarn/v6/react"]).
Proof. vm_compute. split_and!; reflexivity. Qed.

(** Another runner is in the middle of a job whose container publishes the port of the
    object storage. *)
Definition sibling : list Activity := [mkActivity 9 "/home/ci/actions-runner-2/bin/Runner.Worker"].

Definition two_runners : machine :=
  mkMachine ∅ ∅ ∅ {[ "ps -q" := "f00d"; "inspect --format" := "f00d|shop||9020 " ]} sibling
    [Ok (100 * giB, 90 * giB); Ok (100 * giB, 90 * giB)] healthy [].

(** A starting job takes down the stack of another runner.  The reaper of leftovers takes
    every container on a known port, or of a known project, for a leftover: it does not
    look whether another runner is at work, and stops and removes what that runner's job
    is using. *)
Theorem sibling_stack_is_reaped :
  let '(r, m) := run_hook (demo_hook EventJobStarted) two_runners in
  forallb (own_activity (own_dirs (H:=SortSlice_insertion) (demo_hook EventJobStarted))) sibling = false /\
  hk_ExitCode r = 0 /\ List.filter (fun x => kind "docker stop" x || kind "docker rm" x) (mc_done m) =
    ["docker stop --time 5 f00d"; "docker rm -f f00d"].
Proof. vm_compute. split_and!; reflexivity. Qed.

(** A finished job fails on a measurement: the hook after a job exits with 1 when the disk
    cannot be measured at its start. *)
Theorem finished_job_fails_on_statfs `{SortSlice} `{MapRange} {W} (h : forall B, hookE B -> St W B) opts w e :
  hp_Event opts = EventJobCompleted -> IsZero (hp_Now opts) = false ->
  fst (h _ (StatfsFn (hp_FilesystemPath (defaulted opts (hp_Now opts)))) w) = Err e ->
  hk_ExitCode (fst (interp h (Run opts) w)) = 1.
Proof.
  intros Hev Hnow Hst. unfold Run, hook_applyDefaults. rewrite Hnow. rewrite !interp_bind. cbn [interp mret prog_mret].
  cbv zeta. unfold diskUsedPct. rewrite !interp_bind. cbn [interp call]. destruct (h _ _ w) as [st w1]. cbn in Hst. subst st.
  cbn [used_pct interp mret prog_mret]. unfold finish. cbv zeta. rewrite interp_bind.
  by destruct (interp h (appendLog _ _) w1).
Qed.

Lemma hook_touches_only_its_own_runner_witness :
  workRoots (H:=SortSlice_insertion) (demo_hook EventJobStarted) = ["/home/ci/actions-runner-1/_work"] /\
  work_root "/home/ci/actions-runner-1/_work" /\
  wpp (hook_spec (H:=SortSlice_insertion) (demo_hook EventJobStarted))
    (Run (H:=SortSlice_insertion) (H0:=MapRange_to_list) (demo_hook EventJobStarted)) (fun _ _ => True) hook_start.
Proof.
  destruct (hook_touches_only_its_own_runner (H:=SortSlice_insertion) (H0:=MapRange_to_list) (demo_hook EventJobStarted) eq_refl)
    as [Hr Hw].
  split; [vm_compute; reflexivity|]. split; [|exact Hw]. apply Hr. vm_compute. left.
Defined.

(** A small cache, written a minute ago. *)
Definition hot_machine : machine :=
  mkMachine {[ "/home/ci/.cache/yarn*" := ["/home/ci/.cache/yarn"] ]}
    {[ "/home/ci/.cache/yarn" := [mkVisit "/home/ci/.cache/yarn/v6/react/index.js" None false (Ok (giB, 100 * Hour - Minute))] ]}
    ∅ ∅ [] [pressed; pressed; pressed] healthy [].

(** After a job the caches are removed, hot or not: with no other runner at work the whole
    directory goes, although it is within its budget and was written a minute ago; under
    disk pressure, at the start of a job, the same cache is kept. *)
Theorem routine_cleanup_purges_hot_caches :
  List.filter (kind "remove") (mc_done (snd (run_hook (demo_hook EventJobCompleted) hot_machine))) =
    ["remove /home/ci/.cache/yarn"; "remove /home/ci/.npm/_cacache"; "remove /home/ci/.pnpm-store"] /\
  List.filter (kind "remove") (mc_done (snd (run_hook (demo_hook EventJobStarted) hot_machine))) = [].
Proof. vm_compute. split; reflexivity. Qed.
