(* ===== verification/HookInstall.v ===== *)
(** * internal/hook: installation of the job hooks (install.go, scoped_sudoers.go)

    [Install] writes the two hook scripts, the privileged wrappers and their sudoers
    drop-in, and reconciles the environment file of every runner.  All effects are
    injected; commands answer with their output and error. *)

From S2P Require Import Prelude GoStrings Prog Civm.

Local Open Scope string_scope.
Local Open Scope list_scope.
Local Open Scope Z_scope.

Definition DefaultGenerationBoundaryWrapperPath : string := "/usr/local/bin/civm-generation-boundary".
Definition DefaultDeploySourceDir : string := "/opt/civm/deploy".
Definition DefaultSafeDeleteWrapperSource : string := "bin/civm-safedelete".
Definition DefaultGenerationBoundaryWrapperSource : string := "bin/civm-generation-boundary".
Definition DefaultScopedSudoersSource : string := "sudoers.d/civm-cleanup".
Definition DefaultScopedSudoersDropIn : string := "/etc/sudoers.d/civm-cleanup".
Definition GenerationCleanBoundaryMarker : string := "civm-generation-boundary/v1".

Definition defaultHooksDir : string := "/opt/civm/hooks".
Definition defaultCivmctlBin : string := "/usr/local/bin/civmctl".
Definition defaultRunnerGlob : string := "/home/*/actions-runner*".
Definition startedHookName : string := "job-started.sh".
Definition completedHookName : string := "job-completed.sh".

(** 0o755 and 0o440; 0o644. *)
Definition safeDeleteWrapperPerm : Z := 493.
Definition scopedSudoersPerm : Z := 288.
Definition envPerm : Z := 420.
Definition sudoersTempSuffix : string := ".tmp".

Inductive installE : Type -> Type :=
  | GlobFn (pattern : string) : installE (result (list string))
  | ReadFileFn (path : string) : installE (result string)
  | WriteFileFn (path data : string) (perm : Z) : installE err_ret
  | MkdirAllFn (path : string) : installE err_ret                 (* 0755 *)
  | RemoveFn (path : string) : installE err_ret
  | RunFn (name : string) (args : list string) : installE (string * err_ret)
  | RenameFn (oldpath newpath : string) : installE err_ret
  | AllocatePortFn (slot : string) : installE (result Z).

Record InstallOptions := mkInstallOptions {
  io_Execute : bool;
  io_HooksDir : string;
  io_CivmctlPath : string;
  io_RunnerGlob : string;
  io_RestartRunners : bool;
  io_DeploySourceDir : string;
  io_SkipScopedSudoers : bool;
}.

Record InstallResult := mkInstallResult {
  in_Executed : bool;
  in_HooksDir : string;
  in_RunnerEnvFiles : list string;
  in_Restarted : bool;
  in_Error : string;
}.

Definition DefaultInstallOptions : InstallOptions :=
  mkInstallOptions false defaultHooksDir defaultCivmctlBin defaultRunnerGlob true DefaultDeploySourceDir false.

Definition or_default (s d : string) : string := if String.eqb s "" then d else s.

Definition applyInstallDefaults (o : InstallOptions) : InstallOptions :=
  mkInstallOptions (io_Execute o) (or_default (io_HooksDir o) defaultHooksDir) (or_default (io_CivmctlPath o) defaultCivmctlBin)
    (or_default (io_RunnerGlob o) defaultRunnerGlob) (io_RestartRunners o)
    (or_default (io_DeploySourceDir o) DefaultDeploySourceDir) (io_SkipScopedSudoers o).

Definition runnerSlot (dir : string) : string :=
  let b := Base dir in
  let s := TrimPrefix b "actions-runner-" in
  if negb (String.eqb s b) && negb (String.eqb s "") then s else b.

Definition validateInstallOptions (o : InstallOptions) : err_ret :=
  if contains_char "000" (io_HooksDir o) || negb (IsAbs (Clean (io_HooksDir o)))
  then Some (Errorf "hooks-dir must be an absolute path")
  else if contains_char "000" (io_CivmctlPath o) || negb (IsAbs (Clean (io_CivmctlPath o)))
  then Some (Errorf "civmctl-path must be an absolute path")
  else if contains_char "000" (io_RunnerGlob o) then Some (Errorf "runner-glob contains NUL byte")
  else None.

Definition blockedRoots : list string :=
  ["/bin"; "/boot"; "/dev"; "/etc"; "/proc"; "/run"; "/sys"; "/tmp"; "/usr"; "/var/tmp"].

Definition IsRunnerDirCandidate (path : string) : bool :=
  if contains_char "000" path then false
  else
    let path := Clean path in
    if negb (IsAbs path) || String.eqb path "/" then false
    else if negb (HasPrefix (Base path) "actions-runner") then false
    else negb (existsb (fun root => String.eqb path root || HasPrefix path (root +:+ "/")) blockedRoots).

Definition safeRunnerDir (path : string) : bool := IsRunnerDirCandidate path.

Definition installError (res : InstallResult) (err : err_ret) : InstallResult :=
  match err with
  | Some e => mkInstallResult (in_Executed res) (in_HooksDir res) (in_RunnerEnvFiles res) (in_Restarted res) (err_text e)
  | None => res
  end.

(** ** Scripts *)

(** [strings.ReplaceAll] of one character. *)
Fixpoint replace_char (c : ascii) (r s : string) : string :=
  match s with
  | "" => ""
  | String d s => (if Ascii.eqb d c then r else String d "") +:+ replace_char c r s
  end.

Definition dquote : string := String "034" "".

Definition shellQuote (value : string) : string :=
  "'" +:+ replace_char "'" ("'" +:+ dquote +:+ "'" +:+ dquote +:+ "'") value +:+ "'".

Definition newline : string := String "010" "".

Definition ScriptContent (civmctlPath event : string) : string :=
  "#!/usr/bin/env bash" +:+ newline +:+ "set -euo pipefail" +:+ newline +:+
  "exec " +:+ shellQuote civmctlPath +:+ " hook " +:+ event +:+ " --execute " +:+ dquote +:+ "$@" +:+ dquote +:+ newline.

(** ** The environment file *)

Definition startedKey : string := "ACTIONS_RUNNER_HOOK_JOB_STARTED".
Definition completedKey : string := "ACTIONS_RUNNER_HOOK_JOB_COMPLETED".

(** The text before the first [=], or the whole line. *)
Definition line_key (line : string) : string := match Cut "=" line with Some (k, _) => k | None => line end.

Definition env_keeps (extra : list (string * string)) (line : string) : bool :=
  negb (String.eqb (TrimSpace line) "") &&
  negb (String.eqb (line_key line) startedKey) && negb (String.eqb (line_key line) completedKey) &&
  negb (existsb (String.eqb (line_key line)) (fst <$> extra)).

Definition extra_value (extra : list (string * string)) (k : string) : string :=
  match list_find (fun p => fst p = k) extra with Some (_, (_, v)) => v | None => "" end.

Section install.
Context `{SortSlice}.

Definition env_lines (hooksDir : string) (extra : list (string * string)) (data : string) : list string :=
  List.filter (env_keeps extra) (Split "010" data) ++
  [startedKey +:+ "=" +:+ PathJoin hooksDir startedHookName; completedKey +:+ "=" +:+ PathJoin hooksDir completedHookName] ++
  ((fun k => k +:+ "=" +:+ extra_value extra k) <$> sort_slice String.ltb (fst <$> extra)).

Definition env_text (hooksDir : string) (extra : list (string * string)) (data : string) : string :=
  Join (env_lines hooksDir extra data) newline +:+ newline.

(** [extra] is a map: every key occurs once. *)
Definition upsertEnv (o : InstallOptions) (envPath : string) (extra : list (string * string)) : prog installE err_ret :=
  if existsb (fun k => HasPrefix k "ACTIONS_RUNNER_HOOK_") (fst <$> extra)
  then mret (Some (Errorf "extra must not contain ACTIONS_RUNNER_HOOK_* keys"))
  else
    data ← call (ReadFileFn envPath);
    match data with
    | Ok data => call (WriteFileFn envPath (env_text (io_HooksDir o) extra data) envPerm)
    | Err e => if errors_Is e ErrNotExist then call (WriteFileFn envPath (env_text (io_HooksDir o) extra "") envPerm)
               else mret (Some e)
    end.

(** ** The privileged wrappers (scoped_sudoers.go) *)

(** [if err != nil { return err }]. *)
Definition and_then (m k : prog installE err_ret) : prog installE err_ret :=
  e ← m; match e with Some e => mret (Some e) | None => k end.

(** The same with the error wrapped. *)
Definition or_fail (what : string) (m k : prog installE err_ret) : prog installE err_ret :=
  e ← m; match e with Some e => mret (Some (Errorf_w what e)) | None => k end.

Definition installPrivilegedWrapper (o : InstallOptions) (source destination name : string) : prog installE err_ret :=
  let src := PathJoin (io_DeploySourceDir o) source in
  content ← call (ReadFileFn src);
  match content with
  | Err e => mret (Some (Errorf_w ("read " +:+ name +:+ " wrapper source " +:+ src) e))
  | Ok content =>
      if len content =? 0 then mret (Some (Errorf (name +:+ " wrapper source " +:+ src +:+ " is empty")))
      else or_fail ("mkdir for " +:+ name +:+ " wrapper " +:+ destination) (call (MkdirAllFn (Dir destination)))
             (or_fail ("write " +:+ name +:+ " wrapper " +:+ destination)
                (call (WriteFileFn destination content safeDeleteWrapperPerm)) (mret None))
  end.

Definition installSafeDeleteWrapper (o : InstallOptions) : prog installE err_ret :=
  installPrivilegedWrapper o DefaultSafeDeleteWrapperSource DefaultSafeDeleteWrapperPath "safedelete".

Definition installGenerationBoundaryWrapper (o : InstallOptions) : prog installE err_ret :=
  installPrivilegedWrapper o DefaultGenerationBoundaryWrapperSource DefaultGenerationBoundaryWrapperPath "generation-boundary".

Definition trimVisudoOutput (out : string) : string := if 200 <? len out then take_str 200 out else out.

Definition sudoersTmp : string := DefaultScopedSudoersDropIn +:+ sudoersTempSuffix.

Definition installSudoersDropIn (o : InstallOptions) : prog installE err_ret :=
  let src := PathJoin (io_DeploySourceDir o) DefaultScopedSudoersSource in
  content ← call (ReadFileFn src);
  match content with
  | Err e => mret (Some (Errorf_w ("read scoped sudoers source " +:+ src) e))
  | Ok content =>
      if len content =? 0 then mret (Some (Errorf ("scoped sudoers source " +:+ src +:+ " is empty")))
      else
        let final := DefaultScopedSudoersDropIn in
        let tmp := sudoersTmp in
        or_fail ("mkdir for sudoers drop-in " +:+ final) (call (MkdirAllFn (Dir final)))
          (or_fail ("write sudoers temp " +:+ tmp) (call (WriteFileFn tmp content scopedSudoersPerm))
             (checked ← call (RunFn "visudo" ["-c"; "-f"; tmp]);
              match checked with
              | (out, Some e) =>
                  call (RemoveFn tmp);; mret (Some (Errorf_w ("visudo rejected scoped sudoers (" +:+ trimVisudoOutput out +:+ ")") e))
              | (_, None) =>
                  e ← call (RenameFn tmp final);
                  match e with
                  | Some e => call (RemoveFn tmp);; mret (Some (Errorf_w ("activate sudoers drop-in " +:+ final) e))
                  | None => mret None
                  end
              end))
  end.

Definition installScopedSudoers (o : InstallOptions) : prog installE err_ret :=
  and_then (installSafeDeleteWrapper o) (and_then (installGenerationBoundaryWrapper o) (installSudoersDropIn o)).

Definition verifySafeDeleteCapability : prog installE err_ret :=
  r ← call (RunFn "sudo" ["-n"; DefaultSafeDeleteWrapperPath; "--check"]);
  mret (match snd r with
        | Some e => Some (Errorf_w ("safedelete capability probe failed (sudo -n " +:+ DefaultSafeDeleteWrapperPath +:+ " --check)") e)
        | None => None
        end).

Definition verifyGenerationBoundaryCapability : prog installE err_ret :=
  r ← call (RunFn "sudo" ["-n"; DefaultGenerationBoundaryWrapperPath; "--check"]);
  mret (match r with
        | (_, Some e) => Some (Errorf_w ("generation-boundary capability probe failed (sudo -n " +:+ DefaultGenerationBoundaryWrapperPath +:+ " --check)") e)
        | (out, None) => if negb (String.eqb (TrimSpace out) GenerationCleanBoundaryMarker)
                         then Some (Errorf "generation-boundary capability probe returned incompatible marker") else None
        end).

(** ** Install *)

Definition ensureHookScript (o : InstallOptions) (path event : string) : prog installE err_ret :=
  e ← call (RemoveFn path);
  match (match e with Some e => if errors_Is e ErrNotExist then None else Some e | None => None end) with
  | Some e => mret (Some (Errorf_w ("remove existing " +:+ path) e))
  | None => or_fail ("write hook script " +:+ path) (call (WriteFileFn path (ScriptContent (io_CivmctlPath o) event) 493)) (mret None)
  end.

Fixpoint remove_legacy (hooksDir : string) (names : list string) : prog installE err_ret :=
  match names with
  | [] => mret None
  | name :: names =>
      e ← call (RemoveFn (PathJoin hooksDir name));
      match (match e with Some e => if errors_Is e ErrNotExist then None else Some e | None => None end) with
      | Some e => mret (Some e)
      | None => remove_legacy hooksDir names
      end
  end.

Fixpoint write_hooks (o : InstallOptions) (hooks : list (string * string)) : prog installE err_ret :=
  match hooks with
  | [] => mret None
  | (name, event) :: hooks => and_then (ensureHookScript o (PathJoin (io_HooksDir o) name) event) (write_hooks o hooks)
  end.

(** What [--execute] does before the runners. *)
Definition install_host (o : InstallOptions) : prog installE err_ret :=
  and_then (call (MkdirAllFn (io_HooksDir o)))
    (and_then (remove_legacy (io_HooksDir o) ["job-started"; "job-completed"])
       (and_then (write_hooks o [(startedHookName, "job-started"); (completedHookName, "job-completed")])
          (if io_SkipScopedSudoers o then mret None
           else and_then (installScopedSudoers o) (and_then verifySafeDeleteCapability verifyGenerationBoundaryCapability)))).

Definition runner_extra (slot : string) (base : Z) : list (string * string) :=
  [("CIVM_RUNNER_SLOT", slot); ("CIVM_PORT_BASE", Itoa base); ("COMPOSE_PROJECT_NAME", slot)].

Definition install_runner (o : InstallOptions) (runner : string) : prog installE err_ret :=
  let slot := runnerSlot runner in
  base ← call (AllocatePortFn slot);
  match base with
  | Err e => mret (Some (Errorf_w ("allocate port block for slot " +:+ slot) e))
  | Ok base => upsertEnv o (PathJoin runner ".env") (runner_extra slot base)
  end.

Definition with_env (path : string) (res : InstallResult) : InstallResult :=
  mkInstallResult (in_Executed res) (in_HooksDir res) (in_RunnerEnvFiles res ++ [path]) (in_Restarted res) (in_Error res).
Definition restarted (res : InstallResult) : InstallResult :=
  mkInstallResult (in_Executed res) (in_HooksDir res) (in_RunnerEnvFiles res) true (in_Error res).

(** The result so far, and the error that ends the loop. *)
Fixpoint install_runners (o : InstallOptions) (runners : list string) (res : InstallResult) : prog installE (InstallResult * err_ret) :=
  match runners with
  | [] => mret (res, None)
  | runner :: runners =>
      if negb (safeRunnerDir runner) then install_runners o runners res
      else
        let res := with_env (PathJoin runner ".env") res in
        e ← (if io_Execute o then install_runner o runner else mret None);
        match e with
        | Some e => mret (res, Some e)
        | None => install_runners o runners res
        end
  end.

Definition Install (o : InstallOptions) : prog installE InstallResult :=
  let o := applyInstallDefaults o in
  let res := mkInstallResult (io_Execute o) (io_HooksDir o) [] false "" in
  match validateInstallOptions o with
  | Some e => mret (installError res (Some e))
  | None =>
      e ← (if io_Execute o then install_host o else mret None);
      match e with
      | Some e => mret (installError res (Some e))
      | None =>
          runners ← call (GlobFn (io_RunnerGlob o));
          match runners with
          | Err e => mret (installError res (Some e))
          | Ok runners =>
              r ← install_runners o (sort_slice String.ltb runners) res;
              match r with
              | (res, Some e) => mret (installError res (Some e))
              | (res, None) =>
                  if io_Execute o && io_RestartRunners o then
                    done ← call (RunFn "systemctl" ["restart"; "actions.runner.*"]);
                    mret (match snd done with Some e => installError res (Some e) | None => restarted res end)
                  else mret res
              end
          end
      end
  end.
End install.
