(* ===== verification/HookInstallSafety.v ===== *)
(** * Installation of the job hooks: properties

    The ghost state is the trace of what was done.  Whatever the file system and the
    commands answer, the sudoers drop-in is activated right after visudo accepted exactly
    the text that was staged, runners are touched only on a host that is ready, and a dry
    run does nothing. *)

From S2P Require Import Prelude GoStrings Prog Civm HookInstall.

Local Open Scope string_scope.
Local Open Scope list_scope.
Local Open Scope Z_scope.

Inductive did :=
  | Globbed (r : result (list string))
  | Read (path : string) (r : result string)
  | Wrote (path data : string) (perm : Z) (ok : bool)
  | Made (path : string)
  | Removed (path : string)
  | Ran (name : string) (args : list string) (out : string) (ok : bool)
  | Renamed (oldpath newpath : string) (ok : bool)
  | Allocated (slot : string) (r : result Z).

Definition fine (e : err_ret) : bool := match e with None => true | Some _ => false end.

(** Errors of the system have a text. *)
Definition worded (e : err_ret) : Prop := forall x, e = Some x -> err_text x <> "".
Definition worded_result {A} (r : result A) : Prop := forall x, r = Err x -> err_text x <> "".

Section spec.
Context `{SortSlice} (o : InstallOptions).

Definition wrapper (src dst : string) : Prop :=
  (src, dst) = (PathJoin (io_DeploySourceDir o) DefaultSafeDeleteWrapperSource, DefaultSafeDeleteWrapperPath) \/
  (src, dst) = (PathJoin (io_DeploySourceDir o) DefaultGenerationBoundaryWrapperSource, DefaultGenerationBoundaryWrapperPath).

Definition sudoers_source : string := PathJoin (io_DeploySourceDir o) DefaultScopedSudoersSource.

Definition hook_file (name event : string) : Prop :=
  (name, event) = (startedHookName, "job-started") \/ (name, event) = (completedHookName, "job-completed").

Definition script_written (t : list did) : Prop := forall name event, hook_file name event ->
  Wrote (PathJoin (io_HooksDir o) name) (ScriptContent (io_CivmctlPath o) event) 493 true ∈ t.

(** The drop-in is active and both probes have succeeded as root. *)
Definition privileged (t : list did) : Prop :=
  Renamed sudoersTmp DefaultScopedSudoersDropIn true ∈ t /\
  (exists out, Ran "sudo" ["-n"; DefaultSafeDeleteWrapperPath; "--check"] out true ∈ t) /\
  (exists out, Ran "sudo" ["-n"; DefaultGenerationBoundaryWrapperPath; "--check"] out true ∈ t /\
     TrimSpace out = GenerationCleanBoundaryMarker).

Definition host_ready (t : list did) : Prop := script_written t /\ (io_SkipScopedSudoers o = true \/ privileged t).

(** The runners that were found and may be touched. *)
Definition candidate (t : list did) (runner : string) : Prop :=
  exists l, Globbed (Ok l) ∈ t /\ runner ∈ l /\ safeRunnerDir runner = true.

Definition env_of (runner : string) : string := PathJoin runner ".env".

(** The file a runner gets from what was there. *)
Definition env_from (runner : string) (base : Z) (r : result string) (data : string) : Prop :=
  let text := env_text (io_HooksDir o) (runner_extra (runnerSlot runner) base) in
  (exists old, r = Ok old /\ data = text old) \/
  (exists e, r = Err e /\ errors_Is e ErrNotExist = true /\ data = text "").

Definition may_write (t : list did) (path data : string) (perm : Z) : Prop :=
  (exists name event, hook_file name event /\ path = PathJoin (io_HooksDir o) name /\
     data = ScriptContent (io_CivmctlPath o) event /\ perm = 493) \/
  (io_SkipScopedSudoers o = false /\ perm = safeDeleteWrapperPerm /\ data <> "" /\
     exists src, wrapper src path /\ Read src (Ok data) ∈ t) \/
  (io_SkipScopedSudoers o = false /\ path = sudoersTmp /\ perm = scopedSudoersPerm /\ data <> "" /\ Read sudoers_source (Ok data) ∈ t) \/
  (host_ready t /\ perm = envPerm /\ exists runner base r t', candidate t runner /\ path = env_of runner /\
     t = t' ++ [Allocated (runnerSlot runner) (Ok base); Read path r] /\ env_from runner base r data).

Definition env_written (t : list did) (runner : string) : Prop :=
  exists base r data, Allocated (runnerSlot runner) (Ok base) ∈ t /\ env_from runner base r data /\
    Wrote (env_of runner) data envPerm true ∈ t.

Definition may_run (t : list did) (name : string) (args : list string) : Prop :=
  ((name, args) = ("visudo", ["-c"; "-f"; sudoersTmp]) /\
     exists t' data, t = t' ++ [Wrote sudoersTmp data scopedSudoersPerm true]) \/
  ((exists w, (name, args) = ("sudo", ["-n"; w; "--check"])) /\ Renamed sudoersTmp DefaultScopedSudoersDropIn true ∈ t) \/
  ((name, args) = ("systemctl", ["restart"; "actions.runner.*"]) /\ io_RestartRunners o = true /\ host_ready t /\
     exists l, Globbed (Ok l) ∈ t /\ forall runner, runner ∈ l -> safeRunnerDir runner = true -> env_written t runner).

Definition install_spec : spec installE (list did) := {|
  allowed B e t :=
    match e with
    | GlobFn pattern => pattern = io_RunnerGlob o
    | ReadFileFn _ => io_Execute o = true
    | WriteFileFn path data perm => io_Execute o = true /\ may_write t path data perm
    | MkdirAllFn path => io_Execute o = true /\ (path = io_HooksDir o \/
        io_SkipScopedSudoers o = false /\ (path = Dir DefaultScopedSudoersDropIn \/ exists src dst, wrapper src dst /\ path = Dir dst))
    | RemoveFn path => io_Execute o = true /\
        (path = sudoersTmp \/ exists name, path = PathJoin (io_HooksDir o) name /\
           name ∈ ["job-started"; "job-completed"; startedHookName; completedHookName])
    | RunFn name args => io_Execute o = true /\ may_run t name args
    | RenameFn old new => io_Execute o = true /\ (old, new) = (sudoersTmp, DefaultScopedSudoersDropIn) /\
        exists t' data out, data <> "" /\ Read sudoers_source (Ok data) ∈ t' /\
          t = t' ++ [Wrote sudoersTmp data scopedSudoersPerm true; Ran "visudo" ["-c"; "-f"; sudoersTmp] out true]
    | AllocatePortFn slot => io_Execute o = true /\ host_ready t /\ exists runner, candidate t runner /\ slot = runnerSlot runner
    end;
  answers B e t :=
    match e in installE B return B -> list did -> Prop with
    | GlobFn _ => fun r t' => t' = t ++ [Globbed r] /\ worded_result r
    | ReadFileFn path => fun r t' => t' = t ++ [Read path r] /\ worded_result r
    | WriteFileFn path data perm => fun r t' => t' = t ++ [Wrote path data perm (fine r)] /\ worded r
    | MkdirAllFn path => fun r t' => t' = t ++ [Made path] /\ worded r
    | RemoveFn path => fun r t' => t' = t ++ [Removed path] /\ worded r
    | RunFn name args => fun r t' => t' = t ++ [Ran name args (fst r) (fine (snd r))] /\ worded (snd r)
    | RenameFn old new => fun r t' => t' = t ++ [Renamed old new (fine r)] /\ worded r
    | AllocatePortFn slot => fun r t' => t' = t ++ [Allocated slot r] /\ worded_result r
    end;
|}.

Local Abbreviation P m Q t := (wpp install_spec m Q t).

(** ** Rules *)

(** A fact of the trace stays one. *)
Lemma host_ready_app t u : host_ready t -> host_ready (t ++ u).
Proof.
  intros [Hs Hp]. split; [intros name event He; apply elem_of_app; left; auto|]. destruct Hp as [Hp|(H1 & (o1 & H2) & (o2 & H3 & H4))]; [by left|right].
  split_and!; [set_solver|exists o1; set_solver|exists o2; set_solver].
Qed.

Lemma candidate_app t u runner : candidate t runner -> candidate (t ++ u) runner.
Proof. intros (l & ? & ? & ?). exists l. set_solver. Qed.

Lemma env_written_app t u runner : env_written t runner -> env_written (t ++ u) runner.
Proof. intros (b & r & d & ? & ? & ?). exists b, r, d. set_solver. Qed.

(** Results of a step: it only adds to the trace, and an error has a text. *)
Definition grows (t : list did) (Q : list did -> Prop) : err_ret -> list did -> Prop := fun e t' =>
  t `prefix_of` t' /\ worded e /\ (e = None -> Q t').

Lemma grows_mono t t' (Q Q' : list did -> Prop) e u :
  grows t' Q e u -> t `prefix_of` t' -> (Q u -> Q' u) -> grows t Q' e u.
Proof. intros (Hp & Hw & HQ) Ht HQQ. split_and!; [by etrans|done|auto]. Qed.

(** The trace may have grown before. *)
Lemma in_after t t' (Q : list did -> Prop) m : t `prefix_of` t' -> P m (grows t' Q) t' -> P m (grows t Q) t'.
Proof. intros Ht Hm. eapply wpp_mono; [exact Hm|]. intros e u Hu. by eapply grows_mono. Qed.

Lemma worded_w what e : err_text (Errorf_w what e) <> "".
Proof. by destruct what. Qed.

Lemma worded_some e : err_text e <> "" -> worded (Some e).
Proof. by intros He x [= <-]. Qed.

Lemma in_and_then m k t (Q1 Q2 : list did -> Prop) :
  P m (grows t Q1) t -> (forall t', t `prefix_of` t' -> Q1 t' -> P k (grows t' Q2) t') -> P (and_then m k) (grows t Q2) t.
Proof.
  intros Hm Hk. unfold and_then. apply wpp_bind. eapply wpp_mono; [exact Hm|]. intros [e|] t' (Hp & Hw & HQ).
  - by apply wpp_ret.
  - eapply wpp_mono; [by apply Hk; auto|]. intros e u Hu. by eapply grows_mono.
Qed.

Lemma in_or_fail what m k t (Q1 Q2 : list did -> Prop) :
  P m (grows t Q1) t -> (forall t', t `prefix_of` t' -> Q1 t' -> P k (grows t' Q2) t') -> P (or_fail what m k) (grows t Q2) t.
Proof.
  intros Hm Hk. unfold or_fail. apply wpp_bind. eapply wpp_mono; [exact Hm|]. intros [e|] t' (Hp & Hw & HQ).
  - apply wpp_ret. split_and!; [done| |done]. intros x [= <-]. apply worded_w.
  - eapply wpp_mono; [by apply Hk; auto|]. intros e u Hu. by eapply grows_mono.
Qed.

(** One call whose answer is an error or nothing. *)
Lemma in_call (e : installE err_ret) t (Q : list did -> Prop) :
  allowed install_spec e t ->
  (forall r t', answers install_spec e t r t' -> t `prefix_of` t' /\ worded r /\ (r = None -> Q t')) -> P (call e) (grows t Q) t.
Proof. intros Ha Hr. by apply wpp_call. Qed.

Lemma in_ret t (Q : list did -> Prop) : Q t -> P (mret None) (grows t Q) t.
Proof. intros HQ. apply wpp_ret. by split_and!. Qed.

Ltac step := intros ? ? [-> ?]; split_and!; [by eexists|done|].

Lemma in_write path data perm t : io_Execute o = true -> may_write t path data perm ->
  P (call (WriteFileFn path data perm)) (grows t (fun t' => t' = t ++ [Wrote path data perm true])) t.
Proof. intros Hx Hw. apply in_call; [done|]. step. by intros ->. Qed.

Lemma in_mkdir path t : allowed install_spec (MkdirAllFn path) t -> P (call (MkdirAllFn path)) (grows t (fun _ => True)) t.
Proof. intros Ha. apply in_call; [done|]. by step. Qed.

(** ** The hook scripts *)

Context (Hx : io_Execute o = true).

Lemma in_remove_legacy names t :
  (forall n, n ∈ names -> n ∈ ["job-started"; "job-completed"]) -> P (remove_legacy (io_HooksDir o) names) (grows t (fun _ => True)) t.
Proof.
  revert t. induction names as [|n names IH]; intros t Hn; cbn [remove_legacy]; [by apply in_ret|].
  apply wpp_bind, wpp_call; [split; [done|]; right; exists n; split; [done|]; specialize (Hn n); set_solver|].
  intros r t' [-> Hr]. assert (P (remove_legacy (io_HooksDir o) names) (grows t (fun _ => True)) (t ++ [Removed (PathJoin (io_HooksDir o) n)])) as Hk.
  { apply in_after; [by eexists|]. apply IH; set_solver. }
  destruct r as [e|]; [|exact Hk]. destruct (errors_Is e ErrNotExist); [exact Hk|]. apply wpp_ret. split_and!; [by eexists|done|done].
Qed.

Lemma in_hook_script name event t :
  hook_file name event ->
  P (ensureHookScript o (PathJoin (io_HooksDir o) name) event)
    (grows t (fun t' => Wrote (PathJoin (io_HooksDir o) name) (ScriptContent (io_CivmctlPath o) event) 493 true ∈ t')) t.
Proof.
  intros Hh. unfold ensureHookScript. apply wpp_bind, wpp_call.
  { split; [done|]. right. exists name. split; [done|]. destruct Hh as [[= -> _]|[= -> _]]; set_solver. }
  intros r t1 [-> Hr]. match goal with |- P (match ?x with _ => _ end) _ _ => destruct x as [e|] end.
  - apply wpp_ret. split_and!; [by eexists|by apply worded_some, worded_w|done].
  - apply in_after; [by eexists|]. eapply in_or_fail; [apply in_write; [done|]; left; by exists name, event|].
    intros t2 Hp ->. apply in_ret. set_solver.
Qed.

Lemma prefix_elem (t u : list did) d : t `prefix_of` u -> d ∈ t -> d ∈ u.
Proof. intros [w ->] Hd. set_solver. Qed.

Lemma in_write_hooks t : P (write_hooks o [(startedHookName, "job-started"); (completedHookName, "job-completed")]) (grows t script_written) t.
Proof.
  cbn [write_hooks]. eapply in_and_then; [apply in_hook_script; by left|]. intros t1 _ H1.
  eapply in_and_then; [apply in_hook_script; by right|]. intros t2 Hp H2. apply in_ret.
  intros name event [[= -> ->]|[= -> ->]]; [by eapply prefix_elem|done].
Qed.

(** ** The privileged part *)

Context (Hs : io_SkipScopedSudoers o = false).

Lemma len_nonempty d : (len d =? 0) = false -> d <> "".
Proof. intros E ->. done. Qed.

Lemma in_wrapper source destination name t :
  wrapper (PathJoin (io_DeploySourceDir o) source) destination ->
  P (installPrivilegedWrapper o source destination name) (grows t (fun _ => True)) t.
Proof.
  intros Hw. unfold installPrivilegedWrapper. apply wpp_bind, wpp_call; [done|]. intros [d|e] t1 [-> Hr].
  - destruct (len d =? 0) eqn:El.
    { apply wpp_ret. split_and!; [by eexists|apply worded_some; by destruct name|done]. }
    apply len_nonempty in El. apply in_after; [by eexists|]. eapply in_or_fail; [apply in_mkdir|].
    + split; [done|]. right. split; [done|]. right. by exists (PathJoin (io_DeploySourceDir o) source), destination.
    + intros t2 Hp _. eapply in_or_fail; [apply in_write; [done|]|].
      * right. left. split_and!; [done..|]. exists (PathJoin (io_DeploySourceDir o) source). split; [done|]. eapply prefix_elem; [done|set_solver].
      * intros t3 _ _. by apply in_ret.
  - apply wpp_ret. split_and!; [by eexists|by apply worded_some, worded_w|done].
Qed.

Definition activated (t : list did) : Prop := Renamed sudoersTmp DefaultScopedSudoersDropIn true ∈ t.

(** The check and the activation, right after the staging. *)
Lemma in_activate data t t0 (k : string -> string) :
  data <> "" -> Read sudoers_source (Ok data) ∈ t0 -> t = t0 ++ [Wrote sudoersTmp data scopedSudoersPerm true] ->
  P (checked ← call (RunFn "visudo" ["-c"; "-f"; sudoersTmp]);
     match checked with
     | (out, Some e) => call (RemoveFn sudoersTmp);; mret (Some (Errorf_w (k out) e))
     | (_, None) =>
         e ← call (RenameFn sudoersTmp DefaultScopedSudoersDropIn);
         match e with
         | Some e => call (RemoveFn sudoersTmp);; mret (Some (Errorf_w ("activate sudoers drop-in " +:+ DefaultScopedSudoersDropIn) e))
         | None => mret None
         end
     end) (grows t activated) t.
Proof.
  intros Hne Hr ->. apply wpp_bind, wpp_call; [split; [done|]; left; split; [done|]; by exists t0, data|].
  intros [out r] t1 [-> _]. cbn [fst snd].
  assert (forall what e u, (t0 ++ [Wrote sudoersTmp data scopedSudoersPerm true]) `prefix_of` u ->
    P (call (RemoveFn sudoersTmp);; mret (Some (Errorf_w what e))) (grows (t0 ++ [Wrote sudoersTmp data scopedSudoersPerm true]) activated) u) as Hrm.
  { intros what e u Hu. apply wpp_bind, wpp_call; [split; [done|]; by left|]. intros r' u' [-> _]. apply wpp_ret.
    split_and!; [by apply prefix_app_r|by apply worded_some, worded_w|done]. }
  destruct r as [e|]; [apply Hrm; by eexists|].
  apply wpp_bind, wpp_call.
  { split; [done|]. split; [done|]. exists t0, data, out. split_and!; [done..|]. by rewrite <- (assoc_L (++)). }
  intros [e|] t2 [-> _]; [apply Hrm; apply prefix_app_r; by eexists|].
  apply wpp_ret. split_and!; [apply prefix_app_r; by eexists|done|]. intros _. unfold activated. set_solver.
Qed.

Lemma in_drop_in t : P (installSudoersDropIn o) (grows t activated) t.
Proof.
  unfold installSudoersDropIn. apply wpp_bind, wpp_call; [done|]. intros [d|e] t1 [-> Hr].
  - destruct (len d =? 0) eqn:El; [apply wpp_ret; split_and!; [by eexists|by apply worded_some|done]|].
    apply len_nonempty in El. apply in_after; [by eexists|]. eapply in_or_fail; [apply in_mkdir|].
    + split; [done|]. right. split; [done|]. by left.
    + intros t2 Hp _. eapply in_or_fail; [apply in_write; [done|]|].
      * right. right. left. split_and!; [done..|]. eapply prefix_elem; [done|set_solver].
      * intros t3 Hp3 ->. eapply in_activate; [done| |done]. eapply prefix_elem; [done|set_solver].
  - apply wpp_ret. split_and!; [by eexists|by apply worded_some, worded_w|done].
Qed.

Lemma in_scoped t :
  P (and_then (installScopedSudoers o) (and_then verifySafeDeleteCapability verifyGenerationBoundaryCapability)) (grows t privileged) t.
Proof.
  eapply in_and_then.
  - unfold installScopedSudoers. eapply in_and_then; [apply in_wrapper; by left|]. intros t1 _ _.
    eapply in_and_then; [apply in_wrapper; by right|]. intros t2 _ _. apply in_drop_in.
  - intros t1 _ Ha. eapply in_and_then with (Q1 := fun u => activated u /\ exists out, Ran "sudo" ["-n"; DefaultSafeDeleteWrapperPath; "--check"] out true ∈ u).
    + unfold verifySafeDeleteCapability. apply wpp_bind, wpp_call; [split; [done|]; right; left; split; [by eexists|done]|].
      intros [out [e|]] u [-> _]; apply wpp_ret; (split_and!; [by eexists|by (try apply worded_some, worded_w)|]); [done|].
      intros _. unfold activated in *. split; [set_solver|exists out; set_solver].
    + intros t2 _ [Ha2 (o1 & Ho1)]. unfold verifyGenerationBoundaryCapability.
      apply wpp_bind, wpp_call; [split; [done|]; right; left; split; [by eexists|done]|].
      intros [out [e|]] u [-> _]; apply wpp_ret; cbn [fst snd fine].
      * split_and!; [by eexists|by apply worded_some, worded_w|done].
      * destruct (String.eqb_spec (TrimSpace out) GenerationCleanBoundaryMarker) as [Hm|Hm]; cbn [negb];
          (split_and!; [by eexists|by (try apply worded_some)|]); [|done].
        intros _. unfold activated, privileged in *. split_and!; [set_solver|exists o1; set_solver|exists out; set_solver].
Qed.
End spec.

(** ** Install *)

Section install_all.
Context `{SortSlice} (o : InstallOptions).
Local Abbreviation P m Q t := (wpp (install_spec o) m Q t).

Lemma in_host t : io_Execute o = true -> P (install_host o) (grows t (host_ready o)) t.
Proof.
  intros Hx. unfold install_host. eapply in_and_then; [apply in_mkdir; split; [done|by left]|]. intros t1 _ _.
  eapply in_and_then; [by apply in_remove_legacy|]. intros t2 _ _.
  eapply in_and_then; [by apply in_write_hooks|]. intros t3 _ H3.
  destruct (io_SkipScopedSudoers o) eqn:Hs; [apply in_ret; split; [done|by left]|].
  eapply wpp_mono; [by apply in_scoped|]. intros e u ([w ->] & Hw & Hp). split_and!; [by eexists|done|].
  intros He. split; [|by right; apply Hp]. intros name event Hh. apply elem_of_app. left. by apply H3.
Qed.

Lemma in_runner runner t :
  io_Execute o = true -> host_ready o t -> candidate t runner ->
  P (install_runner o runner) (grows t (fun u => env_written o u runner)) t.
Proof.
  intros Hx Hr Hc. unfold install_runner. apply wpp_bind, wpp_call; [split_and!; [done..|]; by exists runner|].
  intros [base|e] t1 [-> Hw]; [|apply wpp_ret; split_and!; [by eexists|by apply worded_some, worded_w|done]].
  unfold upsertEnv. cbn [runner_extra fmap list_fmap fst]. cbn [existsb].
  change (HasPrefix "CIVM_RUNNER_SLOT" "ACTIONS_RUNNER_HOOK_" || (HasPrefix "CIVM_PORT_BASE" "ACTIONS_RUNNER_HOOK_" ||
    (HasPrefix "COMPOSE_PROJECT_NAME" "ACTIONS_RUNNER_HOOK_" || false))) with false. cbv iota.
  apply wpp_bind, wpp_call; [done|]. intros r t2 [-> Hw2]. rewrite <- (assoc_L (++)). cbn [app].
  set (t2 := t ++ [Allocated (runnerSlot runner) (Ok base); Read (PathJoin runner ".env") r]).
  assert (forall data, env_from o runner base r data -> P (call (WriteFileFn (PathJoin runner ".env") data envPerm))
    (grows t (fun u => env_written o u runner)) t2) as Hgo.
  { intros data Hd. apply in_after; [by eexists|]. eapply wpp_mono; [apply in_write; [done|]|].
    - right. right. right. split; [by apply host_ready_app|]. split; [done|]. exists runner, base, r, t.
      split_and!; [by apply candidate_app|done..].
    - intros e u Hu. eapply grows_mono; [exact Hu|done|]. intros ->. exists base, r, data. unfold t2. split_and!; [set_solver|done|set_solver]. }
  destruct r as [old|e]; [apply Hgo; left; by exists old|]. destruct (errors_Is e ErrNotExist) eqn:En; [apply Hgo; right; by exists e|].
  apply wpp_ret. split_and!; [by eexists|by apply worded_some, Hw2|done].
Qed.

Definition safe_env (runners : list string) : list string := env_of <$> List.filter safeRunnerDir runners.

Lemma in_runners runners res t :
  (io_Execute o = true -> host_ready o t /\ forall r, r ∈ runners -> safeRunnerDir r = true -> candidate t r) ->
  P (install_runners o runners res)
    (fun p u => worded (snd p) /\ t `prefix_of` u /\ (io_Execute o = false -> u = t) /\
       in_Executed (fst p) = in_Executed res /\ in_HooksDir (fst p) = in_HooksDir res /\ in_Restarted (fst p) = in_Restarted res /\
       in_Error (fst p) = in_Error res /\
       (snd p = None -> in_RunnerEnvFiles (fst p) = in_RunnerEnvFiles res ++ safe_env runners /\
          (io_Execute o = true -> forall r, r ∈ runners -> safeRunnerDir r = true -> env_written o u r))) t.
Proof.
  revert res t. induction runners as [|runner runners IH]; intros res t Ht; cbn [install_runners].
  { apply wpp_ret. split_and!; try done. intros _. unfold safe_env. cbn. rewrite app_nil_r. split; [done|]. set_solver. }
  unfold safe_env in *. cbn [List.filter]. destruct (safeRunnerDir runner) eqn:Es; cbn [negb].
  - apply wpp_bind. eapply (wpp_mono _ _ (fun e u => worded e /\ t `prefix_of` u /\ (io_Execute o = false -> u = t /\ e = None) /\
      (e = None -> io_Execute o = true -> env_written o u runner))).
    + destruct (io_Execute o) eqn:Hx; [|apply wpp_ret; by split_and!]. destruct (Ht eq_refl) as [Hr Hc].
      eapply wpp_mono; [apply in_runner; [done..|]; apply Hc; [apply list_elem_of_here|done]|]. intros e u (? & ? & ?). split_and!; [done|done|done|auto].
    + intros [e|] u (Hw & Hp & Hd & He).
      * apply wpp_ret. cbn. split_and!; try done. intros Hx. by destruct (Hd Hx).
      * eapply wpp_mono; [apply IH|].
        { intros Hx. destruct (Ht Hx) as [Hr Hc]. destruct Hp as [v ->]. split; [by apply host_ready_app|].
          intros r Hin Hs. apply candidate_app, Hc; [by apply list_elem_of_further|done]. }
        intros p u' (H1 & H2 & H3 & H4 & H5 & H6 & H7 & H8). cbn in *. split_and!; try done; [by etrans| |].
        { intros Hx. rewrite (H3 Hx). by apply Hd. }
        intros Hn. destruct (H8 Hn) as [H9 H10]. rewrite H9, <- (assoc_L (++)). split; [done|].
        intros Hx r [->|Hin]%elem_of_cons Hs; [|by apply H10]. destruct H2 as [v ->]. apply env_written_app. auto.
  - eapply wpp_mono; [apply IH; intros Hx; destruct (Ht Hx) as [Hr Hc]; split; [done|]; intros r Hin; apply Hc; by apply list_elem_of_further|].
    intros p u (H1 & H2 & H3 & H4 & H5 & H6 & H7 & H8). split_and!; try done. intros Hn. destruct (H8 Hn) as [H9 H10].
    split; [done|]. intros Hx r [->|Hin]%elem_of_cons Hs; [congruence|auto].
Qed.
End install_all.

Lemma installError_error res e : err_text e <> "" -> in_Error (installError res (Some e)) <> "".
Proof. done. Qed.

(** C10. Installation of the hooks.  Under any answers of the file system and of the
    commands: without [--execute] the runners are listed and nothing else is done.  The
    sudoers drop-in is replaced only right after visudo accepted exactly the text that was
    staged, which is the one read from the deploy directory; it is never written in place.
    Environment files, ports and the restart of the runners come only after both scripts
    are written and, unless the privileged part is skipped, the drop-in is active and both
    probes have succeeded as root.  Only directories that pass [safeRunnerDir] are touched,
    each gets the reconciled text of what was read there, and the runners are restarted only
    when each of them has it.  A report without an error means that all of this was done. *)
Theorem install_is_fenced `{SortSlice} o :
  wpp (install_spec (applyInstallDefaults o)) (Install o)
    (fun r t => in_Executed r = io_Execute o /\
       (io_Execute o = false -> t = [] \/ exists g, t = [Globbed g]) /\
       (in_Error r = "" -> exists l, Globbed (Ok l) ∈ t /\ in_RunnerEnvFiles r = safe_env (sort_slice String.ltb l) /\
          (io_Execute o = true -> host_ready (applyInstallDefaults o) t /\
             (forall runner, runner ∈ l -> safeRunnerDir runner = true -> env_written (applyInstallDefaults o) t runner)) /\
          in_Restarted r = (io_Execute o && io_RestartRunners o)) /\
       (in_Restarted r = true -> exists out, Ran "systemctl" ["restart"; "actions.runner.*"] out true ∈ t)) [].
Proof.
  unfold Install. set (p := applyInstallDefaults o). assert (io_Execute o = io_Execute p) as -> by done.
  assert (io_RestartRunners o = io_RestartRunners p) as -> by done. clearbody p.
  assert (validateInstallOptions p = None \/ exists e, validateInstallOptions p = Some e /\ err_text e <> "") as [->|(e & -> & He)].
  { unfold validateInstallOptions. repeat case_match; try by left. all: right; by eexists. }
  2:{ apply wpp_ret. split_and!; [done|by left|done|done]. }
  apply wpp_bind. eapply (wpp_mono _ _ (fun e t => worded e /\ (io_Execute p = false -> t = [] /\ e = None) /\ (e = None -> io_Execute p = true -> host_ready p t))).
  { destruct (io_Execute p) eqn:Hx; [|apply wpp_ret; by split_and!]. eapply wpp_mono; [by apply in_host|].
    intros e t (_ & ? & ?). split_and!; [done|done|auto]. }
  intros [e|] t (Hw & Hd & Hr).
  { apply wpp_ret. split_and!; [done| | |done].
    - intros Hx. destruct (Hd Hx). done.
    - intros Hn. by destruct (Hw e eq_refl). }
  apply wpp_bind, wpp_call; [done|]. intros [l|e] t1 [-> Hwl].
  2:{ apply wpp_ret. split_and!; [done| | |done].
      - intros Hx. destruct (Hd Hx) as [-> _]. right. by eexists.
      - intros Hn. by destruct (Hwl e eq_refl). }
  apply wpp_bind. eapply wpp_mono; [apply in_runners|].
  { intros Hx. split; [by apply host_ready_app, Hr|]. intros r Hin%sort_slice_elem_of Hs. exists l. set_solver. }
  intros [res [e|]] u (H1 & [v ->] & H3 & H4 & H5 & H6 & H7 & H8); cbn [fst snd] in *.
  { apply wpp_ret. split_and!; [done| | |].
    - intros Hx. rewrite (H3 Hx). destruct (Hd Hx) as [-> _]. right. by eexists.
    - intros Hn. by destruct (H1 e eq_refl).
    - cbn. by rewrite H6. }
  destruct (H8 eq_refl) as [H9 H10]. cbn in H9, H10. set (t2 := (t ++ [Globbed (Ok l)]) ++ v) in *.
  assert (Globbed (Ok l) ∈ t2) as Hg by (unfold t2; set_solver).
  assert (io_Execute p = true -> host_ready p t2 /\ (forall runner, runner ∈ l -> safeRunnerDir runner = true -> env_written p t2 runner)) as Hall.
  { intros Hx. split; [by unfold t2; rewrite <- (assoc_L (++)); apply host_ready_app, Hr|].
    intros r Hin Hs. apply H10; [done|by apply sort_slice_elem_of|done]. }
  destruct (io_Execute p && io_RestartRunners p) eqn:Hgo.
  - apply andb_true_iff in Hgo as [Hx Hrr]. destruct (Hall Hx) as [Hready Henv]. apply wpp_bind, wpp_call.
    { split; [done|]. right. right. split_and!; [done..|]. by exists l. }
    intros [out r] u [-> Hwr]. apply wpp_ret. cbn [fst snd fine]. destruct r as [e|]; split_and!; try done.
    + intros Hx'. congruence.
    + intros Hn. by destruct (Hwr e eq_refl).
    + cbn. by rewrite H6.
    + intros Hx'. congruence.
    + intros _. exists l. split_and!; [set_solver|done| |done]. intros _. split; [by apply host_ready_app|].
      intros r Hin Hs. by apply env_written_app, Henv.
    + intros _. exists out. set_solver.
  - apply wpp_ret. split_and!; [done| | |].
    + intros Hx. rewrite (H3 Hx). destruct (Hd Hx) as [-> _]. right. by eexists.
    + intros _. exists l. by split_and!.
    + by rewrite H6.
Qed.

(** * The files of an installed hook

    The environment file of a runner after a reconciliation, and the word the shell reads
    from a hook script. *)

Local Open Scope string_scope.
Local Open Scope list_scope.
Local Open Scope Z_scope.

(** ** Paths without a character *)

Lemma Split_without d c s : no_char c s -> Forall (no_char c) (Split d s).
Proof.
  induction s as [|e s IH]; intros Hs; cbn; [by repeat constructor|]. apply no_char_cons in Hs as [Hne Hs]. specialize (IH Hs).
  case_decide; [by constructor|]. destruct (Split d s) as [|h t]; inversion IH; subst; constructor; auto; by apply no_char_cons.
Qed.

Lemma clean_comps_without c rooted acc parts :
  c <> "."%char -> Forall (no_char c) acc -> Forall (no_char c) parts -> Forall (no_char c) (clean_comps rooted acc parts).
Proof.
  intros Hc Ha Hp. assert (no_char c "..") as Hdd by (apply no_char_cons; split; [done|]; by apply no_char_cons).
  revert acc Ha. induction Hp as [|p parts Hp _ IH]; intros acc Ha; cbn [clean_comps]; [by apply Forall_reverse|].
  repeat case_decide; auto. destruct Ha as [|top rest]; [apply IH; destruct rooted; auto|]. case_decide; apply IH; auto.
Qed.

Lemma no_char_cleaned c p : c <> "."%char -> c <> "/"%char -> no_char c p -> no_char c (Clean p).
Proof.
  intros H1 H2 Hp. unfold Clean. pose proof (clean_comps_without c (IsAbs p) [] (Split "/" p) H1 (Forall_nil_2 _) (Split_without _ _ _ Hp)) as Hc.
  assert (no_char c "/") by by apply no_char_cons. assert (no_char c ".") by by apply no_char_cons.
  pose proof (no_char_Join c _ "/" ltac:(assumption) Hc) as Hj.
  destruct (IsAbs p); [by apply no_char_app|]. by destruct (clean_comps false [] (Split "/" p)).
Qed.

Lemma no_char_PathJoin c a b : c <> "."%char -> c <> "/"%char -> no_char c a -> no_char c b -> no_char c (PathJoin a b).
Proof.
  intros H1 H2 Ha Hb. unfold PathJoin.
  destruct a as [|x a], b as [|y b]; [done|by apply no_char_cleaned..|]. apply no_char_cleaned; [done..|].
  apply no_char_app. split; [done|]. by apply no_char_cons.
Qed.

(** ** The environment file *)

Lemma Cut_key k v : no_char "=" k -> Cut "=" (k +:+ "=" +:+ v) = Some (k, v).
Proof.
  induction k as [|d k IH]; intros Hk; [done|]. apply no_char_cons in Hk as [Hne Hk]. cbn.
  rewrite decide_False by done. cbn in IH. by rewrite IH.
Qed.

Lemma line_key_of k v : no_char "=" k -> line_key (k +:+ "=" +:+ v) = k.
Proof. intros Hk. unfold line_key. by rewrite Cut_key. Qed.

Lemma filter_filter_same {A} (f : A -> bool) l : List.filter f (List.filter f l) = List.filter f l.
Proof. induction l as [|x l IH]; cbn; [done|]. destruct (f x) eqn:E; cbn; [by rewrite E, IH|done]. Qed.

Lemma filter_none {A} (f : A -> bool) l : Forall (fun x => f x = false) l -> List.filter f l = [].
Proof. induction 1 as [|x l Hx _ IH]; cbn; [done|]. by rewrite Hx. Qed.

Section env.
Context `{SortSlice} (hooksDir : string) (extra : list (string * string)).
Context (Hkeys : NoDup (fst <$> extra)).
Context (Hplain : forall k v, (k, v) ∈ extra -> no_char "=" k /\ no_char "010" k /\ no_char "010" v /\ k <> startedKey /\ k <> completedKey /\ k <> "").
Context (Hdir : no_char "010" hooksDir).

(** The keys civm owns, with their values. *)
Definition managed (k v : string) : Prop :=
  (k, v) = (startedKey, PathJoin hooksDir startedHookName) \/ (k, v) = (completedKey, PathJoin hooksDir completedHookName) \/ (k, v) ∈ extra.

Definition managed_lines : list string :=
  [startedKey +:+ "=" +:+ PathJoin hooksDir startedHookName; completedKey +:+ "=" +:+ PathJoin hooksDir completedHookName] ++
  ((fun k => k +:+ "=" +:+ extra_value extra k) <$> sort_slice String.ltb (fst <$> extra)).

Lemma extra_value_of k v : (k, v) ∈ extra -> extra_value extra k = v.
Proof.
  intros Hin. unfold extra_value. destruct (list_find (fun p => fst p = k) extra) as [[i [k' v']]|] eqn:E.
  - apply list_find_Some in E as (Hi & Hk & _). cbn in Hk. subst k'. apply list_elem_of_lookup in Hin as [j Hj].
    assert (i = j) as <-; [|congruence]. eapply (NoDup_lookup (fst <$> extra)); [done|..]; by rewrite list_lookup_fmap, ?Hi, ?Hj.
  - apply list_find_None in E. rewrite Forall_forall in E. by destruct (E (k, v) Hin).
Qed.

Lemma key_in_extra k : k ∈ fst <$> extra -> exists v, (k, v) ∈ extra.
Proof. intros ([k' v] & -> & Hin)%list_elem_of_fmap. eauto. Qed.

Lemma sorted_keys k : k ∈ sort_slice String.ltb (fst <$> extra) -> exists v, (k, v) ∈ extra /\ extra_value extra k = v.
Proof. rewrite sort_slice_elem_of. intros (v & Hv)%key_in_extra. exists v. split; [done|by apply extra_value_of]. Qed.

(** Every managed line is one of a managed key. *)
Lemma managed_line line : line ∈ managed_lines -> exists k v, managed k v /\ line = k +:+ "=" +:+ v /\ no_char "=" k.
Proof.
  unfold managed_lines. rewrite elem_of_app, !elem_of_cons, elem_of_nil, list_elem_of_fmap.
  intros [[->|[->|[]]]|(k & -> & Hk)].
  - exists startedKey, (PathJoin hooksDir startedHookName). split_and!; [by left|done|done].
  - exists completedKey, (PathJoin hooksDir completedHookName). split_and!; [right; by left|done|done].
  - destruct (sorted_keys k Hk) as (v & Hv & <-). exists k, (extra_value extra k). split_and!; [by right; right|done|by eapply Hplain].
Qed.

Lemma managed_not_kept k v : managed k v -> no_char "=" k -> env_keeps extra (k +:+ "=" +:+ v) = false.
Proof.
  intros Hm Hk. unfold env_keeps. rewrite line_key_of by done.
  destruct Hm as [[= -> _]|[[= -> _]|Hin]]; [by rewrite String.eqb_refl, andb_false_r|by rewrite String.eqb_refl, andb_false_r|].
  assert (existsb (String.eqb k) (fst <$> extra) = true) as ->; [|by rewrite andb_false_r].
  apply existsb_exists. exists k. split; [|apply String.eqb_refl]. apply list_elem_of_In, list_elem_of_fmap. by exists (k, v).
Qed.

Lemma managed_lines_plain : Forall (no_char "010") managed_lines.
Proof.
  apply Forall_forall. intros line (k & v & Hm & -> & _)%managed_line.
  assert (no_char "010" k /\ no_char "010" v) as [Hk Hv].
  { destruct Hm as [[= -> ->]|[[= -> ->]|Hin]]; [split; [done|by apply no_char_PathJoin]..|].
    destruct (Hplain k v Hin) as (_ & ? & ? & _). done. }
  apply no_char_app. split; [done|]. by apply no_char_cons.
Qed.

(** The file, line by line. *)
Lemma env_text_lines data : Split "010" (env_text hooksDir extra data) = List.filter (env_keeps extra) (Split "010" data) ++ managed_lines ++ [""].
Proof.
  unfold env_text, newline. rewrite Split_concat. cbn [Split]. unfold env_lines. fold managed_lines.
  rewrite Split_Join; [by rewrite <- (assoc_L (++))| |].
  - by destruct (List.filter _ _).
  - apply Forall_app. split; [|apply managed_lines_plain]. apply Forall_forall. intros l Hl%list_elem_of_In%List.filter_In.
    destruct Hl as [Hl _]. pose proof (Split_Forall "010" data) as HF. rewrite Forall_forall in HF. by apply HF, list_elem_of_In.
Qed.

Lemma managed_dropped : List.filter (env_keeps extra) managed_lines = [].
Proof.
  apply filter_none, Forall_forall. intros line (k & v & Hm & -> & Hk)%managed_line. by apply managed_not_kept.
Qed.

Lemma env_text_kept data :
  List.filter (env_keeps extra) (Split "010" (env_text hooksDir extra data)) = List.filter (env_keeps extra) (Split "010" data).
Proof. rewrite env_text_lines, !List.filter_app, filter_filter_same, managed_dropped. cbn. by rewrite app_nil_r. Qed.

Lemma env_text_idempotent data : env_text hooksDir extra (env_text hooksDir extra data) = env_text hooksDir extra data.
Proof.
  pose proof (env_text_kept data) as E. unfold env_text at 1, env_lines. rewrite E. done.
Qed.

End env.

(** ** The values of a runner *)

Lemma runner_extra_plain slot base : no_char "010" slot -> 0 <= base ->
  forall k v, (k, v) ∈ runner_extra slot base ->
    no_char "=" k /\ no_char "010" k /\ no_char "010" v /\ k <> startedKey /\ k <> completedKey /\ k <> "".
Proof.
  intros Hs Hb k v Hin. unfold runner_extra in Hin. rewrite !elem_of_cons, elem_of_nil in Hin.
  destruct Hin as [[= -> ->]|[[= -> ->]|[[= -> ->]|[]]]]; split_and!; try done.
  apply (no_char_forallb is_digit); [by apply Itoa_digits|done].
Qed.

(** The keys of civm, and the lines of others: not blank, and no line of one of the keys. *)
Definition owned_keys : list string :=
  ["ACTIONS_RUNNER_HOOK_JOB_STARTED"; "ACTIONS_RUNNER_HOOK_JOB_COMPLETED"; "CIVM_RUNNER_SLOT"; "CIVM_PORT_BASE"; "COMPOSE_PROJECT_NAME"].

Definition of_key (k line : string) : bool := String.eqb line k || HasPrefix line (k +:+ "=").

Definition foreign (line : string) : bool :=
  negb (String.eqb (TrimSpace line) "") && negb (existsb (fun k => of_key k line) owned_keys).

Lemma line_key_cons d l : d <> "="%char -> line_key (String d l) = String d (line_key l).
Proof. intros Hd. unfold line_key. cbn. rewrite decide_False by done. by destruct (Cut "=" l) as [[]|]. Qed.

Lemma of_key_spec line : forall k, no_char "=" k -> of_key k line = String.eqb (line_key line) k.
Proof.
  induction line as [|d l IH]; intros k Hk; [unfold of_key, HasPrefix; by destruct k|].
  destruct (ascii_dec d "=") as [->|Hd].
  - unfold line_key. cbn. rewrite decide_True by done. destruct k as [|x k]; [by destruct l|]. apply no_char_cons in Hk as [Hx _].
    unfold of_key, HasPrefix. cbn -[Ascii.eqb ascii_dec]. destruct (ascii_dec x "="); [done|]. destruct (Ascii.eqb_spec "=" x); [congruence|done].
  - rewrite line_key_cons by done. destruct k as [|x k].
    + unfold of_key, HasPrefix. cbn -[Ascii.eqb ascii_dec]. by destruct (ascii_dec "=" d).
    + apply no_char_cons in Hk as [_ Hk]. specialize (IH k Hk). unfold of_key, HasPrefix in *. cbn -[Ascii.eqb ascii_dec].
      destruct (ascii_dec x d) as [->|Hne]; [by rewrite Ascii.eqb_refl|]. destruct (Ascii.eqb_spec d x); [congruence|done].
Qed.

Lemma foreign_kept slot base line : env_keeps (runner_extra slot base) line = foreign line.
Proof.
  unfold env_keeps, foreign. rewrite <- !andb_assoc. f_equal. cbn [existsb owned_keys runner_extra fmap list_fmap fst].
  rewrite !of_key_spec by done. rewrite !negb_orb, !(String.eqb_sym (line_key line)). cbn [negb]. by rewrite !andb_true_r.
Qed.

(** The lines of civm for a runner. *)
Definition own_lines (hooksDir slot : string) (base : Z) : list string :=
  ["ACTIONS_RUNNER_HOOK_JOB_STARTED=" +:+ PathJoin hooksDir "job-started.sh";
   "ACTIONS_RUNNER_HOOK_JOB_COMPLETED=" +:+ PathJoin hooksDir "job-completed.sh";
   "CIVM_RUNNER_SLOT=" +:+ slot; "CIVM_PORT_BASE=" +:+ Itoa base; "COMPOSE_PROJECT_NAME=" +:+ slot].

(** C29. The environment file of a runner after [upsertEnv], line by line: first every line
    of the old file that is not blank and is no line of one of the five keys of civm,
    unchanged and in its order, then one line for each of the five keys with the value of
    this runner, in some order, and nothing else; and reconciling the result once more
    changes nothing. *)
Theorem env_is_reconciled `{SortSlice} hooksDir slot base data :
  no_char "010" hooksDir -> no_char "010" slot -> 0 <= base ->
  let extra := runner_extra slot base in
  let text := env_text hooksDir extra data in
  (exists own, own ≡ₚ own_lines hooksDir slot base /\ Split "010" text = List.filter foreign (Split "010" data) ++ own ++ [""]) /\
  env_text hooksDir extra text = text.
Proof.
  intros Hd Hs Hb extra text. assert (NoDup (fst <$> extra)) as Hn by (apply (bool_decide_unpack _); vm_compute; exact I).
  pose proof (runner_extra_plain slot base Hs Hb) as Hp. split; [|by apply env_text_idempotent].
  exists (managed_lines hooksDir extra). split.
  - unfold managed_lines. rewrite sort_slice_perm. done.
  - unfold text. rewrite env_text_lines by done. f_equal. apply List.filter_ext. intros line. apply foreign_kept.
Qed.

Lemma env_is_reconciled_witness :
  let data := "PATH=/usr/bin" +:+ newline +:+ "CIVM_PORT_BASE=7" +:+ newline +:+ newline +:+ "LANG=C" in
  let text := env_text (H := SortSlice_insertion) "/opt/civm/hooks" (runner_extra "web" 20064) data in
  (exists own, own ≡ₚ own_lines "/opt/civm/hooks" "web" 20064 /\ Split "010" text = ["PATH=/usr/bin"; "LANG=C"] ++ own ++ [""]) /\
  env_text (H := SortSlice_insertion) "/opt/civm/hooks" (runner_extra "web" 20064) text = text.
Proof.
  intros data text.
  exact (env_is_reconciled (H := SortSlice_insertion) "/opt/civm/hooks" "web" 20064 data eq_refl eq_refl ltac:(lia)).
Defined.

(** ** What the shell reads *)

(** One word, with the quoting of the POSIX shell; [None] where an expansion or an
    operator would be met. *)
Inductive quoting := Unquoted | Single | Double.

Definition special (c : ascii) : bool := contains_char c ("$`\;&|<>()*?[]#~{}!=%" +:+ newline +:+ String "009" "").

Fixpoint sh_word (q : quoting) (s : string) : option (string * string) :=
  match s with
  | "" => match q with Unquoted => Some ("", "") | _ => None end
  | String c r =>
      let literal := match sh_word q r with Some (w, rest) => Some (String c w, rest) | None => None end in
      match q with
      | Unquoted =>
          if Ascii.eqb c " " then Some ("", s)
          else if Ascii.eqb c "'" then sh_word Single r
          else if Ascii.eqb c "034" then sh_word Double r
          else if special c then None else literal
      | Single => if Ascii.eqb c "'" then sh_word Unquoted r else literal
      | Double => if Ascii.eqb c "034" then sh_word Unquoted r
                  else if contains_char c "$`\" then None else literal
      end
  end.

Lemma sh_word_quoted v rest w r :
  sh_word Unquoted rest = Some (w, r) ->
  sh_word Single (replace_char "'" ("'" +:+ dquote +:+ "'" +:+ dquote +:+ "'") v +:+ "'" +:+ rest) = Some (v +:+ w, r).
Proof.
  intros Hrest. induction v as [|c v IH]; [exact Hrest|]. cbn [replace_char].
  destruct (Ascii.eqb_spec c "'") as [->|Hne].
  - rewrite <- app_assoc_str. cbn. cbn in IH. by rewrite IH.
  - rewrite <- app_assoc_str. cbn. apply Ascii.eqb_neq in Hne. rewrite Hne. cbn in IH. by rewrite IH.
Qed.

(** Whatever the path of the binary, blanks, quotes, newlines and expansions
    included: the shell that runs a hook script reads back exactly that path as the command
    it replaces itself with, and then the arguments of this event. *)
Theorem hook_script_runs_its_binary civmctlPath event :
  let arguments := " hook " +:+ event +:+ " --execute " +:+ dquote +:+ "$@" +:+ dquote +:+ newline in
  exists line,
    ScriptContent civmctlPath event = "#!/usr/bin/env bash" +:+ newline +:+ "set -euo pipefail" +:+ newline +:+ "exec " +:+ line /\
    sh_word Unquoted line = Some (civmctlPath, arguments).
Proof.
  intros arguments. exists (shellQuote civmctlPath +:+ arguments). split; [done|].
  unfold shellQuote. rewrite <- !app_assoc_str.
  pose proof (sh_word_quoted civmctlPath arguments "" arguments eq_refl) as Hq. rewrite app_empty_r in Hq. exact Hq.
Qed.

(** ** Slots *)

(** The slot is the name of the directory alone: runners of two users, or one whose suffix
    is the name of another, get the same port block and compose project. *)
Theorem slots_can_coincide :
  runnerSlot "/home/alice/actions-runner-web" = runnerSlot "/home/bob/actions-runner-web" /\
  runnerSlot "/home/alice/actions-runner" = runnerSlot "/home/alice/actions-runner-actions-runner" /\
  Forall (fun p => safeRunnerDir p = true) ["/home/alice/actions-runner-web"; "/home/bob/actions-runner-web"; "/home/alice/actions-runner";
    "/home/alice/actions-runner-actions-runner"].
Proof. split_and!; [vm_compute; reflexivity..|]. repeat constructor. Qed.

(** When the staging of the sudoers text fails, nothing removes what was written of it. *)
Theorem failed_staging_is_left :
  snd (interp (fun B (e : installE B) => match e in installE B return St (list string) B with
         | ReadFileFn _ => fun w => (Ok "x", w)
         | WriteFileFn path _ _ => fun w => (Some (Errorf "no space left on device"), w ++ ["write " +:+ path])
         | RemoveFn path => fun w => (None, w ++ ["remove " +:+ path])
         | MkdirAllFn _ => fun w => (None, w)
         | RenameFn _ _ => fun w => (None, w)
         | GlobFn _ => fun w => (Ok [], w)
         | RunFn _ _ => fun w => ("", None, w)
         | AllocatePortFn _ => fun w => (Ok 0, w)
         end) (installSudoersDropIn DefaultInstallOptions) []) = ["write /etc/sudoers.d/civm-cleanup.tmp"].
Proof. vm_compute. reflexivity. Qed.
