(* ===== verification/Maintenance.v ===== *)
(** * internal/maintenance: drain and restore

    [Enter] stops the runner units of this host and withdraws their label, and records what
    it did; [Exit] undoes the record.  Every injected function is an effect.  The JSON of
    the record is a class with the laws that [encoding/json] documents; the format of a
    time and the JSON of a runner listing are parameters. *)

From S2P Require Import Prelude GoStrings Regex Prog Civm Idle RunnerUnits.

Local Open Scope string_scope.
Local Open Scope list_scope.
Local Open Scope Z_scope.

Definition civmLabel : string := "civm".
Definition orgRunnerNameSuffix : string := "-org".
Definition runReaperEnvPath : string := "/etc/civm/run-reaper.env".
Definition runnerUnitGlob : string := "actions.runner.*".

Record RunnerState := mkRunner {
  rn_Name : string;
  rn_Repo : string;
  rn_RunnerID : Z;
  rn_Stopped : bool;
  rn_LabelRemoved : bool;
}.

Record MaintState := mkMaint { ms_DrainedAt : string; ms_Runners : list RunnerState }.

Record MaintOptions := mkMaintOptions {
  mo_Execute : bool;
  mo_Force : bool;
  mo_RequireStopped : bool;
  mo_StatePath : string;
  mo_LockPath : string;
  mo_Repos : list string;
}.

Record runnerRef := mkRef { rf_Unit : string; rf_Name : string; rf_Repo : string }.

(** The registrations of one page, as identifier and name. *)
Definition runnerAPIPage : Type := list (Z * string).

(** [LockFn], and the release function it returns. *)
Inductive maintE : Type -> Type :=
  | RunFn (name : string) (args : list string) : maintE (result string)
  | GHFn (args : list string) : maintE (result string)
  | IdleCheckFn : maintE bool
  | ReadFileFn (path : string) : maintE (result string)
  | WriteFileFn (path : string) (data : string) : maintE err_ret
  | RemoveFn (path : string) : maintE err_ret
  | MkdirAllFn (path : string) : maintE err_ret
  | LockFn (path : string) : maintE err_ret
  | Release : maintE err_ret
  | NowFn : maintE Z.

(** Text that JSON keeps byte for byte: bytes that are not UTF-8 are replaced. *)
Definition ascii_text (s : string) : Prop := str_forallb (fun c => code c <? 128) s = true.

Definition runner_text (r : RunnerState) : Prop :=
  ascii_text (rn_Name r) /\ ascii_text (rn_Repo r) /\ - 2 ^ 63 <= rn_RunnerID r < 2 ^ 63.

Definition state_text (s : MaintState) : Prop := ascii_text (ms_DrainedAt s) /\ Forall runner_text (ms_Runners s).

(** [json.MarshalIndent] and [json.Unmarshal] of the record. *)
Class StateCodec := {
  encodeState : MaintState -> string;
  decodeState : string -> result MaintState;
  decode_encode_state s : state_text s -> decodeState (encodeState s) = Ok s;
  encode_state_nonblank s : TrimSpace (encodeState s) <> "";
}.

Definition no_state : MaintState := mkMaint "" [].

Definition maint_applyDefaults (opts : MaintOptions) : MaintOptions :=
  mkMaintOptions (mo_Execute opts) (mo_Force opts) (mo_RequireStopped opts)
    (if String.eqb (mo_StatePath opts) "" then DefaultMaintenanceStatePath else mo_StatePath opts)
    (if String.eqb (mo_LockPath opts) "" then DefaultMaintenanceLockPath else mo_LockPath opts)
    (mo_Repos opts).

(** ** Units and repositories *)

(** [strings.Replace(s, old, new, 1)] for single characters. *)
Fixpoint replace_first (old new : ascii) (s : string) : string :=
  match s with
  | EmptyString => EmptyString
  | String c s => if Ascii.eqb c old then String new s else String c (replace_first old new s)
  end.

Definition maint_parseRunnerUnit (unit : string) : string * string :=
  let prefix := "actions.runner." in
  let suffix := ".service" in
  if negb (HasPrefix unit prefix) || negb (HasSuffix unit suffix) then ("", "")
  else
    let rest := TrimSuffix (TrimPrefix unit prefix) suffix in
    match cut_last "." rest with
    | None => (rest, "")
    | Some (repoSegment, name) =>
        match Cut "-" repoSegment with
        | None => (repoSegment, name)
        | Some (owner, repo) => (owner +:+ "/" +:+ repo, name)
        end
    end.

Definition runnerUnitName (rn : RunnerState) : string :=
  let repoSegment := replace_first "/" "-" (rn_Repo rn) in
  if String.eqb repoSegment "" then "actions.runner." +:+ rn_Name rn +:+ ".service"
  else "actions.runner." +:+ repoSegment +:+ "." +:+ rn_Name rn +:+ ".service".

Definition firstUnitField (line : string) : string :=
  let line := TrimSpace line in
  match Fields line with
  | [] => ""
  | first :: rest =>
      let candidate :=
        if String.eqb first bullet || String.eqb first circle || String.eqb first "*"
        then match rest with second :: _ => second | [] => first end else first in
      if negb (HasPrefix candidate "actions.runner.") || negb (HasSuffix candidate ".service") then "" else candidate
  end.

Definition repoAllowSet (repos : list string) : gset string :=
  list_to_set (List.filter (fun r => negb (String.eqb r "")) (TrimSpace <$> repos)).

Definition runnerAllowed (rn : runnerRef) (allow : gset string) : bool :=
  bool_decide (rf_Repo rn ∈ allow) ||
  (negb (String.eqb (rf_Repo rn) "") && HasSuffix (rf_Name rn) orgRunnerNameSuffix &&
   existsb (fun repo => HasPrefix repo (rf_Repo rn +:+ "/")) (elements allow)).

(** One line of the listing. *)
Definition unit_ref (allow : gset string) (line : string) : option runnerRef :=
  let unit := firstUnitField line in
  if String.eqb unit "" then None
  else
    let '(repo, name) := maint_parseRunnerUnit unit in
    let name := if String.eqb name "" then unit else name in
    let candidate := mkRef unit name repo in
    if bool_decide (allow <> ∅) && negb (runnerAllowed candidate allow) then None else Some candidate.

Fixpoint fresh_units (seen : gset string) (refs : list runnerRef) : list runnerRef :=
  match refs with
  | [] => []
  | r :: refs =>
      if bool_decide (rf_Unit r ∈ seen) then fresh_units seen refs
      else r :: fresh_units ({[rf_Unit r]} ∪ seen) refs
  end.

Definition unit_before (a b : runnerRef) : bool := String.ltb (rf_Unit a) (rf_Unit b).

Definition refs_of `{SortSlice} (repos : list string) (out : string) : list runnerRef :=
  sort_slice unit_before (fresh_units ∅ (omap (unit_ref (repoAllowSet repos)) (Split "010" out))).

Definition discoverRunners `{SortSlice} (opts : MaintOptions) : prog maintE (result (list runnerRef)) :=
  out ← call (RunFn "systemctl" ["list-units"; "--type=service"; "--no-legend"; "--no-pager"; "--all"; runnerUnitGlob]);
  mret (match out with
        | Err e => Err (Errorf_w "maintenance enter: enumerate runner units" e)
        | Ok out => Ok (refs_of (mo_Repos opts) out)
        end).

Definition runnerAPIBase (repo runnerName : string) : result string :=
  if contains_char "/" repo then
    match ValidateRepo repo with Some e => Err e | None => Ok ("repos/" +:+ repo) end
  else if String.eqb repo "" || negb (HasSuffix runnerName orgRunnerNameSuffix)
  then Err (Errorf ("runner " +:+ runnerName +:+ " nao tem alvo GitHub seguro em " +:+ repo))
  else match ValidateRepo (repo +:+ "/runner-id-probe") with
       | Some e => Err (Errorf_w ("org invalida " +:+ repo) e)
       | None => Ok ("orgs/" +:+ repo)
       end.

(** The loop over the pages: exactly one registration of the name, with an identifier. *)
Fixpoint find_runner (runnerName base : string) (found : Z) (l : list (Z * string)) : result Z :=
  match l with
  | [] => if found =? 0 then Err (Errorf ("runner " +:+ runnerName +:+ " nao encontrado em " +:+ base)) else Ok found
  | (id, name) :: l =>
      if negb (String.eqb name runnerName) then find_runner runnerName base found l
      else if (id <=? 0) || negb (found =? 0)
      then Err (Errorf ("runner " +:+ runnerName +:+ " ambiguo ou com ID invalido em " +:+ base))
      else find_runner runnerName base id l
  end.

Definition labels_endpoint (base : string) (id : Z) : string := base +:+ "/actions/runners/" +:+ Itoa id +:+ "/labels".

(** ** Credentials *)

(** A value in single or double quotes, without them. *)
Definition unquote (v : string) : string :=
  let quoted_by q := HasPrefix v (String q "") && HasSuffix v (String q "") in
  if (2 <=? len v) && (quoted_by "'"%char || quoted_by "034"%char) then take_str (String.length v - 2) (drop_str 1 v) else v.

(** The value of a line that sets one of the two variables. *)
Definition gh_value (key value : string) : result string :=
  let value := unquote (TrimSpace value) in
  if String.eqb value "" || contains_char "000" value || contains_char "013" value || contains_char "010" value
  then Err (Errorf (key +:+ " ausente ou invalido no arquivo de credencial"))
  else if String.eqb key "GH_CONFIG_DIR" then
    let clean := Clean value in
    if negb (IsAbs clean) || String.eqb clean "/" then Err (Errorf "GH_CONFIG_DIR deve ser caminho absoluto e especifico")
    else Ok clean
  else Ok value.

Fixpoint gh_lines (lines : list string) (seen authEnv : list string) : result (list string) :=
  match lines with
  | [] => Ok authEnv
  | line :: lines =>
      match Cut "=" (TrimSpace line) with
      | None => gh_lines lines seen authEnv
      | Some (key, value) =>
          if negb (String.eqb key "GH_TOKEN") && negb (String.eqb key "GH_CONFIG_DIR") then gh_lines lines seen authEnv
          else if bool_decide (key ∈ seen) then Err (Errorf (key +:+ " duplicado no arquivo de credencial"))
          else match gh_value key value with
               | Err e => Err e
               | Ok value => gh_lines lines (key :: seen) (authEnv ++ [key +:+ "=" +:+ value])
               end
      end
  end.

Definition ghEnvFromFile (read : result string) : result (list string) :=
  match read with
  | Err e => Err (Errorf_w ("ler credencial GitHub de " +:+ runReaperEnvPath) e)
  | Ok data =>
      match gh_lines (Split "010" data) [] [] with
      | Err e => Err e
      | Ok [] => Err (Errorf "GH_TOKEN ou GH_CONFIG_DIR ausente no arquivo de credencial")
      | Ok authEnv => Ok authEnv
      end
  end.

(** ** Drain and restore *)

Section maintenance.
Context `{SortSlice} `{StateCodec}.
Context (formatTime : Z -> string) (decodePages : string -> result (list runnerAPIPage)).

Definition resolveRunnerID (base runnerName : string) : prog maintE (result Z) :=
  if String.eqb (TrimSpace runnerName) "" then mret (Err (Errorf "nome do runner vazio"))
  else
    let endpoint := base +:+ "/actions/runners?per_page=100" in
    out ← call (GHFn ["api"; "--paginate"; "--slurp"; endpoint]);
    mret (match out with
          | Err e => Err (Errorf_w ("gh api GET " +:+ endpoint) e)
          | Ok out => match decodePages out with
                      | Err e => Err (Errorf_w ("parse runners de " +:+ base) e)
                      | Ok pages => find_runner runnerName base 0 (concat pages)
                      end
          end).

Definition removeLabel (repo runnerName : string) : prog maintE (result Z) :=
  match runnerAPIBase repo runnerName with
  | Err e => mret (Err e)
  | Ok base =>
      id ← resolveRunnerID base runnerName;
      match id with
      | Err e => mret (Err e)
      | Ok runnerID =>
          let endpoint := labels_endpoint base runnerID +:+ "/" +:+ civmLabel in
          out ← call (GHFn ["api"; "--method"; "DELETE"; endpoint]);
          mret (match out with Err e => Err (Errorf_w ("gh api DELETE " +:+ endpoint) e) | Ok _ => Ok runnerID end)
      end
  end.

Definition addLabel (repo runnerName : string) (runnerID : Z) : prog maintE err_ret :=
  match runnerAPIBase repo runnerName with
  | Err e => mret (Some e)
  | Ok base =>
      id ← (if runnerID <=? 0 then resolveRunnerID base runnerName else mret (Ok runnerID));
      match id with
      | Err e => mret (Some e)
      | Ok runnerID =>
          let endpoint := labels_endpoint base runnerID in
          out ← call (GHFn ["api"; "--method"; "POST"; endpoint; "-f"; "labels[]=" +:+ civmLabel]);
          mret (match out with Err e => Some (Errorf_w ("gh api POST " +:+ endpoint) e) | Ok _ => None end)
      end
  end.

Definition labelled (id : Z) (r : RunnerState) : RunnerState := mkRunner (rn_Name r) (rn_Repo r) id (rn_Stopped r) true.
Definition stopped_now (r : RunnerState) : RunnerState :=
  mkRunner (rn_Name r) (rn_Repo r) (rn_RunnerID r) true (rn_LabelRemoved r).

Definition drainRunner (rn : runnerRef) : prog maintE RunnerState :=
  let applied := mkRunner (rf_Name rn) (rf_Repo rn) 0 false false in
  out ← call (RunFn "sudo" ["systemctl"; "stop"; rf_Unit rn]);
  let applied := match out with Err _ => applied | Ok _ => stopped_now applied end in
  if negb (String.eqb (rf_Repo rn) "") then
    id ← removeLabel (rf_Repo rn) (rf_Name rn);
    mret (match id with Err _ => applied | Ok id => labelled id applied end)
  else mret applied.

Definition restoreRunner (rn : RunnerState) : prog maintE unit :=
  _ ← (if rn_Stopped rn then
         _ ← call (RunFn "sudo" ["systemctl"; "start"; runnerUnitName rn]); mret tt
       else mret tt);
  if rn_LabelRemoved rn && negb (String.eqb (rn_Repo rn) "") then
    _ ← addLabel (rn_Repo rn) (rn_Name rn) (rn_RunnerID rn); mret tt
  else mret tt.

Definition allRunnersStopped (runners : list RunnerState) : bool := forallb rn_Stopped runners.

Definition count (p : RunnerState -> bool) (l : list RunnerState) : Z := Z.of_nat (length (List.filter p l)).

Definition unlabelled (r : RunnerState) : bool := String.eqb (rn_Repo r) "" || negb (rn_LabelRemoved r).

Definition strictDrainError (runners : list RunnerState) : error :=
  Errorf ("maintenance enter strict: " +:+ Itoa (count (fun r => negb (rn_Stopped r)) runners) +:+
          " listener(s) not stopped; " +:+ Itoa (count unlabelled runners) +:+ " runner label(s) not withdrawn").

(** The runners of the record, and the discovered ones that it does not have. *)
Definition add_ref (runners : list RunnerState) (known : gset string) (ref : runnerRef) : list RunnerState * gset string :=
  if bool_decide (rf_Unit ref ∈ known) then (runners, known)
  else (runners ++ [mkRunner (rf_Name ref) (rf_Repo ref) 0 false false], {[rf_Unit ref]} ∪ known).

Definition add_refs (runners : list RunnerState) (refs : list runnerRef) : list RunnerState :=
  fst (foldl (fun acc ref => add_ref (fst acc) (snd acc) ref) (runners, list_to_set (runnerUnitName <$> runners)) refs).

Fixpoint withdraw (runners : list RunnerState) : prog maintE (list RunnerState) :=
  match runners with
  | [] => mret []
  | r :: runners =>
      r ← (if rn_LabelRemoved r || String.eqb (rn_Repo r) "" then mret r
           else id ← removeLabel (rn_Repo r) (rn_Name r);
                mret (match id with Err _ => r | Ok id => labelled id r end));
      rest ← withdraw runners;
      mret (r :: rest)
  end.

Fixpoint stop_units (runners : list RunnerState) : prog maintE (list RunnerState) :=
  match runners with
  | [] => mret []
  | r :: runners =>
      r ← (if rn_Stopped r then mret r
           else out ← call (RunFn "sudo" ["systemctl"; "stop"; runnerUnitName r]);
                mret (match out with Err _ => r | Ok _ => stopped_now r end));
      rest ← stop_units runners;
      mret (r :: rest)
  end.

(** The state is changed in place: the runners come back with the error. *)
Definition strictDrain (runners : list RunnerState) (refs : list runnerRef) : prog maintE (list RunnerState * err_ret) :=
  runners ← withdraw (add_refs runners refs);
  if existsb unlabelled runners then mret (runners, Some (strictDrainError runners))
  else
    idle ← call IdleCheckFn;
    if negb idle then
      mret (runners, Some (Errorf "maintenance enter strict: host became busy after labels were withdrawn"))
    else
      runners ← stop_units runners;
      mret (runners, if allRunnersStopped runners then None else Some (strictDrainError runners)).

Definition retryStrictDrain (opts : MaintOptions) (runners : list RunnerState) : prog maintE (list RunnerState * err_ret) :=
  refs ← discoverRunners opts;
  match refs with
  | Err e => mret (runners, Some e)
  | Ok refs => strictDrain runners refs
  end.

(** [None] for no record. *)
Definition readState (opts : MaintOptions) : prog maintE (result (option MaintState)) :=
  data ← call (ReadFileFn (mo_StatePath opts));
  mret (match data with
        | Err e => if errors_Is e ErrNotExist then Ok None else Err (Errorf_w ("ler state " +:+ mo_StatePath opts) e)
        | Ok data =>
            if String.eqb (TrimSpace data) "" then Ok None
            else match decodeState data with
                 | Err e => Err (Errorf_w ("parse state " +:+ mo_StatePath opts) e)
                 | Ok state => Ok (Some state)
                 end
        end).

Definition writeState (opts : MaintOptions) (state : MaintState) : prog maintE err_ret :=
  e ← call (MkdirAllFn (Dir (mo_StatePath opts)));
  match e with
  | Some e => mret (Some (Errorf_w ("criar dir de state " +:+ mo_StatePath opts) e))
  | None =>
      e ← call (WriteFileFn (mo_StatePath opts) (encodeState state));
      mret (match e with Some e => Some (Errorf_w ("gravar state " +:+ mo_StatePath opts) e) | None => None end)
  end.

Definition dryRunEnter (opts : MaintOptions) : prog maintE (MaintState * err_ret) :=
  existing ← readState opts;
  match existing with
  | Err e => mret (no_state, Some e)
  | Ok (Some existing) => mret (existing, None)
  | Ok None =>
      now ← call NowFn;
      refs ← discoverRunners opts;
      let refs := match refs with Ok refs => refs | Err _ => [] end in
      mret (mkMaint (formatTime now)
              ((fun rn => mkRunner (rf_Name rn) (rf_Repo rn) 0 true (negb (String.eqb (rf_Repo rn) ""))) <$> refs), None)
  end.

Definition dryRunExit (opts : MaintOptions) : prog maintE (MaintState * err_ret) :=
  state ← readState opts;
  mret (match state with
        | Err e => (no_state, Some e)
        | Ok None => (no_state, None)
        | Ok (Some state) => (state, None)
        end).

(** Write the state and report the outcome of a strict drain. *)
Definition strict_end (opts : MaintOptions) (state : MaintState) (strictErr : err_ret) : prog maintE (MaintState * err_ret) :=
  werr ← writeState opts state;
  mret (match werr with
        | Some e => (no_state, Some e)
        | None => match strictErr with
                  | Some e => (state, Some e)
                  | None => if allRunnersStopped (ms_Runners state) then (state, None)
                            else (state, Some (strictDrainError (ms_Runners state)))
                  end
        end).

(** There is a record. *)
Definition enter_again (opts : MaintOptions) (existing : MaintState) : prog maintE (MaintState * err_ret) :=
  if mo_RequireStopped opts then
    idle ← (if mo_Force opts then mret true else call IdleCheckFn);
    if negb idle then mret (existing, Some (Errorf "maintenance enter strict: host nao esta ocioso"))
    else
      '(runners, strictErr) ← retryStrictDrain opts (ms_Runners existing);
      now ← call NowFn;
      strict_end opts (mkMaint (formatTime now) runners) strictErr
  else
    now ← call NowFn;
    let existing := mkMaint (formatTime now) (ms_Runners existing) in
    werr ← writeState opts existing;
    mret (match werr with Some e => (no_state, Some e) | None => (existing, None) end).

Fixpoint drain_all (refs : list runnerRef) : prog maintE (list RunnerState) :=
  match refs with
  | [] => mret []
  | rn :: refs => applied ← drainRunner rn; rest ← drain_all refs; mret (applied :: rest)
  end.

Definition drained_any (l : list RunnerState) : bool := existsb (fun r => rn_Stopped r || rn_LabelRemoved r) l.

(** There is none: the drain of an idle or forced host. *)
Definition drain_unrecorded (opts : MaintOptions) : prog maintE (MaintState * err_ret) :=
  refs ← discoverRunners opts;
  match refs with
  | Err e =>
      if mo_RequireStopped opts then mret (no_state, Some e)
      else
        now ← call NowFn;
        let state := mkMaint (formatTime now) [] in
        werr ← writeState opts state;
        mret (match werr with Some e => (no_state, Some e) | None => (state, None) end)
  | Ok refs =>
      now ← call NowFn;
      if mo_RequireStopped opts then
        let fresh := (fun rn => mkRunner (rf_Name rn) (rf_Repo rn) 0 false false) <$> refs in
        '(runners, strictErr) ← strictDrain fresh refs;
        strict_end opts (mkMaint (formatTime now) runners) strictErr
      else
        runners ← drain_all refs;
        if negb (bool_decide (refs = [])) && negb (drained_any runners) then
          mret (no_state, Some (Errorf "maintenance enter: falhou parar units E remover label em todos os runners"))
        else
          let state := mkMaint (formatTime now) runners in
          werr ← writeState opts state;
          mret (match werr with Some e => (no_state, Some e) | None => (state, None) end)
  end.

Definition enter_first (opts : MaintOptions) : prog maintE (MaintState * err_ret) :=
  idle ← (if mo_Force opts then mret true else call IdleCheckFn);
  if negb idle then
    mret (no_state, Some (Errorf "maintenance enter: host nao esta ocioso (use --force para drenar mesmo assim)"))
  else drain_unrecorded opts.

Definition enter_locked (opts : MaintOptions) : prog maintE (MaintState * err_ret) :=
  existing ← readState opts;
  match existing with
  | Err e => mret (no_state, Some e)
  | Ok (Some existing) => enter_again opts existing
  | Ok None => enter_first opts
  end.

(** The deferred release. *)
Definition with_lock {A} (opts : MaintOptions) (refused : error -> A) (body : prog maintE A) : prog maintE A :=
  e ← call (LockFn (mo_LockPath opts));
  match e with
  | Some e => mret (refused e)
  | None => a ← body; _ ← call Release; mret a
  end.

Definition Enter (opts : MaintOptions) : prog maintE (MaintState * err_ret) :=
  let opts := maint_applyDefaults opts in
  if mo_RequireStopped opts && mo_Force opts then
    mret (no_state, Some (Errorf "maintenance enter strict: --force is incompatible with a no-interruption drain"))
  else if negb (mo_Execute opts) then dryRunEnter opts
  else with_lock opts (fun e => (no_state, Some (Errorf_w ("maintenance enter: lock " +:+ mo_LockPath opts) e)))
         (enter_locked opts).

Fixpoint restore_all (runners : list RunnerState) : prog maintE unit :=
  match runners with
  | [] => mret tt
  | r :: runners => _ ← restoreRunner r; restore_all runners
  end.

Definition exit_locked (opts : MaintOptions) : prog maintE (MaintState * err_ret) :=
  state ← readState opts;
  match state with
  | Err e => mret (no_state, Some e)
  | Ok None => mret (no_state, None)
  | Ok (Some state) =>
      _ ← restore_all (ms_Runners state);
      e ← call (RemoveFn (mo_StatePath opts));
      mret (match e with
            | Some e => if errors_Is e ErrNotExist then (state, None)
                        else (no_state, Some (Errorf_w ("maintenance exit: remover state " +:+ mo_StatePath opts) e))
            | None => (state, None)
            end)
  end.

Definition Exit (opts : MaintOptions) : prog maintE (MaintState * err_ret) :=
  let opts := maint_applyDefaults opts in
  if negb (mo_Execute opts) then dryRunExit opts
  else with_lock opts (fun e => (no_state, Some (Errorf_w ("maintenance exit: lock " +:+ mo_LockPath opts) e)))
         (exit_locked opts).
End maintenance.
