(* ===== verification/MaintenanceSafety.v ===== *)
(** * What a drain may do, and that it can be undone

    Under any answers of the machine: in which order units are stopped and labels are
    withdrawn; and that the record on disk says what is owed, as long as it can be written
    and the listed units have full names. *)

From S2P Require Import Prelude GoStrings Regex Prog Civm Idle RunnerUnits Maintenance.

Local Open Scope string_scope.
Local Open Scope list_scope.
Local Open Scope Z_scope.

(** ** Names of units *)

Lemma cut_last_inv c s a b : cut_last c s = Some (a, b) -> s = a +:+ String c b /\ no_char c b.
Proof.
  revert a b. induction s as [|d s IH]; intros a b; cbn; [done|].
  destruct (cut_last c s) as [[x y]|] eqn:E.
  - intros [= <- <-]. destruct (IH _ _ eq_refl) as [-> ?]. done.
  - destruct (decide (c = d)) as [->|]; intros [= <- <-]. split; [done|]. clear IH. unfold no_char.
    induction s as [|e s IH]; [done|]. cbn in *. destruct (cut_last d s) as [[]|]; [done|].
    destruct (decide (d = e)); [done|]. rewrite bool_decide_eq_false_2 by done. by apply IH.
Qed.

Lemma cut_last_app c a b : no_char c b -> cut_last c (a +:+ String c b) = Some (a, b).
Proof.
  intros Hb. assert (cut_last c b = None) as Hn.
  { induction b as [|d b IH]; [done|]. apply no_char_cons in Hb as [? ?]. cbn. rewrite IH by done. by case_decide. }
  induction a as [|d a IH]; cbn; [rewrite Hn; by case_decide|by rewrite IH].
Qed.

Lemma Cut_inv c s a b : Cut c s = Some (a, b) -> s = a +:+ String c b.
Proof.
  revert a b. induction s as [|d s IH]; intros a b; cbn; [done|]. case_decide as E; [by intros [= <- <-]; subst|].
  destruct (Cut c s) as [[x y]|]; intros [= <- <-]. cbn. f_equal. by apply IH.
Qed.

Lemma replace_first_none old new s : no_char old s -> replace_first old new s = s.
Proof.
  induction s as [|c s IH]; [done|]. intros [? ?]%no_char_cons. cbn.
  destruct (Ascii.eqb_spec c old); [congruence|]. f_equal. auto.
Qed.

Lemma replace_first_at old new a b : no_char old a -> replace_first old new (a +:+ String old b) = a +:+ String new b.
Proof.
  induction a as [|c a IH]; cbn; [by rewrite Ascii.eqb_refl|]. intros [? ?]%no_char_cons.
  destruct (Ascii.eqb_spec c old); [congruence|]. f_equal. auto.
Qed.

Lemma TrimPrefix_inv s p : HasPrefix s p = true -> s = p +:+ TrimPrefix s p.
Proof.
  intros H. unfold TrimPrefix. rewrite H. unfold HasPrefix in H. apply prefix_inv in H as [t ->]. by rewrite drop_str_app.
Qed.

Lemma TrimSuffix_inv s p : HasSuffix s p = true -> s = TrimSuffix s p +:+ p.
Proof.
  intros H. unfold TrimSuffix. rewrite H. unfold HasSuffix in H. bsplit.
  match goal with E : String.eqb _ _ = true |- _ => apply String.eqb_eq in E end.
  rewrite <- (take_drop_str (String.length s - String.length p) s) at 1. congruence.
Qed.

Lemma HasSuffix_app a p : HasSuffix (a +:+ p) p = true.
Proof.
  unfold HasSuffix. rewrite length_app_str.
  replace (String.length a + String.length p - String.length p)%nat with (String.length a) by lia.
  rewrite drop_str_app, String.eqb_refl, andb_true_r. apply Nat.leb_le. lia.
Qed.

(** A unit [actions.runner.<repository>.<name>.service]: the names that civm can put
    together again. *)
Definition full_unit (unit : string) : Prop :=
  let '(repo, name) := maint_parseRunnerUnit unit in
  repo <> "" /\ name <> "" /\ no_char "/" unit /\ ascii_text repo /\ ascii_text name.

(** Printing what was parsed of a full unit gives the unit back. *)
Lemma runnerUnitName_parse unit id st lr :
  full_unit unit ->
  runnerUnitName (mkRunner (snd (maint_parseRunnerUnit unit)) (fst (maint_parseRunnerUnit unit)) id st lr) = unit.
Proof.
  unfold full_unit, maint_parseRunnerUnit. cbv zeta.
  destruct (HasPrefix unit "actions.runner.") eqn:Hp; [|by intros [? _]]. destruct (HasSuffix unit ".service") eqn:Hs; [|by intros [? _]].
  cbn [negb orb]. apply TrimPrefix_inv in Hp as Eu. set (t := TrimPrefix unit "actions.runner.") in *. clearbody t. subst unit.
  destruct (cut_last "." (TrimSuffix t ".service")) as [[seg name]|] eqn:Ec; [|by intros (? & ? & _)].
  apply cut_last_inv in Ec as [Et Hn].
  assert (t = seg +:+ String "." (name +:+ ".service")) as ->.
  { destruct (HasSuffix t ".service") eqn:Hts.
    - rewrite (TrimSuffix_inv _ _ Hts), Et. by rewrite <- app_assoc_str.
    - exfalso. unfold TrimSuffix in Et. rewrite Hts in Et. subst t. apply HasSuffix_inv in Hs as [q Hq].
      apply (f_equal (cut_last ".")) in Hq. change ".service" with (String "." "service") in Hq.
      rewrite app_assoc_str, !cut_last_app in Hq by done. injection Hq as _ ->.
      by rewrite (HasSuffix_app seg ".service") in Hts. }
  clear. intros Hf.
  assert (forall r n, no_char "/" r -> r <> "" -> runnerUnitName (mkRunner n r id st lr) = "actions.runner." +:+ r +:+ String "." (n +:+ ".service")) as Hplain.
  { intros r n Hr Hne. unfold runnerUnitName. cbn [rn_Repo rn_Name]. rewrite replace_first_none by done.
    by apply String.eqb_neq in Hne as ->. }
  destruct (Cut "-" seg) as [[owner repo]|] eqn:Ed; destruct Hf as (Hr & Hne & Hsl & _);
    apply no_char_app in Hsl as [_ [Hsl _]%no_char_app]; cbn [fst snd]; [|by apply Hplain].
  apply Cut_inv in Ed as ->. apply no_char_app in Hsl as [Ho _]. unfold runnerUnitName. cbn [rn_Repo rn_Name].
  change (owner +:+ "/" +:+ repo) with (owner +:+ String "/" repo). rewrite replace_first_at by done.
  destruct (String.eqb_spec (owner +:+ String "-" repo) "") as [E|_]; [by destruct owner|done].
Qed.

(** ** What is owed

    The state of the world that maintenance shares: the record on disk, the units it
    stopped and has not started since, the labels it withdrew and has not put back. *)
Record mstate := mkMS {
  mt_file : option string;        (* the bytes of the record; [None] when there is no file *)
  mt_units : gset string;
  mt_labels : gset string;        (* the endpoints of the withdrawn labels *)
  mt_calm : bool;                 (* the last look found the host idle *)
  mt_sealed : bool;               (* and no label was touched after it *)
  mt_lock : bool;
  mt_lost : bool;                 (* a write of the record failed *)
  mt_listing : string;            (* the last listing of the units *)
  mt_odd : bool;                  (* a listing had a unit that is not full *)
  mt_ufail : gset string;         (* the units whose start failed *)
  mt_lfail : gset string;         (* the labels that could not be put back *)
}.

Definition set_file x t :=
  mkMS x (mt_units t) (mt_labels t) (mt_calm t) (mt_sealed t) (mt_lock t) (mt_lost t) (mt_listing t) (mt_odd t) (mt_ufail t) (mt_lfail t).
Definition set_units x t :=
  mkMS (mt_file t) x (mt_labels t) (mt_calm t) (mt_sealed t) (mt_lock t) (mt_lost t) (mt_listing t) (mt_odd t) (mt_ufail t) (mt_lfail t).
Definition set_labels x t :=
  mkMS (mt_file t) (mt_units t) x (mt_calm t) false (mt_lock t) (mt_lost t) (mt_listing t) (mt_odd t) (mt_ufail t) (mt_lfail t).
Definition set_calm x t :=
  mkMS (mt_file t) (mt_units t) (mt_labels t) x x (mt_lock t) (mt_lost t) (mt_listing t) (mt_odd t) (mt_ufail t) (mt_lfail t).
Definition set_lock x t :=
  mkMS (mt_file t) (mt_units t) (mt_labels t) (mt_calm t) (mt_sealed t) x (mt_lost t) (mt_listing t) (mt_odd t) (mt_ufail t) (mt_lfail t).
Definition set_lost t :=
  mkMS (mt_file t) (mt_units t) (mt_labels t) (mt_calm t) (mt_sealed t) (mt_lock t) true (mt_listing t) (mt_odd t) (mt_ufail t) (mt_lfail t).
Definition set_listing odd x t :=
  mkMS (mt_file t) (mt_units t) (mt_labels t) (mt_calm t) (mt_sealed t) (mt_lock t) (mt_lost t) x (mt_odd t || odd) (mt_ufail t) (mt_lfail t).
Definition set_ufail x t :=
  mkMS (mt_file t) (mt_units t) (mt_labels t) (mt_calm t) (mt_sealed t) (mt_lock t) (mt_lost t) (mt_listing t) (mt_odd t) x (mt_lfail t).
Definition set_lfail x t :=
  mkMS (mt_file t) (mt_units t) (mt_labels t) (mt_calm t) false (mt_lock t) (mt_lost t) (mt_listing t) (mt_odd t) (mt_ufail t) x.

Definition is_ok {A} (r : result A) : bool := match r with Ok _ => true | Err _ => false end.

(** The endpoint of the label of a recorded runner. *)
Definition label_of (r : RunnerState) : option string :=
  if rn_LabelRemoved r then
    match runnerAPIBase (rn_Repo r) (rn_Name r) with
    | Ok base => Some (labels_endpoint base (rn_RunnerID r) +:+ "/" +:+ civmLabel)
    | Err _ => None
    end
  else None.

Definition unit_of (r : RunnerState) : option string := if rn_Stopped r then Some (runnerUnitName r) else None.

Definition units_of (rs : list RunnerState) : gset string := list_to_set (omap unit_of rs).
Definition labels_of (rs : list RunnerState) : gset string := list_to_set (omap label_of rs).

(** A runner as civm writes it: a withdrawn label has its registration. *)
Definition sound (r : RunnerState) : Prop :=
  - 2 ^ 63 <= rn_RunnerID r < 2 ^ 63 /\
  (rn_LabelRemoved r = true -> rn_Repo r <> "" /\ 0 < rn_RunnerID r /\ is_ok (runnerAPIBase (rn_Repo r) (rn_Name r)) = true).

(** Names that JSON keeps. *)
Definition plain_names (r : RunnerState) : Prop := ascii_text (rn_Name r) /\ ascii_text (rn_Repo r).

(** The runners of a record: [Some []] when there is none, [None] when it does not parse. *)
Definition file_runners `{StateCodec} (file : option string) : option (list RunnerState) :=
  match file with
  | None => Some []
  | Some data =>
      if String.eqb (TrimSpace data) "" then Some []
      else match decodeState data with Ok s => Some (ms_Runners s) | Err _ => None end
  end.

(** The record says exactly what is owed. *)
Definition exact `{StateCodec} (t : mstate) : Prop :=
  forall rs, file_runners (mt_file t) = Some rs ->
    mt_units t = units_of rs /\ mt_labels t = labels_of rs /\ Forall sound rs /\ Forall plain_names rs.

(** ** What may be done *)

Section safety.
Context `{SortSlice} `{StateCodec}.
Context (formatTime : Z -> string) (decodePages : string -> result (list runnerAPIPage)).
Context (Htime : forall z, ascii_text (formatTime z)).
Context (Hids : forall out pages id name,
  decodePages out = Ok pages -> (id, name) ∈ concat pages -> - 2 ^ 63 <= id < 2 ^ 63).

(** Stop: a unit of a runner, on a host that was idle when last looked at or by force; a
    strict drain only when the label of the runner is withdrawn and the host was found
    idle after the last label was. *)
Definition may_stop (o : MaintOptions) (unit : string) (t : mstate) : Prop :=
  mt_lock t = true /\ (mo_Force o = true \/ mt_calm t = true) /\
  (mo_RequireStopped o = true ->
     mt_sealed t = true /\ exists r lbl, runnerUnitName r = unit /\ label_of r = Some lbl /\ lbl ∈ mt_labels t).

Definition may_withdraw (o : MaintOptions) (t : mstate) : Prop :=
  mt_lock t = true /\ (mo_Force o = true \/ mt_calm t = true).

(** Start and label: what the record says. *)
Definition recorded (t : mstate) (p : RunnerState -> Prop) : Prop :=
  exists rs r, file_runners (mt_file t) = Some rs /\ r ∈ rs /\ p r.

Definition may_run (entering : bool) (o : MaintOptions) (name : string) (args : list string) (t : mstate) : Prop :=
  (name = "systemctl" /\ exists rest, args = "list-units" :: rest) \/
  (name = "sudo" /\ mo_Execute o = true /\ exists unit,
     (entering = true /\ args = ["systemctl"; "stop"; unit] /\ may_stop o unit t) \/
     (entering = false /\ args = ["systemctl"; "start"; unit] /\ mt_lock t = true /\ recorded t (fun r => unit_of r = Some unit))).

Definition may_gh (entering : bool) (o : MaintOptions) (args : list string) (t : mstate) : Prop :=
  (exists endpoint, args = ["api"; "--paginate"; "--slurp"; endpoint]) \/
  (mo_Execute o = true /\ exists endpoint,
     (entering = true /\ args = ["api"; "--method"; "DELETE"; endpoint +:+ "/" +:+ civmLabel] /\ may_withdraw o t) \/
     (entering = false /\ args = ["api"; "--method"; "POST"; endpoint; "-f"; "labels[]=" +:+ civmLabel] /\
        mt_lock t = true /\ recorded t (fun r => label_of r = Some (endpoint +:+ "/" +:+ civmLabel)))).

(** A listing in which every runner unit has a full name. *)
Definition full_listing (out : string) : Prop :=
  Forall (fun line => firstUnitField line = "" \/ full_unit (firstUnitField line)) (Split "010" out).

#[local] Instance full_unit_dec unit : Decision (full_unit unit).
Proof. unfold full_unit, no_char, ascii_text. destruct (maint_parseRunnerUnit unit). apply _. Defined.
#[local] Instance full_listing_dec out : Decision (full_listing out).
Proof. unfold full_listing. apply _. Defined.

(** What the commands do to what is owed: what is started is no longer owed; a start that
    fails is remembered, the unit stays owed. *)
Definition ran (args : list string) (b : result string) (t : mstate) : mstate :=
  match args with
  | ["systemctl"; "stop"; unit] => if is_ok b then set_units ({[unit]} ∪ mt_units t) t else t
  | ["systemctl"; "start"; unit] =>
      if is_ok b then set_units (mt_units t ∖ {[unit]}) t else set_ufail ({[unit]} ∪ mt_ufail t) t
  | "list-units" :: _ =>
      match b with Ok out => set_listing (negb (bool_decide (full_listing out))) out t | Err _ => t end
  | _ => t
  end.

Definition asked (args : list string) (ok : bool) (t : mstate) : mstate :=
  match args with
  | ["api"; "--method"; "DELETE"; endpoint] => set_labels (if ok then {[endpoint]} ∪ mt_labels t else mt_labels t) t
  | ["api"; "--method"; "POST"; endpoint; _; _] =>
      let label := endpoint +:+ "/" +:+ civmLabel in
      if ok then set_labels (mt_labels t ∖ {[label]}) t else set_lfail ({[label]} ∪ mt_lfail t) t
  | _ => t
  end.

Definition maint_spec (entering : bool) (o : MaintOptions) : spec maintE mstate := {|
  allowed B e t :=
    match e with
    | RunFn name args => may_run entering o name args t
    | GHFn args => may_gh entering o args t
    | ReadFileFn path => path = mo_StatePath o
    | WriteFileFn path _ => entering = true /\ mo_Execute o = true /\ mt_lock t = true /\ path = mo_StatePath o
    | RemoveFn path => entering = false /\ mo_Execute o = true /\ mt_lock t = true /\ path = mo_StatePath o
    | MkdirAllFn path => entering = true /\ mo_Execute o = true /\ mt_lock t = true /\ path = Dir (mo_StatePath o)
    | LockFn path => mo_Execute o = true /\ mt_lock t = false /\ path = mo_LockPath o
    | Release => mt_lock t = true
    | IdleCheckFn | NowFn => True
    end;
  answers B e t :=
    match e in maintE B return B -> mstate -> Prop with
    | RunFn name args => fun b t' => t' = ran args b t
    | GHFn args => fun b t' => t' = asked args (is_ok b) t
    | IdleCheckFn => fun b t' => t' = set_calm b t
    | ReadFileFn _ => fun b t' => t' = t /\
        match b with Ok data => mt_file t = Some data | Err e => errors_Is e ErrNotExist = true -> mt_file t = None end
    | WriteFileFn _ data => fun b t' => t' = match b with None => set_file (Some data) t | Some _ => set_lost t end
    | RemoveFn _ => fun b t' => t' = match b with
        | None => set_file None t
        | Some e => if errors_Is e ErrNotExist then set_file None t else t
        end
    | MkdirAllFn _ => fun b t' => t' = match b with None => t | Some _ => set_lost t end
    | LockFn _ => fun b t' => t' = set_lock (match b with None => true | Some _ => false end) t
    | Release => fun _ t' => t' = set_lock false t
    | NowFn => fun _ t' => t' = t
    end;
|}.

(** ** Discovery *)

(** A unit that will be found again from the record. *)
Definition good_ref (ref : runnerRef) : Prop :=
  ascii_text (rf_Name ref) /\ ascii_text (rf_Repo ref) /\ rf_Repo ref <> "" /\
  forall id st lr, runnerUnitName (mkRunner (rf_Name ref) (rf_Repo ref) id st lr) = rf_Unit ref.

Lemma unit_ref_good allow line ref :
  firstUnitField line = "" \/ full_unit (firstUnitField line) -> unit_ref allow line = Some ref -> good_ref ref.
Proof.
  unfold unit_ref. cbv zeta. destruct (String.eqb_spec (firstUnitField line) "") as [|Hne]; [done|]. intros [|Hf]; [done|].
  pose proof (fun id st lr => runnerUnitName_parse (firstUnitField line) id st lr Hf) as Hu. unfold full_unit in Hf.
  destruct (maint_parseRunnerUnit _) as [repo name]. cbn [fst snd] in Hu. destruct Hf as (Hr & Hn & _ & ? & ?).
  apply String.eqb_neq in Hn as ->. destruct (bool_decide _ && _); [done|]. intros [= <-]. by split_and!.
Qed.

Lemma fresh_units_sub seen refs ref : ref ∈ fresh_units seen refs -> ref ∈ refs.
Proof.
  revert seen. induction refs as [|r refs IH]; intros seen; cbn; [done|].
  case_bool_decide; [by intros ?%IH; right|]. intros [->|?%IH]%elem_of_cons; [by left|by right].
Qed.

Lemma refs_of_good repos out : full_listing out -> Forall good_ref (refs_of repos out).
Proof.
  intros Hf. apply Forall_forall. intros ref Hr. unfold refs_of in Hr.
  apply sort_slice_elem_of, fresh_units_sub, list_elem_of_omap in Hr as (line & Hl & Hu).
  unfold full_listing in Hf. rewrite Forall_forall in Hf. by eapply unit_ref_good; [apply Hf|].
Qed.

Lemma wpp_discover entering o Q t :
  (forall e, Q (Err e) t) ->
  (forall odd out, (odd = false -> Forall good_ref (refs_of (mo_Repos o) out)) ->
     Q (Ok (refs_of (mo_Repos o) out)) (set_listing odd out t)) ->
  wpp (maint_spec entering o) (discoverRunners o) Q t.
Proof.
  intros He HQ. unfold discoverRunners. apply wpp_bind, wpp_call; [left; eauto|].
  intros b t' ->. destruct b as [out|e]; apply wpp_ret; [|apply He]. apply HQ. intros E%negb_false_iff%bool_decide_eq_true.
  by apply refs_of_good.
Qed.

(** ** Labels *)

Lemma find_runner_pos n base found l id :
  find_runner n base found l = Ok id -> (id = found /\ found <> 0) \/ (0 < id /\ (id, n) ∈ l).
Proof.
  revert found. induction l as [|[i m] l IH]; intros found; cbn.
  - destruct (Z.eqb_spec found 0); [done|]. intros [= ->]. by left.
  - destruct (String.eqb_spec m n) as [->|]; cbn [negb].
    + destruct (Z.leb_spec i 0), (Z.eqb_spec found 0); cbn [orb negb]; try done.
      intros [[-> _]|[? ?]]%IH; right; (split; [lia|]); [by left|by right].
    + intros [?|[? ?]]%IH; [by left|]. right. split; [done|]. by right.
Qed.

Definition valid_id (id : Z) : Prop := 0 < id < 2 ^ 63.

Lemma wpp_resolve_id entering o base name Q t :
  (forall r, (forall id, r = Ok id -> valid_id id) -> Q r t) ->
  wpp (maint_spec entering o) (resolveRunnerID decodePages base name) Q t.
Proof.
  intros HQ. unfold resolveRunnerID. destruct (String.eqb _ _); [by apply wpp_ret, HQ|].
  apply wpp_bind, wpp_call; [left; eauto|]. intros b t' ->. apply wpp_ret, HQ. intros id.
  destruct b as [out|]; [|done]. destruct (decodePages out) as [pages|] eqn:E; [|done].
  intros [[_ ?]|[? Hin]]%find_runner_pos; [done|]. split; [done|]. by eapply Hids.
Qed.

Definition withdrawn_at (repo name : string) (id : Z) : string :=
  match runnerAPIBase repo name with
  | Ok base => labels_endpoint base id +:+ "/" +:+ civmLabel
  | Err _ => ""
  end.

Lemma wpp_removeLabel o repo name Q t :
  mo_Execute o = true -> may_withdraw o t ->
  (forall e, Q (Err e) t) -> (forall e, Q (Err e) (set_labels (mt_labels t) t)) ->
  (forall id, valid_id id -> is_ok (runnerAPIBase repo name) = true ->
     Q (Ok id) (set_labels ({[withdrawn_at repo name id]} ∪ mt_labels t) t)) ->
  wpp (maint_spec true o) (removeLabel decodePages repo name) Q t.
Proof.
  intros He Hw He1 He2 Hok. unfold removeLabel. unfold withdrawn_at in Hok.
  destruct (runnerAPIBase repo name) as [base|e] eqn:Eb; [|by apply wpp_ret]. apply wpp_bind, wpp_resolve_id.
  intros [id|e] Hr; [|by apply wpp_ret]. apply wpp_bind, wpp_call.
  - right. split; [done|]. eexists. left. eauto.
  - intros [out|e'] t' ->; apply wpp_ret; [by apply Hok; [apply Hr|]|apply He2].
Qed.

Lemma wpp_addLabel o r Q t :
  mo_Execute o = true -> mt_lock t = true -> sound r -> rn_LabelRemoved r = true ->
  recorded t (fun r' => r' = r) ->
  (forall e lbl, label_of r = Some lbl -> Q e (set_labels (mt_labels t ∖ {[lbl]}) t) /\ Q e (set_lfail ({[lbl]} ∪ mt_lfail t) t)) ->
  wpp (maint_spec false o) (addLabel decodePages (rn_Repo r) (rn_Name r) (rn_RunnerID r)) Q t.
Proof.
  intros He Hl [_ Hs] Hrm (rs & ? & Hf & Hin & ->) HQ. destruct (Hs Hrm) as (_ & Hid & Hb). clear Hs.
  unfold addLabel. unfold label_of in HQ. rewrite Hrm in HQ.
  destruct (runnerAPIBase _ _) as [base|] eqn:Eb; [|done]. destruct (Z.leb_spec (rn_RunnerID r) 0) as [?|_]; [lia|].
  apply wpp_bind, wpp_ret, wpp_bind, wpp_call.
  - right. split; [done|]. eexists. right. split_and!; [done|reflexivity|done|]. exists rs, r. split_and!; [done|done|].
    unfold label_of. by rewrite Hrm, Eb.
  - intros [out|e] t' ->; apply wpp_ret; by edestruct HQ.
Qed.

(** ** The loops *)

(** What the runners [rs] have been put through, besides [U] and [L]. *)
Definition owes (U L : gset string) (rs : list RunnerState) (t : mstate) : Prop :=
  (mt_odd t = false -> mt_units t = U ∪ units_of rs /\ Forall plain_names rs) /\
  mt_labels t = L ∪ labels_of rs /\ Forall sound rs.

(** The record, the listing and what is known of it stay as they are. *)
Definition held (o : MaintOptions) (f : option string * string * bool) (t : mstate) : Prop :=
  mt_lock t = true /\ (mt_file t, mt_listing t, mt_odd t) = f /\ mt_lost t = false /\ (mo_Force o = true \/ mt_calm t = true).

Lemma units_of_cons r rs : units_of (r :: rs) = (if rn_Stopped r then {[runnerUnitName r]} else ∅) ∪ units_of rs.
Proof. unfold units_of. cbn. unfold unit_of. destruct (rn_Stopped r); cbn; set_solver. Qed.

Lemma labels_of_cons r rs : labels_of (r :: rs) = (match label_of r with Some l => {[l]} | None => ∅ end) ∪ labels_of rs.
Proof. unfold labels_of. cbn. destruct (label_of r); cbn; set_solver. Qed.

Lemma owes_cons U L r rs t :
  sound r -> (mt_odd t = false -> plain_names r) ->
  owes (U ∪ (if rn_Stopped r then {[runnerUnitName r]} else ∅)) (L ∪ (match label_of r with Some l => {[l]} | None => ∅ end)) rs t <->
  owes U L (r :: rs) t.
Proof. unfold owes. rewrite units_of_cons, labels_of_cons, !Forall_cons, !union_assoc_L. tauto. Qed.

Lemma sound_fresh ref : sound (mkRunner (rf_Name ref) (rf_Repo ref) 0 false false).
Proof. split; cbn; [lia|done]. Qed.

Lemma plain_fresh ref : good_ref ref -> plain_names (mkRunner (rf_Name ref) (rf_Repo ref) 0 false false).
Proof. by intros (? & ? & _). Qed.

Lemma sound_labelled r id :
  sound r -> valid_id id -> rn_Repo r <> "" -> is_ok (runnerAPIBase (rn_Repo r) (rn_Name r)) = true -> sound (labelled id r).
Proof. intros _ [? ?] ? ?. split; [cbn; lia|]. cbn. auto. Qed.

Lemma label_of_labelled r id :
  is_ok (runnerAPIBase (rn_Repo r) (rn_Name r)) = true ->
  label_of (labelled id r) = Some (withdrawn_at (rn_Repo r) (rn_Name r) id).
Proof. unfold label_of, withdrawn_at. cbn. by destruct (runnerAPIBase _ _). Qed.

Lemma label_of_unremoved r : rn_LabelRemoved r = false -> label_of r = None.
Proof. unfold label_of. by intros ->. Qed.

Lemma label_of_stopped r : label_of (stopped_now r) = label_of r.
Proof. done. Qed.

Lemma sound_stopped r : sound r -> sound (stopped_now r).
Proof. done. Qed.

(** Withdrawing the label of one runner. *)
Lemma wpp_withdraw_one o f r U L t :
  mo_Execute o = true -> held o f t -> owes U L [r] t ->
  wpp (maint_spec true o)
    (if rn_LabelRemoved r || String.eqb (rn_Repo r) "" then mret r
     else id ← removeLabel decodePages (rn_Repo r) (rn_Name r); mret (match id with Err _ => r | Ok id => labelled id r end))
    (fun r' t' => held o f t' /\ owes U L [r'] t' /\ runnerUnitName r' = runnerUnitName r /\ rn_Stopped r' = rn_Stopped r) t.
Proof.
  intros He Hh Ho. destruct (rn_LabelRemoved r || _) eqn:E; [by apply wpp_ret|]. apply orb_false_iff in E as [Erm Er].
  pose proof Hh as (Hl & Hf & Hlo & Hc). pose proof Ho as (Hu & Hlab & Hs). rewrite Forall_singleton in Hs.
  apply wpp_bind, wpp_removeLabel; [done|by split|by intros; apply wpp_ret..|]. intros id Hid Hb. apply wpp_ret.
  split; [done|]. split; [|done]. unfold owes. rewrite !Forall_singleton. split_and!.
  - intros Hodd. destruct (Hu Hodd) as [? [? _]%Forall_cons]. split; [done|]. done.
  - rewrite labels_of_cons, label_of_labelled by done. cbn [set_labels mt_labels].
    rewrite Hlab, labels_of_cons, label_of_unremoved by done. set_solver.
  - apply sound_labelled; [done..|by apply String.eqb_neq|done].
Qed.

(** Working on the first runner, and then on the others. *)
Definition fit (rs : list RunnerState) (t : mstate) : Prop := Forall sound rs /\ (mt_odd t = false -> Forall plain_names rs).

Lemma owes_focus U L r rs t : owes U L (r :: rs) t -> owes (U ∪ units_of rs) (L ∪ labels_of rs) [r] t /\ fit rs t.
Proof.
  intros (Hu & Hl & [? ?]%Forall_cons). unfold owes, fit. rewrite Hl, !labels_of_cons, !Forall_singleton.
  split_and!; [|set_solver|done|done|by intros [_ [_ ?]%Forall_cons]%Hu].
  intros [-> [? _]%Forall_cons]%Hu. rewrite !units_of_cons. split; [set_solver|done].
Qed.

Lemma owes_rest U L r rs t :
  owes (U ∪ units_of rs) (L ∪ labels_of rs) [r] t -> fit rs t ->
  (sound r /\ (mt_odd t = false -> plain_names r)) /\ owes (U ∪ (if rn_Stopped r then {[runnerUnitName r]} else ∅)) (L ∪ (match label_of r with Some l => {[l]} | None => ∅ end)) rs t.
Proof.
  intros (Hu & Hl & Hs) [? Hp]. rewrite Forall_singleton in Hs. rewrite Forall_singleton in Hu. unfold owes.
  rewrite Hl, !labels_of_cons. split_and!; [done|by intros [_ ?]%Hu| |set_solver|done].
  intros Hodd. destruct (Hu Hodd) as [-> _]. rewrite units_of_cons. split; [set_solver|by apply Hp].
Qed.

(** Nothing is listed in the loops. *)
Lemma held_odd o f t : held o f t -> mt_odd t = snd f.
Proof. by intros (_ & <- & _). Qed.

Lemma fit_held o f rs t t' : held o f t -> held o f t' -> fit rs t -> fit rs t'.
Proof. unfold fit. intros Ht%held_odd Ht'%held_odd. congruence. Qed.

Definition same_units (rs rs' : list RunnerState) : Prop := Forall2 (fun r r' => runnerUnitName r' = runnerUnitName r) rs rs'.

Lemma wpp_withdraw o f rs U L t :
  mo_Execute o = true -> held o f t -> owes U L rs t ->
  wpp (maint_spec true o) (withdraw decodePages rs) (fun rs' t' => held o f t' /\ owes U L rs' t' /\ same_units rs rs') t.
Proof.
  intros He. revert U L t. induction rs as [|r rs IH]; intros U L t Hh Ho; cbn [withdraw];
    [apply wpp_ret; by split_and!; [..|constructor]|].
  apply owes_focus in Ho as [Hr Hs]. apply wpp_bind. eapply wpp_mono; [by apply wpp_withdraw_one|].
  cbn beta. intros r' t1 (Hh1 & Ho1 & Hn & Hst). apply owes_rest in Ho1 as [[Hs' Hp'] Ho1]; [|by apply (fit_held o f rs t)].
  apply wpp_bind. eapply wpp_mono; [by eapply IH|].
  cbn beta. intros rs' t2 (Hh2 & Ho2 & Hsame). apply wpp_ret. split_and!; [done| |by constructor]. apply owes_cons; [done| |done].
  by rewrite (held_odd _ _ _ Hh2), <- (held_odd _ _ _ Hh1).
Qed.

(** The label of every runner is withdrawn, and the host was found idle after that. *)
Definition quiesced (rs : list RunnerState) (t : mstate) : Prop :=
  mt_sealed t = true /\ Forall (fun r => exists lbl, label_of r = Some lbl /\ lbl ∈ mt_labels t) rs.

Lemma wpp_stop_units o f rs U L t :
  mo_Execute o = true -> held o f t -> owes U L rs t -> quiesced rs t ->
  wpp (maint_spec true o) (stop_units rs) (fun rs' t' => held o f t' /\ owes U L rs' t' /\ same_units rs rs' /\ rn_LabelRemoved <$> rs' = rn_LabelRemoved <$> rs) t.
Proof.
  intros He. revert U L t. induction rs as [|r rs IH]; intros U L t Hh Ho [Hseal Hq]; cbn [stop_units];
    [apply wpp_ret; by split_and!; [..|constructor|]|].
  apply Forall_cons in Hq as [(lbl & El & Hin) Hq]. apply owes_focus in Ho as [Hr Hs]. apply wpp_bind.
  apply wpp_mono with (Q := fun r' t' => held o f t' /\ owes (U ∪ units_of rs) (L ∪ labels_of rs) [r'] t' /\ runnerUnitName r' = runnerUnitName r /\
    rn_LabelRemoved r' = rn_LabelRemoved r /\ quiesced rs t').
  { destruct (rn_Stopped r) eqn:Est; [by apply wpp_ret|]. apply wpp_bind, wpp_call.
    - right. split; [done|]. split; [done|]. eexists. left. split; [done|]. split; [reflexivity|]. split; [apply Hh|]. split; [apply Hh|].
      intros _. split; [done|]. by exists r, lbl.
    - intros b t' ->. destruct b as [out|e]; apply wpp_ret; [|done]. split_and!; [done| |done|done|done].
      destruct Hr as (Hu & Hl & Hs1). rewrite Forall_singleton in Hs1. split_and!; [|done|by rewrite Forall_singleton; apply sound_stopped].
      intros Hodd. destruct (Hu Hodd) as [Hu1 Hp1]. rewrite Forall_singleton in Hp1 |- *. split; [|done].
      rewrite units_of_cons. cbn [ran is_ok set_units mt_units]. rewrite Hu1, units_of_cons, Est. cbn [rn_Stopped stopped_now].
      change (runnerUnitName (stopped_now r)) with (runnerUnitName r). set_solver. }
  cbn beta. intros r' t1 (Hh1 & Ho1 & Hn & Hlr & Hq1). apply owes_rest in Ho1 as [[Hs' Hp'] Ho1]; [|by apply (fit_held o f rs t)].
  apply wpp_bind. eapply wpp_mono; [by eapply IH|].
  cbn beta. intros rs' t2 (Hh2 & Ho2 & Hsame & Hlrs). apply wpp_ret. split_and!; [done| |by constructor|].
  - apply owes_cons; [done| |done]. by rewrite (held_odd _ _ _ Hh2), <- (held_odd _ _ _ Hh1).
  - by rewrite !fmap_cons, Hlr, Hlrs.
Qed.

(** The lenient drain of one unit. *)
Lemma wpp_drainRunner o f ref U L t :
  mo_Execute o = true -> mo_RequireStopped o = false -> held o f t -> (mt_odd t = false -> good_ref ref /\ mt_units t = U) -> mt_labels t = L ->
  wpp (maint_spec true o) (drainRunner decodePages ref) (fun r t' => held o f t' /\ owes U L [r] t') t.
Proof.
  intros He Hst Hh Hg HL. pose proof (sound_fresh ref) as Hs. unfold drainRunner.
  apply wpp_bind, wpp_call.
  { right. split; [done|]. split; [done|]. eexists. left. split; [done|]. split; [reflexivity|].
    split; [apply Hh|]. split; [apply Hh|]. by rewrite Hst. }
  intros b t1 ->. set (fresh := mkRunner _ _ 0 false false) in *.
  set (r := match b with Err _ => fresh | Ok _ => stopped_now fresh end).
  set (t1 := ran _ _ t). assert (held o f t1 /\ owes U L [r] t1) as [Hh1 Ho1].
  { split; [by destruct b|]. unfold owes. rewrite !Forall_singleton, labels_of_cons. subst r t1.
    destruct b; cbn [ran is_ok set_units mt_units mt_labels mt_odd rn_Stopped stopped_now label_of rn_LabelRemoved fresh].
    - split_and!; [|set_solver|by apply sound_stopped]. intros Hodd. destruct (Hg Hodd) as [Hg1 HU].
      split; [|by apply plain_fresh in Hg1]. destruct Hg1 as (_ & _ & _ & Hname). rewrite units_of_cons.
      replace (runnerUnitName _) with (rf_Unit ref) by (symmetry; apply Hname). cbn. set_solver.
    - split_and!; [|set_solver|done]. intros Hodd. destruct (Hg Hodd) as [Hg1 HU]. rewrite units_of_cons. cbn.
      split; [set_solver|by apply plain_fresh in Hg1]. }
  assert (rn_Repo r = rf_Repo ref /\ rn_Name r = rf_Name ref /\ rn_LabelRemoved r = false) as (Er & En & Elr) by (by destruct b).
  clearbody r t1. pose proof (wpp_withdraw_one o f r U L t1 He Hh1 Ho1) as Hw. rewrite Elr, Er, En in Hw. cbn [orb] in Hw.
  destruct (String.eqb (rf_Repo ref) ""); cbn [negb]; [by apply wpp_ret|]. eapply wpp_mono; [exact Hw|]. cbn beta. tauto.
Qed.

Lemma wpp_drain_all o f refs U L t :
  mo_Execute o = true -> mo_RequireStopped o = false -> held o f t -> (mt_odd t = false -> Forall good_ref refs /\ mt_units t = U) -> mt_labels t = L ->
  wpp (maint_spec true o) (drain_all decodePages refs) (fun rs t' => held o f t' /\ owes U L rs t') t.
Proof.
  intros He Hst. revert U L t. induction refs as [|ref refs IH]; intros U L t Hh Hg HL; cbn [drain_all].
  { apply wpp_ret. split; [done|]. split_and!; [|cbn; set_solver|done]. intros [_ HU]%Hg. cbn. split; [set_solver|done]. }
  apply wpp_bind. eapply wpp_mono; [eapply (wpp_drainRunner o f ref U L); try done; by intros [[? _]%Forall_cons ?]%Hg|].
  cbn beta. intros r t1 [Hh1 (Hu & Hl & Hs)]. rewrite Forall_singleton in Hs. rewrite Forall_singleton in Hu.
  assert (mt_odd t1 = mt_odd t) as Eodd by (by rewrite (held_odd _ _ _ Hh1), <- (held_odd _ _ _ Hh)).
  apply wpp_bind. eapply wpp_mono.
  { apply (IH (U ∪ units_of [r]) (mt_labels t1) t1 Hh1); [|done]. intros Hodd. split; [|by apply Hu].
    rewrite Eodd in Hodd. by destruct (Hg Hodd) as [[_ ?]%Forall_cons _]. }
  cbn beta. intros rs t2 [Hh2 Ho2]. apply wpp_ret.
  split; [done|]. apply owes_cons; [done|by rewrite (held_odd _ _ _ Hh2), <- (held_odd _ _ _ Hh1); intros [_ ?]%Hu|].
  rewrite Hl, units_of_cons, labels_of_cons in Ho2.
  change (units_of []) with (∅ : gset string) in Ho2. change (labels_of []) with (∅ : gset string) in Ho2. by rewrite !union_empty_r_L in Ho2.
Qed.

(** ** The strict drain *)

Lemma units_of_app a b : units_of (a ++ b) = units_of a ∪ units_of b.
Proof. unfold units_of. by rewrite omap_app, list_to_set_app_L. Qed.
Lemma labels_of_app a b : labels_of (a ++ b) = labels_of a ∪ labels_of b.
Proof. unfold labels_of. by rewrite omap_app, list_to_set_app_L. Qed.

Definition untouched (r : RunnerState) : Prop := rn_Stopped r = false /\ rn_LabelRemoved r = false.

Lemma untouched_owes rs : Forall untouched rs -> units_of rs = ∅ /\ labels_of rs = ∅.
Proof.
  induction 1 as [|r rs [Hs Hl] _ [IHu IHl]]; [done|].
  rewrite units_of_cons, labels_of_cons, label_of_unremoved, Hs, IHu, IHl by done. set_solver.
Qed.

(** New runners are untouched; if the units are full, the known units are those of the
    runners. *)
Lemma add_refs_spec (G : Prop) rs refs :
  (G -> Forall good_ref refs) ->
  exists extra, add_refs rs refs = rs ++ extra /\ Forall untouched extra /\ Forall sound extra /\
    (G -> Forall plain_names extra /\ Forall (fun ref => rf_Unit ref ∈ runnerUnitName <$> rs ++ extra) refs).
Proof.
  unfold add_refs.
  enough (forall rs known, (G -> known = list_to_set (runnerUnitName <$> rs)) -> (G -> Forall good_ref refs) ->
    exists extra, (foldl (fun acc ref => add_ref (fst acc) (snd acc) ref) (rs, known) refs).1 = rs ++ extra /\
      Forall untouched extra /\ Forall sound extra /\
      (G -> Forall plain_names extra /\ Forall (fun ref => rf_Unit ref ∈ runnerUnitName <$> rs ++ extra) refs)) as Hx by by apply Hx.
  clear rs. induction refs as [|ref refs IH]; intros rs known Hk Hg; cbn [foldl].
  { exists []. by rewrite app_nil_r. }
  assert (G -> good_ref ref /\ Forall good_ref refs) as Hg' by (by intros ?%Hg%Forall_cons).
  unfold add_ref at 2. cbn [fst snd]. case_bool_decide as E.
  - destruct (IH rs known Hk) as (extra & -> & Hu & Hs & Hin); [tauto|]. exists extra. split_and!; [done..|].
    intros HG. destruct (Hin HG) as [Hp Hn]. split; [done|]. constructor; [|done]. rewrite (Hk HG) in E.
    apply elem_of_list_to_set in E. rewrite fmap_app, elem_of_app. by left.
  - set (r := mkRunner _ _ _ _ _).
    assert (G -> runnerUnitName r = rf_Unit ref) as Hr by (intros HG; destruct (Hg' HG) as [(_ & _ & _ & Hn) _]; apply Hn).
    destruct (IH (rs ++ [r]) ({[rf_Unit ref]} ∪ known)) as (extra & Ee & Hu & Hs & Hin); [|tauto|exists (r :: extra)].
    { intros HG. rewrite fmap_app, list_to_set_app_L, <- (Hk HG). cbn. rewrite (Hr HG). set_solver. }
    rewrite Ee, <- app_assoc. split_and!; [done|by constructor|by constructor; [apply sound_fresh|]|].
    intros HG. destruct (Hin HG) as [Hp Hn], (Hg' HG) as [Hgr _]. split; [by constructor; [apply plain_fresh|]|].
    constructor; [|by rewrite <- app_assoc in Hn]. rewrite <- (Hr HG), fmap_app, elem_of_app. right. by left.
Qed.

Definition locked_on (f : option string * string * bool) (t : mstate) : Prop :=
  mt_lock t = true /\ (mt_file t, mt_listing t, mt_odd t) = f /\ mt_lost t = false.

Lemma held_locked o f t : held o f t -> locked_on f t.
Proof. by intros (? & ? & ? & _). Qed.

Lemma same_units_names rs rs' : same_units rs rs' -> runnerUnitName <$> rs' = runnerUnitName <$> rs.
Proof. induction 1; [done|]. cbn. congruence. Qed.

Lemma quiesced_all rs L t :
  existsb unlabelled rs = false -> owes ∅ L rs t -> mt_sealed t = true -> quiesced rs t /\ Forall (fun r => rn_LabelRemoved r = true) rs.
Proof.
  intros Hx (_ & Hl & Hs) Hse. assert (forall r, r ∈ rs -> rn_LabelRemoved r = true) as Hlr.
  { intros r Hr. destruct (unlabelled r) eqn:E; [|by apply orb_false_iff in E as [_ ?%negb_false_iff]].
    assert (existsb unlabelled rs = true); [|congruence]. apply existsb_exists. exists r. by rewrite <- list_elem_of_In. }
  split; [split; [done|]|by apply Forall_forall]. rewrite Forall_forall in Hs. apply Forall_forall. intros r Hr.
  destruct (Hs r Hr) as [_ Hsr]. destruct (Hsr (Hlr r Hr)) as (_ & _ & Hb).
  assert (exists lbl, label_of r = Some lbl) as [lbl El] by (unfold label_of; rewrite (Hlr r Hr); destruct (runnerAPIBase _ _); eauto; done).
  exists lbl. split; [done|]. rewrite Hl. apply elem_of_union_r, elem_of_list_to_set, list_elem_of_omap. eauto.
Qed.

Lemma owes_add rs extra t :
  owes ∅ ∅ rs t -> Forall untouched extra -> Forall sound extra -> (mt_odd t = false -> Forall plain_names extra) ->
  owes ∅ ∅ (rs ++ extra) t.
Proof.
  intros (Hu & Hl & Hs) [Eu El]%untouched_owes ? Hp. unfold owes. rewrite units_of_app, labels_of_app, Eu, El, !union_empty_r_L, !Forall_app.
  tauto.
Qed.

(** A strict drain that succeeds has stopped every listed unit and withdrawn every label. *)
Definition drained (refs : list runnerRef) (rs : list RunnerState) : Prop :=
  Forall (fun r => rn_Stopped r = true /\ rn_LabelRemoved r = true) rs /\
  Forall (fun ref => rf_Unit ref ∈ runnerUnitName <$> rs) refs.

Lemma wpp_strictDrain o f rs refs t :
  mo_Execute o = true -> held o f t -> owes ∅ ∅ rs t -> (mt_odd t = false -> Forall good_ref refs) ->
  wpp (maint_spec true o) (strictDrain decodePages rs refs)
    (fun r t' => locked_on f t' /\ owes ∅ ∅ (fst r) t' /\ (snd r = None -> snd f = false -> drained refs (fst r))) t.
Proof.
  intros He Hh Ho Hg. unfold strictDrain. destruct (add_refs_spec _ rs refs Hg) as (extra & -> & Hx & Hxs & Hin).
  apply wpp_bind. eapply wpp_mono; [apply wpp_withdraw; [done|exact Hh|apply owes_add; [done..|by intros [? _]%Hin]]|]. cbn beta.
  intros rs1 t1 (Hh1 & Ho1 & Hsame1). destruct (existsb unlabelled rs1) eqn:Hun;
    [by apply wpp_ret; split_and!; [eapply held_locked|..]|].
  apply wpp_bind, wpp_call; [done|]. intros idle t2 ->. destruct idle; cbn [negb];
    [|by apply wpp_ret; split_and!; [apply held_locked in Hh1|..]].
  destruct (quiesced_all rs1 ∅ (set_calm true t1) Hun Ho1 eq_refl) as [Hq Hlr]. apply wpp_bind.
  eapply wpp_mono; [apply (wpp_stop_units o f rs1 ∅ ∅); [done|split_and!; [apply Hh1..|by right]|exact Ho1|exact Hq]|]. cbn beta.
  intros rs2 t3 (Hh3 & Ho3 & Hsame2 & Hlr2). apply wpp_ret. cbn [fst snd]. split_and!; [by eapply held_locked|done|].
  destruct (allRunnersStopped rs2) eqn:Hall; [|done]. intros _ Hodd. rewrite <- (held_odd _ _ _ Hh) in Hodd. split.
  - apply Forall_forall. intros r Hr. split.
    + unfold allRunnersStopped in Hall. rewrite forallb_forall in Hall. apply Hall. by apply list_elem_of_In.
    + assert (rn_LabelRemoved r ∈ rn_LabelRemoved <$> rs2) as Hin2 by (by apply list_elem_of_fmap_2).
      rewrite Hlr2 in Hin2. apply list_elem_of_fmap in Hin2 as (r1 & -> & Hr1). rewrite Forall_forall in Hlr. by apply Hlr.
  - rewrite (same_units_names _ _ Hsame2), (same_units_names _ _ Hsame1). by apply Hin.
Qed.

(** ** The record *)

Lemma wpp_readState entering o Q t :
  (forall e, Q (Err e) t) ->
  (file_runners (mt_file t) = Some [] -> Q (Ok None) t) ->
  (forall s, file_runners (mt_file t) = Some (ms_Runners s) -> Q (Ok (Some s)) t) ->
  wpp (maint_spec entering o) (readState o) Q t.
Proof.
  intros He Hn Hs. unfold readState. apply wpp_bind, wpp_call; [done|]. intros [data|e] t' [-> Hb]; apply wpp_ret.
  - unfold file_runners in Hn, Hs. rewrite Hb in Hn, Hs. destruct (String.eqb _ _); [by apply Hn|].
    destruct (decodeState data) eqn:E; [by apply Hs|apply He].
  - destruct (errors_Is e ErrNotExist); [|apply He]. apply Hn. by rewrite Hb.
Qed.

Lemma wpp_write_record o s Q t :
  mo_Execute o = true -> mt_lock t = true ->
  (forall e, Q (Some e) (set_lost t)) -> Q None (set_file (Some (encodeState s)) t) ->
  wpp (maint_spec true o) (writeState o s) Q t.
Proof.
  intros He Hl HQe HQ. unfold writeState. apply wpp_bind, wpp_call; [done|]. intros [e|] t1 ->; [by apply wpp_ret|].
  apply wpp_bind, wpp_call; [done|]. intros [e|] t2 ->; by apply wpp_ret.
Qed.

Lemma state_text_now z rs : Forall sound rs -> Forall plain_names rs -> state_text (mkMaint (formatTime z) rs).
Proof.
  rewrite !Forall_forall. intros Hs Hp. split; [apply Htime|]. apply Forall_forall. intros r Hr.
  destruct (Hs r Hr) as [[? ?] _], (Hp r Hr) as [? ?]. by split_and!.
Qed.

Lemma owes_text z U L rs t : owes U L rs t -> mt_odd t = false -> state_text (mkMaint (formatTime z) rs).
Proof. intros (Hu & _ & Hs) Hodd. destruct (Hu Hodd) as [_ Hp]. by apply state_text_now. Qed.

Lemma file_runners_written s : state_text s -> file_runners (Some (encodeState s)) = Some (ms_Runners s).
Proof.
  intros Hs. unfold file_runners. pose proof (encode_state_nonblank s) as Hb. apply String.eqb_neq in Hb as ->.
  by rewrite decode_encode_state.
Qed.

(** What [Enter] leaves behind when every listed unit was full: unless a write failed the
    record is exact; without an error it holds the returned state, and a strict drain has
    stopped and unlabelled every runner of it, among them every eligible unit of the
    listing. *)
Definition entered (o : MaintOptions) (r : MaintState * err_ret) (t : mstate) : Prop :=
  mt_odd t = false ->
  (mt_lost t = false -> exact t) /\
  (snd r = None -> file_runners (mt_file t) = Some (ms_Runners (fst r)) /\
     (mo_RequireStopped o = true -> drained (refs_of (mo_Repos o) (mt_listing t)) (ms_Runners (fst r)))).

Lemma exact_written s t :
  state_text s -> owes ∅ ∅ (ms_Runners s) t -> mt_odd t = false -> exact (set_file (Some (encodeState s)) t).
Proof.
  intros Ht (Hu & Hl & Hs) Hodd rs Hrs. cbn [set_file mt_file mt_units mt_labels] in *. destruct (Hu Hodd) as [Hu1 Hp].
  rewrite file_runners_written in Hrs by done. injection Hrs as <-. rewrite Hu1, Hl, !union_empty_l_L. done.
Qed.

Lemma exact_owes t rs : exact t -> file_runners (mt_file t) = Some rs -> owes ∅ ∅ rs t.
Proof. intros Hx Hrs. destruct (Hx rs Hrs) as (Hu & Hl & Hs & Hp). unfold owes. by rewrite Hu, Hl, !union_empty_l_L. Qed.

(** Saving a new state as the result. *)
Lemma wpp_save o z rs t (s := mkMaint (formatTime z) rs) :
  mo_Execute o = true -> mt_lock t = true -> owes ∅ ∅ rs t -> mo_RequireStopped o = false ->
  wpp (maint_spec true o) (werr ← writeState o s; mret (match werr with Some e => (no_state, Some e) | None => (s, None) end))
    (fun r t' => mt_lock t' = true /\ entered o r t') t.
Proof.
  intros He Hl Ho Hns. apply wpp_bind, wpp_write_record; [done|done| |].
  - intros e. apply wpp_ret. split; [done|]. by intros _.
  - apply wpp_ret. split; [done|]. intros Hodd. pose proof (owes_text z _ _ _ _ Ho Hodd) as Ht.
    split; [intros _; by apply exact_written|]. intros _. cbn [fst set_file mt_file].
    rewrite file_runners_written by done. by rewrite Hns.
Qed.

Lemma wpp_strict_end o z rs e t refs :
  mo_Execute o = true -> mt_lock t = true -> owes ∅ ∅ rs t ->
  (e = None -> refs = refs_of (mo_Repos o) (mt_listing t) /\ (mt_odd t = false -> drained refs rs)) ->
  wpp (maint_spec true o) (strict_end o (mkMaint (formatTime z) rs) e) (fun r t' => mt_lock t' = true /\ entered o r t') t.
Proof.
  intros He Hl Ho Hd. unfold strict_end. apply wpp_bind, wpp_write_record; [done|done| |].
  - intros e'. apply wpp_ret. split; [done|]. by intros _.
  - apply wpp_ret. split; [by repeat case_match|]. intros Hodd. pose proof (owes_text z _ _ _ _ Ho Hodd) as Ht.
    split; [intros _; by apply exact_written|]. cbn [set_file mt_file mt_listing].
    rewrite file_runners_written by done. destruct e; [done|]. destruct Hd as [-> Hd]; [done|]. destruct (allRunnersStopped _); auto.
Qed.

(** A listing changes nothing that is owed. *)
Lemma owes_listed U L rs odd out t : owes U L rs t -> owes U L rs (set_listing odd out t).
Proof. intros (Hu & Hl & Hs). split_and!; [|done|done]. cbn. intros [Ho _]%orb_false_iff. exact (Hu Ho). Qed.

(** The look at the host, unless forced. *)
Lemma wpp_look o (Q : bool -> mstate -> Prop) t :
  (mo_Force o = true -> Q true t) -> (mo_Force o = false -> forall b, Q b (set_calm b t)) ->
  wpp (maint_spec true o) (if mo_Force o then mret true else call IdleCheckFn) Q t.
Proof.
  intros H1 H2. destruct (mo_Force o); [by apply wpp_ret, H1|]. apply wpp_call; [done|]. intros b t' ->. by apply H2.
Qed.

(** Nothing was done and nothing claimed. *)
Lemma entered_error o s e t : exact t -> entered o (s, Some e) t.
Proof. by intros ? _. Qed.

Lemma wpp_enter_again o s t :
  mo_Execute o = true -> mt_lock t = true -> mt_lost t = false -> exact t -> file_runners (mt_file t) = Some (ms_Runners s) ->
  wpp (maint_spec true o) (enter_again formatTime decodePages o s) (fun r t' => mt_lock t' = true /\ entered o r t') t.
Proof.
  intros He Hl Hlo Hx Hf. pose proof (exact_owes t _ Hx Hf) as Ho. unfold enter_again.
  destruct (mo_RequireStopped o) eqn:Hst; [|apply wpp_bind, wpp_call; [done|]; intros now t' ->; by apply wpp_save].
  assert (forall t, mt_lock t = true -> mt_lost t = false -> mo_Force o = true \/ mt_calm t = true -> owes ∅ ∅ (ms_Runners s) t ->
    wpp (maint_spec true o) ('(runners, strictErr) ← retryStrictDrain decodePages o (ms_Runners s); now ← call NowFn;
      strict_end o (mkMaint (formatTime now) runners) strictErr) (fun r t' => mt_lock t' = true /\ entered o r t') t) as Hgo.
  { clear - He Htime Hids. intros t Hl Hlo Hc Ho. apply wpp_bind. unfold retryStrictDrain. apply wpp_bind, wpp_discover.
    - intros e. apply wpp_ret, wpp_bind, wpp_call; [done|]. intros now t' ->. by apply (wpp_strict_end o now _ _ _ []).
    - intros odd out Hg. eapply wpp_mono; [apply (wpp_strictDrain o (mt_file t, out, mt_odd t || odd)); [done|by split_and!|by apply owes_listed|]|].
      { cbn. intros [_ Hod]%orb_false_iff. by apply Hg. }
      cbn beta. intros [rs e] t1 ((Hl1 & [= Hf1 Hli1 Hod1] & Hlo1) & Ho1 & Hd). cbn [fst snd] in *. apply wpp_bind, wpp_call; [done|]. intros now t' ->.
      apply (wpp_strict_end o now _ _ _ (refs_of (mo_Repos o) out)); [done..|]. rewrite Hli1, Hod1. auto. }
  apply wpp_bind, wpp_look.
  - intros Hfo. cbn [negb]. apply Hgo; auto.
  - intros _ [|]; cbn [negb]; [apply Hgo; auto|apply wpp_ret; by split].
Qed.

Lemma drained_none rs : drained_any rs = false -> Forall untouched rs.
Proof.
  intros Hd. apply Forall_forall. intros r Hr. unfold drained_any in Hd.
  assert (rn_Stopped r || rn_LabelRemoved r = false) as E%orb_false_iff; [|done].
  destruct (_ || _) eqn:E; [|done]. rewrite <- Hd. symmetry. apply existsb_exists. exists r. by rewrite <- list_elem_of_In.
Qed.

(** The lenient drain of an unrecorded host. *)
Lemma wpp_enter_lenient o refs z t :
  mo_Execute o = true -> mo_RequireStopped o = false -> mt_lock t = true -> mt_lost t = false -> mo_Force o = true \/ mt_calm t = true ->
  exact t -> file_runners (mt_file t) = Some [] -> (mt_odd t = false -> Forall good_ref refs) ->
  wpp (maint_spec true o)
    (runners ← drain_all decodePages refs;
     if negb (bool_decide (refs = [])) && negb (drained_any runners) then
       mret (no_state, Some (Errorf "maintenance enter: falhou parar units E remover label em todos os runners"))
     else werr ← writeState o (mkMaint (formatTime z) runners);
          mret (match werr with Some e => (no_state, Some e) | None => (mkMaint (formatTime z) runners, None) end))
    (fun r t' => mt_lock t' = true /\ entered o r t') t.
Proof.
  intros He Hns Hl Hlo Hc Hx Hf Hg. destruct (Hx [] Hf) as (Hu & Hla & _).
  apply wpp_bind. eapply wpp_mono; [apply (wpp_drain_all o (mt_file t, mt_listing t, mt_odd t) refs ∅ ∅); [done..| |done]; auto|]. cbn beta.
  intros rs t1 ((Hl1 & [= Hf1 Hli1 Hod1] & Hlo1 & _) & Ho1). destruct (negb _ && negb _) eqn:E.
  - apply wpp_ret. split; [done|]. intros Hodd. split; [intros _|done]. apply andb_true_iff in E as [_ Hd%negb_true_iff].
    apply drained_none, untouched_owes in Hd as [Eu El]. destruct Ho1 as (Hu1 & Hl1' & _). intros rs' Hrs'.
    rewrite Hf1, Hf in Hrs'. injection Hrs' as <-. destruct (Hu1 Hodd) as [-> _]. rewrite Hl1', Eu, El. by rewrite !union_empty_l_L.
  - by apply wpp_save.
Qed.

Lemma wpp_drain_unrecorded o t :
  mo_Execute o = true -> mt_lock t = true -> mt_lost t = false -> mo_Force o = true \/ mt_calm t = true ->
  exact t -> file_runners (mt_file t) = Some [] ->
  wpp (maint_spec true o) (drain_unrecorded formatTime decodePages o) (fun r t' => mt_lock t' = true /\ entered o r t') t.
Proof.
  intros He Hl Hlo Hc Hx Hf. pose proof (exact_owes t [] Hx Hf) as Ho. unfold drain_unrecorded. apply wpp_bind, wpp_discover.
  - intros e. destruct (mo_RequireStopped o) eqn:Hst; [by apply wpp_ret|]. apply wpp_bind, wpp_call; [done|]. intros now t' ->. by apply wpp_save.
  - intros odd out Hg0. assert (mt_odd (set_listing odd out t) = false -> Forall good_ref (refs_of (mo_Repos o) out)) as Hg
      by (intros [_ Hod]%orb_false_iff; by apply Hg0).
    apply wpp_bind, wpp_call; [done|]. intros now t' ->. destruct (mo_RequireStopped o) eqn:Hst; [|by apply wpp_enter_lenient].
    apply wpp_bind. eapply wpp_mono; [apply (wpp_strictDrain o (mt_file t, out, mt_odd t || odd)); [done|done| |done]|].
    + apply (owes_add []); [by apply owes_listed|by apply Forall_fmap, Forall_true|apply Forall_fmap, Forall_true, sound_fresh|].
      intros Hod. apply Forall_fmap. eapply Forall_impl; [exact (Hg Hod)|]. apply plain_fresh.
    + cbn beta. intros [rs e] t1 ((Hl1 & [= Hf1 Hli1 Hod1] & Hlo1) & Ho1 & Hd). cbn [fst snd] in *.
      apply (wpp_strict_end o now _ _ _ (refs_of (mo_Repos o) out)); [done..|]. rewrite Hli1, Hod1. auto.
Qed.

Lemma wpp_enter_first o t :
  mo_Execute o = true -> mt_lock t = true -> mt_lost t = false -> exact t -> file_runners (mt_file t) = Some [] ->
  wpp (maint_spec true o) (enter_first formatTime decodePages o) (fun r t' => mt_lock t' = true /\ entered o r t') t.
Proof.
  intros He Hl Hlo Hx Hf. unfold enter_first. apply wpp_bind, wpp_look.
  - intros Hfo. cbn [negb]. apply wpp_drain_unrecorded; auto.
  - intros _ [|]; cbn [negb]; [apply wpp_drain_unrecorded; auto|]. apply wpp_ret. split; [done|]. by apply entered_error.
Qed.

(** ** Restoring *)

(** What is still owed are runners of the record that were not tried yet, and attempts that
    failed. *)
Definition due (rs : list RunnerState) (t : mstate) : Prop :=
  mt_units t ⊆ units_of rs ∪ mt_ufail t /\ mt_labels t ⊆ labels_of rs ∪ mt_lfail t.

Lemma wpp_restore_label o f all r rs Q t :
  mo_Execute o = true -> locked_on f t -> file_runners (fst (fst f)) = Some all -> r ∈ all -> sound r ->
  mt_units t ⊆ units_of rs ∪ mt_ufail t -> mt_labels t ⊆ labels_of (r :: rs) ∪ mt_lfail t ->
  (forall t', locked_on f t' -> due rs t' -> Q tt t') ->
  wpp (maint_spec false o) (if rn_LabelRemoved r && negb (String.eqb (rn_Repo r) "")
    then _ ← addLabel decodePages (rn_Repo r) (rn_Name r) (rn_RunnerID r); mret tt else mret tt) Q t.
Proof.
  intros He Hlk Hf Hr Hsr Hu Hl HQ. rewrite labels_of_cons in Hl. destruct (rn_LabelRemoved r) eqn:Hlr; cbn [andb].
  - pose proof Hsr as [_ Hsr']. destruct (Hsr' Hlr) as (Hne & _ & _). apply String.eqb_neq in Hne as ->. cbn [negb].
    apply wpp_bind, wpp_addLabel; [done|apply Hlk|done|done| |].
    + exists all, r. split_and!; [|done|done]. destruct Hlk as (_ & <- & _). done.
    + intros e lbl E. rewrite E in Hl. split; apply wpp_ret, HQ; try done; split; cbn; set_solver.
  - apply wpp_ret, HQ; [done|]. rewrite label_of_unremoved in Hl by done. split; set_solver.
Qed.

Lemma wpp_restore_all o f all rs t :
  mo_Execute o = true -> locked_on f t -> file_runners (fst (fst f)) = Some all -> Forall (fun r => r ∈ all) rs -> Forall sound rs ->
  due rs t ->
  wpp (maint_spec false o) (restore_all decodePages rs) (fun _ t' => locked_on f t' /\ due [] t') t.
Proof.
  intros He Hlk Hf. revert t Hlk. induction rs as [|r rs IH]; intros t Hlk Hin Hs [Hu Hl]; cbn [restore_all]; [by apply wpp_ret|].
  apply Forall_cons in Hin as [Hr Hin], Hs as [Hsr Hs]. rewrite units_of_cons in Hu.
  unfold restoreRunner. apply wpp_bind, wpp_bind.
  assert (forall t1, locked_on f t1 -> mt_units t1 ⊆ units_of rs ∪ mt_ufail t1 -> mt_labels t1 ⊆ labels_of (r :: rs) ∪ mt_lfail t1 ->
    wpp (maint_spec false o) (if rn_LabelRemoved r && negb (String.eqb (rn_Repo r) "")
      then _ ← addLabel decodePages (rn_Repo r) (rn_Name r) (rn_RunnerID r); mret tt else mret tt)
      (fun _ => wpp (maint_spec false o) (restore_all decodePages rs) (fun _ t' => locked_on f t' /\ due [] t')) t1) as Hlab.
  { intros t1 Hlk1 Hu1 Hl1. eapply wpp_restore_label; eauto. }
  destruct (rn_Stopped r) eqn:Hst.
  - apply wpp_bind, wpp_call.
    + right. split; [done|]. split; [done|]. eexists. right. split_and!; [done|reflexivity|apply Hlk|]. exists all, r.
      split_and!; [|done|unfold unit_of; by rewrite Hst]. destruct Hlk as (_ & <- & _). done.
    + intros [out|e] t1 ->; apply wpp_ret, Hlab; try done; cbn; set_solver.
  - apply wpp_ret, Hlab; [done|set_solver|done].
Qed.

(** ** Enter and Exit *)

Lemma wpp_with_lock entering o {A} (refused : error -> A) body (Q : A -> mstate -> Prop) t :
  mo_Execute o = true -> mt_lock t = false ->
  (forall e, Q (refused e) (set_lock false t)) ->
  wpp (maint_spec entering o) body (fun a t' => mt_lock t' = true /\ Q a (set_lock false t')) (set_lock true t) ->
  wpp (maint_spec entering o) (with_lock o refused body) Q t.
Proof.
  intros He Hl Hr Hb. unfold with_lock. apply wpp_bind, wpp_call; [done|]. intros [e|] t1 ->; [apply wpp_ret, Hr|].
  apply wpp_bind. eapply wpp_mono; [exact Hb|]. cbn beta. intros a t2 [Hl2 HQ].
  apply wpp_bind, wpp_call; [done|]. intros b t3 ->. by apply wpp_ret.
Qed.

(** What a run may have left unchanged. *)
Definition untouched_world (t t' : mstate) : Prop :=
  mt_file t' = mt_file t /\ mt_units t' = mt_units t /\ mt_labels t' = mt_labels t /\ mt_lost t' = mt_lost t.

Lemma wpp_dryRunEnter o t :
  wpp (maint_spec true o) (dryRunEnter formatTime o) (fun _ t' => mt_lock t' = mt_lock t /\ untouched_world t t') t.
Proof.
  unfold dryRunEnter. apply wpp_bind, wpp_readState; [by intros; apply wpp_ret| |by intros; apply wpp_ret].
  intros _. apply wpp_bind, wpp_call; [done|]. intros now t' ->. apply wpp_bind, wpp_discover; by intros; apply wpp_ret.
Qed.

Lemma wpp_Enter opts t (o := maint_applyDefaults opts) :
  mt_lock t = false -> mt_lost t = false -> exact t ->
  wpp (maint_spec true o) (Enter formatTime decodePages opts)
    (fun r t' => mt_lock t' = false /\ (mt_odd t' = false -> mt_lost t' = false -> exact t') /\
       if mo_Execute opts then snd r = None -> entered o r t' else untouched_world t t') t.
Proof.
  intros Hl Hlo Hx. subst o. unfold Enter. set (o := maint_applyDefaults opts). assert (mo_Execute o = mo_Execute opts) as <- by done.
  destruct (mo_RequireStopped o && mo_Force o); [by apply wpp_ret; destruct (mo_Execute o)|].
  destruct (mo_Execute o) eqn:He; cbn [negb].
  - apply wpp_with_lock; [done|done|done|]. unfold enter_locked. apply wpp_bind, wpp_readState.
    + intros e. by apply wpp_ret.
    + intros Hf. eapply wpp_mono; [by apply wpp_enter_first|]. cbn beta. intros r t' [Hl' He']. split_and!; [done|done|intros Hod; by destruct (He' Hod)|done].
    + intros s Hf. eapply wpp_mono; [by apply wpp_enter_again|]. cbn beta. intros r t' [Hl' He']. split_and!; [done|done|intros Hod; by destruct (He' Hod)|done].
  - eapply wpp_mono; [apply wpp_dryRunEnter|]. cbn beta. intros r t' [-> (Ef & Eu & El & Elo)]. split_and!; [done| |done].
    intros _ _. unfold exact. by rewrite Ef, Eu, El.
Qed.

(** Nothing is owed, there is no record, and no attempt to restore has failed. *)
Definition settled (t : mstate) : Prop :=
  mt_units t = ∅ /\ mt_labels t = ∅ /\ file_runners (mt_file t) = Some [] /\ mt_ufail t = ∅ /\ mt_lfail t = ∅.

(** There is no record, and what is still owed are the units whose start and the labels
    whose restoration failed. *)
Definition restored (t : mstate) : Prop :=
  mt_units t ⊆ mt_ufail t /\ mt_labels t ⊆ mt_lfail t /\ file_runners (mt_file t) = Some [].

Lemma settled_exact t : settled t -> exact t.
Proof. intros (Hu & Hl & Hf & _) rs. rewrite Hf, Hu, Hl. by intros [= <-]. Qed.

Lemma wpp_Exit opts t (o := maint_applyDefaults opts) :
  mt_lock t = false -> mt_lost t = false -> exact t ->
  wpp (maint_spec false o) (Exit decodePages opts)
    (fun r t' => mt_lock t' = false /\ mt_lost t' = false /\
       if mo_Execute opts then snd r = None -> restored t' else untouched_world t t') t.
Proof.
  intros Hl Hlo Hx. subst o. unfold Exit. set (o := maint_applyDefaults opts). assert (mo_Execute o = mo_Execute opts) as <- by done.
  destruct (mo_Execute o) eqn:He; cbn [negb].
  - apply wpp_with_lock; [done|done|done|]. unfold exit_locked. apply wpp_bind, wpp_readState.
    + intros e. by apply wpp_ret.
    + intros Hf. apply wpp_ret. split_and!; [done..|]. intros _. destruct (Hx [] Hf) as (Eu & El & _). split_and!; [..|done]; cbn; set_solver.
    + intros s Hf. destruct (Hx _ Hf) as (Hu & Hla & Hs & _). apply wpp_bind. eapply wpp_mono.
      * apply (wpp_restore_all o (mt_file t, mt_listing t, mt_odd t) (ms_Runners s) (ms_Runners s)); [done|done|done|by apply Forall_forall|done|].
        split; cbn; [rewrite Hu|rewrite Hla]; set_solver.
      * cbn beta. intros _ t1 ((Hl1 & [= Hf1 Hli1 Hod1] & Hlo1) & Hu1 & Hla1). cbn in Hu1, Hla1. rewrite union_empty_l_L in Hu1, Hla1. apply wpp_bind, wpp_call; [done|]. intros [e|] t2 ->; apply wpp_ret.
        -- destruct (errors_Is e ErrNotExist); by split_and!.
        -- by split_and!.
  - unfold dryRunExit. apply wpp_bind, wpp_readState; intros; apply wpp_ret; by split_and!.
Qed.

(** C17. A drain is ordered and recorded.  Whatever systemctl, GitHub and the file system
    answer, [Enter] stops units and withdraws labels only when executing, under the lock
    and after the host was found idle (or by force); a strict drain stops a unit only when
    the label of its runner is withdrawn and the host was found idle again after the last
    label; [Exit] starts and labels only what the record says; a dry run changes nothing.
    Unless a write of the record failed or a listed unit had no repository or no name of
    its own ([full_unit]), the record says after [Enter] exactly which units it has stopped
    and which labels it has withdrawn, and after a strict [Enter] without an error these
    are all eligible units of the listing.  After an [Exit] without an error there is no
    record, and what is still stopped or unlabelled are units whose start and labels whose
    restoration failed. *)
Theorem drain_is_ordered_and_recorded opts t (o := maint_applyDefaults opts) :
  mt_lock t = false -> mt_lost t = false -> exact t -> mt_ufail t = ∅ -> mt_lfail t = ∅ ->
  wpp (maint_spec true o) (Enter formatTime decodePages opts)
    (fun r t' => mt_lock t' = false /\ (mt_odd t' = false -> mt_lost t' = false -> exact t') /\
       if mo_Execute opts then snd r = None -> entered o r t' else untouched_world t t') t /\
  wpp (maint_spec false o) (Exit decodePages opts)
    (fun r t' => mt_lock t' = false /\ mt_lost t' = false /\
       if mo_Execute opts then snd r = None -> restored t' else untouched_world t t') t.
Proof. intros. split; [by apply wpp_Enter|by apply wpp_Exit]. Qed.

(** *** Any number of drains, and then a restore *)

(** The record does not say what was done: a write of it failed, or a unit was listed
    whose name it does not keep. *)
Definition unrecorded (t : mstate) : Prop := mt_lost t = true \/ mt_odd t = true.

(** All runs share one record; nothing is claimed once it is not exact. *)
Definition shared_record (path : string) : spec maintE mstate := {|
  allowed B e t := unrecorded t \/ match e with
    | ReadFileFn p | WriteFileFn p _ | RemoveFn p => p = path
    | _ => True
    end;
  answers B e := answers (maint_spec true (mkMaintOptions false false false path "" [])) e;
|}.

Lemma unrecorded_forever path {A} (m : prog maintE A) t : unrecorded t -> wpp (shared_record path) m (fun _ t' => unrecorded t') t.
Proof.
  intros Hl. apply (only_wpp (fun _ _ => True)); [by induction m|clear|done]. intros B e t _ Hl. split; [by left|].
  intros b t'. destruct e; cbn; unfold ran, asked; intros Ha; first [subst t'|destruct Ha as [-> _]];
    repeat case_match; (destruct Hl as [Hl|Hl]; [left|right]; cbn; first [done|by rewrite Hl]).
Qed.

Lemma unrecorded_not t : mt_lost t = false -> mt_odd t = false -> ~ unrecorded t.
Proof. intros ? ? [?|?]; congruence. Qed.

Lemma wpp_shared entering o {A} (m : prog maintE A) Q t :
  wpp (maint_spec entering o) m Q t -> wpp (shared_record (mo_StatePath o)) m Q t.
Proof. apply wpp_weaken; [|by intros B []]. intros B [] s' Ha; right; try done; apply Ha. Qed.

Fixpoint Enters (runs : list MaintOptions) : prog maintE unit :=
  match runs with
  | [] => mret tt
  | opts :: runs => _ ← Enter formatTime decodePages opts; Enters runs
  end.

(** C18. Exit restores what Enter drained.  From a host that owes nothing, after any number
    of [Enter] runs on the same record, lenient, strict, retried, failed half way or dry,
    an [Exit] that reports no error leaves no record, and every unit that was stopped and
    every label that was withdrawn is restored, but for those whose start or restoration
    failed: these [Exit] has tried, and it only warns of them.  The exceptions are a
    record that could not be written and a listed unit without a repository or a name of
    its own, which the record does not keep. *)
Theorem exit_restores_what_enter_drained runs opts path t :
  Forall (fun o => mo_StatePath (maint_applyDefaults o) = path) (opts :: runs) ->
  mo_Execute opts = true -> mt_lock t = false -> settled t ->
  wpp (shared_record path) (_ ← Enters runs; Exit decodePages opts)
    (fun r t' => mt_lost t' = false -> mt_odd t' = false -> snd r = None -> restored t') t.
Proof.
  intros [Hp Hps]%Forall_cons He Hl Hs.
  assert (forall t {A} (m : prog maintE A) Q, unrecorded t ->
    wpp (shared_record path) m (fun r t' => mt_lost t' = false -> mt_odd t' = false -> Q r t') t) as Hun.
  { intros t0 A m Q Hu. eapply wpp_mono; [by apply unrecorded_forever|]. cbn. intros r t' Hu' H1 H2. by destruct (unrecorded_not t'). }
  destruct (mt_lost t) eqn:Hlo; [by apply Hun; left|].
  apply wpp_bind. apply wpp_mono with (Q := fun _ t' => unrecorded t' \/ (mt_lost t' = false /\ mt_lock t' = false /\ exact t')).
  - apply settled_exact in Hs. clear Hp. induction Hps as [|o runs Ho Hps IH] in t, Hl, Hs, Hlo |- *; cbn [Enters]; [by apply wpp_ret; right|].
    apply wpp_bind. eapply wpp_mono; [rewrite <- Ho; by eapply wpp_shared, wpp_Enter|]. cbn beta. intros r t' (Hl' & Hx' & _).
    destruct (mt_lost t') eqn:Hlo'; [eapply wpp_mono; [by apply unrecorded_forever; left|by left]|].
    destruct (mt_odd t') eqn:Hod'; [eapply wpp_mono; [by apply unrecorded_forever; right|by left]|]. apply IH; auto.
  - cbn beta. intros _ t' [Hu'|(Hlo' & Hl' & Hx')]; [by apply Hun|].
    eapply wpp_mono; [rewrite <- Hp; by eapply wpp_shared, wpp_Exit|]. cbn beta. rewrite He. by intros r t2 (_ & _ & ?) _ _.
Qed.
End safety.

(** * Maintenance on a concrete host

    A codec that meets the laws of the record, a small host, and runs of [Enter] and
    [Exit] on it. *)

Local Open Scope string_scope.
Local Open Scope list_scope.
Local Open Scope Z_scope.

(** ** A codec: the number of the state, in binary *)

Definition runner_tuple (r : RunnerState) := (rn_Name r, rn_Repo r, rn_RunnerID r, rn_Stopped r, rn_LabelRemoved r).
Definition runner_untuple (x : string * string * Z * bool * bool) : RunnerState :=
  let '(n, r, i, s, l) := x in mkRunner n r i s l.

#[local] Instance RunnerState_eq_dec : EqDecision RunnerState.
Proof. solve_decision. Defined.
#[local] Instance RunnerState_countable : Countable RunnerState.
Proof. by apply (inj_countable' runner_tuple runner_untuple); intros []. Defined.
#[local] Instance MaintState_eq_dec : EqDecision MaintState.
Proof. solve_decision. Defined.
#[local] Instance MaintState_countable : Countable MaintState.
Proof. by apply (inj_countable' (fun s => (ms_DrainedAt s, ms_Runners s)) (fun x => mkMaint (fst x) (snd x))); intros []. Defined.

Fixpoint bits (p : positive) : string :=
  match p with
  | xH => "H"
  | xO p => String "O" (bits p)
  | xI p => String "I" (bits p)
  end.

Fixpoint unbits (s : string) : option positive :=
  match s with
  | EmptyString => None
  | String c s =>
      if Ascii.eqb c "H" then Some xH
      else match unbits s with
           | Some p => Some (if Ascii.eqb c "O" then xO p else xI p)
           | None => None
           end
  end.

Lemma unbits_bits p : unbits (bits p) = Some p.
Proof. induction p as [p IH|p IH|]; cbn; by rewrite ?IH. Qed.

Definition number_state (s : MaintState) : string := bits (encode s).

Definition unnumber_state (data : string) : result MaintState :=
  match unbits data with
  | Some p => match decode p with Some s => Ok s | None => Err (Errorf "not a state") end
  | None => Err (Errorf "not a number")
  end.

#[export] Instance number_codec : StateCodec.
Proof.
  refine {| encodeState := number_state; decodeState := unnumber_state |}.
  - intros s _. unfold unnumber_state, number_state. by rewrite unbits_bits, decode_encode.
  - intros s. unfold number_state. destruct (encode s); by apply TrimSpace_graphic.
Defined.

#[local] Existing Instance SortSlice_insertion.

(** ** A host *)

Record host := mkHost {
  h_file : option string;
  h_known : list string;        (* the units that exist *)
  h_active : list string;       (* those that run *)
  h_labels : list string;       (* the endpoints of the labels that are set *)
  h_writable : bool;            (* the directory of the record *)
}.

Definition without (x : string) (l : list string) : list string := List.filter (fun y => negb (String.eqb x y)) l.
Definition h_set_file x h := mkHost x (h_known h) (h_active h) (h_labels h) (h_writable h).
Definition h_set_active x h := mkHost (h_file h) (h_known h) x (h_labels h) (h_writable h).
Definition h_set_labels x h := mkHost (h_file h) (h_known h) (h_active h) x (h_writable h).

Definition no_file : error := Errorf_s ErrNotExist "no such file or directory".
Definition read_only : error := Errorf "read-only file system".

(** systemctl, gh and the file system of the host. *)
Definition run_on (args : list string) (h : host) : result string * host :=
  match args with
  | ["systemctl"; "stop"; unit] =>
      if bool_decide (unit ∈ h_known h) then (Ok "", h_set_active (without unit (h_active h)) h)
      else (Err (Errorf "Unit not loaded"), h)
  | ["systemctl"; "start"; unit] =>
      if bool_decide (unit ∈ h_known h) then (Ok "", h_set_active (unit :: without unit (h_active h)) h)
      else (Err (Errorf "Unit not found"), h)
  | _ => (Ok (Join ((fun u => u +:+ " loaded") <$> h_known h) (String "010" "")), h)
  end.

Definition gh_on (args : list string) (h : host) : result string * host :=
  match args with
  | ["api"; "--method"; "DELETE"; endpoint] => (Ok "", h_set_labels (without endpoint (h_labels h)) h)
  | ["api"; "--method"; "POST"; endpoint; _; _] => (Ok "", h_set_labels ((endpoint +:+ "/civm") :: h_labels h) h)
  | _ => (Ok "", h)
  end.

Definition on_host B (e : maintE B) : St host B :=
  match e with
  | RunFn _ args => run_on args
  | GHFn args => gh_on args
  | IdleCheckFn => fun h => (true, h)
  | ReadFileFn _ => fun h => (match h_file h with Some data => Ok data | None => Err no_file end, h)
  | WriteFileFn _ data => fun h => if h_writable h then (None, h_set_file (Some data) h) else (Some read_only, h)
  | RemoveFn _ => fun h => (None, h_set_file None h)
  | MkdirAllFn _ | LockFn _ | Release => fun h => (None, h)
  | NowFn => fun h => (0, h)
  end.

Definition some_time (_ : Z) : string := "1970-01-01T00:00:00Z".
Definition one_runner (_ : string) : result (list runnerAPIPage) := Ok [[(7, "box-1")]].

Definition executing (strict : bool) : MaintOptions := mkMaintOptions true false strict "" "" [].

Definition drain_and_restore (strict : bool) : prog maintE (err_ret * err_ret) :=
  r1 ← Enter some_time one_runner (executing strict);
  r2 ← Exit one_runner (executing strict);
  mret (snd r1, snd r2).

Definition box : string := "actions.runner.acme-web.box-1.service".
Definition box_label : string := "repos/acme/web/actions/runners/7/labels/civm".
Definition box_host : host := mkHost None [box] [box] [box_label] true.

(** In between, the host is drained. *)
Lemma strict_drain_demo :
  (interp on_host (Enter some_time one_runner (executing true)) box_host).2 =
    mkHost (Some (number_state (mkMaint "1970-01-01T00:00:00Z" [mkRunner "box-1" "acme/web" 7 true true]))) [box] [] [] true.
Proof. vm_compute. reflexivity. Qed.

Lemma restore_demo : interp on_host (drain_and_restore true) box_host = ((None, None), box_host).
Proof. vm_compute. reflexivity. Qed.

(** A host that owes nothing. *)
Definition clean_world : mstate := mkMS None ∅ ∅ false false false false "" false ∅ ∅.

Lemma clean_settled : settled clean_world.
Proof. by split_and!. Qed.

Lemma one_runner_int64 out pages id name :
  one_runner out = Ok pages -> (id, name) ∈ concat pages -> - 2 ^ 63 <= id < 2 ^ 63.
Proof. intros [= <-] Hin. apply list_elem_of_singleton in Hin as [= -> _]. lia. Qed.

Lemma drain_is_ordered_and_recorded_witness :
  wpp (maint_spec true (maint_applyDefaults (executing true))) (Enter some_time one_runner (executing true))
    (fun r t' => mt_lock t' = false /\ (mt_odd t' = false -> mt_lost t' = false -> exact t') /\
       (snd r = None -> entered (maint_applyDefaults (executing true)) r t')) clean_world /\
  wpp (maint_spec false (maint_applyDefaults (executing true))) (Exit one_runner (executing true))
    (fun r t' => mt_lock t' = false /\ mt_lost t' = false /\ (snd r = None -> restored t')) clean_world.
Proof.
  apply (drain_is_ordered_and_recorded some_time one_runner (fun _ => eq_refl) one_runner_int64 (executing true) clean_world);
    [reflexivity|reflexivity|apply settled_exact, clean_settled|reflexivity|reflexivity].
Defined.

Lemma exit_restores_what_enter_drained_witness :
  wpp (shared_record DefaultMaintenanceStatePath)
    (_ ← Enters some_time one_runner [executing true; executing false]; Exit one_runner (executing false))
    (fun r t' => mt_lost t' = false -> mt_odd t' = false -> snd r = None -> restored t') clean_world.
Proof.
  apply (exit_restores_what_enter_drained some_time one_runner (fun _ => eq_refl) one_runner_int64
           [executing true; executing false] (executing false) DefaultMaintenanceStatePath clean_world);
    [by repeat constructor|reflexivity|reflexivity|apply clean_settled].
Defined.

(** ** Where a restore is not an undo *)

(** Units that do not run are listed too, and stopping one succeeds: it is recorded as
    stopped, and the restore starts a runner that was down before. *)
Theorem restore_starts_an_inactive_unit :
  interp on_host (drain_and_restore false) (mkHost None [box] [] [box_label] true) = ((None, None), box_host).
Proof. vm_compute. reflexivity. Qed.

(** A unit without a repository in its name is recorded under its whole name, from which
    the restore makes the name of a unit that does not exist: the runner stays down, and
    both runs report success. *)
Theorem restore_misses_a_short_unit :
  let unit := "actions.runner.box.service" in
  interp on_host (drain_and_restore false) (mkHost None [unit] [unit] [] true) = ((None, None), mkHost None [unit] [] [] true) /\
  runnerUnitName (mkRunner unit "box" 0 true false) = "actions.runner.box.actions.runner.box.service.service".
Proof. vm_compute. done. Qed.

(** The record is written after the drain: when that fails the host stays drained, and the
    restore, which finds no record, reports success. *)
Theorem unwritten_record_strands_the_host :
  exists e, interp on_host (drain_and_restore true) (mkHost None [box] [box] [box_label] false) =
    ((Some e, None), mkHost None [box] [] [] false).
Proof. eexists. vm_compute. reflexivity. Qed.

(** A list of repositories with only blanks restricts nothing. *)
Theorem blank_repos_drain_everything out : refs_of [" "; ""] out = refs_of [] out.
Proof. reflexivity. Qed.
