(* ===== verification/Capacity.v ===== *)
(** * internal/capacity: does the host accept jobs?

    [Check] reads the lock, the port blocks, the slots of the admission gate, the disk and
    the marker of the runner watchdog.  The injected functions are effects; the default
    ones are programs over the system calls and the docker-heavy lock of [Dockerlock]. *)

From S2P Require Import Prelude GoStrings Prog Civm Dockerlock WatchdogBase Hostdisk.

Local Open Scope string_scope.
Local Open Scope list_scope.
Local Open Scope Z_scope.

Record AdmitStatus := mkAdmitStatus { as_HeavyLive : Z; as_MaxHeavy : Z }.

Record CapReport := mkCapReport {
  cr_DiskPath : string;
  cr_DiskUsedPct : Z;
  cr_DiskFreeGB : Z;
  cr_DiskTotalGB : Z;
  cr_RunnerServices : Z;
  cr_RunnerWorkers : Z;
  cr_AcceptingJobs : bool;
  cr_Reason : string;
  cr_QueueStalled : bool;
  cr_QueueStallUnit : string;
  cr_DockerHeavyLockActive : bool;
  cr_DockerHeavyLockHolder : string;
  cr_RunnerPortBlocks : option (gmap string Z);
  cr_Admit : option AdmitStatus;
}.

Record CapOptions := mkCapOptions { cp_DiskPath : string; cp_MaxDiskPct : Z }.

Inductive capE : Type -> Type :=
  | StatfsFn (path : string) : capE (result (Z * Z))
  | RunFn (name : string) (args : list string) : capE (result string)
  | LockActiveFn : capE (bool * string * err_ret)
  | PortBlocksFn : capE (option (gmap string Z))
  | AdmitStatusFn : capE AdmitStatus
  | QueueStallFn : capE (bool * string * err_ret).

(** ** The check *)

Definition cap_applyDefaults (opts : CapOptions) : CapOptions :=
  mkCapOptions (if String.eqb (cp_DiskPath opts) "" then "/" else cp_DiskPath opts)
    (if cp_MaxDiskPct opts =? 0 then DefaultCapacityMaxDiskPct else cp_MaxDiskPct opts).

Definition countRunnerServices : prog capE Z :=
  out ← call (RunFn "systemctl" ["list-units"; "--type=service"; "--no-pager"; "actions.runner.*"]);
  mret (match out with
        | Err _ => 0
        | Ok out => Z.of_nat (length (List.filter (fun line => Contains line "actions.runner") (Split "010" out)))
        end).

(** [strconv.Atoi] gives 0 on a syntax error and the nearest bound on a range error. *)
Definition Atoi_value (s : string) : Z :=
  match ParseInt s with
  | Some n => n
  | None =>
      let '(sign, digits) := match s with
        | String c s' => if Ascii.eqb c "-" then (-1, s') else if Ascii.eqb c "+" then (1, s') else (1, s)
        | EmptyString => (1, s)
        end in
      match parse_digits digits with
      | Some _ => if sign =? -1 then - 2 ^ 63 else 2 ^ 63 - 1
      | None => 0
      end
  end.

Definition countRunnerWorkers : prog capE Z :=
  out ← call (RunFn "pgrep" ["-fc"; "Runner.Worker"]);
  mret (match out with Err _ => 0 | Ok out => Atoi_value (TrimSpace out) end).

Definition refuse (reason : string) (r : CapReport) : CapReport :=
  mkCapReport (cr_DiskPath r) (cr_DiskUsedPct r) (cr_DiskFreeGB r) (cr_DiskTotalGB r) (cr_RunnerServices r)
    (cr_RunnerWorkers r) false reason (cr_QueueStalled r) (cr_QueueStallUnit r) (cr_DockerHeavyLockActive r)
    (cr_DockerHeavyLockHolder r) (cr_RunnerPortBlocks r) (cr_Admit r).

Definition stalled_on (unit : string) (r : CapReport) : CapReport :=
  mkCapReport (cr_DiskPath r) (cr_DiskUsedPct r) (cr_DiskFreeGB r) (cr_DiskTotalGB r) (cr_RunnerServices r)
    (cr_RunnerWorkers r) (cr_AcceptingJobs r) (cr_Reason r) true unit (cr_DockerHeavyLockActive r)
    (cr_DockerHeavyLockHolder r) (cr_RunnerPortBlocks r) (cr_Admit r).

Definition measured (pct freeGB totalGB services workers : Z) (r : CapReport) : CapReport :=
  mkCapReport (cr_DiskPath r) pct freeGB totalGB services workers (cr_AcceptingJobs r) (cr_Reason r)
    (cr_QueueStalled r) (cr_QueueStallUnit r) (cr_DockerHeavyLockActive r) (cr_DockerHeavyLockHolder r)
    (cr_RunnerPortBlocks r) (cr_Admit r).

Definition cap_Check (opts : CapOptions) : prog capE CapReport :=
  let opts := cap_applyDefaults opts in
  lock ← call LockActiveFn;
  let '(active, holder, _) := lock in
  blocks ← call PortBlocksFn;
  admitStatus ← call AdmitStatusFn;
  let r := mkCapReport (cp_DiskPath opts) 0 0 0 0 0 true "" false "" active holder blocks (Some admitStatus) in
  stat ← call (StatfsFn (cp_DiskPath opts));
  match stat with
  | Err e => mret (refuse ("disk stat failed: " +:+ err_text e) r)
  | Ok (total, free) =>
      if total =? 0 then mret (refuse "disk stat failed: <nil>" r)
      else
        let used := uint64 (total - free) in
        let pct := int64 (uint64 (used * 100) / total) in
        services ← countRunnerServices;
        workers ← countRunnerWorkers;
        let r := measured pct (int64 (free / 2 ^ 30)) (int64 (total / 2 ^ 30)) services workers r in
        queue ← call QueueStallFn;
        let '(stalled, unit, queueErr) := queue in
        let r := match queueErr with
                 | Some e => refuse ("runner queue state unavailable: " +:+ err_text e) r
                 | None => if stalled : bool then refuse ("runner queue stall: " +:+ unit) (stalled_on unit r) else r
                 end in
        mret (if cp_MaxDiskPct opts <=? pct
              then refuse ("disk usage " +:+ Itoa pct +:+ "% >= " +:+ Itoa (cp_MaxDiskPct opts) +:+ "%") r
              else r)
  end.

(** ** The default functions *)

Inductive capHostE : Type -> Type :=
  | Statfs (path : string) : capHostE (result (Z * Z))
  | Command (name : string) (args : list string) : capHostE (result string)
  | ReadFile (path : string) : capHostE (result string)
  | InLock {B : Type} (e : lockE B) : capHostE B
  | OpenSlot (path : string) : capHostE err_ret        (* O_RDONLY *)
  | FlockSlot (path : string) : capHostE err_ret       (* LOCK_EX|LOCK_NB on the open descriptor *)
  | UnlockSlot (path : string) : capHostE unit
  | CloseSlot (path : string) : capHostE unit.

Section defaults.
Context `{MapRange} `{SortSlice}.
(** [json.Unmarshal]: the signatures of the marker, and slots with their bases. *)
Context (decodeStalls : string -> result (gmap string string)).
Context (decodeAllocs : string -> result (list (string * Z))).
Context (Unmarshal : string -> result Heartbeat) (lockOpts : LockOptions).

Definition stalled_units (stalls : gmap string string) : list string :=
  sort_slice String.ltb (fst <$> List.filter (fun p => negb (String.eqb (TrimSpace (snd p)) "")) (map_range stalls)).

Definition queueStallFromFile (path : string) : prog capHostE (bool * string * err_ret) :=
  data ← call (ReadFile path);
  mret (match data with
        | Err e => if errors_Is e ErrNotExist then (false, "", None) else (false, "", Some e)
        | Ok data =>
            if String.eqb (TrimSpace data) "" then (false, "", None)
            else match decodeStalls data with
                 | Err e => (false, "", Some (Errorf_w "parse runner watchdog marker" e))
                 | Ok stalls => match stalled_units stalls with [] => (false, "", None) | unit :: _ => (true, unit, None) end
                 end
        end).

Definition defaultQueueStall : prog capHostE (bool * string * err_ret) :=
  queueStallFromFile DefaultRunnerWatchdogMarkerPath.

Definition in_lock B (e : lockE B) : prog capHostE B := call (InLock e).

Definition defaultLockActive : prog capHostE (bool * string * err_ret) :=
  active ← link in_lock (IsActive Unmarshal lockOpts);
  match active with
  | Err e => mret (false, "", Some e)
  | Ok false => mret (false, "", None)
  | Ok true => holder ← link in_lock (Holder Unmarshal lockOpts); mret (true, holder, None)
  end.

Definition defaultPortBlocks : prog capHostE (option (gmap string Z)) :=
  data ← call (ReadFile DefaultPortBlockStatePath);
  mret (match data with
        | Err _ => None
        | Ok data => match decodeAllocs data with
                     | Err _ | Ok [] => None
                     | Ok allocs => Some (foldl (fun m a => <[fst a := snd a]> m) ∅ allocs)
                     end
        end).

(** [Ok true] for a free slot. *)
Definition probeSlotFree (path : string) : prog capHostE (result bool) :=
  e ← call (OpenSlot path);
  match e with
  | Some e => mret (if errors_Is e ErrNotExist then Ok true else Err (Errorf_w ("capacity: abrir slot " +:+ path) e))
  | None =>
      e ← call (FlockSlot path);
      match e with
      | Some e =>
          call (CloseSlot path);;
          mret (if errors_Is e EWOULDBLOCK then Ok false else Err (Errorf_w ("capacity: flock probe " +:+ path) e))
      | None => call (UnlockSlot path);; call (CloseSlot path);; mret (Ok true)
      end
  end.

Definition slot_path (prefix : string) (i : nat) : string := prefix +:+ Itoa (Z.of_nat i) +:+ ".lock".

Fixpoint count_live (prefix : string) (slots : list nat) (live : Z) : prog capHostE Z :=
  match slots with
  | [] => mret live
  | i :: slots =>
      free ← probeSlotFree (slot_path prefix i);
      count_live prefix slots (match free with Ok false => live + 1 | _ => live end)
  end.

Definition countLiveHeavySlots (prefix : string) (maxHeavy : Z) : prog capHostE Z :=
  count_live prefix (seq 1 (Z.to_nat maxHeavy)) 0.

Definition defaultAdmitStatus : prog capHostE AdmitStatus :=
  live ← countLiveHeavySlots DefaultAdmitSlotPathPrefix DefaultAdmitMaxHeavy;
  mret (mkAdmitStatus live DefaultAdmitMaxHeavy).

(** [DefaultOptions]. *)
Definition default_cap B (e : capE B) : prog capHostE B :=
  match e with
  | StatfsFn path => call (Statfs path)
  | RunFn name args => call (Command name args)
  | LockActiveFn => defaultLockActive
  | PortBlocksFn => defaultPortBlocks
  | AdmitStatusFn => defaultAdmitStatus
  | QueueStallFn => defaultQueueStall
  end.
End defaults.

(** ** The verdict *)

(** What the disk and the queue answered. *)
Definition cap_seen : Type := option (result (Z * Z)) * option (bool * string * err_ret).

(** Any answers, those of the queue restricted to [P]. *)
Definition cap_spec (path : string) (P : bool * string * err_ret -> Prop) : spec capE cap_seen := {|
  allowed B e s := match e with StatfsFn p => p = path | _ => True end;
  answers B e s :=
    match e in capE B return B -> cap_seen -> Prop with
    | StatfsFn _ => fun b s' => s' = (Some b, snd s)
    | QueueStallFn => fun b s' => P b /\ s' = (fst s, Some b)
    | _ => fun _ s' => s' = s
    end;
|}.

(** Room on the disk and a queue that is known to move. *)
Definition has_capacity (opts : CapOptions) (s : cap_seen) : Prop :=
  exists total free unit, s = (Some (Ok (total, free)), Some (false, unit, None)) /\ total <> 0 /\
    int64 (uint64 (uint64 (total - free) * 100) / total) < cp_MaxDiskPct (cap_applyDefaults opts).

Lemma refuse_reason reason r : cr_AcceptingJobs (refuse reason r) = false /\ cr_Reason (refuse reason r) = reason.
Proof. done. Qed.

Lemma wpp_cap_Check opts P :
  wpp (cap_spec (cp_DiskPath (cap_applyDefaults opts)) P) (cap_Check opts)
    (fun r s => (cr_AcceptingJobs r = true <-> has_capacity opts s) /\ (cr_Reason r = "" <-> cr_AcceptingJobs r = true) /\
       (cr_QueueStalled r = true <-> exists unit, snd s = Some (true, unit, None)) /\
       (forall q, snd s = Some q -> P q)) (None, None).
Proof.
  unfold cap_Check. cbv zeta. apply wpp_bind, wpp_call; [done|]. intros [[active holder] lerr] s ->.
  apply wpp_bind, wpp_call; [done|]. intros blocks s ->. apply wpp_bind, wpp_call; [done|]. intros adm s ->.
  apply wpp_bind, wpp_call; [done|]. intros [[total free]|e] s ->.
  2:{ apply wpp_ret. cbn. split_and!; [|done| |done]; split; try done; [by intros (? & ? & ? & ? & _)|by intros (? & ?)]. }
  destruct (Z.eqb_spec total 0) as [->|Ht].
  { apply wpp_ret. cbn. split_and!; [|done| |done]; split; try done; [by intros (? & ? & ? & ? & _)|by intros (? & ?)]. }
  unfold countRunnerServices, countRunnerWorkers. apply wpp_bind, wpp_bind, wpp_call; [done|]. intros sv s ->. apply wpp_ret.
  apply wpp_bind, wpp_bind, wpp_call; [done|]. intros wk s ->. apply wpp_ret. apply wpp_bind, wpp_call; [done|].
  intros [[stalled unit] qerr] s [HP ->]. apply wpp_ret. cbn [fst snd]. unfold has_capacity.
  set (pct := int64 _). set (m := cp_MaxDiskPct _).
  assert (forall b, (b = true <-> qerr = None /\ stalled = false /\ pct < m) ->
    b = true <-> exists t f u, (Some (Ok (total, free)), Some (stalled, unit, qerr)) = (Some (Ok (t, f)), Some (false, u, None)) /\ t <> 0 /\
      int64 (uint64 (uint64 (t - f) * 100) / t) < m) as Hcap.
  { intros b ->. split; [intros (-> & -> & ?); by exists total, free, unit|]. by intros (t & f & u & [= <- <- -> -> ->] & _ & ?). }
  clearbody pct m. split_and!; [apply Hcap|..]; [| | |by intros q [= <-]]; clear Hcap.
  all: destruct qerr as [e|], stalled, (Z.leb_spec m pct); cbn; split; try done; first [by intros (? & ? & ?)|intros (? & ? & ?); lia|by intros (? & [=])|by eauto].
Qed.

(** ** The slots *)

(** The slots that are held by others, and the one this process holds. *)
Definition slots_spec (held : gset string) : spec capHostE (option string) := {|
  allowed B e s :=
    match e with
    | OpenSlot _ | FlockSlot _ => s = None
    | UnlockSlot p => s = Some p
    | CloseSlot _ => s = None
    | _ => False
    end;
  answers B e s :=
    match e in capHostE B return B -> option string -> Prop with
    | OpenSlot p => fun b s' => s' = s /\ (p ∈ held -> b = None) /\ (forall e, b = Some e -> errors_Is e ErrNotExist = true)
    | FlockSlot p => fun b s' =>
        if decide (p ∈ held) then s' = s /\ exists e, b = Some e /\ errors_Is e EWOULDBLOCK = true
        else s' = Some p /\ b = None
    | UnlockSlot _ => fun _ s' => s' = None
    | _ => fun _ s' => s' = s
    end;
|}.

Lemma wpp_probeSlotFree held path :
  wpp (slots_spec held) (probeSlotFree path) (fun r s => s = None /\ r = Ok (negb (bool_decide (path ∈ held)))) None.
Proof.
  unfold probeSlotFree. apply wpp_bind, wpp_call; [done|]. intros [e|] s (-> & Hex & He).
  - apply wpp_ret. rewrite (He e) by done. split; [done|]. case_bool_decide; [|done]. by specialize (Hex ltac:(done)).
  - apply wpp_bind, wpp_call; [done|]. intros b s Hb. cbn in Hb. destruct (decide (path ∈ held)) as [Hin|Hin].
    + destruct Hb as (-> & e & -> & Ee). apply wpp_bind, wpp_call; [done|]. intros [] s ->. apply wpp_ret. rewrite Ee.
      by rewrite bool_decide_eq_true_2.
    + destruct Hb as [-> ->]. apply wpp_bind, wpp_call; [done|]. intros [] s ->. apply wpp_bind, wpp_call; [done|]. intros [] s ->.
      apply wpp_ret. by rewrite bool_decide_eq_false_2.
Qed.

Definition live_slots (held : gset string) (prefix : string) (slots : list nat) : Z :=
  Z.of_nat (length (List.filter (fun i => bool_decide (slot_path prefix i ∈ held)) slots)).

Lemma wpp_count_live held prefix slots live :
  wpp (slots_spec held) (count_live prefix slots live) (fun n s => s = None /\ n = live + live_slots held prefix slots) None.
Proof.
  revert live. induction slots as [|i slots IH]; intros live; cbn [count_live]; [apply wpp_ret; unfold live_slots; cbn; split; [done|lia]|].
  apply wpp_bind. eapply wpp_mono; [apply wpp_probeSlotFree|]. cbn beta. intros r s [-> ->]. eapply wpp_mono; [apply IH|]. cbn beta.
  intros n s [-> ->]. split; [done|]. unfold live_slots. cbn [List.filter]. case_bool_decide; cbn [negb length]; lia.
Qed.

(** ** The default wiring *)

(** A host whose marker file has the bytes [data]; everything else answers as it likes. *)
Definition marker_spec (data : string) : spec capHostE unit := {|
  allowed B e s := True;
  answers B e s :=
    match e in capHostE B return B -> unit -> Prop with
    | ReadFile path => fun b _ => path = DefaultRunnerWatchdogMarkerPath -> b = Ok data
    | _ => fun _ _ => True
    end;
|}.

Section wiring.
Context `{MapRange} `{SortSlice}.
Context (decodeStalls : string -> result (gmap string string)).
Context (decodeAllocs : string -> result (list (string * Z))).
Context (Unmarshal : string -> result Heartbeat) (lockOpts : LockOptions).
(** The record of the watchdog, decoded in full: [encoding/json] ignores the fields that a
    struct does not have. *)
Context (decodeState : string -> result rerunState).
Context (decode_subset : forall data state,
  decodeState data = Ok state -> decodeStalls data = Ok (qi_Signature <$> rs_QueueStalls state)).

(** The watchdog has an incident that is not settled. *)
Definition open_incident (state : rerunState) : Prop :=
  exists unit incident, rs_QueueStalls state !! unit = Some incident /\ TrimSpace (qi_Signature incident) <> "".

Lemma stalled_units_open state : stalled_units (qi_Signature <$> rs_QueueStalls state) <> [] <-> open_incident state.
Proof.
  split.
  - destruct (stalled_units _) as [|unit l] eqn:E; [done|]. intros _.
    assert (unit ∈ stalled_units (qi_Signature <$> rs_QueueStalls state)) as Hin by (rewrite E; by left).
    unfold stalled_units in Hin. apply sort_slice_elem_of, list_elem_of_fmap in Hin as ([u sg] & -> & Hin).
    apply list_elem_of_In, filter_In in Hin as [Hin Hs]. apply list_elem_of_In, elem_of_map_range in Hin. rewrite lookup_fmap in Hin.
    destruct (rs_QueueStalls state !! u) as [inc|] eqn:Eu; [|done]. injection Hin as <-. exists u, inc. split; [done|].
    by apply String.eqb_neq, negb_true_iff.
  - intros (unit & inc & Hu & Hs) E.
    assert (unit ∈ stalled_units (qi_Signature <$> rs_QueueStalls state)) as Hin; [|rewrite E in Hin; by apply not_elem_of_nil in Hin].
    unfold stalled_units. apply sort_slice_elem_of, list_elem_of_fmap. exists (unit, qi_Signature inc). split; [done|].
    apply list_elem_of_In, filter_In. split; [|by apply negb_true_iff, String.eqb_neq]. apply list_elem_of_In, elem_of_map_range.
    by rewrite lookup_fmap, Hu.
Qed.

Lemma wpp_defaultQueueStall data state t :
  TrimSpace data <> "" -> decodeState data = Ok state ->
  wpp (marker_spec data) (defaultQueueStall decodeStalls)
    (fun q _ => snd q = None /\ (fst (fst q) = true <-> open_incident state)) t.
Proof.
  intros Hb Hd. unfold defaultQueueStall, queueStallFromFile. apply wpp_bind, wpp_call; [done|]. intros b t' ->; [|done].
  apply wpp_ret. apply String.eqb_neq in Hb as ->. rewrite (decode_subset _ _ Hd). rewrite <- stalled_units_open.
  by destruct (stalled_units _).
Qed.

Lemma wpp_marker_any data {A} (m : prog capHostE A) t : wpp (marker_spec data) m (fun _ _ => True) t.
Proof. by apply (only_wpp (fun _ _ => True)); [induction m|..]. Qed.

Definition queue_of (state : rerunState) (q : bool * string * err_ret) : Prop :=
  snd q = None /\ (fst (fst q) = true <-> open_incident state).

Lemma wpp_default_Check opts data state :
  TrimSpace data <> "" -> decodeState data = Ok state ->
  wpp (marker_spec data) (link (default_cap decodeStalls decodeAllocs Unmarshal lockOpts) (cap_Check opts))
    (fun r _ => (cr_QueueStalled r = true -> open_incident state) /\ (cr_AcceptingJobs r = true -> ~ open_incident state)) tt.
Proof.
  intros Hb Hd. pose proof (wpp_cap_Check opts (queue_of state)) as Hc. eapply wpp_mono.
  - eapply (wpp_link _ (marker_spec data) _ (fun _ _ => True)); [|exact Hc|done].
    intros B e s t _ _. destruct e; cbn [default_cap].
    1-5: eapply wpp_mono; [apply wpp_marker_any|]; cbn; eauto.
    eapply wpp_mono; [by apply wpp_defaultQueueStall|]. cbn. eauto.
  - cbn beta. intros r t (s & (Hacc & _ & Hst & HP) & _). split.
    + intros (unit & E)%Hst. by apply HP in E as [_ [Hq _]]; apply Hq.
    + intros (total & free & unit & -> & _)%Hacc Ho. destruct (HP _ eq_refl) as [_ [_ Hq]]. by apply Hq in Ho.
Qed.

(** The capacity report is right about what blocks a job.  Whatever the host answers,
    jobs are accepted exactly when the disk was measured with a positive size and is below
    the limit and the queue was read and is not stalled; the lock, the ports and the slots
    never matter; a reason is given exactly with a refusal.  With the default functions
    jobs are refused while the marker of the runner watchdog has an open incident, and
    only then a stall is reported.  The slots counted as live are exactly those that
    others hold; the probe holds one slot at a time and keeps none. *)
Theorem capacity_verdict opts data state held prefix maxHeavy :
  TrimSpace data <> "" -> decodeState data = Ok state ->
  wpp (cap_spec (cp_DiskPath (cap_applyDefaults opts)) (fun _ => True)) (cap_Check opts)
    (fun r s => (cr_AcceptingJobs r = true <-> has_capacity opts s) /\ (cr_Reason r = "" <-> cr_AcceptingJobs r = true) /\
       (cr_QueueStalled r = true <-> exists unit, snd s = Some (true, unit, None))) (None, None) /\
  wpp (marker_spec data) (link (default_cap decodeStalls decodeAllocs Unmarshal lockOpts) (cap_Check opts))
    (fun r _ => (cr_QueueStalled r = true -> open_incident state) /\ (cr_AcceptingJobs r = true -> ~ open_incident state)) tt /\
  wpp (slots_spec held) (countLiveHeavySlots prefix maxHeavy)
    (fun n s => s = None /\ n = live_slots held prefix (seq 1 (Z.to_nat maxHeavy)) /\ 0 <= n <= Z.max 0 maxHeavy) None.
Proof.
  intros Hb Hd. split_and!; [|by apply wpp_default_Check|].
  - eapply wpp_mono; [apply wpp_cap_Check|]. cbn beta. tauto.
  - eapply wpp_mono; [apply wpp_count_live|]. cbn beta. intros n s [-> ->]. split_and!; [done|lia|unfold live_slots; lia|].
    unfold live_slots. pose proof (List.filter_length_le (fun i => bool_decide (slot_path prefix i ∈ held)) (seq 1 (Z.to_nat maxHeavy))) as Hle.
    rewrite length_seq in Hle. lia.
Qed.
End wiring.

(** ** Concrete hosts *)

Definition open_marker : rerunState := mkRerunState ∅ ∅ {["actions.runner.acme.box-org.service" := mkIncident "acme/web:17" 5 0]}.

Lemma open_marker_subset (data : string) state :
  Ok open_marker = Ok state -> Ok {["actions.runner.acme.box-org.service" := "acme/web:17"]} = Ok (qi_Signature <$> rs_QueueStalls state).
Proof. intros [= <-]. cbn. by rewrite map_fmap_singleton. Qed.

Lemma capacity_verdict_witness :
  open_incident open_marker /\
  wpp (marker_spec "{}")
    (link (default_cap (H:=MapRange_to_list) (H0:=SortSlice_insertion)
             (fun _ => Ok {["actions.runner.acme.box-org.service" := "acme/web:17"]}) (fun _ => Ok []) (fun _ => Err (Errorf ""))
             (mkLockOptions "" "" "" 0 0 0 "" "")) (cap_Check (mkCapOptions "" 0)))
    (fun r _ => (cr_QueueStalled r = true -> open_incident open_marker) /\ (cr_AcceptingJobs r = true -> ~ open_incident open_marker)) tt.
Proof.
  split; [by exists "actions.runner.acme.box-org.service", (mkIncident "acme/web:17" 5 0)|].
  apply (capacity_verdict (H:=MapRange_to_list) (H0:=SortSlice_insertion)
    (fun _ => Ok {["actions.runner.acme.box-org.service" := "acme/web:17"]}) (fun _ => Ok []) (fun _ => Err (Errorf ""))
    (mkLockOptions "" "" "" 0 0 0 "" "") (fun _ => Ok open_marker) open_marker_subset
    (mkCapOptions "" 0) "{}" open_marker ∅ "" 2); [discriminate|reflexivity].
Defined.

(** ** The probe is not read-only *)

(** One free slot that processes open, lock and unlock. *)
Definition slot_sem (p : nat) B (e : capHostE B) (g : option nat) : B -> option nat -> Prop :=
  match e in capHostE B return B -> option nat -> Prop with
  | OpenSlot _ => fun b g' => b = None /\ g' = g
  | FlockSlot _ => fun b g' =>
      match g with None => b = None /\ g' = Some p | Some _ => b = Some (Errorf_s EWOULDBLOCK "flock") /\ g' = g end
  | UnlockSlot _ => fun _ g' => g' = None
  | CloseSlot _ => fun _ g' => g' = g
  | _ => fun _ _ => False
  end.

(** Between its lock and its unlock a probe makes a free slot look taken: a second probe
    that runs in between reports a live heavy job although there is none. *)
Theorem probe_disturbs_the_slot path :
  exists pool g, rtc (pstep slot_sem) ({[1%nat := probeSlotFree path; 2%nat := probeSlotFree path]}, None) (pool, g) /\
    pool !! 2%nat = Some (Done (Ok false)).
Proof.
  eexists _, _. split.
  - eapply rtc_l; [eapply (pstep_call _ 1%nat); [reflexivity|by split]|].
    eapply rtc_l; [eapply (pstep_call _ 1%nat); [reflexivity|by split]|].
    eapply rtc_l; [eapply (pstep_call _ 2%nat); [reflexivity|by split]|].
    eapply rtc_l; [eapply (pstep_call _ 2%nat); [reflexivity|by split]|].
    eapply rtc_l; [eapply (pstep_call _ 2%nat _ _ _ tt); [reflexivity|done]|]. apply rtc_refl.
  - reflexivity.
Qed.
