(* ===== verification/JitGitHub.v ===== *)
(** * internal/jitdispatcher: the GitHub client (github.go)

    Requests are effects: one exchange, then a bounded read of the body.  JSON is a record
    of decoders; [url.Parse] and [URL.String] are arguments.  Values of a query are
    letters and digits, which [Values.Encode] does not escape. *)

From S2P Require Import Prelude GoStrings Regex Prog Civm JitTypes JitConfig JitState JitDispatcher.

Local Open Scope string_scope.
Local Open Scope list_scope.
Local Open Scope Z_scope.

Definition maxAPIResponse : Z := 2097152.
Definition maxJITResponse : Z := 262144.

(** [^[A-Za-z0-9-]{1,80}$] *)
Definition requestIDHeaderRE : regex := rep 1 80 (RCls (alnum ++ chars "-")).

Record GitHubClient := mkClient { gc_base : URL; gc_version : string; gc_token : string }.

(** [Do]: status and X-GitHub-Request-Id of the response; its body is then read. *)
Inductive httpE : Type -> Type :=
  | Do (method : string) (url : URL) (header : list (string * string)) (body : option string) : httpE (result (Z * string))
  | ReadAll (limit : Z) : httpE (result string)
  | CtxErr : httpE err_ret.

(** A response body with the keys of the struct it is decoded into. *)
Record APICodec := mkCodec {
  decodeRepository : string -> option string;                       (* default_branch *)
  decodeRef : string -> option string;                              (* object.sha *)
  decodeContents : string -> option (string * string * string);     (* encoding, content, sha *)
  decodeLabelPage : string -> option (Z * list (list string));      (* total_count, names of the labels *)
  decodeRunnerPage : string -> option (Z * list RemoteRunner);
  decodeDispatched : string -> option (Z * string * string);        (* workflow_run_id, run_url, html_url *)
  decodeRun : string -> option WorkflowRun;
  decodeJobPage : string -> option (Z * list WorkflowJob);
  decodeJob : string -> option WorkflowJob;
  decodeRunner : string -> option RemoteRunner;
  decodeJIT : string -> option (list Z * RemoteRunner);             (* encoded_jit_config, runner *)
  encodeDispatch : string -> list (string * string) -> string;
  encodeJIT : string -> Z -> list string -> string -> string;
}.

(** [&HTTPError{...}] *)
Definition http_error (operation : string) (status : Z) (requestID : string) : error :=
  Error [] (Some status) ("GitHub API " +:+ operation +:+ " returned HTTP " +:+ Itoa status +:+
    (if String.eqb requestID "" then "" else " (request " +:+ requestID +:+ ")")).

(** [fmt.Errorf("%w: %w", ErrAmbiguous, remote)] *)
Definition ambiguous (e : error) : error := Error (ErrAmbiguous :: err_tags e) (err_http e) (err_text e).

Definition isLoopbackHost (host : string) : bool :=
  String.eqb host "localhost" || String.eqb host "127.0.0.1" || String.eqb host "::1".

Definition safeRequestID (value : string) : string := if MatchString requestIDHeaderRE value then value else "".

(** [url.Values.Encode] of keys in order. *)
Definition Encode (query : list (string * string)) : string := Join ((fun '(k, v) => k +:+ "=" +:+ v) <$> query) "&".

Definition repoPath (repository : string) : string :=
  match Split "/" repository, validateRepository repository with
  | [owner; name], None => "/repos/" +:+ owner +:+ "/" +:+ name
  | _, _ => "/repos/invalid/invalid"
  end.

Definition client_endpoint (c : GitHubClient) (endpoint : string) (query : list (string * string)) : URL :=
  let base := gc_base c in
  mkURL (url_Scheme base) (url_Host base) (url_User base) (Encode query) (url_Fragment base) (PathJoin (url_Path base) endpoint).

Definition input (inputs : list (string * string)) (key : string) : string :=
  match list_find (fun p => fst p = key) inputs with Some (_, (_, v)) => v | None => "" end.

(** A map has every key once. *)
Definition validateDispatchInputs (inputs : list (string * string)) : err_ret :=
  if negb (bool_decide (length inputs = 4%nat)) || negb (MatchString shaRE (input inputs "candidate_sha")) ||
     bool_decide (validateRef (input inputs "candidate_ref") <> None) ||
     negb (MatchString digestRE (input inputs "dispatch_nonce")) ||
     negb (String.eqb (input inputs "runner_label") ("civm-jit-" +:+ input inputs "dispatch_nonce"))
  then Some (Errorf_s ErrInvalid "")
  else if forallb (fun key => bool_decide (key ∈ fst <$> inputs)) ["candidate_sha"; "candidate_ref"; "dispatch_nonce"; "runner_label"]
  then None else Some (Errorf_s ErrInvalid "").

(** ** base64.StdEncoding *)

Definition b64_value (c : ascii) : option Z :=
  if is_upper c then Some (code c - 65)
  else if is_lower c then Some (code c - 71)
  else if is_digit c then Some (code c + 4)
  else if Ascii.eqb c "+" then Some 62
  else if Ascii.eqb c "/" then Some 63
  else None.

(** Groups of four; padding only at the end. *)
Fixpoint b64_groups (s : list ascii) : option (list Z) :=
  match s with
  | [] => Some []
  | a :: b :: c :: d :: rest =>
      match b64_value a, b64_value b with
      | Some a, Some b =>
          let first := Z.lor (Z.shiftl a 2) (Z.shiftr b 4) in
          if Ascii.eqb c "=" then if Ascii.eqb d "=" && bool_decide (rest = []) then Some [first] else None
          else match b64_value c with
               | None => None
               | Some c =>
                   let second := Z.land (Z.lor (Z.shiftl b 4) (Z.shiftr c 2)) 255 in
                   if Ascii.eqb d "=" then if bool_decide (rest = []) then Some [first; second] else None
                   else match b64_value d, b64_groups rest with
                        | Some d, Some bytes => Some (first :: second :: Z.land (Z.lor (Z.shiftl c 6) d) 255 :: bytes)
                        | _, _ => None
                        end
               end
      | _, _ => None
      end
  | _ => None
  end.

Definition byte_string (bytes : list Z) : string := string_of_list_ascii ((fun b => ascii_of_N (Z.to_N b)) <$> bytes).

Definition DecodeString (s : string) : option string :=
  byte_string <$> b64_groups (list_ascii_of_string (str_filter (fun c => negb (Ascii.eqb c "010") && negb (Ascii.eqb c "013")) s)).

(** ** The client *)

(** [URL.Hostname]: without the port and the brackets of an IPv6 address. *)
Definition Hostname (host : string) : string :=
  let host := match cut_last ":" host with
              | Some (h, port) => if str_forallb is_digit port then h else host
              | None => host
              end in
  if HasPrefix host "[" && HasSuffix host "]" then take_str (String.length host - 2) (drop_str 1 host) else host.

Section client.
Context (url_Parse : string -> option URL) (url_String : URL -> string) (json : APICodec).

Definition NewGitHubClient (baseURL version token : string) : result GitHubClient :=
  match url_Parse baseURL with
  | None => Err (Errorf_s ErrInvalid "API base URL is invalid")
  | Some base =>
      if String.eqb (url_Host base) "" || url_User base || negb (String.eqb (url_RawQuery base) "") || negb (String.eqb (url_Fragment base) "")
      then Err (Errorf_s ErrInvalid "API base URL is invalid")
      else if negb (String.eqb (url_Scheme base) "https") &&
              (negb (String.eqb (url_Scheme base) "http") || negb (isLoopbackHost (Hostname (url_Host base))))
      then Err (Errorf_s ErrInvalid "API base URL must use HTTPS")
      else if negb (String.eqb version SupportedAPIVersion) || (len token <? 20)
      then Err (Errorf_s ErrInvalid "API version or token is invalid")
      else Ok (mkClient (mkURL (url_Scheme base) (url_Host base) (url_User base) (url_RawQuery base) (url_Fragment base)
                           (TrimSuffix (url_Path base) "/")) version token)
  end.

Definition request_header (c : GitHubClient) (body : option string) : list (string * string) :=
  [("Accept", "application/vnd.github+json"); ("Authorization", "Bearer " +:+ gc_token c);
   ("X-GitHub-Api-Version", gc_version c); ("User-Agent", "civmctl-jit-dispatch/1")] ++
  match body with Some _ => [("Content-Type", "application/json")] | None => [] end.

(** Status, body and request identifier: every caller looks at the error first. *)
Definition client_do (c : GitHubClient) (method endpoint : string) (query : list (string * string)) (body : option string)
    (limit : Z) : prog httpE (result (Z * string * string)) :=
  response ← call (Do method (client_endpoint c endpoint query) (request_header c body) body);
  match response with
  | Err e => mret (Err e)
  | Ok (status, requestID) =>
      responseBody ← call (ReadAll (limit + 1));
      mret (match responseBody with
            | Err e => Err e
            | Ok responseBody => if limit <? len responseBody then Err (Errorf "response exceeds safety limit")
                                 else Ok (status, responseBody, safeRequestID requestID)
            end)
  end.

Definition getJSON {A} (c : GitHubClient) (operation endpoint : string) (query : list (string * string))
    (decode : string -> option A) : prog httpE (result A) :=
  r ← client_do c "GET" endpoint query None maxAPIResponse;
  match r with
  | Err _ =>
      e ← call CtxErr;
      match e with
      | Some _ =>
          e ← call CtxErr;
          mret (Err (match e with
                     | Some e => Errorf_w ("GitHub API " +:+ operation +:+ " canceled") e
                     | None => Errorf ("GitHub API " +:+ operation +:+ " canceled: %!w(<nil>)")
                     end))
      | None => mret (Err (Errorf ("GitHub API " +:+ operation +:+ " transport failed")))
      end
  | Ok (status, body, requestID) =>
      mret (if negb (status =? 200) then Err (http_error operation status requestID)
            else match decode body with
                 | None => Err (Errorf ("GitHub API " +:+ operation +:+ " response is malformed"))
                 | Some v => Ok v
                 end)
  end.

Definition ambiguousTransportError (operation : string) : prog httpE error :=
  e ← call CtxErr;
  match e with
  | Some _ =>
      e ← call CtxErr;
      mret (match e with
            | Some e => Errorf_sw ErrAmbiguous (operation +:+ " canceled") e
            | None => Errorf_s ErrAmbiguous (operation +:+ " canceled: %!w(<nil>)")
            end)
  | None => mret (Errorf_s ErrAmbiguous (operation +:+ " transport failed"))
  end.

Definition bad_repository (repository : string) : bool := bool_decide (validateRepository repository <> None).

Definition DefaultBranch (c : GitHubClient) (repository : string) : prog httpE (result string) :=
  match validateRepository repository with
  | Some e => mret (Err e)
  | None =>
      r ← getJSON c "get repository" (repoPath repository) [] (decodeRepository json);
      mret (match r with
            | Err e => Err e
            | Ok branch => match validateRef ("refs/heads/" +:+ branch) with
                           | Some _ => Err (Errorf "GitHub default branch is invalid")
                           | None => Ok branch
                           end
            end)
  end.

Definition ResolveRef (c : GitHubClient) (repository ref : string) : prog httpE (result string) :=
  match validateRepository repository with
  | Some e => mret (Err e)
  | None =>
      match validateRef ref with
      | Some e => mret (Err e)
      | None =>
          r ← getJSON c "resolve ref" (repoPath repository +:+ "/git/ref/" +:+ TrimPrefix ref "refs/") [] (decodeRef json);
          mret (match r with
                | Err e => Err e
                | Ok sha => if negb (MatchString shaRE sha) then Err (Errorf "GitHub ref response contains an invalid SHA") else Ok sha
                end)
      end
  end.

Definition WorkflowContent (c : GitHubClient) (repository workflow sha : string) : prog httpE (result string) :=
  if bad_repository repository || negb (MatchString workflowRE workflow) || negb (MatchString shaRE sha)
  then mret (Err (Errorf_s ErrInvalid "workflow or SHA is invalid"))
  else
    r ← getJSON c "get workflow" (repoPath repository +:+ "/contents/" +:+ workflow) [("ref", sha)] (decodeContents json);
    mret (match r with
          | Err e => Err e
          | Ok (encoding, content, blob) =>
              if negb (String.eqb encoding "base64") || negb (MatchString shaRE blob)
              then Err (Errorf "GitHub workflow response is invalid")
              else match DecodeString (str_filter (fun c => negb (Ascii.eqb c "010")) content) with
                   | None => Err (Errorf "GitHub workflow content is invalid")
                   | Some content => if (len content =? 0) || (maxAPIResponse <? len content)
                                     then Err (Errorf "GitHub workflow content is invalid") else Ok content
                   end
          end).

Definition page_query (page : Z) : list (string * string) := [("page", Itoa page); ("per_page", "100")].

Definition all_pages : list Z := Z.of_nat <$> seq 1 100.

Definition bad_label (label : string) : bool := negb (HasPrefix label "civm-jit-") || negb (len label =? 73).

Definition last_page {A} (page total : Z) (items : list A) : bool :=
  (Z.of_nat (length items) <? 100) || (total <=? page * 100).

Fixpoint label_pages (c : GitHubClient) (repository label : string) (pages : list Z) : prog httpE (result bool) :=
  match pages with
  | [] => mret (Err (Errorf "runner pagination exceeded its safety limit"))
  | page :: pages =>
      r ← getJSON c "list runners" (repoPath repository +:+ "/actions/runners") (page_query page) (decodeLabelPage json);
      match r with
      | Err e => mret (Err e)
      | Ok (total, runners) =>
          if existsb (existsb (fun name => String.eqb name label)) runners then mret (Ok true)
          else if last_page page total runners then mret (Ok false)
          else label_pages c repository label pages
      end
  end.

Definition RunnerLabelExists (c : GitHubClient) (repository label : string) : prog httpE (result bool) :=
  if bad_repository repository || bad_label label then mret (Err (Errorf_s ErrInvalid "repository or runner label is invalid"))
  else label_pages c repository label all_pages.

Definition validateReceipt (c : GitHubClient) (repository : string) (receipt : DispatchReceipt) : err_ret :=
  let invalid := Some (Errorf_s ErrInvalid "") in
  if (rcpt_RunID receipt <=? 0) || String.eqb (rcpt_RunURL receipt) "" || String.eqb (rcpt_HTMLURL receipt) "" ||
     String.eqb (rcpt_RunURL receipt) (rcpt_HTMLURL receipt) then invalid
  else if negb (String.eqb (rcpt_RunURL receipt)
                  (url_String (client_endpoint c (repoPath repository +:+ "/actions/runs/" +:+ Itoa (rcpt_RunID receipt)) []))) then invalid
  else match url_Parse (rcpt_HTMLURL receipt) with
       | None => invalid
       | Some u =>
           if negb (String.eqb (url_Scheme u) "https") || String.eqb (url_Host u) "" || url_User u ||
              negb (String.eqb (url_RawQuery u) "") || negb (String.eqb (url_Fragment u) "") then invalid
           else if negb (String.eqb (url_Path u) ("/" +:+ repository +:+ "/actions/runs/" +:+ Itoa (rcpt_RunID receipt))) then invalid
           else None
       end.

Definition DispatchWorkflow (c : GitHubClient) (repository workflow trustedRef : string) (inputs : list (string * string))
    : prog httpE (result DispatchReceipt) :=
  if bad_repository repository || negb (MatchString workflowRE workflow) ||
     bool_decide (validateRef trustedRef <> None) || bool_decide (validateDispatchInputs inputs <> None)
  then mret (Err (Errorf_s ErrInvalid "dispatch arguments are invalid"))
  else
    let body := encodeDispatch json (TrimPrefix trustedRef "refs/heads/") inputs in
    let endpoint := repoPath repository +:+ "/actions/workflows/" +:+ Base workflow +:+ "/dispatches" in
    r ← client_do c "POST" endpoint [] (Some body) maxAPIResponse;
    match r with
    | Err _ => e ← ambiguousTransportError "dispatch workflow"; mret (Err e)
    | Ok (status, responseBody, requestID) =>
        mret (if negb (status =? 200) then
                let remote := http_error "dispatch workflow" status requestID in
                if (400 <=? status) && (status <? 500) && negb (status =? 204) then Err remote else Err (ambiguous remote)
              else match decodeDispatched json responseBody with
                   | None => Err (Errorf_s ErrAmbiguous "dispatch response is malformed")
                   | Some (id, runURL, htmlURL) =>
                       let receipt := mkReceipt id runURL htmlURL in
                       match validateReceipt c repository receipt with
                       | Some _ => Err (Errorf_s ErrAmbiguous "dispatch response identity is invalid")
                       | None => Ok receipt
                       end
                   end)
    end.

Definition GetRun (c : GitHubClient) (repository : string) (runID : Z) : prog httpE (result WorkflowRun) :=
  if bad_repository repository || (runID <=? 0) then mret (Err (Errorf_s ErrInvalid "run ID is invalid"))
  else
    r ← getJSON c "get run" (repoPath repository +:+ "/actions/runs/" +:+ Itoa runID) [] (decodeRun json);
    mret (match r with
          | Err e => Err e
          | Ok run => if negb (run_ID run =? runID) || negb (MatchString shaRE (run_HeadSHA run))
                      then Err (Errorf "GitHub run identity is invalid") else Ok run
          end).

Fixpoint job_pages (c : GitHubClient) (endpoint : string) (jobs : list WorkflowJob) (pages : list Z)
    : prog httpE (result (list WorkflowJob)) :=
  match pages with
  | [] => mret (Err (Errorf "job pagination exceeded its safety limit"))
  | page :: pages =>
      r ← getJSON c "list jobs" endpoint (page_query page) (decodeJobPage json);
      match r with
      | Err e => mret (Err e)
      | Ok (total, page_jobs) =>
          let jobs := jobs ++ page_jobs in
          if (Z.of_nat (length page_jobs) <? 100) || (total <=? Z.of_nat (length jobs)) then mret (Ok jobs)
          else job_pages c endpoint jobs pages
      end
  end.

Definition ListJobs (c : GitHubClient) (repository : string) (runID : Z) : prog httpE (result (list WorkflowJob)) :=
  if bad_repository repository || (runID <=? 0) then mret (Err (Errorf_s ErrInvalid "run ID is invalid"))
  else job_pages c (repoPath repository +:+ "/actions/runs/" +:+ Itoa runID +:+ "/jobs") [] all_pages.

Definition GetJob (c : GitHubClient) (repository : string) (jobID : Z) : prog httpE (result WorkflowJob) :=
  if bad_repository repository || (jobID <=? 0) then mret (Err (Errorf_s ErrInvalid "job ID is invalid"))
  else
    r ← getJSON c "get job" (repoPath repository +:+ "/actions/jobs/" +:+ Itoa jobID) [] (decodeJob json);
    mret (match r with
          | Err e => Err e
          | Ok job => if negb (job_ID job =? jobID) || (job_RunID job <=? 0)
                      then Err (Errorf "GitHub job identity is invalid") else Ok job
          end).

(** The runners of a page that carry the label, one at most over all pages. *)
Fixpoint match_labels (label : string) (runner : RemoteRunner) (labels : list RunnerLabel) (found : option RemoteRunner)
    : result (option RemoteRunner) :=
  match labels with
  | [] => Ok found
  | l :: labels =>
      if negb (String.eqb (lab_Name l) label) then match_labels label runner labels found
      else match found with
           | Some _ => Err (Errorf_s ErrAmbiguous "duplicate exact runner label")
           | None => match_labels label runner labels (Some runner)
           end
  end.

Fixpoint match_runners (label : string) (runners : list RemoteRunner) (found : option RemoteRunner) : result (option RemoteRunner) :=
  match runners with
  | [] => Ok found
  | r :: runners =>
      match match_labels label r (rr_Labels r) found with
      | Err e => Err e
      | Ok found => match_runners label runners found
      end
  end.

Fixpoint runner_pages (c : GitHubClient) (repository label : string) (found : option RemoteRunner) (pages : list Z)
    : prog httpE (result (option RemoteRunner)) :=
  match pages with
  | [] => mret (Err (Errorf "runner pagination exceeded its safety limit"))
  | page :: pages =>
      r ← getJSON c "list runners" (repoPath repository +:+ "/actions/runners") (page_query page) (decodeRunnerPage json);
      match r with
      | Err e => mret (Err e)
      | Ok (total, runners) =>
          match match_runners label runners found with
          | Err e => mret (Err e)
          | Ok found => if last_page page total runners then mret (Ok found) else runner_pages c repository label found pages
          end
      end
  end.

Definition FindRunnerByLabel (c : GitHubClient) (repository label : string) : prog httpE (result (option RemoteRunner)) :=
  if bad_repository repository || bad_label label then mret (Err (Errorf_s ErrInvalid "repository or runner label is invalid"))
  else runner_pages c repository label None all_pages.

Definition GetRunner (c : GitHubClient) (repository : string) (runnerID : Z) : prog httpE (result (option RemoteRunner)) :=
  if bad_repository repository || (runnerID <=? 0) then mret (Err (Errorf_s ErrInvalid "runner ID is invalid"))
  else
    r ← getJSON c "get runner" (repoPath repository +:+ "/actions/runners/" +:+ Itoa runnerID) [] (decodeRunner json);
    mret (match r with
          | Err e => if IsHTTPStatus e 404 then Ok None else Err e
          | Ok r => if negb (rr_ID r =? runnerID) then Err (Errorf "GitHub runner identity is invalid") else Ok (Some r)
          end).

Definition DeleteRunner (c : GitHubClient) (repository : string) (runnerID : Z) : prog httpE err_ret :=
  if bad_repository repository || (runnerID <=? 0) then mret (Some (Errorf_s ErrInvalid "runner ID is invalid"))
  else
    r ← client_do c "DELETE" (repoPath repository +:+ "/actions/runners/" +:+ Itoa runnerID) [] None maxAPIResponse;
    match r with
    | Err _ => e ← ambiguousTransportError "delete runner"; mret (Some e)
    | Ok (status, _, requestID) =>
        mret (if (status =? 204) || (status =? 404) then None else Some (ambiguous (http_error "delete runner" status requestID)))
    end.

Fixpoint jit_labels (identity : Identity) (labels : list RunnerLabel) (customNonce : Z) : bool :=
  match labels with
  | [] => customNonce =? 1
  | l :: labels =>
      if String.eqb (lab_Type l) "custom" && String.eqb (lab_Name l) (id_Label identity)
      then jit_labels identity labels (customNonce + 1)
      else if negb (String.eqb (lab_Type l) "read-only") || negb (knownDefaultRunnerLabel (lab_Name l)) then false
      else jit_labels identity labels customNonce
  end.

Definition validJITRunnerResponse (r : RemoteRunner) (identity : Identity) : bool :=
  if (rr_ID r <=? 0) || negb (String.eqb (rr_Name r) (id_RunnerName identity)) || negb (String.eqb (rr_Status r) "offline") || rr_Busy r
  then false
  else jit_labels identity (rr_Labels r) 0.

Definition GenerateJIT (c : GitHubClient) (repository : string) (identity : Identity) (runnerGroupID : Z)
    : prog httpE (result JITRegistration) :=
  if bad_repository repository || negb (validIdentity identity) || (runnerGroupID <=? 0)
  then mret (Err (Errorf_s ErrInvalid "JIT request identity is invalid"))
  else
    let body := encodeJIT json (id_RunnerName identity) runnerGroupID [id_Label identity] (id_WorkFolder identity) in
    r ← client_do c "POST" (repoPath repository +:+ "/actions/runners/generate-jitconfig") [] (Some body) maxJITResponse;
    match r with
    | Err _ => e ← ambiguousTransportError "generate JIT config"; mret (Err e)
    | Ok (status, responseBody, requestID) =>
        mret (if negb (status =? 201) then
                let remote := http_error "generate JIT config" status requestID in
                if (400 <=? status) && (status <? 500) then Err remote else Err (ambiguous remote)
              else match decodeJIT json responseBody with
                   | None => Err (Errorf_s ErrAmbiguous "JIT response is malformed")
                   | Some (encoded, runner) =>
                       if (Z.of_nat (length encoded) <? 16) || (maxJITResponse <? Z.of_nat (length encoded))
                       then Err (Errorf_s ErrAmbiguous "JIT response is malformed")
                       else if negb (validJITRunnerResponse runner identity)
                       then Err (Errorf_s ErrAmbiguous "JIT runner identity or labels are invalid")
                       else Ok (mkRegistration (Some encoded) runner)
                   end)
    end.

Definition CancelRun (c : GitHubClient) (repository : string) (runID : Z) : prog httpE err_ret :=
  if bad_repository repository || (runID <=? 0) then mret (Some (Errorf_s ErrInvalid "run ID is invalid"))
  else
    r ← client_do c "POST" (repoPath repository +:+ "/actions/runs/" +:+ Itoa runID +:+ "/cancel") [] None maxAPIResponse;
    match r with
    | Err _ => e ← ambiguousTransportError "cancel run"; mret (Some e)
    | Ok (status, _, requestID) =>
        mret (if negb (status =? 202) then
                let remote := http_error "cancel run" status requestID in
                if status =? 409 then Some remote else Some (ambiguous remote)
              else None)
    end.
End client.
