(* ===== verification/JitGitHubSafety.v ===== *)
(** * What the GitHub client promises to the dispatcher

    Under any answers of the network: every request goes to the configured API, below the
    repository it is about; a change is never reported as refused unless GitHub refused
    it; what is read is what was asked for; listings are complete. *)

From S2P Require Import Prelude GoStrings Regex Prog Civm JitTypes JitConfig JitState JitDispatcher JitGitHub.

Local Open Scope string_scope.
Local Open Scope list_scope.
Local Open Scope Z_scope.

(** ** Paths below a repository *)

Definition kept_comp (p : string) : bool := negb (String.eqb p "" || String.eqb p ".").

(** Without ".." nothing is taken back. *)
Lemma clean_comps_kept rooted acc l : ".." ∉ l -> clean_comps rooted acc l = reverse acc ++ List.filter kept_comp l.
Proof.
  revert acc. induction l as [|p l IH]; intros acc Hl; cbn [clean_comps List.filter]; [by rewrite app_nil_r|].
  apply not_elem_of_cons in Hl as [Hp Hl]. unfold kept_comp at 1.
  destruct (String.eqb_spec p ""), (String.eqb_spec p "."); cbn [orb negb].
  1-3: rewrite decide_True by tauto; by apply IH.
  rewrite decide_False by tauto. rewrite decide_False by done. rewrite IH by done. by rewrite reverse_cons, <- app_assoc.
Qed.

(** A path, or something below it. *)
Definition below (root path : string) : Prop := path = root \/ exists t, path = root +:+ "/" +:+ t.

(** Cleaning a path with more components without ".." stays below the cleaned path. *)
Lemma Clean_below p t : Clean p <> "." -> Clean p <> "/" -> ".." ∉ Split "/" t -> below (Clean p) (Clean (p +:+ "/" +:+ t)).
Proof.
  intros Hdot Hroot Ht. unfold Clean in *. change (p +:+ "/" +:+ t) with (p +:+ String "/" t).
  assert (p <> "") as Hp by (by intros ->).
  assert (IsAbs (p +:+ String "/" t) = IsAbs p) as -> by (unfold IsAbs, HasPrefix; clear -Hp; destruct p as [|a p]; [done|]; cbn; by destruct (Ascii.ascii_dec _ _), p).
  rewrite Split_concat, clean_comps_app, (clean_comps_kept _ _ _ Ht), reverse_involutive.
  set (A := clean_comps (IsAbs p) [] (Split "/" p)) in *. set (B := List.filter kept_comp (Split "/" t)).
  assert (A <> []) as HA by (intros E; rewrite E in *; by destruct (IsAbs p)).
  assert (below (Join A "/") (Join (A ++ B) "/")) as [E|[u E]].
  { destruct B as [|b B]; [left; by rewrite app_nil_r|]. right. exists (Join (b :: B) "/"). by rewrite Join_app. }
  - left. rewrite E. destruct (IsAbs p); [done|]. by destruct A, B.
  - right. exists u. rewrite E. destruct (IsAbs p); [done|]. destruct A as [|a A]; [done|]. done.
Qed.

Lemma Join_length l sep x : x ∈ l -> (String.length x <= String.length (Join l sep))%nat.
Proof.
  induction l as [|y [|z l] IH]; intros Hx; [by apply not_elem_of_nil in Hx|by apply list_elem_of_singleton in Hx as ->|].
  rewrite Join_cons, !length_app_str. apply elem_of_cons in Hx as [->|Hx]; [lia|]. apply IH in Hx. lia.
Qed.

Lemma Join_in l1 x l2 sep : exists a b, Join (l1 ++ x :: l2) sep = a +:+ x +:+ b.
Proof.
  destruct (decide (l1 = [])) as [->|H1].
  - exists "". destruct l2 as [|y l2]; [exists ""; cbn; by rewrite app_empty_r|]. by exists (sep +:+ Join (y :: l2) sep).
  - rewrite Join_app by done. exists (Join l1 sep +:+ sep). destruct l2 as [|y l2].
    + exists "". cbn. by rewrite app_empty_r, <- app_assoc_str.
    + exists (sep +:+ Join (y :: l2) sep). rewrite Join_cons. by rewrite <- app_assoc_str.
Qed.

Lemma Split_Contains c s x : x ∈ Split c s -> Contains s x = true.
Proof.
  intros (l1 & l2 & E)%list_elem_of_split. rewrite <- (Join_Split c s), E.
  destruct (Join_in l1 x l2 (String c "")) as (a & b & ->). apply Contains_intro.
Qed.

(** A repository that passes the validation has two plain components. *)
Lemma validateRepository_parts repository :
  validateRepository repository = None ->
  exists owner name, plain_comp owner /\ plain_comp name /\ repository = owner +:+ "/" +:+ name /\
    repoPath repository = "/repos/" +:+ repository.
Proof.
  intros Hv. unfold repoPath. rewrite Hv. unfold validateRepository in Hv.
  pose proof (Split_Forall "/" repository) as Hns. pose proof (Join_Split "/" repository) as HJ.
  destruct (negb _ || negb _) eqn:E; [done|]. bsplit. destruct (forallb _ _) eqn:Hf; [|done].
  destruct (Split "/" repository) as [|owner [|name [|? ?]]]; try done. cbn in HJ. exists owner, name.
  assert (forall p, no_char "/" p -> (negb (String.eqb p "" || (100 <? len p) || negb (safeName p))) = true -> plain_comp p) as Hpl.
  { intros p Hp Hg. apply negb_true_iff, orb_false_iff in Hg as [[Hg _]%orb_false_iff Hs%negb_false_iff].
    unfold safeName in Hs. bsplit. apply String.eqb_neq in Hg. unfold plain_comp. split_and!; [done| | |done]; by intros ->. }
  apply andb_prop in Hf as [Hf1 [Hf2 _]%andb_prop]. apply Forall_cons in Hns as [Ho [Hn _]%Forall_cons]. split_and!; [by apply Hpl|by apply Hpl|by rewrite <- HJ|].
  by rewrite <- HJ.
Qed.

(** The end of an endpoint: nothing, or components without "..". *)
Definition good_suffix (sfx : string) : Prop := sfx = "" \/ exists t, sfx = "/" +:+ t /\ ".." ∉ Split "/" t.

Lemma plain_not_dotdot p : plain_comp p -> p <> "..".
Proof. by intros (_ & _ & ? & _). Qed.

Lemma plain_kept p : plain_comp p -> kept_comp p = true.
Proof.
  intros (H1 & H2 & _ & _). unfold kept_comp. apply String.eqb_neq in H1 as ->. by apply String.eqb_neq in H2 as ->.
Qed.

(** A path that ends in the components of a repository is neither "." nor "/". *)
Lemma Clean_repo q owner name : plain_comp owner -> plain_comp name ->
  let p := q +:+ "/repos/" +:+ owner +:+ "/" +:+ name in Clean p <> "." /\ Clean p <> "/".
Proof.
  intros Ho Hn p. set (l := ["repos"; owner; name]).
  assert (Forall plain_comp l) as Hl by (by repeat apply Forall_cons_2).
  assert (Split "/" p = Split "/" q ++ l) as Es.
  { unfold p. change (q +:+ "/repos/" +:+ owner +:+ "/" +:+ name) with (q +:+ String "/" (Join l "/")).
    rewrite Split_concat, Split_Join; [done|done|]. eapply Forall_impl; [exact Hl|]. by intros x (_ & _ & _ & ?). }
  assert (exists C, clean_comps (IsAbs p) [] (Split "/" p) = C ++ l) as [C EC].
  { exists (clean_comps (IsAbs p) [] (Split "/" q)). rewrite Es, clean_comps_app, clean_comps_plain by done. by rewrite reverse_involutive. }
  assert (5 <= String.length (Join (C ++ l) "/"))%nat as Hlen.
  { transitivity (String.length "repos"); [done|]. apply Join_length, elem_of_app. right. by left. }
  unfold Clean. rewrite EC. destruct (IsAbs p).
  - split; intros E; apply (f_equal String.length) in E; rewrite length_app_str in E; cbn in E; lia.
  - assert (C ++ l <> []) as Hne by (by destruct C). destruct (C ++ l) as [|x m]; [done|].
    split; intros E; rewrite E in Hlen; cbn in Hlen; lia.
Qed.

Lemma endpoint_below bp repository sfx :
  validateRepository repository = None -> good_suffix sfx ->
  below (PathJoin bp ("/repos/" +:+ repository)) (PathJoin bp ("/repos/" +:+ repository +:+ sfx)).
Proof.
  intros (owner & name & Ho & Hn & -> & _)%validateRepository_parts [->|(t & -> & Ht)]; [left; by rewrite app_empty_r|].
  unfold PathJoin. destruct bp as [|b bp]; cbn beta iota.
  - change (String "/" "repos/") with ("/repos/"). destruct (Clean_repo "" owner name Ho Hn) as [H1 H2].
    exact (Clean_below _ t H1 H2 Ht).
  - set (q := String b bp +:+ "/"). destruct (Clean_repo q owner name Ho Hn) as [H1 H2].
    pose proof (Clean_below _ t H1 H2 Ht) as Hb. unfold q in Hb. rewrite <- !app_assoc_str in Hb. rewrite <- !app_assoc_str. exact Hb.
Qed.

(** *** The ends of the endpoints *)

Lemma no_dotdot_join l t : Forall (fun x => x <> ".." /\ no_char "/" x) l -> l <> [] -> ".." ∉ Split "/" t ->
  ".." ∉ Split "/" (Join l "/" +:+ "/" +:+ t).
Proof.
  intros Hl Hne Ht. change (Join l "/" +:+ "/" +:+ t) with (Join l "/" +:+ String "/" t). rewrite Split_concat, Split_Join; [|done|].
  - rewrite elem_of_app. intros [Hin|Hin]; [|done]. rewrite Forall_forall in Hl. by destruct (Hl _ Hin).
  - eapply Forall_impl; [exact Hl|]. by intros x [_ ?].
Qed.

Lemma no_dotdot_plain t : no_char "/" t -> t <> ".." -> ".." ∉ Split "/" t.
Proof. intros H1 H2. rewrite Split_no_char by done. by intros ?%list_elem_of_singleton. Qed.

Lemma Itoa_no_slash n : 0 <= n -> no_char "/" (Itoa n) /\ Itoa n <> "..".
Proof.
  intros Hn. pose proof (Itoa_digits n Hn) as Hd. split; [by eapply no_char_forallb|]. intros E. by rewrite E in Hd.
Qed.

Lemma good_lit l : Forall (fun x => x <> ".." /\ no_char "/" x) l -> l <> [] -> good_suffix ("/" +:+ Join l "/").
Proof.
  intros Hl Hne. right. exists (Join l "/"). split; [done|]. rewrite Split_Join; [|done|].
  - intros Hin. rewrite Forall_forall in Hl. by destruct (Hl _ Hin).
  - eapply Forall_impl; [exact Hl|]. by intros x [_ ?].
Qed.

Lemma validateRef_name ref : validateRef ref = None ->
  exists name, ref = "refs/heads/" +:+ name /\ Contains name ".." = false.
Proof.
  unfold validateRef. destruct (_ || negb (HasPrefix _ _)) eqn:E; [done|]. bsplit. cbv zeta.
  match goal with H : HasPrefix _ _ = true |- _ => rename H into Hp end. unfold TrimPrefix. rewrite Hp.
  unfold HasPrefix in Hp. apply prefix_inv in Hp as [name ->]. rewrite drop_str_app.
  destruct (_ || HasSuffix name ".lock") eqn:E2; [done|]. bsplit. intros _. by exists name.
Qed.

Lemma good_ref_suffix ref : validateRef ref = None -> good_suffix ("/git/ref/" +:+ TrimPrefix ref "refs/").
Proof.
  intros (name & -> & Hc)%validateRef_name. right. exists ("git/ref/heads/" +:+ name). split; [done|].
  apply (no_dotdot_join ["git"; "ref"; "heads"]); [by repeat constructor|done|].
  intros Hin%Split_Contains. congruence.
Qed.

(** A workflow: its directory and a file whose name starts with a letter or digit. *)
Lemma workflowRE_parts workflow : MatchString workflowRE workflow = true ->
  exists file, workflow = ".github/workflows/" +:+ file /\ no_char "/" file /\ file <> "" /\ file <> "..".
Proof.
  intros Hm%MatchString_correct. unfold workflowRE in Hm.
  do 4 (apply rmatch_cat_inv in Hm as (?s & ?u & -> & Hm & ?Hu)). apply rmatch_cat_inv in Hm as (dir & c & -> & ->%rmatch_lit & Hc).
  assert (str_forallb (in_class (alnum ++ chars "._-")) (c +:+ u2 +:+ u1 +:+ u0 +:+ u) = true) as Hf.
  { rewrite !str_forallb_app. repeat (apply andb_true_intro; split).
    all: eapply only_chars_sound; [|eassumption]; by vm_compute. }
  exists (c +:+ u2 +:+ u1 +:+ u0 +:+ u). rewrite <- !app_assoc_str. split; [done|]. split; [by eapply no_char_forallb|].
  apply min_len_sound in Hc, Hu, Hu1. cbn in Hc, Hu, Hu1. unfold len in *.
  split; intros E%(f_equal String.length); rewrite !length_app_str in E; cbn in E; lia.
Qed.

Lemma good_workflow_suffix workflow : MatchString workflowRE workflow = true -> good_suffix ("/contents/" +:+ workflow).
Proof.
  intros (file & -> & Hs & _ & Hd)%workflowRE_parts. right. exists ("contents/.github/workflows/" +:+ file). split; [done|].
  apply (no_dotdot_join ["contents"; ".github"; "workflows"]); [by repeat constructor|done|by apply no_dotdot_plain].
Qed.

Lemma good_dispatch_suffix workflow : MatchString workflowRE workflow = true ->
  good_suffix ("/actions/workflows/" +:+ Base workflow +:+ "/dispatches").
Proof.
  intros (file & -> & Hs & Hne & Hd)%workflowRE_parts. change (".github/workflows/" +:+ file) with (".github/workflows" +:+ "/" +:+ file).
  rewrite Base_file by done. apply (good_lit ["actions"; "workflows"; file; "dispatches"]); [by repeat constructor|done].
Qed.

Lemma good_id_suffix pre n post :
  0 <= n -> Forall (fun x => x <> ".." /\ no_char "/" x) pre -> Forall (fun x => x <> ".." /\ no_char "/" x) post ->
  good_suffix ("/" +:+ Join (pre ++ Itoa n :: post) "/").
Proof.
  intros Hn Hpre Hpost. destruct (Itoa_no_slash n Hn). apply good_lit; [|by destruct pre].
  apply Forall_app. split; [done|]. by constructor.
Qed.

(** ** Exchanges *)

(** What became of the one request that may change something: not sent, sent without a
    known answer, or answered with a status. *)
Definition sent : Type := option (option Z).

Definition answered (method : string) (o : option Z) (s : sent) : sent := if String.eqb method "GET" then s else Some o.

Definition http_spec (c : GitHubClient) (repository : string) : spec httpE sent := {|
  allowed B e s :=
    match e with
    | Do method url header body =>
        url_Scheme url = url_Scheme (gc_base c) /\ url_Host url = url_Host (gc_base c) /\
        below (PathJoin (url_Path (gc_base c)) ("/repos/" +:+ repository)) (url_Path url) /\
        header = request_header c body /\ (method <> "GET" -> s = None)
    | _ => True
    end;
  answers B e s :=
    match e in httpE B return B -> sent -> Prop with
    | Do method _ _ _ => fun b s' => s' = answered method (match b with Ok (status, _) => Some status | Err _ => None end) s
    | ReadAll limit => fun b s' => s' = s /\ forall data, b = Ok data -> len data <= limit
    | CtxErr => fun _ s' => s' = s
    end;
|}.

Section client.
Context (c : GitHubClient) (repository : string).
Abbreviation sp := (http_spec c repository).

Lemma wpp_client_do method sfx query body limit Q s :
  validateRepository repository = None -> good_suffix sfx -> (method <> "GET" -> s = None) ->
  (forall e o, Q (Err e) (answered method o s)) ->
  (forall status data id, len data <= limit -> Q (Ok (status, data, id)) (answered method (Some status) s)) ->
  wpp sp (client_do c method (repoPath repository +:+ sfx) query body limit) Q s.
Proof.
  intros Hv Hs Hm He Hok. unfold client_do. apply wpp_bind, wpp_call.
  - pose proof Hv as (o & n & _ & _ & _ & ->)%validateRepository_parts. rewrite <- app_assoc_str. split_and!; [done|done| |done|done].
    by apply endpoint_below.
  - intros [[status id]|e] s' ->; [|by apply wpp_ret]. apply wpp_bind, wpp_call; [done|].
    intros [data|e] s' [-> Hd]; [|by apply wpp_ret]. apply wpp_ret. destruct (Z.ltb_spec limit (len data)); [by apply He|].
    by apply Hok.
Qed.

Lemma wpp_getJSON {A} operation sfx query (decode : string -> option A) (Q : result A -> sent -> Prop) s :
  validateRepository repository = None -> good_suffix sfx -> (forall r, Q r s) ->
  wpp sp (getJSON c operation (repoPath repository +:+ sfx) query decode) Q s.
Proof.
  intros Hv Hs HQ. unfold getJSON. apply wpp_bind, wpp_client_do; [done|done|done| |].
  - intros e o. apply wpp_bind, wpp_call; [done|]. intros [e1|] s' ->; [|by apply wpp_ret].
    apply wpp_bind, wpp_call; [done|]. intros e2 s' ->. by apply wpp_ret.
  - intros status data id _. by apply wpp_ret.
Qed.

Lemma wpp_transport operation (Q : error -> sent -> Prop) s :
  (forall e, errors_Is e ErrAmbiguous = true -> Q e s) -> wpp sp (ambiguousTransportError operation) Q s.
Proof.
  intros HQ. unfold ambiguousTransportError. apply wpp_bind, wpp_call; [done|]. intros [e1|] s' ->; [|by apply wpp_ret, HQ].
  apply wpp_bind, wpp_call; [done|]. intros [e2|] s' ->; apply wpp_ret, HQ; [|done]. unfold errors_Is. cbn. apply bool_decide_eq_true_2. by left.
Qed.

Lemma ambiguous_Is e : errors_Is (ambiguous e) ErrAmbiguous = true.
Proof. unfold errors_Is. cbn. apply bool_decide_eq_true_2. by left. Qed.
End client.

(** ** Changes *)

Definition own_label (identity : Identity) (l : RunnerLabel) : bool :=
  String.eqb (lab_Type l) "custom" && String.eqb (lab_Name l) (id_Label identity).

(** An offline runner of this identity with its label once and default labels besides. *)
Definition jit_runner (identity : Identity) (r : RemoteRunner) : Prop :=
  0 < rr_ID r /\ rr_Name r = id_RunnerName identity /\ rr_Status r = "offline" /\ rr_Busy r = false /\
  length (List.filter (own_label identity) (rr_Labels r)) = 1%nat /\
  Forall (fun l => own_label identity l = true \/ (lab_Type l = "read-only" /\ knownDefaultRunnerLabel (lab_Name l) = true)) (rr_Labels r).

Lemma jit_labels_iff identity labels n :
  jit_labels identity labels n = true <->
  n + Z.of_nat (length (List.filter (own_label identity) labels)) = 1 /\
  Forall (fun l => own_label identity l = true \/ (lab_Type l = "read-only" /\ knownDefaultRunnerLabel (lab_Name l) = true)) labels.
Proof.
  revert n. induction labels as [|l labels IH]; intros n; cbn [jit_labels List.filter].
  { rewrite Z.eqb_eq. cbn. split; [split; [lia|done]|lia]. }
  rewrite Forall_cons. fold (own_label identity l). destruct (own_label identity l) eqn:E.
  { rewrite IH. cbn [length]. split; intros [? ?]; split; [lia|tauto|lia|tauto]. }
  destruct (String.eqb_spec (lab_Type l) "read-only"), (knownDefaultRunnerLabel (lab_Name l)) eqn:Ek; cbn [negb orb].
  { rewrite IH. intuition congruence. }
  all: split; [done|]; intros (_ & [?|[? ?]] & _); congruence.
Qed.

Lemma validJITRunnerResponse_iff r identity : validJITRunnerResponse r identity = true <-> jit_runner identity r.
Proof.
  unfold validJITRunnerResponse, jit_runner. destruct (Z.leb_spec (rr_ID r) 0); cbn [orb]; [split; [done|lia]|].
  destruct (String.eqb_spec (rr_Name r) (id_RunnerName identity)); cbn [negb orb]; [|split; [done|tauto]].
  destruct (String.eqb_spec (rr_Status r) "offline"); cbn [negb orb]; [|split; [done|tauto]].
  destruct (rr_Busy r); [split; [done|]; by intros (_ & _ & _ & ? & _)|]. rewrite jit_labels_iff. split.
  - intros [? ?]. split_and!; [done..|lia|done].
  - intros (_ & _ & _ & _ & ? & ?). split; [lia|done].
Qed.

(** An error that is not ambiguous: nothing was sent, or GitHub refused with a status in
    the range. *)
Definition honest_error (lo hi : Z) (e : error) (s : sent) : Prop :=
  errors_Is e ErrAmbiguous = true \/ s = None \/ exists status, s = Some (Some status) /\ lo <= status < hi.

Section changes.
Context (url_Parse : string -> option URL) (url_String : URL -> string) (json : APICodec).
Context (c : GitHubClient) (repository : string).
Abbreviation sp := (http_spec c repository).

Lemma bad_repository_false : bad_repository repository = false -> validateRepository repository = None.
Proof. unfold bad_repository. case_bool_decide as E; [done|]. intros _. by destruct (validateRepository _); [destruct E|]. Qed.

Lemma validateReceipt_None receipt :
  validateReceipt url_Parse url_String c repository receipt = None -> 0 < rcpt_RunID receipt /\
  rcpt_RunURL receipt = url_String (client_endpoint c (repoPath repository +:+ "/actions/runs/" +:+ Itoa (rcpt_RunID receipt)) []).
Proof.
  unfold validateReceipt. cbv zeta. destruct (Z.leb_spec (rcpt_RunID receipt) 0); [done|]. cbn [orb]. destruct (_ || _ || _); [done|].
  destruct (String.eqb_spec (rcpt_RunURL receipt) (url_String (client_endpoint c (repoPath repository +:+ "/actions/runs/" +:+ Itoa (rcpt_RunID receipt)) []))); [done|done].
Qed.

Lemma wpp_DispatchWorkflow workflow trustedRef inputs :
  wpp sp (DispatchWorkflow url_Parse url_String json c repository workflow trustedRef inputs)
    (fun r s => match r with
                | Ok receipt => s = Some (Some 200) /\ validateReceipt url_Parse url_String c repository receipt = None
                | Err e => honest_error 400 500 e s
                end) None.
Proof.
  unfold DispatchWorkflow. destruct (_ || _) eqn:E; [apply wpp_ret; right; by left|].
  do 2 apply orb_false_iff in E as [E _]. apply orb_false_iff in E as [E%bad_repository_false Hw%negb_false_iff].
  cbv zeta. apply wpp_bind, wpp_client_do; [done|by apply good_dispatch_suffix|done| |].
  - intros e o. apply wpp_bind, wpp_transport. intros e' He. apply wpp_ret. by left.
  - intros status data id _. apply wpp_ret. change (answered "POST" (Some status) None) with (Some (Some status)).
    destruct (Z.eqb_spec status 200) as [->|]; cbn [negb].
    + destruct (decodeDispatched _ _) as [[[i u] h]|]; [|by left]. destruct (validateReceipt _ _ _ _ _) eqn:Ev; [by left|done].
    + destruct (_ && negb (status =? 204)) eqn:Er; [|left; apply ambiguous_Is]. bsplit. right; right. exists status. split; [done|lia].
Qed.

Lemma wpp_GenerateJIT identity group :
  wpp sp (GenerateJIT json c repository identity group)
    (fun r s => match r with
                | Ok reg => s = Some (Some 201) /\ jit_runner identity (reg_Runner reg) /\
                            exists secret, reg_Secret reg = Some secret /\ 16 <= Z.of_nat (length secret) <= maxJITResponse
                | Err e => honest_error 400 500 e s
                end) None.
Proof.
  unfold GenerateJIT. destruct (_ || _) eqn:E; [apply wpp_ret; right; by left|].
  do 2 apply orb_false_iff in E as [E _]. apply bad_repository_false in E.
  cbv zeta. apply wpp_bind, wpp_client_do; [done|by apply (good_lit ["actions"; "runners"; "generate-jitconfig"]); [repeat constructor|]|done| |].
  - intros e o. apply wpp_bind, wpp_transport. intros e' He. apply wpp_ret. by left.
  - intros status data id _. apply wpp_ret. change (answered "POST" (Some status) None) with (Some (Some status)).
    destruct (Z.eqb_spec status 201) as [->|]; cbn [negb].
    + destruct (decodeJIT _ _) as [[secret runner]|]; [|by left]. destruct (_ || _) eqn:El; [by left|]. bsplit.
      destruct (validJITRunnerResponse runner identity) eqn:Ev; [|by left]. apply validJITRunnerResponse_iff in Ev.
      split_and!; [done|done|]. by exists secret.
    + destruct (_ && _) eqn:Er; [|left; apply ambiguous_Is]. bsplit. right; right. exists status. split; [done|lia].
Qed.

Lemma wpp_DeleteRunner id :
  wpp sp (DeleteRunner c repository id)
    (fun r s => match r with
                | None => s = Some (Some 204) \/ s = Some (Some 404)
                | Some e => errors_Is e ErrAmbiguous = true \/ s = None
                end) None.
Proof.
  unfold DeleteRunner. destruct (_ || _) eqn:E; [apply wpp_ret; by right|]. apply orb_false_iff in E as [E%bad_repository_false Hi%Z.leb_gt].
  apply wpp_bind, wpp_client_do; [done|by apply (good_id_suffix ["actions"; "runners"] id []); [lia|repeat constructor|]|done| |].
  - intros e o. apply wpp_bind, wpp_transport. intros e' He. apply wpp_ret. by left.
  - intros status data rid _. apply wpp_ret. change (answered "DELETE" (Some status) None) with (Some (Some status)).
    destruct (Z.eqb_spec status 204) as [->|]; [by left|]. destruct (Z.eqb_spec status 404) as [->|]; [by right|]. left. apply ambiguous_Is.
Qed.

Lemma wpp_CancelRun id :
  wpp sp (CancelRun c repository id)
    (fun r s => match r with None => s = Some (Some 202) | Some e => honest_error 409 410 e s end) None.
Proof.
  unfold CancelRun. destruct (_ || _) eqn:E; [apply wpp_ret; right; by left|]. apply orb_false_iff in E as [E%bad_repository_false Hi%Z.leb_gt].
  apply wpp_bind, wpp_client_do; [done|by apply (good_id_suffix ["actions"; "runs"] id ["cancel"]); [lia|repeat constructor..]|done| |].
  - intros e o. apply wpp_bind, wpp_transport. intros e' He. apply wpp_ret. by left.
  - intros status data rid _. apply wpp_ret. change (answered "POST" (Some status) None) with (Some (Some status)).
    destruct (Z.eqb_spec status 202) as [->|]; cbn [negb]; [done|]. destruct (Z.eqb_spec status 409) as [->|]; [|left; apply ambiguous_Is].
    right; right. exists 409. split; [done|lia].
Qed.

(** C21. The GitHub client does not misreport a change.  Whatever the network answers, each
    of the four changes is at most one request, to the configured API and below the
    repository, with the token only in its header.  A success means the status of success
    and, for a dispatch, a receipt of this repository, for a registration, an offline
    runner of exactly this identity and a secret within bounds.  An error that is not
    ambiguous means that nothing was sent or that GitHub refused (4xx; 409 for a cancel,
    never for a delete): the dispatcher may then conclude that nothing was created. *)
Theorem no_change_is_misreported workflow trustedRef inputs identity group id :
  wpp sp (DispatchWorkflow url_Parse url_String json c repository workflow trustedRef inputs)
    (fun r s => match r with
                | Ok receipt => s = Some (Some 200) /\ 0 < rcpt_RunID receipt /\
                    rcpt_RunURL receipt = url_String (client_endpoint c (repoPath repository +:+ "/actions/runs/" +:+ Itoa (rcpt_RunID receipt)) [])
                | Err e => honest_error 400 500 e s
                end) None /\
  wpp sp (GenerateJIT json c repository identity group)
    (fun r s => match r with
                | Ok reg => s = Some (Some 201) /\ jit_runner identity (reg_Runner reg) /\
                            exists secret, reg_Secret reg = Some secret /\ 16 <= Z.of_nat (length secret) <= maxJITResponse
                | Err e => honest_error 400 500 e s
                end) None /\
  wpp sp (DeleteRunner c repository id)
    (fun r s => match r with
                | None => s = Some (Some 204) \/ s = Some (Some 404)
                | Some e => errors_Is e ErrAmbiguous = true \/ s = None
                end) None /\
  wpp sp (CancelRun c repository id)
    (fun r s => match r with None => s = Some (Some 202) | Some e => honest_error 409 410 e s end) None.
Proof.
  split_and!; [|apply wpp_GenerateJIT|apply wpp_DeleteRunner|apply wpp_CancelRun].
  eapply wpp_mono; [apply wpp_DispatchWorkflow|]. cbn beta. intros [receipt|e] s; [|done].
  intros [-> Hv]. split; [done|]. by apply validateReceipt_None.
Qed.
End changes.

(** ** Listings *)

(** The page that GitHub serves of a listing. *)
Definition page_of {A} (items : list A) (page : nat) : list A := take 100 (drop (100 * (page - 1)) items).

Lemma take_page {A} (items : list A) p : (1 <= p)%nat -> take (100 * (p - 1)) items ++ page_of items p = take (100 * p) items.
Proof. intros Hp. unfold page_of. rewrite take_take_drop. f_equal. lia. Qed.

Lemma page_end {A} (items : list A) p : (1 <= p)%nat ->
  (Z.of_nat (length (page_of items p)) <? 100) || (Z.of_nat (length items) <=? Z.of_nat p * 100) = (Z.of_nat (length items) <=? Z.of_nat p * 100).
Proof.
  intros Hp. unfold page_of. rewrite length_take, length_drop.
  destruct (Z.leb_spec (Z.of_nat (length items)) (Z.of_nat p * 100)); [by rewrite orb_true_r|].
  rewrite orb_false_r. apply Z.ltb_ge. lia.
Qed.

Lemma jobs_end {A} (items : list A) p : (1 <= p)%nat ->
  (Z.of_nat (length (page_of items p)) <? 100) || (Z.of_nat (length items) <=? Z.of_nat (length (take (100 * p) items))) =
  (Z.of_nat (length items) <=? Z.of_nat p * 100).
Proof.
  intros Hp. unfold page_of. rewrite !length_take, length_drop.
  destruct (Z.leb_spec (Z.of_nat (length items)) (Z.of_nat p * 100)).
  - apply orb_true_iff. right. apply Z.leb_le. lia.
  - apply orb_false_iff. split; [apply Z.ltb_ge|apply Z.leb_gt]; lia.
Qed.

(** The runners that carry the label, as often as they do. *)
Definition carriers (label : string) (runners : list RemoteRunner) : list RemoteRunner :=
  r ← runners; (fun _ => r) <$> List.filter (fun l => String.eqb (lab_Name l) label) (rr_Labels r).

Definition unique_of (l : list RemoteRunner) : result (option RemoteRunner) :=
  match l with
  | [] => Ok None
  | [r] => Ok (Some r)
  | _ => Err (Errorf_s ErrAmbiguous "duplicate exact runner label")
  end.

Lemma match_labels_spec label r labels found :
  match_labels label r labels found =
  unique_of (match found with Some f => [f] | None => [] end ++ ((fun _ => r) <$> List.filter (fun l => String.eqb (lab_Name l) label) labels)).
Proof.
  revert found. induction labels as [|l labels IH]; intros found; cbn [match_labels List.filter]; [by destruct found|].
  destruct (String.eqb (lab_Name l) label); cbn [negb]; [|apply IH]. destruct found as [f|]; [done|]. by rewrite IH.
Qed.

Lemma match_runners_spec label runners found :
  match_runners label runners found = unique_of (match found with Some f => [f] | None => [] end ++ carriers label runners).
Proof.
  revert found. induction runners as [|r runners IH]; intros found; cbn [match_runners]; [by destruct found|].
  rewrite match_labels_spec. change (carriers label (r :: runners)) with
    (((fun _ => r) <$> List.filter (fun l => String.eqb (lab_Name l) label) (rr_Labels r)) ++ carriers label runners).
  rewrite app_assoc. set (front := _ ++ ((fun _ => r) <$> _)). destruct front as [|x [|y front]]; cbn [unique_of]; [apply IH|apply IH|done].
Qed.

Section listings.
Context {W : Type} (h : forall B, httpE B -> St W B).
Context (json : APICodec) (c : GitHubClient) (repository : string).

(** GitHub serves the first hundred pages of a fixed listing. *)
Definition serves {A} (operation endpoint : string) (decode : string -> option (Z * list A)) (items : list A) : Prop :=
  forall page w, (1 <= page <= 100)%nat -> exists w',
    interp h (getJSON c operation endpoint (page_query (Z.of_nat page)) decode) w =
      (Ok (Z.of_nat (length items), page_of items page), w').

Definition pages_from (p n : nat) : list Z := Z.of_nat <$> seq p n.

Lemma pages_from_S p n : pages_from p (S n) = Z.of_nat p :: pages_from (S p) n.
Proof. done. Qed.

Lemma job_pages_complete endpoint items p n w :
  serves "list jobs" endpoint (decodeJobPage json) items -> (1 <= p /\ p + n <= 101)%nat ->
  fst (interp h (job_pages json c endpoint (take (100 * (p - 1)) items) (pages_from p n)) w) =
    if bool_decide (length items <= 100 * (p + n - 1) /\ n <> 0)%nat then Ok items
    else Err (Errorf "job pagination exceeded its safety limit").
Proof.
  intros Hs. revert p w. induction n as [|n IH]; intros p w Hp.
  { cbn. by rewrite bool_decide_eq_false_2 by lia. }
  rewrite pages_from_S. cbn [job_pages]. rewrite interp_bind. destruct (Hs p w ltac:(lia)) as [w' ->]. rewrite take_page, jobs_end by lia.
  destruct (Z.leb_spec (Z.of_nat (length items)) (Z.of_nat p * 100)).
  - cbn. rewrite bool_decide_eq_true_2 by lia. by rewrite take_ge by lia.
  - replace (100 * p)%nat with (100 * (S p - 1))%nat by lia. rewrite IH by lia.
    case_bool_decide; case_bool_decide; try done; exfalso; destruct n; lia.
Qed.

Lemma match_runners_app label a b found :
  match_runners label (a ++ b) found = match match_runners label a found with Ok f => match_runners label b f | Err e => Err e end.
Proof. revert found. induction a as [|r a IH]; intros found; cbn; [done|]. by destruct (match_labels _ _ _ _). Qed.

Lemma runner_pages_complete label items found p n w :
  serves "list runners" (repoPath repository +:+ "/actions/runners") (decodeRunnerPage json) items -> (1 <= p /\ p + n <= 101)%nat ->
  match_runners label (take (100 * (p - 1)) items) None = Ok found ->
  fst (interp h (runner_pages json c repository label found (pages_from p n)) w) =
    if bool_decide (length items <= 100 * (p + n - 1) /\ n <> 0)%nat then match_runners label items None
    else match match_runners label (take (100 * (p + n - 1)) items) None with
         | Ok _ => Err (Errorf "runner pagination exceeded its safety limit")
         | Err e => Err e
         end.
Proof.
  intros Hs. revert p found w. induction n as [|n IH]; intros p found w Hp Hf.
  { rewrite bool_decide_eq_false_2, Nat.add_0_r by lia. by rewrite Hf. }
  rewrite pages_from_S. cbn [runner_pages]. rewrite interp_bind. destruct (Hs p w ltac:(lia)) as [w' ->]. unfold last_page. rewrite page_end by lia.
  assert (match_runners label (page_of items p) found = match_runners label (take (100 * p) items) None) as ->.
  { rewrite <- (take_page items p (proj1 Hp)), match_runners_app. by rewrite Hf. }
  destruct (match_runners label (take (100 * p) items) None) as [found'|e] eqn:Em.
  - destruct (Z.leb_spec (Z.of_nat (length items)) (Z.of_nat p * 100)).
    + cbn. rewrite bool_decide_eq_true_2 by lia. by rewrite take_ge in Em by lia.
    + replace (100 * p)%nat with (100 * (S p - 1))%nat in Em by lia. rewrite (IH (S p) found' w' ltac:(lia) Em).
      replace (S p + n - 1)%nat with (p + S n - 1)%nat by lia.
      case_bool_decide; case_bool_decide; try done; exfalso; destruct n; lia.
  - assert (forall q, (p <= q)%nat -> match_runners label (take (100 * q) items) None = Err e) as Hq.
    { intros q Hq. replace (take (100 * q) items) with (take (100 * p) items ++ take (100 * q - 100 * p) (drop (100 * p) items)).
      - by rewrite match_runners_app, Em.
      - rewrite take_take_drop. f_equal. lia. }
    rewrite Hq by lia. case_bool_decide; [|done]. rewrite <- (Hq (length items + p)%nat) by lia. by rewrite take_ge by lia.
Qed.

Lemma label_pages_complete label items p n w :
  serves "list runners" (repoPath repository +:+ "/actions/runners") (decodeLabelPage json) items -> (1 <= p /\ p + n <= 101)%nat ->
  existsb (existsb (fun name => String.eqb name label)) (take (100 * (p - 1)) items) = false ->
  fst (interp h (label_pages json c repository label (pages_from p n)) w) =
    if existsb (existsb (fun name => String.eqb name label)) (take (100 * (p + n - 1)) items) then Ok true
    else if bool_decide (length items <= 100 * (p + n - 1) /\ n <> 0)%nat then Ok false
    else Err (Errorf "runner pagination exceeded its safety limit").
Proof.
  intros Hs. revert p w. induction n as [|n IH]; intros p w Hp Hf.
  { rewrite bool_decide_eq_false_2, Nat.add_0_r by lia. by rewrite Hf. }
  rewrite pages_from_S. cbn [label_pages]. rewrite interp_bind. destruct (Hs p w ltac:(lia)) as [w' ->]. unfold last_page. rewrite page_end by lia.
  set (ex := existsb (existsb _)) in *. assert (ex (page_of items p) = ex (take (100 * p) items)) as ->.
  { rewrite <- (take_page items p (proj1 Hp)). unfold ex at 2. rewrite existsb_app. fold ex. by rewrite Hf. }
  destruct (ex (take (100 * p) items)) eqn:Em.
  - assert (ex (take (100 * (p + S n - 1)) items) = true) as ->; [|done].
    replace (take (100 * (p + S n - 1)) items) with (take (100 * p) items ++ take (100 * (p + S n - 1) - 100 * p) (drop (100 * p) items)).
    + unfold ex. rewrite existsb_app. fold ex. by rewrite Em.
    + rewrite take_take_drop. f_equal. lia.
  - destruct (Z.leb_spec (Z.of_nat (length items)) (Z.of_nat p * 100)).
    + rewrite (take_ge items (100 * (p + S n - 1))) by lia. rewrite take_ge in Em by lia. rewrite Em.
      by rewrite bool_decide_eq_true_2 by lia.
    + rewrite (IH (S p)); [|lia|by replace (100 * (S p - 1))%nat with (100 * p)%nat by lia].
      replace (S p + n - 1)%nat with (p + S n - 1)%nat by lia. destruct (ex _); [done|].
      case_bool_decide; case_bool_decide; try done; exfalso; destruct n; lia.
Qed.

Definition many {A} (l : list A) : bool := 10000 <? Z.of_nat (length l).

Lemma has_label label (names : list (list string)) :
  existsb (existsb (fun name => String.eqb name label)) names = true <-> exists l, l ∈ names /\ label ∈ l.
Proof.
  rewrite existsb_exists. split.
  - intros (l & Hl%list_elem_of_In & (x & Hx%list_elem_of_In & ->%String.eqb_eq)%existsb_exists). eauto.
  - intros (l & Hl & Hx). exists l. split; [by apply list_elem_of_In|]. apply existsb_exists. exists label.
    split; [by apply list_elem_of_In|apply String.eqb_refl].
Qed.

(** C22. Listings are complete.  When GitHub serves the pages of a listing of at most ten
    thousand entries, the client returns all jobs, finds a label exactly when a runner has
    it, and finds the runner of a label exactly when one runner has it once, reporting two
    carriers as ambiguous.  A longer listing of jobs or search for a runner is an error,
    never a partial answer. *)
Theorem listings_are_complete label runID jobs runners names w :
  validateRepository repository = None -> bad_label label = false -> 0 < runID ->
  serves "list jobs" (repoPath repository +:+ "/actions/runs/" +:+ Itoa runID +:+ "/jobs") (decodeJobPage json) jobs ->
  serves "list runners" (repoPath repository +:+ "/actions/runners") (decodeRunnerPage json) runners ->
  serves "list runners" (repoPath repository +:+ "/actions/runners") (decodeLabelPage json) names ->
  let listed := fst (interp h (ListJobs json c repository runID) w) in
  let found := fst (interp h (FindRunnerByLabel json c repository label) w) in
  let exists_ := fst (interp h (RunnerLabelExists json c repository label) w) in
  (if many jobs then exists e, listed = Err e else listed = Ok jobs) /\
  (if many runners then exists e, found = Err e else found = unique_of (carriers label runners)) /\
  (exists_ = Ok true -> exists l, l ∈ names /\ label ∈ l) /\
  (exists_ = Ok false -> forall l, l ∈ names -> label ∉ l) /\
  (many names = false -> exists b, exists_ = Ok b).
Proof.
  intros Hv Hb Hr Hj Hru Hn listed found exists_.
  assert (bad_repository repository = false) as Ebr by (unfold bad_repository; rewrite Hv; done).
  assert (all_pages = pages_from 1 100) as Ep by done.
  assert (listed = if bool_decide (length jobs <= 100 * (1 + 100 - 1) /\ 100 <> 0)%nat then Ok jobs
                   else Err (Errorf "job pagination exceeded its safety limit")) as ->.
  { unfold listed, ListJobs. rewrite Ebr. destruct (Z.leb_spec runID 0); [lia|]. rewrite Ep.
    exact (job_pages_complete _ jobs 1 100 w Hj ltac:(lia)). }
  assert (found = fst (interp h (runner_pages json c repository label None (pages_from 1 100)) w)) as ->
    by (unfold found, FindRunnerByLabel; by rewrite Ebr, Hb).
  assert (exists_ = fst (interp h (label_pages json c repository label (pages_from 1 100)) w)) as ->
    by (unfold exists_, RunnerLabelExists; by rewrite Ebr, Hb).
  rewrite (runner_pages_complete label runners None 1 100 w Hru ltac:(lia) eq_refl), (label_pages_complete label names 1 100 w Hn ltac:(lia) eq_refl).
  unfold many. split; [|split; [|split_and!]].
  - destruct (Z.ltb_spec 10000 (Z.of_nat (length jobs))); [rewrite bool_decide_eq_false_2 by lia; eauto|by rewrite bool_decide_eq_true_2 by lia].
  - destruct (Z.ltb_spec 10000 (Z.of_nat (length runners))); [rewrite bool_decide_eq_false_2 by lia|rewrite bool_decide_eq_true_2 by lia; by rewrite match_runners_spec].
    destruct (match_runners _ _ _); eauto.
  - destruct (existsb _ _) eqn:Ex; [|by destruct (bool_decide _)]. intros _. apply has_label in Ex as (l & Hl & ?). exists l. split; [|done].
    apply elem_of_take in Hl as (i & Hi & _). by eapply list_elem_of_lookup_2.
  - destruct (existsb _ _) eqn:Ex; [done|]. case_bool_decide as Hlen; [|done]. intros _ l Hl Hin. rewrite take_ge in Ex by lia.
    assert (existsb (existsb (fun name => String.eqb name label)) names = true); [|congruence]. apply has_label. eauto.
  - intros Hm%Z.ltb_ge. destruct (existsb _ _); [eauto|]. rewrite bool_decide_eq_true_2 by lia. eauto.
Qed.
End listings.

(** ** base64 *)

(** The alphabet, and the encoding of groups of three bytes with padding. *)
Definition b64_alphabet : list ascii :=
  list_ascii_of_string "ABCDEFGHIJKLMNOPQRSTUVWXYZabcdefghijklmnopqrstuvwxyz0123456789+/".

Definition b64_char (v : Z) : ascii := nth (Z.to_nat v) b64_alphabet "="%char.

Fixpoint b64_encode (bytes : list Z) : list ascii :=
  match bytes with
  | [] => []
  | [a] => [b64_char (a / 4); b64_char (a `mod` 4 * 16); "="%char; "="%char]
  | [a; b] => [b64_char (a / 4); b64_char (a `mod` 4 * 16 + b / 16); b64_char (b `mod` 16 * 4); "="%char]
  | a :: b :: c :: rest =>
      [b64_char (a / 4); b64_char (a `mod` 4 * 16 + b / 16); b64_char (b `mod` 16 * 4 + c / 64); b64_char (c `mod` 64)] ++ b64_encode rest
  end.

Lemma b64_char_value v : 0 <= v < 64 -> b64_value (b64_char v) = Some v /\ Ascii.eqb (b64_char v) "=" = false.
Proof.
  intros Hv. assert (Forall (fun i => b64_value (b64_char (Z.of_nat i)) = Some (Z.of_nat i) /\ Ascii.eqb (b64_char (Z.of_nat i)) "=" = false) (seq 0 64)) as HF
    by (by repeat constructor). rewrite Forall_forall in HF. specialize (HF (Z.to_nat v)). rewrite Z2Nat.id in HF by lia. apply HF, elem_of_seq. lia.
Qed.

Lemma lor_shiftl x y k : 0 <= k -> 0 <= y < 2 ^ k -> Z.lor (Z.shiftl x k) y = x * 2 ^ k + y.
Proof.
  intros Hk Hy. rewrite <- Z.add_lor_land. rewrite Z.shiftl_mul_pow2 by done.
  enough (Z.land (x * 2 ^ k) y = 0) as -> by lia. apply Z.bits_inj'. intros i Hi. rewrite Z.land_spec, Z.bits_0.
  destruct (decide (i < k)).
  - rewrite Z.mul_pow2_bits_low by done. done.
  - rewrite <- (Z.mod_small y (2 ^ k)) by done. by rewrite Z.mod_pow2_bits_high, andb_false_r by lia.
Qed.

Lemma land_255 x : Z.land x 255 = x `mod` 256.
Proof. change 255 with (Z.ones 8). by rewrite Z.land_ones. Qed.

Lemma b64_first a x : 0 <= a < 256 -> 0 <= x < 16 -> Z.lor (Z.shiftl (a / 4) 2) (Z.shiftr (a `mod` 4 * 16 + x) 4) = a.
Proof.
  intros Ha Hx. rewrite Z.shiftr_div_pow2 by done. rewrite lor_shiftl by (try done; change (2 ^ 4) with 16; change (2 ^ 2) with 4; Z.div_mod_to_equations; lia).
  change (2 ^ 4) with 16. change (2 ^ 2) with 4. Z.div_mod_to_equations. lia.
Qed.

Lemma b64_second u b y : 0 <= b < 256 -> 0 <= y < 4 ->
  Z.land (Z.lor (Z.shiftl (u * 16 + b / 16) 4) (Z.shiftr (b `mod` 16 * 4 + y) 2)) 255 = b.
Proof.
  intros Hb Hy. rewrite land_255, Z.shiftr_div_pow2 by done.
  rewrite lor_shiftl by (try done; change (2 ^ 4) with 16; change (2 ^ 2) with 4; Z.div_mod_to_equations; lia).
  change (2 ^ 4) with 16. change (2 ^ 2) with 4. Z.div_mod_to_equations. lia.
Qed.

Lemma b64_third u c : 0 <= c < 256 -> Z.land (Z.lor (Z.shiftl (u * 4 + c / 64) 6) (c `mod` 64)) 255 = c.
Proof.
  intros Hc. rewrite land_255. rewrite lor_shiftl by (try done; change (2 ^ 6) with 64; Z.div_mod_to_equations; lia).
  change (2 ^ 6) with 64. Z.div_mod_to_equations. lia.
Qed.

Ltac b64_digit v := destruct (b64_char_value v ltac:(Z.div_mod_to_equations; lia)) as [? ?].

Lemma b64_roundtrip bytes : Forall is_byte bytes -> b64_groups (b64_encode bytes) = Some bytes.
Proof.
  intros Hb. assert (forall n bytes, (length bytes <= n)%nat -> Forall is_byte bytes -> b64_groups (b64_encode bytes) = Some bytes) as Hall;
    [|by eapply Hall]. clear. unfold is_byte.
  induction n as [|n IH]; intros [|a [|b [|c rest]]] Hl Hb; cbn in Hl; try lia; try done; apply Forall_cons in Hb as [Ha Hb].
  - b64_digit (a / 4). b64_digit (a `mod` 4 * 16 + 0). rewrite Z.add_0_r in *. cbn [b64_encode b64_groups]. repeat match goal with H : b64_value _ = _ |- _ => rewrite H end.
    cbn. rewrite <- (Z.add_0_r (a `mod` 4 * 16)). by rewrite b64_first by lia.
  - apply Forall_cons in Hb as [Hb _]. b64_digit (a / 4). b64_digit (a `mod` 4 * 16 + b / 16). b64_digit (b `mod` 16 * 4).
    cbn [b64_encode b64_groups]. repeat match goal with H : _ = _ |- _ => rewrite H end. cbn [Ascii.eqb Bool.eqb].
    rewrite b64_first by (Z.div_mod_to_equations; lia). rewrite <- (Z.add_0_r (b `mod` 16 * 4)). by rewrite b64_second by lia.
  - apply Forall_cons in Hb as [Hb [Hc Hr]%Forall_cons]. b64_digit (a / 4). b64_digit (a `mod` 4 * 16 + b / 16).
    b64_digit (b `mod` 16 * 4 + c / 64). b64_digit (c `mod` 64). cbn [b64_encode app b64_groups].
    repeat match goal with H : _ = _ |- _ => rewrite H end. rewrite IH by (try done; lia).
    rewrite b64_first, b64_second, b64_third by (Z.div_mod_to_equations; lia). done.
Qed.

Lemma str_filter_filter (p q : ascii -> bool) s : str_filter p (str_filter q s) = str_filter (fun c => q c && p c) s.
Proof.
  induction s as [|c s IH]; cbn; [done|]. destruct (q c); cbn; [|done]. destruct (p c); by rewrite IH.
Qed.

Lemma str_filter_ext (p q : ascii -> bool) s : (forall c, p c = q c) -> str_filter p s = str_filter q s.
Proof. intros Hpq. induction s as [|c s IH]; cbn; [done|]. by rewrite Hpq, IH. Qed.

(** Without the line breaks that GitHub puts into an encoded file. *)
Definition unwrapped (s : string) : string := str_filter (fun c => negb (Ascii.eqb c "010") && negb (Ascii.eqb c "013")) s.

Lemma byte_string_length bytes : len (byte_string bytes) = Z.of_nat (length bytes).
Proof. unfold len, byte_string. induction bytes as [|b bytes IH]; cbn in *; [done|]. lia. Qed.

(** The workflow that is checked is the one GitHub has.  When the answer is the base64
    of a file of 1 to 2^21 bytes, broken into lines anywhere, [WorkflowContent] returns
    exactly the bytes of the file. *)
Theorem workflow_is_read_back {W} (h : forall B, httpE B -> St W B) json c repository workflow sha content blob bytes w w' :
  validateRepository repository = None -> MatchString workflowRE workflow = true -> MatchString shaRE sha = true ->
  interp h (getJSON c "get workflow" (repoPath repository +:+ "/contents/" +:+ workflow) [("ref", sha)] (decodeContents json)) w =
    (Ok ("base64", content, blob), w') ->
  MatchString shaRE blob = true -> Forall is_byte bytes -> 0 < Z.of_nat (length bytes) <= maxAPIResponse ->
  unwrapped content = string_of_list_ascii (b64_encode bytes) ->
  interp h (WorkflowContent json c repository workflow sha) w = (Ok (byte_string bytes), w').
Proof.
  intros Hv Hw Hs Hget Hblob Hb Hlen Hc. unfold WorkflowContent, bad_repository. rewrite Hv, Hw, Hs.
  rewrite bool_decide_eq_false_2 by (intros E; by apply E). cbn [negb orb]. rewrite interp_bind, Hget, Hblob. cbn [negb orb String.eqb Ascii.eqb Bool.eqb].
  unfold DecodeString. rewrite str_filter_filter.
  rewrite (str_filter_ext _ (fun c => negb (Ascii.eqb c "010") && negb (Ascii.eqb c "013"))) by (intros d; by destruct (Ascii.eqb d "010")).
  fold (unwrapped content). rewrite Hc, list_ascii_of_string_of_list_ascii, b64_roundtrip by done. cbn [fmap option_fmap option_map].
  rewrite byte_string_length. destruct (Z.eqb_spec (Z.of_nat (length bytes)) 0); [lia|]. destruct (Z.ltb_spec maxAPIResponse (Z.of_nat (length bytes))); [lia|done].
Qed.

(** ** Reads *)

Section reads.
Context (json : APICodec) (c : GitHubClient) (repository : string).
Abbreviation sp := (http_spec c repository).
Abbreviation unchanged := (fun _ s => s = None).

Lemma wpp_job_pages sfx jobs pages : validateRepository repository = None -> good_suffix sfx ->
  wpp sp (job_pages json c (repoPath repository +:+ sfx) jobs pages) unchanged None.
Proof.
  intros Hv Hs. revert jobs. induction pages as [|p pages IH]; intros jobs; cbn [job_pages]; [by apply wpp_ret|].
  apply wpp_bind, wpp_getJSON; [done|done|]. intros [[total l]|e]; [|by apply wpp_ret]. cbv zeta. destruct (_ || _); [by apply wpp_ret|apply IH].
Qed.

Lemma wpp_runner_pages label found pages : validateRepository repository = None ->
  wpp sp (runner_pages json c repository label found pages) unchanged None.
Proof.
  intros Hv. revert found. induction pages as [|p pages IH]; intros found; cbn [runner_pages]; [by apply wpp_ret|].
  apply wpp_bind, wpp_getJSON; [done|by apply (good_lit ["actions"; "runners"]); [repeat constructor|]|].
  intros [[total l]|e]; [|by apply wpp_ret]. destruct (match_runners _ _ _); [|by apply wpp_ret]. destruct (last_page _ _ _); [by apply wpp_ret|apply IH].
Qed.

Lemma wpp_label_pages label pages : validateRepository repository = None ->
  wpp sp (label_pages json c repository label pages) unchanged None.
Proof.
  intros Hv. induction pages as [|p pages IH]; cbn [label_pages]; [by apply wpp_ret|].
  apply wpp_bind, wpp_getJSON; [done|by apply (good_lit ["actions"; "runners"]); [repeat constructor|]|].
  intros [[total l]|e]; [|by apply wpp_ret]. destruct (existsb _ _); [by apply wpp_ret|]. destruct (last_page _ _ _); [by apply wpp_ret|done].
Qed.

Lemma good_id pre n post : 0 < n -> Forall (fun x => x <> ".." /\ no_char "/" x) pre -> Forall (fun x => x <> ".." /\ no_char "/" x) post ->
  good_suffix ("/" +:+ Join (pre ++ Itoa n :: post) "/").
Proof. intros. apply good_id_suffix; [lia|done|done]. Qed.

(** Reading from GitHub changes nothing and is checked.  The nine reads of the client
    send only GET requests, to the configured API and below the repository; a run, a job
    or a runner that is returned is the one that was asked for; a branch, a revision and
    a workflow are well formed. *)
Theorem reads_are_checked label ref workflow sha id :
  wpp sp (DefaultBranch json c repository) (fun r s => s = None /\ forall b, r = Ok b -> validateRef ("refs/heads/" +:+ b) = None) None /\
  wpp sp (ResolveRef json c repository ref) (fun r s => s = None /\ forall x, r = Ok x -> MatchString shaRE x = true) None /\
  wpp sp (WorkflowContent json c repository workflow sha)
    (fun r s => s = None /\ forall x, r = Ok x -> 0 < len x <= maxAPIResponse) None /\
  wpp sp (GetRun json c repository id) (fun r s => s = None /\ forall x, r = Ok x -> run_ID x = id /\ MatchString shaRE (run_HeadSHA x) = true) None /\
  wpp sp (GetJob json c repository id) (fun r s => s = None /\ forall x, r = Ok x -> job_ID x = id /\ 0 < job_RunID x) None /\
  wpp sp (GetRunner json c repository id) (fun r s => s = None /\ forall x, r = Ok (Some x) -> rr_ID x = id) None /\
  wpp sp (ListJobs json c repository id) unchanged None /\
  wpp sp (FindRunnerByLabel json c repository label) unchanged None /\
  wpp sp (RunnerLabelExists json c repository label) unchanged None.
Proof.
  split_and!.
  - unfold DefaultBranch. destruct (validateRepository repository) eqn:Hv; [by apply wpp_ret|]. apply wpp_bind.
    rewrite <- (app_empty_r (repoPath repository)). apply wpp_getJSON; [done|by left|]. intros [b|e]; apply wpp_ret; [|done].
    destruct (validateRef _) eqn:E; [done|]. split; [done|]. by intros x [= <-].
  - unfold ResolveRef. destruct (validateRepository repository) eqn:Hv; [by apply wpp_ret|]. destruct (validateRef ref) eqn:Hr; [by apply wpp_ret|].
    apply wpp_bind, wpp_getJSON; [done|by apply good_ref_suffix|]. intros [x|e]; apply wpp_ret; [|done].
    destruct (MatchString shaRE x) eqn:E; [|done]. split; [done|]. by intros y [= <-].
  - unfold WorkflowContent. destruct (_ || _) eqn:E; [by apply wpp_ret|].
    apply orb_false_iff in E as [[E%bad_repository_false Hw%negb_false_iff]%orb_false_iff _].
    apply wpp_bind, wpp_getJSON; [done|by apply good_workflow_suffix|]. intros [[[enc con] blob]|e]; apply wpp_ret; [|done].
    destruct (_ || _); [done|]. destruct (DecodeString _) as [x|]; [|done]. destruct (_ || _) eqn:El; [done|]. bsplit. split; [done|].
    intros y [= <-]. unfold len in *. lia.
  - unfold GetRun. destruct (_ || _) eqn:E; [by apply wpp_ret|]. apply orb_false_iff in E as [E%bad_repository_false Hi%Z.leb_gt].
    apply wpp_bind, wpp_getJSON; [done|by apply (good_id ["actions"; "runs"] id []); [|repeat constructor..]|].
    intros [x|e]; apply wpp_ret; [|done]. destruct (negb _ || negb _) eqn:El; [done|]. bsplit. split; [done|]. by intros y [= <-].
  - unfold GetJob. destruct (_ || _) eqn:E; [by apply wpp_ret|]. apply orb_false_iff in E as [E%bad_repository_false Hi%Z.leb_gt].
    apply wpp_bind, wpp_getJSON; [done|by apply (good_id ["actions"; "jobs"] id []); [|repeat constructor..]|].
    intros [x|e]; apply wpp_ret; [|done]. destruct (negb _ || _) eqn:El; [done|]. bsplit. split; [done|]. by intros y [= <-].
  - unfold GetRunner. destruct (_ || _) eqn:E; [by apply wpp_ret|]. apply orb_false_iff in E as [E%bad_repository_false Hi%Z.leb_gt].
    apply wpp_bind, wpp_getJSON; [done|by apply (good_id ["actions"; "runners"] id []); [|repeat constructor..]|].
    intros [x|e]; apply wpp_ret; [|by destruct (IsHTTPStatus e 404)]. destruct (negb _) eqn:El; [done|]. bsplit. split; [done|]. by intros y [= <-].
  - unfold ListJobs. destruct (_ || _) eqn:E; [by apply wpp_ret|]. apply orb_false_iff in E as [E%bad_repository_false Hi%Z.leb_gt].
    apply wpp_job_pages; [done|by apply (good_id ["actions"; "runs"] id ["jobs"]); [|repeat constructor..]].
  - unfold FindRunnerByLabel. destruct (_ || _) eqn:E; [by apply wpp_ret|]. apply orb_false_iff in E as [E%bad_repository_false _]. by apply wpp_runner_pages.
  - unfold RunnerLabelExists. destruct (_ || _) eqn:E; [by apply wpp_ret|]. apply orb_false_iff in E as [E%bad_repository_false _]. by apply wpp_label_pages.
Qed.
End reads.

(** * The GitHub client against a small server

    A server that answers with the path and query it was asked for, and codecs that know
    what is there. *)

Local Open Scope string_scope.
Local Open Scope list_scope.
Local Open Scope Z_scope.

Definition demo_label : string := "civm-jit-0123456789abcdef0123456789abcdef0123456789abcdef0123456789abcdef".
Definition demo_runner : RemoteRunner := mkRunner 7 "civm-jit-0123456789abcdef" "offline" false [mkLabel demo_label "custom"].
Definition demo_job : WorkflowJob := mkJob 3 5 "build" "queued" "" [] 0 "" 0.

(** The body is the query; the world is the last one. *)
Definition on_server B (e : httpE B) : St string B :=
  match e with
  | Do _ url _ _ => fun _ => (Ok (200, "A-1"), url_RawQuery url)
  | ReadAll _ => fun w => (Ok w, w)
  | CtxErr => fun w => (None, w)
  end.

Definition first_page {A} (items : list A) (body : string) : option (Z * list A) :=
  Some (Z.of_nat (length items),
        if String.eqb body "page=0&per_page=100" || String.eqb body "page=1&per_page=100" then items else []).

Definition demo_sha : string := "0123456789abcdef0123456789abcdef01234567".

Definition demo_codec : APICodec := {|
  decodeRepository _ := None; decodeRef _ := None;
  decodeContents _ := Some ("base64", "b246" +:+ String "010" "IHB1c2gK", demo_sha);
  decodeLabelPage := first_page [[demo_label]];
  decodeRunnerPage := first_page [demo_runner];
  decodeDispatched _ := None; decodeRun _ := None;
  decodeJobPage := first_page [demo_job];
  decodeJob _ := None; decodeRunner _ := None; decodeJIT _ := None;
  encodeDispatch _ _ := ""; encodeJIT _ _ _ _ := "";
|}.

Definition demo_client : GitHubClient := mkClient (mkURL "https" "api.github.com" false "" "" "") SupportedAPIVersion "ghp_0123456789abcdef".

Lemma demo_serves {A} operation endpoint (item : A) :
  serves on_server demo_client operation endpoint (first_page [item]) [item].
Proof.
  assert (Forall (fun page => interp on_server (getJSON demo_client operation endpoint (page_query (Z.of_nat page)) (first_page [item])) "" =
    (Ok (1, page_of [item] page), Encode (page_query (Z.of_nat page)))) (seq 1 100)) as HF by (repeat constructor).
  intros page w Hp. eexists. rewrite Forall_forall in HF. apply (HF page), elem_of_seq. lia.
Qed.

Lemma listings_are_complete_witness :
  fst (interp on_server (ListJobs demo_codec demo_client "acme/web" 5) "") = Ok [demo_job] /\
  fst (interp on_server (FindRunnerByLabel demo_codec demo_client "acme/web" demo_label) "") = Ok (Some demo_runner).
Proof.
  destruct (listings_are_complete on_server demo_codec demo_client "acme/web" demo_label 5 [demo_job] [demo_runner] [[demo_label]] ""
    eq_refl eq_refl ltac:(lia) (demo_serves _ _ demo_job) (demo_serves _ _ demo_runner) (demo_serves _ _ [demo_label]))
    as (Hj & Hr & _).
  split; [exact Hj|exact Hr].
Defined.

(** The file "on: push" with a line end, in two lines of base64. *)
Definition demo_file : list Z := [111; 110; 58; 32; 112; 117; 115; 104; 10].

Lemma workflow_is_read_back_witness :
  interp on_server (WorkflowContent demo_codec demo_client "acme/web" ".github/workflows/ci.yml" demo_sha) "" =
    (Ok ("on: push" +:+ String "010" ""), "ref=" +:+ demo_sha).
Proof.
  apply (workflow_is_read_back on_server demo_codec demo_client "acme/web" ".github/workflows/ci.yml" demo_sha
    ("b246" +:+ String "010" "IHB1c2gK") demo_sha demo_file "" ("ref=" +:+ demo_sha));
    try reflexivity; [by repeat constructor|vm_compute; split; [reflexivity|discriminate]].
Defined.

(** ** A ref that is not the one asked for *)

(** A component "." in the name of a branch passes the validation and is dropped from the
    path of the request: GitHub is asked for another branch. *)
Theorem dotted_ref_resolves_another c :
  validateRef "refs/heads/release/./v1" = None /\
  client_endpoint c (repoPath "acme/web" +:+ "/git/ref/" +:+ TrimPrefix "refs/heads/release/./v1" "refs/") [] =
  client_endpoint c (repoPath "acme/web" +:+ "/git/ref/" +:+ TrimPrefix "refs/heads/release/v1" "refs/") [].
Proof.
  split; [vm_compute; reflexivity|]. unfold client_endpoint. f_equal. unfold PathJoin. destruct (url_Path (gc_base c)) as [|a p]; [vm_compute; reflexivity|].
  cbn beta iota. set (q := String a p). unfold Clean. 
  assert (forall t, q +:+ "/" +:+ repoPath "acme/web" +:+ t = q +:+ String "/" (repoPath "acme/web" +:+ t)) as Eq by done. rewrite !Eq.
  assert (forall t, IsAbs (q +:+ String "/" t) = Ascii.eqb a "/") as Ea.
  { intros t. unfold IsAbs, HasPrefix, q. cbn. destruct (Ascii.ascii_dec "/" a) as [<-|Hne]; [by destruct p|]. by symmetry; apply Ascii.eqb_neq. }
  rewrite !Ea, !Split_concat, !clean_comps_app.
  set (C := reverse (clean_comps _ [] (Split "/" q))). generalize C as D. intros D.
  rewrite !(clean_comps_kept _ D) by (apply (bool_decide_unpack _); vm_compute; exact I).
  vm_compute (List.filter _ _). done.
Qed.
