(* ===== verification/JitSystem.v ===== *)
(** * civmctl jit-dispatch: the production wiring (cmd/civmctl/jitdispatch.go)

    The dispatcher with its real dependencies: the GitHub client over HTTP, the Guard gate
    and the containment over the system calls of the host, the queue.  [Sys] is the outside
    of the process: the requests sent so far, the lease and the queue lock behind their
    pointers, and the environment, which answers the single calls.  A [Machine] has one
    store per state directory; a run of the command works on the store that the
    configuration it loads names.  A call of the
    environment may answer that the process is killed there; running out of fuel counts
    as that too. *)

From S2P Require Import Prelude GoStrings Regex Prog Civm JitTypes JitConfig JitState JitRunner JitDispatcher JitGate JitHost JitGitHub.

Local Open Scope string_scope.
Local Open Scope list_scope.
Local Open Scope Z_scope.

Record Exchange := mkExchange { x_method : string; x_url : URL; x_body : option string }.

Record Sys (Y : Type) := mkSys {
  s_wire : list Exchange;
  s_lease : option execResourceLease;
  s_queue : option Z;
  s_env : Y;
}.
Arguments mkSys {Y}.
Arguments s_wire {Y}.
Arguments s_lease {Y}.
Arguments s_queue {Y}.
Arguments s_env {Y}.

(** A program, with its calls as operations on the outside. *)
Fixpoint run_op {E : Type -> Type} {X A} (h : forall B, E B -> op X B) (m : prog E A) : op X A := fun x =>
  match m with
  | Done a => (Some a, x)
  | Call e k => match h _ e x with
                | (Some b, x') => run_op h (k b) x'
                | (None, x') => (None, x')
                end
  end.

Definition map_op {X A B} (f : A -> option B) (o : op X A) : op X B := fun x =>
  let '(a, x') := o x in (match a with Some a => f a | None => None end, x').

(** The host between two steps of the command.  Per state directory: the ledgers and
    temporary files below it, and what the runs on it have done and have sent; besides, the
    lease, the queue lock and the environment. *)
Record Machine (Y : Type) := mkMachine {
  mc_stores : string -> World (list Exchange);
  mc_lease : option execResourceLease;
  mc_queue : option Z;
  mc_env : Y;
}.
Arguments mkMachine {Y}.
Arguments mc_stores {Y}.
Arguments mc_lease {Y}.
Arguments mc_queue {Y}.
Arguments mc_env {Y}.

(** What a dispatcher on the store of [dir] sees, and the host after it. *)
Definition store_world {Y} (dir : string) (k : Machine Y) : World (Sys Y) :=
  let s := mc_stores k dir in
  mkWorld (w_disk s) (w_temps s) (w_cur s) (w_log s) (mkSys (w_ext s) (mc_lease k) (mc_queue k) (mc_env k)).

Definition store_update {Y} (dir : string) (w : World (Sys Y)) (k : Machine Y) : Machine Y :=
  mkMachine (fun d => if String.eqb d dir then mkWorld (w_disk w) (w_temps w) (w_cur w) (w_log w) (s_wire (w_ext w))
                      else mc_stores k d)
    (s_lease (w_ext w)) (s_queue (w_ext w)) (s_env (w_ext w)).

Definition on_store {Y A} (dir : string) (m : M (World (Sys Y)) A) : M (Machine Y) A := fun k =>
  let '(r, w) := m (store_world dir k) in (r, store_update dir w k).

(** A call that touches no store. *)
Definition on_host {Y A} (o : op Y A) : M (Machine Y) A := fun k =>
  let '(a, y) := o (mc_env k) in
  (match a with Some a => Ret a | None => Crashed end, mkMachine (mc_stores k) (mc_lease k) (mc_queue k) y).

Section wiring.
Context {Ctx Y : Type}.
(** The environment: HTTP, the host, the pid of the started driver; [base] has contexts,
    clock, randomness, store and the pipes of the driver. *)
Context (net : forall B, httpE B -> op Y B) (host : forall B, hostE B -> op Y B) (Pid : op Y Z) (base : Deps Ctx Y).
Context (url_Parse : string -> option URL) (url_String : URL -> string) (json : APICodec).
Context (Unmarshal : string -> result LeaseMarker).
Context (euid : Z) (sha256 : string -> list Z) (fuel : nat).

Definition outside {A} (o : op Y A) : op (Sys Y) A := fun x =>
  let '(a, y) := o (s_env x) in (a, mkSys (s_wire x) (s_lease x) (s_queue x) y).

(** Every request is on the wire before it is answered. *)
Definition on_wire (B : Type) (e : httpE B) : op (Sys Y) B := fun x =>
  let wire := match e with Do method url _ body => s_wire x ++ [mkExchange method url body] | _ => s_wire x end in
  let '(b, y) := net B e (s_env x) in (b, mkSys wire (s_lease x) (s_queue x) y).

Definition http {A} (m : prog httpE A) : op (Sys Y) A := run_op on_wire m.
Definition sys {A} (m : prog hostE A) : op (Sys Y) A := run_op (fun B e => outside (host B e)) m.
Definition gate {A} (m : prog gateE A) : op (Sys Y) A := sys (link (gate_host euid sha256) m).

Definition failed {A} (o : op (Sys Y) (result A)) : op (Sys Y) err_ret :=
  map_op (fun r => Some (match r with Ok _ => None | Err e => Some e end)) o.

(** ** The lease behind the pointer *)

Definition keep_lease (lease : execResourceLease) (x : Sys Y) : Sys Y := mkSys (s_wire x) (Some lease) (s_queue x) (s_env x).

Definition sys_Acquire (g : ExecResourceGate) (config : Config) (guard leaseID : string) : op (Sys Y) err_ret := fun x =>
  match gate (ExecGate_Acquire Unmarshal fuel g guard leaseID (cfg_QueuePoll config) (cfg_ShutdownGrace config)) x with
  | (Some (Leased lease), x') => (Some None, keep_lease lease x')
  | (Some (LeaseErr e), x') => (Some (Some e), x')
  | (_, x') => (None, x')
  end.

(** [Release] and [Abandon] of the lease, which they change. *)
Definition on_lease (m : execResourceLease -> prog gateE (execResourceLease * err_ret)) (nil : err_ret) : op (Sys Y) err_ret := fun x =>
  match s_lease x with
  | None => (Some nil, x)
  | Some lease =>
      match gate (m lease) x with
      | (Some (lease', e), x') => (Some e, keep_lease lease' x')
      | (None, x') => (None, x')
      end
  end.

(** ** The queue *)

Definition sys_AcquireQueue (path : string) (poll : Z) : op (Sys Y) err_ret := fun x =>
  match sys (AcquireQueue euid fuel path poll) x with
  | (Some (Some (Ok fd)), x') => (Some None, mkSys (s_wire x') (s_lease x') (Some fd) (s_env x'))
  | (Some (Some (Err e)), x') => (Some (Some e), x')
  | (_, x') => (None, x')
  end.

Definition sys_CloseQueue : op (Sys Y) err_ret := fun x =>
  match sys (queue_Close (s_queue x)) x with
  | (Some (lock, e), x') => (Some e, mkSys (s_wire x') (s_lease x') lock (s_env x'))
  | (None, x') => (None, x')
  end.

(** ** The isolation driver *)

Definition containment : CgroupContainment := mkContainment "" None.

Definition sys_driver (config : Config) : DriverOps Ctx (Sys Y) :=
  let d := d_drv base in
  let grace := cfg_ShutdownGrace config in
  mkDriverOps Ctx (Sys Y)
    (fun path sha => failed (sys (openTrustedExecutable euid sha256 path sha)))
    (fun path => sys (validateTrustedDirectory euid "runner_directory" path))
    (fun path => outside (drv_LogDirectorySafe d path))
    (fun path create => outside (drv_OpenLog d path create))
    (outside (drv_Pipe d))
    (fun leaseID => failed (sys (Prepare containment leaseID)))
    (outside (drv_StdinPipe d))
    (outside (drv_Start d))
    (outside (drv_PrepareClose d))
    (fun leaseID x => match outside Pid x with
                      | (Some pid, x') => sys (Attach containment pid leaseID) x'
                      | (None, x') => (None, x')
                      end)
    (fun leaseID process => map_op id (sys (containment_Recover fuel containment leaseID process grace)))
    (fun process => map_op id (sys (containment_Terminate fuel process grace)))
    (outside (drv_WaitTimeout d))
    (fun force => outside (drv_SignalGroup d force))
    (fun ctx => outside (drv_ReadReceipt d ctx))
    (fun data => outside (drv_WriteInput d data))
    (outside (drv_CloseInput d))
    (fun ctx => outside (drv_WaitOrDone d ctx))
    (outside (drv_Flush d)).

Definition sys_store : StoreIO (Sys Y) :=
  let io := d_io base in
  mkStoreIO (Sys Y) (io_Marshal io) (outside (io_CreateTemp io)) (outside (io_Chmod io)) (outside (io_Write io))
    (outside (io_Sync io)) (outside (io_Close io)) (outside (io_Rename io)) (outside (io_SyncDir io))
    (outside (io_RemoveTemp io)) (outside (io_ReadDir io)) (fun id => outside (io_ReadFile io id)) (fun id => outside (io_LogDir io id)).

(** ** The dispatcher's dependencies *)

(** [NewDispatcher] with the dependencies of [runJITDispatchWithIO]. *)
Definition production (config : Config) (c : GitHubClient) (g : ExecResourceGate) : Deps Ctx (Sys Y) :=
  mkDeps Ctx (Sys Y) (ctx_Background base) (fun ctx d => outside (ctx_WithTimeout base ctx d)) (fun ctx => outside (ctx_Err base ctx))
    (outside (d_Now base)) (fun ctx d => outside (d_Sleep base ctx d))
    (fun _ repository => http (DefaultBranch json c repository))
    (fun _ repository ref => http (ResolveRef json c repository ref))
    (fun _ repository workflow sha => http (WorkflowContent json c repository workflow sha))
    (fun _ repository label => http (RunnerLabelExists json c repository label))
    (fun _ repository workflow ref inputs => http (DispatchWorkflow url_Parse url_String json c repository workflow ref inputs))
    (fun _ repository id => http (GetRun json c repository id))
    (fun _ repository id => http (ListJobs json c repository id))
    (fun _ repository id => http (GetJob json c repository id))
    (fun _ repository identity group => http (GenerateJIT json c repository identity group))
    (fun _ repository label => http (FindRunnerByLabel json c repository label))
    (fun _ repository id => http (GetRunner json c repository id))
    (fun _ repository id => http (DeleteRunner c repository id))
    (fun _ repository id => http (CancelRun c repository id))
    (fun guard => gate (ExecGate_Preflight g guard))
    (fun _ guard leaseID => sys_Acquire g config guard leaseID)
    (fun _ _ => on_lease (lease_Release Unmarshal) (Some (Errorf "guard resource lease is not active")))
    (fun _ => on_lease lease_Abandon None)
    (gate (ExecGate_Orphan Unmarshal g))
    (fun _ marker => gate (ExecGate_ReleaseOrphan Unmarshal fuel g marker (cfg_ShutdownGrace config)))
    (outside (d_Random base))
    (fun _ path poll => sys_AcquireQueue path poll) sys_CloseQueue sys_store (sys_driver config).

(** ** The command *)

Definition exitUsage : Z := 64.
Definition exitJITFailure : Z := 1.
Definition exitJITAmbiguous : Z := 2.
Definition exitJITBusy : Z := 75.

Definition jitDispatchExit (err : error) : Z :=
  if errors_Is err ErrInvalid then exitUsage
  else if errors_Is err ErrBusy then exitJITBusy
  else if errors_Is err ErrAmbiguous || errors_Is err ErrStale || errors_Is err ErrReplay then exitJITAmbiguous
  else exitJITFailure.

(** The five flags, when the command line is well formed. *)
Record JITFlags := mkJITFlags { jf_config : string; jf_repository : string; jf_ref : string; jf_sha : string; jf_key : string }.

Context `{SortSlice} (driverInput : string -> list Z -> list Z).
Context (decode : string -> result rawConfig) (ParseDuration : string -> option Z).
(** The bytes of the standard input, and [os.Executable]; [Encode]: writing the result. *)
Context (Stdin : op Y (result (list Z))) (Executable : op Y (result string)) (Encode : Result -> op Y err_ret).

Definition runJITDispatchWithIO (ctx : Ctx) (flags : option JITFlags) : M (Machine Y) Z :=
  match flags with None => mret exitUsage | Some f =>
  if String.eqb (jf_config f) "" || String.eqb (jf_repository f) "" || String.eqb (jf_ref f) "" || String.eqb (jf_sha f) "" ||
     String.eqb (jf_key f) "" then mret exitUsage else
  loaded ← on_host (run_op host (LoadConfig euid decode url_Parse ParseDuration (jf_config f)));
  match loaded with Err _ => mret exitUsage | Ok config =>
  let request := mkRequest (jf_repository f) (jf_ref f) (jf_sha f) (jf_key f) in
  match Policy config (rq_Repository request) with None => mret exitUsage | Some policy =>
  match ValidateRequest request policy with Some _ => mret exitUsage | None =>
  opened ← on_host (run_op host (OpenStore euid (cfg_StateDir config)));
  match opened with Err _ => mret exitUsage | Ok _ =>
  data ← on_host Stdin;
  match (match data with Err e => Err e | Ok data => ReadToken data end) with Err _ => mret exitUsage | Ok token =>
  match NewGitHubClient url_Parse (cfg_APIBaseURL config) (cfg_APIVersion config) (byte_string token) with
  | Err _ => mret exitUsage
  | Ok c =>
  self ← on_host Executable;
  match self with Err _ => mret exitJITFailure | Ok self =>
  r ← on_store (cfg_StateDir config)
        (Dispatch config (production config c (mkGate self LeaseMarkerPath false)) fuel sha256 driverInput ctx request);
  let '(result, dispatchErr) := r in
  written ← on_host (Encode result);
  mret (match written with
        | Some _ => exitJITFailure
        | None => match dispatchErr with None => 0 | Some e => jitDispatchExit e end
        end)
  end end end end end end end end.
End wiring.

(** The child of the gate: [civmctl __jit-lease-hold].  [None]: it never exits by itself. *)
Definition runJITLeaseHold (Marshal : LeaseMarker -> result string) (Unmarshal : string -> result LeaseMarker) (pid : Z)
    (flags : option (string * string)) : prog gateE (option Z) :=
  match flags with
  | None => mret (Some exitUsage)
  | Some (leaseID, admissionID) =>
      if String.eqb leaseID "" || String.eqb admissionID "" then mret (Some exitUsage)
      else
        r ← RunLeaseHolder Marshal Unmarshal pid leaseID admissionID LeaseMarkerPath;
        mret (match r with
              | HolderReturned (Some _) => Some exitJITFailure
              | HolderReturned None => Some 0
              | HolderBlocks => None
              end)
  end.
