(* ===== verification/JitWire.v ===== *)
(** * What the dispatcher changes on GitHub

    The interface between the dispatcher and its dependencies, as far as the wire is
    concerned: four operations may send one request that changes something, each right
    after the dispatcher has recorded the event it belongs to, and every other operation
    sends none.  Any dispatcher over such dependencies has a wire that its log explains. *)

From S2P Require Import Prelude GoStrings Regex Prog Civm JitTypes JitConfig JitState JitRunner JitDispatcher JitInvariants JitSafety JitGate JitHost JitGitHub JitSystem.

Local Open Scope string_scope.
Local Open Scope list_scope.
Local Open Scope Z_scope.

(** The requests that may change something. *)
Definition changes (wire : list Exchange) : list Exchange := List.filter (fun x => negb (String.eqb (x_method x) "GET")) wire.

Lemma changes_app w1 w2 : changes (w1 ++ w2) = changes w1 ++ changes w2.
Proof. apply List.filter_app. Qed.

Section laws.
Context {Ctx Y : Type}.
Implicit Types x : Sys Y.

Definition silent {A} (o : op (Sys Y) A) : Prop := forall x, changes (s_wire (snd (o x))) = changes (s_wire x).

(** At most one change, of this kind. *)
Definition sends {A} (P : Exchange -> Prop) (o : op (Sys Y) A) : Prop := forall x,
  changes (s_wire (snd (o x))) = changes (s_wire x) \/
  exists c, P c /\ changes (s_wire (snd (o x))) = changes (s_wire x) ++ [c].

Context (json : APICodec) (clients : GitHubClient -> Prop).

Definition dispatch_request (repository workflow : string) (inputs : list (string * string)) (e : Exchange) : Prop :=
  exists c branch, clients c /\
    e = mkExchange "POST" (client_endpoint c (repoPath repository +:+ "/actions/workflows/" +:+ Base workflow +:+ "/dispatches") [])
          (Some (encodeDispatch json branch inputs)).

Definition jit_request (repository : string) (i : Identity) (e : Exchange) : Prop :=
  exists c group, clients c /\
    e = mkExchange "POST" (client_endpoint c (repoPath repository +:+ "/actions/runners/generate-jitconfig") [])
          (Some (encodeJIT json (id_RunnerName i) group [id_Label i] (id_WorkFolder i))).

Definition cancel_request (repository : string) (run : Z) (e : Exchange) : Prop :=
  exists c, clients c /\
    e = mkExchange "POST" (client_endpoint c (repoPath repository +:+ "/actions/runs/" +:+ Itoa run +:+ "/cancel") []) None.

Definition delete_request (repository : string) (runner : Z) (e : Exchange) : Prop :=
  exists c, clients c /\ e = mkExchange "DELETE" (client_endpoint c (repoPath repository +:+ "/actions/runners/" +:+ Itoa runner) []) None.

(** What the dispatcher relies on. *)
Class Wired (deps : Deps Ctx (Sys Y)) : Prop := {
  w_Dispatch ctx repository workflow ref inputs :
    sends (dispatch_request repository workflow inputs) (gh_DispatchWorkflow deps ctx repository workflow ref inputs);
  w_GenerateJIT ctx repository i group : sends (jit_request repository i) (gh_GenerateJIT deps ctx repository i group);
  w_CancelRun ctx repository run : sends (cancel_request repository run) (gh_CancelRun deps ctx repository run);
  w_DeleteRunner ctx repository runner : sends (delete_request repository runner) (gh_DeleteRunner deps ctx repository runner);
  w_WithTimeout ctx d : silent (ctx_WithTimeout deps ctx d);
  w_CtxErr ctx : silent (ctx_Err deps ctx);
  w_Now : silent (d_Now deps);
  w_Sleep ctx d : silent (d_Sleep deps ctx d);
  w_DefaultBranch ctx r : silent (gh_DefaultBranch deps ctx r);
  w_ResolveRef ctx r ref : silent (gh_ResolveRef deps ctx r ref);
  w_WorkflowContent ctx r w s : silent (gh_WorkflowContent deps ctx r w s);
  w_RunnerLabelExists ctx r l : silent (gh_RunnerLabelExists deps ctx r l);
  w_GetRun ctx r i : silent (gh_GetRun deps ctx r i);
  w_ListJobs ctx r i : silent (gh_ListJobs deps ctx r i);
  w_GetJob ctx r i : silent (gh_GetJob deps ctx r i);
  w_FindRunnerByLabel ctx r l : silent (gh_FindRunnerByLabel deps ctx r l);
  w_GetRunner ctx r i : silent (gh_GetRunner deps ctx r i);
  w_gate_Preflight p : silent (gate_Preflight deps p);
  w_gate_Acquire ctx p l : silent (gate_Acquire deps ctx p l);
  w_gate_Release ctx l : silent (gate_Release deps ctx l);
  w_gate_Abandon l : silent (gate_Abandon deps l);
  w_gate_Orphan : silent (gate_Orphan deps);
  w_gate_ReleaseOrphan ctx m : silent (gate_ReleaseOrphan deps ctx m);
  w_Random : silent (d_Random deps);
  w_AcquireQueue ctx p d : silent (d_AcquireQueue deps ctx p d);
  w_CloseQueue : silent (d_CloseQueue deps);
  w_CreateTemp : silent (io_CreateTemp (d_io deps));
  w_TempSteps : Forall silent [io_Chmod (d_io deps); io_Write (d_io deps); io_Sync (d_io deps); io_Close (d_io deps); io_Rename (d_io deps)];
  w_SyncDir : silent (io_SyncDir (d_io deps));
  w_RemoveTemp : silent (io_RemoveTemp (d_io deps));
  w_ReadDir : silent (io_ReadDir (d_io deps));
  w_ReadFile i : silent (io_ReadFile (d_io deps) i);
  w_LogDir i : silent (io_LogDir (d_io deps) i);
  w_TrustedExecutable p s : silent (drv_TrustedExecutable (d_drv deps) p s);
  w_TrustedDirectory p : silent (drv_TrustedDirectory (d_drv deps) p);
  w_LogDirectorySafe p : silent (drv_LogDirectorySafe (d_drv deps) p);
  w_OpenLog p b : silent (drv_OpenLog (d_drv deps) p b);
  w_Pipe : silent (drv_Pipe (d_drv deps));
  w_Prepare l : silent (drv_Prepare (d_drv deps) l);
  w_StdinPipe : silent (drv_StdinPipe (d_drv deps));
  w_Start : silent (drv_Start (d_drv deps));
  w_PrepareClose : silent (drv_PrepareClose (d_drv deps));
  w_Attach l : silent (drv_Attach (d_drv deps) l);
  w_ContainmentRecover l p : silent (drv_ContainmentRecover (d_drv deps) l p);
  w_Terminate p : silent (drv_Terminate (d_drv deps) p);
  w_WaitTimeout : silent (drv_WaitTimeout (d_drv deps));
  w_SignalGroup b : silent (drv_SignalGroup (d_drv deps) b);
  w_ReadReceipt ctx : silent (drv_ReadReceipt (d_drv deps) ctx);
  w_WriteInput d : silent (drv_WriteInput (d_drv deps) d);
  w_CloseInput : silent (drv_CloseInput (d_drv deps));
  w_WaitOrDone ctx : silent (drv_WaitOrDone (d_drv deps) ctx);
  w_Flush : silent (drv_Flush (d_drv deps));
}.

(** ** The wire and the log *)

(** The request an event announces. *)
Definition causes (e : event) (x : Exchange) : Prop :=
  match e with
  | EvDispatch id nonce durable =>
      exists l, durable = Some l /\ lg_RequestID l = id /\ lg_Nonce l = nonce /\
        dispatch_request (lg_Repository l) (lg_Workflow l)
          [("candidate_sha", lg_CandidateSHA l); ("candidate_ref", lg_CandidateRef l); ("dispatch_nonce", nonce); ("runner_label", lg_RunnerLabel l)] x
  | EvGenerateJIT id durable => exists l, durable = Some l /\ lg_RequestID l = id /\ jit_request (lg_Repository l) (ledger_identity l) x
  | EvCancelRun l _ => cancel_request (lg_Repository l) (lg_RunID l) x
  | EvDeleteRunner l _ => delete_request (lg_Repository l) (lg_RunnerID l) x
  | _ => False
  end.

(** Each change was announced by an event of its own, in order. *)
Definition explained (log : list event) (wire : list Exchange) : Prop :=
  exists evs, evs `sublist_of` log /\ Forall2 causes evs (changes wire).

Lemma explained_event log wire e : explained log wire -> explained (log ++ [e]) wire.
Proof. intros (evs & Hs & Hf). exists evs. split; [|done]. by apply sublist_inserts_r. Qed.

Lemma explained_silent log wire wire' : explained log wire -> changes wire' = changes wire -> explained log wire'.
Proof. intros (evs & Hs & Hf) E. exists evs. by rewrite E. Qed.

Lemma explained_change log wire wire' e (x : Exchange) :
  explained log wire -> causes e x -> changes wire' = changes wire ++ [x] -> explained (log ++ [e]) wire'.
Proof.
  intros (evs & Hs & Hf) Hc E. exists (evs ++ [e]). split; [by apply sublist_app|].
  rewrite E. apply Forall2_app; [done|]. by constructor.
Qed.
End laws.

(** ** The dispatcher *)

Section dispatcher.
Context {Ctx Y : Type} `{SortSlice} (json : APICodec) (clients : GitHubClient -> Prop).
Context (config : Config) (deps : Deps Ctx (Sys Y)) {HW : Wired json clients deps} (fuel : nat).
Context (sha256 : string -> list Z) (driverInput : string -> list Z -> list Z).

Abbreviation W := (World (Sys Y)).

(** What a ledger says about the requests made for it. *)
Definition target (l : Ledger) :=
  (lg_RequestID l, lg_Repository l, lg_Workflow l, (lg_CandidateSHA l, lg_CandidateRef l), ledger_identity l).

Definition wire_ok (w : W) : Prop := explained json clients (w_log w) (s_wire (w_ext w)).
Definition wire_of t (w : W) : Prop := wire_ok w /\ target (w_cur w) = t.

Ltac silent_step :=
  first [ eapply w_WithTimeout | eapply w_CtxErr | eapply w_Now | eapply w_Sleep
        | eapply w_DefaultBranch | eapply w_ResolveRef | eapply w_WorkflowContent | eapply w_RunnerLabelExists
        | eapply w_GetRun | eapply w_ListJobs | eapply w_GetJob | eapply w_FindRunnerByLabel
        | eapply w_GetRunner | eapply w_gate_Preflight | eapply w_gate_Acquire | eapply w_gate_Release
        | eapply w_gate_Abandon | eapply w_gate_Orphan | eapply w_gate_ReleaseOrphan | eapply w_Random
        | eapply w_AcquireQueue | eapply w_CloseQueue | eapply w_CreateTemp | eapply w_SyncDir
        | eapply w_RemoveTemp | eapply w_ReadDir | eapply w_ReadFile | eapply w_LogDir
        | eapply w_TrustedExecutable | eapply w_TrustedDirectory | eapply w_LogDirectorySafe | eapply w_OpenLog
        | eapply w_Pipe | eapply w_Prepare | eapply w_StdinPipe | eapply w_Start
        | eapply w_PrepareClose | eapply w_Attach | eapply w_ContainmentRecover | eapply w_Terminate
        | eapply w_WaitTimeout | eapply w_SignalGroup | eapply w_ReadReceipt | eapply w_WriteInput
        | eapply w_CloseInput | eapply w_WaitOrDone | eapply w_Flush ]; exact HW.

Section kept.
Context (t : string * string * string * (string * string) * Identity).
Abbreviation I := (wire_of t).

Lemma wire_lift {A} (o : op (Sys Y) A) : silent o -> keeps I (lift o).
Proof.
  intros Ho w [Hw Ht]. unfold wp, lift. pose proof (Ho (w_ext w)) as E. destruct (o (w_ext w)) as [a x].
  assert (I (mkWorld (w_disk w) (w_temps w) (w_cur w) (w_log w) x)) as Hx by (split; [by eapply explained_silent|done]).
  by destruct a.
Qed.

Lemma wire_cur : keeps I cur.
Proof. by intros w Hw. Qed.

Lemma wire_assign f : (forall l, target (f l) = target l) -> keeps I (assign f).
Proof. intros Hf w [Hw Ht]. apply wp_modify. split; [done|]. cbn. by rewrite Hf. Qed.

Lemma wire_emit e : keeps I (emit e).
Proof. intros w [Hw Ht]. apply wp_modify. split; [by apply explained_event|done]. Qed.

Lemma wire_modify f : (forall w, w_log (f w) = w_log w) -> (forall w, w_ext (f w) = w_ext w) -> (forall w, w_cur (f w) = w_cur w) ->
  keeps I (modify f).
Proof. intros H1 H2 H3 w [Hw Ht]. apply wp_modify. unfold wire_of, wire_ok in *. by rewrite H1, H2, H3. Qed.

(** A change right after its event. *)
Lemma wire_change {A B} e (P : Exchange -> Prop) (o : op (Sys Y) A) (k : A -> M W B) w :
  sends P o -> (forall x, P x -> causes json clients e x) -> (forall a, keeps I (k a)) -> I w ->
  wp (emit e;; r ← lift o; k r) (fun _ => I) I w.
Proof.
  intros Ho HP Hk [Hw Ht]. apply wp_bind, wp_modify, wp_bind.
  unfold wp at 1, lift. pose proof (Ho (w_ext w)) as E. cbn [with_event w_ext w_disk w_temps w_cur w_log].
  destruct (o (w_ext w)) as [a x]. cbn in E.
  assert (I (mkWorld (w_disk w) (w_temps w) (w_cur w) (w_log w ++ [e]) x)) as Hx.
  { split; [|done]. destruct E as [E|(c & Hc & E)].
    - eapply explained_silent; [|exact E]. by apply explained_event.
    - eapply explained_change; [done|by apply HP|exact E]. }
  destruct a as [a|]; [by apply Hk|done].
Qed.

Lemma wire_change_last {A} e (P : Exchange -> Prop) (o : op (Sys Y) A) :
  sends P o -> (forall x, P x -> causes json clients e x) -> keeps I (emit e;; lift o).
Proof.
  intros Ho HP w Hw. apply wp_bind, wp_modify.
  assert (wp (emit e;; r ← lift o; mret r) (fun _ => I) I w) as Hc by (by eapply wire_change; [..|intros a; apply keeps_ret|]).
  revert Hc. unfold emit, modify, mbind, M_bind, wp. cbn. destruct (lift o (with_event e w)) as [[a| |] w']; done.
Qed.

#[local] Hint Resolve wire_cur wire_emit : civm.
#[local] Hint Extern 1 (keeps _ (lift _)) => (apply wire_lift; silent_step) : civm.
#[local] Hint Extern 1 (keeps _ (assign _)) => (apply wire_assign; done) : civm.
#[local] Hint Extern 1 (keeps _ (modify (with_temps _))) => (apply wire_modify; done) : civm.

Ltac keep := repeat first [ solve [auto with civm] | keep_step ].

(** *** Runner *)

Lemma wire_stopAndWait p : keeps I (stopAndWait (d_drv deps) p).
Proof. unfold stopAndWait, waitForExitOrKill, waitForExit. keep. Qed.
Lemma wire_stopUnidentified l : keeps I (stopUnidentifiedAndWait (d_drv deps) l).
Proof. unfold stopUnidentifiedAndWait, waitForExit. keep. Qed.
#[local] Hint Resolve wire_stopAndWait wire_stopUnidentified : civm.

Lemma wire_exec_finish ctx rq p rs : keeps I (exec_finish (d_drv deps) ctx rq p rs).
Proof. unfold exec_finish. keep. Qed.
#[local] Hint Resolve wire_exec_finish : civm.

Lemma wire_abort_started rs p e : keeps I (abort_started (d_drv deps) rs p e).
Proof. unfold abort_started. keep. Qed.
#[local] Hint Resolve wire_abort_started : civm.

Lemma wire_call_opt {A} (cb : option (A -> M W err_ret)) a : keeps_cb I cb -> keeps I (call_opt cb a).
Proof. unfold call_opt. destruct cb; intros Hcb; [by apply Hcb|keep]. Qed.

Lemma wire_execDriver ctx rq : keeps_cb I (ex_OnStarted rq) -> keeps_cb I (ex_OnReady rq) -> keeps I (execDriver (d_drv deps) ctx rq).
Proof. intros Hs Hr. unfold execDriver, exec_protocol. keep; by apply wire_call_opt. Qed.

Lemma wire_Recover ctx rq : keeps I (Recover (d_drv deps) ctx rq).
Proof. unfold Recover. keep. by apply wire_execDriver. Qed.
#[local] Hint Resolve wire_Recover : civm.

Lemma wire_Run ctx rq : (forall p, keeps I (rreq_OnStarted rq p)) -> (forall r, keeps I (rreq_OnReady rq r)) -> keeps I (Run (d_drv deps) driverInput ctx rq).
Proof.
  intros Hs Hr. unfold Run, validateRunnerRequest, runDriver. keep. apply wire_execDriver; intros ? ? [= <-]; auto.
Qed.

(** *** Store *)

Lemma wire_temp_steps steps : Forall silent steps -> keeps I (temp_steps steps).
Proof. induction 1 as [|s steps Hs _ IH]; cbn [temp_steps]; keep. by apply wire_lift. Qed.

Lemma wire_save_cur : keeps I (save_cur deps).
Proof.
  unfold save_cur. keep_step; [keep|]. unfold Save. keep.
  - apply wire_temp_steps; eapply w_TempSteps; exact HW.
  - unfold remove_temp. keep.
  - intros w [Hw Ht]. apply wp_modify. split; [|done]. by apply explained_event.
Qed.
#[local] Hint Resolve wire_save_cur : civm.

Lemma wire_Load id : keeps I (Load (d_io deps) id).
Proof. unfold Load. keep. Qed.
#[local] Hint Resolve wire_Load : civm.

Lemma wire_List : keeps I (List (d_io deps)).
Proof.
  unfold List. keep. match goal with |- keeps _ (load_all _ ?l) => induction l as [|id ids IH] end; cbn [load_all]; keep.
Qed.

Lemma wire_RequestLogDir id : keeps I (RequestLogDir (d_io deps) id).
Proof. unfold RequestLogDir. keep. Qed.
#[local] Hint Resolve wire_RequestLogDir : civm.

(** *** Dispatcher *)

Lemma wire_touch : keeps I (touch deps).
Proof. unfold touch. keep. Qed.
#[local] Hint Resolve wire_touch : civm.

Lemma wire_transition s c : keeps I (transition deps s c).
Proof. unfold transition. keep. Qed.

Lemma wire_return_with e : keeps I (return_with e).
Proof. unfold return_with, current_result. keep. Qed.

Lemma wire_mark_complete : keeps I mark_complete.
Proof. unfold mark_complete. keep. Qed.

Lemma wire_poll_again ctx : keeps I (poll_again config deps ctx).
Proof. unfold poll_again. keep. Qed.
#[local] Hint Resolve wire_transition wire_return_with wire_mark_complete wire_poll_again : civm.

Lemma wire_waitForRun ctx repo policy i : keeps I (waitForRun config deps fuel ctx repo policy i).
Proof. unfold waitForRun. keep_step; [keep|]. induction fuel as [|n IH]; cbn [wait_run_loop]; keep. Qed.

Lemma wire_waitForJob ctx repo policy runID label : keeps I (waitForJob config deps fuel ctx repo policy runID label).
Proof. unfold waitForJob. keep_step; [keep|]. induction fuel as [|n IH]; cbn [wait_job_loop]; keep. Qed.

Lemma wire_waitForCompletion ctx repo policy i : keeps I (waitForCompletion config deps fuel ctx repo policy i).
Proof. unfold waitForCompletion. induction fuel as [|n IH]; cbn [completion_loop]; keep. Qed.

Lemma wire_terminal_loop ctx policy i n : keeps I (terminal_loop config deps n ctx policy i).
Proof. induction n as [|n IH]; cbn [terminal_loop]; keep. Qed.
#[local] Hint Resolve wire_waitForRun wire_waitForJob wire_waitForCompletion wire_terminal_loop : civm.

Lemma wire_cancel ctx l run : keeps I (emit (EvCancelRun l run);; lift (gh_CancelRun deps ctx (lg_Repository l) (lg_RunID l))).
Proof. eapply wire_change_last; [eapply w_CancelRun; exact HW|done]. Qed.

Lemma wire_delete ctx l runner : keeps I (emit (EvDeleteRunner l runner);; lift (gh_DeleteRunner deps ctx (lg_Repository l) (lg_RunnerID l))).
Proof. eapply wire_change_last; [eapply w_DeleteRunner; exact HW|done]. Qed.
#[local] Hint Resolve wire_cancel wire_delete : civm.

Lemma wire_cancelAndWaitTerminal ctx policy i : keeps I (cancelAndWaitTerminal config deps fuel ctx policy i).
Proof. unfold cancelAndWaitTerminal. keep. Qed.

Lemma wire_gone_loop ctx n d : keeps I (gone_loop config deps n ctx d).
Proof. revert d. induction n as [|n IH]; intros d; cbn [gone_loop]; keep. Qed.

Lemma wire_observe_loop ctx c n : keeps I (observe_loop config deps n ctx c).
Proof. induction n as [|n IH]; cbn [observe_loop]; unfold observe_error; keep. Qed.
#[local] Hint Resolve wire_cancelAndWaitTerminal wire_gone_loop wire_observe_loop : civm.

Lemma wire_ensureRunnerGone ctx : keeps I (ensureRunnerGone config deps fuel ctx).
Proof. unfold ensureRunnerGone. keep. Qed.
#[local] Hint Resolve wire_ensureRunnerGone : civm.

Lemma wire_cleanupLedger ctx : keeps I (cleanupLedger config deps fuel ctx).
Proof.
  unfold cleanupLedger, cleanup_isolation, cleanup_run, cleanup_runner. keep.
  apply wire_assign. intros l. by destruct (String.eqb (lg_IsolationID l) "").
Qed.
#[local] Hint Resolve wire_cleanupLedger : civm.

Lemma wire_finishError code cause : keeps I (finishError config deps fuel code cause).
Proof. unfold finishError. keep. Qed.

Lemma wire_finishWithoutLease code cause : keeps I (finishWithoutLease deps code cause).
Proof. unfold finishWithoutLease. keep. Qed.
#[local] Hint Resolve wire_finishError wire_finishWithoutLease : civm.

Lemma wire_run ctx request policy i secret : keeps I (run config deps fuel driverInput ctx request policy i secret).
Proof.
  unfold run, run_observe, run_settle. keep. apply wire_Run; intros; cbn; unfold OnStarted, OnReady; keep.
Qed.
#[local] Hint Resolve wire_run : civm.

Lemma wire_recover_ledger ctx : keeps I (recover_ledger config deps fuel ctx).
Proof. unfold recover_ledger. keep. Qed.

Lemma wire_acquire_lease ctx : keeps I (acquire_lease config deps ctx).
Proof. unfold acquire_lease. keep. Qed.

Lemma wire_release_lease ctx : keeps I (release_lease config deps ctx).
Proof. unfold release_lease. keep. Qed.

Lemma wire_abandon_lease : keeps I (abandon_lease deps).
Proof. unfold abandon_lease. keep. Qed.

Lemma wire_releaseOrphan ctx o : keeps I (releaseOrphan config deps ctx o).
Proof. unfold releaseOrphan. keep. Qed.

(** *** The two intents *)

Context (request : Request) (policy : RepositoryPolicy) (identity : Identity) (id : string).
Context (Ht : t = (id, rq_Repository request, pol_Workflow policy, (rq_CandidateSHA request, rq_CandidateRef request), identity)).

Lemma wire_register ctx w :
  I w -> durable w -> wp (register_and_run config deps fuel driverInput ctx request policy identity) (fun _ => I) I w.
Proof.
  intros Hw [Hd _]. unfold register_and_run. apply wp_bind, wp_get. rewrite Hd.
  eapply wire_change; [eapply w_GenerateJIT; exact HW| | |done].
  - intros x Hx. exists (w_cur w). split_and!; [done|done|]. destruct Hw as [_ Hc]. rewrite Ht in Hc. unfold target in Hc.
    injection Hc as _ Hr _ _ _ Hi. by rewrite Hr, Hi.
  - intros r. keep.
Qed.

Lemma wire_jit_intent ctx :
  keeps I (assign (set_RunnerGone false);;
           saved ← save_cur deps;
           match saved with
           | Some _ => finishError config deps fuel "state_before_jit" (Errorf_s ErrAmbiguous "persist JIT intent")
           | None => register_and_run config deps fuel driverInput ctx request policy identity
           end).
Proof.
  intros w [Hw Hc]. apply wp_bind, wp_modify, wp_bind.
  eapply (wp_and_keeps I); [apply wire_save_cur|by split|apply wp_save_cur| |by auto].
  intros [e|] w' Hw' [_ Hd]; [to_keeps; keep|]. apply wire_register; [done|by apply Hd].
Qed.
#[local] Hint Resolve wire_jit_intent : civm.

Lemma wire_bindAndRun ctx : keeps I (bindAndRun config deps fuel driverInput ctx request policy identity).
Proof. unfold bindAndRun. keep. Qed.

Lemma wire_dispatchPrepared ctx : keeps I (dispatchPrepared config deps fuel driverInput ctx request policy identity).
Proof.
  intros w Hw. unfold dispatchPrepared. apply wp_bind, wp_modify, wp_bind.
  eapply (wp_and_keeps I); [apply wire_transition| |apply wp_transition| |by auto].
  { destruct Hw. by split. }
  intros [e|] w1 H1 [_ Hd]; [to_keeps; keep|]. destruct (Hd eq_refl) as [Hdisk _]. apply wp_bind, wp_get. rewrite Hdisk.
  eapply wire_change; [eapply w_Dispatch; exact HW| | |done].
  - intros x Hx. exists (w_cur w1). destruct H1 as [_ Hc]. rewrite Ht in Hc. unfold target in Hc.
    injection Hc as _ Hr Hwf Hs Hf Hi. rewrite Hr, Hwf, Hs, Hf. rewrite <- Hi in Hx |- *. cbn [ledger_identity id_Nonce id_Label] in Hx |- *. by split_and!.
  - intros r. keep. apply wire_bindAndRun.
Qed.
End kept.

(** *** Admission *)

Lemma wire_forget {A} (m : M W A) : (forall t, keeps (wire_of t) m) -> keeps wire_ok m.
Proof.
  intros Hm w Hw. eapply wp_mono; [by apply (Hm (target (w_cur w)) w); split|by intros a w' []|by intros w' []].
Qed.

Lemma wire_plain {A} (o : op (Sys Y) A) : silent o -> keeps wire_ok (lift o).
Proof. intros Ho. apply wire_forget. intros t. by apply wire_lift. Qed.

Lemma wire_point f : keeps wire_ok (assign f).
Proof. intros w Hw. by apply wp_modify. Qed.

Lemma wire_dispatch_with_lease t ctx request policy identity id :
  t = (id, rq_Repository request, pol_Workflow policy, (rq_CandidateSHA request, rq_CandidateRef request), identity) ->
  keeps (wire_of t) (dispatch_with_lease config deps fuel driverInput ctx request policy identity).
Proof.
  intros Ht. unfold dispatch_with_lease. keep_step; [by eapply wire_dispatchPrepared|]. keep_step.
  keep_step; [apply wire_cur|]. keep_step.
  - keep_step; [apply wire_release_lease|]. keep_step; [|apply keeps_ret].
    keep_step; [by apply wire_assign|]. keep_step; [apply wire_transition|]. apply wire_return_with.
  - keep_step; [apply wire_abandon_lease|]. apply keeps_ret.
Qed.

Lemma wire_admit_request ctx request policy requestID trustedSHA identity w :
  wire_ok w -> wp (admit_request config deps fuel driverInput ctx request policy requestID trustedSHA identity) (fun _ => wire_ok) wire_ok w.
Proof.
  intros Hw. unfold admit_request. eapply keeps_bind; [apply wire_plain; eapply w_Now; exact HW| |done]. intros now. clear w Hw. intros w Hw.
  apply wp_bind, wp_modify.
  set (t := (requestID, rq_Repository request, pol_Workflow policy, (rq_CandidateSHA request, rq_CandidateRef request),
             mkIdentity (id_Nonce identity) (id_Label identity) (id_RunnerName identity) (id_WorkFolder identity))).
  assert (wire_of t (with_cur (fun _ => newLedger now requestID request policy trustedSHA identity) w)) as Ht by (by split).
  revert Ht. generalize (with_cur (fun _ => newLedger now requestID request policy trustedSHA identity) w). clear w Hw. intros w Hw.
  apply (wp_mono _ (fun _ => wire_of t) (fun _ => wire_ok) (wire_of t)); [|by intros a w' []|by intros w' []].
  revert w Hw. change (keeps (wire_of t) (saved ← save_cur deps;
    match saved with
    | Some e => mret (zero_result, Some e)
    | None =>
        acquired ← acquire_lease config deps ctx;
        match acquired with
        | Some err =>
            assign (fun l => set_CleanupComplete (negb (errors_Is err ErrAmbiguous))
              (set_IsolationGone true (set_RunnerGone true (set_RunTerminal true l))));;
            finishWithoutLease deps "guard_admission" err
        | None => dispatch_with_lease config deps fuel driverInput ctx request policy identity
        end
    end)).
  keep_step; [apply wire_save_cur|]. keep_step; [apply keeps_ret|]. keep_step; [apply wire_acquire_lease|].
  keep_step; [keep_step; [by apply wire_assign|apply wire_finishWithoutLease]|].
  apply (wire_dispatch_with_lease _ _ _ _ _ requestID). unfold t. by destruct identity.
Qed.

Lemma wire_reconcileStartup ctx : keeps wire_ok (reconcileStartup config deps fuel ctx).
Proof.
  unfold reconcileStartup, reconcile_incomplete.
  repeat first [ apply wire_point
               | solve [apply wire_forget; intros t; first [apply wire_List | apply wire_recover_ledger | apply wire_acquire_lease
                                                           | apply wire_release_lease | apply wire_abandon_lease | apply wire_releaseOrphan]]
               | solve [apply wire_plain; silent_step] | keep_step ].
Qed.

Lemma wire_Dispatch ctx request : keeps wire_ok (Dispatch config deps fuel sha256 driverInput ctx request).
Proof.
  unfold Dispatch, dispatch_locked, Preflight, verifyAuthority, replay.
  repeat first [ apply wire_reconcileStartup | apply wire_admit_request | solve [apply wire_plain; silent_step]
               | solve [apply wire_forget; intros t; apply wire_Load] | keep_step ].
  all: intros w Hw; by apply wire_admit_request.
Qed.
End dispatcher.
