(* ===== verification/JitSystemSafety.v ===== *)
(** * civmctl jit-dispatch as a whole: properties

    The production wiring is one of the dependencies [JitWire] speaks of.  So, over any
    number of invocations of the command, killed anywhere, with any answers of the network
    and of the host: what is changed on GitHub is what the ledgers on disk announced. *)

From S2P Require Import Prelude GoStrings Regex Prog Civm JitTypes JitConfig JitState JitRunner JitDispatcher JitInvariants JitSafety JitContract JitGate JitHost JitGitHub JitSystem JitWire.

Local Open Scope string_scope.
Local Open Scope list_scope.
Local Open Scope Z_scope.

(** ** Programs on the wire *)

Definition http_reads (B : Type) (e : httpE B) : Prop := match e with Do method _ _ _ => method = "GET" | _ => True end.

(** One request that changes something, and only reads besides. *)
Fixpoint one_change {A} (P : Exchange -> Prop) (m : prog httpE A) : Prop :=
  match m with
  | Done _ => True
  | Call e k =>
      (http_reads _ e /\ forall b, one_change P (k b)) \/
      (match e with Do method url _ body => P (mkExchange method url body) | _ => False end /\ forall b, only http_reads (k b))
  end.

Section programs.
Context {Y : Type} (net : forall B, httpE B -> op Y B).

Lemma on_wire_reads B (e : httpE B) x : http_reads B e -> changes (s_wire (snd (on_wire net B e x))) = changes (s_wire x).
Proof.
  intros He. unfold on_wire. destruct (net B e (s_env x)) as [b y]. cbn. destruct e; try done. cbn in He. subst method.
  by rewrite changes_app, app_nil_r.
Qed.

Lemma http_silent {A} (m : prog httpE A) : only http_reads m -> silent (http net m).
Proof.
  induction m as [a|B e k IH]; intros Hm x; [done|]. destruct Hm as [He Hk]. unfold http. cbn [run_op].
  pose proof (on_wire_reads B e x He) as E. destruct (on_wire net B e x) as [[b|] x']; cbn in *; [|done].
  rewrite <- E. by apply IH.
Qed.

Lemma http_sends {A} P (m : prog httpE A) : one_change P m -> sends P (http net m).
Proof.
  induction m as [a|B e k IH]; intros Hm x; [by left|]. unfold http. cbn [run_op]. destruct Hm as [[He Hk]|[He Hk]].
  - pose proof (on_wire_reads B e x He) as E. destruct (on_wire net B e x) as [[b|] x']; cbn in *; [|by left].
    rewrite <- E. by apply IH.
  - destruct e as [method url header body|limit|]; [|done|done].
    unfold on_wire. destruct (net _ (Do method url header body) (s_env x)) as [b y]. cbn [fst snd].
    set (x' := mkSys (s_wire x ++ [mkExchange method url body]) (s_lease x) (s_queue x) y).
    assert (changes (s_wire x) = changes (s_wire x') \/
            exists c, P c /\ changes (s_wire x') = changes (s_wire x) ++ [c]) as Hx.
    { cbn. rewrite changes_app. cbn. destruct (String.eqb method "GET"); cbn; [left; by rewrite app_nil_r|]. right. by eexists. }
    assert (forall x'' : Sys Y, changes (s_wire x'') = changes (s_wire x') ->
            changes (s_wire x'') = changes (s_wire x) \/ exists c, P c /\ changes (s_wire x'') = changes (s_wire x) ++ [c]) as Hw.
    { intros x'' ->. destruct Hx; auto. }
    destruct b as [b|]; apply Hw; [|done]. by apply (http_silent (k b)).
Qed.

Lemma one_change_bind {A B} P (m : prog httpE A) (f : A -> prog httpE B) :
  one_change P m -> (forall a, only http_reads (f a)) -> one_change P (m ≫= f).
Proof.
  unfold mbind, prog_mbind. intros Hm Hf. induction m as [a|C e k IH]; cbn in *.
  - specialize (Hf a). revert Hf. generalize (f a). clear. induction p as [b|C e k IH]; cbn; [done|]. intros [He Hk]. left. auto.
  - destruct Hm as [[He Hk]|[He Hk]]; [left; auto|]. right. split; [done|]. intros b. by apply (only_bind _ (k b) f).
Qed.
End programs.

(** ** The client *)

Section client.
Context (url_Parse : string -> option URL) (url_String : URL -> string) (json : APICodec) (c : GitHubClient).

Lemma reads_client_do endpoint query body limit : only http_reads (client_do c "GET" endpoint query body limit).
Proof. unfold client_do. apply only_bind; [by apply only_call|]. intros [[status id]|e]; repeat only_step. Qed.

Lemma reads_getJSON {A} operation endpoint query (decode : string -> option A) : only http_reads (getJSON c operation endpoint query decode).
Proof. unfold getJSON. apply only_bind; [apply reads_client_do|]. intros r. repeat only_step. Qed.

Lemma reads_transport operation : only http_reads (ambiguousTransportError operation).
Proof. unfold ambiguousTransportError. repeat only_step. Qed.

Ltac read := repeat first [ assumption | apply reads_getJSON | apply reads_transport | only_step ].

Lemma reads_label_pages repository label pages : only http_reads (label_pages json c repository label pages).
Proof. induction pages as [|p pages IH]; cbn [label_pages]; read. Qed.

Lemma reads_job_pages endpoint jobs pages : only http_reads (job_pages json c endpoint jobs pages).
Proof. revert jobs. induction pages as [|p pages IH]; intros jobs; cbn [job_pages]; read. apply IH. Qed.

Lemma reads_runner_pages repository label found pages : only http_reads (runner_pages json c repository label found pages).
Proof. revert found. induction pages as [|p pages IH]; intros found; cbn [runner_pages]; read. apply IH. Qed.

Lemma change_client_do P method endpoint query body limit :
  P (mkExchange method (client_endpoint c endpoint query) body) -> one_change P (client_do c method endpoint query body limit).
Proof.
  intros HP. unfold client_do. cbn. right. split; [done|]. intros [[status id]|e]; cbn; [|done]. by split.
Qed.

Lemma reads_DefaultBranch repository : only http_reads (DefaultBranch json c repository).
Proof. unfold DefaultBranch. read. Qed.
Lemma reads_ResolveRef repository ref : only http_reads (ResolveRef json c repository ref).
Proof. unfold ResolveRef. read. Qed.
Lemma reads_WorkflowContent repository workflow sha : only http_reads (WorkflowContent json c repository workflow sha).
Proof. unfold WorkflowContent. read. Qed.
Lemma reads_GetRun repository id : only http_reads (GetRun json c repository id).
Proof. unfold GetRun. read. Qed.
Lemma reads_GetJob repository id : only http_reads (GetJob json c repository id).
Proof. unfold GetJob. read. Qed.
Lemma reads_GetRunner repository id : only http_reads (GetRunner json c repository id).
Proof. unfold GetRunner. read. Qed.
Lemma reads_RunnerLabelExists repository label : only http_reads (RunnerLabelExists json c repository label).
Proof. unfold RunnerLabelExists. destruct (_ || _); [done|]. apply reads_label_pages. Qed.
Lemma reads_ListJobs repository id : only http_reads (ListJobs json c repository id).
Proof. unfold ListJobs. destruct (_ || _); [done|]. apply reads_job_pages. Qed.
Lemma reads_FindRunnerByLabel repository label : only http_reads (FindRunnerByLabel json c repository label).
Proof. unfold FindRunnerByLabel. destruct (_ || _); [done|]. apply reads_runner_pages. Qed.

(** What each method of the client sends, for a class of clients that has it. *)
Context (clients : GitHubClient -> Prop) (Hc : clients c).

Ltac change_one :=
  match goal with
  | |- one_change _ (if ?b then _ else _) => destruct b; [exact Logic.I|]
  | |- one_change _ (mbind _ _) => apply one_change_bind; [apply change_client_do|intros ?; read]
  end.

Lemma change_DispatchWorkflow repository workflow ref inputs :
  one_change (dispatch_request json clients repository workflow inputs)
    (DispatchWorkflow url_Parse url_String json c repository workflow ref inputs).
Proof. unfold DispatchWorkflow. repeat change_one. by eexists c, _. Qed.

Lemma change_GenerateJIT repository identity group :
  one_change (jit_request json clients repository identity) (GenerateJIT json c repository identity group).
Proof. unfold GenerateJIT. repeat change_one. by eexists c, _. Qed.

Lemma change_DeleteRunner repository id : one_change (delete_request clients repository id) (DeleteRunner c repository id).
Proof. unfold DeleteRunner. repeat change_one. by exists c. Qed.

Lemma change_CancelRun repository id : one_change (cancel_request clients repository id) (CancelRun c repository id).
Proof. unfold CancelRun. repeat change_one. by exists c. Qed.
End client.

(** ** The production dependencies *)

Section wired.
Context {Ctx Y : Type}.
Context (net : forall B, httpE B -> op Y B) (host : forall B, hostE B -> op Y B) (Pid : op Y Z) (base : Deps Ctx Y).
Context (url_Parse : string -> option URL) (url_String : URL -> string) (json : APICodec).
Context (Unmarshal : string -> result LeaseMarker) (euid : Z) (sha256 : string -> list Z) (fuel : nat).

(** A program of the host never touches the wire, the lease or the queue. *)
Lemma silent_outside {A} (o : op Y A) : silent (outside o).
Proof. intros x. unfold outside. by destruct (o (s_env x)). Qed.

Lemma silent_sys {A} (m : prog hostE A) : silent (sys host m).
Proof.
  induction m as [a|B e k IH]; intros x; [done|]. unfold sys. cbn [run_op].
  pose proof (silent_outside (host B e) x) as E. destruct (outside (host B e) x) as [[b|] x']; cbn in E |- *; [|done].
  rewrite <- E. apply IH.
Qed.

Lemma silent_map {A B} (f : A -> option B) (o : op (Sys Y) A) : silent o -> silent (map_op f o).
Proof. intros Ho x. unfold map_op. specialize (Ho x). by destruct (o x). Qed.

Lemma silent_gate {A} (m : prog gateE A) : silent (gate host euid sha256 m).
Proof. apply silent_sys. Qed.

Lemma silent_Acquire g config guard leaseID : silent (sys_Acquire host Unmarshal euid sha256 fuel g config guard leaseID).
Proof.
  intros x. unfold sys_Acquire. set (m := ExecGate_Acquire _ _ _ _ _ _ _). pose proof (silent_gate m x) as E.
  by destruct (gate host euid sha256 m x) as [[[]|] x'].
Qed.

Lemma silent_on_lease m nil : silent (on_lease host euid sha256 m nil).
Proof.
  intros x. unfold on_lease. destruct (s_lease x) as [lease|]; [|done]. pose proof (silent_gate (m lease) x) as E.
  by destruct (gate host euid sha256 (m lease) x) as [[[]|] x'].
Qed.

Lemma silent_AcquireQueue path poll : silent (sys_AcquireQueue host euid fuel path poll).
Proof.
  intros x. unfold sys_AcquireQueue. pose proof (silent_sys (AcquireQueue euid fuel path poll) x) as E.
  by destruct (sys host (AcquireQueue euid fuel path poll) x) as [[[[]|]|] x'].
Qed.

Lemma silent_CloseQueue : silent (sys_CloseQueue host).
Proof.
  intros x. unfold sys_CloseQueue. pose proof (silent_sys (queue_Close (s_queue x)) x) as E.
  by destruct (sys host (queue_Close (s_queue x)) x) as [[[]|] x'].
Qed.

Lemma silent_Attach leaseID : silent (fun x => match outside Pid x with
                      | (Some pid, x') => sys host (Attach containment pid leaseID) x'
                      | (None, x') => (None, x')
                      end).
Proof.
  intros x. pose proof (silent_outside Pid x) as E. destruct (outside Pid x) as [[pid|] x']; cbn in *; [|done].
  rewrite <- E. apply silent_sys.
Qed.

Ltac quiet :=
  first [ apply silent_outside | apply silent_sys | apply silent_gate | apply silent_Acquire | apply silent_on_lease
        | apply silent_AcquireQueue | apply silent_CloseQueue | apply silent_Attach | apply silent_map; quiet
        | apply http_silent; first [ apply reads_DefaultBranch | apply reads_ResolveRef | apply reads_WorkflowContent
                                   | apply reads_RunnerLabelExists | apply reads_GetRun | apply reads_ListJobs | apply reads_GetJob
                                   | apply reads_FindRunnerByLabel | apply reads_GetRunner ] ].

(** The wiring of [runJITDispatchWithIO] is one of those [wire_Dispatch] is about. *)
Lemma production_wired clients config c g : clients c ->
  Wired json clients (production net host Pid base url_Parse url_String json Unmarshal euid sha256 fuel config c g).
Proof.
  intros Hc. split; intros; try quiet.
  - by apply http_sends, change_DispatchWorkflow.
  - by apply http_sends, change_GenerateJIT.
  - by apply http_sends, change_CancelRun.
  - by apply http_sends, change_DeleteRunner.
  - repeat constructor; apply silent_outside.
Qed.
End wired.

(** ** The command *)

(** Every value a program can return. *)
Fixpoint yields {E : Type -> Type} {A} (R : A -> Prop) (m : prog E A) : Prop :=
  match m with Done a => R a | Call e k => forall b, yields R (k b) end.

Lemma yields_bind {E : Type -> Type} {A B} (R : B -> Prop) (m : prog E A) (f : A -> prog E B) : (forall a, yields R (f a)) -> yields R (m ≫= f).
Proof. unfold mbind, prog_mbind. intros Hf. induction m as [a|C e k IH]; cbn; auto. Qed.

Lemma run_op_yields {E : Type -> Type} {X A} (R : A -> Prop) (h : forall B, E B -> op X B) (m : prog E A) x a x' :
  yields R m -> run_op h m x = (Some a, x') -> R a.
Proof.
  revert x. induction m as [b|B e k IH]; cbn; intros x HR E1; [by injection E1 as <- _|].
  destruct (h B e x) as [[b|] x1]; [by eapply IH|done].
Qed.

Lemma sublist_omap {A B} (f : A -> option B) l k : l `sublist_of` k -> omap f l `sublist_of` omap f k.
Proof. induction 1 as [|x l k _ IH|x l k _ IH]; [done|..]; rewrite !omap_cons || cbn; destruct (f x); try done; by constructor. Qed.

Lemma Forall_sublist {A} (P : A -> Prop) l k : l `sublist_of` k -> Forall P k -> Forall P l.
Proof. induction 1 as [|x l k _ IH|x l k _ IH]; inversion 1; subst; auto. Qed.

Section command.
Context {Ctx Y : Type} `{SortSlice}.
Context (url_Parse : string -> option URL) (url_String : URL -> string) (json : APICodec).
Context (Unmarshal : string -> result LeaseMarker) (euid : Z) (sha256 : string -> list Z).
Context (driverInput : string -> list Z -> list Z) (decode : string -> result rawConfig) (ParseDuration : string -> option Z).

(** The configurations that load, and the clients that are made for them. *)
Definition loads (config : Config) : Prop :=
  exists data raw, decode data = Ok raw /\ validateConfig url_Parse ParseDuration raw = Ok config.
Definition made (c : GitHubClient) : Prop :=
  exists config token, loads config /\ NewGitHubClient url_Parse (cfg_APIBaseURL config) (cfg_APIVersion config) token = Ok c.

(** Nothing has been dispatched from any state directory. *)
Definition fresh_store (s : World (list Exchange)) : Prop := w_disk s = ∅ /\ w_log s = [] /\ w_ext s = [].

(** Between two invocations the process forgets and temporary files may be removed; what
    was written and what was sent stays. *)
Definition store_kept (s s' : World (list Exchange)) : Prop :=
  w_disk s' = w_disk s /\ (w_temps s' <= w_temps s)%nat /\ w_log s' = w_log s /\ w_ext s' = w_ext s.

(** The invocations of the command on one host, one after the other, with any flags, any
    configuration and any environment, each killed anywhere.  Between them the outside
    moves on. *)
Inductive commanded : Machine Y -> Prop :=
  | com_init k : (forall dir, fresh_store (mc_stores k dir)) -> commanded k
  | com_between k k' : commanded k -> (forall dir, store_kept (mc_stores k dir) (mc_stores k' dir)) -> commanded k'
  | com_run k net host Pid (base : Deps Ctx Y) fuel Stdin Executable Encode ctx flags :
      commanded k ->
      commanded (snd (runJITDispatchWithIO net host Pid base url_Parse url_String json Unmarshal euid sha256 fuel driverInput
                        decode ParseDuration Stdin Executable Encode ctx flags k)).

Definition system_inv (w : World (Sys Y)) : Prop := inv loads w /\ wire_ok json made w.

(** Every store of the host. *)
Definition machine_inv (k : Machine Y) : Prop := forall dir, system_inv (store_world dir k).

(** The invariant is about the store and what was sent from it. *)
Lemma system_inv_ext w w' :
  w_disk w' = w_disk w -> w_log w' = w_log w -> s_wire (w_ext w') = s_wire (w_ext w) -> system_inv w -> system_inv w'.
Proof.
  destruct w as [disk temps c log [wire lease queue y]], w' as [disk' temps' c' log' [wire' lease' queue' y']]. cbn.
  intros -> -> -> [[] Hw]. by split.
Qed.

Lemma machine_on_host {A} (R : A -> Prop) (o : op Y A) k :
  (forall a y, o (mc_env k) = (Some a, y) -> R a) -> machine_inv k ->
  wp (on_host o) (fun a k' => machine_inv k' /\ R a /\ mc_stores k' = mc_stores k) machine_inv k.
Proof.
  intros HR Hk. unfold wp, on_host. destruct (o (mc_env k)) as [a y].
  assert (machine_inv (mkMachine (mc_stores k) (mc_lease k) (mc_queue k) y)) as Hk'
    by (intros dir; eapply system_inv_ext; [| | |exact (Hk dir)]; done).
  destruct a as [a|]; [|done]. split_and!; [done|by eapply HR|done].
Qed.

Lemma machine_update dir w k : system_inv w -> machine_inv k -> machine_inv (store_update dir w k).
Proof.
  intros Hw Hk d. unfold store_world, store_update. cbn. destruct (String.eqb_spec d dir) as [->|_].
  - by eapply system_inv_ext; [| | |exact Hw].
  - by eapply system_inv_ext; [| | |exact (Hk d)].
Qed.

Lemma machine_on_store {A} dir (m : M (World (Sys Y)) A) (Q : A -> World (Sys Y) -> Prop) k :
  wp m (fun a w => system_inv w /\ Q a w) system_inv (store_world dir k) -> machine_inv k ->
  wp (on_store dir m) (fun a k' => machine_inv k' /\ exists w, Q a w /\ mc_stores k' = mc_stores (store_update dir w k)) machine_inv k.
Proof.
  unfold wp, on_store. destruct (m (store_world dir k)) as [[a| |] w]; intros Hm Hk.
  - destruct Hm as [Hi Hq]. split; [by apply machine_update|]. by exists w.
  - by apply machine_update.
  - by apply machine_update.
Qed.

Lemma yields_LoadConfig path :
  yields (fun r => forall config, r = Ok config -> loads config) (LoadConfig euid decode url_Parse ParseDuration path).
Proof.
  unfold LoadConfig. destruct (_ || _); [done|]. apply yields_bind. intros [[data|]|e] config; try done.
  destruct (decode data) as [raw|e] eqn:Ed; [|done]. intros Hc. by exists data, raw.
Qed.

Definition request_of (f : JITFlags) : Request := mkRequest (jf_repository f) (jf_ref f) (jf_sha f) (jf_key f).

Lemma jitDispatchExit_fails e : jitDispatchExit e <> 0.
Proof. unfold jitDispatchExit. repeat case_match; discriminate. Qed.

Section run.
Context (net : forall B, httpE B -> op Y B) (host : forall B, hostE B -> op Y B) (Pid : op Y Z) (base : Deps Ctx Y) (fuel : nat).
Context (Stdin : op Y (result (list Z))) (Executable : op Y (result string)) (Encode : Result -> op Y err_ret).

Lemma system_Dispatch config c g ctx request w :
  loads config -> made c -> system_inv w ->
  wp (Dispatch config (production net host Pid base url_Parse url_String json Unmarshal euid sha256 fuel config c g)
        fuel sha256 driverInput ctx request)
     (fun r w' => system_inv w' /\ (snd r = None -> exists replayed, completed_as (RequestID sha256 request) replayed (fst r) w'))
     system_inv w.
Proof.
  intros Hl Hc [Hi Hw]. eapply wp_mono; [apply wp_conj; [by apply (wp_Dispatch loads)|]| |].
  - eapply wire_Dispatch; [by apply production_wired|exact Hw].
  - by intros r w' [[? ?] ?].
  - by intros w' [? ?].
Qed.

(** The configuration that a run of the command loads first. *)
Definition configured (f : JITFlags) (y : Y) (config : Config) : Prop :=
  fst (run_op host (LoadConfig euid decode url_Parse ParseDuration (jf_config f)) y) = Some (Ok config).

(** The exit status is a result of the dispatcher only. *)
Definition exit_means (flags : option JITFlags) (y : Y) (code : Z) (k : Machine Y) : Prop :=
  code = 0 -> exists f config l, flags = Some f /\ configured f y config /\
    w_disk (mc_stores k (cfg_StateDir config)) !! RequestID sha256 (request_of f) = Some l /\
    lg_Status l = StatusCompleted /\ lg_CleanupComplete l = true.

Ltac observe :=
  eapply wp_mono; [apply (machine_on_host (fun _ => True)); [done|done]| |done].

Lemma wp_command ctx flags k :
  machine_inv k ->
  wp (runJITDispatchWithIO net host Pid base url_Parse url_String json Unmarshal euid sha256 fuel driverInput
        decode ParseDuration Stdin Executable Encode ctx flags)
     (fun code k' => machine_inv k' /\ exit_means flags (mc_env k) code k') machine_inv k.
Proof.
  intros Hk. unfold runJITDispatchWithIO. destruct flags as [f|]; [|by apply wp_ret].
  destruct (_ || _); [by apply wp_ret|]. apply wp_bind.
  eapply wp_mono; [apply (machine_on_host (fun r => forall config, r = Ok config -> loads config /\ configured f (mc_env k) config))|..|done];
    [|done|].
  { intros a y Hr config ->. split; [exact (run_op_yields _ _ _ _ _ _ (yields_LoadConfig _) Hr _ eq_refl)|].
    unfold configured. by rewrite Hr. }
  intros [config|e] k1 (Hk1 & Hl & _); [|by apply wp_ret]. destruct (Hl config eq_refl) as [Hloads Hcfg].
  destruct (Policy _ _); [|by apply wp_ret]. destruct (ValidateRequest _ _); [by apply wp_ret|]. apply wp_bind. observe.
  intros [store|e] k2 (Hk2 & _ & _); [|by apply wp_ret]. apply wp_bind. observe.
  intros data k3 (Hk3 & _ & _). destruct (match data with Ok _ => _ | Err _ => _ end) as [token|e]; [|by apply wp_ret].
  destruct (NewGitHubClient _ _ _ _) as [c|e] eqn:Ec; [|by apply wp_ret]. apply wp_bind. observe.
  intros [self|e] k4 (Hk4 & _ & _); [|by apply wp_ret]. apply wp_bind.
  eapply wp_mono; [apply machine_on_store; [apply system_Dispatch; [done|by exists config, (byte_string token)|done]|done]| |done].
  intros [res [e|]] k5 (Hk5 & w & Hok & Hs5); apply wp_bind; observe;
    intros written k6 (Hk6 & _ & Hs6); apply wp_ret; (split; [done|]); destruct written; try done.
  - intros He. by destruct (jitDispatchExit_fails e).
  - intros _. destruct (Hok eq_refl) as (replayed & l & Hdl & Hst & Hcc & _). exists f, config, l.
    rewrite Hs6, Hs5. unfold store_update. cbn. by rewrite String.eqb_refl.
Qed.
End run.

Lemma commanded_inv k : commanded k -> machine_inv k.
Proof.
  induction 1 as [k Hf|k k' _ IH Hb|k net' host' Pid' base' fuel' Stdin' Executable' Encode' ctx flags _ IH].
  - intros dir. destruct (Hf dir) as (Hd & Hl & Hx). unfold store_world. rewrite Hd, Hl, Hx.
    split; [split; cbn; try done; try (by intros ? ?%not_elem_of_nil); constructor|]. by exists [].
  - intros dir. destruct (Hb dir) as (Hd & _ & Hl & Hx). by eapply system_inv_ext; [..|exact (IH dir)].
  - apply wp_any. eapply wp_mono; [by apply wp_command|by intros ? ? [? _]|done].
Qed.

(** C6. Over any number of invocations of [civmctl jit-dispatch], each with the
    configuration it loads, killed anywhere and with any answers of the network and the
    host.  For every state directory: each request that is not a GET and was sent by the
    runs whose configuration names it belongs to an event of its own in the log of that
    directory, in that order, and is the request that event announces.  A dispatch carries
    the commit, the ref, the nonce and the label of the ledger that was on disk in that
    directory when it was sent, a registration the identity of its ledger, a cancellation
    and a deletion the run and the runner that were matched.  So the runs on one state
    directory dispatch no request twice on the wire, and each change met the condition of
    its event.  Runs on different state directories know nothing of each other. *)
Theorem wire_is_announced k dir (Hk : commanded k) :
  let s := mc_stores k dir in
  exists evs, evs `sublist_of` w_log s /\ Forall2 (causes json made) evs (changes (w_ext s)) /\
    NoDup (dispatched evs) /\ Forall (event_ok loads) evs.
Proof.
  destruct (commanded_inv k Hk dir) as [Hi (evs & Hs & Hf)]. exists evs. split_and!; [done|done| |].
  - eapply sublist_NoDup; [apply (inv_once _ _ Hi)|]. by apply sublist_omap.
  - by eapply Forall_sublist; [|apply (inv_log _ _ Hi)].
Qed.

(** C7. [civmctl jit-dispatch] exits with 0 only when the ledger of the request on its
    command line is on disk, in the state directory of the configuration the run loaded,
    completed and with its cleanup proved: the run is terminal, the runner and the
    isolation are gone.  In particular no failure of the configuration, the token, the
    store or the output is reported as success. *)
Theorem exit_zero_is_completed net host Pid (base : Deps Ctx Y) fuel Stdin Executable Encode k ctx flags k' (Hk : commanded k)
    (Hrun : runJITDispatchWithIO net host Pid base url_Parse url_String json Unmarshal euid sha256 fuel driverInput
              decode ParseDuration Stdin Executable Encode ctx flags k = (Ret 0, k')) :
  exists f config l, flags = Some f /\
    fst (run_op host (LoadConfig euid decode url_Parse ParseDuration (jf_config f)) (mc_env k)) = Some (Ok config) /\
    w_disk (mc_stores k' (cfg_StateDir config)) !! RequestID sha256 (request_of f) = Some l /\
    lg_Status l = StatusCompleted /\ lg_CleanupComplete l = true /\
    lg_RunTerminal l = true /\ lg_RunnerGone l = true /\ lg_IsolationGone l = true.
Proof.
  destruct (wp_run _ _ _ _ _ _ (wp_command net host Pid base fuel Stdin Executable Encode ctx flags k (commanded_inv k Hk)) Hrun) as [Hi Hok].
  destruct (Hok eq_refl) as (f & config & l & Hf & Hcfg & Hl & Hst & Hcc). exists f, config, l.
  pose proof (validateLedger_proofs _ _ (inv_valid _ _ (proj1 (Hi (cfg_StateDir config))) _ _ Hl) Hcc) as Hp.
  unfold proofs_complete in Hp. bsplit. by split_and!.
Qed.
End command.

(** * civmctl jit-dispatch on a small host

    A host and a GitHub that answer every system call and every request the command
    makes, from the configuration file to the exit status. *)

Import Demo.

Local Open Scope string_scope.
Local Open Scope list_scope.
Local Open Scope Z_scope.

Module SystemDemo.

(** The receipts of the driver, whether the Guard child holds its marker, the last request. *)
Record Host := mkHost { h_receipts : nat; h_marker : bool; h_asked : string }.

Definition over (y : Host) : bool := (2 <=? h_receipts y)%nat.
Definition answers {A} (a : A) : op Host A := fun y => (Some a, y).
Definition asks {A} (f : Host -> A) : op Host A := fun y => (Some (f y), y).
Definition at_stage (done : bool) : Ext := mkExt (if done then 2 else 0) 0 0 false false 0.
Definition missing {A} : result A := Err (Errorf_s ErrNotExist "no such file or directory").

(** ** GitHub: the body of an answer is the stage and the path *)

Definition status_of (method path : string) (y : Host) : Z :=
  if String.eqb method "DELETE" then 204
  else if HasSuffix path "/generate-jitconfig" then 201
  else if HasSuffix path "/cancel" then 202
  else if HasSuffix path "/actions/runners/13" && over y then 404
  else 200.

Definition server B (e : httpE B) : op Host B :=
  match e with
  | Do method url _ _ => fun y =>
      (Some (Ok (status_of method (url_Path url) y, "ABC-1")),
       mkHost (h_receipts y) (h_marker y) ((if over y then "1" else "0") +:+ url_Path url))
  | ReadAll _ => asks (fun y => Ok (h_asked y))
  | CtxErr => answers None
  end.

Definition stage (body : string) : Ext := at_stage (HasPrefix body "1").
Definition run_url : string := "https://api.github.com/repos/acme/app/actions/runs/7".

Definition codec : APICodec := {|
  decodeRepository _ := Some "main";
  decodeRef body := Some (if HasSuffix body "/heads/main" then sha_a else sha_b);
  decodeContents _ := Some ("base64", "am9iczo=", sha_a);
  decodeLabelPage _ := Some (0, []);
  decodeRunnerPage _ := Some (1, [the_runner]);
  decodeDispatched _ := Some (7, run_url, "https://github.com/acme/app/actions/runs/7");
  decodeRun body := Some (the_run (stage body));
  decodeJobPage body := Some (1, [the_job (stage body)]);
  decodeJob body := Some (the_job (stage body));
  decodeRunner _ := Some the_runner;
  decodeJIT _ := Some (repeat 65 32, the_runner);
  encodeDispatch branch inputs := Join (branch :: (snd <$> inputs)) " ";
  encodeJIT name group labels work := Join (name :: labels) " ";
|}.

Definition parse_url (s : string) : option URL :=
  if HasPrefix s "https://" then
    match Split "/" (TrimPrefix s "https://") with
    | host :: path => Some (mkURL "https" host false "" "" (match path with [] => "" | _ => "/" +:+ Join path "/" end))
    | [] => None
    end
  else None.
Definition print_url (u : URL) : string := url_Scheme u +:+ "://" +:+ url_Host u +:+ url_Path u.

(** ** The host *)

Definition config_file : string := "/etc/civm/jit.json".
Definition directory : FileInfo := mkFileInfo false true false 448 4096 0.
Definition file : FileInfo := mkFileInfo true false false 448 100 0.
Definition stat_line : string := "41 (driver) S 1 2 3 4 5 6 7 8 9 10 11 12 13 14 15 16 17 18 977 20".
Definition driver_file : string := Join (repeat "x" 221) "".

Definition guard_child B (e : gateE B) : op Host B :=
  match e with
  | ReadStat pid => asks (fun y => if (pid =? 41) && over y then missing else Ok stat_line)
  | StartCmd _ => fun y => (Some None, mkHost (h_receipts y) true (h_asked y))
  | WriteInput _ => fun y => (Some None, mkHost (h_receipts y) false (h_asked y))
  | RandRead => answers (Ok random_bytes)
  | ReadMarker _ => answers missing
  | ReadFull => answers missing
  | RejectSymlinks _ | CreateExcl _ | WriteMarker _ | SyncMarker | CloseMarker | Remove _ | SyncDirectory _ => answers None
  | Kill _ _ | StdinPipe | CloseInput | SignalGroup _ | TrustedExecutable _ => answers None
  | Lstat _ => answers missing
  | KillSelect => answers KTick
  | Nap => answers tt
  | PollSelect _ => answers GTimer
  | WaitTimeout => answers (Some None)
  | ReleaseSelect => answers (inl None)
  end.

Definition kernel B (e : hostE B) : op Host B :=
  match e with
  | Gate e => guard_child _ e
  | LstatFile _ => answers (Ok directory)
  | MkdirAll _ _ | Mkdir _ | SeekStart _ | SyncFile _ | CloseFile _ | FlockEx _ | FlockUn _ => answers None
  | OpenFile _ => answers (Ok 5)
  | OpenNoFollow path _ => asks (fun y =>
      if String.eqb path LeaseMarkerPath then if h_marker y then Ok 9 else missing
      else if String.eqb path config_file then Ok 8 else Ok 7)
  | FileStat _ => answers (Ok file)
  | ReadLimit fd _ => answers (Ok (if fd =? 9 then "marker" else if fd =? 8 then "config" else driver_file))
  | QueueTimer _ => answers None
  | ReadProc path => asks (fun y =>
      Ok (if HasSuffix path "/cgroup.events" then if over y then "populated 0" else "populated 1"
          else "0::/civm.slice/civm-jit-" +:+ nonce))
  | ScanLines _ => answers (["0::/civm.slice"], None)
  | WriteControl _ _ | RemoveDirectory _ | KillGroup _ _ => answers None
  | Getpgid _ => answers (Ok 41)
  | GraceSelect => answers PTick
  | ForceSelect => answers None
  end.

Definition pipes : DriverOps unit Host :=
  mkDriverOps unit Host
    (fun _ _ => answers None) (fun _ => answers None) (fun _ => answers None)
    (fun _ _ => answers None) (answers None) (fun _ => answers None) (answers None) (answers None)
    (answers None) (fun _ => answers (Ok process)) (fun _ _ => answers None) (fun _ => answers None)
    (answers (Some None)) (fun _ => answers None)
    (fun _ y => (Some (Ok (if (h_receipts y =? 0)%nat then ready else destroyed)), mkHost (S (h_receipts y)) (h_marker y) (h_asked y)))
    (fun _ => answers None) (answers None) (fun _ => answers (inl None)) (answers None).

Definition files : StoreIO Host :=
  mkStoreIO Host (fun _ => None) (answers None) (answers None) (answers None) (answers None)
    (answers None) (answers None) (answers None) (answers None) (answers None)
    (fun _ => answers None) (fun id => answers (Ok ("/var/lib/civm/jit/logs/" +:+ id))).

(** The rest of the environment; GitHub and the gate are wired by the command. *)
Definition rest : Deps unit Host :=
  mkDeps unit Host tt (fun _ _ => answers tt) (fun _ => answers None) (answers 1000) (fun _ _ => answers None)
    (fun _ _ => answers missing) (fun _ _ _ => answers missing) (fun _ _ _ _ => answers missing)
    (fun _ _ _ => answers missing) (fun _ _ _ _ _ => answers missing)
    (fun _ _ _ => answers missing) (fun _ _ _ => answers missing) (fun _ _ _ => answers missing)
    (fun _ _ _ _ => answers missing) (fun _ _ _ => answers missing) (fun _ _ _ => answers missing)
    (fun _ _ _ => answers None) (fun _ _ _ => answers None)
    (fun _ => answers None) (fun _ _ _ => answers None) (fun _ _ => answers None)
    (fun _ => answers None) (answers missing) (fun _ _ => answers None)
    (answers (Ok random_bytes)) (fun _ _ _ => answers None) (answers None) files pipes.

Definition raw : rawConfig :=
  mkRaw (cfg_APIBaseURL config) (cfg_APIVersion config) (cfg_StateDir config) (cfg_RunnerDirectory config)
    (cfg_GuardExecutable config) (cfg_IsolationDriver config) (cfg_DriverSHA256 config) (cfg_BaseImageSHA256 config)
    "1s" "1s" "1s" "1s" "1s" "1s" "1s" "1s" [policy].

Definition marker : LeaseMarker := mkMarker 2 nonce nonce 4242 977.
Definition flags : option JITFlags := Some (mkJITFlags config_file "acme/app" "refs/heads/feature" sha_b "retry-key-00000001").

Definition start : Machine Host := mkMachine (fun _ => mkWorld ∅ 0%nat no_ledger [] []) None None (mkHost 0 false "").

Definition command : M (Machine Host) Z :=
  runJITDispatchWithIO server kernel (answers 41) rest parse_url print_url codec (fun _ => Ok marker) 0 digest 12%nat driver_input
    (fun _ => Ok raw) (fun _ => Some Second) (answers (Ok (repeat 97 40))) (answers (Ok "/usr/local/bin/civmctl")) (fun _ => answers None)
    tt flags.
End SystemDemo.
Import SystemDemo.

Abbreviation commanded_here :=
  (commanded (Ctx:=unit) (Y:=Host) parse_url print_url codec (fun _ => Ok marker) 0 digest driver_input (fun _ => Ok raw) (fun _ => Some Second)).

Lemma started : commanded_here start.
Proof. by apply com_init. Qed.

Lemma commanded_once : commanded_here (snd (command start)).
Proof. apply com_run, started. Qed.

(** The store of the run. *)
Abbreviation store_after := (mc_stores (snd (command start)) (cfg_StateDir config)).

(** The run from the configuration to exit 0 sends two changes, and its log has both; no
    other state directory has changed. *)
Example command_evaluates :
  fst (command start) = Ret 0 /\
  (fun e => url_Path (x_url e)) <$> changes (w_ext store_after) =
    ["/repos/acme/app/actions/workflows/civm.yml/dispatches"; "/repos/acme/app/actions/runners/generate-jitconfig"] /\
  dispatched (w_log store_after) = [RequestID digest request] /\
  w_ext (mc_stores (snd (command start)) "/var/lib/other") = [].
Proof. split_and!; vm_compute; reflexivity. Qed.

Lemma wire_is_announced_witness :
  length (changes (w_ext store_after)) = 2%nat /\
  exists evs, evs `sublist_of` w_log store_after /\
    Forall2 (causes codec (made parse_url (fun _ => Ok raw) (fun _ => Some Second))) evs (changes (w_ext store_after)) /\
    NoDup (dispatched evs).
Proof.
  split; [vm_compute; reflexivity|].
  destruct (wire_is_announced parse_url print_url codec (fun _ => Ok marker) 0 digest driver_input (fun _ => Ok raw) (fun _ => Some Second)
    (snd (command start)) (cfg_StateDir config) commanded_once) as (evs & Hs & Hc & Hn & _).
  exists evs. split; [exact Hs|]. split; [exact Hc|exact Hn].
Defined.

Lemma exit_zero_is_completed_witness :
  exists config l, w_disk (mc_stores (snd (command start)) (cfg_StateDir config)) !! RequestID digest request = Some l /\
    lg_Status l = StatusCompleted /\ lg_RunnerGone l = true.
Proof.
  destruct (exit_zero_is_completed parse_url print_url codec (fun _ => Ok marker) 0 digest driver_input (fun _ => Ok raw) (fun _ => Some Second)
    server kernel (answers 41) rest 12%nat (answers (Ok (repeat 97 40))) (answers (Ok "/usr/local/bin/civmctl")) (fun _ => answers None)
    start tt flags (snd (command start)) started) as (f & config & l & Hf & _ & Hl & Hst & _ & _ & Hg & _); [vm_compute; reflexivity|].
  exists config, l. injection Hf as <-. split; [exact Hl|]. split; [exact Hst|exact Hg].
Defined.
