(* ===== verification/WorkerPool.v ===== *)
(** * The worker pool of the read-only reports ([runJobs] of
    src/internal/activeruns/activeruns.go)

    [runJobs] starts one goroutine per job, at most [concurrency] at a time, and waits for
    them; each job ends with one write to a shared variable (a slot of a slice, or a map
    under a mutex).  The pool is a step relation over the goroutines, the semaphore, the
    wait group and the context.  For the jobs whose calls answer alike whenever they are
    made, the shared variable at the end does not depend on the schedule. *)

From S2P Require Import Prelude GoStrings Prog.

Local Open Scope list_scope.
Local Open Scope Z_scope.

(** The result of a program whose calls answer by [ans] whenever they are made. *)
Fixpoint eval {E : Type -> Type} (ans : forall B, E B -> B) {A} (m : prog E A) : A :=
  match m with
  | Done a => a
  | Call e k => eval ans (k (ans _ e))
  end.

Lemma eval_bind {E : Type -> Type} (ans : forall B, E B -> B) {A B} (m : prog E A) (f : A -> prog E B) :
  eval ans (m ≫= f) = eval ans (f (eval ans m)).
Proof. unfold mbind, prog_mbind. induction m as [a|C e k IH]; cbn; [done|]. apply IH. Qed.

Section pool.
Context {E : Type -> Type} {G : Type}.

(** A job makes calls and then writes: the write is its result. *)
Definition job : Type := prog E (G -> G).

(** A goroutine: inside [fn], back from [fn] with the semaphore still taken, or with only
    [wg.Done] left. *)
Inductive worker :=
  | Running (m : job)
  | Written
  | Released.

Record pool := mkPool {
  pl_next : nat;                      (* the loop variable *)
  pl_live : gmap nat worker;          (* goroutines counted by the wait group *)
  pl_shared : G;
  pl_cancelled : bool;                (* the context *)
  pl_returned : bool;
}.

Definition clamp (concurrency : Z) (n : nat) : Z :=
  let c := if concurrency <=? 0 then 1 else concurrency in
  if Z.of_nat n <? c then Z.of_nat n else c.

(** Sums over the goroutines. *)
Definition weight (f : worker -> Z) (live : gmap nat worker) : Z := map_fold (fun _ w n => f w + n) 0 live.

(** The places of the semaphore that are taken. *)
Definition taken (w : worker) : Z := match w with Released => 0 | _ => 1 end.
Definition sem (p : pool) : Z := weight taken (pl_live p).

Section run.
(** What a call may answer. *)
Context (answer : forall B, E B -> B -> Prop) (concurrency : Z) (jobs : list job).

Definition start (g : G) : pool := mkPool 0 ∅ g false false.

Inductive run_jobs_step : pool -> pool -> Prop :=
  | step_spawn i live g c m :
      jobs !! i = Some m -> sem (mkPool i live g c false) < clamp concurrency (length jobs) ->
      run_jobs_step (mkPool i live g c false) (mkPool (S i) (<[i := Running m]> live) g c false)
  | step_abandon i live g :
      (i < length jobs)%nat ->
      run_jobs_step (mkPool i live g true false) (mkPool i live g true true)
  | step_wait live g c :
      live = ∅ ->
      run_jobs_step (mkPool (length jobs) live g c false) (mkPool (length jobs) live g c true)
  | step_call i live g c r j B (e : E B) k b :
      live !! j = Some (Running (Call e k)) -> answer B e b ->
      run_jobs_step (mkPool i live g c r) (mkPool i (<[j := Running (k b)]> live) g c r)
  | step_write i live g c r j w :
      live !! j = Some (Running (Done w)) ->
      run_jobs_step (mkPool i live g c r) (mkPool i (<[j := Written]> live) (w g) c r)
  | step_release i live g c r j :
      live !! j = Some Written ->
      run_jobs_step (mkPool i live g c r) (mkPool i (<[j := Released]> live) g c r)
  | step_done i live g c r j :
      live !! j = Some Released ->
      run_jobs_step (mkPool i live g c r) (mkPool i (delete j live) g c r)
  | step_cancel i live g r :
      run_jobs_step (mkPool i live g false r) (mkPool i live g true r).

(** [runJobs] returns with the shared variable [g'] to read. *)
Definition run_jobs (g g' : G) : Prop :=
  exists p, rtc run_jobs_step (start g) p /\ pl_returned p = true /\ pl_shared p = g'.

(** A call of [runJobs] whose context is never cancelled. *)
Definition run_jobs_uncancelled (g g' : G) : Prop :=
  exists p, rtc run_jobs_step (start g) p /\ pl_cancelled p = false /\ pl_returned p = true /\ pl_shared p = g'.
End run.

(** ** Sums *)

Lemma weight_insert f live j w : live !! j = None -> weight f (<[j := w]> live) = f w + weight f live.
Proof. intros Hj. apply (map_fold_insert_L (fun _ w n => f w + n)); [|done]. intros. lia. Qed.

Lemma weight_delete f live j w : live !! j = Some w -> weight f (delete j live) = weight f live - f w.
Proof.
  intros Hj. enough (weight f live = f w + weight f (delete j live)) by lia.
  apply (map_fold_delete_L (fun _ w n => f w + n)); [|done]. intros. lia.
Qed.

Lemma weight_update f live j w w' : live !! j = Some w -> weight f (<[j := w']> live) = weight f live - f w + f w'.
Proof.
  intros Hj. rewrite <- insert_delete_eq, weight_insert by apply lookup_delete_eq. rewrite (weight_delete f live j w) by done. lia.
Qed.

Lemma weight_nonneg f live : (forall w, 0 <= f w) -> 0 <= weight f live.
Proof.
  intros Hf. unfold weight. apply (map_fold_weak_ind (fun r _ => 0 <= r)); [lia|].
  intros j w _ r _ Hr. specialize (Hf w). lia.
Qed.

(** ** Jobs whose calls answer alike whenever they are made *)

Section oracle.
Context (ans : forall B, E B -> B) (concurrency : Z) (jobs : list job) (g0 : G).

Definition oracle (B : Type) (e : E B) (b : B) : Prop := b = ans B e.

(** One job after the other. *)
Definition sequential : G := foldl (fun g m => eval ans m g) g0 jobs.

(** Jobs with different indices write to different places. *)
Definition independent : Prop :=
  forall i j m m' g, i <> j -> jobs !! i = Some m -> jobs !! j = Some m' ->
    eval ans m (eval ans m' g) = eval ans m' (eval ans m g).

Local Abbreviation steps := (run_jobs_step oracle concurrency jobs).

Definition job_write (i : nat) : G -> G := match (jobs !! i : option job) with Some m => eval ans m | None => id end.

Definition running (w : worker) : Prop := match w with Running _ => True | _ => False end.

(** The shared variable has the writes of the jobs that are past them. *)
Definition wrote (n : nat) (live : gmap nat worker) (g : G) : Prop :=
  exists done, NoDup done /\ g = foldr job_write g0 done /\
    forall i, i ∈ done <-> (i < n)%nat /\ forall m, live !! i <> Some (Running m).

(** What holds in every state: the goroutines are those of the jobs started, each on its
    way to the write of its job. *)
Record pool_ok (p : pool) : Prop := {
  ok_next : (pl_next p <= length jobs)%nat;
  ok_live : forall j w, pl_live p !! j = Some w -> (j < pl_next p)%nat;
  ok_running : forall j m, pl_live p !! j = Some (Running m) -> eval ans m = job_write j;
  ok_wrote : wrote (pl_next p) (pl_live p) (pl_shared p);
  ok_sem : sem p <= clamp concurrency (length jobs);
  ok_returned : pl_returned p = true -> pl_cancelled p = false -> pl_next p = length jobs /\ pl_live p = ∅;
}.

Lemma clamp_bound : 0 <= clamp concurrency (length jobs) <= Z.max 1 concurrency.
Proof. unfold clamp. repeat case_match; lia. Qed.

Lemma pool_ok_start : pool_ok (start g0).
Proof.
  split; cbn; try done; [lia| |change (sem (start g0)) with 0; apply clamp_bound].
  exists []. split_and!; [constructor|done|]. intros j. split; [by intros ?%not_elem_of_nil|lia].
Qed.

(** A goroutine that does not write keeps what is known of the shared variable. *)
Lemma wrote_update n live g j w w' :
  live !! j = Some w -> ((exists m, w = Running m) <-> (exists m, w' = Running m)) ->
  wrote n live g -> wrote n (<[j := w']> live) g.
Proof.
  intros Hj Hw (done & Hnd & Hg & Hd). exists done. split_and!; [done..|]. intros i. rewrite Hd.
  destruct (decide (i = j)) as [->|Hne]; [|by rewrite lookup_insert_ne]. rewrite lookup_insert_eq, Hj. naive_solver.
Qed.

Lemma wrote_delete n live g j w :
  live !! j = Some w -> (forall m, w <> Running m) -> wrote n live g -> wrote n (delete j live) g.
Proof.
  intros Hj Hw (done & Hnd & Hg & Hd). exists done. split_and!; [done..|]. intros i. rewrite Hd.
  destruct (decide (i = j)) as [->|Hne]; [|by rewrite lookup_delete_ne]. rewrite lookup_delete_eq, Hj. naive_solver.
Qed.

Lemma wrote_spawn n live g m : live !! n = None -> wrote n live g -> wrote (S n) (<[n := Running m]> live) g.
Proof.
  intros Hj (done & Hnd & Hg & Hd). exists done. split_and!; [done..|]. intros i. rewrite Hd.
  destruct (decide (i = n)) as [->|Hne]; [|rewrite lookup_insert_ne by done].
  - rewrite lookup_insert_eq. naive_solver lia.
  - split; intros [? ?]; (split; [lia|done]).
Qed.

Lemma wrote_write n live g j m :
  live !! j = Some (Running m) -> (j < n)%nat -> wrote n live g -> wrote n (<[j := Written]> live) (job_write j g).
Proof.
  intros Hj Hlt (done & Hnd & -> & Hd). exists (j :: done). split_and!.
  - constructor; [rewrite Hd; naive_solver|done].
  - done.
  - intros i. rewrite elem_of_cons, Hd. destruct (decide (i = j)) as [->|Hne].
    + rewrite lookup_insert_eq. naive_solver.
    + rewrite lookup_insert_ne by done. naive_solver.
Qed.

(** A step of the goroutine [j] that keeps it alive. *)
Lemma pool_ok_update n live g g' c r j w w' :
  pool_ok (mkPool n live g c r) -> live !! j = Some w -> taken w' <= taken w ->
  (forall m, w' = Running m -> eval ans m = job_write j) -> wrote n (<[j := w']> live) g' ->
  pool_ok (mkPool n (<[j := w']> live) g' c r).
Proof.
  intros [Hn Hl Hr Hsh Hsem Hret] Hj Ht Hw Hg. split; cbn in *; try done.
  - intros i w0 [[<- <-]|[? ?]]%lookup_insert_Some; eauto.
  - intros i m [[<- ->]|[? ?]]%lookup_insert_Some; eauto.
  - unfold sem in *. cbn in *. rewrite (weight_update taken live j w w' Hj). lia.
  - intros -> ->. destruct Hret as [_ ->]; done.
Qed.

Lemma pool_ok_step p p' : steps p p' -> pool_ok p -> pool_ok p'.
Proof.
  intros Hs Hok. pose proof Hok as [Hn Hl Hr Hsh Hsem Hret]. destruct Hs as [i live g c m Hm Hlt|i live g Hi|live g c ->|
    i live g c r j B e k b Hj Hb|i live g c r j w Hj|i live g c r j Hj|i live g c r j Hj|i live g r]; cbn in *.
  - assert (live !! i = None) as Hnone by (apply eq_None_not_Some; intros [w Hw]; specialize (Hl _ _ Hw); lia).
    split; cbn; try done.
    + apply lookup_lt_Some in Hm. lia.
    + intros j w [[<- _]|[_ Hj]]%lookup_insert_Some; [lia|]. specialize (Hl _ _ Hj). lia.
    + intros j m' [[<- [= <-]]|[_ Hj]]%lookup_insert_Some; [|eauto]. unfold job_write. by rewrite Hm.
    + by apply wrote_spawn.
    + unfold sem in *. cbn in *. rewrite weight_insert by done. cbn. lia.
  - by split.
  - split; try done.
  - rewrite Hb. apply (pool_ok_update i live g g c r j _ _ Hok Hj); [done| |].
    + intros m [= <-]. exact (Hr _ _ Hj).
    + eapply wrote_update; [done| |done]. split; eauto.
  - pose proof (Hr _ _ Hj) as Hw. cbn in Hw. subst w.
    apply (pool_ok_update i live g _ c r j _ _ Hok Hj); [done|by intros|]. eapply wrote_write; eauto.
  - apply (pool_ok_update i live g g c r j _ _ Hok Hj); [done|by intros|]. eapply wrote_update; [done| |done]. naive_solver.
  - split; cbn; try done.
    + intros j' w [_ ?]%lookup_delete_Some. eauto.
    + intros j' m [_ ?]%lookup_delete_Some. eauto.
    + by eapply wrote_delete.
    + unfold sem in *. cbn in *. rewrite (weight_delete taken live j _ Hj). cbn. lia.
    + intros -> ->. destruct Hret as [-> ->]; [done..|]. by rewrite delete_empty.
  - by split.
Qed.

Lemma pool_ok_reachable p : rtc steps (start g0) p -> pool_ok p.
Proof. revert p. apply rtc_ind_r; [apply pool_ok_start|]. intros p p' _ Hs Hok. by eapply pool_ok_step. Qed.

Lemma sequential_from pre l g :
  jobs = pre ++ l -> foldl (fun g m => eval ans m g) g l = foldl (fun g i => job_write i g) g (seq (length pre) (length l)).
Proof.
  revert pre g. induction l as [|m l IH]; intros pre g Hjobs; cbn; [done|].
  rewrite (IH (pre ++ [m])) by (by rewrite <- app_assoc). rewrite length_app. cbn. rewrite Nat.add_1_r. do 2 f_equal.
  unfold job_write. by rewrite Hjobs, list_lookup_middle.
Qed.

Lemma foldl_foldr_reverse {A} (f : A -> G -> G) g l : foldl (fun g a => f a g) g l = foldr f g (reverse l).
Proof. revert g. induction l as [|a l IH]; intros g; [done|]. rewrite reverse_cons, foldr_app. cbn. by rewrite IH. Qed.

(** When all have written, the order does not matter. *)
Lemma wrote_all g : independent -> wrote (length jobs) ∅ g -> g = sequential.
Proof.
  intros Hi (done & Hnd & -> & Hd). unfold sequential. rewrite (sequential_from []) by done.
  rewrite (foldl_foldr_reverse job_write). apply (foldr_permutation eq); [apply _| |].
  - intros i1 j1 i2 j2 g Hne H1 H2. unfold job_write. assert (j1 <> j2) as Hj by (intros <-; by apply Hne, (NoDup_lookup done i1 i2 j1)).
    destruct (jobs !! j1) eqn:E1, (jobs !! j2) eqn:E2; try done. by apply (Hi j1 j2).
  - apply NoDup_Permutation; [done|rewrite reverse_Permutation; apply NoDup_seq|].
    intros i. rewrite Hd, elem_of_reverse, elem_of_seq, lookup_empty. naive_solver lia.
Qed.

(** ** The pool ends *)

Fixpoint calls (m : job) : Z := match m with Done _ => 0 | Call e k => 1 + calls (k (ans _ e)) end.

Definition todo (w : worker) : Z := match w with Running m => 3 + calls m | Written => 2 | Released => 1 end.

(** The steps that are left, at most. *)
Definition measure (p : pool) : Z :=
  foldr (fun m n => 4 + calls m + n) 0 (drop (pl_next p) jobs) + weight todo (pl_live p) +
  (if pl_cancelled p then 0 else 1) + (if pl_returned p then 0 else 1).

Lemma calls_nonneg m : 0 <= calls m.
Proof. induction m as [w|B e k IH]; cbn; [lia|]. specialize (IH (ans _ e)). lia. Qed.

Lemma measure_nonneg p : 0 <= measure p.
Proof.
  unfold measure. assert (0 <= weight todo (pl_live p)).
  { apply weight_nonneg. intros [m| |]; cbn; [pose proof (calls_nonneg m)|..]; lia. }
  assert (forall l, 0 <= foldr (fun m n => 4 + calls m + n) 0 l) as Hl.
  { intros l. induction l as [|m l IH]; cbn; [lia|]. pose proof (calls_nonneg m). lia. }
  specialize (Hl (drop (pl_next p) jobs)). repeat case_match; lia.
Qed.

Lemma measure_step p p' : steps p p' -> pool_ok p -> measure p' < measure p.
Proof.
  intros Hs [Hn Hl _ _ _ _]. destruct Hs as [i live g c m Hm Hlt|i live g Hi|live g c ->|
    i live g c r j B e k b Hj Hb|i live g c r j w Hj|i live g c r j Hj|i live g c r j Hj|i live g r]; unfold measure; cbn in *.
  - assert (live !! i = None) as Hnone by (apply eq_None_not_Some; intros [w Hw]; specialize (Hl _ _ Hw); lia).
    rewrite (drop_S jobs m i Hm), weight_insert by done. cbn. lia.
  - lia.
  - lia.
  - rewrite Hb, (weight_update todo live j _ _ Hj). cbn. lia.
  - rewrite (weight_update todo live j _ _ Hj). cbn. lia.
  - rewrite (weight_update todo live j _ _ Hj). cbn. lia.
  - rewrite (weight_delete todo live j _ Hj). cbn. lia.
  - lia.
Qed.

(** Nobody waits for ever: a pool that has not returned can go on. *)
Lemma pool_progress p : pool_ok p -> pl_returned p = false -> exists p', steps p p' /\ pl_cancelled p' = pl_cancelled p.
Proof.
  destruct p as [n live g c r]. intros [Hn Hl _ _ Hsem _] Hret. cbn in *. subst r.
  destruct (decide (live = ∅)) as [->|Hne].
  - destruct (jobs !! n) as [m|] eqn:Em.
    + eexists. split; [apply (step_spawn _ _ _ n ∅ g c m Em)|done]. unfold sem. cbn. apply lookup_lt_Some in Em.
      change (weight taken ∅) with 0. unfold clamp. repeat case_match; lia.
    + assert (n = length jobs) as -> by (apply lookup_ge_None in Em; lia). eexists. split; [by apply step_wait|done].
  - apply map_choose in Hne as (j & w & Hj). destruct w as [[w|B e k]| |].
    + eexists. split; [by eapply step_write|done].
    + eexists. split; [by eapply step_call|done].
    + eexists. split; [by eapply step_release|done].
    + eexists. split; [by eapply step_done|done].
Qed.

Lemma pool_terminates p : pool_ok p -> Acc (flip steps) p.
Proof.
  remember (Z.to_nat (measure p)) as n eqn:En. revert p En. induction (lt_wf n) as [n _ IH]. intros p En Hok.
  constructor. intros p' Hs. eapply IH; [|done|by eapply pool_ok_step].
  pose proof (measure_step _ _ Hs Hok). pose proof (measure_nonneg p). pose proof (measure_nonneg p'). lia.
Qed.

(** An uncancelled pool can always be run to its end. *)
Lemma pool_returns p :
  pool_ok p -> pl_cancelled p = false -> exists p', rtc steps p p' /\ pl_cancelled p' = false /\ pl_returned p' = true.
Proof.
  intros Hok. induction (pool_terminates p Hok) as [p _ IH]. intros Hc. destruct (pl_returned p) eqn:Er; [by exists p; split; [apply rtc_refl|]|].
  destruct (pool_progress p Hok Er) as (p1 & Hs & Hc1). rewrite Hc in Hc1.
  destruct (IH p1 Hs (pool_ok_step _ _ Hs Hok) Hc1) as (p' & Hr & ?). exists p'. split; [by eapply rtc_l|done].
Qed.

Lemma returned_sequential p :
  independent -> pool_ok p -> pl_returned p = true -> pl_cancelled p = false -> pl_live p = ∅ /\ pl_shared p = sequential.
Proof.
  intros Hi Hok Hr Hc. destruct (ok_returned _ Hok Hr Hc) as [Hn Hl]. split; [done|].
  apply wrote_all; [done|]. pose proof (ok_wrote _ Hok) as Hw. by rewrite Hn, Hl in Hw.
Qed.

(** What an uncancelled call leaves to read is what the jobs one after the other leave. *)
Lemma run_jobs_sequential g : independent -> run_jobs_uncancelled oracle concurrency jobs g0 g <-> g = sequential.
Proof.
  intros Hi. split.
  - intros (p & Hok%pool_ok_reachable & Hc & Hr & <-). by apply returned_sequential.
  - intros ->. destruct (pool_returns (start g0) pool_ok_start) as (p & Hp & Hc & Hr); [done|].
    exists p. split_and!; [done..|]. apply returned_sequential; [done|by apply pool_ok_reachable|done..].
Qed.

(** A goroutine on its own gets to its write. *)
Lemma run_job i live g c r j m :
  live !! j = Some (Running m) ->
  rtc steps (mkPool i live g c r) (mkPool i (<[j := Running (Done (eval ans m))]> live) g c r).
Proof.
  revert live. induction m as [w|B e k IH]; intros live Hj; cbn; [by rewrite insert_id|].
  eapply rtc_l; [eapply step_call; [done|reflexivity]|].
  pose proof (IH (ans B e) (<[j := Running (k (ans B e))]> live) (lookup_insert_eq _ _ _)) as Hr. by rewrite insert_insert_eq in Hr.
Qed.

(** The worker pool.  When the calls of the jobs answer alike whenever they are made
    and different jobs write to different places: at any time at most [concurrency] jobs
    are inside their function (one, when the option is not positive); no schedule runs
    for ever and none is stuck before the pool returns; when it returns without having
    been cancelled, no goroutine is left; and what it then leaves to read is exactly what
    running the jobs one after the other gives. *)
Theorem schedule_does_not_matter :
  independent ->
  Acc (flip steps) (start g0) /\
  (forall p, rtc steps (start g0) p ->
     sem p <= Z.max 1 concurrency /\
     (pl_returned p = false -> exists p', steps p p' /\ pl_cancelled p' = pl_cancelled p) /\
     (pl_returned p = true -> pl_cancelled p = false -> pl_live p = ∅)) /\
  (forall g, run_jobs_uncancelled oracle concurrency jobs g0 g <-> g = sequential).
Proof.
  intros Hi. split_and!; [apply pool_terminates, pool_ok_start| |intros g; by apply run_jobs_sequential].
  intros p Hok%pool_ok_reachable. split_and!.
  - pose proof (ok_sem _ Hok). pose proof clamp_bound. lia.
  - by apply pool_progress.
  - intros Hr Hc. by apply returned_sequential.
Qed.
End oracle.
End pool.
Arguments worker : clear implicits.
Arguments pool : clear implicits.
Arguments job : clear implicits.

(** ** Jobs that each write their own slot of a slice *)

Section slots.
Context {E : Type -> Type} (ans : forall B, E B -> B) {K R : Type}.
Context (mk : nat -> K -> job E (list R)) (val : K -> R).
Hypothesis writes : forall i k, eval ans (mk i k) = fun results => <[i := val k]> results.

Lemma slots_independent keys : independent ans (imap mk keys).
Proof.
  intros i j m m' g Hne. rewrite !list_lookup_imap. intros (k & _ & ->)%fmap_Some (k' & _ & ->)%fmap_Some.
  rewrite !writes. by apply list_insert_insert_ne.
Qed.

Lemma slots_from z pre keys :
  foldl (fun g m => eval ans m g) (pre ++ replicate (length keys) z) (imap (fun i => mk (length pre + i)%nat) keys) = pre ++ (val <$> keys).
Proof.
  revert pre. induction keys as [|k keys IH]; intros pre; cbn; [done|].
  rewrite writes, insert_app_r. cbn. rewrite !(cons_middle (val k)), !(app_assoc pre). rewrite <- IH, length_app. cbn.
  f_equal. apply imap_ext. intros j k' _. unfold compose. by rewrite Nat.add_succ_r, Nat.add_1_r.
Qed.

Lemma slots_sequential z keys : sequential ans (imap mk keys) (replicate (length keys) z) = val <$> keys.
Proof. apply (slots_from z []). Qed.
End slots.
