(* ===== verification/Activeruns.v ===== *)
(** * internal/activeruns: what is running now (activeruns.go)

    [Collect] resolves the fleet, lists the active runs of every repository and status in
    a worker pool ([WorkerPool]), estimates the remaining time of each from the history of
    its workflow in a second pool, sorts and sums up.  The injected functions and the pool
    are the effects; JSON is two decoders. *)

From S2P Require Import Prelude GoStrings GoQuote Regex Prog Civm RunnerUnits WorkerPool.

Local Open Scope string_scope.
Local Open Scope list_scope.
Local Open Scope Z_scope.

Record ActiveRun := mkActiveRun {
  ar_DatabaseID : Z; ar_Repo : string; ar_Workflow : string; ar_Title : string; ar_Event : string;
  ar_Branch : string; ar_Status : string; ar_URL : string; ar_CreatedAt : Z; ar_AvgDurationSec : option Z;
}.

Record ActiveSummary := mkActiveSummary { as_InProgress : Z; as_Queued : Z; as_ETATotalSec : Z }.

Record ActiveReport := mkActiveReport {
  ap_CollectedAt : Z; ap_Runs : list ActiveRun; ap_Summary : ActiveSummary; ap_Exit : Z;
}.

Record ActiveOptions := mkActiveOptions {
  ao_Repos : list string; ao_InferRepos : bool; ao_IncludeETA : bool;
  ao_Limit : Z; ao_HistoryLimit : Z; ao_Concurrency : Z;
}.

(** The rows of [gh run list]. *)
Record ghRun := mkGhRun {
  gr_DatabaseID : Z; gr_DisplayTitle : string; gr_WorkflowName : string; gr_Event : string;
  gr_HeadBranch : string; gr_CreatedAt : Z; gr_URL : string; gr_Status : string;
}.
Record histEntry := mkHistEntry { he_WorkflowName : string; he_CreatedAt : Z; he_UpdatedAt : Z }.

#[global] Instance ActiveRun_eq_dec : EqDecision ActiveRun.
Proof. solve_decision. Defined.

(** The commands a job runs. *)
Inductive ghE : Type -> Type :=
  | RunFn (name : string) (args : list string) : ghE (result string).

(** The injected functions and the worker pool. *)
Inductive activeE : Type -> Type :=
  | Now : activeE Z
  | SystemRunnersFn : activeE (list Status * err_ret)
  | ReposConfigFn : activeE (result (list string))
  | OrgReposFn (org : string) : activeE (result (list string))
  | RunJobs {G : Type} (concurrency : Z) (jobs : list (job ghE G)) (g : G) : activeE G.

Definition active_applyDefaults (opts : ActiveOptions) : ActiveOptions :=
  mkActiveOptions (ao_Repos opts) (ao_InferRepos opts) (ao_IncludeETA opts)
    (if ao_Limit opts <=? 0 then 5 else ao_Limit opts)
    (if ao_HistoryLimit opts <=? 0 then 10 else ao_HistoryLimit opts)
    (if ao_Concurrency opts <=? 0 then 8 else ao_Concurrency opts).

Definition active_DefaultOptions : ActiveOptions := mkActiveOptions [] false true 5 10 8.

(** ** The fleet *)

Definition owner_chars : class := alnum ++ chars "_.-".
Definition validRepoShape : regex := RCat (plus (RCls owner_chars)) (RCat (lit "/") (plus (RCls owner_chars))).
Definition validOrgShape : regex := RCat (RCls alnum) (upto 38 (RCls (alnum ++ chars "-"))).

(** The first of each, in order. *)
Fixpoint once {K} `{Countable K} (seen : gset K) (l : list K) : list K :=
  match l with
  | [] => []
  | k :: l => if decide (k ∈ seen) then once seen l else k :: once ({[k]} ∪ seen) l
  end.

Section fleet.
Context `{SortSlice}.

Definition inferReposFromSystemd (systemd : list Status) : list string :=
  sort_slice String.ltb
    (once ∅ (List.filter (fun repo => negb (String.eqb repo "") && MatchString validRepoShape repo) (st_Repo <$> systemd))).

Definition inferOrgsFromSystemd (systemd : list Status) : list string :=
  sort_slice String.ltb (once ∅ (List.filter (MatchString validOrgShape) (st_Repo <$> systemd))).

Fixpoint validateRepos (repos : list string) : err_ret :=
  match repos with
  | [] => None
  | r :: repos => match ValidateRepo r with Some e => Some e | None => validateRepos repos end
  end.

Fixpoint org_repos (orgs : list string) (repos : list string) : prog activeE (result (list string)) :=
  match orgs with
  | [] => mret (Ok repos)
  | org :: orgs =>
      orgRepos ← call (OrgReposFn org);
      match orgRepos with
      | Err e => mret (Err (Errorf_w ("infer repos from org " +:+ org) e))
      | Ok orgRepos => org_repos orgs (repos ++ orgRepos)
      end
  end.

Definition infer_repos : prog activeE (result (list string)) :=
  systemd ← call SystemRunnersFn;
  match systemd with
  | (_, Some e) => mret (Err (Errorf_w "infer repos" e))
  | (systemd, None) =>
      match inferReposFromSystemd systemd with
      | _ :: _ as repos => mret (Ok repos)
      | [] =>
          config ← call ReposConfigFn;
          match config with
          | Err e => mret (Err (Errorf_w "infer repos from config" e))
          | Ok (_ :: _ as repos) => mret (Ok repos)
          | Ok [] => org_repos (inferOrgsFromSystemd systemd) []
          end
      end
  end.

Definition resolveRepos (opts : ActiveOptions) : prog activeE (result (list string)) :=
  repos ← (if ao_InferRepos opts && bool_decide (ao_Repos opts = []) then infer_repos else mret (Ok (ao_Repos opts)));
  mret (match repos with
        | Err e => Err e
        | Ok repos => match validateRepos repos with Some e => Err e | None => Ok repos end
        end).
End fleet.

(** ** The default sources of the fleet *)

Definition config_value (value : string) : result string :=
  let value := TrimSpace value in
  if HasPrefix value (String "034" "") then
    match Unquote value with
    | Some value => Ok value
    | None => Err (Errorf "parse CIVM_REAPER_REPOS: invalid syntax")
    end
  else if (2 <=? len value) && HasPrefix value "'" && HasSuffix value "'"
  then Ok (take_str (String.length value - 2) (drop_str 1 value))
  else Ok value.

Definition config_repos (value : string) : list string :=
  List.filter (fun repo => negb (String.eqb repo "")) (TrimSpace <$> Split "," value).

Fixpoint parse_config_lines (lines : list string) : result (list string) :=
  match lines with
  | [] => Ok []
  | line :: lines =>
      match Cut "=" (TrimSpace line) with
      | Some (key, value) =>
          if String.eqb key "CIVM_REAPER_REPOS" then
            match config_value value with Err e => Err e | Ok value => Ok (config_repos value) end
          else parse_config_lines lines
      | None => parse_config_lines lines
      end
  end.

Definition parseReposConfig (data : string) : result (list string) := parse_config_lines (Split "010" data).

Inductive configE : Type -> Type :=
  | ReadFile (path : string) : configE (result string).

Definition defaultReposConfig : prog configE (result (list string)) :=
  data ← call (ReadFile "/etc/civm/run-reaper.env");
  mret (match data with
        | Err e => if errors_Is e ErrNotExist || errors_Is e ErrPermission then Ok [] else Err e
        | Ok data => parseReposConfig data
        end).

Section collect.
Context `{SortSlice, SortStable}.
(** [json.Unmarshal] into the rows of a listing, of a history and of the pages of
    repositories. *)
Context (decodeRuns : string -> result (list ghRun)) (decodeHistory : string -> result (list histEntry)).
Context (decodeRepoPages : string -> result (list (list (string * bool)))).

Definition orgReposFromGitHub (org : string) : prog ghE (result (list string)) :=
  out ← call (RunFn "gh" ["api"; "--paginate"; "--slurp"; "/orgs/" +:+ org +:+ "/repos?per_page=100"]);
  mret (match out with
        | Err e => Err e
        | Ok out =>
            match decodeRepoPages out with
            | Err e => Err (Errorf_w "parse paginated org repos" e)
            | Ok pages => Ok (sort_slice String.ltb (fst <$> List.filter (fun '(_, archived) => negb archived) (concat pages)))
            end
        end).

(** ** The jobs *)

Definition run_of (repo : string) (g : ghRun) : ActiveRun :=
  mkActiveRun (gr_DatabaseID g) repo (gr_WorkflowName g) (gr_DisplayTitle g) (gr_Event g) (gr_HeadBranch g)
    (gr_Status g) (gr_URL g) (gr_CreatedAt g) None.

Definition listRuns (repo status : string) (limit : Z) : prog ghE (list ActiveRun * err_ret) :=
  out ← call (RunFn "gh" ["run"; "list"; "--repo"; repo; "--status"; status; "--limit"; Itoa limit; "--json";
                          "databaseId,displayTitle,workflowName,event,headBranch,createdAt,url,status"]);
  mret (match out with
        | Err e => ([], Some (Errorf_w ("gh run list " +:+ repo +:+ " " +:+ status) e))
        | Ok out =>
            if String.eqb out "" then ([], None)
            else match decodeRuns out with
                 | Err e => ([], Some (Errorf_w ("parse gh run list " +:+ repo +:+ " " +:+ status) e))
                 | Ok raw => (run_of repo <$> raw, None)
                 end
        end).

(** The sum and the number of the durations of a workflow. *)
Definition add_duration (workflow : string) (acc : Z * Z) (h : histEntry) : Z * Z :=
  let '(sum, count) := acc in
  if negb (String.eqb (he_WorkflowName h) workflow) then acc
  else
    let d := time_Sub (he_UpdatedAt h) (he_CreatedAt h) in
    if d <=? 0 then acc else (int64 (sum + whole_seconds d), count + 1).

Definition average (workflow : string) (raw : list histEntry) : Z :=
  let '(sum, count) := foldl (add_duration workflow) (0, 0) raw in
  if count =? 0 then 0 else Z.quot sum count.

Definition computeAvgDurationSec (repo workflow : string) (limit : Z) : prog ghE (result Z) :=
  out ← call (RunFn "gh" ["run"; "list"; "--repo"; repo; "--status"; "success"; "--limit"; Itoa limit; "--json";
                          "workflowName,createdAt,updatedAt"]);
  mret (match out with
        | Err e => Err e
        | Ok out =>
            if String.eqb out "" then Ok 0
            else match decodeHistory out with Err e => Err e | Ok raw => Ok (average workflow raw) end
        end).

Definition listKey : Type := string * string.
Record listResult := mkListResult { lr_key : listKey; lr_runs : list ActiveRun; lr_err : err_ret }.

Definition list_jobs (repos : list string) : list listKey :=
  concat ((fun r => [(r, "in_progress"); (r, "queued")]) <$> repos).

Definition fetch_job (limit : Z) (i : nat) (k : listKey) : job ghE (list listResult) :=
  r ← listRuns (fst k) (snd k) limit;
  let '(runs, err) := r in
  mret (fun results : list listResult => <[i := mkListResult k runs err]> results).

Definition exit_of (results : list listResult) : Z :=
  if existsb (fun r => bool_decide (lr_err r <> None)) results then 1 else 0.

Definition fetchActiveRuns (opts : ActiveOptions) (repos : list string) : prog activeE (list ActiveRun * Z) :=
  let jobs := list_jobs repos in
  results ← call (RunJobs (ao_Concurrency opts) (imap (fetch_job (ao_Limit opts)) jobs)
                    (replicate (length jobs) (mkListResult ("", "") [] None)));
  mret (concat (lr_runs <$> results), exit_of results).

Definition wfKey : Type := string * string.
Definition wf_key (r : ActiveRun) : wfKey := (ar_Repo r, ar_Workflow r).

Definition eta_job (historyLimit : Z) (k : wfKey) : job ghE (gmap wfKey Z) :=
  avg ← computeAvgDurationSec (fst k) (snd k) historyLimit;
  mret (match avg with
        | Err _ => fun avgs : gmap wfKey Z => avgs
        | Ok avg => if avg =? 0 then fun avgs => avgs else fun avgs => <[k := avg]> avgs
        end).

Definition with_avg (avgs : gmap wfKey Z) (r : ActiveRun) : ActiveRun :=
  match avgs !! wf_key r with
  | Some v => mkActiveRun (ar_DatabaseID r) (ar_Repo r) (ar_Workflow r) (ar_Title r) (ar_Event r) (ar_Branch r)
                (ar_Status r) (ar_URL r) (ar_CreatedAt r) (Some v)
  | None => r
  end.

Definition enrichETA (opts : ActiveOptions) (all : list ActiveRun) : prog activeE (list ActiveRun) :=
  avgs ← call (RunJobs (ao_Concurrency opts) (eta_job (ao_HistoryLimit opts) <$> once ∅ (wf_key <$> all)) ∅);
  mret (with_avg avgs <$> all).

(** ** The report *)

Definition run_before (a b : ActiveRun) : bool :=
  if negb (String.eqb (ar_Status a) (ar_Status b)) then String.eqb (ar_Status a) "in_progress"
  else ar_CreatedAt b <? ar_CreatedAt a.

Definition add_run (now : Z) (s : ActiveSummary) (r : ActiveRun) : ActiveSummary :=
  if String.eqb (ar_Status r) "in_progress" then
    mkActiveSummary (as_InProgress s + 1) (as_Queued s)
      (match ar_AvgDurationSec r with
       | Some avg =>
           let remaining := int64 (avg - whole_seconds (time_Sub now (ar_CreatedAt r))) in
           if 0 <? remaining then int64 (as_ETATotalSec s + remaining) else as_ETATotalSec s
       | None => as_ETATotalSec s
       end)
  else if String.eqb (ar_Status r) "queued" then
    mkActiveSummary (as_InProgress s) (as_Queued s + 1)
      (match ar_AvgDurationSec r with Some avg => int64 (as_ETATotalSec s + avg) | None => as_ETATotalSec s end)
  else s.

Definition summarize (runs : list ActiveRun) (now : Z) : ActiveSummary := foldl (add_run now) (mkActiveSummary 0 0 0) runs.

Definition Collect (opts : ActiveOptions) : prog activeE (result ActiveReport) :=
  let opts := active_applyDefaults opts in
  repos ← resolveRepos opts;
  match repos with
  | Err e => mret (Err e)
  | Ok repos =>
      collectedAt ← call Now;
      if bool_decide (repos = []) then mret (Ok (mkActiveReport collectedAt [] (mkActiveSummary 0 0 0) 0))
      else
        fetched ← fetchActiveRuns opts repos;
        let '(all, exitCode) := fetched in
        all ← (if ao_IncludeETA opts && negb (bool_decide (all = [])) then enrichETA opts all else mret all);
        let all := sort_stable run_before all in
        now ← call Now;
        mret (Ok (mkActiveReport collectedAt all (summarize all now) exitCode))
  end.
End collect.

Example parse_config_ex :
  parseReposConfig ("A=1" +:+ String "010" ("CIVM_REAPER_REPOS=" +:+ String "034" ("a/b, c/d" +:+ String "034" ""))) = Ok ["a/b"; "c/d"].
Proof. reflexivity. Qed.
