(* ===== verification/ActiverunsSafety.v ===== *)
(** * activeruns: the report under any schedule

    Every call of gh answers alike whenever it is made ([gh]); the pools run under any
    schedule and are not cancelled.  Then the report is a function of the answers. *)

From S2P Require Import Prelude GoStrings Regex Prog Civm RunnerUnits WorkerPool Activeruns.

Local Open Scope string_scope.
Local Open Scope list_scope.
Local Open Scope Z_scope.

Section report.
Context `{SortSlice, SortStable}.
Context (decodeRuns : string -> result (list ghRun)) (decodeHistory : string -> result (list histEntry)).
Context (gh : forall B, ghE B -> B).

(** What gh says of a repository and status, and of the history of a workflow. *)
Definition listed (limit : Z) (k : listKey) : list ActiveRun * err_ret := eval gh (listRuns decodeRuns (fst k) (snd k) limit).
Definition estimated (historyLimit : Z) (k : wfKey) : option Z :=
  match eval gh (computeAvgDurationSec decodeHistory (fst k) (snd k) historyLimit) with
  | Ok avg => if avg =? 0 then None else Some avg
  | Err _ => None
  end.

(** ** The two pools *)

Definition result_of (limit : Z) (k : listKey) : listResult := mkListResult k (fst (listed limit k)) (snd (listed limit k)).

Lemma eval_fetch_job limit i k : eval gh (fetch_job decodeRuns limit i k) = fun results => <[i := result_of limit k]> results.
Proof.
  unfold fetch_job, result_of, listed. rewrite eval_bind. by destruct (eval gh (listRuns decodeRuns (fst k) (snd k) limit)).
Qed.

Lemma fetch_independent limit keys : independent gh (imap (fetch_job decodeRuns limit) keys).
Proof. apply (slots_independent gh _ (result_of limit)). apply eval_fetch_job. Qed.

Lemma fetch_sequential limit keys z :
  sequential gh (imap (fetch_job decodeRuns limit) keys) (replicate (length keys) z) = result_of limit <$> keys.
Proof. apply slots_sequential. apply eval_fetch_job. Qed.

Lemma eval_eta_job limit k :
  eval gh (eta_job decodeHistory limit k) = fun avgs => match estimated limit k with Some v => <[k := v]> avgs | None => avgs end.
Proof.
  unfold eta_job, estimated. rewrite eval_bind. destruct (eval gh (computeAvgDurationSec _ _ _ _)) as [avg|e]; [|done]. cbn.
  by destruct (avg =? 0).
Qed.

Lemma eta_independent limit keys : NoDup keys -> independent gh (eta_job decodeHistory limit <$> keys).
Proof.
  intros Hnd i j m m' g Hne. rewrite !list_lookup_fmap. intros (k & Hk & ->)%fmap_Some (k' & Hk' & ->)%fmap_Some.
  rewrite !eval_eta_job. destruct (estimated limit k), (estimated limit k'); try done.
  apply insert_insert_ne. intros <-. by apply Hne, (NoDup_lookup keys i j k).
Qed.

Lemma eta_sequential limit keys avgs k :
  sequential gh (eta_job decodeHistory limit <$> keys) avgs !! k =
  match estimated limit k with Some v => if decide (k ∈ keys) then Some v else avgs !! k | None => avgs !! k end.
Proof.
  unfold sequential. revert avgs. induction keys as [|k' keys IH]; intros avgs.
  - destruct (estimated limit k); [|done]. rewrite decide_False by apply not_elem_of_nil. done.
  - cbn -[eta_job]. rewrite eval_eta_job, IH. destruct (decide (k = k')) as [->|Hne].
    + destruct (estimated limit k') as [v|]; [|done].
      rewrite (decide_True (P := k' ∈ k' :: keys)) by apply list_elem_of_here. rewrite lookup_insert_eq. by case_decide.
    + assert (match estimated limit k' with Some v => <[k' := v]> avgs | None => avgs end !! k = avgs !! k) as ->.
      { destruct (estimated limit k'); [by rewrite lookup_insert_ne|done]. }
      destruct (estimated limit k); [|done]. do 2 case_decide; set_solver.
Qed.

Lemma elem_of_once {K} `{Countable K} (seen : gset K) l k : k ∈ once seen l <-> k ∈ l /\ k ∉ seen.
Proof.
  revert seen. induction l as [|x l IH]; intros seen; cbn; [set_solver|].
  case_decide; [rewrite IH; set_solver|]. rewrite elem_of_cons, IH, elem_of_cons. destruct (decide (k = x)); set_solver.
Qed.

Lemma NoDup_once {K} `{Countable K} (seen : gset K) l : NoDup (once seen l).
Proof.
  revert seen. induction l as [|x l IH]; intros seen; cbn; [constructor|]. case_decide; [done|].
  constructor; [rewrite elem_of_once; set_solver|done].
Qed.

(** ** The report *)

(** The environment: the pools are run by any schedule and not cancelled. *)
Definition fleet_spec : spec activeE unit := {|
  allowed _ _ _ := True;
  answers B e _ :=
    match e in activeE B return B -> unit -> Prop with
    | RunJobs c jobs g => fun g' _ => run_jobs_uncancelled (oracle gh) c jobs g g'
    | _ => fun _ _ => True
    end;
|}.

(** The runs gh lists, repository by repository. *)
Definition all_runs (limit : Z) (repos : list string) : list ActiveRun := concat (fst ∘ listed limit <$> list_jobs repos).

(** A run with the estimate from the history of its workflow. *)
Definition expected (opts : ActiveOptions) (r : ActiveRun) : ActiveRun :=
  mkActiveRun (ar_DatabaseID r) (ar_Repo r) (ar_Workflow r) (ar_Title r) (ar_Event r) (ar_Branch r) (ar_Status r) (ar_URL r)
    (ar_CreatedAt r) (if ao_IncludeETA opts then estimated (ao_HistoryLimit opts) (wf_key r) else None).

Definition has_status (status : string) (r : ActiveRun) : bool := String.eqb (ar_Status r) status.

(** The seconds a run is expected to take from [now] on. *)
Definition eta (now : Z) (r : ActiveRun) : Z :=
  match ar_AvgDurationSec r with
  | None => 0
  | Some avg =>
      if has_status "in_progress" r then Z.max 0 (int64 (avg - whole_seconds (time_Sub now (ar_CreatedAt r))))
      else if has_status "queued" r then avg
      else 0
  end.

Definition sum_eta (now : Z) (runs : list ActiveRun) : Z := foldr (fun r n => eta now r + n) 0 runs.

(** The summary of a list of runs; its estimate is an [int64]. *)
Definition summary_of (now : Z) (runs : list ActiveRun) : ActiveSummary :=
  mkActiveSummary (Z.of_nat (length (List.filter (has_status "in_progress") runs)))
    (Z.of_nat (length (List.filter (has_status "queued") runs))) (int64 (sum_eta now runs)).

Definition known_status (r : ActiveRun) : Prop := ar_Status r = "in_progress" \/ ar_Status r = "queued".

(** Running before queued, and each newest first. *)
Definition in_order (a b : ActiveRun) : Prop :=
  (ar_Status a = "in_progress" \/ ar_Status b = "queued") /\
  (ar_Status a = ar_Status b -> ar_CreatedAt b <= ar_CreatedAt a).

Record right_report (opts : ActiveOptions) (repos : list string) (r : ActiveReport) : Prop := {
  rr_runs : ap_Runs r ≡ₚ expected opts <$> all_runs (ao_Limit opts) repos;
  rr_exit : ap_Exit r = if existsb (fun k => bool_decide (snd (listed (ao_Limit opts) k) <> None)) (list_jobs repos) then 1 else 0;
  rr_summary : exists now, ap_Summary r = summary_of now (ap_Runs r);
  rr_order : Forall known_status (all_runs (ao_Limit opts) repos) -> StronglySorted in_order (ap_Runs r);
}.

Lemma summarize_from now runs p q n :
  foldl (add_run now) (mkActiveSummary p q (int64 n)) runs =
  mkActiveSummary (p + as_InProgress (summary_of now runs)) (q + as_Queued (summary_of now runs)) (int64 (n + sum_eta now runs)).
Proof.
  revert p q n. induction runs as [|r runs IH]; intros p q n; cbn -[int64].
  { by rewrite !Z.add_0_r. }
  assert (add_run now (mkActiveSummary p q (int64 n)) r =
    mkActiveSummary (p + if has_status "in_progress" r then 1 else 0)
      (q + if has_status "queued" r then 1 else 0) (int64 (n + eta now r))) as ->.
  { unfold add_run, eta, has_status. cbn -[int64]. destruct (String.eqb_spec (ar_Status r) "in_progress") as [E|E].
    - rewrite E. cbn -[int64]. f_equal; [lia|]. destruct (ar_AvgDurationSec r) as [avg|]; [|by rewrite Z.add_0_r].
      destruct (Z.ltb_spec 0 (int64 (avg - whole_seconds (time_Sub now (ar_CreatedAt r))))).
      + rewrite int64_add_l. f_equal. lia.
      + f_equal. lia.
    - destruct (String.eqb (ar_Status r) "queued"); cbn -[int64].
      + f_equal; [lia|]. destruct (ar_AvgDurationSec r) as [avg|]; [by rewrite int64_add_l|by rewrite Z.add_0_r].
      + destruct (ar_AvgDurationSec r); by rewrite !Z.add_0_r. }
  rewrite IH. unfold summary_of. cbn -[int64]. f_equal.
  - destruct (has_status "in_progress" r); cbn [length]; lia.
  - destruct (has_status "queued" r); cbn [length]; lia.
  - fold (sum_eta now runs). f_equal. lia.
Qed.

Lemma summarize_ok now runs : summarize runs now = summary_of now runs.
Proof. unfold summarize. change 0 with (int64 0) at 3. by rewrite summarize_from. Qed.

(** ** Order *)

(** [run_before] on runs that are in progress or queued. *)
Definition newer_first (a b : ActiveRun) : bool :=
  if Bool.eqb (has_status "in_progress" a) (has_status "in_progress" b) then ar_CreatedAt b <? ar_CreatedAt a
  else has_status "in_progress" a.

Lemma run_before_known a b : known_status a -> known_status b -> run_before a b = newer_first a b.
Proof. unfold run_before, newer_first, has_status. by intros [-> | ->] [-> | ->]. Qed.

Lemma newer_first_asym a b : newer_first a b = true -> newer_first b a = false.
Proof.
  unfold newer_first. destruct (has_status "in_progress" a), (has_status "in_progress" b); cbn; try done;
    rewrite Z.ltb_lt, Z.ltb_ge; lia.
Qed.

Lemma newer_first_trans a b c : newer_first b a = false -> newer_first c b = false -> newer_first c a = false.
Proof.
  unfold newer_first. destruct (has_status "in_progress" a), (has_status "in_progress" b), (has_status "in_progress" c);
    cbn; try done; rewrite !Z.ltb_ge; lia.
Qed.

Lemma sorted_runs runs : Forall known_status runs -> StronglySorted in_order (sort_stable run_before runs).
Proof.
  intros Hk. rewrite Forall_forall in Hk. rewrite sort_stable_eq.
  2: { intros x y Hx Hy. rewrite !run_before_known by auto. apply newer_first_asym. }
  2: { intros x y z Hx Hy Hz. rewrite !run_before_known by auto. apply newer_first_trans. }
  rewrite (insertion_sort_ext run_before newer_first) by (intros; apply run_before_known; auto).
  assert (Forall known_status (insertion_sort newer_first runs)) as Hk'.
  { rewrite insertion_sort_perm. by apply Forall_forall. }
  pose proof (insertion_sort_sorted newer_first runs newer_first_asym newer_first_trans) as Hs.
  induction Hs as [|a l _ IH Ha]; constructor; inversion Hk' as [|? ? Hka Hkl]; subst; [auto|].
  rewrite Forall_forall in Ha, Hkl. apply Forall_forall. intros b Hb. specialize (Ha b Hb). destruct (Hkl b Hb) as [Eb|Eb];
    destruct Hka as [Ea|Ea]; revert Ha; unfold newer_first, has_status, in_order; rewrite Ea, Eb; cbn; rewrite ?Z.ltb_ge; naive_solver.
Qed.

(** ** The whole command *)

Lemma run_of_unestimated limit repos r : r ∈ all_runs limit repos -> ar_AvgDurationSec r = None.
Proof.
  unfold all_runs. rewrite list_elem_of_In, in_concat. intros (l & Hl%list_elem_of_In & Hr%list_elem_of_In).
  apply list_elem_of_fmap in Hl as (k & -> & _). revert Hr. unfold compose, listed, listRuns.
  rewrite eval_bind. cbn. repeat case_match; cbn; try by intros ?%not_elem_of_nil. by intros (g & -> & _)%list_elem_of_fmap.
Qed.

Lemma existsb_fmap {A B} (f : A -> B) (p : B -> bool) l : existsb p (f <$> l) = existsb (p ∘ f) l.
Proof. induction l as [|a l IH]; cbn; [done|]. by rewrite IH. Qed.

Lemma wpp_any {A} (m : prog activeE A) s : wpp fleet_spec m (fun _ _ => True) s.
Proof. revert s. induction m as [a|B e k IH]; intros s; [done|]. split; [done|]. intros. apply IH. Qed.

(** A given fleet is validated and used. *)
Lemma wpp_resolveRepos opts :
  wpp fleet_spec (resolveRepos opts)
    (fun r _ => match r with
                | Ok repos => validateRepos repos = None /\ (ao_Repos opts <> [] -> repos = ao_Repos opts)
                | Err _ => ao_Repos opts <> [] -> validateRepos (ao_Repos opts) <> None
                end) tt.
Proof.
  unfold resolveRepos. apply wpp_bind.
  apply (wpp_mono _ _ (fun r _ => ao_Repos opts <> [] -> r = Ok (ao_Repos opts))).
  - case_bool_decide as E; [|rewrite andb_false_r; by apply wpp_ret]. destruct (ao_InferRepos opts && true); [|by apply wpp_ret].
    eapply wpp_mono; [apply wpp_any|done].
  - intros [repos|e] [] Hr; cbn beta.
    + destruct (validateRepos repos) eqn:Ev; apply wpp_ret.
      * intros Hne. specialize (Hr Hne). simplify_eq. by rewrite Ev.
      * split; [done|]. intros Hne. specialize (Hr Hne). by simplify_eq.
    + apply wpp_ret. intros Hne. by specialize (Hr Hne).
Qed.

Lemma wpp_fetch opts repos Q :
  Q (all_runs (ao_Limit opts) repos,
     if existsb (fun k => bool_decide (snd (listed (ao_Limit opts) k) <> None)) (list_jobs repos) then 1 else 0) tt ->
  wpp fleet_spec (fetchActiveRuns decodeRuns opts repos) Q tt.
Proof.
  intros HQ. unfold fetchActiveRuns. apply wpp_bind, wpp_call; [done|]. intros results [] Hr. cbn in Hr.
  apply run_jobs_sequential in Hr; [|apply fetch_independent]. rewrite fetch_sequential in Hr. subst results.
  apply wpp_ret. rewrite <- list_fmap_compose. unfold exit_of. rewrite existsb_fmap. exact HQ.
Qed.

Lemma wpp_enrichETA opts all (Q : list ActiveRun -> unit -> Prop) :
  ao_IncludeETA opts = true -> (forall r, r ∈ all -> ar_AvgDurationSec r = None) ->
  Q (expected opts <$> all) tt -> wpp fleet_spec (enrichETA decodeHistory opts all) Q tt.
Proof.
  intros He Ha HQ. unfold enrichETA. apply wpp_bind, wpp_call; [done|]. intros avgs [] Hr. cbn in Hr.
  apply run_jobs_sequential in Hr; [|apply eta_independent, NoDup_once]. apply wpp_ret.
  assert (with_avg avgs <$> all = expected opts <$> all) as ->; [|done].
  apply list_fmap_ext. intros i r Hr'%list_elem_of_lookup_2. unfold with_avg, expected. rewrite Hr, eta_sequential, He.
  destruct (estimated _ (wf_key r)) as [v|] eqn:E.
  - rewrite decide_True; [done|]. rewrite elem_of_once. split; [|set_solver]. by apply list_elem_of_fmap_2.
  - rewrite lookup_empty. destruct r. cbn in *. f_equal. apply (Ha _ Hr').
Qed.

(** The report of the active runs.  When gh answers alike whenever it is asked and
    the command is not cancelled, then under every schedule of its two worker pools: a
    given fleet is used as it is, and refused only when a name in it is invalid; the runs
    reported are exactly those gh lists for the repositories and the two statuses, each
    once and with the mean duration of its workflow; the exit code is 1 exactly when a
    listing failed; running ones come first and each group newest first; and counters and
    estimate are those of the reported runs, the estimate modulo 2^64. *)
Theorem collect_reports_every_run opts :
  wpp fleet_spec (Collect decodeRuns decodeHistory opts)
    (fun r _ => match r with
                | Ok report => exists repos, validateRepos repos = None /\ (ao_Repos opts <> [] -> repos = ao_Repos opts) /\
                                             right_report (active_applyDefaults opts) repos report
                | Err _ => ao_Repos opts <> [] -> validateRepos (ao_Repos opts) <> None
                end) tt.
Proof.
  unfold Collect. apply wpp_bind. eapply wpp_mono; [apply (wpp_resolveRepos (active_applyDefaults opts))|]. cbn beta.
  intros [repos|e] [] Hrepos; [|by apply wpp_ret]. destruct Hrepos as [Hv Hr].
  set (o := active_applyDefaults opts) in *. apply wpp_bind, wpp_call; [done|]. intros t [] _. cbn beta.
  case_bool_decide as Hnil.
  { apply wpp_ret. exists repos. split_and!; [done..|]. subst repos. split; [done..| |constructor]. by exists 0. }
  apply wpp_bind, wpp_fetch. cbn beta iota. apply wpp_bind. set (all := all_runs (ao_Limit o) repos).
  apply (wpp_mono _ _ (fun l _ => l = expected o <$> all)).
  - destruct (ao_IncludeETA o) eqn:Eeta; cbn [andb].
    + case_bool_decide as Ea; cbn [negb]; [apply wpp_ret; by rewrite Ea|]. apply wpp_enrichETA; [done| |done]. apply run_of_unestimated.
    + apply wpp_ret. rewrite <- (list_fmap_id all) at 1. apply list_fmap_ext. intros i r Hi%list_elem_of_lookup_2.
      apply run_of_unestimated in Hi. unfold expected. rewrite Eeta. destruct r. cbn in *. by subst.
  - intros l [] ->. apply wpp_bind, wpp_call; [done|]. intros now [] _. apply wpp_ret. exists repos. split_and!; [done..|].
    split; cbn; [apply sort_stable_perm|done|exists now; apply summarize_ok|].
    intros Hk. apply sorted_runs. rewrite Forall_fmap. eapply Forall_impl; [exact Hk|done].
Qed.
End report.

(** ** Examples, and what a cancelled pool does *)

Definition demo_run : ghRun := mkGhRun 7 "fix" "ci" "push" "main" 5 "https://x" "queued".

Definition demo_decode (out : string) : result (list ghRun) := if String.eqb out "one" then Ok [demo_run] else Err (Errorf "json").

(** gh answers for the queued runs and fails otherwise. *)
Definition demo_gh (B : Type) (e : ghE B) : B :=
  match e in ghE B return B with
  | RunFn _ args => if bool_decide ("queued" ∈ args) then Ok "one" else Err (Errorf "exit status 1")
  end.

Definition demo_keys : list listKey := list_jobs ["acme/web"].

Definition no_result : listResult := mkListResult ("", "") [] None.

Lemma schedule_does_not_matter_witness :
  run_jobs_uncancelled (oracle demo_gh) 8 (imap (fetch_job demo_decode 5) demo_keys) (replicate 2 no_result)
    [mkListResult ("acme/web", "in_progress") [] (Some (Errorf_w "gh run list acme/web in_progress" (Errorf "exit status 1")));
     mkListResult ("acme/web", "queued") [run_of "acme/web" demo_run] None].
Proof.
  apply (schedule_does_not_matter demo_gh 8 (imap (fetch_job demo_decode 5) demo_keys) (replicate 2 no_result)
    (fetch_independent demo_decode demo_gh 5 demo_keys)). reflexivity.
Defined.

(** A cancelled listing claims that nothing runs and that nothing failed: the slots of
    the jobs that were never started look like empty listings.  The pool also returns
    while a goroutine is at work, which then writes under the eyes of the caller. *)
Theorem cancelled_listing_reports_success decodeRuns gh limit repo repos :
  let jobs := imap (fetch_job decodeRuns limit) (list_jobs (repo :: repos)) in
  let empty := replicate (length (list_jobs (repo :: repos))) no_result in
  (run_jobs (oracle gh) 8 jobs empty empty /\ concat (lr_runs <$> empty) = [] /\ exit_of empty = 0) /\
  exists p p', rtc (run_jobs_step (oracle gh) 8 jobs) (start empty) p /\ pl_returned p = true /\
    rtc (run_jobs_step (oracle gh) 8 jobs) p p' /\ pl_shared p = empty /\
    pl_shared p' = <[0%nat := result_of decodeRuns gh limit (repo, "in_progress")]> empty.
Proof.
  intros jobs empty.
  assert (jobs !! 0%nat = Some (fetch_job decodeRuns limit 0 (repo, "in_progress"))) as H0 by reflexivity.
  split; [split_and!|].
  - exists (mkPool 0 ∅ empty true true). split_and!; [|done..].
    eapply rtc_l; [apply step_cancel|]. eapply rtc_l; [apply step_abandon|apply rtc_refl]. cbn. lia.
  - unfold empty. induction (length _) as [|n IH]; [done|exact IH].
  - unfold empty. induction (length _) as [|n IH]; [done|exact IH].
  - set (m := fetch_job decodeRuns limit 0 (repo, "in_progress")) in *.
    exists (mkPool 1 {[0%nat := Running m]} empty true true).
    eexists (mkPool 1 (<[0%nat := Written]> (<[0%nat := Running (Done (eval gh m))]> {[0%nat := Running m]})) (eval gh m empty) true true).
    split_and!; [|done| |done|].
    + eapply rtc_l; [apply (step_spawn _ _ _ 0 ∅ empty false m H0)|]; [change (0 < clamp 8 (length jobs)); unfold clamp, jobs; rewrite length_imap; cbn; case_match; lia|].
      eapply rtc_l; [apply step_cancel|]. eapply rtc_l; [apply step_abandon; cbn; lia|]. apply rtc_refl.
    + eapply rtc_r; [apply run_job, lookup_insert_eq|]. apply step_write, lookup_insert_eq.
    + cbn [pl_shared]. unfold m. by rewrite eval_fetch_job.
Qed.

(** The history asked for is that of the repository: the name of the workflow is no part
    of the request, so that the last runs of other workflows use up the limit. *)
Theorem history_is_not_per_workflow decodeHistory repo limit workflow workflow' :
  exists e k k', computeAvgDurationSec decodeHistory repo workflow limit = Call e k /\
                 computeAvgDurationSec decodeHistory repo workflow' limit = Call e k' /\
                 (forall out rows, out <> "" -> decodeHistory out = Ok rows ->
                    Forall (fun h => he_WorkflowName h <> workflow) rows -> k (Ok out) = Done (Ok 0)).
Proof.
  do 3 eexists. split_and!; [reflexivity..|]. cbn. intros out rows Ho%String.eqb_neq Hd Hw. rewrite Ho, Hd. cbn. do 2 f_equal.
  unfold average. enough (foldl (add_duration workflow) (0, 0) rows = (0, 0)) as -> by done.
  clear Hd; induction Hw as [|h rows Hh%String.eqb_neq _ IH]; [done|]. cbn. rewrite Hh. exact IH.
Qed.
