(* ===== verification/RunnerLifecycle.v ===== *)
(** * internal/runner: installing, removing, restarting and upgrading a runner

    [Add] and [Remove] (runner.go) are fixed plans of steps, [Restart] (restart.go) and
    [Upgrade] (upgrade.go) short procedures.  Commands, the digest of a file, the look for
    active jobs and the waits are the effects.  [%q] in a shell command is [Quote]. *)

From S2P Require Import Prelude GoStrings GoQuote Regex Prog Civm Idle RunnerUnits.

Local Open Scope string_scope.
Local Open Scope list_scope.
Local Open Scope Z_scope.

(** A command answers with its output and its error. *)
Inductive runnerE : Type -> Type :=
  | RunFn (name : string) (args : list string) : runnerE (string * err_ret)
  | SHA256FileFn (path : string) : runnerE (result string)
  | ActivityFn : runnerE (result (list Activity))
  | ProbeTimer (d : Z) : runnerE err_ret
  | SleepFn (d : Z) : runnerE unit.

Definition run_ (name : string) (args : list string) : prog runnerE err_ret :=
  r ← call (RunFn name args); mret (snd r).

Definition ensureMutationIdle (probeDelay : Z) : prog runnerE err_ret :=
  Ensure (call ActivityFn) (fun d => call (ProbeTimer d)) probeDelay "runner mutation".

(** ** Steps *)

Record Step := mkStep { sp_Name : string; sp_Description : string; sp_WouldDo : string; sp_Apply : prog runnerE err_ret }.

Record StepResult := mkStepResult {
  sr_Name : string; sr_Description : string; sr_Executed : bool; sr_WouldDo : string; sr_Err : err_ret;
}.

Definition pending (s : Step) : StepResult := mkStepResult (sp_Name s) (sp_Description s) false (sp_WouldDo s) None.
Definition failed (s : Step) (e : error) : StepResult :=
  mkStepResult (sp_Name s) (sp_Description s) false (sp_WouldDo s) (Some e).
Definition applied (s : Step) : StepResult := mkStepResult (sp_Name s) (sp_Description s) true (sp_WouldDo s) None.

Fixpoint run_steps (execute : bool) (steps : list Step) : prog runnerE (list StepResult) :=
  match steps with
  | [] => mret []
  | s :: steps =>
      if negb execute then
        results ← run_steps execute steps;
        mret (pending s :: results)
      else
        e ← sp_Apply s;
        match e with
        | Some e => mret [failed s e]
        | None =>
            results ← run_steps execute steps;
            mret (applied s :: results)
        end
  end.

Definition tarball (version : string) : string :=
  "https://github.com/actions/runner/releases/download/v" +:+ version +:+ "/actions-runner-linux-x64-" +:+ version +:+ ".tar.gz".

(** [--base-dir] and [--dir] have to be clean already. *)
Definition normalized (path flag : string) : err_ret :=
  match CleanDir path with
  | Err e => Some e
  | Ok clean => if String.eqb clean path then None else Some (Errorf (flag +:+ " deve estar normalizado"))
  end.

Section commands.
Context (IsPrint : Z -> bool).
Local Abbreviation q := (Quote IsPrint).

(** ** Add *)

Record AddOptions := mkAddOptions {
  ad_Repo : string; ad_Token : string; ad_Short : string; ad_Label : string; ad_RunnerVersion : string;
  ad_RunnerSHA256 : string; ad_BaseDir : string; ad_RunAsUser : string; ad_Execute : bool;
}.

Definition runner_DefaultOptions : AddOptions :=
  mkAddOptions "" "" "" "civm" DefaultRunnerVersion DefaultRunnerLinuxX64SHA256 "" "" false.

Definition with_sha (sha : string) (o : AddOptions) : AddOptions :=
  mkAddOptions (ad_Repo o) (ad_Token o) (ad_Short o) (ad_Label o) (ad_RunnerVersion o) sha (ad_BaseDir o) (ad_RunAsUser o) (ad_Execute o).

(** The digest an installation must have. *)
Definition pinned (opts : AddOptions) : AddOptions :=
  let opts := if negb (String.eqb (ad_RunnerVersion opts) DefaultRunnerVersion) &&
                 String.eqb (ad_RunnerSHA256 opts) DefaultRunnerLinuxX64SHA256 then with_sha "" opts else opts in
  if String.eqb (ad_RunnerSHA256 opts) "" then
    match RunnerLinuxX64SHA256 (ad_RunnerVersion opts) with Some expected => with_sha expected opts | None => opts end
  else opts.

(** The first error. *)
Fixpoint first_err (l : list err_ret) : err_ret :=
  match l with [] => None | Some e :: _ => Some e | None :: l => first_err l end.

Definition runner_validateOptions (opts : AddOptions) : err_ret :=
  first_err
    [ValidateRepo (ad_Repo opts);
     if String.eqb (ad_Token opts) "" then Some (Errorf "--token obrigatorio") else None;
     ValidateShort (ad_Short opts);
     ValidateLabels (ad_Label opts);
     ValidateSemver (ad_RunnerVersion opts);
     if String.eqb (TrimSpace (ad_RunnerSHA256 opts)) "" then Some (Errorf "--runner-sha256 obrigatorio") else None;
     normalized (ad_BaseDir opts) "--base-dir";
     ValidateUserName (ad_RunAsUser opts)].

Definition runner_dir (baseDir short : string) : string := PathJoin baseDir ("actions-runner-" +:+ short).

Definition verify_step (path expected : string) : prog runnerE err_ret :=
  actual ← call (SHA256FileFn path);
  mret (match actual with
        | Err e => Some (Errorf_w ("sha256 " +:+ path) e)
        | Ok actual => VerifySHA256 actual expected
        end).

Definition extract_step (dir path : string) : prog runnerE err_ret :=
  e ← run_ "tar" ["-C"; dir; "-xzf"; path];
  match e with Some e => mret (Some e) | None => run_ "rm" [path] end.

Definition config_command (dir url token label name : string) : string :=
  "cd " +:+ q dir +:+ " && ./config.sh --unattended --url " +:+ q url +:+ " --token " +:+ q token +:+
  " --labels " +:+ q label +:+ " --name " +:+ q name +:+ " --work _work --replace".

Definition add_steps (opts : AddOptions) : list Step :=
  let dir := runner_dir (ad_BaseDir opts) (ad_Short opts) in
  let url := "https://github.com/" +:+ ad_Repo opts in
  let name := "civm-" +:+ ad_Short opts in
  let tar := dir +:+ "/runner.tar.gz" in
  let version := ad_RunnerVersion opts in
  let user := ad_RunAsUser opts in
  [mkStep "mkdir_dir" ("Cria diretorio dedicado " +:+ dir) ("mkdir -p " +:+ dir) (run_ "mkdir" ["-p"; dir]);
   mkStep "download_runner" ("Baixa actions/runner v" +:+ version) ("curl -fsSL -o " +:+ tar +:+ " " +:+ tarball version)
     (run_ "curl" ["-fsSL"; "-o"; tar; tarball version]);
   mkStep "verify_runner_sha256" ("Verifica SHA256 do actions/runner v" +:+ version) ("sha256sum " +:+ tar)
     (verify_step tar (ad_RunnerSHA256 opts));
   mkStep "extract_runner" ("Extrai tarball em " +:+ dir) ("tar -C " +:+ dir +:+ " -xzf " +:+ tar +:+ " && rm " +:+ tar)
     (extract_step dir tar);
   mkStep "config_runner" ("config.sh --unattended --labels " +:+ ad_Label opts +:+ " --name " +:+ name)
     ("(cd " +:+ dir +:+ " && ./config.sh --unattended --url " +:+ url +:+ " --token *** --labels " +:+ ad_Label opts +:+
      " --name " +:+ name +:+ " --work _work --replace)")
     (run_ "sh" ["-c"; config_command dir url (ad_Token opts) (ad_Label opts) name]);
   mkStep "install_service" ("sudo svc.sh install " +:+ user) ("(cd " +:+ dir +:+ " && sudo ./svc.sh install " +:+ user +:+ ")")
     (run_ "sudo" ["sh"; "-c"; "cd " +:+ q dir +:+ " && ./svc.sh install " +:+ q user]);
   mkStep "start_service" "sudo svc.sh start" ("(cd " +:+ dir +:+ " && sudo ./svc.sh start)")
     (run_ "sudo" ["sh"; "-c"; "cd " +:+ q dir +:+ " && ./svc.sh start"])].

Definition Add (opts : AddOptions) : prog runnerE (result (list StepResult)) :=
  let opts := pinned opts in
  match runner_validateOptions opts with
  | Some e => mret (Err e)
  | None => results ← run_steps (ad_Execute opts) (add_steps opts); mret (Ok results)
  end.

(** ** Remove *)

Record RemoveOptions := mkRemoveOptions {
  rm_Short : string; rm_Token : string; rm_BaseDir : string; rm_Execute : bool; rm_IdleProbeDelay : Z;
}.

Definition DefaultRemoveOptions : RemoveOptions := mkRemoveOptions "" "" "" false (2 * Second).

Definition validateRemoveOptions (opts : RemoveOptions) : err_ret :=
  first_err
    [ValidateShort (rm_Short opts);
     normalized (rm_BaseDir opts) "--base-dir";
     if String.eqb (rm_Token opts) ""
     then Some (Errorf "--token obrigatorio (gh api -X POST .../actions/runners/remove-token)") else None].

Definition remove_steps (opts : RemoveOptions) : list Step :=
  let dir := runner_dir (rm_BaseDir opts) (rm_Short opts) in
  [mkStep "stop_service" "sudo svc.sh stop" ("(cd " +:+ dir +:+ " && sudo ./svc.sh stop)")
     (run_ "sudo" [PathJoin dir "svc.sh"; "stop"]);
   mkStep "uninstall_service" "sudo svc.sh uninstall" ("(cd " +:+ dir +:+ " && sudo ./svc.sh uninstall)")
     (run_ "sudo" ["sh"; "-c"; "cd " +:+ q dir +:+ " && ./svc.sh uninstall"]);
   mkStep "config_remove" "config.sh remove --token=*** (deregister no GitHub)" (PathJoin dir "config.sh" +:+ " remove --token=***")
     (run_ "sh" ["-c"; "cd " +:+ q dir +:+ " && ./config.sh remove --token " +:+ q (rm_Token opts)]);
   mkStep "remove_dir" ("rm -rf " +:+ dir) ("rm -rf " +:+ dir) (run_ "rm" ["-rf"; dir])].

Definition Remove (opts : RemoveOptions) : prog runnerE (result (list StepResult)) :=
  match validateRemoveOptions opts with
  | Some e => mret (Err e)
  | None =>
      busy ← (if rm_Execute opts then ensureMutationIdle (rm_IdleProbeDelay opts) else mret None);
      match busy with
      | Some e => mret (Ok [mkStepResult "host_idle" "Confirma host sem job/build ativo" false "" (Some e)])
      | None => results ← run_steps (rm_Execute opts) (remove_steps opts); mret (Ok results)
      end
  end.
End commands.

(** ** Restart *)

Record RestartOptions := mkRestartOptions {
  rs_Short : string; rs_Unit : string; rs_VerifyDelay : Z; rs_IdleProbeDelay : Z; rs_Execute : bool;
}.

Definition DefaultRestartOptions : RestartOptions :=
  mkRestartOptions "" "" (DefaultRestartVerifySeconds * Second) (2 * Second) false.

Record RestartResult := mkRestartResult {
  re_UnitResolved : string; re_RestartedOK : bool; re_ActiveAfter : bool; re_WouldDo : string; re_Err : err_ret;
}.

(** The flags [--short] and [--unit]. *)
Definition unit_flags (short unit : string) : list err_ret :=
  [if String.eqb short "" && String.eqb unit "" then Some (Errorf "--short ou --unit obrigatorio") else None;
   if String.eqb short "" then None else ValidateShort short;
   if String.eqb unit "" then None else ValidateServiceUnit unit].

Definition validateRestartOptions (opts : RestartOptions) : err_ret := first_err (unit_flags (rs_Short opts) (rs_Unit opts)).

(** [runner.List] ignores the output of a command that failed. *)
Definition list_units : prog runnerE (list Status * err_ret) :=
  List (fun name args => r ← call (RunFn name args); mret (match r with (_, Some e) => Err e | (out, None) => Ok out end)).

Definition resolveUnitByShort (short : string) : prog runnerE (result string) :=
  items ← list_units;
  mret (match items with
        | (_, Some e) => Err (Errorf_w "list units" e)
        | (items, None) =>
            match List.filter (fun s => String.eqb (st_Name s) short || Contains (st_UnitName s) ("." +:+ short +:+ ".")) items with
            | [] => Err (Errorf ("nenhum runner com short=" +:+ short))
            | [s] => Ok (st_UnitName s)
            | _ => Err (Errorf ("short=" +:+ short +:+ " ambiguo"))
            end
        end).

Definition resolve_unit (short unit : string) : prog runnerE (result string) :=
  if negb (String.eqb unit "") then mret (Ok unit) else resolveUnitByShort short.

(** [systemctl is-active]: only the output counts. *)
Definition is_active (unit : string) : prog runnerE bool :=
  r ← call (RunFn "systemctl" ["is-active"; unit]);
  mret (String.eqb (TrimSpace (fst r)) "active").

Section would_do.
(** [time.Duration.String]. *)
Context (duration_String : Z -> string).

Definition restart_plan (unit : string) (delay : Z) : string :=
  "sudo systemctl restart " +:+ unit +:+ " && sleep " +:+ duration_String delay +:+ " && systemctl is-active " +:+ unit.

Definition Restart (opts : RestartOptions) : prog runnerE (result RestartResult) :=
  match validateRestartOptions opts with
  | Some e => mret (Err e)
  | None =>
      let delay := if rs_VerifyDelay opts =? 0 then DefaultRestartVerifySeconds * Second else rs_VerifyDelay opts in
      unit ← resolve_unit (rs_Short opts) (rs_Unit opts);
      match unit with
      | Err e => mret (Ok (mkRestartResult "" false false "" (Some e)))
      | Ok unit =>
          let r ok active e := Ok (mkRestartResult unit ok active (restart_plan unit delay) e) in
          if negb (rs_Execute opts) then mret (r false false None)
          else
            busy ← ensureMutationIdle (rs_IdleProbeDelay opts);
            match busy with
            | Some e => mret (r false false (Some e))
            | None =>
                e ← run_ "sudo" ["systemctl"; "restart"; unit];
                match e with
                | Some e => mret (r false false (Some (Errorf_w "systemctl restart" e)))
                | None =>
                    call (SleepFn delay);;
                    active ← is_active unit;
                    mret (r true active (if active : bool then None else Some (Errorf "runner nao voltou active apos")))
                end
            end
      end
  end.

(** ** Upgrade *)

Record UpgradeOptions := mkUpgradeOptions {
  up_Short : string; up_Unit : string; up_Dir : string; up_NewVersion : string; up_RunnerSHA256 : string;
  up_BaseDir : string; up_Execute : bool; up_VerifyDelay : Z; up_IdleProbeDelay : Z;
}.

Definition DefaultUpgradeOptions : UpgradeOptions :=
  mkUpgradeOptions "" "" "" "" "" "" false (DefaultUpgradeVerifySeconds * Second) (2 * Second).

Record UpgradeResult := mkUpgradeResult {
  ur_Dir : string; ur_UnitResolved : string; ur_OldVersion : string; ur_NewVersion : string; ur_StoppedOK : bool;
  ur_DownloadedOK : bool; ur_ExtractedOK : bool; ur_StartedOK : bool; ur_ActiveAfter : bool; ur_WouldDo : string; ur_Err : err_ret;
}.

Definition expected_sha (opts : UpgradeOptions) : string :=
  if String.eqb (up_RunnerSHA256 opts) "" then
    match RunnerLinuxX64SHA256 (up_NewVersion opts) with Some expected => expected | None => up_RunnerSHA256 opts end
  else up_RunnerSHA256 opts.

Definition validateUpgradeOptions (opts : UpgradeOptions) : err_ret :=
  first_err (unit_flags (up_Short opts) (up_Unit opts) ++
    [ValidateSemver (up_NewVersion opts);
     if String.eqb (TrimSpace (expected_sha opts)) "" then Some (Errorf "--runner-sha256 obrigatorio") else None;
     normalized (up_BaseDir opts) "--base-dir";
     if String.eqb (up_Dir opts) "" then None else normalized (up_Dir opts) "--dir"]).

Definition guessDirFromShort (baseDir short : string) : string :=
  if String.eqb short "" then baseDir else baseDir +:+ "/actions-runner-" +:+ short.

Definition upgrade_dir (opts : UpgradeOptions) : string :=
  if negb (String.eqb (up_Dir opts) "") then up_Dir opts else guessDirFromShort (up_BaseDir opts) (up_Short opts).

Definition old_version (dir : string) : prog runnerE string :=
  r ← call (RunFn "head" ["-3"; PathJoin dir "bin/Runner.Listener.runtimeconfig.json"]);
  mret (match r with
        | (_, Some _) => ""
        | (out, None) => let v := TrimSpace out in if 80 <? len v then take_str 80 v +:+ "..." else v
        end).

Definition upgrade_plan (unit dir version : string) (delay : Z) : string :=
  let tar := dir +:+ "/runner-upgrade.tar.gz" in
  "(1) sudo systemctl stop " +:+ unit +:+ "; (2) curl -fsSL -o " +:+ tar +:+ " " +:+ tarball version +:+
  "; (3) verify sha256; (4) tar -C " +:+ dir +:+ " -xzf " +:+ tar +:+ " (preserva .runner/.credentials/_work); (5) sudo systemctl start " +:+
  unit +:+ "; (6) sleep " +:+ duration_String delay +:+ " && systemctl is-active " +:+ unit.

(** A failure after the stop: start the unit again. *)
Definition stop_short (unit : string) (r : UpgradeResult) : prog runnerE UpgradeResult :=
  run_ "sudo" ["systemctl"; "start"; unit];; mret r.

(** From the stop on. *)
Definition upgrade_execute (unit dir version sha : string) (delay : Z)
    (r : bool -> bool -> bool -> bool -> bool -> err_ret -> UpgradeResult) : prog runnerE UpgradeResult :=
  let tar := dir +:+ "/runner-upgrade.tar.gz" in
  e ← run_ "sudo" ["systemctl"; "stop"; unit];
  match e with
  | Some e => mret (r false false false false false (Some (Errorf_w "systemctl stop" e)))
  | None =>
      e ← run_ "curl" ["-fsSL"; "-o"; tar; tarball version];
      match e with
      | Some e => stop_short unit (r true false false false false (Some (Errorf_w "curl tarball" e)))
      | None =>
          actual ← call (SHA256FileFn tar);
          match actual with
          | Err e => stop_short unit (r true true false false false (Some (Errorf_w "sha256 tarball" e)))
          | Ok actual =>
              match VerifySHA256 actual sha with
              | Some e => stop_short unit (r true true false false false (Some e))
              | None =>
                  e ← run_ "tar" ["-C"; dir; "-xzf"; tar];
                  match e with
                  | Some e => stop_short unit (r true true false false false (Some (Errorf_w "tar extract" e)))
                  | None =>
                      run_ "rm" [tar];;
                      e ← run_ "sudo" ["systemctl"; "start"; unit];
                      match e with
                      | Some e => mret (r true true true false false (Some (Errorf_w "systemctl start" e)))
                      | None =>
                          call (SleepFn delay);;
                          active ← is_active unit;
                          mret (r true true true true active
                                  (if active : bool then None else Some (Errorf "runner nao voltou active apos upgrade")))
                      end
                  end
              end
          end
      end
  end.

Definition Upgrade (opts : UpgradeOptions) : prog runnerE (result UpgradeResult) :=
  match validateUpgradeOptions opts with
  | Some e => mret (Err e)
  | None =>
      let delay := if up_VerifyDelay opts =? 0 then DefaultUpgradeVerifySeconds * Second else up_VerifyDelay opts in
      unit ← resolve_unit (up_Short opts) (up_Unit opts);
      match unit with
      | Err e => mret (Ok (mkUpgradeResult "" "" "" (up_NewVersion opts) false false false false false "" (Some e)))
      | Ok unit =>
          let dir := upgrade_dir opts in
          old ← old_version dir;
          let r stopped downloaded extracted started active e :=
            mkUpgradeResult dir unit old (up_NewVersion opts) stopped downloaded extracted started active
              (upgrade_plan unit dir (up_NewVersion opts) delay) e in
          if negb (up_Execute opts) then mret (Ok (r false false false false false None))
          else
            busy ← ensureMutationIdle (up_IdleProbeDelay opts);
            match busy with
            | Some e => mret (Ok (r false false false false false (Some e)))
            | None => r ← upgrade_execute unit dir (up_NewVersion opts) (expected_sha opts) delay r; mret (Ok r)
            end
      end
  end.
End would_do.
