(* ===== verification/RunnerLifecycleSafety.v ===== *)
(** * Installing, removing, restarting and upgrading a runner: what is done and when

    [planned] lets commands be run only in the order of a plan, each after the success of
    the one before; [life_spec] says when a unit may be stopped or restarted and a runner
    unpacked.  Both hold under any answers. *)

From S2P Require Import Prelude GoStrings GoQuote Regex Prog Civm Idle RunnerUnits RunnerLifecycle.

Local Open Scope string_scope.
Local Open Scope list_scope.
Local Open Scope Z_scope.

(** ** Plans *)

Inductive cmd :=
  | Run_ (name : string) (args : list string)
  | Digest_ (path expected : string).       (* the digest of the file must be this one *)

(** What is left of the plan; [Halted] after a failure. *)
Inductive progress := Going (rest : list cmd) | Halted.

Definition advance (ok : bool) (p : progress) : progress :=
  match p with
  | Going (_ :: rest) => if ok then Going rest else Halted
  | p => p
  end.

Definition quiet (r : result (list Activity)) : bool := match r with Ok [] => true | _ => false end.

(** The host was seen without activity, and the progress of the plan.  With [need] the
    plan may only start on an idle host. *)
Definition planned (need : bool) : spec runnerE (bool * progress) := {|
  allowed B e s :=
    match e with
    | RunFn name args => exists rest, snd s = Going (Run_ name args :: rest) /\ (need = true -> fst s = true)
    | SHA256FileFn path => exists expected rest, snd s = Going (Digest_ path expected :: rest)
    | ActivityFn | ProbeTimer _ => True
    | SleepFn _ => False
    end;
  answers B e s :=
    match e in runnerE B return B -> bool * progress -> Prop with
    | RunFn _ _ => fun r s' => s' = (fst s, advance (bool_decide (snd r = None)) (snd s))
    | SHA256FileFn path => fun r s' =>
        s' = (fst s, match snd s, r with
                     | Going (Digest_ _ expected :: _), Ok d => advance (bool_decide (VerifySHA256 d expected = None)) (snd s)
                     | p, _ => advance false p
                     end)
    | ActivityFn => fun r s' => s' = (quiet r, snd s)
    | ProbeTimer _ | SleepFn _ => fun _ s' => s' = s
    end;
|}.

(** A step does exactly these commands. *)
Definition implements (need : bool) (s : Step) (cmds : list cmd) : Prop :=
  forall idle rest, (need = true -> idle = true) ->
    wpp (planned need) (sp_Apply s)
      (fun e st => st = (idle, match e with None => Going rest | Some _ => Halted end)) (idle, Going (cmds ++ rest)).

(** The report of an executed plan: the steps that were applied, and the one that failed. *)
Definition executed_prefix (steps : list Step) (results : list StepResult) (p : progress) : Prop :=
  (results = applied <$> steps /\ p = Going []) \/
  exists done s todo e, steps = done ++ s :: todo /\ results = (applied <$> done) ++ [failed s e] /\ p = Halted.

Lemma wpp_run_ need name args idle rest :
  (need = true -> idle = true) ->
  wpp (planned need) (run_ name args)
    (fun e st => st = (idle, match e with None => Going rest | Some _ => Halted end)) (idle, Going (Run_ name args :: rest)).
Proof.
  intros Hn. unfold run_. apply wpp_bind, wpp_call; [by exists rest|]. intros [out [e|]] s' ->; by apply wpp_ret.
Qed.

Lemma implements_run need n d w name args : implements need (mkStep n d w (run_ name args)) [Run_ name args].
Proof. intros idle rest Hn. by apply wpp_run_. Qed.

Lemma implements_verify need n d w path expected : implements need (mkStep n d w (verify_step path expected)) [Digest_ path expected].
Proof.
  intros idle rest Hn. cbn [sp_Apply app]. unfold verify_step. apply wpp_bind, wpp_call; [by do 2 eexists|].
  intros [digest|e] s' ->; apply wpp_ret; [|done]. cbn. case_bool_decide as E; [by rewrite E|]. by destruct (VerifySHA256 digest expected).
Qed.

Lemma implements_extract need n d w dir path :
  implements need (mkStep n d w (extract_step dir path)) [Run_ "tar" ["-C"; dir; "-xzf"; path]; Run_ "rm" [path]].
Proof.
  intros idle rest Hn. cbn [sp_Apply app]. unfold extract_step. apply wpp_bind. eapply wpp_mono; [by apply wpp_run_|].
  intros [e|] s' ->; [by apply wpp_ret|]. by apply wpp_run_.
Qed.

(** Executed steps follow their plan. *)
Lemma wpp_run_steps need steps plans idle :
  Forall2 (implements need) steps plans -> (need = true -> idle = true) ->
  wpp (planned need) (run_steps true steps)
    (fun results st => fst st = idle /\ executed_prefix steps results (snd st)) (idle, Going (concat plans)).
Proof.
  intros Hf Hn. induction Hf as [|s cmds steps plans Hs _ IH]; cbn [run_steps concat negb].
  { apply wpp_ret. split; [done|]. by left. }
  apply wpp_bind. eapply wpp_mono; [by apply Hs|]. intros [e|] st ->.
  - apply wpp_ret. split; [done|]. right. by exists [], s, steps, e.
  - apply wpp_bind. eapply wpp_mono; [exact IH|]. intros results [i p] [Hi Hp]. apply wpp_ret. split; [done|].
    destruct Hp as [[-> ->]|(done & s' & todo & e & -> & -> & ->)]; [by left|]. right. by exists (s :: done), s', todo, e.
Qed.

(** A dry run only says what it would do. *)
Lemma run_steps_dry steps : run_steps false steps = mret (pending <$> steps).
Proof. induction steps as [|s steps IH]; cbn; [done|]. by rewrite IH. Qed.

Section plans.
Context (IsPrint : Z -> bool).
Local Abbreviation q := (Quote IsPrint).

Definition add_plan (opts : AddOptions) : list (list cmd) :=
  let dir := runner_dir (ad_BaseDir opts) (ad_Short opts) in
  let tar := dir +:+ "/runner.tar.gz" in
  [[Run_ "mkdir" ["-p"; dir]];
   [Run_ "curl" ["-fsSL"; "-o"; tar; tarball (ad_RunnerVersion opts)]];
   [Digest_ tar (ad_RunnerSHA256 opts)];
   [Run_ "tar" ["-C"; dir; "-xzf"; tar]; Run_ "rm" [tar]];
   [Run_ "sh" ["-c"; config_command IsPrint dir ("https://github.com/" +:+ ad_Repo opts) (ad_Token opts) (ad_Label opts)
                       ("civm-" +:+ ad_Short opts)]];
   [Run_ "sudo" ["sh"; "-c"; "cd " +:+ q dir +:+ " && ./svc.sh install " +:+ q (ad_RunAsUser opts)]];
   [Run_ "sudo" ["sh"; "-c"; "cd " +:+ q dir +:+ " && ./svc.sh start"]]].

Lemma add_steps_plan need opts : Forall2 (implements need) (add_steps IsPrint opts) (add_plan opts).
Proof. repeat first [apply implements_run|apply implements_verify|apply implements_extract|constructor]. Qed.

Definition remove_plan (opts : RemoveOptions) : list (list cmd) :=
  let dir := runner_dir (rm_BaseDir opts) (rm_Short opts) in
  [[Run_ "sudo" [PathJoin dir "svc.sh"; "stop"]];
   [Run_ "sudo" ["sh"; "-c"; "cd " +:+ q dir +:+ " && ./svc.sh uninstall"]];
   [Run_ "sh" ["-c"; "cd " +:+ q dir +:+ " && ./config.sh remove --token " +:+ q (rm_Token opts)]];
   [Run_ "rm" ["-rf"; dir]]].

Lemma remove_steps_plan need opts : Forall2 (implements need) (remove_steps IsPrint opts) (remove_plan opts).
Proof. repeat first [apply implements_run|constructor]. Qed.
End plans.

(** ** The idle look *)

(** [ensureMutationIdle] under a specification with a flag for the last look. *)
Lemma wpp_ensureMutationIdle {S} (sp : spec runnerE S) (set_idle : bool -> S -> S) delay s (Q : err_ret -> S -> Prop) :
  (forall b b' s, set_idle b (set_idle b' s) = set_idle b s) ->
  (forall s, allowed sp ActivityFn s /\ forall r s', answers sp ActivityFn s r s' -> s' = set_idle (quiet r) s) ->
  (forall d s, allowed sp (ProbeTimer d) s /\ forall r s', answers sp (ProbeTimer d) s r s' -> s' = s) ->
  Q None (set_idle true s) -> (forall e b, Q (Some e) (set_idle b s)) -> (forall e, Q (Some e) s) ->
  wpp sp (ensureMutationIdle delay) Q s.
Proof.
  intros Hset Ha Hp HQ HQe HQs. unfold ensureMutationIdle, Ensure. cbv zeta. apply wpp_bind.
  eapply wpp_mono; [apply (wpp_Check _ _ _ _ (fun s' => s' = s \/ exists b, s' = set_idle b s) (fun s' => s' = set_idle true s))|].
  - intros s1 H1. apply wpp_call; [apply Ha|]. intros r s2 H2%Ha. subst s2.
    assert (set_idle (quiet r) s1 = set_idle (quiet r) s) as -> by (destruct H1 as [->|[b ->]]; [done|apply Hset]).
    split; [eauto|]. by intros ->.
  - intros s1 H1. apply wpp_call; [apply Hp|]. by intros r s2 ->%Hp.
  - by left.
  - intros r s' [Hs' Hidle]. destruct (ir_Status r); apply wpp_ret; [by rewrite Hidle|..]; destruct Hs' as [->|[b ->]]; auto.
Qed.

(** ** Install and remove *)

Lemma comp_plain short : ValidateShort short = None -> plain_comp ("actions-runner-" +:+ short).
Proof.
  unfold ValidateShort. destruct (MatchString shortRe short) eqn:E; [|done]. intros _. unfold plain_comp. split_and!; [done..|].
  apply no_char_app. split; [done|]. 
  apply (MatchString_chars (fun c => negb (Ascii.eqb "/" c))) in E; [|vm_compute; reflexivity]. by eapply no_char_forallb.
Qed.

(** A name joined to an absolute clean directory is a direct child of it. *)
Lemma Dir_PathJoin base n : IsAbs base = true -> Clean base = base -> plain_comp n -> Dir (PathJoin base n) = base.
Proof.
  intros Ha Hc Hn. destruct (Clean_abs_shape base Ha Hc) as (l & -> & Hl).
  assert (PathJoin ("/" +:+ Join l "/") n = "/" +:+ Join (l ++ [n]) "/") as ->; [|by apply Dir_abs].
  assert (Forall (no_char "/") (l ++ [n])) as Hns.
  { apply Forall_app. split; [eapply Forall_impl; [exact Hl|]; by intros x (_&_&_&?)|]. destruct Hn as (_&_&_&?). by repeat constructor. }
  assert (Forall plain_comp (l ++ [n])) as Hp by (apply Forall_app; split; [done|by constructor]).
  assert (forall x, IsAbs ("/" +:+ x) = true) as Habs by (intros x; unfold IsAbs, HasPrefix; apply (prefix_app "/")).
  unfold PathJoin. destruct n as [|c n]; [by destruct Hn|]. change ("/" +:+ Join l "/") with (String "/" (Join l "/")). cbn beta iota.
  assert (String "/" (Join l "/") +:+ "/" +:+ String c n = "/" +:+ Join (l ++ [String c n]) "/" \/
          l = [] /\ String "/" (Join l "/") +:+ "/" +:+ String c n = "//" +:+ Join (l ++ [String c n]) "/") as [->|[-> ->]].
  { destruct l as [|a l]; [by right|left]. by rewrite Join_snoc. }
  - unfold Clean. rewrite Habs, Split_abs; [|by destruct l|done]. f_equal. f_equal.
    apply (clean_comps_plain true [] (l ++ [String c n]) Hp).
  - unfold Clean. assert (IsAbs ("//" +:+ Join ([] ++ [String c n]) "/") = true) as -> by apply (Habs ("/" +:+ _)). f_equal. f_equal.
    change (Split "/" ("//" +:+ Join ([] ++ [String c n]) "/")) with ("" :: Split "/" ("/" +:+ Join [String c n] "/")).
    rewrite Split_abs by done. apply (clean_comps_plain true [] [String c n]). by constructor.
Qed.

(** ** Restart and upgrade *)

Record life := mkLife {
  lf_idle : bool;               (* the last look found no activity *)
  lf_stopped : option string;   (* the unit that was stopped *)
  lf_verified : bool;           (* the file downloaded last has the expected digest *)
  lf_extracted : bool;
  lf_started : bool;            (* a start of the stopped unit was tried *)
  lf_running : bool;            (* ... and succeeded *)
  lf_restarted : option string;
}.

Definition untouched : life := mkLife false None false false false false None.

Definition upgrade_tar (dir : string) : string := dir +:+ "/runner-upgrade.tar.gz".

Definition may_run (dir version : string) (name : string) (args : list string) (s : life) : Prop :=
  (exists u, (name, args) = ("sudo", ["systemctl"; "stop"; u]) /\ lf_idle s = true /\ lf_stopped s = None) \/
  (exists u, (name, args) = ("sudo", ["systemctl"; "restart"; u]) /\ lf_idle s = true) \/
  (exists u, (name, args) = ("sudo", ["systemctl"; "start"; u]) /\ lf_stopped s = Some u) \/
  ((name, args) = ("curl", ["-fsSL"; "-o"; upgrade_tar dir; tarball version]) /\ lf_stopped s <> None) \/
  ((name, args) = ("tar", ["-C"; dir; "-xzf"; upgrade_tar dir]) /\ lf_stopped s <> None /\ lf_verified s = true) \/
  ((name, args) = ("rm", [upgrade_tar dir]) /\ lf_extracted s = true) \/
  (exists u, (name, args) = ("systemctl", ["is-active"; u])) \/
  (exists flags, (name, args) = ("systemctl", "list-units" :: flags)) \/
  (exists path, (name, args) = ("head", ["-3"; path])).

(** Finds the disjunct of [may_run]. *)
Ltac may_run_tac :=
  cbn; unfold may_run;
  repeat first [solve [left; first [eexists; split_and!; done | eexists; done | split_and!; done]] | right];
  first [eexists; done | done].

Section life.
(** Directory, version and digest of the upgrade. *)
Context (dir version sha : string).

Definition ran (name : string) (args : list string) (ok : bool) (s : life) : life :=
  if String.eqb name "sudo" then
    match args with
    | [_; verb; u] =>
        if String.eqb verb "stop" then
          if ok then mkLife (lf_idle s) (Some u) (lf_verified s) (lf_extracted s) (lf_started s) (lf_running s) (lf_restarted s) else s
        else if String.eqb verb "restart" then
          if ok then mkLife (lf_idle s) (lf_stopped s) (lf_verified s) (lf_extracted s) (lf_started s) (lf_running s) (Some u) else s
        else mkLife (lf_idle s) (lf_stopped s) (lf_verified s) (lf_extracted s) true ok (lf_restarted s)
    | _ => s
    end
  else if String.eqb name "curl" then
    mkLife (lf_idle s) (lf_stopped s) false (lf_extracted s) (lf_started s) (lf_running s) (lf_restarted s)
  else if String.eqb name "tar" then
    mkLife (lf_idle s) (lf_stopped s) (lf_verified s) ok (lf_started s) (lf_running s) (lf_restarted s)
  else s.

Definition set_life_idle (b : bool) (s : life) : life :=
  mkLife b (lf_stopped s) (lf_verified s) (lf_extracted s) (lf_started s) (lf_running s) (lf_restarted s).

Definition hashed (r : result string) (s : life) : life :=
  mkLife (lf_idle s) (lf_stopped s) (match r with Ok d => match VerifySHA256 d sha with None => true | Some _ => false end | Err _ => false end)
    (lf_extracted s) (lf_started s) (lf_running s) (lf_restarted s).

Definition life_spec : spec runnerE life := {|
  allowed B e s :=
    match e with
    | RunFn name args => may_run dir version name args s
    | SHA256FileFn path => path = upgrade_tar dir
    | ActivityFn | ProbeTimer _ | SleepFn _ => True
    end;
  answers B e s :=
    match e in runnerE B return B -> life -> Prop with
    | RunFn name args => fun r s' => s' = ran name args (bool_decide (snd r = None)) s
    | SHA256FileFn path => fun r s' => s' = hashed r s
    | ActivityFn => fun r s' => s' = set_life_idle (quiet r) s
    | ProbeTimer _ | SleepFn _ => fun _ s' => s' = s
    end;
|}.

Local Abbreviation L m Q s := (wpp life_spec m Q s).

Lemma life_run name args s (Q : err_ret -> life -> Prop) :
  may_run dir version name args s -> Q None (ran name args true s) -> (forall e, Q (Some e) (ran name args false s)) ->
  L (run_ name args) Q s.
Proof.
  intros Hm Hn He. unfold run_. apply wpp_bind, wpp_call; [done|]. intros [out [e|]] s' ->; apply wpp_ret; cbn; [apply He|apply Hn].
Qed.

Lemma life_idle delay s (Q : err_ret -> life -> Prop) :
  Q None (set_life_idle true s) -> (forall e b, Q (Some e) (set_life_idle b s)) -> L (ensureMutationIdle delay) Q s.
Proof.
  intros HQ He. apply (wpp_ensureMutationIdle _ set_life_idle); [done|..].
  - intros s1. split; [done|]. by intros r s' ->.
  - intros d s1. split; [done|]. by intros r s' ->.
  - done.
  - done.
  - intros e. specialize (He e (lf_idle s)). by destruct s.
Qed.

Lemma life_active u s (Q : bool -> life -> Prop) : (forall b, Q b s) -> L (is_active u) Q s.
Proof.
  intros HQ. unfold is_active. apply wpp_bind, wpp_call; [may_run_tac|].
  intros r s' ->. apply wpp_ret, HQ.
Qed.

(** Finding the unit only reads. *)
Lemma life_resolve short unit s (Q : result string -> life -> Prop) :
  (forall r, Q r s) -> L (resolve_unit short unit) Q s.
Proof.
  intros HQ. unfold resolve_unit. case_match; [by apply wpp_ret|]. unfold resolveUnitByShort, list_units, List.
  apply wpp_bind, wpp_bind, wpp_bind, wpp_call; [may_run_tac|].
  intros [out e] s' ->. apply wpp_ret. destruct e as [e|]; apply wpp_ret; apply wpp_ret, HQ.
Qed.

Lemma life_old_version s (Q : string -> life -> Prop) : (forall v, Q v s) -> L (old_version dir) Q s.
Proof.
  intros HQ. unfold old_version. apply wpp_bind, wpp_call; [may_run_tac|].
  intros r s' ->. apply wpp_ret, HQ.
Qed.

(** What the report of an upgrade says. *)
Record upgrade_honest (execute : bool) (u : UpgradeResult) (s : life) : Prop := {
  uh_dry : execute = false -> lf_stopped s = None;
  uh_stopped : ur_StoppedOK u = bool_decide (lf_stopped s <> None);
  uh_back : lf_stopped s <> None -> lf_stopped s = Some (ur_UnitResolved u) /\ lf_started s = true;
  uh_extracted : ur_ExtractedOK u = lf_extracted s /\ (lf_extracted s = true -> lf_verified s = true);
  uh_started : ur_StartedOK u = true -> lf_running s = true /\ ur_ExtractedOK u = true;
  uh_ok : execute = true -> ur_Err u = None ->
    ur_StoppedOK u = true /\ ur_DownloadedOK u = true /\ ur_ExtractedOK u = true /\ ur_StartedOK u = true /\ ur_ActiveAfter u = true;
}.

Lemma life_rm s (Q : err_ret -> life -> Prop) : lf_extracted s = true -> (forall e, Q e s) -> L (run_ "rm" [upgrade_tar dir]) Q s.
Proof. intros He HQ. apply life_run; [may_run_tac|apply HQ|intros e; apply HQ]. Qed.

Lemma life_give_up u r s (Q : UpgradeResult -> life -> Prop) :
  lf_stopped s = Some u -> (forall ok, Q r (ran "sudo" ["systemctl"; "start"; u] ok s)) -> L (stop_short u r) Q s.
Proof.
  intros Hs HQ. unfold stop_short. apply wpp_bind, life_run; [may_run_tac|apply wpp_ret, HQ|]. intros e. apply wpp_ret, HQ.
Qed.

Lemma life_upgrade_execute u delay old plan s (Q : UpgradeResult -> life -> Prop) :
  s = set_life_idle true untouched ->
  let r stopped downloaded extracted started active e :=
    mkUpgradeResult dir u old version stopped downloaded extracted started active plan e in
  (forall x s', upgrade_honest true x s' -> Q x s') ->
  L (upgrade_execute u dir version sha delay r) Q s.
Proof.
  intros -> r HQ. unfold upgrade_execute. cbv zeta.
  assert (forall x s', upgrade_honest true x s' -> L (mret x) Q s') as Hret by (intros; apply wpp_ret; auto).
  apply wpp_bind, life_run; [may_run_tac| |intros e; apply Hret; by split].
  apply wpp_bind, life_run; [may_run_tac| |intros e; apply life_give_up; [done|]; intros ok; apply HQ; by split].
  apply wpp_bind, wpp_call; [done|]. intros actual s' ->. destruct actual as [d|e];
    [|apply life_give_up; [done|]; intros ok; apply HQ; by split].
  destruct (VerifySHA256 d sha) as [e|] eqn:Ed; [apply life_give_up; [done|]; intros ok; apply HQ; by split|].
  unfold hashed. rewrite Ed.
  apply wpp_bind, life_run; [may_run_tac| |intros e; apply life_give_up; [done|]; intros ok; apply HQ; by split].
  apply wpp_bind, life_rm; [done|]. intros _.
  apply wpp_bind, life_run; [may_run_tac| |intros e; apply Hret; by split].
  apply wpp_bind, wpp_call; [done|]. intros [] s' ->. apply wpp_bind, life_active. intros active. apply Hret.
  split; cbn; try done. intros _. by destruct active.
Qed.
End life.

Section claims.
Context (IsPrint : Z -> bool) (duration_String : Z -> string).

Lemma wpp_Add opts :
  runner_validateOptions (pinned opts) = None -> ad_Execute opts = true ->
  wpp (planned false) (Add IsPrint opts)
    (fun r st => exists results, r = Ok results /\ executed_prefix (add_steps IsPrint (pinned opts)) results (snd st))
    (false, Going (concat (add_plan IsPrint (pinned opts)))).
Proof.
  intros Hv He. unfold Add. cbv zeta. rewrite Hv.
  assert (ad_Execute (pinned opts) = true) as -> by (unfold pinned; repeat case_match; done).
  apply wpp_bind. eapply wpp_mono; [by apply wpp_run_steps; [apply add_steps_plan|]|]. intros results st [_ Hp]. apply wpp_ret. eauto.
Qed.

Lemma wpp_runner_Remove opts :
  validateRemoveOptions opts = None -> rm_Execute opts = true ->
  wpp (planned true) (Remove IsPrint opts)
    (fun r st => exists results, r = Ok results /\
       (executed_prefix (remove_steps IsPrint opts) results (snd st) \/
        snd st = Going (concat (remove_plan IsPrint opts)) /\ exists x, results = [x] /\ sr_Name x = "host_idle" /\ sr_Err x <> None))
    (false, Going (concat (remove_plan IsPrint opts))).
Proof.
  intros Hv He. unfold Remove. rewrite Hv, He. apply wpp_bind.
  apply (wpp_ensureMutationIdle _ (fun b s => (b, snd s))); [done|..].
  - intros s. split; [done|]. by intros r s' ->.
  - intros d s. split; [done|]. by intros r s' ->.
  - cbn beta iota. apply wpp_bind. eapply wpp_mono; [by apply wpp_run_steps; [apply remove_steps_plan|]|].
    intros results st [_ Hp]. apply wpp_ret. eauto.
  - intros e b. apply wpp_ret. eexists. split; [done|]. right. split; [done|]. by eexists.
  - intros e. apply wpp_ret. eexists. split; [done|]. right. split; [done|]. by eexists.
Qed.

Lemma pinned_digest opts :
  runner_validateOptions (pinned opts) = None ->
  if String.eqb (ad_RunnerVersion opts) DefaultRunnerVersion
  then ad_RunnerSHA256 opts = "" -> ad_RunnerSHA256 (pinned opts) = DefaultRunnerLinuxX64SHA256
  else ad_RunnerSHA256 (pinned opts) <> DefaultRunnerLinuxX64SHA256.
Proof.
  unfold pinned, RunnerLinuxX64SHA256, runnerLinuxX64SHA256. destruct (String.eqb_spec (ad_RunnerVersion opts) DefaultRunnerVersion) as [Ev|Ev]; cbn [negb andb].
  - intros _ E. rewrite E. cbn [String.eqb]. by rewrite Ev, lookup_singleton_eq.
  - destruct (String.eqb_spec (ad_RunnerSHA256 opts) DefaultRunnerLinuxX64SHA256) as [E|E].
    + cbn [ad_RunnerSHA256 ad_RunnerVersion with_sha String.eqb]. rewrite lookup_singleton_ne by done. done.
    + destruct (String.eqb_spec (ad_RunnerSHA256 opts) "") as [E0|E0]; [|done]. by rewrite lookup_singleton_ne.
Qed.

Lemma first_err_None l : first_err l = None <-> Forall (fun e => e = None) l.
Proof.
  induction l as [|[e|] l IH]; cbn; [done| |].
  - by split; [|intros H; inversion H].
  - rewrite IH, Forall_cons. tauto.
Qed.

Lemma normalized_clean path flag : normalized path flag = None -> Clean path = path.
Proof.
  unfold normalized, CleanDir. repeat case_match; try done. intros _. simplify_eq. by apply String.eqb_eq.
Qed.

Lemma remove_valid opts :
  validateRemoveOptions opts = None -> ValidateShort (rm_Short opts) = None /\ Clean (rm_BaseDir opts) = rm_BaseDir opts.
Proof.
  unfold validateRemoveOptions. rewrite first_err_None, !Forall_cons. intros (Hs & Hb & _). split; [done|]. by eapply normalized_clean.
Qed.

Lemma life_Upgrade opts :
  validateUpgradeOptions opts = None ->
  wpp (life_spec (upgrade_dir opts) (up_NewVersion opts) (expected_sha opts)) (Upgrade duration_String opts)
    (fun r s => exists u, r = Ok u /\ upgrade_honest (up_Execute opts) u s) untouched.
Proof.
  intros Hv. unfold Upgrade. rewrite Hv. apply wpp_bind, life_resolve. intros [unit|e]; cbn beta iota.
  2: { apply wpp_ret. eexists. split; [done|]. by split. }
  apply wpp_bind, life_old_version. intros old. destruct (up_Execute opts) eqn:Ee; cbn [negb].
  2: { apply wpp_ret. eexists. split; [done|]. by split. }
  apply wpp_bind, life_idle.
  - apply wpp_bind. apply life_upgrade_execute; [done|]. intros x s' Hx. apply wpp_ret. eauto.
  - intros e b. apply wpp_ret. eexists. split; [done|]. by split.
Qed.

(** What the report of a restart says. *)
Definition restart_honest (execute : bool) (x : RestartResult) (s : life) : Prop :=
  (lf_restarted s = if re_RestartedOK x then Some (re_UnitResolved x) else None) /\ lf_stopped s = None /\
  (execute = false -> re_RestartedOK x = false) /\
  (execute = true -> re_Err x = None -> re_RestartedOK x = true /\ re_ActiveAfter x = true).

Lemma life_Restart dir version sha opts :
  validateRestartOptions opts = None ->
  wpp (life_spec dir version sha) (Restart duration_String opts)
    (fun r s => exists x, r = Ok x /\ restart_honest (rs_Execute opts) x s) untouched.
Proof.
  intros Hv. unfold Restart. rewrite Hv. apply wpp_bind, life_resolve. intros [unit|e]; cbn beta iota zeta.
  2: { apply wpp_ret. eexists. by split. }
  destruct (rs_Execute opts) eqn:Ee; cbn [negb]; [|apply wpp_ret; eexists; by split].
  apply wpp_bind, life_idle; [|intros e b; apply wpp_ret; eexists; by split].
  apply wpp_bind, life_run; [may_run_tac| |intros e; apply wpp_ret; eexists; by split].
  apply wpp_bind, wpp_call; [done|]. intros [] s' ->. apply wpp_bind, life_active. intros active. apply wpp_ret.
  eexists. split; [done|]. unfold restart_honest. cbn. by destruct active.
Qed.

(** Installing and removing a runner follow their plan.  Invalid options do nothing
    and a dry run only reports.  An installation runs its commands in the order of the
    plan, each only after the one before succeeded: the runner is unpacked, configured
    and started only when the digest of the file just downloaded is the expected one,
    which for the default version is the pinned one and for another version never is.  A
    removal starts only on a host just seen idle, and deletes the directory, a direct
    child of the base directory, only after the service was stopped and uninstalled and
    the runner deregistered.  The report lists the applied steps and the one that failed. *)
Theorem install_and_remove_follow_their_plan add remove :
  (match runner_validateOptions (pinned add) with
   | Some e => Add IsPrint add = mret (Err e)
   | None =>
       if ad_Execute add then
         wpp (planned false) (Add IsPrint add)
           (fun r st => exists results, r = Ok results /\ executed_prefix (add_steps IsPrint (pinned add)) results (snd st))
           (false, Going (concat (add_plan IsPrint (pinned add))))
       else Add IsPrint add = mret (Ok (pending <$> add_steps IsPrint (pinned add)))
   end) /\
  (runner_validateOptions (pinned add) = None ->
     if String.eqb (ad_RunnerVersion add) DefaultRunnerVersion
     then ad_RunnerSHA256 add = "" -> ad_RunnerSHA256 (pinned add) = DefaultRunnerLinuxX64SHA256
     else ad_RunnerSHA256 (pinned add) <> DefaultRunnerLinuxX64SHA256) /\
  (match validateRemoveOptions remove with
   | Some e => Remove IsPrint remove = mret (Err e)
   | None =>
       (IsAbs (rm_BaseDir remove) = true -> Dir (runner_dir (rm_BaseDir remove) (rm_Short remove)) = rm_BaseDir remove) /\
       if rm_Execute remove then
         wpp (planned true) (Remove IsPrint remove)
           (fun r st => exists results, r = Ok results /\
              (executed_prefix (remove_steps IsPrint remove) results (snd st) \/
               snd st = Going (concat (remove_plan IsPrint remove)) /\
               exists x, results = [x] /\ sr_Name x = "host_idle" /\ sr_Err x <> None))
           (false, Going (concat (remove_plan IsPrint remove)))
       else Remove IsPrint remove = mret (Ok (pending <$> remove_steps IsPrint remove))
   end).
Proof.
  split_and!.
  - destruct (runner_validateOptions (pinned add)) as [e|] eqn:Ev; [unfold Add; by rewrite Ev|].
    destruct (ad_Execute add) eqn:Ee; [by apply wpp_Add|]. unfold Add. cbv zeta. rewrite Ev.
    assert (ad_Execute (pinned add) = false) as -> by (unfold pinned; repeat case_match; done). by rewrite run_steps_dry.
  - apply pinned_digest.
  - destruct (validateRemoveOptions remove) as [e|] eqn:Ev; [unfold Remove; by rewrite Ev|]. split.
    + intros Ha. apply remove_valid in Ev as [Hs Hc]. by apply Dir_PathJoin, comp_plain.
    + destruct (rm_Execute remove) eqn:Ee; [by apply wpp_runner_Remove|]. unfold Remove. rewrite Ev, Ee. by rewrite run_steps_dry.
Qed.

(** C23. Upgrading and restarting a runner are safe.  Invalid options do nothing, and a dry
    run only reads.  A unit is stopped or restarted only on a host just seen idle.  The
    new runner is unpacked only with the unit stopped and only from the file downloaded
    in this run, when it has the expected digest; and whatever fails after the stop, a
    start of that very unit is tried before the upgrade returns.  The reports are honest:
    each flag says what was done, and no error means that the unit was seen active. *)
Theorem upgrade_and_restart_are_safe upgrade restart dir version sha :
  (match validateUpgradeOptions upgrade with
   | Some e => Upgrade duration_String upgrade = mret (Err e)
   | None =>
       wpp (life_spec (upgrade_dir upgrade) (up_NewVersion upgrade) (expected_sha upgrade)) (Upgrade duration_String upgrade)
         (fun r s => exists u, r = Ok u /\ upgrade_honest (up_Execute upgrade) u s) untouched
   end) /\
  (match validateRestartOptions restart with
   | Some e => Restart duration_String restart = mret (Err e)
   | None =>
       wpp (life_spec dir version sha) (Restart duration_String restart)
         (fun r s => exists x, r = Ok x /\ restart_honest (rs_Execute restart) x s) untouched
   end).
Proof.
  split.
  - destruct (validateUpgradeOptions upgrade) eqn:E; [unfold Upgrade; by rewrite E|by apply life_Upgrade].
  - destruct (validateRestartOptions restart) eqn:E; [unfold Restart; by rewrite E|by apply life_Restart].
Qed.

(** ** What goes wrong *)

(** A shell reads a double-quoted word literally only without these characters. *)
Definition sh_literal (s : string) : bool :=
  str_forallb (fun c => negb (existsb (Ascii.eqb c) ["$"; "`"; "\"; "034"]%char)) s.

(** Go quoting is not shell quoting: repository, label, name and user are harmless, but a
    token and a base directory are not checked, and what is in them is run by the shell,
    in two commands as root. *)
Theorem token_and_directory_reach_the_shell :
  let opts := mkAddOptions "acme/web" "t$(id)" "web" "civm" DefaultRunnerVersion "" "/home/$(id)" "runner" true in
  let dir := runner_dir (ad_BaseDir opts) (ad_Short opts) in
  runner_validateOptions (pinned opts) = None /\
  sh_literal (ad_Token opts) = false /\ sh_literal dir = false /\
  Quote IsPrint (ad_Token opts) = String "034" (ad_Token opts +:+ String "034" "") /\
  Quote IsPrint dir = String "034" (dir +:+ String "034" "") /\
  (exists before after, config_command IsPrint dir ("https://github.com/" +:+ ad_Repo opts) (ad_Token opts) (ad_Label opts) "civm-web" =
     before +:+ Quote IsPrint (ad_Token opts) +:+ after) /\
  [Run_ "sudo" ["sh"; "-c"; "cd " +:+ Quote IsPrint dir +:+ " && ./svc.sh start"]] ∈ add_plan IsPrint (pinned opts).
Proof.
  intros opts dir. split_and!; [vm_compute; reflexivity..| |].
  - eexists ("cd " +:+ Quote IsPrint dir +:+ " && ./config.sh --unattended --url " +:+ Quote IsPrint "https://github.com/acme/web" +:+ " --token "), _.
    vm_compute. reflexivity.
  - vm_compute. do 6 right. left.
Qed.

(** With [--unit] alone the new runner is unpacked over the base directory itself. *)
Theorem upgrade_by_unit_unpacks_over_the_base opts :
  up_Short opts = "" -> up_Dir opts = "" -> upgrade_dir opts = up_BaseDir opts.
Proof. intros Hs Hd. unfold upgrade_dir, guessDirFromShort. by rewrite Hs, Hd. Qed.

Example upgrade_by_unit_is_valid :
  validateUpgradeOptions (mkUpgradeOptions "" "actions.runner.acme-web.civm-web.service" "" DefaultRunnerVersion "" "/home/emdev" true 0 0) = None.
Proof. vm_compute. reflexivity. Qed.
End claims.
