(* ===== verification/Bootstrap.v ===== *)
(** * internal/bootstrap and internal/specs: provisioning the host

    [Run] goes through a fixed list of idempotent steps (bootstrap.go), for the versions of
    an image specification (specs.go).  Commands, the OS release file, file digests,
    globbing and file writes are the effects. *)

From S2P Require Import Prelude GoStrings Regex Prog Civm.

Local Open Scope string_scope.
Local Open Scope list_scope.
Local Open Scope Z_scope.

(** ** specs.go *)

Record ToolVersion := mkTool { tv_Name : string; tv_Versions : list string; tv_Source : string }.

Definition Preferred (t : ToolVersion) : string := match tv_Versions t with [] => "" | v :: _ => v end.

Record RunnerImageSpec := mkImageSpec {
  is_OSDistro : string; is_OSVersion : string; is_Kernel : string; is_UpstreamURL : string; is_ImageVersion : string;
  is_Tools : list ToolVersion;
}.

Definition Ubuntu2404 : RunnerImageSpec :=
  mkImageSpec "Ubuntu" "24.04.4 LTS" "6.17.0-1010-azure"
    "https://github.com/actions/runner-images/blob/main/images/ubuntu/Ubuntu2404-Readme.md" "20260413.86.1"
    [mkTool "go" ["1.26.3"; "1.25.9"; "1.24.13"; "1.23.12"; "1.22.12"] "go.dev/dl";
     mkTool "node" ["24.15.0"; "24.14.1"; "22.22.2"; "20.20.2"] "lts/krypton via nvm; apt nodejs";
     mkTool "python" ["3.12.13"; "3.10.20"; "3.11.15"; "3.13.13"; "3.14.4"] "apt + pyenv (multi-version)";
     mkTool "docker" ["28.0.4"] "download.docker.com/linux/ubuntu";
     mkTool "docker-compose" ["2.38.2"] "docker-compose-plugin (apt)";
     mkTool "gh" ["2.89.0"] "cli.github.com/packages";
     mkTool "git" ["2.53.0"] "ppa:git-core/ppa";
     mkTool "jq" ["1.7"] "apt (jammy/noble)";
     mkTool "yq" ["4.52.5"] "github.com/mikefarah/yq/releases"].

(** The zero value when there is none. *)
Definition FindTool (s : RunnerImageSpec) (name : string) : ToolVersion * bool :=
  match List.filter (fun t => String.eqb (tv_Name t) name) (is_Tools s) with
  | t :: _ => (t, true)
  | [] => (mkTool "" [] "", false)
  end.

(** ** The pinned digests (civm.go) *)

Definition DefaultGoLinuxAMD64SHA256 : string := "2b2cfc7148493da5e73981bffbf3353af381d5f93e789c82c79aff64962eb556".
Definition DefaultNodeSourceSetup24SHA256 : string := "6e3d580f5bd7ccf2aa1e8df8d35c60d78e873c3ff8beb282c9bebd914904ad72".
Definition DefaultYQLinuxAMD64SHA256 : string := "75d893a0d5940d1019cb7cdc60001d9e876623852c31cfc6267047bc31149fa9".
Definition DefaultDockerGPGFingerprint : string := "9DC858229FC7DD38854AE2D88D81803C0EBFCD88".
Definition DefaultGitHubCLIGPGFingerprint : string := "2C6106201985B60E6C7AC87323F3D4EA75716059".
Definition DefaultSystemdDir : string := "/etc/systemd/system".
Definition DefaultCivmctlPath : string := "/usr/local/bin/civmctl".

Definition GoLinuxAMD64SHA256 (version : string) : option string :=
  if String.eqb version "1.26.3" then Some DefaultGoLinuxAMD64SHA256 else None.
Definition NodeSourceSetupSHA256 (major : string) : option string :=
  if String.eqb major "24" then Some DefaultNodeSourceSetup24SHA256 else None.
Definition YQLinuxAMD64SHA256 (version : string) : option string :=
  if String.eqb version "4.52.5" then Some DefaultYQLinuxAMD64SHA256 else None.

(** ** bootstrap.go *)

Inductive bootE : Type -> Type :=
  | OSReader : bootE (result string)
  | RunFn (name : string) (args : list string) : bootE (string * err_ret)
  | WriteFileFn (name data : string) : bootE err_ret
  | SHA256FileFn (path : string) : bootE (result string)
  | Glob (pattern : string) : bootE (result (list string)).

Record BootOptions := mkBootOptions {
  bo_Execute : bool; bo_Spec : RunnerImageSpec; bo_UID : Z; bo_WatchdogTimer : bool; bo_ReverseWatchdog : bool;
  bo_RunnerWatchdog : bool; bo_MetricsTimer : bool; bo_RunReaper : bool; bo_MemWatchdog : bool; bo_InstallUnitsFrom : string;
}.

Definition boot_DefaultOptions (uid : Z) : BootOptions := mkBootOptions false Ubuntu2404 uid true true true true true true "".

Record BootStep := mkBootStep {
  bp_Name : string; bp_Description : string; bp_HardFail : bool; bp_Check : prog bootE (result bool); bp_Apply : prog bootE err_ret;
}.

Record BootResult := mkBootResult {
  br_Name : string; br_Description : string; br_AlreadyDone : bool; br_Executed : bool; br_WouldDo : bool; br_Err : err_ret;
}.

(** A command whose output does not matter. *)
Definition run_ (name : string) (args : list string) : prog bootE err_ret := r ← call (RunFn name args); mret (snd r).

(** [if err != nil { return err }]. *)
Definition then_ (m : prog bootE err_ret) (k : prog bootE err_ret) : prog bootE err_ret :=
  e ← m; match e with Some e => mret (Some e) | None => k end.

(** Commands one after the other, up to the first that fails. *)
Fixpoint run_all (l : list (string * list string)) : prog bootE err_ret :=
  match l with
  | [] => mret None
  | (name, args) :: l => then_ (run_ name args) (run_all l)
  end.

Definition commandOutputTrimmed (name : string) (args : list string) : prog bootE (result string) :=
  r ← call (RunFn name args);
  mret (match r with
        | (_, Some e) => Err e
        | (out, None) => let value := TrimSpace out in
                         if String.eqb value "" then Err (Errorf (name +:+ " returned empty output")) else Ok value
        end).

Fixpoint os_release_lines (prefix : string) (lines : list string) : string :=
  match lines with
  | [] => ""
  | line :: lines =>
      let line := TrimSpace line in
      if HasPrefix line prefix then TrimChar "034" (TrimPrefix line prefix) else os_release_lines prefix lines
  end.

Definition osReleaseValue (contents key : string) : string := os_release_lines (key +:+ "=") (Split "010" contents).

Definition ubuntuCodename : prog bootE (result string) :=
  out ← call OSReader;
  mret (match out with
        | Err e => Err e
        | Ok out =>
            let v := osReleaseValue out "VERSION_CODENAME" in
            let u := osReleaseValue out "UBUNTU_CODENAME" in
            if negb (String.eqb v "") then Ok v
            else if negb (String.eqb u "") then Ok u
            else if String.eqb (osReleaseValue out "VERSION_ID") "24.04" then Ok "noble"
            else Err (Errorf "nao foi possivel inferir codename Ubuntu em /etc/os-release")
        end).

(** The check of a download against a pinned digest. *)
Definition verify_download (tmp : string) (expected : option string) (missing : string) : prog bootE err_ret :=
  match expected with
  | None => mret (Some (Errorf missing))
  | Some expected =>
      actual ← call (SHA256FileFn tmp);
      mret (match actual with
            | Err e => Some (Errorf_w ("sha256 " +:+ tmp) e)
            | Ok actual => VerifySHA256 actual expected
            end)
  end.

Definition installGoTarball (version : string) : prog bootE err_ret :=
  let url := "https://go.dev/dl/go" +:+ version +:+ ".linux-amd64.tar.gz" in
  let tmp := "/tmp/go-" +:+ version +:+ ".tar.gz" in
  then_ (run_ "curl" ["-fsSL"; "-o"; tmp; url])
  (then_ (verify_download tmp (GoLinuxAMD64SHA256 version) ("sha256 nao pinado para Go linux-amd64 " +:+ version))
  (run_all [("rm", ["-rf"; "/usr/local/go"]); ("tar", ["-C"; "/usr/local"; "-xzf"; tmp]);
            ("ln", ["-sf"; "/usr/local/go/bin/go"; "/usr/local/bin/go"])])).

(** [strings.SplitN(version, ".", 2)[0]]. *)
Definition major_of (version : string) : string := match SplitN "." 2 version with m :: _ => m | [] => "" end.

Definition installNodeViaNodeSource (version : string) : prog bootE err_ret :=
  let major := major_of version in
  let url := "https://deb.nodesource.com/setup_" +:+ major +:+ ".x" in
  let tmp := "/tmp/nodesource-" +:+ major +:+ ".sh" in
  then_ (run_ "curl" ["-fsSL"; "-o"; tmp; url])
  (then_ (verify_download tmp (NodeSourceSetupSHA256 major) ("sha256 nao pinado para NodeSource setup_" +:+ major +:+ ".x"))
  (run_all [("bash", [tmp]); ("apt-get", ["install"; "-y"; "nodejs"])])).

Definition installYQBinary (version : string) : prog bootE err_ret :=
  let url := "https://github.com/mikefarah/yq/releases/download/v" +:+ version +:+ "/yq_linux_amd64" in
  let tmp := "/tmp/yq-" +:+ version +:+ "-linux-amd64" in
  then_ (run_ "curl" ["-fsSL"; "-o"; tmp; url])
  (then_ (verify_download tmp (YQLinuxAMD64SHA256 version) ("sha256 nao pinado para yq linux-amd64 " +:+ version))
  (run_ "install" ["-m"; "0755"; tmp; "/usr/local/bin/yq"])).

Definition verifyKeyFingerprint (path expected : string) : prog bootE err_ret :=
  r ← call (RunFn "gpg" ["--show-keys"; "--with-colons"; path]);
  mret (match r with
        | (_, Some e) => Some (Errorf_w ("gpg fingerprint " +:+ path) e)
        | (out, None) => VerifyGPGFingerprint out expected
        end).

(** A verified key, then the package source it signs, then the packages. *)
Definition install_from_apt (tmpKey key expected sources source : string) (packages : list string) : prog bootE err_ret :=
  then_ (verifyKeyFingerprint tmpKey expected)
  (then_ (run_ "install" ["-m"; "0644"; tmpKey; key])
  (then_ (call (WriteFileFn sources source))
  (run_all [("apt-get", ["update"; "-y"]); ("apt-get", "install" :: "-y" :: packages)]))).

Definition newline : string := String "010" "".

Definition installDockerCE : prog bootE err_ret :=
  arch ← commandOutputTrimmed "dpkg" ["--print-architecture"];
  match arch with
  | Err e => mret (Some e)
  | Ok arch =>
      codename ← ubuntuCodename;
      match codename with
      | Err e => mret (Some e)
      | Ok codename =>
          then_ (run_all [("install", ["-m"; "0755"; "-d"; "/etc/apt/keyrings"]);
                          ("curl", ["-fsSL"; "https://download.docker.com/linux/ubuntu/gpg"; "-o"; "/tmp/docker.asc"])])
          (install_from_apt "/tmp/docker.asc" "/etc/apt/keyrings/docker.asc" DefaultDockerGPGFingerprint
             "/etc/apt/sources.list.d/docker.list"
             ("deb [arch=" +:+ arch +:+ " signed-by=/etc/apt/keyrings/docker.asc] https://download.docker.com/linux/ubuntu " +:+
              codename +:+ " stable" +:+ newline)
             ["docker-ce"; "docker-ce-cli"; "containerd.io"; "docker-buildx-plugin"; "docker-compose-plugin"])
      end
  end.

Definition installGHCLI : prog bootE err_ret :=
  arch ← commandOutputTrimmed "dpkg" ["--print-architecture"];
  match arch with
  | Err e => mret (Some e)
  | Ok arch =>
      let source := "deb [arch=" +:+ arch +:+ " signed-by=/usr/share/keyrings/githubcli-archive-keyring.gpg] " +:+
                    "https://cli.github.com/packages stable main" +:+ newline in
      let tmpKey := "/tmp/githubcli-archive-keyring.gpg" in
      then_ (run_ "curl" ["-fsSL"; "https://cli.github.com/packages/githubcli-archive-keyring.gpg"; "-o"; tmpKey])
      (install_from_apt tmpKey "/usr/share/keyrings/githubcli-archive-keyring.gpg" DefaultGitHubCLIGPGFingerprint
         "/etc/apt/sources.list.d/github-cli.list" source ["gh"])
  end.

(** ** The timers *)

Definition timerList (opts : BootOptions) : list string :=
  ["civmctl-cleanup.timer"; "civmctl-buildcache-prune.timer"] ++
  (if bo_WatchdogTimer opts then ["civmctl-disk-watchdog.timer"] else []) ++
  (if bo_RunnerWatchdog opts then ["civmctl-runner-watchdog.timer"] else []) ++
  (if bo_ReverseWatchdog opts then ["civmctl-reverse-watchdog.timer"] else []) ++
  (if bo_MetricsTimer opts then ["civmctl-metrics.timer"] else []) ++
  (if bo_RunReaper opts then ["civmctl-run-reaper.timer"] else []) ++
  (if bo_MemWatchdog opts then ["civmctl-mem-watchdog.timer"] else []).

Fixpoint glob_units (source : string) (patterns : list string) (units : list string) : prog bootE (result (list string)) :=
  match patterns with
  | [] => mret (Ok units)
  | pattern :: patterns =>
      matches ← call (Glob (PathJoin source pattern));
      match matches with
      | Err e => mret (Err (Errorf_w ("glob units from " +:+ source) e))
      | Ok matches => glob_units source patterns (units ++ matches)
      end
  end.

(** Each file is copied by one command; the error names it. *)
Fixpoint copy_files (command : string -> string -> string * list string) (dir : string) (files : list string) : prog bootE err_ret :=
  match files with
  | [] => mret None
  | file :: files =>
      let dst := PathJoin dir (Base file) in
      let '(name, args) := command file dst in
      e ← run_ name args;
      match e with
      | Some e => mret (Some (Errorf_w (name +:+ " " +:+ file +:+ " " +:+ dst) e))
      | None => copy_files command dir files
      end
  end.

Definition copySystemdUnits (opts : BootOptions) : prog bootE err_ret :=
  match CleanDir (bo_InstallUnitsFrom opts) with
  | Err e => mret (Some e)
  | Ok source =>
      units ← glob_units source ["civmctl-*.service"; "civmctl-*.timer"] [];
      match units with
      | Err e => mret (Some e)
      | Ok [] => mret (Some (Errorf ("nenhuma unit civmctl-*.service/timer em " +:+ source)))
      | Ok units => copy_files (fun unit dst => ("cp", [unit; dst])) DefaultSystemdDir units
      end
  end.

Definition copyDeployScripts (opts : BootOptions) : prog bootE err_ret :=
  match CleanDir (bo_InstallUnitsFrom opts) with
  | Err e => mret (Some e)
  | Ok source =>
      let binSource := PathJoin (Dir source) "bin" in
      scripts ← call (Glob (PathJoin binSource "*.sh"));
      match scripts with
      | Err e => mret (Some (Errorf_w ("glob deploy scripts from " +:+ binSource) e))
      | Ok scripts => copy_files (fun script dst => ("install", ["-m"; "0755"; script; dst])) (Dir DefaultCivmctlPath) scripts
      end
  end.

Fixpoint timers_enabled (timers : list string) : prog bootE bool :=
  match timers with
  | [] => mret true
  | t :: timers =>
      r ← call (RunFn "systemctl" ["is-enabled"; t]);
      match r with
      | (out, None) => if Contains out "enabled" then timers_enabled timers else mret false
      | (_, Some _) => mret false
      end
  end.

Fixpoint enable_timers (timers : list string) : prog bootE err_ret :=
  match timers with
  | [] => mret None
  | t :: timers =>
      e ← run_ "systemctl" ["enable"; "--now"; t];
      match e with
      | Some e => mret (Some (Errorf_w ("enable " +:+ t) e))
      | None => enable_timers timers
      end
  end.

Definition install_timers (opts : BootOptions) : prog bootE err_ret :=
  then_ (if String.eqb (bo_InstallUnitsFrom opts) "" then mret None
         else then_ (copySystemdUnits opts) (copyDeployScripts opts))
  (then_ (run_ "systemctl" ["daemon-reload"]) (enable_timers (timerList opts))).

(** ** The steps *)

Definition packagesInstalled (names : list string) : prog bootE (result bool) :=
  r ← call (RunFn "dpkg-query" (["-W"; "-f"; "${Package} ${Status}" +:+ newline] ++ names));
  mret (Ok (match r with
            | (_, Some _) => false
            | (txt, None) => forallb (fun n => Contains txt (n +:+ " install ok installed")) names
            end)).

(** A tool is there; with [want], in that version. *)
Definition tool_present (name : string) (args : list string) (want : option string) : prog bootE (result bool) :=
  r ← call (RunFn name args);
  mret (Ok (match r, want with
            | (_, Some _), _ => false
            | (out, None), Some want => Contains out want
            | (_, None), None => true
            end)).

Definition base_packages : list string :=
  ["build-essential"; "curl"; "wget"; "jq"; "git"; "python3"; "python3-pip"; "python3-venv"; "ca-certificates"].

Definition check_os : prog bootE (result bool) :=
  out ← call OSReader;
  mret (match out with
        | Err e => Err e
        | Ok out => if Contains out ("VERSION_ID=" +:+ String "034" ("24.04" +:+ String "034" "")) then Ok true
                    else Err (Errorf "OS nao e Ubuntu 24.04")
        end).

Definition buildSteps (opts : BootOptions) : list BootStep :=
  let version tool := Preferred (fst (FindTool (bo_Spec opts) tool)) in
  [mkBootStep "verify_os" "Confirma Ubuntu 24.04 LTS" true check_os
     (mret (Some (Errorf "verify_os e read-only; nao ha apply (instale Ubuntu 24.04)")));
   mkBootStep "verify_uid" "Confirma execucao como root (UID=0)" true
     (mret (if bo_UID opts =? 0 then Ok true else Err (Errorf "bootstrap exige sudo")))
     (mret (Some (Errorf "rode novamente com sudo")));
   mkBootStep "apt_base_packages" "Instala build-essential, curl, wget, jq, git, python3, ca-certificates" false
     (packagesInstalled base_packages)
     (run_all [("apt-get", ["update"; "-y"]);
               ("apt-get", ["install"; "-y"] ++ base_packages ++ ["gnupg"; "lsb-release"; "software-properties-common"])]);
   mkBootStep "install_go" ("Instala Go " +:+ version "go" +:+ " em /usr/local/go") false
     (tool_present "go" ["version"] (Some ("go" +:+ version "go"))) (installGoTarball (version "go"));
   mkBootStep "install_node" "Instala Node (any version; setup-node sobrepoe no job)" false
     (tool_present "node" ["--version"] None) (installNodeViaNodeSource (version "node"));
   mkBootStep "install_docker" "Instala Docker CE (any version; nunca downgrade)" false
     (tool_present "docker" ["--version"] None) installDockerCE;
   mkBootStep "install_gh" ("Instala GitHub CLI " +:+ version "gh") false
     (tool_present "gh" ["--version"] (Some (version "gh"))) installGHCLI;
   mkBootStep "install_yq" ("Instala yq " +:+ version "yq" +:+ " em /usr/local/bin/yq") false
     (tool_present "yq" ["--version"] (Some (version "yq"))) (installYQBinary (version "yq"));
   mkBootStep "install_systemd_timers" "Instala timers: cleanup, disk-watchdog, runner-watchdog, reverse-watchdog e metrics" false
     (b ← timers_enabled (timerList opts); mret (Ok b)) (install_timers opts)].

Fixpoint boot_steps (execute : bool) (steps : list BootStep) : prog bootE (list BootResult) :=
  match steps with
  | [] => mret []
  | s :: steps =>
      let r done executed wouldDo e := mkBootResult (bp_Name s) (bp_Description s) done executed wouldDo e in
      let next x := (out ← boot_steps execute steps; mret (x :: out)) in
      done ← bp_Check s;
      match done with
      | Err e => if bp_HardFail s then mret [r false false false (Some e)] else next (r false false false (Some e))
      | Ok true => next (r true false false None)
      | Ok false =>
          if negb execute then next (r false false true None)
          else
            e ← bp_Apply s;
            match e with
            | Some e => next (r false false false (Some e))
            | None => next (r false true false None)
            end
      end
  end.

Definition boot_Run (opts : BootOptions) : prog bootE (list BootResult) := boot_steps (bo_Execute opts) (buildSteps opts).
