(* ===== verification/BootstrapSafety.v ===== *)
(** * Provisioning: nothing unverified is run, and only as root on the right system *)

From S2P Require Import Prelude GoStrings Regex Prog Civm Bootstrap.

Local Open Scope string_scope.
Local Open Scope list_scope.
Local Open Scope Z_scope.

Record boot := mkBoot {
  bt_os : bool;               (* a release file that says 24.04 was read *)
  bt_verified : gset string;  (* downloads verified since they were made *)
  bt_keys : gset string;      (* signing keys installed from verified downloads *)
  bt_found : gset string;     (* files found for installation *)
}.

Definition fresh_boot : boot := mkBoot false ∅ ∅ ∅.

(** The digest a download must have, by its place. *)
Definition pinned_file (path expected : string) : Prop :=
  (exists v, path = "/tmp/go-" +:+ v +:+ ".tar.gz" /\ GoLinuxAMD64SHA256 v = Some expected) \/
  (exists v, path = "/tmp/nodesource-" +:+ v +:+ ".sh" /\ NodeSourceSetupSHA256 v = Some expected) \/
  (exists v, path = "/tmp/yq-" +:+ v +:+ "-linux-amd64" /\ YQLinuxAMD64SHA256 v = Some expected).

Definition pinned_key (path expected : string) : Prop :=
  (path = "/tmp/docker.asc" /\ expected = DefaultDockerGPGFingerprint) \/
  (path = "/tmp/githubcli-archive-keyring.gpg" /\ expected = DefaultGitHubCLIGPGFingerprint).

Definition reads (name : string) (args : list string) : Prop :=
  name = "dpkg-query" \/ (name, args) = ("go", ["version"]) \/ args = ["--version"] \/
  (name, args) = ("dpkg", ["--print-architecture"]) \/ (exists t, (name, args) = ("systemctl", ["is-enabled"; t])) \/
  (exists p, (name, args) = ("gpg", ["--show-keys"; "--with-colons"; p])).

Definition may_change (name : string) (args : list string) (s : boot) : Prop :=
  name = "curl" \/ name = "apt-get" \/ (name, args) = ("ln", ["-sf"; "/usr/local/go/bin/go"; "/usr/local/bin/go"]) \/
  (name, args) = ("systemctl", ["daemon-reload"]) \/ (exists t, (name, args) = ("systemctl", ["enable"; "--now"; t])) \/
  (name, args) = ("install", ["-m"; "0755"; "-d"; "/etc/apt/keyrings"]) \/
  ((name, args) = ("rm", ["-rf"; "/usr/local/go"]) /\ exists v, "/tmp/go-" +:+ v +:+ ".tar.gz" ∈ bt_verified s) \/
  (exists p, (name, args) = ("tar", ["-C"; "/usr/local"; "-xzf"; p]) /\ p ∈ bt_verified s) \/
  (exists p, (name, args) = ("bash", [p]) /\ p ∈ bt_verified s) \/
  (exists mode p dst, (name, args) = ("install", ["-m"; mode; p; dst]) /\ p ∈ bt_verified s ∪ bt_found s) \/
  (exists p dst, (name, args) = ("cp", [p; dst]) /\ p ∈ bt_found s).

Definition signed_source (name : string) (s : boot) : Prop :=
  (name = "/etc/apt/sources.list.d/docker.list" /\ "/etc/apt/keyrings/docker.asc" ∈ bt_keys s) \/
  (name = "/etc/apt/sources.list.d/github-cli.list" /\ "/usr/share/keyrings/githubcli-archive-keyring.gpg" ∈ bt_keys s).

Definition verify (path : string) (s : boot) : boot := mkBoot (bt_os s) ({[path]} ∪ bt_verified s) (bt_keys s) (bt_found s).

Definition is_2404 (out : string) : bool := Contains out ("VERSION_ID=" +:+ String "034" ("24.04" +:+ String "034" "")).

Definition good_digest (path : string) (r : result string) : Prop :=
  exists actual expected, r = Ok actual /\ pinned_file path expected /\ VerifySHA256 actual expected = None.

Definition good_key (path : string) (r : string * err_ret) : Prop :=
  exists expected, pinned_key path expected /\ snd r = None /\ VerifyGPGFingerprint (fst r) expected = None.

(** What a command that succeeded has done. *)
Definition done_by (name : string) (args : list string) (s : boot) : boot :=
  match args with
  | [_; _; p; dst] =>
      if String.eqb name "install" && bool_decide (p ∈ bt_verified s)
      then mkBoot (bt_os s) (bt_verified s) ({[dst]} ∪ bt_keys s) (bt_found s) else s
  | _ => s
  end.

Section spec.
Context (opts : BootOptions).

Definition may_act (s : boot) : Prop := bo_Execute opts = true /\ bo_UID opts = 0 /\ bt_os s = true.

(** The file patterns of the units and scripts that are installed. *)
Definition unit_pattern (pattern : string) : Prop :=
  exists source, CleanDir (bo_InstallUnitsFrom opts) = Ok source /\
    (pattern = PathJoin source "civmctl-*.service" \/ pattern = PathJoin source "civmctl-*.timer" \/
     pattern = PathJoin (PathJoin (Dir source) "bin") "*.sh").

Definition boot_spec : spec bootE boot := {|
  allowed B e s :=
    match e with
    | OSReader => True
    | RunFn name args => reads name args \/ (may_act s /\ may_change name args s)
    | WriteFileFn name _ => may_act s /\ signed_source name s
    | SHA256FileFn _ => True
    | Glob pattern => may_act s /\ unit_pattern pattern
    end;
  answers B e s :=
    match e in bootE B return B -> boot -> Prop with
    | OSReader => fun r s' =>
        s' = match r with
             | Ok out => if is_2404 out then mkBoot true (bt_verified s) (bt_keys s) (bt_found s) else s
             | Err _ => s
             end
    | RunFn name args => fun r s' =>
        if String.eqb name "curl" then
          s' = mkBoot (bt_os s) (bt_verified s ∖ list_to_set args) (bt_keys s) (bt_found s)
        else if String.eqb name "gpg" then
          forall path, args = ["--show-keys"; "--with-colons"; path] ->
            (good_key path r /\ s' = verify path s) \/ (~ good_key path r /\ s' = s)
        else s' = match snd r with None => done_by name args s | Some _ => s end
    | WriteFileFn _ _ => fun _ s' => s' = s
    | SHA256FileFn path => fun r s' =>
        (good_digest path r /\ s' = verify path s) \/ (~ good_digest path r /\ s' = s)
    | Glob _ => fun r s' =>
        s' = match r with Ok l => mkBoot (bt_os s) (bt_verified s) (bt_keys s) (list_to_set l ∪ bt_found s) | Err _ => s end
    end;
|}.

Local Abbreviation B m Q s := (wpp boot_spec m Q s).

(** *** Rules *)

Lemma boot_then m k (Q : err_ret -> boot -> Prop) s :
  B m (fun e s' => match e with None => B k Q s' | Some e => Q (Some e) s' end) s -> B (then_ m k) Q s.
Proof.
  intros Hm. unfold then_. apply wpp_bind. eapply wpp_mono; [exact Hm|]. intros [e|] s' Hs'; [by apply wpp_ret|done].
Qed.

(** A command that is neither a download nor a look at keys. *)
Lemma boot_run name args s (Q : err_ret -> boot -> Prop) :
  reads name args \/ (may_act s /\ may_change name args s) -> name <> "curl" -> name <> "gpg" ->
  Q None (done_by name args s) -> (forall e, Q (Some e) s) -> B (run_ name args) Q s.
Proof.
  intros Ha Hc%String.eqb_neq Hg%String.eqb_neq HQ He. unfold run_. apply wpp_bind, wpp_call; [done|].
  intros [out e] s' Hs'. cbn in Hs'. rewrite Hc, Hg in Hs'. apply wpp_ret. subst s'. destruct e; [apply He|apply HQ].
Qed.

Lemma boot_curl args s (Q : err_ret -> boot -> Prop) :
  may_act s -> (forall e, Q e (mkBoot (bt_os s) (bt_verified s ∖ list_to_set args) (bt_keys s) (bt_found s))) ->
  B (run_ "curl" args) Q s.
Proof.
  intros Ha HQ. unfold run_. apply wpp_bind, wpp_call; [right; split; [done|by left]|]. intros [out e] s' ->. apply wpp_ret, HQ.
Qed.

(** A command that only reads. *)
Lemma boot_read {A} name args (f : string * err_ret -> A) s (Q : A -> boot -> Prop) :
  reads name args -> name <> "curl" -> name <> "gpg" -> name <> "install" -> (forall r, Q (f r) s) ->
  B (r ← call (RunFn name args); mret (f r)) Q s.
Proof.
  intros Hr Hc%String.eqb_neq Hg%String.eqb_neq Hi%String.eqb_neq HQ. apply wpp_bind, wpp_call; [by left|]. intros [out e] s' Hs'.
  cbn in Hs'. rewrite Hc, Hg in Hs'. apply wpp_ret. assert (s' = s) as ->; [|apply HQ].
  rewrite Hs'. destruct e; [done|]. unfold done_by. rewrite Hi. by repeat case_match.
Qed.

(** A download that is verified. *)
Lemma boot_verify tmp expected missing s (Q : err_ret -> boot -> Prop) :
  (forall x, expected = Some x -> pinned_file tmp x) ->
  Q None (verify tmp s) -> (forall e s', may_act s -> bt_os s' = bt_os s -> Q (Some e) s') ->
  may_act s -> B (verify_download tmp expected missing) Q s.
Proof.
  intros Hp HQ He Ha. unfold verify_download. destruct expected as [x|]; [|apply wpp_ret; by apply He].
  apply wpp_bind, wpp_call; [done|]. intros r s' Hr. apply wpp_ret. destruct r as [actual|e].
  - destruct (VerifySHA256 actual x) eqn:Ev.
    + apply He; [done|]. by destruct Hr as [[_ ->]|[_ ->]].
    + destruct Hr as [[_ ->]|[Hn ->]]; [done|]. destruct Hn. exists actual, x. split_and!; auto.
  - apply He; [done|]. by destruct Hr as [[_ ->]|[_ ->]].
Qed.

(** *** The steps keep the permission to act *)

Definition acting : err_ret -> boot -> Prop := fun _ s => may_act s.

Lemma may_act_os s s' : may_act s -> bt_os s' = bt_os s -> may_act s'.
Proof. unfold may_act. by intros (? & ? & ?) ->. Qed.

Lemma done_by_os name args s : bt_os (done_by name args s) = bt_os s.
Proof. unfold done_by. by repeat case_match. Qed.

(** Plain commands. *)
Definition plain (s : boot) (c : string * list string) : Prop :=
  fst c <> "curl" /\ fst c <> "gpg" /\ fst c <> "install" /\ may_change (fst c) (snd c) s.

Lemma boot_run_all l s : may_act s -> Forall (plain s) l -> B (run_all l) acting s.
Proof.
  intros Ha Hl. induction Hl as [|[name args] l (Hc & Hg & Hi & Hm) _ IH]; cbn [run_all]; [by apply wpp_ret|].
  apply boot_then, boot_run; [by right|done..| |by intros e].
  assert (done_by name args s = s) as ->; [|done]. unfold done_by. apply String.eqb_neq in Hi. cbn in Hi. rewrite Hi. by repeat case_match.
Qed.

Lemma boot_verify_keep tmp expected missing s k :
  (forall x, expected = Some x -> pinned_file tmp x) -> may_act s -> B k acting (verify tmp s) ->
  B (then_ (verify_download tmp expected missing) k) acting s.
Proof.
  intros Hp Ha Hk. apply boot_then, boot_verify; [done..| |done]. intros e s' _ Ho. by eapply may_act_os.
Qed.

Lemma boot_curl_keep args k s :
  may_act s -> (forall s', may_act s' -> B k acting s') -> B (then_ (run_ "curl" args) k) acting s.
Proof.
  intros Ha Hk. apply boot_then, boot_curl; [done|]. intros [e|]; [by eapply may_act_os|]. apply Hk. by eapply may_act_os.
Qed.

Ltac change_tac := unfold plain; cbn; split_and!; try done; unfold may_change; cbn.

Lemma keep_go v s : may_act s -> B (installGoTarball v) acting s.
Proof.
  intros Ha. unfold installGoTarball. apply boot_curl_keep; [done|]. intros s1 H1. apply boot_verify_keep; [|done|].
  { intros x Hx. left. eauto. }
  apply boot_run_all; [done|]. rewrite !Forall_cons, Forall_nil. split_and!; [..|done]; change_tac.
  - do 6 right. left. split; [done|]. exists v. set_solver.
  - do 7 right. left. eexists. split; [done|]. set_solver.
  - tauto.
Qed.

Lemma keep_node v s : may_act s -> B (installNodeViaNodeSource v) acting s.
Proof.
  intros Ha. unfold installNodeViaNodeSource. apply boot_curl_keep; [done|]. intros s1 H1. apply boot_verify_keep; [|done|].
  { intros x Hx. right. left. eauto. }
  apply boot_run_all; [done|]. rewrite !Forall_cons, Forall_nil. split_and!; [..|done]; change_tac.
  - do 8 right. left. eexists. split; [done|]. set_solver.
  - tauto.
Qed.

Lemma boot_install mode p dst s (Q : err_ret -> boot -> Prop) :
  may_act s -> p ∈ bt_verified s -> Q None (mkBoot (bt_os s) (bt_verified s) ({[dst]} ∪ bt_keys s) (bt_found s)) ->
  (forall e, Q (Some e) s) -> B (run_ "install" ["-m"; mode; p; dst]) Q s.
Proof.
  intros Ha Hp HQ He. apply boot_run; [|done..| |done].
  - right. split; [done|]. do 9 right. left. do 3 eexists. split; [done|]. set_solver.
  - unfold done_by. cbn. by rewrite bool_decide_true.
Qed.

Lemma keep_yq v s : may_act s -> B (installYQBinary v) acting s.
Proof.
  intros Ha. unfold installYQBinary. apply boot_curl_keep; [done|]. intros s1 H1. apply boot_verify_keep; [|done|].
  { intros x Hx. right. right. eauto. }
  apply boot_install; [done| |done|done]. cbn. set_solver.
Qed.

Lemma keep_apt tmpKey key expected sources source packages s :
  may_act s -> pinned_key tmpKey expected -> (forall s', key ∈ bt_keys s' -> signed_source sources s') ->
  B (install_from_apt tmpKey key expected sources source packages) acting s.
Proof.
  intros Ha Hk Hsrc. unfold install_from_apt. apply boot_then. unfold verifyKeyFingerprint. apply wpp_bind, wpp_call.
  { left. do 5 right. by eexists. }
  intros [out e] s1 Hs1. specialize (Hs1 tmpKey eq_refl). apply wpp_ret.
  assert (may_act s1) as H1 by (destruct Hs1 as [[_ ->]|[_ ->]]; [by eapply may_act_os|done]).
  destruct e as [e|]; [done|]. destruct (VerifyGPGFingerprint out expected) eqn:Ev; [done|].
  destruct Hs1 as [[_ ->]|[Hn _]]; [|destruct Hn; by exists expected].
  apply boot_then, boot_install; [done|cbn; set_solver| |done].
  apply boot_then, wpp_call; [split; [done|]; apply Hsrc; cbn; set_solver|]. intros [e|] s2 ->; [done|].
  apply boot_run_all; [done|]. rewrite !Forall_cons, Forall_nil. split_and!; [..|done]; change_tac; tauto.
Qed.

Lemma boot_output name args s (Q : result string -> boot -> Prop) :
  reads name args -> name <> "curl" -> name <> "gpg" -> name <> "install" -> (forall r, Q r s) -> B (commandOutputTrimmed name args) Q s.
Proof.
  intros Hr Hc Hg Hi HQ. unfold commandOutputTrimmed.
  apply (boot_read name args (fun r => match r with
        | (_, Some e) => Err e
        | (out, None) => let value := TrimSpace out in
                         if String.eqb value "" then Err (Errorf (name +:+ " returned empty output")) else Ok value
        end)); [done..|]. intros r. apply HQ.
Qed.

Lemma os_read s r : may_act s -> may_act (match r with
             | Ok out => if is_2404 out then mkBoot true (bt_verified s) (bt_keys s) (bt_found s) else s
             | Err _ => s
             end).
Proof. intros Ha. destruct r; [|done]. case_match; [|done]. unfold may_act in *. cbn. tauto. Qed.

Lemma keep_docker s : may_act s -> B installDockerCE acting s.
Proof.
  intros Ha. unfold installDockerCE. apply wpp_bind, boot_output; [unfold reads; tauto|done..|]. intros [arch|e]; [|by apply wpp_ret].
  apply wpp_bind. unfold ubuntuCodename. apply wpp_bind, wpp_call; [done|]. intros r s1 ->. apply wpp_ret.
  pose proof (os_read s r Ha) as H1. revert H1. generalize (match r with Ok out => if is_2404 out then mkBoot true (bt_verified s) (bt_keys s) (bt_found s) else s | Err _ => s end) as s1.
  intros s1 H1. match goal with |- wpp _ (match ?x with _ => _ end) _ _ => destruct x as [codename|e] end; [|by apply wpp_ret].
  apply boot_then. cbn [run_all].
  apply boot_then, boot_run; [right; split; [done|]; unfold may_change; tauto|done..| |done].
  assert (may_act (done_by "install" ["-m"; "0755"; "-d"; "/etc/apt/keyrings"] s1)) as H2 by (eapply may_act_os; [done|apply done_by_os]).
  revert H2. generalize (done_by "install" ["-m"; "0755"; "-d"; "/etc/apt/keyrings"] s1) as s2. intros s2 H2.
  apply boot_then, boot_curl; [done|]. intros [e|]; [by eapply may_act_os|].
  apply wpp_ret. apply keep_apt; [by eapply may_act_os|by left|]. intros s' Hs'. by left.
Qed.

Lemma keep_gh s : may_act s -> B installGHCLI acting s.
Proof.
  intros Ha. unfold installGHCLI. apply wpp_bind, boot_output; [unfold reads; tauto|done..|]. intros [arch|e]; [|by apply wpp_ret].
  apply boot_curl_keep; [done|]. intros s1 H1. apply keep_apt; [done|by right|]. intros s' Hs'. by right.
Qed.

(** *** Units and scripts *)

Lemma boot_copy command dir files s :
  (forall f dst s', may_act s' -> f ∈ bt_found s' ->
     fst (command f dst) <> "curl" /\ fst (command f dst) <> "gpg" /\ may_change (fst (command f dst)) (snd (command f dst)) s') ->
  may_act s -> (forall f, f ∈ files -> f ∈ bt_found s) -> B (copy_files command dir files) acting s.
Proof.
  intros Hc. revert s. induction files as [|f files IH]; intros s Ha Hf; cbn [copy_files]; [by apply wpp_ret|].
  destruct (Hc f (PathJoin dir (Base f)) s Ha) as (H1 & H2 & H3); [set_solver|].
  destruct (command f (PathJoin dir (Base f))) as [name args]. cbn in H1, H2, H3.
  apply wpp_bind, boot_run; [by right|done..| |intros e; by apply wpp_ret].
  apply IH; [eapply may_act_os; [done|apply done_by_os]|]. intros f' Hf'.
  assert (bt_found (done_by name args s) = bt_found s) as -> by (unfold done_by; by repeat case_match). set_solver.
Qed.

Lemma boot_glob pattern s (Q : result (list string) -> boot -> Prop) :
  may_act s -> unit_pattern pattern -> (forall e, Q (Err e) s) ->
  (forall l, Q (Ok l) (mkBoot (bt_os s) (bt_verified s) (bt_keys s) (list_to_set l ∪ bt_found s))) -> B (call (Glob pattern)) Q s.
Proof. intros Ha Hp He HQ. apply wpp_call; [done|]. intros [l|e] s' ->; auto. Qed.

Lemma keep_units s : may_act s -> B (copySystemdUnits opts) acting s.
Proof.
  intros Ha. unfold copySystemdUnits. destruct (CleanDir (bo_InstallUnitsFrom opts)) as [source|e] eqn:Es; [|by apply wpp_ret].
  assert (forall p, p = PathJoin source "civmctl-*.service" \/ p = PathJoin source "civmctl-*.timer" -> unit_pattern p) as Hp.
  { intros p Hp. exists source. tauto. }
  cbn [glob_units]. apply wpp_bind, wpp_bind, boot_glob; [done|apply Hp; by left|intros e; by apply wpp_ret, wpp_ret|].
  intros l. apply wpp_bind, boot_glob; [by eapply may_act_os|apply Hp; by right|intros e; apply wpp_ret, wpp_ret; by eapply may_act_os|].
  intros l'. apply wpp_ret. cbn [app]. destruct (l ++ l') as [|u units] eqn:El; [apply wpp_ret; by eapply may_act_os|].
  apply boot_copy; [|by eapply may_act_os|rewrite <- El; cbn; set_solver].
  intros f dst s' Ha' Hf. cbn. split_and!; [done..|]. do 10 right. do 2 eexists. by split.
Qed.

Lemma keep_scripts s : may_act s -> B (copyDeployScripts opts) acting s.
Proof.
  intros Ha. unfold copyDeployScripts. destruct (CleanDir (bo_InstallUnitsFrom opts)) as [source|e] eqn:Es; [|by apply wpp_ret].
  apply wpp_bind, boot_glob; [done|by exists source; tauto|intros e; by apply wpp_ret|]. intros l.
  apply boot_copy; [|by eapply may_act_os|cbn; set_solver].
  intros f dst s' Ha' Hf. cbn. split_and!; [done..|]. do 9 right. left. do 3 eexists. split; [done|]. set_solver.
Qed.

Lemma keep_timers s : may_act s -> B (install_timers opts) acting s.
Proof.
  intros Ha. unfold install_timers. apply boot_then.
  apply (wpp_mono _ _ acting).
  - case_match; [by apply wpp_ret|]. apply boot_then. eapply wpp_mono; [by apply keep_units|]. intros [e|] s1 H1; [done|by apply keep_scripts].
  - intros [e|] s1 H1; [done|]. apply boot_then, boot_run; [right; split; [done|]; unfold may_change; tauto|done..| |done].
    clear s Ha. revert s1 H1. unfold done_by. induction (timerList opts) as [|t l IH]; intros s H1; cbn [enable_timers]; [by apply wpp_ret|].
    apply wpp_bind, boot_run; [right; split; [done|]; unfold may_change; do 4 right; left; by eexists|done..|by apply IH|].
    intros e. by apply wpp_ret.
Qed.

(** *** The run *)

(** Exactly one outcome: done already, applied, to be applied, or failed. *)
Definition one_outcome (r : BootResult) : Prop :=
  match br_AlreadyDone r, br_Executed r, br_WouldDo r, br_Err r with
  | true, false, false, None | false, false, false, Some _ => True
  | false, true, false, None => bo_Execute opts = true
  | false, false, true, None => bo_Execute opts = false
  | _, _, _, _ => False
  end.

(** A step past the two first: its check only reads, and it acts within the rules. *)
Definition good_step (st : BootStep) : Prop :=
  bp_HardFail st = false /\
  (forall s (Q : result bool -> boot -> Prop), (forall r, Q r s) -> B (bp_Check st) Q s) /\
  (forall s, may_act s -> B (bp_Apply st) acting s).

Lemma boot_tail steps s :
  Forall good_step steps -> (bo_Execute opts = true -> may_act s) ->
  B (boot_steps (bo_Execute opts) steps) (fun out _ => br_Name <$> out = bp_Name <$> steps /\ Forall one_outcome out) s.
Proof.
  intros Hs. revert s. induction Hs as [|st steps (Hh & Hc & Happ) _ IH]; intros s Ha; cbn [boot_steps]; [by apply wpp_ret|].
  assert (forall x s', (bo_Execute opts = true -> may_act s') -> br_Name x = bp_Name st -> one_outcome x ->
    B (out ← boot_steps (bo_Execute opts) steps; mret (x :: out))
      (fun out _ => br_Name <$> out = bp_Name <$> (st :: steps) /\ Forall one_outcome out) s') as Hnext.
  { intros x s' Ha' Hx Ho. apply wpp_bind. eapply wpp_mono; [by apply IH|]. intros out s2 [Hn Hf]. apply wpp_ret.
    split; [by cbn; rewrite Hx, Hn|by constructor]. }
  apply wpp_bind, Hc. rewrite Hh. intros [[|]|e]; [by apply Hnext| |by apply Hnext].
  destruct (bo_Execute opts) eqn:Ee; cbn [negb]; [|by apply Hnext; [|done|unfold one_outcome; cbn]].
  apply wpp_bind. eapply wpp_mono; [by apply Happ, Ha|]. intros [e|] s1 H1; apply Hnext; try done.
Qed.

(** A check that may end the run. *)
Lemma boot_hard st steps s (Q : list BootResult -> boot -> Prop) :
  bp_HardFail st = true ->
  B (bp_Check st) (fun r s1 =>
    match r with
    | Err e => Q [mkBootResult (bp_Name st) (bp_Description st) false false false (Some e)] s1
    | Ok true => B (boot_steps (bo_Execute opts) steps)
                   (fun out s2 => Q (mkBootResult (bp_Name st) (bp_Description st) true false false None :: out) s2) s1
    | Ok false => False
    end) s ->
  B (boot_steps (bo_Execute opts) (st :: steps)) Q s.
Proof.
  intros Hh Hc. cbn [boot_steps]. apply wpp_bind. eapply wpp_mono; [exact Hc|]. intros [[|]|e] s1 H1; [|done|].
  - apply wpp_bind. eapply wpp_mono; [exact H1|]. intros out s2 H2. by apply wpp_ret.
  - rewrite Hh. by apply wpp_ret.
Qed.

Lemma check_tool name args want s (Q : result bool -> boot -> Prop) :
  reads name args -> name <> "curl" -> name <> "gpg" -> name <> "install" -> (forall r, Q r s) -> B (tool_present name args want) Q s.
Proof. intros Hr Hc Hg Hi HQ. unfold tool_present. apply boot_read; [done..|]. intros r. apply HQ. Qed.

Lemma check_timers l s (Q : bool -> boot -> Prop) : (forall b, Q b s) -> B (timers_enabled l) Q s.
Proof.
  intros HQ. induction l as [|t l IH]; cbn [timers_enabled]; [by apply wpp_ret|]. apply wpp_bind, wpp_call.
  { left. do 4 right. left. by eexists. }
  intros [out e] s' Hs'. assert (s' = s) as -> by (rewrite Hs'; by destruct e). destruct e; [by apply wpp_ret|].
  case_match; [exact IH|by apply wpp_ret].
Qed.

Lemma tail_good : Forall good_step (drop 2 (buildSteps opts)).
Proof.
  unfold buildSteps. cbn [drop]. rewrite !Forall_cons, Forall_nil. split_and!; [..|done]; (split; [done|split]); cbn [bp_Check bp_Apply];
    try (intros s Q HQ; apply check_tool; [unfold reads; tauto|done..]).
  - intros s Q HQ. unfold packagesInstalled. apply boot_read; [unfold reads; tauto|done..|]. intros r. apply HQ.
  - intros s Ha. apply boot_run_all; [done|]. rewrite !Forall_cons, Forall_nil. split_and!; [..|done]; change_tac; tauto.
  - intros s. apply keep_go.
  - intros s. apply keep_node.
  - intros s. apply keep_docker.
  - intros s. apply keep_gh.
  - intros s. apply keep_yq.
  - intros s Q HQ. apply wpp_bind, check_timers. intros b. apply wpp_ret, HQ.
  - intros s. apply keep_timers.
Qed.

(** C24. Provisioning runs nothing it has not verified.  Under any answers: a dry run only
    reads; anything is changed only as root and after a release file that says 24.04 was
    read; an archive is unpacked, a script run and a binary installed only when the file
    downloaded last to that place has the pinned digest, and the old Go is removed only
    then; a package source is written only after its signing key, with the pinned
    fingerprint, was installed; other files are installed only from the given directory.
    Every step is reported in order with exactly one outcome, and only a failed check of
    system or user ends the list early. *)
Theorem provisioning_is_verified :
  B (boot_Run opts)
    (fun out _ => Forall one_outcome out /\
       (br_Name <$> out = bp_Name <$> buildSteps opts \/
        exists r, last out = Some r /\ br_Err r <> None /\ (br_Name <$> out = ["verify_os"] \/ br_Name <$> out = ["verify_os"; "verify_uid"])))
    fresh_boot.
Proof.
  unfold boot_Run. pose proof tail_good as Hgood. change (buildSteps opts) with (take 2 (buildSteps opts) ++ drop 2 (buildSteps opts)).
  revert Hgood. generalize (drop 2 (buildSteps opts)) as steps. intros steps Hgood.
  apply boot_hard; [done|]. apply wpp_bind, wpp_call; [done|]. intros r s1 ->. apply wpp_ret. destruct r as [out|e].
  2: { split; [by repeat constructor|]. right. eexists. split_and!; [done..|]. by left. }
  destruct (is_2404 out) eqn:Eo; unfold is_2404 in Eo; rewrite Eo.
  2: { split; [by repeat constructor|]. right. eexists. split_and!; [done..|]. by left. }
  apply boot_hard; [done|]. apply wpp_ret. destruct (bo_UID opts =? 0) eqn:Eu.
  2: { split; [by repeat constructor|]. right. eexists. split_and!; [done..|]. by right. }
  apply Z.eqb_eq in Eu. eapply wpp_mono; [apply (boot_tail _ _ Hgood)|]; [intros Ee; by split_and!|].
  intros res s2 [Hn Hf]. split; [by repeat constructor|]. left. cbn. by rewrite Hn.
Qed.
End spec.

(** The check of a key looks for the fingerprint anywhere in the listing: a key ring with
    a second key of somebody else passes. *)
Theorem extra_signing_key_passes :
  let colons s := "fpr:::::::::" +:+ s +:+ ":" +:+ newline in
  VerifyGPGFingerprint (colons "0000000000000000000000000000000000000BAD" +:+ colons DefaultDockerGPGFingerprint)
    DefaultDockerGPGFingerprint = None.
Proof. vm_compute. reflexivity. Qed.
