(* ===== verification/SelfUpgrade.v ===== *)
(** * internal/selfupgrade: the binary replaces itself

    [upgrade_Run] builds next to the target, verifies what was built and renames it over the
    target; every injected function is an effect.  The theorem runs it on a file system
    where a build may leave anything, a failed one included; the race is two upgrades on
    one file system, call by call. *)

From S2P Require Import Prelude GoStrings Prog.

Local Open Scope string_scope.
Local Open Scope list_scope.
Local Open Scope Z_scope.

Record UpgradeOptions := mkUpgradeOptions { up_SourceDir : string; up_Target : string; up_Execute : bool; up_Timeout : Z }.

Record UpgradeResult := mkUpgradeResult {
  ur_Executed : bool;
  ur_SourceDir : string;
  ur_Target : string;
  ur_BuiltAt : string;
  ur_Verified : bool;
  ur_Swapped : bool;
  ur_OldSize : Z;
  ur_NewSize : Z;
  ur_Error : string;
}.

Inductive upgradeE : Type -> Type :=
  | UpStat (path : string) : upgradeE (result Z)                     (* the size *)
  | UpBuild (sourceDir output : string) (timeout : Z) : upgradeE err_ret
  | UpVerify (path : string) : upgradeE err_ret
  | UpRename (oldPath newPath : string) : upgradeE err_ret
  | UpRemove (path : string) : upgradeE err_ret.

Definition up_applyDefaults (opts : UpgradeOptions) : UpgradeOptions :=
  mkUpgradeOptions
    (if String.eqb (up_SourceDir opts) "" then "/opt/civm" else up_SourceDir opts)
    (if String.eqb (up_Target opts) "" then "/usr/local/bin/civmctl" else up_Target opts)
    (up_Execute opts)
    (if up_Timeout opts =? 0 then 5 * Minute else up_Timeout opts).

Definition failResult (res : UpgradeResult) (err : error) : UpgradeResult :=
  mkUpgradeResult (ur_Executed res) (ur_SourceDir res) (ur_Target res) (ur_BuiltAt res) (ur_Verified res) (ur_Swapped res)
    (ur_OldSize res) (ur_NewSize res) (err_text err).

Definition size_or_zero (r : result Z) : Z := match r with Ok n => n | Err _ => 0 end.

(** The name of the build next to the target. *)
Definition tmp_of (target : string) : string := PathJoin (Dir target) ".civmctl.new".

Definition upgrade_Run (opts : UpgradeOptions) : prog upgradeE UpgradeResult :=
  let opts := up_applyDefaults opts in
  let target := up_Target opts in
  let res old built verified swapped new := mkUpgradeResult (up_Execute opts) (up_SourceDir opts) target built verified swapped old new "" in
  if negb (up_Execute opts) then
    src ← call (UpStat (up_SourceDir opts));
    match src with
    | Err e => mret (failResult (res 0 "" false false 0) (Errorf_w "source_dir nao existe" e))
    | Ok _ => old ← call (UpStat target); mret (res (size_or_zero old) "" false false 0)
    end
  else
    stat ← call (UpStat target);
    let old := size_or_zero stat in
    let tmpPath := tmp_of target in
    built ← call (UpBuild (up_SourceDir opts) tmpPath (up_Timeout opts));
    match built with
    | Some e => call (UpRemove tmpPath);; mret (failResult (res old tmpPath false false 0) (Errorf_w "build" e))
    | None =>
        verified ← call (UpVerify tmpPath);
        match verified with
        | Some e => call (UpRemove tmpPath);; mret (failResult (res old tmpPath false false 0) (Errorf_w "verify built binary" e))
        | None =>
            info ← call (UpStat tmpPath);
            let new := size_or_zero info in
            renamed ← call (UpRename tmpPath target);
            match renamed with
            | Some e => call (UpRemove tmpPath);; mret (failResult (res old tmpPath true false new) (Errorf_w "rename" e))
            | None => mret (res old tmpPath true true new)
            end
        end
    end.

(** [defaultVerify] on the answer of the built binary to version-pins. *)
Definition defaultVerify (out : string) (err : err_ret) : err_ret :=
  match err with
  | Some e => Some (Errorf_w "version-pins check" e)
  | None => if String.eqb (TrimSpace out) "" then Some (Errorf "version-pins check: empty output") else None
  end.

(** ** One upgrade on a file system *)

(** The files, and whether the last removal has failed. *)
Record up_fs := mkUpFs { uf_files : gmap string string; uf_unremoved : bool }.

(** [works c]: the binary [c] passes the verification.  A build leaves what it likes under
    the name it was given; a rename and a removal succeed or change nothing. *)
Definition up_spec (works : string -> bool) : spec upgradeE up_fs := {|
  allowed B e s := match e with UpRename old _ => exists c, uf_files s !! old = Some c /\ works c = true | _ => True end;
  answers B e s :=
    match e in upgradeE B return B -> up_fs -> Prop with
    | UpStat _ => fun _ s' => s' = s
    | UpBuild _ out _ => fun _ s' => exists o, s' = mkUpFs (partial_alter (fun _ => o) out (uf_files s)) (uf_unremoved s)
    | UpVerify path => fun b s' => s' = s /\ (b = None <-> exists c, uf_files s !! path = Some c /\ works c = true)
    | UpRename old new => fun b s' =>
        match b with
        | None => s' = mkUpFs (partial_alter (fun _ => uf_files s !! old) new (delete old (uf_files s))) (uf_unremoved s)
        | Some _ => s' = s
        end
    | UpRemove path => fun b s' =>
        match b with
        | None => s' = mkUpFs (delete path (uf_files s)) (uf_unremoved s)
        | Some _ => s' = mkUpFs (uf_files s) true
        end
    end;
|}.

(** Files but the temporary one. *)
Definition same_but (tmp : string) (m m' : gmap string string) : Prop := forall p, p <> tmp -> m' !! p = m !! p.

Lemma same_but_refl tmp m : same_but tmp m m.
Proof. done. Qed.
Lemma same_but_alter tmp m m' o : same_but tmp m m' -> same_but tmp m (partial_alter (fun _ => o) tmp m').
Proof. intros H p Hp. rewrite lookup_partial_alter_ne by done. by apply H. Qed.
Lemma same_but_delete tmp m m' : same_but tmp m m' -> same_but tmp m (delete tmp m').
Proof. intros H p Hp. rewrite lookup_delete_ne by done. by apply H. Qed.

(** What an upgrade may have done to the files [m]. *)
Definition upgraded (works : string -> bool) (opts : UpgradeOptions) (m : gmap string string) (r : UpgradeResult) (s : up_fs) : Prop :=
  let target := up_Target (up_applyDefaults opts) in
  let tmp := tmp_of target in
  (if ur_Swapped r
   then exists c, works c = true /\ uf_files s !! target = Some c /\ uf_files s !! tmp = None /\ ur_Verified r = true /\ ur_Error r = "" /\
          forall p, p <> target -> p <> tmp -> uf_files s !! p = m !! p
   else same_but tmp m (uf_files s) /\ (up_Execute opts = true -> uf_files s !! tmp = None \/ uf_unremoved s = true)) /\
  (up_Execute opts = false -> uf_files s = m).

(** The build is removed. *)
Lemma wpp_discard works opts m (r : UpgradeResult) s : ur_Swapped r = false -> up_Execute opts = true ->
  same_but (tmp_of (up_Target (up_applyDefaults opts))) m (uf_files s) ->
  wpp (up_spec works) (call (UpRemove (tmp_of (up_Target (up_applyDefaults opts))));; mret r) (upgraded works opts m) s.
Proof.
  intros Hr He Hs. apply wpp_bind, wpp_call; [done|]. intros [e|] s1 ->; apply wpp_ret; unfold upgraded; rewrite Hr, He; cbn [uf_files uf_unremoved].
  - split; [split; auto|done].
  - split; [split; [by apply same_but_delete|intros _; left; apply lookup_delete_eq]|done].
Qed.

(** C28. One [Run] at a time, on a target other than [.civmctl.new], on any file system,
    whatever the build leaves, whatever fails: a rename is
    asked for only while a binary that passed the verification is in place; the target is
    either what it was or a binary that passes the verification, and then [Swapped] is
    reported, with no error; no other file changes; unless it was swapped in, the build is
    gone, or its removal failed; and a dry run changes nothing. *)
Theorem upgrade_never_breaks_the_target works opts m u :
  tmp_of (up_Target (up_applyDefaults opts)) <> up_Target (up_applyDefaults opts) ->
  wpp (up_spec works) (upgrade_Run opts) (upgraded works opts m) (mkUpFs m u).
Proof.
  intros Hne. unfold upgrade_Run. change (up_Execute (up_applyDefaults opts)) with (up_Execute opts).
  destruct (up_Execute opts) eqn:Hx; cbn [negb].
  - apply wpp_bind, wpp_call; [done|]. intros stat s1 ->. apply wpp_bind, wpp_call; [done|].
    intros built s1 [o ->]. set (tmp := tmp_of _) in *.
    assert (same_but tmp m (partial_alter (fun _ => o) tmp m)) as Hs by (by apply same_but_alter).
    destruct built as [e|]; [by apply wpp_discard|]. apply wpp_bind, wpp_call; [done|].
    intros verified s2 [-> Hv]. destruct verified as [e|]; [by apply wpp_discard|].
    destruct (proj1 Hv eq_refl) as (c & Hc & Hw).
    apply wpp_bind, wpp_call; [done|]. intros info s3 ->.
    apply wpp_bind, wpp_call; [by exists c|]. intros [e|] s3 ->; [by apply wpp_discard|]. apply wpp_ret.
    unfold upgraded. cbn [ur_Swapped uf_files uf_unremoved ur_Verified ur_Error]. rewrite Hx. fold tmp. split; [|done].
    exists c. cbn [uf_files] in Hc. rewrite Hc, lookup_partial_alter_eq, lookup_partial_alter_ne, lookup_delete_eq by done.
    split_and!; try done. intros p Hp Hp'. rewrite lookup_partial_alter_ne, lookup_delete_ne by done. by apply Hs.
  - apply wpp_bind, wpp_call; [done|]. intros [n|e] s1 ->; [apply wpp_bind, wpp_call; [done|]; intros old s1 ->|];
      apply wpp_ret; unfold upgraded; cbn [ur_Swapped failResult uf_files]; rewrite Hx; split; done.
Qed.

Lemma upgrade_never_breaks_the_target_witness :
  wpp (up_spec (String.eqb "good")) (upgrade_Run (mkUpgradeOptions "" "" true 0))
    (upgraded (String.eqb "good") (mkUpgradeOptions "" "" true 0) {[ "/usr/local/bin/civmctl" := "old" ]})
    (mkUpFs {[ "/usr/local/bin/civmctl" := "old" ]} false).
Proof. apply upgrade_never_breaks_the_target. vm_compute. discriminate. Defined.

(** ** Two upgrades at once *)

Definition up_sem (works : string -> bool) (p : Z) (B : Type) (e : upgradeE B) (g : up_fs) (b : B) (g' : up_fs) : Prop :=
  answers (up_spec works) e g b g'.

(** The machine of the race: the build of process 2 is stopped half way. *)
Definition race_machine (p : Z) (B : Type) (e : upgradeE B) : St up_fs B := fun g =>
  match e in upgradeE B return B * up_fs with
  | UpStat _ => (Ok 1, g)
  | UpBuild _ out _ =>
      if p =? 1 then (None, mkUpFs (<[out := "good"]> (uf_files g)) (uf_unremoved g))
      else (Some (Errorf "signal: killed"), mkUpFs (<[out := "half"]> (uf_files g)) (uf_unremoved g))
  | UpVerify path => (if decide (uf_files g !! path = Some "good") then None else Some (Errorf "exec format error"), g)
  | UpRename old new => (None, mkUpFs (partial_alter (fun _ => uf_files g !! old) new (delete old (uf_files g))) (uf_unremoved g))
  | UpRemove path => (None, mkUpFs (delete path (uf_files g)) (uf_unremoved g))
  end.

Lemma race_machine_sem p B (e : upgradeE B) g : up_sem (String.eqb "good") p B e g (fst (race_machine p B e g)) (snd (race_machine p B e g)).
Proof.
  destruct e as [path|src out t|path|old new|path]; cbn -[String.eqb]; try done.
  - destruct (p =? 1); cbn; eauto.
  - split; [done|]. destruct (decide (uf_files g !! path = Some "good")) as [Hg|Hg]; split; try done.
    + intros _. exists "good". by split.
    + intros (c & Hc & Hw). apply String.eqb_eq in Hw. by subst c.
Qed.

Abbreviation up_pool := (gmap Z (prog upgradeE UpgradeResult)).

Definition up_turn (c : up_pool * up_fs) (p : Z) : up_pool * up_fs :=
  match fst c !! p with
  | Some (Call e k) => let '(b, g) := race_machine p _ e (snd c) in (<[p := k b]> (fst c), g)
  | _ => c
  end.

Lemma up_turns_reachable sched c : rtc (pstep (up_sem (String.eqb "good"))) c (foldl up_turn c sched).
Proof.
  revert c. induction sched as [|p sched IH]; intros c; cbn; [done|].
  transitivity (up_turn c p); [|apply IH]. destruct c as [pool g]. unfold up_turn. cbn.
  destruct (pool !! p) as [[a|B e k]|] eqn:Hp; [done| |done].
  pose proof (race_machine_sem p B e g) as Hs. destruct (race_machine p B e g) as [b g'].
  by apply rtc_once, (pstep_call _ p B e).
Qed.

Definition a_target : string := "/usr/local/bin/civmctl".
Definition two_upgrades : up_pool * up_fs :=
  let run := upgrade_Run (mkUpgradeOptions "" "" true 0) in
  ({[ 1 := run; 2 := run ]}, mkUpFs {[ a_target := "good" ]} false).

(** Every upgrade builds under the same name: process 1 has built and verified, process 2
    builds over it and is stopped half way, and process 1 renames that over the target. *)
Definition upgrade_race : list Z := [1; 1; 1; 1] ++ [2; 2] ++ [1].

(** The verified file is not the one that is renamed: with two upgrades at once a target
    that worked ends as a binary that does not, and the upgrade that put it there reports
    it verified and swapped, without an error. *)
Lemma concurrent_upgrades_break_the_target : exists c r,
  rtc (pstep (up_sem (String.eqb "good"))) two_upgrades c /\ fst c !! 1 = Some (Done r) /\
  ur_Verified r = true /\ ur_Swapped r = true /\ ur_Error r = "" /\ uf_files (snd c) !! a_target = Some "half".
Proof.
  exists (foldl up_turn two_upgrades upgrade_race). eexists. split; [apply up_turns_reachable|]. split_and!; vm_compute; reflexivity.
Qed.
