(* ===== verification/Health.v ===== *)
(** * internal/health and internal/reversewatchdog: the checks of the host

    [health_Collect] runs every check on the answers of the injected functions, the [default]
    definitions are what the production wiring makes of the output of the commands.  Only
    the text of a row is left out.  [time.Parse] is a parameter. *)

From S2P Require Import Prelude GoStrings Regex Prog Civm.

Local Open Scope string_scope.
Local Open Scope list_scope.
Local Open Scope Z_scope.

Inductive HealthStatus := HealthOK | HealthWarn | HealthCritical.

#[global] Instance HealthStatus_eq_dec : EqDecision HealthStatus.
Proof. solve_decision. Defined.

Definition status_int (s : HealthStatus) : Z := match s with HealthOK => 0 | HealthWarn => 1 | HealthCritical => 2 end.

Record HealthCheck := mkHealthCheck { hc_Name : string; hc_Status : HealthStatus }.

Record TimerState := mkTimerState { ti_Enabled : string; ti_Active : string }.
Record ServiceState := mkServiceState { sv_LoadState : string; sv_Result : string }.

(** [Report.Exit] *)
Definition health_Exit (checks : list HealthCheck) : Z :=
  status_int (foldl (fun worst c => if status_int worst <? status_int (hc_Status c) then hc_Status c else worst) HealthOK checks).

Record Collector := mkCollector {
  hl_WorkDir : string;
  hl_DiskWarnFreeGB : Z;
  hl_DiskCritFreeGB : Z;
  hl_MemWarnFreeMB : Z;
  hl_MemCritFreeMB : Z;
}.

Definition NewDefaultCollector (workDir : string) : Collector := mkCollector workDir 10 3 512 128.

Inductive healthE : Type -> Type :=
  | StatfsFn (path : string) : healthE (result (Z * Z))               (* total and free bytes, unsigned *)
  | MeminfoFn : healthE (result Z)                                    (* MemAvailable in kB *)
  | RunnerUnitsFn : healthE (result (list string))
  | LastCleanupFn : healthE (result (option Z))
  | TimerStateFn (timer : string) : healthE (result TimerState)
  | ServiceStateFn (service : string) : healthE (result ServiceState)
  | HealthNow : healthE Z.

(** [int64] of an unsigned quotient. *)
Definition whole_gb (bytes : Z) : Z := int64 (bytes / 2 ^ 30).

(** The status of a value that must not fall below two bounds. *)
Definition low (value crit warn : Z) : HealthStatus := if value <? crit then HealthCritical else if value <? warn then HealthWarn else HealthOK.

Section collect.
Context (c : Collector).

Definition checkDisk : prog healthE HealthCheck :=
  r ← call (StatfsFn (hl_WorkDir c));
  mret (mkHealthCheck "DISK" (match r with
                              | Err _ => HealthWarn
                              | Ok (_, free) => low (whole_gb free) (hl_DiskCritFreeGB c) (hl_DiskWarnFreeGB c)
                              end)).

Definition checkMem : prog healthE HealthCheck :=
  r ← call MeminfoFn;
  mret (mkHealthCheck "MEM" (match r with
                             | Err _ => HealthWarn
                             | Ok availKB => low (Z.quot availKB 1024) (hl_MemCritFreeMB c) (hl_MemWarnFreeMB c)
                             end)).

Definition checkRunners : prog healthE HealthCheck :=
  r ← call RunnerUnitsFn;
  mret (mkHealthCheck "RUNNERS" (match r with Err _ => HealthWarn | Ok _ => HealthOK end)).

Definition checkTimer (name timer : string) (missingStatus : HealthStatus) : prog healthE HealthCheck :=
  r ← call (TimerStateFn timer);
  mret (mkHealthCheck name (match r with
                            | Err _ => missingStatus
                            | Ok state => if negb (String.eqb (ti_Enabled state) "enabled") || negb (String.eqb (ti_Active state) "active")
                                          then missingStatus else HealthOK
                            end)).

Definition checkServiceResult (name service : string) (failedStatus : HealthStatus) : prog healthE HealthCheck :=
  r ← call (ServiceStateFn service);
  mret (mkHealthCheck name (match r with
                            | Err _ => HealthWarn
                            | Ok state => if negb (String.eqb (sv_LoadState state) "loaded") then failedStatus
                                          else if negb (String.eqb (sv_Result state) "success") then failedStatus else HealthOK
                            end)).

Definition checkLastCleanup : prog healthE HealthCheck :=
  r ← call LastCleanupFn;
  match r with
  | Err _ | Ok None => mret (mkHealthCheck "LAST" HealthWarn)
  | Ok (Some when) =>
      now ← call HealthNow;
      mret (mkHealthCheck "LAST" (if 48 * Hour <? time_Sub now when then HealthWarn else HealthOK))
  end.

(** The timers and services that must be there, with what their absence is. *)
Definition health_timers : list (string * string * HealthStatus) := [
  ("TIMER_CLEANUP", "civmctl-cleanup.timer", HealthCritical);
  ("TIMER_DISK", "civmctl-disk-watchdog.timer", HealthCritical);
  ("TIMER_RUNNER", "civmctl-runner-watchdog.timer", HealthWarn);
  ("TIMER_REVERSE", "civmctl-reverse-watchdog.timer", HealthWarn);
  ("TIMER_METRICS", "civmctl-metrics.timer", HealthWarn);
  ("TIMER_REAPER", "civmctl-run-reaper.timer", HealthCritical) ].
Definition health_services : list (string * string * HealthStatus) := [
  ("SERVICE_RUNNER_WATCHDOG", "civmctl-runner-watchdog.service", HealthCritical);
  ("SERVICE_REAPER", "civmctl-run-reaper.service", HealthCritical) ].

Fixpoint in_order {A} (l : list (prog healthE A)) : prog healthE (list A) :=
  match l with [] => mret [] | m :: l => x ← m; xs ← in_order l; mret (x :: xs) end.

Definition health_Collect : prog healthE (list HealthCheck) :=
  in_order ([checkDisk; checkMem; checkRunners] ++
    ((fun '(name, timer, st) => checkTimer name timer st) <$> health_timers) ++
    ((fun '(name, service, st) => checkServiceResult name service st) <$> health_services) ++ [checkLastCleanup]).
End collect.

(** ** What the commands say *)

Definition parseMemAvailableKB (s : string) : result Z :=
  match List.find (fun line => HasPrefix line "MemAvailable:") (Split "010" s) with
  | None => Err (Errorf "MemAvailable nao encontrado em /proc/meminfo")
  | Some line =>
      match Fields line with
      | _ :: f :: _ => match ParseInt f with Some v => Ok v | None => Err (Errorf "strconv.ParseInt") end
      | _ => Err (Errorf "malformed line")
      end
  end.

(** The first field of each line of [systemctl list-units]; a failure is no units. *)
Definition defaultRunnerUnits (out : result string) : result (list string) :=
  match out with
  | Err _ => Ok []
  | Ok out => Ok (omap (fun line => head (Fields line)) (Split "010" out))
  end.

Section journal.
Context (time_Parse : string -> string -> option Z).

Definition parseJournalShortISO (value : string) : option Z :=
  match time_Parse "2006-01-02T15:04:05Z07:00" value with
  | Some t => Some t
  | None => time_Parse "2006-01-02T15:04:05-0700" value
  end.

Definition defaultLastCleanup (out : result string) : result (option Z) :=
  match out with
  | Err _ => Ok None
  | Ok out =>
      let line := TrimSpace out in
      if String.eqb line "" then Ok None
      else Ok (match SplitN " " 2 line with [] => None | p :: _ => parseJournalShortISO p end)
  end.

(** ** internal/reversewatchdog *)

Inductive FireStatus := FireOK | FireStale | FireUnknown.

Definition fire_ExitCode (s : FireStatus) : Z := match s with FireOK => 0 | FireStale => 1 | FireUnknown => 2 end.

Definition last_trigger_prefix : string := "LastTriggerUSec=".

Definition parseLastTriggerUSec (s : string) : option Z :=
  match List.find (fun line => HasPrefix line last_trigger_prefix) (TrimSpace <$> Split "010" s) with
  | None => None
  | Some line =>
      let val := TrimPrefix line last_trigger_prefix in
      if String.eqb val "" || String.eqb val "n/a" || String.eqb val "0" then None
      else match time_Parse "Mon 2006-01-02 15:04:05 MST" val with
           | Some t => Some t
           | None => time_Parse "Mon 2006-01-02 15:04:05 -0700" val
           end
  end.

(** [reversewatchdog.Check] on the answers of systemctl and of the clock. *)
Definition fire_Check (unit : string) (maxAge : Z) (show : string -> result string) (now : Z) : FireStatus :=
  let maxAge := if maxAge =? 0 then DefaultReverseMaxAgeHours * Hour else maxAge in
  if bool_decide (ValidateServiceUnit unit <> None) then FireUnknown
  else match show (TrimSuffix unit ".service" +:+ ".timer") with
       | Err _ => FireUnknown
       | Ok out =>
           match parseLastTriggerUSec out with
           | None => FireUnknown
           | Some last => if maxAge <? time_Sub now last then FireStale else FireOK
           end
       end.
End journal.

Definition defaultTimerState (enabled active : string * err_ret) : result TimerState :=
  match snd enabled, snd active with
  | Some e, _ => Err (Errorf_w "is-enabled" e)
  | None, Some e => Err (Errorf_w "is-active" e)
  | None, None => Ok (mkTimerState (TrimSpace (fst enabled)) (TrimSpace (fst active)))
  end.

(** One line of [systemctl show]. *)
Definition show_line (state : ServiceState) (line : string) : ServiceState :=
  match Cut "=" line with
  | None => state
  | Some (key, value) =>
      if String.eqb key "LoadState" then mkServiceState value (sv_Result state)
      else if String.eqb key "Result" then mkServiceState (sv_LoadState state) value
      else state
  end.

Definition defaultServiceState (out : result string) : result ServiceState :=
  match out with
  | Err e => Err (Errorf_w "systemctl show LoadState,Result" e)
  | Ok out =>
      let state := foldl show_line (mkServiceState "" "") (Split "010" out) in
      if String.eqb (sv_LoadState state) "" || String.eqb (sv_Result state) "" then Err (Errorf "systemctl show returned incomplete state")
      else Ok state
  end.
