(* ===== verification/Doctor.v ===== *)
(** * internal/doctor: everything the host needs, in one report

    [doctor_Collect] runs the checks of the host, of the preconditions of admit, of the
    installed hooks, of the runner services and of the runners GitHub knows.  The texts of
    the rows are left out; the command [doctor] prints for a redundant runner is
    [ManualRemoveCommand].  Every injected function is an effect; the JSON of gh is decoded
    by a parameter. *)

From S2P Require Import Prelude GoStrings Regex Prog Civm Memwatchdog AdmitCommand RunnerUnits HookInstall Health.

Local Open Scope string_scope.
Local Open Scope list_scope.
Local Open Scope Z_scope.

Inductive DoctorSeverity := DocOK | DocWarning | DocCritical.

#[global] Instance DoctorSeverity_eq_dec : EqDecision DoctorSeverity.
Proof. solve_decision. Defined.

Definition doctor_ExitCode (s : DoctorSeverity) : Z := match s with DocOK => 0 | DocWarning => 1 | DocCritical => 2 end.

Definition maxSeverity (a b : DoctorSeverity) : DoctorSeverity := if doctor_ExitCode a <? doctor_ExitCode b then b else a.

Definition severityFromHealth (s : HealthStatus) : DoctorSeverity :=
  match s with HealthOK => DocOK | HealthWarn => DocWarning | HealthCritical => DocCritical end.

(** [HostCheck] and [HookCheck]. *)
Record DoctorCheck := mkDoctorCheck { dk_Name : string; dk_Severity : DoctorSeverity }.

Record GitHubRunner := mkGitHubRunner { gr_ID : Z; gr_Repo : string; gr_Name : string; gr_Status : string; gr_Busy : bool; gr_Labels : list string }.

Record RunnerDiagnosis := mkRunnerDiagnosis {
  rd_Name : string;
  rd_Classification : string;
  rd_Severity : DoctorSeverity;
  rd_ManualRemoveCommand : string;
}.

Record RepoDiagnosis := mkRepoDiagnosis { rg_Repo : string; rg_Severity : DoctorSeverity; rg_Runners : list RunnerDiagnosis }.

Record DoctorReport := mkDoctorReport {
  dp_HostChecks : list DoctorCheck;
  dp_HookChecks : list DoctorCheck;
  dp_SystemdRunners : result (list Status);     (* an error is the one row (unknown) *)
  dp_GitHubRepos : list RepoDiagnosis;
  dp_Exit : Z;
}.

Record DoctorOptions := mkDoctorOptions {
  do_Repos : list string;
  do_InferRepos : bool;
  do_WorkflowFile : string;
  do_WorkDir : string;
  do_HooksDir : string;
  do_CivmctlPath : string;
  do_RunnerGlob : string;
  do_UnitsSourceDir : string;
}.

Definition DefaultHealthDiskPath : string := "/".
Definition DefaultUnitsSourceDir : string := "/opt/civm/deploy/systemd".

Definition doctor_applyDefaults (o : DoctorOptions) : DoctorOptions :=
  mkDoctorOptions (do_Repos o) (do_InferRepos o) (or_default (do_WorkflowFile o) "ci.yml") (or_default (do_WorkDir o) DefaultHealthDiskPath)
    (or_default (do_HooksDir o) defaultHooksDir) (or_default (do_CivmctlPath o) defaultCivmctlBin)
    (or_default (do_RunnerGlob o) defaultRunnerGlob) (or_default (do_UnitsSourceDir o) DefaultUnitsSourceDir).

Inductive doctorE : Type -> Type :=
  | DocHealth {B} (e : healthE B) : doctorE B
  | DocSystemRunners : doctorE (result (list Status))
  | DocRun (name : string) (args : list string) : doctorE (result string)
  | DocGlob (pattern : string) : doctorE (result (list string))
  | DocRead (path : string) : doctorE (result string)
  | DocStat (path : string) : doctorE err_ret.

Definition on_health {A} (m : prog healthE A) : prog doctorE A := link (fun B e => call (DocHealth e)) m.

Fixpoint validateRepos (repos : list string) : err_ret :=
  match repos with
  | [] => None
  | repo :: repos => match ValidateRepo repo with Some e => Some e | None => validateRepos repos end
  end.

Definition doctor_validateOptions (o : DoctorOptions) : err_ret :=
  match validateRepos (do_Repos o) with Some e => Some e | None => ValidateWorkflowFile (do_WorkflowFile o) end.

Definition worst_of (checks : list DoctorCheck) : DoctorSeverity := foldl (fun w c => maxSeverity w (dk_Severity c)) DocOK checks.

(** ** The runners GitHub knows *)

Definition ClassifyRunner (r : GitHubRunner) : RunnerDiagnosis :=
  let hasCivm := existsb (String.eqb "civm") (gr_Labels r) in
  let online := String.eqb (gr_Status r) "online" in
  let offline := String.eqb (gr_Status r) "offline" in
  let '(classification, severity, command) :=
    if online && HasPrefix (gr_Name r) "civm-" && hasCivm then ("canonical", DocOK, "")
    else if offline && HasPrefix (gr_Name r) "legacy-ci-" then
      ("legacy_stale", DocWarning,
       if negb (gr_ID r =? 0) && negb (String.eqb (gr_Repo r) "")
       then "gh api -X DELETE /repos/" +:+ gr_Repo r +:+ "/actions/runners/" +:+ Itoa (gr_ID r) else "")
    else if online && negb hasCivm then ("ambiguous", DocWarning, "")
    else if online && hasCivm then ("compatible", DocOK, "")
    else if offline then ("offline", DocWarning, "")
    else ("unknown", DocWarning, "") in
  mkRunnerDiagnosis (gr_Name r) classification (if gr_Busy r then maxSeverity severity DocWarning else severity) command.

Definition ClassifyRepo (repo : string) (runners : result (list GitHubRunner)) : RepoDiagnosis :=
  match runners with
  | Err _ => mkRepoDiagnosis repo DocWarning [mkRunnerDiagnosis "(unknown)" "unknown" DocWarning ""]
  | Ok [] => mkRepoDiagnosis repo DocWarning [mkRunnerDiagnosis "(none)" "missing" DocWarning ""]
  | Ok runners =>
      let diags := (fun r => ClassifyRunner (mkGitHubRunner (gr_ID r) repo (gr_Name r) (gr_Status r) (gr_Busy r) (gr_Labels r))) <$> runners in
      mkRepoDiagnosis repo (foldl (fun w d => maxSeverity w (rd_Severity d)) DocOK diags) diags
  end.

Definition inferReposFromSystemd `{SortSlice} (systemd : list Status) : list string :=
  let keep := List.filter (fun repo => negb (String.eqb repo "") && bool_decide (ValidateRepo repo = None)) (st_Repo <$> systemd) in
  sort_slice String.ltb (foldl (fun repos repo => if decide (repo ∈ repos) then repos else repos ++ [repo]) [] keep).

(** ** The services *)

Definition checkRunnerServices (systemd : result (list Status)) : DoctorCheck :=
  mkDoctorCheck "RUNNER_SERVICES"
    (match systemd with
     | Err _ => DocWarning
     | Ok [] => DocCritical
     | Ok systemd => if forallb running systemd then DocOK else DocCritical
     end).

Definition checkRunnerSerialization `{SortSlice} (systemd : result (list Status)) : DoctorCheck :=
  mkDoctorCheck "RUNNER_SERIALIZATION"
    (match systemd with
     | Err _ => DocWarning
     | Ok systemd => match DetectCollisions systemd with [] => DocOK | _ => DocCritical end
     end).

(** ** The hooks *)

Definition checkHookScript (o : DoctorOptions) (checkName hookName event : string) : prog doctorE DoctorCheck :=
  data ← call (DocRead (PathJoin (do_HooksDir o) hookName));
  mret (mkDoctorCheck checkName (match data with
                                 | Err _ => DocCritical
                                 | Ok data => if String.eqb data (ScriptContent (do_CivmctlPath o) event) then DocOK else DocCritical
                                 end)).

(** The last line of each of the two keys. *)
Definition hook_line (acc : string * string) (line : string) : string * string :=
  let line := TrimSpace line in
  let acc := if HasPrefix line (startedKey +:+ "=") then (line, snd acc) else acc in
  if HasPrefix line (completedKey +:+ "=") then (fst acc, line) else acc.

Definition parseHookEnvLines (content : string) : string * string := foldl hook_line ("", "") (Split "010" content).

Definition wantStarted (o : DoctorOptions) : string := startedKey +:+ "=" +:+ PathJoin (do_HooksDir o) startedHookName.
Definition wantCompleted (o : DoctorOptions) : string := completedKey +:+ "=" +:+ PathJoin (do_HooksDir o) completedHookName.

(** How many candidates were checked, and how many are bad. *)
Fixpoint check_envs (o : DoctorOptions) (checked bad : nat) (runners : list string) : prog doctorE (nat * nat) :=
  match runners with
  | [] => mret (checked, bad)
  | runnerDir :: runners =>
      if negb (IsRunnerDirCandidate runnerDir) then check_envs o checked bad runners
      else
        data ← call (DocRead (PathJoin runnerDir ".env"));
        let ok := match data with
                  | Err _ => false
                  | Ok data => bool_decide (parseHookEnvLines data = (wantStarted o, wantCompleted o))
                  end in
        check_envs o (S checked) (if ok then bad else S bad) runners
  end.

Section doctor.
Context `{SortSlice}.
Context (decode : string -> result (list GitHubRunner)).
(** [admitRunnerUser()]. *)
Context (user : string).

Definition checkRunnerEnvHooks (o : DoctorOptions) : prog doctorE DoctorCheck :=
  runners ← call (DocGlob (do_RunnerGlob o));
  match runners with
  | Err _ => mret (mkDoctorCheck "HOOK_RUNNER_ENVS" DocWarning)
  | Ok runners =>
      r ← check_envs o 0 0 (sort_slice String.ltb runners);
      mret (mkDoctorCheck "HOOK_RUNNER_ENVS"
        (match r with (O, _) => DocWarning | (_, O) => DocOK | (_, S _) => DocCritical end))
  end.

Definition checkScopedSudoers : prog doctorE DoctorCheck :=
  r ← call (DocRun "sudo" ["-n"; DefaultSafeDeleteWrapperPath; "--check"]);
  mret (mkDoctorCheck "SCOPED_SUDOERS" (match r with Err _ => DocCritical | Ok _ => DocOK end)).

Definition checkGenerationBoundaryCapability : prog doctorE DoctorCheck :=
  r ← call (DocRun "sudo" ["-n"; DefaultGenerationBoundaryWrapperPath; "--check"]);
  mret (mkDoctorCheck "GENERATION_BOUNDARY_CAPABILITY"
    (match r with
     | Err _ => DocCritical
     | Ok out => if String.eqb (TrimSpace out) GenerationCleanBoundaryMarker then DocOK else DocCritical
     end)).

(** ** The scripts of the units (units.go) *)

(** [/usr/local/bin/[A-Za-z0-9._-]+\.sh] *)
Definition unitScriptRe : regex := RCat (lit "/usr/local/bin/") (RCat (plus (RCls (alnum ++ chars "._-"))) (lit ".sh")).

Definition extractUnitScripts (content : string) : list string :=
  let lines := List.filter (fun l => HasPrefix l "ExecStart=" || HasPrefix l "ConditionPathExists=") (TrimSpace <$> Split "010" content) in
  foldl (fun acc m => if decide (m ∈ acc) then acc else acc ++ [m]) [] (l ← lines; FindAllString unitScriptRe l).

(** The scripts of one unit that have not been seen with it; the count of the missing. *)
Fixpoint check_scripts (missing : nat) (scripts : list string) : prog doctorE nat :=
  match scripts with
  | [] => mret missing
  | script :: scripts => e ← call (DocStat script); check_scripts (match e with Some _ => S missing | None => missing end) scripts
  end.

Fixpoint check_units (seen : list (string * string)) (missing : nat) (units : list string) : prog doctorE nat :=
  match units with
  | [] => mret missing
  | unitPath :: units =>
      data ← call (DocRead unitPath);
      match data with
      | Err _ => check_units seen (S missing) units
      | Ok data =>
          let refs := (fun s => (s, Base unitPath)) <$> extractUnitScripts data in
          let new := List.filter (fun r => negb (bool_decide (r ∈ seen))) refs in
          missing ← check_scripts missing (fst <$> new);
          check_units (seen ++ new) missing units
      end
  end.

Definition checkUnitScriptsInstalled (o : DoctorOptions) : prog doctorE DoctorCheck :=
  let name := "UNIT_SCRIPTS_INSTALLED" in
  units ← call (DocGlob (PathJoin (do_UnitsSourceDir o) "civmctl-*.service"));
  match units with
  | Err _ | Ok [] => mret (mkDoctorCheck name DocWarning)
  | Ok units =>
      missing ← check_units [] 0 (sort_slice String.ltb units);
      mret (mkDoctorCheck name (match missing with O => DocOK | S _ => DocCritical end))
  end.

(** ** The preconditions of admit (admit.go) *)

Definition cgroupControllersPath : string := "/sys/fs/cgroup/cgroup.controllers".
Definition meminfoPath : string := "/proc/meminfo".
Definition admitProbeMemMB : Z := 64.

Definition hasController (blob name : string) : bool := existsb (String.eqb name) (Fields blob).

Definition checkAdmitCgroup : prog doctorE DoctorCheck :=
  data ← call (DocRead cgroupControllersPath);
  mret (mkDoctorCheck "ADMIT_CGROUP" (match data with
                                      | Err _ => DocWarning
                                      | Ok data => if hasController data "memory" then DocOK else DocWarning
                                      end)).

Definition checkAdmitRunAsUser : prog doctorE DoctorCheck :=
  r ← call (DocRun "sudo" ["-n"; "systemd-run"; "--pipe"; "--wait"; "-p"; "User=" +:+ user;
              "-p"; "MemoryMax=" +:+ Itoa admitProbeMemMB +:+ "M"; "-p"; "MemorySwapMax=0"; "--"; "id"; "-un"]);
  mret (mkDoctorCheck "ADMIT_RUN_AS_USER" (match r with
                                           | Err _ => DocWarning
                                           | Ok out => if String.eqb (TrimSpace out) user then DocOK else DocCritical
                                           end)).

Definition admitEffectiveMemMB (memTotalMB : Z) : Z :=
  if 0 <? DefaultAdmitHeavyMaxMB then DefaultAdmitHeavyMaxMB
  else Z.quot (int64 (memTotalMB - DefaultAdmitHostReserveMB)) (if DefaultAdmitMaxHeavy <? 1 then 1 else DefaultAdmitMaxHeavy).

(** [checkAdmitRAMInvariant] on the content of /proc/meminfo. *)
Definition ram_severity (raw : result string) : DoctorSeverity :=
  match Sample raw with
  | Err _ => DocWarning
  | Ok mem =>
      let budget := int64 (MemTotalMB mem - DefaultAdmitHostReserveMB) in
      let used := int64 (DefaultAdmitMaxHeavy * admitEffectiveMemMB (MemTotalMB mem)) in
      if budget <? used then DocCritical else DocOK
  end.

Definition checkAdmitRAMInvariant : prog doctorE DoctorCheck :=
  raw ← call (DocRead meminfoPath); mret (mkDoctorCheck "ADMIT_RAM_INVARIANT" (ram_severity raw)).

(** ** The report *)

Fixpoint doctor_all (l : list (prog doctorE DoctorCheck)) : prog doctorE (list DoctorCheck) :=
  match l with [] => mret [] | m :: l => x ← m; xs ← doctor_all l; mret (x :: xs) end.

Definition collectAdmitChecks : prog doctorE (list DoctorCheck) := doctor_all [checkAdmitCgroup; checkAdmitRunAsUser; checkAdmitRAMInvariant].

Definition collectHookChecks (o : DoctorOptions) (systemd : result (list Status)) : prog doctorE (list DoctorCheck) :=
  doctor_all [checkHookScript o "HOOK_JOB_STARTED" startedHookName "job-started";
              checkHookScript o "HOOK_JOB_COMPLETED" completedHookName "job-completed";
              checkRunnerEnvHooks o;
              mret (checkRunnerServices systemd);
              mret (checkRunnerSerialization systemd);
              checkScopedSudoers;
              checkGenerationBoundaryCapability;
              checkUnitScriptsInstalled o].

Definition listGitHubRunners (repo : string) : prog doctorE (result (list GitHubRunner)) :=
  out ← call (DocRun "gh" ["api"; "/repos/" +:+ repo +:+ "/actions/runners"]);
  mret (match out with
        | Err e => Err (Errorf_w "gh api actions/runners" e)
        | Ok out => match decode out with Err e => Err (Errorf_w "parse gh runners" e) | Ok l => Ok l end
        end).

Fixpoint diagnose_repos (worst : DoctorSeverity) (diags : list RepoDiagnosis) (repos : list string) : prog doctorE (DoctorSeverity * list RepoDiagnosis) :=
  match repos with
  | [] => mret (worst, diags)
  | repo :: repos =>
      runners ← listGitHubRunners repo;
      let diag := ClassifyRepo repo runners in
      diagnose_repos (maxSeverity worst (rg_Severity diag)) (diags ++ [diag]) repos
  end.

Definition doctor_Collect (o : DoctorOptions) : prog doctorE (result DoctorReport) :=
  let o := doctor_applyDefaults o in
  match doctor_validateOptions o with
  | Some e => mret (Err e)
  | None =>
      host ← on_health (health_Collect (NewDefaultCollector (do_WorkDir o)));
      let hostChecks := (fun c => mkDoctorCheck (hc_Name c) (severityFromHealth (hc_Status c))) <$> host in
      let worst := worst_of hostChecks in
      admitChecks ← collectAdmitChecks;
      let worst := maxSeverity worst (worst_of admitChecks) in
      systemd ← call DocSystemRunners;
      let worst := match systemd with Err _ => maxSeverity worst DocWarning | Ok _ => worst end in
      hookChecks ← collectHookChecks o systemd;
      let worst := maxSeverity worst (worst_of hookChecks) in
      let repos := match do_Repos o, systemd with
                   | [], Ok systemd => if do_InferRepos o then inferReposFromSystemd systemd else []
                   | repos, _ => repos
                   end in
      match validateRepos repos with
      | Some e => mret (Err e)
      | None =>
          r ← diagnose_repos worst [] repos;
          mret (Ok (mkDoctorReport (hostChecks ++ admitChecks) hookChecks systemd (snd r) (doctor_ExitCode (fst r))))
      end
  end.
End doctor.
