(* ===== verification/DoctorSafety.v ===== *)
(** * internal/doctor: properties

    The exit code is the worst of every check that was run, none is skipped; the hook
    checks accept exactly what the installation writes; and the preconditions of admit the
    doctor reports are compared with what admit does. *)

From S2P Require Import Prelude GoStrings Regex Prog Civm Memwatchdog Admit AdmitSafety AdmitCommand RunnerUnits HookInstall HookInstallSafety Health Doctor.

Local Open Scope string_scope.
Local Open Scope list_scope.
Local Open Scope Z_scope.

(** ** The worst severity *)

Definition worst_code (l : list DoctorSeverity) : Z := foldr (fun s acc => Z.max (doctor_ExitCode s) acc) 0 l.

Lemma doctor_ExitCode_range s : 0 <= doctor_ExitCode s <= 2.
Proof. by destruct s. Qed.

Lemma maxSeverity_code a b : doctor_ExitCode (maxSeverity a b) = Z.max (doctor_ExitCode a) (doctor_ExitCode b).
Proof. by destruct a, b. Qed.

Lemma worst_code_app l1 l2 : worst_code (l1 ++ l2) = Z.max (worst_code l1) (worst_code l2).
Proof.
  unfold worst_code. induction l1 as [|s l1 IH]; cbn; [|rewrite IH; lia].
  induction l2 as [|s l2 IH]; cbn; [done|]. pose proof (doctor_ExitCode_range s). lia.
Qed.

Lemma worst_code_nonneg l : 0 <= worst_code l.
Proof. unfold worst_code. induction l as [|c l IH]; cbn; lia. Qed.

Lemma foldl_worst {A} (f : A -> DoctorSeverity) l w :
  doctor_ExitCode (foldl (fun w x => maxSeverity w (f x)) w l) = Z.max (doctor_ExitCode w) (worst_code (f <$> l)).
Proof.
  revert w. induction l as [|x l IH]; intros w; cbn; [pose proof (doctor_ExitCode_range w); lia|]. rewrite IH, maxSeverity_code. cbn. unfold worst_code. lia.
Qed.

Lemma worst_of_code l : doctor_ExitCode (worst_of l) = worst_code (dk_Severity <$> l).
Proof.
  unfold worst_of. rewrite foldl_worst. cbn. pose proof (worst_code_nonneg (dk_Severity <$> l)). lia.
Qed.

(** ** One report *)

(** Nothing is asked but to read, apart from the four commands. *)
Definition doctor_command (user : string) (name : string) (args : list string) : Prop :=
  (name = "sudo" /\ args = ["-n"; DefaultSafeDeleteWrapperPath; "--check"]) \/
  (name = "sudo" /\ args = ["-n"; DefaultGenerationBoundaryWrapperPath; "--check"]) \/
  (name = "sudo" /\ args = ["-n"; "systemd-run"; "--pipe"; "--wait"; "-p"; "User=" +:+ user; "-p"; "MemoryMax=64M"; "-p"; "MemorySwapMax=0"; "--"; "id"; "-un"]) \/
  (exists repo, ValidateRepo repo = None /\ name = "gh" /\ args = ["api"; "/repos/" +:+ repo +:+ "/actions/runners"]).

Definition doctor_spec (user : string) : spec doctorE unit := {|
  allowed B e s := match e with DocRun name args => doctor_command user name args | _ => True end;
  answers B e s b s' := True;
|}.

(** A program that only asks allowed questions; what it returns satisfies [Q]. *)
Abbreviation asks user m Q := (wpp (doctor_spec user) m (fun r _ => Q r) tt).

Lemma asks_any {A} user (m : prog doctorE A) : only (fun B e => match e with DocRun _ _ => False | _ => True end) m -> asks user m (fun _ => True).
Proof.
  intros Hm. eapply wpp_mono; [apply (only_wpp _ _ (fun _ => True) m tt Hm); [|done]|done]. intros B e [] He _. split; [by destruct e|done].
Qed.

Definition health_names : list string :=
  ["DISK"; "MEM"; "RUNNERS"] ++ (fst ∘ fst <$> health_timers) ++ (fst ∘ fst <$> health_services) ++ ["LAST"].
Definition admit_names : list string := ["ADMIT_CGROUP"; "ADMIT_RUN_AS_USER"; "ADMIT_RAM_INVARIANT"].
Definition hook_names : list string :=
  ["HOOK_JOB_STARTED"; "HOOK_JOB_COMPLETED"; "HOOK_RUNNER_ENVS"; "RUNNER_SERVICES"; "RUNNER_SERIALIZATION"; "SCOPED_SUDOERS";
   "GENERATION_BOUNDARY_CAPABILITY"; "UNIT_SCRIPTS_INSTALLED"].

(** A list of checks, each with its name. *)
Lemma asks_all user l names : Forall2 (fun m name => asks user m (fun c => dk_Name c = name)) l names ->
  asks user (doctor_all l) (fun cs => dk_Name <$> cs = names).
Proof.
  induction 1 as [|m name l names Hm _ IH]; cbn [doctor_all]; [done|]. apply wpp_bind. eapply wpp_mono; [exact Hm|].
  intros c [] Hc. apply wpp_bind. eapply wpp_mono; [exact IH|]. intros cs [] Hcs. apply wpp_ret. cbn. by rewrite Hc, Hcs.
Qed.

(** One question about the state of a check. *)
Ltac asks_step := apply wpp_bind, wpp_call; [cbn; try done|intros ? [] _].

(** The checks of health, with their names. *)
Definition any_health : spec healthE unit := {| allowed B e s := True; answers B e s b s' := True |}.

Lemma asks_health {A} user (m : prog healthE A) (Q : A -> Prop) : wpp any_health m (fun r _ => Q r) tt -> asks user (on_health m) Q.
Proof.
  intros Hm. eapply wpp_mono; [apply (wpp_link any_health (doctor_spec user) _ (fun _ _ => True) m (fun r _ => Q r) tt tt); [|exact Hm|done]|].
  - intros B e [] [] _ _. apply wpp_call; [done|]. intros b [] _. by exists tt.
  - by intros a [] ([] & Ha & _).
Qed.

Lemma health_in_order (l : list (prog healthE HealthCheck)) names :
  Forall2 (fun m name => wpp any_health m (fun c _ => hc_Name c = name) tt) l names ->
  wpp any_health (in_order l) (fun cs _ => hc_Name <$> cs = names) tt.
Proof.
  induction 1 as [|m name l names Hm _ IH]; cbn [in_order]; [done|]. apply wpp_bind. eapply wpp_mono; [exact Hm|].
  intros c [] Hc. apply wpp_bind. eapply wpp_mono; [exact IH|]. intros cs [] Hcs. apply wpp_ret. cbn. by rewrite Hc, Hcs.
Qed.

Lemma asks_host user workDir : asks user (on_health (health_Collect (NewDefaultCollector workDir))) (fun cs => hc_Name <$> cs = health_names).
Proof.
  apply asks_health, health_in_order. unfold health_names. cbn [app fmap list_fmap health_timers health_services compose fst].
  repeat apply Forall2_cons_2; [..|apply Forall2_nil_2]; try (apply wpp_bind, wpp_call; [done|]; by intros ? [] _).
  unfold checkLastCleanup. apply wpp_bind, wpp_call; [done|]. intros [[when|]|e] [] _; [|done..]. apply wpp_bind, wpp_call; [done|]. by intros now [] _.
Qed.

Lemma asks_admit user : asks user (collectAdmitChecks user) (fun cs => dk_Name <$> cs = admit_names).
Proof.
  apply asks_all. repeat apply Forall2_cons_2; [..|apply Forall2_nil_2]; (apply wpp_bind, wpp_call; [|by intros ? [] _]); try done. right; right; by left.
Qed.

Lemma only_check_envs o checked bad l :
  only (fun B (e : doctorE B) => match e with DocRun _ _ => False | _ => True end) (check_envs o checked bad l).
Proof.
  revert checked bad. induction l as [|r l IH]; intros checked bad; cbn [check_envs]; [exact I|].
  destruct (negb _); [apply IH|]. apply only_bind; [by apply only_call|]. intros d. apply IH.
Qed.

Lemma only_check_scripts missing l :
  only (fun B (e : doctorE B) => match e with DocRun _ _ => False | _ => True end) (check_scripts missing l).
Proof. revert missing. induction l as [|s l IH]; intros missing; cbn [check_scripts]; [exact I|]. apply only_bind; [by apply only_call|]. intros e. apply IH. Qed.

Lemma only_check_units seen missing l :
  only (fun B (e : doctorE B) => match e with DocRun _ _ => False | _ => True end) (check_units seen missing l).
Proof.
  revert seen missing. induction l as [|u l IH]; intros seen missing; cbn [check_units]; [exact I|]. apply only_bind; [by apply only_call|].
  intros [d|e]; [|apply IH]. apply only_bind; [apply only_check_scripts|]. intros n. apply IH.
Qed.

Lemma asks_hooks `{SortSlice} user o systemd : asks user (collectHookChecks o systemd) (fun cs => dk_Name <$> cs = hook_names).
Proof.
  apply asks_all. unfold hook_names. repeat apply Forall2_cons_2; [..|apply Forall2_nil_2]; try (by apply wpp_ret).
  - apply wpp_bind, wpp_call; [done|]. by intros ? [] _.
  - apply wpp_bind, wpp_call; [done|]. by intros ? [] _.
  - unfold checkRunnerEnvHooks. apply wpp_bind, wpp_call; [done|]. intros [l|e] [] _; [|by apply wpp_ret].
    apply wpp_bind. eapply wpp_mono; [apply asks_any, only_check_envs|]. intros r [] _. by apply wpp_ret.
  - apply wpp_bind, wpp_call; [by left|]. by intros ? [] _.
  - apply wpp_bind, wpp_call; [right; by left|]. by intros ? [] _.
  - unfold checkUnitScriptsInstalled. apply wpp_bind, wpp_call; [done|]. intros [[|u l]|e] [] _; [by apply wpp_ret| |by apply wpp_ret].
    apply wpp_bind. eapply wpp_mono; [apply asks_any, only_check_units|]. intros r [] _. by apply wpp_ret.
Qed.

(** Every repository that is diagnosed passed the validation. *)
Lemma validateRepos_ok repos : validateRepos repos = None -> Forall (fun r => ValidateRepo r = None) repos.
Proof. induction repos as [|r repos IH]; cbn; [done|]. destruct (ValidateRepo r) eqn:E; [done|]. intros. constructor; auto. Qed.

Lemma asks_repos user decode repos worst diags : Forall (fun r => ValidateRepo r = None) repos ->
  asks user (diagnose_repos decode worst diags repos)
    (fun r => exists new, snd r = diags ++ new /\ rg_Repo <$> new = repos /\
                doctor_ExitCode (fst r) = Z.max (doctor_ExitCode worst) (worst_code (rg_Severity <$> new))).
Proof.
  intros Hv. revert worst diags. induction Hv as [|repo repos Hr _ IH]; intros worst diags; cbn [diagnose_repos].
  - apply wpp_ret. exists []. rewrite app_nil_r. split_and!; try done. cbn. pose proof (doctor_ExitCode_range worst). lia.
  - apply wpp_bind. unfold listGitHubRunners. apply wpp_bind, wpp_call; [right; right; right; by exists repo|]. intros out [] _. apply wpp_ret.
    set (runners := match out with Ok _ => _ | Err _ => _ end). eapply wpp_mono; [apply IH|]. intros r [] (new & Hs & Hn & Hx).
    exists (ClassifyRepo repo runners :: new). split_and!; [by rewrite Hs; cbn; rewrite <- app_assoc| |].
    + cbn. rewrite Hn. by destruct runners as [[|]|].
    + rewrite Hx, maxSeverity_code. unfold worst_code. cbn. lia.
Qed.

(** Everything the report is judged by. *)
Definition severities (r : DoctorReport) : list DoctorSeverity :=
  (dk_Severity <$> dp_HostChecks r) ++ (match dp_SystemdRunners r with Err _ => [DocWarning] | Ok _ => [] end) ++
  (dk_Severity <$> dp_HookChecks r) ++ (rg_Severity <$> dp_GitHubRepos r).

(** The report of doctor, whatever the host answers: it only reads files, asks systemd
    and gh, and runs the two capability probes and the one of systemd-run, gh only about
    repositories that passed the validation; no check is skipped, all twelve of the host,
    three of admit and eight of the hooks are in the report under their names; and the exit
    code is the worst of them, of the repositories and of an unreadable list of services,
    so that 0 means that every one of them is fine. *)
Theorem doctor_exit_is_the_worst `{SortSlice} decode user o :
  asks user (doctor_Collect decode user o)
    (fun r => match r with
              | Err _ => True
              | Ok r =>
                  dk_Name <$> dp_HostChecks r = health_names ++ admit_names /\
                  dk_Name <$> dp_HookChecks r = hook_names /\
                  Forall (fun repo => ValidateRepo repo = None) (rg_Repo <$> dp_GitHubRepos r) /\
                  dp_Exit r = worst_code (severities r) /\
                  (dp_Exit r = 0 <-> Forall (eq DocOK) (severities r))
              end).
Proof.
  unfold doctor_Collect. set (o' := doctor_applyDefaults o). destruct (doctor_validateOptions o'); [by apply wpp_ret|].
  apply wpp_bind. eapply wpp_mono; [apply asks_host|]. intros host [] Hhost. cbv beta zeta.
  apply wpp_bind. eapply wpp_mono; [apply asks_admit|]. intros adm [] Hadm. apply wpp_bind, wpp_call; [done|]. intros systemd [] _.
  apply wpp_bind. eapply wpp_mono; [apply asks_hooks|]. intros hooks [] Hhooks. cbv beta.
  set (repos := match do_Repos o' with [] => _ | _ => _ end). destruct (validateRepos repos) as [e|] eqn:Ev; [by apply wpp_ret|].
  apply wpp_bind. eapply wpp_mono; [by apply asks_repos, validateRepos_ok|]. intros r [] (new & Hs & Hn & Hx). apply wpp_ret.
  cbn [dp_HostChecks dp_HookChecks dp_GitHubRepos dp_Exit]. cbn [app] in Hs. rewrite Hs.
  set (rep := mkDoctorReport _ _ _ _ _). assert (doctor_ExitCode (fst r) = worst_code (severities rep)) as E.
  { unfold severities, rep. cbn [dp_HostChecks dp_HookChecks dp_GitHubRepos dp_SystemdRunners]. rewrite Hx, fmap_app, !worst_code_app, maxSeverity_code, worst_of_code.
    destruct systemd; rewrite ?maxSeverity_code, ?worst_of_code; cbn [worst_code foldr doctor_ExitCode]; pose proof (worst_code_nonneg (dk_Severity <$> hooks)); lia. }
  split_and!.
  - rewrite fmap_app, Hadm, <- list_fmap_compose. rewrite <- Hhost. f_equal.
  - done.
  - rewrite Hn. by apply validateRepos_ok.
  - done.
  - rewrite E. clear. generalize (severities rep). intros l. induction l as [|s l IH]; [by split|]. unfold worst_code in *. cbn.
    rewrite Forall_cons, <- IH. pose proof (worst_code_nonneg l) as Hl. unfold worst_code in Hl.
    destruct s; cbn; split; [intros; split; [done|lia]|intros [_ ?]; lia|intros; lia|by intros [? _]|intros; lia|by intros [? _]].
Qed.

(** ** Lines that trimming leaves alone *)

Lemma space_len_short a g l : 33 <= g <= 126 -> (space_len (a :: g :: l) <= 1)%nat.
Proof. intros Hg. unfold space_len. repeat (case_match; try lia). Qed.
Lemma space_len_short3 a b g l : 33 <= g <= 126 -> (space_len (a :: b :: g :: l) <= 2)%nat.
Proof. intros Hg. unfold space_len. repeat (case_match; try lia). Qed.
Lemma space_len_le l : (space_len l <= 3)%nat.
Proof. unfold space_len. repeat (case_match; try lia). Qed.

(** White space that starts before a visible character ends before it. *)
Lemma trim_left_end s c : graphic c = true -> forall k, (k <= String.length s)%nat -> trim_left_aux k (s +:+ String c "") <> "".
Proof.
  intros Hg. assert (33 <= code c <= 126) as Hc by (unfold graphic in Hg; bsplit; lia).
  induction s as [|d s IH]; intros k Hk; cbn [String.append trim_left_aux].
  - destruct k; [|cbn in Hk; lia]. by rewrite starts_space_graphic.
  - destruct k as [|k]; [|apply IH; cbn in Hk; lia]. destruct (starts_space _) as [|n] eqn:E; [done|]. apply IH.
    unfold starts_space in E. destruct s as [|a [|b s]]; cbn [take_str codes String.append String.length] in E |- *.
    + pose proof (space_len_short (code d) (code c) [] Hc). lia.
    + pose proof (space_len_short3 (code d) (code a) (code c) [] Hc). lia.
    + pose proof (space_len_le [code d; code a; code b]). lia.
Qed.

Lemma TrimRightSpace_end s c : graphic c = true -> TrimRightSpace (s +:+ String c "") = s +:+ String c "".
Proof.
  intros Hg. induction s as [|d s IH].
  - pose proof (trim_left_end "" c Hg 0 ltac:(cbn; lia)) as Hb. cbn [String.append] in *. cbn [TrimRightSpace]. unfold blank, TrimLeftSpace.
    by apply String.eqb_neq in Hb as ->.
  - pose proof (trim_left_end (String d s) c Hg 0 ltac:(cbn; lia)) as Hb. cbn [String.append] in *. cbn [TrimRightSpace]. unfold blank, TrimLeftSpace.
    apply String.eqb_neq in Hb as ->. by rewrite IH.
Qed.

Lemma TrimLeftSpace_graphic d s : graphic d = true -> TrimLeftSpace (String d s) = String d s.
Proof. intros Hd. unfold TrimLeftSpace. cbn [trim_left_aux]. by rewrite starts_space_graphic. Qed.

Lemma TrimSpace_visible d s c : graphic d = true -> graphic c = true -> TrimSpace (String d (s +:+ String c "")) = String d (s +:+ String c "").
Proof.
  intros Hd Hc. unfold TrimSpace. rewrite TrimLeftSpace_graphic by done. apply (TrimRightSpace_end (String d s) c Hc).
Qed.

Lemma TrimSpace_prefix d s e p : graphic d = true -> d <> e -> HasPrefix (TrimSpace (String d s)) (String e p) = false.
Proof.
  intros Hd Hne. unfold TrimSpace. rewrite TrimLeftSpace_graphic by done. cbn [TrimRightSpace]. destruct (blank _); [done|].
  unfold HasPrefix. cbn. by destruct (ascii_dec e d).
Qed.

(** ** The environment the installation writes *)

Lemma hook_line_started v acc : TrimSpace (startedKey +:+ "=" +:+ v) = startedKey +:+ "=" +:+ v ->
  hook_line acc (startedKey +:+ "=" +:+ v) = (startedKey +:+ "=" +:+ v, snd acc).
Proof.
  intros E. unfold hook_line. rewrite E. unfold HasPrefix. rewrite (app_assoc_str startedKey "=" v), prefix_app.
  destruct acc. reflexivity.
Qed.
Lemma hook_line_completed v acc : TrimSpace (completedKey +:+ "=" +:+ v) = completedKey +:+ "=" +:+ v ->
  hook_line acc (completedKey +:+ "=" +:+ v) = (fst acc, completedKey +:+ "=" +:+ v).
Proof.
  intros E. unfold hook_line. rewrite E. unfold HasPrefix. rewrite (app_assoc_str completedKey "=" v), prefix_app. destruct acc. reflexivity.
Qed.
Lemma hook_line_other d s acc : graphic d = true -> d <> "A"%char -> hook_line acc (String d s) = acc.
Proof.
  intros Hd Hne. unfold hook_line. change (startedKey +:+ "=") with (String "A" "CTIONS_RUNNER_HOOK_JOB_STARTED=").
  change (completedKey +:+ "=") with (String "A" "CTIONS_RUNNER_HOOK_JOB_COMPLETED="). by rewrite !TrimSpace_prefix.
Qed.

Lemma visible_path key d name : graphic d = true -> (exists n, name = n +:+ "h") -> forall p, (exists q, p = q +:+ "/" +:+ name) ->
  TrimSpace (String d key +:+ "=" +:+ p) = String d key +:+ "=" +:+ p.
Proof.
  intros Hd (n & ->) p (q & ->). pose proof (TrimSpace_visible d (key +:+ "=" +:+ q +:+ "/" +:+ n) "h"%char Hd eq_refl) as E.
  rewrite <- !app_assoc_str in E. exact E.
Qed.

Lemma parse_installed `{SortSlice} hooksDir slot base data :
  IsAbs hooksDir = true -> no_char "010" hooksDir -> no_char "010" slot -> 0 <= base ->
  parseHookEnvLines (env_text hooksDir (runner_extra slot base) data) =
    (startedKey +:+ "=" +:+ PathJoin hooksDir startedHookName, completedKey +:+ "=" +:+ PathJoin hooksDir completedHookName).
Proof.
  intros Habs Hdir Hslot Hbase. unfold parseHookEnvLines.
  rewrite env_text_lines; [|apply (bool_decide_unpack _); vm_compute; exact I|by apply runner_extra_plain|done].
  rewrite foldl_app. set (acc := foldl hook_line ("", "") _). clearbody acc. unfold managed_lines. rewrite <- app_assoc, foldl_app. cbn [foldl].
  assert (forall name, plain_comp name -> exists q, PathJoin hooksDir name = q +:+ "/" +:+ name) as Hpath.
  { intros name Hn. destruct (PathJoin_abs hooksDir name Habs Hn) as (q & Hq & _). eauto. }
  rewrite hook_line_started by (apply visible_path with startedHookName; [done|by exists "job-started.s"|by apply Hpath]).
  rewrite hook_line_completed by (apply visible_path with completedHookName; [done|by exists "job-completed.s"|by apply Hpath]).
  cbn [fst snd]. set (acc' := (_, _)). rewrite foldl_app. cbn [foldl]. change (hook_line ?a "") with a.
  assert (forall l, (forall k, k ∈ l -> k ∈ fst <$> runner_extra slot base) -> foldl hook_line acc' ((fun k => k +:+ "=" +:+ extra_value (runner_extra slot base) k) <$> l) = acc') as Hl; [|by apply Hl; intros k; rewrite sort_slice_elem_of].
  clearbody acc'. induction l as [|k l IH]; intros Hk; [done|]. cbn [fmap list_fmap foldl].
  assert (exists d s, k = String d s /\ graphic d = true /\ d <> "A"%char) as (d & s & -> & Hd & Hne).
  { specialize (Hk k (list_elem_of_here _ _)). cbn in Hk. rewrite !elem_of_cons, elem_of_nil in Hk. destruct Hk as [->|[->|[->|[]]]]; by eexists _, _. }
  cbn [String.append]. rewrite hook_line_other by done. apply IH. intros k' Hk'. apply Hk. by apply list_elem_of_further.
Qed.

(** The files the doctor reads and the runner directories it finds. *)
Definition disk_spec (files : gmap string string) (runners : list string) : spec doctorE unit := {|
  allowed B e s := True;
  answers B e s :=
    match e in doctorE B return B -> unit -> Prop with
    | DocRead path => fun b _ => match files !! path with Some d => b = Ok d | None => exists e, b = Err e end
    | DocGlob _ => fun b _ => b = Ok runners
    | _ => fun _ _ => True
    end;
|}.

(** The file of a runner names both hooks. *)
Definition env_good (o : DoctorOptions) (files : gmap string string) (r : string) : bool :=
  match files !! PathJoin r ".env" with
  | Some d => bool_decide (parseHookEnvLines d = (wantStarted o, wantCompleted o))
  | None => false
  end.

Lemma wpp_check_envs o files runners l checked bad :
  wpp (disk_spec files runners) (check_envs o checked bad l)
    (fun r _ => r = (checked + length (List.filter IsRunnerDirCandidate l),
                     bad + length (List.filter (fun d => IsRunnerDirCandidate d && negb (env_good o files d)) l))%nat) tt.
Proof.
  revert checked bad. induction l as [|d l IH]; intros checked bad; cbn [check_envs List.filter]; [apply wpp_ret; cbn; by rewrite !Nat.add_0_r|].
  destruct (IsRunnerDirCandidate d); cbn [negb andb]; [|apply IH]. apply wpp_bind, wpp_call; [done|]. intros data [] Hd. cbn in Hd.
  eapply wpp_mono; [apply IH|]. intros r [] ->. unfold env_good. destruct (files !! PathJoin d ".env") as [t|].
  - subst data. destruct (bool_decide _); cbn [negb length]; f_equal; lia.
  - destruct Hd as [e ->]. cbn [negb length]. f_equal; lia.
Qed.

Lemma filter_length_perm {A} (f : A -> bool) l1 l2 : l1 ≡ₚ l2 -> length (List.filter f l1) = length (List.filter f l2).
Proof. induction 1; cbn; repeat (case_match; cbn); congruence. Qed.

Lemma filter_length_0 {A} (f : A -> bool) l : length (List.filter f l) = 0%nat <-> Forall (fun x => f x = false) l.
Proof. induction l as [|x l IH]; cbn; [by split|]. rewrite Forall_cons, <- IH. destruct (f x); cbn; split; try done; [by intros [? _]|by intros [_ ?]]. Qed.

Lemma wpp_env_hooks `{SortSlice} o files runners :
  wpp (disk_spec files runners) (checkRunnerEnvHooks o)
    (fun c _ => dk_Severity c = DocOK <->
       Exists (fun r => IsRunnerDirCandidate r = true) runners /\ Forall (fun r => IsRunnerDirCandidate r = true -> env_good o files r = true) runners) tt.
Proof.
  unfold checkRunnerEnvHooks. apply wpp_bind, wpp_call; [done|]. intros l [] Hl. cbn in Hl. subst l.
  apply wpp_bind. eapply wpp_mono; [apply wpp_check_envs|]. intros r [] ->. apply wpp_ret. cbn [dk_Severity Nat.add].
  rewrite !(filter_length_perm _ _ _ (sort_slice_perm _ _ runners)).
  pose proof (filter_length_0 IsRunnerDirCandidate runners) as H0.
  pose proof (filter_length_0 (fun d => IsRunnerDirCandidate d && negb (env_good o files d)) runners) as H1.
  destruct (length (List.filter IsRunnerDirCandidate runners)) as [|n].
  - split; [done|]. intros [(x & Hx & Hc)%Exists_exists _]. pose proof (proj1 (Forall_forall _ _) (proj1 H0 eq_refl) x Hx). cbn in *. congruence.
  - assert (Exists (fun r => IsRunnerDirCandidate r = true) runners) as Hex.
    { destruct (decide (Exists (fun r => IsRunnerDirCandidate r = true) runners)) as [|Hn]; [done|]. exfalso.
      assert (S n = 0%nat) by (apply H0, Forall_forall; intros x Hx; destruct (IsRunnerDirCandidate x) eqn:E; [|done]; destruct Hn; apply Exists_exists; eauto). lia. }
    destruct (length (List.filter _ runners)) as [|m].
    + split; [intros _; split; [done|]|done]. eapply Forall_impl; [by apply H1|]. intros x Hx Hc. cbv beta in Hx. rewrite Hc in Hx. by apply negb_false_iff in Hx.
    + split; [done|]. intros [_ Hall]. assert (S m = 0%nat); [|lia]. apply H1. eapply Forall_impl; [exact Hall|].
      intros x Hx. cbv beta in *. destruct (IsRunnerDirCandidate x); [by rewrite (Hx eq_refl)|done].
Qed.

(** What [Install] leaves: its two scripts, and for each runner directory the file
    [upsertEnv] writes, whatever was in it. *)
Definition installed `{SortSlice} (o : DoctorOptions) (files : gmap string string) (runners : list string) : Prop :=
  files !! PathJoin (do_HooksDir o) startedHookName = Some (ScriptContent (do_CivmctlPath o) "job-started") /\
  files !! PathJoin (do_HooksDir o) completedHookName = Some (ScriptContent (do_CivmctlPath o) "job-completed") /\
  Forall (fun r => IsRunnerDirCandidate r = true -> exists slot base data, no_char "010" slot /\ 0 <= base /\
            files !! PathJoin r ".env" = Some (env_text (do_HooksDir o) (runner_extra slot base) data)) runners.

(** C30. The doctor accepts what the installation writes, and nothing that leads a runner
    elsewhere: with the scripts and the environment files of [hook install] on the disk its
    three checks of the hooks are fine, whatever other lines the files held, as long as
    there is a runner directory at all; and the check of the environments is fine exactly
    when there is one and in the file of every one the last line of each key names the
    script of this installation. *)
Theorem doctor_accepts_what_install_writes `{SortSlice} o files runners :
  IsAbs (do_HooksDir o) = true -> no_char "010" (do_HooksDir o) -> installed o files runners ->
  Exists (fun r => IsRunnerDirCandidate r = true) runners ->
  wpp (disk_spec files runners) (checkHookScript o "HOOK_JOB_STARTED" startedHookName "job-started") (fun c _ => dk_Severity c = DocOK) tt /\
  wpp (disk_spec files runners) (checkHookScript o "HOOK_JOB_COMPLETED" completedHookName "job-completed") (fun c _ => dk_Severity c = DocOK) tt /\
  wpp (disk_spec files runners) (checkRunnerEnvHooks o) (fun c _ => dk_Severity c = DocOK) tt /\
  (forall files', wpp (disk_spec files' runners) (checkRunnerEnvHooks o)
     (fun c _ => dk_Severity c = DocOK <-> Forall (fun r => IsRunnerDirCandidate r = true -> env_good o files' r = true) runners) tt).
Proof.
  intros Habs Hnl (Hs & Hc & Hr) Hex. split_and!.
  - apply wpp_bind, wpp_call; [done|]. intros b [] Hb. cbn in Hb. rewrite Hs in Hb. subst b. apply wpp_ret. cbn [dk_Severity]. by rewrite String.eqb_refl.
  - apply wpp_bind, wpp_call; [done|]. intros b [] Hb. cbn in Hb. rewrite Hc in Hb. subst b. apply wpp_ret. cbn [dk_Severity]. by rewrite String.eqb_refl.
  - eapply wpp_mono; [apply wpp_env_hooks|]. intros c [] Hiff. apply Hiff. split; [done|]. eapply Forall_impl; [exact Hr|].
    intros r Hcand Hr'. destruct (Hcand Hr') as (slot & base & data & Hsl & Hb & Hf). unfold env_good. rewrite Hf.
    apply bool_decide_eq_true_2. by apply parse_installed.
  - intros files'. eapply wpp_mono; [apply wpp_env_hooks|]. intros c [] Hiff. rewrite Hiff. tauto.
Qed.

Lemma doctor_accepts_what_install_writes_witness :
  let o := mkDoctorOptions [] true "ci.yml" "/" "/opt/civm/hooks" "/usr/local/bin/civmctl" "/home/*/actions-runner*" DefaultUnitsSourceDir in
  let files : gmap string string :=
    {[ "/opt/civm/hooks/job-started.sh" := ScriptContent "/usr/local/bin/civmctl" "job-started";
       "/opt/civm/hooks/job-completed.sh" := ScriptContent "/usr/local/bin/civmctl" "job-completed";
       "/home/ci/actions-runner-web/.env" := env_text (H := SortSlice_insertion) "/opt/civm/hooks" (runner_extra "web" 20064)
          ("  ACTIONS_RUNNER_HOOK_JOB_STARTED=/tmp/evil.sh" +:+ newline +:+ "LANG=C") ]} in
  wpp (disk_spec files ["/home/ci/actions-runner-web"]) (checkRunnerEnvHooks (H := SortSlice_insertion) o) (fun c _ => dk_Severity c = DocOK) tt.
Proof.
  intros o files.
  refine (proj1 (proj2 (proj2 (doctor_accepts_what_install_writes (H := SortSlice_insertion) o files ["/home/ci/actions-runner-web"] eq_refl eq_refl _ _)))).
  - split; [vm_compute; reflexivity|]. split; [vm_compute; reflexivity|]. constructor; [|constructor]. intros _.
    exists "web", 20064, ("  ACTIONS_RUNNER_HOOK_JOB_STARTED=/tmp/evil.sh" +:+ newline +:+ "LANG=C").
    split; [reflexivity|]. split; [discriminate|]. vm_compute. reflexivity.
  - constructor. vm_compute. reflexivity.
Defined.

(** ** What the doctor says of admit, and what admit does *)

(** On a host the doctor finds fit, admit may refuse everything: the doctor's copy of the
    cap has lost the floor of 512 MB.  Between 2048 and 3071 MB its check is fine, for any
    such host, and [effectiveMemMB] is an error, so that every payload, light or heavy,
    ends with exit code 79. *)
Lemma small_host_is_fit_for_the_doctor raw mem :
  Sample raw = Ok mem -> 2048 <= MemTotalMB mem < 3072 ->
  ram_severity raw = DocOK /\ exists e, effectiveMemMB DefaultAdmitHeavyMaxMB (MemTotalMB mem) DefaultAdmitHostReserveMB DefaultAdmitMaxHeavy = Err e.
Proof.
  intros Hs. unfold ram_severity. rewrite Hs. generalize (MemTotalMB mem). intros total Ht.
  unfold effectiveMemMB, admitEffectiveMemMB, DefaultAdmitHeavyMaxMB, DefaultAdmitHostReserveMB, DefaultAdmitMaxHeavy, admitMinMemMB.
  cbn [Z.ltb Z.compare Pos.compare Pos.compare_cont]. rewrite !(int64_id (total - 2048)) by (unfold min_int64, max_int64; lia).
  assert (2 * ((total - 2048) `quot` 2) <= total - 2048) as Hq by (Z.to_euclidean_division_equations; lia).
  assert (0 <= (total - 2048) `quot` 2 < 512) as Hq' by (Z.to_euclidean_division_equations; lia).
  rewrite int64_id by (unfold min_int64, max_int64; lia). split.
  - by rewrite (proj2 (Z.ltb_ge _ _)) by lia.
  - rewrite (proj2 (Z.leb_gt _ _)) by lia. rewrite (proj2 (Z.ltb_lt _ _)) by lia. eauto.
Qed.

Example a_small_host :
  (MemTotalMB <$> match Sample (Ok ("MemTotal: 2560000 kB" +:+ newline +:+ "MemAvailable: 1000 kB")) with Ok mem => Some mem | Err _ => None end) = Some 2500.
Proof. vm_compute. reflexivity. Qed.

(** Without the memory controller the doctor warns of a degraded mode; admit runs no heavy
    payload at all. *)
Lemma no_controller_is_a_refusal Marshal Unmarshal pid fuel user af payload g c m :
  wpp prep_spec (admit_prepare Marshal Unmarshal pid fuel user af WeightHeavy payload)
    (fun o s => pr_memory s = false -> match o with Some (Runs _ _) => False | _ => True end) (mkPrep (mkLocks ∅ g) c m).
Proof.
  eapply wpp_mono; [apply wpp_admit_prepare|]. intros [[code|adm argv]|] s Hs Hm; [done| |done]. destruct Hs as (_ & Hp & _). by rewrite Hp in Hm.
Qed.
