(* ===== verification/PeerStatus.v ===== *)
(** * internal/billing: is GitHub refusing to run the jobs?

    [classifyRuns] judges the latest runs of a workflow; [billing_Detect] fetches them.  The
    answer of gh is an effect and its JSON decoder a parameter. *)

From S2P Require Import Prelude GoStrings Regex Prog Civm.

Local Open Scope string_scope.
Local Open Scope list_scope.
Local Open Scope Z_scope.

Inductive BillingStatus := BillingOK | BillingBlocked | BillingUnknown.

#[global] Instance BillingStatus_eq_dec : EqDecision BillingStatus.
Proof. solve_decision. Defined.

Definition billing_ExitCode (s : BillingStatus) : Z := match s with BillingOK => 0 | BillingBlocked => 1 | BillingUnknown => 2 end.
Definition billing_text (s : BillingStatus) : string := match s with BillingOK => "ok" | BillingBlocked => "blocked" | BillingUnknown => "unknown" end.

Record BillingRun := mkBillingRun { br_DatabaseID : Z; br_Status : string; br_Conclusion : string; br_StartedAt : Z; br_UpdatedAt : Z }.

Record BillingOptions := mkBillingOptions {
  bo_Repo : string;
  bo_WorkflowFile : string;
  bo_Limit : Z;
  bo_Threshold : Z;
  bo_MinBlocked : Z;
}.

Definition billing_DefaultOptions : BillingOptions := mkBillingOptions "" "ci.yml" 5 (10 * Second) 3.

Definition billing_validateOptions (opts : BillingOptions) : err_ret :=
  match ValidateRepo (bo_Repo opts) with
  | Some e => Some e
  | None =>
      match ValidateWorkflowFile (bo_WorkflowFile opts) with
      | Some e => Some e
      | None =>
          if bo_Limit opts <? 3 then Some (Errorf "--limit deve ser >= 3")
          else if bo_MinBlocked opts <? 1 then Some (Errorf "--min-blocked deve ser >= 1") else None
      end
  end.

(** The first loop: the runs that started, until there are [MinBlocked] of them. *)
Fixpoint consider (opts : BillingOptions) (considered runs : list BillingRun) : list BillingRun :=
  match runs with
  | [] => considered
  | r :: runs =>
      if IsZero (br_StartedAt r) then consider opts considered runs
      else
        let considered := considered ++ [r] in
        if Z.of_nat (length considered) =? bo_MinBlocked opts then considered else consider opts considered runs
  end.

(** The second loop. *)
Fixpoint judge (opts : BillingOptions) (blockedCount : Z) (considered : list BillingRun) : BillingStatus :=
  match considered with
  | [] => if bo_MinBlocked opts <=? blockedCount then BillingBlocked else BillingOK
  | r :: considered =>
      if negb (String.eqb (br_Conclusion r) "failure") then BillingOK
      else if time_Sub (br_UpdatedAt r) (br_StartedAt r) <? bo_Threshold opts then judge opts (blockedCount + 1) considered
      else BillingOK
  end.

Definition classifyRuns (runs : list BillingRun) (opts : BillingOptions) : BillingStatus :=
  let considered := consider opts [] runs in
  if Z.of_nat (length considered) <? bo_MinBlocked opts then BillingUnknown else judge opts 0 considered.

Inductive ghE : Type -> Type := RunGh (args : list string) : ghE (result string).

Section detect.
Context (decode : string -> result (list BillingRun)).

Definition billing_args (opts : BillingOptions) : list string :=
  ["run"; "list"; "--repo"; bo_Repo opts; "--workflow"; bo_WorkflowFile opts; "--limit"; Itoa (bo_Limit opts);
   "--json"; "databaseId,status,conclusion,startedAt,updatedAt"].

Definition billing_Detect (opts : BillingOptions) : prog ghE (BillingStatus * list BillingRun * err_ret) :=
  match billing_validateOptions opts with
  | Some e => mret (BillingUnknown, [], Some e)
  | None =>
      out ← call (RunGh (billing_args opts));
      mret (match out with
            | Err e => (BillingUnknown, [], Some (Errorf_w "gh run list" e))
            | Ok out =>
                match decode out with
                | Err e => (BillingUnknown, [], Some (Errorf_w "parse gh output" e))
                | Ok runs => (classifyRuns runs opts, runs, None)
                end
            end)
  end.
End detect.

(** ** What the verdict means *)

Definition started (r : BillingRun) : bool := negb (IsZero (br_StartedAt r)).

(** The pattern of a job that never started. *)
Definition died_early (opts : BillingOptions) (r : BillingRun) : bool :=
  String.eqb (br_Conclusion r) "failure" && (time_Sub (br_UpdatedAt r) (br_StartedAt r) <? bo_Threshold opts).

Lemma consider_take opts acc runs : Z.of_nat (length acc) < bo_MinBlocked opts ->
  consider opts acc runs = acc ++ take (Z.to_nat (bo_MinBlocked opts) - length acc) (filter (fun r => started r = true) runs).
Proof.
  revert acc. induction runs as [|r runs IH]; intros acc Ha; cbn [consider]; [by rewrite filter_nil, take_nil, app_nil_r|].
  destruct (IsZero (br_StartedAt r)) eqn:Ez.
  - rewrite filter_cons_False by (unfold started; by rewrite Ez). by apply IH.
  - rewrite filter_cons_True by (unfold started; by rewrite Ez). rewrite length_app. cbn [length].
    replace (Z.to_nat (bo_MinBlocked opts) - length acc)%nat with (S (Z.to_nat (bo_MinBlocked opts) - length (acc ++ [r]))) by (rewrite length_app; cbn; lia).
    cbn [take]. destruct (Z.eqb_spec (Z.of_nat (length acc + 1)) (bo_MinBlocked opts)) as [He|He].
    + replace (Z.to_nat (bo_MinBlocked opts) - length (acc ++ [r]))%nat with 0%nat by (rewrite length_app; cbn; lia). done.
    + rewrite IH by (rewrite length_app; cbn; lia). by rewrite <- app_assoc.
Qed.

Lemma judge_spec opts n l : bo_MinBlocked opts <= n + Z.of_nat (length l) ->
  judge opts n l = if forallb (died_early opts) l then BillingBlocked else BillingOK.
Proof.
  revert n. induction l as [|r l IH]; intros n Hn; cbn [judge forallb].
  - cbn in Hn. by rewrite (proj2 (Z.leb_le _ _)) by lia.
  - unfold died_early at 1. destruct (String.eqb (br_Conclusion r) "failure"); cbn [negb andb]; [|done].
    destruct (_ <? _); cbn [andb]; [|done]. apply IH. cbn in Hn. lia.
Qed.

(** The verdict is about the latest [MinBlocked] runs that started, and only them. *)
Lemma classifyRuns_spec runs opts : 1 <= bo_MinBlocked opts ->
  classifyRuns runs opts =
    let latest := take (Z.to_nat (bo_MinBlocked opts)) (filter (fun r => started r = true) runs) in
    if bool_decide (Z.of_nat (length latest) < bo_MinBlocked opts) then BillingUnknown
    else if forallb (died_early opts) latest then BillingBlocked else BillingOK.
Proof.
  intros Hm. unfold classifyRuns. rewrite consider_take by (cbn; lia). cbn [app length]. rewrite Nat.sub_0_r. cbv zeta.
  destruct (Z.ltb_spec (Z.of_nat (length (take (Z.to_nat (bo_MinBlocked opts)) (filter (fun r => started r = true) runs)))) (bo_MinBlocked opts)).
  - by rewrite bool_decide_eq_true_2.
  - rewrite bool_decide_eq_false_2 by lia. apply judge_spec. lia.
Qed.

(** Three runs that died within ten seconds are a billing block, unless one more has just
    been queued: a run that is still in progress has no conclusion yet, and that alone
    makes the verdict "ok". *)
Lemma running_run_hides_the_block :
  let dead := mkBillingRun 1 "completed" "failure" 100 (100 + 2 * Second) in
  let running := mkBillingRun 2 "in_progress" "" 200 200 in
  classifyRuns [dead; dead; dead] billing_DefaultOptions = BillingBlocked /\
  classifyRuns [running; dead; dead; dead] billing_DefaultOptions = BillingOK.
Proof. by vm_compute. Qed.

(** * internal/peerstatus: the fleet in one report

    [peer_Collect] asks gh three times about a repository; [CollectFleet] does it for every
    one and counts.  The JSON decoders are parameters. *)

Local Open Scope string_scope.
Local Open Scope list_scope.
Local Open Scope Z_scope.

Record RunSummary := mkRunSummary { rs_DatabaseID : Z; rs_Status : string; rs_Conclusion : string; rs_CreatedAt : Z; rs_URL : string }.

Record PeerStatus := mkPeerStatus {
  ps_Repo : string;
  ps_WorkflowFile : string;
  ps_BillingStatus : string;
  ps_BillingExitCode : Z;
  ps_RunnersTotal : Z;
  ps_RunnersOnline : Z;
  ps_RunnerNames : list string;
  ps_LastRun : option RunSummary;
}.

Inductive Severity := SeverityOK | SeverityWarn | SeverityCritical.

#[global] Instance Severity_eq_dec : EqDecision Severity.
Proof. solve_decision. Defined.

Definition severity_ExitCode (s : Severity) : Z := match s with SeverityOK => 0 | SeverityWarn => 1 | SeverityCritical => 2 end.

Definition status_Severity (s : PeerStatus) : Severity :=
  if String.eqb (ps_BillingStatus s) "blocked" && (ps_RunnersOnline s =? 0) then SeverityCritical
  else if String.eqb (ps_BillingStatus s) "blocked" || String.eqb (ps_BillingStatus s) "unknown" || (ps_RunnersOnline s =? 0) then SeverityWarn
  else SeverityOK.

Record FleetSummary := mkFleetSummary {
  fs_Total : Z;
  fs_OK : Z;
  fs_Warn : Z;
  fs_Critical : Z;
  fs_RunnersOnline : Z;
  fs_RunnersTotal : Z;
}.

Record FleetReport := mkFleetReport {
  fr_WorkflowFile : string;
  fr_Summary : FleetSummary;
  fr_Peers : list (PeerStatus * Severity);
  fr_Exit : Z;
}.

Definition peer_validateOptions (repo workflow : string) : err_ret :=
  match ValidateRepo repo with Some e => Some e | None => ValidateWorkflowFile workflow end.

(** The loop of [validateFleetOptions]. *)
Fixpoint validate_repos (workflow : string) (repos : list string) : err_ret :=
  match repos with
  | [] => ValidateWorkflowFile workflow
  | repo :: repos => match ValidateRepo repo with Some e => Some e | None => validate_repos workflow repos end
  end.

Definition validateFleetOptions (repos : list string) (workflow : string) : err_ret :=
  match repos with
  | [] => Some (Errorf "--repos deve informar pelo menos um repo")
  | _ => validate_repos workflow repos
  end.

(** [FleetReport.add] *)
Definition fleet_add (r : FleetReport) (s : PeerStatus) : FleetReport :=
  let severity := status_Severity s in
  let m := fr_Summary r in
  mkFleetReport (fr_WorkflowFile r)
    (mkFleetSummary (fs_Total m + 1)
       (match severity with SeverityOK => fs_OK m + 1 | _ => fs_OK m end)
       (match severity with SeverityWarn => fs_Warn m + 1 | _ => fs_Warn m end)
       (match severity with SeverityCritical => fs_Critical m + 1 | _ => fs_Critical m end)
       (fs_RunnersOnline m + ps_RunnersOnline s) (fs_RunnersTotal m + ps_RunnersTotal s))
    (fr_Peers r ++ [(s, severity)])
    (if fr_Exit r <? severity_ExitCode severity then severity_ExitCode severity else fr_Exit r).

Section collect.
Context (decode_runs : string -> result (list BillingRun)).
(** The name and the status of each runner. *)
Context (decode_runners : string -> result (list (string * string))).
Context (decode_last : string -> result (list RunSummary)).

Definition is_online (r : string * string) : bool := String.eqb (snd r) "online".

Definition peer_Collect (repo workflow : string) : prog ghE (result PeerStatus) :=
  match peer_validateOptions repo workflow with
  | Some e => mret (Err e)
  | None =>
      b ← billing_Detect decode_runs (mkBillingOptions repo workflow (bo_Limit billing_DefaultOptions)
            (bo_Threshold billing_DefaultOptions) (bo_MinBlocked billing_DefaultOptions));
      let bStatus := fst (fst b) in
      out ← call (RunGh ["api"; "/repos/" +:+ repo +:+ "/actions/runners"]);
      let runners := match out with
                     | Ok out => match decode_runners out with Ok l => l | Err _ => [] end
                     | Err _ => []
                     end in
      out ← call (RunGh ["run"; "list"; "--repo"; repo; "--workflow"; workflow; "--limit"; "1";
                         "--json"; "databaseId,status,conclusion,createdAt,url"]);
      let last := match out with
                  | Ok out => match decode_last out with Ok (r :: _) => Some r | _ => None end
                  | Err _ => None
                  end in
      mret (Ok (mkPeerStatus repo workflow (billing_text bStatus) (billing_ExitCode bStatus)
        (Z.of_nat (length runners)) (Z.of_nat (length (List.filter is_online runners))) (fst <$> runners) last))
  end.

Fixpoint collect_peers (workflow : string) (report : FleetReport) (repos : list string) : prog ghE (result FleetReport) :=
  match repos with
  | [] => mret (Ok report)
  | repo :: repos =>
      s ← peer_Collect repo workflow;
      match s with
      | Err e => mret (Err e)
      | Ok s => collect_peers workflow (fleet_add report s) repos
      end
  end.

Definition CollectFleet (repos : list string) (workflow : string) : prog ghE (result FleetReport) :=
  let workflow := if String.eqb workflow "" then "ci.yml" else workflow in
  match validateFleetOptions repos workflow with
  | Some e => mret (Err e)
  | None => collect_peers workflow (mkFleetReport workflow (mkFleetSummary 0 0 0 0 0 0) [] 0) repos
  end.
End collect.

(** ** The counts are those of the peers *)

Definition sum_of (f : PeerStatus -> Z) (peers : list (PeerStatus * Severity)) : Z := foldr (fun p acc => f (fst p) + acc) 0 peers.
Definition count_of (v : Severity) (peers : list (PeerStatus * Severity)) : Z :=
  Z.of_nat (length (filter (fun p => snd p = v) peers)).

Lemma sum_of_app f l1 l2 : sum_of f (l1 ++ l2) = sum_of f l1 + sum_of f l2.
Proof. unfold sum_of. induction l1 as [|p l1 IH]; cbn; [done|]. unfold sum_of in *. lia. Qed.
Lemma count_of_app v l1 l2 : count_of v (l1 ++ l2) = count_of v l1 + count_of v l2.
Proof. unfold count_of. rewrite filter_app, length_app. lia. Qed.
Lemma count_of_one v p : count_of v [p] = if decide (snd p = v) then 1 else 0.
Proof. unfold count_of. rewrite filter_cons, filter_nil. by destruct (decide _). Qed.

(** The summary is that of the list, the severity of a peer that of its status, and the
    exit code the worst of them. *)
Record fleet_ok (r : FleetReport) : Prop := {
  fo_total : fs_Total (fr_Summary r) = Z.of_nat (length (fr_Peers r));
  fo_ok : fs_OK (fr_Summary r) = count_of SeverityOK (fr_Peers r);
  fo_warn : fs_Warn (fr_Summary r) = count_of SeverityWarn (fr_Peers r);
  fo_critical : fs_Critical (fr_Summary r) = count_of SeverityCritical (fr_Peers r);
  fo_online : fs_RunnersOnline (fr_Summary r) = sum_of ps_RunnersOnline (fr_Peers r);
  fo_runners : fs_RunnersTotal (fr_Summary r) = sum_of ps_RunnersTotal (fr_Peers r);
  fo_severity : Forall (fun p => snd p = status_Severity (fst p)) (fr_Peers r);
  fo_worst : fr_Exit r = foldr (fun p acc => Z.max (severity_ExitCode (snd p)) acc) 0 (fr_Peers r);
}.

Lemma worst_app (l : list (PeerStatus * Severity)) p :
  foldr (fun p acc => Z.max (severity_ExitCode (snd p)) acc) 0 (l ++ [p]) =
  Z.max (foldr (fun p acc => Z.max (severity_ExitCode (snd p)) acc) 0 l) (severity_ExitCode (snd p)).
Proof. induction l as [|q l IH]; cbn; [by destruct (snd p)|]. rewrite IH. lia. Qed.

Lemma fleet_add_ok r s : fleet_ok r -> fleet_ok (fleet_add r s).
Proof.
  intros [Ht Ho Hw Hc Hon Hr Hs Hx].
  assert (forall v, count_of v [(s, status_Severity s)] = if decide (status_Severity s = v) then 1 else 0) as H1 by (intros v; apply count_of_one).
  split; cbn; rewrite ?length_app, ?count_of_app, ?sum_of_app, ?H1; cbn.
  - lia.
  - rewrite Ho. destruct (status_Severity s); case_decide; first [done | lia].
  - rewrite Hw. destruct (status_Severity s); case_decide; first [done | lia].
  - rewrite Hc. destruct (status_Severity s); case_decide; first [done | lia].
  - fold (sum_of ps_RunnersOnline (fr_Peers r ++ [(s, status_Severity s)])). rewrite sum_of_app. cbn. lia.
  - fold (sum_of ps_RunnersTotal (fr_Peers r ++ [(s, status_Severity s)])). rewrite sum_of_app. cbn. lia.
  - apply Forall_app. split; [done|]. by apply Forall_singleton.
  - rewrite worst_app, <- Hx. cbn. destruct (Z.ltb_spec (fr_Exit r) (severity_ExitCode (status_Severity s))); lia.
Qed.

(** ** The whole collection *)

(** gh is asked read-only questions about repositories and workflows that passed the
    validation. *)
Definition gh_question (repos : list string) (args : list string) : Prop :=
  exists repo workflow, repo ∈ repos /\ ValidateRepo repo = None /\ ValidateWorkflowFile workflow = None /\
    (args = billing_args (mkBillingOptions repo workflow 5 (10 * Second) 3) \/
     args = ["api"; "/repos/" +:+ repo +:+ "/actions/runners"] \/
     args = ["run"; "list"; "--repo"; repo; "--workflow"; workflow; "--limit"; "1"; "--json"; "databaseId,status,conclusion,createdAt,url"]).

Definition gh_spec (repos : list string) : spec ghE unit := {|
  allowed B e s := match e with RunGh args => gh_question repos args end;
  answers B e s b s' := True;
|}.

(** A peer as it was asked for; its runners online are among its runners. *)
Definition peer_ok (repo workflow : string) (s : PeerStatus) : Prop :=
  ps_Repo s = repo /\ ps_WorkflowFile s = workflow /\ 0 <= ps_RunnersOnline s <= ps_RunnersTotal s /\ ps_RunnersTotal s = Z.of_nat (length (ps_RunnerNames s)) /\
  exists b, ps_BillingStatus s = billing_text b /\ ps_BillingExitCode s = billing_ExitCode b.

Lemma wpp_peer_Collect dr dn dl repos repo workflow : repo ∈ repos ->
  wpp (gh_spec repos) (peer_Collect dr dn dl repo workflow) (fun r _ => match r with Ok s => peer_ok repo workflow s | Err _ => peer_validateOptions repo workflow <> None end) tt.
Proof.
  intros Hin. unfold peer_Collect. destruct (peer_validateOptions repo workflow) as [e|] eqn:Ev; [by apply wpp_ret|].
  unfold peer_validateOptions in Ev. destruct (ValidateRepo repo) eqn:Er; [done|].
  apply wpp_bind. apply (wpp_mono _ _ (fun _ _ => True)).
  - unfold billing_Detect. destruct (billing_validateOptions _); [by apply wpp_ret|]. apply wpp_bind, wpp_call; [|by intros b [] _; apply wpp_ret].
    exists repo, workflow. auto.
  - intros b [] _. apply wpp_bind, wpp_call; [exists repo, workflow; by auto 6|]. intros out1 [] _.
    apply wpp_bind, wpp_call; [exists repo, workflow; by auto 6|]. intros out2 [] _. apply wpp_ret. unfold peer_ok. cbn.
    rewrite length_fmap. split_and!; try done; [lia| |eauto]. apply Nat2Z.inj_le, List.filter_length_le.
Qed.

Lemma wpp_collect_peers dr dn dl repos workflow : ValidateWorkflowFile workflow = None -> forall todo report,
  todo ⊆ repos -> Forall (fun repo => ValidateRepo repo = None) todo -> fleet_ok report ->
  wpp (gh_spec repos) (collect_peers dr dn dl workflow report todo)
    (fun r _ => exists r', r = Ok r' /\ fleet_ok r' /\ exists new, fr_Peers r' = fr_Peers report ++ new /\
                  Forall2 (fun repo p => peer_ok repo workflow (fst p)) todo new) tt.
Proof.
  intros Hw. induction todo as [|repo todo IH]; intros report Hsub Hv Hok; cbn [collect_peers].
  - apply wpp_ret. exists report. split_and!; [done..|]. exists []. by rewrite app_nil_r.
  - inversion Hv as [|? ? Hr Hv']; subst. apply wpp_bind. eapply wpp_mono; [apply wpp_peer_Collect, Hsub, list_elem_of_here|].
    intros [s|e] [] Hs; [|unfold peer_validateOptions in Hs; by rewrite Hr, Hw in Hs].
    eapply wpp_mono; [apply IH; [|done|by apply fleet_add_ok]|].
    { intros x Hx. apply Hsub. by apply list_elem_of_further. }
    intros r [] (r' & -> & Hok' & new & Hp & Hall). exists r'. split_and!; [done..|]. exists ((s, status_Severity s) :: new).
    split; [by rewrite Hp; cbn; rewrite <- app_assoc|]. by constructor.
Qed.

Lemma validateFleetOptions_ok repos workflow : validateFleetOptions repos workflow = None ->
  Forall (fun repo => ValidateRepo repo = None) repos /\ ValidateWorkflowFile workflow = None.
Proof.
  assert (validate_repos workflow repos = None -> Forall (fun repo => ValidateRepo repo = None) repos /\ ValidateWorkflowFile workflow = None) as H;
    [|by unfold validateFleetOptions; destruct repos].
  induction repos as [|repo l IH]; cbn [validate_repos]; [by split|]. destruct (ValidateRepo repo) eqn:E; [done|].
  intros H. apply IH in H as [Hl Hw]. split; [by constructor|done].
Qed.

(** The fleet report: whatever gh answers, it is only ever asked read-only questions
    about repositories that passed the validation; a list that passes gives a report, with
    one peer for each repository, in order; every count of the summary is the count over
    the peers, the exit code is that of the worst peer, and a peer is critical exactly when
    its billing is blocked and none of its runners is known to be online. *)
Theorem fleet_report_is_faithful dr dn dl repos workflow :
  let w := if String.eqb workflow "" then "ci.yml" else workflow in
  wpp (gh_spec repos) (CollectFleet dr dn dl repos workflow)
    (fun r _ => match r with
                | Err e => validateFleetOptions repos w = Some e
                | Ok r => validateFleetOptions repos w = None /\ fleet_ok r /\
                    Forall2 (fun repo p => peer_ok repo w (fst p) /\
                               (snd p = SeverityCritical <-> ps_BillingStatus (fst p) = "blocked" /\ ps_RunnersOnline (fst p) = 0)) repos (fr_Peers r)
                end) tt.
Proof.
  intros w. unfold CollectFleet. fold w. destruct (validateFleetOptions repos w) as [e|] eqn:Ev; [by apply wpp_ret|].
  apply validateFleetOptions_ok in Ev as Hv. destruct Hv as [Hv Hw].
  eapply wpp_mono; [apply (wpp_collect_peers dr dn dl repos w Hw repos); [done|done|by split]|].
  intros r [] (r' & -> & Hok & new & Hp & Hall). cbn in Hp. rewrite Hp. split_and!; [done..|].
  pose proof (fo_severity _ Hok) as Hs. rewrite Hp in Hs. clear -Hall Hs.
  induction Hall as [|repo p repos' new' Hpo Hall IH]; [constructor|]. inversion Hs as [|? ? Hp Hs']; subst. constructor; [|by apply IH].
  split; [done|]. rewrite Hp. unfold status_Severity.
  destruct (String.eqb_spec (ps_BillingStatus (fst p)) "blocked") as [->|Hb]; cbn;
    destruct (Z.eqb_spec (ps_RunnersOnline (fst p)) 0) as [Hz|Hz]; cbn; try (by split; [by intros _|done]); try (by split; [done|intros [? ?]]).
  all: destruct (String.eqb (ps_BillingStatus (fst p)) "unknown"); cbn; (split; [done|intros [? ?]; done]).
Qed.
