(* ===== verification/Drift.v ===== *)
(** * internal/drift: are the pins behind the published image?

    The versions of each tool are searched in the upstream page with the patterns of the
    package; a pin is in sync, ahead, behind, or has nothing to be compared with.  The
    fetcher is an effect.  [Render] is its last paragraph, the verdict. *)

From S2P Require Import Prelude GoStrings Regex Prog Bootstrap.

Local Open Scope string_scope.
Local Open Scope list_scope.
Local Open Scope Z_scope.

(** ** The patterns *)

Section patterns.
Local Open Scope regex_scope.

(** [\s] *)
Definition re_space : class := [("009", "010"); ("012", "013"); (" ", " ")]%char.
(** [[^\n]] *)
Definition re_not_newline : class := [("000", "009"); ("011", "255")]%char.

(** A character under the flag [i]; k and s also fold with the Kelvin sign and the long s. *)
Definition ci_char (c : ascii) : regex :=
  let both := RCls [(lower_char c, lower_char c); (upper_char c, upper_char c)] in
  if Ascii.eqb (lower_char c) "k" then RAlt both (lit (String "226" (String "132" (String "170" ""))))
  else if Ascii.eqb (lower_char c) "s" then RAlt both (lit (String "197" (String "191" "")))
  else both.
Fixpoint ci (s : string) : regex := match s with EmptyString => REps | String c s => ci_char c ⋅ ci s end.

Definition star_ (k : class) : regex := RStar (RCls k).
Definition plus_ (k : class) : regex := plus (RCls k).

(** The pattern of a line, under the flags i and m: marks and spaces, the name, at least one
    mark or space, and a digit up to the end of a line. *)
Definition line_pattern (name : regex) : search :=
  mkSearch true
    (maybe (star_ (chars "-|*" ++ re_space)) ⋅ maybe (lit "*") ⋅ maybe (lit "*") ⋅ star_ re_space ⋅ name ⋅
     plus_ (re_space ++ chars "*:|") ⋅ (RCls digit ⋅ star_ re_not_newline)) true.

Definition linePatterns : list (string * search) := [
  ("go", line_pattern (ci "Go" ⋅ maybe (ci "lang")));
  ("node", line_pattern (ci "Node" ⋅ maybe (lit ".") ⋅ ci "js"));
  ("python", line_pattern (ci "Python"));
  ("docker-compose", line_pattern (ci "Docker" ⋅ star_ (re_space ++ chars "-") ⋅ ci "Compose" ⋅ maybe (star_ re_space ⋅ maybe (ci "v") ⋅ lit "2")));
  ("docker", line_pattern (ci "Docker" ⋅ maybe (plus_ re_space ⋅ RAlt (ci "Client") (ci "Server"))));
  ("gh", line_pattern (ci "GitHub" ⋅ star_ re_space ⋅ ci "CLI" ⋅ maybe (star_ re_space ⋅ lit "(" ⋅ ci "gh" ⋅ lit ")")));
  ("git", line_pattern (ci "Git"));
  ("jq", line_pattern (ci "jq"));
  ("yq", line_pattern (ci "yq")) ].

(** [[0-9]+\.[0-9]+(?:\.[0-9]+)?] *)
Definition semverRegex : regex := plus_ digit ⋅ lit "." ⋅ plus_ digit ⋅ maybe (lit "." ⋅ plus_ digit).

(** [(?im)^####\s+NAME\s*$] *)
Definition headRe (name : string) : search := mkSearch true (lit "####" ⋅ plus_ re_space ⋅ ci name ⋅ star_ re_space) true.
(** [(?m)^####\s+\w] *)
Definition endRe : search := mkSearch true (lit "####" ⋅ plus_ re_space ⋅ RCls (alnum ++ chars "_")) false.
End patterns.

(** ** Parsing the page *)

Definition displayName (tool : string) : string :=
  if String.eqb tool "go" then "Go" else if String.eqb tool "node" then "Node.js" else if String.eqb tool "python" then "Python" else tool.

Fixpoint unique_from (seen : list string) (l : list string) : list string :=
  match l with
  | [] => []
  | s :: l => if decide (s ∈ seen) then unique_from seen l else s :: unique_from (s :: seen) l
  end.
Definition uniqueStrings (l : list string) : list string := unique_from [] l.

Definition parseSectionVersions (body tool : string) : list string :=
  match find (headRe (displayName tool)) true body with
  | None => []
  | Some (_, _, rest) =>
      let section := match find endRe true rest with Some (pre, _, _) => pre | None => rest end in
      FindAllString semverRegex section
  end.

Definition first_pass (body : string) (out : gmap string (list string)) (p : string * search) : gmap string (list string) :=
  let line := FindString (snd p) body in
  if String.eqb line "" then out
  else match FindAllString semverRegex line with
       | [] => out
       | matches => <[fst p := uniqueStrings matches]> out
       end.

Definition second_pass (body : string) (out : gmap string (list string)) (sec : string) : gmap string (list string) :=
  match parseSectionVersions body sec with
  | [] => out
  | extra => <[sec := uniqueStrings (default [] (out !! sec) ++ extra)]> out
  end.

Definition parseUpstreamVersions (body : string) : gmap string (list string) :=
  foldl (second_pass body) (foldl (first_pass body) ∅ linePatterns) ["go"; "node"; "python"].

(** ** Comparing versions *)

(** The digits at the front of a part; the product wraps. *)
Fixpoint part_value (n : Z) (p : string) : Z :=
  match p with
  | EmptyString => n
  | String c p => if is_digit c then part_value (int64 (int64 (n * 10) + (code c - 48))) p else n
  end.

Definition splitVersion (s : string) : list Z := part_value 0 <$> Split "." s.

(** The loop up to the longer length, a missing part being 0. *)
Fixpoint compareVersion (a b : list Z) : Z :=
  match a, b with
  | [], [] => 0
  | x :: a, [] => if x =? 0 then compareVersion a [] else if x <? 0 then -1 else 1
  | [], y :: b => (fix right (b : list Z) : Z := match b with [] => 0 | y :: b => if 0 =? y then right b else if 0 <? y then -1 else 1 end) (y :: b)
  | x :: a, y :: b => if x =? y then compareVersion a b else if x <? y then -1 else 1
  end.

Definition isSemverAhead (pinned : string) (upstreamList : list string) : bool :=
  match splitVersion pinned with
  | [] => false
  | pParts => forallb (fun u => negb (compareVersion pParts (splitVersion u) <=? 0)) upstreamList
  end.

(** ** The report *)

Inductive DriftStatus := StatusInSync | StatusBehind | StatusAhead | StatusUpstreamMissing.

#[global] Instance DriftStatus_eq_dec : EqDecision DriftStatus.
Proof. solve_decision. Defined.

Record Diff := mkDiff { df_Tool : string; df_Pinned : string; df_Upstream : string; df_Status : DriftStatus }.

Record DriftReport := mkDriftReport { dr_UpstreamURL : string; dr_Generated : Z; dr_Diffs : list Diff; dr_UpstreamRaw : string }.

Definition HasBehind (r : DriftReport) : bool := existsb (fun d => bool_decide (df_Status d = StatusBehind)) (dr_Diffs r).
Definition HasAhead (r : DriftReport) : bool := existsb (fun d => bool_decide (df_Status d = StatusAhead)) (dr_Diffs r).

Definition normalizeName (s : string) : string := ToLower (TrimSpace s).

Definition drift_truncate (s : string) (n : nat) : string :=
  if (String.length s <=? n)%nat then s else take_str n s +:+ "...(truncated)".

(** [strings.Replace(s, old, new, 1)]. *)
Definition replace_once (s old new : string) : string :=
  match Index s old with
  | Some i => take_str (Z.to_nat i) s +:+ new +:+ drop_str (Z.to_nat i + String.length old) s
  | None => s
  end.

Definition toRawURL (u : string) : string :=
  replace_once (replace_once u "https://github.com/" "https://raw.githubusercontent.com/") "/blob/" "/".

(** The body of the loop over the tools. *)
Definition diff_of (upstreamVersions : gmap string (list string)) (t : ToolVersion) : Diff :=
  let upstreamList := default [] (upstreamVersions !! normalizeName (tv_Name t)) in
  let diff := mkDiff (tv_Name t) (Preferred t) in
  match upstreamList with
  | [] => diff "(not parsed)" StatusUpstreamMissing
  | _ =>
      diff (Join upstreamList ", ")
        (if bool_decide (Preferred t ∈ upstreamList) then StatusInSync
         else if isSemverAhead (Preferred t) upstreamList then StatusAhead else StatusBehind)
  end.

Inductive driftE : Type -> Type := Fetch (url : string) : driftE (result string) | DriftNow : driftE Z.

Section detect.
Context `{SortSlice}.

Definition drift_Detect (tools : list ToolVersion) (upstreamURL : string) : prog driftE (result DriftReport) :=
  let url := if Contains upstreamURL "raw.githubusercontent.com" then upstreamURL else toRawURL upstreamURL in
  body ← call (Fetch url);
  match body with
  | Err e => mret (Err (Errorf_w ("fetch upstream " +:+ url) e))
  | Ok body =>
      now ← call DriftNow;
      let diffs := diff_of (parseUpstreamVersions body) <$> tools in
      mret (Ok (mkDriftReport url now (sort_slice (fun a b => String.ltb (df_Tool a) (df_Tool b)) diffs) (drift_truncate body (16 * 1024))))
  end.
End detect.

(** The last paragraph of [Render], and the exit code of civmctl drift. *)
Definition drift_verdict (r : DriftReport) : string :=
  if HasBehind r then "ATENCAO: pelo menos uma ferramenta esta atras do upstream."
  else if HasAhead r then "INFO: pelo menos uma ferramenta esta a frente do upstream (VM atualizada)."
  else "OK: todas as ferramentas estao em sync com upstream.".

Definition runDrift_code (r : result DriftReport) : Z :=
  match r with Err _ => 2 | Ok r => if HasBehind r then 1 else 0 end.

(** * internal/parity: the tools of the machine against the pins

    Each tool is asked for its version; what it answers is in sync, compatible, ahead or
    behind, and the exit code is 0 exactly when nothing is missing, unreadable or behind.
    Running a tool is an effect. *)

Local Open Scope string_scope.
Local Open Scope list_scope.
Local Open Scope Z_scope.

Inductive ParityStatus := ParityInSync | ParityCompat | ParityAhead | ParityBehind | ParityMissing | ParityUnknown.

#[global] Instance ParityStatus_eq_dec : EqDecision ParityStatus.
Proof. solve_decision. Defined.

Record ToolCheck := mkToolCheck {
  tc_Tool : string;
  tc_Command : string;
  tc_Expected : list string;
  tc_Actual : string;
  tc_Status : ParityStatus;
  tc_Error : string;
}.

Record ParityReport := mkParityReport { pr_Checks : list ToolCheck; pr_Exit : Z }.

Inductive parityE : Type -> Type := RunTool (name : string) (args : list string) : parityE (result string).

Definition commandForTool (tool : string) : string * list string :=
  if String.eqb tool "go" then ("go", ["version"])
  else if String.eqb tool "node" then ("node", ["--version"])
  else if String.eqb tool "python" then ("python3", ["--version"])
  else if String.eqb tool "docker" then ("docker", ["--version"])
  else if String.eqb tool "docker-compose" then ("docker", ["compose"; "version"])
  else (tool, ["--version"]).

(** [v?([0-9]+[.][0-9]+(?:[.][0-9]+)?)]; the group is the match without the v. *)
Definition versionRe : regex := RCat (maybe (lit "v")) semverRegex.

Definition parseVersion (out : string) : string :=
  match find (mkSearch false versionRe false) true out with
  | None => ""
  | Some (_, m, _) => TrimPrefix m "v"
  end.

Definition containsVersion (values : list string) (actual : string) : bool := existsb (fun v => String.eqb v actual) values.

(** [strconv.Atoi] with its error dropped: 0 for what is no number, the nearest bound for
    one out of range. *)
Definition atoi_value (s : string) : Z :=
  let clamp neg r := match parse_digits r with
                     | Some v => Z.max min_int64 (Z.min max_int64 (if neg : bool then - v else v))
                     | None => 0
                     end in
  match s with
  | String "-" r => clamp true r
  | String "+" r => clamp false r
  | _ => clamp false s
  end.

Definition semverParts (v : string) : list Z :=
  take 3 ((atoi_value <$> take 3 (Split "." v)) ++ [0; 0; 0]).

(** The first [parts] of the three numbers agree. *)
Definition matchesPrefixParts (actual : string) (expected : list string) (parts : nat) : bool :=
  existsb (fun value => bool_decide (take parts (semverParts actual) = take parts (semverParts value))) expected.

Definition compatibleVersion (tool actual : string) (expected : list string) : bool :=
  if String.eqb tool "python" then matchesPrefixParts actual expected 2
  else if String.eqb tool "git" then matchesPrefixParts actual expected 1
  else false.

Fixpoint compare_parts (aa bb : list Z) : Z :=
  match aa, bb with
  | a :: aa, b :: bb => if b <? a then 1 else if a <? b then -1 else compare_parts aa bb
  | _, _ => 0
  end.

Definition compareSemver (a b : string) : Z := compare_parts (semverParts a) (semverParts b).

Definition versionAhead (actual : string) (expected : list string) : bool :=
  match expected with
  | [] => false
  | _ => forallb (fun v => negb (compareSemver actual v <=? 0)) expected
  end.

(** The status of a tool that answered. *)
Definition parity_status (tool : ToolVersion) (actual : string) : ParityStatus :=
  if String.eqb actual "" then ParityUnknown
  else if containsVersion (tv_Versions tool) actual then ParityInSync
  else if compatibleVersion (tv_Name tool) actual (tv_Versions tool) then ParityCompat
  else if versionAhead actual (tv_Versions tool) then ParityAhead
  else ParityBehind.

Definition fails (s : ParityStatus) : bool := match s with ParityUnknown | ParityBehind | ParityMissing => true | _ => false end.

(** One turn of the loop; the exit code only ever becomes 1. *)
Definition check_tool (tool : ToolVersion) : prog parityE ToolCheck :=
  let '(name, args) := commandForTool (tv_Name tool) in
  let check := mkToolCheck (tv_Name tool) (TrimSpace (name +:+ " " +:+ Join args " ")) (tv_Versions tool) in
  out ← call (RunTool name args);
  mret (match out with
        | Err e => check "" ParityMissing (err_text e)
        | Ok out => let actual := parseVersion out in check actual (parity_status tool actual) ""
        end).

Fixpoint check_tools (report : ParityReport) (tools : list ToolVersion) : prog parityE ParityReport :=
  match tools with
  | [] => mret report
  | tool :: tools =>
      c ← check_tool tool;
      check_tools (mkParityReport (pr_Checks report ++ [c]) (if fails (tc_Status c) then 1 else pr_Exit report)) tools
  end.

Definition parity_Check (tools : list ToolVersion) : prog parityE ParityReport := check_tools (mkParityReport [] 0) tools.
