(* ===== verification/VersionSafety.v ===== *)
(** * internal/drift and internal/parity: properties

    Two packages compare versions, each in its own way.  Both ways are the numeric order on
    the versions their patterns find, so they agree; what the verdicts mean is stated with
    that order. *)

From S2P Require Import Prelude GoStrings Regex Prog Bootstrap Drift.

Local Open Scope string_scope.
Local Open Scope list_scope.
Local Open Scope Z_scope.

(** ** The order *)

(** The [i]-th part; a part that is not there is 0. *)
Definition part (l : list Z) (i : nat) : Z := nth i l 0.

(** The first part that differs is greater. *)
Definition newer (a b : list Z) : Prop := exists i, (forall j, (j < i)%nat -> part a j = part b j) /\ part b i < part a i.
Definition same_version (a b : list Z) : Prop := forall j, part a j = part b j.

Lemma newer_head a b : part b 0 < part a 0 -> newer a b.
Proof. exists 0%nat. split; [lia|done]. Qed.
Lemma newer_tail a b : part a 0 = part b 0 -> newer (tail a) (tail b) -> newer a b.
Proof.
  intros H0 (i & Hj & Hi). exists (S i). assert (forall l k, part l (S k) = part (tail l) k) as Ht by (intros [|x l] k; [by destruct k|done]).
  split; [|by rewrite !Ht]. intros [|j] Hlt; [done|]. rewrite !Ht. apply Hj. lia.
Qed.
Lemma same_tail a b : part a 0 = part b 0 -> same_version (tail a) (tail b) -> same_version a b.
Proof.
  intros H0 Ht [|j]; [done|]. assert (forall l k, part l (S k) = part (tail l) k) as Hs by (intros [|x l] k; [by destruct k|done]). rewrite !Hs. apply Ht.
Qed.

(** What a comparison may answer. *)
Definition compares (c : Z) (a b : list Z) : Prop := (c = 1 /\ newer a b) \/ (c = -1 /\ newer b a) \/ (c = 0 /\ same_version a b).

(** One turn of the loop. *)
Lemma compares_step c a b : compares c (tail a) (tail b) ->
  compares (if part a 0 =? part b 0 then c else if part a 0 <? part b 0 then -1 else 1) a b.
Proof.
  intros Hc. destruct (Z.eqb_spec (part a 0) (part b 0)) as [He|Hne].
  - destruct Hc as [[-> Hc]|[[-> Hc]|[-> Hc]]]; [left|right; left|right; right]; split; auto using newer_tail, same_tail.
  - destruct (Z.ltb_spec (part a 0) (part b 0)); [right; left|left]; (split; [done|apply newer_head; lia]).
Qed.

Lemma compareVersion_compares a b : compares (compareVersion a b) a b.
Proof.
  assert (forall b, compares (compareVersion [] b) [] b) as Hnil.
  { clear. induction b as [|y b IH]; [right; right; done|]. apply (compares_step _ [] (y :: b)) in IH.
    cbn in *. destruct b; exact IH. }
  revert b. induction a as [|x a IH]; intros b; [apply Hnil|]. destruct b as [|y b].
  - exact (compares_step _ (x :: a) [] (IH [])).
  - exact (compares_step _ (x :: a) (y :: b) (IH b)).
Qed.

(** ** Reading a version *)

Lemma digits_val_ge p acc v : 0 <= acc -> digits_val acc p = Some v -> acc <= v.
Proof.
  revert acc. induction p as [|c p IH]; intros acc Ha; cbn; [by intros [= ->]|].
  destruct (is_digit c) eqn:Ec; [|done]. intros H. unfold is_digit, in_range in Ec. bsplit.
  change (code "0"%char) with 48 in *. apply IH in H; lia.
Qed.

Lemma part_value_digits p acc v : 0 <= acc -> v <= max_int64 -> digits_val acc p = Some v -> part_value acc p = v.
Proof.
  revert acc. induction p as [|c p IH]; intros acc Ha Hv; cbn; [by intros [= ->]|].
  destruct (is_digit c) eqn:Ec; [|done]. intros H. unfold is_digit, in_range in Ec. bsplit. change (code "0"%char) with 48 in *.
  pose proof (digits_val_ge p (10 * acc + (code c - 48)) v ltac:(lia) H). unfold max_int64 in *.
  rewrite (int64_id (acc * 10)) by (unfold min_int64, max_int64; lia).
  replace (acc * 10 + (code c - 48)) with (10 * acc + (code c - 48)) by lia.
  rewrite int64_id by (unfold min_int64, max_int64; lia). apply IH; [lia|done|done].
Qed.

(** A part a pattern finds: a number that fits. *)
Definition number (p : string) : Prop := exists v, parse_digits p = Some v /\ v <= max_int64.

Lemma atoi_number p : number p -> atoi_value p = part_value 0 p.
Proof.
  intros (v & Hp & Hv). assert (digits_val 0 p = Some v) as Hd by (by destruct p).
  rewrite (part_value_digits p 0 v) by (done || lia). pose proof (digits_val_ge p 0 v ltac:(lia) Hd).
  assert (atoi_value p = Z.max min_int64 (Z.min max_int64 v)) as ->; [|unfold min_int64, max_int64 in *; lia].
  unfold atoi_value. destruct p as [|c p]; [done|]. assert (is_digit c = true) as Hc by (cbn in Hd; by destruct (is_digit c)).
  destruct c as [b0 b1 b2 b3 b4 b5 b6 b7]. destruct b0, b1, b2, b3, b4, b5, b6, b7; try done; by rewrite Hp.
Qed.

(** The three numbers compared one by one, and the loop up to the longer one. *)
Lemma compare_three a b : (length a <= 3)%nat -> (length b <= 3)%nat ->
  compare_parts (take 3 (a ++ [0; 0; 0])) (take 3 (b ++ [0; 0; 0])) = compareVersion a b.
Proof.
  intros Ha Hb.
  destruct a as [|a1 [|a2 [|a3 [|]]]]; cbn in Ha; try lia; destruct b as [|b1 [|b2 [|b3 [|]]]]; cbn in Hb; try lia; cbn -[Z.eqb Z.ltb];
    repeat match goal with
    | |- context [?x =? ?y] => destruct (Z.eqb_spec x y)
    | |- context [?x <? ?y] => destruct (Z.ltb_spec x y)
    end; try lia.
Qed.

Lemma plus_digits m : rmatch (plus_ digit) m -> exists v, parse_digits m = Some v.
Proof.
  intros Hm. assert (str_forallb is_digit m = true) as Hd by (by eapply only_chars_sound; [|exact Hm]).
  assert (m <> "") as Hne. { inversion Hm as [| |? ? s1 s2 H1 H2| | | |]; subst. inversion H1; subst. done. }
  unfold parse_digits. destruct m as [|c m]; [done|]. revert Hd. generalize (String c m) 0. clear. intros s.
  induction s as [|c s IH]; intros z; cbn; [eauto|]. intros [Hc Hs]%andb_true_iff. rewrite Hc. by apply IH.
Qed.

Lemma digits_no_dot m v : parse_digits m = Some v -> no_char "." m.
Proof.
  intros H. assert (str_forallb is_digit m = true) as Hd by (destruct m; [done|by eapply digits_val_all]). clear H.
  induction m as [|c m IH]; [done|]. cbn in Hd. bsplit. unfold no_char. cbn.
  rewrite bool_decide_eq_false_2 by (by intros <-). by apply IH.
Qed.

Definition fits (m : string) : Prop := Forall (fun p => forall v, parse_digits p = Some v -> v <= max_int64) (Split "." m).

Lemma cat_inv r1 r2 m : rmatch (RCat r1 r2) m -> exists m1 m2, m = m1 +:+ m2 /\ rmatch r1 m1 /\ rmatch r2 m2.
Proof. inversion 1; eauto. Qed.

Lemma dot_inv m : rmatch (lit ".") m -> m = ".".
Proof.
  inversion 1 as [|k c Hc| | | | |]; subst. unfold in_class, in_range in Hc. cbn [existsb] in Hc. rewrite orb_false_r in Hc. bsplit.
  assert (code c = code ".") as He by lia. unfold code in He. apply N2Z.inj in He.
  by rewrite <- (ascii_N_embedding c), He.
Qed.

Lemma semver_parts m : rmatch semverRegex m ->
  (2 <= length (Split "." m) <= 3)%nat /\ Forall (fun p => exists v, parse_digits p = Some v) (Split "." m).
Proof.
  intros (m12 & m3 & -> & (m1' & m2 & -> & (m1 & d & -> & H1 & ->%dot_inv)%cat_inv & H2)%cat_inv & H3)%cat_inv.
  apply plus_digits in H1 as [v1 H1], H2 as [v2 H2].
  assert (forall t, Split "." (m1 +:+ String "." t) = m1 :: Split "." t) as E1.
  { intros t. rewrite Split_concat, (Split_no_char "." m1); [done|by eapply digits_no_dot]. }
  assert (Split "." m2 = [m2]) as E2 by (by eapply Split_no_char, digits_no_dot).
  rewrite <- !app_assoc_str. cbn [String.app]. rewrite E1.
  inversion H3 as [| | |? ? ? Hd|? ? ? He| |]; subst.
  - apply cat_inv in Hd as (d & m4 & -> & ->%dot_inv & [v4 H4]%plus_digits). cbn [String.app]. rewrite Split_concat, E2, (Split_no_char "." m4) by (by eapply digits_no_dot). cbn. split; [lia|]. repeat constructor; eauto.
  - inversion He; subst. rewrite app_empty_r, E2. cbn. split; [lia|]. repeat constructor; eauto.
Qed.

Lemma semver_agree a b : rmatch semverRegex a -> rmatch semverRegex b -> fits a -> fits b ->
  compareSemver a b = compareVersion (splitVersion a) (splitVersion b).
Proof.
  assert (forall m, rmatch semverRegex m -> fits m -> semverParts m = take 3 (splitVersion m ++ [0; 0; 0]) /\ (length (splitVersion m) <= 3)%nat) as Hp.
  { intros m Hm Hf. apply semver_parts in Hm as [Hl Hn]. unfold semverParts, splitVersion, fits in *.
    rewrite (take_ge (Split "." m)) by lia. split; [|rewrite length_fmap; lia]. do 2 f_equal. apply list_fmap_ext. intros i p Hi.
    apply atoi_number. rewrite Forall_lookup in Hn, Hf. destruct (Hn i p Hi) as [v Hv]. exists v. split; [done|by eapply Hf]. }
  intros Ha Hb Hfa Hfb. destruct (Hp a Ha Hfa) as [Ea La], (Hp b Hb Hfb) as [Eb Lb]. unfold compareSemver. rewrite Ea, Eb. by apply compare_three.
Qed.

Lemma newer_asym a b : newer a b -> newer b a -> False.
Proof.
  intros (i & Hi & Hlt) (j & Hj & Hlt'). destruct (Nat.lt_trichotomy i j) as [H|[->|H]]; [|lia|].
  - specialize (Hj i H). lia.
  - specialize (Hi j H). lia.
Qed.
Lemma newer_not_same a b : newer a b -> same_version a b -> False.
Proof. intros (i & _ & Hlt) Hs. specialize (Hs i). lia. Qed.
Lemma newer_not_same' a b : newer a b -> same_version b a -> False.
Proof. intros (i & _ & Hlt) Hs. specialize (Hs i). lia. Qed.

Lemma compareVersion_newer a b : (compareVersion a b <=? 0) = false <-> newer a b.
Proof.
  destruct (compareVersion_compares a b) as [[-> H]|[[-> H]|[-> H]]]; cbn; split; try done; intros H'.
  - by destruct (newer_asym a b).
  - by destruct (newer_not_same a b).
Qed.

(** The two comparisons, on versions the patterns find whose parts fit 64 bits. *)
Definition version (m : string) : Prop := MatchString semverRegex m = true /\ fits m.

(** The two packages compare versions alike: on every pair of versions their pattern
    matches and whose parts fit 64 bits, [compareSemver] of parity, three numbers read by
    [Atoi], and [compareVersion] of drift, digit by digit over any number of parts, give the
    same answer, and it is the numeric order: 1 when the first part that differs is
    greater, -1 when it is less, 0 when all agree, a missing part counting as 0. *)
Theorem comparisons_agree a b : version a -> version b ->
  compareSemver a b = compareVersion (splitVersion a) (splitVersion b) /\
  (compareSemver a b = 1 <-> newer (splitVersion a) (splitVersion b)) /\
  (compareSemver a b = -1 <-> newer (splitVersion b) (splitVersion a)) /\
  (compareSemver a b = 0 <-> same_version (splitVersion a) (splitVersion b)).
Proof.
  intros [Ha Hfa] [Hb Hfb]. apply MatchString_correct in Ha, Hb.
  assert (compareSemver a b = compareVersion (splitVersion a) (splitVersion b)) as E by (by apply semver_agree). split; [done|]. rewrite E.
  destruct (compareVersion_compares (splitVersion a) (splitVersion b)) as [[-> H]|[[-> H]|[-> H]]]; split_and!; split; try done; intros H';
    exfalso; eauto using newer_asym, newer_not_same, newer_not_same'.
Qed.

Lemma comparisons_agree_witness : compareSemver "1.26.3" "1.7" = 1 /\ newer (splitVersion "1.26.3") (splitVersion "1.7").
Proof.
  assert (forall m, Forall (fun p => number p) (Split "." m) -> fits m) as Hf.
  { intros m Hm. eapply Forall_impl; [exact Hm|]. intros p (v & Hv & Hle) v' Hv'. congruence. }
  assert (version "1.26.3") as Ha.
  { split; [vm_compute; reflexivity|]. apply Hf. repeat constructor; eexists; (split; [vm_compute; reflexivity|vm_compute; discriminate]). }
  assert (version "1.7") as Hb.
  { split; [vm_compute; reflexivity|]. apply Hf. repeat constructor; eexists; (split; [vm_compute; reflexivity|vm_compute; discriminate]). }
  destruct (comparisons_agree "1.26.3" "1.7" Ha Hb) as (_ & H1 & _ & _).
  assert (compareSemver "1.26.3" "1.7" = 1) as E by (vm_compute; reflexivity). split; [exact E|apply H1; exact E].
Defined.

(** ** The report of drift *)

Lemma unique_from_sub seen l x : x ∈ unique_from seen l -> x ∈ l /\ x ∉ seen.
Proof.
  revert seen. induction l as [|y l IH]; intros seen; cbn; [by intros ?%not_elem_of_nil|]. destruct (decide (y ∈ seen)) as [Hy|Hy].
  - intros [H1 H2]%IH. split; [by apply list_elem_of_further|done].
  - intros [->|[H1 H2]%IH]%elem_of_cons; [split; [apply list_elem_of_here|done]|].
    split; [by apply list_elem_of_further|]. by intros ?; apply H2, list_elem_of_further.
Qed.
Lemma unique_from_NoDup seen l : NoDup (unique_from seen l).
Proof.
  revert seen. induction l as [|y l IH]; intros seen; cbn; [constructor|]. destruct (decide _); [done|]. constructor; [|done].
  intros [_ H]%unique_from_sub. apply H, list_elem_of_here.
Qed.
Lemma uniqueStrings_nonnil x l : uniqueStrings (x :: l) <> [].
Proof. unfold uniqueStrings. cbn. by rewrite decide_False by (by apply not_elem_of_nil). Qed.

(** What the parser may find for a tool. *)
Definition found_ok (l : list string) : Prop := l <> [] /\ NoDup l /\ Forall (rmatch semverRegex) l.

Lemma uniqueStrings_ok x l : Forall (rmatch semverRegex) (x :: l) -> found_ok (uniqueStrings (x :: l)).
Proof.
  intros Hl. split_and!; [apply uniqueStrings_nonnil|apply unique_from_NoDup|]. apply Forall_forall. intros y [Hy _]%unique_from_sub.
  by eapply Forall_forall in Hy; [|exact Hl].
Qed.

Lemma parseUpstreamVersions_ok body : map_Forall (fun _ l => found_ok l) (parseUpstreamVersions body).
Proof.
  unfold parseUpstreamVersions. generalize linePatterns, ["go"; "node"; "python"]. intros pats secs.
  assert (map_Forall (fun _ l => found_ok l) (foldl (first_pass body) ∅ pats)) as H1.
  { assert (map_Forall (fun _ l => found_ok l) (∅ : gmap string (list string))) as H0 by done. revert H0. generalize (∅ : gmap string (list string)).
    induction pats as [|p pats IH]; intros m Hm; cbn [foldl]; [done|]. apply IH. unfold first_pass. destruct (String.eqb _ _); [done|].
    pose proof (FindAllString_sound semverRegex (FindString (snd p) body)) as Hs. destruct (FindAllString _ _); [done|].
    apply map_Forall_insert_2; [by apply uniqueStrings_ok|done]. }
  revert H1. generalize (foldl (first_pass body) ∅ pats). induction secs as [|sec secs IH]; intros m Hm; cbn [foldl]; [done|].
  apply IH. unfold second_pass. destruct (parseSectionVersions body sec) as [|x extra] eqn:E; [done|].
  apply map_Forall_insert_2; [|done].
  assert (Forall (rmatch semverRegex) (x :: extra)) as Hx.
  { rewrite <- E. unfold parseSectionVersions. destruct (find _ true body) as [[[? ?] rest]|]; [|done]. apply FindAllString_sound. }
  destruct (m !! sec) as [l|] eqn:El; cbn [default]; [|by apply uniqueStrings_ok].
  destruct (Hm sec l El) as (Hne & _ & Hl). destruct l as [|y l]; [done|]. cbn. apply uniqueStrings_ok. by apply (Forall_app_2 _ (y :: l)).
Qed.

Lemma isSemverAhead_newer pinned l : isSemverAhead pinned l = true <-> Forall (fun u => newer (splitVersion pinned) (splitVersion u)) l.
Proof.
  unfold isSemverAhead. assert (splitVersion pinned <> []) as Hne.
  { unfold splitVersion. pose proof (Split_nonnil "." pinned). by destruct (Split "." pinned). }
  destruct (splitVersion pinned) as [|x xs] eqn:E; [done|]. rewrite <- E. clear.
  induction l as [|u l IH]; cbn [forallb]; [by split|]. rewrite andb_true_iff, IH, Forall_cons, negb_true_iff, compareVersion_newer. done.
Qed.

(** The four verdicts, with the numeric order. *)
Definition right_diff (versions : list string) (t : ToolVersion) (d : Diff) : Prop :=
  df_Tool d = tv_Name t /\ df_Pinned d = Preferred t /\
  (df_Status d = StatusUpstreamMissing <-> versions = []) /\
  (df_Status d = StatusInSync <-> Preferred t ∈ versions) /\
  (df_Status d = StatusAhead <->
     versions <> [] /\ (Preferred t ∉ versions) /\ Forall (fun u => newer (splitVersion (Preferred t)) (splitVersion u)) versions) /\
  (df_Status d = StatusBehind <->
     (Preferred t ∉ versions) /\ Exists (fun u => ~ newer (splitVersion (Preferred t)) (splitVersion u)) versions).

Lemma diff_of_right found t : right_diff (default [] (found !! normalizeName (tv_Name t))) t (diff_of found t).
Proof.
  unfold right_diff, diff_of. set (vs := default [] _). clearbody vs. destruct vs as [|v vs]; cbn [df_Tool df_Pinned df_Status].
  - split_and!; try done; (split; [done|]); [by intros ?%not_elem_of_nil|by intros [? _]|by intros [_ ?%Exists_nil]].
  - destruct (decide (Preferred t ∈ v :: vs)) as [Hin|Hin]; [rewrite bool_decide_eq_true_2 by done|rewrite bool_decide_eq_false_2 by done].
    + split_and!; try done; (split; [done|]); [by intros (_ & ? & _)|by intros [? _]].
    + pose proof (isSemverAhead_newer (Preferred t) (v :: vs)) as Ha. destruct (isSemverAhead _ _).
      * split_and!; try done; [by split; [intros _; split_and!; [done..|by apply Ha]|]|].
        split; [done|]. intros [_ He]. apply Exists_exists in He as (u & Hu & []). by apply (proj1 (Forall_forall _ _) (proj1 Ha eq_refl) u).
      * split_and!; try done; [by split; [|intros (_ & _ & H%Ha)]|]. split; [|done]. intros _. split; [done|].
        apply not_Forall_Exists; [|by intros H%Ha]. intros u. destruct (compareVersion (splitVersion (Preferred t)) (splitVersion u) <=? 0) eqn:E;
          [right|left]; rewrite <- compareVersion_newer; congruence.
Qed.

(** The page that was fetched. *)
Definition drift_spec : spec driftE (option string) := {|
  allowed B e s := True;
  answers B e s := match e in driftE B return B -> option string -> Prop with
                   | Fetch _ => fun b s' => s' = match b with Ok body => Some body | Err _ => s end
                   | DriftNow => fun _ s' => s' = s
                   end;
|}.

(** The report of drift: one entry for each pinned tool, sorted by name; what the page
    is said to hold are distinct texts in the language of the version pattern; and a pin is
    missing upstream exactly when none was found, in sync exactly when it is one of them,
    ahead exactly when it is none of them and newer than all, behind exactly when it is none
    of them and not newer than all, in the numeric order.  The exit code is 2 exactly when
    the page could not be fetched, and 1 exactly when a pin is behind. *)
Theorem drift_report_is_right `{SortSlice} tools url :
  wpp drift_spec (drift_Detect tools url)
    (fun r s =>
       (runDrift_code r = 2 <-> s = None) /\
       match r with
       | Err _ => s = None
       | Ok r => exists body, s = Some body /\
           dr_Diffs r ≡ₚ diff_of (parseUpstreamVersions body) <$> tools /\
           StronglySorted (fun a b => String.ltb (df_Tool b) (df_Tool a) = false) (dr_Diffs r) /\
           map_Forall (fun _ l => found_ok l) (parseUpstreamVersions body) /\
           Forall (fun t => right_diff (default [] (parseUpstreamVersions body !! normalizeName (tv_Name t))) t (diff_of (parseUpstreamVersions body) t)) tools /\
           (runDrift_code (Ok r) = 1 <-> exists t, t ∈ tools /\ df_Status (diff_of (parseUpstreamVersions body) t) = StatusBehind)
       end) None.
Proof.
  unfold drift_Detect. apply wpp_bind, wpp_call; [done|]. intros [body|e] s ->; [|by apply wpp_ret].
  apply wpp_bind, wpp_call; [done|]. intros now s ->. apply wpp_ret.
  split; [cbn [runDrift_code]; by destruct (HasBehind _)|]. exists body. cbn [dr_Diffs].
  pose proof (sort_slice_perm Diff (fun a b => String.ltb (df_Tool a) (df_Tool b)) (diff_of (parseUpstreamVersions body) <$> tools)) as Hperm.
  split_and!; [done|done| |apply parseUpstreamVersions_ok| |].
  - apply sort_slice_sorted; [by intros ? ? ?; apply ltb_asym|]. intros ? ? ?. apply ltb_trans_false.
  - apply Forall_forall. intros t _. apply diff_of_right.
  - unfold runDrift_code, HasBehind. cbn [dr_Diffs].
    destruct (existsb _ _) eqn:E.
    + split; [intros _|done]. apply existsb_exists in E as (d & Hd%list_elem_of_In & Hb%bool_decide_eq_true).
      rewrite Hperm in Hd. apply list_elem_of_fmap in Hd as (t & -> & Ht). eauto.
    + split; [done|]. intros (t & Ht & Hb). exfalso. apply not_true_iff_false in E. apply E, existsb_exists.
      exists (diff_of (parseUpstreamVersions body) t). split; [|by apply bool_decide_eq_true]. apply list_elem_of_In. rewrite Hperm.
      by apply list_elem_of_fmap_2.
Qed.

(** A page in which no version is found, an error page or a new layout, leaves every pin
    without a counterpart; the verdict is that all the tools are in sync, with exit code 0. *)
Lemma unreadable_page_is_in_sync :
  let diffs := diff_of (parseUpstreamVersions "<html>moved</html>") <$> is_Tools Ubuntu2404 in
  let r := mkDriftReport "" 0 diffs "" in
  Forall (fun d => df_Status d = StatusUpstreamMissing) diffs /\
  drift_verdict r = "OK: todas as ferramentas estao em sync com upstream." /\ runDrift_code (Ok r) = 0.
Proof. vm_compute. split; [repeat constructor|done]. Qed.

(** The same version written with one part more is reported as behind, and makes the
    command fail. *)
Lemma equal_version_is_behind :
  let d := diff_of {[ "jq" := ["1.7.0"] ]} (mkTool "jq" ["1.7"] "") in
  same_version (splitVersion "1.7") (splitVersion "1.7.0") /\ df_Status d = StatusBehind /\ runDrift_code (Ok (mkDriftReport "" 0 [d] "")) = 1.
Proof. split; [by intros [|[|[|[|j]]]]|by vm_compute]. Qed.

(** ** The report of parity *)

Definition parity_spec : spec parityE unit := {| allowed B e s := True; answers B e s b s' := True |}.

Definition check_ok (t : ToolVersion) (c : ToolCheck) : Prop :=
  tc_Tool c = tv_Name t /\ tc_Expected c = tv_Versions t /\
  (tc_Status c = ParityMissing \/ tc_Status c = parity_status t (tc_Actual c)).

(** One check for each tool, in order; the exit code is 1 exactly when one of them fails. *)
Lemma parity_exit tools :
  wpp parity_spec (parity_Check tools)
    (fun r _ => Forall2 check_ok tools (pr_Checks r) /\
                pr_Exit r = if existsb (fun c => fails (tc_Status c)) (pr_Checks r) then 1 else 0) tt.
Proof.
  unfold parity_Check. assert (forall done_ todo report, Forall2 check_ok done_ (pr_Checks report) ->
    pr_Exit report = (if existsb (fun c => fails (tc_Status c)) (pr_Checks report) then 1 else 0) ->
    wpp parity_spec (check_tools report todo)
      (fun r _ => Forall2 check_ok (done_ ++ todo) (pr_Checks r) /\
                  pr_Exit r = if existsb (fun c => fails (tc_Status c)) (pr_Checks r) then 1 else 0) tt) as H; [|by apply (H [])].
  intros done_ todo. revert done_. induction todo as [|t todo IH]; intros done_ report Hd He; cbn [check_tools].
  - apply wpp_ret. by rewrite app_nil_r.
  - apply wpp_bind. apply (wpp_mono _ _ (fun c _ => check_ok t c)).
    + unfold check_tool. destruct (commandForTool (tv_Name t)) as [name args]. apply wpp_bind, wpp_call; [done|].
      intros [out|e] [] _; apply wpp_ret; split_and!; cbn; auto.
    + intros c [] Hc. replace (done_ ++ t :: todo) with ((done_ ++ [t]) ++ todo) by (by rewrite <- app_assoc). apply IH; cbn.
      * by apply Forall2_app; [|constructor].
      * rewrite existsb_app, He. cbn. rewrite orb_false_r. by destruct (existsb _ _), (fails (tc_Status c)).
Qed.
