(* ===== verification/CiGuard.v ===== *)
(** * internal/ciguard: isolation rules for compose files and workflows

    [Scan] lints the compose files and workflows of a repository line by line.  A waiver, a
    comment that names a rule, suppresses this rule on the next significant line.  Waivers
    are kept in a map by the index of that line; a waiver that suppressed nothing is
    reported.  Finding, reading and walking are injected. *)

From S2P Require Import Prelude GoStrings GoQuote Regex Prog.

Local Open Scope string_scope.
Local Open Scope list_scope.
Local Open Scope Z_scope.

Inductive GuardSeverity := SeverityError | SeverityWarn.

Definition ModeReport : string := "report".
Definition ModeEnforce : string := "enforce".

Definition RuleContainerName : string := "R1-container-name".
Definition RuleStaticHostPort : string := "R2-static-host-port".
Definition RuleMissingProject : string := "R3-missing-project-name".
Definition RuleUnlockedHeavy : string := "R4-unlocked-docker-heavy".
Definition RuleOrphanWaiver : string := "orphan-waiver".

Definition remediationContainerName : string := "remova container_name: nomes fixos impedem co-residencia entre runners".
Definition remediationStaticHostPort : string := "use ${CIVM_PORT_BASE}+N ou porta ephemeral em vez de host-port estatica".
Definition remediationMissingProject : string := "passe -p/--project-name ou exporte COMPOSE_PROJECT_NAME no escopo do step".
Definition remediationUnlockedHeavy : string :=
  "envolva o mesmo comando em civmctl admit --weight heavy --exclusive docker --exec; flock repo-local nao difere a cleanup".
Definition remediationOrphanWaiver : string := "remova o waiver: a regra citada nao casou nenhum finding na proxima linha".

Definition waiverPrefix : string := "civm:ci-guard-allow".

Record GuardFinding := mkGuardFinding {
  gf_File : string;
  gf_Line : Z;
  gf_Rule : string;
  gf_Severity : GuardSeverity;
  gf_Message : string;
  gf_Remediation : string;
}.

Record GuardResult := mkGuardResult {
  gr_Findings : list GuardFinding;
  gr_Violations : Z;
  gr_Mode : string;
}.

Record GuardOptions := mkGuardOptions { go_RepoRoot : string; go_Mode : string }.

(** One call of the walk function: the path, its error, and the entry, if there is one:
    whether it is a directory, and its name. *)
Record guard_visit := mkGuardVisit {
  gv_path : string;
  gv_err : err_ret;
  gv_entry : option (bool * string);
}.

Inductive guardE : Type -> Type :=
  | GuardGlob (pattern : string) : guardE (result (list string))
  | GuardRead (path : string) : guardE (result string)
  | GuardWalk (root : string) : guardE (list guard_visit * err_ret).

Definition guard_applyDefaults (opts : GuardOptions) : GuardOptions :=
  mkGuardOptions (if String.eqb (TrimSpace (go_RepoRoot opts)) "" then "." else go_RepoRoot opts)
    (if String.eqb (go_Mode opts) "" then ModeReport else go_Mode opts).

Definition guard_DefaultOptions (repoRoot : string) : GuardOptions :=
  mkGuardOptions (if String.eqb (TrimSpace repoRoot) "" then "." else repoRoot) ModeReport.

(** ** The patterns *)

Definition space_class : class := [("009", "010"); ("012", "013"); (" ", " ")]%char.
Definition any_class : class := [("000", "009"); ("011", "255")]%char.

Declare Scope pat_scope.
Delimit Scope pat_scope with pat.
Infix "⋅" := PCat (at level 40, left associativity) : pat_scope.
Infix "∥" := PAlt (at level 50, left associativity) : pat_scope.

Fixpoint text (s : string) : pat :=
  match s with
  | EmptyString => PEps
  | String c EmptyString => PCls [(c, c)]
  | String c s => PCat (PCls [(c, c)]) (text s)
  end.
Definition one_or_more (k : class) : pat := PCat (PCls k) (PStar (PCls k)).
Definition any_of (k : class) : pat := PStar (PCls k).
Definition perhaps (p : pat) : pat := PAlt p PEps.

Section patterns.
Local Open Scope pat_scope.

(** [^\s*container_name\s*:] *)
Definition containerNameRe : pat := PBegin ⋅ any_of space_class ⋅ text "container_name" ⋅ any_of space_class ⋅ text ":".
(** [^\s*-\s*], an optional quote, [(\d+):\d+(?:/\w+)?], an optional quote, [\s*$] *)
Definition quote_class : class := [("034", "034"); ("039", "039")]%char.
Definition staticHostPortRe : pat :=
  PBegin ⋅ any_of space_class ⋅ text "-" ⋅ any_of space_class ⋅ perhaps (PCls quote_class) ⋅
  (one_or_more digit ⋅ text ":" ⋅ one_or_more digit ⋅ perhaps (text "/" ⋅ one_or_more word_class)) ⋅
  perhaps (PCls quote_class) ⋅ any_of space_class ⋅ PEnd.
(** [docker[\s-]compose\b|docker-compose\b] *)
Definition composeInvokeRe : pat :=
  (text "docker" ⋅ PCls (space_class ++ chars "-") ⋅ text "compose" ⋅ PWord) ∥ (text "docker-compose" ⋅ PWord).
(** [docker[\s-]compose\b.*\bup\b|--build\b|\bmake\s+up\b|\bdevctl\b.*\bci\s+up\b] *)
Definition dockerHeavyUpRe : pat :=
  (text "docker" ⋅ PCls (space_class ++ chars "-") ⋅ text "compose" ⋅ PWord ⋅ any_of any_class ⋅ PWord ⋅ text "up" ⋅ PWord) ∥
  (text "--build" ⋅ PWord) ∥
  (PWord ⋅ text "make" ⋅ one_or_more space_class ⋅ text "up" ⋅ PWord) ∥
  (PWord ⋅ text "devctl" ⋅ PWord ⋅ any_of any_class ⋅ PWord ⋅ text "ci" ⋅ one_or_more space_class ⋅ text "up" ⋅ PWord).
(** [-p\b|--project-name\b|COMPOSE_PROJECT_NAME] *)
Definition projectNameRe : pat := (text "-p" ⋅ PWord) ∥ (text "--project-name" ⋅ PWord) ∥ text "COMPOSE_PROJECT_NAME".
(** [civmctl\s+lock\b] *)
Definition legacyLockWrapRe : pat := text "civmctl" ⋅ one_or_more space_class ⋅ text "lock" ⋅ PWord.
(** [^\s*(?:acquire|release)\b] *)
Definition legacyLockSubcmdRe : pat := PBegin ⋅ any_of space_class ⋅ (text "acquire" ∥ text "release") ⋅ PWord.
(** [civmctl\s+admit\b] *)
Definition admitWrapRe : pat := text "civmctl" ⋅ one_or_more space_class ⋅ text "admit" ⋅ PWord.
(** [--weight(?:=|\s+)heavy(?:\s|$)] *)
Definition heavyWeightRe : pat := text "--weight" ⋅ (text "=" ∥ one_or_more space_class) ⋅ text "heavy" ⋅ (PCls space_class ∥ PEnd).
(** [--exclusive(?:=|\s+)docker(?:\s|$)] *)
Definition dockerExclusiveRe : pat := text "--exclusive" ⋅ (text "=" ∥ one_or_more space_class) ⋅ text "docker" ⋅ (PCls space_class ∥ PEnd).
(** [--exec\b] *)
Definition execWrapRe : pat := text "--exec" ⋅ PWord.
(** [(?:^|\s)--(?:\s|$)] *)
Definition payloadSeparatorRe : pat := (PBegin ∥ PCls space_class) ⋅ text "--" ⋅ (PCls space_class ∥ PEnd).
(** [&&|\|\||;|\|] *)
Definition shellControlRe : pat := text "&&" ∥ text "||" ∥ text ";" ∥ text "|".
End patterns.

(** ** Rules on one line *)

(** Options and payload of the wrapper.  The argument text is matched on its own, so its
    beginning is the beginning of a text. *)
Definition wrapperPayload (line : string) (wrapper : pat) : option (string * string) :=
  match FindStringIndex wrapper line with
  | None => None
  | Some (_, args) => FindStringIndex payloadSeparatorRe args
  end.

Definition payloadStartsWithDockerHeavy (payload : string) : bool :=
  match FindStringIndex dockerHeavyUpRe payload with
  | None => false
  | Some (heavy, _) =>
      match FindStringIndex shellControlRe payload with
      | None => true
      | Some (control, _) => len heavy <? len control
      end
  end.

Definition legacyLockProtectsDockerHeavy (line : string) : bool :=
  match wrapperPayload line legacyLockWrapRe with
  | None => false
  | Some (options, payload) =>
      if Matches legacyLockSubcmdRe options then false
      else Matches execWrapRe options && payloadStartsWithDockerHeavy payload
  end.

Definition admitProtectsDockerHeavy (line : string) : bool :=
  match wrapperPayload line admitWrapRe with
  | None => false
  | Some (options, payload) =>
      Matches heavyWeightRe options && Matches dockerExclusiveRe options && Matches execWrapRe options && payloadStartsWithDockerHeavy payload
  end.

Definition protectsDockerHeavy (line : string) : bool :=
  if legacyLockProtectsDockerHeavy line then true else admitProtectsDockerHeavy line.

(** ** Waivers *)

(** A waiver is shared by reference, but each is in the map at most once. *)
Record waiver := mkWaiver { wv_rule : string; wv_matched : bool }.

Fixpoint after_char (c : ascii) (s : string) : option string :=
  match s with EmptyString => None | String d s => if Ascii.eqb c d then Some s else after_char c s end.

Definition parseWaiver (line : string) : option waiver :=
  match after_char "#" line with
  | None => None
  | Some comment =>
      let comment := TrimSpace comment in
      if negb (HasPrefix comment waiverPrefix) then None
      else match Fields comment with _ :: rule :: _ => Some (mkWaiver rule false) | _ => None end
  end.

(** Is the line neither blank nor a comment? *)
Definition significant (line : string) : bool :=
  let trimmed := TrimSpace line in negb (String.eqb trimmed "" || HasPrefix trimmed "#").

(** The index of the first significant line among [rest], the lines from [i] on. *)
Fixpoint significant_from (i : Z) (rest : list string) : Z :=
  match rest with
  | [] => -1
  | line :: rest => if significant line then i else significant_from (i + 1) rest
  end.

Definition nextSignificantLine (lines : list string) (idx : nat) : Z := significant_from (Z.of_nat idx + 1) (drop (S idx) lines).

Abbreviation waivers := (gmap Z waiver).

Definition appendIfActive (dst : list GuardFinding) (ws : waivers) (finding : GuardFinding) (idx : Z) (matched : bool) : list GuardFinding * waivers :=
  if negb matched then (dst, ws)
  else match ws !! idx with
       | Some w => if String.eqb (wv_rule w) (gf_Rule finding) then (dst, <[idx := mkWaiver (wv_rule w) true]> ws) else (dst ++ [finding], ws)
       | None => (dst ++ [finding], ws)
       end.

(** ** The scan of one file *)

(** A rule: its finding, without place, and when a line breaks it. *)
Record rule := mkRule {
  ru_Rule : string;
  ru_Severity : GuardSeverity;
  ru_Message : string;
  ru_Remediation : string;
  ru_matched : string -> bool;
}.

Definition finding_of (path : string) (idx : nat) (r : rule) : GuardFinding :=
  mkGuardFinding path (Z.of_nat idx + 1) (ru_Rule r) (ru_Severity r) (ru_Message r) (ru_Remediation r).

(** The body of the loop over the lines, with the two rules of the kind of file. *)
Definition scan_line (rules : list rule) (path : string) (lines : list string) (st : list GuardFinding * waivers) (idx : nat) (raw : string) : list GuardFinding * waivers :=
  match parseWaiver raw with
  | Some w =>
      let target := nextSignificantLine lines idx in
      (fst st, <[(if 0 <=? target then target else -1) := w]> (snd st))
  | None => foldl (fun st r => appendIfActive (fst st) (snd st) (finding_of path idx r) (Z.of_nat idx) (ru_matched r raw)) st rules
  end.

Fixpoint scan_lines (rules : list rule) (path : string) (lines : list string) (st : list GuardFinding * waivers) (idx : nat) (rest : list string) : list GuardFinding * waivers :=
  match rest with
  | [] => st
  | raw :: rest => scan_lines rules path lines (scan_line rules path lines st idx raw) (S idx) rest
  end.

Definition composeRules : list rule :=
  [mkRule RuleContainerName SeverityError "container_name fixo impede co-residencia entre runners" remediationContainerName (Matches containerNameRe);
   mkRule RuleStaticHostPort SeverityError "host-port estatica colide entre projetos concorrentes" remediationStaticHostPort (Matches staticHostPortRe)].

Definition fileHasProjectScope (lines : list string) : bool := existsb (fun raw => Contains raw "COMPOSE_PROJECT_NAME") lines.

Definition missingProject (hasProjectScope : bool) (raw : string) : bool :=
  Matches composeInvokeRe raw && negb (Matches projectNameRe raw) && negb hasProjectScope.
Definition unlockedHeavy (raw : string) : bool := Matches dockerHeavyUpRe raw && negb (protectsDockerHeavy raw).

Definition workflowRules (lines : list string) : list rule :=
  let hasProjectScope := fileHasProjectScope lines in
  [mkRule RuleMissingProject SeverityError "docker compose sem project-name colide COMPOSE_PROJECT_NAME entre runners" remediationMissingProject
     (missingProject hasProjectScope);
   mkRule RuleUnlockedHeavy SeverityWarn "passo docker-heavy sem admissao civm pode colidir no daemon" remediationUnlockedHeavy unlockedHeavy].

(** Ranging over the map of the waivers, in an order Go does not fix. *)
Class RangeWaivers := {
  range_waivers : waivers -> list (Z * waiver);
  range_waivers_perm : forall ws, range_waivers ws ≡ₚ map_to_list ws;
}.

Section scan.
(** The printable characters, for [%q]. *)
Context (IsPrint : Z -> bool).

Definition orphan (path : string) (lines : list string) (target : Z) (w : waiver) : GuardFinding :=
  mkGuardFinding path (if (0 <=? target) && (target <? Z.of_nat (length lines)) then target + 1 else 0) RuleOrphanWaiver SeverityWarn
    ("waiver para " +:+ Quote IsPrint (wv_rule w) +:+ " nao casou nenhum finding") remediationOrphanWaiver.

Context `{RangeWaivers, SortSlice, SortStable}.

Definition orphanWaiverFindings (path : string) (lines : list string) (ws : waivers) : list GuardFinding :=
  (fun '(target, w) => orphan path lines target w) <$> List.filter (fun '(_, w) => negb (wv_matched w)) (range_waivers ws).

Definition scan_text (rules : list rule) (path : string) (lines : list string) : list GuardFinding :=
  let '(findings, ws) := scan_lines rules path lines ([], ∅) 0 lines in findings ++ orphanWaiverFindings path lines ws.

Definition readLines (path : string) : prog guardE (result (list string)) :=
  data ← call (GuardRead path);
  mret match data with Err e => Err (Errorf_w ("read " +:+ path) e) | Ok data => Ok (Split "010" data) end.

Definition scanComposeFile (path : string) : prog guardE (result (list GuardFinding)) :=
  lines ← readLines path;
  mret match lines with Err e => Err e | Ok lines => Ok (scan_text composeRules path lines) end.

Definition scanWorkflowFile (path : string) : prog guardE (result (list GuardFinding)) :=
  lines ← readLines path;
  mret match lines with Err e => Err e | Ok lines => Ok (scan_text (workflowRules lines) path lines) end.

(** ** Locating the files *)

Definition isComposeFile (name : string) : bool :=
  HasPrefix name "docker-compose" && (HasSuffix name ".yml" || HasSuffix name ".yaml").

(** The closure [add]: [seen] holds exactly the paths of the list. *)
Definition add_path (paths : list string) (p : string) : list string := if decide (p ∈ paths) then paths else paths ++ [p].

Fixpoint glob_all (patterns : list string) (paths : list string) : prog guardE (result (list string)) :=
  match patterns with
  | [] => mret (Ok paths)
  | pattern :: patterns =>
      matches ← call (GuardGlob pattern);
      match matches with
      | Err e => mret (Err e)
      | Ok matches => glob_all patterns (foldl add_path paths (sort_slice String.ltb matches))
      end
  end.

Definition add_visit (paths : list string) (v : guard_visit) : list string :=
  match gv_err v, gv_entry v with
  | None, Some (false, name) => if isComposeFile name then add_path paths (gv_path v) else paths
  | _, _ => paths
  end.

Definition compose_patterns (root : string) : list string :=
  [PathJoin root "docker-compose*.yml"; PathJoin root "docker-compose*.yaml";
   PathJoinAll [root; "infra"; "docker-compose*.yml"]; PathJoinAll [root; "infra"; "docker-compose*.yaml"]].

Definition composePaths (opts : GuardOptions) : prog guardE (result (list string)) :=
  paths ← glob_all (compose_patterns (go_RepoRoot opts)) [];
  match paths with
  | Err e => mret (Err e)
  | Ok paths =>
      '(visits, walkErr) ← call (GuardWalk (PathJoin (go_RepoRoot opts) "infra"));
      let paths := foldl add_visit paths visits in
      mret match walkErr with
           | Some e => if negb (errors_Is e ErrNotExist) then Err e else Ok (sort_slice String.ltb paths)
           | None => Ok (sort_slice String.ltb paths)
           end
  end.

Definition workflow_patterns (root : string) : list string :=
  [PathJoinAll [root; ".github"; "workflows"; "*.yml"]; PathJoinAll [root; ".github"; "workflows"; "*.yaml"]].

Fixpoint glob_append (patterns : list string) (paths : list string) : prog guardE (result (list string)) :=
  match patterns with
  | [] => mret (Ok paths)
  | pattern :: patterns =>
      matches ← call (GuardGlob pattern);
      match matches with
      | Err e => mret (Err e)
      | Ok matches => glob_append patterns (paths ++ matches)
      end
  end.

Definition workflowPaths (opts : GuardOptions) : prog guardE (result (list string)) :=
  paths ← glob_append (workflow_patterns (go_RepoRoot opts)) [];
  mret match paths with Err e => Err e | Ok paths => Ok (sort_slice String.ltb paths) end.

(** ** Scan *)

Definition countViolations (findings : list GuardFinding) : Z :=
  Z.of_nat (length (List.filter (fun f => match gf_Severity f with SeverityError => true | SeverityWarn => false end) findings)).

Definition finding_lt (a b : GuardFinding) : bool :=
  if String.eqb (gf_File a) (gf_File b) then gf_Line a <? gf_Line b else String.ltb (gf_File a) (gf_File b).

Fixpoint scan_all (what : string) (scanFile : string -> prog guardE (result (list GuardFinding))) (paths : list string) (findings : list GuardFinding) :
    prog guardE (list GuardFinding * err_ret) :=
  match paths with
  | [] => mret (findings, None)
  | path :: paths =>
      r ← scanFile path;
      match r with
      | Err e => mret (findings, Some (Errorf_w ("scan " +:+ what +:+ " " +:+ path) e))
      | Ok l => scan_all what scanFile paths (findings ++ l)
      end
  end.

Definition guard_Scan (opts : GuardOptions) : prog guardE (GuardResult * err_ret) :=
  let opts := guard_applyDefaults opts in
  let partial findings := mkGuardResult findings 0 (go_Mode opts) in
  composeFiles ← composePaths opts;
  match composeFiles with
  | Err e => mret (partial [], Some (Errorf_w "locate compose files" e))
  | Ok composeFiles =>
      workflowFiles ← workflowPaths opts;
      match workflowFiles with
      | Err e => mret (partial [], Some (Errorf_w "locate workflow files" e))
      | Ok workflowFiles =>
          '(findings, e) ← scan_all "compose" scanComposeFile composeFiles [];
          match e with
          | Some e => mret (partial findings, Some e)
          | None =>
              '(findings, e) ← scan_all "workflow" scanWorkflowFile workflowFiles findings;
              match e with
              | Some e => mret (partial findings, Some e)
              | None =>
                  let findings := sort_stable finding_lt findings in
                  mret (mkGuardResult findings (countViolations findings) (go_Mode opts), None)
              end
          end
      end
  end.

(** [runCIGuard] after the flags; [jsonErr] is the error of the JSON output. *)
Definition runCIGuard (repoRoot mode : string) (jsonErr : err_ret) : prog guardE Z :=
  if negb (String.eqb mode ModeReport) && negb (String.eqb mode ModeEnforce) then mret 64
  else
    '(result, err) ← guard_Scan (mkGuardOptions (go_RepoRoot (guard_DefaultOptions repoRoot)) mode);
    mret match err with
         | Some _ => 1
         | None =>
             match jsonErr with
             | Some _ => 2
             | None => if String.eqb (gr_Mode result) ModeEnforce && (0 <? gr_Violations result) then 1 else 0
             end
         end.
End scan.

Example guard_patterns_ex :
  Matches containerNameRe "  container_name : db" = true /\ Matches containerNameRe "# container_name: db" = false /\
  Matches staticHostPortRe ("  - " +:+ String "034" ("8080:80/tcp" +:+ String "034" " ")) = true /\ Matches staticHostPortRe "  - ${P}:80" = false /\
  Matches dockerHeavyUpRe "make up-local-smoke" = true /\ Matches dockerHeavyUpRe "make upstream" = false /\
  Matches dockerHeavyUpRe "go run ./devctl ci up core" = true /\ Matches composeInvokeRe "docker-compose -f x pull" = true /\
  protectsDockerHeavy "civmctl admit --weight=heavy --exclusive docker --exec -- test && make up" = false.
Proof. split_and!; vm_compute; reflexivity. Qed.

(** * The report of ci-guard is exact

    The scan keeps its waivers in a map that is written while the lines go by and ranged
    over in an order Go does not fix.  Here the report is given without the map: a line
    breaks a rule, the last waiver that points at the line excuses one rule, and a waiver
    in force that excuses nothing is an orphan.  The two agree, whatever the order. *)

(** ** What a file should report *)

Section reference.
Context (rules : list rule) (lines : list string).

(** The waiver on line [j]: the line it points at and its rule. *)
Definition waiver_at (j : nat) : option (Z * string) :=
  raw ← lines !! j; w ← parseWaiver raw; Some (nextSignificantLine lines j, wv_rule w).

Definition points_at (t : Z) (j : nat) : option string :=
  match waiver_at j with Some (t', r) => if t' =? t then Some r else None | None => None end.

(** The waiver in force for line [t] after the first [n] lines: the last one. *)
Definition waiver_upto (n : nat) (t : Z) : option string := last (omap (points_at t) (seq 0 n)).
Definition waiver_for (t : Z) : option string := waiver_upto (length lines) t.

(** Line [i] breaks the rule. *)
Definition breaks (i : nat) (r : rule) : bool := match lines !! i with Some raw => ru_matched r raw | None => false end.

(** Line [i] carries a waiver itself, be it behind something else. *)
Definition carries_waiver (i : nat) : bool :=
  match lines !! i with Some raw => match parseWaiver raw with Some _ => true | None => false end | None => false end.

(** The scan looks at the rules only on lines without a waiver of their own. *)
Definition checked (i : nat) (r : rule) : bool := breaks i r && negb (carries_waiver i).

Definition excused (i : nat) (r : rule) : bool := bool_decide (waiver_for (Z.of_nat i) = Some (ru_Rule r)).

(** The waiver of [name] for line [t] excuses something. *)
Definition used (t : Z) (name : string) : bool :=
  (0 <=? t) && existsb (fun r => String.eqb name (ru_Rule r) && checked (Z.to_nat t) r) rules.

Definition reported (path : string) (i : nat) : list GuardFinding :=
  finding_of path i <$> List.filter (fun r => checked i r && negb (excused i r)) rules.

Definition orphan_at (IsPrint : Z -> bool) (path : string) (t : Z) : list GuardFinding :=
  match waiver_for t with
  | Some name => if used t name then [] else [orphan IsPrint path lines t (mkWaiver name false)]
  | None => []
  end.

Definition targets : list Z := -1 :: (Z.of_nat <$> seq 0 (length lines)).

Definition audit (IsPrint : Z -> bool) (path : string) : list GuardFinding :=
  (seq 0 (length lines) ≫= reported path) ++ (targets ≫= orphan_at IsPrint path).
End reference.

(** ** Where waivers point *)

Lemma significant_from_range i rest : significant_from i rest = -1 \/ i <= significant_from i rest < i + Z.of_nat (length rest).
Proof.
  revert i. induction rest as [|l rest IH]; intros i; cbn [significant_from length]; [by left|].
  destruct (significant l); [right; lia|]. destruct (IH (i + 1)) as [->|?]; [by left|right; lia].
Qed.

Lemma next_range lines j : (j < length lines)%nat ->
  nextSignificantLine lines j = -1 \/ Z.of_nat j < nextSignificantLine lines j < Z.of_nat (length lines).
Proof.
  intros Hj. unfold nextSignificantLine. pose proof (significant_from_range (Z.of_nat j + 1) (drop (S j) lines)) as H.
  rewrite length_drop in H. lia.
Qed.

Lemma waiver_at_lt lines j p : waiver_at lines j = Some p -> (j < length lines)%nat.
Proof. unfold waiver_at. destruct (lines !! j) eqn:E; [|done]. intros _. by eapply lookup_lt_Some. Qed.

Lemma waiver_at_range lines j t name : waiver_at lines j = Some (t, name) -> t = -1 \/ Z.of_nat j < t < Z.of_nat (length lines).
Proof.
  intros H. pose proof (next_range lines j (waiver_at_lt _ _ _ H)) as Hn. unfold waiver_at in H.
  destruct (lines !! j) as [raw|]; [|done]. cbn in H. destruct (parseWaiver raw); [|done]. by injection H as <- _.
Qed.

Lemma waiver_upto_S lines n t :
  waiver_upto lines (S n) t = match points_at lines t n with Some r => Some r | None => waiver_upto lines n t end.
Proof.
  unfold waiver_upto. rewrite seq_S, omap_app. cbn [Nat.add]. change (omap (points_at lines t) [n]) with (match points_at lines t n with Some r => [r] | None => [] end).
  destruct (points_at lines t n); [by rewrite last_snoc|by rewrite app_nil_r].
Qed.

(** A waiver points forward. *)
Lemma points_forward lines t n name : points_at lines t n = Some name -> t = -1 \/ Z.of_nat n < t < Z.of_nat (length lines).
Proof.
  unfold points_at. destruct (waiver_at lines n) as [[t' r]|] eqn:E; [|done]. destruct (Z.eqb_spec t' t) as [->|]; [|done].
  intros _. by apply waiver_at_range in E.
Qed.

Lemma waiver_settled lines n : waiver_upto lines n (Z.of_nat n) = waiver_for lines (Z.of_nat n) \/ (length lines < n)%nat.
Proof.
  destruct (decide (length lines < n)%nat) as [|Hn]; [by right|left]. unfold waiver_for.
  assert (forall k, waiver_upto lines (n + k) (Z.of_nat n) = waiver_upto lines n (Z.of_nat n)) as H.
  { induction k as [|k IH]; [by rewrite Nat.add_0_r|]. rewrite Nat.add_succ_r, waiver_upto_S, IH.
    destruct (points_at lines (Z.of_nat n) (n + k)) eqn:E; [|done]. apply points_forward in E. lia. }
  rewrite <- (H (length lines - n)%nat). f_equal. lia.
Qed.

Lemma waiver_for_targets lines t name : waiver_for lines t = Some name -> t ∈ targets lines.
Proof.
  unfold waiver_for, targets. assert (forall n, waiver_upto lines n t = Some name -> t = -1 \/ 0 <= t < Z.of_nat (length lines)) as H.
  { induction n as [|n IH]; [done|]. rewrite waiver_upto_S. destruct (points_at lines t n) eqn:E; [|done]. apply points_forward in E. lia. }
  intros [->|Ht]%H; [by left|right]. apply list_elem_of_fmap. exists (Z.to_nat t). rewrite elem_of_seq. lia.
Qed.

(** ** The loop over the lines *)

(** The map after the first [n] lines. *)
Definition waivers_are (rules : list rule) (lines : list string) (n : nat) (ws : waivers) : Prop :=
  forall t, ws !! t = (fun name => mkWaiver name ((t <? Z.of_nat n) && used rules lines t name)) <$> waiver_upto lines n t.

(** One line that is no waiver. *)
Lemma fold_rules path idx raw rs F ws :
  let st := foldl (fun st r => appendIfActive (fst st) (snd st) (finding_of path idx r) (Z.of_nat idx) (ru_matched r raw)) (F, ws) rs in
  fst st = F ++ (finding_of path idx <$> List.filter (fun r => ru_matched r raw && negb (bool_decide (wv_rule <$> ws !! Z.of_nat idx = Some (ru_Rule r)))) rs) /\
  (forall t, t <> Z.of_nat idx -> snd st !! t = ws !! t) /\
  snd st !! Z.of_nat idx = (fun w => mkWaiver (wv_rule w) (wv_matched w || existsb (fun r => String.eqb (wv_rule w) (ru_Rule r) && ru_matched r raw) rs)) <$> ws !! Z.of_nat idx.
Proof.
  cbv zeta. revert F ws. induction rs as [|r rs IH]; intros F ws.
  - cbn. rewrite app_nil_r. split_and!; [done..|]. destruct (ws !! Z.of_nat idx) as [[n m]|] eqn:E; cbn; [by rewrite orb_false_r|done].
  - cbn [foldl fst snd List.filter existsb]. unfold appendIfActive at 2 4 6. destruct (ru_matched r raw) eqn:Em; cbn [negb andb].
    + destruct (ws !! Z.of_nat idx) as [w|] eqn:Ew; cbn [fmap option_fmap option_map].
      * change (gf_Rule (finding_of path idx r)) with (ru_Rule r). destruct (String.eqb_spec (wv_rule w) (ru_Rule r)) as [Er|Er].
        -- destruct (IH F (<[Z.of_nat idx := mkWaiver (wv_rule w) true]> ws)) as (H1 & H2 & H3).
           rewrite lookup_insert_eq in H1, H3. cbn [fmap option_fmap option_map wv_rule wv_matched orb] in H1, H3.
           rewrite bool_decide_true by congruence. cbn [negb]. split_and!; [exact H1| |rewrite H3; do 2 f_equal; by rewrite orb_true_r].
           intros t Ht. rewrite H2 by done. by rewrite lookup_insert_ne.
        -- destruct (IH (F ++ [finding_of path idx r]) ws) as (H1 & H2 & H3). rewrite Ew in H1, H3.
           rewrite bool_decide_false by congruence. cbn [negb orb]. split_and!; [rewrite H1, <- app_assoc; done|done|done].
      * destruct (IH (F ++ [finding_of path idx r]) ws) as (H1 & H2 & H3). rewrite Ew in H1, H3.
        rewrite bool_decide_false by done. cbn [negb]. split_and!; [rewrite H1, <- app_assoc; done|done|done].
    + destruct (IH F ws) as (H1 & H2 & H3). split_and!; [done|done|]. rewrite H3. destruct (ws !! Z.of_nat idx) as [w|]; [|done].
      cbn. by rewrite andb_false_r.
Qed.

Lemma checked_waiver lines n raw w r : lines !! n = Some raw -> parseWaiver raw = Some w -> checked lines n r = false.
Proof. intros H1 H2. unfold checked, carries_waiver. by rewrite H1, H2, andb_false_r. Qed.
Lemma checked_plain lines n raw r : lines !! n = Some raw -> parseWaiver raw = None -> checked lines n r = ru_matched r raw.
Proof. intros H1 H2. unfold checked, breaks, carries_waiver. by rewrite H1, H2, andb_true_r. Qed.

Lemma used_nat rules lines n name : used rules lines (Z.of_nat n) name = existsb (fun r => String.eqb name (ru_Rule r) && checked lines n r) rules.
Proof. unfold used. rewrite Nat2Z.id. destruct (Z.leb_spec 0 (Z.of_nat n)); [done|lia]. Qed.

Lemma points_waiver lines n raw w t : lines !! n = Some raw -> parseWaiver raw = Some w ->
  points_at lines t n = if nextSignificantLine lines n =? t then Some (wv_rule w) else None.
Proof. intros H1 H2. unfold points_at, waiver_at. rewrite H1. cbn. by rewrite H2. Qed.
Lemma points_plain lines n raw t : lines !! n = Some raw -> parseWaiver raw = None -> points_at lines t n = None.
Proof. intros H1 H2. unfold points_at, waiver_at. rewrite H1. cbn. by rewrite H2. Qed.

Lemma parseWaiver_unmatched raw w : parseWaiver raw = Some w -> w = mkWaiver (wv_rule w) false.
Proof.
  unfold parseWaiver. destruct (after_char "#" raw); [|done]. destruct (negb _); [done|].
  destruct (Fields _) as [|? [|? ?]]; try done. by intros [= <-].
Qed.

Lemma existsb_false {A} (f : A -> bool) l : (forall x, f x = false) -> existsb f l = false.
Proof. intros H. induction l as [|x l IH]; cbn; [done|]. by rewrite H. Qed.

Lemma existsb_same {A} (f g : A -> bool) l : (forall x, f x = g x) -> existsb f l = existsb g l.
Proof. intros H. induction l as [|x l IH]; cbn; [done|]. by rewrite H, IH. Qed.

(** A waiver is entered where it points. *)
Lemma waiver_step rules lines n ws raw w : lines !! n = Some raw -> parseWaiver raw = Some w -> waivers_are rules lines n ws ->
  waivers_are rules lines (S n) (<[nextSignificantLine lines n := w]> ws).
Proof.
  intros Hl Hw Hws t. rewrite waiver_upto_S, (points_waiver _ _ _ _ _ Hl Hw).
  pose proof (next_range lines n (lookup_lt_Some _ _ _ Hl)) as Hr. destruct (Z.eqb_spec (nextSignificantLine lines n) t) as [Et|Hne].
  - rewrite Et, lookup_insert_eq. cbn [fmap option_fmap option_map]. rewrite (parseWaiver_unmatched _ _ Hw) at 1. do 2 f_equal. symmetry.
    apply andb_false_iff. destruct Hr as [Hr|Hr]; [right|left; apply Z.ltb_ge; lia]. unfold used. subst t. by rewrite Hr.
  - rewrite lookup_insert_ne by done. rewrite Hws. destruct (waiver_upto lines n t) as [name|]; [|done]. cbn. do 2 f_equal.
    destruct (Z.eq_dec t (Z.of_nat n)) as [->|Hn]; [|f_equal; by destruct (Z.ltb_spec t (Z.of_nat n)), (Z.ltb_spec t (Z.of_nat (S n))); try lia].
    rewrite used_nat, (existsb_false _ rules); [by rewrite !andb_false_r|]. intros r. by rewrite (checked_waiver _ _ _ _ _ Hl Hw), andb_false_r.
Qed.

(** Another line marks the waiver that is in force for it. *)
Lemma plain_step rules lines n (ws ws' : waivers) raw : lines !! n = Some raw -> parseWaiver raw = None -> waivers_are rules lines n ws ->
  (forall t, t <> Z.of_nat n -> ws' !! t = ws !! t) ->
  ws' !! Z.of_nat n = (fun w => mkWaiver (wv_rule w) (wv_matched w || existsb (fun r => String.eqb (wv_rule w) (ru_Rule r) && ru_matched r raw) rules)) <$> ws !! Z.of_nat n ->
  waivers_are rules lines (S n) ws'.
Proof.
  intros Hl Hw Hws Ho Hn t. rewrite waiver_upto_S, (points_plain _ _ _ _ Hl Hw). destruct (Z.eq_dec t (Z.of_nat n)) as [->|Hne].
  - rewrite Hn, Hws. destruct (waiver_upto lines n (Z.of_nat n)) as [name|]; [|done]. cbn [fmap option_fmap option_map wv_rule wv_matched].
    rewrite Z.ltb_irrefl. cbn [andb orb]. do 2 f_equal. destruct (Z.ltb_spec (Z.of_nat n) (Z.of_nat (S n))); [|lia]. rewrite used_nat. cbn [andb].
    apply existsb_same. intros r. by rewrite (checked_plain _ _ _ _ Hl Hw).
  - rewrite Ho, Hws by done. destruct (waiver_upto lines n t) as [name|]; [|done]. cbn. do 2 f_equal.
    f_equal. by destruct (Z.ltb_spec t (Z.of_nat n)), (Z.ltb_spec t (Z.of_nat (S n))); try lia.
Qed.

Lemma scan_line_step rules path lines n F ws raw : lines !! n = Some raw -> waivers_are rules lines n ws ->
  exists ws', scan_line rules path lines (F, ws) n raw = (F ++ reported rules lines path n, ws') /\ waivers_are rules lines (S n) ws'.
Proof.
  intros Hl Hws. pose proof (lookup_lt_Some _ _ _ Hl) as Hlen. unfold scan_line. destruct (parseWaiver raw) as [w|] eqn:Hw.
  - eexists. split; [|by eapply waiver_step].
    assert ((if 0 <=? nextSignificantLine lines n then nextSignificantLine lines n else -1) = nextSignificantLine lines n) as ->.
    { destruct (next_range lines n Hlen) as [->|]; [done|]. by destruct (Z.leb_spec 0 (nextSignificantLine lines n)); [|lia]. }
    cbn [fst snd]. unfold reported. rewrite (proj2 (List.filter_ext_in_iff _ (fun _ => false) _)).
    + assert (forall l : list rule, List.filter (fun _ => false) l = []) as -> by (intros l; by induction l). by rewrite app_nil_r.
    + intros r _. by rewrite (checked_waiver _ _ _ _ _ Hl Hw).
  - destruct (fold_rules path n raw rules F ws) as (H1 & H2 & H3). destruct (foldl _ (F, ws) rules) as [F' ws'] eqn:E. cbn [fst snd] in *.
    exists ws'. split; [|by eapply plain_step]. rewrite H1. unfold reported. do 3 f_equal. apply List.filter_ext. intros r.
    rewrite (checked_plain _ _ _ _ Hl Hw). do 2 f_equal. unfold excused. apply bool_decide_ext. rewrite Hws.
    destruct (waiver_settled lines n) as [->|]; [|lia]. by destruct (waiver_for lines (Z.of_nat n)).
Qed.

Lemma scan_lines_spec rules path lines k n F ws : (n + k = length lines)%nat -> waivers_are rules lines n ws ->
  exists ws', scan_lines rules path lines (F, ws) n (drop n lines) = (F ++ (seq n k ≫= reported rules lines path), ws') /\
    waivers_are rules lines (length lines) ws'.
Proof.
  revert n F ws. induction k as [|k IH]; intros n F ws Hn Hws.
  - rewrite drop_ge by lia. cbn. rewrite app_nil_r. exists ws. split; [done|]. by replace (length lines) with n by lia.
  - destruct (lookup_lt_is_Some_2 lines n) as [raw Hl]; [lia|]. rewrite (drop_S _ _ _ Hl). cbn [scan_lines].
    destruct (scan_line_step rules path lines n F ws raw Hl Hws) as (ws1 & -> & Hws1).
    destruct (IH (S n) (F ++ reported rules lines path n) ws1) as (ws' & -> & Hws'); [lia|done|]. exists ws'. split; [|done].
    cbn [seq]. rewrite bind_cons, app_assoc. done.
Qed.

Lemma waivers_none rules lines : waivers_are rules lines 0 ∅.
Proof. intros t. by rewrite lookup_empty. Qed.

(** ** One file *)

Lemma targets_NoDup lines : NoDup (targets lines).
Proof.
  unfold targets. constructor; [|apply (NoDup_fmap_2 Z.of_nat), NoDup_seq].
  intros (x & Hx & _)%list_elem_of_fmap. lia.
Qed.

Section file.
Context (IsPrint : Z -> bool) `{RangeWaivers}.

Lemma orphans_perm rules path lines ws : waivers_are rules lines (length lines) ws ->
  orphanWaiverFindings IsPrint path lines ws ≡ₚ (targets lines ≫= orphan_at rules lines IsPrint path).
Proof.
  intros Hws. unfold orphanWaiverFindings.
  set (g := fun t => match waiver_for lines t with Some name => if used rules lines t name then [] else [(t, mkWaiver name false)] | None => [] end).
  assert (List.filter (fun '(_, w) => negb (wv_matched w)) (range_waivers ws) ≡ₚ (targets lines ≫= g)) as ->.
  { apply NoDup_Permutation.
    - apply NoDup_ListNoDup, List.NoDup_filter, NoDup_ListNoDup. rewrite range_waivers_perm. apply NoDup_map_to_list.
    - apply NoDup_bind; [| |apply targets_NoDup].
      + intros t t' [a b] _ _. unfold g. intros H1 H2. repeat case_match; set_solver.
      + intros t _. unfold g. repeat case_match; try constructor; [set_solver|constructor].
    - intros [t w]. rewrite list_elem_of_In, List.filter_In, <- list_elem_of_In, range_waivers_perm, elem_of_map_to_list, Hws, list_elem_of_bind. fold (waiver_for lines t). split.
      + intros [Hl Hm]. destruct (waiver_for lines t) as [name|] eqn:Ew; [|done]. cbn in Hl. injection Hl as <-. cbn in Hm.
        exists t. split; [|by eapply waiver_for_targets]. unfold g. rewrite Ew. pose proof (waiver_for_targets _ _ _ Ew) as Ht.
        assert ((t <? Z.of_nat (length lines)) = true) as Hlt.
        { apply Z.ltb_lt. unfold targets in Ht. apply elem_of_cons in Ht as [->|(i & -> & Hi%elem_of_seq)%list_elem_of_fmap]; lia. }
        rewrite Hlt in *. cbn in *. destruct (used rules lines t name); [done|]. set_solver.
      + intros (t' & Hg & _). unfold g in Hg. destruct (waiver_for lines t') as [name|] eqn:Ew; [|set_solver].
        destruct (used rules lines t' name) eqn:Eu; [set_solver|]. apply list_elem_of_singleton in Hg. injection Hg as -> ->. rewrite Ew. cbn.
        by rewrite Eu, andb_false_r. }
  apply reflexive_eq. generalize (targets lines). intros l. induction l as [|t l IH]; [done|].
  rewrite !bind_cons, fmap_app, IH. f_equal. unfold orphan_at, g. destruct (waiver_for lines t); [|done]. by destruct (used rules lines t s).
Qed.

Lemma scan_text_spec rules path lines : exists orphans,
  scan_text IsPrint rules path lines = (seq 0 (length lines) ≫= reported rules lines path) ++ orphans /\ orphans ≡ₚ (targets lines ≫= orphan_at rules lines IsPrint path).
Proof.
  unfold scan_text. destruct (scan_lines_spec rules path lines (length lines) 0 [] ∅) as (ws & E & Hws); [done|apply waivers_none|].
  rewrite drop_0 in E. rewrite E. eexists. split; [done|]. by apply orphans_perm.
Qed.
End file.

(** ** The order of the report *)

Definition place (f : GuardFinding) : string * Z := (gf_File f, gf_Line f).

Lemma finding_lt_asym a b : finding_lt a b = true -> finding_lt b a = false.
Proof.
  unfold finding_lt. destruct (String.eqb_spec (gf_File a) (gf_File b)) as [->|Hne].
  - rewrite String.eqb_refl. rewrite Z.ltb_lt, Z.ltb_ge. lia.
  - destruct (String.eqb_spec (gf_File b) (gf_File a)); [congruence|]. apply ltb_asym.
Qed.

Lemma finding_lt_trans a b c : finding_lt a b = true -> finding_lt b c = true -> finding_lt a c = true.
Proof.
  unfold finding_lt. destruct (String.eqb_spec (gf_File a) (gf_File b)) as [Eab|Hab], (String.eqb_spec (gf_File b) (gf_File c)) as [Ebc|Hbc];
    destruct (String.eqb_spec (gf_File a) (gf_File c)) as [Eac|Hac]; intros H1 H2; rewrite ?Z.ltb_lt in *; try congruence; try lia.
  - rewrite Eac in H1. by rewrite (ltb_asym _ _ H1) in H2.
  - by eapply ltb_trans.
Qed.

Lemma finding_lt_total a b : place a <> place b -> finding_lt a b = true \/ finding_lt b a = true.
Proof.
  unfold finding_lt, place. intros Hne. destruct (String.eqb_spec (gf_File a) (gf_File b)) as [E|E].
  - rewrite E, String.eqb_refl. assert (gf_Line a <> gf_Line b) by congruence. destruct (Z.ltb_spec (gf_Line a) (gf_Line b)); [by left|right; apply Z.ltb_lt; lia].
  - destruct (String.eqb_spec (gf_File b) (gf_File a)); [congruence|].
    destruct (String.ltb (gf_File a) (gf_File b)) eqn:E1; [by left|]. destruct (String.ltb (gf_File b) (gf_File a)) eqn:E2; [by right|].
    by destruct E; apply ltb_total.
Qed.

Lemma finding_lt_false_trans a b c : finding_lt b a = false -> finding_lt c b = false -> finding_lt c a = false.
Proof.
  intros Hba Hcb. destruct (finding_lt c a) eqn:Hca; [|done]. exfalso.
  destruct (decide (place a = place b)) as [E|Hne].
  - unfold finding_lt in *. injection E as E1 E2. rewrite E1, E2 in *. congruence.
  - destruct (finding_lt_total a b Hne) as [Hab|Hab]; [|congruence]. pose proof (finding_lt_trans _ _ _ Hca Hab). congruence.
Qed.

Lemma sorted_findings `{SortStable} l : sort_stable finding_lt l = insertion_sort finding_lt l.
Proof. apply sort_stable_eq; intros; [by apply finding_lt_asym|by eapply finding_lt_false_trans]. Qed.

(** Findings at different places can be inserted in any order. *)
Lemma insert_lt_comm x y l : finding_lt x y = true -> insert_by finding_lt x (insert_by finding_lt y l) = insert_by finding_lt y (insert_by finding_lt x l).
Proof.
  intros Hxy. induction l as [|z l IH]; cbn [insert_by].
  - by rewrite Hxy, (finding_lt_asym _ _ Hxy).
  - destruct (finding_lt z x) eqn:Ezx.
    + rewrite (finding_lt_trans _ _ _ Ezx Hxy). cbn [insert_by]. by rewrite Ezx, (finding_lt_trans _ _ _ Ezx Hxy), IH.
    + cbn [insert_by]. rewrite Hxy. destruct (finding_lt z y) eqn:Ezy; cbn [insert_by]; [by rewrite Ezx|by rewrite (finding_lt_asym _ _ Hxy)].
Qed.

Lemma insert_comm x y l : place x <> place y -> insert_by finding_lt x (insert_by finding_lt y l) = insert_by finding_lt y (insert_by finding_lt x l).
Proof. intros [H|H]%finding_lt_total; [by apply insert_lt_comm|symmetry; by apply insert_lt_comm]. Qed.

Lemma insert_all_perm l1 l2 s : l1 ≡ₚ l2 -> NoDup (place <$> l1) -> foldr (insert_by finding_lt) s l1 = foldr (insert_by finding_lt) s l2.
Proof.
  induction 1 as [|x l1 l2 _ IH|x y l|l1 l2 l3 H12 IH12 _ IH23]; intros Hnd; cbn; [done| | |].
  - apply NoDup_cons in Hnd as [_ Hnd]. by rewrite IH.
  - cbn in Hnd. apply insert_comm. apply NoDup_cons in Hnd as [Hnd _]. intros E. apply Hnd. rewrite E. apply list_elem_of_here.
  - rewrite IH12 by done. apply IH23. by rewrite <- H12.
Qed.

Lemma insertion_sort_app (l1 l2 : list GuardFinding) : insertion_sort finding_lt (l1 ++ l2) = foldr (insert_by finding_lt) (insertion_sort finding_lt l2) l1.
Proof. unfold insertion_sort. apply foldr_app. Qed.

Lemma orphan_places IsPrint rules lines path : NoDup (place <$> (targets lines ≫= orphan_at rules lines IsPrint path)).
Proof.
  assert (forall l, NoDup l -> (forall t, t ∈ l -> t ∈ targets lines) -> NoDup (place <$> (l ≫= orphan_at rules lines IsPrint path))) as H;
    [|apply H; [apply targets_NoDup|done]].
  induction l as [|t l IH]; intros Hnd Ht; [constructor|]. apply NoDup_cons in Hnd as [Hni Hnd].
  assert (NoDup (place <$> (l ≫= orphan_at rules lines IsPrint path))) as IH' by (apply IH; [done|]; intros; apply Ht; by right).
  assert (forall t, t ∈ targets lines -> forall f, f ∈ orphan_at rules lines IsPrint path t -> gf_Line f = t + 1) as Hline.
  { clear. intros t Ht f. unfold orphan_at. destruct (waiver_for lines t); [|by intros ?%not_elem_of_nil]. destruct (used rules lines t s); [by intros ?%not_elem_of_nil|].
    intros ->%list_elem_of_singleton. cbn. unfold targets in Ht. apply elem_of_cons in Ht as [->|(i & -> & Hi%elem_of_seq)%list_elem_of_fmap]; [done|].
    destruct (Z.leb_spec 0 (Z.of_nat i)), (Z.ltb_spec (Z.of_nat i) (Z.of_nat (length lines))); cbn; lia. }
  rewrite bind_cons, fmap_app. apply NoDup_app. split_and!; [| |done].
  - unfold orphan_at. destruct (waiver_for lines t); [|constructor]. destruct (used rules lines t s); [constructor|]. apply NoDup_singleton.
  - intros p (f & -> & Hf)%list_elem_of_fmap (f' & Ep & Hf')%list_elem_of_fmap. apply list_elem_of_bind in Hf' as (t' & Hf' & Hin).
    apply Hline in Hf; [|apply Ht; by left]. apply Hline in Hf'; [|apply Ht; by right]. unfold place in Ep. injection Ep as _ Ep.
    assert (t = t') as -> by lia. done.
Qed.

Lemma sort_scans IsPrint `{RangeWaivers} (files : list (string * list string * list rule)) rest rest' :
  insertion_sort finding_lt rest = insertion_sort finding_lt rest' ->
  insertion_sort finding_lt ((files ≫= fun '(path, lines, rules) => scan_text IsPrint rules path lines) ++ rest) =
  insertion_sort finding_lt ((files ≫= fun '(path, lines, rules) => audit rules lines IsPrint path) ++ rest').
Proof.
  intros Hr. induction files as [|[[path lines] rules] files IH]; [done|]. rewrite !bind_cons.
  destruct (scan_text_spec IsPrint rules path lines) as (o & -> & Ho). unfold audit. rewrite <- !app_assoc, !(insertion_sort_app (seq _ _ ≫= _)). f_equal.
  rewrite !(insertion_sort_app o), !(insertion_sort_app (targets lines ≫= _)), IH. apply insert_all_perm; [done|].
  rewrite Ho. apply orphan_places.
Qed.

(** ** The whole scan *)

(** A repository as the injected functions show it. *)
Record repo := mkRepo {
  rp_glob : string -> result (list string);
  rp_walk : string -> list guard_visit * err_ret;
  rp_read : string -> result string;
}.

Definition repo_spec (rp : repo) : spec guardE unit := {|
  allowed B e s := True;
  answers B e s b s' :=
    match e in guardE B return B -> Prop with
    | GuardGlob pattern => fun b => b = rp_glob rp pattern
    | GuardWalk root => fun b => b = rp_walk rp root
    | GuardRead path => fun b => b = rp_read rp path
    end b |}.

Definition lines_in (rp : repo) (path : string) : list string := match rp_read rp path with Ok data => Split "010" data | Err _ => [] end.
Definition readable (rp : repo) (path : string) : Prop := exists data, rp_read rp path = Ok data.

Definition globbed (rp : repo) (patterns : list string) (path : string) : Prop :=
  exists pattern ms, pattern ∈ patterns /\ rp_glob rp pattern = Ok ms /\ path ∈ ms.
Definition walked (visits : list guard_visit) (path : string) : Prop :=
  exists v name, v ∈ visits /\ gv_err v = None /\ gv_entry v = Some (false, name) /\ isComposeFile name = true /\ gv_path v = path.

Definition is_compose (rp : repo) (root path : string) : Prop :=
  globbed rp (compose_patterns root) path \/ walked (fst (rp_walk rp (PathJoin root "infra"))) path.
Definition is_workflow (rp : repo) (root path : string) : Prop := globbed rp (workflow_patterns root) path.

(** Something could not be listed or read. *)
Definition blind (rp : repo) (root : string) : Prop :=
  (exists pattern e, pattern ∈ compose_patterns root ++ workflow_patterns root /\ rp_glob rp pattern = Err e) \/
  (exists e, snd (rp_walk rp (PathJoin root "infra")) = Some e /\ errors_Is e ErrNotExist = false) \/
  (exists path e, (is_compose rp root path \/ is_workflow rp root path) /\ rp_read rp path = Err e).

Section repository.
Context (IsPrint : Z -> bool) `{RangeWaivers, SortSlice, SortStable} (rp : repo).

Local Abbreviation sees m Q := (wpp (repo_spec rp) m Q tt).

Lemma sees_call {B} (e : guardE B) (Q : B -> unit -> Prop) :
  (forall b, answers (repo_spec rp) e tt b tt -> Q b tt) -> sees (call e) Q.
Proof. intros HQ. apply wpp_call; [done|]. intros b []. apply HQ. Qed.

Lemma add_path_elem paths p x : x ∈ add_path paths p <-> x ∈ paths \/ x = p.
Proof. unfold add_path. destruct (decide (p ∈ paths)); [|rewrite elem_of_app, list_elem_of_singleton; done]. split; [by left|]. by intros [?| ->]. Qed.
Lemma add_path_NoDup paths p : NoDup paths -> NoDup (add_path paths p).
Proof.
  intros Hn. unfold add_path. destruct (decide (p ∈ paths)) as [|Hp]; [done|]. apply NoDup_app. split_and!; [done| |apply NoDup_singleton].
  intros x Hx ->%list_elem_of_singleton. done.
Qed.
Lemma add_paths l : forall paths, (NoDup paths -> NoDup (foldl add_path paths l)) /\ forall x, x ∈ foldl add_path paths l <-> x ∈ paths \/ x ∈ l.
Proof.
  induction l as [|p l IH]; intros paths; cbn.
  - split; [done|]. intros x. split; [by left|]. by intros [?|?%not_elem_of_nil].
  - destruct (IH (add_path paths p)) as [Hn He]. split; [intros Hd; by apply Hn, add_path_NoDup|]. intros x. rewrite He, add_path_elem, elem_of_cons. tauto.
Qed.

Lemma globbed_cons p ms patterns x : Ok ms = rp_glob rp p -> globbed rp (p :: patterns) x <-> x ∈ ms \/ globbed rp patterns x.
Proof.
  intros Hp. unfold globbed. setoid_rewrite elem_of_cons. split.
  - intros (q & ms' & [->|Hq] & Hg & Hx); [left; congruence|right; by exists q, ms'].
  - intros [Hx|(q & ms' & Hq & Hg & Hx)]; [exists p, ms; split_and!; [by left|done..]|exists q, ms'; split_and!; [by right|done..]].
Qed.

(** The patterns could be listed. *)
Definition globs (patterns : list string) : Prop := forall p e, p ∈ patterns -> rp_glob rp p <> Err e.

Lemma globs_nil : globs [].
Proof. by intros p e ?%not_elem_of_nil. Qed.
Lemma globs_cons p ms patterns : Ok ms = rp_glob rp p -> globs patterns -> globs (p :: patterns).
Proof. intros Hp Hps q e [->|Hq]%elem_of_cons; [congruence|by apply Hps]. Qed.

Lemma sees_glob_all patterns : forall paths,
  sees (glob_all patterns paths) (fun r _ => match r with
    | Err e => exists pattern, pattern ∈ patterns /\ rp_glob rp pattern = Err e
    | Ok l => globs patterns /\ (NoDup paths -> NoDup l) /\ forall x, x ∈ l <-> x ∈ paths \/ globbed rp patterns x
    end).
Proof.
  induction patterns as [|p patterns IH]; intros paths; cbn [glob_all].
  - apply wpp_ret. split_and!; [apply globs_nil|done|]. intros x. split; [by left|]. intros [?|(p & ms & ?%not_elem_of_nil & _)]; done.
  - apply wpp_bind, sees_call. intros b Hb. destruct b as [ms|e]; [|apply wpp_ret; exists p; split; [by left|by rewrite <- Hb]].
    destruct (add_paths (sort_slice String.ltb ms) paths) as [Hn He]. eapply wpp_mono; [apply IH|]. intros [l|e] _.
    + intros (Hg & Hn' & He'). split_and!; [by apply (globs_cons _ ms)|by intros; apply Hn', Hn|]. intros x. rewrite He', He, sort_slice_elem_of, (globbed_cons _ ms) by done. tauto.
    + intros (q & Hq & Hg). exists q. split; [by right|done].
Qed.

Lemma add_visits visits : forall paths, (NoDup paths -> NoDup (foldl add_visit paths visits)) /\
  forall x, x ∈ foldl add_visit paths visits <-> x ∈ paths \/ walked visits x.
Proof.
  induction visits as [|v visits IH]; intros paths; cbn [foldl].
  - split; [done|]. intros x. split; [by left|]. intros [?|(v & n & ?%not_elem_of_nil & _)]; done.
  - destruct (IH (add_visit paths v)) as [Hn He].
    assert ((NoDup paths -> NoDup (add_visit paths v)) /\ forall x, x ∈ add_visit paths v <-> x ∈ paths \/ walked [v] x) as [Hn1 He1].
    { unfold add_visit. assert (forall x, walked [v] x -> gv_err v = None /\ exists name, gv_entry v = Some (false, name) /\ isComposeFile name = true /\ gv_path v = x) as Hw.
      { intros x (v' & name & ->%list_elem_of_singleton & ? & ? & ? & ?). eauto. }
      destruct (gv_err v) as [e|] eqn:Ee; [split; [done|]; intros x; split; [by left|]; intros [?|(? & ? & ? & ? & ?)%Hw]; [done|congruence]|].
      destruct (gv_entry v) as [[[] name]|] eqn:En; try (split; [done|]; intros x; split; [by left|]; intros [?|(? & ? & ? & ? & ?)%Hw]; [done|congruence]).
      destruct (isComposeFile name) eqn:Ec; [|split; [done|]; intros x; split; [by left|]; intros [?|(? & ? & ? & ? & ?)%Hw]; [done|congruence]].
      split; [apply add_path_NoDup|]. intros x. rewrite add_path_elem. split; [intros [?| ->]; [by left|right]|intros [?|(? & ? & ? & ? & ?)%Hw]; [by left|right; congruence]].
      exists v, name. repeat split; [by left|done..]. }
    split; [by intros; apply Hn, Hn1|]. intros x. rewrite He, He1. unfold walked. setoid_rewrite elem_of_cons. split.
    + intros [[?|(v' & n & [->|[]%not_elem_of_nil] & Hr)]|(v' & n & Hv & Hr)]; [by left|right; exists v, n; split; [by left|done]|right; exists v', n; split; [by right|done]].
    + intros [?|(v' & n & [->|Hv] & Hr)]; [by left; left|left; right; exists v, n; split; [by left|done]|right; by exists v', n].
Qed.

Lemma sees_composePaths o : sees (composePaths o) (fun r _ => match r with
    | Err e => (exists pattern, pattern ∈ compose_patterns (go_RepoRoot o) /\ rp_glob rp pattern = Err e) \/
               (snd (rp_walk rp (PathJoin (go_RepoRoot o) "infra")) = Some e /\ errors_Is e ErrNotExist = false)
    | Ok l => globs (compose_patterns (go_RepoRoot o)) /\
              (forall e, snd (rp_walk rp (PathJoin (go_RepoRoot o) "infra")) = Some e -> errors_Is e ErrNotExist = true) /\
              NoDup l /\ forall x, x ∈ l <-> is_compose rp (go_RepoRoot o) x
    end).
Proof.
  unfold composePaths. apply wpp_bind. eapply wpp_mono; [apply sees_glob_all|]. intros [paths|e] []; [|by left]. intros (Hg & Hn & He).
  apply wpp_bind, sees_call. intros [visits walkErr] Hb. cbn [answers repo_spec] in Hb. apply wpp_ret. unfold is_compose. rewrite <- Hb. cbn [fst snd].
  destruct (add_visits visits paths) as [Hn' He'].
  assert (NoDup (sort_slice String.ltb (foldl add_visit paths visits)) /\
    forall x, x ∈ sort_slice String.ltb (foldl add_visit paths visits) <-> globbed rp (compose_patterns (go_RepoRoot o)) x \/ walked visits x) as Hok.
  { split; [rewrite sort_slice_perm; apply Hn', Hn; constructor|]. intros x. rewrite sort_slice_elem_of, He', He, elem_of_nil. tauto. }
  destruct walkErr as [e|]; [|by split_and!; destruct Hok]. destruct (errors_Is e ErrNotExist) eqn:E; [|by right].
  split_and!; [done|by intros ? [= <-]|by destruct Hok..].
Qed.

Lemma sees_glob_append patterns : forall paths,
  sees (glob_append patterns paths) (fun r _ => match r with
    | Err e => exists pattern, pattern ∈ patterns /\ rp_glob rp pattern = Err e
    | Ok l => globs patterns /\ forall x, x ∈ l <-> x ∈ paths \/ globbed rp patterns x
    end).
Proof.
  induction patterns as [|p patterns IH]; intros paths; cbn [glob_append].
  - apply wpp_ret. split; [apply globs_nil|]. intros x. split; [by left|]. intros [?|(p & ms & ?%not_elem_of_nil & _)]; done.
  - apply wpp_bind, sees_call. intros b Hb. destruct b as [ms|e]; [|apply wpp_ret; exists p; split; [by left|by rewrite <- Hb]].
    eapply wpp_mono; [apply IH|]. intros [l|e] _.
    + intros [Hg He]. split; [by apply (globs_cons _ ms)|]. intros x. rewrite He, elem_of_app, (globbed_cons _ ms) by done. tauto.
    + intros (q & Hq & Hg). exists q. split; [by right|done].
Qed.

Lemma sees_workflowPaths o : sees (workflowPaths o) (fun r _ => match r with
    | Err e => exists pattern, pattern ∈ workflow_patterns (go_RepoRoot o) /\ rp_glob rp pattern = Err e
    | Ok l => globs (workflow_patterns (go_RepoRoot o)) /\ forall x, x ∈ l <-> is_workflow rp (go_RepoRoot o) x
    end).
Proof.
  unfold workflowPaths. apply wpp_bind. eapply wpp_mono; [apply sees_glob_append|]. intros [l|e] []; [|done]. intros [Hg He]. apply wpp_ret.
  split; [done|]. intros x. rewrite sort_slice_elem_of, He, elem_of_nil. unfold is_workflow. tauto.
Qed.
(** A scan of one file with the rules for its text. *)
Definition scans (rules_of : list string -> list rule) (scanFile : string -> prog guardE (result (list GuardFinding))) : Prop :=
  forall path, sees (scanFile path) (fun r _ => match r with
    | Err _ => exists e, rp_read rp path = Err e
    | Ok l => readable rp path /\ l = scan_text IsPrint (rules_of (lines_in rp path)) path (lines_in rp path)
    end).

Lemma compose_scans : scans (fun _ => composeRules) (scanComposeFile IsPrint).
Proof.
  intros path. unfold scanComposeFile, readLines. apply wpp_bind, wpp_bind, sees_call. intros b Hb. cbn [answers repo_spec] in Hb.
  apply wpp_ret, wpp_ret. unfold lines_in, readable. rewrite <- Hb. destruct b; eauto.
Qed.
Lemma workflow_scans : scans workflowRules (scanWorkflowFile IsPrint).
Proof.
  intros path. unfold scanWorkflowFile, readLines. apply wpp_bind, wpp_bind, sees_call. intros b Hb. cbn [answers repo_spec] in Hb.
  apply wpp_ret, wpp_ret. unfold lines_in, readable. rewrite <- Hb. destruct b; eauto.
Qed.

(** A file with its lines and rules. *)
Definition with_rules (rules_of : list string -> list rule) (path : string) : string * list string * list rule :=
  (path, lines_in rp path, rules_of (lines_in rp path)).

Lemma sees_scan_all what rules_of scanFile paths : scans rules_of scanFile -> forall F,
  sees (scan_all what scanFile paths F) (fun '(F', e) _ => match e with
    | Some _ => exists path e, path ∈ paths /\ rp_read rp path = Err e
    | None => Forall (readable rp) paths /\ F' = F ++ ((with_rules rules_of <$> paths) ≫= fun '(path, lines, rules) => scan_text IsPrint rules path lines)
    end).
Proof.
  intros Hs. induction paths as [|path paths IH]; intros F; cbn [scan_all].
  - apply wpp_ret. split; [constructor|]. cbn. by rewrite app_nil_r.
  - apply wpp_bind. eapply wpp_mono; [apply Hs|]. intros [l|e] []; [|intros [e' He]; apply wpp_ret; exists path, e'; by split; [left|]].
    intros [Hr ->]. eapply wpp_mono; [apply IH|]. intros [F' [e|]] [].
    + intros (p & e' & Hp & He). exists p, e'. by split; [right|].
    + intros [Hf ->]. split; [by constructor|]. rewrite fmap_cons, bind_cons, app_assoc. done.
Qed.

Definition audits (rules_of : list string -> list rule) (paths : list string) : list GuardFinding :=
  paths ≫= fun path => audit (rules_of (lines_in rp path)) (lines_in rp path) IsPrint path.

Lemma audits_fmap rules_of paths :
  (with_rules rules_of <$> paths) ≫= (fun '(path, lines, rules) => audit rules lines IsPrint path) = audits rules_of paths.
Proof. unfold audits. induction paths as [|p paths IH]; [done|]. rewrite fmap_cons, !bind_cons. by rewrite IH. Qed.

(** A finding that a file gets: a rule that a line breaks, when the line carries no waiver
    and the last waiver pointing at it does not name the rule, or a waiver in force that
    excuses nothing. *)
Definition deserved (rules : list rule) (path : string) (lines : list string) (f : GuardFinding) : Prop :=
  (exists i r, r ∈ rules /\ breaks lines i r = true /\ carries_waiver lines i = false /\ excused lines i r = false /\ f = finding_of path i r) \/
  (exists t name, waiver_for lines t = Some name /\ used rules lines t name = false /\ f = orphan IsPrint path lines t (mkWaiver name false)).

Lemma elem_of_audit rules lines path f : f ∈ audit rules lines IsPrint path <-> deserved rules path lines f.
Proof.
  unfold audit, deserved. rewrite elem_of_app, !list_elem_of_bind. apply Morphisms_Prop.or_iff_morphism.
  - split.
    + intros (i & (r & -> & Hr)%list_elem_of_fmap & _). apply list_elem_of_In, List.filter_In in Hr as [Hr%list_elem_of_In Hb].
      apply andb_true_iff in Hb as [Hb He%negb_true_iff]. apply andb_true_iff in Hb as [Hb Hc%negb_true_iff]. eauto 10.
    + intros (i & r & Hr & Hb & Hc & He & ->). exists i. split.
      * apply list_elem_of_fmap. exists r. split; [done|]. apply list_elem_of_In, List.filter_In.
        unfold checked. by rewrite <- list_elem_of_In, Hb, Hc, He.
      * apply elem_of_seq. unfold breaks in Hb. destruct (lines !! i) eqn:E; [|done]. apply lookup_lt_Some in E. lia.
  - unfold orphan_at. split.
    + intros (t & Hf & _). destruct (waiver_for lines t) as [name|] eqn:Ew; [|by apply not_elem_of_nil in Hf].
      destruct (used rules lines t name) eqn:Eu; [by apply not_elem_of_nil in Hf|]. apply list_elem_of_singleton in Hf. eauto.
    + intros (t & name & Ew & Eu & ->). exists t. rewrite Ew, Eu. split; [by apply list_elem_of_singleton|by eapply waiver_for_targets].
Qed.
End repository.

(** What a run of [Scan] on a repository promises. *)
Definition exact_report (IsPrint : Z -> bool) (rp : repo) (o : GuardOptions) (r : GuardResult) (e : err_ret) : Prop :=
  let root := go_RepoRoot (guard_applyDefaults o) in
  gr_Mode r = go_Mode (guard_applyDefaults o) /\
  match e with
  | Some _ => blind rp root
  | None => ~ blind rp root /\ exists compose workflows,
      NoDup compose /\ (forall p, p ∈ compose <-> is_compose rp root p) /\ (forall p, p ∈ workflows <-> is_workflow rp root p) /\
      Forall (readable rp) (compose ++ workflows) /\
      gr_Findings r = insertion_sort finding_lt (audits IsPrint rp (fun _ => composeRules) compose ++ audits IsPrint rp workflowRules workflows) /\
      StronglySorted (fun a b => finding_lt b a = false) (gr_Findings r) /\
      (forall f, f ∈ gr_Findings r <->
         (exists p, is_compose rp root p /\ deserved IsPrint composeRules p (lines_in rp p) f) \/
         (exists p, is_workflow rp root p /\ deserved IsPrint (workflowRules (lines_in rp p)) p (lines_in rp p) f)) /\
      gr_Violations r = countViolations (gr_Findings r)
  end.

Lemma scan_is_exact IsPrint `{RangeWaivers, SortSlice, SortStable} rp o :
  wpp (repo_spec rp) (guard_Scan IsPrint o) (fun '(r, e) _ => exact_report IsPrint rp o r e) tt.
Proof.
  unfold exact_report, guard_Scan. cbv zeta. set (o' := guard_applyDefaults o). apply wpp_bind. eapply wpp_mono; [apply sees_composePaths|]. intros [compose|e] [].
  2:{ intros [(p & Hp & He)|[Hw He]]; apply wpp_ret; (split; [done|]); [left; exists p, e; rewrite elem_of_app; auto|right; left; eauto]. }
  intros (Hg & Hwk & Hnd & Hc). apply wpp_bind. eapply wpp_mono; [apply sees_workflowPaths|]. intros [workflows|e] [].
  2:{ intros (p & Hp & He). apply wpp_ret. split; [done|]. left. exists p, e. rewrite elem_of_app. auto. }
  intros [Hg' Hwf]. apply wpp_bind. eapply wpp_mono; [apply sees_scan_all, compose_scans|]. intros [F1 [e|]] [].
  { intros (p & e' & Hp & He). apply wpp_ret. split; [done|]. right. right. exists p, e'. rewrite <- Hc. auto. }
  intros [Hr1 ->]. apply wpp_bind. eapply wpp_mono; [apply sees_scan_all, workflow_scans|]. intros [F2 [e|]] [].
  { intros (p & e' & Hp & He). apply wpp_ret. split; [done|]. right. right. exists p, e'. rewrite <- Hwf. auto. }
  intros [Hr2 ->]. apply wpp_ret. split; [done|]. split.
  { rewrite Forall_forall in Hr1, Hr2. intros [(p & e & [Hp|Hp]%elem_of_app & He)|[(e & He & Hne)|(p & e & [Hp|Hp] & He)]].
    - by eapply Hg.
    - by eapply Hg'.
    - by rewrite (Hwk _ He) in Hne.
    - apply Hc, Hr1 in Hp as [d Hd]. congruence.
    - apply Hwf, Hr2 in Hp as [d Hd]. congruence. }
  exists compose, workflows. cbn [gr_Findings gr_Violations].
  rewrite sorted_findings. cbn [app]. rewrite (sort_scans IsPrint _ _ ((with_rules rp workflowRules <$> workflows) ≫= fun '(path, lines, rules) => audit rules lines IsPrint path)).
  2:{ rewrite <- (app_nil_r (_ ≫= fun '(path, lines, rules) => scan_text _ _ _ _)), <- (app_nil_r (_ ≫= fun '(path, lines, rules) => audit _ _ _ _)). by apply sort_scans. }
  rewrite !audits_fmap. split_and!; [done|done|done|by apply Forall_app|done| | |done].
  - apply insertion_sort_sorted; [apply finding_lt_asym|]. intros a b c. apply finding_lt_false_trans.
  - intros f. rewrite insertion_sort_perm, elem_of_app. unfold audits. rewrite !list_elem_of_bind. setoid_rewrite elem_of_audit.
    setoid_rewrite Hc. setoid_rewrite Hwf. split; (intros [(p & ? & ?)|(p & ? & ?)]; [left|right]; by exists p).
Qed.

(** A line of the repository breaks a rule of severity error and is not waived. *)
Definition violation (rp : repo) (root : string) : Prop :=
  exists p rules i r,
    ((is_compose rp root p /\ rules = composeRules) \/ (is_workflow rp root p /\ rules = workflowRules (lines_in rp p))) /\
    r ∈ rules /\ ru_Severity r = SeverityError /\
    breaks (lines_in rp p) i r = true /\ carries_waiver (lines_in rp p) i = false /\ excused (lines_in rp p) i r = false.

Lemma countViolations_pos l : 0 < countViolations l <-> exists f, f ∈ l /\ gf_Severity f = SeverityError.
Proof.
  unfold countViolations. set (err := fun f => _). split.
  - intros Hc. destruct (List.filter err l) as [|f fs] eqn:E; [done|]. exists f.
    assert (In f (List.filter err l)) as [Hf He]%List.filter_In by (rewrite E; by left).
    split; [by apply list_elem_of_In|]. unfold err in He. by destruct (gf_Severity f).
  - intros (f & Hf & He). assert (In f (List.filter err l)) as Hin.
    { apply List.filter_In. unfold err. by rewrite <- list_elem_of_In, He. }
    destruct (List.filter err l); [done|cbn; lia].
Qed.

Lemma exact_violations IsPrint rp o r : exact_report IsPrint rp o r None ->
  0 < gr_Violations r <-> violation rp (go_RepoRoot (guard_applyDefaults o)).
Proof.
  intros (_ & _ & cs & wfs & _ & _ & _ & _ & _ & _ & Hf & ->). rewrite countViolations_pos. split.
  - intros (f & [(p & Hp & Hd)|(p & Hp & Hd)]%Hf & Hs);
      (destruct Hd as [(i & ru & Hru & Hb & Hc & He & ->)|(t & name & _ & _ & ->)]; [|done]); exists p; eexists _, i, ru;
      (split; [|done]); [by left|by right].
  - intros (p & rules & i & ru & Hp & Hru & Hs & Hb & Hc & He). exists (finding_of p i ru). split; [|done].
    apply Hf. destruct Hp as [[Hp ->]|[Hp ->]]; [left|right]; exists p; (split; [done|left; by exists i, ru]).
Qed.

(** The exit code the repository deserves. *)
Definition exit_code_is (rp : repo) (root mode : string) (jsonErr : err_ret) (code : Z) : Prop :=
  if negb (String.eqb mode ModeReport) && negb (String.eqb mode ModeEnforce) then code = 64
  else (blind rp root /\ code = 1) \/
       (~ blind rp root /\
        match jsonErr with
        | Some _ => code = 2
        | None => (mode = ModeEnforce /\ violation rp root /\ code = 1) \/
                  (~ (mode = ModeEnforce /\ violation rp root) /\ code = 0)
        end).

Lemma default_root repoRoot mode :
  go_RepoRoot (guard_applyDefaults (mkGuardOptions (go_RepoRoot (guard_DefaultOptions repoRoot)) mode)) = go_RepoRoot (guard_DefaultOptions repoRoot).
Proof. unfold guard_applyDefaults, guard_DefaultOptions. cbn [go_RepoRoot]. destruct (String.eqb (TrimSpace repoRoot) "") eqn:E; [done|by rewrite E]. Qed.

Lemma known_mode root mode : negb (String.eqb mode ModeReport) && negb (String.eqb mode ModeEnforce) = false ->
  go_Mode (guard_applyDefaults (mkGuardOptions root mode)) = mode.
Proof.
  unfold guard_applyDefaults. cbn [go_Mode]. destruct (String.eqb mode "") eqn:E; [|done]. apply String.eqb_eq in E. by subst mode.
Qed.

Lemma exit_code_is_exact IsPrint `{RangeWaivers, SortSlice, SortStable} rp repoRoot mode jsonErr :
  wpp (repo_spec rp) (runCIGuard IsPrint repoRoot mode jsonErr)
    (fun code _ => exit_code_is rp (go_RepoRoot (guard_DefaultOptions repoRoot)) mode jsonErr code) tt.
Proof.
  unfold runCIGuard, exit_code_is. destruct (negb (String.eqb mode ModeReport) && negb (String.eqb mode ModeEnforce)) eqn:Em; [by apply wpp_ret|].
  apply wpp_bind. eapply wpp_mono; [apply scan_is_exact|]. intros [r [e|]] [] Hx; apply wpp_ret.
  { destruct Hx as [_ Hx]. rewrite default_root in Hx. by left. }
  right. pose proof (exact_violations _ _ _ _ Hx) as Hv. destruct Hx as (Hmode & Hblind & _). rewrite default_root in Hv, Hblind.
  split; [done|]. destruct jsonErr; [done|]. rewrite Hmode, known_mode by done.
  destruct (String.eqb_spec mode ModeEnforce) as [He|Hne]; cbn [andb]; [|right; split; [by intros [? _]|done]].
  destruct (Z.ltb_spec 0 (gr_Violations r)); [left; split_and!; [done|by apply Hv|done]|right].
  split; [|done]. intros [_ Hvi%Hv]. lia.
Qed.


(** ** What wrapping proves, and what escapes *)

(** No shell operator the guard knows begins in the text. *)
Definition one_command (s : string) : Prop :=
  forall a op b, op ∈ [";"; "|"; "&&"] -> s <> a +:+ op +:+ b.

Lemma text_matches s prev rest : pmatch (text s) prev s rest.
Proof.
  revert prev. induction s as [|c s IH]; intros prev; [constructor|].
  assert (in_class [(c, c)] c = true) as Hc by (cbn; unfold in_range; rewrite orb_false_r; apply andb_true_iff; split; apply N.leb_refl || apply Z.leb_refl).
  destruct s as [|d s]; [by constructor|]. change (String c (String d s)) with (String c "" +:+ String d s) at 2.
  change (text (String c (String d s))) with (PCat (PCls [(c, c)]) (text (String d s))). constructor; [by constructor|apply IH].
Qed.

Lemma control_matches op prev rest : op ∈ [";"; "|"; "&&"] -> pmatch shellControlRe prev op rest.
Proof.
  unfold shellControlRe. rewrite !elem_of_cons, elem_of_nil. intros [->|[->|[->|[]]]].
  - apply pm_alt_l, pm_alt_r, text_matches.
  - apply pm_alt_r, text_matches.
  - apply pm_alt_l, pm_alt_l, pm_alt_l, text_matches.
Qed.

(** The line holds the wrapper, these options, a separator of its own, and a docker-heavy
    command that no shell operator separates from it. *)
Definition wrapped_by (w : pat) (line options : string) : Prop :=
  exists before wrapper separator other heavy rest,
    line = before +:+ wrapper +:+ options +:+ separator +:+ other +:+ heavy +:+ rest /\
    pmatch w (last_of None before) wrapper (options +:+ separator +:+ other +:+ heavy +:+ rest) /\
    pmatch payloadSeparatorRe (last_of None options) separator (other +:+ heavy +:+ rest) /\
    pmatch dockerHeavyUpRe (last_of None other) heavy rest /\
    one_command other.

Lemma payload_is_heavy payload : payloadStartsWithDockerHeavy payload = true ->
  exists other heavy rest, payload = other +:+ heavy +:+ rest /\ pmatch dockerHeavyUpRe (last_of None other) heavy rest /\ one_command other.
Proof.
  unfold payloadStartsWithDockerHeavy, FindStringIndex. destruct (pfind dockerHeavyUpRe None payload) as [[other rest]|] eqn:Eh; [|done].
  apply pfind_sound in Eh as (heavy & Epay & Mh). intros Hc. exists other, heavy, rest. split_and!; [done|done|]. intros a op b Hop ->.
  rewrite <- !app_assoc_str in Epay. pose proof (control_matches op (last_of None a) (b +:+ heavy +:+ rest) Hop) as Hm.
  destruct (pfind shellControlRe None payload) as [[control rest']|] eqn:Ec; [|exact (pfind_None _ _ _ _ _ _ Ec Epay Hm)].
  pose proof (pfind_leftmost _ _ _ _ _ _ _ _ Ec Epay Hm) as Hl. unfold len in Hc. rewrite !length_app_str in Hc. apply Z.ltb_lt in Hc. lia.
Qed.

Lemma wrapped_intro w line options payload : wrapperPayload line w = Some (options, payload) -> payloadStartsWithDockerHeavy payload = true ->
  wrapped_by w line options.
Proof.
  unfold wrapperPayload, FindStringIndex. destruct (pfind w None line) as [[before args]|] eqn:Ew; [|done]. intros Es Hp.
  apply pfind_sound in Ew as (wrapper & -> & Mw). apply pfind_sound in Es as (sep & -> & Ms). apply payload_is_heavy in Hp as (other & heavy & rest & -> & Mh & Ho).
  by exists before, wrapper, sep, other, heavy, rest.
Qed.

(** A docker-heavy line that is not reported is wrapped: with the flags of the admission, or
    by the lock. *)
Theorem accepted_command_is_wrapped line : protectsDockerHeavy line = true ->
  exists options, Matches execWrapRe options = true /\
    (wrapped_by admitWrapRe line options /\ Matches heavyWeightRe options = true /\ Matches dockerExclusiveRe options = true \/
     wrapped_by legacyLockWrapRe line options /\ Matches legacyLockSubcmdRe options = false).
Proof.
  assert (admitProtectsDockerHeavy line = true -> exists options, Matches execWrapRe options = true /\ wrapped_by admitWrapRe line options /\
    Matches heavyWeightRe options = true /\ Matches dockerExclusiveRe options = true) as Ha.
  { unfold admitProtectsDockerHeavy. destruct (wrapperPayload line admitWrapRe) as [[options payload]|] eqn:E; [|done].
    rewrite !andb_true_iff. intros [[[Hh Hd] He] Hp]. exists options. split_and!; [done|by eapply wrapped_intro|done|done]. }
  unfold protectsDockerHeavy. destruct (legacyLockProtectsDockerHeavy line) eqn:El.
  - intros _. unfold legacyLockProtectsDockerHeavy in El. destruct (wrapperPayload line legacyLockWrapRe) as [[options payload]|] eqn:E; [|done].
    destruct (Matches legacyLockSubcmdRe options) eqn:Es; [done|]. apply andb_true_iff in El as [He Hp]. exists options.
    split; [done|right]. split; [by eapply wrapped_intro|done].
  - intros (options & He & Hw & Hr)%Ha. exists options. auto.
Qed.

Definition RangeWaivers_list : RangeWaivers := {| range_waivers ws := map_to_list ws; range_waivers_perm ws := Permutation_refl _ |}.

(** What the guard lets pass, and what it reports although it was waived.  A waiver at the
    end of a line hides the line from every rule; of two waivers for a line the first has no
    effect and is not reported; a second command, before the wrapper or after the payload,
    needs no wrapper; an option of another command passes for the project name, and a
    comment that mentions the variable for its export. *)
Theorem guard_gaps :
  let scan := @scan_text (fun _ => true) RangeWaivers_list in
  let wrap := "civmctl admit --weight heavy --exclusive docker --exec -- docker compose up" in
  countViolations (scan composeRules "c.yml" ["    container_name: db # civm:ci-guard-allow R2-static-host-port x"; "    - 8080:80"]) = 0 /\
  (gf_Rule <$> scan (workflowRules []) "w.yml"
     ["# civm:ci-guard-allow R3-missing-project-name a"; "# civm:ci-guard-allow R4-unlocked-docker-heavy b"; "run: docker compose up"]) = [RuleMissingProject] /\
  unlockedHeavy ("docker compose up --build && " +:+ wrap) = false /\
  unlockedHeavy (wrap +:+ " && docker compose up --build") = false /\
  missingProject false "mkdir -p out && docker compose up" = false /\
  countViolations (scan (workflowRules ["# COMPOSE_PROJECT_NAME is not set"]) "w.yml" ["# COMPOSE_PROJECT_NAME is not set"; "run: docker compose pull"]) = 0.
Proof. cbv zeta. split_and!; vm_compute; reflexivity. Qed.
