(* ===== verification/Metrics.v ===== *)
(** * internal/metrics, metrics dump and internal/cireport

    The samples of [civmctl metrics dump] as a Prometheus text file, written beside its
    target and renamed over it, and the commit status that [civmctl ci-report] posts.
    [formatValue] is [%g] of a float64; the commands and the file system are effects. *)

From S2P Require Import Prelude GoStrings Prog Civm Memwatchdog Capacity.

Local Open Scope string_scope.
Local Open Scope list_scope.
Local Open Scope Z_scope.

Definition TypeGauge : string := "gauge".
Definition TypeCounter : string := "counter".

Record Metric (V : Type) := mkMetric {
  mt_Name : string;
  mt_Help : string;
  mt_Type : string;
  mt_Labels : gmap string string;
  mt_Value : V;
}.
Arguments mkMetric {V}.
Arguments mt_Name {V}.
Arguments mt_Help {V}.
Arguments mt_Type {V}.
Arguments mt_Labels {V}.
Arguments mt_Value {V}.

Definition eol : string := String "010" "".
Definition dq : string := String "034" "".

(** A [strings.Replacer] of single bytes. *)
Fixpoint replace_bytes (f : ascii -> option string) (s : string) : string :=
  match s with
  | EmptyString => ""
  | String c s => match f c with Some r => r | None => String c "" end +:+ replace_bytes f s
  end.

Definition help_byte (c : ascii) : option string :=
  if Ascii.eqb c "\" then Some "\\" else if Ascii.eqb c "010" then Some "\n" else None.
Definition label_byte (c : ascii) : option string :=
  if Ascii.eqb c "\" then Some "\\" else if Ascii.eqb c "034" then Some (String "\" dq) else if Ascii.eqb c "010" then Some "\n" else None.

Definition escapeLabelValue (v : string) : string := replace_bytes label_byte v.
Definition escapeHelp (h : string) : string := replace_bytes help_byte h.

(** The effects of [WriteTextfile]; a write is one [Fprintf] to the temporary file. *)
Inductive metricsE : Type -> Type :=
  | MtMkdirAll (dir : string) : metricsE err_ret
  | MtCreateTemp (dir pattern : string) : metricsE (result string)
  | MtWrite (path chunk : string) : metricsE err_ret
  | MtChmod (path : string) (perm : Z) : metricsE err_ret
  | MtClose (path : string) : metricsE err_ret
  | MtRemove (path : string) : metricsE err_ret
  | MtRename (oldpath newpath : string) : metricsE err_ret.

Section render.
Context `{SortSlice} {V : Type} (formatValue : V -> string).

Definition one_label (labels : gmap string string) (k : string) : string :=
  k +:+ "=" +:+ dq +:+ escapeLabelValue (default "" (labels !! k)) +:+ dq.

Definition renderLabels (labels : gmap string string) : string :=
  if decide (labels = ∅) then ""
  else "{" +:+ Join (one_label labels <$> sorted_keys labels) "," +:+ "}".

(** The groups by name, and the names in the order of their first metric. *)
Definition group_step (st : gmap string (list (Metric V)) * list string) (m : Metric V) : gmap string (list (Metric V)) * list string :=
  let '(groups, order) := st in
  (<[mt_Name m := default [] (groups !! mt_Name m) ++ [m]]> groups,
   match groups !! mt_Name m with Some _ => order | None => order ++ [mt_Name m] end).

Definition sample_line (name : string) (m : Metric V) : string :=
  name +:+ renderLabels (mt_Labels m) +:+ " " +:+ formatValue (mt_Value m) +:+ eol.

(** The texts written for one group, each by its own [Fprintf]. *)
Definition group_chunks (name : string) (group : list (Metric V)) : list string :=
  match group with
  | [] => []
  | head :: _ =>
      (if String.eqb (mt_Help head) "" then [] else ["# HELP " +:+ name +:+ " " +:+ escapeHelp (mt_Help head) +:+ eol]) ++
      (if String.eqb (mt_Type head) "" then [] else ["# TYPE " +:+ name +:+ " " +:+ mt_Type head +:+ eol]) ++
      (sample_line name <$> group)
  end.

Definition render_chunks (metrics : list (Metric V)) : list string :=
  let '(groups, order) := foldl group_step (∅, []) metrics in
  sort_slice String.ltb order ≫= fun name => group_chunks name (default [] (groups !! name)).

(** [Render] on the writer [w]. *)
Fixpoint write_chunks {E} (w : string -> prog E err_ret) (chunks : list string) : prog E err_ret :=
  match chunks with
  | [] => mret None
  | chunk :: chunks => e ← w chunk; match e with Some e => mret (Some e) | None => write_chunks w chunks end
  end.

Definition metrics_Render {E} (w : string -> prog E err_ret) (metrics : list (Metric V)) : prog E err_ret := write_chunks w (render_chunks metrics).

Definition WriteTextfile (path : string) (metrics : list (Metric V)) : prog metricsE err_ret :=
  if String.eqb path "" then mret (Some (Errorf "metrics path required"))
  else
    let dir := Dir path in
    e ← call (MtMkdirAll dir);
    match e with
    | Some e => mret (Some (Errorf_w ("mkdir " +:+ dir) e))
    | None =>
        tmp ← call (MtCreateTemp dir (Base path +:+ ".tmp.*"));
        match tmp with
        | Err e => mret (Some (Errorf_w "create temp" e))
        | Ok tmpPath =>
            e ← metrics_Render (fun chunk => call (MtWrite tmpPath chunk)) metrics;
            match e with
            | Some e => call (MtClose tmpPath);; call (MtRemove tmpPath);; mret (Some (Errorf_w "render" e))
            | None =>
                e ← call (MtChmod tmpPath 420);
                match e with
                | Some e => call (MtClose tmpPath);; call (MtRemove tmpPath);; mret (Some (Errorf_w "chmod" e))
                | None =>
                    e ← call (MtClose tmpPath);
                    match e with
                    | Some e => call (MtRemove tmpPath);; mret (Some (Errorf_w "close temp" e))
                    | None =>
                        e ← call (MtRename tmpPath path);
                        match e with
                        | Some e => call (MtRemove tmpPath);; mret (Some (Errorf_w ("rename to " +:+ path) e))
                        | None => mret None
                        end
                    end
                end
            end
        end
    end.
End render.

(** ** [civmctl metrics dump] *)

(** The values are integers, [float64(z)]. *)
Definition buildSamples (r : CapReport) (mem : MemResult) : list (Metric Z) :=
  let gauge name help value := mkMetric name help TypeGauge ∅ value in
  let m := mr_Mem mem in
  [gauge "civm_disk_used_pct" "Percentual de disco utilizado no path monitorado" (cr_DiskUsedPct r);
   gauge "civm_disk_free_gb" "Disco livre em GB" (cr_DiskFreeGB r);
   gauge "civm_disk_total_gb" "Disco total em GB" (cr_DiskTotalGB r);
   gauge "civm_runner_services_active" "Quantidade de services actions.runner.*" (cr_RunnerServices r);
   gauge "civm_runner_workers_active" "Quantidade de workers Runner.Worker em execução" (cr_RunnerWorkers r);
   gauge "civm_runner_queue_stalled" "1 se o watchdog detectou fila civm sem consumo; 0 caso contrário" (if cr_QueueStalled r then 1 else 0);
   gauge "civm_accepting_jobs" "1 se runner está aceitando jobs (disco abaixo do threshold); 0 caso contrário" (if cr_AcceptingJobs r then 1 else 0);
   gauge "civm_mem_total_mb" "RAM total em MB" (MemTotalMB m);
   gauge "civm_mem_available_mb" "RAM disponivel (free + reclaimable) em MB" (MemAvailableMB m);
   gauge "civm_mem_available_pct" "RAM disponivel como percentual do total" (AvailPct m);
   gauge "civm_swap_used_mb" "Swap em uso em MB (thrash quando alto)" (SwapUsedMB m);
   gauge "civm_mem_pressure" "Pressao de memoria: 0=ok, 1=warn, 2=critical" (ExitCode (mr_Decision mem))].

(** ** internal/cireport *)

Record ReportOptions := mkReportOptions {
  rep_Repo : string;
  rep_SHA : string;
  rep_State : string;
  rep_Context : string;
  rep_Description : string;
  rep_TargetURL : string;
}.

Definition state_Valid (s : string) : bool := existsb (String.eqb s) ["success"; "failure"; "pending"; "error"].

Definition report_validateOptions (opts : ReportOptions) : err_ret :=
  if String.eqb (rep_Repo opts) "" then Some (Errorf "--repo obrigatorio (formato: owner/repo)")
  else if negb (Contains (rep_Repo opts) "/") then Some (Errorf ("--repo deve ter formato owner/repo, got " +:+ rep_Repo opts))
  else if String.eqb (rep_SHA opts) "" then Some (Errorf "--sha obrigatorio")
  else if negb (state_Valid (rep_State opts)) then Some (Errorf ("--state invalido " +:+ rep_State opts))
  else if String.eqb (rep_Context opts) "" then Some (Errorf "--context obrigatorio (ex: 'civm fallback')")
  else None.

Definition report_truncate (s : string) (n : nat) : string :=
  if len s <=? Z.of_nat n then s
  else if (n <? 4)%nat then take_str n s
  else take_str (n - 3) s +:+ "...".

(** [gh] with its arguments. *)
Inductive reportE : Type -> Type := RepGh (args : list string) : reportE (string * err_ret).

Definition report_args (opts : ReportOptions) : list string :=
  ["api"; "-X"; "POST"; "/repos/" +:+ rep_Repo opts +:+ "/statuses/" +:+ rep_SHA opts;
   "-f"; "state=" +:+ rep_State opts; "-f"; "context=" +:+ rep_Context opts] ++
  (if String.eqb (rep_Description opts) "" then [] else ["-f"; "description=" +:+ report_truncate (rep_Description opts) 140]) ++
  (if String.eqb (rep_TargetURL opts) "" then [] else ["-f"; "target_url=" +:+ rep_TargetURL opts]).

Definition report_Post (opts : ReportOptions) : prog reportE (string * err_ret) :=
  match report_validateOptions opts with
  | Some e => mret ("", Some e)
  | None =>
      '(out, err) ← call (RepGh (report_args opts));
      mret (out, match err with Some e => Some (Errorf_w "gh api POST" e) | None => None end)
  end.

(** ** Reading the text back

    What a scraper makes of the text: comment lines are skipped, a sample line is a name,
    labels in braces with quoted values, a space and the value. *)

Fixpoint read_quoted (s : string) : option (string * string) :=
  match s with
  | EmptyString => None
  | String c s =>
      if Ascii.eqb c "034" then Some ("", s)
      else if Ascii.eqb c "\" then
        match s with
        | EmptyString => None
        | String d s => match read_quoted s with Some (v, r) => Some (String (if Ascii.eqb d "n" then "010"%char else d) v, r) | None => None end
        end
      else match read_quoted s with Some (v, r) => Some (String c v, r) | None => None end
  end.

Fixpoint read_until (stop : ascii -> bool) (s : string) : string * string :=
  match s with
  | EmptyString => ("", "")
  | String c s' => if stop c then ("", s) else let '(a, b) := read_until stop s' in (String c a, b)
  end.

Fixpoint read_labels (fuel : nat) (s : string) : option (list (string * string) * string) :=
  match fuel with
  | O => None
  | S fuel =>
      let '(k, s) := read_until (Ascii.eqb "=") s in
      match s with
      | String _ (String _ s) =>
          match read_quoted s with
          | Some (v, String c s) =>
              if Ascii.eqb c "}" then Some ([(k, v)], s)
              else match read_labels fuel s with Some (l, s) => Some ((k, v) :: l, s) | None => None end
          | _ => None
          end
      | _ => None
      end
  end.

Definition sample : Type := string * list (string * string) * string.

Definition read_sample (line : string) : option sample :=
  let '(name, s) := read_until (fun c => Ascii.eqb c "{" || Ascii.eqb c " ") line in
  match s with
  | String c s =>
      if Ascii.eqb c "{" then
        match read_labels (S (String.length s)) s with
        | Some (l, String _ s) => Some (name, l, s)
        | _ => None
        end
      else Some (name, [], s)
  | EmptyString => None
  end.

Definition is_sample (line : string) : bool := match line with EmptyString => false | String c _ => negb (Ascii.eqb c "#") end.

Definition read_text (text : string) : option (list sample) := mapM read_sample (List.filter is_sample (Split "010" text)).

Fixpoint concat_str (l : list string) : string := match l with [] => "" | s :: l => s +:+ concat_str l end.

Lemma read_quoted_escape v rest : read_quoted (escapeLabelValue v +:+ String "034" rest) = Some (v, rest).
Proof.
  unfold escapeLabelValue. induction v as [|c v IH]; [done|]. cbn [replace_bytes]. unfold label_byte at 1.
  destruct (Ascii.eqb_spec c "\") as [->|Hb]; [cbn; by rewrite IH|].
  destruct (Ascii.eqb_spec c "034") as [->|Hq]; [cbn; by rewrite IH|].
  destruct (Ascii.eqb_spec c "010") as [->|Hn]; [cbn; by rewrite IH|].
  cbn [String.app read_quoted]. destruct (Ascii.eqb_spec c "034"); [done|]. destruct (Ascii.eqb_spec c "\"); [done|]. by rewrite IH.
Qed.

Lemma escape_one_line v : no_char "010" (escapeLabelValue v).
Proof.
  unfold escapeLabelValue. induction v as [|c v IH]; [done|]. cbn [replace_bytes]. apply no_char_app. split; [|done]. unfold label_byte.
  destruct (Ascii.eqb_spec c "\"); [done|]. destruct (Ascii.eqb_spec c "034"); [done|]. destruct (Ascii.eqb_spec c "010") as [|Hn]; [done|].
  apply no_char_cons. by split; [intros <-|].
Qed.

Lemma help_one_line h : no_char "010" (escapeHelp h).
Proof.
  unfold escapeHelp. induction h as [|c v IH]; [done|]. cbn [replace_bytes]. apply no_char_app. split; [|done]. unfold help_byte.
  destruct (Ascii.eqb_spec c "\"); [done|]. destruct (Ascii.eqb_spec c "010") as [|Hn]; [done|]. apply no_char_cons. by split; [intros <-|].
Qed.

Lemma read_until_stop stop s c rest : str_forallb (fun d => negb (stop d)) s = true -> stop c = true ->
  read_until stop (s +:+ String c rest) = (s, String c rest).
Proof.
  intros Hs Hc. induction s as [|d s IH]; cbn [String.app read_until]; [by rewrite Hc|]. cbn in Hs. apply andb_true_iff in Hs as [Hd Hs].
  apply negb_true_iff in Hd. by rewrite Hd, IH.
Qed.

Section read_back.
Context `{SortSlice} {V : Type} (formatValue : V -> string).

Definition name_ok (n : string) : Prop :=
  is_sample n = true /\ str_forallb (fun c => negb (Ascii.eqb c "{" || Ascii.eqb c " ")) n = true /\ no_char "010" n.
Definition key_ok (k : string) : Prop := str_forallb (fun c => negb (Ascii.eqb "=" c)) k = true /\ no_char "010" k.
Definition metric_ok (m : Metric V) : Prop :=
  name_ok (mt_Name m) /\ map_Forall (fun k _ => key_ok k) (mt_Labels m) /\ no_char "010" (mt_Type m).

Definition labels_of (labels : gmap string string) (keys : list string) : list (string * string) := (fun k => (k, default "" (labels !! k))) <$> keys.

Definition sample_of (m : Metric V) : sample := (mt_Name m, labels_of (mt_Labels m) (sorted_keys (mt_Labels m)), formatValue (mt_Value m)).

Lemma read_one_label labels k c rest fuel : key_ok k ->
  read_labels (S fuel) (one_label labels k +:+ String c rest) =
    let v := default "" (labels !! k) in
    if Ascii.eqb c "}" then Some ([(k, v)], rest)
    else match read_labels fuel rest with Some (l, s) => Some ((k, v) :: l, s) | None => None end.
Proof.
  intros [Hk _]. unfold one_label. rewrite <- !app_assoc_str. cbn [read_labels].
  change ("=" +:+ dq +:+ escapeLabelValue (default "" (labels !! k)) +:+ dq +:+ String c rest)
    with (String "=" (String "034" (escapeLabelValue (default "" (labels !! k)) +:+ String "034" (String c rest)))).
  rewrite read_until_stop by done. by rewrite read_quoted_escape.
Qed.

Lemma read_all_labels labels keys rest : Forall key_ok keys -> keys <> [] -> forall fuel, (length keys <= fuel)%nat ->
  read_labels fuel (Join (one_label labels <$> keys) "," +:+ String "}" rest) = Some (labels_of labels keys, rest).
Proof.
  induction 1 as [|k keys Hk Hks IH]; [done|]. intros _ fuel Hf. destruct fuel as [|fuel]; [cbn in Hf; lia|]. rewrite fmap_cons. destruct keys as [|k' keys].
  - cbn [fmap list_fmap Join]. by rewrite read_one_label.
  - rewrite fmap_cons, Join_cons, <- fmap_cons, <- !app_assoc_str. change ("," +:+ ?s) with (String "," s). rewrite read_one_label by done.
    cbv zeta. cbn [Ascii.eqb]. rewrite IH; [done|done|cbn in Hf |- *; lia].
Qed.

Lemma join_length labels keys : (length keys <= String.length (Join (one_label labels <$> keys) ","))%nat.
Proof.
  induction keys as [|k keys IH]; [done|]. rewrite fmap_cons. destruct keys as [|k' keys].
  - cbn. unfold one_label. rewrite length_app_str. cbn. lia.
  - rewrite fmap_cons, Join_cons, <- fmap_cons, !length_app_str. cbn [length] in *. unfold one_label at 1. rewrite length_app_str. cbn [String.length] in *. lia.
Qed.

(** A sample line is read back. *)
Lemma read_sample_line m : metric_ok m ->
  read_sample (mt_Name m +:+ renderLabels (mt_Labels m) +:+ " " +:+ formatValue (mt_Value m)) = Some (sample_of m).
Proof.
  intros ((_ & Hn & _) & Hk & _). unfold read_sample, renderLabels. destruct (decide (mt_Labels m = ∅)) as [E|Hne].
  - change ("" +:+ " " +:+ formatValue (mt_Value m)) with (String " " (formatValue (mt_Value m))). rewrite read_until_stop by done. cbn [Ascii.eqb].
    unfold sample_of. rewrite E. assert (sorted_keys (∅ : gmap string string) = []) as ->; [|done].
    destruct (sorted_keys ∅) as [|k l] eqn:Ek; [done|]. assert (k ∈ sorted_keys (∅ : gmap string string)) as Hin by (rewrite Ek; by left).
    apply elem_of_sorted_keys in Hin as [v Hv]. done.
  - rewrite <- !app_assoc_str. change ("{" +:+ ?s) with (String "{" s). rewrite read_until_stop by done. cbn [Ascii.eqb].
    change ("}" +:+ " " +:+ formatValue (mt_Value m)) with (String "}" (String " " (formatValue (mt_Value m)))). rewrite read_all_labels; [done| | |].
    + apply Forall_forall. intros k [v Hv]%elem_of_sorted_keys. by apply (Hk k v).
    + intros E. apply Hne, map_empty. intros k. destruct (mt_Labels m !! k) as [v|] eqn:Ek; [|done].
      assert (k ∈ sorted_keys (mt_Labels m)) as Hin by (apply elem_of_sorted_keys; eauto). rewrite E in Hin. by apply not_elem_of_nil in Hin.
    + rewrite length_app_str. pose proof (join_length (mt_Labels m) (sorted_keys (mt_Labels m))). lia.
Qed.

Lemma line_one_line m : metric_ok m -> (forall v, no_char "010" (formatValue v)) ->
  no_char "010" (mt_Name m +:+ renderLabels (mt_Labels m) +:+ " " +:+ formatValue (mt_Value m)).
Proof.
  intros ((_ & _ & Hn) & Hk & _) Hv. rewrite !no_char_app. split_and!; [done| |done|done]. unfold renderLabels. destruct (decide _); [done|].
  rewrite !no_char_app. split_and!; [done| |done]. apply no_char_Join; [done|]. apply Forall_fmap, Forall_forall. intros k [v Hkv]%elem_of_sorted_keys. cbn.
  unfold one_label. rewrite !no_char_app. split_and!; [by apply (Hk k v)|done|done|apply escape_one_line|done].
Qed.

(** ** The groups *)

Definition named (n : string) (metrics : list (Metric V)) : list (Metric V) := List.filter (fun m => String.eqb (mt_Name m) n) metrics.

Lemma named_snoc n metrics m : named n (metrics ++ [m]) = named n metrics ++ (if String.eqb (mt_Name m) n then [m] else []).
Proof. unfold named. rewrite List.filter_app. cbn. by destruct (String.eqb (mt_Name m) n). Qed.

Lemma groups_spec (metrics : list (Metric V)) : let '(groups, order) := foldl group_step (∅, []) metrics in
  (forall n, groups !! n = match named n metrics with [] => None | l => Some l end) /\
  NoDup order /\ (forall n, n ∈ order <-> exists m, m ∈ metrics /\ mt_Name m = n).
Proof.
  induction metrics as [|m metrics IH] using rev_ind; cbn [foldl].
  - split_and!; [done|constructor|]. intros n. split; [by intros ?%not_elem_of_nil|]. by intros (m & ?%not_elem_of_nil & _).
  - rewrite foldl_snoc. destruct (foldl group_step (∅, []) metrics) as [groups order]. destruct IH as (Hg & Hnd & Ho). cbn [group_step]. split_and!.
    + intros n. rewrite named_snoc. destruct (String.eqb_spec (mt_Name m) n) as [<-|Hne].
      * rewrite lookup_insert_eq, Hg. by destruct (named (mt_Name m) metrics).
      * rewrite lookup_insert_ne, app_nil_r by done. apply Hg.
    + rewrite Hg. destruct (named (mt_Name m) metrics) as [|] eqn:E; [|done]. apply NoDup_app. split_and!; [done| |apply NoDup_singleton].
      intros n (m' & Hm' & Hn)%Ho ->%list_elem_of_singleton. assert (m' ∈ named (mt_Name m) metrics) as Hin; [|rewrite E in Hin; by apply not_elem_of_nil in Hin].
      apply list_elem_of_In, List.filter_In. rewrite <- list_elem_of_In, Hn, String.eqb_refl. done.
    + intros n. setoid_rewrite elem_of_app. setoid_rewrite list_elem_of_singleton. rewrite Hg. destruct (named (mt_Name m) metrics) as [|m' l] eqn:E.
      * rewrite elem_of_app, list_elem_of_singleton, Ho. split; [intros [(m' & ? & ?)| ->]; eauto|]. intros (m' & [Hm'| ->] & <-); eauto.
      * rewrite Ho. split; [intros (m'' & ? & ?); eauto|]. intros (m'' & [Hm''| ->] & <-); [eauto|]. exists m'.
        assert (m' ∈ named (mt_Name m) metrics) as Hin by (rewrite E; by left). apply list_elem_of_In, List.filter_In in Hin as [Hin Hn].
        split; [by apply list_elem_of_In|by apply String.eqb_eq].
Qed.

(** ** The text *)

Definition group_lines (name : string) (group : list (Metric V)) : list string :=
  match group with
  | [] => []
  | head :: _ =>
      (if String.eqb (mt_Help head) "" then [] else ["# HELP " +:+ name +:+ " " +:+ escapeHelp (mt_Help head)]) ++
      (if String.eqb (mt_Type head) "" then [] else ["# TYPE " +:+ name +:+ " " +:+ mt_Type head]) ++
      ((fun m => name +:+ renderLabels (mt_Labels m) +:+ " " +:+ formatValue (mt_Value m)) <$> group)
  end.

Lemma group_chunks_lines name group : group_chunks formatValue name group = (fun l => l +:+ eol) <$> group_lines name group.
Proof.
  destruct group as [|head group]; [done|]. unfold group_chunks, group_lines. rewrite !fmap_app, <- list_fmap_compose. f_equal; [|f_equal].
  - destruct (String.eqb _ _); [done|]. cbn [fmap list_fmap]. by rewrite <- !app_assoc_str.
  - destruct (String.eqb _ _); [done|]. cbn [fmap list_fmap]. by rewrite <- !app_assoc_str.
  - apply list_fmap_ext. intros _ m _. unfold sample_line. cbn. by rewrite <- !app_assoc_str.
Qed.

Lemma Split_lines lines : Forall (no_char "010") lines -> Split "010" (concat_str ((fun l => l +:+ eol) <$> lines)) = lines ++ [""].
Proof.
  induction 1 as [|l lines Hl Hls IH]; [done|]. rewrite fmap_cons. cbn [concat_str]. rewrite <- app_assoc_str.
  change (eol +:+ ?s) with (String "010" s). by rewrite Split_app, IH.
Qed.

Lemma group_lines_ok name group : Forall metric_ok group -> (forall m, m ∈ group -> mt_Name m = name) -> (forall v, no_char "010" (formatValue v)) ->
  Forall (no_char "010") (group_lines name group) /\
  mapM read_sample (List.filter is_sample (group_lines name group)) = Some (sample_of <$> group).
Proof.
  intros Hok Hname Hv. destruct group as [|head group]; [done|]. unfold group_lines.
  assert (mt_Name head = name) as Hh by (apply Hname; by left). pose proof (Forall_inv Hok) as ((_ & _ & Hnl) & _ & Ht). rewrite Hh in Hnl. split.
  - rewrite !Forall_app. split_and!.
    + destruct (String.eqb _ _); constructor; [|done]. rewrite !no_char_app. split_and!; [done|done|done|apply help_one_line].
    + destruct (String.eqb _ _); constructor; [|done]. rewrite !no_char_app. by split_and!.
    + apply Forall_fmap, Forall_forall. intros m Hm. cbn. rewrite <- (Hname m Hm). apply line_one_line; [|done]. by eapply Forall_forall.
  - rewrite !List.filter_app. assert (forall b h, List.filter is_sample (if b : bool then [] else ["# HELP " +:+ h]) = []) as -> by by intros [] h.
    assert (forall b h, List.filter is_sample (if b : bool then [] else ["# TYPE " +:+ h]) = []) as -> by by intros [] h. cbn [app].
    apply mapM_Some. clear Hh Hnl Ht. induction (head :: group) as [|m l IH]; [done|]. apply Forall_cons in Hok as [Hm Hl]. rewrite fmap_cons. cbn [List.filter].
    assert (mt_Name m = name) as <- by (apply Hname; by left). pose proof Hm as ((Hs & _) & _).
    assert (is_sample (mt_Name m +:+ renderLabels (mt_Labels m) +:+ " " +:+ formatValue (mt_Value m)) = true) as -> by (by destruct (mt_Name m)).
    constructor; [by apply read_sample_line|]. apply IH; [done|]. intros m' Hm'. apply Hname. by right.
Qed.

(** Every metric is read back, under its name and in its order there, the names sorted. *)
Lemma text_read_back metrics : Forall metric_ok metrics -> (forall v, no_char "010" (formatValue v)) ->
  exists order, NoDup order /\ StronglySorted (fun a b => String.ltb b a = false) order /\ (forall n, n ∈ order <-> exists m, m ∈ metrics /\ mt_Name m = n) /\
    read_text (concat_str (render_chunks formatValue metrics)) = Some (order ≫= fun n => sample_of <$> named n metrics).
Proof.
  intros Hok Hv. unfold render_chunks. pose proof (groups_spec metrics) as Hs. destruct (foldl group_step (∅, []) metrics) as [groups order].
  destruct Hs as (Hg & Hnd & Ho). exists (sort_slice String.ltb order). split_and!.
  - by rewrite sort_slice_perm.
  - apply sort_slice_sorted; [apply ltb_asym|intros x y z; apply ltb_trans_false].
  - intros n. by rewrite sort_slice_elem_of.
  - assert (forall l, exists lines, (l ≫= fun name => group_chunks formatValue name (default [] (groups !! name))) = ((fun l => l +:+ eol) <$> lines) /\
      Forall (no_char "010") lines /\ mapM read_sample (List.filter is_sample lines) = Some (l ≫= fun n => sample_of <$> named n metrics)) as Hl.
    { induction l as [|n l (lines & E & Hn & Hm)]; [by exists []|]. exists (group_lines n (named n metrics) ++ lines).
      assert (default [] (groups !! n) = named n metrics) as Hd by (rewrite Hg; by destruct (named n metrics)).
      destruct (group_lines_ok n (named n metrics)) as [H1 H2]; [| |done|].
      - apply Forall_forall. intros m [Hm' _]%list_elem_of_In%List.filter_In. by eapply Forall_forall; [exact Hok|apply list_elem_of_In].
      - intros m [_ Hm']%list_elem_of_In%List.filter_In. by apply String.eqb_eq.
      - split_and!.
        + rewrite bind_cons, E, Hd, group_chunks_lines. by rewrite fmap_app.
        + by apply Forall_app.
        + rewrite List.filter_app, bind_cons. apply mapM_Some. apply mapM_Some in Hm, H2. by apply Forall2_app. }
    destruct (Hl (sort_slice String.ltb order)) as (lines & -> & Hn & Hm). unfold read_text. rewrite Split_lines by done.
    rewrite List.filter_app. cbn [List.filter is_sample]. by rewrite app_nil_r.
Qed.
End read_back.

(** ** The file *)

(** The files, the temporary one, and whether a removal has failed. *)
Record metric_fs := mkMetricFs { mf_files : gmap string string; mf_tmp : option string; mf_left : bool }.

(** Only the temporary file is written, and only a complete one is renamed. *)
Definition textfile_spec (path text : string) : spec metricsE metric_fs := {|
  allowed B e s :=
    match e with
    | MtMkdirAll dir => dir = Dir path
    | MtCreateTemp dir _ => dir = Dir path /\ mf_tmp s = None
    | MtWrite p _ | MtChmod p _ | MtClose p | MtRemove p => mf_tmp s = Some p
    | MtRename o n => mf_tmp s = Some o /\ n = path /\ mf_files s !! o = Some text
    end;
  answers B e s b s' :=
    match e in metricsE B return B -> Prop with
    | MtCreateTemp _ _ => fun b => match b with
        | Err _ => s' = s
        | Ok p => p <> path /\ mf_files s !! p = None /\ s' = mkMetricFs (<[p := ""]> (mf_files s)) (Some p) (mf_left s)
        end
    | MtWrite p chunk => fun b => exists part, (b = None -> part = chunk) /\
        s' = mkMetricFs (alter (fun old => old +:+ part) p (mf_files s)) (mf_tmp s) (mf_left s)
    | MtRemove p => fun b => s' = match b with None => mkMetricFs (delete p (mf_files s)) (mf_tmp s) (mf_left s) | Some _ => mkMetricFs (mf_files s) (mf_tmp s) true end
    | MtRename o n => fun b => s' = match b with
        | None => mkMetricFs (<[n := default "" (mf_files s !! o)]> (delete o (mf_files s))) (mf_tmp s) (mf_left s)
        | Some _ => s
        end
    | _ => fun b => s' = s
    end b |}.

(** The target was replaced by the whole text, or nothing changed, but for a temporary file
    that could not be removed. *)
Definition replaced (path text : string) (files : gmap string string) (e : err_ret) (s : metric_fs) : Prop :=
  match e with
  | None => mf_files s = <[path := text]> files
  | Some _ => mf_files s = files \/ (mf_left s = true /\ exists p c, p <> path /\ files !! p = None /\ mf_files s = <[p := c]> files)
  end.

Lemma wpp_write_chunks path text p chunks : forall done files l,
  wpp (textfile_spec path text) (write_chunks (fun chunk => call (MtWrite p chunk)) chunks)
    (fun e s => exists c, s = mkMetricFs (<[p := c]> files) (Some p) l /\ (e = None -> c = done +:+ concat_str chunks))
    (mkMetricFs (<[p := done]> files) (Some p) l).
Proof.
  induction chunks as [|chunk chunks IH]; intros done files l; cbn [write_chunks].
  - apply wpp_ret. exists done. split; [done|]. intros _. cbn [concat_str]. by rewrite app_empty_r.
  - apply wpp_bind, wpp_call; [done|]. intros b s' (part & Hb & ->). cbn [mf_files mf_tmp mf_left].
    rewrite alter_insert_eq. destruct b as [e|].
    + apply wpp_ret. eexists. split; [done|]. done.
    + rewrite (Hb eq_refl). eapply wpp_mono; [apply IH|]. intros e s (c & -> & Hc). exists c. split; [done|]. intros He. rewrite (Hc He). cbn [concat_str]. by rewrite app_assoc_str.
Qed.

(** Giving up: the temporary file goes, or stays because it could not be removed. *)
Lemma wpp_drop_tmp path text p c files l (e : error) : p <> path -> files !! p = None ->
  wpp (textfile_spec path text) (call (MtRemove p);; mret (Some e)) (replaced path text files) (mkMetricFs (<[p := c]> files) (Some p) l).
Proof.
  intros Hp Hf. apply wpp_bind, wpp_call; [done|]. intros b s' Hs. cbn [answers textfile_spec mf_files mf_tmp mf_left] in Hs. subst s'. apply wpp_ret.
  destruct b as [e'|]; cbn; [right; eauto 6|left]. by rewrite delete_insert_id.
Qed.

Lemma wpp_textfile `{SortSlice} {V} (formatValue : V -> string) path metrics files :
  wpp (textfile_spec path (concat_str (render_chunks formatValue metrics))) (WriteTextfile formatValue path metrics)
    (replaced path (concat_str (render_chunks formatValue metrics)) files) (mkMetricFs files None false).
Proof.
  set (text := concat_str (render_chunks formatValue metrics)). unfold WriteTextfile. destruct (String.eqb path ""); [apply wpp_ret; by left|].
  apply wpp_bind, wpp_call; [done|]. intros [e|] s' ->; [apply wpp_ret; by left|].
  apply wpp_bind, wpp_call; [done|]. intros [p|e] s' Hs; [|cbn in Hs; subst s'; apply wpp_ret; by left]. destruct Hs as (Hp & Hf & ->). cbn [mf_files mf_left] in *.
  apply wpp_bind. eapply wpp_mono; [apply wpp_write_chunks|]. intros e s (c & -> & Hc). destruct e as [e|].
  - apply wpp_bind, wpp_call; [done|]. intros b s' ->. by apply wpp_drop_tmp.
  - apply wpp_bind, wpp_call; [done|]. intros [e|] s' ->.
    + apply wpp_bind, wpp_call; [done|]. intros b s' ->. by apply wpp_drop_tmp.
    + apply wpp_bind, wpp_call; [done|]. intros [e|] s' ->; [by apply wpp_drop_tmp|]. apply wpp_bind, wpp_call.
      * cbn. rewrite lookup_insert_eq, (Hc eq_refl). done.
      * intros b s' Hs. cbn [answers textfile_spec mf_files mf_tmp mf_left] in Hs. subst s'. destruct b as [e|]; [by apply wpp_drop_tmp|]. apply wpp_ret. cbn.
        by rewrite lookup_insert_eq, delete_insert_id, (Hc eq_refl).
Qed.

Lemma samples_ok r mem : Forall metric_ok (buildSamples r mem).
Proof. unfold buildSamples. repeat (constructor; [split_and!; [vm_compute; by split_and!|apply map_Forall_empty|reflexivity]|]). constructor. Qed.

(** C33. The metrics file.  Whatever fails, and however much of a text was written, the target
    is what it was or the whole new text, which is then reported as success; only its
    temporary file is written to, and it is removed on every failure, unless the removal
    fails.  A scraper reads back from the text every metric with its name, its labels and
    its value, whatever the labels hold, the names in order and each group in the order of
    its metrics; the samples of [civmctl metrics dump] are such metrics. *)
Theorem metrics_are_replaced_whole_and_read_back `{SortSlice} {V} (formatValue : V -> string) path metrics files r mem :
  Forall metric_ok metrics -> (forall v, no_char "010" (formatValue v)) ->
  let text := concat_str (render_chunks formatValue metrics) in
  wpp (textfile_spec path text) (WriteTextfile formatValue path metrics) (replaced path text files) (mkMetricFs files None false) /\
  (exists order, NoDup order /\ StronglySorted (fun a b => String.ltb b a = false) order /\ (forall n, n ∈ order <-> exists m, m ∈ metrics /\ mt_Name m = n) /\
     read_text text = Some (order ≫= fun n => sample_of formatValue <$> named n metrics)) /\
  Forall metric_ok (buildSamples r mem).
Proof.
  intros Hok Hv. cbv zeta. split_and!; [apply wpp_textfile|by apply text_read_back|apply samples_ok].
Qed.

Definition awkward_metrics : list (Metric unit) :=
  [mkMetric "b_total" "two
lines" TypeCounter {[ "unit" := "a" +:+ dq +:+ ",b=" +:+ dq +:+ "}\" ]} tt;
   mkMetric "a" "" "" ∅ tt;
   mkMetric "b_total" "" "" {[ "unit" := eol ]} tt].

Lemma metrics_are_replaced_whole_and_read_back_witness :
  let text := concat_str (@render_chunks SortSlice_insertion unit (fun _ => "1") awkward_metrics) in
  (exists order, NoDup order /\ StronglySorted (fun a b => String.ltb b a = false) order /\
     (forall n, n ∈ order <-> exists m, m ∈ awkward_metrics /\ mt_Name m = n) /\
     read_text text = Some (order ≫= fun n => @sample_of SortSlice_insertion unit (fun _ => "1") <$> named n awkward_metrics)) /\
  read_text text = Some [("a", [], "1"); ("b_total", [("unit", "a" +:+ dq +:+ ",b=" +:+ dq +:+ "}\")], "1"); ("b_total", [("unit", eol)], "1")].
Proof.
  split; [|vm_compute; reflexivity].
  refine (proj1 (proj2 (@metrics_are_replaced_whole_and_read_back SortSlice_insertion unit (fun _ => "1") "/m/civm.prom" awkward_metrics ∅
    (mkCapReport "" 0 0 0 0 0 true "" false "" false "" None None) (mkMemResult 0 DecisionOK "" zero_meminfo "" "") _ _))); [|done].
  unfold awkward_metrics. repeat (constructor; [split_and!; [vm_compute; by split_and!| |reflexivity]|]); [| | |constructor].
  - apply map_Forall_singleton. by split.
  - apply map_Forall_empty.
  - apply map_Forall_singleton. by split.
Defined.

(** ** The commit status *)

(** At most one request, for a valid state, with a description of at most 140 bytes; success
    only when gh reports it. *)
Theorem report_posts_one_status opts :
  wpp {| allowed B (e : reportE B) (n : nat) := n = 0%nat /\ report_validateOptions opts = None /\
           match e with RepGh args => args = report_args opts end;
         answers B e n b n' := n' = S n |}
    (report_Post opts) (fun '(_, e) n => e = None -> n = 1%nat /\ state_Valid (rep_State opts) = true) 0%nat /\
  len (report_truncate (rep_Description opts) 140) <= 140.
Proof.
  split.
  - unfold report_Post. destruct (report_validateOptions opts) as [e|] eqn:E; [by apply wpp_ret|]. apply wpp_bind, wpp_call; [done|].
    intros [out err] n ->. apply wpp_ret. intros _. split; [done|]. unfold report_validateOptions in E.
    destruct (state_Valid (rep_State opts)); [done|]. by destruct (String.eqb (rep_Repo opts) ""), (Contains (rep_Repo opts) "/"), (String.eqb (rep_SHA opts) "").
  - unfold report_truncate. change (Z.of_nat 140) with 140. destruct (Z.leb_spec (len (rep_Description opts)) 140) as [Hl|_]; [done|]. cbn [Nat.ltb Nat.leb]. unfold len. rewrite length_app_str.
    assert (forall n s, (String.length (take_str n s) <= n)%nat) as Ht by (intros n; induction n as [|n IH]; intros [|c s]; cbn; [lia..|specialize (IH s); lia]).
    specialize (Ht (140 - 3)%nat (rep_Description opts)). cbn [String.length] in *. lia.
Qed.

(** The description is cut between bytes, in the middle of a character if need be, and the
    repository is any text with a slash. *)
Lemma report_gaps :
  let letter := String "195" (String "167" "") in
  let description := Join (replicate 71 letter) "" in
  Contains (report_truncate description 140) (String "195" "...") = true /\
  report_validateOptions (mkReportOptions "o/r/../../other/repo" "x?y" "success" "c" "" "") = None.
Proof. cbv zeta. split; vm_compute; reflexivity. Qed.
