(* ===== verification/DiskReports.v ===== *)
(** * internal/diskdoctor and internal/diskaudit

    Two read-only reports: why discard does or does not reclaim space for the host, and
    which known roots hold the space.  Commands, files and the walk are effects; the JSON
    decoders and the [%f] of [Sscanf] are parameters. *)

From S2P Require Import Prelude GoStrings Prog.

Local Open Scope string_scope.
Local Open Scope list_scope.
Local Open Scope Z_scope.

(** ** disk-doctor *)

Definition ControllerSCSI : string := "scsi".
Definition ControllerIDE : string := "ide".
Definition ControllerVirtio : string := "virtio".
Definition ControllerUnknown : string := "unknown".

Definition rootCauseDiscardDisabled : string := "discard disabled on mount".
Definition rootCauseIDEController : string := "IDE controller does not propagate UNMAP".
Definition rootCauseTrimNotAdvertised : string := "TRIM not advertised".
Definition rootCauseTrimSupported : string := "TRIM supported, online shrink expected".

Definition defaultRootPath : string := "/".
Definition procMountsPath : string := "/proc/mounts".
Definition discardOption : string := "discard".

Record DiskReport := mkDiskReport {
  dd_Device : string;
  dd_Controller : string;
  dd_MountDiscard : bool;
  dd_DiscGranBytes : Z;
  dd_DiscMaxBytes : Z;
  dd_TrimEffective : bool;
  dd_RootCause : string;
  dd_HostHeadroomViolation : bool;
  dd_ReferenceDeltaBytes : Z;
}.

Record DiskOptions := mkDiskOptions {
  dd_RootPath : string;
  dd_HostMetricsPath : string;
  dd_HostHeadroomGB : Z;
  dd_ReferenceTest : bool;
}.

Record findmntFilesystem := mkFindmnt { fm_Target : string; fm_Source : string; fm_Options : string }.

Inductive diskE : Type -> Type :=
  | DdRead (path : string) : diskE (result string)
  | DdRun (name : string) (args : list string) : diskE (string * err_ret).

Definition dd_DefaultOptions : DiskOptions := mkDiskOptions defaultRootPath "" 0 false.

Definition dd_applyDefaults (opts : DiskOptions) : DiskOptions :=
  if String.eqb (TrimSpace (dd_RootPath opts)) "" then mkDiskOptions defaultRootPath (dd_HostMetricsPath opts) (dd_HostHeadroomGB opts) (dd_ReferenceTest opts)
  else opts.

Definition dd_parseInt64 (s : string) : Z := default 0 (ParseInt (TrimSpace s)).
Definition deviceBaseName (device : string) : string := Base (TrimSpace device).

Definition has_source (f : findmntFilesystem) : bool := negb (String.eqb (TrimSpace (fm_Source f)) "").

(** The filesystem of the path itself, else the first with a source. *)
Definition device_of (root : string) (l : list findmntFilesystem) : option string :=
  match List.find (fun f => String.eqb (fm_Target f) root && has_source f) l with
  | Some f => Some (TrimSpace (fm_Source f))
  | None => match List.find has_source l with Some f => Some (TrimSpace (fm_Source f)) | None => None end
  end.

Definition mount_line (device : string) (line : string) : bool :=
  match Fields line with
  | source :: _ :: _ :: options :: _ => String.eqb source device && existsb (String.eqb discardOption) (Split "," options)
  | _ => false
  end.

Definition normalizeTransport (tran : string) : string :=
  if existsb (String.eqb tran) ["sata"; "scsi"; "sas"] then ControllerSCSI
  else if existsb (String.eqb tran) ["ata"; "ide"] then ControllerIDE
  else if String.eqb tran "virtio" then ControllerVirtio
  else ControllerUnknown.

Definition modalias_controller (modalias : string) : string :=
  let modalias := ToLower modalias in
  if Contains modalias "virtio" then ControllerVirtio
  else if Contains modalias "scsi" then ControllerSCSI
  else if Contains modalias "ide" || Contains modalias "ata" then ControllerIDE
  else ControllerUnknown.

(** The two limits on the first line of the device. *)
Fixpoint limits_of (base : string) (lines : list string) : Z * Z :=
  match lines with
  | [] => (0, 0)
  | line :: lines =>
      match Fields line with
      | name :: gran :: max :: _ =>
          if negb (String.eqb (TrimPrefix name "/dev/") base) && negb (String.eqb name base) then limits_of base lines
          else (dd_parseInt64 gran, dd_parseInt64 max)
      | _ => limits_of base lines
      end
  end.

Definition composeRootCause (mountDiscard : bool) (controller : string) (discMax : Z) : string :=
  if negb mountDiscard then rootCauseDiscardDisabled
  else if String.eqb controller ControllerIDE then rootCauseIDEController
  else if discMax =? 0 then rootCauseTrimNotAdvertised
  else rootCauseTrimSupported.

Section diskdoctor.
Context (decodeFindmnt : string -> result (list findmntFilesystem)) (decodeHost : string -> result Z).

Definition resolveDevice (opts : DiskOptions) : prog diskE (result string) :=
  '(out, err) ← call (DdRun "findmnt" ["--json"; "--target"; dd_RootPath opts]);
  mret match err with
       | Some e => Err (Errorf_w ("findmnt " +:+ dd_RootPath opts) e)
       | None =>
           match decodeFindmnt out with
           | Err e => Err (Errorf_w ("parse findmnt output for " +:+ dd_RootPath opts) e)
           | Ok l => match device_of (dd_RootPath opts) l with Some d => Ok d | None => Err (Errorf ("device not mounted on " +:+ dd_RootPath opts)) end
           end
       end.

Definition mountHasDiscard (device : string) : prog diskE bool :=
  data ← call (DdRead procMountsPath);
  mret match data with Err _ => false | Ok data => existsb (mount_line device) (Split "010" data) end.

Definition lsblkTransport (base : string) : prog diskE string :=
  '(out, err) ← call (DdRun "lsblk" ["-dno"; "TRAN"; PathJoin "/dev" base]);
  mret match err with Some _ => "" | None => ToLower (TrimSpace out) end.

Definition sysBlockController (base : string) : prog diskE string :=
  data ← call (DdRead (PathJoinAll ["/sys/block"; base; "device"; "modalias"]));
  mret match data with Err _ => ControllerUnknown | Ok data => modalias_controller data end.

Definition classifyController (device : string) : prog diskE string :=
  let base := deviceBaseName device in
  tran ← lsblkTransport base;
  let c := if String.eqb tran "" then ControllerUnknown else normalizeTransport tran in
  if negb (String.eqb c ControllerUnknown) then mret c else sysBlockController base.

Definition discardLimits (device : string) : prog diskE (Z * Z) :=
  let base := deviceBaseName device in
  '(out, err) ← call (DdRun "lsblk" ["-D"; "-b"; "-n"; "-o"; "NAME,DISC-GRAN,DISC-MAX"; PathJoin "/dev" base]);
  mret match err with Some _ => (0, 0) | None => limits_of base (Split "010" out) end.

Definition hostHeadroomViolation (opts : DiskOptions) : prog diskE bool :=
  if (dd_HostHeadroomGB opts <=? 0) || String.eqb (TrimSpace (dd_HostMetricsPath opts)) "" then mret false
  else
    data ← call (DdRead (dd_HostMetricsPath opts));
    mret match data with
         | Err _ => false
         | Ok data => match decodeHost data with Err _ => false | Ok free => free <? dd_HostHeadroomGB opts end
         end.

Definition referenceDelta : prog diskE Z :=
  '(out, err) ← call (DdRun "civm-reference-test" []);
  mret match err with Some _ => 0 | None => dd_parseInt64 (TrimSpace out) end.

Definition Diagnose (opts : DiskOptions) : prog diskE (result DiskReport) :=
  let opts := dd_applyDefaults opts in
  device ← resolveDevice opts;
  match device with
  | Err e => mret (Err e)
  | Ok device =>
      discard ← mountHasDiscard device;
      controller ← classifyController device;
      '(gran, max) ← discardLimits device;
      headroom ← hostHeadroomViolation opts;
      delta ← (if dd_ReferenceTest opts then referenceDelta else mret 0);
      mret (Ok (mkDiskReport device controller discard gran max (0 <? max) (composeRootCause discard controller max) headroom delta))
  end.
End diskdoctor.

(** ** disk-audit *)

Record AuditEntry := mkAuditEntry {
  ae_Name : string;
  ae_Kind : string;
  ae_Path : string;
  ae_Bytes : Z;
  ae_Status : string;
  ae_Error : string;
}.

Record AuditReport := mkAuditReport { ar_Entries : list AuditEntry; ar_TotalBytes : Z }.

Record AuditOptions := mkAuditOptions {
  ao_HomeDir : string;
  ao_RunnerWorkGlob : string;
  ao_Limit : Z;
  ao_IncludeSystem : bool;
  ao_IncludeDocker : bool;
}.

Record rootSpec := mkRootSpec { rs_name : string; rs_kind : string; rs_path : string }.

(** One call of the walk function: what [ctx.Err()] says then, the error of the walk, whether
    there is an entry and it is a directory, and its size, unless it has no size. *)
Record audit_visit := mkAuditVisit {
  av_ctx : err_ret;
  av_err : err_ret;
  av_info : result (bool * Z);
}.

Inductive auditE : Type -> Type :=
  | AuGlob (pattern : string) : auditE (result (list string))
  | AuStat (path : string) : auditE (result (bool * Z))     (* is it a directory?  its size *)
  | AuWalk (root : string) : auditE (list audit_visit * err_ret)
  | AuRun (name : string) (args : list string) : auditE (string * err_ret)
  | AuCtxErr : auditE err_ret
  | AuHome : auditE (result string).

Definition default_glob : string := "/home/*/actions-runner*/_work".

Definition audit_applyDefaults (opts : AuditOptions) : prog auditE AuditOptions :=
  home ← (if String.eqb (ao_HomeDir opts) "" then home ← call AuHome; mret match home with Ok h => h | Err _ => "" end else mret (ao_HomeDir opts));
  mret (mkAuditOptions home (if String.eqb (ao_RunnerWorkGlob opts) "" then default_glob else ao_RunnerWorkGlob opts)
          (if ao_Limit opts <=? 0 then 20 else ao_Limit opts) (ao_IncludeSystem opts) (ao_IncludeDocker opts)).

(** The closure [add]: a root counts once for each kind. *)
Definition add_root (roots : list rootSpec) (r : rootSpec) : list rootSpec :=
  let path := Clean (TrimSpace (rs_path r)) in
  if String.eqb path "." || String.eqb path "/" then roots
  else if existsb (fun r' => String.eqb (rs_kind r') (rs_kind r) && String.eqb (rs_path r') path) roots then roots
  else roots ++ [mkRootSpec (rs_name r) (rs_kind r) path].

Definition work_roots (work : string) : list rootSpec :=
  [mkRootSpec "runner_work" "runner" work; mkRootSpec "runner_tool_cache" "runner_cache" (PathJoin work "_tool");
   mkRootSpec "runner_action_cache" "runner_cache" (PathJoin work "_actions")].

Definition home_roots (home : string) : list rootSpec :=
  [mkRootSpec "home_cache" "home_cache" (PathJoin home ".cache"); mkRootSpec "go_pkg" "go_cache" (PathJoinAll [home; "go"; "pkg"]);
   mkRootSpec "codespace" "workspace_clones" (PathJoin home "codespace")].

Definition system_roots : list rootSpec := [mkRootSpec "var_log" "system" "/var/log"; mkRootSpec "var_cache" "system" "/var/cache"].

Section audit.
Context `{SortSlice, SortStable} (scan_float : string -> option SpecFloat.spec_float).

Definition auditRoots (opts : AuditOptions) : prog auditE (list rootSpec) :=
  matches ← call (AuGlob (ao_RunnerWorkGlob opts));
  let works := match matches with Ok l => sort_slice String.ltb l | Err _ => [] end in
  mret (foldl add_root []
          ((works ≫= work_roots) ++
           (if String.eqb (ao_HomeDir opts) "" then [] else home_roots (Clean (ao_HomeDir opts))) ++
           (if ao_IncludeSystem opts then system_roots else []))).

Definition duSize (path : string) : prog auditE (result Z) :=
  '(out, err) ← call (AuRun "du" ["-sb"; path]);
  mret match err with
       | Some e => Err e
       | None =>
           match Fields out with
           | [] => Err (Errorf "empty du output")
           | n :: _ => match ParseInt n with Some n => Ok n | None => Err (Errorf ("parse du output " +:+ TrimSpace out)) end
           end
       end.

(** The walk: the bytes so far, the first error, and the error that ended it. *)
Fixpoint walk_bytes (visits : list audit_visit) (bytes : Z) (firstErr : err_ret) : Z * err_ret * err_ret :=
  match visits with
  | [] => (bytes, firstErr, None)
  | v :: visits =>
      match av_ctx v with
      | Some e => (bytes, firstErr, Some e)
      | None =>
          let keep e := match firstErr with Some f => Some f | None => Some e end in
          match av_err v with
          | Some e => walk_bytes visits bytes (keep e)
          | None =>
              match av_info v with
              | Err e => walk_bytes visits bytes (keep e)
              | Ok (isDir, size) => walk_bytes visits (if isDir : bool then bytes else int64 (bytes + size)) firstErr
              end
          end
      end
  end.

Definition measureRoot (root : rootSpec) : prog auditE AuditEntry :=
  let entry bytes status err := mkAuditEntry (rs_name root) (rs_kind root) (rs_path root) bytes status err in
  info ← call (AuStat (rs_path root));
  match info with
  | Err e => mret (if errors_Is e ErrNotExist then entry 0 "missing" "" else entry 0 "error" (err_text e))
  | Ok (isDir, size) =>
      if negb isDir then mret (entry size "ok" "")
      else
        du ← duSize (rs_path root);
        match du with
        | Ok bytes => mret (entry bytes "ok" "")
        | Err _ =>
            ctxErr ← call AuCtxErr;
            match ctxErr with
            | Some e => mret (entry 0 "partial" (err_text e))
            | None =>
                '(visits, own) ← call (AuWalk (rs_path root));
                let '(bytes, firstErr, stopped) := walk_bytes visits 0 None in
                let err := match stopped with Some e => Some e | None => own end in
                let firstErr := match firstErr with Some e => Some e | None => err end in
                mret match firstErr with Some e => entry bytes "partial" (err_text e) | None => entry bytes "ok" "" end
            end
        end
  end.

Definition suffixes : list (string * Z) := [("GB", 2 ^ 30); ("MB", 2 ^ 20); ("kB", 2 ^ 10); ("KB", 2 ^ 10); ("B", 1)].

Definition parseHumanBytes (s : string) : Z :=
  let s := TrimSpace s in
  if String.eqb s "" then 0
  else
    let '(mult, s) := match List.find (fun p => HasSuffix s (fst p)) suffixes with
                      | Some (raw, mult) => (mult, TrimSuffix s raw)
                      | None => (1, s)
                      end in
    match scan_float s with
    | None => 0
    | Some f => int64_of_float (SpecFloat.SFmul 53 1024 f (float64 mult))
    end.

Definition parseReclaimable (s : string) : Z :=
  foldl (fun total line => match Fields (TrimSpace line) with [] => total | f :: _ => int64 (total + parseHumanBytes f) end) 0 (Split "010" s).

Definition dockerEntry : prog auditE AuditEntry :=
  let entry bytes status err := mkAuditEntry "docker_reclaimable" "docker" "(docker daemon)" bytes status err in
  '(out, err) ← call (AuRun "docker" ["system"; "df"; "--format"; "{{.Reclaimable}}"]);
  mret match err with Some e => entry 0 "error" (err_text e) | None => entry (parseReclaimable out) "ok" "" end.

Definition entry_lt (a b : AuditEntry) : bool :=
  if ae_Bytes a =? ae_Bytes b then String.ltb (ae_Path a) (ae_Path b) else ae_Bytes b <? ae_Bytes a.

Fixpoint measure_all (roots : list rootSpec) : prog auditE (list AuditEntry) :=
  match roots with
  | [] => mret []
  | root :: roots => e ← measureRoot root; l ← measure_all roots; mret (e :: l)
  end.

Definition audit_Collect (opts : AuditOptions) : prog auditE AuditReport :=
  opts ← audit_applyDefaults opts;
  roots ← auditRoots opts;
  entries ← measure_all roots;
  docker ← (if ao_IncludeDocker opts then d ← dockerEntry; mret [d] else mret []);
  let entries := sort_stable entry_lt (entries ++ docker) in
  let entries := if (0 <? ao_Limit opts) && (ao_Limit opts <? Z.of_nat (length entries)) then take (Z.to_nat (ao_Limit opts)) entries else entries in
  mret (mkAuditReport entries (foldl (fun total e => int64 (total + ae_Bytes e)) 0 entries)).
End audit.

(** ** Properties *)

(** disk-doctor only reads; the reference test, which writes, is run only on demand. *)
Definition diagnosis_spec (opts : DiskOptions) : spec diskE unit := {|
  allowed B e s := match e with
    | DdRead _ => True
    | DdRun name _ => name ∈ ["findmnt"; "lsblk"] \/ (name = "civm-reference-test" /\ dd_ReferenceTest opts = true)
    end;
  answers B e s b s' := True |}.

Lemma wpp_controller opts device (Q : string -> unit -> Prop) : (forall c, Q c tt) -> wpp (diagnosis_spec opts) (classifyController device) Q tt.
Proof.
  intros HQ. unfold classifyController, lsblkTransport. apply wpp_bind, wpp_bind, wpp_call; [left; right; by left|]. intros [out err] [] _. apply wpp_ret.
  destruct (negb _); [by apply wpp_ret|]. unfold sysBlockController. apply wpp_bind, wpp_call; [done|]. intros b [] _. by apply wpp_ret.
Qed.

Lemma wpp_headroom decodeHost opts o (Q : bool -> unit -> Prop) : (forall b, Q b tt) -> wpp (diagnosis_spec opts) (hostHeadroomViolation decodeHost o) Q tt.
Proof.
  intros HQ. unfold hostHeadroomViolation. destruct (_ || _); [by apply wpp_ret|]. apply wpp_bind, wpp_call; [done|]. intros b [] _. by apply wpp_ret.
Qed.

Lemma root_cause discard controller max :
  (composeRootCause discard controller max = rootCauseTrimSupported <-> discard = true /\ controller <> ControllerIDE /\ max <> 0) /\
  (composeRootCause discard controller max = rootCauseDiscardDisabled <-> discard = false).
Proof.
  unfold composeRootCause. destruct discard; cbn [negb]; [|naive_solver].
  destruct (String.eqb_spec controller ControllerIDE); [|destruct (Z.eqb_spec max 0)]; naive_solver.
Qed.

(** disk-doctor fails only without a device, and the root cause is the first obstacle in the
    order mount, controller, device. *)
Theorem diagnosis_is_read_only decodeFindmnt decodeHost opts :
  wpp (diagnosis_spec opts) (Diagnose decodeFindmnt decodeHost opts)
    (fun r _ => match r with
                | Err _ => True
                | Ok r =>
                    (dd_TrimEffective r = true <-> 0 < dd_DiscMaxBytes r) /\
                    (dd_RootCause r = rootCauseTrimSupported <-> dd_MountDiscard r = true /\ dd_Controller r <> ControllerIDE /\ dd_DiscMaxBytes r <> 0) /\
                    (dd_RootCause r = rootCauseDiscardDisabled <-> dd_MountDiscard r = false) /\
                    (dd_ReferenceDeltaBytes r <> 0 -> dd_ReferenceTest opts = true)
                end) tt.
Proof.
  assert (dd_ReferenceTest (dd_applyDefaults opts) = dd_ReferenceTest opts) as Hrt by (unfold dd_applyDefaults; by destruct (String.eqb _ _)).
  unfold Diagnose, resolveDevice. apply wpp_bind, wpp_bind, wpp_call; [left; by left|]. intros [out err] [] _. apply wpp_ret.
  destruct (match err with Some _ => _ | None => _ end) as [device|e]; [|by apply wpp_ret].
  unfold mountHasDiscard. apply wpp_bind, wpp_bind, wpp_call; [done|]. intros data [] _. apply wpp_ret. set (discard := match data with Ok _ => _ | Err _ => _ end).
  apply wpp_bind, wpp_controller. intros controller.
  unfold discardLimits. apply wpp_bind, wpp_bind, wpp_call; [left; right; by left|]. intros [o2 e2] [] _. apply wpp_ret.
  destruct (match e2 with Some _ => _ | None => _ end) as [gran max]. apply wpp_bind, wpp_headroom. intros headroom. apply wpp_bind. rewrite Hrt.
  destruct (root_cause discard controller max). destruct (dd_ReferenceTest opts) eqn:Et.
  - unfold referenceDelta. apply wpp_bind, wpp_call; [by right|]. intros [o e] [] _. apply wpp_ret, wpp_ret. cbn. split_and!; [apply Z.ltb_lt|done..].
  - apply wpp_ret, wpp_ret. cbn. split_and!; [apply Z.ltb_lt|done..].
Qed.

(** Any mount of the device counts, not only the one of the path, and an option such as
    discard=async does not. *)
Lemma discard_of_another_mount :
  existsb (mount_line "/dev/sda1") (Split "010" ("/dev/sda1 / ext4 rw,relatime 0 0" +:+ String "010" "/dev/sda1 /srv ext4 rw,discard 0 0")) = true /\
  mount_line "/dev/sda1" "/dev/sda1 / btrfs rw,discard=async 0 0" = false.
Proof. split; vm_compute; reflexivity. Qed.

(** *** The audit *)

(** Only sizes are asked for. *)
Definition audit_spec : spec auditE unit := {|
  allowed B e s := match e with AuRun name args => name = "du" /\ (exists path, args = ["-sb"; path]) \/ name = "docker" /\ take 2 args = ["system"; "df"] | _ => True end;
  answers B e s b s' := True |}.

Definition root_key (r : rootSpec) : string * string := (rs_kind r, rs_path r).

Lemma add_root_ok roots r : NoDup (root_key <$> roots) -> Forall (fun r => rs_path r <> "/" /\ rs_path r <> ".") roots ->
  NoDup (root_key <$> add_root roots r) /\ Forall (fun r => rs_path r <> "/" /\ rs_path r <> ".") (add_root roots r).
Proof.
  intros Hnd Hok. unfold add_root. destruct (String.eqb_spec (Clean (TrimSpace (rs_path r))) ".") as [|H1]; [done|].
  destruct (String.eqb_spec (Clean (TrimSpace (rs_path r))) "/") as [|H2]; [done|]. cbn [orb]. destruct (existsb _ roots) eqn:E; [done|]. split.
  - rewrite fmap_app. apply NoDup_app. split_and!; [done| |apply NoDup_singleton]. intros k (r' & -> & Hr')%list_elem_of_fmap Hk%list_elem_of_singleton.
    unfold root_key in Hk. cbn in Hk. injection Hk as Hk Hp. apply Bool.not_true_iff_false in E. apply E, existsb_exists. exists r'.
    rewrite list_elem_of_In in Hr'. by rewrite Hk, Hp, !String.eqb_refl.
  - apply Forall_app. split; [done|]. by repeat constructor.
Qed.

Lemma add_roots_ok l : forall roots, NoDup (root_key <$> roots) -> Forall (fun r => rs_path r <> "/" /\ rs_path r <> ".") roots ->
  NoDup (root_key <$> foldl add_root roots l) /\ Forall (fun r => rs_path r <> "/" /\ rs_path r <> ".") (foldl add_root roots l).
Proof. induction l as [|r l IH]; intros roots Hnd Hok; cbn; [done|]. destruct (add_root_ok roots r Hnd Hok). by apply IH. Qed.

Lemma wpp_measureRoot root : wpp audit_spec (measureRoot root) (fun e _ => ae_Kind e = rs_kind root /\ ae_Path e = rs_path root) tt.
Proof.
  unfold measureRoot. apply wpp_bind, wpp_call; [done|]. intros [[isDir size]|e] [] _; [|apply wpp_ret; by destruct (errors_Is e ErrNotExist)].
  destruct (negb isDir); [by apply wpp_ret|]. unfold duSize. apply wpp_bind, wpp_bind, wpp_call; [left; eauto|]. intros [out err] [] _. apply wpp_ret.
  destruct (match err with Some _ => _ | None => _ end); [by apply wpp_ret|]. apply wpp_bind, wpp_call; [done|]. intros [e'|] [] _; [by apply wpp_ret|].
  apply wpp_bind, wpp_call; [done|]. intros [visits own] [] _. destruct (walk_bytes visits 0 None) as [[bytes f] stopped]. apply wpp_ret.
  by destruct f, stopped, own.
Qed.

Lemma wpp_measure_all roots : wpp audit_spec (measure_all roots) (fun l _ => (fun e => (ae_Kind e, ae_Path e)) <$> l = root_key <$> roots) tt.
Proof.
  induction roots as [|root roots IH]; cbn [measure_all]; [by apply wpp_ret|]. apply wpp_bind. eapply wpp_mono; [apply wpp_measureRoot|]. intros e [] [Hk Hp].
  apply wpp_bind. eapply wpp_mono; [apply IH|]. intros l [] Hl. apply wpp_ret. rewrite !fmap_cons, Hl. unfold root_key at 1. by rewrite Hk, Hp.
Qed.

Lemma entry_lt_asym a b : entry_lt a b = true -> entry_lt b a = false.
Proof.
  unfold entry_lt. destruct (Z.eqb_spec (ae_Bytes a) (ae_Bytes b)) as [E|E]; [rewrite E, Z.eqb_refl; apply ltb_asym|].
  destruct (Z.eqb_spec (ae_Bytes b) (ae_Bytes a)); [congruence|]. rewrite Z.ltb_lt, Z.ltb_ge. lia.
Qed.

Lemma entry_lt_false_trans a b c : entry_lt b a = false -> entry_lt c b = false -> entry_lt c a = false.
Proof.
  unfold entry_lt. destruct (Z.eqb_spec (ae_Bytes b) (ae_Bytes a)), (Z.eqb_spec (ae_Bytes c) (ae_Bytes b)), (Z.eqb_spec (ae_Bytes c) (ae_Bytes a));
    rewrite ?Z.ltb_ge; try lia. apply ltb_trans_false.
Qed.

Lemma sorted_entries `{SortStable} l : sort_stable entry_lt l = insertion_sort entry_lt l.
Proof. apply sort_stable_eq; intros; [by apply entry_lt_asym|by eapply entry_lt_false_trans]. Qed.

Lemma total_wraps l : forall t, foldl (fun total e => int64 (total + ae_Bytes e)) (int64 t) l = int64 (t + foldr (fun e acc => ae_Bytes e + acc) 0 l).
Proof.
  induction l as [|e l IH]; intros t; cbn [foldl foldr]; [by rewrite Z.add_0_r|]. rewrite Z.add_assoc, <- IH. f_equal. apply int64_add_l.
Qed.

(** The audit asks for sizes only.  It measures each kind of root once, never the whole file
    system, and lists the largest, the greatest first and then by path: nothing that was
    left out is greater than what is listed.  The total is that of the entries listed. *)
Theorem audit_lists_the_largest `{SortSlice, SortStable} scan_float opts :
  wpp audit_spec (audit_Collect scan_float opts)
    (fun r _ => exists roots docker dropped,
       NoDup (root_key <$> roots) /\ Forall (fun r => rs_path r <> "/" /\ rs_path r <> ".") roots /\
       (length docker <= 1)%nat /\
       (fun e => (ae_Kind e, ae_Path e)) <$> (ar_Entries r ++ dropped) ≡ₚ (root_key <$> roots) ++ docker /\
       StronglySorted (fun a b => entry_lt b a = false) (ar_Entries r ++ dropped) /\
       (dropped <> [] -> Z.of_nat (length (ar_Entries r)) = if ao_Limit opts <=? 0 then 20 else ao_Limit opts) /\
       ar_TotalBytes r = int64 (foldr (fun e acc => ae_Bytes e + acc) 0 (ar_Entries r))) tt.
Proof.
  unfold audit_Collect. apply wpp_bind. unfold audit_applyDefaults. apply wpp_bind.
  assert (forall Q : string -> unit -> Prop, (forall h, Q h tt) ->
    wpp audit_spec (if String.eqb (ao_HomeDir opts) "" then home ← call AuHome; mret match home with Ok h => h | Err _ => "" end else mret (ao_HomeDir opts)) Q tt) as Hh.
  { intros Q HQ. destruct (String.eqb _ _); [|by apply wpp_ret]. apply wpp_bind, wpp_call; [done|]. intros b [] _. by apply wpp_ret. }
  apply Hh. clear Hh. intros home. apply wpp_ret. cbn [ao_IncludeDocker ao_Limit]. set (limit := if ao_Limit opts <=? 0 then 20 else ao_Limit opts).
  apply wpp_bind. unfold auditRoots. apply wpp_bind, wpp_call; [done|]. intros ms [] _. apply wpp_ret. set (works := match ms with Ok _ => _ | Err _ => _ end).
  set (roots := foldl add_root [] _). destruct (add_roots_ok ((works ≫= work_roots) ++ (if String.eqb home "" then [] else home_roots (Clean home)) ++
    (if ao_IncludeSystem opts then system_roots else [])) []) as [Hnd Hok]; [constructor..|]. apply wpp_bind. eapply wpp_mono; [apply wpp_measure_all|]. intros l [] Hl.
  apply wpp_bind.
  assert (forall Q : list AuditEntry -> unit -> Prop, (forall d, (length d <= 1)%nat -> Q d tt) ->
    wpp audit_spec (if ao_IncludeDocker opts then d ← dockerEntry scan_float; mret [d] else mret []) Q tt) as Hd.
  { intros Q HQ. destruct (ao_IncludeDocker opts); [|apply wpp_ret, HQ; cbn; lia]. unfold dockerEntry. apply wpp_bind, wpp_bind, wpp_call; [by right|].
    intros [out err] [] _. apply wpp_ret, wpp_ret, HQ. done. }
  apply Hd. intros d Hdl. apply wpp_ret. rewrite sorted_entries.
  set (sorted := insertion_sort entry_lt (l ++ d)). set (kept := if (0 <? limit) && _ then take (Z.to_nat limit) sorted else sorted).
  assert (exists dropped, sorted = kept ++ dropped /\ (dropped <> [] -> Z.of_nat (length kept) = limit)) as (dropped & Es & Hdr).
  { unfold kept. destruct (Z.ltb_spec 0 limit), (Z.ltb_spec limit (Z.of_nat (length sorted))); cbn [andb];
      try (exists []; split; [by rewrite app_nil_r|done]). exists (drop (Z.to_nat limit) sorted). rewrite take_drop. split; [done|]. intros _. rewrite length_take. lia. }
  exists roots, ((fun e => (ae_Kind e, ae_Path e)) <$> d), dropped. cbn [ar_Entries ar_TotalBytes]. rewrite <- Es. split_and!; [done|done|by rewrite length_fmap| | |done|].
  - unfold sorted. rewrite insertion_sort_perm, fmap_app, Hl. done.
  - apply insertion_sort_sorted; [apply entry_lt_asym|]. intros x y z. apply entry_lt_false_trans.
  - apply (total_wraps kept 0).
Qed.

(** A host with one runner directory of 100 bytes, 60 of them in its tool cache. *)
Definition nested_host (B : Type) (e : auditE B) : St unit B :=
  match e in auditE B return St unit B with
  | AuGlob _ => fun w => (Ok ["/home/u/actions-runner/_work"], w)
  | AuStat path => fun w => (if HasPrefix path "/home/u/actions-runner/" then Ok (true, 0) else Err (Errorf_s ErrNotExist "stat"), w)
  | AuWalk _ => fun w => (([], None), w)
  | AuRun _ args => fun w => ((if existsb (String.eqb "/home/u/actions-runner/_work") args then "100"
                               else if existsb (String.eqb "/home/u/actions-runner/_work/_tool") args then "60" else "0", None), w)
  | AuCtxErr => fun w => (None, w)
  | AuHome => fun w => (Ok "/home/u", w)
  end.

(** The caches of a runner lie in its work directory and are counted again; a terabyte of
    images is counted as a byte. *)
Lemma audit_total_is_off scan_float :
  ar_TotalBytes (fst (interp nested_host (@audit_Collect SortSlice_insertion SortStable_insertion scan_float (mkAuditOptions "" "" 0 false false)) tt)) = 160 /\
  (scan_float "1T" = Some (float64 1) -> parseHumanBytes scan_float "1TB" = 1).
Proof. split; [vm_compute; reflexivity|]. intros E. unfold parseHumanBytes.
  change (TrimSpace "1TB") with "1TB". cbv zeta. change (String.eqb "1TB" "") with false. cbv iota.
  change (List.find (fun p => HasSuffix "1TB" (fst p)) suffixes) with (Some ("B", 1)). cbv iota beta. change (TrimSuffix "1TB" "B") with "1T".
  rewrite E. vm_compute. reflexivity.
Qed.
