(* ===== verification/ActionsMetrics.v ===== *)
(** * internal/actionsmetrics: usage of GitHub Actions over a period

    [Collect] sums the billing items of an organization by SKU and repository and counts
    the runs of each repository with a pool of goroutines ([runJobs], the step relation of
    [WorkerPool]).  Quantities are [float64].  gh, systemd and the clock are effects; the
    JSON decoders, [time.Parse] of a date and the formatted dates of the month are
    parameters. *)

From S2P Require Import Prelude GoStrings Regex Prog Civm RunnerUnits WorkerPool Activeruns ActiverunsSafety.

Local Open Scope string_scope.
Local Open Scope list_scope.
Local Open Scope Z_scope.

Record UsageItem := mkUsageItem {
  ui_Product : string;
  ui_SKU : string;
  ui_Quantity : SpecFloat.spec_float;
  ui_UnitType : string;
  ui_OrganizationName : string;
  ui_RepositoryName : string;
}.

Record RepoMetric := mkRepoMetric {
  rm_Repo : string;
  rm_HostedMinutes : Z;
  rm_RunsTotal : Z;
  rm_RunsInPeriod : Z;
  rm_StorageGBHours : Z;
}.

Record SKUTotal := mkSKUTotal {
  sk_SKU : string;
  sk_Minutes : Z;
  sk_Storage : SpecFloat.spec_float;
  sk_UnitType : string;
}.

Record UsageReport := mkUsageReport {
  ur_CollectedAt : Z;
  ur_StartDate : string;
  ur_EndDate : string;
  ur_Organization : string;
  ur_TotalMinutes : Z;
  ur_TotalRuns : Z;
  ur_BySKU : list SKUTotal;
  ur_ByRepo : list RepoMetric;
  ur_Exit : Z;
}.

Record UsageOptions := mkUsageOptions {
  uo_Organization : string;
  uo_Repos : list string;
  uo_InferRepos : bool;
  uo_StartDate : string;
  uo_EndDate : string;
  uo_Concurrency : Z;
}.

Record runCountResult := mkRunCount { rc_repo : string; rc_count : Z; rc_err : err_ret }.
Definition no_count : runCountResult := mkRunCount "" 0 None.

(** [gh api endpoint]. *)
Inductive apiE : Type -> Type := GhApi (endpoint : string) : apiE (string * err_ret).

Inductive usageE : Type -> Type :=
  | UsApi (endpoint : string) : usageE (string * err_ret)
  | UsRunners : usageE (list Status * err_ret)
  | UsNow : usageE Z
  | UsRunJobs (concurrency : Z) (jobs : list (job apiE (list runCountResult))) (g : list runCountResult) : usageE (list runCountResult).

(** [^[A-Za-z0-9][A-Za-z0-9-]*$] *)
Definition orgSlug : regex := RCat (RCls alnum) (RStar (RCls (alnum ++ chars "-"))).
Definition validOrg (s : string) : bool := negb (String.eqb s "") && (len s <=? 64) && MatchString orgSlug s.

(** ** Billing *)

Record sums := mkSums {
  sm_skus : gmap string SKUTotal;
  sm_total : Z;
  sm_minutes : gmap string Z;
  sm_storage : gmap string Z;
}.

Definition add_to (m : gmap string Z) (k : string) (v : Z) : gmap string Z := <[k := int64 (default 0 (m !! k) + v)]> m.

(** The body of the loop over the items. *)
Definition add_item (s : sums) (it : UsageItem) : sums :=
  if negb (String.eqb (ui_Product it) "actions") then s
  else
    let t := default (mkSKUTotal (ui_SKU it) 0 (SpecFloat.S754_zero false) (ui_UnitType it)) (sm_skus s !! ui_SKU it) in
    let named := negb (String.eqb (ui_RepositoryName it) "") in
    if String.eqb (ui_UnitType it) "Minutes" then
      let minutes := int64_of_float (ui_Quantity it) in
      mkSums (<[ui_SKU it := mkSKUTotal (sk_SKU t) (int64 (sk_Minutes t + minutes)) (sk_Storage t) (sk_UnitType t)]> (sm_skus s))
        (int64 (sm_total s + minutes))
        (if named then add_to (sm_minutes s) (ui_RepositoryName it) minutes else sm_minutes s) (sm_storage s)
    else if String.eqb (ui_UnitType it) "GigabyteHours" then
      mkSums (<[ui_SKU it := mkSKUTotal (sk_SKU t) (sk_Minutes t) (SpecFloat.SFadd 53 1024 (sk_Storage t) (ui_Quantity it)) (sk_UnitType t)]> (sm_skus s))
        (sm_total s) (sm_minutes s)
        (if named then add_to (sm_storage s) (ui_RepositoryName it) (int64_of_float (SpecFloat.SFmul 53 1024 (ui_Quantity it) (float64 1000)))
         else sm_storage s)
    else mkSums (<[ui_SKU it := t]> (sm_skus s)) (sm_total s) (sm_minutes s) (sm_storage s).

Definition no_sums : sums := mkSums ∅ 0 ∅ ∅.

Definition sku_before (a b : SKUTotal) : bool := sk_Minutes b <? sk_Minutes a.
Definition repo_before (a b : RepoMetric) : bool := rm_HostedMinutes b <? rm_HostedMinutes a.

Section collect.
Context `{SortSlice, MapRange}.
Context (decodeUsage : string -> result (list UsageItem)) (decodeCount : string -> result Z).
Context (validDate : string -> bool).
(** The first of the current month and today, as formatted. *)
Context (monthStart today : string).

(** [aggregateSKUs]: the totals by SKU, and the sums. *)
Definition aggregateSKUs (usage : list UsageItem) : list SKUTotal * sums :=
  let s := foldl add_item no_sums usage in
  (sort_slice sku_before (snd <$> map_range (sm_skus s)), s).

(** ** Repositories *)

Definition am_inferRepos (systemd : list Status) : list string :=
  sort_slice String.ltb (once ∅ (List.filter (fun repo => negb (String.eqb repo "") && Contains repo "/") (st_Repo <$> systemd))).

Definition am_resolveRepos (opts : UsageOptions) : prog usageE (result (list string)) :=
  let check repos := match validateRepos repos with Some e => Err e | None => Ok repos end in
  if uo_InferRepos opts && bool_decide (uo_Repos opts = []) then
    '(systemd, err) ← call UsRunners;
    mret match err with Some e => Err (Errorf_w "infer repos" e) | None => check (am_inferRepos systemd) end
  else mret (check (uo_Repos opts)).

Definition usage_endpoint (opts : UsageOptions) : string :=
  "organizations/" +:+ uo_Organization opts +:+ "/settings/billing/usage?start_date=" +:+ uo_StartDate opts +:+ "&end_date=" +:+ uo_EndDate opts.
Definition count_endpoint (opts : UsageOptions) (repo : string) : string :=
  "repos/" +:+ repo +:+ "/actions/runs?created=" +:+ uo_StartDate opts +:+ ".." +:+ uo_EndDate opts +:+ "&per_page=1".

Definition fetchBillingUsage (opts : UsageOptions) : prog usageE (result (list UsageItem)) :=
  '(out, err) ← call (UsApi (usage_endpoint opts));
  mret match err with
       | Some e => Err (Errorf_w "gh api billing/usage" e)
       | None => match decodeUsage out with Err e => Err (Errorf_w "parse billing/usage" e) | Ok l => Ok l end
       end.

Definition fetchRunCount (opts : UsageOptions) (repo : string) : prog apiE (Z * err_ret) :=
  '(out, err) ← call (GhApi (count_endpoint opts repo));
  mret match err with
       | Some e => (0, Some (Errorf_w ("gh api runs " +:+ repo) e))
       | None => match decodeCount out with Err e => (0, Some (Errorf_w ("parse runs " +:+ repo) e)) | Ok n => (n, None) end
       end.

(** The job of repository [i]: its count, written to its slot. *)
Definition count_job (opts : UsageOptions) (i : nat) (repo : string) : job apiE (list runCountResult) :=
  '(c, err) ← fetchRunCount opts repo;
  mret (fun results => <[i := mkRunCount repo c err]> results).

Definition run_table (results : list runCountResult) : gmap string Z * bool :=
  foldl (fun '(repoRuns, failed) r => (<[rc_repo r := rc_count r]> repoRuns, failed || bool_decide (rc_err r <> None))) (∅, false) results.

Definition fetchRunCounts (opts : UsageOptions) (repos : list string) : prog usageE (gmap string Z * bool) :=
  results ← call (UsRunJobs (uo_Concurrency opts) (imap (count_job opts) repos) (replicate (length repos) no_count));
  mret (run_table results).

(** [strings.SplitN(repo, "/", 2)], the last part. *)
Definition repo_name (repo : string) : string := match String.index 0 "/" repo with Some n => drop_str (S n) repo | None => repo end.

Definition repo_metric (s : sums) (repoRuns : gmap string Z) (repo : string) : RepoMetric :=
  let runs := default 0 (repoRuns !! repo) in
  mkRepoMetric repo (default 0 (sm_minutes s !! repo_name repo)) runs runs (default 0 (sm_storage s !! repo_name repo)).

(** [assembleByRepo]: the rows, the total of the runs, and whether a count failed. *)
Definition assembleByRepo (opts : UsageOptions) (repos : list string) (s : sums) : prog usageE (list RepoMetric * Z * bool) :=
  match repos with
  | [] => mret ((fun '(repoName, m) => mkRepoMetric (uo_Organization opts +:+ "/" +:+ repoName) m 0 0 (default 0 (sm_storage s !! repoName))) <$>
                  map_range (sm_minutes s), 0, false)
  | _ =>
      '(repoRuns, failed) ← fetchRunCounts opts repos;
      let rows := repo_metric s repoRuns <$> repos in
      mret (rows, foldl (fun total r => int64 (total + rm_RunsTotal r)) 0 rows, failed)
  end.

Definition am_validateOptions (opts : UsageOptions) : err_ret :=
  if negb (validOrg (uo_Organization opts)) then Some (Errorf "organization deve ser slug seguro [A-Za-z0-9-]+")
  else if negb (validDate (uo_StartDate opts)) || negb (validDate (uo_EndDate opts)) then Some (Errorf "start_date/end_date devem ser YYYY-MM-DD")
  else None.

Definition am_applyDefaults (opts : UsageOptions) : UsageOptions :=
  mkUsageOptions (uo_Organization opts) (uo_Repos opts) (uo_InferRepos opts)
    (if String.eqb (uo_StartDate opts) "" then monthStart else uo_StartDate opts)
    (if String.eqb (uo_EndDate opts) "" then today else uo_EndDate opts)
    (if uo_Concurrency opts <=? 0 then 4 else uo_Concurrency opts).

Definition usage_Collect (opts : UsageOptions) : prog usageE (result UsageReport) :=
  let opts := am_applyDefaults opts in
  match am_validateOptions opts with
  | Some e => mret (Err e)
  | None =>
      repos ← am_resolveRepos opts;
      match repos with
      | Err e => mret (Err e)
      | Ok repos =>
          now ← call UsNow;
          usage ← fetchBillingUsage opts;
          let '(bySKU, s) := aggregateSKUs (match usage with Ok l => l | Err _ => [] end) in
          '(rows, runs, failed) ← assembleByRepo opts repos s;
          let exit := match usage with Err _ => 1 | Ok _ => if failed : bool then 1 else 0 end in
          mret (Ok (mkUsageReport now (uo_StartDate opts) (uo_EndDate opts) (uo_Organization opts) (sm_total s) runs bySKU
                      (sort_slice repo_before rows) exit))
      end
  end.
End collect.

(** ** The sums *)

(** The minutes of the Actions items that satisfy [p], each item cut to whole minutes. *)
Definition minutes_where (p : UsageItem -> bool) (items : list UsageItem) : Z :=
  foldr (fun it acc => (if String.eqb (ui_Product it) "actions" && String.eqb (ui_UnitType it) "Minutes" && p it then int64_of_float (ui_Quantity it) else 0) + acc) 0 items.
Definition storage_where (p : UsageItem -> bool) (items : list UsageItem) : Z :=
  foldr (fun it acc => (if String.eqb (ui_Product it) "actions" && negb (String.eqb (ui_UnitType it) "Minutes") && String.eqb (ui_UnitType it) "GigabyteHours" && p it
                        then int64_of_float (SpecFloat.SFmul 53 1024 (ui_Quantity it) (float64 1000)) else 0) + acc) 0 items.

Definition of_repo (name : string) (it : UsageItem) : bool := negb (String.eqb (ui_RepositoryName it) "") && String.eqb (ui_RepositoryName it) name.
Definition of_sku (sku : string) (it : UsageItem) : bool := String.eqb (ui_SKU it) sku.

Lemma minutes_snoc p items it : minutes_where p (items ++ [it]) =
  minutes_where p items + (if String.eqb (ui_Product it) "actions" && String.eqb (ui_UnitType it) "Minutes" && p it then int64_of_float (ui_Quantity it) else 0).
Proof. unfold minutes_where. induction items as [|x items IH]; cbn [foldr app]; [lia|]. rewrite IH. lia. Qed.

Lemma storage_snoc p items it : storage_where p (items ++ [it]) =
  storage_where p items + (if String.eqb (ui_Product it) "actions" && negb (String.eqb (ui_UnitType it) "Minutes") && String.eqb (ui_UnitType it) "GigabyteHours" && p it
                           then int64_of_float (SpecFloat.SFmul 53 1024 (ui_Quantity it) (float64 1000)) else 0).
Proof. unfold storage_where. induction items as [|x items IH]; cbn [foldr app]; [lia|]. rewrite IH. lia. Qed.

Lemma int64_idem a : int64 (int64 a) = int64 a.
Proof. pose proof (int64_add_l a 0) as Hi. by rewrite !Z.add_0_r in Hi. Qed.

Lemma default_add_to m k v k' a b : default 0 (m !! k') = int64 a -> (k = k' -> b = v) -> (k <> k' -> b = 0) ->
  default 0 (add_to m k v !! k') = int64 (a + b).
Proof.
  intros Hm H1 H2. unfold add_to. destruct (decide (k = k')) as [<-|Hne].
  - rewrite lookup_insert_eq, Hm, (H1 eq_refl). apply int64_add_l.
  - rewrite lookup_insert_ne, (H2 Hne), Z.add_0_r by done. done.
Qed.

(** What the sums are of the items so far. *)
Record sums_ok (items : list UsageItem) (s : sums) : Prop := {
  so_total : sm_total s = int64 (minutes_where (fun _ => true) items);
  so_minutes : forall k, default 0 (sm_minutes s !! k) = int64 (minutes_where (of_repo k) items);
  so_storage : forall k, default 0 (sm_storage s !! k) = int64 (storage_where (of_repo k) items);
  so_skus : forall k, match sm_skus s !! k with
    | None => Forall (fun it => String.eqb (ui_Product it) "actions" && of_sku k it = false) items
    | Some t => sk_SKU t = k /\ sk_Minutes t = int64 (minutes_where (of_sku k) items) /\ exists it, it ∈ items /\ ui_Product it = "actions" /\ ui_SKU it = k
    end;
}.

Lemma minutes_none k items : Forall (fun it => String.eqb (ui_Product it) "actions" && of_sku k it = false) items -> minutes_where (of_sku k) items = 0.
Proof.
  unfold minutes_where. induction 1 as [|it items Hi _ IH]; [done|]. cbn [foldr]. rewrite IH.
  destruct (String.eqb (ui_Product it) "actions"); [|done]. cbn [andb] in *. rewrite Hi, andb_false_r. done.
Qed.

(** One more item: what it adds to the minutes, and the total of its SKU. *)
Definition minutes_of (it : UsageItem) : Z := if String.eqb (ui_UnitType it) "Minutes" then int64_of_float (ui_Quantity it) else 0.

Lemma sku_step items s it t' : sums_ok items s -> ui_Product it = "actions" ->
  let t := default (mkSKUTotal (ui_SKU it) 0 (SpecFloat.S754_zero false) (ui_UnitType it)) (sm_skus s !! ui_SKU it) in
  sk_SKU t' = sk_SKU t -> sk_Minutes t' = int64 (sk_Minutes t + minutes_of it) ->
  forall k, match <[ui_SKU it := t']> (sm_skus s) !! k with
    | None => Forall (fun it => String.eqb (ui_Product it) "actions" && of_sku k it = false) (items ++ [it])
    | Some t => sk_SKU t = k /\ sk_Minutes t = int64 (minutes_where (of_sku k) (items ++ [it])) /\ exists it', it' ∈ items ++ [it] /\ ui_Product it' = "actions" /\ ui_SKU it' = k
    end.
Proof.
  intros Hs Hp t HS HM k. pose proof (so_skus _ _ Hs) as Hk. rewrite minutes_snoc, Hp, String.eqb_refl. cbn [andb]. change (of_sku k it) with (String.eqb (ui_SKU it) k).
  destruct (decide (ui_SKU it = k)) as [<-|Hne].
  - rewrite lookup_insert_eq. specialize (Hk (ui_SKU it)). unfold t in HS, HM. rewrite String.eqb_refl, andb_true_r. split_and!.
    + rewrite HS. destruct (sm_skus s !! ui_SKU it) as [t0|]; [|done]. apply Hk.
    + rewrite HM. fold (minutes_of it). destruct (sm_skus s !! ui_SKU it) as [t0|]; cbn [from_option id].
      * destruct Hk as (_ & -> & _). apply int64_add_l.
      * cbn. rewrite (minutes_none _ _ Hk). done.
    + exists it. split; [apply elem_of_app; right; by apply list_elem_of_singleton|done].
  - rewrite lookup_insert_ne by done. specialize (Hk k). destruct (String.eqb_spec (ui_SKU it) k); [done|]. rewrite andb_false_r, Z.add_0_r.
    destruct (sm_skus s !! k) as [t0|].
    + destruct Hk as (H1 & H2 & it' & Hi & H3). split_and!; [done|done|]. exists it'. split; [apply elem_of_app; by left|done].
    + apply Forall_app. split; [done|]. constructor; [|done]. unfold of_sku. destruct (String.eqb_spec (ui_SKU it) k); [done|]. by rewrite andb_false_r.
Qed.

Lemma sums_step items s it : sums_ok items s -> sums_ok (items ++ [it]) (add_item s it).
Proof.
  intros Hs. unfold add_item. destruct (String.eqb_spec (ui_Product it) "actions") as [Hp|Hp]; cbn [negb].
  2:{ pose proof Hs as [Ht Hm Hst Hk]. apply String.eqb_neq in Hp. split; [rewrite minutes_snoc, Hp|intros k; rewrite minutes_snoc, Hp|intros k; rewrite storage_snoc, Hp|]; cbn [andb];
        rewrite ?Z.add_0_r; [done..|]. intros k. specialize (Hk k). destruct (sm_skus s !! k) as [t|].
      - destruct Hk as (H1 & H2 & it' & Hi & H3). rewrite minutes_snoc, Hp. cbn [andb]. rewrite Z.add_0_r. split_and!; [done|done|]. exists it'. split; [apply elem_of_app; by left|done].
      - apply Forall_app. split; [done|]. constructor; [by rewrite Hp|done]. }
  pose proof (fun t' => sku_step items s it t' Hs Hp) as Hsku. pose proof Hs as [Ht Hm Hst _].
  destruct (String.eqb_spec (ui_UnitType it) "Minutes") as [Hu|Hu]; [|destruct (String.eqb_spec (ui_UnitType it) "GigabyteHours") as [Hg|Hg]].
  - split; cbn [sm_total sm_minutes sm_storage sm_skus].
    + rewrite minutes_snoc, Hp, Hu, Ht. apply int64_add_l.
    + intros k. rewrite minutes_snoc, Hp, Hu, !String.eqb_refl. cbn [andb]. change (of_repo k it) with (negb (String.eqb (ui_RepositoryName it) "") && String.eqb (ui_RepositoryName it) k). destruct (String.eqb_spec (ui_RepositoryName it) "") as [En|En]; cbn [negb andb].
      * cbn. by rewrite Z.add_0_r.
      * apply default_add_to; [done| |]; intros Hk; cbn; destruct (String.eqb_spec (ui_RepositoryName it) k); try done.
    + intros k. rewrite storage_snoc, Hp, Hu. cbn. by rewrite Z.add_0_r.
    + apply Hsku; [done|]. cbn [sk_Minutes]. unfold minutes_of. by rewrite Hu.
  - assert (minutes_of it = 0) as Hz by (unfold minutes_of; by rewrite Hg). split; cbn [sm_total sm_minutes sm_storage sm_skus].
    + rewrite minutes_snoc, Hp, Hg, Ht. cbn. by rewrite Z.add_0_r.
    + intros k. rewrite minutes_snoc, Hp, Hg. cbn. by rewrite Z.add_0_r.
    + intros k. rewrite storage_snoc, Hp, Hg, !String.eqb_refl. change (String.eqb "GigabyteHours" "Minutes") with false. cbn [andb negb]. change (of_repo k it) with (negb (String.eqb (ui_RepositoryName it) "") && String.eqb (ui_RepositoryName it) k). destruct (String.eqb_spec (ui_RepositoryName it) "") as [En|En]; cbn [negb andb].
      * cbn. by rewrite Z.add_0_r.
      * apply default_add_to; [done| |]; intros Hk; cbn -[SpecFloat.SFmul float64]; destruct (String.eqb_spec (ui_RepositoryName it) k); try done.
    + apply Hsku; [done|]. cbn [sk_Minutes]. rewrite Hz, Z.add_0_r. pose proof (so_skus _ _ Hs (ui_SKU it)) as Hk.
      destruct (sm_skus s !! ui_SKU it) as [t|]; cbn; [|done]. destruct Hk as (_ & -> & _). symmetry. apply int64_idem.
  - assert (minutes_of it = 0) as Hz by (unfold minutes_of; by apply String.eqb_neq in Hu as ->). apply String.eqb_neq in Hu, Hg. split; cbn [sm_total sm_minutes sm_storage sm_skus].
    + rewrite minutes_snoc, Hp, Hu, Ht. cbn. by rewrite Z.add_0_r.
    + intros k. rewrite minutes_snoc, Hp, Hu. cbn. by rewrite Z.add_0_r.
    + intros k. rewrite storage_snoc, Hp, Hu, Hg. cbn. by rewrite Z.add_0_r.
    + apply Hsku; [done|]. rewrite Hz, Z.add_0_r. pose proof (so_skus _ _ Hs (ui_SKU it)) as Hk.
      destruct (sm_skus s !! ui_SKU it) as [t|]; cbn; [|done]. destruct Hk as (_ & -> & _). symmetry. apply int64_idem.
Qed.

Lemma sums_of items : sums_ok items (foldl add_item no_sums items).
Proof.
  induction items as [|it items IH] using rev_ind; [|rewrite foldl_snoc; by apply sums_step].
  split; [done|done|done|]. intros k. cbn. rewrite lookup_empty. constructor.
Qed.

(** ** The report *)

Section report.
Context `{SortSlice, MapRange}.
Context (decodeUsage : string -> result (list UsageItem)) (decodeCount : string -> result Z).
Context (validDate : string -> bool) (monthStart today : string).
(** gh answers alike whenever it is asked. *)
Context (gh : string -> string * err_ret).

Definition api (B : Type) (e : apiE B) : B := match e in apiE B return B with GhApi ep => gh ep end.

(** The pool is run by any schedule and not cancelled.  gh is asked about a safe
    organization and valid repositories only. *)
Definition usage_spec (opts : UsageOptions) : spec usageE unit := {|
  allowed B e s := match e with
    | UsApi ep => ep = usage_endpoint opts /\ validOrg (uo_Organization opts) = true
    | UsRunJobs _ jobs _ => exists repos, validateRepos repos = None /\ jobs = imap (count_job decodeCount opts) repos
    | _ => True
    end;
  answers B e s b s' := match e in usageE B return B -> Prop with
    | UsApi ep => fun b => b = gh ep
    | UsRunJobs c jobs g => fun b => run_jobs_uncancelled (oracle api) c jobs g b
    | _ => fun _ => True
    end b |}.

Definition counted (opts : UsageOptions) (repo : string) : Z * err_ret := eval api (fetchRunCount decodeCount opts repo).

Lemma eval_count_job opts i repo :
  eval api (count_job decodeCount opts i repo) = fun results => <[i := mkRunCount repo (fst (counted opts repo)) (snd (counted opts repo))]> results.
Proof. unfold count_job, counted. rewrite eval_bind. by destruct (eval api (fetchRunCount decodeCount opts repo)). Qed.

Lemma run_table_spec opts repos : let '(runs, failed) := run_table ((fun repo => mkRunCount repo (fst (counted opts repo)) (snd (counted opts repo))) <$> repos) in
  (forall repo, repo ∈ repos -> runs !! repo = Some (fst (counted opts repo))) /\
  (failed = true <-> Exists (fun repo => snd (counted opts repo) <> None) repos).
Proof.
  induction repos as [|r repos IH] using rev_ind; [cbn; split; [by intros ? ?%not_elem_of_nil|]; split; [done|by intros ?%Exists_nil]|].
  unfold run_table in *. rewrite fmap_app. cbn [fmap list_fmap]. rewrite foldl_snoc. destruct (foldl _ (∅, false) _) as [runs failed]. destruct IH as [IH1 IH2]. cbn [rc_repo rc_count rc_err]. split.
  - intros repo [Hr| ->%list_elem_of_singleton]%elem_of_app; [|apply lookup_insert_eq]. destruct (decide (r = repo)) as [->|Hne]; [apply lookup_insert_eq|].
    rewrite lookup_insert_ne by done. by apply IH1.
  - rewrite Exists_app, orb_true_iff, bool_decide_eq_true, IH2, Exists_cons, Exists_nil. tauto.
Qed.

(** What the report should hold for the items [usage] and the repositories. *)
Record right_usage (opts : UsageOptions) (repos : list string) (usage : result (list UsageItem)) (r : UsageReport) : Prop := {
  ru_minutes : ur_TotalMinutes r = int64 (minutes_where (fun _ => true) (match usage with Ok l => l | Err _ => [] end));
  ru_skus : NoDup (sk_SKU <$> ur_BySKU r);
  ru_sku : Forall (fun t => sk_Minutes t = int64 (minutes_where (of_sku (sk_SKU t)) (match usage with Ok l => l | Err _ => [] end))) (ur_BySKU r);
  ru_all_skus : forall it, it ∈ (match usage with Ok l => l | Err _ => [] end) -> ui_Product it = "actions" -> ui_SKU it ∈ sk_SKU <$> ur_BySKU r;
  ru_sorted : StronglySorted (fun a b => sk_Minutes b <= sk_Minutes a) (ur_BySKU r) /\ StronglySorted (fun a b => rm_HostedMinutes b <= rm_HostedMinutes a) (ur_ByRepo r);
  ru_rows : repos <> [] -> ur_ByRepo r ≡ₚ (fun repo =>
    mkRepoMetric repo (int64 (minutes_where (of_repo (repo_name repo)) (match usage with Ok l => l | Err _ => [] end))) (fst (counted opts repo)) (fst (counted opts repo))
      (int64 (storage_where (of_repo (repo_name repo)) (match usage with Ok l => l | Err _ => [] end)))) <$> repos;
  ru_runs : ur_TotalRuns r = int64 (foldr (fun repo acc => fst (counted opts repo) + acc) 0 repos);
  ru_exit : ur_Exit r = 1 <-> (exists e, usage = Err e) \/ Exists (fun repo => snd (counted opts repo) <> None) repos;
  ru_exit_range : ur_Exit r = 0 \/ ur_Exit r = 1;
}.

Lemma runs_total (rows : list RepoMetric) opts l t : rm_RunsTotal <$> rows = (fun repo => fst (counted opts repo)) <$> l ->
  foldl (fun total r => int64 (total + rm_RunsTotal r)) (int64 t) rows = int64 (t + foldr (fun repo acc => fst (counted opts repo) + acc) 0 l).
Proof.
  revert l t. induction rows as [|r rows IH]; intros [|x l] t E; [cbn; by rewrite Z.add_0_r|done|done|]. rewrite !fmap_cons in E. injection E as E1 E2.
  cbn [foldl foldr]. rewrite int64_add_l, (IH l _ E2), E1. f_equal. lia.
Qed.

Lemma usage_fetch opts repos (Q : gmap string Z * bool -> unit -> Prop) : validateRepos repos = None ->
  Q (run_table ((fun repo => mkRunCount repo (fst (counted opts repo)) (snd (counted opts repo))) <$> repos)) tt ->
  wpp (usage_spec opts) (fetchRunCounts decodeCount opts repos) Q tt.
Proof.
  intros Hv HQ. unfold fetchRunCounts. apply wpp_bind, wpp_call; [by exists repos|]. intros results [] Hr. cbn [answers usage_spec] in Hr.
  apply run_jobs_sequential in Hr; [|apply (slots_independent api _ _ (eval_count_job opts))]. rewrite (slots_sequential api _ _ (eval_count_job opts)) in Hr. subst results. by apply wpp_ret.
Qed.

Lemma before_sorted {A} (f : A -> Z) (l : list A) : StronglySorted (fun a b => f b <= f a) (sort_slice (fun a b => f b <? f a) l).
Proof.
  eapply StronglySorted_weaken; [apply sort_slice_sorted|]; cbn.
  - intros x y. rewrite Z.ltb_lt, Z.ltb_ge. lia.
  - intros x y z. rewrite !Z.ltb_ge. lia.
  - intros x y. by rewrite Z.ltb_ge.
Qed.

Lemma by_sku usage : let '(bySKU, s) := aggregateSKUs usage in
  sums_ok usage s /\ NoDup (sk_SKU <$> bySKU) /\ Forall (fun t => sk_Minutes t = int64 (minutes_where (of_sku (sk_SKU t)) usage)) bySKU /\
  (forall it, it ∈ usage -> ui_Product it = "actions" -> ui_SKU it ∈ sk_SKU <$> bySKU) /\ StronglySorted (fun a b => sk_Minutes b <= sk_Minutes a) bySKU.
Proof.
  unfold aggregateSKUs. pose proof (sums_of usage) as Hs. set (s := foldl add_item no_sums usage) in *. pose proof (so_skus _ _ Hs) as Hk.
  assert (forall k t, sm_skus s !! k = Some t -> sk_SKU t = k) as Hkey by (intros k t E; specialize (Hk k); rewrite E in Hk; apply Hk).
  split_and!; [done| | | |apply (before_sorted sk_Minutes)].
  - rewrite sort_slice_perm, map_range_perm.
    assert (sk_SKU <$> (snd <$> map_to_list (sm_skus s)) = fst <$> map_to_list (sm_skus s)) as ->; [|apply NoDup_fst_map_to_list].
    rewrite <- list_fmap_compose. apply list_fmap_ext. intros i [k t] E%list_elem_of_lookup_2%elem_of_map_to_list. by apply Hkey.
  - apply Forall_forall. intros t. rewrite sort_slice_elem_of, list_elem_of_fmap. intros ([k t'] & -> & E%elem_of_map_range). cbn.
    specialize (Hk k). rewrite E in Hk. destruct Hk as (-> & -> & _). done.
  - intros it Hit Hp. apply list_elem_of_fmap. destruct (sm_skus s !! ui_SKU it) as [t|] eqn:E.
    + exists t. split; [symmetry; by apply Hkey|]. rewrite sort_slice_elem_of, list_elem_of_fmap. exists (ui_SKU it, t). by rewrite elem_of_map_range.
    + specialize (Hk (ui_SKU it)). rewrite E in Hk. rewrite Forall_forall in Hk. specialize (Hk it Hit). unfold of_sku in Hk. by rewrite Hp, !String.eqb_refl in Hk.
Qed.

Lemma usage_assemble opts repos s usage (Q : list RepoMetric * Z * bool -> unit -> Prop) : validateRepos repos = None -> sums_ok usage s ->
  (forall rows runs failed,
     (repos <> [] -> rows = (fun repo => mkRepoMetric repo (int64 (minutes_where (of_repo (repo_name repo)) usage)) (fst (counted opts repo)) (fst (counted opts repo))
                                           (int64 (storage_where (of_repo (repo_name repo)) usage))) <$> repos) ->
     runs = int64 (foldr (fun repo acc => fst (counted opts repo) + acc) 0 repos) ->
     (failed = true <-> Exists (fun repo => snd (counted opts repo) <> None) repos) -> Q (rows, runs, failed) tt) ->
  wpp (usage_spec opts) (assembleByRepo decodeCount opts repos s) Q tt.
Proof.
  intros Hv Hs HQ. unfold assembleByRepo. destruct repos as [|r0 repos0] eqn:Er.
  { apply wpp_ret, HQ; [done|done|]. split; [done|by intros ?%Exists_nil]. }
  rewrite <- Er in *. apply wpp_bind, usage_fetch; [done|]. pose proof (run_table_spec opts repos) as Ht. destruct (run_table _) as [runs failed]. destruct Ht as [Hr Hf].
  apply wpp_ret.
  assert (repo_metric s runs <$> repos = (fun repo => mkRepoMetric repo (int64 (minutes_where (of_repo (repo_name repo)) usage)) (fst (counted opts repo)) (fst (counted opts repo))
    (int64 (storage_where (of_repo (repo_name repo)) usage))) <$> repos) as Hrows.
  { apply list_fmap_ext. intros i repo Hi%list_elem_of_lookup_2. unfold repo_metric. by rewrite (Hr repo Hi), (so_minutes _ _ Hs), (so_storage _ _ Hs). }
  apply HQ; [done| |done]. rewrite Hrows. apply (runs_total _ opts repos 0). by rewrite <- list_fmap_compose.
Qed.

(** The report of the usage.  When gh answers alike whenever it is asked and the command is
    not cancelled, then under every schedule of its pool: gh is asked about a safe
    organization and valid repositories only; the total and the minutes of every SKU and
    repository are the sums of the whole minutes of their items, modulo 2^64, each SKU is
    there once and the greatest first; every repository has the count gh gives it and the
    total is their sum; and the exit code is 1 exactly when the billing or a count
    failed. *)
Theorem usage_report_is_right opts :
  let o := am_applyDefaults monthStart today opts in
  wpp (usage_spec o) (usage_Collect decodeUsage decodeCount validDate monthStart today opts)
    (fun r _ => match r with
                | Err _ => True
                | Ok r => exists repos usage, validateRepos repos = None /\ (uo_Repos opts <> [] -> repos = uo_Repos opts) /\ right_usage o repos usage r
                end) tt.
Proof.
  intros o. unfold usage_Collect. fold o. destruct (am_validateOptions validDate o) as [e|] eqn:Ev; [by apply wpp_ret|].
  assert (validOrg (uo_Organization o) = true) as Horg by (unfold am_validateOptions in Ev; by destruct (validOrg (uo_Organization o))).
  apply wpp_bind, (wpp_mono _ _ (fun r _ => match r with Err _ => True | Ok repos => validateRepos repos = None /\ (uo_Repos opts <> [] -> repos = uo_Repos opts) end)).
  { unfold am_resolveRepos. change (uo_Repos o) with (uo_Repos opts). case_bool_decide as Hn; rewrite ?andb_true_r, ?andb_false_r.
    - destruct (uo_InferRepos o).
      + apply wpp_bind, wpp_call; [done|]. intros [systemd [e|]] [] _; apply wpp_ret; [done|]. by destruct (validateRepos _) eqn:E.
      + apply wpp_ret. by destruct (validateRepos _) eqn:E.
    - apply wpp_ret. by destruct (validateRepos _) eqn:E. }
  intros [repos|e] []; [|by intros; apply wpp_ret]. intros [Hv Hr]. apply wpp_bind, wpp_call; [done|]. intros now [] _.
  apply wpp_bind. unfold fetchBillingUsage. apply wpp_bind, wpp_call; [done|]. intros [out err] [] _. apply wpp_ret. set (usage := match err with Some _ => _ | None => _ end).
  set (items := match usage with Ok l => l | Err _ => [] end). pose proof (by_sku items) as Hsku. destruct (aggregateSKUs items) as [bySKU s]. destruct Hsku as (Hs & H1 & H2 & H3 & H4).
  apply wpp_bind, (usage_assemble o repos s items); [done|done|]. intros rows runs failed Hrows Hruns Hfail. apply wpp_ret. exists repos, usage. split_and!; [done|done|].
  split; cbn [ur_TotalMinutes ur_BySKU ur_ByRepo ur_TotalRuns ur_Exit]; fold items; [apply (so_total _ _ Hs)|done|done|done|split; [done|apply (before_sorted rm_HostedMinutes)]| |done| |].
  - intros Hne. rewrite (Hrows Hne). apply sort_slice_perm.
  - rewrite <- Hfail. destruct usage as [l|e]; [|naive_solver]. destruct failed; naive_solver.
  - destruct usage; [destruct failed|]; auto.
Qed.
End report.

(** Ten items of nine tenths of a minute are no minute at all, since every item is cut before it is
    added; and two repositories of one name share the minutes of both. *)
Lemma minutes_can_mislead :
  let most := SpecFloat.SFdiv 53 1024 (float64 9) (float64 10) in
  let item := mkUsageItem "actions" "actions_linux" most "Minutes" "acme" "web" in
  sm_total (foldl add_item no_sums (replicate 10 item)) = 0 /\
  (forall s runs, rm_HostedMinutes (repo_metric s runs "acme/web") = rm_HostedMinutes (repo_metric s runs "umbrella/web")).
Proof. cbv zeta. split; [vm_compute; reflexivity|done]. Qed.

(** A pool that was cancelled before its first job leaves empty slots: no runs, and no
    failure. *)
Theorem cancelled_usage_reports_success decodeCount gh opts repo repos :
  let jobs := imap (count_job decodeCount opts) (repo :: repos) in
  let empty := replicate (length (repo :: repos)) no_count in
  run_jobs (oracle (api gh)) (uo_Concurrency opts) jobs empty empty /\ snd (run_table empty) = false.
Proof.
  intros jobs empty. split.
  - exists (mkPool 0 ∅ empty true true). split_and!; [|done..]. eapply rtc_l; [apply step_cancel|]. eapply rtc_l; [apply step_abandon|apply rtc_refl]. cbn. lia.
  - unfold run_table, empty. generalize (∅ : gmap string Z). induction (length (repo :: repos)) as [|n IH]; intros m; [done|apply IH].
Qed.
