(* ===== verification/Commands.v ===== *)
(** * cmd/civmctl: the commands that change a host

    The front ends of the packages that act: cleanup, disk-watchdog, bootstrap,
    bootstrap-everything, reap-runs, self-upgrade, maintenance, hook install and the
    runner commands, each from its arguments to its exit status, with the parsing of flags
    by the standard package [flag]; and bootstrap-everything itself, which copies the
    units of the timers and then bootstraps.  What a package does is the program of its own
    file, whose effects are among those of the command.  Warnings, tables and JSON go to the
    terminal; only the failure to write JSON shows, in the exit status. *)

From S2P Require Import Prelude GoStrings Prog Civm Idle RunnerUnits WatchdogBase Watchdog WatchdogSafety WatchdogContract.
From S2P Require Import Cachetrim CachetrimSafety Cleanup Hostdisk HookInstall Maintenance MaintenanceSafety RunnerLifecycle RunnerLifecycleSafety Runreaper Bootstrap SelfUpgrade.

Local Open Scope string_scope.
Local Open Scope list_scope.
Local Open Scope Z_scope.

Definition exitUsage : Z := 64.

(** ** The package flag *)

Inductive flag_value :=
  | FBool (b : bool)
  | FString (s : string)
  | FInt (n : Z)
  | FDuration (d : Z).

(** The flags of a set with their values, at first the defaults. *)
Definition FlagSet : Type := gmap string flag_value.

Definition flag_bool (fs : FlagSet) (name : string) : bool := match fs !! name with Some (FBool b) => b | _ => false end.
Definition flag_string (fs : FlagSet) (name : string) : string := match fs !! name with Some (FString s) => s | _ => "" end.
Definition flag_int (fs : FlagSet) (name : string) : Z := match fs !! name with Some (FInt n) => n | _ => 0 end.
Definition flag_duration (fs : FlagSet) (name : string) : Z := match fs !! name with Some (FDuration d) => d | _ => 0 end.

Definition ParseBool (s : string) : option bool :=
  if bool_decide (s ∈ ["1"; "t"; "T"; "TRUE"; "true"; "True"]) then Some true
  else if bool_decide (s ∈ ["0"; "f"; "F"; "FALSE"; "false"; "False"]) then Some false
  else None.

(** [strconv.ParseInt(s, 0, 64)]: the base is told by the prefix, and underscores may
    separate digits. *)
Definition lower_code (c : ascii) : Z := Z.lor (code c) 32.

Definition digit_of (c : ascii) : option Z :=
  if (48 <=? code c) && (code c <=? 57) then Some (code c - 48)
  else if (97 <=? lower_code c) && (lower_code c <=? 122) then Some (lower_code c - 87)
  else None.

Fixpoint digits_in (base acc : Z) (s : string) : option Z :=
  match s with
  | "" => Some acc
  | String c s =>
      if Ascii.eqb c "_" then digits_in base acc s
      else match digit_of c with
           | Some d => if base <=? d then None else digits_in base (acc * base + d) s
           | None => None
           end
  end.

Definition prefixed (s : string) : Z * string :=
  match s with
  | String "0" (String c (String d r)) =>
      if lower_code c =? 98 then (2, String d r)
      else if lower_code c =? 111 then (8, String d r)
      else if lower_code c =? 120 then (16, String d r)
      else (8, String c (String d r))
  | String "0" r => (8, r)
  | _ => (10, s)
  end.

(** What the scan of [underscoreOK] saw last. *)
Inductive seen := SeenStart | SeenDigit | SeenUnderscore | SeenOther.

Fixpoint underscores (hex : bool) (last : seen) (s : string) : bool :=
  match s with
  | "" => match last with SeenUnderscore => false | _ => true end
  | String c s =>
      if ((48 <=? code c) && (code c <=? 57)) || (hex && (97 <=? lower_code c) && (lower_code c <=? 102))
      then underscores hex SeenDigit s
      else if Ascii.eqb c "_" then match last with SeenDigit => underscores hex SeenUnderscore s | _ => false end
      else match last with SeenUnderscore => false | _ => underscores hex SeenOther s end
  end.

Definition underscoreOK (s : string) : bool :=
  match s with
  | String "0" (String c r) =>
      if (lower_code c =? 98) || (lower_code c =? 111) || (lower_code c =? 120)
      then underscores (lower_code c =? 120) SeenDigit r
      else underscores false SeenStart s
  | _ => underscores false SeenStart s
  end.

Definition ParseUint0 (s : string) : option Z :=
  if String.eqb s "" then None
  else let '(base, digits) := prefixed s in
       match digits_in base 0 digits with
       | Some n => if contains_char "_" digits && negb (underscoreOK s) then None else Some n
       | None => None
       end.

Definition ParseInt0 (s : string) : option Z :=
  let '(neg, digits) := match s with String "-" r => (true, r) | String "+" r => (false, r) | _ => (false, s) end in
  match ParseUint0 digits with
  | Some n => let n := if neg : bool then - n else n in
              if (min_int64 <=? n) && (n <=? max_int64) then Some n else None
  | None => None
  end.

(** What an argument is: the end of the flags, a mistake, or a flag with its value. *)
Inductive argument := NoFlag | BadFlag | AFlag (name : string) (value : option string).

Definition flag_name (name : string) : argument :=
  match name with
  | "" | String "-" _ | String "=" _ => BadFlag
  | _ => match Cut "=" name with Some (n, v) => AFlag n (Some v) | None => AFlag name None end
  end.

Definition read_argument (s : string) : argument :=
  match s with
  | "--" => NoFlag
  | String "-" (String "-" name) => flag_name name
  | String "-" (String c name) => flag_name (String c name)
  | _ => NoFlag
  end.

Section commands.
(** [time.ParseDuration], and what the packages take as parameters. *)
Context (ParseDuration : string -> option Z).

Definition set_flag (old : flag_value) (v : string) : option flag_value :=
  match old with
  | FBool _ => FBool <$> ParseBool v
  | FString _ => Some (FString v)
  | FInt _ => FInt <$> ParseInt0 v
  | FDuration _ => FDuration <$> ParseDuration v
  end.

(** [FlagSet.Parse]; what follows the flags is not looked at. *)
Fixpoint Parse (fs : FlagSet) (args : list string) : result FlagSet :=
  match args with
  | [] => Ok fs
  | s :: args =>
      match read_argument s with
      | NoFlag => Ok fs
      | BadFlag => Err (Errorf ("bad flag syntax: " +:+ s))
      | AFlag name value =>
          match fs !! name with
          | None => if bool_decide (name ∈ ["help"; "h"]) then Err (Errorf "flag: help requested")
                    else Err (Errorf ("flag provided but not defined: -" +:+ name))
          | Some old =>
              match old, value with
              | FBool _, _ =>
                  match set_flag old (default "true" value) with
                  | Some v => Parse (<[name := v]> fs) args
                  | None => Err (Errorf ("invalid boolean value for -" +:+ name))
                  end
              | _, Some v =>
                  match set_flag old v with
                  | Some v => Parse (<[name := v]> fs) args
                  | None => Err (Errorf ("invalid value for flag -" +:+ name))
                  end
              | _, None =>
                  match args with
                  | [] => Err (Errorf ("flag needs an argument: -" +:+ name))
                  | v :: args =>
                      match set_flag old v with
                      | Some v => Parse (<[name := v]> fs) args
                      | None => Err (Errorf ("invalid value for flag -" +:+ name))
                      end
                  end
              end
          end
      end
  end.

(** ** The effects of a command *)

Inductive ctlE : Type -> Type :=
  | TimeSleep (d : Z) : ctlE unit
  | WithTimeout (d : Z) : ctlE unit                                  (* the context of the rest *)
  | UserCurrent : ctlE (result (string * string))                    (* home and name *)
  | Getenv (name : string) : ctlE string
  | Geteuid : ctlE Z
  | PrintJSON : ctlE err_ret
  | Stat (path : string) : ctlE (result (bool * Z))                  (* directory, mode *)
  | RunCommand (name : string) (args : list string) : ctlE (string * err_ret)
  | InRunner {B} (e : runnerE B) : ctlE B
  | InWatchdog {B} (e : wdE B) : ctlE B
  | InMaintenance {B} (e : maintE B) : ctlE B
  | InInstall {B} (e : installE B) : ctlE B
  | InBootstrap {B} (e : bootE B) : ctlE B
  | InClean {B} (e : cleanE B) : ctlE B
  | InDisk {B} (e : Hostdisk.diskE B) : ctlE B
  | InReap {B} (e : reapE B) : ctlE B
  | InUpgrade {B} (e : upgradeE B) : ctlE B.

Definition at_runner {A} (m : prog runnerE A) : prog ctlE A := link (fun B e => call (InRunner e)) m.
Definition at_watchdog {A} (m : prog wdE A) : prog ctlE A := link (fun B e => call (InWatchdog e)) m.
Definition at_maintenance {A} (m : prog maintE A) : prog ctlE A := link (fun B e => call (InMaintenance e)) m.
Definition at_install {A} (m : prog installE A) : prog ctlE A := link (fun B e => call (InInstall e)) m.
Definition at_bootstrap {A} (m : prog bootE A) : prog ctlE A := link (fun B e => call (InBootstrap e)) m.
Definition at_clean {A} (m : prog cleanE A) : prog ctlE A := link (fun B e => call (InClean e)) m.
Definition at_disk {A} (m : prog Hostdisk.diskE A) : prog ctlE A := link (fun B e => call (InDisk e)) m.
Definition at_reap {A} (m : prog reapE A) : prog ctlE A := link (fun B e => call (InReap e)) m.
Definition at_upgrade {A} (m : prog upgradeE A) : prog ctlE A := link (fun B e => call (InUpgrade e)) m.

(** The pause after a warning, and [context.WithTimeout] with an integer of some unit. *)
Definition pause (execute : bool) (d : Z) : prog ctlE unit := if execute then call (TimeSleep d) else mret tt.
Definition deadline (n per : Z) : prog ctlE unit := call (WithTimeout (int64 (n * per))).

(** The end of a command with [--json]. *)
Definition rendered (json : bool) (exit : Z) : prog ctlE Z :=
  if json then e ← call PrintJSON; mret (match e with Some _ => 2 | None => exit end) else mret exit.

Definition failed_exit (l : list err_ret) : Z := if existsb (fun e => match e with Some _ => true | None => false end) l then 1 else 0.

Definition with_flags (fs : FlagSet) (args : list string) (k : FlagSet -> prog ctlE Z) : prog ctlE Z :=
  match Parse fs args with Err _ => mret exitUsage | Ok fs => k fs end.

Definition splitCSV (raw : string) : list string :=
  List.filter (fun part => negb (String.eqb part "")) (TrimSpace <$> Split "," raw).

Definition userHomeOrDefault : prog ctlE string :=
  u ← call UserCurrent;
  match u with
  | Ok (home, _) => if negb (String.eqb home "") then mret home
                    else h ← call (Getenv "HOME"); mret (if String.eqb h "" then "/home/runner" else h)
  | Err _ => h ← call (Getenv "HOME"); mret (if String.eqb h "" then "/home/runner" else h)
  end.

Definition userNameOrDefault : prog ctlE string :=
  u ← call UserCurrent;
  match u with
  | Ok (_, name) => if negb (String.eqb name "") then mret name
                    else h ← call (Getenv "USER"); mret (if String.eqb h "" then "runner" else h)
  | Err _ => h ← call (Getenv "USER"); mret (if String.eqb h "" then "runner" else h)
  end.

Definition or_home (dir : string) : prog ctlE string := if String.eqb dir "" then userHomeOrDefault else mret dir.

(** ** civmctl runner *)

Context `{SortSlice} `{MapRange}.
Context (IsPrint : Z -> bool) (duration_String : Z -> string).

Definition DefaultCleanupTimeoutMinutes : Z := 30.
Definition DefaultRunnerTimeoutMinutes : Z := 10.
Definition DefaultRunnerRemoveTimeoutMinutes : Z := 5.
Definition DefaultRestartTimeoutSeconds : Z := 30.

Definition runRunnerAdd (args : list string) : prog ctlE Z :=
  with_flags (list_to_map
    [("repo", FString ""); ("token", FString ""); ("short", FString ""); ("label", FString "civm");
     ("runner-version", FString DefaultRunnerVersion); ("runner-sha256", FString ""); ("base-dir", FString "");
     ("run-as", FString ""); ("execute", FBool false); ("timeout", FInt DefaultRunnerTimeoutMinutes)]) args (fun fs =>
    baseDir ← or_home (flag_string fs "base-dir");
    runAs ← (if String.eqb (flag_string fs "run-as") "" then userNameOrDefault else mret (flag_string fs "run-as"));
    let execute := flag_bool fs "execute" in
    let opts := mkAddOptions (flag_string fs "repo") (flag_string fs "token") (flag_string fs "short") (flag_string fs "label")
                  (flag_string fs "runner-version") (flag_string fs "runner-sha256") baseDir runAs execute in
    pause execute (3 * Second);;
    deadline (flag_int fs "timeout") Minute;;
    results ← at_runner (Add IsPrint opts);
    mret (match results with Err _ => exitUsage | Ok results => failed_exit (sr_Err <$> results) end)).

Definition runRunnerRemove (args : list string) : prog ctlE Z :=
  with_flags (list_to_map
    [("short", FString ""); ("token", FString ""); ("base-dir", FString ""); ("execute", FBool false);
     ("timeout", FInt DefaultRunnerRemoveTimeoutMinutes)]) args (fun fs =>
    baseDir ← or_home (flag_string fs "base-dir");
    let execute := flag_bool fs "execute" in
    let opts := mkRemoveOptions (flag_string fs "short") (flag_string fs "token") baseDir execute
                  (rm_IdleProbeDelay DefaultRemoveOptions) in
    pause execute (3 * Second);;
    deadline (flag_int fs "timeout") Minute;;
    results ← at_runner (Remove IsPrint opts);
    mret (match results with Err _ => exitUsage | Ok results => failed_exit (sr_Err <$> results) end)).

Definition runRunnerRestart (args : list string) : prog ctlE Z :=
  with_flags (list_to_map
    [("short", FString ""); ("unit", FString ""); ("verify-delay", FInt DefaultRestartVerifySeconds); ("execute", FBool false);
     ("timeout", FInt DefaultRestartTimeoutSeconds)]) args (fun fs =>
    let execute := flag_bool fs "execute" in
    let opts := mkRestartOptions (flag_string fs "short") (flag_string fs "unit") (int64 (flag_int fs "verify-delay" * Second))
                  (rs_IdleProbeDelay DefaultRestartOptions) execute in
    pause execute (3 * Second);;
    deadline (flag_int fs "timeout") Second;;
    r ← at_runner (Restart duration_String opts);
    mret (match r with Err _ => exitUsage | Ok r => failed_exit [re_Err r] end)).

Definition runRunnerUpgrade (args : list string) : prog ctlE Z :=
  with_flags (list_to_map
    [("short", FString ""); ("unit", FString ""); ("dir", FString ""); ("new-version", FString ""); ("runner-sha256", FString "");
     ("base-dir", FString ""); ("verify-delay", FInt DefaultUpgradeVerifySeconds); ("execute", FBool false);
     ("timeout", FInt DefaultRunnerTimeoutMinutes)]) args (fun fs =>
    baseDir ← or_home (flag_string fs "base-dir");
    let execute := flag_bool fs "execute" in
    let opts := RunnerLifecycle.mkUpgradeOptions (flag_string fs "short") (flag_string fs "unit") (flag_string fs "dir")
                  (flag_string fs "new-version") (flag_string fs "runner-sha256") baseDir execute
                  (int64 (flag_int fs "verify-delay" * Second)) (RunnerLifecycle.up_IdleProbeDelay DefaultUpgradeOptions) in
    pause execute (5 * Second);;
    deadline (flag_int fs "timeout") Minute;;
    r ← at_runner (Upgrade duration_String opts);
    mret (match r with Err _ => exitUsage | Ok r => failed_exit [ur_Err r] end)).

Definition runRunnerList (args : list string) : prog ctlE Z :=
  with_flags (list_to_map [("json", FBool false); ("timeout", FInt 5)]) args (fun fs =>
    deadline (flag_int fs "timeout") Second;;
    items ← at_runner list_units;
    match items with
    | (_, Some _) => mret 1
    | (items, None) => rendered (flag_bool fs "json") (match items with [] => 1 | _ => 0 end)
    end).

Context (decodeState : string -> result rerunState) (encodeState : rerunState -> result string).
Context (decodeHook : string -> option hookLogRecord).
Context (decodeConfig : string -> option (gmap string string)) (decodeString : string -> option string).
Context (url_Parse : string -> option (string * string * string)).
Context (decodeRunners : string -> result (list WatchdogGitHubRunner)).

(** [InferRepos] and [Repos]. *)
Definition configureRunnerWatchdogRepos (raw : string) : result (bool * list string) :=
  let mode := TrimSpace raw in
  if String.eqb mode "auto" then Ok (true, [])
  else if String.eqb mode "" then Err (Errorf "--repos deve ser auto ou owner/repo")
  else match splitCSV raw with
       | [] => Err (Errorf "--repos deve informar pelo menos um repo")
       | repos => Ok (false, repos)
       end.

Definition runRunnerWatchdog (args : list string) : prog ctlE Z :=
  with_flags (list_to_map
    [("execute", FBool false); ("repos", FString "auto"); ("rerun-network-failures", FBool false);
     ("max-run-age", FDuration DefaultWatchdogMaxRunAge); ("network-timeout", FDuration (10 * Second));
     ("restart-delay", FDuration (10 * Second)); ("queue-stall-dwell", FDuration DefaultQueueStallDwell);
     ("marker-path", FString DefaultWatchdogMarkerPath); ("hooks-dir", FString defaultHooksDir);
     ("runner-glob", FString defaultRunnerGlob); ("civmctl-path", FString defaultCivmctlBin); ("json", FBool false);
     ("timeout", FDuration (90 * Second))]) args (fun fs =>
    if flag_duration fs "max-run-age" <=? 0 then mret exitUsage
    else if flag_duration fs "queue-stall-dwell" <=? 0 then mret exitUsage
    else
      call (WithTimeout (flag_duration fs "timeout"));;
      match configureRunnerWatchdogRepos (flag_string fs "repos") with
      | Err _ => mret exitUsage
      | Ok (infer, repos) =>
          let opts := mkWOpts (flag_bool fs "execute") repos infer (flag_bool fs "rerun-network-failures")
                        (flag_duration fs "network-timeout") (flag_duration fs "restart-delay") (2 * Second)
                        (flag_duration fs "max-run-age") defaultWatchdogRunLimit (flag_string fs "marker-path")
                        DefaultMaintenanceStatePath (flag_string fs "hooks-dir") (flag_string fs "runner-glob")
                        (flag_string fs "civmctl-path") DefaultHooksLogPath DefaultRunnerAutoRestartPerHour
                        (flag_duration fs "queue-stall-dwell") in
          report ← at_watchdog (Watchdog decodeState encodeState decodeHook decodeConfig decodeString url_Parse decodeRunners opts);
          rendered (flag_bool fs "json") (wr_Exit report)
      end).

Definition runRunner (args : list string) : prog ctlE Z :=
  match args with
  | [] => mret exitUsage
  | sub :: rest =>
      if String.eqb sub "add" then runRunnerAdd rest
      else if String.eqb sub "list" then runRunnerList rest
      else if String.eqb sub "remove" then runRunnerRemove rest
      else if String.eqb sub "restart" then runRunnerRestart rest
      else if String.eqb sub "upgrade" then runRunnerUpgrade rest
      else if String.eqb sub "watchdog" then runRunnerWatchdog rest
      else mret exitUsage
  end.

(** ** civmctl maintenance *)

Context `{StateCodec} (formatTime : Z -> string) (decodePages : string -> result (list runnerAPIPage)).

Definition runMaintenanceAction (action : MaintOptions -> prog maintE (MaintState * err_ret)) (name : string) (args : list string) : prog ctlE Z :=
  with_flags (list_to_map
    [("execute", FBool false); ("force", FBool false); ("strict", FBool false); ("json", FBool false); ("repos", FString "");
     ("state-path", FString DefaultMaintenanceStatePath); ("lock-path", FString DefaultMaintenanceLockPath);
     ("timeout", FInt DefaultRestartTimeoutSeconds)]) args (fun fs =>
    let execute := flag_bool fs "execute" in
    let force := flag_bool fs "force" in
    let strict := flag_bool fs "strict" in
    if flag_int fs "timeout" <=? 0 then mret exitUsage
    else if strict && negb (String.eqb name "enter") then mret exitUsage
    else if strict && force then mret exitUsage
    else
      let opts := mkMaintOptions execute force strict (flag_string fs "state-path") (flag_string fs "lock-path")
                    (splitCSV (flag_string fs "repos")) in
      pause execute (3 * Second);;
      deadline (flag_int fs "timeout") Second;;
      '(_, err) ← at_maintenance (action opts);
      match err with
      | Some _ => mret 1
      | None => rendered (flag_bool fs "json") 0
      end).

Definition runMaintenance (args : list string) : prog ctlE Z :=
  match args with
  | [] => mret exitUsage
  | sub :: rest =>
      if String.eqb sub "enter" then runMaintenanceAction (Enter formatTime decodePages) "enter" rest
      else if String.eqb sub "exit" then runMaintenanceAction (Exit decodePages) "exit" rest
      else mret exitUsage
  end.

(** ** civmctl hook install *)

Definition runHookInstall (args : list string) : prog ctlE Z :=
  with_flags (list_to_map
    [("execute", FBool false); ("json", FBool false); ("hooks-dir", FString (io_HooksDir DefaultInstallOptions));
     ("civmctl-path", FString (io_CivmctlPath DefaultInstallOptions)); ("runner-glob", FString (io_RunnerGlob DefaultInstallOptions));
     ("deploy-source", FString (io_DeploySourceDir DefaultInstallOptions)); ("no-restart", FBool false);
     ("timeout", FInt DefaultRunnerTimeoutMinutes)]) args (fun fs =>
    deadline (flag_int fs "timeout") Minute;;
    let opts := mkInstallOptions (flag_bool fs "execute") (flag_string fs "hooks-dir") (flag_string fs "civmctl-path")
                  (flag_string fs "runner-glob") (negb (flag_bool fs "no-restart")) (flag_string fs "deploy-source")
                  (io_SkipScopedSudoers DefaultInstallOptions) in
    res ← at_install (Install opts);
    rendered (flag_bool fs "json") (if String.eqb (in_Error res) "" then 0 else 1)).

(** ** civmctl cleanup and disk-watchdog *)

Context (decodeVolumes : string -> result (list dockerVolumeMetadata)) (decodeDF : string -> result dockerSystemDFRow).
Context (scale : string -> Z -> option Z).

Definition runCleanup (args : list string) : prog ctlE Z :=
  with_flags (list_to_map
    [("execute", FBool false); ("dry-run", FBool false); ("work-dir", FString DefaultWorkDir); ("tmp-dir", FString DefaultTmpDir);
     ("codespace-dir", FString DefaultCodespaceDir); ("no-docker", FBool false); ("managed-volumes", FBool false);
     ("no-apt", FBool false); ("timeout", FInt DefaultCleanupTimeoutMinutes)]) args (fun fs =>
    let execute := flag_bool fs "execute" in
    if execute && flag_bool fs "dry-run" then mret exitUsage
    else if flag_bool fs "managed-volumes" && flag_bool fs "no-docker" then mret exitUsage
    else
      pause execute (3 * Second);;
      deadline (flag_int fs "timeout") Minute;;
      now ← at_clean (call TimeNow);
      let opts := mkCleanOptions execute (flag_string fs "work-dir") (flag_string fs "tmp-dir") (flag_string fs "codespace-dir")
                    (24 * Hour) (3 * 24 * Hour) (7 * 24 * Hour) (negb (flag_bool fs "no-docker")) (flag_bool fs "managed-volumes")
                    (negb (flag_bool fs "no-apt")) false false (2 * Second) now in
      actions ← at_clean (Cleanup.Run decodeVolumes decodeDF scale opts);
      mret (failed_exit (ac_Err <$> actions))).

Definition runDiskWatchdog (args : list string) : prog ctlE Z :=
  with_flags (list_to_map
    [("path", FString "/"); ("threshold-pct", FInt DefaultWatchdogThresholdPct); ("work-dir", FString DefaultWorkDir);
     ("tmp-dir", FString DefaultTmpDir); ("execute", FBool false); ("timeout", FInt DefaultCleanupTimeoutMinutes)]) args (fun fs =>
    deadline (flag_int fs "timeout") Minute;;
    r ← at_disk (disk_Check decodeVolumes decodeDF scale
          (mkDiskOptions (flag_string fs "path") (flag_int fs "threshold-pct") DefaultEmergencyBypassPct (flag_bool fs "execute")
             (flag_string fs "work-dir") (flag_string fs "tmp-dir")));
    mret (disk_ExitCode r)).

(** ** civmctl reap-runs and self-upgrade *)

Definition runReapRuns (args : list string) : prog ctlE Z :=
  with_flags (list_to_map
    [("repos", FString ""); ("execute", FBool false); ("max-cancel", FInt DefaultMaxCancelPerRepo); ("json", FBool false);
     ("timeout", FDuration (120 * Second))]) args (fun fs =>
    match splitCSV (flag_string fs "repos") with
    | [] => mret exitUsage
    | repos =>
        call (WithTimeout (flag_duration fs "timeout"));;
        report ← at_reap (Reap (mkReapOptions repos (flag_bool fs "execute") (flag_int fs "max-cancel")));
        rendered (flag_bool fs "json") (rep_Exit report)
    end).

Definition runSelfUpgrade (args : list string) : prog ctlE Z :=
  with_flags (list_to_map
    [("source", FString "/opt/civm"); ("target", FString "/usr/local/bin/civmctl"); ("execute", FBool false); ("json", FBool false);
     ("timeout", FInt 5)]) args (fun fs =>
    deadline (flag_int fs "timeout") Minute;;
    res ← at_upgrade (upgrade_Run (SelfUpgrade.mkUpgradeOptions (flag_string fs "source") (flag_string fs "target")
                        (flag_bool fs "execute") (int64 (flag_int fs "timeout" * Minute))));
    rendered (flag_bool fs "json") (if String.eqb (ur_Error res) "" then 0 else 1)).

(** ** civmctl bootstrap and bootstrap-everything *)

Definition boot_options (execute watchdog runnerWatchdog reverseWatchdog metricsTimer : bool) (uid : Z) : BootOptions :=
  let d := boot_DefaultOptions uid in
  mkBootOptions execute (bo_Spec d) (bo_UID d) watchdog reverseWatchdog runnerWatchdog metricsTimer (bo_RunReaper d)
    (bo_MemWatchdog d) (bo_InstallUnitsFrom d).

Definition timer_flags : list (string * flag_value) :=
  [("watchdog", FBool true); ("runner-watchdog", FBool true); ("reverse-watchdog", FBool true); ("metrics-timer", FBool true)].

Definition runBootstrap (args : list string) : prog ctlE Z :=
  with_flags (list_to_map ([("execute", FBool false); ("dry-run", FBool false); ("timeout", FInt 30)] ++ timer_flags)) args (fun fs =>
    let execute := flag_bool fs "execute" in
    if execute && flag_bool fs "dry-run" then mret exitUsage
    else
      pause execute (5 * Second);;
      deadline (flag_int fs "timeout") Minute;;
      uid ← call Geteuid;
      results ← at_bootstrap (boot_Run (boot_options execute (flag_bool fs "watchdog") (flag_bool fs "runner-watchdog")
                                (flag_bool fs "reverse-watchdog") (flag_bool fs "metrics-timer") uid));
      mret (failed_exit (br_Err <$> results))).

Record everythingStep := mkEStep { es_Name : string; es_WouldDo : string; es_Apply : prog ctlE err_ret }.
Record everythingResult := mkEResult { er_Name : string; er_WouldDo : string; er_Executed : bool; er_Err : err_ret }.

Definition joinArgs (args : list string) : string := Join args " ".
Definition execFlag (execute : bool) : string := if execute then "--execute" else "".
Definition boolStr (b : bool) : string := if b then "true" else "false".

Definition runCommand (name : string) (args : list string) : prog ctlE err_ret :=
  r ← call (RunCommand name args);
  mret (match r with
        | (out, Some e) => Some (Errorf_w (name +:+ " " +:+ joinArgs args) e)
        | (_, None) => None
        end).

Definition timerNames (watchdog runnerWatchdog reverseWatchdog metricsTimer : bool) : list string :=
  ["civmctl-cleanup"] ++
  (if watchdog then ["civmctl-disk-watchdog"] else []) ++
  (if runnerWatchdog then ["civmctl-runner-watchdog"] else []) ++
  (if reverseWatchdog then ["civmctl-reverse-watchdog"] else []) ++
  (if metricsTimer then ["civmctl-metrics"] else []) ++
  ["civmctl-run-reaper"].

Definition verify_civmctl : prog ctlE err_ret :=
  info ← call (Stat DefaultCivmctlPath);
  mret (match info with
        | Err e => Some (Errorf_w ("civmctl nao encontrado em " +:+ DefaultCivmctlPath) e)
        | Ok (dir, mode) => if dir || (Z.land mode 73 =? 0)
                            then Some (Errorf ("civmctl em " +:+ DefaultCivmctlPath +:+ " nao e arquivo executavel"))
                            else None
        end).

(** [clean]: the units source with its error; the plan shows an empty one as such. *)
Definition verify_units_source (clean : result string) : prog ctlE err_ret :=
  match clean with
  | Err e => mret (Some e)
  | Ok source =>
      info ← call (Stat source);
      mret (match info with Err e => Some (Errorf_w ("units-source " +:+ source +:+ " nao existe") e) | Ok _ => None end)
  end.

Definition cp_step (source name : string) (file suffix : string) : everythingStep :=
  mkEStep ("cp_" +:+ name +:+ suffix) ("sudo cp " +:+ source +:+ "/" +:+ name +:+ file +:+ " " +:+ DefaultSystemdDir +:+ "/")
    (runCommand "sudo" ["cp"; PathJoin source (name +:+ file); PathJoin DefaultSystemdDir (name +:+ file)]).

Definition bootstrap_run (watchdog runnerWatchdog reverseWatchdog metricsTimer : bool) : prog ctlE err_ret :=
  uid ← call Geteuid;
  results ← at_bootstrap (boot_Run (boot_options true watchdog runnerWatchdog reverseWatchdog metricsTimer uid));
  mret (match omap (fun r => match br_Err r with Some e => Some (Errorf_w ("bootstrap step " +:+ br_Name r) e) | None => None end) results with
        | e :: _ => Some e
        | [] => None
        end).

Definition buildBootstrapEverythingSteps (unitsSource : string) (watchdog runnerWatchdog reverseWatchdog metricsTimer execute : bool) : list everythingStep :=
  let clean := CleanDir unitsSource in
  let source := match clean with Ok s => s | Err _ => "" end in
  [mkEStep "verify_civmctl" ("test -x " +:+ DefaultCivmctlPath +:+ " (systemd usa esse path)") verify_civmctl;
   mkEStep "verify_units_source" ("ls " +:+ source +:+ "/civmctl-*.{service,timer}") (verify_units_source clean)] ++
  (timerNames watchdog runnerWatchdog reverseWatchdog metricsTimer ≫= fun name =>
     [cp_step source name ".service" "_service"; cp_step source name ".timer" "_timer"]) ++
  [mkEStep "daemon_reload" "sudo systemctl daemon-reload" (runCommand "sudo" ["systemctl"; "daemon-reload"]);
   mkEStep "bootstrap_run"
     ("civmctl bootstrap " +:+ execFlag execute +:+ " --watchdog=" +:+ boolStr watchdog +:+ " --runner-watchdog=" +:+ boolStr runnerWatchdog +:+
      " --reverse-watchdog=" +:+ boolStr reverseWatchdog +:+ " --metrics-timer=" +:+ boolStr metricsTimer)
     (bootstrap_run watchdog runnerWatchdog reverseWatchdog metricsTimer)].

Fixpoint runEverythingSteps (steps : list everythingStep) (execute : bool) : prog ctlE (list everythingResult) :=
  match steps with
  | [] => mret []
  | s :: steps =>
      if negb execute then
        out ← runEverythingSteps steps execute;
        mret (mkEResult (es_Name s) (es_WouldDo s) false None :: out)
      else
        e ← es_Apply s;
        match e with
        | Some e => mret [mkEResult (es_Name s) (es_WouldDo s) false (Some e)]
        | None =>
            out ← runEverythingSteps steps execute;
            mret (mkEResult (es_Name s) (es_WouldDo s) true None :: out)
        end
  end.

Definition DefaultUnitsSourceDir : string := "/opt/civm/deploy/systemd".

Definition runBootstrapEverything (args : list string) : prog ctlE Z :=
  with_flags (list_to_map ([("units-source", FString DefaultUnitsSourceDir); ("execute", FBool false);
                            ("timeout", FInt DefaultCleanupTimeoutMinutes)] ++ timer_flags)) args (fun fs =>
    let execute := flag_bool fs "execute" in
    pause execute (5 * Second);;
    deadline (flag_int fs "timeout") Minute;;
    results ← runEverythingSteps
      (buildBootstrapEverythingSteps (flag_string fs "units-source") (flag_bool fs "watchdog") (flag_bool fs "runner-watchdog")
         (flag_bool fs "reverse-watchdog") (flag_bool fs "metrics-timer") execute) execute;
    mret (failed_exit (er_Err <$> results))).

(** ** main *)

Definition hookEventFromArgv0 (arg0 : string) : option string :=
  let base := TrimSuffix (Base arg0) ".sh" in
  if bool_decide (base ∈ ["job-started"; "job-completed"]) then Some base else None.

Definition GenerationCleanBoundaryCapability : string := "generation-clean-boundary".

Definition runCapability (args : list string) : prog ctlE Z :=
  match args with
  | [name] => mret (if String.eqb name GenerationCleanBoundaryCapability then 0 else exitUsage)
  | _ => mret exitUsage
  end.

(** A command of this file, or one that its own file models or that only reports: its name
    and its arguments. *)
Inductive dispatch := Here (m : prog ctlE Z) | Elsewhere (command : string) (args : list string).

Definition other_commands : list string :=
  ["version-pins"; "parity"; "health"; "doctor"; "drift"; "billing-status"; "disk-audit"; "idle-check"; "ci"; "capacity"; "host-disk";
   "disk-doctor"; "metrics"; "reverse-watchdog"; "mem-watchdog"; "peer-status"; "active-runs"; "actions-metrics"; "ci-guard"; "lock";
   "admit"; "jit-dispatch"; "__jit-lease-hold"].

Definition runHook (args : list string) : dispatch :=
  match args with
  | [] => Here (mret exitUsage)
  | sub :: rest => if String.eqb sub "install" then Here (runHookInstall rest) else Elsewhere "hook" args
  end.

Definition main (arg0 : string) (osArgs : list string) : dispatch :=
  match hookEventFromArgv0 arg0 with
  | Some event => runHook (event :: "--execute" :: osArgs)
  | None =>
      match osArgs with
      | [] => Here (mret exitUsage)
      | cmd :: args =>
          if String.eqb cmd "capability" then Here (runCapability args)
          else if String.eqb cmd "cleanup" then Here (runCleanup args)
          else if String.eqb cmd "bootstrap" then Here (runBootstrap args)
          else if String.eqb cmd "runner" then Here (runRunner args)
          else if String.eqb cmd "disk-watchdog" then Here (runDiskWatchdog args)
          else if String.eqb cmd "hook" then runHook args
          else if String.eqb cmd "maintenance" then Here (runMaintenance args)
          else if String.eqb cmd "bootstrap-everything" then Here (runBootstrapEverything args)
          else if String.eqb cmd "self-upgrade" then Here (runSelfUpgrade args)
          else if String.eqb cmd "reap-runs" then Here (runReapRuns args)
          else if bool_decide (cmd ∈ other_commands) then Elsewhere cmd args
          else if bool_decide (cmd ∈ ["-h"; "--help"; "help"; "-v"; "--version"]) then Here (mret 0)
          else Here (mret exitUsage)
      end
  end.
End commands.

(** ** The flags that are not given *)

(** The argument sets the flag. *)
Definition sets_flag (name a : string) : bool := match read_argument a with AFlag n _ => String.eqb n name | _ => false end.

Lemma Parse_unset ParseDuration name args : forall fs fs',
  Forall (fun a => sets_flag name a = false) args -> Parse ParseDuration fs args = Ok fs' -> fs' !! name = fs !! name.
Proof.
  induction args as [args IH] using (induction_ltof1 _ length). unfold ltof in IH.
  intros fs fs' Hargs Hp. destruct args as [|s args]; [by simplify_eq/=|]. apply Forall_cons in Hargs as [Hs Hargs].
  assert (forall n v rest, String.eqb n name = false -> Forall (fun a => sets_flag name a = false) rest ->
    (length rest <= length args)%nat -> Parse ParseDuration (<[n := v]> fs) rest = Ok fs' -> fs' !! name = fs !! name) as Hgo.
  { intros n v rest Hn Hrest Hlen Hp'. rewrite (IH rest) with (fs := <[n := v]> fs); [|cbn; lia|done..].
    apply lookup_insert_ne. by apply String.eqb_neq in Hn. }
  unfold sets_flag in Hs. cbn [Parse] in Hp. destruct (read_argument s) as [| |n value]; simplify_eq; [done|].
  destruct (fs !! n) as [old|]; [|by case_match]. destruct args as [|v args].
  - destruct old, value; repeat case_match; simplify_eq; (eapply Hgo; [done| | |done]; done).
  - pose proof Hargs as [_ Htail]%Forall_cons.
    destruct old, value; repeat (case_match; simplify_eq); (eapply Hgo; [done| | |done]; [done|cbn; lia]).
Qed.

Lemma flag_unset ParseDuration fs args fs' :
  Forall (fun a => sets_flag "execute" a = false) args -> Parse ParseDuration fs args = Ok fs' -> fs !! "execute" = Some (FBool false) ->
  flag_bool fs' "execute" = false.
Proof. intros Ha Hp Hf. unfold flag_bool. by rewrite (Parse_unset _ _ _ _ _ Ha Hp), Hf. Qed.

(** ** What only reads *)

(** Commands that ask a question. *)
Definition queries : list (string * list string) :=
  [("systemctl", ["list-units"]); ("systemctl", ["is-active"]); ("systemctl", ["is-enabled"]); ("systemctl", ["show"]);
   ("docker", ["system"; "df"]); ("docker", ["volume"; "ls"]); ("docker", ["volume"; "inspect"]); ("dpkg-query", ["-W"]);
   ("go", ["version"]); ("node", ["--version"]); ("docker", ["--version"]); ("gh", ["--version"]); ("yq", ["--version"]);
   ("head", ["-3"])].

Fixpoint starts_with (words args : list string) : bool :=
  match words, args with
  | [], _ => true
  | w :: words, a :: args => String.eqb w a && starts_with words args
  | _, [] => false
  end.

(** A request of gh without a method and fields is a GET. *)
Definition query (name : string) (args : list string) : bool :=
  existsb (fun q => String.eqb name (fst q) && starts_with (snd q) args) queries ||
  (String.eqb name "gh" && match args with [verb; _] => String.eqb verb "api" | _ => false end).

Definition clean_reads B (e : cleanE B) : Prop :=
  match e with
  | Cleanup.SafeDeleteFn _ | Cleanup.RemoveAllFn _ | Cleanup.ReclaimStaleFn => False
  | Cleanup.RunFn name args => query name args = true
  | _ => True
  end.

Definition wd_reads B (e : wdE B) : Prop :=
  match e with
  | RestartFn _ | RerunFn _ _ | WatchdogBase.WriteFileFn _ _ | WatchdogBase.MkdirAllFn _ | WatchdogBase.RenameFn _ _ | WatchdogBase.RemoveFn _ => False
  | HookInstallFn req => in_Execute req = false
  | WatchdogBase.RunFn name args => query name args = true
  | _ => True
  end.

Definition reads B (e : ctlE B) : Prop :=
  match e with
  | RunCommand _ _ => False
  | InRunner e => match e with RunnerLifecycle.RunFn name args => query name args = true | _ => True end
  | InWatchdog e => wd_reads _ e
  | InMaintenance e =>
      match e with
      | Maintenance.RunFn name args => query name args = true
      | IdleCheckFn | Maintenance.ReadFileFn _ | Maintenance.NowFn => True
      | _ => False
      end
  | InInstall e => match e with HookInstall.GlobFn _ | HookInstall.ReadFileFn _ => True | _ => False end
  | InBootstrap e => match e with Bootstrap.RunFn name args => query name args = true | Bootstrap.WriteFileFn _ _ => False | _ => True end
  | InClean e => clean_reads _ e
  | InDisk e => match e with Hostdisk.StatfsFn _ => True | InCleanup e => clean_reads _ e end
  | InReap e => match e with CancelFn _ _ => False | _ => True end
  | InUpgrade e => match e with UpStat _ => True | _ => False end
  | _ => True
  end.

(** Structural proofs that a program only reads. *)
Ltac reads_step :=
  match goal with
  | |- only _ (call _) => apply only_call; first [exact I | reflexivity]
  | |- only _ (mret _) => apply only_ret
  | |- only _ (mbind _ _) => apply only_bind; [|intros ?]
  | |- only _ (match ?x with _ => _ end) => destruct x
  end.
Ltac reads_tac := cbv beta iota delta [negb]; repeat (reads_step; cbv beta iota delta [negb]); try done.

(** A program within a specification that answers everything and allows only [P] calls. *)
Lemma wpp_only {E : Type -> Type} {S A} (sp : spec E S) (P : forall B, E B -> Prop) (m : prog E A) Q s :
  (forall B (e : E B) s, allowed sp e s -> P B e /\ forall b, exists s', answers sp e s b s') -> wpp sp m Q s -> only P m.
Proof.
  intros Hsp. revert s. induction m as [a|B e k IH]; intros s; cbn; [done|]. intros [Ha Hk]. destruct (Hsp _ e s Ha) as [HP Hans].
  split; [done|]. intros b. destruct (Hans b) as [s' Hs']. eapply IH, Hk, Hs'.
Qed.

(** A linked program calls what its parts call. *)
Lemma only_at {E F : Type -> Type} (P : forall B, E B -> Prop) (Q : forall B, F B -> Prop) (h : forall B, E B -> F B) {A} (m : prog E A) :
  (forall B (e : E B), P B e -> Q B (h B e)) -> only P m -> only Q (link (fun B e => call (h B e)) m).
Proof.
  intros Hh. induction m as [a|B e k IH]; cbn; [done|]. intros [He Hk]. split; [by apply Hh|]. intros b. by apply IH, Hk.
Qed.

(** *** The dry runs of the packages *)

Section dry.
Context `{SortSlice} `{MapRange}.

Definition runner_reads B (e : runnerE B) : Prop :=
  match e with RunnerLifecycle.RunFn name args => query name args = true | _ => True end.

Lemma reads_resolve short unit : only runner_reads (resolve_unit short unit).
Proof. unfold resolve_unit, resolveUnitByShort, list_units, List. reads_tac. Qed.

Lemma reads_Restart duration_String opts : rs_Execute opts = false -> only runner_reads (Restart duration_String opts).
Proof.
  intros Hx. unfold Restart. destruct (validateRestartOptions opts); [done|]. cbv zeta. apply only_bind; [apply reads_resolve|].
  intros unit. rewrite Hx. reads_tac.
Qed.

Lemma reads_Upgrade duration_String opts : RunnerLifecycle.up_Execute opts = false -> only runner_reads (Upgrade duration_String opts).
Proof.
  intros Hx. unfold Upgrade. destruct (validateUpgradeOptions opts); [done|]. cbv zeta. apply only_bind; [apply reads_resolve|].
  intros unit. rewrite Hx. unfold old_version. reads_tac.
Qed.

Lemma reads_Add IsPrint opts : ad_Execute opts = false -> only runner_reads (Add IsPrint opts).
Proof.
  intros Hx. unfold Add. assert (ad_Execute (pinned opts) = false) as Hp by (unfold pinned; by repeat case_match).
  destruct (runner_validateOptions (pinned opts)); [done|]. rewrite Hp, run_steps_dry. done.
Qed.

Lemma reads_Remove IsPrint opts : rm_Execute opts = false -> only runner_reads (Remove IsPrint opts).
Proof. intros Hx. unfold Remove. destruct (validateRemoveOptions opts); [done|]. rewrite Hx, run_steps_dry. done. Qed.

Lemma reads_Watchdog decodeState encodeState decodeHook decodeConfig decodeString url_Parse decodeRunners opts :
  wo_Execute opts = false ->
  only wd_reads (Watchdog decodeState encodeState decodeHook decodeConfig decodeString url_Parse decodeRunners opts).
Proof.
  intros Hx. unfold Watchdog. cbv zeta. set (o := applyWatchdogScalarDefaults opts). assert (wo_Execute o = false) as Ho by done.
  set (report := mkWReport _ _ _ _ _ _). assert (report_ok (wo_Execute o) report) as Hr by (split; [by split_and!|by left]).
  destruct (validateWatchdogOptions o) eqn:Hv; [done|]. apply only_bind; [done|]. intros [[]|e]; [done| |done].
  apply only_bind; [done|]. intros [e|]; [done|].
  eapply (wpp_only (wd_spec decodeState encodeState o (may_restart encodeState o)));
    [|by apply (wpp_tick _ _ _ _ _ _ _ _ _ (mkWState false None None None 0 None None None [])); [apply validated_dwell|]].
  intros B e s Ha. split; [|intros b; by eexists].
  destruct e; cbn in *; try done; try (destruct Ha as [Ha _]; congruence); try (destruct Ha; congruence).
  destruct Ha as [[-> (u & p & ->)]|[-> (p & ->)]]; done.
Qed.

Definition maint_reads B (e : maintE B) : Prop :=
  match e with
  | Maintenance.RunFn name args => query name args = true
  | IdleCheckFn | Maintenance.ReadFileFn _ | Maintenance.NowFn => True
  | _ => False
  end.

Lemma reads_Enter `{StateCodec} formatTime decodePages opts : mo_Execute opts = false -> only maint_reads (Enter formatTime decodePages opts).
Proof.
  intros Hx. unfold Enter. cbv zeta. destruct (_ && _); [done|]. change (mo_Execute (maint_applyDefaults opts)) with (mo_Execute opts).
  rewrite Hx. cbn [negb]. unfold dryRunEnter, readState, discoverRunners. reads_tac.
Qed.

Lemma reads_Exit `{StateCodec} decodePages opts : mo_Execute opts = false -> only maint_reads (Exit decodePages opts).
Proof.
  intros Hx. unfold Exit. cbv zeta. change (mo_Execute (maint_applyDefaults opts)) with (mo_Execute opts).
  rewrite Hx. cbn [negb]. unfold dryRunExit, readState. reads_tac.
Qed.

Definition install_reads B (e : installE B) : Prop :=
  match e with HookInstall.GlobFn _ | HookInstall.ReadFileFn _ => True | _ => False end.

Lemma reads_Install opts : io_Execute opts = false -> only install_reads (Install opts).
Proof.
  intros Hx. unfold Install. cbv zeta. set (o := applyInstallDefaults opts). assert (io_Execute o = false) as Ho by done.
  destruct (validateInstallOptions o); [done|]. rewrite Ho. apply only_bind; [done|]. intros [e|]; [done|].
  apply only_bind; [done|]. intros [runners|e]; [|done]. apply only_bind; [|intros [res [e|]]; done].
  generalize (mkInstallResult false (io_HooksDir o) [] false ""). induction (sort_slice String.ltb runners) as [|r l IH]; intros res; cbn [install_runners]; [done|].
  destruct (negb (safeRunnerDir r)); [done|]. cbv zeta. rewrite Ho. apply only_bind; [done|]. intros [e|]; done.
Qed.

Definition boot_reads B (e : bootE B) : Prop :=
  match e with Bootstrap.RunFn name args => query name args = true | Bootstrap.WriteFileFn _ _ => False | _ => True end.

Lemma reads_timers timers : only boot_reads (timers_enabled timers).
Proof. induction timers as [|t timers IH]; cbn [timers_enabled]; [done|]. reads_tac. Qed.

Lemma reads_boot_Run opts : bo_Execute opts = false -> only boot_reads (boot_Run opts).
Proof.
  intros Hx. unfold boot_Run. rewrite Hx. assert (Forall (fun s => only boot_reads (bp_Check s)) (buildSteps opts)) as Hs.
  { unfold buildSteps. cbv zeta. repeat (apply Forall_cons; split); [..|by apply Forall_nil]; cbn [bp_Check];
      unfold check_os, packagesInstalled, tool_present; try (apply only_bind; [apply reads_timers|done]); reads_tac. }
  induction Hs as [|s steps Hs _ IH]; cbn [boot_steps]; [done|]. cbv zeta. apply only_bind; [done|]. intros done_.
  assert (forall x, only boot_reads (out ← boot_steps false steps; mret (x :: out))) as Hn by (intros x; by apply only_bind).
  destruct done_ as [[]|e]; cbn [negb]; [apply Hn..|destruct (bp_HardFail s); [done|apply Hn]].
Qed.

Lemma reads_reap_loop opts repo heads total cs : rp_Execute opts = false -> forall i report,
  only (fun B (e : reapE B) => match e with CancelFn _ _ => False | _ => True end) (reap_loop opts repo heads total i cs report).
Proof.
  intros Hx. induction cs as [|c cs IH]; intros i report; cbn [reap_loop]; [done|]. cbv zeta. rewrite Hx. destruct (_ <=? i); [done|apply IH].
Qed.

Lemma reads_Reap opts : rp_Execute opts = false -> only (fun B (e : reapE B) => match e with CancelFn _ _ => False | _ => True end) (Reap opts).
Proof.
  intros Hx. unfold Reap. cbv zeta. destruct (rp_Repos (reap_applyDefaults opts)) as [|r rs]; [done|].
  generalize (r :: rs), (mkReport (rp_Execute (reap_applyDefaults opts)) [] 0 0 0 [] 0). intros repos.
  induction repos as [|repo repos IH]; intros report; cbn [reap_repos]; [done|]. destruct (ValidateRepo repo); [done|]. apply only_bind; [|done].
  unfold reapRepo. apply only_bind; [done|]. intros [heads|e]; [|done]. apply only_bind; [done|]. intros [runs|e]; [|done].
  by apply reads_reap_loop.
Qed.

Lemma reads_upgrade opts : SelfUpgrade.up_Execute opts = false ->
  only (fun B (e : upgradeE B) => match e with UpStat _ => True | _ => False end) (upgrade_Run opts).
Proof.
  intros Hx. unfold upgrade_Run. cbv zeta. change (SelfUpgrade.up_Execute (up_applyDefaults opts)) with (SelfUpgrade.up_Execute opts).
  rewrite Hx. cbn [negb]. reads_tac.
Qed.
End dry.

Section dry_cleanup.
Context `{SortSlice} `{MapRange}.
Context (decodeVolumes : string -> result (list dockerVolumeMetadata)) (decodeDF : string -> result dockerSystemDFRow).
Context (scale : string -> Z -> option Z).

Definition trim_reads B (e : trimE B) : Prop := match e with Cachetrim.RemoveAllFn _ => False | _ => True end.

Lemma reads_trim_deps {A} (m : prog trimE A) : only trim_reads m -> only clean_reads (link trim_deps m).
Proof.
  induction m as [a|B e k IH]; cbn; [done|]. intros [He Hk]. apply only_bind; [destruct e; try done; split; [done|]; by intros []|]. intros b. apply IH, Hk.
Qed.

Lemma reads_trimEntries opts c es : to_Execute opts = false -> forall rm target freed allow,
  only trim_reads (trimEntries es rm target freed allow opts c).
Proof.
  intros Hx. induction es as [|e es IH]; intros rm target freed allow; cbn [trimEntries]; [done|]. destruct rm as [|b rm]; [done|].
  cbv zeta. rewrite Hx. reads_tac; apply IH.
Qed.

Lemma reads_TrimByAge opts c : to_Execute opts = false -> only trim_reads (TrimByAge opts c).
Proof.
  intros Hx. assert (forall o, to_Execute o = false -> only trim_reads
    (g ← trimGuards o c (mkTrimResult (cp_Path c) 0 0 (to_Execute o) None false);
     match g with inl r => mret r | inr (entries, total, r) => trim_passes o c entries total r end)) as Hgo.
  { intros o Ho. apply only_bind; [unfold trimGuards, collectUnits, wipe; rewrite Ho; reads_tac|].
    intros [r|[[entries total] r]]; [done|]. unfold trim_passes. cbv zeta. reads_tac; by apply reads_trimEntries. }
  unfold TrimByAge, withDefaults. destruct (IsZero _); [split; [done|]; intros now; by apply Hgo|by apply Hgo].
Qed.

Lemma reads_Caps homes : only trim_reads (Caps homes).
Proof.
  assert (forall gb depth whole glob subs, only trim_reads (family homes gb depth whole glob subs)) as Hf.
  { intros. unfold family. apply only_bind; [eapply only_mono; [apply only_family_dirs|by intros B []]|]. intros dirs. apply only_bind; [|done].
    unfold existingDirs. generalize (∅ : gset string). induction dirs as [|d dirs IH]; intros seen; cbn [existing_dirs]; [done|]. reads_tac; apply IH. }
  unfold Caps. repeat (apply only_bind; [apply Hf|intros ?]). done.
Qed.

Lemma reads_ensureIdle opts : co_Execute opts = false -> Cleanup.ensureIdle opts = mret None.
Proof. intros Hx. unfold Cleanup.ensureIdle. rewrite Hx. by destruct (co_SkipIdleGuard opts). Qed.

Lemma reads_scan opts name root threshold : co_Execute opts = false -> only clean_reads (scanAndMaybeDelete opts name root threshold).
Proof.
  intros Hx. unfold scanAndMaybeDelete. cbv zeta. rewrite Hx. apply only_bind; [unfold validateCleanupRoot; reads_tac|].
  intros [root'|e]; [|done]. apply only_bind; [done|]. intros [vs err]. apply only_bind; [|intros [found toDelete]; destruct err; done].
  generalize (@None string), 0, (@nil deleteCandidate). induction vs as [|v vs IH]; intros skip found toDelete; cbn [scan_walk]; [done|].
  unfold dirSize. reads_tac; apply IH.
Qed.

Lemma reads_scan_roots opts name threshold : co_Execute opts = false -> forall roots a, only clean_reads (scan_roots opts name roots threshold a).
Proof.
  intros Hx. induction roots as [|r roots IH]; intros a; cbn [scan_roots]; [done|]. apply only_bind; [by apply reads_scan|]. intros ?. apply IH.
Qed.

Lemma reads_run_unlocked o : co_Execute o = false -> only clean_reads (run_unlocked decodeVolumes decodeDF scale o).
Proof.
  intros Ho. unfold run_unlocked. rewrite Ho. cbn [andb]. unfold run_idle.
  apply only_bind; [by apply reads_scan|intros tmp]. apply only_bind; [|intros work].
  { unfold scanWorkAndMaybeDelete, workCleanupRoots, discovered. apply only_bind; [reads_tac|]. intros [|r [|r' l]]; by first [apply reads_scan|apply reads_scan_roots]. }
  apply only_bind; [|intros codespace].
  { unfold scanCodespaceAndMaybeDelete, codespaceCleanupRoots, discovered. apply only_bind; [reads_tac|]. intros [|r [|r' l]]; by first [done|apply reads_scan|apply reads_scan_roots]. }
  apply only_bind; [|intros caches].
  { unfold cacheTrimActions, cacheHomeRoots, workCleanupRoots, discovered. apply only_bind; [reads_tac|]. intros homes. apply only_bind; [apply reads_trim_deps, reads_Caps|].
    intros caps. induction caps as [|c caps IH]; cbn [trim_caps]; [done|]. apply only_bind; [by apply reads_trim_deps, reads_TrimByAge|]. intros r. reads_tac. }
  unfold when, dockerPrune, dockerManagedVolumePrune, aptClean, dockerLocalVolumeReclaimable, listComposeVolumes, inspectManagedComposeVolumes.
  rewrite Ho. reads_tac.
Qed.

Lemma reads_cleanup opts : co_Execute opts = false -> only clean_reads (Cleanup.Run decodeVolumes decodeDF scale opts).
Proof.
  intros Hx. unfold Cleanup.Run, clean_applyDefaults. destruct (IsZero _); [split; [done|]; intros now|];
    cbn -[run_unlocked]; rewrite Hx; by apply reads_run_unlocked.
Qed.

Definition disk_reads B (e : Hostdisk.diskE B) : Prop := match e with Hostdisk.StatfsFn _ => True | InCleanup e => clean_reads _ e end.

Lemma reads_disk opts : do_Execute opts = false -> only disk_reads (disk_Check decodeVolumes decodeDF scale opts).
Proof.
  intros Hx. unfold disk_Check. cbv zeta. destruct (_ || _); [done|]. apply only_bind; [done|]. intros [[total free]|e]; [|done].
  destruct (total =? 0); [done|]. destruct (_ <=? _); [done|]. unfold buildCleanupOptions. split; [done|]. intros now.
  apply only_bind; [|done]. unfold in_cleanup. apply (only_at clean_reads); [done|]. by apply reads_cleanup.
Qed.
End dry_cleanup.

(** *** The commands *)

Lemma reads_with_flags ParseDuration fs args k :
  fs !! "execute" = Some (FBool false) -> Forall (fun a => sets_flag "execute" a = false) args ->
  (forall fs', flag_bool fs' "execute" = false -> only reads (k fs')) -> only reads (with_flags ParseDuration fs args k).
Proof.
  intros Hf Ha Hk. unfold with_flags. destruct (Parse _ fs args) as [fs'|e] eqn:E; [|done]. apply Hk. by eapply flag_unset.
Qed.

Lemma reads_pause execute d : only reads (pause execute d).
Proof. by destruct execute. Qed.

Lemma reads_home dir : only reads (or_home dir).
Proof. unfold or_home, userHomeOrDefault. reads_tac. Qed.

Lemma reads_rendered json exit : only reads (rendered json exit).
Proof. unfold rendered. reads_tac. Qed.

(** The plan is shown, and no step is taken. *)
Lemma everything_dry steps : runEverythingSteps steps false = mret ((fun s => mkEResult (es_Name s) (es_WouldDo s) false None) <$> steps).
Proof. induction steps as [|s steps IH]; [done|]. cbn [runEverythingSteps negb]. by rewrite IH. Qed.

(** Through the shared front of a command to the package. *)
Ltac front :=
  repeat first
    [ progress intros
    | progress cbv zeta
    | apply only_ret
    | apply reads_rendered
    | match goal with
      | |- only reads (mbind _ _) => apply only_bind
      | |- only reads (call _) => apply only_call; exact I
      | |- only reads (pause _ _) => apply reads_pause
      | |- only reads (deadline _ _) => apply only_call; exact I
      | |- only reads (or_home _) => apply reads_home
      | |- only reads (match ?x with _ => _ end) => destruct x
      end ].

Section commands_read.
Context (ParseDuration : string -> option Z) `{SortSlice} `{MapRange} (IsPrint : Z -> bool) (duration_String : Z -> string).
Context (decodeState : string -> result rerunState) (encodeState : rerunState -> result string).
Context (decodeHook : string -> option hookLogRecord).
Context (decodeConfig : string -> option (gmap string string)) (decodeString : string -> option string).
Context (url_Parse : string -> option (string * string * string)).
Context (decodeRunners : string -> result (list WatchdogGitHubRunner)).
Context `{StateCodec} (formatTime : Z -> string) (decodePages : string -> result (list runnerAPIPage)).
Context (decodeVolumes : string -> result (list dockerVolumeMetadata)) (decodeDF : string -> result dockerSystemDFRow).
Context (scale : string -> Z -> option Z).
Context (args : list string) (Hargs : Forall (fun a => sets_flag "execute" a = false) args).

Lemma reads_runRunner : only reads (runRunner ParseDuration IsPrint duration_String decodeState encodeState decodeHook decodeConfig
                                      decodeString url_Parse decodeRunners args).
Proof.
  unfold runRunner. destruct args as [|sub rest]; [done|]. apply Forall_cons in Hargs as [_ Hrest].
  destruct (String.eqb sub "add").
  { apply reads_with_flags; [done..|]. intros fs Hx. front; [unfold userNameOrDefault; reads_tac|].
    apply (only_at runner_reads); [done|]. by apply reads_Add. }
  destruct (String.eqb sub "list").
  { unfold runRunnerList, with_flags. destruct (Parse _ _ rest); front; try done.
    apply (only_at runner_reads); [done|]. unfold list_units, List. reads_tac. }
  destruct (String.eqb sub "remove").
  { apply reads_with_flags; [done..|]. intros fs Hx. front. apply (only_at runner_reads); [done|]. by apply reads_Remove. }
  destruct (String.eqb sub "restart").
  { apply reads_with_flags; [done..|]. intros fs Hx. front. apply (only_at runner_reads); [done|]. by apply reads_Restart. }
  destruct (String.eqb sub "upgrade").
  { apply reads_with_flags; [done..|]. intros fs Hx. front. apply (only_at runner_reads); [done|]. by apply reads_Upgrade. }
  destruct (String.eqb sub "watchdog"); [|done].
  apply reads_with_flags; [done..|]. intros fs Hx. front. apply (only_at wd_reads); [done|]. by apply reads_Watchdog.
Qed.

Lemma reads_runMaintenance : only reads (runMaintenance ParseDuration formatTime decodePages args).
Proof.
  unfold runMaintenance. destruct args as [|sub rest]; [done|]. apply Forall_cons in Hargs as [_ Hrest].
  destruct (String.eqb sub "enter"); [|destruct (String.eqb sub "exit"); [|done]].
  all: apply reads_with_flags; [done..|]; intros fs Hx; front; apply (only_at maint_reads); [done|]; by first [apply reads_Enter|apply reads_Exit].
Qed.
End commands_read.

Lemma flag_name_spec s n v : flag_name s = AFlag n v -> s = n +:+ match v with Some v => "=" +:+ v | None => "" end.
Proof.
  intros Hs. assert (match Cut "=" s with Some (n, v) => AFlag n (Some v) | None => AFlag s None end = AFlag n v) as Hc.
  { unfold flag_name in Hs. repeat case_match; simplify_eq; done. }
  destruct (Cut "=" s) as [[a b]|] eqn:E; simplify_eq; [by apply Cut_inv in E|by rewrite app_empty_r].
Qed.

(** An argument gives the flag in one of four forms. *)
Lemma sets_flag_spec name a : sets_flag name a = true ->
  exists dashes v, dashes ∈ ["-"; "--"] /\ a = dashes +:+ name +:+ match v with Some v => "=" +:+ v | None => "" end.
Proof.
  unfold sets_flag. destruct (read_argument a) as [| |n v] eqn:E; [done..|]. intros ->%String.eqb_eq.
  assert (exists dashes s, dashes ∈ ["-"; "--"] /\ a = dashes +:+ s /\ flag_name s = AFlag name v) as (dashes & s & Hd & -> & Hs%flag_name_spec).
  { destruct a as [|c [|d s]]; [done| |]; unfold read_argument in E.
    - repeat case_match; simplify_eq.
    - repeat (case_match; simplify_eq);
        first [exists "--"; eexists; split_and!; [set_solver|reflexivity|done] | exists "-"; eexists; split_and!; [set_solver|reflexivity|done]]. }
  exists dashes, v. by rewrite Hs.
Qed.

(** ** The promise of the command line *)

(** C31. Nothing changes without [--execute].  Whatever the other arguments are, a command
    of this file that is not given the flag in any of its four forms only reads: whatever
    the host and GitHub answer, it deletes, writes and renames no file, starts, stops and
    restarts no unit, cancels, reruns and unlabels nothing, takes no lock and runs no
    command but the questions listed above; and the copy of the program under the name of a
    hook, which adds the flag itself, never reaches one of these commands. *)
Theorem nothing_changes_without_execute ParseDuration `{SortSlice} `{MapRange} IsPrint duration_String decodeState encodeState decodeHook
    decodeConfig decodeString url_Parse decodeRunners `{StateCodec} formatTime decodePages decodeVolumes decodeDF scale arg0 osArgs m :
  main ParseDuration IsPrint duration_String decodeState encodeState decodeHook decodeConfig decodeString url_Parse decodeRunners
    formatTime decodePages decodeVolumes decodeDF scale arg0 osArgs = Here m ->
  (forall a dashes v, a ∈ osArgs -> dashes ∈ ["-"; "--"] -> a <> dashes +:+ "execute" /\ a <> dashes +:+ "execute=" +:+ v) ->
  hookEventFromArgv0 arg0 = None /\ only reads m.
Proof.
  intros Hm Hno. assert (Forall (fun a => sets_flag "execute" a = false) osArgs) as Ha.
  { apply Forall_forall. intros a Hin. apply not_true_iff_false. intros (dashes & v & Hd & ->)%sets_flag_spec.
    destruct v as [v|]; [by destruct (Hno _ dashes v Hin Hd)|]. by destruct (Hno _ dashes "" Hin Hd). }
  unfold main in Hm. destruct (hookEventFromArgv0 arg0) as [event|] eqn:Ee.
  { unfold hookEventFromArgv0 in Ee. case_bool_decide as Hin; [|done]. injection Ee as <-. unfold runHook in Hm.
    rewrite !elem_of_cons in Hin. destruct Hin as [Hb|[Hb|Hb%not_elem_of_nil]]; [by rewrite Hb in Hm..|done]. }
  split; [done|]. destruct osArgs as [|cmd args]; [by simplify_eq|]. apply Forall_cons in Ha as [_ Ha].
  repeat (case_match; try (injection Hm as <-)); try done.
  - unfold runCapability. by destruct args as [|? []].
  - apply reads_with_flags; [done..|]. intros fs Hx. front; (apply (only_at clean_reads); [done|]); [done|by apply reads_cleanup].
  - apply reads_with_flags; [done..|]. intros fs Hx. front. apply (only_at boot_reads); [done|]. by apply reads_boot_Run.
  - by apply reads_runRunner.
  - apply reads_with_flags; [done..|]. intros fs Hx. front. apply (only_at disk_reads); [done|]. by apply reads_disk.
  - unfold runHook in Hm. destruct args as [|sub rest]; [by simplify_eq|]. case_match; simplify_eq. apply Forall_cons in Ha as [_ Ha].
    apply reads_with_flags; [done..|]. intros fs Hx. front. apply (only_at install_reads); [done|]. by apply reads_Install.
  - by apply reads_runMaintenance.
  - apply reads_with_flags; [done..|]. intros fs Hx. cbv zeta. rewrite Hx, everything_dry. front.
  - apply reads_with_flags; [done..|]. intros fs Hx. front. apply (only_at (fun B (e : upgradeE B) => match e with UpStat _ => True | _ => False end)); [done|].
    by apply reads_upgrade.
  - apply reads_with_flags; [done..|]. intros fs Hx. front. apply (only_at (fun B (e : reapE B) => match e with CancelFn _ _ => False | _ => True end)); [done|].
    by apply reads_Reap.
Qed.

Definition no_duration (s : string) : option Z := None.
Definition undecodable {A} (s : string) : result A := Err (Errorf "json").

(** The program with parameters that decode nothing. *)
Definition plain_main (arg0 : string) (osArgs : list string) : dispatch :=
  @main no_duration SortSlice_insertion MapRange_to_list (fun _ => true) Itoa undecodable (fun _ => Ok "") (fun _ => None) (fun _ => None)
    (fun _ => None) (fun _ => None) undecodable number_codec (fun _ => "") undecodable undecodable undecodable (fun _ _ => None) arg0 osArgs.

Definition here (d : dispatch) : prog ctlE Z := match d with Here m => m | Elsewhere _ _ => mret 0 end.

(** A restart is only planned, although a value looks like the flag of another command. *)
Lemma nothing_changes_without_execute_witness :
  let args := ["runner"; "restart"; "--short"; "web"; "--verify-delay=0x10"] in
  hookEventFromArgv0 "/usr/local/bin/civmctl" = None /\ only reads (here (plain_main "/usr/local/bin/civmctl" args)).
Proof.
  intros args. refine (nothing_changes_without_execute no_duration (fun _ => true) Itoa undecodable (fun _ => Ok "") (fun _ => None) (fun _ => None)
    (fun _ => None) (fun _ => None) undecodable (fun _ => "") undecodable undecodable undecodable (fun _ _ => None)
    "/usr/local/bin/civmctl" args (here (plain_main "/usr/local/bin/civmctl" args)) eq_refl _).
  intros a dashes v Ha Hd. apply list_elem_of_In in Ha, Hd. cbn in Ha, Hd.
  repeat (destruct Ha as [<-|Ha]); try done; repeat (destruct Hd as [<-|Hd]); try done.
Defined.

(** ** A fresh host

    The units in the systemd directory and the timers that were enabled.  systemctl refuses
    to enable a timer whose unit is not there; the tools are installed already. *)
Record fresh_host := mkFreshHost { fh_units : list string; fh_timers : list string }.

Definition pinned_tools : string :=
  let version tool := Preferred (fst (FindTool Ubuntu2404 tool)) in
  "go" +:+ version "go" +:+ " " +:+ version "gh" +:+ " " +:+ version "yq".

Definition on_fresh_host B (e : bootE B) : St fresh_host B :=
  match e in bootE B return St fresh_host B with
  | OSReader => fun h => (Ok ("VERSION_ID=" +:+ String "034" ("24.04" +:+ String "034" "")), h)
  | Bootstrap.RunFn name args => fun h =>
      if String.eqb name "systemctl" then
        match args with
        | [_; _; timer] => if bool_decide (PathJoin DefaultSystemdDir timer ∈ fh_units h)
                           then (("", None), mkFreshHost (fh_units h) (timer :: fh_timers h))
                           else (("", Some (Errorf "Unit file does not exist")), h)
        | _ => (("disabled", None), h)
        end
      else ((pinned_tools, None), h)
  | Bootstrap.WriteFileFn _ _ => fun h => (None, h)
  | Bootstrap.SHA256FileFn _ => fun h => (Ok "", h)
  | Bootstrap.Glob _ => fun h => (Ok [], h)
  end.

(** What the copies of bootstrap-everything leave in the systemd directory. *)
Definition copied_units (names : list string) : list string :=
  names ≫= fun name => [PathJoin DefaultSystemdDir (name +:+ ".service"); PathJoin DefaultSystemdDir (name +:+ ".timer")].

(** bootstrap-everything does not copy all the timers that the bootstrap then enables: on a
    fresh host the second one has no unit, the step fails, and of the timers only that of
    the cleanup runs, whatever was asked for. *)
Theorem fresh_host_is_not_provisioned watchdog runnerWatchdog reverseWatchdog metricsTimer :
  let names := timerNames watchdog runnerWatchdog reverseWatchdog metricsTimer in
  let opts := boot_options true watchdog runnerWatchdog reverseWatchdog metricsTimer 0 in
  let '(results, h) := interp on_fresh_host (boot_Run opts) (mkFreshHost (copied_units names) []) in
  failed_exit (br_Err <$> results) = 1 /\ fh_timers h = ["civmctl-cleanup.timer"] /\ (1 < length (timerList opts))%nat.
Proof. destruct watchdog, runnerWatchdog, reverseWatchdog, metricsTimer; vm_compute; (split_and!; [done..|lia]). Qed.
